(* ===== verification/_CoqProject ===== *)
-Q . S2P
Prelude.v
Coding.v
Crc32c.v
Status.v
Hash.v
Bloom.v
FilterWorkers.v
Random.v
Arena.v
Comparator.v
DbFormat.v
SkipList.v
MemTable.v
WriteBatch.v
Logging.v
Filename.v
Log.v
TableFormat.v
Block.v
Iterators.v
TwoLevel.v
Merger.v
DbIter.v
DbSnapshot.v
FilterBlock.v
TableFilters.v
TableBuilder.v
Table.v
Cache.v
ShardedCache.v
TableOpen.v
TableIndex.v
TableGet.v
TableLookup.v
TableIter.v
TableErrors.v
VersionEdit.v
Version.v
VersionGet.v
VersionBuilder.v
Manifest.v
VersionSet.v
VersionRefs.v
VersionApply.v
VersionRecover.v
VersionHistory.v
Compaction.v
CompactionInputs.v
MultiQueue.v
QueueLists.v
QueueInvariant.v
QueueClient.v
QueueHistory.v
QueueFrame.v
QueueTables.v
DbCompact.v
CompactionView.v
CompactionOutputs.v
DbWrite.v
WriteGroups.v
DbRecover.v
RecoverLogs.v
WriteRecovery.v
ObsoleteFiles.v
DbGet.v
DbRead.v
VersionIter.v
VersionScan.v
TableCaching.v
RegionFreqs.v
QueueSteps.v
CachedTables.v
CachedLookup.v
CachedGet.v
