(* ===== verification/Prelude.v ===== *)
(** * A verified model of the LSM-EBF storage engine

    LSM-EBF (src/LSM-EBF) is a LevelDB whose tables carry several small bloom
    filters per key region ("elastic bloom filters"): a multi queue decides how
    many filters of each region are kept in memory, and the table loads or drops
    them.  Writes go as batches to a log and a memtable; memtables are written
    out as tables of sorted, prefix-compressed blocks with an index block, filter
    blocks and a footer; the set of tables is described by version edits in a
    descriptor log.

    This library is a shallow embedding of the engine's C++ code: every function
    of the source that is modelled is a Rocq function of the same name where
    possible, executable, over byte strings as lists of [Z] and machine integers
    as [Z] with the wrap-around written out ([u8], [u32], [u64]).  Effects are
    explicit: a stateful operation takes the state and returns the new one, an
    error is a [Status] value, [None] is a run the source leaves undefined or
    (where noted) out of fuel, and threads are step relations.

    ** Parts, and the files that model them

    - [Prelude]: machine integers, byte strings, tactics, hint databases and the
      list lemmas shared by all files.
    - [Coding] (util/coding.h, coding.cc): fixed-width and varint encodings.
    - [Crc32c] (util/crc32c.h, crc32c.cc, port/port_posix_sse.cc): the checksum;
      the class [Crc32c] is the interface the log and table files use.
    - [Status] (util/status.cc, include/leveldb/status.h, env.h): status values and
      files; a file carries the outcomes of its operations, so theorems quantify
      over every pattern of failures.
    - [Hash] (util/hash.cc), [Bloom] (util/bloom.cc, multi_bloom.cc): the bloom
      filters; [FilterWorkers]: the threads that build them.
    - [Random] (util/random.h), [SkipList] (db/skiplist.h), [MemTable]
      (db/memtable.cc), [WriteBatch] (db/write_batch.cc): the write path in memory.
    - [Comparator] (util/comparator.cc, slice.h), [DbFormat] (db/dbformat.cc): key
      orders; the classes [Comparator] and [ComparatorLaws] are the interface
      between key orders and the structures that sort by them.
    - [Log] (db/log_writer.cc, log_reader.cc): the write-ahead log.
    - [TableFormat] (table/format.cc), [Block] (table/block_builder.cc, block.cc),
      [FilterBlock] (table/filter_block.cc), [TableFilters] (the filter part of
      table/table.cc): tables.  [FilterPolicy] and [FilterPolicyLaws] are the
      interface between filter policies and filter blocks.
    - [TableBuilder] (table/table_builder.cc), [Table] (table/table.cc: opening,
      the block reader, point lookups), with their proofs in [TableOpen],
      [TableIndex], [TableGet], [TableLookup], [TableIter] and [TableErrors].
    - [Iterators] (include/leveldb/iterator.h, table/iterator.cc): the interface
      [Iterator] and its contract [cursor_over]; [TwoLevel]
      (table/two_level_iterator.cc), [Merger] (table/merger.cc) and [DbIter] with
      [DbSnapshot] (db/db_iter.cc) are verified against it.
    - [Cache] and [ShardedCache] (util/cache.cc): one shard and the sharded LRU
      cache, which implements the interface [BlockCache] the tables use.
    - [Arena] (util/arena.cc), [Logging] (util/logging.cc), [Filename]
      (db/filename.cc, util/env.cc): memory, numbers, file names and CURRENT.
    - [Version] (db/version_set.cc: file search, overlaps, inputs), [VersionGet]
      ([Version::Get] against the interface [TableCache]) and [VersionBuilder]
      (applying edits to the shared heap of files).
    - [Manifest] and [VersionSet] (db/version_set.cc, util/env.cc): versions and
      files with their reference counts, [LogAndApply], the descriptor log and
      [Recover]; proofs in [VersionRefs] (lifetimes), [VersionApply]
      ([LogAndApply] under failures), [VersionRecover] and [VersionHistory]
      (crash recovery of a history of edits).
    - [Compaction] (db/version_set.cc: [PickCompaction], [SetupOtherInputs],
      [CompactRange] and class [Compaction]), with its proofs in
      [CompactionInputs].
    - [MultiQueue] (util/multi_queue.cc: the queues that decide how many filters a
      region keeps) over the interface [RegionTable]; [QueueLists] (places on the
      lists), [QueueInvariant] (shrinking and promotion), [QueueClient] (lookups,
      releases, insertion, removal), [QueueHistory] (runs); [QueueTables] shows
      that the tables of [Table] implement the interface.
    - [DbWrite] (db/db_impl.cc: [Write], [BuildBatchGroup], [MakeRoomForWrite]) as
      an interleaving of the leader with arriving writers and the background
      thread; [WriteGroups] has its invariant.
    - [DbRecover] (db/builder.cc; db/db_impl.cc: [WriteLevel0Table],
      [CompactMemTable], [RecoverLogFile], [Recover], [DB::Open],
      [DeleteObsoleteFiles]); [RecoverLogs] (replay of a log), [WriteRecovery] (the
      write path and recovery together) and [ObsoleteFiles] (garbage collection).
    - [DbGet] (db/db_impl.cc: [DBImpl::Get]) with [DbRead], which puts it together
      with the write path, the memtables and [Version::Get].
    - [VersionIter] (db/version_set.cc: [LevelFileNumIterator], [AddIterators],
      [MakeInputIterator]; db/db_impl.cc: [NewInternalIterator], [NewIterator])
      over the interface [TableIterators]; [VersionScan] puts it together with
      the memtables, the merging iterator and the database iterator.
    - [TableCaching] (db/table_cache.cc) over the multi queue and the tables;
      [RegionFreqs] (the frequencies of compaction outputs), [QueueFrame] (what no
      call on the queue changes), [QueueSteps] (several calls in a row),
      [CachedTables] (the tables of files, and their ids in the block cache),
      [CachedLookup] (the invariant, kept by [FindTable], [Get] and [Evict]) and
      [CachedGet] (the answers of [Get]).
    - [DbCompact] (db/db_impl.cc: [DoCompactionWork] with its output files and the
      rule that drops entries; db/snapshot.h); [CompactionView] (what is dropped
      is never missed) and [CompactionOutputs] (what is written).
    - [VersionEdit] (db/version_edit.cc): descriptor records.

    ** What the theorems show

    - Encodings are inverse to their decoders (integers, internal keys, blocks,
      log records, version edits, batches), and decoding arbitrary bytes always
      returns.
    - Refinements: the block iterator and the skip list iterator are cursors into
      the list of their entries; the memtable is a multi-version map; a batch is
      the list of its operations.
    - The filters never lose a key: for one filter, for any number of loaded
      elastic filters, and for any sequence of loads and evictions by regions.
    - Concurrency: the filter workers end with the sequential result in every
      interleaving; a lock-free reader of the skip list sees the list before or
      after a concurrent insertion.
    - Crash recovery: any prefix of a log reads back as the records wholly in it.
    - Tables: a table built from sorted internal keys, opened and used in any way
      (lookups, filter adjustments, a shared cache), answers each lookup with the
      newest visible entry and iterates over exactly its entries; builders that
      report success have written everything, except for the filter blocks: any but
      the last may be lost, and the loss is never reported.
    - Scans: the two-level, merging and database iterators are cursors over the
      blocks, the union of their children and the user's view at a snapshot; so a
      scan of the database shows the user's view of its memtables and levels.
    - The LRU cache keeps held handles readable, answers only the last entry of a
      key and calls every deleter once; the sharded cache is a map that may forget.
    - Versions: a lookup answers from the newest version of the key over all
      levels, at a snapshot that sees the last entry of the files of level 0 that
      end in the key ([ends_seen]: else table_cache.cc:351 is reached); overlapping inputs are the least closed set; a memtable file is
      only pushed below files it does not overlap; saved versions are well formed
      with exact reference counts, and the builder aborts exactly when files left
      above level 0 overlap.
    - The version set: [LogAndApply] is all or nothing whatever writes fail, and after a crash [Recover] restores
      exactly the version of the last complete edit of the descriptor.
    - Compactions: the picked inputs leave out no file of the next level, or of
      level 0, that may share a key with them; the forward-moving test for the
      base level equals a full scan.  [split_key_resurrected] shows what happens
      to a key that a level above 0 splits over two files.  The work of a
      compaction keeps the answers of every lookup at a live snapshot, and its
      outputs are exactly the tables of the kept entries.
    - Writes are applied in the order of arrival, whole and once, with consecutive
      sequence numbers, whatever log writes fail: the memtables written out, the
      one being written out and the current one hold exactly them; the leader
      never gets stuck.
    - Reads: [Get] sees exactly the writes told OK, in any state of the write queue
      whose version answers as the memtables that were written out, at any
      snapshot with [ends_seen].
    - Recovery: whatever part of the end of the log a crash loses, the groups whose
      records are wholly in the file are restored, in order; with [reuse_logs] a
      torn record costs later writes.  Garbage collection removes only files nobody
      needs, whatever deletions fail.
    - Switching CURRENT is atomic under failures and crashes; the arena's regions
      never overlap; names and numbers parse back.
    - The multi queue: in every run the queue of a region is the number of its
      filters in memory, over any tables that keep the promises of the interface
      and so over the tables of table.cc; a call returns unless the forced
      shrinking needs more than the longest queue has, when it never ends;
      shrinking brings the usage within a capacity of at least one filter, or
      empties the queues; filters are taken from the
      queue with the least expected number of false positives.
    - The table cache answers each lookup with the newest visible entry of the
      file, whatever was cached, evicted or opened again before.  Two cases are
      exact exceptions: a key past the index of the table, after which the call is
      undefined, and a call of the lookup's own on the multi queue that spins
      ([get_spins]).  It gives the regions of a compaction's output the accesses of
      the inputs they overlap.

    ** Bounds and fuel

    Loops that are not structural take fuel computed from their input: the bytes
    left for parsing loops, the number of nodes plus [kMaxHeight] for the skip
    list searches, the length of the text for the log, the number of entries for
    the loops over iterators (a parameter there, with a hypothesis that bounds it).  Each file proves that the
    fuel it passes is enough (the totality and termination theorems), so no
    statement is conditional on a loop returning.

    ** Not modelled

    Code outside the repository is a parameter: Snappy, the CPU's crc
    instructions, the operating system behind files.  Not modelled:
    the background scheduler, manual compactions and properties of [DBImpl];
    repair; statistics; the POSIX and in-memory environments; the benchmark.  Weak
    memory is not modelled: loads and stores of the skip list and of the filter
    flags are sequentially consistent.

    ** Plan

    Left for later: iterators of the table cache held over other calls; manual
    compactions and the background scheduler of [DBImpl]; the in-memory
    environment. *)
From stdpp Require Export prelude list numbers strings.
From Stdlib Require Export ZArith Lia Btauto.

Open Scope Z_scope.

(** ** Machine integers

    A [w]-bit unsigned integer is a [Z] in [0, 2^w); the wrap-around of the
    C++ operators is written out with [u8], [u32] and [u64]. *)

Definition u8 (x : Z) : Z := x mod 2 ^ 8.
Definition u16 (x : Z) : Z := x mod 2 ^ 16.
Definition u32 (x : Z) : Z := x mod 2 ^ 32.
Definition u64 (x : Z) : Z := x mod 2 ^ 64.

(** Conversion to [int] and [int64_t]. *)
Definition i32 (x : Z) : Z := (x + 2 ^ 31) mod 2 ^ 32 - 2 ^ 31.
Definition i64 (x : Z) : Z := (x + 2 ^ 63) mod 2 ^ 64 - 2 ^ 63.

(** [char] is signed on the platforms the build targets: conversion of a byte
    to a wider unsigned type sign-extends. *)
Definition sext8 (w : Z) (b : Z) : Z :=
  if b <? 128 then b else b + 2 ^ w - 256.

Declare Scope word_scope.
Delimit Scope word_scope with word.
Notation "x &&& y" := (Z.land x y) (at level 40, left associativity) : word_scope.
Notation "x ||| y" := (Z.lor x y) (at level 50, left associativity) : word_scope.
Notation "x ^^^ y" := (Z.lxor x y) (at level 45, left associativity) : word_scope.
Open Scope word_scope.

(** ** Byte strings

    [Slice] and [std::string] contents are lists of bytes held as [Z]. *)

Abbreviation bytes := (list Z).

Definition is_byte (b : Z) : Prop := 0 <= b < 256.
Definition bytes_ok (s : bytes) : Prop := Forall is_byte s.

Definition is_byteb (b : Z) : bool := (0 <=? b) && (b <? 256).

(** The bytes of a string literal. *)
Fixpoint str (s : string) : bytes :=
  match s with
  | EmptyString => []
  | String c s => Z.of_nat (Ascii.nat_of_ascii c) :: str s
  end.

(** Length as an unbounded integer, the [size()] of a string. *)
Definition zlen {A} (l : list A) : Z := Z.of_nat (length l).

(** [ptr[i]]: the byte at offset [i] of a buffer.  Reads outside the buffer
    are undefined behaviour in the source; here they give 0, and the theorems
    establish the bounds wherever a result depends on a read. *)
Definition byte_at (p : bytes) (i : nat) : Z := nth i p 0.

(** [std::string::substr]-like slices [data + off, n]. *)
Definition sub_bytes (p : bytes) (off n : nat) : bytes := take n (drop off p).

(** [std::string::resize (n, 0)]. *)
Definition resize0 (p : bytes) (n : nat) : bytes :=
  take n p ++ replicate (n - length p) 0.

(** ** Automation *)

Create HintDb kv.
Create Rewrite HintDb len.

Ltac zsimp :=
  repeat match goal with
  | H : (_ <? _) = true |- _ => apply Z.ltb_lt in H
  | H : (_ <? _) = false |- _ => apply Z.ltb_ge in H
  | H : (_ <=? _) = true |- _ => apply Z.leb_le in H
  | H : (_ <=? _) = false |- _ => apply Z.leb_gt in H
  | H : (_ =? _) = true |- _ => apply Z.eqb_eq in H
  | H : (_ =? _) = false |- _ => apply Z.eqb_neq in H
  | H : (_ && _) = true |- _ => apply andb_prop in H as [? ?]
  | H : (_ || _) = false |- _ => apply orb_false_elim in H as [? ?]
  | H : negb _ = true |- _ => apply negb_true_iff in H
  | H : negb _ = false |- _ => apply negb_false_iff in H
  end.

(** Case analysis on the comparisons of a goal, each with its arithmetic fact. *)
Ltac zcase :=
  match goal with
  | |- context [?a <? ?b] => destruct (Z.ltb_spec a b)
  | |- context [?a <=? ?b] => destruct (Z.leb_spec a b)
  | |- context [?a =? ?b] => destruct (Z.eqb_spec a b)
  end.

Ltac zcases := repeat (zcase; try lia).

(** Unfold the wrap-around operators to [mod], with the powers evaluated. *)
Ltac unfold_words :=
  unfold u8, u32, u64 in *;
  change (2 ^ 8) with 256 in *;
  change (2 ^ 32) with 4294967296 in *;
  change (2 ^ 64) with 18446744073709551616 in *.

(** Decide a linear goal on wrapped integers. *)
Ltac word := unfold_words; unfold is_byte in *; Z.div_mod_to_equations; lia.

(** A decidable closed proposition, by evaluation. *)
Ltac by_decide := apply (bool_decide_unpack _); vm_compute; exact I.

(** Equations between exclusive-or expressions, bit by bit. *)
Ltac lxor_solve := apply Z.bits_inj'; intros ? ?; rewrite ?Z.lxor_spec, ?Z.bits_0; btauto.

(** ** Integer lemmas *)

Lemma u8_small x : 0 <= x < 256 -> u8 x = x.
Proof. intros. apply Z.mod_small. assumption. Qed.

Lemma u32_small x : 0 <= x < 2 ^ 32 -> u32 x = x.
Proof. intros. apply Z.mod_small. assumption. Qed.

Lemma u64_small x : 0 <= x < 2 ^ 64 -> u64 x = x.
Proof. intros. apply Z.mod_small. assumption. Qed.

Lemma u8_range x : 0 <= u8 x < 256.
Proof. apply Z.mod_pos_bound. lia. Qed.

Lemma u32_range x : 0 <= u32 x < 2 ^ 32.
Proof. apply Z.mod_pos_bound. lia. Qed.

Lemma u64_range x : 0 <= u64 x < 2 ^ 64.
Proof. apply Z.mod_pos_bound. lia. Qed.

Lemma u32_idemp x : u32 (u32 x) = u32 x.
Proof. apply u32_small, u32_range. Qed.

Lemma u8_idemp x : u8 (u8 x) = u8 x.
Proof. apply u8_small, u8_range. Qed.

Lemma u8_is_byte x : is_byte (u8 x).
Proof. apply u8_range. Qed.

#[export] Hint Resolve u8_range u32_range u64_range u8_is_byte : kv.

(** Bits of the wrapped integers. *)
Lemma u8_testbit x i : 0 <= i -> Z.testbit (u8 x) i = (i <? 8) && Z.testbit x i.
Proof.
  intros Hi. unfold u8. destruct (Z.ltb_spec i 8); simpl.
  - apply Z.mod_pow2_bits_low. lia.
  - apply Z.mod_pow2_bits_high. lia.
Qed.

Lemma u32_testbit x i : 0 <= i -> Z.testbit (u32 x) i = (i <? 32) && Z.testbit x i.
Proof.
  intros Hi. unfold u32. destruct (Z.ltb_spec i 32); simpl.
  - apply Z.mod_pow2_bits_low. lia.
  - apply Z.mod_pow2_bits_high. lia.
Qed.

Lemma u64_testbit x i : 0 <= i -> Z.testbit (u64 x) i = (i <? 64) && Z.testbit x i.
Proof.
  intros Hi. unfold u64. destruct (Z.ltb_spec i 64); simpl.
  - apply Z.mod_pow2_bits_low. lia.
  - apply Z.mod_pow2_bits_high. lia.
Qed.

Lemma testbit_small x n i : 0 <= x < 2 ^ n -> 0 <= n <= i -> Z.testbit x i = false.
Proof.
  intros Hx Hi. rewrite <- (Z.mod_small x (2 ^ n)) by assumption.
  apply Z.mod_pow2_bits_high. assumption.
Qed.

Lemma land_shiftl_0 a b n :
  0 <= n -> 0 <= a < 2 ^ n -> Z.land a (Z.shiftl b n) = 0.
Proof.
  intros Hn Ha. apply Z.bits_inj'; intros i Hi. rewrite Z.land_spec, Z.bits_0.
  destruct (Z.ltb_spec i n).
  - rewrite Z.shiftl_spec_low by lia. apply andb_false_r.
  - by rewrite (testbit_small a n) by lia.
Qed.

(** [a | (b << n)] when [a] fits in the low [n] bits: no bit is set twice. *)
Lemma lor_shiftl_lxor a b n :
  0 <= n -> 0 <= a < 2 ^ n -> Z.lor a (Z.shiftl b n) = Z.lxor a (Z.shiftl b n).
Proof. intros Hn Ha. symmetry. apply Z.lxor_lor. by apply land_shiftl_0. Qed.

Lemma lor_shiftl_add a b n :
  0 <= n -> 0 <= a < 2 ^ n -> Z.lor a (Z.shiftl b n) = a + b * 2 ^ n.
Proof.
  intros Hn Ha. rewrite lor_shiftl_lxor by assumption.
  rewrite <- Z.add_nocarry_lxor by (by apply land_shiftl_0).
  by rewrite Z.shiftl_mul_pow2.
Qed.

Lemma bits_lt a n : 0 <= n -> 0 <= a -> (forall i, n <= i -> Z.testbit a i = false) -> a < 2 ^ n.
Proof.
  intros Hn Ha H. assert (a = a mod 2 ^ n) as ->.
  { apply Z.bits_inj'. intros i Hi. destruct (Z.ltb_spec i n).
    - by rewrite Z.mod_pow2_bits_low by lia.
    - rewrite Z.mod_pow2_bits_high by lia. apply H. lia. }
  apply Z.mod_pos_bound, Z.pow_pos_nonneg; lia.
Qed.

Lemma lor_lt a b n : 0 <= n -> 0 <= a < 2 ^ n -> 0 <= b < 2 ^ n -> 0 <= a ||| b < 2 ^ n.
Proof.
  intros Hn Ha Hb. assert (0 <= a ||| b) by (apply Z.lor_nonneg; lia).
  split; [assumption|]. apply bits_lt; [assumption..|]. intros i Hi.
  by rewrite Z.lor_spec, !(testbit_small _ n) by lia.
Qed.

Lemma lxor_lt a b n : 0 <= n -> 0 <= a < 2 ^ n -> 0 <= b < 2 ^ n -> 0 <= a ^^^ b < 2 ^ n.
Proof.
  intros Hn Ha Hb. assert (0 <= a ^^^ b) by (apply Z.lxor_nonneg; lia).
  split; [assumption|]. apply bits_lt; [assumption..|]. intros i Hi.
  by rewrite Z.lxor_spec, !(testbit_small _ n) by lia.
Qed.

Lemma land_127 x : Z.land x 127 = x mod 128.
Proof. change 127 with (Z.ones 7). rewrite Z.land_ones by lia. reflexivity. Qed.

Lemma land_255 x : Z.land x 255 = u8 x.
Proof. change 255 with (Z.ones 8). rewrite Z.land_ones by lia. reflexivity. Qed.

Lemma land_128_zero x : 0 <= x < 256 -> (Z.land x 128 =? 0) = (x <? 128).
Proof.
  intros Hx.
  assert (Z.land x 128 = if x <? 128 then 0 else 128) as ->.
  { apply Z.bits_inj'. intros i Hi. rewrite Z.land_spec.
    destruct (Z.ltb_spec x 128).
    - rewrite Z.bits_0. destruct (Z.eq_dec i 7) as [->|].
      + rewrite (testbit_small x 7) by lia. reflexivity.
      + change 128 with (2 ^ 7). rewrite Z.pow2_bits_false by lia. apply andb_false_r.
    - destruct (Z.eq_dec i 7) as [->|].
      + replace x with (x - 128 + 1 * 2 ^ 7) by lia.
        rewrite <- Z.div_pow2_bits with (n := 7) (m := 0) by lia.
        rewrite Z.div_add by lia. rewrite Z.div_small by lia. reflexivity.
      + change 128 with (2 ^ 7). rewrite Z.pow2_bits_false by lia. apply andb_false_r. }
  destruct (x <? 128); reflexivity.
Qed.

(** ** List lemmas *)

Lemma zlen_app {A} (l1 l2 : list A) : zlen (l1 ++ l2) = zlen l1 + zlen l2.
Proof. unfold zlen. rewrite length_app. lia. Qed.

Lemma zlen_cons {A} (x : A) l : zlen (x :: l) = 1 + zlen l.
Proof. unfold zlen. simpl. lia. Qed.

Lemma zlen_nil {A} : zlen (@nil A) = 0.
Proof. reflexivity. Qed.

Lemma zlen_nonneg {A} (l : list A) : 0 <= zlen l.
Proof. unfold zlen. lia. Qed.

#[export] Hint Rewrite @zlen_app @zlen_cons @zlen_nil @length_app @length_take
  @length_drop @length_replicate @length_insert : len.

Ltac len := autorewrite with len; simpl length; try lia.

Lemma filter_ext_in {A} (P Q : A -> Prop) `{!forall x, Decision (P x), !forall x, Decision (Q x)} (l : list A) :
  (forall x, x ∈ l -> P x <-> Q x) -> base.filter P l = base.filter Q l.
Proof.
  induction l as [|x l IH]; intros Hext; [done|]. rewrite !filter_cons, IH by (intros; apply Hext; by right).
  pose proof (Hext x ltac:(left)). repeat case_decide; tauto.
Qed.


Lemma filter_keep {A} (P : A -> Prop) `{!forall x, Decision (P x)} (l : list A) : (forall x, x ∈ l -> P x) -> base.filter P l = l.
Proof.
  induction l as [|x l IH]; intros Hl; [done|]. rewrite filter_cons_True by (apply Hl; by left). f_equal. apply IH. intros y Hy. apply Hl. by right.
Qed.


Lemma to_nat_zlen {A} (l : list A) : Z.to_nat (zlen l) = length l.
Proof. unfold zlen. lia. Qed.

Lemma bytes_ok_app s1 s2 : bytes_ok (s1 ++ s2) <-> bytes_ok s1 /\ bytes_ok s2.
Proof. apply Forall_app. Qed.

Lemma bytes_ok_take n s : bytes_ok s -> bytes_ok (take n s).
Proof. apply Forall_take. Qed.

Lemma bytes_ok_drop n s : bytes_ok s -> bytes_ok (drop n s).
Proof. apply Forall_drop. Qed.

Lemma bytes_ok_replicate n b : is_byte b -> bytes_ok (replicate n b).
Proof. intros. by apply Forall_replicate. Qed.

Lemma byte_at_ok p i : bytes_ok p -> is_byte (byte_at p i).
Proof.
  intros Hp. unfold byte_at. destruct (Nat.lt_ge_cases i (length p)).
  - eapply Forall_forall in Hp; [exact Hp|]. apply list_elem_of_In, nth_In. assumption.
  - rewrite nth_overflow by lia. unfold is_byte. lia.
Qed.

Lemma byte_at_app_l p q i : (i < length p)%nat -> byte_at (p ++ q) i = byte_at p i.
Proof. intros. apply app_nth1. assumption. Qed.

#[export] Hint Resolve bytes_ok_take bytes_ok_drop byte_at_ok : kv.

(** [take]/[drop] at the seam of an append. *)
Lemma take_app_exact {A} (l1 l2 : list A) n : n = length l1 -> take n (l1 ++ l2) = l1.
Proof. intros ->. apply take_app_length. Qed.

Lemma drop_app_exact {A} (l1 l2 : list A) n : n = length l1 -> drop n (l1 ++ l2) = l2.
Proof. intros ->. apply drop_app_length. Qed.

Lemma sub_bytes_sub d a n b m : (b + m <= n)%nat ->
  sub_bytes (sub_bytes d a n) b m = sub_bytes d (a + b) m.
Proof.
  intros Hm. unfold sub_bytes. rewrite skipn_firstn_comm, take_take, drop_drop.
  by rewrite Nat.min_l by lia.
Qed.

Lemma filter_none {A} (P : A -> Prop) `{!forall x, Decision (P x)} (l : list A) :
  (forall x, x ∈ l -> ~ P x) -> filter P l = [].
Proof.
  induction l as [|x l IH]; intros Hn; [done|]. rewrite filter_cons_False by (apply Hn; left).
  apply IH. intros y Hy. apply Hn. by right.
Qed.

Lemma filter_split {A} (Q : A -> Prop) `{!forall x, Decision (Q x)} (l1 l2 : list A) :
  (forall x, x ∈ l1 -> Q x) -> (forall x, x ∈ l2 -> ~ Q x) -> base.filter Q (l1 ++ l2) = l1.
Proof.
  intros Hall Hnone. rewrite filter_app, (filter_none _ l2) by done. rewrite app_nil_r. clear Hnone.
  induction l1 as [|x l1 IH]; [done|]. rewrite filter_cons_True by (apply Hall; left).
  f_equal. apply IH. intros y Hy. apply Hall. by right.
Qed.

Lemma elem_of_concat {A} (x : A) (ls : list (list A)) : x ∈ concat ls <-> exists l, l ∈ ls /\ x ∈ l.
Proof.
  rewrite list_elem_of_In, in_concat. split; intros (l & H1 & H2); exists l.
  - by rewrite !list_elem_of_In.
  - by rewrite <- !list_elem_of_In.
Qed.

(** A bounded check over all values of a byte, for facts decided by evaluation. *)
Definition all_bytes : list Z := seqZ 0 256.

Lemma byte_forallb (P : Z -> bool) :
  forallb P all_bytes = true -> forall b, is_byte b -> P b = true.
Proof.
  intros H b Hb. rewrite forallb_forall in H. apply H.
  apply list_elem_of_In, elem_of_seqZ. unfold is_byte in Hb. lia.
Qed.
