(* ===== verification/Coding.v ===== *)
(** * Coding: fixed-width, varint and length-prefixed encodings

    Models src/LSM-EBF/util/coding.cc and coding.h.  A [Put...] routine
    appends to a string, so it is a function from the string to the extended
    string; a [Get...] routine parses a prefix of its slice, so it returns the
    value with the rest of the slice, or [None] for the error return (a NULL
    pointer or [false]).  The pointer pairs [p, limit) of the source are the
    list of the bytes between them. *)
From S2P Require Import Prelude.

(** ** Fixed-width integers *)

Definition EncodeFixed32 (value : Z) : bytes :=
  [ value &&& 0xff; (value ≫ 8) &&& 0xff; (value ≫ 16) &&& 0xff;
    (value ≫ 24) &&& 0xff ].

Definition EncodeFixed64 (value : Z) : bytes :=
  [ value &&& 0xff; (value ≫ 8) &&& 0xff; (value ≫ 16) &&& 0xff;
    (value ≫ 24) &&& 0xff; (value ≫ 32) &&& 0xff; (value ≫ 40) &&& 0xff;
    (value ≫ 48) &&& 0xff; (value ≫ 56) &&& 0xff ].

Definition PutFixed32 (dst : bytes) (value : Z) : bytes := dst ++ EncodeFixed32 value.
Definition PutFixed64 (dst : bytes) (value : Z) : bytes := dst ++ EncodeFixed64 value.

Definition DecodeFixed32 (ptr : bytes) : Z :=
  byte_at ptr 0 ||| (byte_at ptr 1 ≪ 8) ||| (byte_at ptr 2 ≪ 16)
  ||| (byte_at ptr 3 ≪ 24).

Definition DecodeFixed64 (ptr : bytes) : Z :=
  let lo := DecodeFixed32 ptr in
  let hi := DecodeFixed32 (drop 4 ptr) in
  (hi ≪ 32) ||| lo.

(** ** Varints *)

(** Stores through [unsigned char*] keep the low eight bits. *)
Definition EncodeVarint32 (v : Z) : bytes :=
  let B := 128 in
  if v <? 1 ≪ 7 then [u8 v]
  else if v <? 1 ≪ 14 then [u8 (v ||| B); u8 (v ≫ 7)]
  else if v <? 1 ≪ 21 then [u8 (v ||| B); u8 ((v ≫ 7) ||| B); u8 (v ≫ 14)]
  else if v <? 1 ≪ 28 then
    [u8 (v ||| B); u8 ((v ≫ 7) ||| B); u8 ((v ≫ 14) ||| B); u8 (v ≫ 21)]
  else
    [u8 (v ||| B); u8 ((v ≫ 7) ||| B); u8 ((v ≫ 14) ||| B);
     u8 ((v ≫ 21) ||| B); u8 (v ≫ 28)].

Definition PutVarint32 (dst : bytes) (v : Z) : bytes := dst ++ EncodeVarint32 v.

(** The loop of [EncodeVarint64]; ten rounds drain 64 bits. *)
Fixpoint EncodeVarint64_loop (fuel : nat) (v : Z) : bytes :=
  match fuel with
  | O => []
  | S fuel =>
      if 128 <=? v
      then u8 ((v &&& (128 - 1)) ||| 128) :: EncodeVarint64_loop fuel (v ≫ 7)
      else [u8 v]
  end.

Definition EncodeVarint64 (v : Z) : bytes := EncodeVarint64_loop 10 v.

Definition PutVarint64 (dst : bytes) (v : Z) : bytes := dst ++ EncodeVarint64 v.

Fixpoint VarintLength_loop (fuel : nat) (v len : Z) : Z :=
  match fuel with
  | O => len
  | S fuel => if 128 <=? v then VarintLength_loop fuel (v ≫ 7) (len + 1) else len
  end.

Definition VarintLength (v : Z) : Z := VarintLength_loop 10 v 1.

Fixpoint GetVarint32PtrFallback_loop (shift result : Z) (p : bytes) : option (Z * bytes) :=
  if shift <=? 28 then
    match p with
    | [] => None
    | byte :: p' =>
        if byte &&& 128 =? 0
        then Some (result ||| u32 (byte ≪ shift), p')
        else GetVarint32PtrFallback_loop (shift + 7)
               (result ||| u32 ((byte &&& 127) ≪ shift)) p'
    end
  else None.

Definition GetVarint32PtrFallback (p : bytes) : option (Z * bytes) :=
  GetVarint32PtrFallback_loop 0 0 p.

Definition GetVarint32Ptr (p : bytes) : option (Z * bytes) :=
  match p with
  | result :: p' =>
      if result &&& 128 =? 0 then Some (result, p') else GetVarint32PtrFallback p
  | [] => GetVarint32PtrFallback p
  end.

Definition GetVarint32 (input : bytes) : option (Z * bytes) :=
  match GetVarint32Ptr input with
  | None => None
  | Some (value, q) => Some (value, q)
  end.

Fixpoint GetVarint64Ptr_loop (shift result : Z) (p : bytes) : option (Z * bytes) :=
  if shift <=? 63 then
    match p with
    | [] => None
    | byte :: p' =>
        if byte &&& 128 =? 0
        then Some (result ||| u64 (byte ≪ shift), p')
        else GetVarint64Ptr_loop (shift + 7)
               (result ||| u64 ((byte &&& 127) ≪ shift)) p'
    end
  else None.

Definition GetVarint64Ptr (p : bytes) : option (Z * bytes) := GetVarint64Ptr_loop 0 0 p.

Definition GetVarint64 (input : bytes) : option (Z * bytes) :=
  match GetVarint64Ptr input with
  | None => None
  | Some (value, q) => Some (value, q)
  end.

(** ** Length-prefixed slices *)

(** [value.size()] is converted to [uint32_t] by the call. *)
Definition PutLengthPrefixedSlice (dst value : bytes) : bytes :=
  PutVarint32 dst (u32 (zlen value)) ++ value.

(** The pointer version: [p + len > limit] is an error. *)
Definition GetLengthPrefixedSlicePtr (p : bytes) : option (bytes * bytes) :=
  match GetVarint32Ptr p with
  | None => None
  | Some (len, p) =>
      if zlen p <? len then None
      else Some (take (Z.to_nat len) p, drop (Z.to_nat len) p)
  end.

(** The slice version consumes the length even when the payload is short; the
    rest of the slice after an error is the second component. *)
Definition GetLengthPrefixedSlice (input : bytes) : option bytes * bytes :=
  match GetVarint32 input with
  | None => (None, input)
  | Some (len, input) =>
      if len <=? zlen input
      then (Some (take (Z.to_nat len) input), drop (Z.to_nat len) input)
      else (None, input)
  end.

(** ** Lemmas: fixed-width integers *)

Lemma EncodeFixed32_eq v :
  EncodeFixed32 v = [u8 v; u8 (v / 2 ^ 8); u8 (v / 2 ^ 16); u8 (v / 2 ^ 24)].
Proof. unfold EncodeFixed32. rewrite !land_255, !Z.shiftr_div_pow2 by lia. reflexivity. Qed.

Lemma EncodeFixed64_split v :
  EncodeFixed64 v = EncodeFixed32 v ++ EncodeFixed32 (v / 2 ^ 32).
Proof.
  unfold EncodeFixed64, EncodeFixed32.
  rewrite <- (Z.shiftr_div_pow2 v 32), !Z.shiftr_shiftr by lia. reflexivity.
Qed.

Lemma length_EncodeFixed32 v : length (EncodeFixed32 v) = 4%nat.
Proof. reflexivity. Qed.

Lemma length_EncodeFixed64 v : length (EncodeFixed64 v) = 8%nat.
Proof. reflexivity. Qed.

#[export] Hint Rewrite length_EncodeFixed32 length_EncodeFixed64 : len.

Lemma EncodeFixed32_ok v : bytes_ok (EncodeFixed32 v).
Proof. rewrite EncodeFixed32_eq. repeat constructor; apply u8_is_byte. Qed.

Lemma EncodeFixed64_ok v : bytes_ok (EncodeFixed64 v).
Proof. rewrite EncodeFixed64_split. apply bytes_ok_app; split; apply EncodeFixed32_ok. Qed.

#[export] Hint Resolve EncodeFixed32_ok EncodeFixed64_ok : kv.

Lemma DecodeFixed32_eq p :
  bytes_ok p ->
  DecodeFixed32 p =
    byte_at p 0 + byte_at p 1 * 2 ^ 8 + byte_at p 2 * 2 ^ 16 + byte_at p 3 * 2 ^ 24.
Proof.
  intros Hp. unfold DecodeFixed32.
  pose proof (byte_at_ok p 0 Hp). pose proof (byte_at_ok p 1 Hp).
  pose proof (byte_at_ok p 2 Hp). pose proof (byte_at_ok p 3 Hp). unfold is_byte in *.
  rewrite (lor_shiftl_add _ _ 8), (lor_shiftl_add _ _ 16), (lor_shiftl_add _ _ 24) by lia.
  reflexivity.
Qed.

Lemma DecodeFixed32_range p : bytes_ok p -> 0 <= DecodeFixed32 p < 2 ^ 32.
Proof.
  intros Hp. rewrite DecodeFixed32_eq by assumption.
  pose proof (byte_at_ok p 0 Hp). pose proof (byte_at_ok p 1 Hp).
  pose proof (byte_at_ok p 2 Hp). pose proof (byte_at_ok p 3 Hp). unfold is_byte in *. lia.
Qed.

Lemma DecodeFixed64_eq p :
  bytes_ok p -> DecodeFixed64 p = DecodeFixed32 p + DecodeFixed32 (drop 4 p) * 2 ^ 32.
Proof.
  intros Hp. unfold DecodeFixed64. rewrite Z.lor_comm.
  apply lor_shiftl_add; [lia|]. by apply DecodeFixed32_range.
Qed.

Lemma DecodeFixed64_range p : bytes_ok p -> 0 <= DecodeFixed64 p < 2 ^ 64.
Proof.
  intros Hp. rewrite DecodeFixed64_eq by assumption.
  pose proof (DecodeFixed32_range p Hp).
  pose proof (DecodeFixed32_range (drop 4 p) (bytes_ok_drop _ _ Hp)). lia.
Qed.

(** Reading back a fixed-width integer, whatever follows it in the buffer. *)
Lemma DecodeFixed32_Encode v rest :
  0 <= v < 2 ^ 32 -> DecodeFixed32 (EncodeFixed32 v ++ rest) = v.
Proof.
  intros Hv.
  transitivity (DecodeFixed32 (EncodeFixed32 v)); [reflexivity|].
  rewrite DecodeFixed32_eq by apply EncodeFixed32_ok.
  rewrite EncodeFixed32_eq. unfold byte_at; simpl. word.
Qed.

Lemma DecodeFixed64_Encode v rest :
  0 <= v < 2 ^ 64 -> DecodeFixed64 (EncodeFixed64 v ++ rest) = v.
Proof.
  intros Hv.
  transitivity (DecodeFixed64 (EncodeFixed64 v)); [reflexivity|].
  rewrite DecodeFixed64_eq by apply EncodeFixed64_ok.
  rewrite EncodeFixed64_split, drop_app_exact by reflexivity.
  rewrite <- (app_nil_r (EncodeFixed32 (v / 2 ^ 32))).
  rewrite (DecodeFixed32_Encode (v / 2 ^ 32)) by word.
  rewrite EncodeFixed32_eq, DecodeFixed32_eq.
  - unfold byte_at; simpl. word.
  - rewrite <- EncodeFixed32_eq. rewrite app_nil_r. apply bytes_ok_app; split; apply EncodeFixed32_ok.
Qed.

Lemma EncodeFixed32_inj v w :
  0 <= v < 2 ^ 32 -> 0 <= w < 2 ^ 32 -> EncodeFixed32 v = EncodeFixed32 w -> v = w.
Proof.
  intros Hv Hw H. rewrite <- (DecodeFixed32_Encode v []), <- (DecodeFixed32_Encode w []), H by lia.
  reflexivity.
Qed.

(** The other direction: re-encoding the four bytes that were read gives them back. *)
Lemma EncodeFixed32_Decode p :
  bytes_ok p -> (4 <= length p)%nat -> EncodeFixed32 (DecodeFixed32 p) = take 4 p.
Proof.
  intros Hp Hl. rewrite DecodeFixed32_eq, EncodeFixed32_eq by assumption.
  destruct p as [|a [|b [|c [|d p]]]]; simpl in Hl; try lia.
  unfold byte_at; simpl. repeat (apply Forall_cons in Hp as [? Hp]).
  repeat (apply (f_equal2 cons); [word|]). reflexivity.
Qed.

(** ** Lemmas: varints

    [varint] is the base-128 reference encoding, least significant group
    first; both encoders compute it. *)

Fixpoint varint (fuel : nat) (v : Z) : bytes :=
  match fuel with
  | O => []
  | S fuel => if v <? 128 then [v] else (128 + v mod 128) :: varint fuel (v / 128)
  end.

Lemma lor_128 x : 0 <= x < 128 -> x ||| 128 = 128 + x.
Proof. intros. change 128 with (1 ≪ 7) at 1. rewrite lor_shiftl_add; lia. Qed.

Lemma u8_lor_128 x : 0 <= x -> u8 (x ||| 128) = 128 + x mod 128.
Proof.
  intros Hx. rewrite <- (lor_128 (x mod 128)) by word.
  apply Z.bits_inj'. intros i Hi. rewrite u8_testbit, !Z.lor_spec by lia.
  destruct (Z.ltb_spec i 8); simpl.
  - destruct (Z.eq_dec i 7) as [->|].
    + change (Z.testbit 128 7) with true. by rewrite !orb_true_r.
    + rewrite (Z.mod_pow2_bits_low x 7) by lia. reflexivity.
  - rewrite (Z.mod_pow2_bits_high x 7), (testbit_small 128 8) by lia. reflexivity.
Qed.

Lemma EncodeVarint64_loop_varint fuel v :
  0 <= v -> EncodeVarint64_loop fuel v = varint fuel v.
Proof.
  revert v. induction fuel as [|fuel IH]; intros v Hv; [reflexivity|]. simpl.
  rewrite Z.leb_antisym. destruct (Z.ltb_spec v 128); simpl.
  - by rewrite u8_small by lia.
  - rewrite Z.shiftr_div_pow2 by lia. change (2 ^ 7) with 128.
    rewrite IH by word. f_equal.
    change (128 - 1) with 127. rewrite land_127, u8_lor_128 by word. word.
Qed.

Lemma EncodeVarint64_varint v : 0 <= v -> EncodeVarint64 v = varint 10 v.
Proof. apply EncodeVarint64_loop_varint. Qed.

Lemma EncodeVarint32_varint v : 0 <= v < 2 ^ 32 -> EncodeVarint32 v = varint 5 v.
Proof.
  intros Hv. unfold EncodeVarint32.
  change (1 ≪ 7) with 128. change (1 ≪ 14) with (128 * 128).
  change (1 ≪ 21) with (128 * 128 * 128). change (1 ≪ 28) with (128 * 128 * 128 * 128).
  rewrite !Z.shiftr_div_pow2 by lia.
  change (2 ^ 7) with 128.
  assert (v / 2 ^ 14 = v / 128 / 128) as -> by word.
  assert (v / 2 ^ 21 = v / 128 / 128 / 128) as -> by word.
  assert (v / 2 ^ 28 = v / 128 / 128 / 128 / 128) as -> by word.
  rewrite !u8_lor_128 by word. cbn [varint].
  repeat case_match; zsimp; try (exfalso; word);
    repeat (f_equal; try (rewrite u8_small; word)).
Qed.

Lemma varint_ok fuel v : 0 <= v -> bytes_ok (varint fuel v).
Proof.
  revert v. induction fuel as [|fuel IH]; intros v Hv; simpl; [constructor|].
  destruct (Z.ltb_spec v 128).
  - repeat constructor; lia.
  - constructor; [unfold is_byte; word|]. apply IH. word.
Qed.

Lemma varint_length fuel v : (length (varint fuel v) <= fuel)%nat.
Proof.
  revert v. induction fuel as [|fuel IH]; intros v; simpl; [lia|].
  case_match; simpl; [lia|]. specialize (IH (v / 128)). lia.
Qed.

Lemma varint_nonempty fuel v : (0 < fuel)%nat -> (1 <= length (varint fuel v))%nat.
Proof. destruct fuel; [lia|]. simpl. case_match; simpl; lia. Qed.

(** The two decoding loops differ only in the width and the shift bound. *)
Section VarintDecode.
Context (W maxs : Z) (HW : 0 <= maxs < W) (Hmaxs : forall k, 7 * k < W -> 7 * k <= maxs).
Context (loop : Z -> Z -> bytes -> option (Z * bytes)).
Hypothesis loop_eq : forall shift result p,
  loop shift result p =
    if shift <=? maxs then
      match p with
      | [] => None
      | byte :: p' =>
          if byte &&& 128 =? 0
          then Some (result ||| (byte ≪ shift) mod 2 ^ W, p')
          else loop (shift + 7) (result ||| ((byte &&& 127) ≪ shift) mod 2 ^ W) p'
      end
    else None.

Lemma loop_lor result x shift :
  0 <= shift -> 0 <= result < 2 ^ shift -> 0 <= x * 2 ^ shift < 2 ^ W ->
  result ||| (x ≪ shift) mod 2 ^ W = result + x * 2 ^ shift.
Proof.
  intros Hs Hr Hx.
  rewrite Z.mod_small by (rewrite Z.shiftl_mul_pow2; lia).
  apply lor_shiftl_add; lia.
Qed.

Lemma loop_varint fuel v k result rest :
  (0 < fuel)%nat -> 0 <= k -> 0 <= v -> v < 128 ^ Z.of_nat fuel ->
  0 <= result < 2 ^ (7 * k) -> v * 2 ^ (7 * k) < 2 ^ W -> (k = 0 \/ 1 <= v) ->
  loop (7 * k) result (varint fuel v ++ rest) = Some (result + v * 2 ^ (7 * k), rest).
Proof.
  revert v k result. induction fuel as [|fuel IH]; intros v k result Hf Hk Hv Hvf Hr Hw Hkv;
    [lia|].
  assert (7 * k <= maxs) as Hmx.
  { destruct Hkv as [->|Hv1]; [lia|]. apply Hmaxs.
    apply (Z.pow_lt_mono_r_iff 2); nia. }
  rewrite loop_eq. rewrite (proj2 (Z.leb_le _ _)) by assumption. simpl varint.
  destruct (Z.ltb_spec v 128) as [Hlt|Hge]; simpl.
  - rewrite land_128_zero by lia. rewrite (proj2 (Z.ltb_lt _ _)) by lia.
    rewrite loop_lor by nia. reflexivity.
  - rewrite land_128_zero by word.
    rewrite (proj2 (Z.ltb_ge _ _)) by word.
    rewrite land_127. replace ((128 + v mod 128) mod 128) with (v mod 128) by word.
    assert (0 < 2 ^ (7 * k)) by (apply Z.pow_pos_nonneg; lia).
    assert (2 ^ (7 * (k + 1)) = 128 * 2 ^ (7 * k)) as Hp.
    { replace (7 * (k + 1)) with (7 + 7 * k) by lia. rewrite Z.pow_add_r by lia. reflexivity. }
    rewrite loop_lor by (pose proof (Z.mod_pos_bound v 128); pose proof (Z.mod_le v 128); nia).
    replace (7 * k + 7) with (7 * (k + 1)) by lia.
    assert (1 <= v / 128) by word.
    assert (v / 128 < 128 ^ Z.of_nat fuel).
    { apply Z.div_lt_upper_bound; [lia|].
      rewrite Nat2Z.inj_succ, Z.pow_succ_r in Hvf by lia. lia. }
    rewrite IH.
    + do 2 f_equal. rewrite Hp. rewrite (Z.div_mod v 128) at 3 by lia. ring.
    + destruct fuel; [|lia]. simpl in *. lia.
    + lia.
    + lia.
    + assumption.
    + rewrite Hp. pose proof (Z.mod_pos_bound v 128). nia.
    + rewrite Hp. pose proof (Z.mul_div_le v 128). nia.
    + right. assumption.
Qed.

(** What a successful decode consumed is a non-empty prefix of the input. *)
Lemma loop_consumes shift result p v rest :
  loop shift result p = Some (v, rest) ->
  exists pre, p = pre ++ rest /\ (1 <= length pre)%nat /\
    shift + 7 * (zlen pre - 1) <= maxs.
Proof.
  revert shift result. induction p as [|b p IH]; intros shift result; rewrite loop_eq;
    destruct (Z.leb_spec shift maxs); try discriminate.
  case_match.
  - intros [= <- <-]. exists [b]. unfold zlen. simpl. split_and!; [done|lia|lia].
  - intros (pre & -> & ? & ?)%IH. exists (b :: pre). rewrite zlen_cons. simpl.
    split_and!; [done|lia|lia].
Qed.

Lemma loop_range shift result p v rest :
  0 <= result < 2 ^ W -> loop shift result p = Some (v, rest) -> 0 <= v < 2 ^ W.
Proof.
  assert (forall x, 0 <= x mod 2 ^ W < 2 ^ W) as Hm.
  { intros. apply Z.mod_pos_bound. apply Z.pow_pos_nonneg; lia. }
  revert shift result. induction p as [|b p IH]; intros shift result Hr; rewrite loop_eq;
    destruct (Z.leb_spec shift maxs); try discriminate.
  case_match.
  - intros [= <- <-]. apply lor_lt; auto; lia.
  - apply IH. apply lor_lt; auto; lia.
Qed.
End VarintDecode.

Lemma loop32_eq shift result p :
  GetVarint32PtrFallback_loop shift result p =
    if shift <=? 28 then
      match p with
      | [] => None
      | byte :: p' =>
          if byte &&& 128 =? 0
          then Some (result ||| (byte ≪ shift) mod 2 ^ 32, p')
          else GetVarint32PtrFallback_loop (shift + 7)
                 (result ||| ((byte &&& 127) ≪ shift) mod 2 ^ 32) p'
      end
    else None.
Proof. destruct p; reflexivity. Qed.

Lemma loop64_eq shift result p :
  GetVarint64Ptr_loop shift result p =
    if shift <=? 63 then
      match p with
      | [] => None
      | byte :: p' =>
          if byte &&& 128 =? 0
          then Some (result ||| (byte ≪ shift) mod 2 ^ 64, p')
          else GetVarint64Ptr_loop (shift + 7)
                 (result ||| ((byte &&& 127) ≪ shift) mod 2 ^ 64) p'
      end
    else None.
Proof. destruct p; reflexivity. Qed.

Lemma GetVarint32_match input : GetVarint32 input = GetVarint32Ptr input.
Proof. unfold GetVarint32. destruct (GetVarint32Ptr input) as [[]|]; reflexivity. Qed.

Lemma GetVarint64_match input : GetVarint64 input = GetVarint64Ptr_loop 0 0 input.
Proof. unfold GetVarint64, GetVarint64Ptr. by destruct (GetVarint64Ptr_loop 0 0 input) as [[]|]. Qed.

(** The one-byte fast path of [GetVarint32Ptr] agrees with the loop. *)
Lemma GetVarint32Ptr_fallback p :
  bytes_ok p -> GetVarint32Ptr p = GetVarint32PtrFallback_loop 0 0 p.
Proof.
  intros Hp. destruct p as [|b p]; [reflexivity|]. simpl.
  unfold GetVarint32PtrFallback. rewrite (loop32_eq 0 0). simpl.
  destruct (b &&& 128 =? 0) eqn:E; [|reflexivity].
  rewrite Z.shiftl_0_r, Z.lor_0_l. apply Forall_cons in Hp as [Hb _].
  rewrite u32_small by (unfold is_byte in Hb; lia). reflexivity.
Qed.

Lemma GetVarint32Ptr_Encode v rest :
  0 <= v < 2 ^ 32 -> GetVarint32Ptr (EncodeVarint32 v ++ rest) = Some (v, rest).
Proof.
  intros Hv. rewrite EncodeVarint32_varint by assumption.
  assert (GetVarint32PtrFallback_loop 0 0 (varint 5 v ++ rest) = Some (v, rest)) as Hloop.
  { change 0 with (7 * 0) at 1.
    rewrite (loop_varint 32 28 ltac:(lia) ltac:(lia) _ loop32_eq 5 v 0 0 rest); try lia.
    do 2 f_equal. lia. }
  unfold GetVarint32Ptr. destruct (varint 5 v ++ rest) as [|b q] eqn:E; [done|].
  destruct (b &&& 128 =? 0) eqn:Eb; [|exact Hloop].
  rewrite <- Hloop, loop32_eq. cbn [Z.leb]. rewrite Eb, Z.shiftl_0_r, Z.lor_0_l.
  rewrite Z.mod_small; [reflexivity|].
  cbn in E. pose proof (Z.mod_pos_bound v 128).
  destruct (Z.ltb_spec v 128); injection E as <- _; lia.
Qed.

Lemma GetVarint64_Encode v rest :
  0 <= v < 2 ^ 64 -> GetVarint64 (EncodeVarint64 v ++ rest) = Some (v, rest).
Proof.
  intros Hv. rewrite GetVarint64_match, EncodeVarint64_varint by lia.
  change 0 with (7 * 0) at 1.
  rewrite (loop_varint 64 63 ltac:(lia) ltac:(lia) _ loop64_eq 10 v 0 0 rest); try lia.
  do 2 f_equal. lia.
Qed.

Lemma GetVarint32_Encode v rest :
  0 <= v < 2 ^ 32 -> GetVarint32 (EncodeVarint32 v ++ rest) = Some (v, rest).
Proof. intros. rewrite GetVarint32_match. by apply GetVarint32Ptr_Encode. Qed.

Lemma EncodeVarint32_ok v : 0 <= v < 2 ^ 32 -> bytes_ok (EncodeVarint32 v).
Proof. intros. rewrite EncodeVarint32_varint by assumption. apply varint_ok. lia. Qed.

Lemma EncodeVarint64_ok v : 0 <= v -> bytes_ok (EncodeVarint64 v).
Proof. intros. rewrite EncodeVarint64_varint by assumption. apply varint_ok. lia. Qed.

Lemma EncodeVarint32_length v :
  0 <= v < 2 ^ 32 -> (1 <= length (EncodeVarint32 v) <= 5)%nat.
Proof.
  intros. rewrite EncodeVarint32_varint by assumption. split.
  - apply varint_nonempty. lia.
  - apply varint_length.
Qed.

Lemma EncodeVarint64_length v : 0 <= v -> (1 <= length (EncodeVarint64 v) <= 10)%nat.
Proof.
  intros. rewrite EncodeVarint64_varint by assumption. split.
  - apply varint_nonempty. lia.
  - apply varint_length.
Qed.

(** One-byte encodings, the case [DecodeEntry] of the block reader reads in place. *)
Lemma EncodeVarint32_single v : 0 <= v < 128 -> EncodeVarint32 v = [v].
Proof.
  intros. rewrite EncodeVarint32_varint by lia. simpl.
  rewrite (proj2 (Z.ltb_lt _ _)) by lia. reflexivity.
Qed.

Lemma EncodeVarint32_head v :
  128 <= v < 2 ^ 32 -> exists b r, EncodeVarint32 v = b :: r /\ 128 <= b < 256 /\ r <> [].
Proof.
  intros. rewrite EncodeVarint32_varint by lia. simpl.
  rewrite (proj2 (Z.ltb_ge _ _)) by lia. do 2 eexists. split; [reflexivity|].
  split; [word|]. case_match; discriminate.
Qed.

Lemma VarintLength_loop_length fuel v len :
  0 <= v < 128 ^ Z.of_nat fuel -> (0 < fuel)%nat ->
  VarintLength_loop fuel v len = len - 1 + zlen (EncodeVarint64_loop fuel v).
Proof.
  revert v len. induction fuel as [|fuel IH]; intros v len Hv Hf; [lia|]. simpl.
  destruct (Z.leb_spec 128 v); rewrite zlen_cons; [|rewrite zlen_nil; lia].
  rewrite Nat2Z.inj_succ, Z.pow_succ_r in Hv by lia.
  rewrite Z.shiftr_div_pow2 by lia. change (2 ^ 7) with 128. rewrite IH; [lia| |].
  - split; [word|]. apply Z.div_lt_upper_bound; lia.
  - destruct fuel; [|lia]. simpl in Hv. lia.
Qed.

Lemma GetVarint32_consumes input v rest :
  bytes_ok input -> GetVarint32 input = Some (v, rest) ->
  0 <= v < 2 ^ 32 /\
  exists pre, input = pre ++ rest /\ (1 <= length pre <= 5)%nat.
Proof.
  intros Hok H. rewrite GetVarint32_match, GetVarint32Ptr_fallback in H by assumption. split.
  - eapply (loop_range 32 28); [lia|exact loop32_eq| |exact H]. lia.
  - apply (loop_consumes 32 28 _ loop32_eq) in H as (pre & -> & ? & ?).
    exists pre. unfold zlen in *. split; [reflexivity|lia].
Qed.

Lemma GetVarint64_consumes input v rest :
  GetVarint64 input = Some (v, rest) ->
  0 <= v < 2 ^ 64 /\
  exists pre, input = pre ++ rest /\ (1 <= length pre <= 10)%nat.
Proof.
  intros H. rewrite GetVarint64_match in H. split.
  - eapply (loop_range 64 63); [lia|exact loop64_eq| |exact H]. lia.
  - apply (loop_consumes 64 63 _ loop64_eq) in H as (pre & -> & ? & ?).
    exists pre. unfold zlen in *. split; [reflexivity|lia].
Qed.

(** ** Lemmas: length-prefixed slices *)

Definition length_prefixed (value : bytes) : bytes := EncodeVarint32 (zlen value) ++ value.

Lemma PutLengthPrefixedSlice_eq dst value :
  zlen value < 2 ^ 32 -> PutLengthPrefixedSlice dst value = dst ++ length_prefixed value.
Proof.
  intros. unfold PutLengthPrefixedSlice, PutVarint32, length_prefixed.
  rewrite u32_small by (pose proof (zlen_nonneg value); lia). by rewrite app_assoc.
Qed.

Lemma GetLengthPrefixedSlice_Put value rest :
  zlen value < 2 ^ 32 ->
  GetLengthPrefixedSlice (length_prefixed value ++ rest) = (Some value, rest).
Proof.
  intros Hv. pose proof (zlen_nonneg value). unfold GetLengthPrefixedSlice, length_prefixed.
  rewrite <- app_assoc, GetVarint32_Encode by lia.
  rewrite (proj2 (Z.leb_le _ _)) by (rewrite zlen_app; pose proof (zlen_nonneg rest); lia).
  rewrite to_nat_zlen, take_app_exact, drop_app_exact by reflexivity. reflexivity.
Qed.

Lemma GetLengthPrefixedSlicePtr_Put value rest :
  zlen value < 2 ^ 32 ->
  GetLengthPrefixedSlicePtr (length_prefixed value ++ rest) = Some (value, rest).
Proof.
  intros Hv. pose proof (zlen_nonneg value). unfold GetLengthPrefixedSlicePtr, length_prefixed.
  rewrite <- app_assoc, GetVarint32Ptr_Encode by lia.
  rewrite (proj2 (Z.ltb_ge _ _)) by (rewrite zlen_app; pose proof (zlen_nonneg rest); lia).
  rewrite to_nat_zlen, take_app_exact, drop_app_exact by reflexivity. reflexivity.
Qed.

(** A successful parse splits the input exactly. *)
Lemma GetLengthPrefixedSlice_splits input value rest :
  bytes_ok input -> GetLengthPrefixedSlice input = (Some value, rest) ->
  exists pre, input = pre ++ value ++ rest /\ (1 <= length pre <= 5)%nat.
Proof.
  intros Hok. unfold GetLengthPrefixedSlice. destruct (GetVarint32 input) as [[len p]|] eqn:E;
    [|done].
  apply GetVarint32_consumes in E as (Hl & pre & -> & Hp); [|assumption].
  destruct (Z.leb_spec len (zlen p)); [|done].
  intros [= <- <-]. exists pre. by rewrite take_drop.
Qed.

(** ** Properties *)

(** Varint round trip: appending the varint encoding of any 32-bit (64-bit)
    value to any string and decoding behind that string gives the value back and
    leaves exactly the bytes that follow; the encodings take 1 to 5 (1 to 10) bytes. *)
Theorem varint_roundtrip :
  (forall dst v rest, 0 <= v < 2 ^ 32 ->
     exists e, PutVarint32 dst v = dst ++ e /\ (1 <= length e <= 5)%nat /\
       GetVarint32 (e ++ rest) = Some (v, rest)) /\
  (forall dst v rest, 0 <= v < 2 ^ 64 ->
     exists e, PutVarint64 dst v = dst ++ e /\ (1 <= length e <= 10)%nat /\
       zlen e = VarintLength v /\ GetVarint64 (e ++ rest) = Some (v, rest)).
Proof.
  split; intros dst v rest Hv.
  - exists (EncodeVarint32 v). split_and!; [reflexivity|apply EncodeVarint32_length..|]; try lia.
    by apply GetVarint32_Encode.
  - exists (EncodeVarint64 v). split; [reflexivity|].
    split; [apply EncodeVarint64_length; lia|]. split; [|by apply GetVarint64_Encode].
    unfold VarintLength. rewrite VarintLength_loop_length by lia. unfold EncodeVarint64. lia.
Qed.

Lemma varint_roundtrip_witness :
  exists e, PutVarint32 [7] 300 = [7] ++ e /\ (1 <= length e <= 5)%nat /\
    GetVarint32 (e ++ [1; 2]) = Some (300, [1; 2]).
Proof. apply (proj1 varint_roundtrip [7] 300 [1; 2]). lia. Defined.
