(* ===== verification/Crc32c.v ===== *)
(** * Crc32c: the CRC-32C checksum and its masking

    Models src/LSM-EBF/util/crc32c.cc and crc32c.h (the table-driven [Extend],
    four bytes at a time, with the tables of the source) and
    src/LSM-EBF/port/port_posix_sse.cc (the SSE 4.2 version it switches to).
    The intrinsics [_mm_crc32_u8/u32/u64] are parameters.  The reference
    definition is the bit-serial CRC with the reflected Castagnoli polynomial;
    both implementations are proved equal to it for every buffer address, so
    the checksum does not depend on alignment or on the processor. *)
From S2P Require Import Prelude Coding.

(** ** The lookup tables of the source *)

Definition table0_ : list Z := [
  0x00000000; 0xf26b8303; 0xe13b70f7; 0x1350f3f4;
  0xc79a971f; 0x35f1141c; 0x26a1e7e8; 0xd4ca64eb;
  0x8ad958cf; 0x78b2dbcc; 0x6be22838; 0x9989ab3b;
  0x4d43cfd0; 0xbf284cd3; 0xac78bf27; 0x5e133c24;
  0x105ec76f; 0xe235446c; 0xf165b798; 0x030e349b;
  0xd7c45070; 0x25afd373; 0x36ff2087; 0xc494a384;
  0x9a879fa0; 0x68ec1ca3; 0x7bbcef57; 0x89d76c54;
  0x5d1d08bf; 0xaf768bbc; 0xbc267848; 0x4e4dfb4b;
  0x20bd8ede; 0xd2d60ddd; 0xc186fe29; 0x33ed7d2a;
  0xe72719c1; 0x154c9ac2; 0x061c6936; 0xf477ea35;
  0xaa64d611; 0x580f5512; 0x4b5fa6e6; 0xb93425e5;
  0x6dfe410e; 0x9f95c20d; 0x8cc531f9; 0x7eaeb2fa;
  0x30e349b1; 0xc288cab2; 0xd1d83946; 0x23b3ba45;
  0xf779deae; 0x05125dad; 0x1642ae59; 0xe4292d5a;
  0xba3a117e; 0x4851927d; 0x5b016189; 0xa96ae28a;
  0x7da08661; 0x8fcb0562; 0x9c9bf696; 0x6ef07595;
  0x417b1dbc; 0xb3109ebf; 0xa0406d4b; 0x522bee48;
  0x86e18aa3; 0x748a09a0; 0x67dafa54; 0x95b17957;
  0xcba24573; 0x39c9c670; 0x2a993584; 0xd8f2b687;
  0x0c38d26c; 0xfe53516f; 0xed03a29b; 0x1f682198;
  0x5125dad3; 0xa34e59d0; 0xb01eaa24; 0x42752927;
  0x96bf4dcc; 0x64d4cecf; 0x77843d3b; 0x85efbe38;
  0xdbfc821c; 0x2997011f; 0x3ac7f2eb; 0xc8ac71e8;
  0x1c661503; 0xee0d9600; 0xfd5d65f4; 0x0f36e6f7;
  0x61c69362; 0x93ad1061; 0x80fde395; 0x72966096;
  0xa65c047d; 0x5437877e; 0x4767748a; 0xb50cf789;
  0xeb1fcbad; 0x197448ae; 0x0a24bb5a; 0xf84f3859;
  0x2c855cb2; 0xdeeedfb1; 0xcdbe2c45; 0x3fd5af46;
  0x7198540d; 0x83f3d70e; 0x90a324fa; 0x62c8a7f9;
  0xb602c312; 0x44694011; 0x5739b3e5; 0xa55230e6;
  0xfb410cc2; 0x092a8fc1; 0x1a7a7c35; 0xe811ff36;
  0x3cdb9bdd; 0xceb018de; 0xdde0eb2a; 0x2f8b6829;
  0x82f63b78; 0x709db87b; 0x63cd4b8f; 0x91a6c88c;
  0x456cac67; 0xb7072f64; 0xa457dc90; 0x563c5f93;
  0x082f63b7; 0xfa44e0b4; 0xe9141340; 0x1b7f9043;
  0xcfb5f4a8; 0x3dde77ab; 0x2e8e845f; 0xdce5075c;
  0x92a8fc17; 0x60c37f14; 0x73938ce0; 0x81f80fe3;
  0x55326b08; 0xa759e80b; 0xb4091bff; 0x466298fc;
  0x1871a4d8; 0xea1a27db; 0xf94ad42f; 0x0b21572c;
  0xdfeb33c7; 0x2d80b0c4; 0x3ed04330; 0xccbbc033;
  0xa24bb5a6; 0x502036a5; 0x4370c551; 0xb11b4652;
  0x65d122b9; 0x97baa1ba; 0x84ea524e; 0x7681d14d;
  0x2892ed69; 0xdaf96e6a; 0xc9a99d9e; 0x3bc21e9d;
  0xef087a76; 0x1d63f975; 0x0e330a81; 0xfc588982;
  0xb21572c9; 0x407ef1ca; 0x532e023e; 0xa145813d;
  0x758fe5d6; 0x87e466d5; 0x94b49521; 0x66df1622;
  0x38cc2a06; 0xcaa7a905; 0xd9f75af1; 0x2b9cd9f2;
  0xff56bd19; 0x0d3d3e1a; 0x1e6dcdee; 0xec064eed;
  0xc38d26c4; 0x31e6a5c7; 0x22b65633; 0xd0ddd530;
  0x0417b1db; 0xf67c32d8; 0xe52cc12c; 0x1747422f;
  0x49547e0b; 0xbb3ffd08; 0xa86f0efc; 0x5a048dff;
  0x8ecee914; 0x7ca56a17; 0x6ff599e3; 0x9d9e1ae0;
  0xd3d3e1ab; 0x21b862a8; 0x32e8915c; 0xc083125f;
  0x144976b4; 0xe622f5b7; 0xf5720643; 0x07198540;
  0x590ab964; 0xab613a67; 0xb831c993; 0x4a5a4a90;
  0x9e902e7b; 0x6cfbad78; 0x7fab5e8c; 0x8dc0dd8f;
  0xe330a81a; 0x115b2b19; 0x020bd8ed; 0xf0605bee;
  0x24aa3f05; 0xd6c1bc06; 0xc5914ff2; 0x37faccf1;
  0x69e9f0d5; 0x9b8273d6; 0x88d28022; 0x7ab90321;
  0xae7367ca; 0x5c18e4c9; 0x4f48173d; 0xbd23943e;
  0xf36e6f75; 0x0105ec76; 0x12551f82; 0xe03e9c81;
  0x34f4f86a; 0xc69f7b69; 0xd5cf889d; 0x27a40b9e;
  0x79b737ba; 0x8bdcb4b9; 0x988c474d; 0x6ae7c44e;
  0xbe2da0a5; 0x4c4623a6; 0x5f16d052; 0xad7d5351 ].

Definition table1_ : list Z := [
  0x00000000; 0x13a29877; 0x274530ee; 0x34e7a899;
  0x4e8a61dc; 0x5d28f9ab; 0x69cf5132; 0x7a6dc945;
  0x9d14c3b8; 0x8eb65bcf; 0xba51f356; 0xa9f36b21;
  0xd39ea264; 0xc03c3a13; 0xf4db928a; 0xe7790afd;
  0x3fc5f181; 0x2c6769f6; 0x1880c16f; 0x0b225918;
  0x714f905d; 0x62ed082a; 0x560aa0b3; 0x45a838c4;
  0xa2d13239; 0xb173aa4e; 0x859402d7; 0x96369aa0;
  0xec5b53e5; 0xfff9cb92; 0xcb1e630b; 0xd8bcfb7c;
  0x7f8be302; 0x6c297b75; 0x58ced3ec; 0x4b6c4b9b;
  0x310182de; 0x22a31aa9; 0x1644b230; 0x05e62a47;
  0xe29f20ba; 0xf13db8cd; 0xc5da1054; 0xd6788823;
  0xac154166; 0xbfb7d911; 0x8b507188; 0x98f2e9ff;
  0x404e1283; 0x53ec8af4; 0x670b226d; 0x74a9ba1a;
  0x0ec4735f; 0x1d66eb28; 0x298143b1; 0x3a23dbc6;
  0xdd5ad13b; 0xcef8494c; 0xfa1fe1d5; 0xe9bd79a2;
  0x93d0b0e7; 0x80722890; 0xb4958009; 0xa737187e;
  0xff17c604; 0xecb55e73; 0xd852f6ea; 0xcbf06e9d;
  0xb19da7d8; 0xa23f3faf; 0x96d89736; 0x857a0f41;
  0x620305bc; 0x71a19dcb; 0x45463552; 0x56e4ad25;
  0x2c896460; 0x3f2bfc17; 0x0bcc548e; 0x186eccf9;
  0xc0d23785; 0xd370aff2; 0xe797076b; 0xf4359f1c;
  0x8e585659; 0x9dface2e; 0xa91d66b7; 0xbabffec0;
  0x5dc6f43d; 0x4e646c4a; 0x7a83c4d3; 0x69215ca4;
  0x134c95e1; 0x00ee0d96; 0x3409a50f; 0x27ab3d78;
  0x809c2506; 0x933ebd71; 0xa7d915e8; 0xb47b8d9f;
  0xce1644da; 0xddb4dcad; 0xe9537434; 0xfaf1ec43;
  0x1d88e6be; 0x0e2a7ec9; 0x3acdd650; 0x296f4e27;
  0x53028762; 0x40a01f15; 0x7447b78c; 0x67e52ffb;
  0xbf59d487; 0xacfb4cf0; 0x981ce469; 0x8bbe7c1e;
  0xf1d3b55b; 0xe2712d2c; 0xd69685b5; 0xc5341dc2;
  0x224d173f; 0x31ef8f48; 0x050827d1; 0x16aabfa6;
  0x6cc776e3; 0x7f65ee94; 0x4b82460d; 0x5820de7a;
  0xfbc3faf9; 0xe861628e; 0xdc86ca17; 0xcf245260;
  0xb5499b25; 0xa6eb0352; 0x920cabcb; 0x81ae33bc;
  0x66d73941; 0x7575a136; 0x419209af; 0x523091d8;
  0x285d589d; 0x3bffc0ea; 0x0f186873; 0x1cbaf004;
  0xc4060b78; 0xd7a4930f; 0xe3433b96; 0xf0e1a3e1;
  0x8a8c6aa4; 0x992ef2d3; 0xadc95a4a; 0xbe6bc23d;
  0x5912c8c0; 0x4ab050b7; 0x7e57f82e; 0x6df56059;
  0x1798a91c; 0x043a316b; 0x30dd99f2; 0x237f0185;
  0x844819fb; 0x97ea818c; 0xa30d2915; 0xb0afb162;
  0xcac27827; 0xd960e050; 0xed8748c9; 0xfe25d0be;
  0x195cda43; 0x0afe4234; 0x3e19eaad; 0x2dbb72da;
  0x57d6bb9f; 0x447423e8; 0x70938b71; 0x63311306;
  0xbb8de87a; 0xa82f700d; 0x9cc8d894; 0x8f6a40e3;
  0xf50789a6; 0xe6a511d1; 0xd242b948; 0xc1e0213f;
  0x26992bc2; 0x353bb3b5; 0x01dc1b2c; 0x127e835b;
  0x68134a1e; 0x7bb1d269; 0x4f567af0; 0x5cf4e287;
  0x04d43cfd; 0x1776a48a; 0x23910c13; 0x30339464;
  0x4a5e5d21; 0x59fcc556; 0x6d1b6dcf; 0x7eb9f5b8;
  0x99c0ff45; 0x8a626732; 0xbe85cfab; 0xad2757dc;
  0xd74a9e99; 0xc4e806ee; 0xf00fae77; 0xe3ad3600;
  0x3b11cd7c; 0x28b3550b; 0x1c54fd92; 0x0ff665e5;
  0x759baca0; 0x663934d7; 0x52de9c4e; 0x417c0439;
  0xa6050ec4; 0xb5a796b3; 0x81403e2a; 0x92e2a65d;
  0xe88f6f18; 0xfb2df76f; 0xcfca5ff6; 0xdc68c781;
  0x7b5fdfff; 0x68fd4788; 0x5c1aef11; 0x4fb87766;
  0x35d5be23; 0x26772654; 0x12908ecd; 0x013216ba;
  0xe64b1c47; 0xf5e98430; 0xc10e2ca9; 0xd2acb4de;
  0xa8c17d9b; 0xbb63e5ec; 0x8f844d75; 0x9c26d502;
  0x449a2e7e; 0x5738b609; 0x63df1e90; 0x707d86e7;
  0x0a104fa2; 0x19b2d7d5; 0x2d557f4c; 0x3ef7e73b;
  0xd98eedc6; 0xca2c75b1; 0xfecbdd28; 0xed69455f;
  0x97048c1a; 0x84a6146d; 0xb041bcf4; 0xa3e32483 ].

Definition table2_ : list Z := [
  0x00000000; 0xa541927e; 0x4f6f520d; 0xea2ec073;
  0x9edea41a; 0x3b9f3664; 0xd1b1f617; 0x74f06469;
  0x38513ec5; 0x9d10acbb; 0x773e6cc8; 0xd27ffeb6;
  0xa68f9adf; 0x03ce08a1; 0xe9e0c8d2; 0x4ca15aac;
  0x70a27d8a; 0xd5e3eff4; 0x3fcd2f87; 0x9a8cbdf9;
  0xee7cd990; 0x4b3d4bee; 0xa1138b9d; 0x045219e3;
  0x48f3434f; 0xedb2d131; 0x079c1142; 0xa2dd833c;
  0xd62de755; 0x736c752b; 0x9942b558; 0x3c032726;
  0xe144fb14; 0x4405696a; 0xae2ba919; 0x0b6a3b67;
  0x7f9a5f0e; 0xdadbcd70; 0x30f50d03; 0x95b49f7d;
  0xd915c5d1; 0x7c5457af; 0x967a97dc; 0x333b05a2;
  0x47cb61cb; 0xe28af3b5; 0x08a433c6; 0xade5a1b8;
  0x91e6869e; 0x34a714e0; 0xde89d493; 0x7bc846ed;
  0x0f382284; 0xaa79b0fa; 0x40577089; 0xe516e2f7;
  0xa9b7b85b; 0x0cf62a25; 0xe6d8ea56; 0x43997828;
  0x37691c41; 0x92288e3f; 0x78064e4c; 0xdd47dc32;
  0xc76580d9; 0x622412a7; 0x880ad2d4; 0x2d4b40aa;
  0x59bb24c3; 0xfcfab6bd; 0x16d476ce; 0xb395e4b0;
  0xff34be1c; 0x5a752c62; 0xb05bec11; 0x151a7e6f;
  0x61ea1a06; 0xc4ab8878; 0x2e85480b; 0x8bc4da75;
  0xb7c7fd53; 0x12866f2d; 0xf8a8af5e; 0x5de93d20;
  0x29195949; 0x8c58cb37; 0x66760b44; 0xc337993a;
  0x8f96c396; 0x2ad751e8; 0xc0f9919b; 0x65b803e5;
  0x1148678c; 0xb409f5f2; 0x5e273581; 0xfb66a7ff;
  0x26217bcd; 0x8360e9b3; 0x694e29c0; 0xcc0fbbbe;
  0xb8ffdfd7; 0x1dbe4da9; 0xf7908dda; 0x52d11fa4;
  0x1e704508; 0xbb31d776; 0x511f1705; 0xf45e857b;
  0x80aee112; 0x25ef736c; 0xcfc1b31f; 0x6a802161;
  0x56830647; 0xf3c29439; 0x19ec544a; 0xbcadc634;
  0xc85da25d; 0x6d1c3023; 0x8732f050; 0x2273622e;
  0x6ed23882; 0xcb93aafc; 0x21bd6a8f; 0x84fcf8f1;
  0xf00c9c98; 0x554d0ee6; 0xbf63ce95; 0x1a225ceb;
  0x8b277743; 0x2e66e53d; 0xc448254e; 0x6109b730;
  0x15f9d359; 0xb0b84127; 0x5a968154; 0xffd7132a;
  0xb3764986; 0x1637dbf8; 0xfc191b8b; 0x595889f5;
  0x2da8ed9c; 0x88e97fe2; 0x62c7bf91; 0xc7862def;
  0xfb850ac9; 0x5ec498b7; 0xb4ea58c4; 0x11abcaba;
  0x655baed3; 0xc01a3cad; 0x2a34fcde; 0x8f756ea0;
  0xc3d4340c; 0x6695a672; 0x8cbb6601; 0x29faf47f;
  0x5d0a9016; 0xf84b0268; 0x1265c21b; 0xb7245065;
  0x6a638c57; 0xcf221e29; 0x250cde5a; 0x804d4c24;
  0xf4bd284d; 0x51fcba33; 0xbbd27a40; 0x1e93e83e;
  0x5232b292; 0xf77320ec; 0x1d5de09f; 0xb81c72e1;
  0xccec1688; 0x69ad84f6; 0x83834485; 0x26c2d6fb;
  0x1ac1f1dd; 0xbf8063a3; 0x55aea3d0; 0xf0ef31ae;
  0x841f55c7; 0x215ec7b9; 0xcb7007ca; 0x6e3195b4;
  0x2290cf18; 0x87d15d66; 0x6dff9d15; 0xc8be0f6b;
  0xbc4e6b02; 0x190ff97c; 0xf321390f; 0x5660ab71;
  0x4c42f79a; 0xe90365e4; 0x032da597; 0xa66c37e9;
  0xd29c5380; 0x77ddc1fe; 0x9df3018d; 0x38b293f3;
  0x7413c95f; 0xd1525b21; 0x3b7c9b52; 0x9e3d092c;
  0xeacd6d45; 0x4f8cff3b; 0xa5a23f48; 0x00e3ad36;
  0x3ce08a10; 0x99a1186e; 0x738fd81d; 0xd6ce4a63;
  0xa23e2e0a; 0x077fbc74; 0xed517c07; 0x4810ee79;
  0x04b1b4d5; 0xa1f026ab; 0x4bdee6d8; 0xee9f74a6;
  0x9a6f10cf; 0x3f2e82b1; 0xd50042c2; 0x7041d0bc;
  0xad060c8e; 0x08479ef0; 0xe2695e83; 0x4728ccfd;
  0x33d8a894; 0x96993aea; 0x7cb7fa99; 0xd9f668e7;
  0x9557324b; 0x3016a035; 0xda386046; 0x7f79f238;
  0x0b899651; 0xaec8042f; 0x44e6c45c; 0xe1a75622;
  0xdda47104; 0x78e5e37a; 0x92cb2309; 0x378ab177;
  0x437ad51e; 0xe63b4760; 0x0c158713; 0xa954156d;
  0xe5f54fc1; 0x40b4ddbf; 0xaa9a1dcc; 0x0fdb8fb2;
  0x7b2bebdb; 0xde6a79a5; 0x3444b9d6; 0x91052ba8 ].

Definition table3_ : list Z := [
  0x00000000; 0xdd45aab8; 0xbf672381; 0x62228939;
  0x7b2231f3; 0xa6679b4b; 0xc4451272; 0x1900b8ca;
  0xf64463e6; 0x2b01c95e; 0x49234067; 0x9466eadf;
  0x8d665215; 0x5023f8ad; 0x32017194; 0xef44db2c;
  0xe964b13d; 0x34211b85; 0x560392bc; 0x8b463804;
  0x924680ce; 0x4f032a76; 0x2d21a34f; 0xf06409f7;
  0x1f20d2db; 0xc2657863; 0xa047f15a; 0x7d025be2;
  0x6402e328; 0xb9474990; 0xdb65c0a9; 0x06206a11;
  0xd725148b; 0x0a60be33; 0x6842370a; 0xb5079db2;
  0xac072578; 0x71428fc0; 0x136006f9; 0xce25ac41;
  0x2161776d; 0xfc24ddd5; 0x9e0654ec; 0x4343fe54;
  0x5a43469e; 0x8706ec26; 0xe524651f; 0x3861cfa7;
  0x3e41a5b6; 0xe3040f0e; 0x81268637; 0x5c632c8f;
  0x45639445; 0x98263efd; 0xfa04b7c4; 0x27411d7c;
  0xc805c650; 0x15406ce8; 0x7762e5d1; 0xaa274f69;
  0xb327f7a3; 0x6e625d1b; 0x0c40d422; 0xd1057e9a;
  0xaba65fe7; 0x76e3f55f; 0x14c17c66; 0xc984d6de;
  0xd0846e14; 0x0dc1c4ac; 0x6fe34d95; 0xb2a6e72d;
  0x5de23c01; 0x80a796b9; 0xe2851f80; 0x3fc0b538;
  0x26c00df2; 0xfb85a74a; 0x99a72e73; 0x44e284cb;
  0x42c2eeda; 0x9f874462; 0xfda5cd5b; 0x20e067e3;
  0x39e0df29; 0xe4a57591; 0x8687fca8; 0x5bc25610;
  0xb4868d3c; 0x69c32784; 0x0be1aebd; 0xd6a40405;
  0xcfa4bccf; 0x12e11677; 0x70c39f4e; 0xad8635f6;
  0x7c834b6c; 0xa1c6e1d4; 0xc3e468ed; 0x1ea1c255;
  0x07a17a9f; 0xdae4d027; 0xb8c6591e; 0x6583f3a6;
  0x8ac7288a; 0x57828232; 0x35a00b0b; 0xe8e5a1b3;
  0xf1e51979; 0x2ca0b3c1; 0x4e823af8; 0x93c79040;
  0x95e7fa51; 0x48a250e9; 0x2a80d9d0; 0xf7c57368;
  0xeec5cba2; 0x3380611a; 0x51a2e823; 0x8ce7429b;
  0x63a399b7; 0xbee6330f; 0xdcc4ba36; 0x0181108e;
  0x1881a844; 0xc5c402fc; 0xa7e68bc5; 0x7aa3217d;
  0x52a0c93f; 0x8fe56387; 0xedc7eabe; 0x30824006;
  0x2982f8cc; 0xf4c75274; 0x96e5db4d; 0x4ba071f5;
  0xa4e4aad9; 0x79a10061; 0x1b838958; 0xc6c623e0;
  0xdfc69b2a; 0x02833192; 0x60a1b8ab; 0xbde41213;
  0xbbc47802; 0x6681d2ba; 0x04a35b83; 0xd9e6f13b;
  0xc0e649f1; 0x1da3e349; 0x7f816a70; 0xa2c4c0c8;
  0x4d801be4; 0x90c5b15c; 0xf2e73865; 0x2fa292dd;
  0x36a22a17; 0xebe780af; 0x89c50996; 0x5480a32e;
  0x8585ddb4; 0x58c0770c; 0x3ae2fe35; 0xe7a7548d;
  0xfea7ec47; 0x23e246ff; 0x41c0cfc6; 0x9c85657e;
  0x73c1be52; 0xae8414ea; 0xcca69dd3; 0x11e3376b;
  0x08e38fa1; 0xd5a62519; 0xb784ac20; 0x6ac10698;
  0x6ce16c89; 0xb1a4c631; 0xd3864f08; 0x0ec3e5b0;
  0x17c35d7a; 0xca86f7c2; 0xa8a47efb; 0x75e1d443;
  0x9aa50f6f; 0x47e0a5d7; 0x25c22cee; 0xf8878656;
  0xe1873e9c; 0x3cc29424; 0x5ee01d1d; 0x83a5b7a5;
  0xf90696d8; 0x24433c60; 0x4661b559; 0x9b241fe1;
  0x8224a72b; 0x5f610d93; 0x3d4384aa; 0xe0062e12;
  0x0f42f53e; 0xd2075f86; 0xb025d6bf; 0x6d607c07;
  0x7460c4cd; 0xa9256e75; 0xcb07e74c; 0x16424df4;
  0x106227e5; 0xcd278d5d; 0xaf050464; 0x7240aedc;
  0x6b401616; 0xb605bcae; 0xd4273597; 0x09629f2f;
  0xe6264403; 0x3b63eebb; 0x59416782; 0x8404cd3a;
  0x9d0475f0; 0x4041df48; 0x22635671; 0xff26fcc9;
  0x2e238253; 0xf36628eb; 0x9144a1d2; 0x4c010b6a;
  0x5501b3a0; 0x88441918; 0xea669021; 0x37233a99;
  0xd867e1b5; 0x05224b0d; 0x6700c234; 0xba45688c;
  0xa345d046; 0x7e007afe; 0x1c22f3c7; 0xc167597f;
  0xc747336e; 0x1a0299d6; 0x782010ef; 0xa565ba57;
  0xbc65029d; 0x6120a825; 0x0302211c; 0xde478ba4;
  0x31035088; 0xec46fa30; 0x8e647309; 0x5321d9b1;
  0x4a21617b; 0x9764cbc3; 0xf54642fa; 0x2803e842 ].

(** [tableN_[c]], with [c] already reduced to a byte. *)
Definition table_at (t : list Z) (c : Z) : Z := nth (Z.to_nat c) t 0.

(** ** The portable [Extend] *)

Definition LE_LOAD32 (p : bytes) : Z := DecodeFixed32 p.

(** [STEP1]: consume one byte. *)
Definition STEP1 (l b : Z) : Z :=
  let c := (l &&& 0xff) ^^^ b in
  table_at table0_ c ^^^ (l ≫ 8).

(** [STEP4]: consume the four bytes at [p]. *)
Definition STEP4 (l : Z) (p : bytes) : Z :=
  let c := l ^^^ LE_LOAD32 p in
  table_at table3_ (c &&& 0xff) ^^^ table_at table2_ ((c ≫ 8) &&& 0xff)
  ^^^ table_at table1_ ((c ≫ 16) &&& 0xff) ^^^ table_at table0_ (c ≫ 24).

(** [while (p != x) STEP1] for the first [n] bytes. *)
Fixpoint step1_n (n : nat) (l : Z) (p : bytes) : Z * bytes :=
  match n, p with
  | S n, b :: p => step1_n n (STEP1 l b) p
  | _, _ => (l, p)
  end.

(** [while ((e-p) >= 16) { STEP4; STEP4; STEP4; STEP4; }], by fuel. *)
Fixpoint step16_loop (fuel : nat) (l : Z) (p : bytes) : Z * bytes :=
  match fuel with
  | O => (l, p)
  | S fuel =>
      if 16 <=? zlen p then
        let l := STEP4 l p in
        let l := STEP4 l (drop 4 p) in
        let l := STEP4 l (drop 8 p) in
        let l := STEP4 l (drop 12 p) in
        step16_loop fuel l (drop 16 p)
      else (l, p)
  end.

(** [while ((e-p) >= 4) STEP4]. *)
Fixpoint step4_loop (fuel : nat) (l : Z) (p : bytes) : Z * bytes :=
  match fuel with
  | O => (l, p)
  | S fuel =>
      if 4 <=? zlen p then step4_loop fuel (STEP4 l p) (drop 4 p) else (l, p)
  end.

(** [pval] is the address of the buffer; the fuel of a loop is the number of
    bytes left, which bounds its iterations. *)
Definition Extend_portable (pval crc : Z) (buf : bytes) : Z :=
  let l := crc ^^^ 0xffffffff in
  let x := ((pval + 3) ≫ 2) ≪ 2 in
  let '(l, p) :=
    if x <=? pval + zlen buf then step1_n (Z.to_nat (x - pval)) l buf else (l, buf) in
  let '(l, p) := step16_loop (length p) l p in
  let '(l, p) := step4_loop (length p) l p in
  let '(l, p) := step1_n (length p) l p in
  l ^^^ 0xffffffff.

(** ** The SSE 4.2 [Extend] and the run-time choice *)

Section Accelerated.
Variable have : bool.   (** [HaveSSE42 ()] *)
Variables mm_crc32_u8 mm_crc32_u32 mm_crc32_u64 : Z -> Z -> Z.

Fixpoint sse_step1_n (n : nat) (l : Z) (p : bytes) : Z * bytes :=
  match n, p with
  | S n, b :: p => sse_step1_n n (mm_crc32_u8 l b) p
  | _, _ => (l, p)
  end.

Fixpoint sse_step8_loop (fuel : nat) (l : Z) (p : bytes) : Z * bytes :=
  match fuel with
  | O => (l, p)
  | S fuel =>
      if 8 <=? zlen p
      then sse_step8_loop fuel (mm_crc32_u64 l (DecodeFixed64 p)) (drop 8 p)
      else (l, p)
  end.

Definition AcceleratedCRC32C (pval crc : Z) (buf : bytes) : Z :=
  if negb have then 0
  else
    let l := crc ^^^ 0xffffffff in
    let '(l, p) :=
      if 16 <? zlen buf then
        let '(l, p) := sse_step1_n (Z.to_nat (pval mod 8)) l buf in
        let '(l, p) := sse_step8_loop (length p) l p in
        if 4 <=? zlen p
        then (mm_crc32_u32 l (DecodeFixed32 p), drop 4 p)
        else (l, p)
      else (l, buf) in
    let '(l, p) := sse_step1_n (length p) l p in
    l ^^^ 0xffffffff.

(** The bytes of ["TestCRCBuffer"]. *)
Definition kTestCRCBuffer : bytes :=
  [84; 101; 115; 116; 67; 82; 67; 66; 117; 102; 102; 101; 114].

Definition CanAccelerateCRC32C (ptest : Z) : bool :=
  AcceleratedCRC32C ptest 0 kTestCRCBuffer =? 0xdcbc59fa.

(** [ptest] is the address of the test buffer, [pval] that of the data. *)
Definition Extend (ptest pval crc : Z) (buf : bytes) : Z :=
  if CanAccelerateCRC32C ptest
  then AcceleratedCRC32C pval crc buf
  else Extend_portable pval crc buf.
End Accelerated.

(** ** Masking *)

Definition kMaskDelta : Z := 0xa282ead8.

Definition Mask (crc : Z) : Z :=
  u32 (((crc ≫ 15) ||| u32 (crc ≪ 17)) + kMaskDelta).

Definition Unmask (masked_crc : Z) : Z :=
  let rot := u32 (masked_crc - kMaskDelta) in
  (rot ≫ 17) ||| u32 (rot ≪ 15).

(** ** The bit-serial reference *)

Definition crc_bit (l : Z) : Z :=
  if Z.odd l then (l ≫ 1) ^^^ 0x82f63b78 else l ≫ 1.

Definition crc_bits (n : nat) (l : Z) : Z := Nat.iter n crc_bit l.

Definition crc_update (l b : Z) : Z := crc_bits 8 (l ^^^ b).

Definition crc_run (l : Z) (buf : bytes) : Z := fold_left crc_update buf l.

(** CRC-32C of [buf] continuing from [crc]. *)
Definition crc32c_spec (crc : Z) (buf : bytes) : Z :=
  crc_run (crc ^^^ 0xffffffff) buf ^^^ 0xffffffff.

(** ** Lemmas: the CRC step is linear over exclusive or *)

Lemma crc_bit_lxor a b : crc_bit (a ^^^ b) = crc_bit a ^^^ crc_bit b.
Proof.
  unfold crc_bit. rewrite <- !Z.bit0_odd, Z.lxor_spec, !Z.shiftr_lxor.
  destruct (Z.testbit a 0), (Z.testbit b 0); simpl; lxor_solve.
Qed.

Lemma crc_bits_lxor n a b : crc_bits n (a ^^^ b) = crc_bits n a ^^^ crc_bits n b.
Proof.
  unfold crc_bits. induction n as [|n IH]; simpl; [reflexivity|].
  by rewrite IH, crc_bit_lxor.
Qed.

Lemma crc_bits_add n m l : crc_bits (n + m) l = crc_bits n (crc_bits m l).
Proof. unfold crc_bits. induction n; simpl; congruence. Qed.

Lemma crc_bits_shiftl n x : crc_bits n (x ≪ Z.of_nat n) = x.
Proof.
  unfold crc_bits. induction n as [|n IH] in x |- *; [apply Z.shiftl_0_r|].
  rewrite Nat.iter_succ_r.
  replace (crc_bit (x ≪ Z.of_nat (S n))) with (x ≪ Z.of_nat n); [apply IH|].
  unfold crc_bit. rewrite <- Z.bit0_odd, Z.shiftl_spec_low by lia.
  rewrite Z.shiftr_shiftl_l by lia. f_equal. lia.
Qed.

Lemma crc_bit_range l : 0 <= l < 2 ^ 32 -> 0 <= crc_bit l < 2 ^ 32.
Proof.
  intros Hl. unfold crc_bit.
  assert (0 <= l ≫ 1 < 2 ^ 31) by (rewrite Z.shiftr_div_pow2 by lia; word).
  case_match; [|lia]. apply lxor_lt; lia.
Qed.

Lemma crc_bits_range n l : 0 <= l < 2 ^ 32 -> 0 <= crc_bits n l < 2 ^ 32.
Proof.
  unfold crc_bits. intros Hl. induction n as [|n IH]; simpl; [assumption|]. by apply crc_bit_range.
Qed.

Lemma crc_update_range l b : 0 <= l < 2 ^ 32 -> is_byte b -> 0 <= crc_update l b < 2 ^ 32.
Proof.
  intros Hl Hb. apply crc_bits_range, lxor_lt; unfold is_byte in *; lia.
Qed.

(** ** Lemmas: the tables hold the CRC of the four byte positions *)

Lemma table_ok (t : list Z) (k : nat) :
  forallb (fun c => table_at t c =? crc_bits k c) all_bytes = true ->
  forall c, is_byte c -> table_at t c = crc_bits k c.
Proof. intros H c Hc. apply Z.eqb_eq. exact (byte_forallb _ H c Hc). Qed.

Lemma table0_crc c : is_byte c -> table_at table0_ c = crc_bits 8 c.
Proof. apply table_ok. vm_compute. reflexivity. Qed.

Lemma table1_crc c : is_byte c -> table_at table1_ c = crc_bits 16 c.
Proof. apply table_ok. vm_compute. reflexivity. Qed.

Lemma table2_crc c : is_byte c -> table_at table2_ c = crc_bits 24 c.
Proof. apply table_ok. vm_compute. reflexivity. Qed.

Lemma table3_crc c : is_byte c -> table_at table3_ c = crc_bits 32 c.
Proof. apply table_ok. vm_compute. reflexivity. Qed.

(** A word is the exclusive or of its low byte and the rest in place. *)
Lemma low_byte_split l : l = (l &&& 0xff) ^^^ ((l ≫ 8) ≪ 8).
Proof.
  apply Z.bits_inj'. intros i Hi. rewrite Z.lxor_spec, land_255, u8_testbit by lia.
  destruct (Z.ltb_spec i 8); simpl.
  - rewrite Z.shiftl_spec_low by lia. by rewrite xorb_false_r.
  - rewrite Z.shiftl_spec_high, Z.shiftr_spec by lia. rewrite ?xorb_false_l. f_equal. lia.
Qed.

Lemma land_ff_byte x : is_byte (x &&& 0xff).
Proof. rewrite land_255. apply u8_is_byte. Qed.

Lemma crc_bits_split (n : nat) l :
  crc_bits (n + 8) l = crc_bits (n + 8) (l &&& 0xff) ^^^ crc_bits n (l ≫ 8).
Proof.
  rewrite (low_byte_split l) at 1. rewrite crc_bits_lxor. f_equal.
  rewrite crc_bits_add. f_equal. apply (crc_bits_shiftl 8).
Qed.

Lemma STEP1_update l b : is_byte b -> STEP1 l b = crc_update l b.
Proof.
  intros Hb. unfold STEP1, crc_update.
  assert ((l &&& 0xff) ^^^ b = (l ^^^ b) &&& 0xff) as ->.
  { rewrite !land_255. apply Z.bits_inj'. intros i Hi.
    rewrite Z.lxor_spec, !u8_testbit, Z.lxor_spec by lia.
    destruct (Z.ltb_spec i 8); simpl; [reflexivity|].
    by rewrite (testbit_small b 8) by (unfold is_byte in Hb; lia). }
  rewrite table0_crc by apply land_ff_byte.
  change (crc_bits 8 (l ^^^ b)) with (crc_bits (0 + 8) (l ^^^ b)).
  rewrite (crc_bits_split 0 (l ^^^ b)). f_equal.
  change (crc_bits 0 ((l ^^^ b) ≫ 8)) with ((l ^^^ b) ≫ 8).
  rewrite Z.shiftr_lxor. replace (b ≫ 8) with 0; [by rewrite Z.lxor_0_r|].
  rewrite Z.shiftr_div_pow2 by lia. unfold is_byte in Hb. word.
Qed.

(** ** Lemmas: words absorb into the bit-serial run *)

Lemma crc_update_absorb n x b :
  crc_update (crc_bits n x) b = crc_bits (8 + n) (x ^^^ (b ≪ Z.of_nat n)).
Proof.
  unfold crc_update. rewrite crc_bits_add, (crc_bits_lxor n), crc_bits_shiftl. reflexivity.
Qed.

(** The run over a byte string is one long shift of the string read as a
    little-endian number. *)
Fixpoint le_xor (n : nat) (p : bytes) : Z :=
  match p with
  | [] => 0
  | b :: p => (b ≪ Z.of_nat n) ^^^ le_xor (8 + n) p
  end.

Lemma crc_run_le_xor n x p :
  crc_run (crc_bits n x) p = crc_bits (8 * length p + n) (x ^^^ le_xor n p).
Proof.
  unfold crc_run. revert n x. induction p as [|b p IH]; intros n x; cbn [fold_left le_xor].
  - by rewrite Z.lxor_0_r.
  - rewrite crc_update_absorb, IH, Z.lxor_assoc. f_equal. simpl length. lia.
Qed.

Lemma DecodeFixed32_le_xor p :
  bytes_ok p -> (4 <= length p)%nat -> DecodeFixed32 p = le_xor 0 (take 4 p).
Proof.
  intros Hp Hl. destruct p as [|a [|b [|c [|d p]]]]; simpl in Hl; try lia.
  repeat (apply Forall_cons in Hp as [? Hp]). unfold is_byte in *.
  unfold DecodeFixed32, byte_at. simpl. rewrite !Z.lxor_0_r.
  rewrite (lor_shiftl_lxor a b 8), (lor_shiftl_lxor _ c 16), (lor_shiftl_lxor _ d 24); try lia.
  - rewrite Z.shiftl_0_r, !Z.lxor_assoc. reflexivity.
  - apply lxor_lt; [lia|apply lxor_lt; try lia|]; rewrite Z.shiftl_mul_pow2; lia.
  - apply lxor_lt; [lia|lia|]; rewrite Z.shiftl_mul_pow2; lia.
Qed.

Lemma le_xor_shift n m p : le_xor (n + m) p = le_xor n p ≪ Z.of_nat m.
Proof.
  revert n. induction p as [|b p IH]; intros n; cbn [le_xor]; [by rewrite Z.shiftl_0_l|].
  rewrite Z.shiftl_lxor, <- IH, Z.shiftl_shiftl by lia. do 2 f_equal; lia.
Qed.

Lemma le_xor_app n p q :
  le_xor n (p ++ q) = le_xor n p ^^^ le_xor (8 * length p + n) q.
Proof.
  revert n. induction p as [|b p IH]; intros n; cbn [app le_xor].
  - by rewrite Z.lxor_0_l.
  - rewrite IH, Z.lxor_assoc. do 3 f_equal. simpl length. lia.
Qed.

Lemma DecodeFixed64_le_xor p :
  bytes_ok p -> (8 <= length p)%nat -> DecodeFixed64 p = le_xor 0 (take 8 p).
Proof.
  intros Hp Hl. unfold DecodeFixed64. rewrite Z.lor_comm, lor_shiftl_lxor;
    [|lia|by apply DecodeFixed32_range].
  rewrite !DecodeFixed32_le_xor by (rewrite ?length_drop; auto with kv; lia).
  change (take 8 p) with (take (4 + 4) p). rewrite <- (take_take_drop p 4 4), le_xor_app, length_take, Nat.min_l by lia. f_equal.
  symmetry. apply (le_xor_shift 0 32).
Qed.

Lemma crc_run_take (n : nat) l p :
  (n <= length p)%nat -> crc_run l (take n p) = crc_bits (8 * n) (l ^^^ le_xor 0 (take n p)).
Proof.
  intros Hl. rewrite (crc_run_le_xor 0 l), length_take, Nat.min_l by lia. f_equal. lia.
Qed.

Lemma crc_run_app l p q : crc_run l (p ++ q) = crc_run (crc_run l p) q.
Proof. apply fold_left_app. Qed.

Lemma crc_run_range l p : 0 <= l < 2 ^ 32 -> bytes_ok p -> 0 <= crc_run l p < 2 ^ 32.
Proof.
  unfold crc_run. intros Hl Hp. induction Hp as [|b p Hb Hp IH] in l, Hl |- *; simpl; [lia|].
  apply IH. by apply crc_update_range.
Qed.

Lemma STEP4_run l p :
  0 <= l < 2 ^ 32 -> bytes_ok p -> (4 <= length p)%nat -> STEP4 l p = crc_run l (take 4 p).
Proof.
  intros Hl Hp Hlen. rewrite crc_run_take, <- DecodeFixed32_le_xor by assumption.
  unfold STEP4, LE_LOAD32. set (c := l ^^^ DecodeFixed32 p).
  assert (0 <= c < 2 ^ 32) as Hc by (apply lxor_lt; [lia|lia|by apply DecodeFixed32_range]).
  pose proof (crc_bits_split 24 c) as H1. pose proof (crc_bits_split 16 (c ≫ 8)) as H2.
  pose proof (crc_bits_split 8 ((c ≫ 8) ≫ 8)) as H3. cbn [Nat.add] in H1, H2, H3.
  change (8 * 4)%nat with 32%nat. rewrite H1, H2, H3, !Z.shiftr_shiftr by lia.
  change (8 + 8) with 16. change (16 + 8) with 24.
  rewrite table3_crc, table2_crc, table1_crc, table0_crc by
    (apply land_ff_byte || (unfold is_byte; rewrite Z.shiftr_div_pow2 by lia; word)).
  rewrite !Z.lxor_assoc. reflexivity.
Qed.

#[local] Opaque STEP1 STEP4.

(** ** Lemmas: the loops

    Each loop computes the run over the bytes it consumes: [absorbs l p (l', p')]
    says that [p'] is what remains of [p] and [l'] the state after the rest. *)

Definition absorbs (l : Z) (p : bytes) (r : Z * bytes) : Prop :=
  exists q, p = q ++ r.2 /\ r.1 = crc_run l q.

Lemma absorbs_refl l p : absorbs l p (l, p).
Proof. by exists []. Qed.

Lemma absorbs_trans l p l1 p1 r : absorbs l p (l1, p1) -> absorbs l1 p1 r -> absorbs l p r.
Proof.
  intros (q1 & -> & H1) (q2 & H2 & H3). simpl in *. subst.
  exists (q1 ++ q2). by rewrite <- app_assoc, crc_run_app.
Qed.

Lemma absorbs_state l p r : absorbs l p r -> bytes_ok p -> 0 <= l < 2 ^ 32 ->
  bytes_ok r.2 /\ 0 <= r.1 < 2 ^ 32.
Proof.
  intros (q & -> & ->) [Hq Hr]%bytes_ok_app Hl. split; [assumption|]. by apply crc_run_range.
Qed.

Lemma absorbs_byte l b p : absorbs l (b :: p) (crc_update l b, p).
Proof. by exists [b]. Qed.

Lemma absorbs_take n l p : absorbs l p (crc_run l (take n p), drop n p).
Proof. exists (take n p). split; [symmetry; apply take_drop|reflexivity]. Qed.

Lemma absorbs_STEP4 l p :
  0 <= l < 2 ^ 32 -> bytes_ok p -> (4 <= length p)%nat -> absorbs l p (STEP4 l p, drop 4 p).
Proof. intros. rewrite STEP4_run by assumption. apply absorbs_take. Qed.

Lemma step1_n_absorbs n l p : bytes_ok p -> absorbs l p (step1_n n l p).
Proof.
  revert l p. induction n as [|n IH]; intros l p Hp; simpl; [apply absorbs_refl|].
  destruct p as [|b p]; [apply absorbs_refl|]. apply Forall_cons in Hp as [Hb Hp].
  rewrite STEP1_update by assumption. eapply absorbs_trans; [apply absorbs_byte|]. by apply IH.
Qed.

Lemma step1_n_all l p : (step1_n (length p) l p).2 = [].
Proof. revert l. induction p as [|b p IH]; intros l; simpl; [reflexivity|]. apply IH. Qed.

(** Four consecutive [STEP4]s absorb sixteen bytes. *)
Lemma absorbs_STEP16 l p :
  0 <= l < 2 ^ 32 -> bytes_ok p -> (16 <= length p)%nat ->
  absorbs l p (STEP4 (STEP4 (STEP4 (STEP4 l p) (drop 4 p)) (drop 8 p)) (drop 12 p), drop 16 p).
Proof.
  intros Hl Hp Hn.
  assert (STEP4 (STEP4 (STEP4 (STEP4 l p) (drop 4 p)) (drop 8 p)) (drop 12 p)
          = crc_run l (take 16 p)) as ->; [|apply absorbs_take].
  rewrite (STEP4_run l p), (STEP4_run _ (drop 4 p)), (STEP4_run _ (drop 8 p)),
    (STEP4_run _ (drop 12 p)) by
    (rewrite ?length_drop; auto 6 using crc_run_range, bytes_ok_take, bytes_ok_drop; lia).
  rewrite <- !crc_run_app, !app_assoc.
  assert (take 4 p ++ take 4 (drop 4 p) = take 8 p) as -> by apply (take_take_drop p 4 4).
  assert (take 8 p ++ take 4 (drop 8 p) = take 12 p) as -> by apply (take_take_drop p 8 4).
  f_equal. apply (take_take_drop p 12 4).
Qed.

Lemma step16_absorbs fuel l p :
  0 <= l < 2 ^ 32 -> bytes_ok p -> absorbs l p (step16_loop fuel l p).
Proof.
  revert l p. induction fuel as [|fuel IH]; intros l p Hl Hp; simpl; [apply absorbs_refl|].
  destruct (Z.leb_spec 16 (zlen p)); [|apply absorbs_refl].
  assert (16 <= length p)%nat by (unfold zlen in *; lia).
  pose proof (absorbs_STEP16 l p Hl Hp ltac:(lia)) as Ha.
  destruct (absorbs_state _ _ _ Ha Hp Hl) as [??].
  eapply absorbs_trans; [exact Ha|]. by apply IH.
Qed.

Lemma step4_absorbs fuel l p :
  0 <= l < 2 ^ 32 -> bytes_ok p -> absorbs l p (step4_loop fuel l p).
Proof.
  revert l p. induction fuel as [|fuel IH]; intros l p Hl Hp; simpl; [apply absorbs_refl|].
  destruct (Z.leb_spec 4 (zlen p)); [|apply absorbs_refl].
  pose proof (absorbs_STEP4 l p Hl Hp ltac:(unfold zlen in *; lia)) as Ha.
  destruct (absorbs_state _ _ _ Ha Hp Hl) as [??].
  eapply absorbs_trans; [exact Ha|]. by apply IH.
Qed.

Lemma absorbs_done l p r : absorbs l p r -> r.2 = [] -> r.1 = crc_run l p.
Proof. intros (q & -> & ->) ->. by rewrite app_nil_r. Qed.

Lemma init_range crc : 0 <= crc < 2 ^ 32 -> 0 <= crc ^^^ 0xffffffff < 2 ^ 32.
Proof. intros. apply lxor_lt; lia. Qed.

Lemma Extend_portable_spec pval crc buf :
  0 <= crc < 2 ^ 32 -> bytes_ok buf -> Extend_portable pval crc buf = crc32c_spec crc buf.
Proof.
  intros Hc%init_range Hb. unfold Extend_portable, crc32c_spec.
  set (l0 := crc ^^^ 0xffffffff) in *. cbv zeta.
  set (x := ((pval + 3) ≫ 2) ≪ 2).
  set (r1 := if x <=? pval + zlen buf then _ else _).
  assert (absorbs l0 buf r1) as H1.
  { subst r1. case_match; [by apply step1_n_absorbs|apply absorbs_refl]. }
  destruct r1 as [l1 p1]. destruct (absorbs_state _ _ _ H1 Hb Hc) as [Hp1 Hl1]; simpl in *.
  pose proof (step16_absorbs (length p1) l1 p1 Hl1 Hp1) as H2.
  destruct (step16_loop _ _ _) as [l2 p2]. destruct (absorbs_state _ _ _ H2 Hp1 Hl1) as [Hp2 Hl2].
  pose proof (step4_absorbs (length p2) l2 p2 Hl2 Hp2) as H3. simpl in *.
  destruct (step4_loop _ _ _) as [l3 p3]. destruct (absorbs_state _ _ _ H3 Hp2 Hl2) as [Hp3 Hl3].
  pose proof (step1_n_absorbs (length p3) l3 p3 Hp3) as H4. simpl in *.
  pose proof (step1_n_all l3 p3) as H5. destruct (step1_n _ _ _) as [l4 p4].
  f_equal. apply (absorbs_done l0 buf (l4, p4)); [|exact H5].
  eauto using absorbs_trans.
Qed.

(** ** Lemmas: the SSE 4.2 version

    The hypotheses are the documented effect of the [crc32] instruction: it
    shifts its operand through the CRC register, least significant bit first. *)

Section AcceleratedSpec.
Context (mm_crc32_u8 mm_crc32_u32 mm_crc32_u64 : Z -> Z -> Z).
Hypothesis mm_u8 : forall l b, 0 <= l < 2 ^ 32 -> is_byte b ->
  mm_crc32_u8 l b = crc_bits 8 (l ^^^ b).
Hypothesis mm_u32 : forall l w, 0 <= l < 2 ^ 32 -> 0 <= w < 2 ^ 32 ->
  mm_crc32_u32 l w = crc_bits 32 (l ^^^ w).
Hypothesis mm_u64 : forall l w, 0 <= l < 2 ^ 32 -> 0 <= w < 2 ^ 64 ->
  mm_crc32_u64 l w = crc_bits 64 (l ^^^ w).

Lemma sse_step1_absorbs n l p :
  0 <= l < 2 ^ 32 -> bytes_ok p -> absorbs l p (sse_step1_n mm_crc32_u8 n l p).
Proof.
  revert l p. induction n as [|n IH]; intros l p Hl Hp; simpl; [apply absorbs_refl|].
  destruct p as [|b p]; [apply absorbs_refl|]. apply Forall_cons in Hp as [Hb Hp].
  rewrite mm_u8 by assumption. eapply absorbs_trans; [apply absorbs_byte|].
  apply IH; [|assumption]. by apply crc_update_range.
Qed.

Lemma sse_step1_all l p : (sse_step1_n mm_crc32_u8 (length p) l p).2 = [].
Proof. revert l. induction p as [|b p IH]; intros l; simpl; [reflexivity|]. apply IH. Qed.

Lemma sse_step4_absorbs l p :
  0 <= l < 2 ^ 32 -> bytes_ok p -> (4 <= length p)%nat ->
  absorbs l p (mm_crc32_u32 l (DecodeFixed32 p), drop 4 p).
Proof.
  intros Hl Hp Hn. rewrite mm_u32 by (assumption || by apply DecodeFixed32_range).
  rewrite DecodeFixed32_le_xor, <- (crc_run_take 4) by assumption. apply absorbs_take.
Qed.

Lemma sse_step8_absorbs fuel l p :
  0 <= l < 2 ^ 32 -> bytes_ok p -> absorbs l p (sse_step8_loop mm_crc32_u64 fuel l p).
Proof.
  revert l p. induction fuel as [|fuel IH]; intros l p Hl Hp; simpl; [apply absorbs_refl|].
  destruct (Z.leb_spec 8 (zlen p)); [|apply absorbs_refl].
  assert (8 <= length p)%nat by (unfold zlen in *; lia).
  rewrite mm_u64 by (assumption || by apply DecodeFixed64_range).
  rewrite DecodeFixed64_le_xor, <- (crc_run_take 8) by assumption.
  eapply absorbs_trans; [apply (absorbs_take 8)|].
  apply IH; auto using crc_run_range, bytes_ok_take, bytes_ok_drop.
Qed.

Lemma Accelerated_spec pval crc buf :
  0 <= crc < 2 ^ 32 -> bytes_ok buf ->
  AcceleratedCRC32C true mm_crc32_u8 mm_crc32_u32 mm_crc32_u64 pval crc buf
    = crc32c_spec crc buf.
Proof.
  intros Hc%init_range Hb. unfold AcceleratedCRC32C, crc32c_spec. simpl negb. cbv iota.
  set (l0 := crc ^^^ 0xffffffff) in *. cbv zeta.
  set (r1 := if 16 <? zlen buf then _ else _).
  assert (absorbs l0 buf r1) as H1.
  { subst r1. case_match; [|apply absorbs_refl].
    pose proof (sse_step1_absorbs (Z.to_nat (pval mod 8)) l0 buf Hc Hb) as Ha.
    destruct (sse_step1_n _ _ _ _) as [l1 p1].
    destruct (absorbs_state _ _ _ Ha Hb Hc) as [Hp1 Hl1]. simpl in *.
    pose proof (sse_step8_absorbs (length p1) l1 p1 Hl1 Hp1) as Ha2.
    destruct (sse_step8_loop _ _ _ _) as [l2 p2].
    destruct (absorbs_state _ _ _ Ha2 Hp1 Hl1) as [Hp2 Hl2]. simpl in *.
    eapply absorbs_trans; [exact Ha|]. eapply absorbs_trans; [exact Ha2|].
    destruct (Z.leb_spec 4 (zlen p2)); [|apply absorbs_refl].
    apply sse_step4_absorbs; [assumption..|]. unfold zlen in *; lia. }
  destruct r1 as [l1 p1]. destruct (absorbs_state _ _ _ H1 Hb Hc) as [Hp1 Hl1]. simpl in *.
  pose proof (sse_step1_absorbs (length p1) l1 p1 Hl1 Hp1) as H2.
  pose proof (sse_step1_all l1 p1) as H3. destruct (sse_step1_n _ _ _ _) as [l4 p4].
  f_equal. apply (absorbs_done l0 buf (l4, p4)); [|exact H3]. eauto using absorbs_trans.
Qed.

(** The start-up self test accepts the accelerated routine exactly when the
    processor has it. *)
Lemma CanAccelerate_have have ptest :
  CanAccelerateCRC32C have mm_crc32_u8 mm_crc32_u32 mm_crc32_u64 ptest = have.
Proof.
  unfold CanAccelerateCRC32C. destruct have; [|reflexivity].
  rewrite Accelerated_spec; [vm_compute; reflexivity|lia|].
  repeat constructor; lia.
Qed.

Lemma Extend_spec have ptest pval crc buf :
  0 <= crc < 2 ^ 32 -> bytes_ok buf ->
  Extend have mm_crc32_u8 mm_crc32_u32 mm_crc32_u64 ptest pval crc buf = crc32c_spec crc buf.
Proof.
  intros. unfold Extend. rewrite CanAccelerate_have. destruct have.
  - by apply Accelerated_spec.
  - by apply Extend_portable_spec.
Qed.
End AcceleratedSpec.

(** ** Lemmas: the reference *)

Lemma crc32c_spec_range crc buf :
  0 <= crc < 2 ^ 32 -> bytes_ok buf -> 0 <= crc32c_spec crc buf < 2 ^ 32.
Proof. intros Hc%init_range Hb. apply lxor_lt; [lia|by apply crc_run_range|lia]. Qed.

Lemma crc32c_spec_app crc a b :
  crc32c_spec crc (a ++ b) = crc32c_spec (crc32c_spec crc a) b.
Proof.
  unfold crc32c_spec. rewrite crc_run_app, Z.lxor_assoc, Z.lxor_nilpotent, Z.lxor_0_r. reflexivity.
Qed.

(** ** The interface the log and the table format rely on *)

Class Crc32c := {
  crc_extend : Z -> bytes -> Z;
  crc_extend_range : forall crc buf,
    0 <= crc < 2 ^ 32 -> bytes_ok buf -> 0 <= crc_extend crc buf < 2 ^ 32;
  crc_extend_app : forall crc a b,
    0 <= crc < 2 ^ 32 -> bytes_ok a -> bytes_ok b ->
    crc_extend crc (a ++ b) = crc_extend (crc_extend crc a) b
}.

(** [crc32c::Value]. *)
Definition Value `{Crc32c} (data : bytes) : Z := crc_extend 0 data.

Lemma Value_range `{Crc32c} data : bytes_ok data -> 0 <= Value data < 2 ^ 32.
Proof. intros. apply crc_extend_range; [lia|assumption]. Qed.

Lemma Value_app `{Crc32c} a b :
  bytes_ok a -> bytes_ok b -> Value (a ++ b) = crc_extend (Value a) b.
Proof. intros. unfold Value. apply crc_extend_app; [lia|assumption..]. Qed.

(** The portable routine at any address discharges the interface. *)
#[export] Program Instance crc32c_portable (pval : Z) : Crc32c :=
  {| crc_extend := Extend_portable pval |}.
Next Obligation. intros. rewrite Extend_portable_spec by assumption. by apply crc32c_spec_range. Qed.
Next Obligation.
  intros pval crc a b Hc Ha Hb.
  assert (0 <= Extend_portable pval crc a < 2 ^ 32) by
    (rewrite Extend_portable_spec by assumption; by apply crc32c_spec_range).
  rewrite !Extend_portable_spec by (assumption || by apply bytes_ok_app).
  apply crc32c_spec_app.
Qed.

(** The run-time choice discharges it as well, for any documented intrinsics. *)
Program Definition crc32c_runtime (have : bool) (mm8 mm32 mm64 : Z -> Z -> Z)
    (H8 : forall l b, 0 <= l < 2 ^ 32 -> is_byte b -> mm8 l b = crc_bits 8 (l ^^^ b))
    (H32 : forall l w, 0 <= l < 2 ^ 32 -> 0 <= w < 2 ^ 32 -> mm32 l w = crc_bits 32 (l ^^^ w))
    (H64 : forall l w, 0 <= l < 2 ^ 32 -> 0 <= w < 2 ^ 64 -> mm64 l w = crc_bits 64 (l ^^^ w))
    (ptest pval : Z) : Crc32c :=
  {| crc_extend := Extend have mm8 mm32 mm64 ptest pval |}.
Next Obligation.
  intros. rewrite (Extend_spec mm8 mm32 mm64 H8 H32 H64) by assumption. by apply crc32c_spec_range.
Qed.
Next Obligation.
  intros have mm8 mm32 mm64 H8 H32 H64 ptest pval crc a b Hc Ha Hb.
  assert (0 <= crc32c_spec crc a < 2 ^ 32) by (by apply crc32c_spec_range).
  rewrite !(Extend_spec mm8 mm32 mm64 H8 H32 H64); try assumption; try (by apply bytes_ok_app).
  - apply crc32c_spec_app.
  - by rewrite (Extend_spec mm8 mm32 mm64 H8 H32 H64).
Qed.

(** ** Lemmas: masking *)

(** Rotation of a 32-bit word as the source writes it. *)
Lemma rotr_testbit x k i :
  0 <= x < 2 ^ 32 -> 0 <= k <= 32 -> 0 <= i < 32 ->
  Z.testbit ((x ≫ k) ||| u32 (x ≪ (32 - k))) i = Z.testbit x ((i + k) mod 32).
Proof.
  intros Hx Hk Hi. rewrite Z.lor_spec, Z.shiftr_spec, u32_testbit by lia.
  rewrite (proj2 (Z.ltb_lt i 32)) by lia. simpl. destruct (Z.ltb_spec i (32 - k)).
  - rewrite Z.shiftl_spec_low, orb_false_r, Z.mod_small by lia. reflexivity.
  - rewrite Z.shiftl_spec_high by lia. destruct (Z.eq_dec k 0) as [->|]; [lia|].
    rewrite (testbit_small x 32 (i + k)) by lia. simpl. f_equal. word.
Qed.

Lemma rotr_range x k : 0 <= x < 2 ^ 32 -> 0 <= k <= 32 ->
  0 <= (x ≫ k) ||| u32 (x ≪ (32 - k)) < 2 ^ 32.
Proof.
  intros Hx Hk. apply lor_lt; [lia| |apply u32_range].
  rewrite Z.shiftr_div_pow2 by lia. split; [apply Z.div_pos; try lia; apply Z.pow_pos_nonneg; lia|].
  apply Z.div_lt_upper_bound; [apply Z.pow_pos_nonneg; lia|].
  assert (0 < 2 ^ k) by (apply Z.pow_pos_nonneg; lia). nia.
Qed.

Lemma Unmask_Mask crc : 0 <= crc < 2 ^ 32 -> Unmask (Mask crc) = crc.
Proof.
  intros Hc. unfold Unmask, Mask.
  pose proof (rotr_range crc 15 Hc ltac:(lia)) as Hr. change (32 - 15) with 17 in Hr.
  set (r := (crc ≫ 15) ||| u32 (crc ≪ 17)) in *.
  replace (u32 (u32 (r + kMaskDelta) - kMaskDelta)) with r by (unfold kMaskDelta; word).
  apply Z.bits_inj'. intros i Hi.
  pose proof (rotr_range r 17 Hr ltac:(lia)) as Hr2. change (32 - 17) with 15 in Hr2.
  destruct (Z.ltb_spec i 32).
  - rewrite (rotr_testbit r 17 i Hr ltac:(lia) ltac:(lia) : Z.testbit (_ ||| u32 (r ≪ 15)) i = _).
    subst r. change 17 with (32 - 15) at 1.
    rewrite (rotr_testbit crc 15) by word. f_equal. word.
  - rewrite !(testbit_small _ 32) by lia. reflexivity.
Qed.

Lemma Mask_range crc : 0 <= Mask crc < 2 ^ 32.
Proof. apply u32_range. Qed.

(** ** Properties *)

(** C35. The checksum the code computes, for any buffer address and whichever of
    the table-driven and the SSE 4.2 routine the start-up test selects, is the
    bit-serial CRC-32C of the data, and checksumming a string in two pieces is
    checksumming it whole. *)
Theorem crc32c_extend_correct have mm8 mm32 mm64
    (H8 : forall l b, 0 <= l < 2 ^ 32 -> is_byte b -> mm8 l b = crc_bits 8 (l ^^^ b))
    (H32 : forall l w, 0 <= l < 2 ^ 32 -> 0 <= w < 2 ^ 32 -> mm32 l w = crc_bits 32 (l ^^^ w))
    (H64 : forall l w, 0 <= l < 2 ^ 32 -> 0 <= w < 2 ^ 64 -> mm64 l w = crc_bits 64 (l ^^^ w))
    ptest pval pval2 crc a b :
  0 <= crc < 2 ^ 32 -> bytes_ok a -> bytes_ok b ->
  Extend have mm8 mm32 mm64 ptest pval crc (a ++ b) = crc32c_spec crc (a ++ b) /\
  Extend have mm8 mm32 mm64 ptest pval crc (a ++ b) =
    Extend have mm8 mm32 mm64 ptest pval2
      (Extend have mm8 mm32 mm64 ptest pval crc a) b.
Proof.
  intros Hc Ha Hb. assert (bytes_ok (a ++ b)) by (by apply bytes_ok_app).
  rewrite (Extend_spec mm8 mm32 mm64 H8 H32 H64 have ptest pval crc a) by assumption.
  rewrite !(Extend_spec mm8 mm32 mm64 H8 H32 H64);
    auto using crc32c_spec_range, crc32c_spec_app.
Qed.

Lemma crc32c_extend_correct_witness :
  Extend true (fun l b => crc_bits 8 (l ^^^ b)) (fun l w => crc_bits 32 (l ^^^ w))
    (fun l w => crc_bits 64 (l ^^^ w)) 5 3 0 ([49; 50; 51; 52] ++ [53; 54; 55; 56; 57])
  = 0xe3069283.
Proof.
  rewrite (proj1 (crc32c_extend_correct true (fun l b => crc_bits 8 (l ^^^ b))
    (fun l w => crc_bits 32 (l ^^^ w)) (fun l w => crc_bits 64 (l ^^^ w))
    ltac:(reflexivity) ltac:(reflexivity) ltac:(reflexivity) 5 3 3 0
    [49; 50; 51; 52] [53; 54; 55; 56; 57] ltac:(lia)
    ltac:(repeat constructor; lia) ltac:(repeat constructor; lia))).
  vm_compute. reflexivity.
Defined.

(** Masking a checksum for storage is undone by unmasking, for every 32-bit
    checksum, and the stored form is again a 32-bit value. *)
Theorem mask_roundtrip crc :
  0 <= crc < 2 ^ 32 -> 0 <= Mask crc < 2 ^ 32 /\ Unmask (Mask crc) = crc.
Proof. intros. split; [apply Mask_range|by apply Unmask_Mask]. Qed.

Lemma mask_roundtrip_witness : Unmask (Mask 0xe3069283) = 0xe3069283.
Proof. apply (mask_roundtrip 0xe3069283). lia. Defined.
