(* ===== verification/Status.v ===== *)
(** * Status: error values, and the files of the environment

    [Status] models src/LSM-EBF/util/status.cc and include/leveldb/status.h with
    the byte layout of [state_].  The file objects of include/leveldb/env.h are
    given by their documented contract: an operation either succeeds and does
    what it says, or fails with some status, possibly after part of the data;
    the outcomes are a list that belongs to the file, so that a theorem about a
    file quantifies over every pattern of failures. *)
From S2P Require Import Prelude Coding.

(** ** [Status] *)

Inductive Code := kOk | kNotFound | kCorruption | kNotSupported | kInvalidArgument | kIOError.

Definition code_num (c : Code) : Z :=
  match c with
  | kOk => 0 | kNotFound => 1 | kCorruption => 2 | kNotSupported => 3
  | kInvalidArgument => 4 | kIOError => 5
  end.

(** [state_]: [None] for NULL, otherwise length, code and message. *)
Definition Status := option bytes.

Definition Status_OK : Status := None.

Definition Status_make (code : Code) (msg msg2 : bytes) : Status :=
  let len1 := u32 (zlen msg) in
  let len2 := u32 (zlen msg2) in
  let size := u32 (len1 + if len2 =? 0 then 0 else u32 (2 + len2)) in
  Some (EncodeFixed32 size ++ [code_num code] ++ take (Z.to_nat len1) msg ++
        if len2 =? 0 then [] else [58; 32] ++ take (Z.to_nat len2) msg2).

Definition NotFound (msg msg2 : bytes) : Status := Status_make kNotFound msg msg2.
Definition Corruption (msg msg2 : bytes) : Status := Status_make kCorruption msg msg2.
Definition NotSupported (msg msg2 : bytes) : Status := Status_make kNotSupported msg msg2.
Definition InvalidArgument (msg msg2 : bytes) : Status := Status_make kInvalidArgument msg msg2.
Definition IOError (msg msg2 : bytes) : Status := Status_make kIOError msg msg2.

Definition ok (s : Status) : bool := match s with None => true | Some _ => false end.

(** [code()]: 0 for NULL, otherwise the byte at offset 4. *)
Definition code (s : Status) : Z :=
  match s with None => 0 | Some state_ => byte_at state_ 4 end.

Definition IsNotFound (s : Status) : bool := code s =? code_num kNotFound.
Definition IsCorruption (s : Status) : bool := code s =? code_num kCorruption.
Definition IsIOError (s : Status) : bool := code s =? code_num kIOError.

(** The [default] case prints the number; no constructor produces it. *)
Definition code_name (c : Z) : bytes :=
  match c with
  | 0 => str "OK" | 1 => str "NotFound: " | 2 => str "Corruption: "
  | 3 => str "Not implemented: " | 4 => str "Invalid argument: " | 5 => str "IO error: "
  | _ => str "Unknown code"
  end.

Definition Status_ToString (s : Status) : bytes :=
  match s with
  | None => str "OK"
  | Some state_ => code_name (code s) ++ sub_bytes state_ 5 (Z.to_nat (DecodeFixed32 state_))
  end.

(** ** Files *)

(** One outcome: success, or failure with a status after [got] bytes. *)
Inductive io := IoOk | IoErr (s : bytes) (got : nat).

Record WritableFile := WFile { contents : bytes; w_io : list io }.

Definition next_io (l : list io) : io * list io :=
  match l with [] => (IoOk, []) | o :: l => (o, l) end.

Definition Append (f : WritableFile) (data : bytes) : Status * WritableFile :=
  let '(o, l) := next_io (w_io f) in
  match o with
  | IoOk => (Status_OK, WFile (contents f ++ data) l)
  | IoErr s got => (Some s, WFile (contents f ++ take got data) l)
  end.

Definition Flush (f : WritableFile) : Status * WritableFile :=
  let '(o, l) := next_io (w_io f) in
  match o with
  | IoOk => (Status_OK, WFile (contents f) l)
  | IoErr s _ => (Some s, WFile (contents f) l)
  end.

Record SequentialFile := SFile { rest : bytes; s_io : list io }.

(** [Read(n)]: up to [n] bytes; fewer only at the end of the file or on error. *)
Definition SeqRead (f : SequentialFile) (n : nat) : Status * bytes * SequentialFile :=
  let '(o, l) := next_io (s_io f) in
  match o with
  | IoOk => (Status_OK, take n (rest f), SFile (drop n (rest f)) l)
  | IoErr s got =>
      (Some s, take (Nat.min got n) (rest f), SFile (drop (Nat.min got n) (rest f)) l)
  end.

Definition SeqSkip (f : SequentialFile) (n : nat) : Status * SequentialFile :=
  let '(o, l) := next_io (s_io f) in
  match o with
  | IoOk => (Status_OK, SFile (drop n (rest f)) l)
  | IoErr s got => (Some s, SFile (drop (Nat.min got n) (rest f)) l)
  end.

Record RandomAccessFile := RFile { r_contents : bytes; r_io : list io }.

(** [Read(offset, n)]. *)
Definition RandRead (f : RandomAccessFile) (offset : Z) (n : nat)
    : Status * bytes * RandomAccessFile :=
  let '(o, l) := next_io (r_io f) in
  match o with
  | IoOk => (Status_OK, sub_bytes (r_contents f) (Z.to_nat offset) n, RFile (r_contents f) l)
  | IoErr s got =>
      (Some s, sub_bytes (r_contents f) (Z.to_nat offset) (Nat.min got n), RFile (r_contents f) l)
  end.

(** ** Lemmas *)

Lemma str_ok s : bytes_ok (str s).
Proof.
  induction s as [|c s IH]; simpl; constructor; [|assumption].
  unfold is_byte. pose proof (Ascii.nat_ascii_bounded c). lia.
Qed.

(** A constructed status carries its code and prints its messages. *)
Lemma Status_make_spec c m1 m2 :
  c <> kOk -> zlen m1 + zlen m2 + 2 < 2 ^ 32 ->
  ok (Status_make c m1 m2) = false /\ code (Status_make c m1 m2) = code_num c /\
  Status_ToString (Status_make c m1 m2)
    = code_name (code_num c) ++ m1 ++ (if zlen m2 =? 0 then [] else [58; 32] ++ m2).
Proof.
  intros Hc Hl. pose proof (zlen_nonneg m1). pose proof (zlen_nonneg m2).
  unfold Status_make. rewrite (u32_small (zlen m1)), (u32_small (zlen m2)) by lia.
  rewrite !to_nat_zlen, !firstn_all. split_and!; [done|done|].
  unfold Status_ToString, code. f_equal. set (size := u32 _).
  rewrite DecodeFixed32_Encode by apply u32_range.
  set (m := m1 ++ _). unfold sub_bytes. rewrite app_assoc, drop_app_exact by reflexivity.
  replace (Z.to_nat size) with (length m); [apply firstn_all|].
  subst size m. destruct (Z.eqb_spec (zlen m2) 0).
  - rewrite u32_small by lia. len. unfold zlen in *. lia.
  - rewrite !u32_small by (rewrite ?u32_small; lia). len. unfold zlen in *. lia.
Qed.
