(* ===== verification/Hash.v ===== *)
(** * Hash: the hash function of the filters and the caches

    Models src/LSM-EBF/util/hash.cc. *)
From S2P Require Import Prelude Coding.

Definition hash_m : Z := 0xc6a4a793.
Definition hash_r : Z := 24.

(** [while (data + 4 <= limit)]: four bytes at a time, by fuel; returns the
    remaining bytes with the state. *)
Fixpoint Hash_loop (fuel : nat) (h : Z) (data : bytes) : Z * bytes :=
  match fuel with
  | O => (h, data)
  | S fuel =>
      if 4 <=? zlen data then
        let w := DecodeFixed32 data in
        let h := u32 (h + w) in
        let h := u32 (h * hash_m) in
        let h := h ^^^ (h ≫ 16) in
        Hash_loop fuel h (drop 4 data)
      else (h, data)
  end.

(** The [switch] with its fall-throughs. *)
Definition Hash_tail (h : Z) (data : bytes) : Z :=
  let rest := zlen data in
  let h := if rest =? 3 then u32 (h + (byte_at data 2 ≪ 16)) else h in
  let h := if (rest =? 3) || (rest =? 2) then u32 (h + (byte_at data 1 ≪ 8)) else h in
  if (rest =? 3) || (rest =? 2) || (rest =? 1) then
    let h := u32 (h + byte_at data 0) in
    let h := u32 (h * hash_m) in
    h ^^^ (h ≫ hash_r)
  else h.

(** [seed ^ (n * m)] is computed in [size_t] and stored in 32 bits. *)
Definition Hash (data : bytes) (seed : Z) : Z :=
  let h := u32 (seed ^^^ u64 (zlen data * hash_m)) in
  let '(h, data) := Hash_loop (length data) h data in
  Hash_tail h data.

(** ** Lemmas *)

Lemma xor_shift_range h k : 0 <= h < 2 ^ 32 -> 0 <= k -> 0 <= h ^^^ (h ≫ k) < 2 ^ 32.
Proof.
  intros Hh Hk. apply lxor_lt; [lia|assumption|]. rewrite Z.shiftr_div_pow2 by assumption.
  assert (0 < 2 ^ k) by (apply Z.pow_pos_nonneg; lia).
  split; [apply Z.div_pos; lia|]. apply Z.div_lt_upper_bound; nia.
Qed.

Lemma Hash_loop_range fuel h data :
  0 <= h < 2 ^ 32 -> 0 <= (Hash_loop fuel h data).1 < 2 ^ 32.
Proof.
  revert h data. induction fuel as [|fuel IH]; intros h data Hh; simpl; [assumption|].
  case_match; [|assumption]. apply IH, xor_shift_range; [apply u32_range|lia].
Qed.

(** The four-byte loop leaves at most three bytes, so the [switch] sees every
    case it can. *)
Lemma Hash_loop_rest fuel h data :
  (length data <= fuel)%nat -> (length (Hash_loop fuel h data).2 < 4)%nat.
Proof.
  revert h data. induction fuel as [|fuel IH]; intros h data Hl; simpl; [simpl in *; lia|].
  destruct (Z.leb_spec 4 (zlen data)); unfold zlen in *.
  - apply IH. rewrite length_drop. lia.
  - simpl. lia.
Qed.

Lemma Hash_range data seed : 0 <= Hash data seed < 2 ^ 32.
Proof.
  unfold Hash. set (h0 := u32 _).
  pose proof (Hash_loop_range (length data) h0 data (u32_range _)) as Hr.
  destruct (Hash_loop _ _ _) as [h rest]. simpl in Hr. unfold Hash_tail.
  repeat case_match; try (apply xor_shift_range; [apply u32_range|unfold hash_r; lia]);
    try assumption; apply u32_range.
Qed.

#[export] Hint Resolve Hash_range : kv.

(** The values util/hash_test.cc checks. *)
Example Hash_vectors :
  Hash [] 0xbc9f1d34 = 0xbc9f1d34 /\
  Hash [0xe2; 0x99; 0xa5] 0xbc9f1d34 = 0x323c078f /\
  Hash [0xe1; 0x80; 0xb9; 0x32] 0xbc9f1d34 = 0xed21633a /\
  Hash [0x01; 0xc0; 0; 0; 0; 0; 0; 0; 0; 0; 0; 0; 0; 0; 0; 0; 0x14; 0; 0; 0; 0; 0; 0x04; 0;
        0; 0; 0; 0x14; 0; 0; 0; 0x18; 0x28; 0; 0; 0; 0; 0; 0; 0; 0x02; 0; 0; 0; 0; 0; 0; 0]
    0x12345678 = 0xf333dabb.
Proof. vm_compute. auto. Qed.
