(* ===== verification/Bloom.v ===== *)
(** * Bloom: the bloom filters

    Models src/LSM-EBF/util/bloom.cc ([BloomFilterPolicy]) and
    src/LSM-EBF/util/multi_bloom.cc ([ChildBloomFilterPolicy], the elastic
    filter [MultiFilter] that splits one filter into several independent ones,
    and its worker threads).  [None] stands for a run that terminates the
    process ([handle_error_en]) or reads past a vector. *)
From S2P Require Import Prelude Coding Hash.
From Stdlib Require Import Floats.SpecFloat.

(** ** Probe count

    [static_cast<size_t>(bits_per_key * 0.69)] is a product of doubles: the
    integer is converted exactly, the literal is the nearest double, and the
    product is rounded to nearest even before the truncation. *)

Definition double_of_Z (z : Z) : spec_float := binary_normalize 53 1024 z 0 false.

Definition double_0_69 : spec_float := S754_finite false 6214967485771284 (-53).

Definition trunc_double (f : spec_float) : Z :=
  match f with
  | S754_finite false m e => if 0 <=? e then Zpos m * 2 ^ e else Zpos m / 2 ^ (- e)
  | _ => 0
  end.

Definition bloom_k (bits_per_key : Z) : Z :=
  let k := trunc_double (SFmul 53 1024 (double_of_Z bits_per_key) double_0_69) in
  let k := if k <? 1 then 1 else k in
  if 30 <? k then 30 else k.

(** ** The filter routines, for a hash of the key *)

(** [delta = (h >> 17) | (h << 15)]. *)
Definition bloom_delta (h : Z) : Z := (h ≫ 17) ||| u32 (h ≪ 15).

(** [array[bitpos/8] |= (1 << (bitpos % 8))]. *)
Definition set_bit (array : bytes) (bitpos : Z) : bytes :=
  let i := Z.to_nat (bitpos / 8) in
  <[i := u8 (byte_at array i ||| (1 ≪ (bitpos mod 8)))]> array.

(** The probe loop of [CreateFilter] for one key. *)
Fixpoint add_probes (k : nat) (bits h delta : Z) (array : bytes) : bytes :=
  match k with
  | O => array
  | S k =>
      let bitpos := u32 (h mod bits) in
      add_probes k bits (u32 (h + delta)) delta (set_bit array bitpos)
  end.

(** The probe loop of [KeyMayMatch]. *)
Fixpoint check_probes (k : nat) (bits h delta : Z) (array : bytes) : bool :=
  match k with
  | O => true
  | S k =>
      let bitpos := u32 (h mod bits) in
      if byte_at array (Z.to_nat (bitpos / 8)) &&& (1 ≪ (bitpos mod 8)) =? 0 then false
      else check_probes k bits (u32 (h + delta)) delta array
  end.

Fixpoint add_keys (k : nat) (bits : Z) (hash : bytes -> Z) (keys : list bytes) (array : bytes)
    : bytes :=
  match keys with
  | [] => array
  | key :: keys =>
      let h := hash key in
      add_keys k bits hash keys (add_probes k bits h (bloom_delta h) array)
  end.

(** Filter size in bytes for [n] keys. *)
Definition filter_bytes (bits_per_key n : Z) : Z :=
  let bits := u64 (n * bits_per_key) in
  let bits := if bits <? 64 then 64 else bits in
  u64 (bits + 7) / 8.

Definition CreateFilter_with (hash : bytes -> Z) (bits_per_key k : Z)
    (keys : list bytes) (dst : bytes) : bytes :=
  let bytes := filter_bytes bits_per_key (zlen keys) in
  let bits := bytes * 8 in
  let array := replicate (Z.to_nat bytes) 0 ++ [u8 k] in
  dst ++ add_keys (Z.to_nat k) bits hash keys array.

Definition KeyMayMatch_with (hash : bytes -> Z) (key filter : bytes) : bool :=
  let len := zlen filter in
  if len <? 2 then false
  else
    let bits := (len - 1) * 8 in
    let k := sext8 64 (byte_at filter (length filter - 1)) in
    if 30 <? k then true
    else
      let h := hash key in
      check_probes (Z.to_nat k) bits h (bloom_delta h) filter.

(** ** [BloomFilterPolicy] *)

Module BloomFilterPolicy.
Record t := { bits_per_key_ : Z; k_ : Z }.

Definition make (bits_per_key : Z) : t :=
  {| bits_per_key_ := bits_per_key; k_ := bloom_k bits_per_key |}.

Definition BloomHash (key : bytes) : Z := Hash key 0xbc9f1d34.

Definition CreateFilter (p : t) (keys : list bytes) (dst : bytes) : bytes :=
  CreateFilter_with BloomHash (bits_per_key_ p) (k_ p) keys dst.

Definition KeyMayMatch (p : t) (key bloom_filter : bytes) : bool :=
  KeyMayMatch_with BloomHash key bloom_filter.
End BloomFilterPolicy.

(** ** [ChildBloomFilterPolicy] *)

(** The seed of each child filter; any other [id] ends the process. *)
Definition BloomHash_seed (id : Z) : option Z :=
  match id with
  | 0 => Some 0xbc9f1d34 | 1 => Some 0x34f1d34b | 2 => Some 0x251d34bc
  | 3 => Some 0x01d34bc9 | 4 => Some 0x1934bc9f | 5 => Some 0x934bc9f1
  | 6 => Some 0x4bc9f193 | 7 => Some 0x51c2578a | 8 => Some 0xda23562f
  | 9 => Some 0x135254f2 | 10 => Some 0xea1e4a48 | 11 => Some 0x567925f1
  | _ => None
  end.

Definition BloomHash (key : bytes) (id : Z) : option Z :=
  Hash key <$> BloomHash_seed id.

Module Child.
Record t := { bits_per_key_ : Z; k_ : Z; id_ : Z }.

Definition make (bits_per_key id : Z) : t :=
  {| bits_per_key_ := bits_per_key; k_ := bloom_k bits_per_key; id_ := id |}.

(** The hash is evaluated only when there is a key to add. *)
Definition CreateFilter (p : t) (keys : list bytes) (dst : bytes) : option bytes :=
  match keys, BloomHash_seed (id_ p) with
  | _ :: _, None => None
  | _, seed =>
      Some (CreateFilter_with (fun key => Hash key (default 0 seed))
              (bits_per_key_ p) (k_ p) keys dst)
  end.

Definition KeyMayMatch (p : t) (key bloom_filter : bytes) : option bool :=
  let len := zlen bloom_filter in
  if len <? 2 then Some false
  else
    let bits := (len - 1) * 8 in
    let k := sext8 64 (byte_at bloom_filter (length bloom_filter - 1)) in
    if 30 <? k then Some true
    else
      h ← BloomHash key (id_ p);
      Some (check_probes (Z.to_nat k) bits h (bloom_delta h) bloom_filter).

Definition filterNums (p : t) : Z := 1.
End Child.

(** ** [MultiFilter] *)

Module MultiFilter.
Record t := { filters : list Child.t; bits_per_key_ : Z; bits_per_key_per_filter_ : list Z }.

(** The constructor reads the array up to its zero terminator; the child at
    position [i] has id [i].  The copy has 16 entries, zero filled. *)
Fixpoint make_filters (i : Z) (bits_per_key_per_filter : list Z) : list Child.t :=
  match bits_per_key_per_filter with
  | [] => []
  | b :: bs => if b =? 0 then [] else Child.make b i :: make_filters (i + 1) bs
  end.

Definition make (bits_per_key_per_filter : list Z) (bits_per_key : Z) : t :=
  let fs := make_filters 0 bits_per_key_per_filter in
  {| filters := fs; bits_per_key_ := bits_per_key;
     bits_per_key_per_filter_ :=
       map Child.bits_per_key_ fs ++ replicate (16 - length fs) 0 |}.

Definition filterNums (p : t) : Z := zlen (filters p).

(** [CreateFilter(keys, n, dst + i)] for each child in turn. *)
Fixpoint create_each (fs : list Child.t) (keys : list bytes) (dsts : list bytes)
    : option (list bytes) :=
  match fs, dsts with
  | [], _ => Some dsts
  | _ :: _, [] => None
  | f :: fs, dst :: dsts =>
      d ← Child.CreateFilter f keys dst;
      ds ← create_each fs keys dsts;
      Some (d :: ds)
  end.

Definition CreateFilter (p : t) (keys : list bytes) (dsts : list bytes) : option (list bytes) :=
  create_each (filters p) keys dsts.

Definition KeyMayMatchId (p : t) (key bloom_filter : bytes) (id : nat) : option bool :=
  f ← filters p !! id; Child.KeyMayMatch f key bloom_filter.

Fixpoint match_each (fs : list Child.t) (key : bytes) (filter_strs : list bytes) : option bool :=
  match filter_strs with
  | [] => Some true
  | s :: strs =>
      match fs with
      | [] => None
      | f :: fs =>
          b ← Child.KeyMayMatch f key s;
          if negb b then Some false else match_each fs key strs
      end
  end.

Definition KeyMayMatchFilters (p : t) (key : bytes) (filter_strs : list bytes) : option bool :=
  match_each (filters p) key filter_strs.
End MultiFilter.

(** ** Lemmas: bits of the array *)

Lemma land_1_shiftl x j : 0 <= j -> (x &&& (1 ≪ j) =? 0) = negb (Z.testbit x j).
Proof.
  intros Hj. rewrite Z.shiftl_1_l.
  destruct (Z.testbit x j) eqn:E; simpl.
  - apply Z.eqb_neq. intros H. apply (f_equal (fun z => Z.testbit z j)) in H.
    rewrite Z.land_spec, E, Z.pow2_bits_true, Z.bits_0 in H by assumption. discriminate.
  - apply Z.eqb_eq, Z.bits_inj'. intros i Hi. rewrite Z.land_spec, Z.bits_0.
    destruct (Z.eq_dec i j) as [->|]; [by rewrite E|].
    rewrite Z.pow2_bits_false by lia. apply andb_false_r.
Qed.

Definition test_bit (array : bytes) (pos : Z) : bool :=
  Z.testbit (byte_at array (Z.to_nat (pos / 8))) (pos mod 8).

Lemma byte_at_insert array i j b :
  byte_at (<[i := b]> array) j =
    if bool_decide (i = j /\ (i < length array)%nat) then b else byte_at array j.
Proof.
  unfold byte_at. rewrite !nth_lookup. case_bool_decide as H.
  - destruct H as [<- H]. by rewrite list_lookup_insert_eq.
  - destruct (decide (i = j)) as [->|].
    + rewrite list_insert_ge by lia. reflexivity.
    + by rewrite list_lookup_insert_ne.
Qed.

Lemma length_set_bit array p : length (set_bit array p) = length array.
Proof. apply length_insert. Qed.

#[export] Hint Rewrite length_set_bit : len.

Lemma test_bit_set_bit array p q :
  0 <= p < 8 * zlen array -> 0 <= q ->
  test_bit (set_bit array p) q = test_bit array q || (p =? q).
Proof.
  intros Hp Hq. unfold test_bit, set_bit. rewrite byte_at_insert.
  assert (Z.to_nat (p / 8) < length array)%nat by (unfold zlen in Hp; word).
  case_bool_decide as H1.
  - destruct H1 as [H1 _]. assert (p / 8 = q / 8) by word.
    rewrite u8_testbit, Z.lor_spec, (proj2 (Z.ltb_lt _ 8)) by word. rewrite andb_true_l.
    rewrite H1, Z.shiftl_1_l. f_equal. destruct (Z.eqb_spec p q) as [->|Hne].
    + apply Z.pow2_bits_true. word.
    + apply Z.pow2_bits_false. word.
  - rewrite (proj2 (Z.eqb_neq p q)) by (intros ->; tauto). by rewrite orb_false_r.
Qed.

Lemma set_bit_last array p n :
  0 <= p < 8 * Z.of_nat n -> byte_at (set_bit array p) n = byte_at array n.
Proof.
  intros Hp. unfold set_bit. rewrite byte_at_insert. case_bool_decide as H; [|reflexivity].
  destruct H as [H _]. word.
Qed.

(** ** Lemmas: the probe loops *)

Lemma bitpos_range h bits : 0 <= h < 2 ^ 32 -> 0 < bits -> 0 <= u32 (h mod bits) < bits.
Proof.
  intros Hh Hb. pose proof (Z.mod_pos_bound h bits Hb). pose proof (Z.mod_le h bits).
  rewrite u32_small; lia.
Qed.

Section Probes.
Context (n : nat) (Hn : (0 < n)%nat).
Let bits := Z.of_nat n * 8.

(** The invariant of the array: [n] filter bytes, then the probe count. *)
Definition same_shape (a b : bytes) : Prop :=
  length a = length b /\ byte_at a n = byte_at b n.

Definition grows (a b : bytes) : Prop :=
  forall q, 0 <= q -> test_bit a q = true -> test_bit b q = true.

Lemma add_probes_spec k h delta array :
  0 <= h < 2 ^ 32 -> length array = S n ->
  same_shape (add_probes k bits h delta array) array /\
  grows array (add_probes k bits h delta array) /\
  check_probes k bits h delta (add_probes k bits h delta array) = true.
Proof.
  revert h array. induction k as [|k IH]; intros h array Hh Ha; simpl.
  { split_and!; [done| |done]. by intros q. }
  pose proof (bitpos_range h bits Hh ltac:(lia)) as Hp. set (p := u32 (h mod bits)) in *.
  assert (0 <= p < 8 * zlen array) by (unfold zlen; lia).
  specialize (IH (u32 (h + delta)) (set_bit array p) (u32_range _) ltac:(len)).
  destruct IH as ((IH1 & IH2) & IH3 & IH4). split_and!.
  - split; [rewrite IH1; len|]. rewrite IH2. apply set_bit_last. lia.
  - intros q Hq Hb. apply IH3; [assumption|]. rewrite test_bit_set_bit, Hb by assumption. done.
  - rewrite land_1_shiftl by (pose proof (Z.mod_pos_bound p 8); lia).
    specialize (IH3 p ltac:(lia)). rewrite test_bit_set_bit, Z.eqb_refl, orb_true_r in IH3 by lia.
    unfold test_bit in IH3. rewrite IH3 by done. exact IH4.
Qed.

Lemma check_probes_grows k h delta a b :
  0 <= h < 2 ^ 32 -> grows a b ->
  check_probes k bits h delta a = true -> check_probes k bits h delta b = true.
Proof.
  revert h. induction k as [|k IH]; intros h Hh Hg; simpl; [done|].
  pose proof (bitpos_range h bits Hh ltac:(lia)) as Hp. set (p := u32 (h mod bits)) in *.
  rewrite !land_1_shiftl by (pose proof (Z.mod_pos_bound p 8); lia).
  specialize (Hg p ltac:(lia)) as Hgp. unfold test_bit in Hgp.
  destruct (Z.testbit (byte_at a _) _); simpl; [|discriminate].
  rewrite Hgp by done. simpl. apply IH; [apply u32_range|assumption].
Qed.

Lemma add_keys_spec k hash keys array :
  (forall key, 0 <= hash key < 2 ^ 32) -> length array = S n ->
  same_shape (add_keys k bits hash keys array) array /\
  grows array (add_keys k bits hash keys array) /\
  (forall key, In key keys ->
     check_probes k bits (hash key) (bloom_delta (hash key))
       (add_keys k bits hash keys array) = true).
Proof.
  intros Hhash. revert array. induction keys as [|key keys IH]; intros array Ha; simpl.
  { split_and!; [done|by intros q|done]. }
  destruct (add_probes_spec k (hash key) (bloom_delta (hash key)) array (Hhash key) Ha)
    as ((P1 & P2) & P3 & P4).
  specialize (IH _ (eq_trans P1 Ha)). destruct IH as ((IH1 & IH2) & IH3 & IH4). split_and!.
  - split; congruence.
  - intros q Hq Hb. auto.
  - intros key' [<-|Hin]; [|auto].
    eapply check_probes_grows; [apply Hhash|exact IH3|exact P4].
Qed.
End Probes.

Lemma filter_bytes_range bits_per_key n :
  0 <= n -> 0 <= bits_per_key -> n * bits_per_key < 2 ^ 63 ->
  8 <= filter_bytes bits_per_key n /\ n * bits_per_key <= filter_bytes bits_per_key n * 8.
Proof.
  intros Hn Hb H. unfold filter_bytes. cbv zeta.
  assert (0 <= n * bits_per_key) by nia. generalize dependent (n * bits_per_key). intros x Hx Hx0.
  rewrite (u64_small x) by lia. zcase; rewrite u64_small by lia; word.
Qed.

Lemma bloom_k_range b : 1 <= bloom_k b <= 30.
Proof. unfold bloom_k. repeat zcase; lia. Qed.

(** The common core of the three policies: a filter matches every key it was
    created from. *)
Lemma filter_no_false_negative hash bits_per_key k keys dst key :
  (forall key, 0 <= hash key < 2 ^ 32) ->
  0 <= bits_per_key -> zlen keys * bits_per_key < 2 ^ 63 -> 1 <= k <= 30 -> In key keys ->
  exists f, CreateFilter_with hash bits_per_key k keys dst = dst ++ f /\
    zlen f = filter_bytes bits_per_key (zlen keys) + 1 /\
    byte_at f (length f - 1) = k /\
    check_probes (Z.to_nat k) ((zlen f - 1) * 8) (hash key) (bloom_delta (hash key)) f = true.
Proof.
  intros Hh Hb Hov Hk Hin. unfold CreateFilter_with.
  destruct (filter_bytes_range bits_per_key (zlen keys) (zlen_nonneg _) Hb Hov) as [Hfb _].
  set (nb := filter_bytes bits_per_key (zlen keys)) in *.
  set (array := replicate (Z.to_nat nb) 0 ++ [u8 k]).
  assert (length array = S (Z.to_nat nb)) as Hlen by (subst array; len).
  destruct (add_keys_spec (Z.to_nat nb) ltac:(lia) (Z.to_nat k) hash keys array Hh Hlen)
    as ((H1 & H2) & _ & H3).
  rewrite Z2Nat.id in H1, H2, H3 by lia.
  eexists. split; [reflexivity|]. unfold zlen at 1 2. rewrite H1, Hlen. split; [lia|]. split.
  - replace (S (Z.to_nat nb) - 1)%nat with (Z.to_nat nb) by lia. rewrite H2. subst array.
    unfold byte_at. rewrite app_nth2 by len. len. rewrite Nat.sub_diag. simpl. by rewrite u8_small by lia.
  - replace (Z.of_nat (S (Z.to_nat nb)) - 1) with nb by lia. by apply H3.
Qed.

(** ** Lemmas: the children of a multi filter *)

Definition child_ok (nkeys : Z) (c : Child.t) : Prop :=
  0 <= Child.id_ c < 12 /\ 0 <= Child.bits_per_key_ c /\
  nkeys * Child.bits_per_key_ c < 2 ^ 63 /\ 1 <= Child.k_ c <= 30.

Lemma BloomHash_seed_some id : 0 <= id < 12 -> exists s, BloomHash_seed id = Some s.
Proof.
  intros H. assert (In id (seqZ 0 12)) as Hin by (apply list_elem_of_In, elem_of_seqZ; lia).
  vm_compute in Hin. repeat destruct Hin as [<-|Hin]; try (eexists; reflexivity). done.
Qed.

(** The length of a filter depends only on the number of keys. *)
Definition filter_length (nkeys : Z) (c : Child.t) : nat :=
  S (Z.to_nat (filter_bytes (Child.bits_per_key_ c) nkeys)).

Lemma create_with_length hash bits_per_key k keys dst :
  (forall key, 0 <= hash key < 2 ^ 32) -> 0 <= bits_per_key -> zlen keys * bits_per_key < 2 ^ 63 ->
  length (CreateFilter_with hash bits_per_key k keys dst)
  = (length dst + S (Z.to_nat (filter_bytes bits_per_key (zlen keys))))%nat.
Proof.
  intros Hh Hb Hov. unfold CreateFilter_with.
  destruct (filter_bytes_range bits_per_key (zlen keys) (zlen_nonneg _) Hb Hov) as [Hfb _].
  set (nb := filter_bytes bits_per_key (zlen keys)) in *.
  set (array := replicate (Z.to_nat nb) 0 ++ [u8 k]).
  assert (length array = S (Z.to_nat nb)) as Hlen by (subst array; len).
  destruct (add_keys_spec (Z.to_nat nb) ltac:(lia) (Z.to_nat k) hash keys array Hh Hlen)
    as ((H1 & _) & _). rewrite Z2Nat.id in H1 by lia. rewrite length_app, H1. lia.
Qed.

Lemma child_create_match nkeys c keys dst :
  nkeys = zlen keys -> child_ok nkeys c ->
  exists f, Child.CreateFilter c keys dst = Some (dst ++ f) /\ length f = filter_length nkeys c /\
    forall key, In key keys -> Child.KeyMayMatch c key f = Some true.
Proof.
  intros -> (Hid & Hb & Hov & Hk). destruct (BloomHash_seed_some _ Hid) as [s Hs].
  unfold Child.CreateFilter, Child.KeyMayMatch, BloomHash. rewrite Hs. cbn [default fmap option_fmap option_map].
  set (hash := fun key => Hash key s).
  exists (drop (length dst) (CreateFilter_with hash (Child.bits_per_key_ c) (Child.k_ c) keys dst)).
  assert (forall k, In k keys -> exists f, CreateFilter_with hash (Child.bits_per_key_ c) (Child.k_ c) keys dst
    = dst ++ f /\ _) as Hnf by (intros k Hin; exact (filter_no_false_negative hash _ _ keys dst k
      (fun key => Hash_range key s) Hb Hov Hk Hin)).
  split_and!.
  - unfold CreateFilter_with. rewrite drop_app_exact by reflexivity. destruct keys; reflexivity.
  - rewrite length_drop, create_with_length by (done || intros; apply Hash_range).
    unfold filter_length. lia.
  - intros key Hin. destruct (Hnf key Hin) as (f & Hf & Hlen & Hlast & Hc).
    rewrite Hf, drop_app_exact by reflexivity.
    destruct (filter_bytes_range (Child.bits_per_key_ c) (zlen keys) (zlen_nonneg _) Hb Hov).
    rewrite (proj2 (Z.ltb_ge _ _)) by lia. rewrite Hlast. unfold sext8.
    rewrite (proj2 (Z.ltb_lt _ 128)) by lia. rewrite (proj2 (Z.ltb_ge 30 _)) by lia.
    unfold mbind, option_bind. f_equal. exact Hc.
Qed.

Lemma make_filters_id i bs c :
  In c (MultiFilter.make_filters i bs) ->
  i <= Child.id_ c < i + zlen (MultiFilter.make_filters i bs) /\ In (Child.bits_per_key_ c) bs /\
  1 <= Child.k_ c <= 30.
Proof.
  revert i. induction bs as [|b bs IH]; intros i; simpl; [done|].
  destruct (b =? 0); [done|]. rewrite zlen_cons.
  pose proof (zlen_nonneg (MultiFilter.make_filters (i + 1) bs)).
  intros [<-|Hin].
  - simpl. split; [lia|]. split; [by left|]. apply bloom_k_range.
  - apply IH in Hin as (? & ? & ?). split; [lia|]. tauto.
Qed.

Lemma create_match_each nkeys fs keys dsts :
  nkeys = zlen keys -> Forall (child_ok nkeys) fs -> length dsts = length fs ->
  exists out, MultiFilter.create_each fs keys dsts = Some (zip_with app dsts out) /\
    length out = length fs /\ Forall2 (fun f o => length o = filter_length nkeys f) fs out /\
    forall key m, In key keys -> MultiFilter.match_each fs key (take m out) = Some true.
Proof.
  intros Hn Hfs. revert dsts. induction Hfs as [|f fs Hf Hfs IH]; intros dsts Hl.
  - destruct dsts; [|discriminate]. exists []. split_and!; [done|done|done|]. intros key m _. by rewrite take_nil.
  - destruct dsts as [|d dsts]; [discriminate|]. simpl in Hl.
    destruct (child_create_match nkeys f keys d Hn Hf) as (x & Hx & Hlx & Hm).
    destruct (IH dsts ltac:(lia)) as (out & Ho & Hlo & Hsz & Hmo).
    exists (x :: out). simpl. rewrite Hx. cbn. rewrite Ho. cbn. split_and!; [done|lia|by constructor|].
    intros key m Hin. destruct m as [|m]; [done|]. cbn. rewrite Hm by done. cbn. auto.
Qed.

Lemma make_filters_bits i bs :
  Forall (fun c => Child.bits_per_key_ c <> 0) (MultiFilter.make_filters i bs).
Proof.
  revert i. induction bs as [|b bs IH]; intros i; simpl; [done|].
  destruct (Z.eqb_spec b 0); [done|]. by constructor.
Qed.

Lemma make_children_ok bs bpk nkeys :
  MultiFilter.filterNums (MultiFilter.make bs bpk) <= 12 ->
  Forall (fun b => 0 <= b /\ nkeys * b < 2 ^ 63) bs ->
  Forall (child_ok nkeys) (MultiFilter.filters (MultiFilter.make bs bpk)).
Proof.
  intros Hp Hbs. apply Forall_forall. intros c Hc%list_elem_of_In. simpl in Hc.
  destruct (make_filters_id _ _ _ Hc) as (Hid & Hin & Hk).
  rewrite Forall_forall in Hbs. apply list_elem_of_In, Hbs in Hin.
  unfold MultiFilter.filterNums in Hp. simpl in Hp. unfold child_ok. lia.
Qed.

(** ** Properties *)

(** C33. The elastic filter has no false negatives at any elasticity: creating
    the filters of a key set succeeds and appends one filter to each destination
    string, and for every key of the set the filters match whichever number [m]
    of them is loaded. *)
Theorem multi_filter_no_false_negative bs bpk keys dsts :
  let p := MultiFilter.make bs bpk in
  MultiFilter.filterNums p <= 12 -> length dsts = length (MultiFilter.filters p) ->
  Forall (fun b => 0 <= b /\ zlen keys * b < 2 ^ 63) bs ->
  exists out, MultiFilter.CreateFilter p keys dsts = Some (zip_with app dsts out) /\
    length out = length (MultiFilter.filters p) /\
    forall key m, In key keys -> MultiFilter.KeyMayMatchFilters p key (take m out) = Some true.
Proof.
  intros p Hp Hl Hbs.
  destruct (create_match_each (zlen keys) (MultiFilter.filters p) keys dsts) as (out & Hc & Ho & _ & Hm);
    [done|by apply make_children_ok|done|]. by exists out.
Qed.

Lemma multi_filter_no_false_negative_witness :
  exists out, MultiFilter.CreateFilter (MultiFilter.make [4; 8; 0] 12) [[1; 2]; [3]] [[]; []]
    = Some (zip_with app [[]; []] out) /\
    MultiFilter.KeyMayMatchFilters (MultiFilter.make [4; 8; 0] 12) [3] (take 2 out) = Some true.
Proof.
  destruct (multi_filter_no_false_negative [4; 8; 0] 12 [[1; 2]; [3]] [[]; []])
    as (out & H1 & _ & H2); [vm_compute; discriminate|reflexivity| |].
  - repeat constructor; vm_compute; try discriminate; reflexivity.
  - exists out. split; [exact H1|]. apply H2. right. left. reflexivity.
Defined.

(** A filter of the plain policy matches every key it was created from,
    whatever precedes it in the destination string. *)
Theorem bloom_no_false_negative bits_per_key keys dst key :
  let p := BloomFilterPolicy.make bits_per_key in
  0 <= bits_per_key -> zlen keys * bits_per_key < 2 ^ 63 -> In key keys ->
  exists f, BloomFilterPolicy.CreateFilter p keys dst = dst ++ f /\
    BloomFilterPolicy.KeyMayMatch p key f = true.
Proof.
  intros p Hb Hov Hin.
  destruct (filter_no_false_negative BloomFilterPolicy.BloomHash bits_per_key (bloom_k bits_per_key)
    keys dst key (fun k => Hash_range k _) Hb Hov (bloom_k_range _) Hin)
    as (f & Hf & Hlen & Hlast & Hc).
  exists f. split; [exact Hf|]. unfold BloomFilterPolicy.KeyMayMatch, KeyMayMatch_with.
  pose proof (filter_bytes_range bits_per_key (zlen keys) (zlen_nonneg _) Hb Hov).
  pose proof (bloom_k_range bits_per_key).
  rewrite (proj2 (Z.ltb_ge _ _)) by lia. rewrite Hlast. unfold sext8.
  rewrite (proj2 (Z.ltb_lt _ 128)) by lia. rewrite (proj2 (Z.ltb_ge 30 _)) by lia. exact Hc.
Qed.

Lemma bloom_no_false_negative_witness :
  exists f, BloomFilterPolicy.CreateFilter (BloomFilterPolicy.make 10) [[1; 2]; [3]] [7] = [7] ++ f /\
    BloomFilterPolicy.KeyMayMatch (BloomFilterPolicy.make 10) [3] f = true.
Proof.
  apply (bloom_no_false_negative 10 [[1; 2]; [3]] [7] [3]);
    [lia|vm_compute; reflexivity|right; left; reflexivity].
Defined.
