(* ===== verification/FilterWorkers.v ===== *)
(** * FilterWorkers: the threads that build the child filters

    Models the concurrent part of src/LSM-EBF/util/multi_bloom.cc: one worker
    thread per child filter ([MultiFilter::CreateFilter_T]) spins on its flag
    [filled_[id]], and [MultiFilter::CreateFilter] over a list of destinations
    raises the flags, spins until every worker has counted itself in
    [curr_completed_filter_num_], and resets the counter.  The atomics are
    sequentially consistent, so a run is an interleaving of the steps below; a
    spin iteration that finds its condition false changes nothing and is not a
    step.  Thread creation, timing statistics and the shutdown flag
    [end_thread] are not modelled. *)
From S2P Require Import Prelude Coding Hash Bloom.

(** ** State *)

(** Where the worker of one filter is in its loop. *)
Inductive worker_pc :=
| WSpin     (** [while(!filled_[id])] *)
| WCreate   (** before [ch->CreateFilter(keys_,n_,dst)] *)
| WClear    (** before [filled_[id] = false] *)
| WCount.   (** before [++curr_completed_filter_num_] *)

(** Where the thread that called [CreateFilter] is. *)
Inductive main_pc :=
| MFill (i : nat)  (** raising flag [i] *)
| MWait            (** [while(curr_completed_filter_num_ != filter_num_)] *)
| MRet.            (** returned *)

(** What belongs to filter [id]: [filled_[id]], its worker and [cfas[id].dst]. *)
Record slot := Slot { filled : bool; wpc : worker_pc; dst : bytes }.

Record state := State {
  main : main_pc;
  slots : list slot;
  curr_completed_filter_num : Z;
}.

(** The state in which a call finds the workers: all spinning, counter zero. *)
Definition call_state (dsts : list bytes) : state :=
  State (MFill 0) (map (Slot false WSpin) dsts) 0.

(** ** Steps of one call, for the children [fs] and the published keys *)

Inductive step (fs : list Child.t) (keys : list bytes) : state -> state -> Prop :=
| main_fill i ss c s :
    ss !! i = Some s ->
    step fs keys (State (MFill i) ss c)
      (State (MFill (S i)) (<[i := Slot true (wpc s) (dst s)]> ss) c)
| main_filled i ss c :
    length ss = i ->
    step fs keys (State (MFill i) ss c) (State MWait ss c)
| main_return ss c :
    c = zlen fs ->
    step fs keys (State MWait ss c) (State MRet ss 0)
| worker_start m i ss c d :
    ss !! i = Some (Slot true WSpin d) ->
    step fs keys (State m ss c) (State m (<[i := Slot true WCreate d]> ss) c)
| worker_create m i ss c f fl d d' :
    ss !! i = Some (Slot fl WCreate d) -> fs !! i = Some f ->
    Child.CreateFilter f keys d = Some d' ->
    step fs keys (State m ss c) (State m (<[i := Slot fl WClear d']> ss) c)
| worker_clear m i ss c fl d :
    ss !! i = Some (Slot fl WClear d) ->
    step fs keys (State m ss c) (State m (<[i := Slot false WCount d]> ss) c)
| worker_count m i ss c fl d :
    ss !! i = Some (Slot fl WCount d) ->
    step fs keys (State m ss c) (State m (<[i := Slot fl WSpin d]> ss) (c + 1)).

(** ** Lemmas: a run is described by one phase number per filter *)

Section Call.
Context (fs : list Child.t) (keys dsts : list bytes) (out : list bytes).
Hypothesis Hlen : length dsts = length fs.
Hypothesis Hlen_out : length out = length fs.
(** [out] are the strings the children produce. *)
Hypothesis Hout : forall i f d, fs !! i = Some f -> dsts !! i = Some d ->
  exists d', out !! i = Some d' /\ Child.CreateFilter f keys d = Some d'.

(** Phases: 0 idle, 1 flag raised, 2 creating, 3 created, 4 cleared, 5 counted. *)
Definition slot_of (ph : nat) (d d' : bytes) : slot :=
  match ph with
  | 0 => Slot false WSpin d
  | 1 => Slot true WSpin d
  | 2 => Slot true WCreate d
  | 3 => Slot true WClear d'
  | 4 => Slot false WCount d'
  | _ => Slot false WSpin d'
  end%nat.

Definition done_count (phs : list nat) : Z := zlen (filter (fun p => p = 5%nat) phs).

(** Flags raised so far. *)
Definition raised (m : main_pc) : nat :=
  match m with MFill i => i | _ => length fs end.

Definition inv (phs : list nat) (s : state) : Prop :=
  length phs = length fs /\ (raised (main s) <= length fs)%nat /\
    (forall i p, phs !! i = Some p -> (p <= 5)%nat /\ (p = 0%nat <-> (raised (main s) <= i)%nat)) /\
    (forall i p d d', phs !! i = Some p -> dsts !! i = Some d -> out !! i = Some d' ->
       slots s !! i = Some (slot_of p d d')) /\
    length (slots s) = length fs /\
    match main s with
    | MRet => curr_completed_filter_num s = 0 /\ done_count phs = zlen fs
    | _ => curr_completed_filter_num s = done_count phs
    end.

Lemma done_count_insert phs i p q :
  phs !! i = Some p -> p <> 5%nat ->
  done_count (<[i := q]> phs) = done_count phs + (if bool_decide (q = 5%nat) then 1 else 0).
Proof.
  intros Hi Hp. unfold done_count.
  rewrite (insert_take_drop _ _ _ (lookup_lt_Some _ _ _ Hi)).
  rewrite <- (take_drop_middle phs i p Hi) at 3.
  rewrite !filter_app, !zlen_app, !filter_cons.
  rewrite (decide_False (P := p = 5%nat)) by assumption.
  case_bool_decide; case_decide; try done; rewrite ?zlen_cons; lia.
Qed.

Lemma done_count_le phs : done_count phs <= zlen phs.
Proof. unfold done_count, zlen. apply inj_le. apply length_filter. Qed.

Lemma done_count_full phs : Forall (fun p => p = 5%nat) phs -> done_count phs = zlen phs.
Proof.
  unfold done_count. induction 1 as [|p phs Hp _ IH]; [done|].
  rewrite filter_cons_True, !zlen_cons by assumption. lia.
Qed.

Lemma done_count_all phs :
  done_count phs = zlen phs -> forall i p, phs !! i = Some p -> p = 5%nat.
Proof.
  induction phs as [|q phs IH]; intros H i p Hi; [done|].
  unfold done_count in H. rewrite filter_cons in H.
  pose proof (done_count_le phs) as Hle. unfold done_count in Hle.
  case_decide; rewrite ?zlen_cons in H; [|lia].
  destruct i as [|i]; simpl in Hi; [congruence|]. apply (IH ltac:(unfold done_count; lia) i p Hi).
Qed.

(** Steps left: what the phases still need, and what the caller does. *)
Definition weight (phs : list nat) (s : state) : nat :=
  sum_list_with (fun p => 5 - p)%nat phs +
  match main s with MFill i => 2 + (length fs - i) | MWait => 1 | MRet => 0 end.

Lemma weight_insert (phs : list nat) i p q :
  phs !! i = Some p -> (p < q <= 5)%nat ->
  (sum_list_with (fun p => 5 - p) (<[i := q]> phs) < sum_list_with (fun p => 5 - p) phs)%nat.
Proof.
  intros Hi Hq. rewrite (insert_take_drop _ _ _ (lookup_lt_Some _ _ _ Hi)).
  rewrite <- (take_drop_middle phs i p Hi) at 3. rewrite !sum_list_with_app. simpl. lia.
Qed.

Lemma inv_init : inv (replicate (length fs) 0%nat) (call_state dsts).
Proof.
  unfold inv. simpl. rewrite length_replicate, length_map.
  split_and!; try lia.
  - intros i p [-> Hi]%lookup_replicate. lia.
  - intros i p d d' [-> Hi]%lookup_replicate Hd Hd'. simpl.
    by rewrite list_lookup_fmap, Hd.
  - unfold done_count. clear. induction (length fs); [done|]. simpl. by rewrite filter_cons_False.
Qed.

(** The data of filter [i], for any in-range index. *)
Lemma slot_data i :
  (i < length fs)%nat -> exists f d d', fs !! i = Some f /\ dsts !! i = Some d /\
    out !! i = Some d' /\ Child.CreateFilter f keys d = Some d'.
Proof.
  intros Hi. destruct (lookup_lt_is_Some_2 fs i Hi) as [f Hf].
  destruct (lookup_lt_is_Some_2 dsts i ltac:(lia)) as [d Hd].
  destruct (Hout i f d Hf Hd) as (d' & ? & ?). eauto 8.
Qed.

(** A worker step moves its filter to the next phase. *)
Lemma inv_advance phs m ss c i p d d' :
  inv phs (State m ss c) -> dsts !! i = Some d -> out !! i = Some d' ->
  phs !! i = Some p -> (1 <= p <= 4)%nat ->
  inv (<[i := S p]> phs)
    (State m (<[i := slot_of (S p) d d']> ss) (c + if bool_decide (S p = 5%nat) then 1 else 0)).
Proof.
  intros (Hphl & Hr & Hph & Hsl & Hssl & Hm) Hd Hd' Hq Hp. simpl in *.
  assert (i < length fs)%nat as Hi by (rewrite <- Hlen; by eapply lookup_lt_Some).
  destruct (Hph i p Hq) as [Hq5 Hq0].
  unfold inv. simpl main. simpl slots. simpl curr_completed_filter_num.
  rewrite !length_insert. split_and!; try assumption.
  - intros j r [(-> & <- & _)|(? & Hj)]%list_lookup_insert_Some; [lia|auto].
  - intros j r e e' Hj He He'. apply list_lookup_insert_Some in Hj as [(-> & <- & _)|(Hne & Hj)].
    + rewrite list_lookup_insert_eq by (rewrite Hssl; assumption).
      assert (e = d) as -> by congruence. assert (e' = d') as -> by congruence. reflexivity.
    + rewrite list_lookup_insert_ne by assumption. auto.
  - rewrite (done_count_insert phs i p) by (assumption || lia).
    destruct m; [rewrite Hm; reflexivity..|]. destruct Hm as [_ Hm].
    assert (done_count phs = zlen phs) as Hm' by (unfold zlen in *; lia).
    pose proof (done_count_all phs Hm' i p Hq). lia.
Qed.

(** Raising a flag moves an idle filter to phase 1. *)
Lemma inv_raise phs ss c i s :
  inv phs (State (MFill i) ss c) -> ss !! i = Some s ->
  phs !! i = Some 0%nat /\
  inv (<[i := 1%nat]> phs) (State (MFill (S i)) (<[i := Slot true (wpc s) (dst s)]> ss) c).
Proof.
  intros (Hphl & Hr & Hph & Hsl & Hssl & Hm) Hs. simpl in *.
  assert (i < length fs)%nat as Hi by (rewrite <- Hssl; by eapply lookup_lt_Some).
  destruct (lookup_lt_is_Some_2 phs i ltac:(lia)) as [q Hq].
  destruct (slot_data i Hi) as (f & d & d' & _ & Hd & Hd' & _).
  assert (q = 0%nat) as -> by (apply (Hph i q Hq); lia). split; [assumption|].
  pose proof (Hsl _ _ _ _ Hq Hd Hd') as Hs'. rewrite Hs in Hs'. injection Hs' as ->. simpl.
  unfold inv. simpl. rewrite !length_insert. split_and!; try lia.
  - intros j r [(-> & <- & _)|(? & Hj)]%list_lookup_insert_Some; [lia|].
    destruct (Hph j r Hj). lia.
  - intros j r e e' Hj He He'. apply list_lookup_insert_Some in Hj as [(-> & <- & _)|(Hne & Hj)].
    + rewrite list_lookup_insert_eq by (rewrite Hssl; assumption). simpl. congruence.
    + rewrite list_lookup_insert_ne by assumption. auto.
  - rewrite (done_count_insert phs i 0) by (assumption || lia). simpl. lia.
Qed.

(** The phase a slot is in, with the data of its filter. *)
Lemma inv_shape phs m ss c i s :
  inv phs (State m ss c) -> ss !! i = Some s ->
  exists p d d' f, (p <= 5)%nat /\ phs !! i = Some p /\ fs !! i = Some f /\ dsts !! i = Some d /\
    out !! i = Some d' /\ Child.CreateFilter f keys d = Some d' /\ s = slot_of p d d'.
Proof.
  intros (Hphl & Hr & Hph & Hsl & Hssl & Hm) Hs. simpl in *.
  assert (i < length fs)%nat as Hi by (rewrite <- Hssl; by eapply lookup_lt_Some).
  destruct (lookup_lt_is_Some_2 phs i ltac:(lia)) as [p Hp].
  destruct (slot_data i Hi) as (f & d & d' & Hf & Hd & Hd' & Hc).
  exists p, d, d', f. destruct (Hph i p Hp). split_and!; try assumption.
  specialize (Hsl _ _ _ _ Hp Hd Hd'). congruence.
Qed.

(** A worker step: the slot it changes was in phase [p] and is now in phase [S p]. *)
Lemma inv_worker phs m ss c i s (p : nat) :
  inv phs (State m ss c) -> ss !! i = Some s ->
  (forall q d d', (q <= 5)%nat -> s = slot_of q d d' -> q = p) -> (1 <= p <= 4)%nat ->
  exists phs' d d' f, dsts !! i = Some d /\ out !! i = Some d' /\ fs !! i = Some f /\
    Child.CreateFilter f keys d = Some d' /\ s = slot_of p d d' /\
    inv phs' (State m (<[i := slot_of (S p) d d']> ss)
                (c + if bool_decide (S p = 5%nat) then 1 else 0)) /\
    (forall s', main s' = m -> (weight phs' s' < weight phs (State m ss c))%nat).
Proof.
  intros Hinv Hs Hph Hp.
  destruct (inv_shape _ _ _ _ _ _ Hinv Hs) as (q & d & d' & f & Hq & Hqi & Hf & Hd & Hd' & Hc & Heq).
  pose proof (Hph q d d' Hq Heq) as ->.
  exists (<[i := S p]> phs), d, d', f. split_and!; try assumption.
  - by apply (inv_advance phs m ss c i p d d').
  - intros s' Hm. unfold weight. rewrite Hm. simpl.
    pose proof (weight_insert phs i p (S p) Hqi ltac:(lia)). lia.
Qed.

Ltac phase_of := intros q ? ? Hq; do 6 (destruct q as [|q]; [intros [=]; reflexivity|]); lia.

Lemma inv_step phs s s' :
  inv phs s -> step fs keys s s' ->
  exists phs', inv phs' s' /\ (weight phs' s' < weight phs s)%nat.
Proof.
  intros Hinv Hst. destruct Hst as [i ss c s Hs|i ss c Hi|ss c Hc|m i ss c d Hs
    |m i ss c f fl d d' Hs Hf Hcr|m i ss c fl d Hs|m i ss c fl d Hs].
  - destruct (inv_raise _ _ _ _ _ Hinv Hs) as [Hi ?]. eexists. split; [eassumption|].
    pose proof (weight_insert phs i 0 1 Hi ltac:(lia)). unfold weight. simpl. lia.
  - destruct Hinv as (? & ? & Hph & Hsl & Hssl & Hm). simpl in *. subst i.
    exists phs. unfold inv, weight. simpl. rewrite Hssl in Hph. split_and!; try done; lia.
  - destruct Hinv as (? & ? & Hph & Hsl & Hssl & Hm). simpl in *.
    exists phs. unfold inv, weight. simpl. split_and!; try done; lia.
  - destruct (inv_worker phs m ss c i _ 1 Hinv Hs ltac:(phase_of) ltac:(lia))
      as (phs' & e & e' & g & _ & _ & _ & _ & [= ->] & Hi & Hw).
    simpl in Hi. rewrite Z.add_0_r in Hi. eauto.
  - destruct (inv_worker phs m ss c i _ 2 Hinv Hs ltac:(phase_of) ltac:(lia))
      as (phs' & e & e' & g & _ & _ & Hg & Hce & [= -> ->] & Hi & Hw).
    assert (d' = e') as -> by congruence. simpl in Hi. rewrite Z.add_0_r in Hi. eauto.
  - destruct (inv_worker phs m ss c i _ 3 Hinv Hs ltac:(phase_of) ltac:(lia))
      as (phs' & e & e' & g & _ & _ & _ & _ & [= -> ->] & Hi & Hw).
    simpl in Hi. rewrite Z.add_0_r in Hi. eauto.
  - destruct (inv_worker phs m ss c i _ 4 Hinv Hs ltac:(phase_of) ltac:(lia))
      as (phs' & e & e' & g & _ & _ & _ & _ & [= -> ->] & Hi & Hw). eauto.
Qed.

(** No reachable state is stuck before the call has returned. *)
Lemma inv_progress phs s : inv phs s -> main s <> MRet -> exists s', step fs keys s s'.
Proof.
  intros (Hphl & Hr & Hph & Hsl & Hssl & Hm) Hret. destruct s as [m ss c]. simpl in *.
  destruct m as [i| |]; simpl in Hr, Hph, Hm; [| |done].
  - destruct (decide (i < length fs)%nat) as [Hi|Hi].
    + destruct (lookup_lt_is_Some_2 ss i ltac:(lia)) as [s Hs]. eexists. by eapply main_fill.
    + eexists. apply main_filled. lia.
  - destruct (Forall_Exists_dec (fun p => p = 5%nat) (fun p => p <> 5%nat)
      (fun p => decide (p = 5%nat)) phs) as [He|He].
    + eexists. apply main_return. rewrite Hm, done_count_full by assumption. unfold zlen. lia.
    + apply Exists_exists in He as (p & Hp & Hne).
      apply list_elem_of_lookup in Hp as [i Hp]. destruct (Hph i p Hp) as [Hp5 Hp0].
      assert (i < length fs)%nat as Hi by (rewrite <- Hphl; by eapply lookup_lt_Some).
      destruct (slot_data i Hi) as (f & d & d' & Hf & Hd & Hd' & Hc).
      specialize (Hsl i p d d' Hp Hd Hd').
      destruct p as [|[|[|[|[|p]]]]]; simpl in Hsl; [lia| | | | |lia]; eexists.
      * by eapply worker_start.
      * by eapply worker_create.
      * by eapply worker_clear.
      * by eapply worker_count.
Qed.

Lemma inv_nsteps k phs s0 s :
  inv phs s0 -> nsteps (step fs keys) k s0 s ->
  exists phs', inv phs' s /\ (k + weight phs' s <= weight phs s0)%nat.
Proof.
  intros Hi Hk. induction Hk as [x|k x y z Hxy _ IH] in phs, Hi |- *; [exists phs; split; [assumption|lia]|].
  destruct (inv_step phs x y Hi Hxy) as (phs1 & Hi1 & Hw1).
  destruct (IH phs1 Hi1) as (phs2 & Hi2 & Hw2). exists phs2. split; [assumption|lia].
Qed.

(** On return every destination holds its child's filter and the workers are
    back in the state a call starts from. *)
Lemma inv_returned phs s :
  inv phs s -> main s = MRet ->
  slots s = map (Slot false WSpin) out /\ curr_completed_filter_num s = 0.
Proof.
  intros (Hphl & Hr & Hph & Hsl & Hssl & Hm) Hret. rewrite Hret in Hm.
  destruct Hm as [-> Hm]. split; [|reflexivity].
  assert (done_count phs = zlen phs) as Hm' by (unfold zlen in *; lia).
  apply list_eq_same_length with (length fs); [by rewrite length_map|assumption|].
  intros i x y Hi Hx Hy. rewrite list_lookup_fmap in Hy.
  destruct (slot_data i Hi) as (f & d & d' & Hf & Hd & Hd' & Hc). rewrite Hd' in Hy. simpl in Hy.
  destruct (lookup_lt_is_Some_2 phs i ltac:(lia)) as [p Hp].
  pose proof (done_count_all phs Hm' i p Hp) as ->.
  specialize (Hsl _ _ _ _ Hp Hd Hd'). simpl in Hsl. congruence.
Qed.
End Call.

Lemma create_each_pointwise fs keys dsts out :
  MultiFilter.create_each fs keys dsts = Some out -> length dsts = length fs ->
  length out = length fs /\
  forall i f d, fs !! i = Some f -> dsts !! i = Some d ->
    exists d', out !! i = Some d' /\ Child.CreateFilter f keys d = Some d'.
Proof.
  revert dsts out. induction fs as [|f fs IH]; intros dsts out H Hl.
  - simpl in H. destruct dsts; [|discriminate]. injection H as <-. split; [done|]. intros i; by destruct i.
  - destruct dsts as [|d dsts]; [discriminate|]. simpl in H, Hl.
    destruct (Child.CreateFilter f keys d) as [d'|] eqn:E; [|discriminate]. cbn in H.
    destruct (MultiFilter.create_each fs keys dsts) as [ds|] eqn:Es; [|discriminate].
    cbn in H. injection H as <-. destruct (IH dsts ds Es ltac:(lia)) as [IH1 IH2].
    split; [simpl; lia|]. intros [|i] g e; simpl.
    + intros [= <-] [= <-]. eauto.
    + apply IH2.
Qed.

Lemma weight_init fs dsts :
  weight fs (replicate (length fs) 0%nat) (call_state dsts) = (6 * length fs + 2)%nat.
Proof.
  unfold weight. simpl. rewrite Nat.sub_0_r.
  assert (forall n, sum_list_with (fun p => 5 - p)%nat (replicate n 0%nat) = (5 * n)%nat) as ->; [|lia].
  induction n as [|n IH]; [reflexivity|]. simpl. simpl in IH. lia.
Qed.

(** ** Properties *)

(** C34. Building the child filters on the worker threads: every interleaving of
    the caller with the workers ends within [6n+2] steps, none is stuck before
    the call returns, and when it returns every destination string holds exactly
    what the sequential routine computes, the flags are down, the workers spin
    and the counter is zero, so that the next call starts from the same state. *)
Theorem create_filter_threads fs keys dsts out :
  MultiFilter.create_each fs keys dsts = Some out -> length dsts = length fs ->
  forall k s, nsteps (step fs keys) k (call_state dsts) s ->
    (k <= 6 * length fs + 2)%nat /\
    (main s <> MRet -> exists s', step fs keys s s') /\
    (main s = MRet -> s = State MRet (map (Slot false WSpin) out) 0).
Proof.
  intros Hc Hl k s Hk. destruct (create_each_pointwise _ _ _ _ Hc Hl) as [Hlo Hout].
  destruct (inv_nsteps fs keys dsts out Hl Hlo Hout k _ _ _ (inv_init fs dsts out Hl Hlo) Hk)
    as (phs & Hi & Hw).
  rewrite weight_init in Hw. split_and!; [lia| |].
  - by apply (inv_progress fs keys dsts out Hl Hlo Hout phs).
  - intros Hm. destruct (inv_returned fs keys dsts out Hl Hlo Hout phs s Hi Hm) as [H1 H2].
    destruct s; simpl in *; congruence.
Qed.

Lemma create_filter_threads_witness :
  exists s, step (MultiFilter.filters (MultiFilter.make [4; 8; 0] 12)) [[1; 2]] (call_state [[]; []]) s.
Proof.
  destruct (MultiFilter.create_each (MultiFilter.filters (MultiFilter.make [4; 8; 0] 12)) [[1; 2]] [[]; []])
    as [out|] eqn:E; [|vm_compute in E; discriminate].
  apply (create_filter_threads (MultiFilter.filters (MultiFilter.make [4; 8; 0] 12)) [[1; 2]] [[]; []] out
    E eq_refl 0 (call_state [[]; []])).
  - apply nsteps_O.
  - discriminate.
Defined.
