(* ===== verification/Random.v ===== *)
(** * Random: the linear congruential generator

    Models the class [Random] of src/LSM-EBF/util/random.h: a Lehmer generator
    modulo the Mersenne prime 2^31 - 1 whose reduction is done with shifts. *)
From S2P Require Import Prelude.

Module Random.
(** The state is the 32-bit [seed_]. *)
Definition M : Z := 2147483647.
Definition A : Z := 16807.

Definition make (s : Z) : Z :=
  let seed := s &&& 0x7fffffff in
  if (seed =? 0) || (seed =? 2147483647) then 1 else seed.

(** The value returned is the new seed. *)
Definition Next (seed_ : Z) : Z :=
  let product := u64 (seed_ * A) in
  let seed := u32 (u64 ((product ≫ 31) + (product &&& M))) in
  if M <? seed then u32 (seed - M) else seed.

(** [Next() % n] with the new state; [n] is an [int], converted to [uint32_t]. *)
Definition Uniform (seed_ n : Z) : Z * Z :=
  let seed := Next seed_ in (seed mod u32 n, seed).

Definition OneIn (seed_ n : Z) : bool * Z :=
  let seed := Next seed_ in (seed mod u32 n =? 0, seed).

Definition Skewed (seed_ max_log : Z) : Z * Z :=
  let '(b, seed) := Uniform seed_ (max_log + 1) in
  Uniform seed (1 ≪ b).

(** ** Lemmas *)

(** The seeds the generator cycles through. *)
Definition seed_ok (s : Z) : Prop := 1 <= s < M.

Lemma make_ok s : seed_ok (make s).
Proof.
  unfold seed_ok, make. assert (s &&& 0x7fffffff = s mod 2 ^ 31) as ->.
  { change 0x7fffffff with (Z.ones 31). by rewrite Z.land_ones. }
  pose proof (Z.mod_pos_bound s (2 ^ 31) ltac:(lia)). unfold M.
  destruct (_ || _) eqn:E; [lia|]. zsimp. lia.
Qed.

(** [((x << 31) % M) == x]: the two halves of the product add up to it modulo [M]. *)
Lemma halves p : 0 <= p ->
  (p ≫ 31) + (p &&& M) = p - M * (p / 2 ^ 31) /\ 0 <= p &&& M < 2 ^ 31.
Proof.
  intros Hp. assert (p &&& M = p mod 2 ^ 31) as ->.
  { change M with (Z.ones 31). by rewrite Z.land_ones. }
  rewrite Z.shiftr_div_pow2 by lia. pose proof (Z.mod_pos_bound p (2 ^ 31) ltac:(lia)).
  split; [|assumption]. rewrite Z.mod_eq by lia. unfold M. lia.
Qed.

(** [M] is prime and does not divide [A], so no seed is sent to 0; here by
    multiplying with the inverse of [A] modulo [M]. *)
Lemma product_not_zero s : seed_ok s -> (s * A) mod M <> 0.
Proof.
  unfold seed_ok. intros Hs E. assert (s mod M = 0) as E'.
  { replace s with (s * A * 1407677000 - M * (s * 11017)) by (unfold A, M; lia).
    rewrite Zminus_mod, Zmult_mod, E, Z.mul_comm with (n := M), Z.mod_mul by (unfold M; lia).
    reflexivity. }
  rewrite Z.mod_small in E' by lia. lia.
Qed.

Lemma Next_mod s : seed_ok s -> Next s = (s * A) mod M /\ seed_ok (Next s).
Proof.
  intros Hs. pose proof (product_not_zero s Hs) as Hnz. unfold seed_ok in *.
  assert (Next s = (s * A) mod M) as ->.
  { unfold Next. rewrite (u64_small (s * A)) by (unfold A, M in *; lia).
    destruct (halves (s * A) ltac:(unfold A, M in *; lia)) as [E Hr].
    assert (s * A / 2 ^ 31 < 2 ^ 15) by (apply Z.div_lt_upper_bound; unfold A, M in *; lia).
    assert (0 <= s * A / 2 ^ 31) by (apply Z.div_pos; unfold A, M in *; lia).
    rewrite Z.shiftr_div_pow2 in * by lia.
    rewrite (u64_small (_ + _)), (u32_small (_ + _)) by lia.
    set (r := s * A / 2 ^ 31 + (s * A &&& M)) in *. pose proof Hnz as Hnz'.
    assert (s * A = r + (s * A / 2 ^ 31) * M) as E2 by lia.
    rewrite E2, Z.mod_add in Hnz |- * by (unfold M; lia).
    destruct (Z.ltb_spec M r).
    - rewrite u32_small by (unfold M in *; lia). replace r with (r - M + 1 * M) at 2 by lia.
      rewrite Z.mod_add, Z.mod_small by (unfold M in *; lia). reflexivity.
    - destruct (Z.eq_dec r M) as [E3|]; [rewrite E3, Z.mod_same in Hnz by (unfold M; lia); lia|].
      rewrite Z.mod_small by lia. reflexivity. }
  split; [reflexivity|]. pose proof (Z.mod_pos_bound (s * A) M ltac:(unfold M; lia)). lia.
Qed.

(** ** Properties *)

(** The generator computes the recurrence its comment promises: from any
    constructor argument the state is a seed in [1, M-1]; every [Next] multiplies
    by [A] modulo the prime [M] (the shift-and-add reduction with one conditional
    subtraction is exact, with no 32-bit overflow) and stays in that range; and
    [Uniform] draws from [0, n-1]. *)
Theorem random_next_correct s :
  seed_ok (make s) /\
  (forall seed, seed_ok seed -> Next seed = (seed * A) mod M /\ seed_ok (Next seed)) /\
  (forall seed n, seed_ok seed -> 0 < n < 2 ^ 31 ->
     0 <= fst (Uniform seed n) < n /\ seed_ok (snd (Uniform seed n))).
Proof.
  split_and!; [apply make_ok|apply Next_mod|].
  intros seed n Hs Hn. unfold Uniform. rewrite u32_small by lia. cbn [fst snd].
  split; [apply Z.mod_pos_bound; lia|by apply Next_mod].
Qed.

Lemma random_next_correct_witness :
  Next (make 0xdeadbeef) = (make 0xdeadbeef * A) mod M.
Proof.
  apply (random_next_correct 0xdeadbeef). vm_compute. split; [discriminate|reflexivity].
Defined.
End Random.
