(* ===== verification/Arena.v ===== *)
(** * Arena: bump allocation for the memtable

    src/LSM-EBF/util/arena.h and arena.cc.  Addresses are 64-bit numbers.  The
    address [new char[n]] returns is an argument of each call (it is used only
    when a block is allocated); the sizes of the blocks are kept beside their
    addresses. *)
From S2P Require Import Prelude.

Module Arena.

Definition kBlockSize : Z := 4096.

Record Arena := MkArena {
  alloc_ptr_ : Z;
  alloc_bytes_remaining_ : Z;
  blocks_ : list (Z * Z);
  memory_usage_ : Z
}.

Definition Arena_new : Arena := MkArena 0 0 [] 0.

Definition MemoryUsage (a : Arena) : Z := memory_usage_ a.

(** A pointer has 8 bytes. *)
Definition AllocateNewBlock (a : Arena) (block_bytes fresh : Z) : Z * Arena :=
  (fresh, MkArena (alloc_ptr_ a) (alloc_bytes_remaining_ a) (blocks_ a ++ [(fresh, block_bytes)])
            (u64 (MemoryUsage a + block_bytes + 8))).

(** The next [n] bytes after [slop] skipped ones. *)
Definition bump (a : Arena) (slop n : Z) : Z * Arena :=
  (u64 (alloc_ptr_ a + slop),
   MkArena (u64 (alloc_ptr_ a + (slop + n))) (u64 (alloc_bytes_remaining_ a - (slop + n))) (blocks_ a) (memory_usage_ a)).

Definition AllocateFallback (a : Arena) (n fresh : Z) : Z * Arena :=
  if kBlockSize / 4 <? n then AllocateNewBlock a n fresh
  else
    let '(p, a) := AllocateNewBlock a kBlockSize fresh in
    bump (MkArena p kBlockSize (blocks_ a) (memory_usage_ a)) 0 n.

Definition Allocate (a : Arena) (n fresh : Z) : Z * Arena :=
  if n <=? alloc_bytes_remaining_ a then bump a 0 n else AllocateFallback a n fresh.

Definition align : Z := 8.

Definition AllocateAligned (a : Arena) (n fresh : Z) : Z * Arena :=
  let current_mod := alloc_ptr_ a &&& (align - 1) in
  let slop := if current_mod =? 0 then 0 else align - current_mod in
  let needed := u64 (n + slop) in
  if needed <=? alloc_bytes_remaining_ a then bump a slop n else AllocateFallback a n fresh.

(** ** Histories *)

(** Intervals of addresses. *)
Definition disjoint (r1 r2 : Z * Z) : Prop := r1.1 + r1.2 <= r2.1 \/ r2.1 + r2.2 <= r1.1.
Definition inside (r b : Z * Z) : Prop := b.1 <= r.1 /\ r.1 + r.2 <= b.1 + b.2.

(** What [new] promises for the address of a block of [n] bytes. *)
Definition new_block (a : Arena) (n fresh : Z) : Prop :=
  0 < fresh /\ fresh + n < 2 ^ 64 /\ fresh mod 8 = 0 /\ forall b, b ∈ blocks_ a -> disjoint (fresh, n) b.

(** The size of the block a call allocates, if it allocates one. *)
Definition block_size (n : Z) : Z := if kBlockSize / 4 <? n then n else kBlockSize.

(** [arena_run a regions]: allocations have led to [a] and returned [regions],
    each with its size and whether it was asked to be aligned. *)
Inductive arena_run : Arena -> list (Z * Z * bool) -> Prop :=
  | run_new : arena_run Arena_new []
  | run_plain a regions n fresh : arena_run a regions -> 0 < n < 2 ^ 62 -> new_block a (block_size n) fresh ->
      arena_run (Allocate a n fresh).2 (((Allocate a n fresh).1, n, false) :: regions)
  | run_aligned a regions n fresh : arena_run a regions -> 0 < n < 2 ^ 62 -> new_block a (block_size n) fresh ->
      arena_run (AllocateAligned a n fresh).2 (((AllocateAligned a n fresh).1, n, true) :: regions).

(** ** The invariant *)

Definition usage (bs : list (Z * Z)) : Z := foldr (fun b s => b.2 + 8 + s) 0 bs.

(** The free bytes of the current block. *)
Definition free (a : Arena) : Z * Z := (alloc_ptr_ a, alloc_bytes_remaining_ a).

Record arena_ok (a : Arena) (rs : list (Z * Z * bool)) : Prop := {
  ar_blocks : forall b, b ∈ blocks_ a -> 0 < b.1 /\ 0 < b.2 /\ b.1 + b.2 < 2 ^ 64;
  ar_free : 0 <= alloc_bytes_remaining_ a <= kBlockSize /\
    ((alloc_ptr_ a = 0 /\ alloc_bytes_remaining_ a = 0) \/ exists b, b ∈ blocks_ a /\ inside (free a) b);
  ar_inside : forall r, r ∈ rs -> 0 < r.1.2 /\ exists b, b ∈ blocks_ a /\ inside r.1 b;
  ar_apart : forall r, r ∈ rs -> disjoint r.1 (free a);
  ar_disjoint : forall i j r r', (i < j)%nat -> rs !! i = Some r -> rs !! j = Some r' -> disjoint r.1 r'.1;
  ar_aligned : forall r, r ∈ rs -> r.2 = true -> r.1.1 mod 8 = 0;
  ar_usage : memory_usage_ a = u64 (usage (blocks_ a))
}.

Lemma usage_snoc bs b : usage (bs ++ [b]) = usage bs + b.2 + 8.
Proof. unfold usage. induction bs as [|x bs IH]; simpl; [lia|]. rewrite IH. lia. Qed.

(** A region from the free bytes. *)
Lemma bump_ok a rs slop n flag : arena_ok a rs -> 0 <= slop -> 0 < n -> slop + n <= alloc_bytes_remaining_ a ->
  (flag = true -> (alloc_ptr_ a + slop) mod 8 = 0) ->
  arena_ok (bump a slop n).2 (((bump a slop n).1, n, flag) :: rs).
Proof.
  intros [Hb [Hrem Hfree] Hin Hap Hdis Hal Hus] Hs Hn Hle Hflag. destruct Hfree as [[_ E]|(b & Hbin & Hfin)]; [lia|].
  destruct (Hb b Hbin) as (Hb1 & Hb2 & Hb3). unfold inside, free in Hfin. cbn in Hfin. unfold kBlockSize in Hrem.
  unfold bump. cbn [fst snd]. rewrite !u64_small by lia. split; cbn [blocks_ alloc_ptr_ alloc_bytes_remaining_ memory_usage_ free]; try done.
  - split; [unfold kBlockSize; lia|]. right. exists b. split; [done|]. unfold inside, free. cbn. lia.
  - intros r [->|Hr]%elem_of_cons; [|by apply Hin]. cbn. split; [lia|]. exists b. split; [done|]. unfold inside. cbn. lia.
  - intros r [->|Hr]%elem_of_cons; [unfold disjoint, free; cbn; lia|]. specialize (Hap r Hr). destruct (Hin r Hr) as [? _].
    unfold disjoint, free in *. cbn in *. lia.
  - intros [|i] [|j] r r' Hij Hi Hj; try lia; simpl in Hi, Hj; [|apply (Hdis i j); [lia|done..]].
    injection Hi as <-. apply list_elem_of_lookup_2 in Hj. specialize (Hap r' Hj). destruct (Hin r' Hj) as [? _]. unfold disjoint, free in *. cbn in *. lia.
  - intros r [->|Hr]%elem_of_cons E; [by apply Hflag|by apply Hal].
Qed.

(** A block of its own, or a new current block. *)
Lemma new_block_ok a rs n fresh : arena_ok a rs -> 0 < n -> new_block a n fresh ->
  arena_ok (AllocateNewBlock a n fresh).2 rs /\ (forall r, r ∈ rs -> disjoint (fresh, n) r.1) /\ disjoint (fresh, n) (free a).
Proof.
  intros [Hb [Hrem Hfree] Hin Hap Hdis Hal Hus] Hn (Hf1 & Hf2 & Hf3 & Hf4).
  assert (Hr : forall r, r ∈ rs -> disjoint (fresh, n) r.1).
  { intros r Hr. destruct (Hin r Hr) as [_ (b & Hbin & Hi)]. specialize (Hf4 b Hbin). unfold disjoint, inside in *. cbn in *. lia. }
  split_and!; [|done|].
  - split; cbn [AllocateNewBlock snd blocks_ alloc_ptr_ alloc_bytes_remaining_ memory_usage_ free]; try done.
    + intros b [Hx| ->%list_elem_of_singleton]%elem_of_app; [by apply Hb|]. cbn. lia.
    + split; [done|]. destruct Hfree as [?|(b & ? & ?)]; [by left|right]. exists b. split; [apply elem_of_app; by left|done].
    + intros r Hx. destruct (Hin r Hx) as [? (b & ? & ?)]. split; [done|]. exists b. split; [apply elem_of_app; by left|done].
    + unfold MemoryUsage. rewrite Hus, usage_snoc. unfold u64. cbn. rewrite <- Z.add_assoc, Zplus_mod_idemp_l. f_equal. lia.
  - destruct Hfree as [[E1 E2]|(b & Hbin & Hi)]; [unfold disjoint, free; cbn; lia|]. specialize (Hf4 b Hbin). unfold disjoint, inside, free in *. cbn in *. lia.
Qed.

Lemma fallback_ok a rs n fresh flag : arena_ok a rs -> 0 < n -> new_block a (block_size n) fresh ->
  arena_ok (AllocateFallback a n fresh).2 (((AllocateFallback a n fresh).1, n, flag) :: rs).
Proof.
  intros Ha Hn Hnew. assert (Hmod : fresh mod 8 = 0) by apply Hnew. unfold AllocateFallback, block_size in *. destruct (Z.ltb_spec (kBlockSize / 4) n) as [Hbig|Hsmall].
  - destruct (new_block_ok a rs n fresh Ha Hn Hnew) as ([Hb Hfree Hin Hap Hdis Hal Hus] & Hr & Hf).
    cbn [AllocateNewBlock fst snd blocks_ alloc_ptr_ alloc_bytes_remaining_ memory_usage_ free] in *. split; try done.
    + intros r [->|Hx]%elem_of_cons; [|by apply Hin]. cbn. split; [lia|]. exists (fresh, n). split; [apply elem_of_app; right; by apply list_elem_of_singleton|].
      unfold inside. cbn. lia.
    + intros r [->|Hx]%elem_of_cons; [done|by apply Hap].
    + intros [|i] [|j] r r' Hij Hi Hj; try lia; simpl in Hi, Hj; [|apply (Hdis i j); [lia|done..]]. injection Hi as <-. apply Hr. by eapply list_elem_of_lookup_2.
    + intros r [->|Hx]%elem_of_cons E; [done|by apply Hal].
  - destruct (new_block_ok a rs kBlockSize fresh Ha ltac:(done) Hnew) as ([Hb Hfree Hin Hap Hdis Hal Hus] & Hr & Hf).
    cbn [AllocateNewBlock fst snd blocks_ alloc_ptr_ alloc_bytes_remaining_ memory_usage_ free] in *. apply bump_ok; cbn [alloc_bytes_remaining_ alloc_ptr_].
    + split; cbn [blocks_ alloc_ptr_ alloc_bytes_remaining_ memory_usage_ free]; try done.
      * split; [done|]. right. exists (fresh, kBlockSize). split; [apply elem_of_app; right; by apply list_elem_of_singleton|]. unfold inside, free. cbn. lia.
      * intros r Hx. specialize (Hr r Hx). unfold disjoint, free in *. cbn in *. lia.
    + lia.
    + done.
    + change (kBlockSize / 4) with 1024 in Hsmall. unfold kBlockSize. lia.
    + by rewrite Z.add_0_r.
Qed.

Lemma arena_run_ok a rs : arena_run a rs -> arena_ok a rs.
Proof.
  induction 1 as [|a rs n fresh _ IH Hn Hnew|a rs n fresh _ IH Hn Hnew].
  - split; cbn; try done; try (by intros ? ?%not_elem_of_nil). split; [done|by left].
  - unfold Allocate. destruct (Z.leb_spec n (alloc_bytes_remaining_ a)); [apply bump_ok; (done || lia)|by apply fallback_ok; [|lia|]].
  - unfold AllocateAligned. cbn zeta.
    set (slop := if alloc_ptr_ a &&& (align - 1) =? 0 then 0 else align - (alloc_ptr_ a &&& (align - 1))).
    assert (Hs : 0 <= slop < 8 /\ (alloc_ptr_ a + slop) mod 8 = 0).
    { unfold slop, align. change (8 - 1) with (Z.ones 3). rewrite Z.land_ones by lia. change (2 ^ 3) with 8.
      pose proof (Z.mod_pos_bound (alloc_ptr_ a) 8 ltac:(lia)). destruct (Z.eqb_spec (alloc_ptr_ a mod 8) 0) as [E|]; [rewrite Z.add_0_r; lia|].
      split; [lia|]. rewrite <- Zplus_mod_idemp_l. replace (alloc_ptr_ a mod 8 + (8 - alloc_ptr_ a mod 8)) with 8 by lia. done. }
    destruct Hs as [Hs Hmod]. rewrite u64_small by lia.
    destruct (Z.leb_spec (n + slop) (alloc_bytes_remaining_ a)); [apply bump_ok; (done || lia)|by apply fallback_ok; [|lia|]].
Qed.

(** ** Properties *)

(** C40. The arena hands out memory soundly: after any sequence of plain and
    aligned allocations (with [new] returning fresh 8-aligned memory), every
    region returned lies inside one block of the arena, no two regions overlap,
    regions asked to be aligned are, the bytes still to be handed out overlap no
    region and never exceed a block, and [MemoryUsage] is the exact sum of the
    block sizes and their pointers, modulo 2^64. *)
Theorem arena_regions_disjoint a rs : arena_run a rs ->
  (forall r, r ∈ rs -> exists b, b ∈ blocks_ a /\ inside r.1 b /\ disjoint r.1 (alloc_ptr_ a, alloc_bytes_remaining_ a)) /\
  (forall i j r r', i <> j -> rs !! i = Some r -> rs !! j = Some r' -> disjoint r.1 r'.1) /\
  (forall p n, (p, n, true) ∈ rs -> p mod 8 = 0) /\
  0 <= alloc_bytes_remaining_ a <= kBlockSize /\ MemoryUsage a = u64 (usage (blocks_ a)).
Proof.
  intros [Hb [Hrem Hfree] Hin Hap Hdis Hal Hus]%arena_run_ok. split_and!; try done; try lia.
  - intros r Hr. destruct (Hin r Hr) as [_ (b & ? & ?)]. exists b. split_and!; [done|done|by apply (Hap r Hr)].
  - intros i j r r' Hne Hi Hj. destruct (lt_eq_lt_dec i j) as [[H| ->]|H]; [by apply (Hdis i j)|done|].
    specialize (Hdis j i r' r H Hj Hi). unfold disjoint in *. lia.
  - intros p n Hp. by apply (Hal (p, n, true)).
Qed.

(** An odd-sized region, an aligned one after it, and a large one of its own. *)
Lemma arena_regions_disjoint_witness :
  exists a rs, arena_run a rs /\ rs = [(8192, 5000, false); (4104, 16, true); (4096, 5, false)] /\ MemoryUsage a = 9112 /\
    forall i j r r', i <> j -> rs !! i = Some r -> rs !! j = Some r' -> disjoint r.1 r'.1.
Proof.
  assert (H1 : arena_run (MkArena 4101 4091 [(4096, 4096)] 4104) [(4096, 5, false)]).
  { apply (run_plain Arena_new [] 5 4096 run_new); [lia|]. split_and!; try (vm_compute; reflexivity). by intros b ?%not_elem_of_nil. }
  assert (Hnew : forall b, b ∈ [(4096, 4096)] -> forall n, disjoint (8192, n) b).
  { intros b ->%list_elem_of_singleton n. unfold disjoint. cbn. lia. }
  assert (H2 : arena_run (MkArena 4120 4072 [(4096, 4096)] 4104) [(4104, 16, true); (4096, 5, false)]).
  { apply (run_aligned _ _ 16 8192 H1); [lia|]. split_and!; try (vm_compute; reflexivity). intros b Hb. by apply Hnew. }
  assert (H3 : arena_run (MkArena 4120 4072 [(4096, 4096); (8192, 5000)] 9112) [(8192, 5000, false); (4104, 16, true); (4096, 5, false)]).
  { apply (run_plain _ _ 5000 8192 H2); [lia|]. split_and!; try (vm_compute; reflexivity). intros b Hb. by apply Hnew. }
  eexists _, _. split; [exact H3|]. split; [reflexivity|]. split; [reflexivity|]. exact (proj1 (proj2 (arena_regions_disjoint _ _ H3))).
Defined.
End Arena.
