(* ===== verification/Comparator.v ===== *)
(** * Comparator: slice order and the bytewise comparator

    Models [Slice::compare] of src/LSM-EBF/include/leveldb/slice.h and
    src/LSM-EBF/util/comparator.cc.  The abstract class [Comparator] of the
    source is the type class below; [ComparatorLaws] is what the storage
    engine relies on, on the keys satisfying [valid_key]. *)
From S2P Require Import Prelude.

(** ** [Slice] comparison *)

(** The sign of [memcmp (a, b, n)]; bytes compare as unsigned. *)
Fixpoint memcmp (a b : bytes) (n : nat) : Z :=
  match n, a, b with
  | S n, x :: a, y :: b => if x <? y then -1 else if y <? x then 1 else memcmp a b n
  | _, _, _ => 0
  end.

Definition Slice_compare (a b : bytes) : Z :=
  let min_len := if zlen a <? zlen b then zlen a else zlen b in
  let r := memcmp a b (Z.to_nat min_len) in
  if r =? 0 then
    if zlen a <? zlen b then -1 else if zlen b <? zlen a then 1 else r
  else r.

Definition Slice_eqb (x y : bytes) : bool :=
  (zlen x =? zlen y) && (memcmp x y (length x) =? 0).

Definition starts_with (s x : bytes) : bool :=
  (zlen x <=? zlen s) && (memcmp s x (length x) =? 0).

(** ** The interface *)

Class Comparator := {
  Compare : bytes -> bytes -> Z;
  FindShortestSeparator : bytes -> bytes -> bytes;
  FindShortSuccessor : bytes -> bytes;
  FindShortSuccessorBeginWith : bytes -> nat -> bytes;
  valid_key : bytes -> Prop
}.

(** Total order; the separator of [start] and [limit] is either [start] or lies
    strictly between them, a successor is the key itself or is greater; neither
    is longer than the key. *)
Class ComparatorLaws (C : Comparator) := {
  valid_bytes : forall a, valid_key a -> bytes_ok a;
  cmp_refl : forall a, valid_key a -> Compare a a = 0;
  cmp_antisym : forall a b, valid_key a -> valid_key b -> Z.sgn (Compare b a) = - Z.sgn (Compare a b);
  cmp_trans : forall a b c, valid_key a -> valid_key b -> valid_key c ->
    Compare a b <= 0 -> Compare b c <= 0 -> Compare a c <= 0;
  sep_valid : forall s l, valid_key s -> valid_key l -> valid_key (FindShortestSeparator s l);
  sep_between : forall s l, valid_key s -> valid_key l ->
    FindShortestSeparator s l = s \/
    (Compare s (FindShortestSeparator s l) < 0 /\ Compare (FindShortestSeparator s l) l < 0);
  sep_length : forall s l, valid_key s -> valid_key l ->
    (length (FindShortestSeparator s l) <= length s)%nat;
  short_succ_valid : forall s, valid_key s -> valid_key (FindShortSuccessor s);
  short_succ_above : forall s, valid_key s ->
    FindShortSuccessor s = s \/ Compare s (FindShortSuccessor s) < 0;
  short_succ_length : forall s, valid_key s -> (length (FindShortSuccessor s) <= length s)%nat;
  succ_valid : forall s n, valid_key s -> valid_key (FindShortSuccessorBeginWith s n);
  succ_above : forall s n, valid_key s ->
    FindShortSuccessorBeginWith s n = s \/ Compare s (FindShortSuccessorBeginWith s n) < 0
}.

(** ** Order facts *)

Section Order.
Context {C : Comparator} {L : ComparatorLaws C}.

Lemma cmp_sgn_opp a b : valid_key a -> valid_key b -> Compare a b < 0 <-> 0 < Compare b a.
Proof. intros Ha Hb. pose proof (cmp_antisym a b Ha Hb). lia. Qed.

Lemma cmp_eq_sym a b : valid_key a -> valid_key b -> Compare a b = 0 -> Compare b a = 0.
Proof. intros Ha Hb. pose proof (cmp_antisym a b Ha Hb). lia. Qed.

(** Mixed transitivity. *)
Lemma cmp_lt_le_trans a b c :
  valid_key a -> valid_key b -> valid_key c ->
  Compare a b < 0 -> Compare b c <= 0 -> Compare a c < 0.
Proof.
  intros Ha Hb Hc H1 H2. pose proof (cmp_trans a b c Ha Hb Hc ltac:(lia) H2).
  destruct (Z.eq_dec (Compare a c) 0) as [E|]; [|lia].
  pose proof (cmp_eq_sym a c Ha Hc E).
  pose proof (cmp_trans b c a Hb Hc Ha H2 ltac:(lia)). pose proof (cmp_sgn_opp a b Ha Hb). lia.
Qed.

Lemma cmp_le_lt_trans a b c :
  valid_key a -> valid_key b -> valid_key c ->
  Compare a b <= 0 -> Compare b c < 0 -> Compare a c < 0.
Proof.
  intros Ha Hb Hc H1 H2. pose proof (cmp_trans a b c Ha Hb Hc H1 ltac:(lia)).
  destruct (Z.eq_dec (Compare a c) 0) as [E|]; [|lia].
  pose proof (cmp_eq_sym a c Ha Hc E).
  pose proof (cmp_trans c a b Hc Ha Hb ltac:(lia) H1). pose proof (cmp_sgn_opp b c Hb Hc). lia.
Qed.
End Order.

(** ** The bytewise comparator *)

(** Length of the common prefix, the [diff_index] loop. *)
Fixpoint common_prefix (a b : bytes) : nat :=
  match a, b with
  | x :: a, y :: b => if x =? y then S (common_prefix a b) else O
  | _, _ => O
  end.

Module Bytewise.
Definition compare (a b : bytes) : Z := Slice_compare a b.

Definition find_shortest_separator (start limit : bytes) : bytes :=
  let min_length := Nat.min (length start) (length limit) in
  let diff_index := common_prefix start limit in
  if (min_length <=? diff_index)%nat then start
  else
    let diff_byte := byte_at start diff_index in
    if (diff_byte <? 0xff) && (diff_byte + 1 <? byte_at limit diff_index)
    then take (diff_index + 1) (<[diff_index := u8 (diff_byte + 1)]> start)
    else start.

(** [for (i = pos; i < n; i++)]: increment the first byte from [pos] on that
    is not [0xff] and cut the key after it; [fuel] counts the bytes left. *)
Fixpoint successor_loop (fuel i : nat) (key : bytes) : bytes :=
  match fuel with
  | O => key
  | S fuel =>
      let byte := byte_at key i in
      if byte =? 0xff then successor_loop fuel (S i) key
      else take (i + 1) (<[i := u8 (byte + 1)]> key)
  end.

Definition find_short_successor (key : bytes) : bytes := successor_loop (length key) 0 key.

Definition find_short_successor_begin_with (key : bytes) (pos : nat) : bytes :=
  successor_loop (length key - pos) pos key.
End Bytewise.

#[export] Instance BytewiseComparator : Comparator := {
  Compare := Bytewise.compare;
  FindShortestSeparator := Bytewise.find_shortest_separator;
  FindShortSuccessor := Bytewise.find_short_successor;
  FindShortSuccessorBeginWith := Bytewise.find_short_successor_begin_with;
  valid_key := bytes_ok
}.

(** ** Lemmas: [Slice_compare] is the lexicographic order *)

(** The reference order. *)
Fixpoint lex (a b : bytes) : Z :=
  match a, b with
  | [], [] => 0
  | [], _ :: _ => -1
  | _ :: _, [] => 1
  | x :: a, y :: b => if x <? y then -1 else if y <? x then 1 else lex a b
  end.

Lemma memcmp_nil_l b n : memcmp [] b n = 0.
Proof. by destruct n. Qed.

Lemma memcmp_nil_r a n : memcmp a [] n = 0.
Proof. by destruct n, a. Qed.

Lemma Slice_compare_lex a b : Slice_compare a b = lex a b.
Proof.
  unfold Slice_compare. revert b. induction a as [|x a IH]; intros [|y b]; cbn [lex].
  - reflexivity.
  - rewrite memcmp_nil_l, (zlen_nil (A := Z)), zlen_cons. pose proof (zlen_nonneg b).
    cbn [Z.eqb]. zcases; reflexivity.
  - rewrite memcmp_nil_r, (zlen_nil (A := Z)), zlen_cons. pose proof (zlen_nonneg a).
    cbn [Z.eqb]. zcases; reflexivity.
  - specialize (IH b). rewrite !zlen_cons.
    assert (forall u v, (1 + u <? 1 + v) = (u <? v)) as Hs.
    { intros u v. destruct (Z.ltb_spec u v), (Z.ltb_spec (1 + u) (1 + v)); lia. }
    rewrite !Hs.
    set (m := if zlen a <? zlen b then zlen a else zlen b) in *.
    assert (Z.to_nat (if zlen a <? zlen b then 1 + zlen a else 1 + zlen b) = S (Z.to_nat m)) as ->.
    { subst m. pose proof (zlen_nonneg a). pose proof (zlen_nonneg b).
      destruct (zlen a <? zlen b); lia. }
    cbn [memcmp]. destruct (x <? y); [reflexivity|]. destruct (y <? x); [reflexivity|]. exact IH.
Qed.

Lemma lex_refl a : lex a a = 0.
Proof. induction a as [|x a IH]; simpl; [reflexivity|]. rewrite Z.ltb_irrefl. exact IH. Qed.

Lemma lex_opp a b : lex b a = - lex a b.
Proof.
  revert b. induction a as [|x a IH]; intros [|y b]; simpl; try reflexivity.
  destruct (Z.ltb_spec x y), (Z.ltb_spec y x); try lia. apply IH.
Qed.

Lemma lex_eq a b : lex a b = 0 <-> a = b.
Proof.
  split; [|intros ->; apply lex_refl].
  revert b. induction a as [|x a IH]; intros [|y b]; simpl; try done.
  destruct (Z.ltb_spec x y), (Z.ltb_spec y x); try done. intros ->%IH. f_equal. lia.
Qed.

Lemma lex_trans a b c : lex a b <= 0 -> lex b c <= 0 -> lex a c <= 0.
Proof.
  revert b c. induction a as [|x a IH]; intros [|y b] [|z c]; simpl; try lia.
  destruct (Z.ltb_spec x y), (Z.ltb_spec y x), (Z.ltb_spec y z), (Z.ltb_spec z y),
    (Z.ltb_spec x z), (Z.ltb_spec z x); try lia. apply IH.
Qed.

Lemma lex_app a b c : lex (a ++ b) (a ++ c) = lex b c.
Proof. induction a as [|x a IH]; simpl; [reflexivity|]. rewrite Z.ltb_irrefl. exact IH. Qed.

Lemma lex_app_lt a b c x y : x < y -> lex (a ++ x :: b) (a ++ y :: c) < 0.
Proof. intros. rewrite lex_app. simpl. rewrite (proj2 (Z.ltb_lt _ _)) by assumption. lia. Qed.

Lemma memcmp_zero_prefix a b :
  (length b <= length a)%nat -> memcmp a b (length b) = 0 <-> exists r, a = b ++ r.
Proof.
  intros Hl. split.
  - revert a Hl. induction b as [|y b IH]; intros a Hl; [by exists a|].
    destruct a as [|x a]; [simpl in Hl; lia|]. simpl in *.
    destruct (Z.ltb_spec x y), (Z.ltb_spec y x); try done.
    intros (r & ->)%IH; [|lia]. exists r. f_equal. lia.
  - intros [r ->]. clear Hl. induction b as [|y b IH]; [by destruct r|]. simpl.
    by rewrite Z.ltb_irrefl.
Qed.

Lemma starts_with_spec s x : starts_with s x = true <-> exists r, s = x ++ r.
Proof.
  unfold starts_with. rewrite andb_true_iff, Z.leb_le, Z.eqb_eq. unfold zlen. split.
  - intros [Hl Hm]. apply memcmp_zero_prefix; [lia|assumption].
  - intros [r ->]. split; [rewrite length_app; lia|].
    apply memcmp_zero_prefix; [rewrite length_app; lia|eauto].
Qed.

Lemma Slice_eqb_spec x y : Slice_eqb x y = true <-> x = y.
Proof.
  unfold Slice_eqb. rewrite andb_true_iff, !Z.eqb_eq. unfold zlen. split.
  - intros [Hl Hm]. assert (length x = length y) as Hl' by lia. rewrite Hl' in Hm.
    apply memcmp_zero_prefix in Hm as [r ->]; [|lia]. rewrite length_app in Hl'.
    destruct r; [by rewrite app_nil_r|simpl in Hl'; lia].
  - intros ->. split; [reflexivity|]. apply memcmp_zero_prefix; [lia|]. exists []. by rewrite app_nil_r.
Qed.

(** ** Lemmas: shortening keys *)

Lemma common_prefix_le a b : (common_prefix a b <= Nat.min (length a) (length b))%nat.
Proof.
  revert b. induction a as [|x a IH]; intros [|y b]; simpl; try lia.
  case_match; [|lia]. specialize (IH b). simpl in IH. lia.
Qed.

(** Before the difference the keys agree, at it they differ. *)
Lemma common_prefix_split a b :
  (common_prefix a b < Nat.min (length a) (length b))%nat ->
  exists p x y ra rb, a = p ++ x :: ra /\ b = p ++ y :: rb /\ length p = common_prefix a b /\ x <> y.
Proof.
  revert b. induction a as [|x a IH]; intros [|y b]; simpl; try lia.
  destruct (Z.eqb_spec x y) as [->|Hne]; intros Hl.
  - destruct (IH b ltac:(lia)) as (p & u & v & ra & rb & -> & -> & Hp & Huv).
    exists (y :: p), u, v, ra, rb. simpl. split_and!; congruence.
  - exists [], x, y, a, b. done.
Qed.

Lemma byte_at_middle p x r : byte_at (p ++ x :: r) (length p) = x.
Proof. unfold byte_at. rewrite app_nth2, Nat.sub_diag by lia. reflexivity. Qed.

Lemma cut_at_middle p x y (r : bytes) :
  take (length p + 1) (<[length p := y]> (p ++ x :: r)) = p ++ [y].
Proof.
  rewrite <- (Nat.add_0_r (length p)) at 2.
  rewrite insert_app_r. simpl. rewrite take_app, (take_ge p) by lia. f_equal.
  replace (length p + 1 - length p)%nat with 1%nat by lia. reflexivity.
Qed.

Lemma separator_cases start limit :
  bytes_ok start ->
  Bytewise.find_shortest_separator start limit = start \/
  exists p x y rs rl, start = p ++ x :: rs /\ limit = p ++ y :: rl /\ x + 1 < y /\
    x < 255 /\ Bytewise.find_shortest_separator start limit = p ++ [x + 1].
Proof.
  intros Hok. unfold Bytewise.find_shortest_separator.
  destruct (Nat.leb_spec (Nat.min (length start) (length limit)) (common_prefix start limit));
    [by left|].
  destruct (common_prefix_split start limit ltac:(assumption))
    as (p & x & y & rs & rl & Hs & Hl & Hp & Hne).
  rewrite <- Hp. rewrite Hs, Hl, !byte_at_middle.
  destruct ((x <? 255) && (x + 1 <? y)) eqn:E; [|by left]. right. zsimp.
  rewrite cut_at_middle. exists p, x, y, rs, rl. split_and!; try done.
  rewrite u8_small; [reflexivity|].
  rewrite Hs in Hok. apply bytes_ok_app in Hok as [_ Hok]. apply Forall_cons in Hok as [Hx _].
  unfold is_byte in Hx. lia.
Qed.

Lemma successor_loop_cases fuel i key :
  bytes_ok key -> (i + fuel = length key \/ fuel = 0)%nat ->
  Bytewise.successor_loop fuel i key = key \/
  exists p x r, key = p ++ x :: r /\ (i <= length p)%nat /\ x < 255 /\
    Bytewise.successor_loop fuel i key = p ++ [x + 1].
Proof.
  intros Hok. revert i. induction fuel as [|fuel IH]; intros i Hi; [by left|].
  destruct Hi as [Hi|]; [|lia]. simpl.
  destruct (Z.eqb_spec (byte_at key i) 255) as [E|E].
  - destruct (IH (S i) ltac:(lia)) as [->|(p & x & r & ? & ? & ? & ?)]; [by left|].
    right. exists p, x, r. split_and!; try assumption. lia.
  - right. assert (i < length key)%nat as Hlt by lia.
    destruct (lookup_lt_is_Some_2 key i Hlt) as [x Hx].
    pose proof (take_drop_middle key i x Hx) as Hk.
    assert (length (take i key) = i) as Hti by (rewrite length_take; lia).
    set (p := take i key) in *. set (r := drop (S i) key) in *.
    rewrite <- Hk in E, Hok |- *. rewrite <- Hti in E |- *.
    rewrite byte_at_middle in E |- *. rewrite cut_at_middle.
    apply bytes_ok_app in Hok as [_ Hok]. apply Forall_cons in Hok as [Hb _]. unfold is_byte in Hb.
    exists p, x, r. rewrite u8_small by lia. split_and!; try done; lia.
Qed.

Lemma successor_cases key pos :
  bytes_ok key ->
  Bytewise.find_short_successor_begin_with key pos = key \/
  exists p x r, key = p ++ x :: r /\ (pos <= length p)%nat /\ x < 255 /\
    Bytewise.find_short_successor_begin_with key pos = p ++ [x + 1].
Proof. intros. apply successor_loop_cases; [assumption|lia]. Qed.

Lemma short_successor_from_0 key :
  Bytewise.find_short_successor key = Bytewise.find_short_successor_begin_with key 0.
Proof.
  unfold Bytewise.find_short_successor, Bytewise.find_short_successor_begin_with.
  by rewrite Nat.sub_0_r.
Qed.

Lemma successor_valid key pos :
  bytes_ok key -> bytes_ok (Bytewise.find_short_successor_begin_with key pos).
Proof.
  intros Hs. destruct (successor_cases key pos Hs) as [->|(p & x & r & -> & _ & Hx & ->)]; [assumption|].
  apply bytes_ok_app in Hs as [Hp Hs]. apply Forall_cons in Hs as [Hb _].
  apply bytes_ok_app. split; [assumption|]. repeat constructor; unfold is_byte in *; lia.
Qed.

Lemma successor_above key pos :
  bytes_ok key -> Bytewise.find_short_successor_begin_with key pos = key \/
  Slice_compare key (Bytewise.find_short_successor_begin_with key pos) < 0.
Proof.
  intros Hs. rewrite Slice_compare_lex.
  destruct (successor_cases key pos Hs) as [->|(p & x & r & -> & _ & Hx & ->)]; [by left|].
  right. apply lex_app_lt. lia.
Qed.

(** The bytewise comparator discharges the interface. *)
#[export] Instance BytewiseLaws : ComparatorLaws BytewiseComparator.
Proof.
  split; cbn [Compare FindShortestSeparator FindShortSuccessor FindShortSuccessorBeginWith valid_key
    BytewiseComparator];
    unfold Bytewise.compare.
  - done.
  - intros. rewrite Slice_compare_lex. apply lex_refl.
  - intros. rewrite !Slice_compare_lex, lex_opp. apply Z.sgn_opp.
  - intros a b c _ _ _. rewrite !Slice_compare_lex. apply lex_trans.
  - intros s l Hs _. destruct (separator_cases s l Hs) as [->|(p & x & y & rs & rl & -> & -> & Hxy & Hx255 & ->)];
      [assumption|]. apply bytes_ok_app in Hs as [Hp Hx]. apply Forall_cons in Hx as [Hx _].
    apply bytes_ok_app. split; [assumption|]. repeat constructor; unfold is_byte in *; lia.
  - intros s l Hs _. rewrite !Slice_compare_lex.
    destruct (separator_cases s l Hs) as [->|(p & x & y & rs & rl & -> & -> & Hxy & Hx255 & ->)]; [by left|].
    right. split; [apply lex_app_lt; lia|]. by apply lex_app_lt.
  - intros s l Hs _. destruct (separator_cases s l Hs) as [->|(p & x & y & rs & rl & -> & -> & _ & _ & ->)]; [lia|].
    rewrite !length_app. simpl. lia.
  - intros s Hs. rewrite short_successor_from_0. by apply successor_valid.
  - intros s Hs. rewrite short_successor_from_0. by apply successor_above.
  - intros s Hs. rewrite short_successor_from_0.
    destruct (successor_cases s 0 Hs) as [->|(p & x & r & -> & _ & _ & ->)]; [lia|].
    rewrite !length_app. simpl. lia.
  - intros s n Hs. by apply successor_valid.
  - intros s n Hs. by apply successor_above.
Qed.

(** ** Properties *)

(** The bytewise comparator orders keys lexicographically by unsigned bytes,
    and its key shortening is sound: a separator of [start < limit] is a key in
    [[start, limit)] no longer than [start], and a successor from any position is
    a key not below the original and no longer than it. *)
Theorem bytewise_shortening start limit pos :
  bytes_ok start -> bytes_ok limit -> Bytewise.compare start limit < 0 ->
  let sep := Bytewise.find_shortest_separator start limit in
  let suc := Bytewise.find_short_successor_begin_with start pos in
  Bytewise.compare start limit = lex start limit /\
  Bytewise.compare start sep <= 0 /\ Bytewise.compare sep limit < 0 /\
  (length sep <= length start)%nat /\
  Bytewise.compare start suc <= 0 /\ (length suc <= length start)%nat /\
  Bytewise.find_short_successor start = Bytewise.find_short_successor_begin_with start 0.
Proof.
  intros Hs Hl Hlt sep suc. unfold Bytewise.compare in *.
  rewrite Slice_compare_lex in Hlt. rewrite !Slice_compare_lex.
  split; [reflexivity|].
  assert (lex start sep <= 0 /\ lex sep limit < 0 /\ (length sep <= length start)%nat) as (? & ? & ?).
  { subst sep. destruct (separator_cases start limit Hs) as [->|(p & x & y & rs & rl & -> & -> & ? & ? & ->)].
    - rewrite lex_refl. split_and!; lia.
    - pose proof (lex_app_lt p rs [] x (x + 1) ltac:(lia)).
      pose proof (lex_app_lt p [] rl (x + 1) y ltac:(lia)). len. }
  assert (lex start suc <= 0 /\ (length suc <= length start)%nat) as (? & ?).
  { subst suc. destruct (successor_cases start pos Hs) as [->|(p & x & r & -> & ? & ? & ->)].
    - rewrite lex_refl. split; lia.
    - pose proof (lex_app_lt p r [] x (x + 1) ltac:(lia)). len. }
  split_and!; try assumption. apply short_successor_from_0.
Qed.

Lemma bytewise_shortening_witness :
  Bytewise.compare (Bytewise.find_shortest_separator [97; 98; 99] [97; 101]) [97; 101] < 0.
Proof.
  apply (bytewise_shortening [97; 98; 99] [97; 101] 0);
    [repeat constructor; lia|repeat constructor; lia|vm_compute; reflexivity].
Defined.
