(* ===== verification/DbFormat.v ===== *)
(** * DbFormat: internal keys

    Models src/LSM-EBF/db/dbformat.h and dbformat.cc: the packing of a user key
    with its sequence number and type, the internal key order, the shortening of
    internal keys, lookup keys and the filter policy wrapper. *)
From S2P Require Import Prelude Coding Hash Bloom Comparator.

(** ** Constants and data *)

Definition kNumLevels : Z := 8.
Definition kL0_CompactionTrigger : Z := 4.
Definition kL0_SlowdownWritesTrigger : Z := 8.
Definition kL0_StopWritesTrigger : Z := 12.
Definition kMaxMemCompactLevel : Z := 2.

Inductive ValueType := kTypeDeletion | kTypeValue.

#[export] Instance ValueType_eq_dec : EqDecision ValueType.
Proof. solve_decision. Defined.

Definition value_type_code (t : ValueType) : Z :=
  match t with kTypeDeletion => 0 | kTypeValue => 1 end.

Definition kValueTypeForSeek : ValueType := kTypeValue.

Definition kMaxSequenceNumber : Z := (1 ≪ 56) - 1.

Record ParsedInternalKey := {
  user_key : bytes;
  sequence : Z;
  type : ValueType
}.

(** ** Packing *)

Definition PackSequenceAndType (seq : Z) (t : ValueType) : Z :=
  u64 (seq ≪ 8) ||| value_type_code t.

Definition AppendInternalKey (result : bytes) (key : ParsedInternalKey) : bytes :=
  PutFixed64 (result ++ user_key key) (PackSequenceAndType (sequence key) (type key)).

Definition InternalKeyEncodingLength (key : ParsedInternalKey) : Z := zlen (user_key key) + 8.

Definition ExtractUserKey (internal_key : bytes) : bytes :=
  take (length internal_key - 8) internal_key.

(** The last eight bytes as a number, the tag every routine below reads. *)
Definition ExtractTag (internal_key : bytes) : Z :=
  DecodeFixed64 (drop (length internal_key - 8) internal_key).

(** The low byte; [None] when it is not one of the enumeration's values. *)
Definition value_type_of (c : Z) : option ValueType :=
  match c with 0 => Some kTypeDeletion | 1 => Some kTypeValue | _ => None end.

Definition ExtractValueType (internal_key : bytes) : option ValueType :=
  value_type_of (ExtractTag internal_key &&& 0xff).

(** [false] (no result) when the key is short or [c > kTypeValue]. *)
Definition ParseInternalKey (internal_key : bytes) : option ParsedInternalKey :=
  if zlen internal_key <? 8 then None
  else
    let num := ExtractTag internal_key in
    let c := num &&& 0xff in
    t ← value_type_of c;
    Some {| user_key := ExtractUserKey internal_key; sequence := num ≫ 8; type := t |}.

(** ** [InternalKeyComparator] *)

Section InternalKeyComparator.
Context {user_comparator : Comparator}.

Definition internal_compare (akey bkey : bytes) : Z :=
  let r := Compare (ExtractUserKey akey) (ExtractUserKey bkey) in
  if r =? 0 then
    let anum := ExtractTag akey in
    let bnum := ExtractTag bkey in
    if bnum <? anum then -1 else if anum <? bnum then 1 else r
  else r.

Definition internal_separator (start limit : bytes) : bytes :=
  let user_start := ExtractUserKey start in
  let user_limit := ExtractUserKey limit in
  let tmp := FindShortestSeparator user_start user_limit in
  if (zlen tmp <? zlen user_start) && (Compare user_start tmp <? 0)
  then PutFixed64 tmp (PackSequenceAndType kMaxSequenceNumber kValueTypeForSeek)
  else start.

Definition internal_successor (key : bytes) : bytes :=
  let user_key := ExtractUserKey key in
  let tmp := FindShortSuccessorBeginWith user_key 8 in
  if (zlen tmp <? zlen user_key) && (Compare user_key tmp <? 0)
  then PutFixed64 tmp (PackSequenceAndType kMaxSequenceNumber kValueTypeForSeek)
  else key.

(** The class does not override [FindShortSuccessorBeginWith], whose default
    leaves the key alone. *)
Definition InternalKeyComparator : Comparator := {|
  Compare := internal_compare;
  FindShortestSeparator := internal_separator;
  FindShortSuccessor := internal_successor;
  FindShortSuccessorBeginWith := fun key _ => key;
  valid_key := fun k => bytes_ok k /\ (8 <= length k)%nat /\ valid_key (ExtractUserKey k)
|}.
End InternalKeyComparator.

Definition InternalKeyComparatorOf (user_comparator : Comparator) : Comparator :=
  @InternalKeyComparator user_comparator.

(** ** [LookupKey] *)

(** The buffer: [klength varint32][userkey][tag]; [memtable_key] is all of it,
    [internal_key] starts after the length. *)
Module LookupKey.
Record t := { start_ : bytes; kstart_ : nat; needed : Z }.

Definition make (user_key : bytes) (s : Z) : t :=
  let usize := zlen user_key in
  let klength := EncodeVarint32 (u32 (usize + 8)) in
  {| start_ := klength ++ user_key ++ EncodeFixed64 (PackSequenceAndType s kValueTypeForSeek);
     kstart_ := length klength;
     needed := usize + 13 |}.

Definition memtable_key (k : t) : bytes := start_ k.
Definition internal_key (k : t) : bytes := drop (kstart_ k) (start_ k).
Definition lookup_user_key (k : t) : bytes := take (length (internal_key k) - 8) (internal_key k).
End LookupKey.

(** ** [InternalFilterPolicy] over the elastic filter

    The wrapper rewrites the caller's key array in place, so the keys it leaves
    behind are part of its result. *)
Module InternalFilterPolicy.
Definition CreateFilter (user_policy : MultiFilter.t) (keys : list bytes) (dsts : list bytes)
    : option (list bytes) * list bytes :=
  let mkey := map ExtractUserKey keys in
  (MultiFilter.CreateFilter user_policy mkey dsts, mkey).

Definition KeyMayMatchFilters (user_policy : MultiFilter.t) (key : bytes) (filters : list bytes)
    : option bool :=
  MultiFilter.KeyMayMatchFilters user_policy (ExtractUserKey key) filters.

(** This overload passes the internal key through unchanged. *)
Definition KeyMayMatchId (user_policy : MultiFilter.t) (key filter : bytes) (id : nat)
    : option bool :=
  MultiFilter.KeyMayMatchId user_policy key filter id.

Definition filterNums (user_policy : MultiFilter.t) : Z := MultiFilter.filterNums user_policy.
End InternalFilterPolicy.

(** ** Lemmas: packing *)

Definition seq_ok (s : Z) : Prop := 0 <= s <= kMaxSequenceNumber.

Lemma value_type_code_range t : 0 <= value_type_code t <= 1.
Proof. destruct t; simpl; lia. Qed.

Lemma Pack_eq seq t : seq_ok seq -> PackSequenceAndType seq t = seq * 256 + value_type_code t.
Proof.
  unfold seq_ok, kMaxSequenceNumber. change (1 ≪ 56) with (2 ^ 56). intros Hs.
  pose proof (value_type_code_range t). unfold PackSequenceAndType.
  assert (u64 (seq ≪ 8) = seq ≪ 8) as -> by
    (rewrite Z.shiftl_mul_pow2 by lia; apply u64_small; lia).
  rewrite Z.lor_comm, lor_shiftl_add by lia. lia.
Qed.

Lemma Pack_range seq t : seq_ok seq -> 0 <= PackSequenceAndType seq t < 2 ^ 64.
Proof.
  intros Hs. rewrite Pack_eq by assumption. pose proof (value_type_code_range t).
  unfold seq_ok, kMaxSequenceNumber in Hs. change (1 ≪ 56) with (2 ^ 56) in Hs. lia.
Qed.

(** The order of tags: by sequence number, then by type. *)
Lemma Pack_lt s1 t1 s2 t2 :
  seq_ok s1 -> seq_ok s2 ->
  PackSequenceAndType s1 t1 < PackSequenceAndType s2 t2 <->
  s1 < s2 \/ (s1 = s2 /\ value_type_code t1 < value_type_code t2).
Proof.
  intros H1 H2. rewrite !Pack_eq by assumption.
  pose proof (value_type_code_range t1). pose proof (value_type_code_range t2). lia.
Qed.

(** An internal key as the concatenation the code builds. *)
Definition ikey (u : bytes) (tag : Z) : bytes := u ++ EncodeFixed64 tag.

Lemma length_ikey u tag : length (ikey u tag) = (length u + 8)%nat.
Proof. unfold ikey. len. Qed.

#[export] Hint Rewrite length_ikey : len.

Lemma ExtractUserKey_ikey u tag : ExtractUserKey (ikey u tag) = u.
Proof. unfold ExtractUserKey. rewrite length_ikey. apply take_app_exact. lia. Qed.

Lemma ExtractTag_ikey u tag : 0 <= tag < 2 ^ 64 -> ExtractTag (ikey u tag) = tag.
Proof.
  intros. unfold ExtractTag. rewrite length_ikey. unfold ikey. rewrite drop_app_exact by lia.
  rewrite <- (app_nil_r (EncodeFixed64 tag)). by apply DecodeFixed64_Encode.
Qed.

Lemma AppendInternalKey_ikey result k :
  AppendInternalKey result k = result ++ ikey (user_key k) (PackSequenceAndType (sequence k) (type k)).
Proof. unfold AppendInternalKey, PutFixed64, ikey. by rewrite app_assoc. Qed.

(** Every long enough byte string is an internal key of its parts. *)
Lemma EncodeFixed64_Decode p :
  bytes_ok p -> length p = 8%nat -> EncodeFixed64 (DecodeFixed64 p) = p.
Proof.
  intros Hp Hl. rewrite DecodeFixed64_eq, EncodeFixed64_split by assumption.
  pose proof (DecodeFixed32_range p Hp).
  pose proof (DecodeFixed32_range (drop 4 p) (bytes_ok_drop _ _ Hp)).
  transitivity (take 4 p ++ drop 4 p); [f_equal|apply take_drop].
  - rewrite <- (EncodeFixed32_Decode p Hp) by lia. rewrite !EncodeFixed32_eq.
    repeat (apply (f_equal2 cons); [word|]). reflexivity.
  - transitivity (take 4 (drop 4 p)); [|apply take_ge; rewrite length_drop; lia].
    rewrite <- EncodeFixed32_Decode by (rewrite ?length_drop; auto with kv; lia).
    f_equal. word.
Qed.

Lemma ikey_decompose k :
  bytes_ok k -> (8 <= length k)%nat -> k = ikey (ExtractUserKey k) (ExtractTag k).
Proof.
  intros Hk Hl. unfold ikey, ExtractTag. rewrite EncodeFixed64_Decode.
  - unfold ExtractUserKey. by rewrite take_drop.
  - by apply bytes_ok_drop.
  - rewrite length_drop. lia.
Qed.

Lemma ExtractTag_range k : bytes_ok k -> 0 <= ExtractTag k < 2 ^ 64.
Proof. intros. apply DecodeFixed64_range. by apply bytes_ok_drop. Qed.

Lemma value_type_of_code t : value_type_of (value_type_code t) = Some t.
Proof. by destruct t. Qed.

Lemma value_type_of_Some c t : value_type_of c = Some t -> c = value_type_code t.
Proof. unfold value_type_of. repeat case_match; intros [= <-]; reflexivity. Qed.

Lemma ParseInternalKey_ikey u s t :
  seq_ok s ->
  ParseInternalKey (ikey u (PackSequenceAndType s t))
    = Some {| user_key := u; sequence := s; type := t |}.
Proof.
  intros Hs. unfold ParseInternalKey.
  rewrite (proj2 (Z.ltb_ge _ _)) by (unfold zlen; rewrite length_ikey; lia).
  rewrite ExtractUserKey_ikey, ExtractTag_ikey by (by apply Pack_range).
  rewrite land_255, Pack_eq by assumption. pose proof (value_type_code_range t).
  assert (u8 (s * 256 + value_type_code t) = value_type_code t) as -> by word.
  rewrite value_type_of_code. simpl. do 2 f_equal.
  rewrite Z.shiftr_div_pow2 by lia. word.
Qed.

(** ** Lemmas: the internal order *)

Section InternalOrder.
Context {C : Comparator} {L : ComparatorLaws C}.

(** User key ascending, then tag descending. *)
Lemma internal_compare_lt a b :
  internal_compare a b < 0 <->
  Compare (ExtractUserKey a) (ExtractUserKey b) < 0 \/
  (Compare (ExtractUserKey a) (ExtractUserKey b) = 0 /\ ExtractTag b < ExtractTag a).
Proof. unfold internal_compare. zcases. Qed.

Lemma internal_compare_le a b :
  internal_compare a b <= 0 <->
  Compare (ExtractUserKey a) (ExtractUserKey b) < 0 \/
  (Compare (ExtractUserKey a) (ExtractUserKey b) = 0 /\ ExtractTag b <= ExtractTag a).
Proof. unfold internal_compare. zcases. Qed.

Lemma seek_tag_range : 0 <= PackSequenceAndType kMaxSequenceNumber kValueTypeForSeek < 2 ^ 64.
Proof. vm_compute. split; [discriminate|reflexivity]. Qed.

Lemma PutFixed64_ikey tmp tag : PutFixed64 tmp tag = ikey tmp tag.
Proof. reflexivity. Qed.

Lemma valid_ikey tmp tag : valid_key tmp ->
  @valid_key (@InternalKeyComparator C) (ikey tmp tag).
Proof.
  intros Hv. pose proof (valid_bytes _ Hv). simpl. rewrite length_ikey, ExtractUserKey_ikey. split_and!; [|lia|assumption].
  unfold ikey. apply bytes_ok_app. split; [assumption|apply EncodeFixed64_ok].
Qed.

Lemma internal_separator_cases s l :
  internal_separator s l = s \/
  exists tmp, tmp = FindShortestSeparator (ExtractUserKey s) (ExtractUserKey l) /\
    zlen tmp < zlen (ExtractUserKey s) /\ Compare (ExtractUserKey s) tmp < 0 /\
    internal_separator s l = ikey tmp (PackSequenceAndType kMaxSequenceNumber kValueTypeForSeek).
Proof.
  unfold internal_separator. case_match; [|by left]. zsimp. right. eexists. split_and!; eauto.
Qed.

Lemma internal_successor_cases s :
  internal_successor s = s \/
  exists tmp, tmp = FindShortSuccessorBeginWith (ExtractUserKey s) 8 /\
    zlen tmp < zlen (ExtractUserKey s) /\ Compare (ExtractUserKey s) tmp < 0 /\
    internal_successor s = ikey tmp (PackSequenceAndType kMaxSequenceNumber kValueTypeForSeek).
Proof.
  unfold internal_successor. case_match; [|by left]. zsimp. right. eexists. split_and!; eauto.
Qed.

(** The shortened separator lies strictly between, as a user key and hence as
    an internal key. *)
Lemma internal_separator_between s l :
  valid_key (ExtractUserKey s) -> valid_key (ExtractUserKey l) ->
  internal_separator s l = s \/
  (internal_compare s (internal_separator s l) < 0 /\ internal_compare (internal_separator s l) l < 0).
Proof.
  intros Hs Hl. destruct (internal_separator_cases s l) as [->|(tmp & Htmp & Hz & Hc & ->)]; [by left|].
  right. rewrite !internal_compare_lt, !ExtractUserKey_ikey. split; [by left|]. left.
  destruct (sep_between (ExtractUserKey s) (ExtractUserKey l) Hs Hl) as [E|[_ E]]; [|by rewrite Htmp].
  rewrite E in Htmp. subst tmp. lia.
Qed.

Lemma shorter_ikey s tmp tag : (8 <= length s)%nat -> zlen tmp < zlen (ExtractUserKey s) ->
  (length (ikey tmp tag) <= length s)%nat.
Proof.
  intros Hs Hz. rewrite length_ikey. unfold zlen, ExtractUserKey in Hz. rewrite length_take in Hz. lia.
Qed.

#[export] Instance InternalLaws : ComparatorLaws (@InternalKeyComparator C).
Proof.
  split; cbn [Compare FindShortestSeparator FindShortSuccessor FindShortSuccessorBeginWith valid_key
    InternalKeyComparator].
  - tauto.
  - intros a (_ & _ & Ha). unfold internal_compare. rewrite cmp_refl by assumption. zcases.
  - intros a b (_ & _ & Ha) (_ & _ & Hb). unfold internal_compare.
    pose proof (cmp_antisym _ _ Ha Hb) as Hab.
    destruct (Z.eqb_spec (Compare (ExtractUserKey b) (ExtractUserKey a)) 0) as [E|E];
      destruct (Z.eqb_spec (Compare (ExtractUserKey a) (ExtractUserKey b)) 0) as [E'|E']; try lia.
    rewrite E, E'. zcases; reflexivity.
  - intros a b c (_ & _ & Ha) (_ & _ & Hb) (_ & _ & Hc). rewrite !internal_compare_le.
    intros [H1|[H1 T1]] [H2|[H2 T2]].
    + left. apply (cmp_lt_le_trans _ (ExtractUserKey b)); try assumption; lia.
    + left. apply (cmp_lt_le_trans _ (ExtractUserKey b)); try assumption; lia.
    + left. apply (cmp_le_lt_trans _ (ExtractUserKey b)); try assumption; lia.
    + pose proof (cmp_trans _ _ _ Ha Hb Hc ltac:(lia) ltac:(lia)).
      destruct (Z.eq_dec (Compare (ExtractUserKey a) (ExtractUserKey c)) 0); [right|left]; lia.
  - intros s l Hs Hl. pose proof Hs as (_ & _ & Hsu). pose proof Hl as (_ & _ & Hlu).
    destruct (internal_separator_cases s l) as [->|(tmp & -> & _ & _ & ->)]; [exact Hs|].
    apply valid_ikey, sep_valid; assumption.
  - intros s l (_ & _ & Hs) (_ & _ & Hl). by apply internal_separator_between.
  - intros s l (_ & Hs & _) _. destruct (internal_separator_cases s l) as [->|(tmp & _ & Hz & _ & ->)]; [lia|].
    by apply shorter_ikey.
  - intros s Hs. pose proof Hs as (_ & _ & Hsu).
    destruct (internal_successor_cases s) as [->|(tmp & -> & _ & _ & ->)]; [exact Hs|].
    by apply valid_ikey, succ_valid.
  - intros s _. destruct (internal_successor_cases s) as [->|(tmp & _ & _ & Hc & ->)]; [by left|].
    right. rewrite internal_compare_lt, ExtractUserKey_ikey. by left.
  - intros s (_ & Hs & _). destruct (internal_successor_cases s) as [->|(tmp & _ & Hz & _ & ->)]; [lia|].
    by apply shorter_ikey.
  - done.
  - by left.
Qed.
End InternalOrder.

(** ** Lemmas: lookup keys *)

Lemma lookup_internal_key u s :
  LookupKey.internal_key (LookupKey.make u s) = ikey u (PackSequenceAndType s kValueTypeForSeek).
Proof. unfold LookupKey.internal_key. simpl. by apply drop_app_exact. Qed.

Lemma lookup_memtable_key u s :
  zlen u + 8 < 2 ^ 32 ->
  LookupKey.memtable_key (LookupKey.make u s)
    = length_prefixed (ikey u (PackSequenceAndType s kValueTypeForSeek)).
Proof.
  intros Hu. unfold LookupKey.memtable_key, length_prefixed. simpl.
  pose proof (zlen_nonneg u). rewrite u32_small by lia. do 2 f_equal.
  unfold zlen. rewrite length_ikey. lia.
Qed.

(** ** Properties *)

(** Internal keys round trip: parsing what [AppendInternalKey] appended gives
    the user key, sequence number and type back, and a byte string that parses is
    exactly the serialization of the key it parses to. *)
Theorem internal_key_roundtrip :
  (forall k, seq_ok (sequence k) -> ParseInternalKey (AppendInternalKey [] k) = Some k) /\
  (forall s k, bytes_ok s -> ParseInternalKey s = Some k ->
     AppendInternalKey [] k = s /\ seq_ok (sequence k)).
Proof.
  split.
  - intros [u s t] Hs. rewrite AppendInternalKey_ikey. by apply ParseInternalKey_ikey.
  - intros s k Hs. unfold ParseInternalKey. destruct (Z.ltb_spec (zlen s) 8) as [|Hl]; [done|].
    pose proof (ExtractTag_range s Hs) as Ht. rewrite land_255.
    destruct (value_type_of _) as [t|] eqn:E; [|done]. apply value_type_of_Some in E.
    intros [= <-]. rewrite AppendInternalKey_ikey. simpl.
    rewrite Z.shiftr_div_pow2 by lia. pose proof (value_type_code_range t).
    assert (seq_ok (ExtractTag s / 2 ^ 8)) as Hsq.
    { unfold seq_ok, kMaxSequenceNumber. change (1 ≪ 56) with (2 ^ 56). word. }
    split; [|assumption]. rewrite Pack_eq by assumption.
    rewrite (ikey_decompose s Hs) at 3 by (unfold zlen in Hl; lia). f_equal. word.
Qed.

Lemma internal_key_roundtrip_witness :
  ParseInternalKey (AppendInternalKey [] {| user_key := [107; 49]; sequence := 7; type := kTypeDeletion |})
    = Some {| user_key := [107; 49]; sequence := 7; type := kTypeDeletion |}.
Proof.
  apply (proj1 internal_key_roundtrip). unfold seq_ok. simpl. vm_compute. split; discriminate.
Defined.

(** Order of internal keys for any lawful user comparator: user keys
    ascending, then sequence numbers descending, then types descending; and the
    internal comparator is itself lawful (a total preorder with sound key
    shortening), which is what tables and versions require of it. *)
Theorem internal_key_order {C : Comparator} {L : ComparatorLaws C} u1 s1 t1 u2 s2 t2 :
  seq_ok s1 -> seq_ok s2 ->
  (internal_compare (AppendInternalKey [] {| user_key := u1; sequence := s1; type := t1 |})
     (AppendInternalKey [] {| user_key := u2; sequence := s2; type := t2 |}) < 0 <->
   Compare u1 u2 < 0 \/
   (Compare u1 u2 = 0 /\ (s2 < s1 \/ (s1 = s2 /\ value_type_code t2 < value_type_code t1)))) /\
  ComparatorLaws (InternalKeyComparatorOf C).
Proof.
  intros H1 H2. split; [|apply InternalLaws].
  rewrite !AppendInternalKey_ikey, internal_compare_lt. simpl.
  rewrite !ExtractUserKey_ikey, !ExtractTag_ikey by (by apply Pack_range).
  rewrite Pack_lt by assumption. intuition lia.
Qed.

Lemma internal_key_order_witness :
  internal_compare (AppendInternalKey [] {| user_key := [107]; sequence := 9; type := kTypeValue |})
    (AppendInternalKey [] {| user_key := [107]; sequence := 4; type := kTypeValue |}) < 0.
Proof.
  apply (internal_key_order [107] 9 kTypeValue [107] 4 kTypeValue);
    [vm_compute; split; discriminate|vm_compute; split; discriminate|].
  right. split; [reflexivity|]. left. lia.
Defined.

(** Shortening internal keys: the separator of [start < limit] lies in
    [[start, limit)] of the internal order, and the successor of a key is not
    below it; so an index key built from either is at or above every key of its
    block and below every key of the next. *)
Theorem internal_key_shortening {C : Comparator} {L : ComparatorLaws C} start limit :
  valid_key (ExtractUserKey start) -> valid_key (ExtractUserKey limit) ->
  internal_compare start limit < 0 ->
  internal_compare start (internal_separator start limit) <= 0 /\
  internal_compare (internal_separator start limit) limit < 0 /\
  internal_compare start (internal_successor start) <= 0.
Proof.
  intros Hs Hl Hlt.
  assert (internal_compare start start <= 0) as Hrefl.
  { apply internal_compare_le. right. rewrite cmp_refl by assumption. lia. }
  split_and!.
  - destruct (internal_separator_between start limit Hs Hl) as [->|[? ?]]; lia.
  - destruct (internal_separator_between start limit Hs Hl) as [->|[? ?]]; lia.
  - destruct (internal_successor_cases start) as [->|(tmp & -> & _ & Hc & ->)]; [assumption|].
    apply internal_compare_le. left. by rewrite ExtractUserKey_ikey.
Qed.

Lemma internal_key_shortening_witness :
  internal_compare (internal_separator (ikey [97; 98; 99] 1) (ikey [97; 101] 1)) (ikey [97; 101] 1) < 0.
Proof.
  apply (internal_key_shortening (ikey [97; 98; 99] 1) (ikey [97; 101] 1)).
  - vm_compute. repeat constructor; discriminate.
  - vm_compute. repeat constructor; discriminate.
  - vm_compute. reflexivity.
Defined.

(** Reads at a snapshot: the internal key a lookup seeks to is at or before
    an entry of the same user key exactly when the entry is visible at the
    snapshot, and it sorts entries of other user keys as the user keys; the
    buffer [LookupKey] sizes holds the encoding, and the memtable form carries
    the same key behind its length. *)
Theorem lookup_key_visibility {C : Comparator} {L : ComparatorLaws C} u s e t u' :
  valid_key u -> valid_key u' -> seq_ok s -> seq_ok e -> zlen u + 8 < 2 ^ 32 ->
  let k := LookupKey.make u s in
  let entry v := AppendInternalKey [] {| user_key := v; sequence := e; type := t |} in
  (internal_compare (LookupKey.internal_key k) (entry u) <= 0 <-> e <= s) /\
  (Compare u u' < 0 -> internal_compare (LookupKey.internal_key k) (entry u') < 0) /\
  LookupKey.lookup_user_key k = u /\
  zlen (LookupKey.start_ k) <= LookupKey.needed k /\
  GetLengthPrefixedSlicePtr (LookupKey.memtable_key k) = Some (LookupKey.internal_key k, []).
Proof.
  intros Hu Hu' Hs He Hlen k entry. subst k entry. cbv beta.
  rewrite !AppendInternalKey_ikey. unfold LookupKey.lookup_user_key.
  rewrite !lookup_internal_key. cbn [user_key sequence type app].
  pose proof (Pack_range s kValueTypeForSeek Hs). pose proof (Pack_range e t He).
  split_and!.
  - rewrite internal_compare_le, !ExtractUserKey_ikey, !ExtractTag_ikey by assumption.
    rewrite cmp_refl by assumption. rewrite !Pack_eq by assumption.
    pose proof (value_type_code_range t). change (value_type_code kValueTypeForSeek) with 1. lia.
  - intros Hlt. apply internal_compare_lt. left. by rewrite !ExtractUserKey_ikey.
  - apply ExtractUserKey_ikey.
  - change (LookupKey.start_ (LookupKey.make u s)) with (LookupKey.memtable_key (LookupKey.make u s)).
    rewrite lookup_memtable_key by assumption. cbn [LookupKey.needed LookupKey.make].
    pose proof (zlen_nonneg u). unfold length_prefixed. rewrite zlen_app.
    assert (zlen (ikey u (PackSequenceAndType s kValueTypeForSeek)) = zlen u + 8) as ->
      by (unfold zlen; rewrite length_ikey; lia).
    pose proof (EncodeVarint32_length (zlen u + 8) ltac:(lia)).
    assert (zlen (EncodeVarint32 (zlen u + 8)) <= 5) by (unfold zlen at 1; lia). lia.
  - rewrite lookup_memtable_key by assumption. rewrite <- (app_nil_r (length_prefixed _)). apply GetLengthPrefixedSlicePtr_Put.
    unfold zlen. rewrite length_ikey. unfold zlen in Hlen. lia.
Qed.

Lemma lookup_key_visibility_witness :
  internal_compare (LookupKey.internal_key (LookupKey.make [107] 5))
    (AppendInternalKey [] {| user_key := [107]; sequence := 3; type := kTypeDeletion |}) <= 0.
Proof.
  apply (lookup_key_visibility [107] 5 3 kTypeDeletion [108]);
    try (vm_compute; repeat constructor; discriminate); lia.
Defined.
