(* ===== verification/SkipList.v ===== *)
(** * SkipList: the memtable's ordered set

    Models src/LSM-EBF/db/skiplist.h.  Nodes live in an arena that is never
    shrunk, so a [Node*] is the index of a node in the list of allocated nodes,
    [None] is NULL and index 0 is [head_].  Every store to a [next_] slot is a
    step of its own, so that the heaps a concurrent reader can observe during
    [Insert] are the elements of a list. *)
From stdpp Require Import sorting.
From S2P Require Import Prelude Random.

Module SkipList.

Definition kMaxHeight : nat := 12.
Definition kBranching : Z := 4.

Section Code.
Context {K : Type} (null_key : K) (compare_ : K -> K -> Z).

(** [next_] has as many slots as the node is high. *)
Record Node := { key : K; next_ : list (option nat) }.

Record t := { nodes : list Node; max_height_ : nat; rnd_ : Z }.

Definition head_ : nat := 0.

Definition node_key (sl : t) (p : nat) : K :=
  match nodes sl !! p with Some nd => key nd | None => null_key end.

(** [p->Next(n)] and [p->SetNext(n, x)], with or without barrier. *)
Definition Next (sl : t) (p n : nat) : option nat :=
  match nodes sl !! p with Some nd => mjoin (next_ nd !! n) | None => None end.

Definition SetNext (sl : t) (p n : nat) (x : option nat) : t :=
  {| nodes := alter (fun nd => {| key := key nd; next_ := <[n := x]> (next_ nd) |}) p (nodes sl);
     max_height_ := max_height_ sl; rnd_ := rnd_ sl |}.

(** The links of a fresh node are not initialised by the source; they are
    written before the node is reachable. *)
Definition NewNode (sl : t) (k : K) (height : nat) : t * nat :=
  ({| nodes := nodes sl ++ [{| key := k; next_ := replicate height None |}];
      max_height_ := max_height_ sl; rnd_ := rnd_ sl |}, length (nodes sl)).

Definition make : t :=
  {| nodes := [{| key := null_key; next_ := replicate kMaxHeight None |}];
     max_height_ := 1; rnd_ := Random.make 0xdeadbeef |}.

Definition GetMaxHeight (sl : t) : nat := max_height_ sl.

Definition set_max_height (sl : t) (h : nat) : t :=
  {| nodes := nodes sl; max_height_ := h; rnd_ := rnd_ sl |}.

Definition set_rnd (sl : t) (r : Z) : t :=
  {| nodes := nodes sl; max_height_ := max_height_ sl; rnd_ := r |}.

(** [while (height < kMaxHeight && rnd_.Next() % kBranching == 0) height++],
    with [room] the distance to [kMaxHeight]. *)
Fixpoint RandomHeight_loop (room height : nat) (seed : Z) : nat * Z :=
  match room with
  | O => (height, seed)
  | S room =>
      let seed := Random.Next seed in
      if seed mod kBranching =? 0 then RandomHeight_loop room (S height) seed else (height, seed)
  end.

Definition RandomHeight (sl : t) : nat * t :=
  let '(height, seed) := RandomHeight_loop (kMaxHeight - 1) 1 (rnd_ sl) in
  (height, set_rnd sl seed).

Definition Equal (a b : K) : bool := compare_ a b =? 0.

Definition KeyIsAfterNode (sl : t) (k : K) (n : option nat) : bool :=
  match n with Some p => compare_ (node_key sl p) k <? 0 | None => false end.

(** The three searches walk the same way: stay on a level while [advance]
    holds of the next node, else record the node in [prev] and go down a level.
    One step is one load of a link: it either stops, with the node reached, the
    node after it and [prev], or moves. *)
Definition search_step (sl : t) (advance : option nat -> bool)
    (st : nat * nat * option (list (option nat)))
    : (nat * option nat * option (list (option nat))) + (nat * nat * option (list (option nat))) :=
  let '(x, level, prev) := st in
  let next := Next sl x level in
  match advance next, next with
  | true, Some y => inr (y, level, prev)
  | _, _ =>
      let prev := (fun p => <[level := Some x]> p) <$> prev in
      match level with
      | O => inl (x, next, prev)
      | S level => inr (x, level, prev)
      end
  end.

Fixpoint search (fuel : nat) (sl : t) (advance : option nat -> bool)
    (st : nat * nat * option (list (option nat)))
    : option (nat * option nat * option (list (option nat))) :=
  match fuel with
  | O => None
  | S fuel =>
      match search_step sl advance st with
      | inl r => Some r
      | inr st => search fuel sl advance st
      end
  end.

(** Each step moves to a later node or goes down a level. *)
Definition search_fuel (sl : t) : nat := length (nodes sl) + kMaxHeight.

Definition search_from_head (sl : t) (advance : option nat -> bool)
    (prev : option (list (option nat))) :=
  search (search_fuel sl) sl advance (head_, (GetMaxHeight sl - 1)%nat, prev).

Definition FindGreaterOrEqual (sl : t) (k : K) (prev : option (list (option nat)))
    : option (option nat * option (list (option nat))) :=
  '(_, next, prev) ← search_from_head sl (KeyIsAfterNode sl k) prev; Some (next, prev).

Definition FindLessThan (sl : t) (k : K) : option nat :=
  '(x, _, _) ← search_from_head sl
      (fun next => match next with
                   | None => false
                   | Some p => negb (0 <=? compare_ (node_key sl p) k)
                   end) None;
  Some x.

Definition FindLast (sl : t) : option nat :=
  '(x, _, _) ← search_from_head sl (fun next => match next with None => false | Some _ => true end) None;
  Some x.

(** [prev[i] = head_] for [i] from the old height up to the new one. *)
Fixpoint fill_prev (n i : nat) (prev : list (option nat)) : list (option nat) :=
  match n with
  | O => prev
  | S n => fill_prev n (S i) (<[i := Some head_]> prev)
  end.

(** [if (height > GetMaxHeight()) ...]: the missing [prev]s and the new height. *)
Definition raise_prev (sl : t) (height : nat) (prev : list (option nat)) : list (option nat) :=
  if (GetMaxHeight sl <? height)%nat
  then fill_prev (height - GetMaxHeight sl) (GetMaxHeight sl) prev else prev.

Definition raise_height (sl : t) (height : nat) : t :=
  if (GetMaxHeight sl <? height)%nat then set_max_height sl height else sl.

(** The linking loop: the heaps after each store, oldest first.  [None] when
    an unset [prev[i]] would be read. *)
Fixpoint link (n i : nat) (sl : t) (x : nat) (prev : list (option nat)) : option (list t) :=
  match n with
  | O => Some []
  | S n =>
      p ← mjoin (prev !! i);
      let sl1 := SetNext sl x i (Next sl p i) in
      let sl2 := SetNext sl1 p i (Some x) in
      rest ← link n (S i) sl2 x prev;
      Some (sl1 :: sl2 :: rest)
  end.

(** The heaps [Insert] goes through, oldest first: the store to [max_height_],
    the new node, then the two stores of each level. *)
Definition Insert_trace (sl : t) (k : K) : option (list t) :=
  '(_, prev) ← FindGreaterOrEqual sl k (Some (replicate kMaxHeight None));
  prev ← prev;
  let '(height, sl1) := RandomHeight sl in
  let sl2 := raise_height sl1 height in
  let '(sl3, x) := NewNode sl2 k height in
  rest ← link height 0 sl3 x (raise_prev sl1 height prev);
  Some (sl1 :: sl2 :: sl3 :: rest).

Definition Insert (sl : t) (k : K) : option t :=
  trace ← Insert_trace sl k; last trace.

Definition Contains (sl : t) (k : K) : option bool :=
  '(x, _) ← FindGreaterOrEqual sl k None;
  Some (match x with Some p => Equal k (node_key sl p) | None => false end).

(** ** [SkipList::Iterator]: the state is [node_]. *)

Definition Iterator_new : option nat := None.
Definition Valid (node_ : option nat) : bool := match node_ with Some _ => true | None => false end.

Definition Iterator_key (sl : t) (node_ : option nat) : option K := node_key sl <$> node_.

Definition Iterator_Next (sl : t) (node_ : option nat) : option nat :=
  match node_ with Some p => Next sl p 0 | None => None end.

(** The outer option is the search running out of fuel. *)
Definition not_head (p : nat) : option nat := if (p =? head_)%nat then None else Some p.

Definition Prev (sl : t) (node_ : option nat) : option (option nat) :=
  match node_ with
  | Some p => not_head <$> FindLessThan sl (node_key sl p)
  | None => None
  end.

Definition Seek (sl : t) (target : K) : option (option nat) :=
  fst <$> FindGreaterOrEqual sl target None.

Definition SeekToFirst (sl : t) : option nat := Next sl head_ 0.

Definition SeekToLast (sl : t) : option (option nat) := not_head <$> FindLast sl.

(** A run of insertions. *)
Fixpoint InsertAll (sl : t) (ks : list K) : option t :=
  match ks with
  | [] => Some sl
  | k :: ks => sl ← Insert sl k; InsertAll sl ks
  end.

(** A reader running beside [Insert]: it is searching for the first key at or
    above [k], or has its result.  Each of its steps loads one link of the heap
    current at that moment. *)
Definition read_step (sl : t) (k : K) (r : option nat + (nat * nat)) : option nat + (nat * nat) :=
  match r with
  | inl res => inl res
  | inr (x, level) =>
      match search_step sl (KeyIsAfterNode sl k) (x, level, None) with
      | inl (_, next, _) => inl next
      | inr (x, level, _) => inr (x, level)
      end
  end.

(** The current heap and the ones the writer has yet to produce, with the reader. *)
Inductive step (k : K) : list t * (option nat + nat * nat) -> list t * (option nat + nat * nat) -> Prop :=
| step_write sl sls r : step k (sl :: sls, r) (sls, r)
| step_read sl sls r : step k (sl :: sls, r) (sl :: sls, read_step sl k r).
End Code.

Arguments Node K : clear implicits.
Arguments t K : clear implicits.

(** ** The invariant *)

Section Proofs.
Context {K : Type} (null_key : K) (compare_ : K -> K -> Z) (valid : K -> Prop).

(** What the template requires of its comparator, on the keys stored. *)
Class KeyOrder : Prop := {
  order_antisym : forall a b, valid a -> valid b -> Z.sgn (compare_ b a) = - Z.sgn (compare_ a b);
  order_trans : forall a b c, valid a -> valid b -> valid c ->
    compare_ a b <= 0 -> compare_ b c <= 0 -> compare_ a c <= 0
}.

Context `{!KeyOrder}.
Abbreviation node_key := (node_key null_key).

Lemma order_lt_trans a b c : valid a -> valid b -> valid c ->
  compare_ a b < 0 -> compare_ b c < 0 -> compare_ a c < 0.
Proof.
  intros Ha Hb Hc H1 H2. pose proof (order_trans a b c Ha Hb Hc ltac:(lia) ltac:(lia)).
  destruct (Z.eq_dec (compare_ a c) 0) as [E|]; [|lia].
  pose proof (order_antisym a c Ha Hc). pose proof (order_antisym a b Ha Hb).
  pose proof (order_trans b c a Hb Hc Ha ltac:(lia) ltac:(lia)). lia.
Qed.

(** Following the links of level [j] from [x] visits [c]. *)
Fixpoint linked (sl : t K) (j x : nat) (c : list nat) : Prop :=
  match c with
  | [] => Next sl x j = None
  | y :: c => Next sl x j = Some y /\ linked sl j y c
  end.

(** [lh p] is the number of levels at which node [p] is linked: its height,
    except for the node an [Insert] in progress is publishing. *)
Record node_ok (sl : t K) (lh : nat -> nat) (p : nat) : Prop := {
  ok_heap : exists nd, nodes sl !! p = Some nd /\ (lh p <= length (next_ nd))%nat;
  ok_linked : (1 <= lh p <= max_height_ sl)%nat;
  ok_not_head : p <> head_;
  ok_valid : valid (node_key sl p)
}.

Definition key_lt (sl : t K) (p q : nat) : Prop := compare_ (node_key sl p) (node_key sl q) < 0.

Definition chain (lh : nat -> nat) (j : nat) (l : list nat) : list nat :=
  filter (fun p => (j < lh p)%nat) l.

(** [l] is the bottom list; the list of level [j] is its nodes higher than [j]. *)
Record wf (sl : t K) (lh : nat -> nat) (l : list nat) : Prop := {
  wf_head : exists nd, nodes sl !! head_ = Some nd /\ length (next_ nd) = kMaxHeight;
  wf_height : (1 <= max_height_ sl <= kMaxHeight)%nat;
  wf_seed : Random.seed_ok (rnd_ sl);
  wf_nodes : Forall (node_ok sl lh) l;
  wf_sorted : StronglySorted (key_lt sl) l;
  wf_linked : forall j, (j < kMaxHeight)%nat -> linked sl j head_ (chain lh j l)
}.

(** The keys of the list, in order. *)
Definition represents (sl : t K) (ks : list K) : Prop :=
  exists lh l, wf sl lh l /\ ks = map (node_key sl) l.

(** ** Lemmas: chains *)

Lemma linked_app sl j x c1 c2 :
  linked sl j x (c1 ++ c2) -> linked sl j (default x (last c1)) c2.
Proof.
  revert x. induction c1 as [|y c1 IH]; intros x; [done|]. intros [_ Hl]. apply IH in Hl.
  destruct c1 as [|z c1]; [done|]. rewrite last_cons_cons.
  destruct (last (z :: c1)) eqn:E; [done|]. by apply last_None in E.
Qed.

(** [x] is the last node of [head_ :: pre]. *)
Definition at_end (pre : list nat) (x : nat) : Prop := x = default head_ (last pre).

Lemma at_end_snoc pre y : at_end (pre ++ [y]) y.
Proof. unfold at_end. by rewrite last_snoc. Qed.

Lemma chain_end lh j pre x :
  at_end pre x -> (x = head_ \/ (j < lh x)%nat) -> Forall (fun p => p <> head_) pre ->
  at_end (chain lh j pre) x.
Proof.
  intros -> Hx Hn. unfold at_end. destruct (last pre) as [y|] eqn:E; simpl in *.
  - apply last_Some in E as [pre' ->]. apply Forall_app in Hn as [_ Hn]. inv Hn.
    destruct Hx as [|Hx]; [done|]. unfold chain.
    rewrite filter_app, filter_cons_True, filter_nil, last_snoc by assumption. done.
  - by apply last_None in E as ->.
Qed.

(** The links after [x] on its level. *)
Lemma linked_from sl lh pre suf x j :
  wf sl lh (pre ++ suf) -> at_end pre x -> (x = head_ \/ (j < lh x)%nat) -> (j < kMaxHeight)%nat ->
  linked sl j x (chain lh j suf).
Proof.
  intros Hwf Hx Hj Hk. pose proof (wf_linked _ _ _ Hwf j Hk) as Hl. unfold chain in Hl.
  rewrite filter_app in Hl. apply linked_app in Hl. rewrite (chain_end lh j pre x); [exact Hl|done|done|].
  pose proof (wf_nodes _ _ _ Hwf) as Hn. apply Forall_app in Hn as [Hn _].
  eapply Forall_impl; [exact Hn|]. by intros p [].
Qed.

Lemma chain_cons_inv lh j l y r :
  chain lh j l = y :: r ->
  exists l1 l2, l = l1 ++ y :: l2 /\ chain lh j l1 = [] /\ chain lh j l2 = r /\ (j < lh y)%nat.
Proof.
  unfold chain. induction l as [|x l IH]; [done|]. rewrite filter_cons. case_decide.
  - intros [= -> <-]. by exists [], l.
  - intros E. destruct (IH E) as (l1 & l2 & -> & E1 & E2 & Hy). exists (x :: l1), l2.
    rewrite filter_cons_False by assumption. done.
Qed.

Lemma chain_nil_inv lh j l : chain lh j l = [] -> forall p, p ∈ l -> (lh p <= j)%nat.
Proof.
  intros E p Hp. destruct (Nat.le_gt_cases (lh p) j) as [|Hlt]; [done|]. exfalso.
  apply (not_elem_of_nil p). rewrite <- E. by apply list_elem_of_filter.
Qed.

Lemma Forall_chain (P : nat -> Prop) lh j l : Forall P l -> Forall P (chain lh j l).
Proof.
  rewrite !Forall_forall. intros HP p Hp. apply list_elem_of_filter in Hp as [_ Hp]. auto.
Qed.

Lemma chain_0 sl lh l : Forall (node_ok sl lh) l -> chain lh 0 l = l.
Proof.
  unfold chain. induction 1 as [|p l Hp _ IH]; [done|]. destruct Hp.
  rewrite filter_cons_True by lia. by rewrite IH.
Qed.

(** ** Lemmas: the search *)

(** [advance] holds of exactly the nodes whose key satisfies [P]; [P] is closed
    downwards along the list. *)
Definition advances (sl : t K) (advance : option nat -> bool) (P : nat -> Prop) (l : list nat) : Prop :=
  advance None = false /\ (forall p, p ∈ l -> advance (Some p) = true <-> P p) /\
  (forall l1 p l2 q, l = l1 ++ p :: l2 -> P p -> q ∈ l1 -> P q).

(** The reader's position: [x] ends the prefix [pre] of the list and everything
    in [pre] satisfies [P]; [x] is linked at the current level. *)
Record searching (lh : nat -> nat) (l : list nat) (P : nat -> Prop) (x level : nat) (pre suf : list nat)
    : Prop := {
  s_split : l = pre ++ suf;
  s_end : at_end pre x;
  s_pre : Forall P pre;
  s_level : x = head_ \/ (level < lh x)%nat;
  s_bound : (level < kMaxHeight)%nat
}.

(** What [prev[level]] holds: the last node of the level's list that satisfies
    [P], every later node of the level failing it. *)
Definition prev_at (lh : nat -> nat) (l : list nat) (P : nat -> Prop) (j x : nat) : Prop :=
  exists c1 c2, chain lh j l = c1 ++ c2 /\ at_end c1 x /\ Forall P c1 /\ Forall (fun p => ~ P p) c2.

Definition record (level x : nat) (prev : option (list (option nat))) :=
  (fun p => <[level := Some x]> p) <$> prev.

(** One step: move along the level, or record [prev] and go down or stop. *)
Lemma search_step_spec sl lh l advance P x level pre suf prev :
  wf sl lh l -> advances sl advance P l -> searching lh l P x level pre suf ->
  (exists y s1 s2, suf = s1 ++ y :: s2 /\
     search_step sl advance (x, level, prev) = inr (y, level, prev) /\
     searching lh l P y level (pre ++ s1 ++ [y]) s2) \/
  (prev_at lh l P level x /\
     search_step sl advance (x, level, prev) =
     match level with
     | O => inl (x, head suf, record level x prev)
     | S level' => inr (x, level', record level x prev)
     end /\ (level = O -> Forall (fun p => ~ P p) suf)).
Proof.
  intros Hwf (Ha0 & Ha & Hdown) [-> Hend Hpre Hlev Hb].
  pose proof (linked_from _ _ _ _ _ _ Hwf Hend Hlev Hb) as Hl. unfold search_step.
  assert (forall p, p ∈ pre -> p <> head_) as Hnh.
  { intros p Hp. pose proof (wf_nodes _ _ _ Hwf) as Hn. rewrite Forall_forall in Hn.
    apply (Hn p). apply elem_of_app. by left. }
  assert (chain lh level (pre ++ suf) = chain lh level pre ++ chain lh level suf) as Hch
    by apply filter_app.
  assert (at_end (chain lh level pre) x) as Hce.
  { apply chain_end; [done..|]. by apply Forall_forall. }
  assert (Forall P (chain lh level pre)) as Hcp by (by apply Forall_chain).
  destruct (chain lh level suf) as [|y r] eqn:E; simpl in Hl.
  - right. rewrite Hl, Ha0. split; [by eexists _, _|].
    destruct level; [|done]. pose proof (chain_nil_inv _ _ _ E) as Hn0.
    assert (suf = []) as ->; [|done]. destruct suf as [|p suf]; [done|].
    specialize (Hn0 p ltac:(left)). pose proof (wf_nodes _ _ _ Hwf) as Hn.
    apply Forall_app in Hn as [_ Hn]. apply Forall_cons in Hn as [[] _]. lia.
  - destruct Hl as [Hnext _]. rewrite Hnext.
    apply chain_cons_inv in E as (s1 & s2 & Hsuf & E1 & E2 & Hy).
    assert (y ∈ pre ++ suf) as Hin.
    { rewrite Hsuf. apply elem_of_app. right. apply elem_of_app. right. left. }
    destruct (advance (Some y)) eqn:Ead.
    + left. exists y, s1, s2. split_and!; [done..|]. apply Ha in Ead; [|done].
      split; [|by rewrite app_assoc; apply at_end_snoc| |by right|done].
      * by rewrite Hsuf, <- !app_assoc.
      * apply Forall_app. split; [done|]. apply Forall_app. split; [|by constructor].
        apply Forall_forall. intros q Hq. eapply (Hdown (pre ++ s1) y s2 q); [|done|].
        -- by rewrite Hsuf, <- app_assoc.
        -- apply elem_of_app. by right.
    + assert (~ P y) as HnP by (intros HP; apply Ha in HP; [congruence|done]).
      assert (forall q, q ∈ s2 -> ~ P q) as Hn2.
      { intros q Hq HP. apply list_elem_of_split in Hq as (m1 & m2 & ->).
        apply HnP. eapply (Hdown (pre ++ s1 ++ y :: m1) q m2 y); [|done|].
        - rewrite Hsuf, <- !app_assoc. done.
        - apply elem_of_app. right. apply elem_of_app. right. left. }
      right. split.
      { eexists _, _. split_and!; [exact Hch|done..|]. apply Forall_cons. split; [done|].
        rewrite <- E2. apply Forall_chain, Forall_forall. done. }
      destruct level; [|done].
      assert (s1 = []) as ->.
      { destruct s1 as [|p s1]; [done|]. pose proof (chain_nil_inv _ _ _ E1 p ltac:(left)).
        pose proof (wf_nodes _ _ _ Hwf) as Hn. rewrite Hsuf in Hn.
        apply Forall_app in Hn as [_ Hn]. apply Forall_cons in Hn as [[] _]. lia. }
      subst suf. split; [done|]. intros _. apply Forall_cons. split; [done|]. by apply Forall_forall.
Qed.
(** [prev] is filled on the levels from 0 to [level]. *)
Definition prev_filled (lh : nat -> nat) (l : list nat) (P : nat -> Prop) (level : nat)
    (prev prev' : list (option nat)) : Prop :=
  length prev' = length prev /\
  (forall j, (j <= level < length prev)%nat ->
     exists x, prev' !! j = Some (Some x) /\ prev_at lh l P j x) /\
  (forall j, (level < j)%nat -> prev' !! j = prev !! j).

(** What a finished search returns. *)
Record found (lh : nat -> nat) (l : list nat) (P : nat -> Prop) (level : nat) (prev : option (list (option nat)))
    (r : nat * option nat * option (list (option nat))) (pre suf : list nat) : Prop := {
  f_split : l = pre ++ suf;
  f_pre : Forall P pre;
  f_suf : Forall (fun p => ~ P p) suf;
  f_end : at_end pre (fst (fst r));
  f_next : snd (fst r) = head suf;
  f_prev : match prev, snd r with
           | Some prev, Some prev' => prev_filled lh l P level prev prev'
           | None, None => True
           | _, _ => False
           end
}.

Lemma search_spec sl lh l advance P :
  wf sl lh l -> advances sl advance P l ->
  forall fuel x level pre suf prev,
  searching lh l P x level pre suf -> (length suf + level < fuel)%nat ->
  exists r pre' suf', search fuel sl advance (x, level, prev) = Some r /\
    found lh l P level prev r pre' suf'.
Proof.
  intros Hwf Hadv. induction fuel as [|fuel IH]; intros x level pre suf prev Hs Hf; [lia|].
  cbn [search].
  destruct (search_step_spec _ _ _ _ _ _ _ _ _ prev Hwf Hadv Hs)
    as [(y & s1 & s2 & -> & -> & Hs')|(Hp & -> & Hend)].
  - apply (IH y level (pre ++ s1 ++ [y]) s2 prev Hs').
    rewrite length_app in Hf. simpl in Hf. lia.
  - destruct level as [|level].
    + exists (x, head suf, record 0 x prev), pre, suf. split; [done|].
      destruct Hs. split; auto. destruct prev as [prev|]; [|done]. simpl.
      split_and!; [by len| |].
      * intros j Hj. assert (j = O) as -> by lia. exists x. split; [|done].
        by rewrite list_lookup_insert_eq by lia.
      * intros j Hj. by rewrite list_lookup_insert_ne by lia.
    + destruct Hs as [? ? ? Hlev ?].
      destruct (IH x level pre suf (record (S level) x prev)) as (r & pre' & suf' & -> & Hr).
      { split; try done; [|lia]. destruct Hlev; [by left|right; lia]. }
      { lia. }
      exists r, pre', suf'. split; [done|]. destruct Hr as [? ? ? ? ? Hprev]. split; try done.
      destruct prev as [prev|]; [|done]. simpl in Hprev. destruct (snd r) as [prev'|]; [|done].
      destruct Hprev as (Hl & Hlo & Hhi). rewrite length_insert in *. split_and!; [done| |].
      * intros j Hj. destruct (Nat.eq_dec j (S level)) as [->|]; [|apply Hlo; lia].
        exists x. rewrite Hhi, list_lookup_insert_eq by lia. done.
      * intros j Hj. rewrite Hhi, list_lookup_insert_ne by lia. done.
Qed.

(** From the head, at any level: the fuel is enough. *)
Lemma NoDup_wf sl lh l : wf sl lh l -> NoDup l.
Proof.
  intros Hwf. pose proof (wf_sorted _ _ _ Hwf) as Hs. pose proof (wf_nodes _ _ _ Hwf) as Hn.
  clear Hwf. induction Hs as [|p l Hs IH Hp]; constructor.
  - intros Hin. rewrite Forall_forall in Hp. specialize (Hp p Hin). unfold key_lt in Hp.
    apply Forall_cons in Hn as [[_ _ _ Hv] _]. pose proof (order_antisym _ _ Hv Hv). lia.
  - apply IH. by apply Forall_cons in Hn as [_ Hn].
Qed.

Lemma wf_length sl lh l : wf sl lh l -> (length l < length (nodes sl))%nat.
Proof.
  intros Hwf. pose proof (NoDup_wf _ _ _ Hwf) as Hnd. pose proof (wf_nodes _ _ _ Hwf) as Hn.
  rewrite Forall_forall in Hn. destruct (wf_head _ _ _ Hwf) as (hd & Hh & _).
  assert (NoDup (head_ :: l)) as Hnd'.
  { constructor; [|done]. intros Hin. by apply (Hn head_ Hin). }
  assert (head_ :: l ⊆+ seq 0 (length (nodes sl))) as Hsub.
  { apply NoDup_submseteq; [done|]. intros p Hp. apply elem_of_seq. split; [lia|].
    apply elem_of_cons in Hp as [->|Hp]; [by eapply lookup_lt_Some|].
    destruct (Hn p Hp) as [(nd & Hnd2 & _) _ _ _]. by eapply lookup_lt_Some. }
  apply submseteq_length in Hsub. rewrite length_seq in Hsub. simpl in Hsub. lia.
Qed.

Lemma search_from_head_spec sl lh l advance P prev :
  wf sl lh l -> advances sl advance P l ->
  exists r pre suf, search_from_head sl advance prev = Some r /\
    found lh l P (max_height_ sl - 1) prev r pre suf.
Proof.
  intros Hwf Ha. pose proof (wf_height _ _ _ Hwf). pose proof (wf_length _ _ _ Hwf).
  apply (search_spec _ _ _ _ _ Hwf Ha _ head_ _ [] l); [|unfold search_fuel, GetMaxHeight; lia].
  split; try done; [by left|unfold GetMaxHeight; lia].
Qed.
(** ** Lemmas: stores *)

Lemma Next_SetNext_ne (sl : t K) p i v q j :
  (q <> p \/ j <> i) -> Next (SetNext sl p i v) q j = Next sl q j.
Proof.
  intros Hne. unfold Next, SetNext. simpl. destruct (Nat.eq_dec q p) as [->|].
  - rewrite list_lookup_alter_eq. destruct (nodes sl !! p); [|done]. simpl.
    destruct Hne; [done|]. by rewrite list_lookup_insert_ne by done.
  - by rewrite list_lookup_alter_ne by done.
Qed.

Lemma Next_SetNext_eq (sl : t K) p i v nd :
  nodes sl !! p = Some nd -> (i < length (next_ nd))%nat -> Next (SetNext sl p i v) p i = v.
Proof.
  intros Hn Hi. unfold Next, SetNext. simpl. rewrite list_lookup_alter_eq, Hn. simpl.
  by rewrite list_lookup_insert_eq by done.
Qed.

(** Stores leave keys, heights and everything else of the heap alone. *)
Record same_shape (sl sl' : t K) : Prop := {
  sh_height : max_height_ sl' = max_height_ sl;
  sh_rnd : rnd_ sl' = rnd_ sl;
  sh_len : length (nodes sl') = length (nodes sl);
  sh_nodes : forall p nd, nodes sl !! p = Some nd ->
    exists nd', nodes sl' !! p = Some nd' /\ key nd' = key nd /\ length (next_ nd') = length (next_ nd)
}.

Lemma same_shape_SetNext sl p i v : same_shape sl (SetNext sl p i v).
Proof.
  split; [done..|by simpl; rewrite length_alter|]. intros q nd Hq. simpl.
  destruct (Nat.eq_dec q p) as [->|].
  - rewrite list_lookup_alter_eq, Hq. simpl. eexists. split_and!; [done..|]. apply length_insert.
  - rewrite list_lookup_alter_ne by done. eauto.
Qed.

Lemma same_shape_trans a b c : same_shape a b -> same_shape b c -> same_shape a c.
Proof.
  intros [] [Hh Hr Hl Hn]. split; [congruence..|]. intros p nd Hp.
  destruct (sh_nodes0 p nd Hp) as (nd1 & Ha & ? & ?). destruct (Hn p nd1 Ha) as (nd2 & Hb & ? & ?).
  exists nd2. split_and!; congruence.
Qed.

Lemma same_shape_key sl sl' p : same_shape sl sl' -> node_key sl' p = node_key sl p.
Proof.
  intros [_ _ Hl Hn]. unfold SkipList.node_key. destruct (nodes sl !! p) as [nd|] eqn:E.
  - destruct (Hn p nd E) as (nd' & -> & -> & _). done.
  - apply lookup_ge_None in E. rewrite <- Hl in E. by apply lookup_ge_None in E as ->.
Qed.

Lemma wf_shape sl sl' lh l :
  wf sl lh l -> same_shape sl sl' ->
  (forall j, (j < kMaxHeight)%nat -> linked sl' j head_ (chain lh j l)) -> wf sl' lh l.
Proof.
  intros [(hd & Hhd & Hhl) ? ? Hn Hs _] Hsh Hlk. pose proof Hsh as [Eh Er _ Hnd].
  split; [| by rewrite Eh| by rewrite Er | | |done].
  - destruct (Hnd head_ hd Hhd) as (hd' & ? & _ & ?). exists hd'. split; [done|congruence].
  - eapply Forall_impl; [exact Hn|]. intros p [(nd & Hp & Hle) ? ? ?].
    split; [|by rewrite Eh|done|by rewrite (same_shape_key sl)].
    destruct (Hnd p nd Hp) as (nd' & ? & _ & ?). exists nd'. split; [done|congruence].
  - clear -Hs Hsh. induction Hs as [|p l Hs IH Hp]; constructor; [done|].
    eapply Forall_impl; [exact Hp|]. intros q. unfold key_lt.
    by rewrite !(same_shape_key sl sl') by done.
Qed.

Lemma linked_ext (sl sl' : t K) j c : forall x,
  (forall p, p ∈ x :: c -> Next sl' p j = Next sl p j) -> linked sl j x c -> linked sl' j x c.
Proof.
  induction c as [|y c IH]; intros x He; simpl; rewrite He by left; [done|].
  intros [E Hl]. split; [done|]. apply IH; [|done]. intros p Hp. apply He. by right.
Qed.

Lemma linked_SetNext_other sl p i v j x c :
  (j <> i \/ p ∉ x :: c) -> linked sl j x c -> linked (SetNext sl p i v) j x c.
Proof.
  intros Hne. apply linked_ext. intros q Hq. apply Next_SetNext_ne.
  destruct Hne as [|Hne]; [by right|left]. congruence.
Qed.

(** The store that publishes [x] after [p] on one level. *)
Lemma linked_publish sl i x c1 c2 nd : forall h,
  let p := default h (last c1) in
  nodes sl !! p = Some nd -> (i < length (next_ nd))%nat ->
  NoDup (h :: c1 ++ c2) -> x ∉ h :: c1 ++ c2 ->
  linked sl i h (c1 ++ c2) -> linked sl i x c2 ->
  linked (SetNext sl p i (Some x)) i h (c1 ++ x :: c2).
Proof.
  induction c1 as [|y c1 IH]; intros h p Hp Hi Hnd Hx Hl Hlx; subst p; simpl in *.
  - split; [by eapply Next_SetNext_eq|]. apply linked_SetNext_other; [|done]. right.
    apply NoDup_cons in Hnd as [Hnd _]. intros Hin. apply elem_of_cons in Hin as [->|Hin]; [|done].
    apply Hx. left.
  - destruct Hl as [E Hl]. apply NoDup_cons in Hnd as [Hh Hnd].
    assert (default h (last (y :: c1)) = default y (last c1)) as Elast.
    { destruct c1 as [|z c1]; [done|]. rewrite last_cons_cons.
      destruct (last (z :: c1)) eqn:El; [done|]. by apply last_None in El. }
    rewrite Elast in *. assert (default y (last c1) ∈ y :: c1) as Hin.
    { destruct (last c1) as [z|] eqn:El; [|left]. right. by apply last_Some_elem_of. }
    split.
    + rewrite Next_SetNext_ne; [done|]. left. intros ->. apply Hh.
      rewrite <- Elast in *. apply elem_of_cons in Hin as [->|Hin]; [left|].
      right. apply elem_of_app. by left.
    + apply IH; try done. intros Hin'. apply Hx. by right.
Qed.
(** ** Lemmas: the heaps of [Insert] *)

(** A later heap keeps every node, its key and its links' extent. *)
Definition extends (sl : t K) (lh : nat -> nat) (l : list nat)
    (sl' : t K) (lh' : nat -> nat) (l' : list nat) : Prop :=
  (length (nodes sl) <= length (nodes sl'))%nat /\
  forall p, p ∈ l -> p ∈ l' /\ (lh p <= lh' p)%nat /\ node_key sl' p = node_key sl p.

(** A sequence of well-formed heaps, each extending the one before, whose
    contents satisfy [Q]. *)
Inductive run (Q : list K -> Prop) :
    t K -> (nat -> nat) -> list nat -> list (t K) -> t K -> (nat -> nat) -> list nat -> Prop :=
| run_nil sl lh l : run Q sl lh l [] sl lh l
| run_cons sl lh l sl1 lh1 l1 tr sl2 lh2 l2 :
    wf sl1 lh1 l1 -> Q (map (node_key sl1) l1) -> extends sl lh l sl1 lh1 l1 ->
    run Q sl1 lh1 l1 tr sl2 lh2 l2 -> run Q sl lh l (sl1 :: tr) sl2 lh2 l2.

Lemma extends_shape sl sl' lh l : same_shape sl sl' -> extends sl lh l sl' lh l.
Proof.
  intros Hsh. split; [by rewrite (sh_len _ _ Hsh)|]. intros p Hp.
  split_and!; [done..|]. by apply same_shape_key.
Qed.

Lemma map_shape sl sl' l : same_shape sl sl' -> map (node_key sl') l = map (node_key sl) l.
Proof. intros Hsh. apply map_ext. intros p. by apply same_shape_key. Qed.

(** [x] linked on [i] levels. *)
Definition upd (lh : nat -> nat) (x i : nat) (p : nat) : nat := if (p =? x)%nat then i else lh p.

Lemma chain_upd lh x i j l : x ∉ l -> chain (upd lh x i) j l = chain lh j l.
Proof.
  intros Hx. unfold chain. induction l as [|p l IH]; [done|].
  assert (p <> x /\ x ∉ l) as [Hp Hl] by (split; [intros ->; apply Hx; left|intros ?; apply Hx; by right]).
  assert (upd lh x i p = lh p) as E by (unfold upd; by rewrite (proj2 (Nat.eqb_neq p x))).
  rewrite !filter_cons, IH by done. destruct (decide (j < lh p)%nat), (decide (j < upd lh x i p)%nat); lia || done.
Qed.

Lemma chain_mid lh x i j pre suf : x ∉ pre ++ suf ->
  chain (upd lh x i) j (pre ++ x :: suf) =
  chain lh j pre ++ (if (j <? i)%nat then [x] else []) ++ chain lh j suf.
Proof.
  intros Hx. rewrite elem_of_app in Hx. unfold chain. rewrite filter_app, filter_cons.
  fold (chain (upd lh x i) j pre) (chain (upd lh x i) j suf).
  rewrite !chain_upd by tauto.
  assert (upd lh x i x = i) as E by (unfold upd; by rewrite Nat.eqb_refl).
  case_decide; destruct (Nat.ltb_spec j i); try lia; done.
Qed.

Lemma split_unique (P : nat -> Prop) (a b c d : list nat) :
  a ++ b = c ++ d -> Forall P a -> Forall P c -> Forall (fun p => ~ P p) b -> Forall (fun p => ~ P p) d ->
  a = c /\ b = d.
Proof.
  revert c. induction a as [|x a IH]; intros [|y c] E Ha Hc Hb Hd; simpl in *; [done| | |].
  - subst b. apply Forall_cons in Hc as [? _]. by apply Forall_cons in Hb as [? _].
  - subst d. apply Forall_cons in Ha as [? _]. by apply Forall_cons in Hd as [? _].
  - injection E as -> E. apply Forall_cons in Ha as [_ Ha]. apply Forall_cons in Hc as [_ Hc].
    by destruct (IH c E Ha Hc Hb Hd) as [-> ->].
Qed.

Lemma prev_at_end lh P j pre suf y :
  Forall P pre -> Forall (fun p => ~ P p) suf -> prev_at lh (pre ++ suf) P j y ->
  at_end (chain lh j pre) y.
Proof.
  intros Hp Hs (c1 & c2 & E & Hend & H1 & H2). unfold chain in E. rewrite filter_app in E.
  apply split_unique with (P := P) in E as [<- _]; auto; by apply Forall_chain.
Qed.

Lemma RandomHeight_loop_spec room : forall height seed,
  Random.seed_ok seed ->
  (height <= fst (RandomHeight_loop room height seed) <= height + room)%nat /\
  Random.seed_ok (snd (RandomHeight_loop room height seed)).
Proof.
  induction room as [|room IH]; intros height seed Hs; cbn [RandomHeight_loop fst snd];
    [split; [lia|assumption]|].
  pose proof (proj2 (Random.Next_mod seed Hs)) as Hs'.
  destruct (_ =? 0); cbn [fst snd]; [|split; [lia|assumption]].
  destruct (IH (S height) _ Hs'). split; [lia|assumption].
Qed.

Lemma RandomHeight_spec sl lh l :
  wf sl lh l -> exists height seed, RandomHeight sl = (height, set_rnd sl seed) /\
    (1 <= height <= kMaxHeight)%nat /\ wf (set_rnd sl seed) lh l.
Proof.
  intros Hwf. unfold RandomHeight.
  remember (kMaxHeight - 1)%nat as room eqn:Hroom.
  pose proof (RandomHeight_loop_spec room 1 _ (wf_seed _ _ _ Hwf)) as [Hh Hs].
  destruct (RandomHeight_loop room 1 (rnd_ sl)) as [height seed].
  cbn [fst snd] in *. exists height, seed.
  split; [done|]. split; [unfold kMaxHeight in *; lia|]. destruct Hwf as [? ? ? Hn ? Hl].
  split; try done; [eapply Forall_impl; [exact Hn|]; by intros p []|].
  intros j Hj. by apply (linked_ext sl), Hl.
Qed.

Lemma set_max_height_wf sl lh l h :
  wf sl lh l -> (max_height_ sl <= h <= kMaxHeight)%nat -> wf (set_max_height sl h) lh l.
Proof.
  intros [? ? ? Hn ? Hl] Hh. split; try done; [simpl; lia| |].
  - eapply Forall_impl; [exact Hn|]. intros p []. split; try done. simpl. lia.
  - intros j Hj. by apply (linked_ext sl), Hl.
Qed.

Lemma fill_prev_spec n : forall i prev j,
  fill_prev n i prev !! j =
    if ((i <=? j) && (j <? i + n) && (j <? length prev))%nat then Some (Some head_) else prev !! j.
Proof.
  induction n as [|n IH]; intros i prev j; simpl.
  - destruct (Nat.leb_spec i j), (Nat.ltb_spec j (i + 0)); simpl; try done; lia.
  - rewrite IH, length_insert. destruct (Nat.eq_dec i j) as [->|].
    + rewrite (proj2 (Nat.leb_gt (S j) j)), Nat.leb_refl, (proj2 (Nat.ltb_lt j (j + S n))) by lia. simpl.
      destruct (Nat.ltb_spec j (length prev)); [by rewrite list_lookup_insert_eq|].
      by rewrite list_insert_ge by lia.
    + rewrite list_lookup_insert_ne by done.
      replace (S i <=? j)%nat with (i <=? j)%nat; [by replace (i + S n)%nat with (S i + n)%nat by lia|].
      destruct (Nat.leb_spec i j), (Nat.leb_spec (S i) j); lia.
Qed.
(** *** The linking loop *)

Section Link.
Context (base : t K) (lh : nat -> nat) (pre suf : list nat) (x height : nat) (k : K)
  (prev : list (option nat)).
Hypothesis base_wf : wf base lh (pre ++ suf).
Hypothesis new_node : nodes base !! x = Some {| key := k; next_ := replicate height None |}.
Hypothesis fresh : x ∉ head_ :: pre ++ suf.
Hypothesis key_valid : valid k.
Hypothesis below : forall p, p ∈ pre -> compare_ (node_key base p) k < 0.
Hypothesis above : forall p, p ∈ suf -> compare_ k (node_key base p) < 0.
Hypothesis height_ok : (1 <= height <= max_height_ base)%nat.
Hypothesis prev_ok : forall j, (j < height)%nat ->
  exists y, prev !! j = Some (Some y) /\ at_end (chain lh j pre) y.

(** [x] is linked on the levels below [i]. *)
Definition partial (s : t K) (i : nat) : Prop :=
  same_shape base s /\
  forall j, (j < kMaxHeight)%nat -> linked s j head_ (chain (upd lh x i) j (pre ++ x :: suf)).

Definition visible (i : nat) : list nat := pre ++ (if (i =? 0)%nat then [] else [x]) ++ suf.

Lemma fresh_mid : x ∉ pre ++ suf.
Proof. intros Hin. apply fresh. by right. Qed.

Lemma chain_visible i j : chain (upd lh x i) j (pre ++ x :: suf) = chain (upd lh x i) j (visible i).
Proof.
  unfold visible. destruct (Nat.eqb_spec i 0) as [->|]; [|done]. rewrite chain_mid by apply fresh_mid.
  simpl. rewrite (chain_upd lh x 0 j (pre ++ suf)) by apply fresh_mid. unfold chain. by rewrite filter_app.
Qed.

Lemma base_node_ok p : p ∈ pre ++ suf -> node_ok base lh p.
Proof. pose proof (wf_nodes _ _ _ base_wf) as Hn. rewrite Forall_forall in Hn. apply Hn. Qed.

Lemma new_key : node_key base x = k.
Proof. unfold SkipList.node_key. by rewrite new_node. Qed.

Lemma visible_sorted i : StronglySorted (key_lt base) (visible i).
Proof.
  pose proof (wf_sorted _ _ _ base_wf) as Hs. apply StronglySorted_app in Hs as (Hc & Hp & Hsf).
  unfold visible. apply StronglySorted_app_2; [|done|].
  - intros p q Hip Hiq. apply elem_of_app in Hiq as [Hiq|Hiq]; [|by apply Hc].
    destruct (i =? 0)%nat; [by apply not_elem_of_nil in Hiq|]. apply list_elem_of_singleton in Hiq as ->.
    unfold key_lt. rewrite new_key. by apply below.
  - apply StronglySorted_app_2; [|destruct (i =? 0)%nat; repeat constructor|done].
    intros p q Hip Hiq. destruct (i =? 0)%nat; [by apply not_elem_of_nil in Hip|].
    apply list_elem_of_singleton in Hip as ->. unfold key_lt. rewrite new_key. by apply above.
Qed.

Lemma partial_wf s i : (i <= height)%nat -> partial s i -> wf s (upd lh x i) (visible i).
Proof.
  intros Hi [Hsh Hl]. assert (wf base lh (pre ++ suf)) as [Hhd Hmh Hsd _ _ _] by apply base_wf.
  pose proof Hsh as [Eh Er _ Hnd]. split; [|by rewrite Eh|by rewrite Er| | |].
  - destruct Hhd as (hd & E & El). destruct (Hnd _ _ E) as (hd' & ? & _ & ?). exists hd'. split; [done|congruence].
  - apply Forall_forall. intros p Hp. destruct (Nat.eq_dec p x) as [->|Hne].
    + assert (i <> 0)%nat as Hi0.
      { intros ->. unfold visible in Hp. simpl in Hp. by apply fresh_mid. }
      assert (upd lh x i x = i) as Eu by (unfold upd; by rewrite Nat.eqb_refl).
      split; rewrite ?Eu, ?Eh; [|lia| |].
      * destruct (Hnd _ _ new_node) as (nd' & ? & _ & E). exists nd'. split; [done|].
        rewrite E. simpl. by rewrite length_replicate.
      * intros E. apply fresh. rewrite E. left.
      * rewrite (same_shape_key base), new_key by done. done.
    + assert (p ∈ pre ++ suf) as Hin.
      { unfold visible in Hp. rewrite !elem_of_app in *. destruct Hp as [?|[Hp|?]]; [by left| |by right].
        destruct (i =? 0)%nat; [by apply not_elem_of_nil in Hp|].
        by apply list_elem_of_singleton in Hp. }
      assert (upd lh x i p = lh p) as Eu by (unfold upd; by rewrite (proj2 (Nat.eqb_neq p x))).
      destruct (base_node_ok p Hin) as [(nd & E & ?) ? ? ?].
      split; rewrite ?Eu, ?Eh; [|done..|by rewrite (same_shape_key base)].
      destruct (Hnd _ _ E) as (nd' & ? & _ & El). exists nd'. split; [done|lia].
  - pose proof (visible_sorted i) as Hs. clear -Hs Hsh.
    induction Hs as [|p l Hs IH Hp]; constructor; [done|].
    eapply Forall_impl; [exact Hp|]. intros q. unfold key_lt.
    by rewrite !(same_shape_key base s) by done.
  - intros j Hj. rewrite <- chain_visible. by apply Hl.
Qed.

(** First store: the new node's own link, not yet reachable on this level. *)
Lemma partial_prepare s i v : partial s i -> partial (SetNext s x i v) i.
Proof.
  intros [Hsh Hl]. split; [eapply same_shape_trans; [done|apply same_shape_SetNext]|].
  intros j Hj. apply linked_SetNext_other; [|by apply Hl].
  destruct (Nat.eq_dec j i) as [->|]; [right|by left]. rewrite chain_mid by apply fresh_mid.
  rewrite Nat.ltb_irrefl. simpl. unfold chain. rewrite <- filter_app.
  intros Hin. apply fresh. apply elem_of_cons in Hin as [->|Hin]; [left|right].
  by apply list_elem_of_filter in Hin as [_ ?].
Qed.

Lemma end_slot i y : (i < height)%nat -> at_end (chain lh i pre) y ->
  exists nd, nodes base !! y = Some nd /\ (i < length (next_ nd))%nat.
Proof.
  intros Hi ->. destruct (last (chain lh i pre)) as [y|] eqn:E; simpl.
  - apply last_Some_elem_of, list_elem_of_filter in E as [Hy Hin].
    destruct (base_node_ok y ltac:(apply elem_of_app; by left)) as [(nd & ? & ?) _ _ _].
    exists nd. split; [done|lia].
  - destruct (wf_head _ _ _ base_wf) as (nd & ? & El). exists nd. split; [done|].
    pose proof (wf_height _ _ _ base_wf). lia.
Qed.

(** Second store: the node before it on this level points to it. *)
Lemma partial_publish s i y :
  (i < height)%nat -> at_end (chain lh i pre) y -> partial s i ->
  partial (SetNext (SetNext s x i (Next s y i)) y i (Some x)) (S i).
Proof.
  intros Hi Hy Hs. pose proof (partial_prepare s i (Next s y i) Hs) as [Hsh1 Hl1].
  destruct Hs as [Hsh Hl]. split; [eapply same_shape_trans; [done|apply same_shape_SetNext]|].
  pose proof (wf_height _ _ _ base_wf). intros j Hj. rewrite chain_mid by apply fresh_mid.
  specialize (Hl1 j Hj). rewrite chain_mid in Hl1 by apply fresh_mid.
  destruct (Nat.eq_dec j i) as [->|Hne].
  2: { apply linked_SetNext_other; [by left|]. revert Hl1.
       destruct (Nat.ltb_spec j i), (Nat.ltb_spec j (S i)); try lia; done. }
  rewrite (proj2 (Nat.ltb_lt i (S i))) by lia. rewrite Nat.ltb_irrefl in Hl1. simpl in Hl1.
  destruct (end_slot i y Hi Hy) as (nd & Hnd & Hslot).
  destruct (sh_nodes _ _ Hsh1 _ _ Hnd) as (nd1 & Hnd1 & _ & El1).
  assert (x ∉ head_ :: chain lh i pre ++ chain lh i suf) as Hx.
  { unfold chain. rewrite <- filter_app. intros Hin. apply fresh.
    apply elem_of_cons in Hin as [->|Hin]; [left|right]. by apply list_elem_of_filter in Hin as [_ ?]. }
  rewrite Hy in *. apply (linked_publish _ _ _ _ _ nd1); try done; [lia| |].
  - unfold chain. rewrite <- filter_app. apply NoDup_cons. split.
    + intros Hin. apply list_elem_of_filter in Hin as [_ Hin]. by apply (base_node_ok _ Hin).
    + apply NoDup_filter, (NoDup_wf _ _ _ base_wf).
  - specialize (Hl i Hj). rewrite chain_mid, Nat.ltb_irrefl in Hl by apply fresh_mid. simpl in Hl.
    apply linked_app in Hl. destruct (sh_nodes _ _ Hsh _ _ new_node) as (ndx & Hndx & _ & Elx).
    simpl in Elx. rewrite length_replicate in Elx.
    assert (forall c, linked s i (default head_ (last (chain lh i pre))) c -> x ∉ c ->
      linked (SetNext s x i (Next s (default head_ (last (chain lh i pre))) i)) i x c) as Hmove.
    { intros [|z c] Hc Hxc; simpl in *.
      - erewrite Next_SetNext_eq; [done..|]. lia.
      - destruct Hc as [Hz Hc]. erewrite Next_SetNext_eq; [|done|lia]. split; [done|].
        apply linked_SetNext_other; [by right|done]. }
    apply Hmove; [done|]. intros Hin. apply Hx. right. apply elem_of_app. by right.
Qed.

Definition old_or_new (ks : list K) : Prop :=
  ks = map (node_key base) (pre ++ suf) \/
  ks = map (node_key base) pre ++ k :: map (node_key base) suf.

Lemma partial_keys s i : partial s i -> old_or_new (map (node_key s) (visible i)).
Proof.
  intros [Hsh _]. rewrite (map_shape base) by done. unfold visible, old_or_new.
  destruct (i =? 0)%nat; [by left|right]. rewrite !map_app. simpl. by rewrite new_key.
Qed.

Lemma link_spec n : forall i s, (i + n = height)%nat -> partial s i ->
  exists tr s', link n i s x prev = Some tr /\ partial s' height /\
    run old_or_new s (upd lh x i) (visible i) tr s' (upd lh x height) (visible height).
Proof.
  induction n as [|n IH]; intros i s Hi Hs.
  - assert (i = height) as -> by lia. exists [], s. split_and!; [done..|constructor].
  - destruct (prev_ok i ltac:(lia)) as (y & Hy & Hend). cbn [link]. rewrite Hy. cbn [mjoin option_join mbind option_bind].
    pose proof (partial_prepare s i (Next s y i) Hs) as H1.
    pose proof (partial_publish s i y ltac:(lia) Hend Hs) as H2.
    destruct (IH (S i) _ ltac:(lia) H2) as (tr & s' & -> & Hs' & Hrun). simpl.
    eexists _, s'. split; [done|]. split; [done|].
    eapply run_cons; [apply (partial_wf _ i); [lia|exact H1]|apply (partial_keys _ i), H1|
      apply extends_shape, same_shape_SetNext|].
    eapply run_cons; [apply (partial_wf _ (S i)); [lia|exact H2]|apply (partial_keys _ (S i)), H2| |exact Hrun].
    pose proof (same_shape_SetNext (SetNext s x i (Next s y i)) y i (Some x)) as Hsh.
    split; [by rewrite (sh_len _ _ Hsh)|]. intros p Hp. split_and!; [| |by apply same_shape_key].
    + revert Hp. unfold visible. change (S i =? 0)%nat with false. rewrite !elem_of_app.
      destruct (i =? 0)%nat; [|done]. intros [?|[Hp|?]]; [by left| |by do 2 right].
      by apply not_elem_of_nil in Hp.
    + unfold upd. destruct (p =? x)%nat; lia.
Qed.
End Link.

Lemma run_app Q sl lh l tr1 sl1 lh1 l1 tr2 sl2 lh2 l2 :
  run Q sl lh l tr1 sl1 lh1 l1 -> run Q sl1 lh1 l1 tr2 sl2 lh2 l2 ->
  run Q sl lh l (tr1 ++ tr2) sl2 lh2 l2.
Proof. induction 1; [done|]. intros. eapply run_cons; eauto. Qed.

Lemma run_last Q sl lh l tr sl' lh' l' :
  run Q sl lh l tr sl' lh' l' -> last (sl :: tr) = Some sl'.
Proof. induction 1; [done|]. by rewrite last_cons_cons. Qed.

(** *** The search of [Insert] *)

Lemma advances_key sl lh l k : wf sl lh l -> valid k ->
  advances sl (KeyIsAfterNode null_key compare_ sl k) (fun p => compare_ (node_key sl p) k < 0) l.
Proof.
  intros Hwf Hk. split_and!; [done|intros p _; apply Z.ltb_lt|].
  intros l1 p l2 q -> Hp Hq. pose proof (wf_nodes _ _ _ Hwf) as Hn. rewrite Forall_forall in Hn.
  pose proof (wf_sorted _ _ _ Hwf) as Hs.
  pose proof (StronglySorted_app_1_elem_of _ _ _ q p Hs Hq ltac:(left)) as Hlt.
  apply (order_lt_trans _ (node_key sl p)); [| |done..].
  - apply (Hn q). apply elem_of_app. by left.
  - apply (Hn p). apply elem_of_app. right. left.
Qed.

(** [prev] after the search and [fill_prev]. *)
Lemma prev_complete sl lh pre suf P prev prev' height :
  wf sl lh (pre ++ suf) -> Forall P pre -> Forall (fun p => ~ P p) suf ->
  length prev = kMaxHeight -> prev_filled lh (pre ++ suf) P (max_height_ sl - 1) prev prev' ->
  (height <= kMaxHeight)%nat ->
  forall j, (j < height)%nat ->
  exists y, raise_prev sl height prev' !! j = Some (Some y) /\ at_end (chain lh j pre) y.
Proof.
  unfold raise_prev, GetMaxHeight.
  intros Hwf Hp Hs Hlen (Hl & Hlo & _) Hh j Hj. pose proof (wf_height _ _ _ Hwf) as Hm.
  destruct (Nat.lt_ge_cases j (max_height_ sl)) as [Hlt|Hge].
  - destruct (Hlo j ltac:(lia)) as (y & Hy & Hat). exists y. split; [|by eapply prev_at_end].
    destruct (max_height_ sl <? height)%nat; [|done].
    rewrite fill_prev_spec, (proj2 (Nat.leb_gt _ _)) by lia. done.
  - rewrite (proj2 (Nat.ltb_lt (max_height_ sl) height)) by lia. rewrite fill_prev_spec.
    rewrite (proj2 (Nat.leb_le _ _)), !(proj2 (Nat.ltb_lt _ _)) by lia. exists head_. split; [done|].
    unfold at_end. assert (chain lh j pre = []) as ->; [|done].
    apply filter_none. intros p Hin. pose proof (wf_nodes _ _ _ Hwf) as Hn.
    rewrite Forall_forall in Hn. destruct (Hn p ltac:(apply elem_of_app; by left)). lia.
Qed.

Lemma NewNode_wf sl lh l k h : wf sl lh l -> wf (fst (NewNode sl k h)) lh l.
Proof.
  intros [(hd & Hhd & ?) ? ? Hn Hs Hl]. rewrite Forall_forall in Hn.
  assert (forall p nd, nodes sl !! p = Some nd -> nodes (fst (NewNode sl k h)) !! p = Some nd) as Hold.
  { intros p nd E. simpl. rewrite lookup_app_l; [done|]. by eapply lookup_lt_Some. }
  assert (forall p, p ∈ l -> node_key (fst (NewNode sl k h)) p = node_key sl p) as Hkey.
  { intros p Hp. destruct (Hn p Hp) as [(nd & E & _) _ _ _]. unfold SkipList.node_key.
    by rewrite (Hold _ _ E), E. }
  split; [by exists hd; rewrite (Hold _ _ Hhd)|done..| | |].
  - apply Forall_forall. intros p Hp. destruct (Hn p Hp) as [(nd & E & ?) ? ? ?].
    split; try done; [exists nd; by rewrite (Hold _ _ E)|]. by rewrite Hkey.
  - clear -Hs Hkey. induction Hs as [|p l Hs IH Hp]; constructor.
    + apply IH. intros q Hq. apply Hkey. by right.
    + apply Forall_forall. intros q Hq. rewrite Forall_forall in Hp. unfold key_lt.
      rewrite !Hkey by (by left || by right). by apply Hp.
  - intros j Hj. apply (linked_ext sl); [|by apply Hl]. intros p Hp. unfold Next.
    assert (exists nd, nodes sl !! p = Some nd) as (nd & E).
    { apply elem_of_cons in Hp as [->|Hp]; [by exists hd|].
      apply list_elem_of_filter in Hp as [_ Hp]. destruct (Hn p Hp) as [(nd & E & _) _ _ _]. by exists nd. }
    by rewrite (Hold _ _ E), E.
Qed.

(** ** The abstract list *)

Definition keys_below (k : K) (ks : list K) : list K := filter (fun a => compare_ a k < 0) ks.
Definition keys_from (k : K) (ks : list K) : list K := filter (fun a => ~ compare_ a k < 0) ks.
Definition sorted_insert (k : K) (ks : list K) : list K := keys_below k ks ++ k :: keys_from k ks.

Lemma filter_all (P : K -> Prop) `{!forall x, Decision (P x)} (l : list K) :
  (forall x, x ∈ l -> P x) -> filter P l = l.
Proof.
  induction l as [|x l IH]; intros Hn; [done|]. rewrite filter_cons_True by (apply Hn; left).
  f_equal. apply IH. intros y Hy. apply Hn. by right.
Qed.

Lemma keys_split sl k pre suf :
  Forall (fun p => compare_ (node_key sl p) k < 0) pre ->
  Forall (fun p => ~ compare_ (node_key sl p) k < 0) suf ->
  keys_below k (map (node_key sl) (pre ++ suf)) = map (node_key sl) pre /\
  keys_from k (map (node_key sl) (pre ++ suf)) = map (node_key sl) suf.
Proof.
  rewrite !Forall_forall. intros Hp Hs. unfold keys_below, keys_from. rewrite map_app, !filter_app.
  assert (forall (P : K -> Prop) l, (forall p, p ∈ l -> P (node_key sl p)) ->
    forall a, a ∈ map (node_key sl) l -> P a) as Hmap.
  { intros P l Hl a Ha. apply list_elem_of_fmap in Ha as (p & -> & Hin). by apply Hl. }
  split.
  - rewrite filter_all by (by apply (Hmap _ pre)).
    rewrite filter_none by (apply (Hmap (fun a => ~ compare_ a k < 0) suf); done). apply app_nil_r.
  - rewrite filter_none, filter_all; [done|by apply (Hmap _ suf)|].
    apply (Hmap (fun a => ~ ~ compare_ a k < 0) pre). intros p Hin. specialize (Hp p Hin). lia.
Qed.

Lemma extends_set_rnd sl lh l r : extends sl lh l (set_rnd sl r) lh l.
Proof. split; [done|]. done. Qed.

Lemma extends_NewNode sl lh l k h : wf sl lh l -> extends sl lh l (fst (NewNode sl k h)) lh l.
Proof.
  intros Hwf. split; [simpl; len|]. intros p Hp. split_and!; [done..|].
  pose proof (wf_nodes _ _ _ Hwf) as Hn. rewrite Forall_forall in Hn.
  destruct (Hn p Hp) as [(nd & E & _) _ _ _]. unfold SkipList.node_key. simpl.
  rewrite lookup_app_l by (by eapply lookup_lt_Some). done.
Qed.

Lemma map_NewNode sl lh l k h :
  wf sl lh l -> map (node_key (fst (NewNode sl k h))) l = map (node_key sl) l.
Proof.
  intros Hwf. destruct (extends_NewNode sl lh l k h Hwf) as [_ He].
  apply map_ext_in. intros p Hp. apply list_elem_of_In in Hp. by apply He.
Qed.

Lemma fresh_node sl lh l : wf sl lh l -> length (nodes sl) ∉ head_ :: l.
Proof.
  intros Hwf Hin. pose proof (wf_nodes _ _ _ Hwf) as Hn. rewrite Forall_forall in Hn.
  apply elem_of_cons in Hin as [E|Hin].
  - destruct (wf_head _ _ _ Hwf) as (hd & Hh & _). apply lookup_lt_Some in Hh. rewrite E in Hh. lia.
  - destruct (Hn _ Hin) as [(nd & E & _) _ _ _]. apply lookup_lt_Some in E. lia.
Qed.

(** The keys on either side of [k], none of them equal to it. *)
Lemma strictly_above sl lh l k p :
  wf sl lh l -> valid k -> (forall a, a ∈ map (node_key sl) l -> compare_ k a <> 0) -> p ∈ l ->
  ~ compare_ (node_key sl p) k < 0 -> compare_ k (node_key sl p) < 0.
Proof.
  intros Hwf Hk Hne Hp Hge. pose proof (wf_nodes _ _ _ Hwf) as Hn. rewrite Forall_forall in Hn.
  specialize (Hne (node_key sl p) ltac:(apply list_elem_of_fmap; eauto)).
  destruct (Hn p Hp) as [_ _ _ Hv]. pose proof (order_antisym _ _ Hk Hv). lia.
Qed.

Lemma raise_height_spec sl lh l height :
  wf sl lh l -> (height <= kMaxHeight)%nat ->
  wf (raise_height sl height) lh l /\ (height <= max_height_ (raise_height sl height))%nat /\
  nodes (raise_height sl height) = nodes sl.
Proof.
  intros Hwf Hh. unfold raise_height, GetMaxHeight.
  destruct (Nat.ltb_spec (max_height_ sl) height); [|done].
  split; [apply set_max_height_wf; [done|lia]|done].
Qed.

Lemma FindGreaterOrEqual_spec sl lh l k prev :
  wf sl lh l -> valid k ->
  exists pre suf r, FindGreaterOrEqual null_key compare_ sl k prev = Some (head suf, r) /\
    l = pre ++ suf /\
    Forall (fun p => compare_ (node_key sl p) k < 0) pre /\
    Forall (fun p => ~ compare_ (node_key sl p) k < 0) suf /\
    match prev, r with
    | Some prev, Some prev' =>
        prev_filled lh l (fun p => compare_ (node_key sl p) k < 0) (max_height_ sl - 1) prev prev'
    | None, None => True
    | _, _ => False
    end.
Proof.
  intros Hwf Hk. unfold FindGreaterOrEqual.
  destruct (search_from_head_spec sl lh l _ _ prev Hwf (advances_key sl lh l k Hwf Hk))
    as ([[x0 next] r] & pre & suf & -> & [Hl Hpre Hsuf _ Hn Hprev]).
  cbn [fst snd] in *. subst next. exists pre, suf, r. done.
Qed.

(** Allocating and linking the new node. *)
Lemma link_new sl lh pre suf k height prev :
  wf sl lh (pre ++ suf) -> valid k -> (1 <= height <= max_height_ sl)%nat ->
  (forall p, p ∈ pre -> compare_ (node_key sl p) k < 0) ->
  (forall p, p ∈ suf -> compare_ k (node_key sl p) < 0) ->
  (forall j, (j < height)%nat -> exists y, prev !! j = Some (Some y) /\ at_end (chain lh j pre) y) ->
  let new := map (node_key sl) pre ++ k :: map (node_key sl) suf in
  let sl3 := fst (NewNode sl k height) in
  exists tr sl' lh' l', link height 0 sl3 (length (nodes sl)) prev = Some tr /\
    run (fun ks => ks = map (node_key sl) (pre ++ suf) \/ ks = new) sl lh (pre ++ suf)
      (sl3 :: tr) sl' lh' l' /\
    wf sl' lh' l' /\ map (node_key sl') l' = new.
Proof.
  intros Hwf Hk Hh Hpre Hsuf Hprev new sl3.
  pose proof (NewNode_wf _ _ _ k height Hwf) as Hwf3. fold sl3 in Hwf3.
  pose proof (map_NewNode _ _ _ k height Hwf) as Em3. fold sl3 in Em3.
  pose proof (extends_NewNode _ _ _ k height Hwf) as Hext3. fold sl3 in Hext3.
  pose proof (fresh_node _ _ _ Hwf) as Hfresh. set (x := length (nodes sl)) in *.
  assert (nodes sl3 !! x = Some {| key := k; next_ := replicate height None |}) as Hnew
    by (by apply list_lookup_middle).
  assert (forall p, p ∈ pre ++ suf -> node_key sl3 p = node_key sl p) as Ek3 by (intros; by apply Hext3).
  assert (forall l', (forall p, p ∈ l' -> p ∈ pre ++ suf) -> map (node_key sl3) l' = map (node_key sl) l') as Em.
  { intros l' Hl'. apply map_ext_in. intros p Hp. apply list_elem_of_In in Hp. auto. }
  assert (map (node_key sl3) pre ++ k :: map (node_key sl3) suf = new) as Enew.
  { rewrite !Em by (intros; apply elem_of_app; tauto). done. }
  assert (partial sl3 lh pre suf x sl3 0) as H0.
  { split; [split; [done..|eauto]|]. intros j Hj. rewrite chain_visible by done.
    rewrite chain_upd by (intros Hin; apply Hfresh; by right). by apply (wf_linked _ _ _ Hwf3). }
  assert (forall p, p ∈ pre -> compare_ (node_key sl3 p) k < 0) as Hpre3
    by (intros p Hp; rewrite Ek3 by (apply elem_of_app; by left); auto).
  assert (forall p, p ∈ suf -> compare_ k (node_key sl3 p) < 0) as Hsuf3
    by (intros p Hp; rewrite Ek3 by (apply elem_of_app; by right); auto).
  destruct (link_spec sl3 lh pre suf x height k prev Hwf3 Hnew Hfresh Hk Hpre3 Hsuf3 Hh Hprev
    height 0 sl3 ltac:(lia) H0) as (tr & s' & Htr & Hs' & Hrun).
  exists tr, s', (upd lh x height), (visible pre suf x height).
  split; [done|]. split; [|split].
  - unfold old_or_new in Hrun. rewrite Enew, Em3 in Hrun.
    eapply run_cons; [| | |exact Hrun].
    + apply (partial_wf sl3 lh pre suf x height k); auto; lia.
    + left. exact Em3.
    + destruct Hext3 as [Hl Hp]. split; [done|]. intros p Hin. split_and!; [done| |by apply Hp].
      unfold upd. destruct (Nat.eqb_spec p x) as [->|]; [|done]. exfalso. apply Hfresh. by right.
  - apply (partial_wf sl3 lh pre suf x height k); auto; lia.
  - destruct Hs' as [Hsh _]. rewrite (map_shape sl3) by done. unfold visible.
    rewrite (proj2 (Nat.eqb_neq height 0)) by lia. rewrite <- Enew, !map_app. simpl.
    rewrite (new_key sl3 x height k Hnew). done.
Qed.

Lemma Insert_trace_spec sl lh l k :
  wf sl lh l -> valid k -> (forall a, a ∈ map (node_key sl) l -> compare_ k a <> 0) ->
  let ks := map (node_key sl) l in
  exists tr sl' lh' l', Insert_trace null_key compare_ sl k = Some tr /\ tr <> [] /\
    run (fun ks' => ks' = ks \/ ks' = sorted_insert k ks) sl lh l tr sl' lh' l' /\
    wf sl' lh' l' /\ map (node_key sl') l' = sorted_insert k ks.
Proof.
  intros Hwf Hk Hne ks. unfold Insert_trace.
  destruct (FindGreaterOrEqual_spec sl lh l k (Some (replicate kMaxHeight None)) Hwf Hk)
    as (pre & suf & prev' & -> & -> & Hpre & Hsuf & Hprev).
  cbn [mbind option_bind]. destruct prev' as [prev'|]; [|done]. cbn [mbind option_bind].
  destruct (RandomHeight_spec _ _ _ Hwf) as (height & seed & -> & Hh & Hwf1).
  destruct (raise_height_spec _ _ _ height Hwf1 ltac:(lia)) as (Hwf2 & Hmax & En2).
  set (sl1 := set_rnd sl seed) in *. set (sl2 := raise_height sl1 height) in *.
  assert (forall p, node_key sl2 p = node_key sl p) as Ek2
    by (intros p; unfold SkipList.node_key; by rewrite En2).
  assert (forall l', map (node_key sl2) l' = map (node_key sl) l') as Em2
    by (intros l'; apply map_ext, Ek2).
  destruct (keys_split sl k pre suf Hpre Hsuf) as [Eb Ef].
  destruct (link_new sl2 lh pre suf k height (raise_prev sl1 height prev') Hwf2 Hk ltac:(lia))
    as (tr & sl' & lh' & l' & Htr & Hrun & Hwf' & Hmap).
  { intros p Hp. rewrite Ek2. rewrite Forall_forall in Hpre. auto. }
  { intros p Hp. rewrite Ek2. rewrite Forall_forall in Hsuf.
    apply (strictly_above sl lh (pre ++ suf)); auto. apply elem_of_app. by right. }
  { eapply (prev_complete sl1); eauto; [apply length_replicate|lia]. }
  unfold NewNode in Htr |- * at 1. cbn [fst] in Htr. cbv zeta in *. rewrite Htr. cbn [mbind option_bind].
  rewrite !Em2, <- Eb, <- Ef in *. fold (sorted_insert k ks) in *.
  eexists _, sl', lh', l'. split; [done|]. split; [done|]. split; [|done].
  eapply run_cons; [exact Hwf1|by left|done|].
  eapply run_cons; [exact Hwf2|left; by apply Em2| |exact Hrun].
  split; [by rewrite En2|]. intros p Hp. split_and!; [done..|apply Ek2].
Qed.

(** ** Lemmas: the operations on the abstract list *)

Lemma make_wf : wf (make null_key) (fun _ => 0%nat) [].
Proof.
  split; [by eexists|simpl; unfold kMaxHeight; lia| |constructor|constructor|].
  - apply Random.make_ok.
  - intros j Hj. unfold linked, chain, Next, make, nodes, head_, next_. cbn [filter list_filter lookup list_lookup].
    by rewrite lookup_replicate_2 by done.
Qed.

Lemma make_represents : represents (make null_key) [].
Proof. exists (fun _ => 0%nat), []. split; [apply make_wf|done]. Qed.

Lemma Insert_represents sl ks k :
  represents sl ks -> valid k -> (forall a, a ∈ ks -> compare_ k a <> 0) ->
  exists sl', Insert null_key compare_ sl k = Some sl' /\ represents sl' (sorted_insert k ks).
Proof.
  intros (lh & l & Hwf & ->) Hk Hne. unfold Insert.
  destruct (Insert_trace_spec sl lh l k Hwf Hk Hne) as (tr & sl' & lh' & l' & -> & Htr & Hrun & Hwf' & Hm).
  apply run_last in Hrun. destruct tr as [|s tr]; [done|]. rewrite last_cons_cons in Hrun.
  exists sl'. split; [exact Hrun|]. by exists lh', l'.
Qed.

Lemma represents_sorted sl ks :
  represents sl ks -> StronglySorted (fun a b => compare_ a b < 0) ks /\ Forall valid ks.
Proof.
  intros (lh & l & Hwf & ->). pose proof (wf_sorted _ _ _ Hwf) as Hs. pose proof (wf_nodes _ _ _ Hwf) as Hn.
  clear Hwf. split.
  - induction Hs as [|p l Hs IH Hp]; constructor; [apply IH; by apply Forall_cons in Hn as [_ ?]|].
    apply Forall_forall. intros a Ha. apply list_elem_of_fmap in Ha as (q & -> & Hq).
    rewrite Forall_forall in Hp. by apply Hp.
  - apply Forall_forall. intros a Ha. apply list_elem_of_fmap in Ha as (q & -> & Hq).
    rewrite Forall_forall in Hn. by apply Hn.
Qed.

(** The iterator stands at index [i] of the list; past its end it is invalid. *)
Definition at_index (sl : t K) (ks : list K) (i : nat) (node_ : option nat) : Prop :=
  exists lh l, wf sl lh l /\ ks = map (node_key sl) l /\ node_ = l !! i.

Lemma linked_lookup sl j x c p i : linked sl j x c -> c !! i = Some p -> Next sl p j = c !! S i.
Proof.
  revert x i. induction c as [|y c IH]; intros x i Hl E; [done|]. destruct Hl as [_ Hl].
  destruct i as [|i]; simpl in *; [|by eapply IH]. injection E as <-. by destruct c; simpl in Hl; [|destruct Hl].
Qed.

Lemma bottom_linked sl lh l : wf sl lh l -> linked sl 0 head_ l.
Proof.
  intros Hwf. rewrite <- (chain_0 sl lh l (wf_nodes _ _ _ Hwf)). apply (wf_linked _ _ _ Hwf).
  unfold kMaxHeight. lia.
Qed.

Lemma SeekToFirst_index sl ks : represents sl ks -> at_index sl ks 0 (SeekToFirst sl).
Proof.
  intros (lh & l & Hwf & ->). exists lh, l. split_and!; [done..|].
  pose proof (bottom_linked _ _ _ Hwf) as Hl. unfold SeekToFirst.
  destruct l; simpl in Hl; [done|]. by destruct Hl.
Qed.

Lemma Next_index sl ks i node : at_index sl ks i node -> (i < length ks)%nat ->
  at_index sl ks (S i) (Iterator_Next sl node).
Proof.
  intros (lh & l & Hwf & -> & ->) Hi. rewrite length_map in Hi. exists lh, l. split_and!; [done..|].
  destruct (lookup_lt_is_Some_2 l i Hi) as [p E]. rewrite E. simpl.
  eapply linked_lookup; [by eapply bottom_linked|done].
Qed.

Lemma Seek_index sl ks k : represents sl ks -> valid k ->
  exists n, Seek null_key compare_ sl k = Some n /\ at_index sl ks (length (keys_below k ks)) n.
Proof.
  intros (lh & l & Hwf & ->) Hk. unfold Seek.
  destruct (FindGreaterOrEqual_spec sl lh l k None Hwf Hk) as (pre & suf & r & -> & -> & Hp & Hs & _).
  exists (head suf). split; [done|]. exists lh, (pre ++ suf). split_and!; [done..|].
  rewrite (proj1 (keys_split sl k pre suf Hp Hs)), length_map.
  rewrite lookup_app_r, Nat.sub_diag by lia. by destruct suf.
Qed.

(** In a sorted list the keys below come first. *)
Lemma lookup_keys_below k ks :
  StronglySorted (fun a b => compare_ a b < 0) ks -> Forall valid ks -> valid k ->
  ks !! length (keys_below k ks) = head (keys_from k ks).
Proof.
  intros Hs Hv Hk. induction Hs as [|a ks Hs IH Ha]; [done|]. apply Forall_cons in Hv as [Hva Hv].
  unfold keys_below, keys_from. rewrite !filter_cons. destruct (decide (compare_ a k < 0)).
  - rewrite decide_False by tauto. simpl. by apply IH.
  - rewrite decide_True by done. rewrite filter_none; [done|]. intros b Hb Hlt.
    rewrite Forall_forall in Ha, Hv. specialize (Ha b Hb). simpl in Ha.
    pose proof (order_lt_trans a b k Hva (Hv b Hb) Hk Ha Hlt). done.
Qed.

(** The last node of a prefix, as [Prev] and [SeekToLast] return it. *)
Lemma not_head_end sl lh pre suf x : wf sl lh (pre ++ suf) -> at_end pre x ->
  not_head x = match pre with [] => None | _ => (pre ++ suf) !! (length pre - 1)%nat end.
Proof.
  intros Hwf ->. unfold not_head. destruct pre as [|q pre'] eqn:E; [done|].
  assert (exists p, last pre = Some p) as [p Hp] by (subst; apply last_is_Some; done).
  rewrite <- E, Hp. simpl. pose proof (wf_nodes _ _ _ Hwf) as Hn. rewrite Forall_forall in Hn.
  assert (p <> head_) as Hne.
  { apply (Hn p). rewrite <- E. apply elem_of_app. left. by apply last_Some_elem_of. }
  rewrite (proj2 (Nat.eqb_neq _ _) Hne). rewrite last_lookup in Hp.
  replace (Init.Nat.pred (length pre)) with (length pre - 1)%nat in Hp by lia.
  rewrite lookup_app_l, Hp; [done|]. subst. simpl. lia.
Qed.

Lemma Prev_index sl ks i node : at_index sl ks i node -> (i < length ks)%nat ->
  exists n, Prev null_key compare_ sl node = Some n /\
    match i with O => n = None | S i => at_index sl ks i n end.
Proof.
  intros (lh & l & Hwf & -> & ->) Hi. rewrite length_map in Hi.
  destruct (lookup_lt_is_Some_2 l i Hi) as [p Ep]. rewrite Ep. unfold Prev, FindLessThan.
  pose proof (wf_nodes _ _ _ Hwf) as Hn. rewrite Forall_forall in Hn.
  assert (p ∈ l) as Hin by (by eapply list_elem_of_lookup_2). destruct (Hn p Hin) as [_ _ _ Hv].
  destruct (advances_key _ _ _ _ Hwf Hv) as (_ & _ & Hdown).
  destruct (search_from_head_spec sl lh l
    (fun next => match next with
                 | None => false
                 | Some q => negb (0 <=? compare_ (node_key sl q) (node_key sl p))
                 end) (fun q => compare_ (node_key sl q) (node_key sl p) < 0) None Hwf)
    as ([[x nx] pr] & pre & suf & -> & [-> Hpre Hsuf Hend _ _]).
  { split_and!; [done| |exact Hdown]. intros q _. rewrite negb_true_iff, Z.leb_gt. done. }
  simpl in *. exists (not_head x). split; [done|].
  assert (length pre = i) as Hlen.
  { pose proof (wf_sorted _ _ _ Hwf) as Hs. rewrite Forall_forall in Hpre, Hsuf.
    destruct (Nat.lt_trichotomy (length pre) i) as [Hlt|[?|Hgt]]; [|done|].
    - rewrite lookup_app_r in Ep by lia. destruct suf as [|q suf]; [done|]. exfalso.
      destruct (i - length pre)%nat as [|d] eqn:Ed; [lia|]. simpl in Ep.
      apply (Hsuf q); [left|]. apply (StronglySorted_app_1_r) in Hs. apply StronglySorted_cons in Hs as [Hq _].
      rewrite Forall_forall in Hq. apply (Hq p). by eapply list_elem_of_lookup_2.
    - rewrite lookup_app_l in Ep by lia. specialize (Hpre p ltac:(by eapply list_elem_of_lookup_2)).
      pose proof (order_antisym _ _ Hv Hv). lia. }
  rewrite (not_head_end _ _ _ _ _ Hwf Hend). destruct i as [|i]; [by destruct pre|].
  exists lh, (pre ++ suf). split_and!; [done..|]. destruct pre; [done|].
  f_equal. lia.
Qed.

Lemma SeekToLast_index sl ks : represents sl ks ->
  exists n, SeekToLast sl = Some n /\ at_index sl ks (length ks - 1) n.
Proof.
  intros (lh & l & Hwf & ->). unfold SeekToLast, FindLast.
  destruct (search_from_head_spec sl lh l (fun next => match next with None => false | Some _ => true end)
    (fun _ => True) None Hwf) as ([[x nx] pr] & pre & suf & -> & [-> Hpre Hsuf Hend _ _]).
  { split_and!; [done|done|done]. }
  simpl in Hend. destruct suf as [|q suf]; [|apply Forall_cons in Hsuf as [[] _]; done].
  exists (not_head x). split; [done|]. exists lh, (pre ++ []). split_and!; [done..|].
  rewrite (not_head_end _ _ _ _ _ Hwf Hend), length_map, app_nil_r. by destruct pre.
Qed.

Lemma key_index sl ks i node : at_index sl ks i node ->
  Iterator_key null_key sl node = ks !! i /\ (Valid node = true <-> (i < length ks)%nat).
Proof.
  intros (lh & l & Hwf & -> & ->). unfold Iterator_key. rewrite list_lookup_fmap, length_map.
  split; [done|]. destruct (l !! i) eqn:E.
  - apply lookup_lt_Some in E. by simpl.
  - apply lookup_ge_None in E. simpl. split; [done|lia].
Qed.

Lemma Contains_correct sl ks k : represents sl ks -> valid k ->
  exists b, Contains null_key compare_ sl k = Some b /\
    (b = true <-> exists a, a ∈ ks /\ compare_ k a = 0).
Proof.
  intros (lh & l & Hwf & ->) Hk. unfold Contains.
  pose proof (wf_nodes _ _ _ Hwf) as Hn. rewrite Forall_forall in Hn.
  destruct (FindGreaterOrEqual_spec sl lh l k None Hwf Hk) as (pre & suf & r & -> & -> & Hp & Hs & _).
  eexists. split; [done|]. rewrite Forall_forall in Hp, Hs.
  assert (forall p, p ∈ pre ++ suf -> valid (node_key sl p)) as Hv by (intros; by apply Hn).
  destruct suf as [|q suf]; simpl.
  - split; [done|]. intros (a & Ha & E). apply list_elem_of_fmap in Ha as (p & -> & Hin).
    rewrite app_nil_r in Hin, Hv. specialize (Hp p Hin). pose proof (order_antisym _ _ Hk (Hv p Hin)). lia.
  - unfold Equal. rewrite Z.eqb_eq. split.
    + intros E. exists (node_key sl q). split; [|done]. apply list_elem_of_fmap. exists q. split; [done|].
      apply elem_of_app. right. left.
    + intros (a & Ha & E). apply list_elem_of_fmap in Ha as (p & -> & Hin).
      pose proof (order_antisym _ _ Hk (Hv p Hin)) as Hkp.
      pose proof (Hv q ltac:(apply elem_of_app; right; left)) as Hvq.
      pose proof (order_antisym _ _ Hk Hvq). pose proof (Hs q ltac:(left)).
      apply elem_of_app in Hin as [Hin|Hin]; [specialize (Hp p Hin); lia|].
      apply elem_of_cons in Hin as [->|Hin]; [done|].
      pose proof (wf_sorted _ _ _ Hwf) as Hsort. apply StronglySorted_app_1_r in Hsort.
      apply StronglySorted_cons in Hsort as [Hq _]. rewrite Forall_forall in Hq.
      specialize (Hq p Hin). unfold key_lt in Hq.
      pose proof (Hv p ltac:(apply elem_of_app; right; right; done)) as Hvp.
      pose proof (order_trans _ _ _ Hvq Hvp Hk ltac:(lia) ltac:(lia)). lia.
Qed.

(** ** Lemmas: a reader beside the writer *)

(** Where an unfinished reader may stand in the heap of the moment. *)
Definition reading (sl : t K) (lh : nat -> nat) (l : list nat) (k : K) (x level : nat) : Prop :=
  (level < kMaxHeight)%nat /\
  (x = head_ \/ (x ∈ l /\ (level < lh x)%nat /\ compare_ (node_key sl x) k < 0)).

Lemma reading_searching sl lh l k x level :
  wf sl lh l -> valid k -> reading sl lh l k x level ->
  exists pre suf, searching lh l (fun p => compare_ (node_key sl p) k < 0) x level pre suf.
Proof.
  intros Hwf Hk [Hlev [->|(Hin & Hlt & HP)]].
  - exists [], l. split; try done. by left.
  - apply list_elem_of_split in Hin as (l1 & l2 & ->). exists (l1 ++ [x]), l2.
    split; [by rewrite <- app_assoc|apply at_end_snoc| |by right|done].
    apply Forall_app. split; [|by constructor]. apply Forall_forall. intros q Hq.
    destruct (advances_key _ _ _ _ Hwf Hk) as (_ & _ & Hdown). by apply (Hdown l1 x l2 q).
Qed.

Lemma searching_reading sl lh l k x level pre suf :
  searching lh l (fun p => compare_ (node_key sl p) k < 0) x level pre suf -> reading sl lh l k x level.
Proof.
  intros [-> -> Hpre Hlev Hb]. split; [done|]. destruct Hlev as [|Hlev]; [by left|].
  destruct (last pre) as [y|] eqn:E; simpl in *; [right|by left].
  apply last_Some_elem_of in E. rewrite Forall_forall in Hpre. split_and!; [|done|by apply Hpre].
  apply elem_of_app. by left.
Qed.

Lemma reading_extends sl lh l sl' lh' l' k x level :
  extends sl lh l sl' lh' l' -> reading sl lh l k x level -> reading sl' lh' l' k x level.
Proof.
  intros [_ He] [Hlev [->|(Hin & Hlt & HP)]]; split; [done|by left|done|right].
  destruct (He x Hin) as (? & ? & E). rewrite E. split_and!; [done|lia|done].
Qed.

(** The reader's result is the answer for a list of keys in [Q]. *)
Definition answered (Q : list K -> Prop) (sl : t K) (l : list nat) (k : K) (res : option nat) : Prop :=
  (exists ks, Q ks /\ node_key sl <$> res = head (keys_from k ks)) /\
  (forall p, res = Some p -> p ∈ l).

Definition reader_ok (Q : list K -> Prop) sl lh l k (r : option nat + (nat * nat)) : Prop :=
  match r with
  | inl res => answered Q sl l k res
  | inr (x, level) => reading sl lh l k x level
  end.

Lemma read_step_ok Q sl lh l k r :
  wf sl lh l -> valid k -> Q (map (node_key sl) l) -> reader_ok Q sl lh l k r ->
  reader_ok Q sl lh l k (read_step null_key compare_ sl k r).
Proof.
  intros Hwf Hk HQ. destruct r as [res|[x level]]; [done|]. intros Hr. simpl in Hr.
  destruct (reading_searching _ _ _ _ _ _ Hwf Hk Hr) as (pre & suf & Hs). unfold read_step.
  destruct (search_step_spec _ _ _ _ _ _ _ _ _ None Hwf (advances_key _ _ _ _ Hwf Hk) Hs)
    as [(y & s1 & s2 & _ & -> & Hs')|(_ & -> & Hend)]; [by eapply searching_reading|].
  destruct level as [|level].
  - destruct Hs as [-> _ Hpre _ _]. split.
    + exists (map (node_key sl) (pre ++ suf)). split; [done|].
      rewrite (proj2 (keys_split sl k pre suf Hpre (Hend eq_refl))). by destruct suf.
    + intros p E. apply elem_of_app. right. destruct suf; [done|]. injection E as ->. left.
  - destruct Hr as [? Hx]. split; [lia|]. destruct Hx as [|(? & ? & ?)]; [by left|right].
    split_and!; [done|lia|done].
Qed.

Lemma reader_extends Q sl lh l sl' lh' l' k r :
  extends sl lh l sl' lh' l' -> reader_ok Q sl lh l k r -> reader_ok Q sl' lh' l' k r.
Proof.
  destruct r as [res|[x level]]; simpl; [|apply reading_extends].
  intros [_ He] [(ks & HQ & E) Hin]. split.
  - exists ks. split; [done|]. rewrite <- E. destruct res as [p|]; [|done]. simpl. f_equal.
    by apply He, Hin.
  - intros p Hp. by apply He, Hin.
Qed.

(** The interleaving keeps the reader's invariant in every heap. *)
Lemma steps_ok Q k slE lhE lE :
  valid k -> forall c c', rtc (step null_key compare_ k) c c' ->
  forall sl tr r lh l, c = (sl :: tr, r) -> wf sl lh l -> Q (map (node_key sl) l) ->
  run Q sl lh l tr slE lhE lE -> reader_ok Q sl lh l k r ->
  forall sl' tr' r', c' = (sl' :: tr', r') ->
  exists lh' l', wf sl' lh' l' /\ Q (map (node_key sl') l') /\ reader_ok Q sl' lh' l' k r'.
Proof.
  intros Hk c c' Hsteps. induction Hsteps as [c|c1 c2 c3 Hstep Hsteps IH]; intros sl tr r lh l -> Hwf HQ Hrun Hr sl' tr' r' E.
  - injection E as -> -> ->. eauto.
  - inversion Hstep as [sl0 tr0 r0 E0 E2|sl0 tr0 r0 E0 E2]; subst sl0 tr0 r0 c2.
    + destruct Hrun as [|? ? ? sl1 lh1 l1 tr1 ? ? ? Hwf1 HQ1 He Hrun].
      * inversion Hsteps as [|? ? ? Hs]; subst; [done|]. inversion Hs.
      * eapply IH; [done|exact Hwf1|done|exact Hrun|by eapply reader_extends|done].
    + eapply IH; [done|exact Hwf|done|exact Hrun|by apply read_step_ok|done].
Qed.

(** Left alone, the reader finishes. *)
Lemma search_reads fuel : forall sl k x level res,
  search fuel sl (KeyIsAfterNode null_key compare_ sl k) (x, level, None) = Some res ->
  exists n, Nat.iter fuel (read_step null_key compare_ sl k) (inr (x, level)) = inl n.
Proof.
  induction fuel as [|fuel IH]; intros sl k x level res; [done|].
  cbn [search]. rewrite Nat.iter_succ_r. cbn [read_step]. unfold search_step.
  assert (forall n, Nat.iter fuel (read_step null_key compare_ sl k) (inl n) = inl n) as Hdone.
  { intros n. clear. induction fuel as [|fuel IH]; [done|]. by rewrite Nat.iter_succ, IH. }
  destruct (KeyIsAfterNode null_key compare_ sl k (Next sl x level)), (Next sl x level) as [y|]; eauto;
    (destruct level; [intros _; eexists; apply Hdone|apply IH]).
Qed.

Lemma reader_finishes Q sl lh l k r :
  wf sl lh l -> valid k -> reader_ok Q sl lh l k r ->
  exists n, Nat.iter (search_fuel sl) (read_step null_key compare_ sl k) r = inl n.
Proof.
  intros Hwf Hk. destruct r as [res|[x level]]; intros Hr.
  - exists res. generalize (search_fuel sl). intros n. induction n as [|n IH]; [done|]. by rewrite Nat.iter_succ, IH.
  - destruct (reading_searching _ _ _ _ _ _ Hwf Hk Hr) as (pre & suf & Hs).
    pose proof (wf_length _ _ _ Hwf). pose proof (s_bound _ _ _ _ _ _ _ Hs).
    pose proof (s_split _ _ _ _ _ _ _ Hs) as El.
    destruct (search_spec _ _ _ _ _ Hwf (advances_key _ _ _ _ Hwf Hk) (search_fuel sl) x level pre suf None Hs)
      as (res & _ & _ & E & _); [|by eapply search_reads].
    unfold search_fuel. rewrite El, length_app in *. lia.
Qed.

(** ** Properties *)

Lemma sorted_insert_perm k ks : sorted_insert k ks ≡ₚ k :: ks.
Proof.
  unfold sorted_insert. rewrite <- Permutation_middle. f_equiv. apply filter_app_complement.
Qed.

(** No later key compares equal to an earlier one. *)
Definition distinct_keys (ks : list K) : Prop := StronglySorted (fun a b => compare_ b a <> 0) ks.

Lemma InsertAll_represents ks : forall sl ks0,
  represents sl ks0 -> Forall valid ks -> distinct_keys ks ->
  (forall a b, a ∈ ks0 -> b ∈ ks -> compare_ b a <> 0) ->
  exists sl' ks', InsertAll null_key compare_ sl ks = Some sl' /\ represents sl' ks' /\ ks' ≡ₚ ks0 ++ ks.
Proof.
  induction ks as [|k ks IH]; intros sl ks0 Hr Hv Hd Hsep.
  - exists sl, ks0. split_and!; [done..|by rewrite app_nil_r].
  - apply Forall_cons in Hv as [Hk Hv]. apply StronglySorted_cons in Hd as [Hkd Hd]. cbn [InsertAll].
    destruct (Insert_represents sl ks0 k Hr Hk) as (sl1 & -> & Hr1).
    { intros a Ha. apply Hsep; [done|left]. }
    cbn [mbind option_bind]. pose proof (sorted_insert_perm k ks0) as Hperm.
    destruct (IH sl1 (sorted_insert k ks0) Hr1 Hv Hd) as (sl' & ks' & -> & Hr' & Hp').
    + intros a b Ha Hb. rewrite Hperm in Ha. rewrite Forall_forall in Hkd.
      apply elem_of_cons in Ha as [->|Ha]; [by apply Hkd|]. apply Hsep; [done|by right].
    + exists sl', ks'. split_and!; [done..|]. rewrite Hp', Hperm. simpl. apply Permutation_middle.
Qed.

(** C32. Insertion: starting from an empty list, inserting any sequence of keys
    no two of which compare equal always completes (no search runs off the heap,
    no unset [prev] entry is read), and the result is a well-formed skip list:
    every level is a sublist of the bottom list, and the bottom list is exactly
    the inserted keys in strictly increasing order. *)
Theorem skiplist_insert_sorted ks :
  Forall valid ks -> distinct_keys ks ->
  exists sl sorted, InsertAll null_key compare_ (make null_key) ks = Some sl /\
    represents sl sorted /\ sorted ≡ₚ ks /\ StronglySorted (fun a b => compare_ a b < 0) sorted.
Proof.
  intros Hv Hd. destruct (InsertAll_represents ks (make null_key) [] make_represents Hv Hd) as (sl & ks' & -> & Hr & Hp).
  - intros a b Ha. by apply not_elem_of_nil in Ha.
  - exists sl, ks'. split_and!; [done..|]. by apply represents_sorted in Hr as [? _].
Qed.

(** Reading: on a skip list holding the sorted keys [ks], the iterator
    refines a cursor into [ks].  [SeekToFirst], [SeekToLast] and [Seek] place it
    at the first key, the last key and the first key not below the target;
    [Next] and [Prev] move it by one (from the first key [Prev] makes it
    invalid); it is valid exactly inside the list and reads the key there; and
    [Contains] holds exactly of the keys that compare equal to a stored one. *)
Theorem skiplist_iterator_refines sl ks target :
  represents sl ks -> valid target ->
  at_index sl ks 0 (SeekToFirst sl) /\
  (exists n, SeekToLast sl = Some n /\ at_index sl ks (length ks - 1) n) /\
  (exists n, Seek null_key compare_ sl target = Some n /\
     at_index sl ks (length (keys_below target ks)) n) /\
  (forall i node, at_index sl ks i node ->
     Iterator_key null_key sl node = ks !! i /\ (Valid node = true <-> (i < length ks)%nat) /\
     ((i < length ks)%nat ->
        at_index sl ks (S i) (Iterator_Next sl node) /\
        exists n, Prev null_key compare_ sl node = Some n /\
          match i with O => n = None | S i => at_index sl ks i n end)) /\
  (exists b, Contains null_key compare_ sl target = Some b /\
     (b = true <-> exists a, a ∈ ks /\ compare_ target a = 0)).
Proof.
  intros Hr Ht. split_and!.
  - by apply SeekToFirst_index.
  - by apply SeekToLast_index.
  - by apply Seek_index.
  - intros i node Hn. destruct (key_index _ _ _ _ Hn). split_and!; [done..|].
    intros Hi. split; [by apply Next_index|by apply Prev_index].
  - by apply Contains_correct.
Qed.

(** C31. Readers run without a lock: let a reader start a search for [target] from
    the head at any level (so also with a stale height) and interleave its loads
    in any order with the stores of one [Insert] of [k].  At every moment the
    reader can finish in a bounded number of loads, and when it has a result,
    that result is the first key not below [target] of the list either before
    or after the insertion: the half-linked node is never observed as a
    missing or misplaced key. *)
Theorem skiplist_concurrent_read sl ks k target level :
  represents sl ks -> valid k -> valid target -> (forall a, a ∈ ks -> compare_ k a <> 0) ->
  (level < kMaxHeight)%nat ->
  exists trace, Insert_trace null_key compare_ sl k = Some trace /\
    forall s rest r, rtc (step null_key compare_ target) (sl :: trace, inr (head_, level)) (s :: rest, r) ->
      (exists res, Nat.iter (search_fuel s) (read_step null_key compare_ s target) r = inl res) /\
      (forall res, r = inl res -> exists ks', (ks' = ks \/ ks' = sorted_insert k ks) /\
         node_key s <$> res = head (keys_from target ks')).
Proof.
  intros (lh & l & Hwf & ->) Hk Ht Hne Hlev.
  destruct (Insert_trace_spec sl lh l k Hwf Hk Hne) as (tr & slE & lhE & lE & -> & _ & Hrun & _).
  exists tr. split; [done|]. intros s rest r Hsteps.
  set (Q := fun ks' => _ \/ _) in Hrun.
  assert (reader_ok Q sl lh l target (inr (head_, level))) as H0 by (split; [done|by left]).
  destruct (steps_ok Q target slE lhE lE Ht _ _ Hsteps sl tr _ lh l eq_refl Hwf ltac:(by left) Hrun H0
    s rest r eq_refl) as (lh' & l' & Hwf' & _ & Hr).
  split; [by eapply reader_finishes|]. intros res ->. destruct Hr as [(ks' & HQ & E) _]. eauto.
Qed.
End Proofs.

(** ** Witnesses: integer keys *)

Definition int_compare (a b : Z) : Z := a - b.

#[local] Instance int_order : KeyOrder int_compare (fun _ => True).
Proof. split; unfold int_compare; lia. Qed.

Lemma skiplist_insert_sorted_witness :
  exists sl sorted, InsertAll 0 int_compare (make 0) [5; 1; 9; 3] = Some sl /\
    represents 0 int_compare (fun _ => True) sl sorted /\ sorted ≡ₚ [5; 1; 9; 3] /\
    StronglySorted (fun a b => int_compare a b < 0) sorted.
Proof.
  apply (skiplist_insert_sorted 0 int_compare (fun _ => True)).
  - repeat constructor.
  - repeat constructor; discriminate.
Defined.

(** A list of three keys, and the reads on it. *)
Definition sample : t Z :=
  Eval vm_compute in default (make 0) (InsertAll 0 int_compare (make 0) [20; 10; 30]).

Lemma sample_represents : represents 0 int_compare (fun _ => True) sample [10; 20; 30].
Proof.
  destruct (Insert_represents 0 int_compare (fun _ => True) (make 0) [] 20) as (s1 & E1 & H1);
    [apply make_represents|done|by intros a Ha; apply not_elem_of_nil in Ha|].
  destruct (Insert_represents 0 int_compare (fun _ => True) s1 [20] 10) as (s2 & E2 & H2);
    [exact H1|done|intros a Ha; apply list_elem_of_singleton in Ha as ->; done|].
  destruct (Insert_represents 0 int_compare (fun _ => True) s2 [10; 20] 30) as (s3 & E3 & H3);
    [exact H2|done|intros a Ha; apply elem_of_cons in Ha as [->|Ha];
      [done|apply list_elem_of_singleton in Ha as ->; done]|].
  assert (s3 = sample) as <-; [|exact H3].
  assert (InsertAll 0 int_compare (make 0) [20; 10; 30] = Some s3) as E.
  { cbn [InsertAll]. rewrite E1. cbn [mbind option_bind]. rewrite E2. cbn [mbind option_bind]. by rewrite E3. }
  vm_compute in E. injection E as <-. reflexivity.
Qed.

Lemma skiplist_iterator_refines_witness :
  exists b, Contains 0 int_compare sample 20 = Some b /\
    (b = true <-> exists a, a ∈ [10; 20; 30] /\ int_compare 20 a = 0).
Proof.
  apply (skiplist_iterator_refines 0 int_compare (fun _ => True) sample [10; 20; 30] 20).
  - apply sample_represents.
  - exact I.
Defined.

Lemma skiplist_concurrent_read_witness :
  exists trace, Insert_trace 0 int_compare sample 25 = Some trace /\
    forall s rest r, rtc (step 0 int_compare 21) (sample :: trace, inr (head_, 11%nat)) (s :: rest, r) ->
      (exists res, Nat.iter (search_fuel s) (read_step 0 int_compare s 21) r = inl res) /\
      (forall res, r = inl res -> exists ks',
         (ks' = [10; 20; 30] \/ ks' = sorted_insert int_compare 25 [10; 20; 30]) /\
         node_key 0 s <$> res = head (keys_from int_compare 21 ks')).
Proof.
  apply (skiplist_concurrent_read 0 int_compare (fun _ => True) sample [10; 20; 30] 25 21 11).
  - apply sample_represents.
  - exact I.
  - exact I.
  - intros a Ha. unfold int_compare. rewrite !elem_of_cons in Ha.
    destruct Ha as [->|[->|[->|Ha]]]; [discriminate..|]. by apply not_elem_of_nil in Ha.
  - unfold kMaxHeight. lia.
Defined.
End SkipList.
