(* ===== verification/MemTable.v ===== *)
(** * MemTable: the in-memory table

    Models src/LSM-EBF/db/memtable.h and memtable.cc over the skip list.  A
    [const char*] key of the skip list is the bytes from the pointer on, that is
    a buffer written by [Add] or by [LookupKey]. *)
From stdpp Require Import sorting.
From S2P Require Import Prelude Coding Status Comparator DbFormat Random SkipList.

Module MemTable.

(** [p = GetVarint32Ptr(p, p + 5, &len)]: five bytes are looked at, the result
    points into the whole buffer. *)
Definition varint_at (data : bytes) : option (Z * bytes) :=
  '(len, rest) ← GetVarint32Ptr (take 5 data);
  Some (len, drop (length (take 5 data) - length rest) data).

(** The slice and the bytes after it.  A corrupted length is undefined in the
    source ("we assume p is not corrupted"). *)
Definition GetLengthPrefixedSlice (data : bytes) : bytes * bytes :=
  match varint_at data with
  | Some (len, p) => (take (Z.to_nat len) p, drop (Z.to_nat len) p)
  | None => ([], [])
  end.

Section Code.
Context {user_comparator : Comparator}.

(** [KeyComparator::operator()]. *)
Definition key_compare (aptr bptr : bytes) : Z :=
  let a := fst (GetLengthPrefixedSlice aptr) in
  let b := fst (GetLengthPrefixedSlice bptr) in
  internal_compare a b.

Definition EncodeKey (target : bytes) : bytes := PutVarint32 [] (u32 (zlen target)) ++ target.

Record t := { refs_ : Z; table_ : SkipList.t bytes }.

Definition make : t := {| refs_ := 0; table_ := SkipList.make [] |}.

Definition Ref (m : t) : t := {| refs_ := refs_ m + 1; table_ := table_ m |}.

(** [None]: the table has been deleted. *)
Definition Unref (m : t) : option t :=
  let m := {| refs_ := refs_ m - 1; table_ := table_ m |} in
  if refs_ m <=? 0 then None else Some m.

Definition encoded_len (key value : bytes) : Z :=
  let internal_key_size := zlen key + 8 in
  VarintLength internal_key_size + internal_key_size + VarintLength (zlen value) + zlen value.

(** The buffer [Add] fills. *)
Definition encode_entry (s : Z) (type : ValueType) (key value : bytes) : bytes :=
  let internal_key_size := zlen key + 8 in
  EncodeVarint32 (u32 internal_key_size) ++ key ++
  EncodeFixed64 (u64 (s ≪ 8) ||| value_type_code type) ++
  EncodeVarint32 (u32 (zlen value)) ++ value.

Definition Add (m : t) (s : Z) (type : ValueType) (key value : bytes) : option t :=
  table ← SkipList.Insert [] key_compare (table_ m) (encode_entry s type key value);
  Some {| refs_ := refs_ m; table_ := table |}.

(** [Get] returns its bool with the new [*value] and [*s]; [None] only if the
    search of the skip list does not end. *)
Definition Get (m : t) (key : LookupKey.t) (value : bytes) (s : Status)
    : option (bool * bytes * Status) :=
  let memkey := LookupKey.memtable_key key in
  iter ← SkipList.Seek [] key_compare (table_ m) memkey;
  Some match iter with
  | None => (false, value, s)
  | Some node =>
      let entry := SkipList.node_key [] (table_ m) node in
      match varint_at entry with
      | None => (false, value, s)
      | Some (key_length, key_ptr) =>
          if Compare (take (Z.to_nat (key_length - 8)) key_ptr) (LookupKey.lookup_user_key key) =? 0
          then
            let tag := DecodeFixed64 (drop (Z.to_nat (key_length - 8)) key_ptr) in
            match value_type_of (tag &&& 0xff) with
            | Some kTypeValue =>
                (true, fst (GetLengthPrefixedSlice (drop (Z.to_nat key_length) key_ptr)), s)
            | Some kTypeDeletion => (true, value, NotFound [] [])
            | None => (false, value, s)
            end
          else (false, value, s)
      end
  end.

(** [MemTableIterator]: the state is the skip list's node. *)
Definition Iterator_Valid (it : option nat) : bool := SkipList.Valid it.
Definition Iterator_Seek (m : t) (k : bytes) : option (option nat) :=
  SkipList.Seek [] key_compare (table_ m) (EncodeKey k).
Definition Iterator_SeekToFirst (m : t) : option nat := SkipList.SeekToFirst (table_ m).
Definition Iterator_SeekToLast (m : t) : option (option nat) := SkipList.SeekToLast (table_ m).
Definition Iterator_Next (m : t) (it : option nat) : option nat := SkipList.Iterator_Next (table_ m) it.
Definition Iterator_Prev (m : t) (it : option nat) : option (option nat) :=
  SkipList.Prev [] key_compare (table_ m) it.
Definition Iterator_key (m : t) (it : option nat) : option bytes :=
  (fun e => fst (GetLengthPrefixedSlice e)) <$> SkipList.Iterator_key [] (table_ m) it.
Definition Iterator_value (m : t) (it : option nat) : option bytes :=
  (fun e => fst (GetLengthPrefixedSlice (snd (GetLengthPrefixedSlice e)))) <$>
    SkipList.Iterator_key [] (table_ m) it.

(** One call of [Add]. *)
Record entry := { e_seq : Z; e_type : ValueType; e_key : bytes; e_value : bytes }.

Fixpoint AddAll (m : t) (es : list entry) : option t :=
  match es with
  | [] => Some m
  | e :: es => m ← Add m (e_seq e) (e_type e) (e_key e) (e_value e); AddAll m es
  end.
End Code.

(** ** Lemmas: entries *)

Lemma varint_at_Encode v rest : 0 <= v < 2 ^ 32 -> varint_at (EncodeVarint32 v ++ rest) = Some (v, rest).
Proof.
  intros Hv. unfold varint_at. pose proof (EncodeVarint32_length v Hv) as Hl.
  rewrite take_app, take_ge by lia. rewrite GetVarint32Ptr_Encode by lia. cbn [mbind option_bind].
  do 2 f_equal. rewrite length_app. apply drop_app_exact. lia.
Qed.

Lemma GetLengthPrefixedSlice_prefixed v rest :
  zlen v < 2 ^ 32 -> GetLengthPrefixedSlice (length_prefixed v ++ rest) = (v, rest).
Proof.
  intros Hv. pose proof (zlen_nonneg v). unfold GetLengthPrefixedSlice, length_prefixed.
  rewrite <- app_assoc, varint_at_Encode by lia. rewrite to_nat_zlen.
  by rewrite take_app_exact, drop_app_exact.
Qed.

Definition sizes_ok (key value : bytes) : Prop := zlen key + 8 < 2 ^ 32 /\ zlen value < 2 ^ 32.

Lemma encode_entry_eq s type key value : sizes_ok key value ->
  encode_entry s type key value =
    length_prefixed (ikey key (PackSequenceAndType s type)) ++ length_prefixed value.
Proof.
  intros [Hk Hv]. pose proof (zlen_nonneg key). pose proof (zlen_nonneg value).
  unfold encode_entry, length_prefixed. rewrite !u32_small by lia.
  assert (zlen (ikey key (PackSequenceAndType s type)) = zlen key + 8) as ->
    by (unfold zlen; rewrite length_ikey; lia).
  unfold ikey, PackSequenceAndType. by rewrite <- !app_assoc.
Qed.

Lemma EncodeVarint64_32 v : 0 <= v < 2 ^ 32 -> zlen (EncodeVarint32 v) = VarintLength v.
Proof.
  intros Hv. unfold VarintLength. rewrite VarintLength_loop_length by lia.
  fold (EncodeVarint64 v). rewrite EncodeVarint64_varint, EncodeVarint32_varint by lia.
  assert (forall f1 f2 x, 0 <= x < 128 ^ Z.of_nat f1 -> (1 <= f1 <= f2)%nat -> varint f1 x = varint f2 x) as Hf.
  { induction f1 as [|f1 IH]; intros [|f2] x Hx Hle; [lia..|]. cbn [varint].
    destruct (Z.ltb_spec x 128); [done|]. rewrite Nat2Z.inj_succ, Z.pow_succ_r in Hx by lia.
    assert (0 <= x / 128 < 128 ^ Z.of_nat f1) as Hd
      by (split; [apply Z.div_pos; lia|apply Z.div_lt_upper_bound; lia]).
    f_equal. apply IH; [done|]. destruct f1; [simpl in Hx; lia|lia]. }
  rewrite (Hf 5%nat 10%nat v) by lia. lia.
Qed.

(** The allocation is exactly filled, the assertion at the end of [Add]. *)
Lemma encode_entry_length s type key value :
  sizes_ok key value -> zlen (encode_entry s type key value) = encoded_len key value.
Proof.
  intros [Hk Hv]. pose proof (zlen_nonneg key). pose proof (zlen_nonneg value).
  unfold encode_entry, encoded_len. rewrite !zlen_app, !u32_small by lia.
  rewrite !EncodeVarint64_32 by lia.
  assert (forall x, zlen (EncodeFixed64 x) = 8) as -> by (intros; unfold zlen; by rewrite length_EncodeFixed64).
  lia.
Qed.

(** ** Lemmas: the order of entries *)

Section Laws.
Context {C : Comparator} {L : ComparatorLaws C}.

(** What the skip list stores and is searched for: an internal key behind its
    length. *)
Definition stored (k : bytes) : Prop :=
  exists ik rest, k = length_prefixed ik ++ rest /\
    @valid_key (@InternalKeyComparator C) ik /\ zlen ik < 2 ^ 32.

Lemma key_compare_stored a b r1 r2 : zlen a < 2 ^ 32 -> zlen b < 2 ^ 32 ->
  key_compare (length_prefixed a ++ r1) (length_prefixed b ++ r2) = internal_compare a b.
Proof. intros. unfold key_compare. by rewrite !GetLengthPrefixedSlice_prefixed. Qed.

#[export] Instance key_order : SkipList.KeyOrder key_compare stored.
Proof.
  split.
  - intros ? ? (a & r1 & -> & Ha & ?) (b & r2 & -> & Hb & ?). rewrite !key_compare_stored by done.
    apply (@cmp_antisym _ InternalLaws); done.
  - intros ? ? ? (a & r1 & -> & Ha & ?) (b & r2 & -> & Hb & ?) (c & r3 & -> & Hc & ?).
    rewrite !key_compare_stored by done. apply (@cmp_trans _ InternalLaws); done.
Qed.

Definition entry_ok (e : entry) : Prop :=
  valid_key (e_key e) /\ seq_ok (e_seq e) /\ sizes_ok (e_key e) (e_value e).

Definition enc (e : entry) : bytes := encode_entry (e_seq e) (e_type e) (e_key e) (e_value e).

Definition e_ikey (e : entry) : bytes := ikey (e_key e) (PackSequenceAndType (e_seq e) (e_type e)).

Lemma zlen_ikey u tag : zlen (ikey u tag) = zlen u + 8.
Proof. unfold zlen. rewrite length_ikey. lia. Qed.

Lemma enc_eq e : entry_ok e -> enc e = length_prefixed (e_ikey e) ++ length_prefixed (e_value e).
Proof. intros (_ & _ & Hs). by apply encode_entry_eq. Qed.

Lemma enc_stored e : entry_ok e -> stored (enc e).
Proof.
  intros He. exists (e_ikey e), (length_prefixed (e_value e)). split; [by apply enc_eq|].
  destruct He as (Hv & _ & Hk & _). split; [by apply valid_ikey|]. unfold e_ikey. by rewrite zlen_ikey.
Qed.

Lemma lookup_stored u s : valid_key u -> zlen u + 8 < 2 ^ 32 ->
  stored (LookupKey.memtable_key (LookupKey.make u s)).
Proof.
  intros Hu Hl. exists (ikey u (PackSequenceAndType s kValueTypeForSeek)), [].
  rewrite app_nil_r. split; [by apply lookup_memtable_key|]. split; [by apply valid_ikey|].
  by rewrite zlen_ikey.
Qed.

Lemma enc_compare a b : entry_ok a -> entry_ok b ->
  key_compare (enc a) (enc b) = internal_compare (e_ikey a) (e_ikey b).
Proof.
  intros Ha Hb. rewrite !enc_eq by done. destruct Ha as (_ & _ & ? & _), Hb as (_ & _ & ? & _).
  apply key_compare_stored; unfold e_ikey; by rewrite zlen_ikey.
Qed.

(** Entries with different sequence numbers never compare equal. *)
Lemma enc_distinct a b : entry_ok a -> entry_ok b -> e_seq a <> e_seq b ->
  key_compare (enc a) (enc b) <> 0.
Proof.
  intros Ha Hb Hne. rewrite enc_compare by done. destruct Ha as (_ & Hsa & _), Hb as (_ & Hsb & _).
  unfold internal_compare, e_ikey. rewrite !ExtractUserKey_ikey, !ExtractTag_ikey by (by apply Pack_range).
  rewrite !Pack_eq by done. pose proof (value_type_code_range (e_type a)).
  pose proof (value_type_code_range (e_type b)). zcases.
Qed.

(** An entry is not below the lookup key of [(u, s)] exactly when its user key
    is above [u], or is [u] and the entry is visible at [s]. *)
Definition visible (u : bytes) (s : Z) (e : entry) : Prop := Compare (e_key e) u = 0 /\ e_seq e <= s.

#[export] Instance visible_dec u s e : Decision (visible u s e) := _.

Lemma enc_lookup e u s : entry_ok e -> seq_ok s -> zlen u + 8 < 2 ^ 32 ->
  ~ key_compare (enc e) (LookupKey.memtable_key (LookupKey.make u s)) < 0 <->
  0 < Compare (e_key e) u \/ visible u s e.
Proof.
  intros He Hs Hl. rewrite enc_eq by done. destruct He as (_ & Hse & Hk & _).
  rewrite lookup_memtable_key by done. rewrite <- (app_nil_r (length_prefixed (ikey u _))).
  rewrite key_compare_stored by (unfold e_ikey; by rewrite zlen_ikey).
  rewrite internal_compare_lt. unfold e_ikey.
  rewrite !ExtractUserKey_ikey, !ExtractTag_ikey by (by apply Pack_range).
  rewrite !Pack_eq by done. pose proof (value_type_code_range (e_type e)).
  change (value_type_code kValueTypeForSeek) with 1. unfold visible. lia.
Qed.

(** ** Lemmas: contents *)

(** The table holds the entries [es], in the order of their [Add]s. *)
Definition holds (m : t) (es : list entry) : Prop :=
  Forall entry_ok es /\ StronglySorted (fun a b => e_seq a < e_seq b) es /\
  exists ks, SkipList.represents [] key_compare stored (table_ m) ks /\ ks ≡ₚ map enc es.

Lemma make_holds : holds make [].
Proof.
  split_and!; [constructor..|]. exists []. split; [apply SkipList.make_represents|done].
Qed.

Lemma Add_holds m es e :
  holds m es -> entry_ok e -> Forall (fun a => e_seq a < e_seq e) es ->
  exists m', Add m (e_seq e) (e_type e) (e_key e) (e_value e) = Some m' /\ holds m' (es ++ [e]) /\
    refs_ m' = refs_ m.
Proof.
  intros (Hok & Hs & ks & Hr & Hp) He Hlt. unfold Add.
  change (encode_entry (e_seq e) (e_type e) (e_key e) (e_value e)) with (enc e).
  destruct (SkipList.Insert_represents [] key_compare stored (table_ m) ks (enc e) Hr) as (tb & -> & Hr').
  - by apply enc_stored.
  - intros k Hk. rewrite Hp in Hk. apply list_elem_of_fmap in Hk as (a & -> & Ha).
    rewrite Forall_forall in Hok, Hlt. apply enc_distinct; [done|by apply Hok|].
    specialize (Hlt a Ha). simpl in Hlt. lia.
  - eexists. split; [done|]. split; [|done]. split_and!.
    + apply Forall_app. split; [done|]. by constructor.
    + apply StronglySorted_app_2; [|done|repeat constructor]. intros a b Ha Hb.
      apply list_elem_of_singleton in Hb as ->. rewrite Forall_forall in Hlt. by apply Hlt.
    + eexists. split; [exact Hr'|]. rewrite SkipList.sorted_insert_perm, Hp, map_app. simpl.
      apply Permutation_cons_append.
Qed.

Lemma AddAll_holds es : forall m es0, holds m es0 -> Forall entry_ok es ->
  StronglySorted (fun a b => e_seq a < e_seq b) (es0 ++ es) ->
  exists m', AddAll m es = Some m' /\ holds m' (es0 ++ es) /\ refs_ m' = refs_ m.
Proof.
  induction es as [|e es IH]; intros m es0 Hm Hok Hs.
  - exists m. by rewrite app_nil_r.
  - apply Forall_cons in Hok as [He Hok]. cbn [AddAll].
    destruct (Add_holds m es0 e Hm He) as (m1 & -> & Hm1 & Hr1).
    { apply Forall_forall. intros a Ha. apply (StronglySorted_app_1_elem_of _ _ _ a e Hs); [done|left]. }
    cbn [mbind option_bind]. destruct (IH m1 (es0 ++ [e]) Hm1 Hok) as (m' & -> & Hm' & Hr').
    { by rewrite <- app_assoc. }
    exists m'. rewrite <- app_assoc in Hm'. split_and!; [done..|congruence].
Qed.

(** ** Lemmas: what a lookup finds *)

(** The reference: the last visible entry in the order of insertion. *)
Definition latest (es : list entry) (u : bytes) (s : Z) : option entry := last (filter (visible u s) es).

(** The order of the sequence numbers is the order of the list. *)
Lemma seq_sorted_eq (es : list entry) a b :
  StronglySorted (fun a b => e_seq a < e_seq b) es -> a ∈ es -> b ∈ es -> e_seq a = e_seq b -> a = b.
Proof.
  induction 1 as [|e es Hs IH He]; intros Ha Hb E; [by apply not_elem_of_nil in Ha|].
  rewrite Forall_forall in He. apply elem_of_cons in Ha as [->|Ha], Hb as [->|Hb]; auto.
  - specialize (He b Hb). simpl in He. lia.
  - specialize (He a Ha). simpl in He. lia.
Qed.

Lemma latest_max es u s c :
  StronglySorted (fun a b => e_seq a < e_seq b) es -> latest es u s = Some c ->
  c ∈ es /\ visible u s c /\ forall a, a ∈ es -> visible u s a -> e_seq a <= e_seq c.
Proof.
  intros Hs Hl. pose proof (last_Some_elem_of _ _ Hl) as Hin.
  apply list_elem_of_filter in Hin as [Hv Hin]. split_and!; [done..|]. intros a Ha Hva.
  apply last_filter_Some in Hl as (l1 & l2 & -> & Hl2). rewrite Forall_forall in Hl2.
  apply elem_of_app in Ha as [Ha|Ha].
  - pose proof (StronglySorted_app_1_elem_of _ _ _ a c Hs Ha ltac:(left)) as Hlt. simpl in Hlt. lia.
  - apply elem_of_cons in Ha as [->|Ha]; [lia|]. by destruct (Hl2 a Ha).
Qed.

(** The first key not below a target is at most every such key. *)
Lemma head_keys_from ks target k k' :
  StronglySorted (fun a b => key_compare a b < 0) ks ->
  head (SkipList.keys_from key_compare target ks) = Some k ->
  k' ∈ ks -> ~ key_compare k' target < 0 -> k = k' \/ key_compare k k' < 0.
Proof.
  intros Hs Hh Hin Hge. apply head_filter_Some in Hh as (l1 & l2 & -> & Hl1). rewrite Forall_forall in Hl1.
  apply elem_of_app in Hin as [Hin|Hin]; [by destruct (Hl1 k' Hin)|].
  apply elem_of_cons in Hin as [->|Hin]; [by left|right]. apply StronglySorted_app_1_r in Hs.
  apply StronglySorted_cons in Hs as [Hk _]. rewrite Forall_forall in Hk. by apply Hk.
Qed.

Lemma keys_from_elem target ks k : head (SkipList.keys_from key_compare target ks) = Some k ->
  k ∈ ks /\ ~ key_compare k target < 0.
Proof.
  intros Hh. apply head_Some_elem_of, list_elem_of_filter in Hh as [? ?]. done.
Qed.

Section Lookup.
Context (m : t) (es : list entry) (u : bytes) (s : Z).
Context (Hm : holds m es) (Hu : valid_key u) (Hlen : zlen u + 8 < 2 ^ 32) (Hseq : seq_ok s).
Let target := LookupKey.memtable_key (LookupKey.make u s).

Lemma found_latest ks c :
  StronglySorted (fun a b => key_compare a b < 0) ks -> ks ≡ₚ map enc es ->
  latest es u s = Some c -> head (SkipList.keys_from key_compare target ks) = Some (enc c).
Proof.
  destruct Hm as (Hok & Hs & _). intros Hsk Hp Hl. rewrite Forall_forall in Hok.
  destruct (latest_max _ _ _ _ Hs Hl) as (Hc & Hvc & Hmax).
  assert (~ key_compare (enc c) target < 0) as Hgc by (apply enc_lookup; auto).
  assert (enc c ∈ ks) as Hck by (rewrite Hp; apply list_elem_of_fmap; eauto).
  destruct (head (SkipList.keys_from key_compare target ks)) as [k|] eqn:Eh.
  2: { exfalso. apply head_None in Eh. apply (not_elem_of_nil (enc c)). rewrite <- Eh.
       by apply list_elem_of_filter. }
  destruct (head_keys_from _ _ _ _ Hsk Eh Hck Hgc) as [->|Hlt]; [done|]. exfalso.
  destruct (keys_from_elem _ _ _ Eh) as [Hk Hgk]. rewrite Hp in Hk.
  apply list_elem_of_fmap in Hk as (a & -> & Ha).
  apply enc_lookup in Hgk; auto. rewrite enc_compare, internal_compare_lt in Hlt by auto.
  unfold e_ikey in Hlt. destruct (Hok a Ha) as (Hva & Hsa & _), (Hok c Hc) as (Hvkc & Hsc & _).
  rewrite !ExtractUserKey_ikey, !ExtractTag_ikey in Hlt by (by apply Pack_range).
  destruct Hvc as [Hcu Hcs].
  destruct Hlt as [Hlt|[Heq Htag]].
  - pose proof (cmp_lt_le_trans _ _ _ Hva Hvkc Hu Hlt ltac:(lia)) as Hau.
    destruct Hgk as [?|[? _]]; lia.
  - pose proof (cmp_trans _ _ _ Hva Hvkc Hu ltac:(lia) ltac:(lia)) as Hau.
    destruct Hgk as [?|Hvis]; [lia|]. specialize (Hmax a Ha Hvis).
    apply Pack_lt in Htag; [|done..]. destruct Htag as [?|[E ?]]; [lia|].
    assert (a = c) as -> by (eapply seq_sorted_eq; eauto). lia.
Qed.

Lemma found_other ks k :
  ks ≡ₚ map enc es -> latest es u s = None ->
  head (SkipList.keys_from key_compare target ks) = Some k ->
  exists a, a ∈ es /\ k = enc a /\ 0 < Compare (e_key a) u.
Proof.
  destruct Hm as (Hok & Hs & _). intros Hp Hl Eh. rewrite Forall_forall in Hok.
  destruct (keys_from_elem _ _ _ Eh) as [Hk Hgk]. rewrite Hp in Hk.
  apply list_elem_of_fmap in Hk as (a & -> & Ha). exists a. split_and!; [done..|].
  apply enc_lookup in Hgk; auto. destruct Hgk as [?|Hv]; [done|]. exfalso.
  apply last_None in Hl. apply (not_elem_of_nil a). rewrite <- Hl. by apply list_elem_of_filter.
Qed.

(** The fields [Get] reads out of an entry. *)
Lemma entry_fields e : entry_ok e ->
  varint_at (enc e) = Some (zlen (e_ikey e), e_ikey e ++ length_prefixed (e_value e)) /\
  take (Z.to_nat (zlen (e_ikey e) - 8)) (e_ikey e ++ length_prefixed (e_value e)) = e_key e /\
  value_type_of (DecodeFixed64 (drop (Z.to_nat (zlen (e_ikey e) - 8))
    (e_ikey e ++ length_prefixed (e_value e))) &&& 0xff) = Some (e_type e) /\
  fst (GetLengthPrefixedSlice (drop (Z.to_nat (zlen (e_ikey e)))
    (e_ikey e ++ length_prefixed (e_value e)))) = e_value e.
Proof.
  intros He. rewrite enc_eq by done. destruct He as (_ & Hse & Hk & Hv).
  pose proof (zlen_nonneg (e_key e)).
  assert (zlen (e_ikey e) = zlen (e_key e) + 8) as El by apply zlen_ikey.
  split_and!.
  - unfold length_prefixed at 1. rewrite <- app_assoc. apply varint_at_Encode. lia.
  - rewrite El. replace (Z.to_nat (zlen (e_key e) + 8 - 8)) with (length (e_key e)) by (unfold zlen; lia).
    unfold e_ikey, ikey. rewrite <- app_assoc. by apply take_app_exact.
  - rewrite El. replace (Z.to_nat (zlen (e_key e) + 8 - 8)) with (length (e_key e)) by (unfold zlen; lia).
    unfold e_ikey, ikey. rewrite <- app_assoc, drop_app_exact by done.
    rewrite DecodeFixed64_Encode by (by apply Pack_range).
    rewrite land_255, Pack_eq by assumption. pose proof (value_type_code_range (e_type e)).
    assert (u8 (e_seq e * 256 + value_type_code (e_type e)) = value_type_code (e_type e)) as -> by word.
    apply value_type_of_code.
  - rewrite drop_app_exact by (unfold zlen; lia).
    rewrite <- (app_nil_r (length_prefixed _)), GetLengthPrefixedSlice_prefixed by done. done.
Qed.

Lemma Get_latest value st :
  Get m (LookupKey.make u s) value st = Some
    match latest es u s with
    | None => (false, value, st)
    | Some e =>
        match e_type e with
        | kTypeValue => (true, e_value e, st)
        | kTypeDeletion => (true, value, NotFound [] [])
        end
    end.
Proof.
  pose proof Hm as (Hok & Hs & ks & Hr & Hp). rewrite Forall_forall in Hok. unfold Get. fold target.
  destruct (SkipList.Seek_index _ _ _ _ _ target Hr) as (n & -> & Hn); [by apply lookup_stored|].
  cbn [mbind option_bind]. f_equal. destruct (SkipList.represents_sorted _ _ _ _ _ Hr) as [Hsk Hvk].
  assert (LookupKey.lookup_user_key (LookupKey.make u s) = u) as ->.
  { unfold LookupKey.lookup_user_key. rewrite lookup_internal_key. apply ExtractUserKey_ikey. }
  assert (SkipList.node_key [] (table_ m) <$> n = head (SkipList.keys_from key_compare target ks)) as Hkey.
  { destruct (SkipList.key_index _ _ _ _ _ _ _ Hn) as [E _]. unfold SkipList.Iterator_key in E. rewrite E.
    apply (SkipList.lookup_keys_below key_compare stored); [done..|by apply lookup_stored]. }
  destruct (latest es u s) as [c|] eqn:El.
  - pose proof (latest_max _ _ _ _ Hs El) as (Hc & [Hcu _] & _).
    rewrite (found_latest ks c Hsk Hp El) in Hkey. destruct n as [node|]; [|done]. injection Hkey as ->.
    destruct (entry_fields c (Hok c Hc)) as (-> & -> & -> & ->). rewrite Hcu, Z.eqb_refl. done.
  - destruct n as [node|]; [|done]. symmetry in Hkey.
    destruct (found_other ks _ Hp El Hkey) as (a & Ha & -> & Hcmp).
    destruct (entry_fields a (Hok a Ha)) as (-> & -> & _). rewrite (proj2 (Z.eqb_neq _ _)) by lia. done.
Qed.
End Lookup.

(** ** Lemmas: iteration *)

Lemma enc_sorted l : Forall entry_ok l -> StronglySorted (fun a b => key_compare a b < 0) (map enc l) ->
  StronglySorted (fun a b => internal_compare (e_ikey a) (e_ikey b) < 0) l.
Proof.
  induction l as [|e l IH]; intros Hok Hs; [constructor|]. apply Forall_cons in Hok as [He Hok].
  simpl in Hs. apply StronglySorted_cons in Hs as [Hel Hs]. constructor; [by apply IH|].
  apply Forall_forall. intros a Ha. rewrite Forall_forall in Hel. rewrite Forall_forall in Hok.
  rewrite <- enc_compare by auto. apply Hel. apply list_elem_of_fmap. eauto.
Qed.

Lemma EncodeKey_eq target : zlen target < 2 ^ 32 -> EncodeKey target = length_prefixed target ++ [].
Proof.
  intros. unfold EncodeKey, PutVarint32, length_prefixed. pose proof (zlen_nonneg target).
  rewrite u32_small by lia. by rewrite app_nil_r.
Qed.

Lemma keys_below_enc target l : Forall entry_ok l -> zlen target < 2 ^ 32 ->
  length (SkipList.keys_below key_compare (EncodeKey target) (map enc l)) =
  length (filter (fun e => internal_compare (e_ikey e) target < 0) l).
Proof.
  intros Hok Ht. unfold SkipList.keys_below. rewrite EncodeKey_eq by done.
  induction Hok as [|e l He Hok IH]; [done|]. cbn [map]. rewrite !filter_cons.
  assert (key_compare (enc e) (length_prefixed target ++ []) = internal_compare (e_ikey e) target) as E.
  { rewrite enc_eq by done. destruct He as (_ & _ & ? & _).
    apply key_compare_stored; [unfold e_ikey; by rewrite zlen_ikey|done]. }
  rewrite E. case_decide; simpl; by rewrite IH.
Qed.

Lemma Iterator_reads m l i it : Forall entry_ok l ->
  SkipList.at_index [] key_compare stored (table_ m) (map enc l) i it ->
  Iterator_key m it = e_ikey <$> l !! i /\ Iterator_value m it = e_value <$> l !! i.
Proof.
  intros Hok Hi. destruct (SkipList.key_index _ _ _ _ _ _ _ Hi) as [Hk _].
  unfold Iterator_key, Iterator_value. rewrite Hk, list_lookup_fmap.
  destruct (l !! i) as [e|] eqn:E; [|done]. cbn [fmap option_fmap option_map].
  rewrite Forall_forall in Hok. pose proof (Hok e ltac:(by eapply list_elem_of_lookup_2)) as He.
  rewrite enc_eq by done. pose proof He as (_ & _ & ? & ?).
  rewrite GetLengthPrefixedSlice_prefixed by (unfold e_ikey; by rewrite zlen_ikey). cbn [fst snd].
  rewrite <- (app_nil_r (length_prefixed _)), GetLengthPrefixedSlice_prefixed by done. done.
Qed.

(** ** Properties *)

(** C29. The memtable is a multi-version map: after any sequence of [Add]s with
    increasing sequence numbers (which always succeed and exactly fill the
    buffers they allocate), [Get] of user key [u] at snapshot [s] returns the
    value of the last [Add] of [u] with sequence number at most [s]; if that was
    a deletion it returns true with [NotFound]; if there is none it returns
    false and leaves the outputs alone. *)
Theorem memtable_get_latest es u s value st :
  Forall entry_ok es -> StronglySorted (fun a b => e_seq a < e_seq b) es ->
  valid_key u -> zlen u + 8 < 2 ^ 32 -> seq_ok s ->
  Forall (fun e => zlen (enc e) = encoded_len (e_key e) (e_value e)) es /\
  exists m, AddAll make es = Some m /\
    Get m (LookupKey.make u s) value st = Some
      match last (filter (fun e => Compare (e_key e) u = 0 /\ e_seq e <= s) es) with
      | None => (false, value, st)
      | Some e =>
          match e_type e with
          | kTypeValue => (true, e_value e, st)
          | kTypeDeletion => (true, value, NotFound [] [])
          end
      end.
Proof.
  intros Hok Hs Hu Hl Hseq. split.
  { eapply Forall_impl; [exact Hok|]. intros e (_ & _ & He). by apply encode_entry_length. }
  destruct (AddAll_holds es make [] make_holds Hok Hs) as (m & -> & Hm & _).
  exists m. split; [done|]. by apply (Get_latest m es).
Qed.

(** Iterating a memtable yields its entries in the internal key order: from
    any index the iterator's key and value are those of the entry there, [Seek]
    finds the first internal key not below its target, and the traversal visits
    a permutation of everything added. *)
Theorem memtable_iterator_sorted es target :
  Forall entry_ok es -> StronglySorted (fun a b => e_seq a < e_seq b) es ->
  @valid_key (@InternalKeyComparator C) target -> zlen target < 2 ^ 32 ->
  exists m sorted, AddAll make es = Some m /\ sorted ≡ₚ es /\
    StronglySorted (fun a b => internal_compare (e_ikey a) (e_ikey b) < 0) sorted /\
    SkipList.at_index [] key_compare stored (table_ m) (map enc sorted) 0 (Iterator_SeekToFirst m) /\
    (forall i it, SkipList.at_index [] key_compare stored (table_ m) (map enc sorted) i it ->
       Iterator_key m it = e_ikey <$> sorted !! i /\ Iterator_value m it = e_value <$> sorted !! i /\
       ((i < length sorted)%nat ->
          SkipList.at_index [] key_compare stored (table_ m) (map enc sorted) (S i) (Iterator_Next m it))) /\
    (exists it, Iterator_Seek m target = Some it /\
       SkipList.at_index [] key_compare stored (table_ m) (map enc sorted)
         (length (filter (fun e => internal_compare (e_ikey e) target < 0) sorted)) it).
Proof.
  intros Hok Hs Ht Htl.
  destruct (AddAll_holds es make [] make_holds Hok Hs) as (m & -> & (_ & _ & ks & Hr & Hp) & _).
  apply Permutation_map_inv in Hp as (sorted & -> & Hps).
  assert (Forall entry_ok sorted) as Hok' by (by rewrite <- Hps).
  exists m, sorted. destruct (SkipList.represents_sorted _ _ _ _ _ Hr) as [Hsk _].
  split_and!; [done|done|by apply enc_sorted|by apply SkipList.SeekToFirst_index| |].
  - intros i it Hi. destruct (Iterator_reads m sorted i it Hok' Hi). split_and!; [done..|].
    intros Hlt. apply (SkipList.Next_index [] key_compare stored); [done|]. by rewrite length_map.
  - rewrite <- keys_below_enc by done. apply (SkipList.Seek_index [] key_compare stored); [done|].
    rewrite EncodeKey_eq by done. by exists target, [].
Qed.
End Laws.

(** ** Witnesses *)

Definition sample : list entry :=
  [{| e_seq := 1; e_type := kTypeValue; e_key := [107]; e_value := [1] |};
   {| e_seq := 2; e_type := kTypeValue; e_key := [106]; e_value := [] |};
   {| e_seq := 5; e_type := kTypeDeletion; e_key := [107]; e_value := [] |}].

Lemma sample_ok : Forall entry_ok sample /\ StronglySorted (fun a b => e_seq a < e_seq b) sample.
Proof.
  split.
  - repeat constructor; discriminate.
  - repeat constructor.
Qed.

Lemma memtable_get_latest_witness :
  exists m, AddAll make sample = Some m /\
    Get m (LookupKey.make [107] 4) [] None = Some (true, [1], None).
Proof.
  destruct (memtable_get_latest sample [107] 4 [] None) as (_ & m & Hadd & Hget);
    [apply sample_ok|apply sample_ok|repeat constructor; discriminate|reflexivity| |].
  - split; [lia|]. vm_compute. discriminate.
  - exists m. split; [exact Hadd|]. rewrite Hget. vm_compute. reflexivity.
Defined.

Lemma memtable_iterator_sorted_witness :
  exists m sorted, AddAll make sample = Some m /\ sorted ≡ₚ sample /\
    SkipList.at_index [] key_compare stored (table_ m) (map enc sorted) 0 (Iterator_SeekToFirst m).
Proof.
  destruct (memtable_iterator_sorted sample (ikey [107] 256)) as (m & sorted & H1 & H2 & _ & H3 & _).
  - apply sample_ok.
  - apply sample_ok.
  - apply valid_ikey. repeat constructor; discriminate.
  - reflexivity.
  - exists m, sorted. split_and!; assumption.
Defined.
End MemTable.
