(* ===== verification/WriteBatch.v ===== *)
(** * WriteBatch: atomic groups of updates

    Models src/LSM-EBF/db/write_batch.cc and write_batch_internal.h: the batch is
    its serialized form [rep_], read back by [Iterate] with a handler, whose
    instance [MemTableInserter] applies the batch to a memtable. *)
From stdpp Require Import sorting.
From S2P Require Import Prelude Coding Status Comparator DbFormat Random SkipList MemTable.

Module WriteBatch.

Definition kHeader : nat := 12.

(** [rep_]: sequence (8), count (4), records. *)
Abbreviation t := bytes.

Definition Clear : t := resize0 [] kHeader.
Definition make : t := Clear.
Definition ApproximateSize (rep_ : t) : Z := zlen rep_.

(** [Count] converts the stored number to [int]. *)
Definition as_int (x : Z) : Z := if x <? 2 ^ 31 then x else x - 2 ^ 32.

Definition Count (b : t) : Z := as_int (DecodeFixed32 (drop 8 b)).

(** [EncodeFixed32(&b->rep_[8], n)], in place. *)
Definition SetCount (b : t) (n : Z) : t := take 8 b ++ EncodeFixed32 (u32 n) ++ drop 12 b.

Definition Sequence (b : t) : Z := DecodeFixed64 b.
Definition SetSequence (b : t) (seq : Z) : t := EncodeFixed64 seq ++ drop 8 b.

Definition Put (rep_ key value : bytes) : t :=
  let rep_ := SetCount rep_ (Count rep_ + 1) in
  let rep_ := rep_ ++ [value_type_code kTypeValue] in
  let rep_ := PutLengthPrefixedSlice rep_ key in
  PutLengthPrefixedSlice rep_ value.

Definition Delete (rep_ key : bytes) : t :=
  let rep_ := SetCount rep_ (Count rep_ + 1) in
  let rep_ := rep_ ++ [value_type_code kTypeDeletion] in
  PutLengthPrefixedSlice rep_ key.

Definition Contents (b : t) : bytes := b.
Definition ByteSize (b : t) : Z := zlen b.
Definition SetContents (contents : bytes) : t := contents.

Definition Append (dst src : t) : t :=
  let dst := SetCount dst (Count dst + Count src) in
  dst ++ drop kHeader src.

(** The virtual functions of [WriteBatch::Handler], on the handler's state. *)
Class Handler (H : Type) := {
  handle_put : H -> bytes -> bytes -> H;
  handle_delete : H -> bytes -> H
}.

Section Iterate.
Context {H : Type} `{!Handler H}.

(** [while (!input.empty())]; [None] is out of fuel.  Every turn consumes the
    tag, so the length of the input is enough. *)
Fixpoint Iterate_loop (fuel : nat) (input : bytes) (found : Z) (h : H) : option (H * (Status + Z)) :=
  match fuel with
  | O => None
  | S fuel =>
      match input with
      | [] => Some (h, inr found)
      | tag :: input =>
          let found := found + 1 in
          match value_type_of tag with
          | Some kTypeValue =>
              match GetLengthPrefixedSlice input with
              | (Some key, input) =>
                  match GetLengthPrefixedSlice input with
                  | (Some value, input) => Iterate_loop fuel input found (handle_put h key value)
                  | (None, _) => Some (h, inl (Corruption (str "bad WriteBatch Put") []))
                  end
              | (None, _) => Some (h, inl (Corruption (str "bad WriteBatch Put") []))
              end
          | Some kTypeDeletion =>
              match GetLengthPrefixedSlice input with
              | (Some key, input) => Iterate_loop fuel input found (handle_delete h key)
              | (None, _) => Some (h, inl (Corruption (str "bad WriteBatch Delete") []))
              end
          | None => Some (h, inl (Corruption (str "unknown WriteBatch tag") []))
          end
      end
  end.

Definition Iterate (rep_ : t) (h : H) : option (H * Status) :=
  if zlen rep_ <? Z.of_nat kHeader
  then Some (h, Corruption (str "malformed WriteBatch (too small)") [])
  else
    '(h, r) ← Iterate_loop (S (length rep_)) (drop kHeader rep_) 0 h;
    Some (h, match r with
             | inl s => s
             | inr found =>
                 if found =? Count rep_ then Status_OK
                 else Corruption (str "WriteBatch has wrong count") []
             end).
End Iterate.

(** [MemTableInserter]: [None] once a memtable insertion did not end. *)
Section Inserter.
Context {user_comparator : Comparator}.

Record MemTableInserter := { sequence_ : Z; mem_ : option MemTable.t }.

Definition insert_with (i : MemTableInserter) (type : ValueType) (key value : bytes) : MemTableInserter :=
  {| sequence_ := u64 (sequence_ i + 1);
     mem_ := m ← mem_ i; MemTable.Add m (sequence_ i) type key value |}.

#[export] Instance MemTableInserter_Handler : Handler MemTableInserter := {
  handle_put := fun i key value => insert_with i kTypeValue key value;
  handle_delete := fun i key => insert_with i kTypeDeletion key []
}.

Definition InsertInto (b : t) (memtable : MemTable.t) : option (option MemTable.t * Status) :=
  '(i, s) ← Iterate b {| sequence_ := Sequence b; mem_ := Some memtable |};
  Some (mem_ i, s).
End Inserter.

(** ** Operations and their wire form *)

Inductive op := OpPut (key value : bytes) | OpDelete (key : bytes).

Definition op_key (o : op) : bytes := match o with OpPut k _ => k | OpDelete k => k end.

Definition apply_op (b : t) (o : op) : t :=
  match o with OpPut k v => Put b k v | OpDelete k => Delete b k end.

Definition build (ops : list op) : t := fold_left apply_op ops make.

Definition replay {H} `{!Handler H} (ops : list op) (h : H) : H :=
  fold_left (fun h o => match o with OpPut k v => handle_put h k v | OpDelete k => handle_delete h k end)
    ops h.

Lemma replay_cons {H} `{!Handler H} o ops (h : H) :
  replay (o :: ops) h =
  replay ops match o with OpPut k v => handle_put h k v | OpDelete k => handle_delete h k end.
Proof. reflexivity. Qed.

Definition op_ok (o : op) : Prop :=
  match o with
  | OpPut k v => zlen k < 2 ^ 32 /\ zlen v < 2 ^ 32
  | OpDelete k => zlen k < 2 ^ 32
  end.

Definition record (o : op) : bytes :=
  match o with
  | OpPut k v => [1] ++ length_prefixed k ++ length_prefixed v
  | OpDelete k => [0] ++ length_prefixed k
  end.

Definition wire (seq : Z) (ops : list op) : bytes :=
  EncodeFixed64 seq ++ EncodeFixed32 (zlen ops) ++ concat (map record ops).

(** ** Lemmas: building *)

Lemma drop8_wire seq ops :
  drop 8 (wire seq ops) = EncodeFixed32 (zlen ops) ++ concat (map record ops).
Proof. unfold wire. by apply drop_app_exact; len. Qed.

Lemma drop12_wire seq ops : drop 12 (wire seq ops) = concat (map record ops).
Proof.
  change 12%nat with (8 + 4)%nat. rewrite <- drop_drop, drop8_wire. by apply drop_app_exact; len.
Qed.

Lemma Count_wire seq ops : zlen ops < 2 ^ 31 -> Count (wire seq ops) = zlen ops.
Proof.
  intros Hl. pose proof (zlen_nonneg ops). unfold Count. rewrite drop8_wire, DecodeFixed32_Encode by lia.
  unfold as_int. by rewrite (proj2 (Z.ltb_lt _ _)).
Qed.

Lemma Sequence_wire seq ops : 0 <= seq < 2 ^ 64 -> Sequence (wire seq ops) = seq.
Proof. intros. by apply DecodeFixed64_Encode. Qed.

Lemma SetSequence_wire s1 s2 ops : SetSequence (wire s1 ops) s2 = wire s2 ops.
Proof. unfold SetSequence. by rewrite drop8_wire. Qed.

Lemma SetCount_wire seq ops n : 0 <= n < 2 ^ 32 ->
  SetCount (wire seq ops) n = EncodeFixed64 seq ++ EncodeFixed32 n ++ concat (map record ops).
Proof.
  intros. unfold SetCount. rewrite drop12_wire, u32_small by done. reflexivity.
Qed.

Lemma make_wire : make = wire 0 [].
Proof. reflexivity. Qed.

Lemma apply_op_wire seq ops o : zlen ops < 2 ^ 31 - 1 -> op_ok o ->
  apply_op (wire seq ops) o = wire seq (ops ++ [o]).
Proof.
  intros Hl Ho. pose proof (zlen_nonneg ops).
  unfold wire at 2. rewrite map_app, concat_app, zlen_app. change (zlen [o]) with 1.
  cbn [map concat]. rewrite app_nil_r.
  destruct o as [k v|k]; simpl in Ho; cbn [apply_op]; unfold Put, Delete.
  - destruct Ho. rewrite Count_wire, SetCount_wire by lia. rewrite !PutLengthPrefixedSlice_eq by done.
    cbn [record value_type_code]. by rewrite <- !app_assoc.
  - rewrite Count_wire, SetCount_wire by lia. rewrite !PutLengthPrefixedSlice_eq by done.
    cbn [record value_type_code]. by rewrite <- !app_assoc.
Qed.

Lemma build_from ops : forall seq ops0, Forall op_ok ops -> zlen ops0 + zlen ops < 2 ^ 31 ->
  fold_left apply_op ops (wire seq ops0) = wire seq (ops0 ++ ops).
Proof.
  induction ops as [|o ops IH]; intros seq ops0 Hok Hl; simpl; [by rewrite app_nil_r|].
  apply Forall_cons in Hok as [Ho Hok]. rewrite zlen_cons in Hl. pose proof (zlen_nonneg ops).
  rewrite apply_op_wire by (done || lia). rewrite IH; [by rewrite <- app_assoc|done|].
  rewrite zlen_app. change (zlen [o]) with 1. lia.
Qed.

Lemma build_wire ops : Forall op_ok ops -> zlen ops < 2 ^ 31 -> build ops = wire 0 ops.
Proof. intros Hok Hl. apply (build_from ops 0 []); [done|]. by rewrite zlen_nil. Qed.

Lemma Append_wire s1 a s2 b : zlen a + zlen b < 2 ^ 31 -> Append (wire s1 a) (wire s2 b) = wire s1 (a ++ b).
Proof.
  intros Hl. pose proof (zlen_nonneg a). pose proof (zlen_nonneg b). unfold Append, kHeader.
  rewrite !Count_wire, SetCount_wire, drop12_wire by lia. unfold wire.
  by rewrite map_app, concat_app, zlen_app, <- !app_assoc.
Qed.

(** ** Lemmas: iterating *)

Section IterateLemmas.
Context {H : Type} `{!Handler H}.

Lemma Iterate_loop_records ops : forall fuel found h,
  Forall op_ok ops -> (length (concat (map record ops)) < fuel)%nat ->
  Iterate_loop fuel (concat (map record ops)) found h = Some (replay ops h, inr (found + zlen ops)).
Proof.
  induction ops as [|o ops IH]; intros fuel found h Hok Hf.
  - destruct fuel; simpl in *; [lia|]. by rewrite zlen_nil, Z.add_0_r.
  - apply Forall_cons in Hok as [Ho Hok]. cbn [map concat] in *. rewrite length_app in Hf.
    destruct fuel as [|fuel]; [lia|]. rewrite zlen_cons, Z.add_assoc.
    destruct o as [k v|k]; simpl in Ho; cbn [record app length] in Hf |- *;
      cbn [Iterate_loop value_type_of].
    + destruct Ho. rewrite <- app_assoc, !GetLengthPrefixedSlice_Put by done. apply IH; [done|lia].
    + rewrite GetLengthPrefixedSlice_Put by done. apply IH; [done|lia].
Qed.

Lemma Iterate_wire seq ops h : Forall op_ok ops -> zlen ops < 2 ^ 31 ->
  Iterate (wire seq ops) h = Some (replay ops h, Status_OK).
Proof.
  intros Hok Hl. unfold Iterate.
  assert (12 <= zlen (wire seq ops)) as Hlen.
  { unfold wire. rewrite !zlen_app. pose proof (zlen_nonneg (concat (map record ops))).
    unfold zlen at 1 2. rewrite length_EncodeFixed64, length_EncodeFixed32. lia. }
  rewrite (proj2 (Z.ltb_ge _ _)) by (unfold kHeader; lia). unfold kHeader. rewrite drop12_wire.
  rewrite Iterate_loop_records; [|done|rewrite <- (drop12_wire seq), length_drop; lia].
  cbn [mbind option_bind]. by rewrite Count_wire, Z.add_0_l, Z.eqb_refl.
Qed.

(** Reading consumes input: on any bytes the loop ends with the length as fuel,
    having replayed the operations it found. *)
Lemma GetLengthPrefixedSlice_shorter input v rest :
  bytes_ok input -> GetLengthPrefixedSlice input = (Some v, rest) ->
  (length rest <= length input)%nat /\ bytes_ok rest.
Proof.
  intros Hok E. apply GetLengthPrefixedSlice_splits in E as (pre & -> & _); [|done].
  apply bytes_ok_app in Hok as [_ Hok]. apply bytes_ok_app in Hok as [_ Hok].
  rewrite !length_app. split; [lia|done].
Qed.

Lemma Iterate_loop_total fuel : forall input found h, bytes_ok input -> (length input < fuel)%nat ->
  exists ops r, Iterate_loop fuel input found h = Some (replay ops h, r) /\
    match r with inl s => ok s = false | inr n => n = found + zlen ops end.
Proof.
  induction fuel as [|fuel IH]; intros input found h Hok Hf; [lia|]. destruct input as [|tag input].
  { exists [], (inr found). split; [done|]. rewrite zlen_nil. lia. }
  simpl in Hf. cbn [Iterate_loop]. apply Forall_cons in Hok as [_ Hok].
  assert (forall s, exists ops r, Some (h, inl (Corruption s [])) = Some (replay ops h, r) /\
    match r with inl s => ok s = false | inr n => n = found + zlen ops end) as Hbad.
  { intros s. by exists [], (inl (Corruption s [])). }
  destruct (value_type_of tag) as [[]|]; [| |apply Hbad].
  - destruct (GetLengthPrefixedSlice input) as [[k|] input'] eqn:E; [|apply Hbad].
    apply GetLengthPrefixedSlice_shorter in E as [? ?]; [|done].
    destruct (IH input' (found + 1) (handle_delete h k) ltac:(done) ltac:(lia)) as (ops & r & -> & Hr).
    exists (OpDelete k :: ops), r. split; [done|]. destruct r; [done|]. rewrite zlen_cons. lia.
  - destruct (GetLengthPrefixedSlice input) as [[k|] input'] eqn:E; [|apply Hbad].
    destruct (GetLengthPrefixedSlice input') as [[v|] input2] eqn:E2; [|apply Hbad].
    apply GetLengthPrefixedSlice_shorter in E as [? ?]; [|done].
    apply GetLengthPrefixedSlice_shorter in E2 as [? ?]; [|done].
    destruct (IH input2 (found + 1) (handle_put h k v) ltac:(done) ltac:(lia)) as (ops & r & -> & Hr).
    exists (OpPut k v :: ops), r. split; [done|]. destruct r; [done|]. rewrite zlen_cons. lia.
Qed.
End IterateLemmas.

(** ** Lemmas: applying a batch *)

Section Apply.
Context {C : Comparator} {L : ComparatorLaws C}.

(** The memtable entries of a batch that starts at sequence number [seq]. *)
Fixpoint op_entries (seq : Z) (ops : list op) : list MemTable.entry :=
  match ops with
  | [] => []
  | o :: ops =>
      match o with
      | OpPut k v => MemTable.Build_entry seq kTypeValue k v
      | OpDelete k => MemTable.Build_entry seq kTypeDeletion k []
      end :: op_entries (seq + 1) ops
  end.

Definition op_valid (o : op) : Prop :=
  valid_key (op_key o) /\ zlen (op_key o) + 8 < 2 ^ 32 /\
  match o with OpPut _ v => zlen v < 2 ^ 32 | OpDelete _ => True end.

Lemma op_valid_ok o : op_valid o -> op_ok o.
Proof. destruct o; unfold op_valid; simpl; intros (_ & ? & ?); [split|]; lia. Qed.

Lemma length_op_entries seq ops : length (op_entries seq ops) = length ops.
Proof. revert seq. induction ops as [|o ops IH]; intros seq; simpl; [done|]. by rewrite IH. Qed.

Lemma op_entries_range seq ops e : e ∈ op_entries seq ops -> seq <= MemTable.e_seq e < seq + zlen ops.
Proof.
  revert seq. induction ops as [|o ops IH]; intros seq He; [by apply not_elem_of_nil in He|].
  rewrite zlen_cons. pose proof (zlen_nonneg ops). cbn [op_entries] in He.
  apply elem_of_cons in He as [->|He]; [destruct o; simpl; lia|]. apply IH in He. lia.
Qed.

Lemma op_entries_ok seq ops : Forall op_valid ops -> 0 <= seq -> seq + zlen ops <= kMaxSequenceNumber + 1 ->
  Forall MemTable.entry_ok (op_entries seq ops).
Proof.
  revert seq. induction ops as [|o ops IH]; intros seq Hok Hs Hm; [constructor|].
  apply Forall_cons in Hok as [(Hv & Hk & Ho) Hok]. rewrite zlen_cons in Hm. pose proof (zlen_nonneg ops).
  constructor; [|apply IH; [done|lia..]].
  destruct o; split_and!; simpl in *; try done; unfold seq_ok; lia.
Qed.

Lemma op_entries_sorted seq ops :
  StronglySorted (fun a b => MemTable.e_seq a < MemTable.e_seq b) (op_entries seq ops).
Proof.
  revert seq. induction ops as [|o ops IH]; intros seq; [constructor|]. constructor; [apply IH|].
  apply Forall_forall. intros e He. apply op_entries_range in He. destruct o; simpl; lia.
Qed.

(** Replaying with the inserter is adding the entries one by one. *)
Lemma replay_inserter ops : forall seq m, 0 <= seq -> seq + zlen ops < 2 ^ 64 ->
  replay ops {| sequence_ := seq; mem_ := m |} =
  {| sequence_ := seq + zlen ops; mem_ := m ← m; MemTable.AddAll m (op_entries seq ops) |}.
Proof.
  induction ops as [|o ops IH]; intros seq m Hs Hm.
  - unfold replay. cbn [fold_left]. rewrite zlen_nil, Z.add_0_r. by destruct m.
  - rewrite zlen_cons in *. pose proof (zlen_nonneg ops).
    assert (forall ty k v, insert_with {| sequence_ := seq; mem_ := m |} ty k v =
      {| sequence_ := seq + 1; mem_ := m ← m; MemTable.Add m seq ty k v |}) as Hi.
    { intros. unfold insert_with. cbn [sequence_ mem_]. by rewrite u64_small by lia. }
    rewrite replay_cons. destruct o as [k v|k]; cbn [handle_put handle_delete MemTableInserter_Handler];
      rewrite Hi, IH by lia; f_equal; try lia; by destruct m.
Qed.

(** The last entry of the batch for a key, from the last operation on it. *)
Definition last_op (u : bytes) (ops : list op) : option op :=
  last (filter (fun o => Compare (op_key o) u = 0) ops).

Lemma filter_op_entries u s ops : forall seq, seq + zlen ops <= s + 1 ->
  map (fun e => (MemTable.e_type e, MemTable.e_value e)) (filter (MemTable.visible u s) (op_entries seq ops)) =
  map (fun o => match o with OpPut _ v => (kTypeValue, v) | OpDelete _ => (kTypeDeletion, []) end)
    (filter (fun o => Compare (op_key o) u = 0) ops).
Proof.
  induction ops as [|o ops IH]; intros seq Hs; [done|]. rewrite zlen_cons in Hs.
  pose proof (zlen_nonneg ops). cbn [op_entries].
  specialize (IH (seq + 1) ltac:(lia)).
  destruct (decide (Compare (op_key o) u = 0)).
  - rewrite !filter_cons_True; [cbn [map]; rewrite IH; by destruct o|done|].
    destruct o; (split; [done|simpl; lia]).
  - rewrite !filter_cons_False; [done|done|]. intros [E _]. destruct o; done.
Qed.

Lemma latest_batch es ops seq u s : seq + zlen ops <= s + 1 ->
  (fun e => (MemTable.e_type e, MemTable.e_value e)) <$> MemTable.latest (es ++ op_entries seq ops) u s =
  match last_op u ops with
  | Some (OpPut _ v) => Some (kTypeValue, v)
  | Some (OpDelete _) => Some (kTypeDeletion, [])
  | None => (fun e => (MemTable.e_type e, MemTable.e_value e)) <$> MemTable.latest es u s
  end.
Proof.
  intros Hs. unfold MemTable.latest, last_op. rewrite filter_app, last_app.
  pose proof (filter_op_entries u s ops seq Hs) as Hf.
  apply (f_equal last) in Hf. rewrite !fmap_last in Hf.
  destruct (last (filter (MemTable.visible u s) (op_entries seq ops))) as [e|],
    (last (filter (fun o => Compare (op_key o) u = 0) ops)) as [o|]; simpl in *; try done.
  by destruct o.
Qed.

Lemma latest_before es ops seq u s : s < seq ->
  MemTable.latest (es ++ op_entries seq ops) u s = MemTable.latest es u s.
Proof.
  intros Hs. unfold MemTable.latest. rewrite filter_app.
  rewrite (filter_none _ (op_entries seq ops)); [by rewrite app_nil_r|].
  intros e He [_ Hle]. apply op_entries_range in He. lia.
Qed.
End Apply.

(** ** Properties *)

(** A batch replays what was put into it: for any list of [Put]s and
    [Delete]s, the batch built by those calls carries its sequence number and its
    count, [Iterate] calls the handler with exactly those operations in order and
    returns OK, and [Append] makes the batch of the concatenated lists, keeping
    the first one's sequence number. *)
Theorem write_batch_replay {H : Type} `{!Handler H} ops1 ops2 seq1 seq2 (h : H) :
  Forall op_ok ops1 -> Forall op_ok ops2 -> zlen ops1 + zlen ops2 < 2 ^ 31 ->
  0 <= seq1 < 2 ^ 64 ->
  let b1 := SetSequence (build ops1) seq1 in
  let b2 := SetSequence (build ops2) seq2 in
  Sequence b1 = seq1 /\ Count b1 = zlen ops1 /\
  Iterate b1 h = Some (replay ops1 h, Status_OK) /\
  Sequence (Append b1 b2) = seq1 /\ Count (Append b1 b2) = zlen ops1 + zlen ops2 /\
  Iterate (Append b1 b2) h = Some (replay ops2 (replay ops1 h), Status_OK).
Proof.
  intros H1 H2 Hl Hs b1 b2. pose proof (zlen_nonneg ops1). pose proof (zlen_nonneg ops2). subst b1 b2.
  rewrite !build_wire, !SetSequence_wire by (done || lia).
  rewrite Append_wire, !Sequence_wire, !Count_wire, !Iterate_wire; try done; rewrite ?zlen_app; try lia.
  - split_and!; [done..|]. unfold replay. by rewrite fold_left_app.
  - by apply Forall_app.
Qed.

(** Reading an arbitrary batch, as recovery does with log contents: on any
    bytes [Iterate] terminates, the handler has seen a list of operations in
    order, and the status is OK only if their number is the stored count;
    a batch shorter than its header is rejected untouched. *)
Theorem write_batch_iterate_total {H : Type} `{!Handler H} rep_ (h : H) :
  bytes_ok rep_ ->
  exists ops s, Iterate rep_ h = Some (replay ops h, s) /\
    (ok s = true -> Count rep_ = zlen ops /\ (kHeader <= length rep_)%nat) /\
    ((length rep_ < kHeader)%nat -> ops = [] /\ ok s = false).
Proof.
  intros Hok. unfold Iterate. destruct (Z.ltb_spec (zlen rep_) (Z.of_nat kHeader)) as [Hl|Hl].
  - eexists [], _. split; [reflexivity|]. done.
  - unfold zlen in Hl.
    destruct (Iterate_loop_total (S (length rep_)) (drop kHeader rep_) 0 h) as (ops & r & -> & Hr).
    { by apply bytes_ok_drop. }
    { rewrite length_drop. lia. }
    cbn [mbind option_bind]. eexists ops, _. split; [done|]. split; [|lia]. destruct r as [s|n].
    + rewrite Hr. done.
    + destruct (Z.eqb_spec n (Count rep_)); [|done]. intros _. split; lia.
Qed.

(** C30. Applying a batch to a memtable that holds older entries: [InsertInto]
    succeeds; at every snapshot from the batch's last sequence number on, a lookup
    sees the last operation of the batch on its key and otherwise what the
    memtable held before; at every snapshot older than the batch nothing has
    changed. *)
Theorem write_batch_apply {C : Comparator} {L : ComparatorLaws C} m es ops seq :
  MemTable.holds m es -> Forall op_valid ops -> Forall (fun e => MemTable.e_seq e < seq) es ->
  0 <= seq -> seq + zlen ops <= kMaxSequenceNumber + 1 -> zlen ops < 2 ^ 31 ->
  exists m', InsertInto (SetSequence (build ops) seq) m = Some (Some m', Status_OK) /\
    forall u s value st, valid_key u -> zlen u + 8 < 2 ^ 32 -> seq_ok s ->
      (s < seq -> MemTable.Get m' (LookupKey.make u s) value st = MemTable.Get m (LookupKey.make u s) value st) /\
      (seq + zlen ops <= s + 1 ->
       MemTable.Get m' (LookupKey.make u s) value st =
         match last_op u ops with
         | Some (OpPut _ v) => Some (true, v, st)
         | Some (OpDelete _) => Some (true, value, NotFound [] [])
         | None => MemTable.Get m (LookupKey.make u s) value st
         end).
Proof.
  intros Hm Hops Hes Hs Hmax Hl. pose proof (zlen_nonneg ops).
  assert (Forall op_ok ops) as Hok by (eapply Forall_impl; [exact Hops|]; apply op_valid_ok).
  assert (kMaxSequenceNumber + 1 < 2 ^ 64) as Hk by (vm_compute; done).
  destruct (MemTable.AddAll_holds (op_entries seq ops) m es Hm) as (m' & Em & Hm' & _).
  { by apply op_entries_ok. }
  { apply StronglySorted_app_2; [|apply Hm|apply op_entries_sorted].
    intros a b Ha Hb. rewrite Forall_forall in Hes. specialize (Hes a Ha). apply op_entries_range in Hb.
    simpl in *. lia. }
  exists m'. split.
  - unfold InsertInto. rewrite build_wire, SetSequence_wire, Sequence_wire, Iterate_wire by (done || lia).
    cbn [mbind option_bind]. rewrite replay_inserter by lia. cbn [mem_ mbind option_bind]. by rewrite Em.
  - intros u s value st Hu Hul Hsq.
    rewrite (MemTable.Get_latest m' _ u s Hm' Hu Hul Hsq), (MemTable.Get_latest m _ u s Hm Hu Hul Hsq).
    split; [intros Hlt; by rewrite latest_before|]. intros Hge.
    pose proof (latest_batch es ops seq u s Hge) as Hlb.
    destruct (MemTable.latest (es ++ op_entries seq ops) u s) as [e|], (last_op u ops) as [[k v|k]|];
      simpl in Hlb; try done; try (injection Hlb as E1 E2; rewrite ?E1, ?E2; done).
    + destruct (MemTable.latest es u s) as [e'|]; [|done]. injection Hlb as -> ->. done.
    + by destruct (MemTable.latest es u s).
Qed.

(** ** Witnesses *)

(** A handler that records the calls it gets. *)
#[local] Instance logger : Handler (list op) := {
  handle_put := fun h k v => h ++ [OpPut k v];
  handle_delete := fun h k => h ++ [OpDelete k]
}.

Lemma write_batch_replay_witness :
  Iterate (SetSequence (build [OpPut [97] [1; 2]; OpDelete [98]]) 100) (@nil op) =
    Some (replay [OpPut [97] [1; 2]; OpDelete [98]] [], Status_OK).
Proof.
  apply (write_batch_replay [OpPut [97] [1; 2]; OpDelete [98]] [] 100 0 []).
  - repeat constructor.
  - constructor.
  - reflexivity.
  - lia.
Defined.

Lemma write_batch_iterate_total_witness :
  exists ops s, Iterate (H := list op) [0; 0; 0; 0; 0; 0; 0; 0; 1; 0; 0; 0; 7] [] = Some (replay ops [], s).
Proof.
  destruct (write_batch_iterate_total (H := list op) [0; 0; 0; 0; 0; 0; 0; 0; 1; 0; 0; 0; 7] [])
    as (ops & s & E & _).
  - repeat constructor; discriminate.
  - exists ops, s. exact E.
Defined.

Lemma write_batch_apply_witness :
  exists m', InsertInto (SetSequence (build [OpPut [97] [1]; OpDelete [97]]) 7) MemTable.make
      = Some (Some m', Status_OK) /\
    MemTable.Get m' (LookupKey.make [97] 9) [] None = Some (true, [], NotFound [] []).
Proof.
  destruct (write_batch_apply MemTable.make [] [OpPut [97] [1]; OpDelete [97]] 7) as (m' & E & Hget).
  - apply MemTable.make_holds.
  - repeat constructor; discriminate.
  - constructor.
  - lia.
  - vm_compute. discriminate.
  - reflexivity.
  - exists m'. split; [exact E|].
    destruct (Hget [97] 9 [] None) as [_ Hg]; [repeat constructor; discriminate|reflexivity| |].
    + split; [lia|]. vm_compute. discriminate.
    + apply Hg. vm_compute. discriminate.
Defined.
End WriteBatch.
