(* ===== verification/Logging.v ===== *)
(** * Logging: printing and parsing numbers

    src/LSM-EBF/util/logging.cc, and the decimal conversions of [snprintf] the
    sources use. *)
From S2P Require Import Prelude.

(** [%u] and [%llu]. *)
Fixpoint utoa_loop (fuel : nat) (n : Z) (acc : bytes) : bytes :=
  match fuel with
  | O => acc
  | S fuel =>
      let acc := 48 + n mod 10 :: acc in
      if n / 10 =? 0 then acc else utoa_loop fuel (n / 10) acc
  end.

Definition utoa (n : Z) : bytes := utoa_loop 20 n [].

(** [%02x] of a byte. *)
Definition hex_digit (d : Z) : Z := if d <? 10 then 48 + d else 87 + d.

Definition AppendNumberTo (s : bytes) (num : Z) : bytes := s ++ take 29 (utoa num).

(** Characters are signed: bytes above 127 are below [' ']. *)
Definition AppendEscapedStringTo (s value : bytes) : bytes :=
  s ++ concat ((fun c => if (32 <=? c) && (c <=? 126) then [c] else str "\x" ++ [hex_digit (c / 16); hex_digit (c mod 16)]) <$> value).

Definition NumberToString (num : Z) : bytes := AppendNumberTo [] num.
Definition EscapeString (value : bytes) : bytes := AppendEscapedStringTo [] value.

Definition kMaxUint64 : Z := 2 ^ 64 - 1.

Definition is_digit (c : Z) : bool := (48 <=? c) && (c <=? 57).

(** The loop: the value, the digits counted and the input left; [None] for the
    value is the early return on overflow. *)
Fixpoint consume_loop (v digits : Z) (s : bytes) : option Z * Z * bytes :=
  match s with
  | [] => (Some v, digits, s)
  | c :: rest =>
      if is_digit c then
        let delta := c - 48 in
        if (kMaxUint64 / 10 <? v) || ((v =? kMaxUint64 / 10) && (kMaxUint64 mod 10 <? delta)) then (None, digits + 1, s)
        else consume_loop (u64 (u64 (v * 10) + delta)) (digits + 1) rest
      else (Some v, digits, s)
  end.

(** The result, the value stored (if one is) and the slice left. *)
Definition ConsumeDecimalNumber (s : bytes) : bool * option Z * bytes :=
  match consume_loop 0 0 s with
  | (None, _, rest) => (false, None, rest)
  | (Some v, digits, rest) => (0 <? digits, Some v, rest)
  end.

(** ** Decimal numerals *)

Definition numeral (ds : bytes) : Z := fold_left (fun v c => v * 10 + (c - 48)) ds 0.

Lemma numeral_app_from ds : forall v, fold_left (fun v c => v * 10 + (c - 48)) ds v = v * 10 ^ zlen ds + numeral ds.
Proof.
  induction ds as [|c ds IH]; intros v; [unfold numeral, zlen; simpl; lia|]. unfold numeral. cbn [fold_left].
  rewrite IH, (IH (0 * 10 + _)), zlen_cons, Z.pow_add_r by (pose proof (zlen_nonneg ds); lia). lia.
Qed.

Lemma numeral_cons c ds : numeral (c :: ds) = (c - 48) * 10 ^ zlen ds + numeral ds.
Proof. unfold numeral at 1. cbn [fold_left]. rewrite numeral_app_from. lia. Qed.

Definition digits (ds : bytes) : Prop := Forall (fun c => is_digit c = true) ds.

Lemma is_digit_range c : is_digit c = true <-> 48 <= c <= 57.
Proof. unfold is_digit. rewrite andb_true_iff, !Z.leb_le. lia. Qed.

Lemma numeral_nonneg ds : digits ds -> 0 <= numeral ds.
Proof.
  induction 1 as [|c ds Hc%is_digit_range _ IH]; [done|]. rewrite numeral_cons.
  pose proof (Z.pow_nonneg 10 (zlen ds) ltac:(lia)). nia.
Qed.

(** Printing gives a numeral of the number. *)
Lemma utoa_loop_spec fuel : forall n acc, 0 <= n < 10 ^ Z.of_nat fuel -> (0 < fuel)%nat ->
  exists ds, utoa_loop fuel n acc = ds ++ acc /\ digits ds /\ numeral ds = n /\ ds <> [] /\ (length ds <= fuel)%nat.
Proof.
  induction fuel as [|fuel IH]; intros n acc Hn Hf; [lia|]. cbn [utoa_loop]. cbv zeta.
  assert (Hd : is_digit (48 + n mod 10) = true) by (apply is_digit_range; pose proof (Z.mod_pos_bound n 10 ltac:(lia)); lia).
  destruct (Z.eqb_spec (n / 10) 0) as [E|Hne].
  - exists [48 + n mod 10]. split_and!; [done|by repeat constructor| |done|simpl; lia].
    unfold numeral. cbn. pose proof (Z.div_mod n 10 ltac:(lia)). lia.
  - assert (Hn1 : 0 <= n / 10) by (apply Z.div_pos; lia).
    assert (Hn2 : n / 10 < 10 ^ Z.of_nat fuel).
    { apply Z.div_lt_upper_bound; [lia|]. rewrite Nat2Z.inj_succ, Z.pow_succ_r in Hn by lia. lia. }
    destruct fuel as [|fuel]; [simpl in Hn2; lia|].
    destruct (IH (n / 10) (48 + n mod 10 :: acc)) as (ds & -> & Hds & Hval & Hnil & Hlen); [lia|lia|].
    exists (ds ++ [48 + n mod 10]). rewrite <- app_assoc. split_and!; [done|apply Forall_app; by split; [|repeat constructor]| |by destruct ds|rewrite length_app; simpl; lia].
    unfold numeral in *. rewrite fold_left_app. cbn. rewrite Hval. pose proof (Z.div_mod n 10 ltac:(lia)). lia.
Qed.

Lemma utoa_spec n : 0 <= n < 2 ^ 64 -> digits (utoa n) /\ numeral (utoa n) = n /\ utoa n <> [] /\ (length (utoa n) <= 20)%nat.
Proof.
  intros Hn. destruct (utoa_loop_spec 20 n []) as (ds & E & H); [lia|lia|]. rewrite app_nil_r in E. unfold utoa. by rewrite E.
Qed.

Lemma numeral_zeros k ds : numeral (replicate k 48 ++ ds) = numeral ds.
Proof. induction k as [|k IH]; [done|]. cbn [replicate app]. rewrite numeral_cons, IH. lia. Qed.

(** Parsing a numeral. *)
Lemma consume_loop_spec ds rest : digits ds -> match rest with c :: _ => is_digit c = false | [] => True end ->
  forall v k, 0 <= v < 2 ^ 64 ->
  exists k' r, consume_loop v k (ds ++ rest) = (if v * 10 ^ zlen ds + numeral ds <? 2 ^ 64 then (Some (v * 10 ^ zlen ds + numeral ds), k + zlen ds, rest) else (None, k', r)).
Proof.
  intros Hds Hrest. induction ds as [|c ds IH]; intros v k Hv.
  { exists 0, []. unfold numeral, zlen. cbn [length fold_left app]. change (10 ^ Z.of_nat 0) with 1. rewrite Z.mul_1_r, !Z.add_0_r, (proj2 (Z.ltb_lt _ _)) by lia.
    destruct rest as [|c rest]; [done|]. cbn [consume_loop]. by rewrite Hrest. }
  apply Forall_cons in Hds as [Hc Hds]. cbn [app consume_loop]. rewrite Hc. apply is_digit_range in Hc. cbv zeta.
  pose proof (numeral_nonneg ds Hds) as Hnn. pose proof (zlen_nonneg ds) as Hz. pose proof (Z.pow_pos_nonneg 10 (zlen ds) ltac:(lia) Hz) as Hp.
  rewrite numeral_cons, zlen_cons. replace (v * 10 ^ (1 + zlen ds)) with (v * 10 * 10 ^ zlen ds) by (rewrite Z.pow_add_r by lia; lia).
  change (kMaxUint64 / 10) with 1844674407370955161. change (kMaxUint64 mod 10) with 5.
  destruct ((1844674407370955161 <? v) || ((v =? 1844674407370955161) && (5 <? c - 48))) eqn:Hov.
  - exists (k + 1), (c :: ds ++ rest). rewrite (proj2 (Z.ltb_ge _ _)); [done|].
    assert (2 ^ 64 <= v * 10 + (c - 48)) by (apply orb_true_iff in Hov as [?%Z.ltb_lt|[?%Z.eqb_eq ?%Z.ltb_lt]%andb_true_iff]; lia). nia.
  - apply orb_false_iff in Hov as [?%Z.ltb_ge Hov]. assert (Hlt : v * 10 + (c - 48) < 2 ^ 64) by (apply andb_false_iff in Hov as [?%Z.eqb_neq|?%Z.ltb_ge]; lia).
    rewrite (u64_small (v * 10)), u64_small by lia. destruct (IH Hds (v * 10 + (c - 48)) (k + 1)) as (k' & r & E); [lia|]. exists k', r. rewrite E.
    replace ((v * 10 + (c - 48)) * 10 ^ zlen ds + numeral ds) with (v * 10 * 10 ^ zlen ds + ((c - 48) * 10 ^ zlen ds + numeral ds)) by lia.
    replace (k + 1 + zlen ds) with (k + (1 + zlen ds)) by lia. done.
Qed.

Lemma consume_numeral ds rest : digits ds -> match rest with c :: _ => is_digit c = false | [] => True end ->
  exists stored left, ConsumeDecimalNumber (ds ++ rest) =
    if (0 <? zlen ds) && (numeral ds <? 2 ^ 64) then (true, Some (numeral ds), rest) else (false, stored, left).
Proof.
  intros Hds Hrest. unfold ConsumeDecimalNumber. destruct (consume_loop_spec ds rest Hds Hrest 0 0 ltac:(lia)) as (k & r & ->).
  rewrite Z.mul_0_l, !Z.add_0_l. destruct (numeral ds <? 2 ^ 64).
  - destruct (0 <? zlen ds); [by exists None, []|by eexists _, _].
  - rewrite andb_false_r. by eexists _, _.
Qed.

(** ** Properties *)

(** Decimal parsing is exact at the limits of 64 bits.  On an input that
    starts with the numeral [ds] (leading zeros allowed) followed by anything
    but a digit, [ConsumeDecimalNumber] fails if there is no digit or the number
    is 2^64 or more, and otherwise stores exactly that number and leaves exactly
    the rest; so it gives back every 64-bit number [NumberToString] printed. *)
Theorem decimal_parse_exact ds rest : digits ds -> match rest with c :: _ => is_digit c = false | [] => True end ->
  (exists stored left, ConsumeDecimalNumber (ds ++ rest) =
     if (0 <? zlen ds) && (numeral ds <? 2 ^ 64) then (true, Some (numeral ds), rest) else (false, stored, left)) /\
  (forall n, 0 <= n < 2 ^ 64 -> ConsumeDecimalNumber (NumberToString n ++ rest) = (true, Some n, rest)).
Proof.
  intros Hds Hrest. split; [by apply consume_numeral|]. intros n Hn. destruct (utoa_spec n Hn) as (Hd & Hval & Hnil & Hlen).
  assert (E : NumberToString n = utoa n) by (unfold NumberToString, AppendNumberTo; rewrite take_ge by lia; done). rewrite E.
  destruct (consume_numeral (utoa n) rest Hd Hrest) as (st & l & ->). rewrite Hval, (proj2 (Z.ltb_lt n _)) by lia.
  rewrite (proj2 (Z.ltb_lt 0 (zlen _))); [done|]. unfold zlen. destruct (utoa n); [done|simpl; lia].
Qed.

Lemma decimal_parse_exact_witness :
  ConsumeDecimalNumber (str "18446744073709551615.log") = (true, Some (2 ^ 64 - 1), str ".log") /\
  (ConsumeDecimalNumber (str "18446744073709551616")).1 = (false, None).
Proof.
  split.
  - apply (proj2 (decimal_parse_exact [] (str ".log") ltac:(by constructor) ltac:(reflexivity)) (2 ^ 64 - 1)). lia.
  - vm_compute. reflexivity.
Defined.
