(* ===== verification/Filename.v ===== *)
(** * Filename: the names of the database's files

    src/LSM-EBF/db/filename.cc and [DoWriteStringToFile] of util/env.cc.  The
    directory is a map from names to contents; every operation of the
    environment may fail, by the list of outcomes, and then has the effect
    env.h and POSIX allow: a failed append may have written a part, the others
    have no effect. *)
From stdpp Require Import gmap.
From S2P Require Import Prelude Coding Status Comparator Logging.

(** ** Names *)

Inductive FileType := kLogFile | kDBLockFile | kTableFile | kDescriptorFile | kCurrentFile | kTempFile | kInfoLogFile.

(** [%06llu]. *)
Definition number6 (n : Z) : bytes := replicate (6 - length (utoa n)) 48 ++ utoa n.

(** [snprintf] into 100 bytes. *)
Definition MakeFileName (name : bytes) (number : Z) (suffix : bytes) : bytes :=
  name ++ take 99 (str "/" ++ number6 number ++ str "." ++ suffix).

Definition LogFileName (name : bytes) (number : Z) : bytes := MakeFileName name number (str "log").
Definition TableFileName (name : bytes) (number : Z) : bytes := MakeFileName name number (str "ldb").
Definition SSTTableFileName (name : bytes) (number : Z) : bytes := MakeFileName name number (str "sst").
Definition DescriptorFileName (dbname : bytes) (number : Z) : bytes := dbname ++ take 99 (str "/MANIFEST-" ++ number6 number).
Definition CurrentFileName (dbname : bytes) : bytes := dbname ++ str "/CURRENT".
Definition LockFileName (dbname : bytes) : bytes := dbname ++ str "/LOCK".
Definition TempFileName (dbname : bytes) (number : Z) : bytes := MakeFileName dbname number (str "dbtmp").
Definition InfoLogFileName (dbname : bytes) : bytes := dbname ++ str "/LOG".
Definition OldInfoLogFileName (dbname : bytes) : bytes := dbname ++ str "/LOG.old".

Definition ParseFileName (fname : bytes) : option (Z * FileType) :=
  if Slice_eqb fname (str "CURRENT") then Some (0, kCurrentFile)
  else if Slice_eqb fname (str "LOCK") then Some (0, kDBLockFile)
  else if Slice_eqb fname (str "LOG") || Slice_eqb fname (str "LOG.old") then Some (0, kInfoLogFile)
  else if starts_with fname (str "MANIFEST-") then
    match ConsumeDecimalNumber (drop (length (str "MANIFEST-")) fname) with
    | (true, Some num, []) => Some (num, kDescriptorFile)
    | _ => None
    end
  else
    match ConsumeDecimalNumber fname with
    | (true, Some num, suffix) =>
        if Slice_eqb suffix (str ".log") then Some (num, kLogFile)
        else if Slice_eqb suffix (str ".sst") || Slice_eqb suffix (str ".ldb") then Some (num, kTableFile)
        else if Slice_eqb suffix (str ".dbtmp") then Some (num, kTempFile)
        else None
    | _ => None
    end.

(** ** The directory *)

Record Env := MkEnv { files : gmap bytes bytes; env_io : list io }.

(** An operation on the directory that takes effect when it succeeds. *)
Definition env_op (e : Env) (effect : gmap bytes bytes -> gmap bytes bytes) : Status * Env :=
  let '(o, l) := next_io (env_io e) in
  match o with
  | IoOk => (Status_OK, MkEnv (effect (files e)) l)
  | IoErr s _ => (Some s, MkEnv (files e) l)
  end.

Definition NewWritableFile (e : Env) (fname : bytes) : Status * Env := env_op e (<[fname := []]>).
Definition DeleteFile (e : Env) (fname : bytes) : Status * Env := env_op e (delete fname).

(** [rename] replaces the target in one step. *)
Definition RenameFile (e : Env) (src target : bytes) : Status * Env :=
  env_op e (fun fs => match fs !! src with Some c => <[target := c]> (delete src fs) | None => fs end).

Definition file_Append (e : Env) (fname data : bytes) : Status * Env :=
  let '(o, l) := next_io (env_io e) in
  let old := default [] (files e !! fname) in
  match o with
  | IoOk => (Status_OK, MkEnv (<[fname := old ++ data]> (files e)) l)
  | IoErr s got => (Some s, MkEnv (<[fname := old ++ take got data]> (files e)) l)
  end.

Definition file_Sync (e : Env) : Status * Env := env_op e id.
Definition file_Close (e : Env) : Status * Env := env_op e id.

(** The directories between the operations are kept, oldest first: a crash can
    leave any of them. *)
Definition DoWriteStringToFile (e : Env) (data fname : bytes) (should_sync : bool) : Status * Env * list Env :=
  let '(s, e1) := NewWritableFile e fname in
  if negb (ok s) then (s, e1, [e1])
  else
    let '(s, e2) := file_Append e1 fname data in
    let '(s, e3) := if ok s && should_sync then file_Sync e2 else (s, e2) in
    let '(s, e4) := if ok s then file_Close e3 else (s, e3) in
    if negb (ok s) then let e5 := (DeleteFile e4 fname).2 in (s, e5, [e1; e2; e3; e4; e5])
    else (s, e4, [e1; e2; e3; e4]).

Definition WriteStringToFileSync (e : Env) (data fname : bytes) : Status * Env * list Env := DoWriteStringToFile e data fname true.

Definition SetCurrentFile (e : Env) (dbname : bytes) (descriptor_number : Z) : Status * Env * list Env :=
  let manifest := DescriptorFileName dbname descriptor_number in
  let contents := drop (length dbname + 1) manifest in
  let tmp := TempFileName dbname descriptor_number in
  let '(s, e1, trace) := WriteStringToFileSync e (contents ++ [10]) tmp in
  let '(s, e2) := if ok s then RenameFile e1 tmp (CurrentFileName dbname) else (s, e1) in
  if negb (ok s) then let e3 := (DeleteFile e2 tmp).2 in (s, e3, trace ++ [e2; e3])
  else (s, e2, trace ++ [e2]).

(** ** Lemmas *)

Lemma number6_spec n : 0 <= n < 2 ^ 64 ->
  digits (number6 n) /\ numeral (number6 n) = n /\ (0 < length (number6 n) <= 20)%nat.
Proof.
  intros Hn. destruct (utoa_spec n Hn) as (Hd & Hv & Hnil & Hlen). unfold number6. split_and!.
  - apply Forall_app. split; [|done]. apply Forall_replicate. done.
  - by rewrite numeral_zeros.
  - rewrite length_app, length_replicate. destruct (utoa n); [done|simpl in *; lia].
  - rewrite length_app, length_replicate. lia.
Qed.

Lemma parse_number n rest : 0 <= n < 2 ^ 64 -> match rest with c :: _ => is_digit c = false | [] => True end ->
  ConsumeDecimalNumber (number6 n ++ rest) = (true, Some n, rest).
Proof.
  intros Hn Hr. destruct (number6_spec n Hn) as (Hd & Hv & Hl). destruct (consume_numeral _ _ Hd Hr) as (st & l & ->).
  rewrite Hv, (proj2 (Z.ltb_lt n _)) by lia. by rewrite (proj2 (Z.ltb_lt 0 (zlen _))) by (unfold zlen; lia).
Qed.

(** A name that starts with a digit is none of the fixed names. *)
Lemma number_name n rest c x : 0 <= n < 2 ^ 64 -> is_digit c = false ->
  Slice_eqb (number6 n ++ rest) (c :: x) = false /\ starts_with (number6 n ++ rest) (c :: x) = false.
Proof.
  intros Hn Hc. destruct (number6_spec n Hn) as (Hd & _ & Hl). destruct (number6 n) as [|d ds]; [simpl in Hl; lia|].
  apply Forall_cons in Hd as [Hd _]. split; apply not_true_iff_false.
  - rewrite Slice_eqb_spec. intros [= -> _]. congruence.
  - rewrite starts_with_spec. intros [r [= -> _]]. congruence.
Qed.

(** The name inside the directory. *)
Definition base_name (dbname fname : bytes) : bytes := drop (length dbname + 1) fname.

Lemma MakeFileName_base db n suffix : 0 <= n < 2 ^ 64 -> (length suffix <= 10)%nat ->
  base_name db (MakeFileName db n suffix) = number6 n ++ str "." ++ suffix.
Proof.
  intros Hn Hs. destruct (number6_spec n Hn) as (_ & _ & Hl). unfold base_name, MakeFileName.
  rewrite take_ge by (rewrite !length_app; simpl; lia). rewrite <- drop_drop, drop_app_length. done.
Qed.

Lemma DescriptorFileName_base db n : 0 <= n < 2 ^ 64 -> base_name db (DescriptorFileName db n) = str "MANIFEST-" ++ number6 n.
Proof.
  intros Hn. destruct (number6_spec n Hn) as (_ & _ & Hl). unfold base_name, DescriptorFileName.
  rewrite take_ge by (rewrite !length_app; simpl; lia). rewrite <- drop_drop, drop_app_length. done.
Qed.

Lemma parse_make n suffix : 0 <= n < 2 ^ 64 -> ParseFileName (number6 n ++ str "." ++ suffix) =
  if Slice_eqb (str "." ++ suffix) (str ".log") then Some (n, kLogFile)
  else if Slice_eqb (str "." ++ suffix) (str ".sst") || Slice_eqb (str "." ++ suffix) (str ".ldb") then Some (n, kTableFile)
  else if Slice_eqb (str "." ++ suffix) (str ".dbtmp") then Some (n, kTempFile) else None.
Proof.
  intros Hn. unfold ParseFileName. rewrite parse_number by done.
  change (str "CURRENT") with (67 :: str "URRENT"). change (str "LOCK") with (76 :: str "OCK"). change (str "LOG") with (76 :: str "OG").
  change (str "LOG.old") with (76 :: str "OG.old"). change (str "MANIFEST-") with (77 :: str "ANIFEST-").
  rewrite (proj1 (number_name n _ 67 _ Hn eq_refl)), !(proj1 (number_name n _ 76 _ Hn eq_refl)), (proj2 (number_name n _ 77 _ Hn eq_refl)). done.
Qed.

Lemma manifest_not_fixed r x : (length x < 9)%nat -> Slice_eqb (str "MANIFEST-" ++ r) x = false.
Proof. intros Hx. apply not_true_iff_false. rewrite Slice_eqb_spec. intros <-. rewrite length_app in Hx. simpl in Hx. lia. Qed.

Lemma parse_manifest n : 0 <= n < 2 ^ 64 -> ParseFileName (str "MANIFEST-" ++ number6 n) = Some (n, kDescriptorFile).
Proof.
  intros Hn. unfold ParseFileName. rewrite !manifest_not_fixed by (simpl; lia). cbn [orb].
  rewrite (proj2 (starts_with_spec _ _)) by (by exists (number6 n)). rewrite drop_app_length.
  rewrite <- (app_nil_r (number6 n)), parse_number by done. done.
Qed.

(** *** The directory *)

Definition same_but (f : bytes) (e x : Env) : Prop := forall k, k <> f -> files x !! k = files e !! k.

Lemma same_but_trans f e x y : same_but f e x -> same_but f x y -> same_but f e y.
Proof. intros H1 H2 k Hk. by rewrite H2, H1. Qed.

Lemma env_op_same f e g : (forall fs k, k <> f -> g fs !! k = fs !! k) -> same_but f e (env_op e g).2.
Proof. intros Hg k Hk. unfold env_op. destruct (next_io (env_io e)) as [[|s got] l]; cbn; [by apply Hg|done]. Qed.

Lemma env_op_ok e g : ok (env_op e g).1 = true -> files (env_op e g).2 = g (files e).
Proof. unfold env_op. by destruct (next_io (env_io e)) as [[|s got] l]. Qed.

Lemma env_op_fail e g : ok (env_op e g).1 = false -> files (env_op e g).2 = files e.
Proof. unfold env_op. by destruct (next_io (env_io e)) as [[|s got] l]. Qed.

Lemma NewWritableFile_same e f : same_but f e (NewWritableFile e f).2.
Proof. apply env_op_same. intros fs k Hk. by rewrite lookup_insert_ne. Qed.

Lemma DeleteFile_same e f : same_but f e (DeleteFile e f).2.
Proof. apply env_op_same. intros fs k Hk. by rewrite lookup_delete_ne. Qed.

Lemma file_Append_same e f d : same_but f e (file_Append e f d).2.
Proof. intros k Hk. unfold file_Append. destruct (next_io (env_io e)) as [[|s got] l]; cbn; by rewrite lookup_insert_ne. Qed.

Lemma file_Append_ok e f d : ok (file_Append e f d).1 = true -> files (file_Append e f d).2 !! f = Some (default [] (files e !! f) ++ d).
Proof. unfold file_Append. destruct (next_io (env_io e)) as [[|s got] l]; cbn; [|done]. intros _. apply lookup_insert_eq. Qed.

Lemma noop_files e : files (env_op e id).2 = files e.
Proof. unfold env_op. by destruct (next_io (env_io e)) as [[|s got] l]. Qed.

(** Writing a file touches only that file, and success means it is complete. *)
Lemma DoWrite_spec e data f sync : let '(s, e', trace) := DoWriteStringToFile e data f sync in
  same_but f e e' /\ (forall x, x ∈ trace -> same_but f e x) /\ (ok s = true -> files e' !! f = Some data).
Proof.
  unfold DoWriteStringToFile. pose proof (NewWritableFile_same e f) as H1. pose proof (env_op_ok e (<[f := []]>)) as O1. fold (NewWritableFile e f) in O1.
  destruct (NewWritableFile e f) as [s1 e1]. cbn [fst snd] in *. destruct (ok s1) eqn:Hs1; cbn [negb].
  2: { split_and!; [done| |congruence]. by intros x ->%list_elem_of_singleton. }
  pose proof (file_Append_same e1 f data) as H2. pose proof (file_Append_ok e1 f data) as O2. destruct (file_Append e1 f data) as [s2 e2]. cbn [fst snd] in *.
  set (r3 := if ok s2 && sync then file_Sync e2 else (s2, e2)). assert (F3 : files r3.2 = files e2) by (unfold r3; destruct (ok s2 && sync); [apply noop_files|done]).
  assert (S3 : ok r3.1 = true -> ok s2 = true) by (unfold r3; destruct (ok s2) eqn:E2; [done|cbn; congruence]). destruct r3 as [s3 e3]. cbn [fst snd] in *.
  set (r4 := if ok s3 then file_Close e3 else (s3, e3)). assert (F4 : files r4.2 = files e3) by (unfold r4; destruct (ok s3); [apply noop_files|done]).
  assert (S4 : ok r4.1 = true -> ok s3 = true) by (unfold r4; destruct (ok s3) eqn:E3; [done|cbn; congruence]). destruct r4 as [s4 e4]. cbn [fst snd] in *.
  assert (B2 : same_but f e e2) by (by eapply same_but_trans). assert (B3 : same_but f e e3) by (intros k Hk; rewrite F3; by apply B2).
  assert (B4 : same_but f e e4) by (intros k Hk; rewrite F4; by apply B3). destruct (ok s4) eqn:Hs4; cbn [negb].
  - split_and!; [done| |].
    + intros x Hx. repeat (apply elem_of_cons in Hx as [->|Hx]; [done|]). by apply not_elem_of_nil in Hx.
    + intros _. rewrite F4, F3, O2 by auto. rewrite O1 by done. by rewrite lookup_insert_eq.
  - assert (B5 : same_but f e (DeleteFile e4 f).2) by (eapply same_but_trans; [exact B4|apply DeleteFile_same]). split_and!; [done| |congruence].
    intros x Hx. repeat (apply elem_of_cons in Hx as [->|Hx]; [done|]). by apply not_elem_of_nil in Hx.
Qed.

Lemma temp_not_current db n : 0 <= n < 2 ^ 64 -> CurrentFileName db <> TempFileName db n.
Proof.
  intros Hn E. apply (f_equal (base_name db)) in E. unfold TempFileName in E. rewrite MakeFileName_base in E by (done || (simpl; lia)).
  unfold base_name, CurrentFileName in E. rewrite <- drop_drop, drop_app_length in E. change (drop 1 (str "/CURRENT")) with (67 :: str "URRENT") in E.
  destruct (number6_spec n Hn) as (Hd & _ & Hl). destruct (number6 n) as [|d ds]; [simpl in Hl; lia|]. apply Forall_cons in Hd as [Hd _]. injection E as <- _. done.
Qed.

(** ** Properties *)

(** File names round trip: for every directory and every number below 2^64,
    [ParseFileName] recovers type and number from the name each function builds,
    so files of different type or number never share a name. *)
Theorem file_name_roundtrip db n : 0 <= n < 2 ^ 64 ->
  ParseFileName (base_name db (LogFileName db n)) = Some (n, kLogFile) /\
  ParseFileName (base_name db (TableFileName db n)) = Some (n, kTableFile) /\
  ParseFileName (base_name db (SSTTableFileName db n)) = Some (n, kTableFile) /\
  ParseFileName (base_name db (TempFileName db n)) = Some (n, kTempFile) /\
  ParseFileName (base_name db (DescriptorFileName db n)) = Some (n, kDescriptorFile) /\
  ParseFileName (base_name db (CurrentFileName db)) = Some (0, kCurrentFile) /\
  ParseFileName (base_name db (LockFileName db)) = Some (0, kDBLockFile) /\
  ParseFileName (base_name db (InfoLogFileName db)) = Some (0, kInfoLogFile) /\
  ParseFileName (base_name db (OldInfoLogFileName db)) = Some (0, kInfoLogFile).
Proof.
  intros Hn. unfold LogFileName, TableFileName, SSTTableFileName, TempFileName. rewrite !MakeFileName_base by (done || (simpl; lia)). rewrite !parse_make by done.
  split_and!; try reflexivity.
  - rewrite DescriptorFileName_base by done. by apply parse_manifest.
  - unfold base_name, CurrentFileName. by rewrite <- drop_drop, drop_app_length.
  - unfold base_name, LockFileName. by rewrite <- drop_drop, drop_app_length.
  - unfold base_name, InfoLogFileName. by rewrite <- drop_drop, drop_app_length.
  - unfold base_name, OldInfoLogFileName. by rewrite <- drop_drop, drop_app_length.
Qed.

Lemma file_name_roundtrip_witness :
  TableFileName (str "/db") 7 = str "/db/000007.ldb" /\ ParseFileName (str "000007.ldb") = Some (7, kTableFile).
Proof.
  split; [vm_compute; reflexivity|]. change (str "000007.ldb") with (base_name (str "/db") (TableFileName (str "/db") 7)).
  apply (file_name_roundtrip (str "/db") 7). lia.
Defined.

(** Switching CURRENT is atomic.  Whatever operations of the environment
    fail, and in every directory a crash between two operations can leave, CURRENT
    holds its old contents or the complete name of the new descriptor; no file
    other than CURRENT and the temporary file changes; an OK status means the new
    contents, any other status the old ones. *)
Theorem set_current_atomic e db n : 0 <= n < 2 ^ 64 ->
  let old := files e !! CurrentFileName db in
  let new := Some (str "MANIFEST-" ++ number6 n ++ [10]) in
  let '(s, e', trace) := SetCurrentFile e db n in
  (forall x, x ∈ trace -> (files x !! CurrentFileName db = old \/ files x !! CurrentFileName db = new) /\
     forall k, k <> CurrentFileName db -> k <> TempFileName db n -> files x !! k = files e !! k) /\
  e' ∈ trace /\ files e' !! CurrentFileName db = if ok s then new else old.
Proof.
  intros Hn old new. pose proof (temp_not_current db n Hn) as Hne. set (cur := CurrentFileName db) in *. set (tmp := TempFileName db n) in *.
  unfold SetCurrentFile. fold cur tmp. change (drop (length db + 1) (DescriptorFileName db n)) with (base_name db (DescriptorFileName db n)).
  rewrite DescriptorFileName_base by done. unfold WriteStringToFileSync. rewrite <- app_assoc.
  pose proof (DoWrite_spec e (str "MANIFEST-" ++ number6 n ++ [10]) tmp true) as Hw.
  destruct (DoWriteStringToFile e (str "MANIFEST-" ++ number6 n ++ [10]) tmp true) as [[s1 e1] trace]. destruct Hw as (B1 & Bt & O1).
  assert (Hsame : forall x, same_but tmp e x -> (files x !! cur = old \/ files x !! cur = new) /\ forall k, k <> cur -> k <> tmp -> files x !! k = files e !! k).
  { intros x Hx. split; [left; by apply Hx|]. intros k _ Hk. by apply Hx. }
  assert (Hfail : forall s x, same_but tmp e x -> ok s = false ->
    (forall y, y ∈ trace ++ [x; (DeleteFile x tmp).2] -> (files y !! cur = old \/ files y !! cur = new) /\ forall k, k <> cur -> k <> tmp -> files y !! k = files e !! k) /\
    (DeleteFile x tmp).2 ∈ trace ++ [x; (DeleteFile x tmp).2] /\ files (DeleteFile x tmp).2 !! cur = if ok s then new else old).
  { intros s x Hx ->. assert (Hd : same_but tmp e (DeleteFile x tmp).2) by (eapply same_but_trans; [exact Hx|apply DeleteFile_same]). split_and!.
    - intros y [Hy|[->|[->|Hy%not_elem_of_nil]%elem_of_cons]%elem_of_cons]%elem_of_app; [apply Hsame; by apply Bt|by apply Hsame|by apply Hsame|done].
    - apply elem_of_app. right. right. left.
    - by apply Hd. }
  destruct (ok s1) eqn:Hs1; [|cbn match; rewrite Hs1; cbn [negb]; by apply Hfail].
  pose proof (env_op_ok e1 (fun fs => match fs !! tmp with Some c => <[cur := c]> (delete tmp fs) | None => fs end)) as O2.
  pose proof (env_op_fail e1 (fun fs => match fs !! tmp with Some c => <[cur := c]> (delete tmp fs) | None => fs end)) as F2. fold (RenameFile e1 tmp cur) in O2, F2.
  destruct (RenameFile e1 tmp cur) as [s2 e2]. cbn [fst snd] in *. destruct (ok s2) eqn:Hs2; cbn [negb].
  - rewrite O1 in O2 by done. specialize (O2 eq_refl). assert (Hcur : files e2 !! cur = new) by (rewrite O2; apply lookup_insert_eq). rewrite Hs2. split_and!; [|apply elem_of_app; right; left|done].
    intros y [Hy| ->%list_elem_of_singleton]%elem_of_app; [apply Hsame; by apply Bt|]. split; [by right|]. intros k Hk Hk'. rewrite O2.
    rewrite lookup_insert_ne, lookup_delete_ne by congruence. by apply B1.
  - assert (B2 : same_but tmp e e2) by (intros k Hk; rewrite (F2 eq_refl); by apply B1). by apply Hfail.
Qed.

(** The rename fails: CURRENT keeps naming the first descriptor. *)
Definition sample_env : Env :=
  MkEnv {[ str "/db/CURRENT" := str "MANIFEST-000001" ++ [10] ]} [IoOk; IoOk; IoOk; IoOk; IoErr (str "disk") 0].

Lemma set_current_atomic_witness :
  ok (SetCurrentFile sample_env (str "/db") 2).1.1 = false /\
  files (SetCurrentFile sample_env (str "/db") 2).1.2 !! CurrentFileName (str "/db") = Some (str "MANIFEST-000001" ++ [10]) /\
  length (SetCurrentFile sample_env (str "/db") 2).2 = 6%nat.
Proof.
  pose proof (set_current_atomic sample_env (str "/db") 2 ltac:(lia)) as H.
  assert (Hs : ok (SetCurrentFile sample_env (str "/db") 2).1.1 = false /\ length (SetCurrentFile sample_env (str "/db") 2).2 = 6%nat) by (split; vm_compute; reflexivity).
  destruct (SetCurrentFile sample_env (str "/db") 2) as [[s e] trace]. cbn [fst snd] in *. destruct Hs as [Hs Hl]. rewrite Hs in H.
  destruct H as (_ & _ & ->). split; [exact Hs|]. split; [|exact Hl]. vm_compute. reflexivity.
Defined.
