(* ===== verification/Log.v ===== *)
(** * Log: the write-ahead log

    The writer and the reader of src/LSM-EBF/db/log_writer.cc and log_reader.cc
    over the format of log_format.h: records are cut into physical records that
    never straddle a block of 32768 bytes.  The checksum is used through the
    interface [Crc32c]. *)
From S2P Require Import Prelude Coding Crc32c Status Logging.

Definition kZeroType : Z := 0.
Definition kFullType : Z := 1.
Definition kFirstType : Z := 2.
Definition kMiddleType : Z := 3.
Definition kLastType : Z := 4.
Definition kMaxRecordType : Z := kLastType.
Definition kBlockSize : Z := 32768.
Definition kHeaderSize : Z := 4 + 2 + 1.

(** Extended record types of the reader. *)
Definition kEof : Z := kMaxRecordType + 1.
Definition kBadRecord : Z := kMaxRecordType + 2.

Section Log.
Context `{!Crc32c}.

(** ** Writer *)

Record Writer := MkWriter {
  dest_ : WritableFile;
  block_offset_ : Z;
  type_crc_ : list Z
}.

Definition InitTypeCrc : list Z := (fun i => Value [u8 i]) <$> seqZ 0 (kMaxRecordType + 1).

(** The two constructors: a fresh file, and a file of [dest_length] bytes. *)
Definition Writer_new (dest : WritableFile) : Writer := MkWriter dest 0 InitTypeCrc.

Definition Writer_reopen (dest : WritableFile) (dest_length : Z) : Writer :=
  MkWriter dest (dest_length mod kBlockSize) InitTypeCrc.

Definition physical_header (type_crc : list Z) (t : Z) (payload : bytes) : bytes :=
  let n := zlen payload in
  EncodeFixed32 (Mask (crc_extend (nth (Z.to_nat t) type_crc 0) payload))
    ++ [u8 (n &&& 255); u8 (n ≫ 8); u8 t].

Definition EmitPhysicalRecord (w : Writer) (t : Z) (payload : bytes) : Status * Writer :=
  let buf := physical_header (type_crc_ w) t payload in
  let '(s, f) := Append (dest_ w) buf in
  let '(s, f) := if ok s then
      let '(s, f) := Append f payload in
      if ok s then Flush f else (s, f)
    else (s, f) in
  (s, MkWriter f (block_offset_ w + kHeaderSize + zlen payload) (type_crc_ w)).

(** "Switch to a new block": the status of the trailer's [Append] is dropped. *)
Definition switch_block (w : Writer) : Writer :=
  let leftover := kBlockSize - block_offset_ w in
  if leftover <? kHeaderSize then
    let f := if 0 <? leftover
             then (Append (dest_ w) (replicate (Z.to_nat leftover) 0)).2 else dest_ w in
    MkWriter f 0 (type_crc_ w)
  else w.

Definition fragment_type (begin end_ : bool) : Z :=
  if begin && end_ then kFullType
  else if begin then kFirstType
  else if end_ then kLastType
  else kMiddleType.

(** The [do ... while] loop; [None] when the fuel is too small. *)
Fixpoint AddRecord_loop (fuel : nat) (w : Writer) (ptr : bytes) (begin : bool)
    : option (Status * Writer) :=
  match fuel with
  | O => None
  | S fuel =>
      let w := switch_block w in
      let left := zlen ptr in
      let avail := kBlockSize - block_offset_ w - kHeaderSize in
      let fragment_length := if left <? avail then left else avail in
      let end_ := left =? fragment_length in
      let n := Z.to_nat fragment_length in
      let '(s, w) := EmitPhysicalRecord w (fragment_type begin end_) (take n ptr) in
      if ok s && (0 <? left - fragment_length)
      then AddRecord_loop fuel w (drop n ptr) false
      else Some (s, w)
  end.

(** Every iteration but the first writes at least one byte of the record. *)
Definition AddRecord (w : Writer) (slice : bytes) : option (Status * Writer) :=
  AddRecord_loop (length slice + 2) w slice true.

Fixpoint AddRecords (w : Writer) (rs : list bytes) : option (Status * Writer) :=
  match rs with
  | [] => Some (Status_OK, w)
  | r :: rs =>
      match AddRecord w r with
      | Some (s, w) => if ok s then AddRecords w rs else Some (s, w)
      | None => None
      end
  end.

(** ** Reader *)

(** [reports] lists the calls of [Reporter::Corruption] made so far. *)
Record Reader := MkReader {
  file_ : SequentialFile;
  reporter_ : bool;
  checksum_ : bool;
  buffer_ : bytes;
  eof_ : bool;
  last_record_offset_ : Z;
  end_of_buffer_offset_ : Z;
  initial_offset_ : Z;
  resyncing_ : bool;
  reports : list (Z * Status)
}.

Definition Reader_new (file : SequentialFile) (reporter checksum : bool) (initial_offset : Z)
    : Reader :=
  MkReader file reporter checksum [] false 0 0 initial_offset (0 <? initial_offset) [].

Definition set_file (r : Reader) f b eof :=
  MkReader f (reporter_ r) (checksum_ r) b eof (last_record_offset_ r)
    (end_of_buffer_offset_ r) (initial_offset_ r) (resyncing_ r) (reports r).
Definition set_buffer (r : Reader) b := set_file r (file_ r) b (eof_ r).
Definition set_end (r : Reader) e :=
  MkReader (file_ r) (reporter_ r) (checksum_ r) (buffer_ r) (eof_ r) (last_record_offset_ r)
    e (initial_offset_ r) (resyncing_ r) (reports r).
Definition set_resyncing (r : Reader) b :=
  MkReader (file_ r) (reporter_ r) (checksum_ r) (buffer_ r) (eof_ r) (last_record_offset_ r)
    (end_of_buffer_offset_ r) (initial_offset_ r) b (reports r).
Definition set_last (r : Reader) o :=
  MkReader (file_ r) (reporter_ r) (checksum_ r) (buffer_ r) (eof_ r) o
    (end_of_buffer_offset_ r) (initial_offset_ r) (resyncing_ r) (reports r).
Definition add_report (r : Reader) p :=
  MkReader (file_ r) (reporter_ r) (checksum_ r) (buffer_ r) (eof_ r) (last_record_offset_ r)
    (end_of_buffer_offset_ r) (initial_offset_ r) (resyncing_ r) (reports r ++ [p]).

Definition ReportDrop (r : Reader) (n : Z) (reason : Status) : Reader :=
  if reporter_ r &&
     (initial_offset_ r <=? u64 (end_of_buffer_offset_ r - zlen (buffer_ r) - n))
  then add_report r (n, reason) else r.

Definition ReportCorruption (r : Reader) (n : Z) (reason : bytes) : Reader :=
  ReportDrop r n (Corruption reason []).

Definition SkipToInitialBlock (r : Reader) : bool * Reader :=
  let offset_in_block := initial_offset_ r mod kBlockSize in
  let block_start_location := initial_offset_ r - offset_in_block in
  let block_start_location :=
    if kBlockSize - 6 <? offset_in_block then u64 (block_start_location + kBlockSize)
    else block_start_location in
  let r := set_end r block_start_location in
  if 0 <? block_start_location then
    let '(s, f) := SeqSkip (file_ r) (Z.to_nat block_start_location) in
    let r := set_file r f (buffer_ r) (eof_ r) in
    if ok s then (true, r) else (false, ReportDrop r block_start_location s)
  else (true, r).

(** The lower half of [ReadPhysicalRecord]: the header and the payload, the
    buffer holding at least a header. *)
Definition ParsePhysicalRecord (r : Reader) (result : bytes) : Z * bytes * Reader :=
  let header := buffer_ r in
  let a := sext8 32 (byte_at header 4) &&& 255 in
  let b := sext8 32 (byte_at header 5) &&& 255 in
  let type := sext8 32 (byte_at header 6) in
  let length := a ||| u32 (b ≪ 8) in
  if zlen (buffer_ r) <? u32 (kHeaderSize + length) then
    let drop_size := zlen (buffer_ r) in
    let r := set_buffer r [] in
    if negb (eof_ r)
    then (kBadRecord, result, ReportCorruption r drop_size (str "bad record length"))
    else (kEof, result, r)
  else if (type =? kZeroType) && (length =? 0) then (kBadRecord, result, set_buffer r [])
  else if checksum_ r &&
          negb (Value (sub_bytes header 6 (Z.to_nat (1 + length)))
                =? Unmask (DecodeFixed32 header)) then
    let drop_size := zlen (buffer_ r) in
    (kBadRecord, result, ReportCorruption (set_buffer r []) drop_size (str "checksum mismatch"))
  else
    let r := set_buffer r (drop (Z.to_nat (kHeaderSize + length)) (buffer_ r)) in
    if u64 (end_of_buffer_offset_ r - zlen (buffer_ r) - kHeaderSize - length)
       <? initial_offset_ r
    then (kBadRecord, [], r)
    else (type, sub_bytes header (Z.to_nat kHeaderSize) (Z.to_nat length), r).

(** [result] is the caller's slice, which some paths leave as it was. *)
Fixpoint ReadPhysicalRecord_loop (fuel : nat) (r : Reader) (result : bytes)
    : option (Z * bytes * Reader) :=
  match fuel with
  | O => None
  | S fuel =>
      if zlen (buffer_ r) <? kHeaderSize then
        if negb (eof_ r) then
          let '(status, b, f) := SeqRead (file_ r) (Z.to_nat kBlockSize) in
          let r := set_file r f b (eof_ r) in
          let r := set_end r (u64 (end_of_buffer_offset_ r + zlen b)) in
          if negb (ok status) then
            let r := ReportDrop (set_buffer r []) kBlockSize status in
            Some (kEof, result, set_file r (file_ r) (buffer_ r) true)
          else
            let r := if zlen b <? kBlockSize then set_file r f b true else r in
            ReadPhysicalRecord_loop fuel r result
        else Some (kEof, result, set_buffer r [])
      else Some (ParsePhysicalRecord r result)
  end.

(** One iteration refills the buffer, the next one returns. *)
Definition ReadPhysicalRecord (r : Reader) (result : bytes) : option (Z * bytes * Reader) :=
  ReadPhysicalRecord_loop 2 r result.

(** What the [switch] of [ReadRecord] does with one physical record. *)
Record frag_state := MkFrag { in_fragmented_record : bool; scratch : bytes; prospective : Z }.

Inductive outcome :=
  | Continue (st : frag_state) (r : Reader)
  | Return (found : bool) (record : bytes) (r : Reader).

(** "partial record without end": the record dropped when a new one begins. *)
Definition drop_partial (st : frag_state) (reason : bytes) (r : Reader) : Reader :=
  if in_fragmented_record st then
    match scratch st with [] => r | _ => ReportCorruption r (zlen (scratch st)) reason end
  else r.

(** [snprintf(buf, 40, "unknown record type %u", ...)]. *)
Definition unknown_type_reason (record_type : Z) : bytes :=
  take 39 (str "unknown record type " ++ utoa_loop 10 record_type []).

Definition handle_record (type : Z) (fragment : bytes) (offset : Z) (st : frag_state)
    (r : Reader) : outcome :=
  if type =? kFullType then
    let r := drop_partial st (str "partial record without end(1)") r in
    Return true fragment (set_last r offset)
  else if type =? kFirstType then
    let r := drop_partial st (str "partial record without end(2)") r in
    Continue (MkFrag true fragment offset) r
  else if type =? kMiddleType then
    if negb (in_fragmented_record st)
    then Continue st (ReportCorruption r (zlen fragment)
                        (str "missing start of fragmented record(1)"))
    else Continue (MkFrag true (scratch st ++ fragment) (prospective st)) r
  else if type =? kLastType then
    if negb (in_fragmented_record st)
    then Continue st (ReportCorruption r (zlen fragment)
                        (str "missing start of fragmented record(2)"))
    else Return true (scratch st ++ fragment) (set_last r (prospective st))
  else if type =? kEof then Return false [] r
  else if type =? kBadRecord then
    if in_fragmented_record st
    then Continue (MkFrag false [] (prospective st))
           (ReportCorruption r (zlen (scratch st)) (str "error in middle of record"))
    else Continue st r
  else
    let dropped := zlen fragment + if in_fragmented_record st then zlen (scratch st) else 0 in
    Continue (MkFrag false [] (prospective st))
      (ReportCorruption r dropped (unknown_type_reason type)).

(** The resynchronisation after a start at a non-zero offset: [true] when the
    physical record is to be skipped. *)
Definition resync (type : Z) (r : Reader) : bool * Reader :=
  if resyncing_ r then
    if type =? kMiddleType then (true, r)
    else if type =? kLastType then (true, set_resyncing r false)
    else (false, set_resyncing r false)
  else (false, r).

(** The [while (true)] loop of [ReadRecord]: [None] when the fuel runs out. *)
Fixpoint ReadRecord_loop (fuel : nat) (st : frag_state) (fragment : bytes) (r : Reader)
    : option (bool * bytes * Reader) :=
  match fuel with
  | O => None
  | S fuel =>
      match ReadPhysicalRecord r fragment with
      | None => None
      | Some (type, fragment, r) =>
          let offset :=
            u64 (end_of_buffer_offset_ r - zlen (buffer_ r) - kHeaderSize - zlen fragment) in
          let '(skip, r) := resync type r in
          if skip then ReadRecord_loop fuel st fragment r
          else match handle_record type fragment offset st r with
               | Return found record r => Some (found, record, r)
               | Continue st r => ReadRecord_loop fuel st fragment r
               end
      end
  end.

(** The bytes still to be read: every physical record consumes some. *)
Definition unread (r : Reader) : nat := length (buffer_ r) + length (rest (file_ r)).

Definition ReadRecord (r : Reader) : option (bool * bytes * Reader) :=
  let '(go, r) := if last_record_offset_ r <? initial_offset_ r
                  then SkipToInitialBlock r else (true, r) in
  if go then ReadRecord_loop (S (unread r)) (MkFrag false [] 0) [] r
  else Some (false, [], r).

(** [while (reader.ReadRecord(&record, &scratch)) ...], as the recovery of
    src/LSM-EBF/db/db_impl.cc and version_set.cc runs it. *)
Fixpoint ReadAll_loop (fuel : nat) (r : Reader) : option (list bytes * Reader) :=
  match fuel with
  | O => None
  | S fuel =>
      match ReadRecord r with
      | Some (true, record, r) =>
          match ReadAll_loop fuel r with
          | Some (l, r) => Some (record :: l, r)
          | None => None
          end
      | Some (false, _, r) => Some ([], r)
      | None => None
      end
  end.

Definition ReadAll (r : Reader) : option (list bytes * Reader) := ReadAll_loop (S (unread r)) r.

(** ** The format

    A physical record of a log at block offset [off]: the zero trailer when the
    block has no room for a header, the header and the payload. *)

Definition pad (off : Z) : nat :=
  if kBlockSize - off <? kHeaderSize then Z.to_nat (kBlockSize - off) else 0.

Definition start (off : Z) : Z := if kBlockSize - off <? kHeaderSize then 0 else off.

Definition physical (t : Z) (payload : bytes) : bytes :=
  physical_header InitTypeCrc t payload ++ payload.

Definition chunk (off t : Z) (payload : bytes) : bytes := replicate (pad off) 0 ++ physical t payload.

(** The bytes of one record begun at [off], and the offset after it. *)
Inductive emits : bool -> Z -> bytes -> bytes -> Z -> Prop :=
  | emits_end begin off d :
      start off + kHeaderSize + zlen d <= kBlockSize ->
      emits begin off d (chunk off (fragment_type begin true) d) (start off + kHeaderSize + zlen d)
  | emits_more begin off d1 d2 bs off' :
      start off + kHeaderSize + zlen d1 = kBlockSize -> d2 <> [] ->
      emits false kBlockSize d2 bs off' ->
      emits begin off (d1 ++ d2) (chunk off (fragment_type begin false) d1 ++ bs) off'.

(** The bytes of a list of records. *)
Inductive log_of : Z -> list bytes -> bytes -> Z -> Prop :=
  | log_nil off : log_of off [] [] off
  | log_cons off d rs bs1 off1 bs2 off2 :
      emits true off d bs1 off1 -> log_of off1 rs bs2 off2 ->
      log_of off (d :: rs) (bs1 ++ bs2) off2.

(** ** The writer produces the format *)

Ltac consts := unfold kHeaderSize, kBlockSize in *.

Definition offset_ok (off : Z) : Prop := 0 <= off <= kBlockSize.

Lemma start_range off : offset_ok off -> 0 <= start off <= kBlockSize - kHeaderSize.
Proof. unfold start, offset_ok. consts. intros. zcases. Qed.

Lemma switch_block_spec w :
  offset_ok (block_offset_ w) -> w_io (dest_ w) = [] ->
  switch_block w = MkWriter (WFile (contents (dest_ w) ++ replicate (pad (block_offset_ w)) 0) [])
                     (start (block_offset_ w)) (type_crc_ w).
Proof.
  destruct w as [[c io] off tc]. unfold switch_block, pad, start, Append, offset_ok. simpl.
  intros Ho ->. consts.
  destruct (Z.ltb_spec (32768 - off) (4 + 2 + 1)); [|simpl; by rewrite app_nil_r].
  destruct (Z.ltb_spec 0 (32768 - off)); [done|].
  by replace (32768 - off) with 0 by lia; simpl; rewrite app_nil_r.
Qed.

Lemma EmitPhysicalRecord_spec c off t d :
  EmitPhysicalRecord (MkWriter (WFile c []) off InitTypeCrc) t d =
  (Status_OK, MkWriter (WFile (c ++ physical t d) []) (off + kHeaderSize + zlen d) InitTypeCrc).
Proof. unfold EmitPhysicalRecord, physical, Append, Flush. simpl. by rewrite <- app_assoc. Qed.

#[local] Opaque EmitPhysicalRecord InitTypeCrc physical_header.

(** The loop finishes: only a first fragment can be empty. *)
Lemma AddRecord_loop_spec fuel c off d begin :
  offset_ok off -> (length d + 1 + (if decide (start off + kHeaderSize = kBlockSize)%Z then 1 else 0) <= fuel)%nat ->
  exists bs off', emits begin off d bs off' /\ offset_ok off' /\
    AddRecord_loop fuel (MkWriter (WFile c []) off InitTypeCrc) d begin
    = Some (Status_OK, MkWriter (WFile (c ++ bs) []) off' InitTypeCrc).
Proof.
  revert c off d begin. induction fuel as [|fuel IH]; intros c off d begin Ho Hf; [lia|].
  simpl. rewrite switch_block_spec by done. simpl.
  pose proof (start_range off Ho). pose proof (zlen_nonneg d).
  set (avail := kBlockSize - start off - kHeaderSize).
  destruct (Z.leb_spec (zlen d) avail) as [Hle|Hgt].
  - replace (if zlen d <? avail then zlen d else avail) with (zlen d) by zcases.
    rewrite Z.eqb_refl, to_nat_zlen, firstn_all, EmitPhysicalRecord_spec, Z.sub_diag. simpl.
    eexists _, _. split; [constructor; unfold avail in *; lia|].
    split; [unfold offset_ok, avail in *; consts; lia|].
    unfold chunk. by rewrite app_assoc.
  - replace (if zlen d <? avail then zlen d else avail) with avail by zcases.
    replace (zlen d =? avail) with false by zcases.
    rewrite EmitPhysicalRecord_spec. replace (0 <? zlen d - avail) with true by zcases.
    assert (Hlt : length (take (Z.to_nat avail) d) = Z.to_nat avail)
      by (rewrite length_take; unfold zlen in *; lia).
    assert (Ht : zlen (take (Z.to_nat avail) d) = avail)
      by (unfold zlen; rewrite Hlt; unfold avail; lia).
    simpl. rewrite Ht. replace (start off + kHeaderSize + avail) with kBlockSize by (unfold avail; lia).
    destruct (IH ((c ++ replicate (pad off) 0) ++ physical (fragment_type begin false) (take (Z.to_nat avail) d))
                kBlockSize (drop (Z.to_nat avail) d) false) as (bs & off' & He & Ho' & ->).
    { unfold offset_ok. consts. lia. }
    { rewrite length_drop. unfold zlen in *. rewrite decide_False by (vm_compute; lia).
      destruct (decide _); unfold avail in *; lia. }
    eexists _, off'. split; [|split; [done|]].
    + rewrite <- (take_drop (Z.to_nat avail) d) at 1. apply emits_more; [unfold avail in *; lia| |exact He].
      intros Hn. apply (f_equal length) in Hn. rewrite length_drop in Hn. unfold zlen in *.
      simpl in Hn. lia.
    + unfold chunk. by rewrite <- !app_assoc.
Qed.

Lemma AddRecord_spec c off d :
  offset_ok off ->
  exists bs off', emits true off d bs off' /\ offset_ok off' /\
    AddRecord (MkWriter (WFile c []) off InitTypeCrc) d
    = Some (Status_OK, MkWriter (WFile (c ++ bs) []) off' InitTypeCrc).
Proof. intros. apply AddRecord_loop_spec; [done|]. destruct (decide _); lia. Qed.

Lemma AddRecords_spec rs c off :
  offset_ok off ->
  exists bs off', log_of off rs bs off' /\ offset_ok off' /\
    AddRecords (MkWriter (WFile c []) off InitTypeCrc) rs
    = Some (Status_OK, MkWriter (WFile (c ++ bs) []) off' InitTypeCrc).
Proof.
  revert c off. induction rs as [|r rs IH]; intros c off Ho.
  { exists [], off. split_and!; [constructor|done|]. by rewrite app_nil_r. }
  destruct (AddRecord_spec c off r Ho) as (bs1 & off1 & He & Ho1 & Hadd).
  destruct (IH (c ++ bs1) off1 Ho1) as (bs2 & off2 & Hl & Ho2 & Hrs).
  exists (bs1 ++ bs2), off2. split_and!; [by econstructor|done|].
  simpl. rewrite Hadd. simpl. by rewrite Hrs, app_assoc.
Qed.

(** ** The reader at a position of a log

    [at_pos r G off]: the reader stands at block offset [off] with [G] still to
    be read, starts at offset 0 and has no failing reads ahead of it. *)
Record at_pos (r : Reader) (G : bytes) (off : Z) : Prop := {
  ap_bytes : buffer_ r ++ rest (file_ r) = G;
  ap_io : s_io (file_ r) = [];
  ap_start : initial_offset_ r = 0;
  ap_sync : resyncing_ r = false;
  ap_last : 0 <= last_record_offset_ r;
  ap_eof : if eof_ r then rest (file_ r) = [] /\ off + zlen (buffer_ r) < kBlockSize
           else off + zlen (buffer_ r) = kBlockSize
}.

Lemma Reader_new_at_pos F reporter checksum :
  at_pos (Reader_new (SFile F []) reporter checksum 0) F kBlockSize.
Proof. by split. Qed.

(** The header of a physical record, field by field. *)
Lemma physical_header_length t d : length (physical_header InitTypeCrc t d) = 7%nat.
Proof. Transparent physical_header. reflexivity. Opaque physical_header. Qed.

Lemma InitTypeCrc_nth t : 0 <= t <= 4 -> nth (Z.to_nat t) InitTypeCrc 0 = Value [t].
Proof.
  intros Ht. Transparent InitTypeCrc.
  assert (t = 0 \/ t = 1 \/ t = 2 \/ t = 3 \/ t = 4) as Hc by lia.
  destruct Hc as [-> | [-> | [-> | [-> | ->]]]]; reflexivity.
  Opaque InitTypeCrc.
Qed.

Definition payload_ok (t : Z) (d : bytes) : Prop :=
  1 <= t <= 4 /\ bytes_ok d /\ kHeaderSize + zlen d <= kBlockSize.

Lemma header_fields t d G :
  payload_ok t d ->
  let h := physical_header InitTypeCrc t d ++ G in
  (sext8 32 (byte_at h 4) &&& 255) ||| u32 ((sext8 32 (byte_at h 5) &&& 255) ≪ 8) = zlen d /\
  sext8 32 (byte_at h 6) = t /\
  DecodeFixed32 h = Mask (crc_extend (Value [t]) d).
Proof.
  intros (Ht & Hd & Hl) h. subst h. pose proof (zlen_nonneg d). consts.
  assert (Hs : forall b, 0 <= b < 256 -> sext8 32 b &&& 255 = b).
  { intros b Hb. rewrite land_255. unfold sext8. zcase; unfold u8; [by apply Z.mod_small|].
    change (2 ^ 32) with 4294967296. change (2 ^ 8) with 256. Z.div_mod_to_equations. lia. }
  Transparent physical_header. unfold physical_header.
  rewrite InitTypeCrc_nth by lia. rewrite <- app_assoc.
  rewrite DecodeFixed32_Encode.
  2: apply Mask_range. Opaque physical_header.
  set (e := EncodeFixed32 _). assert (He : length e = 4%nat) by reflexivity. clearbody e.
  do 4 (destruct e as [|? e]; [discriminate|]). destruct e; [|discriminate].
  unfold byte_at. simpl nth. rewrite (land_255 (zlen d)).
  split_and!; [|unfold sext8; rewrite u8_small by lia; zcases|done].
  rewrite !Hs by apply u8_range. rewrite Z.shiftr_div_pow2, !(u8_small (_ / _)) by (Z.div_mod_to_equations; lia).
  rewrite u32_small.
  2: { rewrite Z.shiftl_mul_pow2 by lia. Z.div_mod_to_equations. lia. }
  rewrite lor_shiftl_add; [|lia|rewrite u8_idemp; apply u8_range].
  rewrite u8_idemp. unfold u8. change (2 ^ 8) with 256. Z.div_mod_to_equations. lia.
Qed.

Lemma header_crc t d :
  payload_ok t d -> Unmask (Mask (crc_extend (Value [t]) d)) = Value (t :: d).
Proof.
  intros (Ht & Hd & Hl).
  assert (bytes_ok [t]) by (repeat constructor; unfold is_byte; lia).
  rewrite Unmask_Mask.
  - change (t :: d) with ([t] ++ d). by rewrite Value_app.
  - apply crc_extend_range; [by apply Value_range|done].
Qed.

(** The payload of a physical record at the head of the buffer. *)
Lemma ParsePhysicalRecord_physical r t d B result :
  payload_ok t d -> initial_offset_ r = 0 -> buffer_ r = physical t d ++ B ->
  ParsePhysicalRecord r result = (t, d, set_buffer r B).
Proof.
  intros Hp Hi Hb. pose proof (header_crc t d Hp) as Hcrc.
  pose proof (header_fields t d (d ++ B) Hp) as (Hlen & Hty & Hdec).
  pose proof (physical_header_length t d) as Hl7. pose proof (zlen_nonneg d).
  destruct Hp as (Ht & Hd & Hfit). unfold physical in Hb. rewrite <- app_assoc in Hb.
  unfold ParsePhysicalRecord. rewrite Hb. cbv zeta in Hlen, Hty, Hdec.
  rewrite Hlen, Hty, Hdec, Hcrc. pose proof (zlen_nonneg B).
  assert (Hzl : zlen (physical_header InitTypeCrc t d ++ d ++ B) = 7 + zlen d + zlen B).
  { len. unfold zlen at 1. rewrite Hl7. lia. }
  rewrite Hzl. rewrite u32_small by (consts; lia).
  replace (7 + zlen d + zlen B <? kHeaderSize + zlen d) with false by (consts; zcases).
  replace (t =? kZeroType) with false by (unfold kZeroType; zcases).
  assert (Hsub : sub_bytes (physical_header InitTypeCrc t d ++ d ++ B) 6 (Z.to_nat (1 + zlen d)) = t :: d).
  { Transparent physical_header. unfold physical_header, sub_bytes.
    rewrite <- app_assoc, drop_app_ge by (simpl; lia). simpl drop.
    replace (Z.to_nat (1 + zlen d)) with (S (length d)) by (unfold zlen; lia). simpl.
    rewrite u8_small by lia. by rewrite take_app_length. Opaque physical_header. }
  rewrite Hsub, Z.eqb_refl. simpl negb. rewrite andb_false_r. simpl.
  rewrite Hi.
  assert (Hdr : drop (Z.to_nat (kHeaderSize + zlen d)) (physical_header InitTypeCrc t d ++ d ++ B) = B).
  { rewrite app_assoc. apply drop_app_exact. rewrite length_app, Hl7. unfold zlen, kHeaderSize. lia. }
  rewrite Hdr.
  replace (_ <? 0) with false by (symmetry; apply Z.ltb_ge, u64_range).
  unfold sub_bytes. rewrite drop_app_exact by (rewrite Hl7; reflexivity).
  by rewrite to_nat_zlen, take_app_length.
Qed.

Lemma refill r G off :
  at_pos r G off -> eof_ r = false -> zlen (buffer_ r) < kHeaderSize ->
  exists r1, (forall fuel result, ReadPhysicalRecord_loop (S fuel) r result
                                  = ReadPhysicalRecord_loop fuel r1 result) /\
    at_pos r1 (rest (file_ r)) 0 /\ reports r1 = reports r.
Proof.
  intros [Hb Hio Hi Hs Hlast He] Heof Hlt. rewrite Heof in He.
  destruct r as [[F io] rep ck b e lo eb ini rs reps]. simpl in *. subst.
  eexists. split; [|split].
  - intros fuel result. simpl. replace (zlen b <? kHeaderSize) with true by (symmetry; by apply Z.ltb_lt).
    unfold SeqRead. simpl. reflexivity.
  - unfold zlen. rewrite length_take. destruct (Z.ltb_spec (Z.of_nat (Z.to_nat kBlockSize `min` length F)) kBlockSize) as [Hl|Hl];
      split; simpl; try done; try apply take_drop; unfold zlen; rewrite ?length_take; consts.
    + split; [|lia]. apply drop_ge. lia.
    + lia.
  - by destruct (_ <? _).
Qed.

Lemma physical_length t d : zlen (physical t d) = kHeaderSize + zlen d.
Proof. unfold physical. rewrite zlen_app. unfold zlen at 1. by rewrite physical_header_length. Qed.

(** A whole physical record is read. *)
Lemma loop_parse r t d G off fuel result :
  at_pos r (physical t d ++ G) off -> payload_ok t d -> 0 <= off ->
  off + kHeaderSize + zlen d <= kBlockSize ->
  exists r', ReadPhysicalRecord_loop (S fuel) r result = Some (t, d, r') /\
    at_pos r' G (off + kHeaderSize + zlen d) /\ reports r' = reports r.
Proof.
  intros [Hb Hio Hi Hs Hlast He] Hp Ho Hfit. pose proof (physical_length t d) as Hl.
  pose proof (zlen_nonneg d).
  assert (Hpre : exists B, buffer_ r = physical t d ++ B /\ B ++ rest (file_ r) = G).
  { assert (Hle : (length (physical t d) <= length (buffer_ r))%nat).
    { apply (f_equal zlen) in Hb. rewrite !zlen_app in Hb.
      destruct (eof_ r); [destruct He as [Hr He]; rewrite Hr in Hb|]; unfold zlen in *; simpl in *; lia. }
    exists (drop (length (physical t d)) (buffer_ r)). split.
    - rewrite <- (take_drop (length (physical t d)) (buffer_ r)) at 1. f_equal.
      apply (f_equal (take (length (physical t d)))) in Hb.
      by rewrite take_app_length, take_app_le in Hb.
    - apply (f_equal (drop (length (physical t d)))) in Hb.
      by rewrite drop_app_length, drop_app_le in Hb. }
  destruct Hpre as (B & HB & HG). exists (set_buffer r B). split_and!; [|split; try done|done].
  - simpl. rewrite (ParsePhysicalRecord_physical r t d B result Hp Hi HB).
    replace (_ <? kHeaderSize) with false; [done|]. symmetry. apply Z.ltb_ge. rewrite HB, zlen_app.
    pose proof (zlen_nonneg B). lia.
  - simpl. rewrite HB, zlen_app in He. destruct (eof_ r); [split; [tauto|]|]; lia.
Qed.

(** A physical record cut short is the end of the file, without a report. *)
Lemma loop_eof r t d G X off fuel result :
  at_pos r G off -> G ++ X = physical t d -> X <> [] -> payload_ok t d -> 0 <= off ->
  off + kHeaderSize + zlen d <= kBlockSize ->
  exists r', ReadPhysicalRecord_loop (S fuel) r result = Some (kEof, result, r') /\
    reports r' = reports r.
Proof.
  intros [Hb Hio Hi Hs Hlast He] HG HX Hp Ho Hfit. pose proof (physical_length t d) as Hl.
  assert (0 < zlen X) by (destruct X; [done|]; rewrite zlen_cons; pose proof (zlen_nonneg X); lia).
  rewrite <- HG, zlen_app, <- Hb, zlen_app in Hl. pose proof (zlen_nonneg (rest (file_ r))).
  destruct (eof_ r) eqn:Heof; [|lia]. destruct He as [Hr He]. rewrite Hr, app_nil_r in Hb.
  exists (set_buffer r []). split; [|done]. cbn [ReadPhysicalRecord_loop]. rewrite Heof. simpl negb.
  destruct (Z.ltb_spec (zlen (buffer_ r)) kHeaderSize) as [|Hge]; [done|].
  cbn match. f_equal. unfold ParsePhysicalRecord.
  assert (Hh : exists G', buffer_ r = physical_header InitTypeCrc t d ++ G').
  { exists (drop 7 (buffer_ r)). rewrite <- (take_drop 7 (buffer_ r)) at 1. f_equal.
    apply (f_equal (take 7)) in HG. unfold physical in HG.
    rewrite (take_app_le (physical_header _ _ _)), (firstn_all2 (physical_header _ _ _)) in HG
      by (rewrite physical_header_length; lia).
    subst G. rewrite <- HG. symmetry. apply take_app_le. unfold zlen, kHeaderSize in Hge. lia. }
  destruct Hh as [G' HG']. pose proof (header_fields t d G' Hp) as (Hlen & _ & _).
  cbv zeta in Hlen. rewrite <- HG' in Hlen. rewrite Hlen.
  rewrite u32_small by (pose proof (zlen_nonneg d); consts; lia).
  replace (zlen (buffer_ r) <? kHeaderSize + zlen d) with true by (symmetry; apply Z.ltb_lt; lia).
  simpl. by rewrite Heof.
Qed.

Lemma pad_spec off : offset_ok off ->
  (pad off = 0%nat /\ start off = off) \/
  (Z.of_nat (pad off) = kBlockSize - off /\ kBlockSize - off < kHeaderSize /\ start off = 0).
Proof. unfold pad, start, offset_ok. intros. zcase; [right|by left]. consts. lia. Qed.

Lemma ReadPhysicalRecord_chunk r t d G off result :
  at_pos r (chunk off t d ++ G) off -> offset_ok off -> payload_ok t d ->
  start off + kHeaderSize + zlen d <= kBlockSize ->
  exists r', ReadPhysicalRecord r result = Some (t, d, r') /\
    at_pos r' G (start off + kHeaderSize + zlen d) /\ reports r' = reports r.
Proof.
  intros Hat Ho Hp Hfit. pose proof (start_range off Ho). unfold ReadPhysicalRecord, chunk in *.
  destruct (pad_spec off Ho) as [[Hz Hst]|(Hz & Hlt & Hst)].
  - rewrite Hz in Hat. rewrite Hst in *. by apply loop_parse; [| |lia|].
  - pose proof Hat as [Hb _ _ _ _ He]. apply (f_equal zlen) in Hb as Hbl.
    rewrite !zlen_app, physical_length in Hbl. unfold zlen at 3 in Hbl. rewrite length_replicate in Hbl.
    pose proof (zlen_nonneg d). pose proof (zlen_nonneg G).
    destruct (eof_ r) eqn:Heof; [destruct He as [Hr He]; rewrite Hr in Hbl; simpl in Hbl; rewrite zlen_nil in Hbl; consts; lia|].
    assert (Hlb : zlen (buffer_ r) < kHeaderSize) by lia.
    destruct (refill _ _ _ Hat Heof Hlb) as (r1 & -> & Hat1 & Hrep).
    assert (Hrest : rest (file_ r) = physical t d ++ G).
    { apply (f_equal (drop (pad off))) in Hb. rewrite <- app_assoc in Hb.
      rewrite !drop_app_exact in Hb; [done|by rewrite length_replicate|unfold zlen in *; lia]. }
    rewrite Hrest in Hat1. rewrite Hst in *.
    destruct (loop_parse r1 t d G 0 0 result Hat1 Hp ltac:(lia) Hfit) as (r' & -> & ? & Hrep').
    exists r'. split_and!; [done..|congruence].
Qed.

Lemma ReadPhysicalRecord_cut r t d G X off result :
  at_pos r G off -> G ++ X = chunk off t d -> X <> [] -> offset_ok off -> payload_ok t d ->
  start off + kHeaderSize + zlen d <= kBlockSize ->
  exists r', ReadPhysicalRecord r result = Some (kEof, result, r') /\ reports r' = reports r.
Proof.
  intros Hat HG HX Ho Hp Hfit. pose proof (start_range off Ho). unfold ReadPhysicalRecord, chunk in *.
  destruct (pad_spec off Ho) as [[Hz Hst]|(Hz & Hlt & Hst)].
  - rewrite Hz in HG. rewrite Hst in *. simpl in HG.
    by apply (loop_eof r t d G X off 1 result); [..|lia|].
  - pose proof Hat as [Hb _ _ _ _ He].
    destruct (eof_ r) eqn:Heof.
    { exists (set_buffer r []). split; [|done]. destruct He as [Hr He].
      cbn [ReadPhysicalRecord_loop]. rewrite Heof.
      by replace (_ <? kHeaderSize) with true by (symmetry; apply Z.ltb_lt; lia). }
    assert (Hlb : zlen (buffer_ r) < kHeaderSize) by lia.
    destruct (refill _ _ _ Hat Heof Hlb) as (r1 & -> & Hat1 & Hrep).
    assert (Hrest : rest (file_ r) ++ X = physical t d).
    { rewrite <- Hb, <- app_assoc in HG. apply (f_equal (drop (pad off))) in HG.
      rewrite !drop_app_exact in HG; [done|by rewrite length_replicate|unfold zlen in *; lia]. }
    rewrite Hst in *.
    destruct (loop_eof r1 t d _ X 0 0 result Hat1 Hrest HX Hp ltac:(lia) Hfit) as (r' & -> & ?).
    exists r'. split; [done|congruence].
Qed.

(** ** Records *)

Lemma chunk_length off t d : offset_ok off ->
  zlen (chunk off t d) = Z.of_nat (pad off) + kHeaderSize + zlen d.
Proof. intros. unfold chunk. rewrite zlen_app, physical_length. unfold zlen. len. Qed.

Lemma unread_at_pos r G off : at_pos r G off -> unread r = length G.
Proof. intros [Hb _ _ _ _ _]. unfold unread. by rewrite <- Hb, length_app. Qed.

Lemma set_last_at_pos r G off o : at_pos r G off -> 0 <= o -> at_pos (set_last r o) G off.
Proof. intros [] ?. by split. Qed.

Lemma resync_at_pos t r G off : at_pos r G off -> resync t r = (false, r).
Proof. intros [_ _ _ Hs _ _]. unfold resync. by rewrite Hs. Qed.

(** The state in which the fragments of a record are expected. *)
Definition expects (begin : bool) (st : frag_state) : Prop :=
  in_fragmented_record st = negb begin /\ 0 <= prospective st.

Lemma fragment_type_range begin end_ : 1 <= fragment_type begin end_ <= 4.
Proof. destruct begin, end_; vm_compute; split; discriminate. Qed.

Lemma handle_end begin d o st r :
  expects begin st -> 0 <= o ->
  exists o', 0 <= o' /\ handle_record (fragment_type begin true) d o st r
    = Return true ((if begin then [] else scratch st) ++ d) (set_last r o').
Proof.
  intros [He Hp] Ho. destruct st as [inf scr pr]. simpl in *. subst inf.
  destruct begin; [by exists o|by exists pr].
Qed.

Lemma handle_more begin d o st r :
  expects begin st -> 0 <= o ->
  exists st', expects false st' /\ scratch st' = (if begin then [] else scratch st) ++ d /\
    handle_record (fragment_type begin false) d o st r = Continue st' r.
Proof.
  intros [He Hp] Ho. destruct st as [inf scr pr]. simpl in *. subst inf.
  destruct begin; eexists (MkFrag true _ _); (split; [|split; [reflexivity|]]); try reflexivity; by split.
Qed.

Lemma emits_ok begin off d bs off' : emits begin off d bs off' -> offset_ok off -> offset_ok off'.
Proof.
  induction 1 as [begin off d Hfit|begin off d1 d2 bs off' Hfit Hne He IH]; intros Ho.
  - pose proof (start_range off Ho). pose proof (zlen_nonneg d). unfold offset_ok. consts. lia.
  - apply IH. unfold offset_ok. consts. lia.
Qed.

Lemma block_end_ok : offset_ok kBlockSize.
Proof. unfold offset_ok. consts. lia. Qed.

(** A record whose bytes are all there is returned. *)
Lemma read_emits begin off d bs off' :
  emits begin off d bs off' -> forall r G st frag fuel,
  at_pos r (bs ++ G) off -> bytes_ok d -> offset_ok off -> expects begin st -> (unread r < fuel)%nat ->
  exists r', ReadRecord_loop fuel st frag r
             = Some (true, (if begin then [] else scratch st) ++ d, r') /\
    at_pos r' G off' /\ reports r' = reports r.
Proof.
  induction 1 as [begin off d Hfit|begin off d1 d2 bs off' Hfit Hne He IH];
    intros r G st frag fuel Hat Hd Ho Hst Hfuel; pose proof (start_range off Ho);
    destruct fuel as [|fuel]; try lia; cbn [ReadRecord_loop].
  - destruct (ReadPhysicalRecord_chunk r (fragment_type begin true) d G off frag Hat Ho)
      as (r' & -> & Hat' & Hrep); [split_and!; [apply fragment_type_range..|done|lia]|lia|].
    rewrite (resync_at_pos _ _ _ _ Hat'). cbv zeta.
    destruct (handle_end begin d (u64 (end_of_buffer_offset_ r' - zlen (buffer_ r') - kHeaderSize - zlen d))
                st r' Hst) as (o' & Ho' & ->); [apply u64_range|].
    eexists. split; [reflexivity|]. split; [by apply set_last_at_pos|done].
  - apply bytes_ok_app in Hd as [Hd1 Hd2]. rewrite <- app_assoc in Hat.
    destruct (ReadPhysicalRecord_chunk r (fragment_type begin false) d1 (bs ++ G) off frag Hat Ho)
      as (r' & -> & Hat' & Hrep); [split_and!; [apply fragment_type_range..|done|lia]|lia|].
    rewrite (resync_at_pos _ _ _ _ Hat'). cbv zeta.
    destruct (handle_more begin d1 (u64 (end_of_buffer_offset_ r' - zlen (buffer_ r') - kHeaderSize - zlen d1))
                st r' Hst) as (st' & Hst' & Hscr & ->); [apply u64_range|].
    rewrite Hfit in Hat'.
    apply unread_at_pos in Hat as Hu. apply unread_at_pos in Hat' as Hu'.
    destruct (IH r' G st' d1 fuel Hat' Hd2 block_end_ok Hst') as (r'' & -> & Hat'' & Hrep').
    { pose proof (chunk_length off (fragment_type begin false) d1 Ho).
      rewrite Hu' in *. rewrite Hu, length_app in Hfuel. pose proof (zlen_nonneg d1).
      unfold zlen, kHeaderSize in *. lia. }
    exists r''. rewrite Hscr, <- app_assoc. split_and!; [done..|congruence].
Qed.

(** A prefix of [a ++ b] ends inside [a] or goes on into [b]. *)
Lemma prefix_app_cases {A} (G X a b : list A) :
  G ++ X = a ++ b ->
  (exists X', X' <> [] /\ G ++ X' = a) \/ (exists G', G = a ++ G' /\ G' ++ X = b).
Proof.
  intros E. destruct (Nat.lt_ge_cases (length G) (length a)) as [Hlt|Hge].
  - left. exists (drop (length G) a). split.
    + intros Hn. apply (f_equal length) in Hn. rewrite length_drop in Hn. simpl in Hn. lia.
    + rewrite <- (take_drop (length G) a) at 2. f_equal.
      apply (f_equal (take (length G))) in E. by rewrite take_app_length, take_app_le in E by lia.
  - right. exists (drop (length a) G).
    apply (f_equal (take (length a))) in E as E1. rewrite take_app_length, take_app_le in E1 by lia.
    apply (f_equal (drop (length a))) in E. rewrite drop_app_length, drop_app_le in E by lia.
    split; [|done]. rewrite <- E1 at 1. by rewrite take_drop.
Qed.

(** A record cut short anywhere is the end of the log. *)
Lemma read_cut begin off d bs off' :
  emits begin off d bs off' -> forall r G X st frag fuel,
  at_pos r G off -> G ++ X = bs -> X <> [] -> bytes_ok d -> offset_ok off -> expects begin st ->
  (unread r < fuel)%nat ->
  exists r', ReadRecord_loop fuel st frag r = Some (false, [], r') /\ reports r' = reports r.
Proof.
  assert (Hcut : forall r off t d frag G X st fuel, at_pos r G off -> G ++ X = chunk off t d -> X <> [] ->
    offset_ok off -> payload_ok t d -> start off + kHeaderSize + zlen d <= kBlockSize ->
    exists r', ReadRecord_loop (S fuel) st frag r = Some (false, [], r') /\ reports r' = reports r).
  { clear. intros r off t d frag G X st fuel Hat HG HX Ho Hp Hfit.
    destruct (ReadPhysicalRecord_cut r t d G X off frag Hat HG HX Ho Hp Hfit) as (r' & Hr & Hrep).
    cbn [ReadRecord_loop]. rewrite Hr. unfold resync.
    destruct (resyncing_ r') eqn:Hs; eexists; (split; [reflexivity|done]). }
  induction 1 as [begin off d Hfit|begin off d1 d2 bs off' Hfit Hne He IH];
    intros r G X st frag fuel Hat HG HX Hd Ho Hst Hfuel; pose proof (start_range off Ho);
    destruct fuel as [|fuel]; try lia.
  - eapply Hcut; eauto. split_and!; [apply fragment_type_range..|done|lia].
  - apply bytes_ok_app in Hd as [Hd1 Hd2].
    assert (Hp : payload_ok (fragment_type begin false) d1)
      by (split_and!; [apply fragment_type_range..|done|lia]).
    destruct (prefix_app_cases _ _ _ _ HG) as [(X' & HX' & HG')|(G' & -> & HG')].
    { eapply Hcut; eauto. lia. }
    destruct (ReadPhysicalRecord_chunk r (fragment_type begin false) d1 G' off frag Hat Ho Hp)
      as (r' & Hr & Hat' & Hrep); [lia|].
    cbn [ReadRecord_loop]. rewrite Hr, (resync_at_pos _ _ _ _ Hat'). cbv zeta.
    destruct (handle_more begin d1 (u64 (end_of_buffer_offset_ r' - zlen (buffer_ r') - kHeaderSize - zlen d1))
                st r' Hst) as (st' & Hst' & Hscr & ->); [apply u64_range|].
    rewrite Hfit in Hat'.
    apply unread_at_pos in Hat as Hu. apply unread_at_pos in Hat' as Hu'.
    destruct (IH r' G' X st' d1 fuel Hat' HG' HX Hd2 block_end_ok Hst') as (r'' & Hr'' & Hrep').
    { pose proof (chunk_length off (fragment_type begin false) d1 Ho).
      rewrite Hu' in *. rewrite Hu, length_app in Hfuel. pose proof (zlen_nonneg d1).
      unfold zlen, kHeaderSize in *. lia. }
    exists r''. split; [done|congruence].
Qed.

(** ** Whole logs *)

Lemma emits_det begin off d bs1 o1 :
  emits begin off d bs1 o1 -> forall bs2 o2, emits begin off d bs2 o2 -> bs1 = bs2 /\ o1 = o2.
Proof.
  assert (Hlen : forall d2 : bytes, d2 <> [] -> 0 < zlen d2).
  { intros [|b d2] Hn; [done|]. rewrite zlen_cons. pose proof (zlen_nonneg d2). lia. }
  induction 1 as [begin off d Hfit|begin off d1 d2 bs off' Hfit Hne He IH]; intros bs2 o2 H2;
    inversion H2 as [? ? ? Hf|? ? d1' d2' bs' ? Hf Hn He' E1 E2 E3]; subst; [done| | |].
  - rewrite zlen_app in Hfit. specialize (Hlen _ Hn). lia.
  - rewrite zlen_app in Hf. specialize (Hlen _ Hne). lia.
  - apply app_inj_1 in E3 as [-> ->]; [|unfold zlen in *; lia].
    by destruct (IH _ _ He') as [-> ->].
Qed.

Lemma log_of_cons_inv off d rs bs off' :
  log_of off (d :: rs) bs off' -> exists bs1 off1 bs2,
    emits true off d bs1 off1 /\ log_of off1 rs bs2 off' /\ bs = bs1 ++ bs2.
Proof. inversion 1; subst. by eexists _, _, _. Qed.

(** The length of a log read back to its [m]-th record is at most [k] exactly
    for the records that are returned from its first [k] bytes. *)
Definition recovered (off : Z) (rs : list bytes) (G : bytes) (m : nat) : Prop :=
  (m <= length rs)%nat /\
  forall j bs off', (j <= length rs)%nat -> log_of off (take j rs) bs off' ->
  (j <= m <-> length bs <= length G)%nat.

Lemma ReadRecord_loop_at r G off :
  at_pos r G off -> ReadRecord r = ReadRecord_loop (S (unread r)) (MkFrag false [] 0) [] r.
Proof.
  intros [_ _ Hi _ Hl _]. unfold ReadRecord. rewrite Hi.
  by replace (_ <? 0) with false by (symmetry; apply Z.ltb_ge; lia).
Qed.

(** Reading [rs] one by one, without a report, to the end. *)
Inductive clean_reads : Reader -> list bytes -> Reader -> Prop :=
  | clean_end r r' : ReadRecord r = Some (false, [], r') -> reports r' = reports r -> clean_reads r [] r'
  | clean_next r d r1 rs r' : ReadRecord r = Some (true, d, r1) -> reports r1 = reports r -> (unread r1 < unread r)%nat ->
      clean_reads r1 rs r' -> clean_reads r (d :: rs) r'.

Lemma ReadAll_log rs : forall off bs off' r G X fuel,
  log_of off rs bs off' -> at_pos r G off -> G ++ X = bs -> Forall bytes_ok rs -> offset_ok off ->
  (unread r < fuel)%nat ->
  exists m r', ReadAll_loop fuel r = Some (take m rs, r') /\ reports r' = reports r /\
    recovered off rs G m /\ clean_reads r (take m rs) r'.
Proof.
  assert (Hst : expects true (MkFrag false [] 0)) by (split; [done|simpl; lia]).
  assert (Hrec0 : forall rs off G, (forall d rs' bs off', rs = d :: rs' -> emits true off d bs off' ->
      (length G < length bs)%nat) -> recovered off rs G 0).
  { intros rs0 off0 G0 Hlt. split; [lia|]. intros j bs off' Hj Hlog.
    destruct j, rs0 as [|d rs0]; simpl in *; try lia; inversion Hlog; subst; simpl; [lia..|].
    pose proof (Hlt _ _ _ _ eq_refl ltac:(eassumption)). rewrite length_app. lia. }
  induction rs as [|d rs IH]; intros off bs off' r G X fuel Hlog Hat HG Hrs Ho Hfuel;
    (destruct fuel as [|fuel]; [lia|]); cbn [ReadAll_loop]; rewrite (ReadRecord_loop_at _ _ _ Hat).
  - assert (bs = [] /\ off' = off) as [-> ->] by (by inversion Hlog).
    apply app_nil in HG as [-> ->]. pose proof (start_range off Ho).
    destruct (read_cut true off [] (chunk off 1 []) (start off + kHeaderSize + zlen (@nil Z)))
      with (r := r) (G := @nil Z) (X := chunk off 1 []) (st := MkFrag false [] 0) (frag := @nil Z)
           (fuel := S (unread r)) as (r' & Hread & Hrep);
      [apply (emits_end true off []); rewrite zlen_nil; lia|done|done| |by constructor|done|done|lia|].
    { intros Hn. apply (f_equal zlen) in Hn. rewrite chunk_length in Hn by done.
      rewrite !zlen_nil in Hn. unfold kHeaderSize in Hn. lia. }
    rewrite Hread. exists 0%nat, r'. split_and!; [done..|by apply Hrec0|]. apply clean_end; [by rewrite (ReadRecord_loop_at _ _ _ Hat)|done].
  - destruct (log_of_cons_inv _ _ _ _ _ Hlog) as (bs1 & off1 & bs2 & He & Hl & ->). apply Forall_cons in Hrs as [Hd Hrs].
    destruct (prefix_app_cases _ _ _ _ HG) as [(X' & HX' & HG')|(G' & -> & HG')].
    + destruct (read_cut _ _ _ _ _ He r G X' (MkFrag false [] 0) [] (S (unread r)) Hat HG' HX' Hd Ho Hst)
        as (r' & Hread & Hrep); [lia|].
      rewrite Hread. exists 0%nat, r'. split_and!; [done..| |apply clean_end; [by rewrite (ReadRecord_loop_at _ _ _ Hat)|done]].
      apply Hrec0. intros d' rs' bs' o' [= <- <-] He'.
      destruct (emits_det _ _ _ _ _ He _ _ He') as [<- _]. rewrite <- HG', length_app.
      destruct X'; [done|]. simpl. lia.
    + destruct (read_emits _ _ _ _ _ He r G' (MkFrag false [] 0) [] (S (unread r)) Hat Hd Ho Hst)
        as (r1 & Hread & Hat1 & Hrep1); [lia|].
      rewrite Hread. apply unread_at_pos in Hat as Hu. apply unread_at_pos in Hat1 as Hu1.
      assert (Hlt : (unread r1 < unread r)%nat).
      { rewrite Hu1, Hu, length_app. assert (7 <= zlen bs1); [|unfold zlen in *; lia].
        inversion He; subst; rewrite ?zlen_app, chunk_length by done; unfold kHeaderSize;
          unfold zlen; lia. }
      destruct (IH _ _ _ r1 G' X fuel Hl Hat1 HG' Hrs (emits_ok _ _ _ _ _ He Ho))
        as (m & r' & -> & Hrep & [Hm Hrec] & Hclean); [lia|].
      exists (S m), r'. split_and!; [done|congruence| |by apply (clean_next _ _ r1); [rewrite (ReadRecord_loop_at _ _ _ Hat)|..]]. split; [simpl; lia|].
      intros j bs off'' Hj Hlj. destruct j as [|j]; simpl in *.
      { inversion Hlj; subst. simpl. lia. }
      inversion Hlj as [|? ? ? b1 o1 b2 o2 He' Hl']; subst.
      destruct (emits_det _ _ _ _ _ He _ _ He') as [-> ->].
      rewrite !length_app. specialize (Hrec j b2 off''). rewrite <- Nat.succ_le_mono.
      rewrite Hrec by (done || lia). lia.
Qed.

(** ** Reopening

    The offset a writer is reopened with lays records out as the offset the
    first writer stopped at. *)
Lemma emits_congruent begin off1 off2 d bs off' :
  pad off1 = pad off2 -> start off1 = start off2 ->
  emits begin off1 d bs off' -> emits begin off2 d bs off'.
Proof.
  intros Hp Hs. assert (Hc : forall t d, chunk off1 t d = chunk off2 t d)
    by (intros; unfold chunk; by rewrite Hp).
  inversion 1; subst; rewrite Hc; rewrite Hs in *; by constructor.
Qed.

Lemma log_of_congruent off1 off2 rs bs off' :
  rs <> [] -> pad off1 = pad off2 -> start off1 = start off2 ->
  log_of off1 rs bs off' -> log_of off2 rs bs off'.
Proof. intros Hne Hp Hs. inversion 1; subst; [done|]. econstructor; [by eapply emits_congruent|done]. Qed.

Lemma log_of_app off rs1 bs1 off1 rs2 bs2 off2 :
  log_of off rs1 bs1 off1 -> log_of off1 rs2 bs2 off2 -> log_of off (rs1 ++ rs2) (bs1 ++ bs2) off2.
Proof. induction 1; simpl; [done|]. intros. rewrite <- app_assoc. econstructor; eauto. Qed.

Lemma log_of_det off rs bs1 o1 :
  log_of off rs bs1 o1 -> forall bs2 o2, log_of off rs bs2 o2 -> bs1 = bs2 /\ o1 = o2.
Proof.
  induction 1 as [|off d rs b1 o1 b2 o2 He Hl IH]; intros bs' o' Hl'; [by inversion Hl'|].
  destruct (log_of_cons_inv _ _ _ _ _ Hl') as (b1' & o1' & b2' & He' & Hl'' & ->).
  destruct (emits_det _ _ _ _ _ He _ _ He') as [<- <-]. by destruct (IH _ _ Hl'') as [-> ->].
Qed.

Lemma emits_offset begin off d bs off' :
  emits begin off d bs off' -> offset_ok off -> (off + zlen bs) mod kBlockSize = off' mod kBlockSize.
Proof.
  induction 1 as [begin off d Hfit|begin off d1 d2 bs off' Hfit Hne He IH]; intros Ho;
    rewrite ?zlen_app, chunk_length by done;
    (destruct (pad_spec off Ho) as [[Hz Hst]|(Hz & Hlt & Hst)]; rewrite Hst in *; rewrite Hz).
  - f_equal. lia.
  - replace (_ + _) with (0 + kHeaderSize + zlen d + 1 * kBlockSize) by lia.
    by rewrite Z.mod_add by (consts; lia).
  - rewrite <- (IH block_end_ok). f_equal. lia.
  - rewrite <- (IH block_end_ok).
    replace (_ + _) with (kBlockSize + zlen bs + 1 * kBlockSize) by lia.
    by rewrite Z.mod_add by (consts; lia).
Qed.

Lemma log_of_offset off rs bs off' :
  log_of off rs bs off' -> offset_ok off ->
  (off + zlen bs) mod kBlockSize = off' mod kBlockSize /\ offset_ok off'.
Proof.
  induction 1 as [|off d rs b1 o1 b2 o2 He Hl IH]; intros Ho; [by rewrite zlen_nil, Z.add_0_r|].
  destruct (IH (emits_ok _ _ _ _ _ He Ho)) as [IH1 IH2]. split; [|done].
  rewrite zlen_app, <- IH1, Z.add_assoc, <- Z.add_mod_idemp_l, (emits_offset _ _ _ _ _ He Ho),
    Z.add_mod_idemp_l by (consts; lia). done.
Qed.

Lemma offset_mod off : offset_ok off ->
  pad (off mod kBlockSize) = pad off /\ start (off mod kBlockSize) = start off.
Proof.
  unfold offset_ok. intros Ho. destruct (Z.eq_dec off kBlockSize) as [->|Hn]; [done|].
  by rewrite Z.mod_small by lia.
Qed.

(** ** Every read returns *)

Lemma unread_ReportDrop r n s : unread (ReportDrop r n s) = unread r.
Proof. unfold ReportDrop. by destruct (_ && _). Qed.

Lemma unread_ReportCorruption r n s : unread (ReportCorruption r n s) = unread r.
Proof. apply unread_ReportDrop. Qed.

Lemma ParsePhysicalRecord_progress r result :
  kHeaderSize <= zlen (buffer_ r) ->
  exists t f r', ParsePhysicalRecord r result = (t, f, r') /\ (unread r' < unread r)%nat.
Proof.
  intros Hb. unfold ParsePhysicalRecord.
  assert (Hcl : (unread (set_buffer r []) < unread r)%nat).
  { unfold unread, set_buffer. simpl. unfold zlen, kHeaderSize in *. lia. }
  assert (Hrem : forall n, 0 <= n -> (unread (set_buffer r (drop (Z.to_nat (kHeaderSize + n)) (buffer_ r)))
                  < unread r)%nat).
  { intros n Hn. unfold unread, set_buffer. simpl. rewrite length_drop.
    unfold zlen, kHeaderSize in *. lia. }
  set (a := sext8 32 _ &&& 255). set (b := u32 ((sext8 32 _ &&& 255) ≪ 8)).
  assert (0 <= a ||| b).
  { apply Z.lor_nonneg. split; [|apply u32_range]. subst a. rewrite land_255. apply u8_range. }
  repeat (match goal with |- context [if ?c then _ else _] => destruct c end);
    eexists _, _, _; (split; [reflexivity|]);
    rewrite ?unread_ReportCorruption; auto.
Qed.

Lemma ReadPhysicalRecord_progress r result :
  exists t f r', ReadPhysicalRecord r result = Some (t, f, r') /\
    (t = kEof \/ (unread r' < unread r)%nat) /\ (unread r' <= unread r)%nat.
Proof.
  unfold ReadPhysicalRecord. cbn [ReadPhysicalRecord_loop].
  destruct (Z.ltb_spec (zlen (buffer_ r)) kHeaderSize) as [Hlt|Hge].
  2: { destruct (ParsePhysicalRecord_progress r result Hge) as (t & f & r' & -> & Hu).
       exists t, f, r'. split; [done|]. lia. }
  destruct (eof_ r) eqn:Heof; simpl negb.
  { eexists _, _, _. split; [reflexivity|]. split; [by left|]. unfold unread. simpl. lia. }
  destruct (SeqRead (file_ r) (Z.to_nat kBlockSize)) as [[status b] f] eqn:Hrd.
  assert (Hlen : (length b + length (rest f) = length (rest (file_ r)))%nat).
  { unfold SeqRead in Hrd. destruct (next_io _) as [[|s got] l]; inversion Hrd; subst; simpl;
      rewrite length_take, length_drop; lia. }
  destruct (ok status); simpl negb; cbv iota.
  2: { eexists _, _, _. split; [reflexivity|]. split; [by left|]. unfold ReportDrop.
       destruct (_ && _); unfold unread; simpl; lia. }
  set (r1 := if zlen b <? kBlockSize then _ else _).
  assert (H1 : buffer_ r1 = b /\ (unread r1 <= unread r)%nat /\ (zlen b < kBlockSize -> eof_ r1 = true)).
  { subst r1. destruct (Z.ltb_spec (zlen b) kBlockSize); unfold unread; simpl; split_and!; try done; lia. }
  destruct H1 as (Hb & Hu & He). rewrite Hb.
  destruct (Z.ltb_spec (zlen b) kHeaderSize).
  - rewrite He by (consts; lia). eexists _, _, _. split; [reflexivity|]. split; [by left|].
    unfold unread in *. simpl in *. lia.
  - destruct (ParsePhysicalRecord_progress r1 result) as (t & g & r' & -> & Hu'); [by rewrite Hb|].
    exists t, g, r'. split; [done|]. lia.
Qed.

Lemma handle_record_unread t f o st r :
  match handle_record t f o st r with
  | Continue _ r' => unread r' = unread r /\ t <> kEof
  | Return found _ r' => unread r' = unread r /\ (found = true -> t <> kEof)
  end.
Proof.
  unfold handle_record, drop_partial.
  repeat match goal with
  | |- context [?a =? ?b] => destruct (Z.eqb_spec a b); [subst|]
  | |- context [if ?c then _ else _] => destruct c
  | |- context [match scratch st with _ => _ end] => destruct (scratch st)
  end; (split; [|first [done|discriminate]]);
    rewrite ?unread_ReportCorruption; try done;
    try apply unread_ReportDrop.
  all: rewrite <- (unread_ReportCorruption r (zlen (scratch st)) (str "partial record without end(1)")); done.
Qed.

Lemma ReadRecord_loop_total fuel : forall st frag r, (unread r < fuel)%nat ->
  exists found record r', ReadRecord_loop fuel st frag r = Some (found, record, r') /\
    (unread r' <= unread r)%nat /\ (found = true -> unread r' < unread r)%nat.
Proof.
  induction fuel as [|fuel IH]; intros st frag r Hf; [lia|]. cbn [ReadRecord_loop].
  destruct (ReadPhysicalRecord_progress r frag) as (t & f & r1 & -> & Hp & Hle). cbv zeta.
  assert (Hrs : exists skip r2, resync t r1 = (skip, r2) /\ unread r2 = unread r1 /\
                  (skip = true -> t <> kEof)).
  { unfold resync. destruct (resyncing_ r1); [|by eexists _, _].
    destruct (Z.eqb_spec t kMiddleType) as [->|]; [by eexists _, _|].
    destruct (Z.eqb_spec t kLastType) as [->|]; by eexists _, _. }
  destruct Hrs as (skip & r2 & -> & Hu & Hskip).
  assert (Hgo : t <> kEof -> forall st' r3, unread r3 = unread r2 -> exists found record r',
    ReadRecord_loop fuel st' f r3 = Some (found, record, r') /\
    (unread r' <= unread r)%nat /\ (found = true -> unread r' < unread r)%nat).
  { intros Ht st' r3 H3. destruct (IH st' f r3) as (fd & rc & r' & -> & H1 & H2); [lia|].
    exists fd, rc, r'. split; [done|]. split; [lia|]. intros. specialize (H2 ltac:(done)). lia. }
  destruct skip; [by apply Hgo; [apply Hskip|]|].
  pose proof (handle_record_unread t f (u64 (end_of_buffer_offset_ r1 - zlen (buffer_ r1)
    - kHeaderSize - zlen f)) st r2) as Hh.
  destruct (handle_record _ _ _ _ _) as [st' r3|fd rc r3]; destruct Hh as [Hh Ht].
  - by apply Hgo.
  - exists fd, rc, r3. split; [done|]. split; [lia|]. intros Hfd. specialize (Ht Hfd). lia.
Qed.

Lemma unread_SkipToInitialBlock r : (unread (SkipToInitialBlock r).2 <= unread r)%nat.
Proof.
  unfold SkipToInitialBlock. destruct (_ <? _) eqn:?; destruct (0 <? _); simpl; try done.
  all: unfold SeqSkip; destruct (next_io _) as [[|s got] l]; simpl;
    rewrite ?unread_ReportDrop; unfold unread; simpl; rewrite length_drop; lia.
Qed.

Lemma ReadRecord_total r :
  exists found record r', ReadRecord r = Some (found, record, r') /\
    (unread r' <= unread r)%nat /\ (found = true -> unread r' < unread r)%nat.
Proof.
  unfold ReadRecord. pose proof (unread_SkipToInitialBlock r) as Hs.
  set (p := if _ <? _ then _ else _).
  assert (Hp : (unread p.2 <= unread r)%nat) by (subst p; by destruct (_ <? _)).
  destruct p as [go r1]. simpl in Hp. destruct go.
  - destruct (ReadRecord_loop_total (S (unread r1)) (MkFrag false [] 0) [] r1)
      as (fd & rc & r' & -> & H1 & H2); [lia|].
    exists fd, rc, r'. split; [done|]. split; [lia|]. intros. specialize (H2 ltac:(done)). lia.
  - by eexists _, _, _.
Qed.

Lemma ReadAll_loop_total fuel : forall r, (unread r < fuel)%nat -> is_Some (ReadAll_loop fuel r).
Proof.
  induction fuel as [|fuel IH]; intros r Hf; [lia|]. cbn [ReadAll_loop].
  destruct (ReadRecord_total r) as ([|] & rc & r' & -> & _ & H2); [|done].
  destruct (IH r') as [[l r''] ->]; [specialize (H2 eq_refl); lia|done].
Qed.

End Log.

#[global] Opaque pad start.

(** ** Properties *)

(** C27. Crash recovery of the log: write any records with a fresh writer, keep
    only the first [k] bytes of the file (a crash; [k] may be its whole length),
    and read it back.  The reader returns exactly the records all of whose bytes
    were kept, in order and with their contents, reports no corruption, and
    stops; a record cut in its header, payload or fragments is dropped. *)
Theorem log_crash_recovery `{!Crc32c} (rs : list bytes) (k : nat) (reporter checksum : bool) :
  Forall bytes_ok rs ->
  exists w m rd,
    AddRecords (Writer_new (WFile [] [])) rs = Some (Status_OK, w) /\
    ReadAll (Reader_new (SFile (take k (contents (dest_ w))) []) reporter checksum 0)
      = Some (take m rs, rd) /\
    reports rd = [] /\ (m <= length rs)%nat /\
    forall j wj, (j <= length rs)%nat ->
      AddRecords (Writer_new (WFile [] [])) (take j rs) = Some (Status_OK, wj) ->
      (j <= m <-> length (contents (dest_ wj)) <= length (take k (contents (dest_ w))))%nat.
Proof.
  intros Hrs. assert (Ho : offset_ok 0) by (unfold offset_ok, kBlockSize; lia).
  destruct (AddRecords_spec rs [] 0 Ho) as (bs & off' & Hlog & Ho' & Hw).
  assert (Hlog' : exists o, log_of kBlockSize rs bs o).
  { destruct rs; [inversion Hlog; subst; eexists; constructor|].
    eexists. by eapply (log_of_congruent 0). }
  destruct Hlog' as [o Hlog'].
  destruct (ReadAll_log rs kBlockSize bs o
    (Reader_new (SFile (take k bs) []) reporter checksum 0) (take k bs) (drop k bs)
    (S (unread (Reader_new (SFile (take k bs) []) reporter checksum 0))) Hlog'
    (Reader_new_at_pos _ _ _) (take_drop _ _) Hrs block_end_ok) as (m & rd & Hrd & Hrep & [Hm Hrec] & _); [lia|].
  eexists _, m, rd. split_and!; [exact Hw|exact Hrd|exact Hrep|exact Hm|].
  intros j wj Hj Hwj.
  destruct (AddRecords_spec (take j rs) [] 0 Ho) as (bsj & offj & Hlogj & _ & Hwj').
  unfold Writer_new in Hwj. rewrite Hwj' in Hwj. injection Hwj as <-. simpl.
  destruct (take j rs) eqn:Htk.
  - inversion Hlogj; subst. destruct rs, j; try discriminate; simpl in *; lia.
  - apply (Hrec j _ offj Hj). rewrite Htk. by eapply (log_of_congruent 0).
Qed.

#[local] Instance crc_at_0 : Crc32c := crc32c_portable 0.

Lemma log_crash_recovery_witness :
  exists w m rd,
    AddRecords (Writer_new (WFile [] [])) [[1; 2; 3]; []; [7; 255]]
      = Some (Status_OK, w) /\
    ReadAll (Reader_new (SFile (take 18 (contents (dest_ w))) []) true true 0)
      = Some (take m [[1; 2; 3]; []; [7; 255]], rd) /\ m = 2%nat.
Proof.
  destruct (log_crash_recovery [[1; 2; 3]; []; [7; 255]] 18 true true)
    as (w & m & rd & Hw & Hrd & _ & Hm & _).
  { repeat constructor; unfold is_byte; lia. }
  exists w, m, rd. split_and!; [exact Hw|exact Hrd|].
  assert (Hc : m = 2%nat \/ m <> 2%nat) by lia. destruct Hc as [->|Hne]; [done|]. exfalso.
  vm_compute in Hw. injection Hw as <-.
  do 4 (destruct m as [|m]; [try (by vm_compute in Hrd); simpl in Hm; lia|]). simpl in Hm. lia.
Defined.

(** Reopening a log for appending: a writer constructed from the length of
    the file continues the log exactly as the writer that wrote it would have,
    so the bytes are those of one uninterrupted writer. *)
Theorem log_reopen `{!Crc32c} (rs1 rs2 : list bytes) :
  exists w1 w2 w,
    AddRecords (Writer_new (WFile [] [])) rs1 = Some (Status_OK, w1) /\
    AddRecords (Writer_reopen (dest_ w1) (zlen (contents (dest_ w1)))) rs2 = Some (Status_OK, w2) /\
    AddRecords (Writer_new (WFile [] [])) (rs1 ++ rs2) = Some (Status_OK, w) /\
    contents (dest_ w2) = contents (dest_ w).
Proof.
  assert (Ho : offset_ok 0) by (unfold offset_ok, kBlockSize; lia).
  destruct (AddRecords_spec rs1 [] 0 Ho) as (bs1 & off1 & Hlog1 & Ho1 & Hw1).
  destruct (log_of_offset _ _ _ _ Hlog1 Ho) as [Hmod _]. rewrite Z.add_0_l in Hmod.
  assert (Hom : offset_ok (zlen bs1 mod kBlockSize)).
  { pose proof (Z.mod_pos_bound (zlen bs1) kBlockSize ltac:(done)). unfold offset_ok. lia. }
  destruct (AddRecords_spec rs2 bs1 _ Hom) as (bs2 & off2 & Hlog2 & _ & Hw2).
  destruct (AddRecords_spec (rs1 ++ rs2) [] 0 Ho) as (bs & off & Hlog & _ & Hw).
  eexists _, _, _. split_and!; [exact Hw1|exact Hw2|exact Hw|]. simpl.
  assert (Hlog2' : exists o, log_of off1 rs2 bs2 o).
  { destruct rs2; [inversion Hlog2; subst; eexists; constructor|]. eexists.
    destruct (offset_mod off1 Ho1) as [Hp Hs]. rewrite <- Hmod in Hp, Hs.
    by eapply (log_of_congruent (zlen bs1 mod kBlockSize)). }
  destruct Hlog2' as [o Hlog2'].
  by destruct (log_of_det _ _ _ _ (log_of_app _ _ _ _ _ _ _ Hlog1 Hlog2') _ _ Hlog) as [-> _].
Qed.

(** Reading always ends: on any file contents, with any pattern of failing
    reads, from any reader state, [ReadRecord] returns, a returned record
    consumed input, and the recovery loop over the whole file returns. *)
Theorem log_read_terminates `{!Crc32c} (r : Reader) :
  (exists found record r', ReadRecord r = Some (found, record, r') /\
     (found = true -> unread r' < unread r)%nat) /\
  is_Some (ReadAll r).
Proof.
  destruct (ReadRecord_total r) as (fd & rc & r' & Hr & _ & Hu).
  split; [by exists fd, rc, r'|]. apply ReadAll_loop_total. lia.
Qed.
