(* ===== verification/TableFormat.v ===== *)
(** * TableFormat: handles, the footer and the blocks of a table file

    src/LSM-EBF/table/format.h and format.cc.  Snappy is a library the build may
    or may not find (port/port_posix.h): it is the interface [Snappy], whose only
    law is that uncompression undoes compression. *)
From S2P Require Import Prelude Coding Crc32c Status.

(** ** Block handles and the footer *)

Record BlockHandle := MkHandle { offset : Z; size : Z }.

#[export] Instance BlockHandle_eq_dec : EqDecision BlockHandle.
Proof. solve_decision. Defined.

(** The constructor's [~static_cast<uint64_t>(0)]. *)
Definition BlockHandle_new : BlockHandle := MkHandle (2 ^ 64 - 1) (2 ^ 64 - 1).

Definition kMaxEncodedLength : nat := (10 + 10)%nat.

Module Handle.
Definition EncodeTo (h : BlockHandle) (dst : bytes) : bytes :=
  PutVarint64 (PutVarint64 dst (offset h)) (size h).

(** The fields and the input keep what the last successful step left. *)
Definition DecodeFrom (h : BlockHandle) (input : bytes) : Status * BlockHandle * bytes :=
  match GetVarint64 input with
  | None => (Corruption (str "bad block handle") [], h, input)
  | Some (o, input) =>
      match GetVarint64 input with
      | None => (Corruption (str "bad block handle") [], MkHandle o (size h), input)
      | Some (s, input) => (Status_OK, MkHandle o s, input)
      end
  end.
End Handle.

Record Footer := MkFooter { metaindex_handle : BlockHandle; index_handle : BlockHandle }.

Definition kEncodedLength : nat := (2 * kMaxEncodedLength + 8)%nat.
Definition kTableMagicNumber : Z := 0xdb4775248b80fb57.
Definition kBlockTrailerSize : Z := 5.

Module FooterCode.
Definition EncodeTo (f : Footer) (dst : bytes) : bytes :=
  let dst := Handle.EncodeTo (metaindex_handle f) dst in
  let dst := Handle.EncodeTo (index_handle f) dst in
  let dst := resize0 dst (2 * kMaxEncodedLength) in
  let dst := PutFixed32 dst (u32 (kTableMagicNumber &&& 0xffffffff)) in
  PutFixed32 dst (u32 (kTableMagicNumber ≫ 32)).

Definition DecodeFrom (f : Footer) (input : bytes) : Status * Footer * bytes :=
  let magic_ptr := drop (kEncodedLength - 8) input in
  let magic_lo := DecodeFixed32 magic_ptr in
  let magic_hi := DecodeFixed32 (drop 4 magic_ptr) in
  let magic := (magic_hi ≪ 32) ||| magic_lo in
  if negb (magic =? kTableMagicNumber) then
    (Corruption (str "not an sstable (bad magic number)") [], f, input)
  else
    let '(result, mh, inp) := Handle.DecodeFrom (metaindex_handle f) input in
    if negb (ok result) then (result, MkFooter mh (index_handle f), inp)
    else
      let '(result, ih, inp) := Handle.DecodeFrom (index_handle f) inp in
      if ok result then (result, MkFooter mh ih, drop kEncodedLength input)
      else (result, MkFooter mh ih, inp).
End FooterCode.

(** ** Snappy *)

Class Snappy := {
  Snappy_Compress : bytes -> option bytes;
  Snappy_GetUncompressedLength : bytes -> option Z;
  Snappy_Uncompress : bytes -> option bytes;
  snappy_ok : forall d c, bytes_ok d -> Snappy_Compress d = Some c -> bytes_ok c;
  snappy_undo : forall d c, Snappy_Compress d = Some c ->
    Snappy_GetUncompressedLength c = Some (zlen d) /\ Snappy_Uncompress c = Some d
}.

(** port_posix.h without [HAVE_SNAPPY]: the three calls return false. *)
#[export] Program Instance no_snappy : Snappy :=
  {| Snappy_Compress _ := None; Snappy_GetUncompressedLength _ := None; Snappy_Uncompress _ := None |}.
Solve All Obligations with done.

(** ** Blocks *)

Inductive CompressionType := kNoCompression | kSnappyCompression.
Definition compression_code (t : CompressionType) : Z :=
  match t with kNoCompression => 0 | kSnappyCompression => 1 end.

Record BlockContents := MkContents { data : bytes; cachable : bool; heap_allocated : bool }.

(** The [switch (data[n])] of [ReadBlock] and [ReadBlocks]; [own] says that the
    file returned a pointer other than the caller's buffer (mmap). *)
Definition block_payload `{!Snappy} (own : bool) (d : bytes) (n : nat)
    : Status * BlockContents :=
  let none := MkContents [] false false in
  let type := byte_at d n in
  if type =? compression_code kNoCompression then
    (Status_OK, MkContents (take n d) (negb own) (negb own))
  else if type =? compression_code kSnappyCompression then
    match Snappy_GetUncompressedLength (take n d) with
    | None => (Corruption (str "corrupted compressed block contents") [], none)
    | Some ulength =>
        match Snappy_Uncompress (take n d) with
        | None => (Corruption (str "corrupted compressed block contents") [], none)
        | Some u => (Status_OK, MkContents (take (Z.to_nat ulength) u) true true)
        end
    end
  else (Corruption (str "bad block type") [], none).

Definition ReadBlock `{!Crc32c, !Snappy} (file : RandomAccessFile) (own verify_checksums : bool)
    (handle : BlockHandle) : Status * BlockContents * RandomAccessFile :=
  let none := MkContents [] false false in
  let n := size handle in
  let want := u64 (n + kBlockTrailerSize) in
  let '(s, contents, file) := RandRead file (offset handle) (Z.to_nat want) in
  if negb (ok s) then (s, none, file)
  else if negb (zlen contents =? want) then
    (Corruption (str "truncated block read") [], none, file)
  else if verify_checksums &&
          negb (Value (take (Z.to_nat (n + 1)) contents)
                =? Unmask (DecodeFixed32 (drop (Z.to_nat (n + 1)) contents))) then
    (Corruption (str "block checksum mismatch") [], none, file)
  else (block_payload own contents (Z.to_nat n), file).

(** [Reads]: one read of consecutive extents, cut into slices of the lengths asked. *)
Fixpoint cut (d : bytes) (lens : list nat) : list bytes :=
  match lens with
  | [] => []
  | n :: lens => take n d :: cut (drop n d) lens
  end.

Definition RandReads (f : RandomAccessFile) (off : Z) (lens : list nat)
    : Status * list bytes * RandomAccessFile :=
  let '(s, d, f) := RandRead f off (foldr plus 0%nat lens) in
  (s, cut d lens, f).

(** The final loop of [ReadBlocks]: it returns at the first block that fails. *)
Fixpoint payloads `{!Snappy} (own : bool) (contents : list bytes) (handles : list BlockHandle)
    : Status * list BlockContents :=
  match contents, handles with
  | c :: contents, h :: handles =>
      let '(s, r) := block_payload own c (Z.to_nat (size h)) in
      if ok s then let '(s, rs) := payloads own contents handles in (s, r :: rs)
      else (s, r :: map (fun _ => MkContents [] false false) handles)
  | _, _ => (Status_OK, [])
  end.

Definition sum_sizes (handles : list BlockHandle) : Z :=
  foldr (fun h acc => u64 (size h + acc)) 0 handles.

(** No checksum is verified, whatever the options say. *)
Definition ReadBlocks `{!Snappy} (file : RandomAccessFile) (own : bool)
    (handles : list BlockHandle) : Status * list BlockContents * RandomAccessFile :=
  let none := map (fun _ => MkContents [] false false) handles in
  let lens := map (fun h => Z.to_nat (u64 (size h + kBlockTrailerSize))) handles in
  let first := match handles with h :: _ => offset h | [] => 0 end in
  let '(s, contents, file) := RandReads file first lens in
  if negb (ok s) then (s, none, file)
  else if negb (foldr (fun c acc => zlen c + acc) 0 contents
                =? u64 (sum_sizes handles + zlen handles * kBlockTrailerSize)) then
    (Corruption (str "truncated block read") [], none, file)
  else (payloads own contents handles, file).

(** What the builder writes for a block: contents, type, masked checksum. *)
Definition block_trailer `{!Crc32c} (contents : bytes) (type : CompressionType) : bytes :=
  compression_code type
    :: EncodeFixed32 (Mask (crc_extend (Value contents) [compression_code type])).

(** ** Lemmas *)

Definition handle_ok (h : BlockHandle) : Prop := 0 <= offset h < 2 ^ 64 /\ 0 <= size h < 2 ^ 64.

Definition handle_bytes (h : BlockHandle) : bytes :=
  EncodeVarint64 (offset h) ++ EncodeVarint64 (size h).

Lemma Handle_EncodeTo_eq h dst : Handle.EncodeTo h dst = dst ++ handle_bytes h.
Proof. unfold Handle.EncodeTo, PutVarint64, handle_bytes. by rewrite app_assoc. Qed.

Lemma Handle_DecodeFrom_Encode h h0 rest :
  handle_ok h -> Handle.DecodeFrom h0 (handle_bytes h ++ rest) = (Status_OK, h, rest).
Proof.
  intros [Ho Hs]. unfold Handle.DecodeFrom, handle_bytes.
  rewrite <- app_assoc, GetVarint64_Encode, GetVarint64_Encode by assumption. by destruct h.
Qed.

Lemma handle_bytes_length h : handle_ok h -> (2 <= length (handle_bytes h) <= kMaxEncodedLength)%nat.
Proof.
  intros [Ho Hs]. unfold handle_bytes, kMaxEncodedLength. rewrite length_app.
  pose proof (EncodeVarint64_length (offset h) ltac:(lia)).
  pose proof (EncodeVarint64_length (size h) ltac:(lia)). lia.
Qed.

Lemma handle_bytes_ok h : handle_ok h -> bytes_ok (handle_bytes h).
Proof. intros [Ho Hs]. apply bytes_ok_app. split; apply EncodeVarint64_ok; lia. Qed.

#[export] Hint Resolve handle_bytes_ok : kv.

(** The parts of an encoded footer. *)
Lemma Footer_EncodeTo_eq f :
  handle_ok (metaindex_handle f) -> handle_ok (index_handle f) ->
  exists padding, FooterCode.EncodeTo f [] =
    (handle_bytes (metaindex_handle f) ++ handle_bytes (index_handle f) ++ padding)
      ++ EncodeFixed32 0x8b80fb57 ++ EncodeFixed32 0xdb477524 /\
    length (handle_bytes (metaindex_handle f) ++ handle_bytes (index_handle f) ++ padding) = 40%nat.
Proof.
  intros Hm Hi. pose proof (handle_bytes_length _ Hm). pose proof (handle_bytes_length _ Hi).
  unfold kMaxEncodedLength in *.
  unfold FooterCode.EncodeTo. rewrite !Handle_EncodeTo_eq. unfold resize0, PutFixed32.
  set (m := handle_bytes (metaindex_handle f)) in *. set (i := handle_bytes (index_handle f)) in *.
  assert (u32 (kTableMagicNumber &&& 0xffffffff) = 0x8b80fb57) as -> by (vm_compute; reflexivity).
  assert (u32 (kTableMagicNumber ≫ 32) = 0xdb477524) as -> by (vm_compute; reflexivity).
  exists (replicate (2 * 20 - length (([] ++ m) ++ i)) 0). rewrite app_nil_l.
  split.
  - rewrite firstn_all2 by (rewrite length_app; unfold kMaxEncodedLength; lia).
    unfold kMaxEncodedLength. change (10 + 10)%nat with 20%nat. by rewrite <- !app_assoc.
  - rewrite !length_app, length_replicate. lia.
Qed.

Lemma Footer_length f :
  handle_ok (metaindex_handle f) -> handle_ok (index_handle f) ->
  length (FooterCode.EncodeTo f []) = kEncodedLength.
Proof.
  intros Hm Hi. destruct (Footer_EncodeTo_eq f Hm Hi) as (p & -> & Hl).
  by rewrite length_app, Hl.
Qed.

Lemma Footer_DecodeFrom_Encode f f0 rest :
  handle_ok (metaindex_handle f) -> handle_ok (index_handle f) ->
  FooterCode.DecodeFrom f0 (FooterCode.EncodeTo f [] ++ rest) = (Status_OK, f, rest).
Proof.
  intros Hm Hi. pose proof (Footer_length f Hm Hi) as Hlen.
  destruct (Footer_EncodeTo_eq f Hm Hi) as (p & Heq & Hl).
  unfold FooterCode.DecodeFrom. rewrite drop_app_exact with (n := kEncodedLength) by done.
  rewrite Heq, <- app_assoc, drop_app_exact by (rewrite Hl; reflexivity).
  rewrite <- !app_assoc, DecodeFixed32_Encode by lia.
  rewrite drop_app_exact by reflexivity. rewrite DecodeFixed32_Encode by lia.
  assert ((0xdb477524 ≪ 32 ||| 0x8b80fb57 =? kTableMagicNumber) = true) as -> by (vm_compute; reflexivity).
  simpl negb. cbv iota.
  rewrite Handle_DecodeFrom_Encode by done. simpl negb. cbv iota.
  rewrite Handle_DecodeFrom_Encode by done. by destruct f.
Qed.

(** ** Reading back what was written *)

(** [file] holds [d] at [off], and its reads succeed. *)
Definition holds (file : RandomAccessFile) (off : Z) (d : bytes) : Prop :=
  0 <= off /\ r_io file = [] /\
  exists pre post, r_contents file = pre ++ d ++ post /\ zlen pre = off.

Lemma holds_app file off d1 d2 :
  holds file off (d1 ++ d2) -> holds file off d1 /\ holds file (off + zlen d1) d2.
Proof.
  intros (Ho & Hio & pre & post & Hc & Hp). pose proof (zlen_nonneg d1). split.
  - split_and!; [done..|]. exists pre, (d2 ++ post). split; [|done]. by rewrite Hc, <- app_assoc.
  - split_and!; [lia|done|]. exists (pre ++ d1), post.
    split; [by rewrite Hc, <- !app_assoc|]. rewrite zlen_app. lia.
Qed.

Lemma RandRead_holds file off d :
  holds file off d -> RandRead file off (length d) = (Status_OK, d, file).
Proof.
  intros (Ho & Hio & pre & post & Hc & Hp). unfold RandRead, next_io. rewrite Hio, Hc.
  unfold sub_bytes. rewrite drop_app_exact by (rewrite <- Hp; apply to_nat_zlen).
  rewrite take_app_length. rewrite <- Hc. f_equal. destruct file. simpl in *. by subst.
Qed.

Lemma RandRead_sub file off d a n :
  holds file off d -> 0 <= a -> (Z.to_nat a + n <= length d)%nat ->
  RandRead file (off + a) n = (Status_OK, sub_bytes d (Z.to_nat a) n, file).
Proof.
  intros (Ho & Hio & pre & post & Hc & Hp) Ha Hn. unfold RandRead, next_io. rewrite Hio, Hc.
  assert (Hf : RFile (pre ++ d ++ post) [] = file) by (destruct file; simpl in *; by subst).
  rewrite Hf. f_equal. f_equal. unfold sub_bytes.
  replace (Z.to_nat (off + a)) with (length pre + Z.to_nat a)%nat by (unfold zlen in Hp; lia).
  rewrite <- drop_drop, drop_app_length, drop_app_le by lia. apply take_app_le.
  rewrite length_drop. lia.
Qed.

Section ReadBack.
Context `{!Crc32c, !Snappy}.

Definition stored_block (contents : bytes) (type : CompressionType) : bytes :=
  contents ++ block_trailer contents type.

Lemma stored_block_length c t : zlen (stored_block c t) = zlen c + kBlockTrailerSize.
Proof. unfold stored_block. rewrite zlen_app. reflexivity. Qed.

Lemma compression_code_byte t : is_byte (compression_code t).
Proof. destruct t; unfold is_byte; simpl; lia. Qed.

Lemma trailer_checksum c t :
  bytes_ok c ->
  Value (take (Z.to_nat (zlen c + 1)) (stored_block c t))
  = Unmask (DecodeFixed32 (drop (Z.to_nat (zlen c + 1)) (stored_block c t))).
Proof.
  intros Hc. assert (Hsplit : stored_block c t = (c ++ [compression_code t]) ++
      EncodeFixed32 (Mask (crc_extend (Value c) [compression_code t]))).
  { unfold stored_block, block_trailer. by rewrite <- app_assoc. }
  assert (Hl : Z.to_nat (zlen c + 1) = length (c ++ [compression_code t]))
    by (rewrite length_app; simpl; unfold zlen; lia).
  assert (Ht : bytes_ok [compression_code t]) by (repeat constructor; apply compression_code_byte).
  rewrite Hsplit, take_app_exact, drop_app_exact by done.
  rewrite <- (app_nil_r (EncodeFixed32 _)), DecodeFixed32_Encode by apply Mask_range.
  rewrite Unmask_Mask by (apply crc_extend_range; [by apply Value_range|done]).
  by apply Value_app.
Qed.

(** A stored block is read back as its payload, checksum verified or not. *)
Lemma ReadBlock_stored file own verify c t off :
  bytes_ok c -> zlen c + kBlockTrailerSize < 2 ^ 64 -> holds file off (stored_block c t) ->
  ReadBlock file own verify (MkHandle off (zlen c))
  = (block_payload own (stored_block c t) (length c), file).
Proof.
  intros Hc Hl Hh. pose proof (zlen_nonneg c). unfold ReadBlock. simpl offset. simpl size.
  rewrite u64_small by (unfold kBlockTrailerSize in *; lia).
  rewrite <- stored_block_length with (t := t), to_nat_zlen, (RandRead_holds _ _ _ Hh).
  simpl negb. cbv iota. rewrite Z.eqb_refl. simpl negb. cbv iota.
  rewrite trailer_checksum, Z.eqb_refl by done. simpl negb. rewrite andb_false_r.
  by rewrite to_nat_zlen.
Qed.

(** What the type byte makes of the contents. *)
Definition block_data (c : bytes) (t : CompressionType) : option bytes :=
  match t with kNoCompression => Some c | kSnappyCompression => Snappy_Uncompress c end.

Lemma stored_block_type c t : byte_at (stored_block c t) (length c) = compression_code t.
Proof.
  unfold byte_at, stored_block, block_trailer. rewrite app_nth2 by lia.
  by rewrite Nat.sub_diag.
Qed.

Lemma block_payload_plain own c :
  block_payload own (stored_block c kNoCompression) (length c)
  = (Status_OK, MkContents c (negb own) (negb own)).
Proof.
  unfold block_payload. rewrite stored_block_type. simpl. unfold stored_block. by rewrite take_app_length.
Qed.

Lemma block_payload_snappy own d c :
  Snappy_Compress d = Some c ->
  block_payload own (stored_block c kSnappyCompression) (length c)
  = (Status_OK, MkContents d true true).
Proof.
  intros Hs. destruct (snappy_undo d c Hs) as [Hlen Hu].
  unfold block_payload. rewrite stored_block_type. simpl. unfold stored_block.
  rewrite take_app_length, Hlen, Hu. by rewrite to_nat_zlen, firstn_all.
Qed.

(** Consecutive blocks are read by [ReadBlocks] as one by one. *)
Lemma cut_stored (l : list (bytes * CompressionType)) :
  cut (concat ((fun p => stored_block p.1 p.2) <$> l))
    ((fun p => length (stored_block p.1 p.2)) <$> l)
  = (fun p => stored_block p.1 p.2) <$> l.
Proof.
  induction l as [|p l IH]; [done|]. cbn [fmap list_fmap concat cut].
  by rewrite take_app_length, drop_app_length, IH.
Qed.

(** The handles of consecutive blocks. *)
Fixpoint consecutive (off : Z) (l : list (bytes * CompressionType)) : list BlockHandle :=
  match l with
  | [] => []
  | p :: l => MkHandle off (zlen p.1) :: consecutive (off + (zlen p.1 + kBlockTrailerSize)) l
  end.

Lemma consecutive_lens l : forall off,
  Forall (fun p => zlen p.1 + kBlockTrailerSize < 2 ^ 64) l ->
  map (fun h => Z.to_nat (u64 (size h + kBlockTrailerSize))) (consecutive off l)
  = (fun p => length (stored_block p.1 p.2)) <$> l.
Proof.
  induction l as [|p l IH]; intros off Hl; [done|]. apply Forall_cons in Hl as [Hp Hl].
  cbn [consecutive map fmap list_fmap]. rewrite IH by done. f_equal. simpl size.
  pose proof (zlen_nonneg p.1).
  rewrite u64_small by (unfold kBlockTrailerSize in *; lia).
  rewrite <- stored_block_length with (t := p.2). apply to_nat_zlen.
Qed.

Definition stored_total (l : list (bytes * CompressionType)) : Z :=
  zlen (concat ((fun p => stored_block p.1 p.2) <$> l)).

Lemma stored_total_cons p l : stored_total (p :: l) = zlen p.1 + kBlockTrailerSize + stored_total l.
Proof. unfold stored_total. cbn [fmap list_fmap concat]. by rewrite zlen_app, stored_block_length. Qed.

Lemma stored_total_bounds l : stored_total l < 2 ^ 64 ->
  Forall (fun p => zlen p.1 + kBlockTrailerSize < 2 ^ 64) l /\
  forall off, sum_sizes (consecutive off l) + zlen l * kBlockTrailerSize = stored_total l.
Proof.
  induction l as [|p l IH]; [done|]. rewrite stored_total_cons. intros Hb.
  assert (0 <= stored_total l) by apply zlen_nonneg. pose proof (zlen_nonneg p.1).
  destruct IH as [Hl Hs]; [unfold kBlockTrailerSize in *; lia|].
  split; [constructor; [lia|done]|]. intros off.
  assert (Hc : sum_sizes (consecutive off (p :: l))
    = u64 (zlen p.1 + sum_sizes (consecutive (off + (zlen p.1 + kBlockTrailerSize)) l))) by done.
  specialize (Hs (off + (zlen p.1 + kBlockTrailerSize))). rewrite Hc, zlen_cons.
  pose proof (zlen_nonneg l). unfold kBlockTrailerSize in *.
  rewrite u64_small; [lia|]. split; [|lia].
  assert (0 <= sum_sizes (consecutive (off + (zlen p.1 + 5)) l)); [|lia].
  destruct l; [done|]. apply u64_range.
Qed.

Lemma sum_lens (l : list (bytes * CompressionType)) :
  foldr plus 0%nat ((fun p => length (stored_block p.1 p.2)) <$> l)
  = length (concat ((fun p => stored_block p.1 p.2) <$> l)).
Proof. induction l as [|p l IH]; [done|]. cbn [fmap list_fmap concat foldr]. by rewrite IH, length_app. Qed.

Lemma sum_contents (l : list bytes) : foldr (fun c acc => zlen c + acc) 0 l = zlen (concat l).
Proof. induction l as [|c l IH]; [done|]. simpl. by rewrite IH, zlen_app. Qed.

(** What [ReadBlock] without checksums gives for each block in turn. *)
Fixpoint read_each (own : bool) (l : list (bytes * CompressionType)) : Status * list BlockContents :=
  match l with
  | [] => (Status_OK, [])
  | p :: l =>
      let '(s, r) := block_payload own (stored_block p.1 p.2) (length p.1) in
      if ok s then let '(s, rs) := read_each own l in (s, r :: rs)
      else (s, r :: map (fun _ => MkContents [] false false) l)
  end.

Lemma map_const_consecutive {A} (a : A) l : forall off,
  map (fun _ => a) (consecutive off l) = map (fun _ => a) l.
Proof. induction l; intros; simpl; congruence. Qed.

Lemma payloads_stored own l : forall off,
  payloads own ((fun p => stored_block p.1 p.2) <$> l) (consecutive off l) = read_each own l.
Proof.
  induction l as [|p l IH]; intros off; [done|]. cbn [fmap list_fmap consecutive payloads read_each].
  simpl size. rewrite to_nat_zlen. destruct (block_payload _ _ _) as [s r].
  destruct (ok s); [by rewrite IH|]. by rewrite map_const_consecutive.
Qed.

Lemma ReadBlocks_stored file own l off :
  stored_total l < 2 ^ 64 -> l <> [] -> holds file off (concat ((fun p => stored_block p.1 p.2) <$> l)) ->
  ReadBlocks file own (consecutive off l) = (read_each own l, file).
Proof.
  intros Hb Hne Hh. destruct (stored_total_bounds l Hb) as [Hl Hs].
  unfold ReadBlocks. rewrite consecutive_lens by done.
  assert (match consecutive off l with [] => 0 | h :: _ => offset h end = off) as -> by (by destruct l).
  unfold RandReads. rewrite sum_lens, (RandRead_holds _ _ _ Hh), cut_stored. simpl negb. cbv iota.
  rewrite sum_contents. fold (stored_total l).
  assert (zlen (consecutive off l) = zlen l) as ->.
  { clear. revert off. induction l; intros; [done|]. cbn [consecutive]. rewrite !zlen_cons. by rewrite IHl. }
  rewrite Hs, u64_small, Z.eqb_refl by (split; [apply zlen_nonneg|done]). simpl negb. cbv iota.
  by rewrite payloads_stored.
Qed.

Lemma read_each_plain own (l : list bytes) :
  read_each own ((., kNoCompression) <$> l) = (Status_OK, (fun c => MkContents c (negb own) (negb own)) <$> l).
Proof.
  induction l as [|c l IH]; [done|]. cbn [fmap list_fmap read_each fst snd].
  rewrite block_payload_plain. cbn [ok Status_OK]. by rewrite IH.
Qed.

Lemma take_consecutive n l : forall off, take n (consecutive off l) = consecutive off (take n l).
Proof. revert l. induction n as [|n IH]; intros [|p l] off; cbn [take consecutive]; by rewrite ?IH. Qed.

Lemma consecutive_lookup l : forall off i p, l !! i = Some p ->
  consecutive off l !! i = Some (MkHandle (off + stored_total (take i l)) (zlen p.1)).
Proof.
  induction l as [|q l IH]; intros off [|i] p Hp; try done; cbn [take consecutive].
  - injection Hp as ->. simpl. by rewrite Z.add_0_r.
  - simpl. rewrite (IH _ i p Hp), stored_total_cons. f_equal. f_equal. lia.
Qed.

Lemma length_consecutive l : forall off, length (consecutive off l) = length l.
Proof. induction l; intros; simpl; auto. Qed.

End ReadBack.

(** ** Properties *)

(** Reading blocks: a block stored in a file with its trailer is read back
    by [ReadBlock], checksums verified, as the very bytes that were stored; and
    [ReadBlocks] on consecutive stored blocks returns, in one read, what
    [ReadBlock] returns for each. *)
Theorem read_blocks_roundtrip `{!Crc32c, !Snappy} (file : RandomAccessFile) (own verify : bool) (off : Z)
    (l : list bytes) :
  l <> [] -> Forall bytes_ok l ->
  stored_total ((., kNoCompression) <$> l) < 2 ^ 64 ->
  holds file off (concat ((fun c => stored_block c kNoCompression) <$> l)) ->
  ReadBlocks file own (consecutive off ((., kNoCompression) <$> l))
    = (Status_OK, (fun c => MkContents c (negb own) (negb own)) <$> l, file) /\
  Forall2 (fun h c => ReadBlock file own verify h = (Status_OK, MkContents c (negb own) (negb own), file))
    (consecutive off ((., kNoCompression) <$> l)) l.
Proof.
  intros Hne Hok Hb Hh. split.
  - rewrite ReadBlocks_stored; [|done|by destruct l|by rewrite <- list_fmap_compose].
    by rewrite read_each_plain.
  - destruct (stored_total_bounds _ Hb) as [Hl _]. clear Hb Hne. revert off Hh Hl.
    induction l as [|c l IH]; intros off Hh Hl; [constructor|].
    cbn [fmap list_fmap concat consecutive] in *.
    apply Forall_cons in Hok as [Hc Hok]. apply Forall_cons in Hl as [Hcl Hl].
    apply holds_app in Hh as [Hh1 Hh2]. rewrite stored_block_length in Hh2. constructor.
    + by rewrite ReadBlock_stored with (t := kNoCompression), block_payload_plain.
    + by apply IH.
Qed.

Lemma read_blocks_roundtrip_witness :
  let file := RFile ([9; 9] ++ stored_block (H := crc32c_portable 0) [1; 2; 3] kNoCompression
                      ++ stored_block (H := crc32c_portable 0) [4] kNoCompression) [] in
  ReadBlocks file false [MkHandle 2 3; MkHandle 10 1]
    = (Status_OK, [MkContents [1; 2; 3] true true; MkContents [4] true true], file).
Proof.
  intros file.
  apply (read_blocks_roundtrip (H := crc32c_portable 0) file false true 2 [[1; 2; 3]; [4]]).
  - discriminate.
  - repeat constructor; unfold is_byte; lia.
  - vm_compute. reflexivity.
  - split_and!; [lia|done|]. exists [9; 9], []. split; [|reflexivity].
    vm_compute. reflexivity.
Defined.
