(* ===== verification/Block.v ===== *)
(** * Block: prefix-compressed blocks

    The builder of src/LSM-EBF/table/block_builder.cc and the iterator of
    src/LSM-EBF/table/block.cc.  A pointer into the block is an offset from
    [data_]; [value_] is the pair of its offset and size, and [None] when it is
    the empty slice, which points nowhere in the block. *)
From S2P Require Import Prelude Coding Status Comparator TableFormat.

(** ** Builder *)

Record BlockBuilder := MkBuilder {
  b_buffer : bytes;
  b_restarts : list Z;
  b_counter : Z;
  b_finished : bool;
  b_last_key : bytes
}.

Module Builder.
Definition make : BlockBuilder := MkBuilder [] [0] 0 false [].

Definition Reset (b : BlockBuilder) : BlockBuilder := MkBuilder [] [0] 0 false [].

Definition CurrentSizeEstimate (b : BlockBuilder) : Z :=
  zlen (b_buffer b) + zlen (b_restarts b) * 4 + 4.

Definition empty (b : BlockBuilder) : bool :=
  match b_buffer b with [] => true | _ => false end.

Definition Finish (b : BlockBuilder) : bytes * BlockBuilder :=
  if b_finished b then (b_buffer b, b)
  else
    let buffer := fold_left (fun buf r => PutFixed32 buf r) (b_restarts b) (b_buffer b) in
    let buffer := PutFixed32 buffer (u32 (zlen (b_restarts b))) in
    (buffer, MkBuilder buffer (b_restarts b) (b_counter b) true (b_last_key b)).

(** The loop that counts the bytes shared with the previous key. *)
Fixpoint shared_loop (last_key key : bytes) : nat :=
  match last_key, key with
  | a :: last_key, b :: key => if a =? b then S (shared_loop last_key key) else 0%nat
  | _, _ => 0%nat
  end.

Definition Add (block_restart_interval : Z) (b : BlockBuilder) (key value : bytes) : BlockBuilder :=
  let '(shared, restarts, counter) :=
    if b_counter b <? block_restart_interval
    then (shared_loop (b_last_key b) key, b_restarts b, b_counter b)
    else (0%nat, b_restarts b ++ [u32 (zlen (b_buffer b))], 0) in
  let non_shared := zlen key - Z.of_nat shared in
  let buffer := PutVarint32 (b_buffer b) (u32 (Z.of_nat shared)) in
  let buffer := PutVarint32 buffer (u32 non_shared) in
  let buffer := PutVarint32 buffer (u32 (zlen value)) in
  let buffer := buffer ++ drop shared key in
  let buffer := buffer ++ value in
  let last_key := take shared (b_last_key b) ++ drop shared key in
  MkBuilder buffer restarts (counter + 1) (b_finished b) last_key.
End Builder.

(** ** Block and its iterator *)

Record Block := MkBlock { data_ : bytes; size_ : Z; restart_offset_ : Z }.

Definition NumRestarts (d : bytes) (sz : Z) : Z := DecodeFixed32 (drop (Z.to_nat (sz - 4)) d).

(** [restart_offset_] stays uninitialised on the error paths, where it is not used. *)
Definition Block_new (contents : bytes) : Block :=
  let sz := zlen contents in
  if sz <? 4 then MkBlock contents 0 0
  else
    let max_restarts_allowed := (sz - 4) / 4 in
    if max_restarts_allowed <? NumRestarts contents sz then MkBlock contents 0 0
    else MkBlock contents sz (u32 (sz - (1 + NumRestarts contents sz) * 4)).

Lemma Block_new_data c : data_ (Block_new c) = c.
Proof. unfold Block_new. by repeat case_match. Qed.

(** [DecodeEntry]: [p] is the text from the entry to the limit, which the
    caller has checked to start before it; the result carries the text after
    the three lengths. *)
Definition DecodeEntry (p : bytes) : option (Z * Z * Z * bytes) :=
  if zlen p <? 3 then None
  else
    let shared := byte_at p 0 in
    let non_shared := byte_at p 1 in
    let value_length := byte_at p 2 in
    let decoded :=
      if shared ||| non_shared ||| value_length <? 128
      then Some (shared, non_shared, value_length, drop 3 p)
      else
        match GetVarint32Ptr p with
        | None => None
        | Some (shared, p) =>
            match GetVarint32Ptr p with
            | None => None
            | Some (non_shared, p) =>
                match GetVarint32Ptr p with
                | None => None
                | Some (value_length, p) => Some (shared, non_shared, value_length, p)
                end
            end
        end in
    match decoded with
    | None => None
    | Some (shared, non_shared, value_length, p) =>
        if u32 (zlen p) <? u32 (non_shared + value_length) then None
        else Some (shared, non_shared, value_length, p)
    end.

Record Iter := MkIter {
  current_ : Z;
  restart_index_ : Z;
  key_ : bytes;
  value_ : option (Z * Z);
  status_ : Status
}.

Section BlockIter.
Context `{!Comparator}.
Context (data : bytes) (restarts_ num_restarts_ : Z).

Definition Iter_new : Iter := MkIter restarts_ num_restarts_ [] None Status_OK.

Definition Valid (it : Iter) : bool := current_ it <? restarts_.

Definition value (it : Iter) : bytes :=
  match value_ it with
  | Some (off, len) => sub_bytes data (Z.to_nat off) (Z.to_nat len)
  | None => []
  end.

(** The null pointer's case never arises: every caller has set [value_]. *)
Definition NextEntryOffset (it : Iter) : Z :=
  match value_ it with Some (off, len) => u32 (off + len) | None => restarts_ end.

Definition GetRestartPoint (index : Z) : Z :=
  DecodeFixed32 (drop (Z.to_nat (restarts_ + index * 4)) data).

Definition SeekToRestartPoint (it : Iter) (index : Z) : Iter :=
  MkIter (current_ it) index [] (Some (GetRestartPoint index, 0)) (status_ it).

Definition CorruptionError (it : Iter) : Iter :=
  MkIter restarts_ num_restarts_ [] None (Corruption (str "bad entry in block") []).

(** The text between an offset and the restart array; empty past the limit. *)
Definition entry_text (off : Z) : bytes :=
  sub_bytes data (Z.to_nat off) (Z.to_nat (restarts_ - off)).

(** [while (restart_index_ + 1 < num_restarts_ && ...) ++restart_index_]. *)
Fixpoint advance_restart (fuel : nat) (restart_index current : Z) : Z :=
  match fuel with
  | O => restart_index
  | S fuel =>
      if (restart_index + 1 <? num_restarts_) && (GetRestartPoint (restart_index + 1) <? current)
      then advance_restart fuel (restart_index + 1) current
      else restart_index
  end.

Definition ParseNextKey (it : Iter) : bool * Iter :=
  let current := NextEntryOffset it in
  if restarts_ <=? current then
    (false, MkIter restarts_ num_restarts_ (key_ it) (value_ it) (status_ it))
  else
    match DecodeEntry (entry_text current) with
    | None => (false, CorruptionError it)
    | Some (shared, non_shared, value_length, p) =>
        if zlen (key_ it) <? shared then (false, CorruptionError it)
        else
          let off := restarts_ - zlen p in
          let key := take (Z.to_nat shared) (key_ it)
                       ++ sub_bytes data (Z.to_nat off) (Z.to_nat non_shared) in
          (true, MkIter current
                   (advance_restart (Z.to_nat num_restarts_) (restart_index_ it) current)
                   key (Some (off + non_shared, value_length)) (status_ it))
    end.

(** The [while (true)] loops below consume at least three bytes of the block at
    each iteration, so [restarts_ + 1] iterations are enough. *)
Definition scan_fuel : nat := S (Z.to_nat restarts_).

Definition Next (it : Iter) : Iter := (ParseNextKey it).2.

(** [do {} while (ParseNextKey() && NextEntryOffset() < original)]; also the
    loop of [SeekToLast], with [restarts_] for [original]. *)
Fixpoint scan_before (fuel : nat) (original : Z) (it : Iter) : option Iter :=
  match fuel with
  | O => None
  | S fuel =>
      let '(more, it) := ParseNextKey it in
      if more && (NextEntryOffset it <? original) then scan_before fuel original it else Some it
  end.

(** "Scan backwards to a restart point before current_"; the fuel is the index
    plus one, so the loop ends at index 0 at the latest. *)
Fixpoint Prev_restart (fuel : nat) (index original : Z) : option Z :=
  match fuel with
  | O => None
  | S fuel =>
      if original <=? GetRestartPoint index then
        if index =? 0 then None else Prev_restart fuel (index - 1) original
      else Some index
  end.

Definition Prev (it : Iter) : option Iter :=
  let original := current_ it in
  match Prev_restart (S (Z.to_nat (restart_index_ it))) (restart_index_ it) original with
  | None => Some (MkIter restarts_ num_restarts_ (key_ it) (value_ it) (status_ it))
  | Some index => scan_before scan_fuel original (SeekToRestartPoint it index)
  end.

(** The binary search of [Seek] and of [SeekByValue]: [below key value] says
    whether the restart point lies before the target. *)
Fixpoint binary_search (fuel : nat) (below : bytes -> bytes -> bool) (lo hi : Z)
    : option (option Z) :=
  match fuel with
  | O => None
  | S fuel =>
      if lo <? hi then
        let mid := u32 (lo + hi + 1) / 2 in
        match DecodeEntry (entry_text (GetRestartPoint mid)) with
        | None => Some None
        | Some (shared, non_shared, value_length, p) =>
            if negb (shared =? 0) then Some None
            else
              let off := restarts_ - zlen p in
              let mid_key := sub_bytes data (Z.to_nat off) (Z.to_nat non_shared) in
              let mid_value := sub_bytes data (Z.to_nat (off + non_shared)) (Z.to_nat value_length) in
              if below mid_key mid_value then binary_search fuel below mid hi
              else binary_search fuel below lo (mid - 1)
        end
      else Some (Some lo)
  end.

Fixpoint seek_scan (fuel : nat) (target : bytes) (it : Iter) : option Iter :=
  match fuel with
  | O => None
  | S fuel =>
      let '(more, it) := ParseNextKey it in
      if negb more then Some it
      else if 0 <=? Compare (key_ it) target then Some it
      else seek_scan fuel target it
  end.

Definition Seek (it : Iter) (target : bytes) : option Iter :=
  match binary_search (S (Z.to_nat num_restarts_)) (fun mid_key _ => Compare mid_key target <? 0)
          0 (u32 (num_restarts_ - 1)) with
  | None => None
  | Some None => Some (CorruptionError it)
  | Some (Some lo) => seek_scan scan_fuel target (SeekToRestartPoint it lo)
  end.

(** [handle.DecodeFrom(&value_)] moves [value_] past what it decodes. *)
Definition decode_value (it : Iter) : BlockHandle * Iter :=
  let '(_, handle, rest) := Handle.DecodeFrom BlockHandle_new (value it) in
  let v := match value_ it with
           | Some (off, len) => Some (off + (len - zlen rest), zlen rest)
           | None => None
           end in
  (handle, MkIter (current_ it) (restart_index_ it) (key_ it) v (status_ it)).

Fixpoint seek_value_scan (fuel : nat) (target : Z) (it : Iter) : option Iter :=
  match fuel with
  | O => None
  | S fuel =>
      let '(more, it) := ParseNextKey it in
      if negb more then Some it
      else
        let '(handle, it) := decode_value it in
        if target <=? offset handle then Some it else seek_value_scan fuel target it
  end.

Definition handle_below (target : Z) (_ mid_value : bytes) : bool :=
  let '(_, handle, _) := Handle.DecodeFrom BlockHandle_new mid_value in offset handle <? target.

Definition SeekByValue (it : Iter) (target : Z) : option Iter :=
  match binary_search (S (Z.to_nat num_restarts_)) (handle_below target)
          0 (u32 (num_restarts_ - 1)) with
  | None => None
  | Some None => Some (CorruptionError it)
  | Some (Some lo) => seek_value_scan scan_fuel target (SeekToRestartPoint it lo)
  end.

Definition SeekToFirst (it : Iter) : Iter := (ParseNextKey (SeekToRestartPoint it 0)).2.

Definition SeekToLast (it : Iter) : option Iter :=
  scan_before scan_fuel restarts_ (SeekToRestartPoint it (u32 (num_restarts_ - 1))).

End BlockIter.

(** [Block::NewIterator]: an error iterator, an empty one, or an [Iter]. *)
Inductive BlockIterator :=
  | ErrorIterator (s : Status)
  | EmptyIterator
  | IterOf (restarts num_restarts : Z) (it : Iter).

Definition NewIterator (b : Block) : BlockIterator :=
  if size_ b <? 4 then ErrorIterator (Corruption (str "bad block contents") [])
  else
    let num_restarts := NumRestarts (data_ b) (size_ b) in
    if num_restarts =? 0 then EmptyIterator
    else IterOf (restart_offset_ b) num_restarts (Iter_new (restart_offset_ b) num_restarts).

(** ** The layout of a block

    A cell is an entry with the number of key bytes it shares with the entry
    before it. *)
Record cell := Cell { c_shared : nat; c_key : bytes; c_val : bytes }.

Definition cell_bytes (c : cell) : bytes :=
  EncodeVarint32 (Z.of_nat (c_shared c))
    ++ EncodeVarint32 (zlen (c_key c) - Z.of_nat (c_shared c))
    ++ EncodeVarint32 (zlen (c_val c)) ++ drop (c_shared c) (c_key c) ++ c_val c.

Definition body (cs : list cell) : bytes := concat (cell_bytes <$> cs).

Definition cell_off (cs : list cell) (i : nat) : Z := zlen (body (take i cs)).

Definition cell_ok (c : cell) : Prop :=
  bytes_ok (c_key c) /\ bytes_ok (c_val c) /\ (c_shared c <= length (c_key c))%nat /\
  zlen (c_key c) < 2 ^ 32 /\ zlen (c_val c) < 2 ^ 32.

(** The key bytes a cell takes over are those of the buffered key [k]. *)
Definition continues (k : bytes) (c : cell) : Prop :=
  (c_shared c <= length k)%nat /\ take (c_shared c) k = take (c_shared c) (c_key c).

Record layout (data : bytes) (restarts num : Z) (cs : list cell) (rs : list nat) : Prop := {
  lay_data : exists tail,
    data = body cs ++ concat ((fun r => EncodeFixed32 (cell_off cs r)) <$> rs) ++ tail;
  lay_restarts : restarts = zlen (body cs);
  lay_num : num = zlen rs;
  lay_first : rs !! 0%nat = Some 0%nat;
  lay_small : zlen data < 2 ^ 32;
  lay_cells : Forall cell_ok cs;
  lay_shared : forall i c c', cs !! i = Some c -> cs !! S i = Some c' -> continues (c_key c) c';
  lay_points : forall k r, rs !! k = Some r -> (r < length cs \/ r = 0)%nat /\
    forall c, cs !! r = Some c -> c_shared c = 0%nat;
  lay_sorted : forall k1 k2 r1 r2, (k1 < k2)%nat -> rs !! k1 = Some r1 -> rs !! k2 = Some r2 ->
    (r1 < r2)%nat
}.

(** ** Offsets *)

Lemma body_app cs1 cs2 : body (cs1 ++ cs2) = body cs1 ++ body cs2.
Proof. unfold body. by rewrite fmap_app, concat_app. Qed.

Lemma body_cons c cs : body (c :: cs) = cell_bytes c ++ body cs.
Proof. reflexivity. Qed.

Lemma cell_bytes_length c :
  cell_ok c -> 3 + zlen (c_key c) - Z.of_nat (c_shared c) + zlen (c_val c) <= zlen (cell_bytes c).
Proof.
  intros (_ & _ & Hs & Hk & Hv). pose proof (zlen_nonneg (c_key c)). pose proof (zlen_nonneg (c_val c)).
  unfold cell_bytes. rewrite !zlen_app. unfold zlen in *. rewrite length_drop.
  pose proof (EncodeVarint32_length (Z.of_nat (c_shared c)) ltac:(lia)).
  pose proof (EncodeVarint32_length (Z.of_nat (length (c_key c)) - Z.of_nat (c_shared c)) ltac:(lia)).
  pose proof (EncodeVarint32_length (Z.of_nat (length (c_val c))) ltac:(lia)). lia.
Qed.

Lemma cell_off_S cs i c : cs !! i = Some c -> cell_off cs (S i) = cell_off cs i + zlen (cell_bytes c).
Proof.
  intros Hc. unfold cell_off. rewrite (take_S_r _ _ _ Hc), body_app, zlen_app, body_cons.
  by rewrite app_nil_r.
Qed.

Lemma cell_off_all cs : cell_off cs (length cs) = zlen (body cs).
Proof. unfold cell_off. by rewrite firstn_all. Qed.

Lemma cell_off_0 cs : cell_off cs 0 = 0.
Proof. reflexivity. Qed.

(** The text of the block from cell [i] on. *)
Lemma body_at cs i c : cs !! i = Some c ->
  body cs = body (take i cs) ++ cell_bytes c ++ body (drop (S i) cs).
Proof.
  intros Hc. rewrite <- (take_drop_middle _ _ _ Hc) at 1. by rewrite body_app, body_cons.
Qed.

Lemma cell_off_mono cs i j : Forall cell_ok cs -> (i <= j <= length cs)%nat ->
  cell_off cs i + 3 * (Z.of_nat j - Z.of_nat i) <= cell_off cs j.
Proof.
  intros Hok Hij. induction j as [|j IH].
  - replace i with 0%nat by lia. lia.
  - destruct (Nat.eq_dec i (S j)) as [->|]; [lia|].
    destruct (lookup_lt_is_Some_2 cs j ltac:(lia)) as [c Hc].
    rewrite (cell_off_S _ _ _ Hc). specialize (IH ltac:(lia)).
    assert (Hcok : cell_ok c) by (eapply Forall_lookup_1; eauto).
    pose proof (cell_bytes_length c Hcok). destruct Hcok as (_ & _ & ? & _).
    pose proof (zlen_nonneg (c_val c)). unfold zlen in *. lia.
Qed.

Lemma cell_off_lt cs i j : Forall cell_ok cs -> (i < j <= length cs)%nat -> cell_off cs i < cell_off cs j.
Proof. intros Hok Hij. pose proof (cell_off_mono cs i j Hok ltac:(lia)). lia. Qed.

(** ** Decoding one entry *)

Lemma lor3_lt a b c : 0 <= a -> 0 <= b -> 0 <= c ->
  (a ||| b ||| c <? 128) = (a <? 128) && (b <? 128) && (c <? 128).
Proof.
  intros Ha Hb Hc. assert (Hor : forall x y, 0 <= x -> 0 <= y -> (x ||| y <? 128) = (x <? 128) && (y <? 128)).
  { clear. intros x y Hx Hy. pose proof (proj2 (Z.lor_nonneg x y) (conj Hx Hy)).
    assert (x <= x ||| y /\ y <= x ||| y).
    { split; apply Z.ldiff_le; try done; apply Z.bits_inj'; intros i Hi;
        rewrite Z.ldiff_spec, Z.lor_spec, Z.bits_0; btauto. }
    destruct (Z.ltb_spec x 128), (Z.ltb_spec y 128); simpl; try (apply Z.ltb_ge; lia).
    apply Z.ltb_lt. apply (lor_lt x y 7); lia. }
  pose proof (proj2 (Z.lor_nonneg a b) (conj Ha Hb)). by rewrite Hor, Hor by lia.
Qed.

Lemma EncodeVarint32_first v rest :
  0 <= v < 2 ^ 32 -> exists b q, EncodeVarint32 v ++ rest = b :: q /\ 0 <= b < 256 /\
    (if v <? 128 then b = v /\ q = rest else 128 <= b).
Proof.
  intros Hv. destruct (Z.ltb_spec v 128).
  - rewrite EncodeVarint32_single by lia. exists v, rest. split_and!; done || lia.
  - destruct (EncodeVarint32_head v ltac:(lia)) as (b & r & -> & Hb & _). exists b, (r ++ rest).
    split; [done|]. lia.
Qed.

Lemma DecodeEntry_encode s n v rest :
  0 <= s < 2 ^ 32 -> 0 <= n -> 0 <= v -> n + v <= zlen rest < 2 ^ 32 ->
  DecodeEntry (EncodeVarint32 s ++ EncodeVarint32 n ++ EncodeVarint32 v ++ rest) = Some (s, n, v, rest).
Proof.
  intros Hs Hn Hv Hr.
  assert (Hend : (if u32 (zlen rest) <? u32 (n + v) then None else Some (s, n, v, rest))
                 = Some (s, n, v, rest)) by (rewrite !u32_small by lia; zcase; [lia|done]).
  unfold DecodeEntry.
  replace (zlen _ <? 3) with false.
  2: { symmetry. apply Z.ltb_ge. rewrite !zlen_app. unfold zlen.
       pose proof (EncodeVarint32_length s ltac:(lia)). pose proof (EncodeVarint32_length n ltac:(lia)).
       pose proof (EncodeVarint32_length v ltac:(lia)). lia. }
  rewrite !GetVarint32Ptr_Encode by lia.
  set (w := EncodeVarint32 v ++ rest). set (y := EncodeVarint32 n ++ w).
  destruct (EncodeVarint32_first s y ltac:(lia)) as (b0 & q0 & E0 & Hb0 & Hc0).
  rewrite E0. change (byte_at (b0 :: q0) 0) with b0.
  change (byte_at (b0 :: q0) 1) with (byte_at q0 0). change (byte_at (b0 :: q0) 2) with (byte_at q0 1).
  destruct (Z.ltb_spec s 128) as [Hs1|Hs1].
  - destruct Hc0 as [-> ->]. subst y.
    destruct (EncodeVarint32_first n w ltac:(lia)) as (b1 & q1 & E1 & Hb1 & Hc1).
    rewrite E1. change (byte_at (b1 :: q1) 0) with b1. change (byte_at (b1 :: q1) 1) with (byte_at q1 0).
    destruct (Z.ltb_spec n 128) as [Hn1|Hn1].
    + destruct Hc1 as [-> ->]. subst w.
      destruct (EncodeVarint32_first v rest ltac:(lia)) as (b2 & q2 & E2 & Hb2 & Hc2).
      rewrite E2. change (byte_at (b2 :: q2) 0) with b2. rewrite lor3_lt by lia.
      destruct (Z.ltb_spec v 128) as [Hv1|Hv1].
      * destruct Hc2 as [-> ->]. replace (_ && _) with true by (symmetry; zcases). exact Hend.
      * replace (b2 <? 128) with false by zcases. rewrite andb_false_r. exact Hend.
    + assert (Hw : exists b2 q2, q1 = b2 :: q2 /\ 0 <= b2 < 256).
      { destruct (EncodeVarint32_head n ltac:(lia)) as (b & r & Eh & _ & Hr').
        rewrite Eh in E1. injection E1 as <- <-. destruct r as [|b2 q2]; [done|].
        exists b2, (q2 ++ w). split; [done|].
        pose proof (EncodeVarint32_ok n ltac:(lia)) as Ho. rewrite Eh in Ho.
        apply Forall_cons in Ho as [_ Ho]. by apply Forall_cons in Ho as [? _]. }
      destruct Hw as (b2 & q2 & -> & Hb2). change (byte_at (b2 :: q2) 0) with b2.
      rewrite lor3_lt by lia. replace (b1 <? 128) with false by zcases.
      rewrite andb_false_r. exact Hend.
  - assert (Hq : 0 <= byte_at q0 0 /\ 0 <= byte_at q0 1).
    { destruct (EncodeVarint32_head s ltac:(lia)) as (b & r & Eh & _ & Hr').
      rewrite Eh in E0. injection E0 as <- <-.
      pose proof (EncodeVarint32_ok s ltac:(lia)) as Ho. rewrite Eh in Ho.
      apply Forall_cons in Ho as [_ Ho].
      destruct (EncodeVarint32_first n w ltac:(lia)) as (b1 & q1 & E1 & Hb1 & _).
      subst y. rewrite E1. destruct r as [|b2 [|b3 q2]]; [done|..]; unfold byte_at; simpl;
        repeat (apply Forall_cons in Ho as [? Ho]); unfold is_byte in *; lia. }
    destruct Hq as [Hq0 Hq1]. rewrite lor3_lt by lia.
    replace (b0 <? 128) with false by zcases. exact Hend.
Qed.

(** ** The iterator over a laid-out block *)

Section IterLemmas.
Context (data : bytes) (restarts num : Z) (cs : list cell) (rs : list nat).
Context (Hlay : layout data restarts num cs rs).

Lemma laid_cells_ok : Forall cell_ok cs.
Proof. exact (lay_cells _ _ _ _ _ Hlay). Qed.

(** The value of cell [i] lies just before cell [i + 1]. *)
Definition value_at (i : nat) (c : cell) : Z * Z :=
  (cell_off cs (S i) - zlen (c_val c), zlen (c_val c)).

(** The iterator stands on cell [i]. *)
Record on_cell (it : Iter) (i : nat) (c : cell) : Prop := {
  oc_cell : cs !! i = Some c;
  oc_current : current_ it = cell_off cs i;
  oc_key : key_ it = c_key c;
  oc_value : value_ it = Some (value_at i c);
  oc_status : status_ it = Status_OK;
  oc_index : 0 <= restart_index_ it < num
}.

(** The next call of [ParseNextKey] will decode cell [i]. *)
Record before_cell (it : Iter) (i : nat) : Prop := {
  bc_le : (i <= length cs)%nat;
  bc_value : exists o l, value_ it = Some (o, l) /\ o + l = cell_off cs i;
  bc_key : forall c, cs !! i = Some c -> continues (key_ it) c;
  bc_status : status_ it = Status_OK;
  bc_index : 0 <= restart_index_ it < num
}.

Lemma restarts_small : 0 <= restarts < 2 ^ 32.
Proof.
  pose proof Hlay as [[tail Hd] Hre _ _ Hs _ _ _ _]. rewrite Hre. pose proof (zlen_nonneg (body cs)).
  rewrite Hd, !zlen_app in Hs. pose proof (zlen_nonneg tail).
  pose proof (zlen_nonneg (concat ((fun r => EncodeFixed32 (cell_off cs r)) <$> rs))). lia.
Qed.

Lemma off_range i : (i <= length cs)%nat -> 0 <= cell_off cs i <= restarts.
Proof.
  intros Hi. split; [apply zlen_nonneg|]. rewrite (lay_restarts _ _ _ _ _ Hlay), <- cell_off_all.
  pose proof (cell_off_mono cs i (length cs) laid_cells_ok ltac:(lia)). lia.
Qed.

Lemma restart_point k r : rs !! k = Some r -> GetRestartPoint data restarts (Z.of_nat k) = cell_off cs r.
Proof.
  intros Hk. unfold GetRestartPoint. destruct (lay_data _ _ _ _ _ Hlay) as [tail Hd].
  rewrite Hd, (lay_restarts _ _ _ _ _ Hlay).
  rewrite <- (take_drop_middle _ _ _ Hk), fmap_app, concat_app, !fmap_cons.
  cbn [concat]. rewrite <- !app_assoc, app_assoc.
  rewrite drop_app_exact.
  - apply DecodeFixed32_Encode. destruct (lay_points _ _ _ _ _ Hlay k r Hk) as [Hr _].
    pose proof restarts_small. pose proof (off_range r ltac:(lia)). lia.
  - rewrite length_app. assert (Hcl : forall l : list nat,
      length (concat ((fun r0 => EncodeFixed32 (cell_off cs r0)) <$> l)) = (4 * length l)%nat).
    { induction l as [|x l IH]; [done|]. rewrite fmap_cons. cbn [concat]. rewrite length_app, IH. simpl. lia. }
    rewrite Hcl, length_take. apply lookup_lt_Some in Hk. unfold zlen. lia.
Qed.

(** Cell [i] as the decoder sees it. *)
Lemma entry_text_at i c : cs !! i = Some c ->
  entry_text data restarts (cell_off cs i) = cell_bytes c ++ body (drop (S i) cs).
Proof.
  intros Hc. unfold entry_text, sub_bytes. destruct (lay_data _ _ _ _ _ Hlay) as [tail Hd].
  pose proof (off_range i ltac:(apply lookup_lt_Some in Hc; lia)) as Ho.
  rewrite Hd, (lay_restarts _ _ _ _ _ Hlay). remember (zlen (body cs)) as B eqn:HB.
  pose proof (body_at _ _ _ Hc) as Hb. rewrite Hb, <- !app_assoc.
  rewrite drop_app_exact by (unfold cell_off; apply to_nat_zlen).
  rewrite app_assoc. apply take_app_exact. rewrite HB, Hb, !zlen_app. unfold cell_off, zlen.
  rewrite length_app. lia.
Qed.

Lemma decode_at i c : cs !! i = Some c ->
  exists p, DecodeEntry (entry_text data restarts (cell_off cs i))
    = Some (Z.of_nat (c_shared c), zlen (c_key c) - Z.of_nat (c_shared c), zlen (c_val c), p) /\
  let off := restarts - zlen p in
  sub_bytes data (Z.to_nat off) (Z.to_nat (zlen (c_key c) - Z.of_nat (c_shared c)))
    = drop (c_shared c) (c_key c) /\
  off + (zlen (c_key c) - Z.of_nat (c_shared c)) = (value_at i c).1 /\
  sub_bytes data (Z.to_nat (value_at i c).1) (length (c_val c)) = c_val c.
Proof.
  intros Hc. assert (Hok : cell_ok c) by (eapply Forall_lookup_1; [apply laid_cells_ok|done]).
  destruct Hok as (_ & _ & Hs & Hk & Hv).
  set (p := drop (c_shared c) (c_key c) ++ c_val c ++ body (drop (S i) cs)). exists p.
  pose proof restarts_small as Hrs. pose proof (zlen_nonneg (c_key c)). pose proof (zlen_nonneg (c_val c)).
  assert (Hkd : zlen (drop (c_shared c) (c_key c)) = zlen (c_key c) - Z.of_nat (c_shared c)).
  { unfold zlen. rewrite length_drop. lia. }
  assert (Hp : zlen p = zlen (c_key c) - Z.of_nat (c_shared c) + zlen (c_val c) + zlen (body (drop (S i) cs))).
  { subst p. rewrite !zlen_app, Hkd. lia. }
  pose proof (body_at _ _ _ Hc) as Hb. pose proof (lay_restarts _ _ _ _ _ Hlay) as Hre.
  assert (HS : cell_off cs (S i) = restarts - zlen (body (drop (S i) cs))).
  { rewrite (cell_off_S _ _ _ Hc), Hre, Hb, !zlen_app. unfold cell_off. lia. }
  pose proof (zlen_nonneg (body (drop (S i) cs))).
  assert (Hpl : zlen p <= restarts).
  { rewrite Hp, Hre, Hb, !zlen_app. unfold cell_bytes. rewrite !zlen_app, Hkd.
    pose proof (zlen_nonneg (body (take i cs))). unfold zlen; lia. }
  assert (Hdrop : exists tail, drop (Z.to_nat (restarts - zlen p)) data = p ++ tail).
  { destruct (lay_data _ _ _ _ _ Hlay) as [tail Hd].
    exists (concat ((fun r => EncodeFixed32 (cell_off cs r)) <$> rs) ++ tail).
    set (pre := body (take i cs) ++ EncodeVarint32 (Z.of_nat (c_shared c))
                  ++ EncodeVarint32 (zlen (c_key c) - Z.of_nat (c_shared c)) ++ EncodeVarint32 (zlen (c_val c))).
    assert (Hpre : body cs = pre ++ p).
    { rewrite Hb. subst pre p. unfold cell_bytes. by rewrite <- !app_assoc. }
    rewrite Hd, Hpre, <- app_assoc. apply drop_app_exact. rewrite Hre, Hpre, zlen_app. unfold zlen. lia. }
  split; [|cbv zeta; split_and!].
  - rewrite (entry_text_at _ _ Hc). unfold cell_bytes. rewrite <- !app_assoc.
    apply DecodeEntry_encode; fold p; unfold zlen in *; lia.
  - destruct Hdrop as [tail Ht]. unfold sub_bytes. rewrite Ht. subst p.
    rewrite <- app_assoc. apply take_app_exact. unfold zlen in *. lia.
  - unfold value_at. simpl. rewrite HS. lia.
  - destruct Hdrop as [tail Ht]. unfold value_at, sub_bytes. simpl fst.
    replace (Z.to_nat (cell_off cs (S i) - zlen (c_val c)))
      with (Z.to_nat (restarts - zlen p) + length (drop (c_shared c) (c_key c)))%nat.
    2: { rewrite HS, Hp. rewrite <- Hkd. unfold zlen in *. lia. }
    rewrite <- drop_drop, Ht. subst p. rewrite <- !app_assoc.
    rewrite drop_app_length. by rewrite take_app_length.
Qed.

Lemma advance_restart_range fuel ri cur :
  0 <= ri < num -> 0 <= advance_restart data restarts num fuel ri cur < num.
Proof.
  revert ri. induction fuel as [|fuel IH]; intros ri Hri; simpl; [done|].
  destruct (Z.ltb_spec (ri + 1) num); simpl; [|done].
  destruct (_ <? cur); [apply IH; lia|done].
Qed.

Lemma parse_cell it i c : before_cell it i -> cs !! i = Some c ->
  exists it', ParseNextKey data restarts num it = (true, it') /\ on_cell it' i c.
Proof.
  intros [Hle (o & l & Hv & Hol) Hk Hst Hri] Hc. destruct (decode_at i c Hc) as (p & Hd & Hkey & Hoff & Hval).
  pose proof (off_range i Hle). pose proof restarts_small.
  assert (Hlt : cell_off cs i < restarts).
  { rewrite (lay_restarts _ _ _ _ _ Hlay), <- cell_off_all. apply cell_off_lt; [apply laid_cells_ok|].
    apply lookup_lt_Some in Hc. lia. }
  assert (Hnext : NextEntryOffset restarts it = cell_off cs i)
    by (unfold NextEntryOffset; rewrite Hv, Hol; apply u32_small; lia).
  destruct (Hk c Hc) as [Hsh Htk]. cbv zeta in *.
  eexists. split.
  - unfold ParseNextKey. rewrite Hnext. replace (restarts <=? _) with false by zcases.
    rewrite Hd. replace (zlen (key_ it) <? _) with false by (unfold zlen; zcases).
    reflexivity.
  - split; simpl; try done.
    + rewrite Nat2Z.id, Htk, Hkey. apply take_drop.
    + by rewrite Hoff.
    + by apply advance_restart_range.
Qed.

Lemma parse_end it : before_cell it (length cs) ->
  exists it', ParseNextKey data restarts num it = (false, it') /\ Valid restarts it' = false /\ status_ it' = Status_OK.
Proof.
  intros [Hle (o & l & Hv & Hol) _ Hst Hri]. pose proof restarts_small.
  rewrite cell_off_all, <- (lay_restarts _ _ _ _ _ Hlay) in Hol.
  eexists. split; [|split].
  - unfold ParseNextKey, NextEntryOffset. rewrite Hv, Hol, u32_small by lia.
    rewrite (proj2 (Z.leb_le _ _)) by lia. reflexivity.
  - apply Z.ltb_ge. simpl. lia.
  - done.
Qed.

Lemma on_cell_before it i c : on_cell it i c -> before_cell it (S i).
Proof.
  intros [Hc Hcur Hk Hv Hst Hri]. apply lookup_lt_Some in Hc as Hlt. split; try done.
  - eexists _, _. split; [exact Hv|]. unfold value_at. simpl. lia.
  - intros c' Hc'. rewrite Hk. by eapply (lay_shared _ _ _ _ _ Hlay).
Qed.

Lemma restart_before it k r : status_ it = Status_OK -> rs !! k = Some r ->
  before_cell (SeekToRestartPoint data restarts it (Z.of_nat k)) r.
Proof.
  intros Hst Hk. pose proof (restart_point k r Hk) as Hp.
  destruct (lay_points _ _ _ _ _ Hlay k r Hk) as [Hr H0].
  assert (k < length rs)%nat by (by apply lookup_lt_Some in Hk).
  assert (Hle : (r <= length cs)%nat) by lia.
  split; simpl; try done.
  - eexists _, _. split; [reflexivity|]. rewrite Hp. lia.
  - intros c Hc. unfold continues. rewrite (H0 c Hc). split; [lia|done].
  - rewrite (lay_num _ _ _ _ _ Hlay). unfold zlen. lia.
Qed.

(** *** The abstract cursor: a position, [length cs] meaning past the end. *)
Definition at_index (it : Iter) (i : nat) : Prop :=
  (i <= length cs)%nat /\ status_ it = Status_OK /\
  match cs !! i with
  | Some c => on_cell it i c
  | None => Valid restarts it = false
  end.

(** The first index from [i] on where [P] holds. *)
Fixpoint first_from (P : cell -> bool) (l : list cell) : nat :=
  match l with
  | [] => 0%nat
  | c :: l => if P c then 0%nat else S (first_from P l)
  end.

Definition first_where (P : cell -> bool) (i : nat) : nat := (i + first_from P (drop i cs))%nat.

Lemma first_where_here P i c : cs !! i = Some c -> P c = true -> first_where P i = i.
Proof. intros Hc HP. unfold first_where. rewrite (drop_S _ _ _ Hc). simpl. rewrite HP. lia. Qed.

Lemma first_where_next P i c : cs !! i = Some c -> P c = false -> first_where P i = first_where P (S i).
Proof. intros Hc HP. unfold first_where. rewrite (drop_S _ _ _ Hc). simpl. rewrite HP. lia. Qed.

Lemma first_where_end P : first_where P (length cs) = length cs.
Proof. unfold first_where. rewrite drop_all. simpl. lia. Qed.

Lemma first_where_skip P i j : (i <= j <= length cs)%nat ->
  (forall k c, (i <= k < j)%nat -> cs !! k = Some c -> P c = false) ->
  first_where P i = first_where P j.
Proof.
  intros Hij Hno. induction j as [|j IH]; [by replace i with 0%nat by lia|].
  destruct (Nat.eq_dec i (S j)) as [->|]; [done|].
  rewrite IH; [|lia|intros k c Hk; apply Hno; lia].
  destruct (lookup_lt_is_Some_2 cs j ltac:(lia)) as [c Hc].
  apply (first_where_next _ _ c Hc). by apply (Hno j); [lia|].
Qed.

Lemma on_cell_at it i c : on_cell it i c -> at_index it i.
Proof. intros Hon. destruct Hon as [Hc ? ? ? ? ?]. apply lookup_lt_Some in Hc as ?. split; [lia|]. split; [done|]. rewrite Hc. by split. Qed.

Lemma at_index_end it : Valid restarts it = false -> status_ it = Status_OK -> at_index it (length cs).
Proof. intros Hv Hs. split; [lia|]. split; [done|]. by rewrite lookup_ge_None_2. Qed.

Lemma cells_fuel i : (i <= length cs)%nat -> (length cs - i < scan_fuel restarts)%nat.
Proof.
  intros Hi. pose proof (cell_off_mono cs 0 (length cs) laid_cells_ok ltac:(lia)).
  rewrite cell_off_all, <- (lay_restarts _ _ _ _ _ Hlay), cell_off_0 in *. unfold scan_fuel. lia.
Qed.

(** [Next] and [SeekToFirst]. *)
Lemma parse_at it i : before_cell it i -> at_index (ParseNextKey data restarts num it).2 i.
Proof.
  intros Hb. pose proof (bc_le _ _ Hb) as Hle. destruct (cs !! i) as [c|] eqn:Hc.
  - destruct (parse_cell it i c Hb Hc) as (it' & -> & Hon). by eapply on_cell_at.
  - apply lookup_ge_None in Hc. replace i with (length cs) in * by lia.
    destruct (parse_end it Hb) as (it' & -> & Hv & Hs). by apply at_index_end.
Qed.

(** The scan of [Seek]. *)
Lemma seek_scan_at `{!Comparator} target fuel : forall it i,
  before_cell it i -> (length cs - i < fuel)%nat ->
  exists it', seek_scan data restarts num fuel target it = Some it' /\
    at_index it' (first_where (fun c => 0 <=? Compare (c_key c) target) i).
Proof.
  induction fuel as [|fuel IH]; intros it i Hb Hf; [lia|]. pose proof (bc_le _ _ Hb) as Hle. simpl.
  destruct (cs !! i) as [c|] eqn:Hc.
  - destruct (parse_cell it i c Hb Hc) as (it' & -> & Hon). simpl.
    rewrite (oc_key _ _ _ Hon). destruct (0 <=? Compare (c_key c) target) eqn:HP.
    + exists it'. split; [done|]. rewrite (first_where_here _ _ _ Hc HP). by eapply on_cell_at.
    + rewrite (first_where_next _ _ _ Hc HP). apply IH; [by eapply on_cell_before|].
      apply lookup_lt_Some in Hc. lia.
  - apply lookup_ge_None in Hc. replace i with (length cs) in * by lia.
    destruct (parse_end it Hb) as (it' & -> & Hv & Hs). simpl. exists it'. split; [done|].
    rewrite first_where_end. by apply at_index_end.
Qed.

(** The scans of [Prev] and [SeekToLast] stop on the last cell before [j]. *)
Lemma scan_before_at fuel j : (j <= length cs)%nat -> forall it i,
  before_cell it i -> (i < j)%nat -> (j - i <= fuel)%nat ->
  exists it', scan_before data restarts num fuel (cell_off cs j) it = Some it' /\ at_index it' (j - 1).
Proof.
  intros Hj. induction fuel as [|fuel IH]; intros it i Hb Hi Hf; [lia|]. simpl.
  destruct (lookup_lt_is_Some_2 cs i ltac:(lia)) as [c Hc].
  destruct (parse_cell it i c Hb Hc) as (it' & -> & Hon). simpl.
  assert (Hnext : NextEntryOffset restarts it' = cell_off cs (S i)).
  { unfold NextEntryOffset. rewrite (oc_value _ _ _ Hon). unfold value_at.
    pose proof (off_range (S i) ltac:(lia)). pose proof restarts_small. rewrite u32_small; lia. }
  rewrite Hnext. destruct (Nat.eq_dec (S i) j) as [<-|].
  - rewrite Z.ltb_irrefl. exists it'. split; [done|]. replace (S i - 1)%nat with i by lia.
    by eapply on_cell_at.
  - pose proof (cell_off_lt cs (S i) j laid_cells_ok ltac:(lia)).
    rewrite (proj2 (Z.ltb_lt _ _)) by lia.
    apply (IH it' (S i)); [by eapply on_cell_before|lia|lia].
Qed.

Lemma Prev_restart_at fuel i : (i < length cs)%nat -> forall k, (k < length rs)%nat -> (k < fuel)%nat ->
  match Prev_restart data restarts fuel (Z.of_nat k) (cell_off cs i) with
  | None => i = 0%nat
  | Some idx => exists k' r, idx = Z.of_nat k' /\ rs !! k' = Some r /\ (r < i)%nat
  end.
Proof.
  intros Hi. induction fuel as [|fuel IH]; intros k Hk Hf; [lia|]. cbn [Prev_restart].
  destruct (lookup_lt_is_Some_2 rs k Hk) as [r Hr]. rewrite (restart_point k r Hr).
  destruct (lay_points _ _ _ _ _ Hlay k r Hr) as [Hrl _].
  destruct (Z.leb_spec (cell_off cs i) (cell_off cs r)) as [Hle|Hlt].
  - destruct (Z.eqb_spec (Z.of_nat k) 0) as [Hk0|Hk0].
    + assert (k = 0%nat) as -> by lia. rewrite (lay_first _ _ _ _ _ Hlay) in Hr. injection Hr as <-.
      destruct i; [done|]. pose proof (cell_off_lt cs 0 (S i) laid_cells_ok ltac:(lia)). lia.
    + replace (Z.of_nat k - 1) with (Z.of_nat (k - 1)) by lia. apply IH; lia.
  - exists k, r. split_and!; [done..|]. destruct (Nat.lt_ge_cases r i); [done|].
    pose proof (cell_off_mono cs i r laid_cells_ok ltac:(lia)). lia.
Qed.

Lemma Prev_at it i c : on_cell it i c ->
  exists it', Prev data restarts num it = Some it' /\
    at_index it' (if decide (i = 0)%nat then length cs else i - 1).
Proof.
  intros Hon. pose proof Hon as [Hc Hcur Hk Hv Hst Hri]. apply lookup_lt_Some in Hc as Hlt.
  unfold Prev. rewrite Hcur. pose proof (lay_num _ _ _ _ _ Hlay) as Hn.
  pose proof (Prev_restart_at (S (Z.to_nat (restart_index_ it))) i Hlt (Z.to_nat (restart_index_ it))
    ltac:(unfold zlen in Hn; lia) ltac:(lia)) as HP.
  rewrite Z2Nat.id in HP by lia. destruct (Prev_restart _ _ _ _ _) as [idx|].
  - destruct HP as (k' & r & -> & Hr & Hri'). rewrite decide_False by lia.
    apply (scan_before_at _ i ltac:(lia) _ r); [by apply restart_before|done|].
    pose proof (cells_fuel 0 ltac:(lia)). lia.
  - subst i. rewrite decide_True by done. eexists. split; [done|]. apply at_index_end; [|done].
    apply Z.ltb_ge. simpl. lia.
Qed.

Lemma last_restart : exists r, rs !! (Z.to_nat (num - 1)) = Some r /\ 0 < num < 2 ^ 30.
Proof.
  pose proof (lay_num _ _ _ _ _ Hlay) as Hn. pose proof (lay_first _ _ _ _ _ Hlay) as Hf.
  apply lookup_lt_Some in Hf. unfold zlen in Hn.
  destruct (lookup_lt_is_Some_2 rs (Z.to_nat (num - 1)) ltac:(lia)) as [r Hr].
  exists r. split; [done|]. split; [lia|].
  destruct (lay_data _ _ _ _ _ Hlay) as [tail Hd]. pose proof (lay_small _ _ _ _ _ Hlay) as Hs.
  rewrite Hd, !zlen_app in Hs. pose proof (zlen_nonneg tail). pose proof (zlen_nonneg (body cs)).
  assert (Hcl : forall l : list nat,
      zlen (concat ((fun r0 => EncodeFixed32 (cell_off cs r0)) <$> l)) = 4 * zlen l).
  { induction l as [|x l IH]; [done|]. rewrite fmap_cons. cbn [concat].
    rewrite zlen_app, IH, zlen_cons. unfold zlen. simpl. lia. }
  rewrite Hcl in Hs. unfold zlen in *. lia.
Qed.

Lemma SeekToFirst_at it : status_ it = Status_OK -> at_index (SeekToFirst data restarts num it) 0.
Proof.
  intros Hst. apply parse_at. apply (restart_before it 0 0 Hst). apply (lay_first _ _ _ _ _ Hlay).
Qed.

Lemma SeekToLast_at it : status_ it = Status_OK ->
  exists it', SeekToLast data restarts num it = Some it' /\ at_index it' (length cs - 1).
Proof.
  intros Hst. destruct last_restart as (r & Hr & Hn). unfold SeekToLast. rewrite u32_small by lia.
  replace (num - 1) with (Z.of_nat (Z.to_nat (num - 1))) by lia.
  pose proof (restart_before it _ r Hst Hr) as Hb. pose proof (lay_restarts _ _ _ _ _ Hlay) as Hre.
  destruct (Nat.eq_dec (length cs) 0) as [H0|Hne].
  - replace r with (length cs) in * by (pose proof (bc_le _ _ Hb); lia).
    destruct (parse_end _ Hb) as (it' & Hp & Hv & Hs). exists it'. unfold scan_fuel.
    cbn [scan_before]. rewrite Hp. split; [done|].
    replace (length cs - 1)%nat with (length cs) by lia. by apply at_index_end.
  - destruct (lay_points _ _ _ _ _ Hlay _ r Hr) as [Hrl _].
    assert (Hra : cell_off cs (length cs) = restarts) by (by rewrite cell_off_all).
    pose proof (cells_fuel 0 ltac:(lia)).
    pose proof (scan_before_at (scan_fuel restarts) (length cs) ltac:(lia) _ r Hb ltac:(lia) ltac:(lia)) as Hsc.
    by rewrite Hra in Hsc.
Qed.

(** *** Binary search over the restart points *)

Definition monotone (P : cell -> bool) : Prop :=
  forall i j c c', (i < j)%nat -> cs !! i = Some c -> cs !! j = Some c' -> P c = true -> P c' = true.

Lemma binary_search_at (P : cell -> bool) (below : bytes -> bytes -> bool) fuel :
  monotone P -> (forall c, c ∈ cs -> below (c_key c) (c_val c) = negb (P c)) ->
  forall lo hi : nat, (lo <= hi < length rs)%nat -> (hi - lo < fuel)%nat ->
  (lo = 0%nat \/ exists r c, rs !! lo = Some r /\ cs !! r = Some c /\ P c = false) ->
  exists lo' r', binary_search data restarts fuel below (Z.of_nat lo) (Z.of_nat hi)
      = Some (Some (Z.of_nat lo')) /\
    rs !! lo' = Some r' /\ (r' = 0%nat \/ exists c, cs !! r' = Some c /\ P c = false).
Proof.
  intros Hmono Hbelow. induction fuel as [|fuel IH]; intros lo hi Hlh Hf Hlo; [lia|]. cbn [binary_search].
  destruct last_restart as (_ & _ & Hn). pose proof (lay_num _ _ _ _ _ Hlay) as Hnum.
  destruct (Z.ltb_spec (Z.of_nat lo) (Z.of_nat hi)) as [Hlt|Hge].
  - set (mid := ((lo + hi + 1) / 2)%nat).
    assert (Hmid : (lo < mid <= hi)%nat).
    { subst mid. pose proof (Nat.div_mod_eq (lo + hi + 1) 2).
      pose proof (Nat.mod_upper_bound (lo + hi + 1) 2 ltac:(lia)). lia. }
    assert (u32 (Z.of_nat lo + Z.of_nat hi + 1) / 2 = Z.of_nat mid) as ->.
    { rewrite u32_small by (unfold zlen in *; lia).
      subst mid. rewrite Nat2Z.inj_div. f_equal. lia. }
    destruct (lookup_lt_is_Some_2 rs mid ltac:(lia)) as [r Hr]. rewrite (restart_point mid r Hr).
    assert (Hrc : exists c, cs !! r = Some c /\ c_shared c = 0%nat).
    { destruct (lay_points _ _ _ _ _ Hlay mid r Hr) as [Hrl H0].
      destruct (lookup_lt_is_Some_2 rs 0 ltac:(lia)) as [r0 Hr0].
      pose proof (lay_sorted _ _ _ _ _ Hlay 0 mid r0 r ltac:(lia) Hr0 Hr).
      destruct (lookup_lt_is_Some_2 cs r ltac:(lia)) as [c Hc]. eauto. }
    destruct Hrc as (c & Hc & Hsh). destruct (decode_at r c Hc) as (p & -> & Hk & Ho & Hv).
    cbv zeta in Hk, Ho. rewrite Hsh in *. cbn match. rewrite Hk, Ho. unfold zlen at 1.
    rewrite Nat2Z.id. rewrite Hv. rewrite drop_0. rewrite Hbelow by (by eapply list_elem_of_lookup_2).
    destruct (P c) eqn:HP; simpl.
    + replace (Z.of_nat mid - 1) with (Z.of_nat (mid - 1)) by lia. apply IH; [lia|lia|done].
    + apply IH; [lia|lia|]. right. by exists r, c.
  - exists lo. destruct (lookup_lt_is_Some_2 rs lo ltac:(lia)) as [r Hr]. exists r. split_and!; [done..|].
    destruct Hlo as [->|(r' & c & Hr' & Hc & HP)].
    + rewrite (lay_first _ _ _ _ _ Hlay) in Hr. injection Hr as <-. by left.
    + rewrite Hr in Hr'. injection Hr' as <-. right. by exists c.
Qed.

(** The cells before a restart point that fails [P] fail it too. *)
Lemma first_where_restart P r : monotone P -> (r <= length cs)%nat ->
  (r = 0%nat \/ exists c, cs !! r = Some c /\ P c = false) -> first_where P 0 = first_where P r.
Proof.
  intros Hm Hr Hor. apply first_where_skip; [lia|]. intros k c Hk Hc.
  destruct Hor as [->|(c' & Hc' & HP)]; [lia|].
  destruct (P c) eqn:E; [|done]. by rewrite (Hm k r c c' ltac:(lia) Hc Hc' E) in HP.
Qed.

Lemma Seek_at `{!Comparator} it target : status_ it = Status_OK ->
  monotone (fun c => 0 <=? Compare (c_key c) target) ->
  exists it', Seek data restarts num it target = Some it' /\
    at_index it' (first_where (fun c => 0 <=? Compare (c_key c) target) 0).
Proof.
  intros Hst Hm. unfold Seek. destruct last_restart as (rl & Hrl & Hn).
  pose proof (lay_num _ _ _ _ _ Hlay) as Hnum. unfold zlen in Hnum. rewrite u32_small by lia.
  destruct (binary_search_at (fun c => 0 <=? Compare (c_key c) target)
    (fun mid_key _ => Compare mid_key target <? 0) (S (Z.to_nat num)) Hm
    ltac:(intros; apply Z.ltb_antisym) 0 (Z.to_nat (num - 1)) ltac:(lia) ltac:(lia) ltac:(by left))
    as (lo & r & Hbs & Hr & Hor).
  rewrite Z2Nat.id in Hbs by lia. change (Z.of_nat 0) with 0 in Hbs. rewrite Hbs.
  pose proof (restart_before it lo r Hst Hr) as Hb. pose proof (bc_le _ _ Hb) as Hle.
  rewrite (first_where_restart _ r Hm Hle Hor).
  apply seek_scan_at; [done|]. apply cells_fuel. done.
Qed.

Lemma value_on_cell it i c : on_cell it i c -> value data it = c_val c.
Proof.
  intros Hon. unfold value. rewrite (oc_value _ _ _ Hon). unfold value_at.
  destruct (decode_at i c (oc_cell _ _ _ Hon)) as (p & _ & _ & _ & Hv).
  unfold value_at in Hv. simpl in Hv. by rewrite to_nat_zlen.
Qed.

(** *** [SeekByValue] over a block whose values are handles *)

Definition cell_handle (c : cell) : BlockHandle := (Handle.DecodeFrom BlockHandle_new (c_val c)).1.2.

Lemma seek_value_scan_at target fuel : forall it i,
  before_cell it i -> (length cs - i < fuel)%nat ->
  exists it', seek_value_scan data restarts num fuel target it = Some it' /\
    match cs !! first_where (fun c => target <=? offset (cell_handle c)) i with
    | Some c => Valid restarts it' = true /\ key_ it' = c_key c
    | None => Valid restarts it' = false
    end.
Proof.
  induction fuel as [|fuel IH]; intros it i Hb Hf; [lia|]. pose proof (bc_le _ _ Hb) as Hle.
  cbn [seek_value_scan]. destruct (cs !! i) as [c|] eqn:Hc.
  - destruct (parse_cell it i c Hb Hc) as (it' & -> & Hon). simpl negb. cbv iota.
    destruct (decode_value data it') as [h it''] eqn:Hdv. unfold decode_value in Hdv.
    rewrite (value_on_cell _ _ _ Hon), (oc_value _ _ _ Hon) in Hdv.
    assert (Hh : cell_handle c = h /\ current_ it'' = current_ it' /\ key_ it'' = key_ it' /\
      status_ it'' = status_ it' /\ restart_index_ it'' = restart_index_ it' /\
      exists o l, value_ it'' = Some (o, l) /\ o + l = cell_off cs (S i)).
    { unfold cell_handle, value_at in *. destruct (Handle.DecodeFrom _ _) as [[? h'] rest] eqn:E.
      injection Hdv as <- <-. simpl. split_and!; try done. eexists _, _. split; [done|]. lia. }
    destruct Hh as (<- & Hcur & Hk & Hs & Hri & Hv).
    apply lookup_lt_Some in Hc as Hlt.
    destruct (target <=? offset (cell_handle c)) eqn:HP.
    + exists it''. split; [done|]. rewrite (first_where_here _ _ _ Hc HP), Hc. split.
      * apply Z.ltb_lt. rewrite Hcur, (oc_current _ _ _ Hon), (lay_restarts _ _ _ _ _ Hlay), <- cell_off_all.
        apply cell_off_lt; [apply laid_cells_ok|lia].
      * by rewrite Hk, (oc_key _ _ _ Hon).
    + rewrite (first_where_next _ _ _ Hc HP). apply IH; [|lia].
      destruct (on_cell_before _ _ _ Hon) as [Hle' _ Hk' Hs' Hri'].
      split; [done|done|by rewrite Hk|by rewrite Hs|by rewrite Hri].
  - apply lookup_ge_None in Hc. replace i with (length cs) in * by lia.
    destruct (parse_end it Hb) as (it' & -> & Hv & Hs). simpl. exists it'. split; [done|].
    rewrite first_where_end. by rewrite lookup_ge_None_2.
Qed.

Lemma SeekByValue_at it target : status_ it = Status_OK ->
  monotone (fun c => target <=? offset (cell_handle c)) ->
  exists it', SeekByValue data restarts num it target = Some it' /\
    match cs !! first_where (fun c => target <=? offset (cell_handle c)) 0 with
    | Some c => Valid restarts it' = true /\ key_ it' = c_key c
    | None => Valid restarts it' = false
    end.
Proof.
  intros Hst Hm. unfold SeekByValue. destruct last_restart as (rl & Hrl & Hn).
  pose proof (lay_num _ _ _ _ _ Hlay) as Hnum. unfold zlen in Hnum. rewrite u32_small by lia.
  assert (Hbelow : forall c, c ∈ cs ->
    handle_below target (c_key c) (c_val c) = negb (target <=? offset (cell_handle c))).
  { intros c _. unfold handle_below, cell_handle. destruct (Handle.DecodeFrom _ _) as [[? h] ?].
    simpl. apply Z.ltb_antisym. }
  destruct (binary_search_at (fun c => target <=? offset (cell_handle c))
    (handle_below target) (S (Z.to_nat num)) Hm Hbelow 0 (Z.to_nat (num - 1)) ltac:(lia) ltac:(lia) ltac:(by left))
    as (lo & r & Hbs & Hr & Hor).
  rewrite Z2Nat.id in Hbs by lia. change (Z.of_nat 0) with 0 in Hbs. rewrite Hbs.
  pose proof (restart_before it lo r Hst Hr) as Hb. pose proof (bc_le _ _ Hb) as Hle.
  rewrite (first_where_restart _ r Hm Hle Hor).
  apply seek_value_scan_at; [done|]. apply cells_fuel. done.
Qed.

End IterLemmas.

(** ** The builder lays its entries out *)

Lemma shared_loop_spec a : forall b,
  (Builder.shared_loop a b <= length a)%nat /\ (Builder.shared_loop a b <= length b)%nat /\
  take (Builder.shared_loop a b) a = take (Builder.shared_loop a b) b.
Proof.
  induction a as [|x a IH]; intros [|y b]; simpl; try (split_and!; lia || done).
  destruct (Z.eqb_spec x y) as [->|]; [|split_and!; lia || done].
  destruct (IH b) as (H1 & H2 & H3). simpl. split_and!; [lia|lia|by rewrite H3].
Qed.

Record built (b : BlockBuilder) (cs : list cell) (rs : list nat) : Prop := {
  bu_buffer : b_buffer b = body cs;
  bu_restarts : b_restarts b = cell_off cs <$> rs;
  bu_counter : 0 <= b_counter b /\ (cs = [] -> b_counter b = 0);
  bu_open : b_finished b = false;
  bu_last : b_last_key b = match last cs with Some c => c_key c | None => [] end;
  bu_first : rs !! 0%nat = Some 0%nat;
  bu_cells : Forall cell_ok cs;
  bu_shared : forall i c c', cs !! i = Some c -> cs !! S i = Some c' -> continues (c_key c) c';
  bu_points : forall k r, rs !! k = Some r -> (r < length cs \/ r = 0)%nat /\
    forall c, cs !! r = Some c -> c_shared c = 0%nat;
  bu_sorted : forall k1 k2 r1 r2, (k1 < k2)%nat -> rs !! k1 = Some r1 -> rs !! k2 = Some r2 ->
    (r1 < r2)%nat
}.

Lemma built_make : built Builder.make [] [0%nat].
Proof.
  split; simpl; try done.
  - intros [|k] r [= <-]. split; [by right|]. done.
  - intros [|k1] [|k2] ? ? ? [= <-] [= <-]; lia.
Qed.

Definition kv_ok (kv : bytes * bytes) : Prop :=
  bytes_ok kv.1 /\ bytes_ok kv.2 /\ zlen kv.1 < 2 ^ 32 /\ zlen kv.2 < 2 ^ 32.

Lemma cell_off_app cs c i : (i <= length cs)%nat -> cell_off (cs ++ [c]) i = cell_off cs i.
Proof. intros Hi. unfold cell_off. by rewrite take_app_le. Qed.

(** What [Add] appends. *)
Lemma Add_fields interval b key val :
  kv_ok (key, val) -> zlen (b_buffer b) < 2 ^ 32 ->
  exists sh restarts counter,
    (if b_counter b <? interval
     then (Builder.shared_loop (b_last_key b) key, b_restarts b, b_counter b)
     else (0%nat, b_restarts b ++ [zlen (b_buffer b)], 0)) = (sh, restarts, counter) /\
    (sh <= length key)%nat /\ (sh <= length (b_last_key b))%nat /\
    take sh (b_last_key b) = take sh key /\
    Builder.Add interval b key val
    = MkBuilder (b_buffer b ++ cell_bytes (Cell sh key val)) restarts (counter + 1) (b_finished b) key.
Proof.
  intros (_ & _ & Hk & Hv) Hb. simpl in *. pose proof (zlen_nonneg (b_buffer b)).
  destruct (shared_loop_spec (b_last_key b) key) as (H1 & H2 & H3).
  assert (Hgen : forall sh, (sh <= length key)%nat -> (sh <= length (b_last_key b))%nat ->
    take sh (b_last_key b) = take sh key ->
    ((((PutVarint32 (PutVarint32 (PutVarint32 (b_buffer b) (u32 (Z.of_nat sh)))
        (u32 (zlen key - Z.of_nat sh))) (u32 (zlen val))) ++ drop sh key) ++ val)
      = b_buffer b ++ cell_bytes (Cell sh key val)) /\ take sh (b_last_key b) ++ drop sh key = key).
  { intros sh Ha Hc Ht. split; [|rewrite Ht; apply take_drop].
    unfold PutVarint32, cell_bytes. simpl. pose proof (zlen_nonneg val). unfold zlen in *.
    rewrite !u32_small by lia. by rewrite <- !app_assoc. }
  unfold Builder.Add. rewrite (u32_small (zlen (b_buffer b))) by lia. destruct (b_counter b <? interval).
  - eexists _, _, _. split; [reflexivity|]. split_and!; [done..|].
    destruct (Hgen _ H2 H1 H3) as [-> ->]. done.
  - eexists _, _, _. split; [reflexivity|]. split_and!; [lia|lia|done|].
    destruct (Hgen 0%nat ltac:(lia) ltac:(lia) eq_refl) as [-> ->]. done.
Qed.

Lemma built_Add interval b cs rs key val :
  1 <= interval -> built b cs rs -> kv_ok (key, val) -> zlen (b_buffer b) < 2 ^ 32 ->
  exists sh rs', built (Builder.Add interval b key val) (cs ++ [Cell sh key val]) rs'.
Proof.
  intros Hint Hbu Hkv Hb.
  destruct (Add_fields interval b key val Hkv Hb) as (sh & restarts & counter & Hsel & Hsk & Hsl & Htk & ->).
  pose proof Hbu as [Hbuf Hres [Hcnt Hcnt0] Hop Hlast Hfirst Hcells Hsh Hpts Hsrt].
  assert (Hcok : cell_ok (Cell sh key val)) by (destruct Hkv as (?&?&?&?); split_and!; done).
  assert (Hcell : Forall cell_ok (cs ++ [Cell sh key val])) by (apply Forall_app; auto).
  assert (Hbody : b_buffer b ++ cell_bytes (Cell sh key val) = body (cs ++ [Cell sh key val])).
  { rewrite body_app, Hbuf. f_equal. unfold body. simpl. by rewrite app_nil_r. }
  assert (Hcont : forall i c c', (cs ++ [Cell sh key val]) !! i = Some c ->
    (cs ++ [Cell sh key val]) !! S i = Some c' -> continues (c_key c) c').
  { intros i c c' Hc Hc'. apply lookup_lt_Some in Hc' as Hi. rewrite length_app in Hi. simpl in Hi.
    rewrite lookup_app_l in Hc by lia.
    destruct (Nat.eq_dec (S i) (length cs)) as [E|].
    - rewrite E, list_lookup_middle in Hc' by done. injection Hc' as <-.
      rewrite last_lookup, <- E in Hlast. simpl in Hlast. rewrite Hc in Hlast. by rewrite Hlast in *.
    - rewrite lookup_app_l in Hc' by lia. by eapply Hsh. }
  assert (Hoffs : forall l : list nat, (forall r, r ∈ l -> (r <= length cs)%nat) ->
    cell_off cs <$> l = cell_off (cs ++ [Cell sh key val]) <$> l).
  { intros l Hl. apply list_fmap_ext. intros i r Hr. symmetry. apply cell_off_app.
    apply Hl. by eapply list_elem_of_lookup_2. }
  assert (Hrs : forall r, r ∈ rs -> (r <= length cs)%nat).
  { intros r [k Hk]%list_elem_of_lookup. destruct (Hpts k r Hk). lia. }
  assert (Hlk : last (cs ++ [Cell sh key val]) = Some (Cell sh key val)) by apply last_snoc.
  assert (Hold : forall k r, rs !! k = Some r -> (forall c, (cs ++ [Cell sh key val]) !! r = Some c ->
      r <> length cs -> c_shared c = 0%nat) /\ (r < length (cs ++ [Cell sh key val]) \/ r = 0)%nat).
  { intros k r Hk. destruct (Hpts k r Hk) as [Hr H0]. rewrite length_app. simpl. split; [|lia].
    intros c Hc Hne. apply H0. apply lookup_lt_Some in Hc as Hi. rewrite length_app in Hi. simpl in Hi.
    by rewrite lookup_app_l in Hc by lia. }
  destruct (Z.ltb_spec (b_counter b) interval) as [Hlt|Hge]; injection Hsel as <- <- <-.
  - exists (Builder.shared_loop (b_last_key b) key), rs.
    split; simpl; try done.
    + by rewrite Hres, Hoffs.
    + split; [lia|]. intros Hn. by destruct cs.
    + by rewrite Hlk.
    + intros k r Hk. destruct (Hold k r Hk) as [H0 Hr]. split; [done|]. intros c Hc.
      destruct (Nat.eq_dec r (length cs)) as [->|]; [|by apply H0].
      destruct (Hpts k (length cs) Hk) as [[?|Hz] _]; [lia|].
      apply nil_length_inv in Hz. rewrite Hz in *. simpl in Hlast.
      rewrite list_lookup_middle in Hc by done. injection Hc as <-. simpl. by rewrite Hlast.
  - assert (Hne : cs <> []) by (intros Hn; specialize (Hcnt0 Hn); lia).
    assert (0 < length cs)%nat by (destruct cs; [done|simpl; lia]).
    exists 0%nat, (rs ++ [length cs]). split; simpl; try done.
    + rewrite fmap_app, <- Hoffs by done. rewrite Hres. f_equal. simpl.
      rewrite cell_off_app, cell_off_all, Hbuf by lia. done.
    + split; [lia|]. intros Hn. by destruct cs.
    + by rewrite Hlk.
    + rewrite lookup_app_l; [done|]. by apply lookup_lt_Some in Hfirst.
    + intros k r Hk. apply lookup_app_Some in Hk as [Hk|[Hk1 Hk2]].
      * destruct (Hold k r Hk) as [H0 Hr]. split; [done|]. intros c Hc. apply H0; [done|].
        destruct (Hpts k r Hk). lia.
      * apply list_lookup_singleton_Some in Hk2 as [_ <-]. rewrite length_app. simpl. split; [lia|].
        intros c Hc. rewrite list_lookup_middle in Hc by done. by injection Hc as <-.
    + intros k1 k2 r1 r2 Hk Hk1 Hk2. apply lookup_app_Some in Hk2 as [Hk2|[Hge2 Hk2]].
      * apply lookup_lt_Some in Hk2 as ?. rewrite lookup_app_l in Hk1 by lia. by eapply (Hsrt k1 k2).
      * apply list_lookup_singleton_Some in Hk2 as [? <-]. rewrite lookup_app_l in Hk1 by lia.
        destruct (Hpts k1 r1 Hk1). lia.
Qed.

(** The block built from a list of entries. *)
Definition add_all (interval : Z) (kvs : list (bytes * bytes)) : BlockBuilder :=
  fold_left (fun b kv => Builder.Add interval b kv.1 kv.2) kvs Builder.make.

Definition build_block (interval : Z) (kvs : list (bytes * bytes)) : bytes :=
  (Builder.Finish (add_all interval kvs)).1.

Definition kv_of (c : cell) : bytes * bytes := (c_key c, c_val c).

Lemma add_all_snoc interval kvs kv :
  add_all interval (kvs ++ [kv]) = Builder.Add interval (add_all interval kvs) kv.1 kv.2.
Proof. unfold add_all. by rewrite fold_left_app. Qed.

Lemma built_add_all interval kvs :
  1 <= interval -> Forall kv_ok kvs -> zlen (b_buffer (add_all interval kvs)) < 2 ^ 32 ->
  exists cs rs, built (add_all interval kvs) cs rs /\ kv_of <$> cs = kvs.
Proof.
  intros Hint. induction kvs as [|[key val] kvs IH] using rev_ind; intros Hkv Hb.
  { exists [], [0%nat]. split; [apply built_make|done]. }
  apply Forall_app in Hkv as [Hkv Hk1]. apply Forall_cons in Hk1 as [Hk1 _].
  rewrite add_all_snoc in Hb |- *. simpl in *.
  assert (Hb' : zlen (b_buffer (add_all interval kvs)) < 2 ^ 32).
  { destruct (Z.ltb_spec (zlen (b_buffer (add_all interval kvs))) (2 ^ 32)) as [|Hge]; [done|].
    exfalso. unfold Builder.Add in Hb. destruct (if _ <? _ then _ else _) as [[sh rst] ct]. simpl in Hb.
    unfold PutVarint32 in Hb. rewrite !zlen_app in Hb.
    repeat match type of Hb with context [zlen ?x] => pose proof (zlen_nonneg x);
      let H := fresh in remember (zlen x) in Hb end. lia. }
  destruct (IH Hkv Hb') as (cs & rs & Hbu & Heq).
  destruct (built_Add interval _ cs rs key val Hint Hbu Hk1 Hb') as (sh & rs' & Hbu').
  exists (cs ++ [Cell sh key val]), rs'. split; [done|]. by rewrite fmap_app, Heq.
Qed.

Lemma concat_fixed32 (l : list Z) : forall buf,
  fold_left (fun buf r => PutFixed32 buf r) l buf = buf ++ concat (EncodeFixed32 <$> l).
Proof.
  induction l as [|x l IH]; intros buf; simpl; [by rewrite app_nil_r|].
  rewrite IH. unfold PutFixed32. by rewrite <- app_assoc.
Qed.

Lemma zlen_concat_fixed32 (l : list Z) : zlen (concat (EncodeFixed32 <$> l)) = 4 * zlen l.
Proof.
  induction l as [|x l IH]; [done|]. rewrite fmap_cons. cbn [concat].
  rewrite zlen_app, IH, zlen_cons. unfold zlen. simpl. lia.
Qed.

Lemma Finish_eq interval kvs :
  b_finished (add_all interval kvs) = false ->
  build_block interval kvs = b_buffer (add_all interval kvs) ++
    concat (EncodeFixed32 <$> b_restarts (add_all interval kvs)) ++
    EncodeFixed32 (u32 (zlen (b_restarts (add_all interval kvs)))).
Proof.
  intros Hf. unfold build_block, Builder.Finish. rewrite Hf. simpl.
  unfold PutFixed32 at 1. by rewrite concat_fixed32, <- app_assoc.
Qed.

Lemma add_all_open interval kvs : b_finished (add_all interval kvs) = false.
Proof.
  induction kvs as [|kv kvs IH] using rev_ind; [done|]. rewrite add_all_snoc. unfold Builder.Add.
  by destruct (if _ <? _ then _ else _) as [[? ?] ?].
Qed.

(** A finished block opens to an iterator over a layout of its entries. *)
Lemma build_layout interval kvs :
  1 <= interval -> Forall kv_ok kvs -> zlen (build_block interval kvs) < 2 ^ 32 ->
  exists restarts num cs rs, layout (build_block interval kvs) restarts num cs rs /\
    kv_of <$> cs = kvs /\
    NewIterator (Block_new (build_block interval kvs))
      = IterOf restarts num (Iter_new restarts num).
Proof.
  intros Hint Hkv Hb. pose proof (Finish_eq interval kvs (add_all_open interval kvs)) as Hfin.
  rewrite Hfin in Hb. rewrite !zlen_app, zlen_concat_fixed32 in Hb.
  pose proof (zlen_nonneg (b_restarts (add_all interval kvs))).
  pose proof (zlen_nonneg (b_buffer (add_all interval kvs))).
  change (zlen (EncodeFixed32 _)) with 4 in Hb.
  destruct (built_add_all interval kvs Hint Hkv ltac:(lia)) as (cs & rs & Hbu & Heq).
  pose proof Hbu as [Hbuf Hres _ _ _ Hfirst Hcells Hsh Hpts Hsrt].
  assert (Hzr : zlen (b_restarts (add_all interval kvs)) = zlen rs)
    by (rewrite Hres; unfold zlen; by rewrite length_fmap).
  rewrite Hzr in *. apply lookup_lt_Some in Hfirst as Hne. assert (0 < zlen rs) by (unfold zlen; lia).
  rewrite u32_small in Hfin by lia.
  exists (zlen (body cs)), (zlen rs), cs, rs. split; [|split; [done|]].
  - split; try done.
    + exists (EncodeFixed32 (zlen rs)). rewrite Hfin, Hbuf, Hres. by rewrite <- list_fmap_compose.
    + rewrite Hfin, !zlen_app, zlen_concat_fixed32. change (zlen (EncodeFixed32 _)) with 4. lia.
  - assert (Hl : zlen (build_block interval kvs) = zlen (body cs) + 4 * zlen rs + 4).
    { rewrite Hfin, !zlen_app, zlen_concat_fixed32, Hbuf, Hzr. change (zlen (EncodeFixed32 _)) with 4. lia. }
    assert (Hn : NumRestarts (build_block interval kvs) (zlen (build_block interval kvs)) = zlen rs).
    { unfold NumRestarts. rewrite Hfin at 2. rewrite app_assoc, drop_app_exact.
      - rewrite <- (app_nil_r (EncodeFixed32 _)). apply DecodeFixed32_Encode. lia.
      - rewrite Hl. rewrite length_app, Hbuf.
        pose proof (zlen_concat_fixed32 (b_restarts (add_all interval kvs))) as Hc.
        rewrite Hzr in Hc. unfold zlen in *. lia. }
    rewrite Hbuf in *. pose proof (zlen_nonneg (body cs)).
    unfold Block_new. rewrite Hl at 1. rewrite (proj2 (Z.ltb_ge _ _)) by lia. rewrite Hn.
    assert (zlen rs <= (zlen (build_block interval kvs) - 4) / 4) by (rewrite Hl; Z.div_mod_to_equations; lia).
    rewrite (proj2 (Z.ltb_ge _ _)) by lia. unfold NewIterator. simpl size_. simpl data_. simpl restart_offset_.
    rewrite Hn. rewrite Hl. rewrite (proj2 (Z.ltb_ge _ _)) by lia. rewrite (proj2 (Z.eqb_neq _ _)) by lia.
    replace (u32 _) with (zlen (body cs)); [done|]. rewrite u32_small; lia.
Qed.

(** ** Sequences of iterator operations *)

Inductive iter_op := OpFirst | OpLast | OpSeek (target : bytes) | OpNext | OpPrev.

(** The abstract cursor: a position in the entries, [length kvs] being "not
    valid"; [Next] and [Prev] are only defined on a valid position. *)
Definition cursor_step `{!Comparator} (kvs : list (bytes * bytes)) (i : nat) (op : iter_op) : option nat :=
  match op with
  | OpFirst => Some 0%nat
  | OpLast => Some (length kvs - 1)%nat
  | OpSeek target => Some (length (filter (fun kv => Compare kv.1 target < 0) kvs))
  | OpNext => if (i <? length kvs)%nat then Some (S i) else None
  | OpPrev => if (i <? length kvs)%nat
              then Some (if (i =? 0)%nat then length kvs else i - 1)%nat else None
  end.

Fixpoint cursor_run `{!Comparator} kvs (i : nat) (ops : list iter_op) : option nat :=
  match ops with
  | [] => Some i
  | op :: ops => match cursor_step kvs i op with Some i => cursor_run kvs i ops | None => None end
  end.

Definition iter_step `{!Comparator} data restarts num (it : Iter) (op : iter_op) : option Iter :=
  match op with
  | OpFirst => Some (SeekToFirst data restarts num it)
  | OpLast => SeekToLast data restarts num it
  | OpSeek target => Seek data restarts num it target
  | OpNext => Some (Next data restarts num it)
  | OpPrev => Prev data restarts num it
  end.

Fixpoint iter_run `{!Comparator} data restarts num (it : Iter) (ops : list iter_op) : option Iter :=
  match ops with
  | [] => Some it
  | op :: ops => match iter_step data restarts num it op with
                 | Some it => iter_run data restarts num it ops
                 | None => None
                 end
  end.

(** What a client sees of the iterator at position [i]. *)
Definition shows data restarts (it : Iter) (kvs : list (bytes * bytes)) (i : nat) : Prop :=
  status_ it = Status_OK /\
  match kvs !! i with
  | Some (k, v) => Valid restarts it = true /\ key_ it = k /\ value data it = v
  | None => Valid restarts it = false
  end.

Section Refinement.
Context {C : Comparator} {L : ComparatorLaws C}.

Definition sorted_kvs (kvs : list (bytes * bytes)) : Prop :=
  Forall (fun kv => valid_key kv.1) kvs /\
  forall i j kv kv', (i < j)%nat -> kvs !! i = Some kv -> kvs !! j = Some kv' -> Compare kv.1 kv'.1 < 0.

Lemma sorted_monotone kvs cs target :
  kv_of <$> cs = kvs -> sorted_kvs kvs -> valid_key target ->
  monotone cs (fun c => 0 <=? Compare (c_key c) target).
Proof.
  intros <- [Hv Hs] Ht i j c c' Hij Hc Hc' HP. apply Z.leb_le in HP. apply Z.leb_le.
  assert (Hk : forall n x, cs !! n = Some x -> valid_key (c_key x)).
  { intros n x Hx. apply (Forall_lookup_1 _ _ n (kv_of x)) in Hv; [done|]. by rewrite list_lookup_fmap, Hx. }
  pose proof (Hs i j (kv_of c) (kv_of c') Hij ltac:(by rewrite list_lookup_fmap, Hc)
    ltac:(by rewrite list_lookup_fmap, Hc')) as Hlt. simpl in Hlt.
  pose proof (Hk _ _ Hc) as Hvc. pose proof (Hk _ _ Hc') as Hvc'.
  destruct (Z.ltb_spec (Compare (c_key c') target) 0) as [Hl|]; [|lia].
  pose proof (cmp_lt_le_trans (c_key c) (c_key c') target Hvc Hvc' Ht Hlt ltac:(lia)). lia.
Qed.

(** On sorted entries the first key at or after the target is preceded by
    exactly the smaller ones. *)
Lemma first_where_count cs target :
  monotone cs (fun c => 0 <=? Compare (c_key c) target) ->
  first_where cs (fun c => 0 <=? Compare (c_key c) target) 0
  = length (filter (fun kv => Compare kv.1 target < 0) (kv_of <$> cs)).
Proof.
  unfold first_where. rewrite drop_0. simpl. intros Hm.
  assert (Hall : forall l, (forall c, c ∈ l -> 0 <= Compare (c_key c) target) ->
    filter (fun kv : bytes * bytes => Compare kv.1 target < 0) (kv_of <$> l) = []).
  { intros l Hl. apply filter_none. intros kv (c & -> & Hc)%list_elem_of_fmap. specialize (Hl c Hc). simpl. lia. }
  induction cs as [|c cs IH]; [done|]. rewrite fmap_cons. simpl.
  destruct (Z.leb_spec 0 (Compare (c_key c) target)) as [Hle|Hlt].
  - rewrite filter_cons_False by (simpl; lia). rewrite Hall; [done|].
    intros x [k Hk]%list_elem_of_lookup. apply Z.leb_le.
    apply (Hm 0%nat (S k) c x); [lia|done|done|]. by apply Z.leb_le.
  - rewrite filter_cons_True by (simpl; lia). simpl. f_equal. apply IH.
    intros i j x y Hij Hx Hy. apply (Hm (S i) (S j)); [lia|done|done].
Qed.

Context (interval : Z) (kvs : list (bytes * bytes)).
Context (data : bytes) (restarts num : Z) (cs : list cell) (rs : list nat).
Context (Hlay : layout data restarts num cs rs) (Hkvs : kv_of <$> cs = kvs) (Hsorted : sorted_kvs kvs).

Lemma length_cells : length cs = length kvs.
Proof. by rewrite <- Hkvs, length_fmap. Qed.

Definition op_ok (op : iter_op) : Prop :=
  match op with OpSeek target => valid_key target | _ => True end.

Lemma iter_step_at it i op i' :
  at_index restarts num cs it i -> op_ok op -> cursor_step kvs i op = Some i' ->
  exists it', iter_step data restarts num it op = Some it' /\ at_index restarts num cs it' i'.
Proof.
  intros Hat Hop Hst. pose proof Hat as (Hle & Hs & Hm).
  assert (Hon : (i < length cs)%nat -> exists c, on_cell num cs it i c).
  { intros Hi. destruct (lookup_lt_is_Some_2 cs i Hi) as [c Hc]. rewrite Hc in Hm. eauto. }
  destruct op as [| |target| |]; simpl in *; rewrite <- ?length_cells in Hst.
  - injection Hst as <-. eexists. split; [done|]. by apply (SeekToFirst_at _ _ _ _ rs).
  - injection Hst as <-. by apply (SeekToLast_at _ _ _ _ rs).
  - injection Hst as <-. pose proof (sorted_monotone kvs cs target Hkvs Hsorted Hop) as Hmono.
    rewrite <- Hkvs, <- (first_where_count cs target Hmono). by apply (Seek_at _ _ _ _ rs).
  - destruct (Nat.ltb_spec i (length cs)) as [Hi|]; [|done]. injection Hst as <-.
    destruct (Hon Hi) as [c Hc]. eexists. split; [done|]. unfold Next.
    apply (parse_at _ _ _ _ rs Hlay). by eapply on_cell_before.
  - destruct (Nat.ltb_spec i (length cs)) as [Hi|]; [|done]. injection Hst as <-.
    destruct (Hon Hi) as [c Hc]. destruct (Prev_at _ _ _ _ rs Hlay it i c Hc) as (it' & -> & Hit').
    exists it'. split; [done|]. destruct (Nat.eqb_spec i 0), (decide (i = 0)%nat); done || lia.
Qed.

Lemma iter_run_at ops : forall it i i',
  at_index restarts num cs it i -> Forall op_ok ops -> cursor_run kvs i ops = Some i' ->
  exists it', iter_run data restarts num it ops = Some it' /\ at_index restarts num cs it' i'.
Proof.
  induction ops as [|op ops IH]; intros it i i' Hat Hop Hrun; simpl in *.
  - injection Hrun as <-. by exists it.
  - apply Forall_cons in Hop as [Hop Hops]. destruct (cursor_step kvs i op) as [i1|] eqn:Hst; [|done].
    destruct (iter_step_at it i op i1 Hat Hop Hst) as (it1 & -> & Hat1). by apply (IH it1 i1).
Qed.

Lemma at_index_shows it i : at_index restarts num cs it i -> shows data restarts it kvs i.
Proof.
  intros (Hle & Hs & Hm). split; [done|]. rewrite <- Hkvs, list_lookup_fmap.
  destruct (cs !! i) as [c|] eqn:Hc; simpl; [|done]. split_and!.
  - apply Z.ltb_lt. rewrite (oc_current _ _ _ _ _ Hm), (lay_restarts _ _ _ _ _ Hlay), <- cell_off_all.
    apply cell_off_lt; [exact (lay_cells _ _ _ _ _ Hlay)|]. apply lookup_lt_Some in Hc. lia.
  - exact (oc_key _ _ _ _ _ Hm).
  - by eapply (value_on_cell _ _ _ _ rs).
Qed.

Lemma new_at_index : at_index restarts num cs (Iter_new restarts num) (length cs).
Proof. apply at_index_end; [|done]. apply Z.ltb_ge. simpl. lia. Qed.

End Refinement.

(** ** Termination on arbitrary blocks *)

Section AnyBlock.
Context (data : bytes) (restarts num : Z) (Hre : 0 <= restarts < 2 ^ 32).
Context (Hdata : bytes_ok data) (Hlen : restarts <= zlen data).

(** Where the next entry starts, whatever the lengths of this one claim. *)
Lemma DecodeEntry_progress p s n v q :
  bytes_ok p -> zlen p < 2 ^ 32 -> DecodeEntry p = Some (s, n, v, q) ->
  zlen q + 3 <= zlen p /\ 0 <= n < 2 ^ 32 /\ 0 <= v < 2 ^ 32 /\ 0 <= s /\ u32 (n + v) <= zlen q.
Proof.
  intros Hp Hpl. unfold DecodeEntry. destruct (Z.ltb_spec (zlen p) 3) as [|H3]; [done|].
  pose proof (byte_at_ok p 0 Hp). pose proof (byte_at_ok p 1 Hp). pose proof (byte_at_ok p 2 Hp).
  set (dec := if _ <? 128 then _ else _). intros Hdec.
  assert (Hd : forall s n v q, dec = Some (s, n, v, q) ->
    zlen q + 3 <= zlen p /\ 0 <= n < 2 ^ 32 /\ 0 <= v < 2 ^ 32 /\ 0 <= s).
  { clear Hdec. intros s' n' v' q'. subst dec. destruct (_ <? 128).
    - intros [= <- <- <- <-]. unfold is_byte in *. unfold zlen in *. rewrite length_drop. lia.
    - rewrite <- GetVarint32_match. destruct (GetVarint32 p) as [[s1 p1]|] eqn:E1; [|done].
      destruct (GetVarint32_consumes _ _ _ Hp E1) as (? & pre1 & Hp1 & ?). rewrite Hp1 in Hp.
      apply bytes_ok_app in Hp as [_ Hok1].
      rewrite <- GetVarint32_match. destruct (GetVarint32 p1) as [[n1 p2]|] eqn:E2; [|done].
      destruct (GetVarint32_consumes _ _ _ Hok1 E2) as (? & pre2 & Hp2 & ?). rewrite Hp2 in Hok1.
      apply bytes_ok_app in Hok1 as [_ Hok2].
      rewrite <- GetVarint32_match. destruct (GetVarint32 p2) as [[v1 p3]|] eqn:E3; [|done].
      destruct (GetVarint32_consumes _ _ _ Hok2 E3) as (? & pre3 & Hp3 & ?).
      intros [= <- <- <- <-]. rewrite Hp1, Hp2, Hp3, !zlen_app. unfold zlen. lia. }
  destruct dec as [[[[s' n'] v'] q']|]; [|done]. specialize (Hd _ _ _ _ eq_refl).
  destruct (Z.ltb_spec (u32 (zlen q')) (u32 (n' + v'))) as [|Hge]; [done|].
  injection Hdec as <- <- <- <-. rewrite (u32_small (zlen q')) in Hge by (pose proof (zlen_nonneg q'); lia).
  split_and!; lia.
Qed.

Definition next (it : Iter) : Z := NextEntryOffset restarts it.

Lemma entry_text_length off : 0 <= off <= restarts -> zlen (entry_text data restarts off) = restarts - off.
Proof. intros. unfold entry_text, sub_bytes. unfold zlen in *. rewrite length_take, length_drop. lia. Qed.

(** Even if the lengths of an entry overflow 32 bits, the next offset moves forward. *)
Lemma parse_progress it it' :
  0 <= next it -> ParseNextKey data restarts num it = (true, it') ->
  next it + 3 <= next it' <= restarts.
Proof.
  intros Hn. unfold ParseNextKey. fold (next it). destruct (Z.leb_spec restarts (next it)) as [|Hlt]; [done|].
  destruct (DecodeEntry _) as [[[[s n] v] q]|] eqn:Hd; [|done].
  pose proof (entry_text_length (next it) ltac:(lia)) as Hl.
  apply DecodeEntry_progress in Hd as (Hq & Hn' & Hv & Hs & Hu);
    [|unfold entry_text, sub_bytes; auto with kv|lia].
  destruct (_ <? s); [done|]. intros [= <-]. set (it' := MkIter _ _ _ _ _).
  assert (next it' = u32 (restarts - zlen q + n + v)) as -> by done. clear it'. pose proof (zlen_nonneg q).
  assert (u32 (restarts - zlen q + n + v) = restarts - zlen q + u32 (n + v)) as ->; [|pose proof (u32_range (n + v)); lia].
  replace (restarts - zlen q + n + v) with (restarts - zlen q + (n + v)) by lia.
  unfold u32 in *. rewrite <- Z.add_mod_idemp_r by lia. apply Z.mod_small.
  pose proof (Z.mod_pos_bound (n + v) (2 ^ 32) ltac:(lia)). lia.
Qed.

Lemma restart_nonneg index : 0 <= GetRestartPoint data restarts index < 2 ^ 32.
Proof. apply DecodeFixed32_range. by apply bytes_ok_drop. Qed.

Lemma next_restart it index : 0 <= next (SeekToRestartPoint data restarts it index).
Proof. unfold next, NextEntryOffset. simpl. apply u32_range. Qed.

Lemma scan_before_total fuel original : forall it,
  0 <= next it -> (Z.to_nat (restarts - next it) < fuel)%nat ->
  is_Some (scan_before data restarts num fuel original it).
Proof.
  induction fuel as [|fuel IH]; intros it Hn Hf; [lia|]. simpl.
  destruct (ParseNextKey data restarts num it) as [[|] it'] eqn:Hp; [|done].
  destruct (NextEntryOffset restarts it' <? original); [|done]. simpl.
  pose proof (parse_progress it it' Hn Hp). apply IH; lia.
Qed.

Lemma seek_scan_total `{!Comparator} fuel target : forall it,
  0 <= next it -> (Z.to_nat (restarts - next it) < fuel)%nat ->
  is_Some (seek_scan data restarts num fuel target it).
Proof.
  induction fuel as [|fuel IH]; intros it Hn Hf; [lia|]. simpl.
  destruct (ParseNextKey data restarts num it) as [[|] it'] eqn:Hp; [|done]. simpl.
  destruct (0 <=? _); [done|]. pose proof (parse_progress it it' Hn Hp). apply IH; lia.
Qed.

Lemma decode_value_next it : value_ it <> None -> next (decode_value data it).2 = next it.
Proof.
  intros Hv. unfold decode_value, next, NextEntryOffset.
  destruct (Handle.DecodeFrom _ _) as [[? ?] q]. simpl. destruct (value_ it) as [[o l]|]; [|done].
  f_equal. lia.
Qed.

Lemma seek_value_scan_total fuel target : forall it,
  0 <= next it -> (Z.to_nat (restarts - next it) < fuel)%nat ->
  is_Some (seek_value_scan data restarts num fuel target it).
Proof.
  induction fuel as [|fuel IH]; intros it Hn Hf; [lia|]. simpl.
  destruct (ParseNextKey data restarts num it) as [[|] it'] eqn:Hp; [|done]. simpl.
  pose proof (parse_progress it it' Hn Hp) as Hpr.
  assert (Hv : value_ it' <> None).
  { unfold ParseNextKey in Hp. destruct (_ <=? _); [done|]. destruct (DecodeEntry _) as [[[[? ?] ?] ?]|]; [|done].
    destruct (_ <? _); [done|]. by injection Hp as <-. }
  pose proof (decode_value_next it' Hv) as Hdn. destruct (decode_value data it') as [h it'']. simpl in Hdn.
  destruct (_ <=? _); [done|]. apply IH; lia.
Qed.

Lemma binary_search_total below fuel : 0 <= num < 2 ^ 31 -> forall lo hi,
  0 <= lo -> hi < num -> (Z.to_nat (hi - lo) < fuel)%nat ->
  is_Some (binary_search data restarts fuel below lo hi).
Proof.
  intros Hnum. induction fuel as [|fuel IH]; intros lo hi Hlo Hhi Hf; [lia|]. simpl.
  destruct (Z.ltb_spec lo hi); [|done]. rewrite u32_small by lia.
  assert (Hmid : lo < (lo + hi + 1) / 2 <= hi) by (Z.div_mod_to_equations; lia).
  destruct (DecodeEntry _) as [[[[s n] v] q]|]; [|done].
  destruct (negb _); [done|]. destruct (below _ _); apply IH; lia.
Qed.

End AnyBlock.

Lemma NewIterator_bounds contents restarts num it :
  bytes_ok contents -> zlen contents < 2 ^ 32 ->
  NewIterator (Block_new contents) = IterOf restarts num it ->
  0 <= restarts < 2 ^ 32 /\ restarts <= zlen contents /\ 0 < num < 2 ^ 31.
Proof.
  intros Hok Hl. unfold Block_new. destruct (Z.ltb_spec (zlen contents) 4) as [|H4]; [done|].
  pose proof (DecodeFixed32_range (drop (Z.to_nat (zlen contents - 4)) contents)
    ltac:(by apply bytes_ok_drop)) as Hn. fold (NumRestarts contents (zlen contents)) in Hn.
  destruct (Z.ltb_spec ((zlen contents - 4) / 4) (NumRestarts contents (zlen contents))) as [|Hle]; [done|].
  unfold NewIterator. simpl. rewrite (proj2 (Z.ltb_ge _ _)) by lia.
  destruct (Z.eqb_spec (NumRestarts contents (zlen contents)) 0) as [|Hne]; [done|].
  intros [= <- <- _]. assert (4 * NumRestarts contents (zlen contents) + 4 <= zlen contents)
    by (Z.div_mod_to_equations; lia).
  rewrite u32_small; lia.
Qed.

(** ** Properties *)

(** C28. The block iterator implements a cursor over the entries: for entries
    added in increasing order, any restart interval of at least 1 and any
    sequence of SeekToFirst, SeekToLast, Seek, Next and Prev that calls Next and
    Prev only when valid, the iterator opened on the finished block returns from
    every call with an OK status and shows the entry of the abstract cursor, or
    is invalid exactly when the cursor is off the end; Seek finds the first key
    at or after its target. *)
Theorem block_iterator_refines {C : Comparator} {L : ComparatorLaws C}
    (interval : Z) (kvs : list (bytes * bytes)) (ops : list iter_op) (i : nat) :
  1 <= interval -> Forall kv_ok kvs -> sorted_kvs kvs ->
  zlen (build_block interval kvs) < 2 ^ 32 -> Forall op_ok ops ->
  cursor_run kvs (length kvs) ops = Some i ->
  exists restarts num it,
    NewIterator (Block_new (build_block interval kvs)) = IterOf restarts num (Iter_new restarts num) /\
    iter_run (build_block interval kvs) restarts num (Iter_new restarts num) ops = Some it /\
    shows (build_block interval kvs) restarts it kvs i.
Proof.
  intros Hint Hkv Hs Hl Hops Hrun.
  destruct (build_layout interval kvs Hint Hkv Hl) as (restarts & num & cs & rs & Hlay & Heq & Hnew).
  pose proof (new_at_index restarts num cs) as H0. rewrite (length_cells kvs cs Heq) in H0.
  destruct (iter_run_at kvs _ restarts num cs rs Hlay Heq Hs ops _ _ _ H0 Hops Hrun) as (it & Hit & Hat).
  exists restarts, num, it. split_and!; [done..|]. by apply (at_index_shows kvs _ restarts num cs rs).
Qed.

Lemma block_iterator_refines_witness :
  let kvs := [([1], [10]); ([1; 2], [20]); ([2], []); ([2; 0; 7], [9; 9])] in
  exists restarts num it,
    iter_run (build_block 2 kvs) restarts num (Iter_new restarts num)
      [OpSeek [1; 3]; OpPrev; OpNext; OpNext] = Some it /\
    shows (build_block 2 kvs) restarts it kvs 3.
Proof.
  intros kvs.
  destruct (block_iterator_refines 2 kvs [OpSeek [1; 3]; OpPrev; OpNext; OpNext] 3) as (r & n & it & _ & H1 & H2).
  - lia.
  - repeat constructor; unfold is_byte; simpl; lia.
  - split; [repeat constructor; unfold is_byte; simpl; lia|].
    intros i j kv kv' Hij Hi Hj.
    do 4 (destruct i as [|i]; [do 4 (destruct j as [|j]; [first [lia|injection Hi as <-; injection Hj as <-; vm_compute; reflexivity]|]); discriminate|]).
    discriminate.
  - vm_compute. reflexivity.
  - repeat constructor; unfold is_byte; lia.
  - vm_compute. reflexivity.
  - by exists r, n, it.
Defined.

(** [SeekByValue] on an index block: when the entries' values are block
    handles with increasing offsets, it stops on the key of the first entry
    whose handle starts at or after the target, and is invalid if there is none. *)
Theorem block_seek_by_value (interval target : Z) (kvs : list (bytes * BlockHandle)) :
  1 <= interval -> Forall (fun kh => bytes_ok kh.1 /\ zlen kh.1 < 2 ^ 32 /\ handle_ok kh.2) kvs ->
  (forall i j x y, (i < j)%nat -> kvs !! i = Some x -> kvs !! j = Some y -> offset x.2 < offset y.2) ->
  let block := build_block interval ((fun kh => (kh.1, handle_bytes kh.2)) <$> kvs) in
  zlen block < 2 ^ 32 ->
  exists restarts num it,
    NewIterator (Block_new block) = IterOf restarts num (Iter_new restarts num) /\
    SeekByValue block restarts num (Iter_new restarts num) target = Some it /\
    match kvs !! length (filter (fun kh => offset kh.2 < target) kvs) with
    | Some kh => Valid restarts it = true /\ key_ it = kh.1
    | None => Valid restarts it = false
    end.
Proof.
  intros Hint Hkv Hs block Hl.
  destruct (build_layout interval ((fun kh => (kh.1, handle_bytes kh.2)) <$> kvs) Hint)
    as (restarts & num & cs & rs & Hlay & Heq & Hnew); [|done|].
  { apply Forall_fmap. eapply Forall_impl; [exact Hkv|]. intros [k h] (? & ? & Hh). simpl in *.
    pose proof (handle_bytes_length h Hh). split_and!; simpl; try done; [by apply handle_bytes_ok|].
    unfold zlen, kMaxEncodedLength in *. lia. }
  assert (Hlk : forall i c, cs !! i = Some c -> exists kh, kvs !! i = Some kh /\ c_key c = kh.1 /\ cell_handle c = kh.2).
  { intros i c Hc. pose proof (f_equal (.!! i) Heq) as Hi. simpl in Hi.
    rewrite !list_lookup_fmap, Hc in Hi. destruct (kvs !! i) as [[k h]|] eqn:Hk; [|done].
    injection Hi as Hi1 Hi2. exists (k, h). split_and!; [done..|]. unfold cell_handle. simpl.
    rewrite Hi2. apply (Forall_lookup_1 _ _ _ _ Hkv) in Hk as (_ & _ & Hh). simpl in Hh.
    rewrite <- (app_nil_r (handle_bytes h)), Handle_DecodeFrom_Encode; done. }
  assert (Hm : monotone cs (fun c => target <=? offset (cell_handle c))).
  { intros i j c c' Hij Hc Hc' HP. apply Z.leb_le in HP. apply Z.leb_le.
    destruct (Hlk _ _ Hc) as (x & Hx & _ & Ex). destruct (Hlk _ _ Hc') as (y & Hy & _ & Ey).
    rewrite Ex in HP. rewrite Ey. specialize (Hs i j x y Hij Hx Hy). lia. }
  destruct (SeekByValue_at _ restarts num cs rs Hlay (Iter_new restarts num) target eq_refl Hm)
    as (it & Hit & Hres).
  exists restarts, num, it. split_and!; [done..|].
  assert (Hcount : forall (l : list cell) (ks : list (bytes * BlockHandle)),
    (forall i c, l !! i = Some c -> exists kh, ks !! i = Some kh /\ c_key c = kh.1 /\ cell_handle c = kh.2) ->
    length l = length ks ->
    (forall i j x y, (i < j)%nat -> ks !! i = Some x -> ks !! j = Some y -> offset x.2 < offset y.2) ->
    first_from (fun c => target <=? offset (cell_handle c)) l = length (filter (fun kh => offset kh.2 < target) ks)).
  { clear. induction l as [|c l IH]; intros [|kh ks] Hlk Hlen Hs; try done.
    destruct (Hlk 0%nat c eq_refl) as (kh' & [= <-] & _ & E). simpl. rewrite E.
    destruct (Z.leb_spec target (offset kh.2)) as [Hle|Hgt].
    - rewrite filter_cons_False by lia.
      assert (filter (fun kh0 : bytes * BlockHandle => offset kh0.2 < target) ks = []) as ->; [|done].
      apply filter_none. intros x [k Hk]%list_elem_of_lookup.
      specialize (Hs 0%nat (S k) kh x ltac:(lia) eq_refl Hk). lia.
    - rewrite filter_cons_True by lia. simpl. f_equal. apply IH.
      + intros i c' Hc'. apply (Hlk (S i) c' Hc').
      + simpl in Hlen. lia.
      + intros i j x y Hij Hx Hy. apply (Hs (S i) (S j)); [lia|done|done]. }
  unfold first_where in Hres. rewrite drop_0 in Hres. simpl in Hres.
  assert (Hlen : length cs = length kvs)
    by (apply (f_equal length) in Heq; by rewrite !length_fmap in Heq).
  rewrite (Hcount cs kvs Hlk Hlen Hs) in Hres.
  destruct (cs !! _) as [c|] eqn:Hc.
  - destruct (Hlk _ _ Hc) as (kh & -> & Hk & _). by rewrite <- Hk.
  - apply lookup_ge_None in Hc. rewrite Hlen in Hc. by rewrite lookup_ge_None_2.
Qed.

Lemma block_seek_by_value_witness :
  let kvs := [([1], MkHandle 0 10); ([2], MkHandle 200 10); ([3; 3], MkHandle 70000 4)] in
  let block := build_block 1 ((fun kh => (kh.1, handle_bytes kh.2)) <$> kvs) in
  exists restarts num it,
    SeekByValue block restarts num (Iter_new restarts num) 201 = Some it /\ key_ it = [3; 3].
Proof.
  intros kvs block.
  destruct (block_seek_by_value 1 201 kvs) as (r & n & it & _ & H1 & H2).
  - lia.
  - repeat constructor; unfold is_byte, handle_ok; simpl; lia.
  - intros i j x y Hij Hi Hj.
    do 3 (destruct i as [|i]; [do 3 (destruct j as [|j]; [first [lia|injection Hi as <-; injection Hj as <-; simpl; lia]|]); discriminate|]).
    discriminate.
  - vm_compute. reflexivity.
  - exists r, n, it. split; [exact H1|]. exact (proj2 (A := Valid r it = true) (B := key_ it = [3; 3]) H2).
Defined.

(** The iterator always returns: on a block of arbitrary bytes (a corrupt
    one included), from any iterator state, the loops of Seek, SeekByValue,
    SeekToLast and Prev end, because every parsed entry moves the offset forward
    even when its lengths overflow 32 bits. *)
Theorem block_iterator_terminates {C : Comparator} (contents : bytes) (restarts num : Z) (it0 it : Iter) :
  bytes_ok contents -> zlen contents < 2 ^ 32 ->
  NewIterator (Block_new contents) = IterOf restarts num it0 ->
  (forall target, is_Some (Seek contents restarts num it target)) /\
  (forall target, is_Some (SeekByValue contents restarts num it target)) /\
  is_Some (SeekToLast contents restarts num it) /\ is_Some (Prev contents restarts num it).
Proof.
  intros Hok Hl Hnew. destruct (NewIterator_bounds _ _ _ _ Hok Hl Hnew) as (Hr & Hle & Hn).
  assert (Hfuel : forall it0 index,
    (Z.to_nat (restarts - next restarts (SeekToRestartPoint contents restarts it0 index)) < scan_fuel restarts)%nat).
  { intros it1 index. pose proof (next_restart contents restarts it1 index). unfold scan_fuel. lia. }
  assert (Hbs : forall below, is_Some (binary_search contents restarts (S (Z.to_nat num)) below 0 (u32 (num - 1)))).
  { intros below. rewrite u32_small by lia. apply (binary_search_total contents restarts num); lia. }
  split_and!.
  - intros target. unfold Seek. destruct (Hbs (fun mid_key _ => Compare mid_key target <? 0)) as [[lo|] ->]; [|done].
    apply (seek_scan_total contents restarts num Hr Hok Hle); [apply next_restart|apply Hfuel].
  - intros target. unfold SeekByValue. destruct (Hbs (handle_below target)) as [[lo|] ->]; [|done].
    apply (seek_value_scan_total contents restarts num Hr Hok Hle); [apply next_restart|apply Hfuel].
  - apply (scan_before_total contents restarts num Hr Hok Hle); [apply next_restart|apply Hfuel].
  - unfold Prev. destruct (Prev_restart _ _ _ _ _); [|done].
    apply (scan_before_total contents restarts num Hr Hok Hle); [apply next_restart|apply Hfuel].
Qed.

Lemma block_iterator_terminates_witness :
  is_Some (Seek [1; 2; 3; 255; 0; 0; 0; 0; 1; 0; 0; 0] 4 1 (Iter_new 4 1) [5]).
Proof.
  apply (block_iterator_terminates [1; 2; 3; 255; 0; 0; 0; 0; 1; 0; 0; 0] 4 1 (Iter_new 4 1) (Iter_new 4 1)).
  - repeat constructor; unfold is_byte; lia.
  - vm_compute. reflexivity.
  - vm_compute. reflexivity.
Defined.
