(* ===== verification/Iterators.v ===== *)
(** * Iterators: the iterator interface and the iterator of a block

    include/leveldb/iterator.h, table/iterator.cc and [Block::NewIterator] of
    table/block.cc under src/LSM-EBF/.  The virtual methods are the class
    [Iterator]; [cursor_over kvs at_] is the documented contract: the object is
    a cursor over the entries [kvs], [at_ it i] saying that it stands on entry
    [i], or is not valid when [i] is their number.  Iterators built on other
    iterators are verified against this contract. *)
From S2P Require Import Prelude Coding Status Comparator TableFormat Block.

(** [None]: the call does not return, or its behaviour is undefined. *)
Class Iterator (I : Type) := {
  iValid : I -> bool;
  ikey : I -> bytes;
  ivalue : I -> bytes;
  istatus : I -> Status;
  istep : I -> iter_op -> option I
}.

(** What a client sees. *)
Definition ishows {I : Type} `{!Iterator I} (it : I) (kvs : list (bytes * bytes)) (i : nat) : Prop :=
  istatus it = Status_OK /\
  match kvs !! i with
  | Some (k, v) => iValid it = true /\ ikey it = k /\ ivalue it = v
  | None => iValid it = false
  end.

Record cursor_over `{!Comparator} {I : Type} `{!Iterator I} (kvs : list (bytes * bytes)) (at_ : I -> nat -> Prop)
    : Prop := {
  cur_le : forall it i, at_ it i -> (i <= length kvs)%nat;
  cur_shows : forall it i, at_ it i -> ishows it kvs i;
  cur_step : forall it i op i', at_ it i -> op_ok op -> cursor_step kvs i op = Some i' ->
    exists it', istep it op = Some it' /\ at_ it' i'
}.

Section Contract.
Context `{!Comparator} {I : Type} `{!Iterator I}.

Fixpoint irun (it : I) (ops : list iter_op) : option I :=
  match ops with
  | [] => Some it
  | op :: ops => it ← istep it op; irun it ops
  end.

Lemma cursor_run_at kvs at_ ops : cursor_over kvs at_ -> forall it i i',
  at_ it i -> Forall op_ok ops -> cursor_run kvs i ops = Some i' ->
  exists it', irun it ops = Some it' /\ at_ it' i'.
Proof.
  intros Hc. induction ops as [|op ops IH]; intros it i i' Hat Hop Hrun; simpl in *.
  - injection Hrun as <-. by exists it.
  - apply Forall_cons in Hop as [Hop Hops]. destruct (cursor_step kvs i op) as [i1|] eqn:Hst; [|done].
    destruct (cur_step _ _ Hc it i op i1 Hat Hop Hst) as (it1 & -> & Hat1). by apply (IH it1 i1).
Qed.

Lemma at_valid kvs at_ it i : cursor_over kvs at_ -> at_ it i -> iValid it = bool_decide (i < length kvs)%nat.
Proof.
  intros Hc Hat. destruct (cur_shows _ _ Hc it i Hat) as [_ Hs].
  destruct (kvs !! i) as [[k v]|] eqn:Hk.
  - destruct Hs as [-> _]. symmetry. apply bool_decide_eq_true. by eapply lookup_lt_Some.
  - rewrite Hs. symmetry. apply bool_decide_eq_false. apply lookup_ge_None in Hk. lia.
Qed.
End Contract.

(** ** The iterator of a block *)

(** An iterator with the block it reads; [EmptyIterator] of iterator.cc for the
    other two cases: its moves do nothing, its key and value are empty. *)
Record BIter := MkBIter { bi_data : bytes; bi_iter : BlockIterator }.

Definition bi_open (b : Block) : BIter := MkBIter (data_ b) (NewIterator b).

Definition NewErrorIterator (s : Status) : BIter := MkBIter [] (ErrorIterator s).

Definition bi_Valid (b : BIter) : bool :=
  match bi_iter b with IterOf restarts _ it => Valid restarts it | _ => false end.

Definition bi_key (b : BIter) : bytes :=
  match bi_iter b with IterOf _ _ it => key_ it | _ => [] end.

Definition bi_value (b : BIter) : bytes :=
  match bi_iter b with IterOf _ _ it => value (bi_data b) it | _ => [] end.

Definition bi_status (b : BIter) : Status :=
  match bi_iter b with ErrorIterator s => s | EmptyIterator => Status_OK | IterOf _ _ it => status_ it end.

Definition bi_step {C : Comparator} (b : BIter) (op : iter_op) : option BIter :=
  match bi_iter b with
  | IterOf restarts num it =>
      it ← iter_step (bi_data b) restarts num it op;
      Some (MkBIter (bi_data b) (IterOf restarts num it))
  | _ => Some b
  end.

(** [SeekByValue]: only a block's iterator overrides it. *)
Definition bi_SeekByValue (b : BIter) (target : Z) : option BIter :=
  match bi_iter b with
  | IterOf restarts num it =>
      it ← SeekByValue (bi_data b) restarts num it target;
      Some (MkBIter (bi_data b) (IterOf restarts num it))
  | _ => Some b
  end.

#[export] Instance BIter_Iterator `{!Comparator} : Iterator BIter := {|
  iValid := bi_Valid; ikey := bi_key; ivalue := bi_value; istatus := bi_status; istep := bi_step
|}.

(** [b] stands on entry [i] of a block built from [kvs]. *)
Definition bi_at (interval : Z) (kvs : list (bytes * bytes)) (b : BIter) (i : nat) : Prop :=
  bi_data b = build_block interval kvs /\
  exists restarts num cs rs it, bi_iter b = IterOf restarts num it /\
    layout (build_block interval kvs) restarts num cs rs /\ kv_of <$> cs = kvs /\
    at_index restarts num cs it i.

Lemma bi_open_at interval kvs :
  1 <= interval -> Forall kv_ok kvs -> zlen (build_block interval kvs) < 2 ^ 32 ->
  bi_at interval kvs (bi_open (Block_new (build_block interval kvs))) (length kvs).
Proof.
  intros Hint Hkv Hl.
  destruct (build_layout interval kvs Hint Hkv Hl) as (restarts & num & cs & rs & Hlay & Heq & Hnew).
  split; [apply Block_new_data|].
  exists restarts, num, cs, rs, (Iter_new restarts num). split_and!; try done.
  rewrite <- (length_cells kvs cs Heq). apply new_at_index.
Qed.

Lemma bi_cursor {C : Comparator} {L : ComparatorLaws C} interval kvs :
  sorted_kvs kvs -> cursor_over kvs (bi_at interval kvs).
Proof.
  intros Hs. split.
  - intros b i (_ & restarts & num & cs & rs & it & _ & Hlay & Heq & (Hle & _)).
    by rewrite <- (length_cells kvs cs Heq).
  - intros b i (Hd & restarts & num & cs & rs & it & Hb & Hlay & Heq & Hat).
    pose proof (at_index_shows kvs _ restarts num cs rs Hlay Heq it i Hat) as Hsh.
    unfold ishows. simpl. unfold bi_status, bi_Valid, bi_key, bi_value. rewrite Hb, Hd. exact Hsh.
  - intros b i op i' (Hd & restarts & num & cs & rs & it & Hb & Hlay & Heq & Hat) Hop Hst.
    destruct (iter_step_at kvs _ restarts num cs rs Hlay Heq Hs it i op i' Hat Hop Hst) as (it' & Hit & Hat').
    simpl. unfold bi_step. rewrite Hb, Hd, Hit. simpl.
    eexists. split; [done|]. split; [done|]. by exists restarts, num, cs, rs, it'.
Qed.

(** ** Sorted entries *)

Section Sorted.
Context `{!Comparator}.

Lemma sorted_kvs_nil : sorted_kvs [].
Proof. by split. Qed.

Lemma sorted_kvs_app l1 l2 :
  sorted_kvs l1 -> sorted_kvs l2 ->
  (forall kv kv', kv ∈ l1 -> kv' ∈ l2 -> Compare kv.1 kv'.1 < 0) -> sorted_kvs (l1 ++ l2).
Proof.
  intros [Hv1 Hs1] [Hv2 Hs2] H12. split; [by apply Forall_app|].
  intros i j kv kv' Hij Hi Hj. apply lookup_app_Some in Hi as [Hi|[Hi1 Hi]].
  - apply lookup_app_Some in Hj as [Hj|[_ Hj]]; [by apply (Hs1 i j)|].
    apply H12; by eapply list_elem_of_lookup_2.
  - rewrite lookup_app_r in Hj by lia. apply (Hs2 (i - length l1) (j - length l1))%nat; [lia|done|done].
Qed.

Lemma sorted_kvs_one kv : valid_key kv.1 -> sorted_kvs [kv].
Proof.
  intros Hv. split; [by repeat constructor|]. intros [|i] [|j] x y Hij Hi Hj; try lia; done.
Qed.

Lemma sorted_kvs_cons kv l :
  valid_key kv.1 -> sorted_kvs l -> (forall kv', kv' ∈ l -> Compare kv.1 kv'.1 < 0) -> sorted_kvs (kv :: l).
Proof.
  intros Hv Hl Hlt. apply (sorted_kvs_app [kv] l); [by apply sorted_kvs_one|done|].
  intros x y ->%list_elem_of_singleton Hy. by apply Hlt.
Qed.

Lemma sorted_kvs_app_inv l1 l2 :
  sorted_kvs (l1 ++ l2) -> sorted_kvs l1 /\ sorted_kvs l2 /\
  (forall kv kv', kv ∈ l1 -> kv' ∈ l2 -> Compare kv.1 kv'.1 < 0).
Proof.
  intros [Hv Hs]. apply Forall_app in Hv as [Hv1 Hv2]. split_and!.
  - split; [done|]. intros i j kv kv' Hij Hi Hj. apply (Hs i j); [done|by apply lookup_app_l_Some..].
  - split; [done|]. intros i j kv kv' Hij Hi Hj. apply (Hs (length l1 + i) (length l1 + j))%nat; [lia|..];
      rewrite lookup_app_r by lia; by rewrite Nat.add_sub_swap, Nat.sub_diag by lia.
  - intros kv kv' [i Hi]%list_elem_of_lookup [j Hj]%list_elem_of_lookup.
    apply lookup_lt_Some in Hi as Hl. apply (Hs i (length l1 + j))%nat; [lia|by apply lookup_app_l_Some|].
    rewrite lookup_app_r by lia. by rewrite Nat.add_sub_swap, Nat.sub_diag by lia.
Qed.
End Sorted.

(** A search in sorted entries splits them. *)
Lemma seek_split {C : Comparator} {L : ComparatorLaws C} l k : sorted_kvs l -> valid_key k ->
  exists l1 l2, l = l1 ++ l2 /\ base.filter (fun kv => Compare kv.1 k < 0) l = l1 /\
    (forall kv, kv ∈ l1 -> Compare kv.1 k < 0) /\ (forall kv, kv ∈ l2 -> ~ Compare kv.1 k < 0).
Proof.
  intros Hs Hk. induction l as [|x l IH].
  - exists [], []. split_and!; [done|done|by intros ? ?%not_elem_of_nil..].
  - pose proof Hs as [Hv _]. apply Forall_cons in Hv as [Hx Hv]. rewrite Forall_forall in Hv.
    apply (sorted_kvs_app_inv [x] l) in Hs as (_ & Hl & Hlt).
    destruct (decide (Compare x.1 k < 0)) as [Hlo|Hhi].
    + destruct (IH Hl) as (l1 & l2 & -> & Hf & H1 & H2). exists (x :: l1), l2.
      rewrite filter_cons_True by done. split_and!; [done|by rewrite Hf| |done].
      intros kv [->|Hkv]%elem_of_cons; auto.
    + assert (Hall : forall kv, kv ∈ x :: l -> ~ Compare kv.1 k < 0).
      { intros kv [->|Hkv]%elem_of_cons; [done|]. intros Hlt'. apply Hhi.
        apply (cmp_lt_le_trans _ kv.1); [done|by apply Hv|done|apply Hlt; [by left|done]|lia]. }
      exists [], (x :: l). split_and!; [done|by apply filter_none|by intros ? ?%not_elem_of_nil|done].
Qed.

(** ** An index over blocks *)

(** The key of each index entry is at or above its block and below the blocks
    after it. *)
Record block_index `{!Comparator} (index : list (bytes * bytes)) (groups : list (list (bytes * bytes))) : Prop := {
  ix_length : length index = length groups;
  ix_sorted : sorted_kvs index;
  ix_entries : sorted_kvs (concat groups);
  ix_above : forall j e g kv, index !! j = Some e -> groups !! j = Some g -> kv ∈ g -> Compare kv.1 e.1 <= 0;
  ix_below : forall j j' e g kv, (j < j')%nat -> index !! j = Some e -> groups !! j' = Some g -> kv ∈ g ->
    Compare e.1 kv.1 < 0
}.

Section Index.
Context {C : Comparator} {L : ComparatorLaws C} (index : list (bytes * bytes)) (groups : list (list (bytes * bytes))).
Context (Hix : block_index index groups).

Abbreviation below k := (base.filter (fun kv : bytes * bytes => Compare kv.1 k < 0)).

Lemma index_valid j e : index !! j = Some e -> valid_key e.1.
Proof. intros He. destruct (ix_sorted _ _ Hix) as [Hv _]. exact (Forall_lookup_1 _ _ _ _ Hv He). Qed.

Lemma entry_valid j g kv : groups !! j = Some g -> kv ∈ g -> valid_key kv.1.
Proof.
  intros Hj Hkv. destruct (ix_entries _ _ Hix) as [Hv _]. rewrite Forall_forall in Hv. apply Hv, elem_of_concat.
  exists g. split; [by eapply list_elem_of_lookup_2|done].
Qed.

Lemma index_of j g : groups !! j = Some g -> exists e, index !! j = Some e.
Proof. intros Hj. apply lookup_lt_is_Some_2. rewrite (ix_length _ _ Hix). by eapply lookup_lt_Some. Qed.

(** An entry of a block whose index key is below [k] is below [k]. *)
Lemma block_below k j e g kv : valid_key k -> index !! j = Some e -> Compare e.1 k < 0 -> groups !! j = Some g ->
  kv ∈ g -> Compare kv.1 k < 0.
Proof.
  intros Hk He Hlt Hg Hkv. apply (cmp_le_lt_trans _ e.1);
    [by eapply entry_valid|by eapply index_valid|done|by eapply ix_above|done].
Qed.

(** All index keys are below [k]: so are all entries. *)
Lemma seek_past k : valid_key k -> length (below k index) = length groups -> below k (concat groups) = concat groups.
Proof.
  intros Hk Hn. destruct (seek_split index k (ix_sorted _ _ Hix) Hk) as (l1 & l2 & Hl & Hf & H1 & _).
  assert (Hl2 : l2 = []).
  { apply (f_equal length) in Hl. rewrite length_app, (ix_length _ _ Hix), <- Hf, Hn in Hl. destruct l2; [done|simpl in Hl; lia]. }
  rewrite <- (app_nil_r (concat groups)) at 1. apply filter_split; [|by intros ? ?%not_elem_of_nil].
  intros kv (g & [j Hj]%list_elem_of_lookup & Hkv)%elem_of_concat. destruct (index_of j g Hj) as [e He].
  apply (block_below k j e g); [done|done| |done|done]. apply H1. rewrite Hl2, app_nil_r in Hl. rewrite <- Hl.
  by eapply list_elem_of_lookup_2.
Qed.

(** The first index key not below [k] is that of the block where [k] belongs. *)
Lemma seek_block k j g : valid_key k -> length (below k index) = j -> groups !! j = Some g ->
  exists e, index !! j = Some e /\ ~ Compare e.1 k < 0 /\
    below k (concat groups) = concat (take j groups) ++ below k g.
Proof.
  intros Hk Hn Hj. destruct (seek_split index k (ix_sorted _ _ Hix) Hk) as (l1 & l2 & Hl & Hf & H1 & H2).
  rewrite Hf in Hn. destruct (index_of j g Hj) as [e He]. exists e. split; [done|].
  assert (Hkey : ~ Compare e.1 k < 0).
  { apply H2. rewrite Hl, lookup_app_r in He by lia. by eapply list_elem_of_lookup_2. }
  split; [done|]. rewrite <- (take_drop_middle groups j g Hj) at 1. rewrite concat_app. cbn [concat]. rewrite !filter_app.
  rewrite (filter_none _ (concat (drop (S j) groups))), app_nil_r.
  2: { intros kv (gi & [i Hi]%list_elem_of_lookup & Hkv)%elem_of_concat Hlt. rewrite lookup_drop in Hi. apply Hkey.
    apply (cmp_lt_le_trans _ kv.1); [by eapply index_valid|by eapply entry_valid|done| |lia].
    by apply (ix_below _ _ Hix j (S j + i) e gi); [lia|..]. }
  f_equal. rewrite <- (app_nil_r (concat (take j groups))) at 1. apply filter_split; [|by intros ? ?%not_elem_of_nil].
  intros kv (gi & [i Hi]%list_elem_of_lookup & Hkv)%elem_of_concat. apply lookup_take_Some in Hi as [Hi Hij].
  destruct (index_of i gi Hi) as [ei Hei]. apply (block_below k i ei gi); [done|done| |done|done].
  apply H1. rewrite Hl, lookup_app_l in Hei by lia. by eapply list_elem_of_lookup_2.
Qed.
End Index.
