(* ===== verification/TwoLevel.v ===== *)
(** * TwoLevel: the iterator over an index of blocks

    src/LSM-EBF/table/two_level_iterator.cc and iterator_wrapper.h.  The index
    iterator and the iterators of the blocks are any implementations of the
    interface [Iterator]; the block function reads and updates an environment
    (for a table, its file and the block cache).  If the index and the blocks
    obey the cursor contract, the two-level iterator is a cursor over the
    entries of all blocks. *)
From S2P Require Import Prelude Coding Status Comparator TableFormat Block Iterators.

(** ** [IteratorWrapper]: an iterator with its validity and key cached *)

Record Wrapper (I : Type) := MkWrapper { w_iter : option I; w_valid : bool; w_key : bytes }.
Arguments MkWrapper {I}.
Arguments w_iter {I}.
Arguments w_valid {I}.
Arguments w_key {I}.

Section Wrapper.
Context {I : Type} `{!Iterator I}.

Definition Update (w : Wrapper I) (it : I) : Wrapper I :=
  MkWrapper (Some it) (iValid it) (if iValid it then ikey it else w_key w).

Definition wrap_Set (w : Wrapper I) (it : option I) : Wrapper I :=
  match it with None => MkWrapper None false (w_key w) | Some it => Update w it end.

(** [IteratorWrapper(iter)]. *)
Definition wrap_new (it : option I) : Wrapper I := wrap_Set (MkWrapper None false []) it.

(** A null iterator is asserted against. *)
Definition wrap_step (w : Wrapper I) (op : iter_op) : option (Wrapper I) :=
  it ← w_iter w; it ← istep it op; Some (Update w it).

Definition wrap_value (w : Wrapper I) : bytes := match w_iter w with Some it => ivalue it | None => [] end.
Definition wrap_status (w : Wrapper I) : Status := match w_iter w with Some it => istatus it | None => Status_OK end.

(** The wrapper of an iterator that stands on entry [i]. *)
Definition wrap_at (at_ : I -> nat -> Prop) (w : Wrapper I) (i : nat) : Prop :=
  exists it, w_iter w = Some it /\ at_ it i /\ w_valid w = iValid it /\ (iValid it = true -> w_key w = ikey it).

Lemma Update_at at_ w it i : at_ it i -> wrap_at at_ (Update w it) i.
Proof. intros Hat. exists it. split_and!; try done. simpl. by intros ->. Qed.

Lemma wrap_step_at `{!Comparator} kvs at_ w i op i' : cursor_over kvs at_ -> wrap_at at_ w i -> op_ok op ->
  cursor_step kvs i op = Some i' -> exists w', wrap_step w op = Some w' /\ wrap_at at_ w' i'.
Proof.
  intros Hc (it & Hw & Hat & _) Hop Hst. destruct (cur_step _ _ Hc it i op i' Hat Hop Hst) as (it' & Hit & Hat').
  unfold wrap_step. rewrite Hw. cbn [mbind option_bind]. rewrite Hit. cbn [mbind option_bind].
  eexists. split; [done|]. by apply Update_at.
Qed.

Lemma wrap_at_shows `{!Comparator} kvs at_ w i : cursor_over kvs at_ -> wrap_at at_ w i ->
  wrap_status w = Status_OK /\ is_Some (w_iter w) /\
  match kvs !! i with
  | Some (k, v) => w_valid w = true /\ w_key w = k /\ wrap_value w = v
  | None => w_valid w = false
  end.
Proof.
  intros Hc (it & Hw & Hat & Hv & Hk). destruct (cur_shows _ _ Hc it i Hat) as [Hs Hm].
  unfold wrap_status, wrap_value. rewrite Hw, Hv. split_and!; [done|by eexists|].
  destruct (kvs !! i) as [[k v]|]; [|done]. destruct Hm as (Hval & <- & <-). auto.
Qed.
End Wrapper.

(** ** [TwoLevelIterator] *)

Section TwoLevel.
Context {I J E : Type} `{!Iterator I, !Iterator J}.
Context (block_function : E -> bytes -> J * E) (fuel : nat).

Record TwoLevelIterator := MkTwoLevel {
  tl_env : E;
  tl_status : Status;
  index_iter_ : Wrapper I;
  data_iter_ : Wrapper J;
  data_block_handle_ : bytes
}.

Definition NewTwoLevelIterator (e : E) (index_iter : I) : TwoLevelIterator :=
  MkTwoLevel e Status_OK (wrap_new (Some index_iter)) (wrap_new None) [].

Definition tl_Valid (t : TwoLevelIterator) : bool := w_valid (data_iter_ t).
Definition tl_key (t : TwoLevelIterator) : bytes := w_key (data_iter_ t).
Definition tl_value (t : TwoLevelIterator) : bytes := wrap_value (data_iter_ t).

Definition tl_get_status (t : TwoLevelIterator) : Status :=
  if negb (ok (wrap_status (index_iter_ t))) then wrap_status (index_iter_ t)
  else match w_iter (data_iter_ t) with
       | Some it => if negb (ok (istatus it)) then istatus it else tl_status t
       | None => tl_status t
       end.

Definition with_index (t : TwoLevelIterator) (w : Wrapper I) : TwoLevelIterator :=
  MkTwoLevel (tl_env t) (tl_status t) w (data_iter_ t) (data_block_handle_ t).

Definition with_data (t : TwoLevelIterator) (w : Wrapper J) : TwoLevelIterator :=
  MkTwoLevel (tl_env t) (tl_status t) (index_iter_ t) w (data_block_handle_ t).

Definition SaveError (t : TwoLevelIterator) (s : Status) : TwoLevelIterator :=
  if ok (tl_status t) && negb (ok s)
  then MkTwoLevel (tl_env t) s (index_iter_ t) (data_iter_ t) (data_block_handle_ t) else t.

Definition SetDataIterator (t : TwoLevelIterator) (it : option J) : TwoLevelIterator :=
  let t := match w_iter (data_iter_ t) with Some old => SaveError t (istatus old) | None => t end in
  with_data t (wrap_Set (data_iter_ t) it).

Definition InitDataBlock (t : TwoLevelIterator) : TwoLevelIterator :=
  if negb (w_valid (index_iter_ t)) then SetDataIterator t None
  else
    let handle := wrap_value (index_iter_ t) in
    if match w_iter (data_iter_ t) with
       | Some _ => Slice_compare handle (data_block_handle_ t) =? 0
       | None => false
       end
    then t
    else
      let '(it, e) := block_function (tl_env t) handle in
      SetDataIterator (MkTwoLevel e (tl_status t) (index_iter_ t) (data_iter_ t) handle) (Some it).

(** [if (data_iter_.iter() != NULL) data_iter_.op()]. *)
Definition data_move (t : TwoLevelIterator) (op : iter_op) : option TwoLevelIterator :=
  match w_iter (data_iter_ t) with
  | None => Some t
  | Some _ => w ← wrap_step (data_iter_ t) op; Some (with_data t w)
  end.

Definition index_move (t : TwoLevelIterator) (op : iter_op) : option TwoLevelIterator :=
  w ← wrap_step (index_iter_ t) op; Some (with_index t w).

(** The two loops that skip empty blocks: [move] is [Next] or [Prev] of the
    index and [seek] the end of the block entered. *)
Fixpoint SkipEmptyDataBlocks (n : nat) (move seek : iter_op) (t : TwoLevelIterator) : option TwoLevelIterator :=
  match n with
  | O => None
  | S n =>
      if match w_iter (data_iter_ t) with None => true | Some _ => negb (w_valid (data_iter_ t)) end then
        if negb (w_valid (index_iter_ t)) then Some (SetDataIterator t None)
        else
          t ← index_move t move;
          t ← data_move (InitDataBlock t) seek;
          SkipEmptyDataBlocks n move seek t
      else Some t
  end.

Definition SkipEmptyDataBlocksForward := SkipEmptyDataBlocks fuel OpNext OpFirst.
Definition SkipEmptyDataBlocksBackward := SkipEmptyDataBlocks fuel OpPrev OpLast.

Definition tl_Seek (t : TwoLevelIterator) (target : bytes) : option TwoLevelIterator :=
  t ← index_move t (OpSeek target); t ← data_move (InitDataBlock t) (OpSeek target);
  SkipEmptyDataBlocksForward t.

Definition tl_SeekToFirst (t : TwoLevelIterator) : option TwoLevelIterator :=
  t ← index_move t OpFirst; t ← data_move (InitDataBlock t) OpFirst; SkipEmptyDataBlocksForward t.

Definition tl_SeekToLast (t : TwoLevelIterator) : option TwoLevelIterator :=
  t ← index_move t OpLast; t ← data_move (InitDataBlock t) OpLast; SkipEmptyDataBlocksBackward t.

Definition tl_Next (t : TwoLevelIterator) : option TwoLevelIterator :=
  w ← wrap_step (data_iter_ t) OpNext; SkipEmptyDataBlocksForward (with_data t w).

Definition tl_Prev (t : TwoLevelIterator) : option TwoLevelIterator :=
  w ← wrap_step (data_iter_ t) OpPrev; SkipEmptyDataBlocksBackward (with_data t w).

Definition tl_step (t : TwoLevelIterator) (op : iter_op) : option TwoLevelIterator :=
  match op with
  | OpFirst => tl_SeekToFirst t
  | OpLast => tl_SeekToLast t
  | OpSeek target => tl_Seek t target
  | OpNext => tl_Next t
  | OpPrev => tl_Prev t
  end.

Definition TwoLevel_Iterator : Iterator TwoLevelIterator := {|
  iValid := tl_Valid; ikey := tl_key; ivalue := tl_value; istatus := tl_get_status; istep := tl_step
|}.
End TwoLevel.

(** ** The two-level iterator is a cursor over all blocks *)

Section Refinement.
Context {C : Comparator} {L : ComparatorLaws C} {I J E : Type} `{!Iterator I, !Iterator J}.
Context (block_function : E -> bytes -> J * E) (fuel : nat).
Context (index : list (bytes * bytes)) (groups : list (list (bytes * bytes))).
Context (iat : I -> nat -> Prop) (dat : nat -> J -> nat -> Prop) (env_ok : E -> Prop).

(** What the index and the block function promise: an index entry opens its
    block, and blocks have different handles. *)
Record two_level_ok : Prop := {
  tw_index : cursor_over index iat;
  tw_block : forall j g, groups !! j = Some g -> cursor_over g (dat j);
  tw_blocks : block_index index groups;
  tw_open : forall e j k h, env_ok e -> index !! j = Some (k, h) ->
    exists it e' o, block_function e h = (it, e') /\ env_ok e' /\ dat j it o;
  tw_handles : forall i j k k' h, index !! i = Some (k, h) -> index !! j = Some (k', h) -> i = j;
  tw_fuel : (length groups + 2 <= fuel)%nat
}.

Context (Hok : two_level_ok).

Abbreviation kvs := (concat groups).
Abbreviation base j := (length (concat (take j groups))).
Abbreviation iter := (@TwoLevelIterator I J E).

(** The data iterator, when there is one, is open on some block. *)
Definition data_open (t : iter) : Prop :=
  w_iter (data_iter_ t) = None \/
  exists j k o, index !! j = Some (k, data_block_handle_ t) /\ wrap_at (dat j) (data_iter_ t) o.

(** The index stands on entry [j]; no error so far. *)
Definition index_on (t : iter) (j : nat) : Prop :=
  env_ok (tl_env t) /\ tl_status t = Status_OK /\ wrap_at iat (index_iter_ t) j.

(** The index stands on block [j] and the data iterator on its entry [o]. *)
Definition in_block (t : iter) (j o : nat) : Prop :=
  index_on t j /\ exists k, index !! j = Some (k, data_block_handle_ t) /\ wrap_at (dat j) (data_iter_ t) o.

(** Not on any block. *)
Definition past_blocks (t : iter) (j : nat) : Prop :=
  index_on t j /\ w_iter (data_iter_ t) = None /\ w_valid (data_iter_ t) = false.

Definition tl_at (t : iter) (p : nat) : Prop :=
  (exists j g o, groups !! j = Some g /\ (o < length g)%nat /\ p = (base j + o)%nat /\ in_block t j o) \/
  (p = length kvs /\ exists j, past_blocks t j).

Lemma group_of j e : index !! j = Some e -> exists g, groups !! j = Some g.
Proof.
  intros Hj. apply lookup_lt_is_Some_2. rewrite <- (ix_length _ _ (tw_blocks Hok)). by eapply lookup_lt_Some.
Qed.

Lemma base_S j g : groups !! j = Some g -> base (S j) = (base j + length g)%nat.
Proof. intros Hj. by rewrite (take_S_r _ _ _ Hj), concat_app, length_app, concat_cons, app_nil_r. Qed.

Lemma kvs_split j g : groups !! j = Some g -> kvs = concat (take j groups) ++ g ++ concat (drop (S j) groups).
Proof. intros Hj. rewrite <- (take_drop_middle groups j g Hj) at 1. by rewrite concat_app. Qed.

Lemma data_open_in t j o : in_block t j o -> data_open t.
Proof. intros (_ & k & Hk & Hd). right. by exists j, k, o. Qed.

Lemma SetDataIterator_status t it : tl_status t = Status_OK -> data_open t ->
  SetDataIterator t it = with_data t (wrap_Set (data_iter_ t) it).
Proof.
  intros Hs Hd. unfold SetDataIterator, SaveError. rewrite Hs. destruct Hd as [->|(j & k & o & Hj & Hd)]; [done|].
  destruct (group_of j _ Hj) as [g Hg]. destruct (wrap_at_shows g _ _ _ (tw_block Hok j g Hg) Hd) as (Hst & [it' Hit] & _).
  unfold wrap_status in Hst. by rewrite Hit, Hst in *.
Qed.

Lemma set_past t j : index_on t j -> data_open t -> past_blocks (SetDataIterator t None) j.
Proof. intros Hj Hd. pose proof Hj as (_ & Hs & _). by rewrite SetDataIterator_status. Qed.

(** [InitDataBlock] on a valid index entry opens its block. *)
Lemma InitDataBlock_block t j e : index_on t j -> data_open t -> index !! j = Some e ->
  exists o, in_block (InitDataBlock block_function t) j o.
Proof.
  intros Ht Hd Hj. pose proof Ht as (He & Hs & Hi). destruct e as [k h].
  destruct (wrap_at_shows index iat _ _ (tw_index Hok) Hi) as (_ & _ & Hv). rewrite Hj in Hv. destruct Hv as (Hval & _ & Hh).
  unfold InitDataBlock. rewrite Hval, Hh. cbn [negb].
  assert (Hsame : (exists o, in_block t j o) \/
    (match w_iter (data_iter_ t) with Some _ => Slice_compare h (data_block_handle_ t) =? 0 | None => false end) = false).
  { destruct Hd as [->|(j' & k' & o & Hj' & Hd)]; [by right|]. destruct Hd as (it & Hit & Hd).
    rewrite Hit, Slice_compare_lex. destruct (Z.eqb_spec (lex h (data_block_handle_ t)) 0) as [E0%lex_eq|]; [|by right].
    left. exists o. split; [done|]. rewrite E0 in Hj. exists k. split; [done|].
    rewrite (tw_handles Hok _ _ _ _ _ Hj Hj'). exists it. by destruct Hd. }
  destruct (match w_iter (data_iter_ t) with Some _ => _ | None => _ end) eqn:Hcmp.
  - by destruct Hsame.
  - clear Hsame. destruct (tw_open Hok (tl_env t) j k h He Hj) as (it & e' & o & -> & He' & Hdat).
    assert (Hst : SetDataIterator (MkTwoLevel e' (tl_status t) (index_iter_ t) (data_iter_ t) h) (Some it)
      = with_data (MkTwoLevel e' (tl_status t) (index_iter_ t) (data_iter_ t) h) (Update (data_iter_ t) it)).
    { unfold SetDataIterator, SaveError. cbn [data_iter_ tl_status]. rewrite Hs.
      destruct Hd as [->|(j' & k' & o' & Hj' & Hd)]; [done|]. destruct (group_of j' _ Hj') as [g Hg].
      destruct (wrap_at_shows g _ _ _ (tw_block Hok j' g Hg) Hd) as (Hst & [it' Hit] & _).
      unfold wrap_status in Hst. by rewrite Hit, Hst in *. }
    rewrite Hst. exists o. split; [done|]. exists k. split; [done|]. by apply Update_at.
Qed.

Lemma InitDataBlock_past t j : index_on t j -> data_open t -> index !! j = None -> past_blocks (InitDataBlock block_function t) j.
Proof.
  intros Ht Hd Hj. pose proof Ht as (He & Hs & Hi).
  destruct (wrap_at_shows index iat _ _ (tw_index Hok) Hi) as (_ & _ & Hv). rewrite Hj in Hv.
  unfold InitDataBlock. rewrite Hv. by apply set_past.
Qed.

Lemma index_move_on t j op j' : index_on t j -> op_ok op -> cursor_step index j op = Some j' ->
  exists t', index_move t op = Some t' /\ index_on t' j' /\ data_iter_ t' = data_iter_ t /\
    data_block_handle_ t' = data_block_handle_ t.
Proof.
  intros (He & Hs & Hi) Hop Hst. destruct (wrap_step_at _ _ _ _ _ _ (tw_index Hok) Hi Hop Hst) as (w & Hw & Hat).
  unfold index_move. rewrite Hw. cbn [mbind option_bind]. eexists. split; [done|]. done.
Qed.

Lemma data_move_in t j g o op o' : in_block t j o -> groups !! j = Some g -> op_ok op -> cursor_step g o op = Some o' ->
  exists t', data_move t op = Some t' /\ in_block t' j o'.
Proof.
  intros (Ht & k & Hk & Hd) Hg Hop Hst. destruct (wrap_step_at _ _ _ _ _ _ (tw_block Hok j g Hg) Hd Hop Hst) as (w & Hw & Hat).
  destruct Hd as (it & Hit & _). unfold data_move. rewrite Hit, Hw. cbn [mbind option_bind].
  eexists. split; [done|]. split; [done|]. by exists k.
Qed.

(** Moving the index and entering its block. *)
Lemma enter t i op j : index_on t i -> data_open t -> op_ok op -> cursor_step index i op = Some j ->
  exists t', index_move t op = Some t' /\
    ((exists g o, groups !! j = Some g /\ in_block (InitDataBlock block_function t') j o) \/
     (index !! j = None /\ past_blocks (InitDataBlock block_function t') j)).
Proof.
  intros Ht Hd Hop Hst. destruct (index_move_on t i op j Ht Hop Hst) as (t' & Hm & Ht' & Hdi & Hh).
  exists t'. split; [done|]. assert (Hd' : data_open t') by (unfold data_open in *; by rewrite Hdi, Hh).
  destruct (index !! j) as [e|] eqn:Hj.
  - left. destruct (group_of j e Hj) as [g Hg]. destruct (InitDataBlock_block t' j e Ht' Hd' Hj) as [o Ho]. by exists g, o.
  - right. split; [done|]. by apply InitDataBlock_past.
Qed.

Lemma skip_past n move seek t j : past_blocks t j -> index !! j = None -> (0 < n)%nat ->
  exists t', SkipEmptyDataBlocks block_function n move seek t = Some t' /\ past_blocks t' j.
Proof.
  intros (Ht & Hn & Hv) Hj Hpos. destruct n as [|n]; [lia|]. cbn [SkipEmptyDataBlocks]. rewrite Hn.
  pose proof Ht as (_ & _ & Hi). destruct (wrap_at_shows index iat _ _ (tw_index Hok) Hi) as (_ & _ & Hiv).
  rewrite Hj in Hiv. rewrite Hiv. cbn [negb]. eexists. split; [done|]. apply set_past; [done|by left].
Qed.

(** The test of the loop. *)
Lemma in_block_loop t j g o : in_block t j o -> groups !! j = Some g -> (o <= length g)%nat ->
  match w_iter (data_iter_ t) with None => true | Some _ => negb (w_valid (data_iter_ t)) end
  = negb (bool_decide (o < length g)%nat) /\ w_valid (index_iter_ t) = true.
Proof.
  intros ((_ & _ & Hi) & k & Hk & Hd) Hg Ho.
  destruct (wrap_at_shows g _ _ _ (tw_block Hok j g Hg) Hd) as (_ & [it ->] & Hv).
  destruct (wrap_at_shows index iat _ _ (tw_index Hok) Hi) as (_ & _ & Hiv). rewrite Hk in Hiv. split; [|apply Hiv].
  destruct (g !! o) as [[k' v]|] eqn:Hl.
  - destruct Hv as [-> _]. apply lookup_lt_Some in Hl. by rewrite bool_decide_true.
  - apply lookup_ge_None in Hl. by rewrite Hv, bool_decide_false by lia.
Qed.

Lemma skip_forward n : forall t j g o, in_block t j o -> groups !! j = Some g -> (o <= length g)%nat ->
  (length groups - j + 1 <= n)%nat ->
  exists t', SkipEmptyDataBlocks block_function n OpNext OpFirst t = Some t' /\ tl_at t' (base j + o).
Proof.
  induction n as [|n IH]; intros t j g o Hin Hg Ho Hn; [lia|]. cbn [SkipEmptyDataBlocks].
  destruct (in_block_loop t j g o Hin Hg Ho) as [-> Hiv]. case_bool_decide as Hlt; cbn [negb].
  { exists t. split; [done|]. left. by exists j, g, o. }
  assert (o = length g) as -> by lia. rewrite Hiv. cbn [negb]. pose proof Hin as (Ht & k & Hk & _).
  apply lookup_lt_Some in Hk as Hlk. apply lookup_lt_Some in Hg as Hlg.
  destruct (enter t j OpNext (S j) Ht (data_open_in _ _ _ Hin) Logic.I) as (t1 & -> & Henter).
  { simpl. by rewrite (proj2 (Nat.ltb_lt _ _) Hlk). }
  cbn [mbind option_bind]. rewrite <- (base_S j g Hg). destruct Henter as [(g' & o' & Hg' & Hin')|[Hnone Hpast]].
  - destruct (data_move_in _ _ g' o' OpFirst 0 Hin' Hg' Logic.I eq_refl) as (t2 & -> & Hin2). cbn [mbind option_bind].
    rewrite <- (Nat.add_0_r (base (S j))). apply lookup_lt_Some in Hg' as Hl'. by apply (IH t2 (S j) g' 0%nat Hin2 Hg'); lia.
  - unfold data_move. pose proof Hpast as (_ & -> & _). cbn [mbind option_bind].
    destruct (skip_past n OpNext OpFirst _ (S j) Hpast Hnone ltac:(lia)) as (t2 & -> & Hp2).
    exists t2. split; [done|]. right. split; [|by exists (S j)].
    apply lookup_ge_None in Hnone. rewrite (ix_length _ _ (tw_blocks Hok)) in Hnone. by rewrite take_ge by lia.
Qed.

(** The entry before block [j]. *)
Definition before (j : nat) : nat := if (base j =? 0)%nat then length kvs else (base j - 1)%nat.

Lemma skip_backward n : forall t j g, in_block t j (length g) -> groups !! j = Some g -> (j + 2 <= n)%nat ->
  exists t', SkipEmptyDataBlocks block_function n OpPrev OpLast t = Some t' /\ tl_at t' (before j).
Proof.
  induction n as [|n IH]; intros t j g Hin Hg Hn; [lia|]. cbn [SkipEmptyDataBlocks].
  destruct (in_block_loop t j g (length g) Hin Hg ltac:(lia)) as [-> Hiv]. rewrite bool_decide_false, Hiv by lia. cbn [negb].
  pose proof Hin as (Ht & k & Hk & _). apply lookup_lt_Some in Hk as Hlk.
  destruct (enter t j OpPrev (if (j =? 0)%nat then length index else j - 1)%nat Ht (data_open_in _ _ _ Hin) Logic.I)
    as (t1 & -> & Henter); [simpl; by rewrite (proj2 (Nat.ltb_lt _ _) Hlk)|].
  cbn [mbind option_bind]. unfold before. destruct (Nat.eqb_spec j 0) as [->|Hj0].
  - destruct Henter as [(g' & o' & Hg' & _)|[Hnone Hpast]].
    { apply lookup_lt_Some in Hg'. rewrite <- (ix_length _ _ (tw_blocks Hok)) in Hg'. lia. }
    unfold data_move. pose proof Hpast as (_ & -> & _). cbn [mbind option_bind].
    destruct (skip_past n OpPrev OpLast _ (length index) Hpast Hnone ltac:(lia)) as (t2 & -> & Hp2).
    exists t2. split; [done|]. right. split; [done|]. by exists (length index).
  - destruct Henter as [(g' & o' & Hg' & Hin')|[Hnone _]]; [|apply lookup_ge_None in Hnone; lia].
    destruct (data_move_in _ _ g' o' OpLast (length g' - 1) Hin' Hg' Logic.I eq_refl) as (t2 & -> & Hin2). cbn [mbind option_bind].
    pose proof (base_S (j - 1) g' Hg') as Hb. replace (S (j - 1)) with j in Hb by lia.
    destruct (Nat.eq_dec (length g') 0) as [H0|Hpos].
    + replace (length g' - 1)%nat with (length g') in Hin2 by lia. rewrite Hb, H0, Nat.add_0_r.
      apply (IH t2 (j - 1)%nat g'); [done|done|lia].
    + rewrite Hb, (proj2 (Nat.eqb_neq _ 0)) by lia.
      destruct n as [|n]; [lia|]. cbn [SkipEmptyDataBlocks].
      destruct (in_block_loop t2 (j - 1) g' (length g' - 1) Hin2 Hg' ltac:(lia)) as [-> _].
      rewrite bool_decide_true by lia. cbn [negb]. exists t2. split; [done|]. left. exists (j - 1)%nat, g', (length g' - 1)%nat.
      split_and!; [done|lia|lia|done].
Qed.

Lemma tl_at_index t p : tl_at t p -> exists j, index_on t j /\ data_open t.
Proof.
  intros [(j & g & o & _ & _ & _ & Hin)|[_ [j Hp]]]; exists j.
  - split; [apply Hin|by eapply data_open_in].
  - split; [apply Hp|left; apply Hp].
Qed.

(** Entering a block, a first move there, then skipping forward. *)
Lemma enter_forward t p op dop j : tl_at t p -> op_ok op -> op_ok dop ->
  (forall i, cursor_step index i op = Some j) ->
  (forall g o, groups !! j = Some g -> exists o', cursor_step g o dop = Some o' /\ (o' <= length g)%nat) ->
  exists t', (t ← index_move t op; t ← data_move (InitDataBlock block_function t) dop;
              SkipEmptyDataBlocksForward block_function fuel t) = Some t' /\
    match groups !! j with
    | Some g => exists o o', cursor_step g o dop = Some o' /\ tl_at t' (base j + o')
    | None => tl_at t' (length kvs)
    end.
Proof.
  intros Hat Hop Hdop Hst Hin0. destruct (tl_at_index t p Hat) as (i & Ht & Hd).
  destruct (enter t i op j Ht Hd Hop (Hst i)) as (t1 & -> & Henter). cbn [mbind option_bind].
  pose proof (tw_fuel Hok) as Hf. destruct Henter as [(g & o & Hg & Hin)|[Hnone Hpast]].
  - rewrite Hg. destruct (Hin0 g o Hg) as (o' & Ho' & Hle).
    destruct (data_move_in _ j g o dop o' Hin Hg Hdop Ho') as (t2 & -> & Hin2). cbn [mbind option_bind].
    destruct (skip_forward fuel t2 j g o' Hin2 Hg Hle ltac:(lia)) as (t3 & E3 & Hat3).
    unfold SkipEmptyDataBlocksForward. rewrite E3. exists t3. split; [done|]. by exists o, o'.
  - unfold data_move. pose proof Hpast as (_ & -> & _). cbn [mbind option_bind].
    destruct (skip_past fuel OpNext OpFirst _ j Hpast Hnone ltac:(lia)) as (t2 & E2 & Hp2).
    unfold SkipEmptyDataBlocksForward. rewrite E2. exists t2. split; [done|].
    apply lookup_ge_None in Hnone. rewrite (ix_length _ _ (tw_blocks Hok)) in Hnone.
    rewrite (proj2 (lookup_ge_None groups j) Hnone). right. split; [done|]. by exists j.
Qed.

Lemma tl_at_shows t p : tl_at t p ->
  @ishows iter (TwoLevel_Iterator block_function fuel) t kvs p.
Proof.
  intros Hat. assert (Hst : tl_get_status t = Status_OK).
  { destruct (tl_at_index t p Hat) as (j & (_ & Hs & Hi) & Hd). unfold tl_get_status.
    destruct (wrap_at_shows index iat _ _ (tw_index Hok) Hi) as (-> & _ & _). cbn [negb ok Status_OK].
    destruct Hd as [->|(j' & k' & o & Hj' & Hd)]; [done|]. destruct (group_of j' _ Hj') as [g Hg].
    destruct (wrap_at_shows g _ _ _ (tw_block Hok j' g Hg) Hd) as (Hds & [it Hit] & _).
    unfold wrap_status in Hds. rewrite Hit in Hds |- *. by rewrite Hds. }
  split; [exact Hst|]. simpl. unfold tl_Valid, tl_key, tl_value.
  destruct Hat as [(j & g & o & Hg & Ho & -> & (_ & k & Hk & Hd))|[-> [j (_ & _ & Hv)]]].
  - assert (Hl : kvs !! (base j + o)%nat = g !! o).
    { rewrite (kvs_split j g Hg) at 1. rewrite lookup_app_r, lookup_app_l by lia. f_equal. lia. }
    rewrite Hl. by destruct (wrap_at_shows g _ _ _ (tw_block Hok j g Hg) Hd) as (_ & _ & Hv).
  - by rewrite lookup_ge_None_2 by lia.
Qed.

Lemma tl_seek_at t p target : tl_at t p -> valid_key target ->
  exists t', tl_Seek block_function fuel t target = Some t' /\
    tl_at t' (length (base.filter (fun kv => Compare kv.1 target < 0) kvs)).
Proof.
  intros Hat Hk. set (j := length (base.filter (fun kv => Compare kv.1 target < 0) index)).
  destruct (enter_forward t p (OpSeek target) (OpSeek target) j Hat Hk Hk) as (t' & Ht' & Hres); [done| |].
  - intros g o _. eexists. split; [done|]. apply length_filter.
  - exists t'. split; [done|]. destruct (groups !! j) as [g|] eqn:Hg.
    + destruct Hres as (o & o' & [= <-] & Hat'). destruct (seek_block _ _ (tw_blocks Hok) target j g Hk eq_refl Hg) as (e & _ & _ & ->).
      by rewrite length_app.
    + rewrite (seek_past _ _ (tw_blocks Hok)); [done|done|]. apply lookup_ge_None in Hg.
      assert (j <= length index)%nat by apply length_filter. rewrite (ix_length _ _ (tw_blocks Hok)) in *. lia.
Qed.

Lemma tl_last_at t p : tl_at t p -> exists t', tl_SeekToLast block_function fuel t = Some t' /\ tl_at t' (length kvs - 1).
Proof.
  intros Hat. destruct (tl_at_index t p Hat) as (i & Ht & Hd). pose proof (tw_fuel Hok) as Hf.
  destruct (enter t i OpLast (length index - 1) Ht Hd Logic.I eq_refl) as (t1 & E2 & Henter).
  unfold tl_SeekToLast. rewrite E2. cbn [mbind option_bind]. clear E2. rewrite (ix_length _ _ (tw_blocks Hok)) in *.
  set (j := (length groups - 1)%nat) in *. destruct Henter as [(g & o & Hg & Hin)|[Hnone Hpast]].
  - destruct (data_move_in _ j g o OpLast (length g - 1) Hin Hg Logic.I eq_refl) as (t2 & -> & Hin2). cbn [mbind option_bind].
    apply lookup_lt_Some in Hg as Hlt. pose proof (base_S j g Hg) as Hb. rewrite (take_ge groups (S j)) in Hb by lia.
    destruct (Nat.eq_dec (length g) 0) as [H0|Hpos].
    + replace (length g - 1)%nat with (length g) in Hin2 by lia.
      destruct (skip_backward fuel t2 j g Hin2 Hg ltac:(lia)) as (t3 & E2 & Hat3). unfold SkipEmptyDataBlocksBackward. rewrite E2.
      exists t3. split; [done|]. unfold before in Hat3. destruct (Nat.eqb_spec (base j) 0).
      * by replace (length kvs - 1)%nat with (length kvs) by lia.
      * by replace (length kvs - 1)%nat with (base j - 1)%nat by lia.
    + unfold SkipEmptyDataBlocksBackward. destruct fuel as [|n]; [lia|]. cbn [SkipEmptyDataBlocks].
      destruct (in_block_loop t2 j g (length g - 1) Hin2 Hg ltac:(lia)) as [-> _].
      rewrite bool_decide_true by lia. cbn [negb]. exists t2. split; [done|]. left. exists j, g, (length g - 1)%nat.
      split_and!; [done|lia|lia|done].
  - apply lookup_ge_None in Hnone as Hlen. rewrite (ix_length _ _ (tw_blocks Hok)) in Hlen.
    unfold data_move. pose proof Hpast as (_ & -> & _). cbn [mbind option_bind].
    destruct (skip_past fuel OpPrev OpLast _ j Hpast Hnone ltac:(lia)) as (t2 & E2 & Hp2).
    unfold SkipEmptyDataBlocksBackward. rewrite E2. exists t2. split; [done|]. right.
    assert (groups = []) as -> by (destruct groups; [done|simpl in *; lia]). split; [done|]. by exists j.
Qed.

Lemma tl_first_at t p : tl_at t p -> exists t', tl_SeekToFirst block_function fuel t = Some t' /\ tl_at t' 0.
Proof.
  intros Hat. destruct (enter_forward t p OpFirst OpFirst 0 Hat Logic.I Logic.I) as (t' & Ht' & Hres); [done| |].
  - intros g o _. exists 0%nat. split; [done|lia].
  - exists t'. split; [done|]. destruct (groups !! 0%nat) as [g|] eqn:Hg; [by destruct Hres as (o & o' & [= <-] & Hat')|].
    destruct groups; [done|done].
Qed.

(** The iterator obeys the contract of its interface. *)
Lemma two_level_cursor : @cursor_over C iter (TwoLevel_Iterator block_function fuel) kvs tl_at.
Proof.
  pose proof (tw_fuel Hok) as Hf. split; [|apply tl_at_shows|].
  - intros t p [(j & g & o & Hg & Ho & -> & _)|[-> _]]; [|lia].
    rewrite (kvs_split j g Hg) at 1. rewrite !length_app. lia.
  - intros t p op p' Hat Hop Hst. destruct op as [| |target| |]; simpl in Hst |- *.
    + injection Hst as <-. by eapply tl_first_at.
    + injection Hst as <-. by eapply tl_last_at.
    + injection Hst as <-. by eapply tl_seek_at.
    + destruct (Nat.ltb_spec p (length kvs)); [|done]. injection Hst as <-.
      destruct Hat as [(j & g & o & Hg & Ho & -> & Hin)|[-> _]]; [|lia]. pose proof Hin as (Ht & k & Hk & Hd).
      destruct (wrap_step_at _ _ _ _ OpNext (S o) (tw_block Hok j g Hg) Hd Logic.I) as (w & Hw & Hat').
      { simpl. by rewrite (proj2 (Nat.ltb_lt _ _) Ho). }
      unfold tl_Next. rewrite Hw. cbn [mbind option_bind]. rewrite <- Nat.add_succ_r.
      apply (skip_forward fuel _ j g (S o)); [|done|lia|lia]. split; [done|]. by exists k.
    + destruct (Nat.ltb_spec p (length kvs)); [|done]. injection Hst as <-.
      destruct Hat as [(j & g & o & Hg & Ho & -> & Hin)|[-> _]]; [|lia]. pose proof Hin as (Ht & k & Hk & Hd).
      destruct (wrap_step_at _ _ _ _ OpPrev (if (o =? 0)%nat then length g else o - 1)%nat (tw_block Hok j g Hg) Hd Logic.I)
        as (w & Hw & Hat').
      { simpl. by rewrite (proj2 (Nat.ltb_lt _ _) Ho). }
      unfold tl_Prev. rewrite Hw. cbn [mbind option_bind]. unfold SkipEmptyDataBlocksBackward.
      assert (Hin' : in_block (with_data t w) j (if (o =? 0)%nat then length g else o - 1)%nat) by (split; [done|by exists k]).
      apply lookup_lt_Some in Hg as Hlt. destruct (Nat.eqb_spec o 0) as [->|Hne].
      * rewrite Nat.add_0_r. apply (skip_backward fuel _ j g); [done|done|lia].
      * rewrite (proj2 (Nat.eqb_neq (base j + o) 0)) by lia. destruct fuel as [|n]; [lia|]. cbn [SkipEmptyDataBlocks].
        destruct (in_block_loop _ j g (o - 1) Hin' Hg ltac:(lia)) as [-> _]. rewrite bool_decide_true by lia. cbn [negb].
        eexists. split; [done|]. left. exists j, g, (o - 1)%nat. split_and!; [done|lia|lia|done].
Qed.

Lemma two_level_new e it i : env_ok e -> iat it i -> tl_at (NewTwoLevelIterator e it) (length kvs).
Proof.
  intros He Hit. right. split; [done|]. exists i. split; [|done]. split; [done|]. split; [done|]. by apply Update_at.
Qed.
End Refinement.
