(* ===== verification/Merger.v ===== *)
(** * Merger: the iterator that merges sorted iterators

    src/LSM-EBF/table/merger.cc.  The children are any implementation of the
    interface [Iterator]; children of different classes are the cases of one
    type.  If each child obeys the cursor contract on its own entries and no key
    occurs twice, the merging iterator is a cursor over the sorted union,
    whatever the order of its forward and backward moves. *)
From S2P Require Import Prelude Coding Status Comparator TableFormat Block Iterators TwoLevel.

Inductive Direction := kForward | kReverse.

Section Code.
Context {C : Comparator} {I : Type} `{!Iterator I}.

Record MergingIterator := MkMerging {
  children_ : list (Wrapper I);
  current_ : option nat;
  direction_ : Direction
}.

Definition MergingIterator_new (children : list I) : MergingIterator :=
  MkMerging ((fun it => wrap_new (Some it)) <$> children) None kForward.

Definition mi_Valid (m : MergingIterator) : bool := match current_ m with Some _ => true | None => false end.

(** The child [current_] points to; a null pointer is asserted against. *)
Definition current_child (m : MergingIterator) : option (Wrapper I) := j ← current_ m; children_ m !! j.

Definition mi_key (m : MergingIterator) : bytes := from_option w_key [] (current_child m).
Definition mi_value (m : MergingIterator) : bytes := from_option wrap_value [] (current_child m).

(** The status of the first child that is not OK. *)
Fixpoint first_error (ws : list (Wrapper I)) (status : Status) : Status :=
  match ws with
  | [] => status
  | w :: ws => if ok (wrap_status w) then first_error ws (wrap_status w) else wrap_status w
  end.

Definition mi_status (m : MergingIterator) : Status := first_error (children_ m) Status_OK.

(** [for (int i = 0; i < n_; i++)] over the children, with their index. *)
Fixpoint for_children (f : nat -> Wrapper I -> option (Wrapper I)) (i : nat) (ws : list (Wrapper I)) : option (list (Wrapper I)) :=
  match ws with
  | [] => Some []
  | w :: ws => w ← f i w; ws ← for_children f (S i) ws; Some (w :: ws)
  end.

(** The body of the loops of [FindSmallest] and [FindLargest]: the best child so
    far with its key. *)
Definition pick (better : bytes -> bytes -> bool) (best : option (nat * bytes)) (iw : nat * Wrapper I) : option (nat * bytes) :=
  if w_valid iw.2 then
    match best with
    | None => Some (iw.1, w_key iw.2)
    | Some (_, k) => if better (w_key iw.2) k then Some (iw.1, w_key iw.2) else best
    end
  else best.

Definition FindSmallest (ws : list (Wrapper I)) : option nat :=
  fst <$> fold_left (pick (fun k best => Compare k best <? 0)) (imap pair ws) None.

Definition FindLargest (ws : list (Wrapper I)) : option nat :=
  fst <$> fold_left (pick (fun k best => 0 <? Compare k best)) (rev (imap pair ws)) None.

Definition forward (ws : list (Wrapper I)) : MergingIterator := MkMerging ws (FindSmallest ws) kForward.
Definition backward (ws : list (Wrapper I)) : MergingIterator := MkMerging ws (FindLargest ws) kReverse.

Definition mi_SeekToFirst (m : MergingIterator) : option MergingIterator :=
  ws ← for_children (fun _ w => wrap_step w OpFirst) 0 (children_ m); Some (forward ws).

Definition mi_SeekToLast (m : MergingIterator) : option MergingIterator :=
  ws ← for_children (fun _ w => wrap_step w OpLast) 0 (children_ m); Some (backward ws).

Definition mi_Seek (m : MergingIterator) (target : bytes) : option MergingIterator :=
  ws ← for_children (fun _ w => wrap_step w (OpSeek target)) 0 (children_ m); Some (forward ws).

(** The non-current children are placed after, or before, the current key. *)
Definition turn_forward (k : bytes) (j i : nat) (w : Wrapper I) : option (Wrapper I) :=
  if (i =? j)%nat then Some w
  else
    w ← wrap_step w (OpSeek k);
    if w_valid w && (Compare k (w_key w) =? 0) then wrap_step w OpNext else Some w.

Definition turn_backward (k : bytes) (j i : nat) (w : Wrapper I) : option (Wrapper I) :=
  if (i =? j)%nat then Some w
  else
    w ← wrap_step w (OpSeek k);
    if w_valid w then wrap_step w OpPrev else wrap_step w OpLast.

(** [current_->Next()] or [current_->Prev()]. *)
Definition move_current (op : iter_op) (j : nat) (ws : list (Wrapper I)) : option (list (Wrapper I)) :=
  w ← ws !! j; w ← wrap_step w op; Some (<[j := w]> ws).

Definition mi_Next (m : MergingIterator) : option MergingIterator :=
  j ← current_ m;
  ws ← (match direction_ m with
        | kForward => Some (children_ m)
        | kReverse => for_children (turn_forward (mi_key m) j) 0 (children_ m)
        end);
  ws ← move_current OpNext j ws;
  Some (forward ws).

Definition mi_Prev (m : MergingIterator) : option MergingIterator :=
  j ← current_ m;
  ws ← (match direction_ m with
        | kReverse => Some (children_ m)
        | kForward => for_children (turn_backward (mi_key m) j) 0 (children_ m)
        end);
  ws ← move_current OpPrev j ws;
  Some (backward ws).

Definition mi_step (m : MergingIterator) (op : iter_op) : option MergingIterator :=
  match op with
  | OpFirst => mi_SeekToFirst m
  | OpLast => mi_SeekToLast m
  | OpSeek target => mi_Seek m target
  | OpNext => mi_Next m
  | OpPrev => mi_Prev m
  end.

#[export] Instance Merging_Iterator : Iterator MergingIterator := {|
  iValid := mi_Valid; ikey := mi_key; ivalue := mi_value; istatus := mi_status; istep := mi_step
|}.

(** [NewMergingIterator]: no child, one child, or a merge. *)
Inductive Merged := MergedNone | MergedOne (it : I) | MergedMany (m : MergingIterator).

Definition NewMergingIterator (list : list I) : Merged :=
  match list with
  | [] => MergedNone
  | [it] => MergedOne it
  | _ => MergedMany (MergingIterator_new list)
  end.

#[export] Instance Merged_Iterator : Iterator Merged := {|
  iValid m := match m with MergedNone => false | MergedOne it => iValid it | MergedMany m => mi_Valid m end;
  ikey m := match m with MergedNone => [] | MergedOne it => ikey it | MergedMany m => mi_key m end;
  ivalue m := match m with MergedNone => [] | MergedOne it => ivalue it | MergedMany m => mi_value m end;
  istatus m := match m with MergedNone => Status_OK | MergedOne it => istatus it | MergedMany m => mi_status m end;
  istep m op :=
    match m with
    | MergedNone => Some MergedNone
    | MergedOne it => MergedOne <$> istep it op
    | MergedMany m => MergedMany <$> mi_step m op
    end
|}.
End Code.
Arguments MergingIterator : clear implicits.
Arguments Merged : clear implicits.

(** ** The best child *)

Section Best.
Context {I : Type} `{!Iterator I} (V : bytes -> Prop) (better : bytes -> bytes -> bool).
Context (Hirr : forall a, V a -> better a a = false).
Context (Htrans : forall a b c, V a -> V b -> V c -> better a b = true -> better b c = true -> better a c = true).

(** [best] is a valid child of [l] that no valid child of [l] beats. *)
Definition best_of (l : list (nat * Wrapper I)) (best : option (nat * bytes)) : Prop :=
  match best with
  | None => forall iw, iw ∈ l -> w_valid iw.2 = false
  | Some (j, k) => (exists w, (j, w) ∈ l /\ w_valid w = true /\ w_key w = k) /\
      forall iw, iw ∈ l -> w_valid iw.2 = true -> better (w_key iw.2) k = false
  end.

Lemma best_pick l iw best : (forall x, x ∈ l ++ [iw] -> w_valid x.2 = true -> V (w_key x.2)) ->
  best_of l best -> best_of (l ++ [iw]) (pick better best iw).
Proof.
  intros HV Hb. assert (Hlast : iw ∈ l ++ [iw]) by (apply elem_of_app; right; by apply list_elem_of_singleton).
  assert (Hleft : forall x, x ∈ l -> x ∈ l ++ [iw]) by (intros x Hx; apply elem_of_app; by left).
  assert (Hcase : forall x, x ∈ l ++ [iw] -> x ∈ l \/ x = iw) by (intros x; rewrite elem_of_app, list_elem_of_singleton; tauto).
  unfold pick. destruct iw as [i w]. cbn [fst snd] in *. destruct (w_valid w) eqn:Hw.
  - destruct best as [[j k]|]; cbn in Hb.
    + destruct Hb as [(wj & Hj & Hvj & <-) Hmin]. destruct (better (w_key w) (w_key wj)) eqn:Hbt; cbn.
      * split; [by exists w|]. intros x [Hx| ->]%Hcase Hvx; [|by apply Hirr, (HV (i, w))].
        destruct (better (w_key x.2) (w_key w)) eqn:Hxw; [|done].
        pose proof (Hmin x Hx Hvx) as Hno. erewrite Htrans in Hno; [done| | | |exact Hxw|exact Hbt];
          [by apply HV, Hvx; apply Hleft|by apply (HV (i, w))|by apply (HV (j, wj)); [apply Hleft|]].
      * split; [exists wj; auto|]. intros x [Hx| ->]%Hcase Hvx; [by apply Hmin|done].
    + split; [by exists w|]. intros x [Hx| ->]%Hcase Hvx; [by rewrite Hb in Hvx|by apply Hirr, (HV (i, w))].
  - destruct best as [[j k]|]; cbn in *.
    + destruct Hb as [(wj & Hj & ?) Hmin]. split; [exists wj; auto|]. intros x [Hx| ->]%Hcase Hvx; [by apply Hmin|cbn in Hvx; congruence].
    + by intros x [Hx| ->]%Hcase; [apply Hb|].
Qed.

Lemma best_fold l2 : forall l1 best, (forall x, x ∈ l1 ++ l2 -> w_valid x.2 = true -> V (w_key x.2)) ->
  best_of l1 best -> best_of (l1 ++ l2) (fold_left (pick better) l2 best).
Proof.
  induction l2 as [|x l2 IH]; intros l1 best HV Hb; [by rewrite app_nil_r|]. cbn [fold_left].
  replace (l1 ++ x :: l2) with ((l1 ++ [x]) ++ l2) in * by (by rewrite <- app_assoc).
  apply IH; [done|]. apply best_pick; [|done]. intros y Hy. apply HV. apply elem_of_app. by left.
Qed.

Lemma best_found l : (forall x, x ∈ l -> w_valid x.2 = true -> V (w_key x.2)) -> best_of l (fold_left (pick better) l None).
Proof. intros HV. apply (best_fold l []); [done|]. by intros x ?%not_elem_of_nil. Qed.
End Best.

Lemma elem_of_indexed {A} (l : list A) i x : (i, x) ∈ imap pair l <-> l !! i = Some x.
Proof.
  rewrite list_elem_of_lookup. split.
  - intros [n Hn]. rewrite list_lookup_imap in Hn. destruct (l !! n) eqn:E; [|done]. by injection Hn as -> ->.
  - intros Hi. exists i. by rewrite list_lookup_imap, Hi.
Qed.

(** ** Cutting the children at a position of the union *)

Lemma concat_owner {A} (ll : list (list A)) i j a b x : NoDup (concat ll) -> ll !! i = Some a -> ll !! j = Some b ->
  x ∈ a -> x ∈ b -> i = j.
Proof.
  revert i j. induction ll as [|l ll IH]; intros i j Hnd Hi Hj Ha Hb; [done|]. cbn in Hnd. apply NoDup_app in Hnd as (_ & Hdis & Hnd).
  assert (Hin : forall n c, ll !! n = Some c -> x ∈ c -> x ∈ concat ll).
  { intros n c Hn Hc. apply elem_of_concat. exists c. split; [by eapply list_elem_of_lookup_2|done]. }
  destruct i as [|i], j as [|j]; simpl in *; [done| | |f_equal; by eapply IH].
  - injection Hi as ->. by destruct (Hdis x Ha); eapply Hin.
  - injection Hj as ->. by destruct (Hdis x Hb); eapply Hin.
Qed.

Section Cut.
Context {C : Comparator} {L : ComparatorLaws C}.
Context (kvss : list (list (bytes * bytes))) (merged : list (bytes * bytes)).

(** [merged] is the sorted union of the children's entries; so no key occurs
    twice. *)
Record union_of : Prop := {
  un_children : Forall sorted_kvs kvss;
  un_sorted : sorted_kvs merged;
  un_perm : merged ≡ₚ concat kvss
}.
Context (Hun : union_of).

Lemma merged_order i j kv kv' : merged !! i = Some kv -> merged !! j = Some kv' -> Compare kv.1 kv'.1 < 0 -> (i < j)%nat.
Proof.
  intros Hi Hj Hlt. destruct (un_sorted Hun) as [Hv Hs]. pose proof (Forall_lookup_1 _ _ _ _ Hv Hi) as Vi.
  pose proof (Forall_lookup_1 _ _ _ _ Hv Hj) as Vj. destruct (lt_eq_lt_dec i j) as [[?| ->]|Hji]; [done| |].
  - rewrite Hi in Hj. injection Hj as <-. rewrite (cmp_refl _ Vi) in Hlt. lia.
  - pose proof (Hs j i _ _ Hji Hj Hi). pose proof (proj1 (cmp_sgn_opp _ _ Vi Vj) Hlt). lia.
Qed.

Lemma merged_nodup : NoDup merged.
Proof.
  apply NoDup_alt. intros i j kv Hi Hj. destruct (un_sorted Hun) as [Hv Hs].
  pose proof (cmp_refl _ (Forall_lookup_1 _ _ _ _ Hv Hi)) as E. destruct (lt_eq_lt_dec i j) as [[H| ->]|H]; [|done|].
  - pose proof (Hs i j _ _ H Hi Hj). lia.
  - pose proof (Hs j i _ _ H Hj Hi). lia.
Qed.

Lemma in_merged i l kv : kvss !! i = Some l -> kv ∈ l -> exists p, merged !! p = Some kv.
Proof.
  intros Hi Hkv. apply list_elem_of_lookup. rewrite (un_perm Hun). apply elem_of_concat. exists l.
  split; [by eapply list_elem_of_lookup_2|done].
Qed.

Lemma merged_valid p kv : merged !! p = Some kv -> valid_key kv.1.
Proof. intros Hp. destruct (un_sorted Hun) as [Hv _]. exact (Forall_lookup_1 _ _ _ _ Hv Hp). Qed.

Lemma in_take p q kv : merged !! q = Some kv -> kv ∈ take p merged <-> (q < p)%nat.
Proof.
  intros Hq. split.
  - intros [i Hi]%list_elem_of_lookup. apply lookup_take_Some in Hi as [Hi Hlt]. by rewrite (NoDup_lookup _ _ _ _ merged_nodup Hq Hi).
  - intros Hlt. apply list_elem_of_lookup. exists q. by apply lookup_take_Some.
Qed.

(** How many entries of a child are among the first [p] of the union. *)
Definition cut (p : nat) (l : list (bytes * bytes)) : nat := length (base.filter (fun kv => kv ∈ take p merged) l).

Lemma take_below p m : merged !! p = Some m -> forall q kv, merged !! q = Some kv -> kv ∈ take p merged <-> Compare kv.1 m.1 < 0.
Proof.
  intros Hm q kv Hq. rewrite (in_take p q kv Hq). split; [intros Hlt; by apply (proj2 (un_sorted Hun) q p)|]. by apply merged_order.
Qed.

(** A seek goes to the cut. *)
Lemma cut_seek i l k : kvss !! i = Some l -> valid_key k ->
  cut (length (base.filter (fun kv => Compare kv.1 k < 0) merged)) l = length (base.filter (fun kv => Compare kv.1 k < 0) l).
Proof.
  intros Hi Hk. unfold cut. f_equal. destruct (seek_split merged k (un_sorted Hun) Hk) as (l1 & l2 & Hl & -> & H1 & H2).
  apply filter_ext_in. intros kv Hkv. destruct (in_merged i l kv Hi Hkv) as [q Hq].
  assert (Ht : take (length l1) merged = l1) by (rewrite Hl; apply take_app_length). rewrite Ht. split; [apply H1|]. intros Hlt.
  apply list_elem_of_lookup_2 in Hq. rewrite Hl in Hq. apply elem_of_app in Hq as [?|Hq]; [done|]. by destruct (H2 kv Hq).
Qed.

Lemma cut_zero l : cut 0 l = 0%nat.
Proof. unfold cut. rewrite take_0, filter_none; [done|]. intros x _. apply not_elem_of_nil. Qed.

Lemma cut_all i l p : kvss !! i = Some l -> (length merged <= p)%nat -> cut p l = length l.
Proof.
  intros Hi Hp. unfold cut. rewrite (take_ge merged p) by done. f_equal. rewrite <- (app_nil_r l) at 1.
  apply filter_split; [|by intros x ?%not_elem_of_nil]. intros kv Hkv. destruct (in_merged i l kv Hi Hkv) as [q Hq].
  by eapply list_elem_of_lookup_2.
Qed.

(** The cut splits a child: what is before and what is after [p]. *)
Lemma cut_split i l p : kvss !! i = Some l -> exists l1 l2, l = l1 ++ l2 /\ length l1 = cut p l /\
  (forall kv, kv ∈ l1 -> kv ∈ take p merged) /\ (forall kv, kv ∈ l2 -> kv ∉ take p merged).
Proof.
  intros Hi. destruct (merged !! p) as [m|] eqn:Hm.
  - pose proof (Forall_lookup_1 _ _ _ _ (un_children Hun) Hi) as Hs.
    destruct (seek_split l m.1 Hs (merged_valid _ _ Hm)) as (l1 & l2 & Hl & Hf & H1 & H2). exists l1, l2.
    assert (Hiff : forall kv, kv ∈ l -> kv ∈ take p merged <-> Compare kv.1 m.1 < 0).
    { intros kv Hkv. destruct (in_merged i l kv Hi Hkv) as [q Hq]. by apply (take_below p m Hm q). }
    split_and!; [done| | |].
    + unfold cut. rewrite <- Hf. f_equal. symmetry. by apply filter_ext_in.
    + intros kv Hkv. apply Hiff; [rewrite Hl; apply elem_of_app; by left|by apply H1].
    + intros kv Hkv Hin. apply (H2 kv Hkv), Hiff; [rewrite Hl; apply elem_of_app; by right|done].
  - apply lookup_ge_None in Hm. exists l, []. rewrite app_nil_r, (cut_all i) by done. split_and!; [done|done| |by intros ? ?%not_elem_of_nil].
    intros kv Hkv. destruct (in_merged i l kv Hi Hkv) as [q Hq]. rewrite take_ge by done. by eapply list_elem_of_lookup_2.
Qed.

(** The entry at position [p] is the first of its child after the cut. *)
Lemma cut_own i l p m : kvss !! i = Some l -> merged !! p = Some m -> m ∈ l ->
  l !! cut p l = Some m /\ cut (S p) l = S (cut p l).
Proof.
  intros Hi Hm Hin. destruct (cut_split i l p Hi) as (l1 & l2 & Hl & Hlen & H1 & H2).
  pose proof (Forall_lookup_1 _ _ _ _ (un_children Hun) Hi) as Hs.
  assert (Hm2 : m ∈ l2).
  { rewrite Hl in Hin. apply elem_of_app in Hin as [Hin|?]; [|done]. apply H1 in Hin. apply (in_take p p m Hm) in Hin. lia. }
  destruct l2 as [|x l2]; [by apply not_elem_of_nil in Hm2|]. assert (Hx : x = m).
  { apply elem_of_cons in Hm2 as [->|Hm2]; [done|]. exfalso. rewrite Hl in Hs. apply sorted_kvs_app_inv in Hs as (_ & Hs & _).
    apply (sorted_kvs_app_inv [x] l2) in Hs as (_ & _ & Hlt). specialize (Hlt x m ltac:(by left) Hm2).
    destruct (in_merged i l x Hi) as [q Hq]; [rewrite Hl; apply elem_of_app; right; left|].
    apply (H2 x ltac:(left)). by apply (take_below p m Hm q). }
  subst x. split.
  - rewrite <- Hlen, Hl. by apply list_lookup_middle.
  - rewrite <- Hlen. unfold cut. rewrite Hl. replace (l1 ++ m :: l2) with ((l1 ++ [m]) ++ l2) by (by rewrite <- app_assoc).
    rewrite filter_split; [rewrite length_app; simpl; lia| |].
    + intros kv [Hkv|Hkv%list_elem_of_singleton]%elem_of_app.
      * rewrite (take_S_r _ _ _ Hm). apply elem_of_app. left. by apply H1.
      * subst kv. by apply (in_take (S p) p m Hm); lia.
    + intros kv Hkv. rewrite (take_S_r _ _ _ Hm), elem_of_app, list_elem_of_singleton. intros [Hin'| ->]; [by apply (H2 kv); [right|]|].
      rewrite Hl in Hs. apply sorted_kvs_app_inv in Hs as (_ & Hs & _). apply (sorted_kvs_app_inv [m] l2) in Hs as (_ & _ & Hlt).
      specialize (Hlt m m ltac:(by left) Hkv). rewrite (cmp_refl _ (merged_valid _ _ Hm)) in Hlt. lia.
Qed.

Lemma cut_other i l p m : kvss !! i = Some l -> merged !! p = Some m -> m ∉ l -> cut (S p) l = cut p l.
Proof.
  intros Hi Hm Hno. unfold cut. f_equal. apply filter_ext_in. intros kv Hkv.
  rewrite (take_S_r _ _ _ Hm), elem_of_app, list_elem_of_singleton. split; [|tauto]. intros [?| ->]; done.
Qed.

(** Every entry of the union has one owner. *)
Lemma owner p m : merged !! p = Some m -> exists j l, kvss !! j = Some l /\ m ∈ l /\
  forall i l', kvss !! i = Some l' -> m ∈ l' -> i = j.
Proof.
  intros Hm. assert (Hin : m ∈ concat kvss) by (rewrite <- (un_perm Hun); by eapply list_elem_of_lookup_2).
  apply elem_of_concat in Hin as (l & [j Hj]%list_elem_of_lookup & Hml). exists j, l. split_and!; [done|done|].
  intros i l' Hi Hm'. eapply concat_owner; [|exact Hi|exact Hj|done|done]. rewrite <- (un_perm Hun). apply merged_nodup.
Qed.
End Cut.

(** ** The merging iterator is a cursor over the union *)

Section Refinement.
Context {C : Comparator} {L : ComparatorLaws C} {I : Type} `{!Iterator I}.
Context (kvss : list (list (bytes * bytes))) (merged : list (bytes * bytes)) (at_ : nat -> I -> nat -> Prop).
Context (Hun : union_of kvss merged) (Hch : forall i l, kvss !! i = Some l -> cursor_over l (at_ i)).

Abbreviation cut := (cut merged).

(** Child [i] stands on entry [f l] of its entries [l]. *)
Definition children_at (f : list (bytes * bytes) -> nat) (ws : list (Wrapper I)) : Prop :=
  length ws = length kvss /\ forall i w l, ws !! i = Some w -> kvss !! i = Some l -> wrap_at (at_ i) w (f l).

(** One entry before the cut. *)
Definition back (p : nat) (l : list (bytes * bytes)) : nat := if (cut p l =? 0)%nat then length l else (cut p l - 1)%nat.

Definition mi_at (m : MergingIterator I) (p : nat) : Prop :=
  match merged !! p with
  | Some kv => exists j l, current_ m = Some j /\ kvss !! j = Some l /\ kv ∈ l /\
      children_at (match direction_ m with kForward => cut p | kReverse => back (S p) end) (children_ m)
  | None => p = length merged /\ current_ m = None /\ children_at length (children_ m)
  end.

Lemma for_children_ok (P : nat -> Wrapper I -> Prop) f ws : forall n,
  (forall i w, ws !! i = Some w -> exists w', f (n + i)%nat w = Some w' /\ P (n + i)%nat w') ->
  exists ws', for_children f n ws = Some ws' /\ length ws' = length ws /\ forall i w', ws' !! i = Some w' -> P (n + i)%nat w'.
Proof.
  induction ws as [|w ws IH]; intros n Hf; cbn [for_children]; [by exists []|].
  destruct (Hf 0%nat w eq_refl) as (w' & Hw & HP). rewrite Nat.add_0_r in Hw, HP. rewrite Hw. cbn [mbind option_bind].
  destruct (IH (S n)) as (ws' & -> & Hlen & Hall).
  { intros i x Hi. destruct (Hf (S i) x Hi) as (x' & Hx & Hpx). rewrite Nat.add_succ_r in Hx, Hpx. by exists x'. }
  exists (w' :: ws'). split; [done|]. split; [simpl; congruence|]. intros [|i] x Hx; simpl in Hx.
  - injection Hx as <-. by rewrite Nat.add_0_r.
  - rewrite Nat.add_succ_r. by apply Hall.
Qed.

(** The loops over the children. *)
Lemma move_children f ws g h : children_at g ws ->
  (forall i w l, kvss !! i = Some l -> wrap_at (at_ i) w (g l) -> exists w', f i w = Some w' /\ wrap_at (at_ i) w' (h i l)) ->
  exists ws', for_children f 0 ws = Some ws' /\ length ws' = length kvss /\
    forall i w l, ws' !! i = Some w -> kvss !! i = Some l -> wrap_at (at_ i) w (h i l).
Proof.
  intros [Hlen Hat] Hf. destruct (for_children_ok (fun i w => forall l, kvss !! i = Some l -> wrap_at (at_ i) w (h i l)) f ws 0) as (ws' & Hws & Hl & Hall).
  { intros i w Hi. destruct (lookup_lt_is_Some_2 kvss i) as [l Hk]; [rewrite <- Hlen; by eapply lookup_lt_Some|].
    destruct (Hf i w l Hk (Hat i w l Hi Hk)) as (w' & Hw & Hw'). exists w'. split; [done|]. intros l' Hl'. cbn in Hl' |- *. rewrite Hk in Hl'. by injection Hl' as <-. }
  exists ws'. split; [done|]. split; [congruence|]. intros i w l Hi Hk. by apply (Hall i w Hi).
Qed.

Lemma move_all ws g op p' : children_at g ws -> op_ok op ->
  (forall i l, kvss !! i = Some l -> cursor_step l (g l) op = Some (p' l)) ->
  exists ws', for_children (fun _ w => wrap_step w op) 0 ws = Some ws' /\ children_at p' ws'.
Proof.
  intros Hat Hop Hst. destruct (move_children (fun _ w => wrap_step w op) ws g (fun _ => p') Hat) as (ws' & Hws & Hl & Hall).
  { intros i w l Hi Hw. by apply (wrap_step_at l (at_ i) w (g l)); [apply Hch|..|eapply Hst]. }
  by exists ws'.
Qed.

(** What a child shows. *)
Lemma child_shows g ws i w l : children_at g ws -> ws !! i = Some w -> kvss !! i = Some l ->
  wrap_status w = Status_OK /\ match l !! g l with
  | Some (k, v) => w_valid w = true /\ w_key w = k /\ wrap_value w = v
  | None => w_valid w = false
  end.
Proof.
  intros [_ Hat] Hi Hk. destruct (wrap_at_shows l (at_ i) w (g l) (Hch i l Hk) (Hat i w l Hi Hk)) as (Hs & _ & Hm). done.
Qed.

Lemma child_of g ws i l : children_at g ws -> kvss !! i = Some l -> exists w, ws !! i = Some w.
Proof. intros [Hlen _] Hi. apply lookup_lt_is_Some_2. rewrite Hlen. by eapply lookup_lt_Some. Qed.

(** A choice among the children that is best for an order [better], when the
    entry [m] of some child is better than any other shown entry. *)
Lemma best_child g ws better idx m j0 l0 : children_at g ws -> (forall a, valid_key a -> better a a = false) ->
  (forall a b c, valid_key a -> valid_key b -> valid_key c -> better a b = true -> better b c = true -> better a c = true) ->
  (forall x, x ∈ idx <-> x ∈ imap pair ws) -> kvss !! j0 = Some l0 -> l0 !! g l0 = Some m ->
  (forall i l kv, kvss !! i = Some l -> l !! g l = Some kv -> kv = m \/ better m.1 kv.1 = true) ->
  exists j l, fst <$> fold_left (pick better) idx None = Some j /\ kvss !! j = Some l /\ l !! g l = Some m.
Proof.
  intros Hat Hirr Htr Hidx Hj0 Hm0 Hbest. pose proof (proj1 Hat) as Hlen.
  assert (Hmem : forall i w, (i, w) ∈ idx -> w_valid w = true -> exists l kv, kvss !! i = Some l /\ l !! g l = Some kv /\ w_key w = kv.1).
  { intros i w Hi%Hidx%elem_of_indexed Hv. destruct (lookup_lt_is_Some_2 kvss i) as [l Hk]; [rewrite <- Hlen; by eapply lookup_lt_Some|].
    destruct (child_shows g ws i w l Hat Hi Hk) as [_ Hs]. destruct (l !! g l) as [[k v]|] eqn:Hg; [|congruence].
    exists l, (k, v). split_and!; [done|done|]. apply Hs. }
  assert (Hval : forall i l kv, kvss !! i = Some l -> l !! g l = Some kv -> valid_key kv.1).
  { intros i l kv Hk Hg. destruct (Forall_lookup_1 _ _ _ _ (un_children _ _ Hun) Hk) as [Hv _]. exact (Forall_lookup_1 _ _ _ _ Hv Hg). }
  assert (Hb : best_of better idx (fold_left (pick better) idx None)).
  { apply (best_found valid_key better Hirr Htr). intros [i w] Hi Hv. cbn in *. destruct (Hmem i w Hi Hv) as (l & kv & Hk & Hg & ->). by eapply Hval. }
  destruct (child_of g ws j0 l0 Hat Hj0) as [w0 Hw0]. destruct (child_shows g ws j0 w0 l0 Hat Hw0 Hj0) as [_ Hs0].
  rewrite Hm0 in Hs0. destruct m as [km vm]. destruct Hs0 as (Hv0 & Hk0 & _).
  assert (Hin0 : (j0, w0) ∈ idx) by (by apply Hidx, elem_of_indexed).
  destruct (fold_left (pick better) idx None) as [[j k]|].
  - destruct Hb as [(w & Hw & Hv & <-) Hmin].
    destruct (Hmem j w Hw Hv) as (l & kv & Hk & Hg & Hkey). exists j, l. split_and!; [done|done|].
    destruct (Hbest j l kv Hk Hg) as [->|Hbt]; [done|]. specialize (Hmin (j0, w0) Hin0 Hv0). cbn in Hmin, Hbt. congruence.
  - exfalso. pose proof (Hb (j0, w0) Hin0). cbn in *. congruence.
Qed.

(** No child is valid. *)
Lemma no_child better idx ws : children_at length ws -> (forall x, x ∈ idx <-> x ∈ imap pair ws) -> fold_left (pick better) idx None = None.
Proof.
  intros Hat Hidx. assert (Hall : forall x, x ∈ idx -> w_valid x.2 = false).
  { intros [i w] Hi%Hidx%elem_of_indexed. destruct (lookup_lt_is_Some_2 kvss i) as [l Hk]; [rewrite <- (proj1 Hat); by eapply lookup_lt_Some|].
    destruct (child_shows length ws i w l Hat Hi Hk) as [_ Hs]. by rewrite (proj2 (lookup_ge_None l (length l))) in Hs. }
  clear Hidx. induction idx as [|x idx IH]; [done|]. cbn [fold_left]. unfold pick at 2. rewrite Hall by left. apply IH. intros y Hy. apply Hall. by right.
Qed.

Lemma children_ext f g ws : (forall i l, kvss !! i = Some l -> f l = g l) -> children_at f ws -> children_at g ws.
Proof. intros E [Hlen Hat]. split; [done|]. intros i w l Hi Hk. rewrite <- (E i l Hk). by apply Hat. Qed.

(** The children stand on their first entries from [p] on. *)
Lemma forward_at ws p : (p <= length merged)%nat -> children_at (cut p) ws -> mi_at (forward ws) p.
Proof.
  intros Hp Hat. unfold mi_at, forward, FindSmallest. cbn [current_ direction_ children_]. destruct (merged !! p) as [m|] eqn:Hm.
  - destruct (owner kvss merged Hun p m Hm) as (j0 & l0 & Hj0 & Hm0 & _).
    destruct (best_child (cut p) ws (fun k best => Compare k best <? 0) (imap pair ws) m j0 l0) as (j & l & -> & Hj & Hml); try done.
    + intros a Ha. by rewrite (cmp_refl a Ha).
    + intros a b c Ha Hb Hc H1%Z.ltb_lt H2%Z.ltb_lt. apply Z.ltb_lt. apply (cmp_lt_le_trans a b c); [done..|lia].
    + by apply (cut_own kvss merged Hun j0 l0 p m).
    + intros i l kv Hi Hkv. destruct (cut_split kvss merged Hun i l p Hi) as (l1 & l2 & Hl & Hlen & _ & H2).
      rewrite Hl, <- Hl, <- Hlen, Hl, lookup_app_r, Nat.sub_diag in Hkv by lia. assert (Hin2 : kv ∈ l2) by (by eapply list_elem_of_lookup_2).
      destruct (in_merged kvss merged Hun i l kv Hi) as [q Hq]; [rewrite Hl; apply elem_of_app; by right|].
      assert (Hpq : (p <= q)%nat). { destruct (Nat.le_gt_cases p q) as [?|Hlt]; [done|]. by destruct (H2 kv Hin2); apply (in_take kvss merged Hun p q kv Hq). }
      destruct (decide (p = q)) as [<-|Hne]; [left; congruence|right]. apply Z.ltb_lt. apply (proj2 (un_sorted _ _ Hun) p q); [lia|done..].
    + exists j, l. split_and!; try done. by eapply list_elem_of_lookup_2.
  - apply lookup_ge_None in Hm. assert (Hat' : children_at length ws) by (eapply children_ext; [|done]; intros i l Hi; by apply (cut_all kvss merged Hun i)).
    split; [lia|]. by rewrite (no_child _ _ ws Hat').
Qed.

(** The children stand on their last entries before [p]. *)
Lemma backward_at ws p : (p <= length merged)%nat -> children_at (back p) ws ->
  mi_at (backward ws) (if (p =? 0)%nat then length merged else p - 1)%nat.
Proof.
  intros Hp Hat. unfold backward, FindLargest. destruct p as [|q]; cbn [Nat.eqb].
  - assert (Hat' : children_at length ws).
    { eapply children_ext; [|done]. intros i l Hi. unfold back. by rewrite cut_zero. }
    unfold mi_at. rewrite (proj2 (lookup_ge_None merged (length merged))) by lia. cbn [current_ children_].
    rewrite (no_child _ _ ws Hat'); [done|]. intros x. by rewrite list_elem_of_In, <- in_rev, <- list_elem_of_In.
  - replace (S q - 1)%nat with q by lia. destruct (lookup_lt_is_Some_2 merged q) as [m Hm]; [lia|]. unfold mi_at. rewrite Hm. cbn [current_ direction_ children_].
    destruct (owner kvss merged Hun q m Hm) as (j0 & l0 & Hj0 & Hm0 & _).
    destruct (best_child (back (S q)) ws (fun k best => 0 <? Compare k best) (rev (imap pair ws)) m j0 l0) as (j & l & -> & Hj & Hml); try done.
    + intros a Ha. by rewrite (cmp_refl a Ha).
    + intros a b c Ha Hb Hc H1%Z.ltb_lt H2%Z.ltb_lt. apply Z.ltb_lt. apply (cmp_sgn_opp c a); [done..|].
      apply (cmp_lt_le_trans c b a); [done..|by apply cmp_sgn_opp|]. apply Z.lt_le_incl. by apply cmp_sgn_opp.
    + intros x. by rewrite list_elem_of_In, <- in_rev, <- list_elem_of_In.
    + destruct (cut_own kvss merged Hun j0 l0 q m Hj0 Hm Hm0) as [Hl Hc]. unfold back. rewrite Hc. cbn [Nat.eqb]. by rewrite Nat.sub_succ, Nat.sub_0_r.
    + intros i l kv Hi Hkv. destruct (cut_split kvss merged Hun i l (S q) Hi) as (l1 & l2 & Hl & Hlen & H1 & _). unfold back in Hkv.
      destruct (Nat.eqb_spec (cut (S q) l) 0) as [E|Hne]; [by rewrite (proj2 (lookup_ge_None l (length l))) in Hkv|].
      assert (Hin1 : kv ∈ l1). { rewrite <- Hlen in Hkv, Hne. rewrite Hl, lookup_app_l in Hkv by lia. by eapply list_elem_of_lookup_2. }
      destruct (in_merged kvss merged Hun i l kv Hi) as [r Hr]; [rewrite Hl; apply elem_of_app; by left|].
      pose proof (proj1 (in_take kvss merged Hun (S q) r kv Hr) (H1 kv Hin1)).
      destruct (decide (r = q)) as [->|Hrq]; [left; congruence|right]. apply Z.ltb_lt.
      apply cmp_sgn_opp; [by eapply (merged_valid kvss merged Hun)..|]. apply (proj2 (un_sorted _ _ Hun) r q); [lia|done..].
    + exists j, l. split_and!; try done. by eapply list_elem_of_lookup_2.
Qed.

(** The child positions by index, with the current child apart. *)
Definition split_at (f : list (bytes * bytes) -> nat) (ws : list (Wrapper I)) (j : nat) (w : Wrapper I) : Prop :=
  length ws = length kvss /\ ws !! j = Some w /\
  forall i w l, i <> j -> ws !! i = Some w -> kvss !! i = Some l -> wrap_at (at_ i) w (f l).

(** Moving the current child completes the positions. *)
Lemma move_current_at op j l ws w f o o' : kvss !! j = Some l -> split_at f ws j w -> wrap_at (at_ j) w o -> op_ok op ->
  cursor_step l o op = Some o' -> o' = f l -> exists ws', move_current op j ws = Some ws' /\ children_at f ws'.
Proof.
  intros Hj (Hlen & Hw & Hother) Hat Hop Hst ->. destruct (wrap_step_at l (at_ j) w o op _ (Hch j l Hj) Hat Hop Hst) as (w' & Hw' & Hat').
  unfold move_current. rewrite Hw. cbn [mbind option_bind]. rewrite Hw'. cbn [mbind option_bind]. eexists. split; [done|].
  split; [by rewrite length_insert|]. intros i x l' Hi Hk. apply list_lookup_insert_Some in Hi as [(<- & <- & _)|[Hne Hi]].
  - rewrite Hj in Hk. by injection Hk as <-.
  - by apply (Hother i).
Qed.

Lemma children_split f ws j l : children_at f ws -> kvss !! j = Some l ->
  exists w, split_at f ws j w /\ wrap_at (at_ j) w (f l).
Proof.
  intros Hat Hj. destruct (child_of f ws j l Hat Hj) as [w Hw]. destruct Hat as [Hlen Hat]. exists w. split; [|by apply (Hat j)].
  split_and!; [done|done|]. intros i x l' _ Hi Hk. by apply (Hat i).
Qed.

(** Key and value of the current child. *)
Lemma mi_at_shows m p : mi_at m p -> ishows m merged p.
Proof.
  intros Hm. assert (Hst : forall g, children_at g (children_ m) -> mi_status m = Status_OK).
  { intros g Hg. unfold mi_status. assert (Hall : forall w, w ∈ children_ m -> wrap_status w = Status_OK).
    { intros w [i Hi]%list_elem_of_lookup. destruct (lookup_lt_is_Some_2 kvss i) as [l Hk]; [rewrite <- (proj1 Hg); by eapply lookup_lt_Some|].
      by apply (child_shows g (children_ m) i w l). }
    clear -Hall. generalize (eq_refl Status_OK). generalize Status_OK at 1 3 as s. induction (children_ m) as [|w ws IH]; intros s Hs; [done|].
    cbn [first_error]. rewrite (Hall w ltac:(left)). apply IH; [|done]. intros x Hx. apply Hall. by right. }
  unfold ishows, mi_at in *. cbn [istatus iValid ikey ivalue Merging_Iterator]. unfold mi_Valid, mi_key, mi_value, current_child.
  destruct (merged !! p) as [[k v]|] eqn:Hp.
  - destruct Hm as (j & l & Hj & Hk & Hin & Hat). split; [by eapply Hst|]. rewrite Hj. cbn [mbind option_bind]. split; [done|].
    destruct (child_of _ _ j l Hat Hk) as [w Hw]. rewrite Hw. cbn [from_option].
    destruct (cut_own kvss merged Hun j l p (k, v) Hk Hp Hin) as [Hl Hc]. destruct (child_shows _ _ j w l Hat Hw Hk) as [_ Hs].
    destruct (direction_ m).
    + rewrite Hl in Hs. tauto.
    + unfold back in Hs. rewrite Hc in Hs. cbn [Nat.eqb] in Hs. rewrite Nat.sub_succ, Nat.sub_0_r, Hl in Hs. tauto.
  - destruct Hm as (_ & Hj & Hat). rewrite Hj. split; [by eapply Hst|done].
Qed.

(** Any position of the children suits a seek. *)
Lemma mi_children m p : mi_at m p -> exists g, children_at g (children_ m).
Proof. unfold mi_at. destruct (merged !! p); [intros (j & l & _ & _ & _ & ?); by eexists|intros (_ & _ & ?); by eexists]. Qed.

Lemma mi_seek_at m p op : mi_at m p -> op_ok op -> (op = OpFirst \/ op = OpLast \/ exists k, op = OpSeek k) ->
  exists m' p', cursor_step merged p op = Some p' /\ mi_step m op = Some m' /\ mi_at m' p'.
Proof.
  intros Hm Hop Hkind. destruct (mi_children m p Hm) as [g Hg].
  destruct Hkind as [->|[->|[k ->]]]; cbn [cursor_step mi_step].
  - destruct (move_all (children_ m) g OpFirst (cut 0) Hg Hop) as (ws & Hws & Hat); [intros i l _; by rewrite cut_zero|].
    unfold mi_SeekToFirst. rewrite Hws. eexists _, _. split; [done|]. split; [done|]. apply forward_at; [lia|done].
  - destruct (move_all (children_ m) g OpLast (back (length merged)) Hg Hop) as (ws & Hws & Hat).
    { intros i l Hi. cbn. unfold back. rewrite (cut_all kvss merged Hun i) by done. destruct l; [done|]. simpl. by rewrite Nat.sub_0_r. }
    unfold mi_SeekToLast. rewrite Hws. eexists _, _. split; [done|]. split; [done|].
    pose proof (backward_at ws (length merged) ltac:(lia) Hat) as Hb. destruct (Nat.eqb_spec (length merged) 0) as [E|]; [|done].
    rewrite E in *. done.
  - destruct (move_all (children_ m) g (OpSeek k) (cut (length (base.filter (fun kv => Compare kv.1 k < 0) merged))) Hg Hop) as (ws & Hws & Hat).
    { intros i l Hi. cbn. by rewrite (cut_seek kvss merged Hun i). }
    unfold mi_Seek. rewrite Hws. eexists _, _. split; [done|]. split; [done|]. apply forward_at; [apply length_filter|done].
Qed.

(** The keys of the other children differ from the current one. *)
Lemma not_own p m j i l : merged !! p = Some m -> kvss !! i = Some l -> (exists l0, kvss !! j = Some l0 /\ m ∈ l0) -> i <> j -> m ∉ l.
Proof.
  intros Hm Hi (l0 & Hj & Hm0) Hne Hin. apply Hne. destruct (owner kvss merged Hun p m Hm) as (j' & l' & _ & _ & Huniq).
  by rewrite (Huniq i l Hi Hin), (Huniq j l0 Hj Hm0).
Qed.

Lemma seek_key p m i l : merged !! p = Some m -> kvss !! i = Some l ->
  length (base.filter (fun kv => Compare kv.1 m.1 < 0) l) = cut p l.
Proof.
  intros Hm Hi. unfold Merger.cut. f_equal. apply filter_ext_in. intros kv Hkv. destruct (in_merged kvss merged Hun i l kv Hi Hkv) as [q Hq].
  symmetry. by apply (take_below kvss merged Hun p m Hm q).
Qed.

Lemma turn_forward_at p m j l i w o l' : merged !! p = Some m -> kvss !! j = Some l -> m ∈ l -> kvss !! i = Some l' -> i <> j ->
  wrap_at (at_ i) w o -> exists w', turn_forward m.1 j i w = Some w' /\ wrap_at (at_ i) w' (cut p l').
Proof.
  intros Hm Hj Hml Hi Hne Hat. unfold turn_forward. rewrite (proj2 (Nat.eqb_neq i j) Hne).
  destruct (wrap_step_at l' (at_ i) w o (OpSeek m.1) (cut p l') (Hch i l' Hi) Hat) as (w1 & -> & Hat1).
  { by eapply (merged_valid kvss merged Hun). }
  { cbn. f_equal. by apply (seek_key p m i). }
  cbn [mbind option_bind]. destruct (wrap_at_shows l' (at_ i) w1 _ (Hch i l' Hi) Hat1) as (_ & _ & Hs).
  destruct (l' !! cut p l') as [[k v]|] eqn:Hk; [|rewrite Hs; by exists w1]. destruct Hs as (-> & -> & _). cbn [andb].
  assert (Hno : Compare m.1 k <> 0).
  { destruct (in_merged kvss merged Hun i l' (k, v) Hi) as [q Hq]; [by eapply list_elem_of_lookup_2|]. destruct (un_sorted _ _ Hun) as [_ Hs].
    destruct (lt_eq_lt_dec p q) as [[H| <-]|H]; [pose proof (Hs p q _ _ H Hm Hq); simpl in *; lia| |].
    - rewrite Hm in Hq. injection Hq as ->. exfalso. eapply (not_own p); [done|exact Hi|by exists l|done|]. by eapply list_elem_of_lookup_2.
    - pose proof (Hs q p _ _ H Hq Hm) as Hlt. apply cmp_sgn_opp in Hlt; [simpl in *; lia|by eapply (merged_valid kvss merged Hun)..]. }
  rewrite (proj2 (Z.eqb_neq _ _) Hno). by exists w1.
Qed.

Lemma turn_backward_at p m j l i w o l' : merged !! p = Some m -> kvss !! j = Some l -> m ∈ l -> kvss !! i = Some l' -> i <> j ->
  wrap_at (at_ i) w o -> exists w', turn_backward m.1 j i w = Some w' /\ wrap_at (at_ i) w' (back p l').
Proof.
  intros Hm Hj Hml Hi Hne Hat. unfold turn_backward. rewrite (proj2 (Nat.eqb_neq i j) Hne).
  destruct (wrap_step_at l' (at_ i) w o (OpSeek m.1) (cut p l') (Hch i l' Hi) Hat) as (w1 & -> & Hat1).
  { by eapply (merged_valid kvss merged Hun). }
  { cbn. f_equal. by apply (seek_key p m i). }
  cbn [mbind option_bind]. destruct (wrap_at_shows l' (at_ i) w1 _ (Hch i l' Hi) Hat1) as (_ & _ & Hs).
  destruct (l' !! cut p l') as [[k v]|] eqn:Hk.
  - destruct Hs as [-> _]. apply (wrap_step_at l' (at_ i) w1 (cut p l') OpPrev); [by apply Hch|done|done|].
    apply lookup_lt_Some in Hk. cbn [cursor_step]. by rewrite (proj2 (Nat.ltb_lt _ _) Hk).
  - rewrite Hs. apply (wrap_step_at l' (at_ i) w1 (cut p l') OpLast); [by apply Hch|done|done|].
    apply lookup_ge_None in Hk. assert (Hle : (cut p l' <= length l')%nat) by apply length_filter. cbn. unfold back.
    destruct (Nat.eqb_spec (cut p l') 0); f_equal; lia.
Qed.

Lemma turn_children turn f p m j l ws g : merged !! p = Some m -> kvss !! j = Some l -> m ∈ l -> children_at g ws ->
  (forall i w, i = j -> turn i w = Some w) ->
  (forall i w l' o, kvss !! i = Some l' -> i <> j -> wrap_at (at_ i) w o -> exists w', turn i w = Some w' /\ wrap_at (at_ i) w' (f l')) ->
  exists ws' w, for_children turn 0 ws = Some ws' /\ split_at f ws' j w /\ wrap_at (at_ j) w (g l).
Proof.
  intros Hm Hj Hml Hat Hself Hturn.
  destruct (move_children turn ws g (fun i l => if (i =? j)%nat then g l else f l) Hat) as (ws' & Hws & Hlen & Hall).
  { intros i w l' Hi Hw. destruct (Nat.eqb_spec i j) as [->|Hne]; [exists w; auto|by eapply Hturn]. }
  destruct (lookup_lt_is_Some_2 ws' j) as [w Hw]; [rewrite Hlen; by eapply lookup_lt_Some|].
  exists ws', w. split_and!; [done| |].
  - split_and!; [done|done|]. intros i x l' Hne Hi Hk. pose proof (Hall i x l' Hi Hk) as Hx. by rewrite (proj2 (Nat.eqb_neq i j) Hne) in Hx.
  - pose proof (Hall j w l Hw Hj) as Hx. by rewrite Nat.eqb_refl in Hx.
Qed.

Lemma mi_key_at m p kv : mi_at m p -> merged !! p = Some kv -> mi_key m = kv.1.
Proof. intros Hm Hp. destruct (mi_at_shows m p Hm) as [_ Hs]. rewrite Hp in Hs. destruct kv. apply Hs. Qed.

Lemma mi_Next_at m p : mi_at m p -> (p < length merged)%nat -> exists m', mi_Next m = Some m' /\ mi_at m' (S p).
Proof.
  intros Hm Hlt. destruct (lookup_lt_is_Some_2 merged p Hlt) as [kv Hp]. pose proof (mi_key_at m p kv Hm Hp) as Hkey.
  unfold mi_at in Hm. rewrite Hp in Hm. destruct Hm as (j & l & Hj & Hk & Hin & Hat).
  destruct (cut_own kvss merged Hun j l p kv Hk Hp Hin) as [Hl Hc]. unfold mi_Next. rewrite Hj. cbn [mbind option_bind].
  assert (Hother : forall i l', kvss !! i = Some l' -> i <> j -> cut (S p) l' = cut p l').
  { intros i l' Hi Hne. apply (cut_other kvss merged i l' p kv); [done|done|]. eapply (not_own p); [done|done|by exists l|done]. }
  assert (Hws : exists ws w, match direction_ m with kForward => Some (children_ m)
      | kReverse => for_children (turn_forward (mi_key m) j) 0 (children_ m) end = Some ws /\
      split_at (cut (S p)) ws j w /\ wrap_at (at_ j) w (cut p l)).
  { destruct (direction_ m).
    - destruct (children_split _ _ j l Hat Hk) as (w & (Hlen & Hw & Hothers) & Hatw). exists (children_ m), w. split_and!; try done.
      split_and!; [done|done|]. intros i x l' Hne Hi Hk'. rewrite (Hother i l' Hk' Hne). by apply (Hothers i).
    - rewrite Hkey. destruct (turn_children (turn_forward kv.1 j) (cut (S p)) p kv j l (children_ m) (back (S p)) Hp Hk Hin Hat) as (ws & w & Hws & Hsp & Hatw).
      + intros i w ->. unfold turn_forward. by rewrite Nat.eqb_refl.
      + intros i w l' o Hi Hne Hw. rewrite (Hother i l' Hi Hne). by eapply (turn_forward_at p kv j l).
      + exists ws, w. split_and!; [done|done|]. unfold back in Hatw. rewrite Hc in Hatw. cbn [Nat.eqb] in Hatw. by rewrite Nat.sub_succ, Nat.sub_0_r in Hatw. }
  destruct Hws as (ws & w & -> & Hsp & Hatw). cbn [mbind option_bind].
  destruct (move_current_at OpNext j l ws w (cut (S p)) (cut p l) (S (cut p l)) Hk Hsp Hatw) as (ws' & -> & Hat'); [done| |done|].
  { cbn [cursor_step]. by rewrite (proj2 (Nat.ltb_lt _ _) (lookup_lt_Some _ _ _ Hl)). }
  cbn [mbind option_bind]. eexists. split; [done|]. by apply forward_at.
Qed.

Lemma mi_Prev_at m p : mi_at m p -> (p < length merged)%nat ->
  exists m', mi_Prev m = Some m' /\ mi_at m' (if (p =? 0)%nat then length merged else p - 1)%nat.
Proof.
  intros Hm Hlt. destruct (lookup_lt_is_Some_2 merged p Hlt) as [kv Hp]. pose proof (mi_key_at m p kv Hm Hp) as Hkey.
  unfold mi_at in Hm. rewrite Hp in Hm. destruct Hm as (j & l & Hj & Hk & Hin & Hat).
  destruct (cut_own kvss merged Hun j l p kv Hk Hp Hin) as [Hl Hc]. unfold mi_Prev. rewrite Hj. cbn [mbind option_bind].
  assert (Hws : exists ws w, match direction_ m with kReverse => Some (children_ m)
      | kForward => for_children (turn_backward (mi_key m) j) 0 (children_ m) end = Some ws /\
      split_at (back p) ws j w /\ wrap_at (at_ j) w (cut p l)).
  { destruct (direction_ m).
    - rewrite Hkey. destruct (turn_children (turn_backward kv.1 j) (back p) p kv j l (children_ m) (cut p) Hp Hk Hin Hat) as (ws & w & Hws & Hsp & Hatw).
      + intros i w ->. unfold turn_backward. by rewrite Nat.eqb_refl.
      + intros i w l' o Hi Hne Hw. by eapply (turn_backward_at p kv j l).
      + by exists ws, w.
    - destruct (children_split _ _ j l Hat Hk) as (w & (Hlen & Hw & Hothers) & Hatw). exists (children_ m), w. split_and!; [done| |].
      + split_and!; [done|done|]. intros i x l' Hne Hi Hk'. specialize (Hothers i x l' Hne Hi Hk'). unfold back in *.
        rewrite (cut_other kvss merged i l' p kv) in Hothers; [done|done|done|]. eapply (not_own p); [done|done|by exists l|done].
      + unfold back in Hatw. rewrite Hc in Hatw. cbn [Nat.eqb] in Hatw. by rewrite Nat.sub_succ, Nat.sub_0_r in Hatw. }
  destruct Hws as (ws & w & -> & Hsp & Hatw). cbn [mbind option_bind].
  destruct (move_current_at OpPrev j l ws w (back p) (cut p l) (back p l) Hk Hsp Hatw) as (ws' & -> & Hat'); [done| |done|].
  { cbn [cursor_step]. by rewrite (proj2 (Nat.ltb_lt _ _) (lookup_lt_Some _ _ _ Hl)). }
  cbn [mbind option_bind]. eexists. split; [done|]. apply backward_at; [lia|done].
Qed.

Lemma merging_cursor : cursor_over merged mi_at.
Proof.
  split.
  - intros m p. unfold mi_at. destruct (merged !! p) eqn:Hp; [intros _; apply lookup_lt_Some in Hp; lia|intros [-> _]; lia].
  - apply mi_at_shows.
  - intros m p op p' Hm Hop Hst. destruct op; cbn [istep Merging_Iterator mi_step].
    1, 2, 3: edestruct (mi_seek_at m p) as (m' & p2 & Hst' & Hm' & Hat'); [done|exact Hop|eauto|];
      rewrite Hst in Hst'; injection Hst' as <-; by exists m'.
    all: cbn [cursor_step] in Hst; destruct (Nat.ltb_spec p (length merged)); [|done]; injection Hst as <-.
    + by apply mi_Next_at.
    + by apply mi_Prev_at.
Qed.

Lemma merging_new its : length its = length kvss ->
  (forall i it l, its !! i = Some it -> kvss !! i = Some l -> at_ i it (length l)) -> mi_at (MergingIterator_new its) (length merged).
Proof.
  intros Hlen Hat. unfold mi_at. rewrite (proj2 (lookup_ge_None merged (length merged))) by lia. split_and!; [done|done|].
  split; [cbn; by rewrite length_fmap|]. intros i w l Hi Hk. cbn in Hi. rewrite list_lookup_fmap in Hi.
  destruct (its !! i) as [it|] eqn:Hit; [|done]. injection Hi as <-. apply Update_at. by eapply Hat.
Qed.
End Refinement.

(** A single child is the union. *)
Lemma union_one {C : Comparator} {L : ComparatorLaws C} l merged : union_of [l] merged -> merged = l.
Proof.
  intros Hun. assert (Hin : forall p m, merged !! p = Some m -> m ∈ l).
  { intros p m Hp. apply list_elem_of_lookup_2 in Hp. rewrite (un_perm _ _ Hun) in Hp. cbn in Hp. by rewrite app_nil_r in Hp. }
  assert (Hlen : length merged = length l) by (rewrite (un_perm _ _ Hun); cbn; by rewrite app_nil_r).
  assert (Hcut : forall p, (p <= length merged)%nat -> cut merged p l = p).
  { induction p as [|p IH]; intros Hp; [apply cut_zero|]. destruct (lookup_lt_is_Some_2 merged p) as [m Hm]; [lia|].
    destruct (cut_own [l] merged Hun 0 l p m eq_refl Hm (Hin p m Hm)) as [_ ->]. rewrite IH; lia. }
  apply list_eq. intros p. destruct (merged !! p) as [m|] eqn:Hm.
  - destruct (cut_own [l] merged Hun 0 l p m eq_refl Hm (Hin p m Hm)) as [Hl _]. apply lookup_lt_Some in Hm. by rewrite Hcut in Hl by lia.
  - symmetry. apply lookup_ge_None. apply lookup_ge_None in Hm. lia.
Qed.

(** ** The iterator [NewMergingIterator] returns *)

Section Merged.
Context {C : Comparator} {L : ComparatorLaws C} {I : Type} `{!Iterator I}.
Context (kvss : list (list (bytes * bytes))) (merged : list (bytes * bytes)) (at_ : nat -> I -> nat -> Prop).
Context (Hun : union_of kvss merged) (Hch : forall i l, kvss !! i = Some l -> cursor_over l (at_ i)).

Definition merged_at (m : Merged I) (p : nat) : Prop :=
  match m with
  | MergedNone => kvss = [] /\ p = 0%nat
  | MergedOne it => length kvss = 1%nat /\ at_ 0%nat it p
  | MergedMany m => mi_at kvss merged at_ m p
  end.

Lemma no_children : kvss = [] -> merged = [].
Proof. intros ->. apply Permutation_nil. symmetry. apply (un_perm _ _ Hun). Qed.

Lemma one_child : length kvss = 1%nat -> cursor_over merged (at_ 0%nat).
Proof.
  intros Hlen. destruct kvss as [|l [|l2 ks]] eqn:E; try done. rewrite (union_one l merged Hun). by apply (Hch 0%nat).
Qed.

Lemma merged_cursor : cursor_over merged merged_at.
Proof.
  pose proof (merging_cursor kvss merged at_ Hun Hch) as Hm. split.
  - intros [|it|m] p Hp; cbn in Hp; [destruct Hp as [_ ->]; lia|destruct Hp as [Hl Hp]; by eapply (cur_le _ _ (one_child Hl))|by eapply (cur_le _ _ Hm)].
  - intros [|it|m] p Hp; cbn in Hp.
    + destruct Hp as [->%no_children ->]. done.
    + destruct Hp as [Hl Hp]. exact (cur_shows _ _ (one_child Hl) it p Hp).
    + exact (cur_shows _ _ Hm m p Hp).
  - intros [|it|m] p op p' Hp Hop Hst; cbn in Hp |- *.
    + destruct Hp as [Hk ->]. exists MergedNone. split; [done|]. split; [done|]. rewrite (no_children Hk) in Hst. destruct op; cbn in Hst; congruence.
    + destruct Hp as [Hl Hp]. destruct (cur_step _ _ (one_child Hl) it p op p' Hp Hop Hst) as (it' & Hit & Hp'). exists (MergedOne it'). by rewrite Hit.
    + destruct (cur_step _ _ Hm m p op p' Hp Hop Hst) as (m' & Hm' & Hp'). exists (MergedMany m'). cbn in Hm'. by rewrite Hm'.
Qed.

Lemma merged_new its : length its = length kvss ->
  (forall i it l, its !! i = Some it -> kvss !! i = Some l -> at_ i it (length l)) -> merged_at (NewMergingIterator its) (length merged).
Proof.
  intros Hlen Hat. destruct its as [|it [|it2 its]]; cbn [NewMergingIterator merged_at].
  - destruct kvss eqn:E; [|done]. split; [done|]. assert (Hn : merged = []) by (apply Permutation_nil; symmetry; apply (un_perm _ _ Hun)). by rewrite Hn.
  - destruct kvss as [|l [|l2 ks]] eqn:E; try done. split; [done|]. rewrite (union_one l merged Hun). by apply (Hat 0%nat).
  - by apply merging_new.
Qed.
End Merged.

(** ** Properties *)

(** C20. Merging is exact.  Let every child obey the cursor contract on its own
    sorted entries, start not valid, and let no key occur in two entries.  Then
    under every sequence of seeks, forward and backward moves that is allowed on
    the sorted union, every call on the iterator [NewMergingIterator] returns is
    defined, and the iterator shows at each point exactly the entry of the union
    at that position, with an OK status. *)
Theorem merging_iterator_refines {C : Comparator} {L : ComparatorLaws C} {I : Type} `{!Iterator I} kvss merged
    (at_ : nat -> I -> nat -> Prop) its ops p :
  union_of kvss merged -> (forall i l, kvss !! i = Some l -> cursor_over l (at_ i)) -> length its = length kvss ->
  (forall i it l, its !! i = Some it -> kvss !! i = Some l -> at_ i it (length l)) ->
  Forall op_ok ops -> cursor_run merged (length merged) ops = Some p ->
  exists m, irun (NewMergingIterator its) ops = Some m /\ ishows m merged p.
Proof.
  intros Hun Hch Hlen Hat Hops Hrun. pose proof (merged_cursor kvss merged at_ Hun Hch) as Hcur.
  destruct (cursor_run_at merged _ ops Hcur (NewMergingIterator its) (length merged) p) as (m & Hm & Hp); [by apply merged_new|done|done|].
  exists m. split; [done|]. exact (cur_shows _ _ Hcur m p Hp).
Qed.

(** Three blocks, one of them empty, scanned with changes of direction. *)
Definition sample_blocks : list (list (bytes * bytes)) := [[([1], [10]); ([3], [30]); ([5], [50])]; [([2], [20]); ([4], [40])]; []].
Definition sample_union : list (bytes * bytes) := [([1], [10]); ([2], [20]); ([3], [30]); ([4], [40]); ([5], [50])].

Lemma merging_iterator_refines_witness :
  exists m, irun (NewMergingIterator ((fun kvs => bi_open (Block_new (build_block 2 kvs))) <$> sample_blocks))
      [OpFirst; OpNext; OpNext; OpPrev; OpNext; OpNext; OpPrev; OpPrev] = Some m /\ ishows m sample_union 1.
Proof.
  assert (Hsort : forall kvs, kvs ∈ sample_union :: sample_blocks -> sorted_kvs kvs).
  { intros kvs Hkvs. repeat (apply elem_of_cons in Hkvs as [->|Hkvs]; [
      repeat (apply sorted_kvs_cons; [apply (bool_decide_unpack _); vm_compute; exact I| |apply Forall_forall; apply (bool_decide_unpack _); vm_compute; exact I]);
      apply sorted_kvs_nil|]). by apply not_elem_of_nil in Hkvs. }
  assert (Hin : forall i l, sample_blocks !! i = Some l -> l ∈ sample_union :: sample_blocks).
  { intros i l Hi. right. by eapply list_elem_of_lookup_2. }
  apply (merging_iterator_refines sample_blocks sample_union (fun i => match sample_blocks !! i with Some l => bi_at 2 l | None => fun _ _ => False end)).
  - split; [apply Forall_forall; intros l Hl; apply Hsort; by right|apply Hsort; left|]. cbn. solve_Permutation.
  - intros i l Hi. rewrite Hi. apply bi_cursor, Hsort. by eapply Hin.
  - reflexivity.
  - intros i it l Hit Hi. rewrite Hi. rewrite list_lookup_fmap, Hi in Hit. injection Hit as <-. apply bi_open_at; [lia| |].
    + apply list_elem_of_lookup_2 in Hi. repeat (apply elem_of_cons in Hi as [->|Hi]; [apply (bool_decide_unpack _); vm_compute; exact I|]).
      by apply not_elem_of_nil in Hi.
    + apply list_elem_of_lookup_2 in Hi. repeat (apply elem_of_cons in Hi as [->|Hi]; [vm_compute; reflexivity|]). by apply not_elem_of_nil in Hi.
  - repeat constructor.
  - vm_compute. reflexivity.
Defined.
