(* ===== verification/DbIter.v ===== *)
(** * DbIter: the iterator of the database

    src/LSM-EBF/db/db_iter.cc.  [DBIter] turns an iterator over internal keys
    (versions, deletion markers, several per user key) into an iterator over the
    user's keys and values at a snapshot.  The internal iterator is any
    implementation of [Iterator]; the loops take [fuel], which any number above
    that of its entries suffices for.  The reads that [ParseKey] reports to the
    database ([RecordReadSample], which only schedules compactions) are recorded
    in order. *)
From S2P Require Import Prelude Coding Status Random Comparator DbFormat TableFormat Block Iterators.

Module DBIter.

Definition kReadBytesPeriod : Z := 1048576.

Inductive Direction := kForward | kReverse.

Section Code.
Context {user_comparator : Comparator} {I : Type} `{!Iterator I} (fuel : nat).

Record DBIter := MkDBIter {
  iter_ : I;
  sequence_ : Z;
  status_ : Status;
  saved_key_ : bytes;
  saved_value_ : bytes;
  direction_ : Direction;
  valid_ : bool;
  rnd_ : Z;
  bytes_counter_ : Z;
  samples : list bytes
}.

Definition with_iter (d : DBIter) (it : I) : DBIter :=
  MkDBIter it (sequence_ d) (status_ d) (saved_key_ d) (saved_value_ d) (direction_ d) (valid_ d) (rnd_ d) (bytes_counter_ d) (samples d).

Definition with_status (d : DBIter) (s : Status) : DBIter :=
  MkDBIter (iter_ d) (sequence_ d) s (saved_key_ d) (saved_value_ d) (direction_ d) (valid_ d) (rnd_ d) (bytes_counter_ d) (samples d).

Definition SaveKey (d : DBIter) (k : bytes) : DBIter :=
  MkDBIter (iter_ d) (sequence_ d) (status_ d) k (saved_value_ d) (direction_ d) (valid_ d) (rnd_ d) (bytes_counter_ d) (samples d).

Definition SaveValue (d : DBIter) (v : bytes) : DBIter :=
  MkDBIter (iter_ d) (sequence_ d) (status_ d) (saved_key_ d) v (direction_ d) (valid_ d) (rnd_ d) (bytes_counter_ d) (samples d).

Definition with_direction (d : DBIter) (x : Direction) : DBIter :=
  MkDBIter (iter_ d) (sequence_ d) (status_ d) (saved_key_ d) (saved_value_ d) x (valid_ d) (rnd_ d) (bytes_counter_ d) (samples d).

Definition with_valid (d : DBIter) (b : bool) : DBIter :=
  MkDBIter (iter_ d) (sequence_ d) (status_ d) (saved_key_ d) (saved_value_ d) (direction_ d) b (rnd_ d) (bytes_counter_ d) (samples d).

Definition with_sampling (d : DBIter) (rnd counter : Z) (ks : list bytes) : DBIter :=
  MkDBIter (iter_ d) (sequence_ d) (status_ d) (saved_key_ d) (saved_value_ d) (direction_ d) (valid_ d) rnd counter (samples d ++ ks).

(** Both branches leave the string empty. *)
Definition ClearSavedValue (d : DBIter) : DBIter := SaveValue d [].

Definition RandomPeriod (rnd : Z) : Z * Z := Random.Uniform rnd (2 * kReadBytesPeriod).

Definition NewDBIterator (internal_iter : I) (sequence seed : Z) : DBIter :=
  let '(counter, rnd) := RandomPeriod (Random.make seed) in
  MkDBIter internal_iter sequence Status_OK [] [] kForward false rnd counter [].

Definition di_key (d : DBIter) : bytes :=
  match direction_ d with kForward => ExtractUserKey (ikey (iter_ d)) | kReverse => saved_key_ d end.

Definition di_value (d : DBIter) : bytes :=
  match direction_ d with kForward => ivalue (iter_ d) | kReverse => saved_value_ d end.

Definition di_status (d : DBIter) : Status := if ok (status_ d) then istatus (iter_ d) else status_ d.

(** [while (bytes_counter_ < 0)]: a sample of the key for each period passed. *)
Fixpoint sample_loop (n : nat) (k : bytes) (rnd counter : Z) (ks : list bytes) : option (Z * Z * list bytes) :=
  if counter <? 0 then
    match n with
    | O => None
    | S n => let '(period, rnd) := RandomPeriod rnd in sample_loop n k rnd (counter + period) (ks ++ [k])
    end
  else Some (rnd, counter, ks).

Definition ParseKey (d : DBIter) : option (option ParsedInternalKey * DBIter) :=
  let k := ikey (iter_ d) in
  let n := zlen k + zlen (ivalue (iter_ d)) in
  '(rnd, counter, ks) ← sample_loop (Z.to_nat (2 * n)) k (rnd_ d) (bytes_counter_ d - n) [];
  let d := with_sampling d rnd counter ks in
  match ParseInternalKey k with
  | None => Some (None, with_status d (Corruption (str "corrupted internal key in DBIter") []))
  | Some p => Some (Some p, d)
  end.

Definition move (d : DBIter) (op : iter_op) : option DBIter := it ← istep (iter_ d) op; Some (with_iter d it).

(** The parsed key, when there is one and the snapshot sees it. *)
Definition seen (d : DBIter) (p : option ParsedInternalKey) : option ParsedInternalKey :=
  p ← p; if sequence p <=? sequence_ d then Some p else None.

(** [skip] always points to [saved_key_]. *)
Fixpoint FindNextUserEntry (n : nat) (skipping : bool) (d : DBIter) : option DBIter :=
  match n with
  | O => None
  | S n =>
      let advance skipping d :=
        d ← move d OpNext;
        if iValid (iter_ d) then FindNextUserEntry n skipping d else Some (with_valid (SaveKey d []) false) in
      '(p, d) ← ParseKey d;
      match seen d p with
      | None => advance skipping d
      | Some p =>
          match type p with
          | kTypeDeletion => advance true (SaveKey d (user_key p))
          | kTypeValue =>
              if skipping && (Compare (user_key p) (saved_key_ d) <=? 0) then advance skipping d
              else Some (SaveKey (with_valid d true) [])
          end
      end
  end.

Definition di_Next (d : DBIter) : option DBIter :=
  match direction_ d with
  | kReverse =>
      d ← move (with_direction d kForward) (if iValid (iter_ d) then OpNext else OpFirst);
      if iValid (iter_ d) then FindNextUserEntry fuel true d else Some (SaveKey (with_valid d false) [])
  | kForward => FindNextUserEntry fuel true (SaveKey d (ExtractUserKey (ikey (iter_ d))))
  end.

(** The loop of [FindPrevUserEntry] from a valid position, with [value_type]. *)
Fixpoint prev_loop (n : nat) (value_type : ValueType) (d : DBIter) : option (ValueType * DBIter) :=
  match n with
  | O => None
  | S n =>
      let retreat vt d :=
        d ← move d OpPrev;
        if iValid (iter_ d) then prev_loop n vt d else Some (vt, d) in
      '(p, d) ← ParseKey d;
      match seen d p with
      | None => retreat value_type d
      | Some p =>
          if negb (bool_decide (value_type = kTypeDeletion)) && (Compare (user_key p) (saved_key_ d) <? 0) then Some (value_type, d)
          else
            match type p with
            | kTypeDeletion => retreat kTypeDeletion (ClearSavedValue (SaveKey d []))
            | kTypeValue => retreat kTypeValue (SaveValue (SaveKey d (ExtractUserKey (ikey (iter_ d)))) (ivalue (iter_ d)))
            end
      end
  end.

Definition FindPrevUserEntry (d : DBIter) : option DBIter :=
  '(vt, d) ← (if iValid (iter_ d) then prev_loop fuel kTypeDeletion d else Some (kTypeDeletion, d));
  match vt with
  | kTypeDeletion => Some (with_direction (ClearSavedValue (SaveKey (with_valid d false) [])) kForward)
  | kTypeValue => Some (with_valid d true)
  end.

(** [while (true)] of [Prev]: back to a smaller user key; [None] inside the
    result when there is none. *)
Fixpoint back_loop (n : nat) (d : DBIter) : option (bool * DBIter) :=
  match n with
  | O => None
  | S n =>
      d ← move d OpPrev;
      if negb (iValid (iter_ d)) then Some (false, d)
      else if Compare (ExtractUserKey (ikey (iter_ d))) (saved_key_ d) <? 0 then Some (true, d)
      else back_loop n d
  end.

Definition di_Prev (d : DBIter) : option DBIter :=
  match direction_ d with
  | kForward =>
      '(found, d) ← back_loop fuel (SaveKey d (ExtractUserKey (ikey (iter_ d))));
      if (found : bool) then FindPrevUserEntry (with_direction d kReverse)
      else Some (ClearSavedValue (SaveKey (with_valid d false) []))
  | kReverse => FindPrevUserEntry d
  end.

Definition di_Seek (d : DBIter) (target : bytes) : option DBIter :=
  let d := SaveKey (ClearSavedValue (with_direction d kForward))
    (AppendInternalKey [] {| user_key := target; sequence := sequence_ d; type := kValueTypeForSeek |}) in
  d ← move d (OpSeek (saved_key_ d));
  if iValid (iter_ d) then FindNextUserEntry fuel false d else Some (with_valid d false).

Definition di_SeekToFirst (d : DBIter) : option DBIter :=
  d ← move (ClearSavedValue (with_direction d kForward)) OpFirst;
  if iValid (iter_ d) then FindNextUserEntry fuel false d else Some (with_valid d false).

Definition di_SeekToLast (d : DBIter) : option DBIter :=
  d ← move (ClearSavedValue (with_direction d kReverse)) OpLast;
  FindPrevUserEntry d.

Definition di_step (d : DBIter) (op : iter_op) : option DBIter :=
  match op with
  | OpFirst => di_SeekToFirst d
  | OpLast => di_SeekToLast d
  | OpSeek target => di_Seek d target
  | OpNext => di_Next d
  | OpPrev => di_Prev d
  end.

Definition DBIter_Iterator : Iterator DBIter := {|
  iValid := valid_; ikey := di_key; ivalue := di_value; istatus := di_status; istep := di_step
|}.
End Code.
Arguments DBIter : clear implicits.
End DBIter.
