(* ===== verification/DbSnapshot.v ===== *)
(** * DbSnapshot: what the database iterator shows

    The contract of [DBIter] (src/LSM-EBF/db/db_iter.cc, model in DbIter): over
    any sorted sequence of versions of user keys, it is a cursor over the user's
    view at a snapshot: for every user key the newest version the snapshot sees,
    unless that version is a deletion. *)
From S2P Require Import Prelude Coding Status Random Comparator DbFormat TableFormat Block Iterators TwoLevel Merger DbIter.
Import DBIter.

(** ** Sampling ends *)

(** No two draws in a row are empty periods. *)
Lemma periods_not_zero seed : Random.seed_ok seed ->
  Random.Next seed mod 2 ^ 21 = 0 -> Random.Next (Random.Next seed) mod 2 ^ 21 <> 0.
Proof.
  intros Hs E. destruct (Random.Next_mod seed Hs) as [_ Hok]. set (x := Random.Next seed) in *.
  destruct (Random.Next_mod x Hok) as [-> _]. unfold Random.seed_ok, Random.M in Hok.
  apply Z.mod_divide in E as [a Ha]; [|done]. rewrite Ha in *. assert (Ha1 : 1 <= a < 1024) by lia.
  assert (Hall : forall n, 1 <= n < 1024 -> (n * 2 ^ 21 * Random.A) mod Random.M mod 2 ^ 21 <> 0).
  { intros n Hn. assert (Hc : forallb (fun i => negb ((Z.of_nat i * 2 ^ 21 * Random.A) mod Random.M mod 2 ^ 21 =? 0)) (seq 1 1023) = true) by (vm_compute; reflexivity).
    rewrite forallb_forall in Hc. specialize (Hc (Z.to_nat n) ltac:(apply in_seq; lia)). rewrite Z2Nat.id in Hc by lia. zsimp. done. }
  by apply Hall.
Qed.

Lemma RandomPeriod_eq rnd : RandomPeriod rnd = (Random.Next rnd mod 2 ^ 21, Random.Next rnd).
Proof. reflexivity. Qed.

Lemma sample_loop_ok n : forall k rnd counter ks, Random.seed_ok rnd -> - 2 * counter <= Z.of_nat n ->
  exists rnd' counter' ks', sample_loop n k rnd counter ks = Some (rnd', counter', ks') /\ Random.seed_ok rnd' /\ 0 <= counter'.
Proof.
  induction n as [n IH] using lt_wf_ind. intros k rnd counter ks Hr Hc. destruct n as [|n].
  { cbn. rewrite (proj2 (Z.ltb_ge _ _)) by lia. eexists _, _, _. split; [done|]. split; [done|lia]. }
  cbn [sample_loop]. destruct (Z.ltb_spec counter 0) as [Hneg|]; [|eexists _, _, _; split; [done|]; split; [done|lia]].
  rewrite RandomPeriod_eq. destruct (Random.Next_mod rnd Hr) as [_ Hr1]. pose proof (Z.mod_pos_bound (Random.Next rnd) (2 ^ 21) ltac:(lia)) as Hb.
  destruct (Z.eq_dec (Random.Next rnd mod 2 ^ 21) 0) as [E|Hne]; [|by apply IH; [lia|done|lia]].
  destruct n as [|n]; [lia|]. cbn [sample_loop]. rewrite E, Z.add_0_r, (proj2 (Z.ltb_lt _ _)) by lia. rewrite RandomPeriod_eq.
  destruct (Random.Next_mod _ Hr1) as [_ Hr2]. pose proof (Z.mod_pos_bound (Random.Next (Random.Next rnd)) (2 ^ 21) ltac:(lia)).
  pose proof (periods_not_zero rnd Hr E). apply IH; [lia|done|lia].
Qed.

(** ** Versions and the view at a snapshot *)

Record version := MkVersion { v_user : bytes; v_seq : Z; v_type : ValueType; v_value : bytes }.

Definition encode (v : version) : bytes * bytes := (DbFormat.ikey (v_user v) (PackSequenceAndType (v_seq v) (v_type v)), v_value v).

Definition encode_all (l : list version) : list (bytes * bytes) := encode <$> l.
Definition encode_sources (ls : list (list version)) : list (list (bytes * bytes)) := encode_all <$> ls.

Section View.
Context {C : Comparator} (s : Z) (vs : list version).

Definition sees (v : version) : bool := v_seq v <=? s.

(** Version [i] is what the snapshot shows for its user key: seen, a value, and
    no newer seen version of the key. *)
Definition live (i : nat) : bool :=
  match vs !! i with
  | Some v => sees v && bool_decide (v_type v = kTypeValue) &&
      negb (existsb (fun w => sees w && (Compare (v_user w) (v_user v) =? 0)) (take i vs))
  | None => false
  end.

Definition shown (i : nat) : bytes * bytes := match vs !! i with Some v => (v_user v, v_value v) | None => ([], []) end.

Definition snapshot : list (bytes * bytes) := shown <$> base.filter (fun i => live i = true) (seq 0 (length vs)).

(** The number of shown versions before [i]. *)
Definition rank (i : nat) : nat := length (base.filter (fun i => live i = true) (seq 0 i)).

Lemma live_spec i : live i = true <-> exists v, vs !! i = Some v /\ sees v = true /\ v_type v = kTypeValue /\
  forall a w, (a < i)%nat -> vs !! a = Some w -> sees w = true -> Compare (v_user w) (v_user v) <> 0.
Proof.
  unfold live. destruct (vs !! i) as [v|] eqn:Hi; [|split; [done|by intros (? & ? & _)]]. rewrite !andb_true_iff, negb_true_iff, bool_decide_eq_true. split.
  - intros [[Hs Ht] He]. exists v. split_and!; try done. intros a w Ha Hw Hsw E.
    assert (Hex : existsb (fun w => sees w && (Compare (v_user w) (v_user v) =? 0)) (take i vs) = true); [|congruence].
    apply existsb_exists. exists w. split; [|by rewrite Hsw, E]. apply list_elem_of_In, list_elem_of_lookup. exists a. by apply lookup_take_Some.
  - intros (v' & [= <-] & Hs & Ht & Hno). split; [done|]. destruct (existsb _ _) eqn:He; [|done].
    apply existsb_exists in He as (w & Hw & Hsw). apply andb_true_iff in Hsw as [Hsw E%Z.eqb_eq].
    apply list_elem_of_In, list_elem_of_lookup in Hw as [a Ha]. apply lookup_take_Some in Ha as [Ha Hlt]. by destruct (Hno a w Hlt Ha Hsw).
Qed.

Lemma live_lt i : live i = true -> (i < length vs)%nat.
Proof. rewrite live_spec. intros (v & Hv & _). by eapply lookup_lt_Some. Qed.

Lemma rank_S i : rank (S i) = (rank i + if live i then 1 else 0)%nat.
Proof.
  unfold rank. rewrite seq_S, filter_app, length_app. f_equal. cbn [plus]. destruct (live i) eqn:Hl.
  - by rewrite filter_cons_True.
  - rewrite filter_cons_False by congruence. done.
Qed.

Lemma rank_const a b : (a <= b)%nat -> (forall k, (a <= k < b)%nat -> live k = false) -> rank b = rank a.
Proof.
  intros Hab Hno. induction b as [|b IH]; [by assert (a = 0)%nat as -> by lia|].
  destruct (decide (a = S b)) as [->|Hne]; [done|]. rewrite rank_S, (Hno b) by lia. rewrite IH; [lia|lia|]. intros k Hk. apply Hno. lia.
Qed.

Lemma snapshot_rank i : live i = true -> snapshot !! rank i = Some (shown i).
Proof.
  intros Hl. pose proof (live_lt i Hl) as Hi. unfold snapshot. rewrite list_lookup_fmap.
  replace (seq 0 (length vs)) with (seq 0 i ++ seq i (length vs - i)) by (change (seq i (length vs - i)) with (seq (0 + i) (length vs - i)); rewrite <- seq_app; f_equal; lia).
  rewrite filter_app, lookup_app_r by (unfold rank; lia). unfold rank. rewrite Nat.sub_diag.
  replace (length vs - i)%nat with (S (length vs - i - 1)) by lia. cbn [seq]. by rewrite filter_cons_True.
Qed.

Lemma snapshot_length : length snapshot = rank (length vs).
Proof. unfold snapshot. apply length_fmap. Qed.

Lemma rank_mono a b : (a <= b)%nat -> (rank a <= rank b)%nat.
Proof. intros H. induction H as [|b H IH]; [lia|]. rewrite rank_S. destruct (live b); lia. Qed.

Lemma rank_lt i : live i = true -> (rank i < length snapshot)%nat.
Proof. intros Hl. apply snapshot_rank in Hl. by eapply lookup_lt_Some. Qed.

(** Exactly one shown version in a range. *)
Lemma rank_one a b j : (a <= j < b)%nat -> live j = true -> (forall k, (a <= k < b)%nat -> live k = true -> k = j) -> rank b = S (rank a) /\ rank j = rank a.
Proof.
  intros Hj Hl Huniq. assert (Hno : forall k, (a <= k < b)%nat -> k <> j -> live k = false).
  { intros k Hk Hne. destruct (live k) eqn:E; [|done]. by destruct (Hne (Huniq k Hk E)). }
  assert (E1 : rank j = rank a) by (apply rank_const; [lia|]; intros k Hk; apply Hno; lia).
  assert (E2 : rank b = rank (S j)) by (apply rank_const; [lia|]; intros k Hk; apply Hno; lia).
  rewrite E2, rank_S, Hl, E1. split; [lia|done].
Qed.
End View.

(** ** The iterator is a cursor over the view *)

Section Refinement.
Context {C : Comparator} {L : ComparatorLaws C} {I : Type} `{!Iterator I} (fuel : nat).
Context (s : Z) (vs : list version) (at_ : I -> nat -> Prop).

(** What the internal iterator promises. *)
Record versions_ok : Prop := {
  vo_seq : seq_ok s;
  vo_versions : Forall (fun v => valid_key (v_user v) /\ seq_ok (v_seq v)) vs;
  vo_sorted : sorted_kvs (C := InternalKeyComparatorOf C) (encode <$> vs);
  vo_cursor : cursor_over (H := InternalKeyComparatorOf C) (encode <$> vs) at_;
  vo_fuel : (length vs < fuel)%nat
}.
Context (Hvs : versions_ok).

Abbreviation live := (live s vs).
Abbreviation rank := (rank s vs).
Abbreviation sees := (sees s).
Abbreviation cmp a b := (Compare (v_user a) (v_user b)).

Lemma valid_user i v : vs !! i = Some v -> valid_key (v_user v).
Proof. intros Hi. by destruct (Forall_lookup_1 _ _ _ _ (vo_versions Hvs) Hi). Qed.

(** Versions are ordered by user key. *)
Lemma user_order i j v w : (i <= j)%nat -> vs !! i = Some v -> vs !! j = Some w -> cmp v w <= 0.
Proof.
  intros Hij Hi Hj. destruct (decide (i = j)) as [->|Hne].
  - rewrite Hi in Hj. injection Hj as <-. rewrite cmp_refl; [lia|by eapply valid_user].
  - destruct (vo_sorted Hvs) as [_ Hs]. specialize (Hs i j (encode v) (encode w) ltac:(lia)). rewrite !list_lookup_fmap, Hi, Hj in Hs.
    specialize (Hs eq_refl eq_refl). cbn in Hs. rewrite internal_compare_lt, !ExtractUserKey_ikey in Hs. destruct Hs as [?|[? _]]; lia.
Qed.

Lemma at_le it i : at_ it i -> (i <= length vs)%nat.
Proof. intros Hat. pose proof (cur_le _ _ (vo_cursor Hvs) it i Hat) as Hle. by rewrite length_fmap in Hle. Qed.

Lemma at_shows it i : at_ it i -> istatus it = Status_OK /\
  match vs !! i with
  | Some v => iValid it = true /\ ikey it = (encode v).1 /\ ivalue it = v_value v
  | None => iValid it = false
  end.
Proof.
  intros Hat. destruct (cur_shows _ _ (vo_cursor Hvs) it i Hat) as [Hst Hs]. split; [done|].
  rewrite list_lookup_fmap in Hs. by destruct (vs !! i).
Qed.

Lemma at_step it i op i' : at_ it i -> op_ok (C := InternalKeyComparatorOf C) op ->
  cursor_step (H := InternalKeyComparatorOf C) (encode <$> vs) i op = Some i' -> exists it', istep it op = Some it' /\ at_ it' i'.
Proof. apply (cur_step _ _ (vo_cursor Hvs)). Qed.

(** What every state keeps. *)
Definition common (d : DBIter I) : Prop :=
  sequence_ d = s /\ status_ d = Status_OK /\ Random.seed_ok (rnd_ d) /\ 0 <= bytes_counter_ d.

(** [c] versions are at or before the iterator, which goes backwards. *)
Definition before (d : DBIter I) (c : nat) : Prop :=
  (c <= length vs)%nat /\ at_ (iter_ d) (if (c =? 0)%nat then length vs else c - 1)%nat.

Definition backward_on (d : DBIter I) (i : nat) : Prop :=
  exists c v, before d c /\ (c <= i)%nat /\ vs !! i = Some v /\ live i = true /\ saved_key_ d = v_user v /\ saved_value_ d = v_value v /\
    (forall k w, (c <= k < i)%nat -> vs !! k = Some w -> sees w = false) /\
    (c = 0%nat \/ exists w, vs !! (c - 1)%nat = Some w /\ cmp w v < 0).

Definition di_at (d : DBIter I) (p : nat) : Prop :=
  common d /\
  if valid_ d then
    exists i, live i = true /\ p = rank i /\
      match direction_ d with kForward => at_ (iter_ d) i | kReverse => backward_on d i end
  else p = length (snapshot s vs) /\ exists i, at_ (iter_ d) i.

(** [ParseKey] on version [i]. *)
Lemma ParseKey_ok d i v : common d -> at_ (iter_ d) i -> vs !! i = Some v -> exists rnd counter ks,
  let d' := with_sampling d rnd counter ks in
  ParseKey d = Some (Some {| user_key := v_user v; sequence := v_seq v; type := v_type v |}, d') /\ common d' /\
  seen d' (Some {| user_key := v_user v; sequence := v_seq v; type := v_type v |})
    = if sees v then Some {| user_key := v_user v; sequence := v_seq v; type := v_type v |} else None.
Proof.
  intros (Hs & Hst & Hr & Hc) Hat Hi. destruct (at_shows _ _ Hat) as [_ Hsh]. rewrite Hi in Hsh. destruct Hsh as (_ & Hk & Hv).
  unfold ParseKey. cbn zeta. set (n := zlen (ikey (iter_ d)) + zlen (ivalue (iter_ d))).
  assert (0 <= n) by (unfold n; pose proof (zlen_nonneg (ikey (iter_ d))); pose proof (zlen_nonneg (ivalue (iter_ d))); lia).
  destruct (sample_loop_ok (Z.to_nat (2 * n)) (ikey (iter_ d)) (rnd_ d) (bytes_counter_ d - n) []) as (rnd & counter & ks & -> & Hr' & Hc'); [done|lia|].
  cbn [mbind option_bind]. rewrite Hk. destruct (Forall_lookup_1 _ _ _ _ (vo_versions Hvs) Hi) as [_ Hsq].
  cbn [encode fst]. rewrite ParseInternalKey_ikey by done. exists rnd, counter, ks. split; [done|]. split; [done|].
  cbn. unfold DbSnapshot.sees. by rewrite Hs.
Qed.

Lemma move_ok d i op i' : common d -> at_ (iter_ d) i -> op_ok (C := InternalKeyComparatorOf C) op ->
  cursor_step (H := InternalKeyComparatorOf C) (encode <$> vs) i op = Some i' ->
  exists it, move d op = Some (with_iter d it) /\ at_ it i' /\ iValid it = bool_decide (i' < length vs)%nat.
Proof.
  intros Hc Hat Hop Hst. destruct (at_step _ _ _ _ Hat Hop Hst) as (it & Hit & Hat'). unfold move. rewrite Hit. exists it. split; [done|]. split; [done|].
  rewrite (at_valid _ _ _ _ (vo_cursor Hvs) Hat'). by rewrite length_fmap.
Qed.

Lemma next_ok d i : common d -> at_ (iter_ d) i -> (i < length vs)%nat ->
  exists it, move d OpNext = Some (with_iter d it) /\ at_ it (S i) /\ iValid it = bool_decide (S i < length vs)%nat.
Proof. intros Hc Hat Hi. apply (move_ok d i); [done|done|done|]. cbn [cursor_step]. by rewrite length_fmap, (proj2 (Nat.ltb_lt _ _) Hi). Qed.

Lemma prev_ok d c : common d -> at_ (iter_ d) c -> (c < length vs)%nat ->
  exists it, move d OpPrev = Some (with_iter d it) /\ before (with_iter d it) c /\ iValid it = negb (c =? 0)%nat.
Proof.
  intros Hc Hat Hi. destruct (move_ok d c OpPrev (if (c =? 0)%nat then length vs else c - 1)%nat) as (it & Hm & Hat' & Hv); [done|done|done| |].
  { cbn [cursor_step]. rewrite length_fmap, (proj2 (Nat.ltb_lt _ _) Hi). done. }
  exists it. split; [done|]. split; [split; [lia|done]|]. rewrite Hv. destruct (Nat.eqb_spec c 0).
  - by rewrite bool_decide_false by lia.
  - by rewrite bool_decide_true by lia.
Qed.

(** *** Forwards

    [out] are the versions a search may stop at. *)
Record skip_ok (out : nat -> Prop) (i : nat) (skipping : bool) (k : bytes) : Prop := {
  sk_valid : skipping = true -> valid_key k;
  sk_hidden : forall j v a w, (i <= j)%nat -> vs !! j = Some v -> sees v = true -> (a < i)%nat -> vs !! a = Some w -> sees w = true ->
    cmp w v = 0 -> skipping = true /\ Compare (v_user v) k <= 0;
  sk_sound : skipping = true -> forall j v, (i <= j)%nat -> vs !! j = Some v -> sees v = true -> Compare (v_user v) k <= 0 ->
    ~ (live j = true /\ out j);
  sk_out : forall j v, (i <= j)%nat -> vs !! j = Some v -> sees v = true -> ~ (skipping = true /\ Compare (v_user v) k <= 0) -> out j
}.

(** A later user key may be stopped at. *)
Definition out_later (out : nat -> Prop) (i0 : nat) : Prop :=
  forall a w j v, (i0 <= a)%nat -> (a < j)%nat -> vs !! a = Some w -> sees w = true -> vs !! j = Some v -> sees v = true -> cmp w v < 0 -> out j.

Lemma skip_unseen out i sk k v : vs !! i = Some v -> sees v = false -> skip_ok out i sk k -> skip_ok out (S i) sk k.
Proof.
  intros Hi Hv [H1 H2 H3 H4]. split; [done| | |].
  - intros j x a w Hj Hx Hsx Ha Hw Hsw E. assert (a <> i) by (intros ->; congruence). by apply (H2 j x a w); [lia|done|done|lia|..].
  - intros Hsk j x Hj. apply H3; [done|lia].
  - intros j x Hj. apply H4. lia.
Qed.

Lemma skip_deletion out i0 i sk k v : (i0 <= i)%nat -> out_later out i0 -> vs !! i = Some v -> sees v = true -> v_type v = kTypeDeletion ->
  skip_ok out i sk k -> skip_ok out (S i) true (v_user v).
Proof.
  intros Hi0 Hout Hi Hv Ht [H1 H2 H3 H4]. pose proof (valid_user _ _ Hi) as Vv. split.
  - intros _. done.
  - intros j x a w Hj Hx Hsx Ha Hw Hsw E. split; [done|]. pose proof (user_order a i w v ltac:(lia) Hw Hi) as Hwv.
    apply (cmp_trans (v_user x) (v_user w) (v_user v)); [by eapply valid_user|by eapply valid_user|done| |done].
    rewrite (cmp_eq_sym (v_user w) (v_user x)); [lia|by eapply valid_user..|done].
  - intros _ j x Hj Hx Hsx Hle [Hl _]. apply live_spec in Hl as (x' & Hx' & _ & _ & Hno). rewrite Hx in Hx'. injection Hx' as <-.
    apply (Hno i v); [lia|done|done|]. pose proof (user_order i j v x ltac:(lia) Hi Hx) as Hvx.
    pose proof (cmp_antisym (v_user v) (v_user x) Vv (valid_user _ _ Hx)). lia.
  - intros j x Hj Hx Hsx Hno. apply (Hout i v j x); [done|lia|done|done|done|done|].
    apply cmp_sgn_opp; [done|by eapply valid_user|]. destruct (Z.le_gt_cases (Compare (v_user x) (v_user v)) 0) as [Hle|]; [|lia]. by destruct Hno.
Qed.

Lemma skip_value out i k v : vs !! i = Some v -> sees v = true -> Compare (v_user v) k <= 0 ->
  skip_ok out i true k -> skip_ok out (S i) true k.
Proof.
  intros Hi Hv Hle [H1 H2 H3 H4]. split; [done| | |].
  - intros j x a w Hj Hx Hsx Ha Hw Hsw E. split; [done|]. destruct (decide (a = i)) as [->|Hne].
    + rewrite Hi in Hw. injection Hw as <-. apply (cmp_trans (v_user x) (v_user v) k); [by eapply valid_user|by eapply valid_user|by apply H1| |done].
      rewrite (cmp_eq_sym (v_user v) (v_user x)); [lia|by eapply valid_user..|done].
    + by apply (H2 j x a w); [lia|done|done|lia|..].
  - intros _ j x Hj. apply H3; [done|lia].
  - intros j x Hj. apply H4. lia.
Qed.

Lemma stop_live out i sk k v : vs !! i = Some v -> sees v = true -> v_type v = kTypeValue -> ~ (sk = true /\ Compare (v_user v) k <= 0) ->
  skip_ok out i sk k -> live i = true /\ out i.
Proof.
  intros Hi Hv Ht Hno [H1 H2 H3 H4]. split; [|by apply (H4 i v)]. apply live_spec. exists v. split_and!; try done.
  intros a w Ha Hw Hsw E. apply Hno. by apply (H2 i v a w).
Qed.

(** The first version from [i] on that is shown and may be stopped at. *)
Definition first_from (out : nat -> Prop) (i : nat) (d : DBIter I) : Prop :=
  if valid_ d then exists j, (i <= j)%nat /\ at_ (iter_ d) j /\ live j = true /\ out j /\ forall k, (i <= k < j)%nat -> ~ (live k = true /\ out k)
  else (exists j, at_ (iter_ d) j) /\ forall k, (i <= k)%nat -> ~ (live k = true /\ out k).

Lemma first_from_S out i d : ~ (live i = true /\ out i) -> first_from out (S i) d -> first_from out i d.
Proof.
  intros Hno. unfold first_from. destruct (valid_ d).
  - intros (j & Hj & Hat & Hl & Ho & Hk). exists j. split_and!; try done; [lia|]. intros k Hik. destruct (decide (k = i)) as [->|]; [done|]. apply Hk. lia.
  - intros [Hat Hk]. split; [done|]. intros k Hik. destruct (decide (k = i)) as [->|]; [done|]. apply Hk. lia.
Qed.

Lemma FindNext_ok out i0 : out_later out i0 -> forall m d i sk, (length vs - i < m)%nat -> (i0 <= i < length vs)%nat -> common d ->
  direction_ d = kForward -> at_ (iter_ d) i -> skip_ok out i sk (saved_key_ d) ->
  exists d', FindNextUserEntry m sk d = Some d' /\ common d' /\ direction_ d' = kForward /\ first_from out i d'.
Proof.
  intros Hout. induction m as [|m IH]; intros d i sk Hm Hi Hc Hdir Hat Hsk; [lia|]. cbn [FindNextUserEntry].
  destruct (lookup_lt_is_Some_2 vs i) as [v Hv]; [lia|]. destruct (ParseKey_ok d i v Hc Hat Hv) as (rnd & counter & ks & -> & Hc1 & Hseen).
  cbn [mbind option_bind]. set (d1 := with_sampling d rnd counter ks) in *.
  assert (Hadv : forall sk' k', ~ (live i = true /\ out i) -> skip_ok out (S i) sk' k' ->
    exists d', (d0 ← move (SaveKey d1 k') OpNext; if iValid (iter_ d0) then FindNextUserEntry m sk' d0 else Some (with_valid (SaveKey d0 []) false)) = Some d' /\
      common d' /\ direction_ d' = kForward /\ first_from out i d').
  { intros sk' k' Hno Hsk'. destruct (next_ok (SaveKey d1 k') i) as (it & -> & Hat' & Hval); [done|done|lia|]. cbn [mbind option_bind].
    change (iValid (iter_ (with_iter (SaveKey d1 k') it))) with (iValid it). rewrite Hval. case_bool_decide as Hlt.
    - destruct (IH (with_iter (SaveKey d1 k') it) (S i) sk') as (d' & Hd' & Hc' & Hdir' & Hf); [lia|lia|done|done|done|done|].
      exists d'. split_and!; [done|done|done|]. by apply first_from_S.
    - eexists. split; [done|]. split; [done|]. split; [done|]. unfold first_from. cbn. split; [by exists (S i)|]. intros k Hk [Hl Ho].
      pose proof (live_lt s vs k Hl). assert (k = i) as -> by lia. by apply Hno. }
  assert (Hsame : SaveKey d1 (saved_key_ d1) = d1) by (by destruct d).
  rewrite Hseen. destruct (sees v) eqn:Hs.
  - cbn [type user_key]. destruct (v_type v) eqn:Ht.
    + apply Hadv; [|by eapply (skip_deletion out i0 i sk (saved_key_ d)); [lia|..]].
      intros [Hl _]. apply live_spec in Hl as (v' & Hv' & _ & Ht' & _). rewrite Hv in Hv'. injection Hv' as <-. congruence.
    + change (saved_key_ d1) with (saved_key_ d). destruct (sk && (Compare (v_user v) (saved_key_ d) <=? 0)) eqn:Hskip.
      * apply andb_true_iff in Hskip as [-> Hle%Z.leb_le]. rewrite <- Hsame. apply Hadv.
        -- by apply (sk_sound _ _ _ _ Hsk eq_refl i v).
        -- by apply (skip_value out i (saved_key_ d) v).
      * assert (Hno : ~ (sk = true /\ Compare (v_user v) (saved_key_ d) <= 0)).
        { intros [-> Hle%Z.leb_le]. by rewrite Hle in Hskip. }
        destruct (stop_live out i sk _ v Hv Hs Ht Hno Hsk) as [Hl Ho]. eexists. split; [done|]. split; [done|]. split; [done|].
        unfold first_from. cbn. exists i. split_and!; try done. intros k Hk. lia.
  - rewrite <- Hsame. apply Hadv; [|by eapply skip_unseen].
    intros [Hl _]. apply live_spec in Hl as (v' & Hv' & Hs' & _). rewrite Hv in Hv'. injection Hv' as <-. congruence.
Qed.

(** From the place found to the position in the view. *)
Lemma first_at i d : common d -> direction_ d = kForward -> first_from (fun _ => True) i d -> di_at d (rank i).
Proof.
  intros Hc Hdir Hf. split; [done|]. unfold first_from in Hf. destruct (valid_ d).
  - destruct Hf as (j & Hj & Hat & Hl & _ & Hk). exists j. rewrite Hdir. split_and!; [done| |done]. symmetry. apply rank_const; [done|].
    intros k Hik. destruct (live k) eqn:E; [|done]. by destruct (Hk k Hik).
  - destruct Hf as [Hat Hk]. split; [|done]. rewrite snapshot_length. destruct (Nat.le_gt_cases i (length vs)) as [Hle|Hgt].
    + symmetry. apply rank_const; [done|]. intros k Hik. destruct (live k) eqn:E; [|done]. by destruct (Hk k ltac:(lia)).
    + apply rank_const; [lia|]. intros k Hik. destruct (live k) eqn:E; [|done]. apply live_lt in E. lia.
Qed.

(** A shown version after the one at [i], of another user key. *)
Lemma next_first_at c i v d : (c <= i)%nat -> vs !! i = Some v -> live i = true -> common d -> direction_ d = kForward ->
  (forall k w, (c <= k)%nat -> vs !! k = Some w -> live k = true -> cmp w v = 0 -> k = i) ->
  (forall k, (c <= k < i)%nat -> live k = false) ->
  first_from (fun j => exists w, vs !! j = Some w /\ cmp w v <> 0) c d -> di_at d (S (rank i)).
Proof.
  intros Hci Hi Hl Hc Hdir Huniq Hbefore Hf. split; [done|]. unfold first_from in Hf.
  assert (Hskip : forall k, (c <= k)%nat -> ~ (live k = true /\ exists w, vs !! k = Some w /\ cmp w v <> 0) -> live k = true -> k = i).
  { intros k Hk Hno Hlk. pose proof Hlk as (w & Hw & _)%live_spec. destruct (Z.eq_dec (cmp w v) 0) as [E|Hne]; [by apply (Huniq k w)|].
    destruct Hno. split; [done|]. by exists w. }
  assert (Erank : rank (S i) = S (rank i)) by (rewrite rank_S, Hl; lia).
  destruct (valid_ d).
  - destruct Hf as (j & Hj & Hat & Hlj & (w & Hw & Hne) & Hk). exists j. rewrite Hdir. split_and!; [done| |done].
    assert (Hij : (i < j)%nat).
    { destruct (lt_eq_lt_dec i j) as [[?| ->]|Hlt]; [done| |].
      - rewrite Hi in Hw. injection Hw as <-. rewrite cmp_refl in Hne; [done|by eapply valid_user].
      - rewrite Hbefore in Hlj; [done|lia]. }
    rewrite <- Erank. symmetry. apply rank_const; [lia|]. intros k Hik. destruct (live k) eqn:E; [|done].
    pose proof (Hskip k ltac:(lia) (Hk k ltac:(lia)) E). lia.
  - destruct Hf as [Hat Hk]. split; [|done]. rewrite snapshot_length, <- Erank. pose proof (live_lt s vs i Hl). symmetry. apply rank_const; [lia|].
    intros k Hik. destruct (live k) eqn:E; [|done]. pose proof (Hskip k ltac:(lia) (Hk k ltac:(lia)) E). lia.
Qed.

(** A user key has one shown version. *)
Lemma live_unique i j v w : vs !! i = Some v -> vs !! j = Some w -> live i = true -> live j = true -> cmp w v = 0 -> j = i.
Proof.
  intros Hi Hj (v' & Hv' & Hsv & _ & Hno)%live_spec (w' & Hw' & Hsw & _ & Hno')%live_spec E. rewrite Hi in Hv'. injection Hv' as <-.
  rewrite Hj in Hw'. injection Hw' as <-. destruct (lt_eq_lt_dec i j) as [[Hlt| ->]|Hlt]; [|done|].
  - destruct (Hno' i v Hlt Hi Hsv). by apply cmp_eq_sym; [by eapply valid_user..|].
  - by destruct (Hno j w Hlt Hj Hsw).
Qed.

(** Searching from [c] past the user key of the version shown at [i], when the
    seen versions from [c] on start at [i] and those before [c] have smaller
    user keys. *)
Lemma skip_user c i v : (c <= i)%nat -> vs !! i = Some v ->
  (forall j x, (c <= j)%nat -> vs !! j = Some x -> sees x = true -> (i <= j)%nat) ->
  (forall a w, (a < c)%nat -> vs !! a = Some w -> sees w = true -> cmp w v < 0) ->
  let out j := exists w, vs !! j = Some w /\ cmp w v <> 0 in out_later out c /\ skip_ok out c true (v_user v).
Proof.
  intros Hci Hv Hge Hlow out. pose proof (valid_user _ _ Hv) as Vv. split; [|split; [done| | |]].
  - intros a w j x Ha Haj Hw Hsw Hx _ Hlt. exists x. split; [done|]. pose proof (user_order i a v w (Hge a w Ha Hw Hsw) Hv Hw) as Hva.
    pose proof (cmp_le_lt_trans (v_user v) (v_user w) (v_user x) Vv (valid_user _ _ Hw) (valid_user _ _ Hx) Hva Hlt) as Hvx.
    pose proof (cmp_antisym (v_user v) (v_user x) Vv (valid_user _ _ Hx)). lia.
  - intros j x a w Hj Hx Hsx Ha Hw Hsw E. exfalso. pose proof (user_order i j v x (Hge j x Hj Hx Hsx) Hv Hx).
    pose proof (cmp_lt_le_trans (v_user w) (v_user v) (v_user x) (valid_user _ _ Hw) Vv (valid_user _ _ Hx) (Hlow a w Ha Hw Hsw) ltac:(lia)). lia.
  - intros _ j x Hj Hx Hsx Hle [_ (x' & Hx' & Hne)]. rewrite Hx in Hx'. injection Hx' as <-. apply Hne.
    pose proof (user_order i j v x (Hge j x Hj Hx Hsx) Hv Hx). pose proof (cmp_antisym (v_user v) (v_user x) Vv (valid_user _ _ Hx)). lia.
  - intros j x Hj Hx _ Hnle. exists x. split; [done|]. intros E. apply Hnle. split; [done|lia].
Qed.

Lemma next_from c i v d : (c <= i)%nat -> vs !! i = Some v -> live i = true -> common d -> direction_ d = kForward -> at_ (iter_ d) c ->
  saved_key_ d = v_user v -> (forall j x, (c <= j)%nat -> vs !! j = Some x -> sees x = true -> (i <= j)%nat) ->
  (forall a w, (a < c)%nat -> vs !! a = Some w -> sees w = true -> cmp w v < 0) ->
  exists d', FindNextUserEntry fuel true d = Some d' /\ di_at d' (S (rank i)).
Proof.
  intros Hci Hv Hl Hc Hdir Hat Hsk Hge Hlow. pose proof (live_lt s vs i Hl) as Hi. pose proof (vo_fuel Hvs) as Hfuel.
  destruct (skip_user c i v Hci Hv Hge Hlow) as [Hout Hskip].
  destruct (FindNext_ok _ c Hout fuel d c true) as (d' & Hd' & Hc' & Hdir' & Hf); [lia|lia|done|done|done|by rewrite Hsk|].
  exists d'. split; [done|]. apply (next_first_at c i v); try done.
  - intros k w _ Hw Hlk E. by apply (live_unique i k v w).
  - intros k Hk. destruct (live k) eqn:E; [|done]. apply live_spec in E as (w & Hw & Hsw & _). pose proof (Hge k w ltac:(lia) Hw Hsw). lia.
Qed.

Lemma di_Next_at d p : di_at d p -> (p < length (snapshot s vs))%nat -> exists d', di_Next fuel d = Some d' /\ di_at d' (S p).
Proof.
  intros [Hc Hd] Hp. destruct (valid_ d) eqn:Hval; [|lia]. destruct Hd as (i & Hl & -> & Hpos). clear Hp.
  pose proof Hl as (v & Hv & Hsv & Htv & Hno)%live_spec. pose proof (live_lt s vs i Hl) as Hi. unfold di_Next. destruct (direction_ d) eqn:Hdir.
  - destruct (at_shows _ _ Hpos) as [_ Hsh]. rewrite Hv in Hsh. destruct Hsh as (_ & -> & _). cbn [encode fst]. rewrite ExtractUserKey_ikey.
    apply (next_from i i v); try done. intros a w Ha Hw Hsw. pose proof (Hno a w Ha Hw Hsw). pose proof (user_order a i w v ltac:(lia) Hw Hv). lia.
  - destruct Hpos as (c & v' & [Hcle Hat] & Hci & Hv' & _ & Hsk & Hsv' & Hbetween & Hlow). rewrite Hv in Hv'. injection Hv' as <-.
    destruct (move_ok (with_direction d kForward) (if (c =? 0)%nat then length vs else c - 1)%nat (if iValid (iter_ d) then OpNext else OpFirst) c)
      as (it & Hm & Hat' & Hval'); [done|done|by destruct (iValid (iter_ d))| |].
    { rewrite (at_valid _ _ _ _ (vo_cursor Hvs) Hat), length_fmap. destruct (Nat.eqb_spec c 0) as [->|].
      - by rewrite bool_decide_false by lia.
      - rewrite bool_decide_true by lia. cbn [cursor_step]. rewrite length_fmap, (proj2 (Nat.ltb_lt _ _)) by lia. f_equal. lia. }
    rewrite Hm. cbn [mbind option_bind]. change (iValid (iter_ (with_iter (with_direction d kForward) it))) with (iValid it). rewrite Hval', bool_decide_true by lia.
    apply (next_from c i v); try done.
    + intros j x Hj Hx Hsx. destruct (Nat.le_gt_cases i j); [done|]. rewrite (Hbetween j x) in Hsx; [done|lia|done].
    + intros a w Ha Hw _. destruct Hlow as [->|(y & Hy & Hyv)]; [lia|]. pose proof (user_order a (c - 1) w y ltac:(lia) Hw Hy).
      apply (cmp_le_lt_trans (v_user w) (v_user y) (v_user v)); [by eapply valid_user..|lia|done].
Qed.

(** *** Backwards *)

(** Shown, as far as the versions from [c] on tell. *)
Definition live_from (c j : nat) : Prop := exists v, vs !! j = Some v /\ sees v = true /\ v_type v = kTypeValue /\
  forall a w, (c <= a < j)%nat -> vs !! a = Some w -> sees w = true -> cmp w v <> 0.

Lemma live_from_0 j : live_from 0 j <-> live j = true.
Proof.
  rewrite live_spec. split; intros (v & Hv & Hs & Ht & Hno); exists v; split_and!; try done; intros a w Ha; apply Hno; lia.
Qed.

Lemma live_from_S c j : live_from c j -> live_from (S c) j.
Proof. intros (v & Hv & Hs & Ht & Hno). exists v. split_and!; try done. intros a w Ha. apply Hno. lia. Qed.

(** The best candidate among the versions from [c] to [c0]. *)
Definition candidate (c0 c : nat) (vt : ValueType) (d : DBIter I) : Prop :=
  match vt with
  | kTypeDeletion => forall j, (c <= j < c0)%nat -> ~ live_from c j
  | kTypeValue => exists j v, (c <= j < c0)%nat /\ vs !! j = Some v /\ saved_key_ d = v_user v /\ saved_value_ d = v_value v /\ live_from c j /\
      (forall k, (c <= k < c0)%nat -> live_from c k -> k = j) /\ (forall k w, (c <= k < j)%nat -> vs !! k = Some w -> sees w = false)
  end.

Lemma candidate_unseen c0 c vt d d' v : vs !! c = Some v -> sees v = false -> saved_key_ d' = saved_key_ d -> saved_value_ d' = saved_value_ d ->
  candidate c0 (S c) vt d -> candidate c0 c vt d'.
Proof.
  intros Hc Hs Ek Ev Hcand. assert (Hne : forall j, live_from c j -> j <> c) by (intros j (x & Hx & Hsx & _) ->; congruence). destruct vt; cbn in *.
  - intros j Hj Hl. pose proof (Hne j Hl). apply (Hcand j); [lia|by apply live_from_S].
  - destruct Hcand as (j & x & Hj & Hx & Hk & Hv & (x' & Hx' & Hsx & Htx & Hno) & Huniq & Hmid). exists j, x. split_and!; try done; [lia|lia|congruence|congruence| | |].
    + exists x'. split_and!; try done. intros a w Ha Hw Hsw. assert (a <> c) by (intros ->; congruence). apply (Hno a w); [lia|done|done].
    + intros k Hk' Hl. pose proof (Hne k Hl). apply Huniq; [lia|by apply live_from_S].
    + intros k w Hk' Hw. destruct (decide (k = c)) as [->|]; [congruence|]. apply (Hmid k w); [lia|done].
Qed.

(** No other candidate stays next to a seen version of its user key. *)
Lemma candidate_alone c0 c vt d v : vs !! c = Some v -> sees v = true -> candidate c0 (S c) vt d ->
  (vt = kTypeDeletion \/ ~ Compare (v_user v) (saved_key_ d) < 0) -> forall k, (c <= k < c0)%nat -> live_from c k -> k = c.
Proof.
  intros Hc Hs Hcand Hstop k Hk Hl. destruct (decide (k = c)) as [|Hne]; [done|]. exfalso. destruct vt; cbn in Hcand.
  - apply (Hcand k); [lia|by apply live_from_S].
  - destruct Hstop as [|Hge]; [done|]. destruct Hcand as (j & x & Hj & Hx & Hsk & _ & _ & Huniq & _).
    assert (k = j) as -> by (apply Huniq; [lia|by apply live_from_S]). destruct Hl as (x' & Hx' & _ & _ & Hno). rewrite Hx in Hx'. injection Hx' as <-.
    apply (Hno c v); [lia|done|done|]. rewrite Hsk in Hge. pose proof (user_order c j v x ltac:(lia) Hc Hx). lia.
Qed.

Lemma prev_loop_ok c0 : (c0 <= length vs)%nat -> forall m c vt d, (c < m)%nat -> (S c <= c0)%nat -> common d -> at_ (iter_ d) c -> candidate c0 (S c) vt d ->
  exists vt' d' c', prev_loop m vt d = Some (vt', d') /\ common d' /\ direction_ d' = direction_ d /\ before d' c' /\ (c' <= c0)%nat /\ candidate c0 c' vt' d' /\
    (c' = 0%nat \/ (vt' = kTypeValue /\ exists w, vs !! (c' - 1)%nat = Some w /\ Compare (v_user w) (saved_key_ d') < 0)).
Proof.
  intros Hc0. induction m as [|m IH]; intros c vt d Hm Hcc Hcom Hat Hcand; [lia|]. cbn [prev_loop].
  destruct (lookup_lt_is_Some_2 vs c) as [v Hv]; [lia|]. destruct (ParseKey_ok d c v Hcom Hat Hv) as (rnd & counter & ks & -> & Hc1 & Hseen).
  cbn [mbind option_bind]. set (d1 := with_sampling d rnd counter ks) in *.
  assert (Hret : forall vt2 d2, common d2 -> direction_ d2 = direction_ d -> at_ (iter_ d2) c -> candidate c0 c vt2 d2 ->
    exists vt' d' c', (d0 ← move d2 OpPrev; if iValid (iter_ d0) then prev_loop m vt2 d0 else Some (vt2, d0)) = Some (vt', d') /\
      common d' /\ direction_ d' = direction_ d /\ before d' c' /\ (c' <= c0)%nat /\ candidate c0 c' vt' d' /\
      (c' = 0%nat \/ (vt' = kTypeValue /\ exists w, vs !! (c' - 1)%nat = Some w /\ Compare (v_user w) (saved_key_ d') < 0))).
  { intros vt2 d2 Hcom2 Hdir2 Hat2 Hcand2. destruct (prev_ok d2 c Hcom2 Hat2 ltac:(lia)) as (it & -> & Hbef & Hval). cbn [mbind option_bind].
    change (iValid (iter_ (with_iter d2 it))) with (iValid it). rewrite Hval. destruct c as [|c]; cbn [Nat.eqb negb].
    - eexists _, _, 0%nat. split; [done|]. split_and!; try done; [lia|by left].
    - destruct (IH c vt2 (with_iter d2 it)) as (vt' & d' & c' & H1 & H2 & H3 & H4); [lia|lia|done| |done|].
      { destruct Hbef as [_ Hb]. cbn [Nat.eqb] in Hb. by rewrite Nat.sub_succ, Nat.sub_0_r in Hb. }
      exists vt', d', c'. split; [done|]. split; [done|]. split; [by rewrite H3|done]. }
  rewrite Hseen. destruct (sees v) eqn:Hs; [|apply Hret; [done|done|done|]; by eapply (candidate_unseen c0 c vt d)].
  cbn [user_key type]. change (saved_key_ d1) with (saved_key_ d).
  destruct (negb (bool_decide (vt = kTypeDeletion)) && (Compare (v_user v) (saved_key_ d) <? 0)) eqn:Hstop.
  - apply andb_true_iff in Hstop as [Hvt Hlt%Z.ltb_lt]. assert (vt = kTypeValue) as -> by (by destruct vt).
    eexists _, _, (S c). split; [done|]. split; [done|]. split; [done|]. split; [split; [lia|cbn [Nat.eqb]; by rewrite Nat.sub_succ, Nat.sub_0_r]|].
    split; [done|]. split; [done|]. right. split; [done|]. exists v. by rewrite Nat.sub_succ, Nat.sub_0_r.
  - assert (Hor : vt = kTypeDeletion \/ ~ Compare (v_user v) (saved_key_ d) < 0).
    { destruct vt; [by left|right]. intros Hlt%Z.ltb_lt. by rewrite Hlt in Hstop. }
    pose proof (candidate_alone c0 c vt d v Hv Hs Hcand Hor) as Halone.
    destruct (v_type v) eqn:Ht; apply Hret; try done; cbn [candidate].
    + intros j Hj Hl. pose proof (Halone j Hj Hl) as ->. destruct Hl as (v' & Hv' & _ & Ht' & _). congruence.
    + destruct (at_shows _ _ Hat) as [_ Hsh]. rewrite Hv in Hsh. destruct Hsh as (_ & Hk & Hval). exists c, v. split; [lia|]. split; [done|].
      split; [cbn [saved_key_ SaveValue SaveKey]; change (iter_ d1) with (iter_ d); rewrite Hk; apply ExtractUserKey_ikey|]. split; [done|]. split; [|split; [exact Halone|intros k w Hk'; lia]].
      exists v. split_and!; try done. intros a w Ha. lia.
Qed.

Lemma FindPrev_ok d c0 : common d -> direction_ d = kReverse -> before d c0 -> exists d', FindPrevUserEntry fuel d = Some d' /\
  di_at d' (if (rank c0 =? 0)%nat then length (snapshot s vs) else rank c0 - 1)%nat.
Proof.
  intros Hc Hdir [Hc0 Hat]. pose proof (vo_fuel Hvs) as Hfuel. unfold FindPrevUserEntry.
  assert (Hloop : exists vt d' c', (if iValid (iter_ d) then prev_loop fuel kTypeDeletion d else Some (kTypeDeletion, d)) = Some (vt, d') /\
    common d' /\ direction_ d' = kReverse /\ before d' c' /\ (c' <= c0)%nat /\ candidate c0 c' vt d' /\
    (c' = 0%nat \/ (vt = kTypeValue /\ exists w, vs !! (c' - 1)%nat = Some w /\ Compare (v_user w) (saved_key_ d') < 0))).
  { rewrite (at_valid _ _ _ _ (vo_cursor Hvs) Hat), length_fmap. destruct c0 as [|c]; cbn [Nat.eqb] in *.
    - rewrite bool_decide_false by lia. exists kTypeDeletion, d, 0%nat. split_and!; try done; [|by left]. intros j Hj. lia.
    - rewrite Nat.sub_succ, Nat.sub_0_r in *. rewrite bool_decide_true by lia.
      destruct (prev_loop_ok (S c) Hc0 fuel c kTypeDeletion d) as (vt & d' & c' & H1 & H2 & H3 & H4); [lia|lia|done|done|intros j Hj; lia|].
      exists vt, d', c'. split; [done|]. split; [done|]. split; [congruence|done]. }
  destruct Hloop as (vt & d' & c' & -> & Hc' & Hdir' & Hbef & Hle & Hcand & Hlow). cbn [mbind option_bind]. destruct vt; cbn [candidate] in Hcand.
  - destruct Hlow as [->|[? _]]; [|done]. eexists. split; [done|]. assert (Hr : rank c0 = 0%nat).
    { rewrite (rank_const s vs 0 c0); [done|lia|]. intros k Hk. destruct (live k) eqn:E; [|done]. apply live_from_0 in E. by destruct (Hcand k). }
    rewrite Hr. cbn [Nat.eqb]. split; [done|]. cbn. split; [done|]. destruct Hbef as [_ Hb]. by eexists.
  - destruct Hcand as (j & v & Hj & Hv & Hsk & Hsv & Hlj & Huniq & Hmid). destruct Hlj as (v' & Hv' & Hs & Ht & Hno). rewrite Hv in Hv'. injection Hv' as <-.
    assert (Hsmaller : c' = 0%nat \/ exists w, vs !! (c' - 1)%nat = Some w /\ cmp w v < 0).
    { destruct Hlow as [?|(_ & w & Hw & Hlt)]; [by left|right]. exists w. by rewrite <- Hsk. }
    assert (Hl : live j = true).
    { apply live_spec. exists v. split_and!; try done. intros a w Ha Hw Hsw. destruct (Nat.le_gt_cases c' a); [by apply (Hno a w); [lia|..]|].
      destruct Hsmaller as [->|(y & Hy & Hyv)]; [lia|]. pose proof (user_order a (c' - 1) w y ltac:(lia) Hw Hy).
      pose proof (cmp_le_lt_trans (v_user w) (v_user y) (v_user v) (valid_user _ _ Hw) (valid_user _ _ Hy) (valid_user _ _ Hv) ltac:(lia) Hyv). lia. }
    destruct (rank_one s vs c' c0 j Hj Hl) as [Er Ej].
    { intros k Hk Hlk. apply Huniq; [done|]. apply live_spec in Hlk as (w & Hw & ? & ? & Hnw). exists w. split_and!; try done. intros a x Ha. apply Hnw. lia. }
    rewrite Er. cbn [Nat.eqb]. rewrite Nat.sub_succ, Nat.sub_0_r. eexists. split; [done|]. split; [done|]. cbn. exists j.
    change (direction_ (with_valid d' true)) with (direction_ d'). rewrite Hdir'. split_and!; [done|done|]. exists c', v. split_and!; try done; try lia; apply Hbef.
Qed.

(** [Prev] leaves the user key of the shown version. *)
Lemma back_loop_ok i v : vs !! i = Some v -> live i = true -> forall m d k, (k < m)%nat -> (k <= i)%nat -> common d -> at_ (iter_ d) k -> saved_key_ d = v_user v ->
  (forall j w, (k <= j <= i)%nat -> vs !! j = Some w -> cmp w v = 0) ->
  exists (found : bool) d' c, back_loop m d = Some (found, d') /\ common d' /\ before d' c /\ (c <= i)%nat /\ found = negb (c =? 0)%nat /\
    (forall j w, (c <= j <= i)%nat -> vs !! j = Some w -> cmp w v = 0).
Proof.
  intros Hv Hl. pose proof (live_lt s vs i Hl) as Hi. induction m as [|m IH]; intros d k Hm Hk Hc Hat Hsk Hsame; [lia|]. cbn [back_loop].
  destruct (prev_ok d k Hc Hat ltac:(lia)) as (it & -> & Hbef & Hval). cbn [mbind option_bind].
  change (iValid (iter_ (with_iter d it))) with (iValid it). rewrite Hval, negb_involutive. destruct k as [|k]; cbn [Nat.eqb].
  - exists false, (with_iter d it), 0%nat. split; [done|]. split; [done|]. split; [done|]. split; [lia|]. done.
  - destruct Hbef as [Hle Hatk]. cbn [Nat.eqb] in Hatk. rewrite Nat.sub_succ, Nat.sub_0_r in Hatk. destruct (lookup_lt_is_Some_2 vs k) as [w Hw]; [lia|].
    destruct (at_shows _ _ Hatk) as [_ Hsh]. rewrite Hw in Hsh. destruct Hsh as (_ & Hkey & _).
    change (ikey (iter_ (with_iter d it))) with (ikey it). cbn [iter_ with_iter] in Hkey. rewrite Hkey. change (encode w).1 with (DbFormat.ikey (v_user w) (PackSequenceAndType (v_seq w) (v_type w))).
    rewrite ExtractUserKey_ikey. change (saved_key_ (with_iter d it)) with (saved_key_ d). rewrite Hsk. destruct (Z.ltb_spec (cmp w v) 0) as [Hlt|Hge].
    + exists true, (with_iter d it), (S k). split; [done|]. split; [done|]. split; [split; [done|cbn [Nat.eqb]; by rewrite Nat.sub_succ, Nat.sub_0_r]|]. done.
    + apply (IH (with_iter d it) k); [lia|lia|done|done|done|]. intros j x Hj Hx. destruct (decide (j = k)) as [->|]; [|apply (Hsame j x); [lia|done]].
      rewrite Hw in Hx. injection Hx as <-. pose proof (user_order k i w v ltac:(lia) Hw Hv). lia.
Qed.

Lemma di_Prev_at d p : di_at d p -> (p < length (snapshot s vs))%nat ->
  exists d', di_Prev fuel d = Some d' /\ di_at d' (if (p =? 0)%nat then length (snapshot s vs) else p - 1)%nat.
Proof.
  intros [Hc Hd] Hp. destruct (valid_ d) eqn:Hval; [|lia]. destruct Hd as (i & Hl & -> & Hpos). clear Hp.
  pose proof Hl as (v & Hv & Hsv & Htv & Hno)%live_spec. pose proof (live_lt s vs i Hl) as Hi. pose proof (vo_fuel Hvs) as Hfuel.
  unfold di_Prev. destruct (direction_ d) eqn:Hdir.
  - destruct (at_shows _ _ Hpos) as [_ Hsh]. rewrite Hv in Hsh. destruct Hsh as (_ & -> & _). cbn [encode fst]. rewrite ExtractUserKey_ikey.
    destruct (back_loop_ok i v Hv Hl fuel (SaveKey d (v_user v)) i) as (found & d' & c & -> & Hc' & Hbef & Hci & -> & Hsame); [lia|lia|done|done|done| |].
    { intros j w Hj Hw. assert (j = i) as -> by lia. rewrite Hv in Hw. injection Hw as <-. apply cmp_refl. by eapply valid_user. }
    cbn [mbind option_bind]. assert (Er : rank i = rank c).
    { apply rank_const; [done|]. intros k Hk. destruct (live k) eqn:E; [|done]. pose proof E as (w & Hw & _)%live_spec.
      pose proof (live_unique i k v w Hv Hw Hl E (Hsame k w ltac:(lia) Hw)). lia. }
    rewrite Er. destruct c as [|c]; cbn [Nat.eqb negb].
    + eexists. split; [done|]. split; [done|]. cbn. split; [done|]. destruct Hbef as [_ Hb]. by eexists.
    + by apply (FindPrev_ok (with_direction d' kReverse) (S c)).
  - destruct Hpos as (c & v' & Hbef & Hci & Hv' & _ & Hsk & Hsv' & Hbetween & Hlow).
    assert (Er : rank i = rank c).
    { apply rank_const; [done|]. intros k Hk. destruct (live k) eqn:E; [|done]. apply live_spec in E as (w & Hw & Hsw & _). by rewrite (Hbetween k w Hk Hw) in Hsw. }
    rewrite Er. by apply FindPrev_ok.
Qed.

(** Where a seek lands: the versions before it are those of smaller user keys
    and those too new for the snapshot. *)
Lemma seek_place target : valid_key target ->
  let i := length (base.filter (fun kv => Compare (Comparator := InternalKeyComparatorOf C) kv.1 (DbFormat.ikey target (PackSequenceAndType s kValueTypeForSeek)) < 0) (encode <$> vs)) in
  (i <= length vs)%nat /\
  forall j v, vs !! j = Some v -> sees v = true -> (j < i)%nat <-> Compare (v_user v) target < 0.
Proof.
  intros Ht i. set (tgt := DbFormat.ikey target (PackSequenceAndType s kValueTypeForSeek)) in *.
  assert (Hi : (i <= length vs)%nat) by (rewrite <- (length_fmap encode vs); apply length_filter). split; [done|]. intros j v Hj Hs.
  destruct (seek_split (C := InternalKeyComparatorOf C) (encode <$> vs) tgt (vo_sorted Hvs) (valid_ikey target _ Ht)) as (l1 & l2 & Hl & Hf & H1 & H2).
  assert (Hlen : i = length l1) by (unfold i; by rewrite Hf).
  assert (Hej : (l1 ++ l2) !! j = Some (encode v)) by (rewrite <- Hl, list_lookup_fmap, Hj; done).
  assert (Hcmp : Compare (Comparator := InternalKeyComparatorOf C) (encode v).1 tgt < 0 <-> Compare (v_user v) target < 0).
  { change (Compare (Comparator := InternalKeyComparatorOf C) (encode v).1 tgt) with (internal_compare (encode v).1 tgt). cbn [encode fst]. unfold tgt.
    destruct (Forall_lookup_1 _ _ _ _ (vo_versions Hvs) Hj) as [_ Hsq]. pose proof (vo_seq Hvs) as Hss.
    rewrite internal_compare_lt, !ExtractUserKey_ikey, !ExtractTag_ikey by (by apply Pack_range). rewrite !Pack_eq by done.
    pose proof (value_type_code_range (v_type v)). apply Z.leb_le in Hs. unfold kValueTypeForSeek. cbn [value_type_code]. split; [|by left].
    intros [?|[_ ?]]; [done|lia]. }
  rewrite <- Hcmp, Hlen. split.
  - intros Hlt. apply H1. rewrite lookup_app_l in Hej by done. by eapply list_elem_of_lookup_2.
  - intros Hlt. destruct (Nat.le_gt_cases (length l1) j) as [Hge|]; [|done]. rewrite lookup_app_r in Hej by done.
    by destruct (H2 (encode v) (list_elem_of_lookup_2 _ _ _ Hej)).
Qed.

Lemma seek_rank target i : (i <= length vs)%nat ->
  (forall j v, vs !! j = Some v -> sees v = true -> (j < i)%nat <-> Compare (v_user v) target < 0) ->
  length (base.filter (fun kv => Compare kv.1 target < 0) (snapshot s vs)) = rank i.
Proof.
  intros Hi Hplace. unfold snapshot. replace (seq 0 (length vs)) with (seq 0 i ++ seq i (length vs - i))
    by (change (seq i (length vs - i)) with (seq (0 + i) (length vs - i)); rewrite <- seq_app; f_equal; lia).
  assert (Hmem : forall a n kv, kv ∈ shown vs <$> base.filter (fun j => live j = true) (seq a n) ->
    exists j v, (a <= j < a + n)%nat /\ vs !! j = Some v /\ sees v = true /\ kv.1 = v_user v).
  { intros a n kv (j & -> & Hj)%list_elem_of_fmap. apply list_elem_of_filter in Hj as [Hl Hj%elem_of_seq].
    pose proof Hl as (v & Hv & Hs & _)%live_spec. exists j, v. split_and!; try done; [lia|lia|]. unfold shown. by rewrite Hv. }
  rewrite filter_app, fmap_app, filter_split; [by rewrite length_fmap| |].
  - intros kv (j & v & Hj & Hv & Hs & ->)%Hmem. apply (Hplace j v Hv Hs). lia.
  - intros kv (j & v & Hj & Hv & Hs & ->)%Hmem Hlt. apply (Hplace j v Hv Hs) in Hlt. lia.
Qed.

(** A forward search with nothing to skip. *)
Lemma search_at d i : common d -> direction_ d = kForward -> at_ (iter_ d) i ->
  (forall j v a w, (i <= j)%nat -> vs !! j = Some v -> sees v = true -> (a < i)%nat -> vs !! a = Some w -> sees w = true -> cmp w v <> 0) ->
  exists d', (if iValid (iter_ d) then FindNextUserEntry fuel false d else Some (with_valid d false)) = Some d' /\ di_at d' (rank i).
Proof.
  intros Hc Hdir Hat Hno. pose proof (vo_fuel Hvs) as Hfuel. rewrite (at_valid _ _ _ _ (vo_cursor Hvs) Hat), length_fmap. case_bool_decide as Hlt.
  - destruct (FindNext_ok (fun _ => True) i) with (m := fuel) (d := d) (i := i) (sk := false) as (d' & Hd' & Hc' & Hdir' & Hf); [done|lia|lia|done|done|done| |].
    + split; try done. intros j v a w Hj Hv Hs Ha Hw Hsw E. by destruct (Hno j v a w Hj Hv Hs Ha Hw Hsw).
    + exists d'. split; [done|]. by apply first_at.
  - eexists. split; [done|]. apply first_at; [done|done|]. unfold first_from. cbn. split; [by exists i|]. intros k Hk [Hl _]. apply live_lt in Hl. lia.
Qed.

Lemma di_shows d p : di_at d p -> ishows (Iterator0 := DBIter_Iterator fuel) d (snapshot s vs) p.
Proof.
  intros [(Hs & Hst & _ & _) Hd]. assert (Hok : forall i, at_ (iter_ d) i -> di_status d = Status_OK).
  { intros i Hat. unfold di_status. rewrite Hst. cbn [ok Status_OK]. by apply (at_shows _ i). }
  unfold ishows. cbn [istatus iValid ikey ivalue DBIter_Iterator]. destruct (valid_ d).
  - destruct Hd as (i & Hl & -> & Hpos). rewrite (snapshot_rank s vs i Hl). pose proof Hl as (v & Hv & _)%live_spec. unfold shown, di_key, di_value. rewrite Hv.
    destruct (direction_ d).
    + split; [by eapply Hok|]. destruct (at_shows _ _ Hpos) as [_ Hsh]. rewrite Hv in Hsh. destruct Hsh as (_ & -> & ->). split; [done|].
      split; [apply ExtractUserKey_ikey|done].
    + destruct Hpos as (c & v' & [_ Hat] & _ & Hv' & _ & Hk & Hval & _). rewrite Hv in Hv'. injection Hv' as <-. split; [by eapply Hok|]. done.
  - destruct Hd as (-> & i & Hat). split; [by eapply Hok|]. by rewrite (proj2 (lookup_ge_None _ _)) by lia.
Qed.

Lemma di_at_iter d p : di_at d p -> exists i, at_ (iter_ d) i.
Proof.
  intros [_ Hd]. destruct (valid_ d); [|by destruct Hd]. destruct Hd as (i & _ & _ & Hpos). destruct (direction_ d); [by exists i|].
  destruct Hpos as (c & v & [_ Hat] & _). by eexists.
Qed.

Lemma di_cursor : cursor_over (Iterator0 := DBIter_Iterator fuel) (snapshot s vs) di_at.
Proof.
  split.
  - intros d p [_ Hd]. destruct (valid_ d); [|by destruct Hd as [-> _]]. destruct Hd as (i & Hl & -> & _). pose proof (rank_lt s vs i Hl). lia.
  - apply di_shows.
  - intros d p op p' Hd Hop Hst. pose proof Hd as [Hc _]. destruct (di_at_iter d p Hd) as [i0 Hat0].
    destruct op as [| |target| |]; cbn [istep DBIter_Iterator di_step cursor_step] in *.
    + injection Hst as <-. unfold di_SeekToFirst. destruct (move_ok (ClearSavedValue (with_direction d kForward)) i0 OpFirst 0%nat) as (it & -> & Hat & _); [done..|].
      cbn [mbind option_bind]. apply (search_at (with_iter (ClearSavedValue (with_direction d kForward)) it) 0); [done|done|done|]. intros j v a w Hj Hv Hs Ha. lia.
    + injection Hst as <-. unfold di_SeekToLast.
      destruct (move_ok (ClearSavedValue (with_direction d kReverse)) i0 OpLast (length vs - 1)%nat) as (it & -> & Hat & _);
        [done|done|done|cbn [cursor_step]; by rewrite length_fmap|].
      cbn [mbind option_bind]. destruct (FindPrev_ok (with_iter (ClearSavedValue (with_direction d kReverse)) it) (length vs)) as (d' & Hd' & Hat'); [done|done| |].
      { split; [lia|]. cbn. destruct (Nat.eqb_spec (length vs) 0) as [E|]; [rewrite E in Hat |- *; exact Hat|done]. }
      exists d'. split; [done|]. rewrite <- snapshot_length in Hat'. destruct (Nat.eqb_spec (length (snapshot s vs)) 0) as [E|]; [|done]. by rewrite E in *.
    + injection Hst as <-. unfold di_Seek. cbn zeta. rewrite AppendInternalKey_ikey. cbn [user_key sequence type app]. destruct Hc as (Hseq & Hc). rewrite Hseq.
      set (tgt := DbFormat.ikey target (PackSequenceAndType s kValueTypeForSeek)). cbn [saved_key_ SaveKey].
      destruct (seek_place target Hop) as [Hle Hplace]. fold tgt in Hle, Hplace.
      edestruct (move_ok (SaveKey (ClearSavedValue (with_direction d kForward)) tgt) i0 (OpSeek tgt)) as (it & -> & Hat & _);
        [done|done|by apply valid_ikey|reflexivity|]. cbn [mbind option_bind].
      rewrite (seek_rank target _ Hle Hplace). apply (search_at (with_iter (SaveKey (ClearSavedValue (with_direction d kForward)) tgt) it)); [done|done|done|].
      intros j v a w Hj Hv Hs Ha Hw Hsw E. apply (Hplace a w Hw Hsw) in Ha.
      assert (Hlt : Compare (v_user v) target < 0).
      { apply (cmp_le_lt_trans (v_user v) (v_user w) target); [by eapply valid_user|by eapply valid_user|done| |done]. rewrite (cmp_eq_sym (v_user w) (v_user v)); [lia|by eapply valid_user..|done]. }
      apply (Hplace j v Hv Hs) in Hlt. lia.
    + destruct (Nat.ltb_spec p (length (snapshot s vs))); [|done]. injection Hst as <-. by apply di_Next_at.
    + destruct (Nat.ltb_spec p (length (snapshot s vs))); [|done]. injection Hst as <-. by apply di_Prev_at.
Qed.

Lemma di_new it seed i : at_ it i -> di_at (NewDBIterator it s seed) (length (snapshot s vs)).
Proof.
  intros Hat. unfold NewDBIterator. rewrite RandomPeriod_eq. split; [|split; [done|by exists i]].
  split_and!; [done|done| |]; cbn [rnd_ bytes_counter_].
  - apply Random.Next_mod, Random.make_ok.
  - apply Z.mod_pos_bound. lia.
Qed.
End Refinement.

(** ** Properties *)

(** Scanning the database at a snapshot.  Let each source (a memtable, a
    table, a level) hold sorted versions of user keys and obey the cursor
    contract, no version occurring twice.  Then the database iterator over the
    merged sources, under any sequence of seeks and moves in both directions
    allowed on the user's view, returns from every call with an OK status and
    shows the entry of the view at its position: the view has, for every user
    key, the value of the newest version not above the snapshot's sequence
    number, and no entry if that version is a deletion. *)
Theorem db_scan_snapshot {C : Comparator} {L : ComparatorLaws C} {I : Type} `{!Iterator I} fuel s vs (sources : list (list version))
    (its : list I) (at_ : nat -> I -> nat -> Prop) seed ops p :
  seq_ok s -> Forall (fun v => valid_key (v_user v) /\ seq_ok (v_seq v)) vs -> (length vs < fuel)%nat ->
  union_of (C := InternalKeyComparatorOf C) (encode_sources sources) (encode_all vs) ->
  (forall i l, sources !! i = Some l -> cursor_over (H := InternalKeyComparatorOf C) (encode_all l) (at_ i)) ->
  length its = length sources -> (forall i it l, its !! i = Some it -> sources !! i = Some l -> at_ i it (length l)) ->
  Forall op_ok ops -> cursor_run (snapshot s vs) (length (snapshot s vs)) ops = Some p ->
  let internal := NewMergingIterator its in
  let db_iterator := DBIter_Iterator (Iterator0 := Merged_Iterator (C := InternalKeyComparatorOf C)) fuel in
  exists d, irun (Iterator0 := db_iterator) (NewDBIterator internal s seed) ops = Some d /\ ishows (Iterator0 := db_iterator) d (snapshot s vs) p.
Proof.
  intros Hs Hv Hf Hun Hch Hlen Hat Hops Hrun internal db_iterator.
  assert (Hch' : forall i l, encode_sources sources !! i = Some l -> cursor_over (H := InternalKeyComparatorOf C) l (at_ i)).
  { intros i l Hi. unfold encode_sources in Hi. rewrite list_lookup_fmap in Hi. destruct (sources !! i) as [x|] eqn:Hx; [|done]. injection Hi as <-. by apply Hch. }
  assert (Hnew : merged_at (encode_sources sources) (encode_all vs) at_ internal (length (encode_all vs))).
  { apply (merged_new (C := InternalKeyComparatorOf C) _ _ _ Hun); [exact Hch'|rewrite Hlen; unfold encode_sources; symmetry; apply length_fmap|]. intros i it l Hit Hi. unfold encode_sources in Hi. rewrite list_lookup_fmap in Hi.
    destruct (sources !! i) as [x|] eqn:Hx; [|done]. injection Hi as <-. unfold encode_all. rewrite length_fmap. by apply (Hat i). }
  assert (Hok : versions_ok (Iterator0 := Merged_Iterator (C := InternalKeyComparatorOf C)) fuel s vs (merged_at (encode_sources sources) (encode_all vs) at_)).
  { split; [done|done|apply (un_sorted _ _ Hun)|by apply (merged_cursor (C := InternalKeyComparatorOf C) _ _ _ Hun)|done]. }
  destruct (cursor_run_at (Iterator0 := db_iterator) (snapshot s vs) _ ops (di_cursor fuel s vs _ Hok) (NewDBIterator internal s seed) (length (snapshot s vs)) p)
    as (d & Hd & Hp); [by eapply di_new|done|done|].
  exists d. split; [done|]. exact (di_shows fuel s vs _ Hok d p Hp).
Qed.

(** Two sources; at snapshot 8 key 97 is deleted, 98 has two versions, 99 is too
    new, 100 has one version. *)
Definition sample_sources : list (list version) :=
  [[MkVersion [97] 5 kTypeDeletion []; MkVersion [98] 7 kTypeValue [70]; MkVersion [99] 9 kTypeValue [90]];
   [MkVersion [97] 3 kTypeValue [30]; MkVersion [98] 2 kTypeValue [20]; MkVersion [100] 1 kTypeValue [10]]].

Definition sample_versions : list version :=
  [MkVersion [97] 5 kTypeDeletion []; MkVersion [97] 3 kTypeValue [30]; MkVersion [98] 7 kTypeValue [70]; MkVersion [98] 2 kTypeValue [20];
   MkVersion [99] 9 kTypeValue [90]; MkVersion [100] 1 kTypeValue [10]].

Section Example.
#[local] Instance sample_comparator : Comparator := InternalKeyComparatorOf BytewiseComparator.

Definition sample_iterators : list BIter := (fun l => bi_open (Block_new (build_block 2 (encode_all l)))) <$> sample_sources.


Lemma sample_sorted l : l ∈ sample_versions :: sample_sources -> sorted_kvs (C := sample_comparator) (encode_all l).
Proof.
  intros Hl. repeat (apply elem_of_cons in Hl as [->|Hl]; [
    repeat (apply sorted_kvs_cons; [split_and!; by_decide| |apply Forall_forall; by_decide]); apply sorted_kvs_nil|]). by apply not_elem_of_nil in Hl.
Qed.

Lemma sample_kv_ok l : l ∈ sample_sources -> Forall kv_ok (encode_all l) /\ zlen (build_block 2 (encode_all l)) < 2 ^ 32.
Proof.
  intros Hl. repeat (apply elem_of_cons in Hl as [->|Hl]; [split; [by_decide|vm_compute; reflexivity]|]). by apply not_elem_of_nil in Hl.
Qed.
End Example.

Lemma db_scan_snapshot_witness :
  let db_iterator := DBIter_Iterator (Iterator0 := Merged_Iterator (C := sample_comparator) (Iterator0 := BIter_Iterator (H := sample_comparator))) 7 in
  snapshot 8 sample_versions = [([98], [70]); ([100], [10])] /\
  exists d, irun (Iterator0 := db_iterator) (NewDBIterator (NewMergingIterator sample_iterators) 8 301)
      [OpFirst; OpNext; OpPrev; OpLast; OpPrev; OpNext; OpSeek [98; 1]; OpPrev] = Some d /\ di_key (Iterator0 := Merged_Iterator (C := sample_comparator) (Iterator0 := BIter_Iterator (H := sample_comparator))) d = [98].
Proof.
  intros db_iterator. split; [vm_compute; reflexivity|].
  destruct (db_scan_snapshot (C := BytewiseComparator) (Iterator0 := BIter_Iterator (H := sample_comparator)) 7 8 sample_versions sample_sources sample_iterators
    (fun i => match sample_sources !! i with Some l => bi_at 2 (encode_all l) | None => fun _ _ => False end) 301
    [OpFirst; OpNext; OpPrev; OpLast; OpPrev; OpNext; OpSeek [98; 1]; OpPrev] 0%nat) as (d & Hd & _ & _ & Hk & _).
  - split; vm_compute; discriminate.
  - apply (bool_decide_unpack _). vm_compute. exact I.
  - simpl. lia.
  - split.
    + apply Forall_forall. intros l (x & -> & Hx)%list_elem_of_fmap. apply sample_sorted. by right.
    + apply sample_sorted. left.
    + vm_compute. solve_Permutation.
  - intros i l Hi. rewrite Hi. apply bi_cursor, sample_sorted. right. by eapply list_elem_of_lookup_2.
  - reflexivity.
  - intros i it l Hit Hi. rewrite Hi. unfold sample_iterators in Hit. rewrite list_lookup_fmap, Hi in Hit. injection Hit as <-.
    assert (Hlen : length l = length (encode_all l)) by (symmetry; apply length_fmap). rewrite Hlen.
    destruct (sample_kv_ok l (list_elem_of_lookup_2 _ _ _ Hi)). by apply bi_open_at.
  - repeat constructor; apply (bool_decide_unpack _); vm_compute; exact I.
  - vm_compute. reflexivity.
  - exists d. split; [exact Hd|exact Hk].
Defined.
