(* ===== verification/FilterBlock.v ===== *)
(** * FilterBlock: the filter blocks of a table and their regions

    src/LSM-EBF/table/filter_block.cc.  A table has [filterNums] filter blocks;
    block [i] holds one filter of child [i] for every [kFilterBase] bytes of
    data.  The reader keeps, for every region of the table, the filters that are
    currently in memory.  The policy is used through the interface
    [FilterPolicy]; the elastic policy and its wrapper for internal keys are
    instances.  [None] is a run the source leaves undefined. *)
From S2P Require Import Prelude Coding Bloom DbFormat.

(** ** The policy *)

Class FilterPolicy := {
  filterNums : nat;
  bits_per_key_per_filter_ : list Z;
  CreateFilter : list bytes -> list bytes -> option (list bytes);
  KeyMayMatchFilters : bytes -> list bytes -> option bool;
  keys_ok : list bytes -> Prop
}.

(** Filters with the same number of bits per key have the same length. *)
Definition same_sizes {P : FilterPolicy} (out : list bytes) : Prop :=
  forall i j b, (i < filterNums)%nat -> (j < filterNums)%nat ->
  bits_per_key_per_filter_ !! i = Some b -> bits_per_key_per_filter_ !! j = Some b ->
  length (nth i out []) = length (nth j out []).

(** The promise of include/leveldb/filter_policy.h: every filter is appended
    to its destination, and any number of the first filters of a set of keys
    accept each of the keys.  The array of sizes ends with a 0. *)
Class FilterPolicyLaws (P : FilterPolicy) := {
  bits_end : exists bits rest, bits_per_key_per_filter_ = bits ++ 0 :: rest /\
    length bits = filterNums /\ Forall (fun b => b <> 0) bits;
  match_total : forall key fs, (length fs <= filterNums)%nat -> is_Some (KeyMayMatchFilters key fs);
  create_appends : forall keys dsts, keys_ok keys -> length dsts = filterNums ->
    exists out, CreateFilter keys dsts = Some (zip_with app dsts out) /\
      length out = filterNums /\ same_sizes out /\
      forall key m, In key keys -> KeyMayMatchFilters key (take m out) = Some true
}.

Definition multi_keys_ok (bits : list Z) (keys : list bytes) : Prop :=
  Forall (fun b => 0 <= b /\ zlen keys * b < 2 ^ 63) bits.

(** [MultiFilter] of util/multi_bloom.cc. *)
#[export] Instance MultiPolicy (bits : list Z) (bpk : Z) : FilterPolicy := {|
  filterNums := length (MultiFilter.filters (MultiFilter.make bits bpk));
  bits_per_key_per_filter_ := MultiFilter.bits_per_key_per_filter_ (MultiFilter.make bits bpk);
  CreateFilter := MultiFilter.CreateFilter (MultiFilter.make bits bpk);
  KeyMayMatchFilters := MultiFilter.KeyMayMatchFilters (MultiFilter.make bits bpk);
  keys_ok := multi_keys_ok bits
|}.

(** [InternalFilterPolicy] of db/dbformat.cc around it. *)
#[export] Instance InternalPolicy (bits : list Z) (bpk : Z) : FilterPolicy := {|
  filterNums := length (MultiFilter.filters (MultiFilter.make bits bpk));
  bits_per_key_per_filter_ := MultiFilter.bits_per_key_per_filter_ (MultiFilter.make bits bpk);
  CreateFilter keys dsts := (InternalFilterPolicy.CreateFilter (MultiFilter.make bits bpk) keys dsts).1;
  KeyMayMatchFilters := InternalFilterPolicy.KeyMayMatchFilters (MultiFilter.make bits bpk);
  keys_ok := multi_keys_ok bits
|}.

(** ** Builder *)

Definition kFilterBaseLg : Z := 16.
Definition kFilterBase : Z := 1 ≪ kFilterBaseLg.

Record FilterBlockBuilder := MkFilterBuilder {
  keys_ : bytes;
  start_ : list nat;
  results_ : list bytes;
  filters_offsets_ : list (list Z)
}.

Section FilterBlock.
Context `{!FilterPolicy}.

Definition FilterBlockBuilder_new : FilterBlockBuilder :=
  MkFilterBuilder [] [] (replicate filterNums []) (replicate filterNums []).

(** The keys recovered from the flattened text. *)
Fixpoint tmp_keys (keys : bytes) (start : list nat) : list bytes :=
  match start with
  | s :: ((e :: _) as start') => sub_bytes keys s (e - s) :: tmp_keys keys start'
  | _ => []
  end.

(** Both loops of [GenerateFilter] over the offset lists. *)
Definition push_offsets (b : FilterBlockBuilder) : list (list Z) :=
  zip_with (fun offs r => offs ++ [u32 (zlen r)]) (filters_offsets_ b) (results_ b).

Definition GenerateFilter (b : FilterBlockBuilder) : option FilterBlockBuilder :=
  match start_ b with
  | [] => Some (MkFilterBuilder (keys_ b) (start_ b) (results_ b) (push_offsets b))
  | _ =>
      let start := start_ b ++ [length (keys_ b)] in
      match CreateFilter (tmp_keys (keys_ b) start) (results_ b) with
      | None => None
      | Some results => Some (MkFilterBuilder [] [] results (push_offsets b))
      end
  end.

(** [while (filter_index > filters_offsets_.begin()->size()) GenerateFilter()]. *)
Fixpoint StartBlock_loop (fuel : nat) (filter_index : Z) (b : FilterBlockBuilder)
    : option FilterBlockBuilder :=
  match filters_offsets_ b with
  | [] => None
  | offs :: _ =>
      if zlen offs <? filter_index then
        match fuel with
        | O => None
        | S fuel =>
            match GenerateFilter b with
            | None => None
            | Some b => StartBlock_loop fuel filter_index b
            end
        end
      else Some b
  end.

(** Each call adds an offset, so [filter_index] iterations are enough. *)
Definition StartBlock (b : FilterBlockBuilder) (block_offset : Z) : option FilterBlockBuilder :=
  let filter_index := block_offset / kFilterBase in
  StartBlock_loop (Z.to_nat filter_index) filter_index b.

Definition AddKey (b : FilterBlockBuilder) (key : bytes) : FilterBlockBuilder :=
  MkFilterBuilder (keys_ b ++ key) (start_ b ++ [length (keys_ b)]) (results_ b) (filters_offsets_ b).

(** The array of offsets, its own offset and the encoding parameter. *)
Definition finish_filter (offs : list Z) (result : bytes) : bytes :=
  let array_offset := u32 (zlen result) in
  PutFixed32 (fold_left PutFixed32 offs result) array_offset ++ [u8 kFilterBaseLg].

Definition Finish (b : FilterBlockBuilder) : option (list bytes * FilterBlockBuilder) :=
  match (match start_ b with [] => Some b | _ => GenerateFilter b end) with
  | None => None
  | Some b =>
      let results := zip_with finish_filter (filters_offsets_ b) (results_ b) in
      Some (results, MkFilterBuilder (keys_ b) (start_ b) results (filters_offsets_ b))
  end.

(** [getOffsets(which)], on the finished results. *)
Definition getOffsets (b : FilterBlockBuilder) (which : nat) : option bytes :=
  match results_ b !! which with
  | None => None
  | Some contents =>
      let n := zlen contents in
      if n <? 5 then Some []
      else
        let last_word := DecodeFixed32 (drop (Z.to_nat (n - 5)) contents) in
        if n - 5 <? last_word then Some []
        else Some (drop (Z.to_nat last_word) contents)
  end.

(** ** Reader *)

Record FilterBlockReader := MkFilterReader {
  datas_ : list (list bytes);
  curr_num_of_filters_regions_ : list Z;
  num_ : Z;
  num_regions : Z;
  regionFilters : Z;
  filter_offsets : list (list Z);
  base_lg_ : Z
}.

(** [None]: the process ends, or the offsets are empty. *)
Definition FilterBlockReader_new (regionNum regionFilters base_lg : Z) (filter_offsets : list (list Z))
    : option FilterBlockReader :=
  match filter_offsets with
  | [] => None
  | offs :: _ =>
      if regionNum =? 0 then None
      else Some (MkFilterReader (replicate (Z.to_nat regionNum) []) (replicate (Z.to_nat regionNum) 0)
                   (zlen offs) regionNum regionFilters filter_offsets base_lg)
  end.

Definition getCurrFiltersNum (r : FilterBlockReader) (regionId : nat) : option Z :=
  curr_num_of_filters_regions_ r !! regionId.

Definition AddFilter (r : FilterBlockReader) (contents : bytes) (regionId : nat) : FilterBlockReader :=
  MkFilterReader (alter (fun region => region ++ [contents]) regionId (datas_ r))
    (alter (fun n => n + 1) regionId (curr_num_of_filters_regions_ r))
    (num_ r) (num_regions r) (regionFilters r) (filter_offsets r) (base_lg_ r).

(** The [while (n--)] loop; the charge of a filter is its bits per key (the
    build does not define [USE_REAL_SIZE]). *)
Fixpoint RemoveFilters_loop (n : nat) (r : FilterBlockReader) (regionId : nat) (delta : Z)
    : option (Z * FilterBlockReader) :=
  match n with
  | O => Some (delta, r)
  | S n =>
      match curr_num_of_filters_regions_ r !! regionId with
      | None => None
      | Some c =>
          let i := c - 1 in
          match bits_per_key_per_filter_ !! Z.to_nat i with
          | None => None
          | Some bits =>
              RemoveFilters_loop n
                (MkFilterReader (alter (fun region => removelast region) regionId (datas_ r))
                   (alter (fun n => n - 1) regionId (curr_num_of_filters_regions_ r))
                   (num_ r) (num_regions r) (regionFilters r) (filter_offsets r) (base_lg_ r))
                regionId (u64 (delta + bits))
          end
      end
  end.

(** A negative [n] would run the loop past the first filter. *)
Definition RemoveFilters (r : FilterBlockReader) (n : Z) (regionId : nat)
    : option (Z * FilterBlockReader) :=
  match curr_num_of_filters_regions_ r !! regionId with
  | None => None
  | Some c =>
      if c <? n then Some (0, r)
      else if n <? 0 then None
      else RemoveFilters_loop (Z.to_nat n) r regionId 0
  end.

(** The loop of [KeyMayMatch]: [Some None] is its early [return false]. *)
Fixpoint collect_filters (offs : list (list Z)) (region : list bytes)
    (index region_index : nat) (n : nat) {struct n} : option (option (list bytes)) :=
  match n with
  | O => Some (Some [])
  | S n =>
      match offs, region with
      | o :: offs, data :: region =>
          match o !! index, o !! S index, o !! region_index with
          | Some start, Some limit, Some region_first =>
              let region_start := u32 (start - region_first) in
              if start <=? limit then
                match collect_filters offs region index region_index n with
                | Some (Some fs) =>
                    Some (Some (sub_bytes data (Z.to_nat region_start) (Z.to_nat (limit - start)) :: fs))
                | other => other
                end
              else Some None
          | _, _, _ => None
          end
      | _, _ => None
      end
  end.

Definition KeyMayMatch (r : FilterBlockReader) (block_offset : Z) (key : bytes) : option bool :=
  let index := block_offset ≫ base_lg_ r in
  if regionFilters r =? 0 then None
  else
    let regionId := Z.to_nat (index / regionFilters r) in
    if index <? num_ r then
      match curr_num_of_filters_regions_ r !! regionId, datas_ r !! regionId with
      | Some c, Some region =>
          if 0 <? c then
            match collect_filters (filter_offsets r) region (Z.to_nat index)
                    (Z.to_nat (index / regionFilters r * regionFilters r)) (Z.to_nat c) with
            | None => None
            | Some None => Some false
            | Some (Some filters) => KeyMayMatchFilters key filters
            end
          else Some true
      | _, _ => None
      end
    else Some true.

(** ** The contents of the filter blocks

    [outs] lists the filters generated so far: [outs !! j] has one filter per
    child, and block [i] is the concatenation of column [i]. *)

Definition column (i : nat) (outs : list (list bytes)) : list bytes := (fun o => nth i o []) <$> outs.

Definition pos (i j : nat) (outs : list (list bytes)) : Z := zlen (concat (take j (column i outs))).

Lemma column_app i outs o : column i (outs ++ [o]) = column i outs ++ [nth i o []].
Proof. unfold column. by rewrite fmap_app. Qed.

Lemma length_column i outs : length (column i outs) = length outs.
Proof. apply length_fmap. Qed.

Lemma pos_all i outs : pos i (length outs) outs = zlen (concat (column i outs)).
Proof. unfold pos. rewrite firstn_all2; [done|]. by rewrite length_column. Qed.

Lemma pos_app i j outs o : (j <= length outs)%nat -> pos i j (outs ++ [o]) = pos i j outs.
Proof. intros Hj. unfold pos. rewrite column_app, take_app_le; [done|]. by rewrite length_column. Qed.

Lemma pos_S i j outs o : outs !! j = Some o -> pos i (S j) outs = pos i j outs + zlen (nth i o []).
Proof.
  intros Ho. unfold pos. rewrite (take_S_r _ _ (nth i o [])), concat_app, zlen_app.
  - simpl. by rewrite app_nil_r.
  - unfold column. by rewrite list_lookup_fmap, Ho.
Qed.

Lemma pos_mono i j k outs : (j <= k)%nat -> pos i j outs <= pos i k outs.
Proof.
  intros Hjk. unfold pos. replace (take j (column i outs)) with (take j (take k (column i outs))).
  - rewrite <- (take_drop j (take k (column i outs))) at 2. rewrite concat_app, zlen_app.
    pose proof (zlen_nonneg (concat (drop j (take k (column i outs))))). lia.
  - by rewrite take_take, Nat.min_l.
Qed.

Lemma pos_nonneg i j outs : 0 <= pos i j outs.
Proof. apply zlen_nonneg. Qed.

(** The text between two offsets of block [i], for one filter. *)
Lemma filter_text i j outs o suffix :
  outs !! j = Some o ->
  sub_bytes (concat (column i outs) ++ suffix) (Z.to_nat (pos i j outs))
    (Z.to_nat (pos i (S j) outs - pos i j outs)) = nth i o [].
Proof.
  intros Ho. rewrite (pos_S _ _ _ _ Ho).
  assert (Hc : column i outs !! j = Some (nth i o [])) by (unfold column; by rewrite list_lookup_fmap, Ho).
  rewrite <- (take_drop_middle _ _ _ Hc) at 1. rewrite concat_app. cbn [concat].
  unfold sub_bytes, pos. rewrite <- !app_assoc, drop_app_exact by apply to_nat_zlen.
  apply take_app_exact. unfold zlen. lia.
Qed.

(** ** The builder *)

Record built_filters (b : FilterBlockBuilder) (ks : list (list bytes)) (outs : list (list bytes))
    (pending : list bytes) : Prop := {
  bf_results : results_ b = (fun i => concat (column i outs)) <$> seq 0 filterNums;
  bf_offsets : filters_offsets_ b
    = (fun i => (fun j => u32 (pos i j outs)) <$> seq 0 (length outs)) <$> seq 0 filterNums;
  bf_pending : tmp_keys (keys_ b) (start_ b ++ [length (keys_ b)]) = pending;
  bf_started : length (start_ b) = length pending;
  bf_bound : forall x, x ∈ start_ b -> (x <= length (keys_ b))%nat;
  bf_groups : Forall2 (fun k o => length o = filterNums /\ same_sizes o /\
    forall key m, In key k -> KeyMayMatchFilters key (take m o) = Some true) ks outs
}.

Lemma replicate_fmap_seq {A} (x : A) n : replicate n x = (fun _ => x) <$> seq 0 n.
Proof.
  apply list_eq. intros i. rewrite list_lookup_fmap. destruct (decide (i < n)%nat).
  - rewrite lookup_replicate_2, lookup_seq_lt by lia. done.
  - rewrite lookup_ge_None_2 by (rewrite length_replicate; lia).
    rewrite lookup_ge_None_2 by (rewrite length_seq; lia). done.
Qed.

Lemma built_filters_new : built_filters FilterBlockBuilder_new [] [] [].
Proof. split; simpl; try done; [by rewrite replicate_fmap_seq..|]. by intros x ?%not_elem_of_nil. Qed.

Lemma zip_with_fmap_seq {A B D} (f : A -> B -> D) (g : nat -> A) (h : nat -> B) l :
  zip_with f (g <$> l) (h <$> l) = (fun i => f (g i) (h i)) <$> l.
Proof. induction l as [|x l IH]; [done|]. cbn [fmap list_fmap zip_with]. f_equal. exact IH. Qed.

Lemma push_offsets_built b ks outs pending :
  built_filters b ks outs pending -> forall o,
  push_offsets b = (fun i => (fun j => u32 (pos i j (outs ++ [o]))) <$> seq 0 (length (outs ++ [o])))
                     <$> seq 0 filterNums.
Proof.
  intros [Hr Ho _ _ _ _] o. unfold push_offsets. rewrite Hr, Ho, zip_with_fmap_seq.
  apply list_fmap_ext. intros _ i _. rewrite length_app. simpl. rewrite Nat.add_1_r, seq_S, fmap_app. simpl.
  f_equal.
  - apply list_fmap_ext. intros ? j Hj%lookup_seq. rewrite pos_app by lia. done.
  - by rewrite pos_app, pos_all.
Qed.

Lemma seq_nth_out (o : list bytes) n : length o = n -> (fun i => nth i o []) <$> seq 0 n = o.
Proof.
  intros <-. apply list_eq. intros i. rewrite list_lookup_fmap. destruct (decide (i < length o)%nat) as [Hi|].
  - rewrite lookup_seq_lt by lia. simpl. destruct (lookup_lt_is_Some_2 o i Hi) as [x Hx].
    rewrite Hx. f_equal. by apply nth_lookup_Some.
  - rewrite !lookup_ge_None_2; [done|lia|rewrite length_seq; lia].
Qed.

Lemma results_snoc outs o : length o = filterNums ->
  zip_with app ((fun i => concat (column i outs)) <$> seq 0 filterNums) o
  = (fun i => concat (column i (outs ++ [o]))) <$> seq 0 filterNums.
Proof.
  intros Hl. rewrite <- (seq_nth_out o filterNums Hl) at 1. rewrite zip_with_fmap_seq.
  apply list_fmap_ext. intros _ i _. rewrite column_app, concat_app. simpl. by rewrite app_nil_r.
Qed.

Lemma nth_replicate_nil {A} i n : nth i (replicate n (@nil A)) [] = [].
Proof. rewrite nth_lookup. destruct (_ !! _) eqn:E; [by apply lookup_replicate in E as [-> _]|done]. Qed.

Lemma GenerateFilter_built `{!FilterPolicyLaws _} b ks outs pending :
  built_filters b ks outs pending -> keys_ok pending ->
  exists b' o, GenerateFilter b = Some b' /\ built_filters b' (ks ++ [pending]) (outs ++ [o]) [].
Proof.
  intros Hb Hk. pose proof (push_offsets_built b ks outs pending Hb) as Hpush.
  pose proof Hb as [Hr Ho Hp Hs Hle Hg].
  unfold GenerateFilter. destruct (start_ b) as [|s0 st] eqn:Hst.
  - destruct pending; [|done].
    eexists _, (replicate filterNums []). split; [reflexivity|].
    split; simpl; [|apply Hpush|done|done|by intros x ?%not_elem_of_nil|].
    + rewrite Hr. apply list_fmap_ext. intros _ i _. rewrite column_app, concat_app. simpl.
      by rewrite nth_replicate_nil, !app_nil_r.
    + apply Forall2_app; [done|]. constructor; [|done]. split; [apply length_replicate|].
      split; [|done]. intros i j ? _ _ _ _. by rewrite !nth_replicate_nil.
  - rewrite Hp. destruct (create_appends pending (results_ b) Hk) as (out & Hc & Hl & Hsz & Hm).
    { by rewrite Hr, length_fmap, length_seq. }
    rewrite Hc. eexists _, out. split; [reflexivity|]. split; simpl; [|apply Hpush|done|done|by intros x ?%not_elem_of_nil|].
    + rewrite Hr. by apply results_snoc.
    + apply Forall2_app; [done|]. by constructor.
Qed.

Lemma tmp_keys_extend keys s e starts key :
  (forall x, x ∈ s :: starts -> (x <= length keys)%nat) -> e = length keys ->
  tmp_keys (keys ++ key) (s :: starts ++ [e; length (keys ++ key)])
  = tmp_keys keys (s :: starts ++ [e]) ++ [key].
Proof.
  intros Hle ->. revert s Hle. induction starts as [|s' starts IH]; intros s Hle; cbn [app tmp_keys].
  - f_equal; [|f_equal].
    + unfold sub_bytes. rewrite drop_app_le, take_app_le; [done|rewrite length_drop; lia|].
      apply Hle. left.
    + unfold sub_bytes. rewrite drop_app_length. apply firstn_all2. rewrite length_app. lia.
  - assert (Hs : sub_bytes (keys ++ key) s (s' - s) = sub_bytes keys s (s' - s)).
    { unfold sub_bytes. assert (s <= length keys)%nat by (apply Hle; left).
      assert (s' <= length keys)%nat by (apply Hle; right; left).
      rewrite drop_app_le, take_app_le; [done|rewrite length_drop; lia|lia]. }
    rewrite Hs. cbn [app]. f_equal. apply IH. intros x Hx. apply Hle. by right.
Qed.

Lemma AddKey_built b ks outs pending key :
  built_filters b ks outs pending -> built_filters (AddKey b key) ks outs (pending ++ [key]).
Proof.
  intros [Hr Ho Hp Hs Hle Hg]. split; simpl; try done.
  - rewrite <- app_assoc. cbn [app]. destruct (start_ b) as [|s st] eqn:Hst.
    + destruct pending; [|done]. cbn [app tmp_keys]. f_equal.
      unfold sub_bytes. rewrite drop_app_length. apply firstn_all2. rewrite length_app. lia.
    + cbn [app]. rewrite tmp_keys_extend by done. cbn [app] in Hp. by rewrite Hp.
  - rewrite !length_app. simpl. lia.
  - intros x [Hx|Hx%list_elem_of_singleton]%elem_of_app; rewrite length_app; [|lia].
    specialize (Hle x Hx). lia.
Qed.

Lemma first_offsets b ks outs pending :
  built_filters b ks outs pending -> (0 < filterNums)%nat ->
  exists offs rest, filters_offsets_ b = offs :: rest /\ zlen offs = zlen outs.
Proof.
  intros [_ Ho _ _ _ _] Hn. rewrite Ho. destruct filterNums as [|n]; [lia|]. simpl.
  eexists _, _. split; [reflexivity|]. unfold zlen. by rewrite length_fmap, length_seq.
Qed.

(** [StartBlock] closes the pending filter, and adds empty ones up to the index. *)
Lemma StartBlock_loop_built `{!FilterPolicyLaws _} fuel : forall b ks outs pending idx,
  built_filters b ks outs pending -> (0 < filterNums)%nat -> keys_ok pending -> keys_ok [] ->
  (Z.to_nat (idx - zlen outs) <= fuel)%nat ->
  exists b' ks' outs' pending', StartBlock_loop fuel idx b = Some b' /\
    built_filters b' (ks ++ ks') (outs ++ outs') pending' /\
    zlen outs + zlen outs' = Z.max (zlen outs) idx /\
    ((idx <= zlen outs /\ ks' = [] /\ pending' = pending) \/
     (zlen outs < idx /\ ks' !! 0%nat = Some pending /\ pending' = [])).
Proof.
  induction fuel as [|fuel IH]; intros b ks outs pending idx Hb Hn Hk Hk0 Hf; cbn [StartBlock_loop];
    destruct (first_offsets b ks outs pending Hb Hn) as (offs & rest & -> & Hz); rewrite Hz;
    (destruct (Z.ltb_spec (zlen outs) idx) as [Hlt|Hge];
      [|eexists b, [], [], pending; rewrite !app_nil_r, zlen_nil; split_and!; [done|done|lia|left; done || lia]]).
  - lia.
  - destruct (GenerateFilter_built b ks outs pending Hb Hk) as (b1 & o & -> & Hb1).
    destruct (IH b1 (ks ++ [pending]) (outs ++ [o]) [] idx Hb1 Hn Hk0 Hk0)
      as (b' & ks' & outs' & p' & -> & Hb' & Hlen & Hcase).
    { rewrite zlen_app, zlen_cons, zlen_nil. lia. }
    exists b', (pending :: ks'), (o :: outs'), p'. rewrite <- !app_assoc in Hb'. cbn [app] in Hb'.
    rewrite zlen_app, zlen_cons, zlen_nil in Hlen. rewrite zlen_cons.
    split_and!; [done|done|lia|]. right. split_and!; [lia|done|].
    destruct Hcase as [(_ & _ & ->)|(_ & _ & ->)]; done.
Qed.

(** ** A whole table: [(StartBlock AddKey* )* Finish] *)

Fixpoint add_blocks (b : FilterBlockBuilder) (blocks : list (Z * list bytes)) : option FilterBlockBuilder :=
  match blocks with
  | [] => Some b
  | (off, keys) :: blocks =>
      match StartBlock b off with
      | None => None
      | Some b => add_blocks (fold_left AddKey keys b) blocks
      end
  end.

Lemma add_keys_built keys : forall b ks outs pending,
  built_filters b ks outs pending -> built_filters (fold_left AddKey keys b) ks outs (pending ++ keys).
Proof.
  induction keys as [|key keys IH]; intros b ks outs pending Hb; simpl; [by rewrite app_nil_r|].
  replace (pending ++ key :: keys) with ((pending ++ [key]) ++ keys) by (by rewrite <- app_assoc).
  apply IH. by apply AddKey_built.
Qed.

(** The keys of the filter at an index, the open one included. *)
Definition group (ks : list (list bytes)) (pending : list bytes) (j : nat) : list bytes :=
  nth j (ks ++ [pending]) [].

Definition filter_index (off : Z) : nat := Z.to_nat (off / kFilterBase).

Definition key_count (blocks : list (Z * list bytes)) : nat := length (concat (snd <$> blocks)).

(** Offsets in the order of the file. *)
Fixpoint offsets_from (lo : Z) (blocks : list (Z * list bytes)) : Prop :=
  match blocks with
  | [] => True
  | (off, _) :: blocks => lo <= off /\ offsets_from off blocks
  end.

Lemma built_lengths b ks outs pending : built_filters b ks outs pending -> length ks = length outs.
Proof. intros Hb. apply (Forall2_length _ _ _ (bf_groups _ _ _ _ Hb)). Qed.

Lemma group_pending ks pending : group ks pending (length ks) = pending.
Proof. unfold group. rewrite app_nth2, Nat.sub_diag by lia. done. Qed.

Lemma group_closed ks pending j g : ks !! j = Some g -> group ks pending j = g.
Proof.
  intros Hg. unfold group. apply lookup_lt_Some in Hg as Hlt. rewrite app_nth1 by lia.
  by apply nth_lookup_Some.
Qed.

(** What a later state keeps of the groups of an earlier one. *)
Definition extends (ks : list (list bytes)) (pending : list bytes) (ks' : list (list bytes))
    (pending' : list bytes) : Prop :=
  forall j key, In key (group ks pending j) -> In key (group ks' pending' j).

Lemma extends_refl_app ks pending keys : extends ks pending ks (pending ++ keys).
Proof.
  intros j key Hin. unfold group in *. destruct (Nat.lt_ge_cases j (length ks)).
  - by rewrite app_nth1 in * by lia.
  - rewrite app_nth2 in * by lia. destruct (j - length ks)%nat as [|n]; [simpl in *; apply in_or_app; by left|].
    destruct n; done.
Qed.

Lemma extends_closed ks pending ks' pending' :
  ks' !! 0%nat = Some pending -> extends ks pending (ks ++ ks') pending'.
Proof.
  intros Hks j key Hin. unfold group in *. destruct ks' as [|k0 ks']; [done|]. injection Hks as ->.
  destruct (Nat.lt_ge_cases j (length ks)).
  - rewrite <- app_assoc. by rewrite app_nth1 in * by lia.
  - rewrite <- app_assoc, app_nth2 by lia. rewrite app_nth2 in Hin by lia.
    destruct (j - length ks)%nat as [|n]; [done|]. simpl in Hin. by destruct n.
Qed.

Lemma add_blocks_built `{!FilterPolicyLaws _} N blocks : forall b ks outs pending lo,
  built_filters b ks outs pending -> (0 < filterNums)%nat ->
  (forall l, (length l <= N)%nat -> keys_ok l) ->
  (length pending + key_count blocks <= N)%nat ->
  0 <= lo -> zlen outs <= lo / kFilterBase -> offsets_from lo blocks ->
  exists b' ks' outs' pending', add_blocks b blocks = Some b' /\
    built_filters b' ks' outs' pending' /\ extends ks pending ks' pending' /\ (length pending' <= N)%nat /\
    forall off keys key, (off, keys) ∈ blocks -> In key keys -> In key (group ks' pending' (filter_index off)).
Proof.
  induction blocks as [|[off keys] blocks IH]; intros b ks outs pending lo Hb Hn Hok HN Hlo Hidx Hoffs.
  { exists b, ks, outs, pending. split_and!; [done|done|by intros ?|cbn in HN; lia|].
    intros ? ? ? ?%not_elem_of_nil. done. }
  destruct Hoffs as [Hle Hoffs]. unfold key_count in *. cbn [fmap list_fmap concat snd] in HN.
  rewrite length_app in HN. cbn [add_blocks]. unfold StartBlock.
  assert (Hdiv : lo / kFilterBase <= off / kFilterBase) by (apply Z.div_le_mono; [done|lia]).
  assert (0 <= off / kFilterBase) by (apply Z.div_pos; [lia|done]).
  destruct (StartBlock_loop_built (Z.to_nat (off / kFilterBase)) b ks outs pending (off / kFilterBase) Hb Hn)
    as (b1 & ks1 & outs1 & p1 & -> & Hb1 & Hlen & Hcase); [apply Hok; lia|apply Hok; simpl; lia| |].
  { pose proof (zlen_nonneg outs). lia. }
  pose proof (add_keys_built keys b1 _ _ _ Hb1) as Hb2.
  assert (Hext1 : extends ks pending (ks ++ ks1) (p1 ++ keys)).
  { destruct Hcase as [(_ & -> & ->)|(_ & Hk & ->)].
    - rewrite app_nil_r. apply extends_refl_app.
    - by apply extends_closed. }
  assert (Hlp : (length p1 <= length pending)%nat) by (destruct Hcase as [(_ & _ & ->)|(_ & _ & ->)]; simpl; lia).
  destruct (IH _ _ _ _ off Hb2 Hn Hok) as (b' & ks' & outs' & p' & -> & Hb' & Hext & HN' & Hin);
    [rewrite length_app; lia|lia|rewrite zlen_app; lia|done|].
  exists b', ks', outs', p'. split_and!; [done|done|intros j key Hj; by apply Hext, Hext1|done|].
  intros off' keys' key [E|Hel]%elem_of_cons Hkey; [|by eapply Hin].
  injection E as -> ->. apply Hext.
  assert (filter_index off = length (ks ++ ks1)) as ->.
  { pose proof (built_lengths _ _ _ _ Hb1) as Hl. rewrite Hl. unfold filter_index.
    assert (Hz : zlen (outs ++ outs1) = off / kFilterBase) by (rewrite zlen_app; lia).
    unfold zlen in Hz. lia. }
  rewrite group_pending. apply in_or_app. by right.
Qed.

(** The offsets of block [i], its total length included. *)
Definition offset_table (i : nat) (outs : list (list bytes)) : list Z :=
  (fun j => pos i j outs) <$> seq 0 (S (length outs)).

(** The filter blocks of a finished builder. *)
Definition filter_block (i : nat) (outs : list (list bytes)) : bytes :=
  concat (column i outs) ++ concat (EncodeFixed32 <$> offset_table i outs) ++ [kFilterBaseLg].

Lemma fold_PutFixed32 (l : list Z) : forall buf,
  fold_left PutFixed32 l buf = buf ++ concat (EncodeFixed32 <$> l).
Proof.
  induction l as [|x l IH]; intros buf; simpl; [by rewrite app_nil_r|].
  rewrite IH. unfold PutFixed32. by rewrite <- app_assoc.
Qed.

Lemma finish_filter_eq i outs : pos i (length outs) outs < 2 ^ 32 ->
  finish_filter ((fun j => u32 (pos i j outs)) <$> seq 0 (length outs)) (concat (column i outs))
  = filter_block i outs.
Proof.
  intros Hb. unfold finish_filter, filter_block, offset_table. rewrite <- pos_all.
  pose proof (pos_nonneg i (length outs) outs).
  rewrite u32_small by lia. rewrite seq_S, fmap_app. simpl.
  rewrite fold_PutFixed32. unfold PutFixed32.
  rewrite fmap_app, concat_app. cbn [fmap list_fmap concat]. rewrite app_nil_r.
  rewrite <- !app_assoc. f_equal. f_equal. f_equal. f_equal. apply list_fmap_ext. intros ? j Hj%lookup_seq. apply u32_small.
  pose proof (pos_nonneg i j outs). pose proof (pos_mono i j (length outs) outs ltac:(lia)). lia.
Qed.

(** The filters of a table answer for every key that was added. *)
Definition covers (blocks : list (Z * list bytes)) (outs : list (list bytes)) : Prop :=
  forall off keys key, (off, keys) ∈ blocks -> In key keys ->
  exists o, outs !! filter_index off = Some o /\ length o = filterNums /\
    forall m, KeyMayMatchFilters key (take m o) = Some true.

Lemma group_matches b ks outs pending j key :
  built_filters b ks outs pending -> In key (group ks pending j) -> pending = [] ->
  exists o, outs !! j = Some o /\ length o = filterNums /\
    forall m, KeyMayMatchFilters key (take m o) = Some true.
Proof.
  intros Hb Hin ->. pose proof (bf_groups _ _ _ _ Hb) as Hg. unfold group in Hin.
  destruct (Nat.lt_ge_cases j (length ks)) as [Hlt|Hge].
  - rewrite app_nth1 in Hin by lia. destruct (lookup_lt_is_Some_2 ks j Hlt) as [g Hgj].
    rewrite (nth_lookup_Some _ _ _ _ Hgj) in Hin.
    destruct (Forall2_lookup_l _ _ _ _ _ Hg Hgj) as (o & Ho & Hl & _ & Hm). exists o. auto.
  - rewrite app_nth2 in Hin by lia. destruct (j - length ks)%nat as [|n]; [done|]. simpl in Hin. by destruct n.
Qed.

Lemma Finish_built `{!FilterPolicyLaws _} b ks outs pending :
  built_filters b ks outs pending -> keys_ok pending ->
  exists ks' outs' results b', Finish b = Some (results, b') /\
    results = (fun i => finish_filter ((fun j => u32 (pos i j outs')) <$> seq 0 (length outs'))
                          (concat (column i outs'))) <$> seq 0 filterNums /\
    results_ b' = results /\
    (exists b0, built_filters b0 ks' outs' []) /\ extends ks pending ks' [].
Proof.
  intros Hb Hk. assert (Hfin : forall b0 ks0 outs0, built_filters b0 ks0 outs0 [] ->
    zip_with finish_filter (filters_offsets_ b0) (results_ b0)
    = (fun i => finish_filter ((fun j => u32 (pos i j outs0)) <$> seq 0 (length outs0))
                  (concat (column i outs0))) <$> seq 0 filterNums).
  { intros b0 ks0 outs0 [Hr Ho _ _ _ _]. by rewrite Hr, Ho, zip_with_fmap_seq. }
  unfold Finish. destruct (start_ b) as [|s st] eqn:Hst.
  - assert (pending = []) as -> by (pose proof (bf_started _ _ _ _ Hb) as Hs; rewrite Hst in Hs; by destruct pending).
    eexists ks, outs, _, _. split; [reflexivity|]. split_and!; [by eapply Hfin|done|by exists b|by intros ?].
  - destruct (GenerateFilter_built b ks outs pending Hb Hk) as (b1 & o & -> & Hb1).
    eexists (ks ++ [pending]), (outs ++ [o]), _, _. split; [reflexivity|].
    split_and!; [by eapply Hfin|done|by exists b1|]. by apply extends_closed.
Qed.

Lemma table_filters_built `{!FilterPolicyLaws _} blocks :
  (0 < filterNums)%nat -> (forall l, (length l <= key_count blocks)%nat -> keys_ok l) ->
  offsets_from 0 blocks ->
  exists b outs results b', add_blocks FilterBlockBuilder_new blocks = Some b /\
    Finish b = Some (results, b') /\ results_ b' = results /\ length results = filterNums /\
    Forall same_sizes outs /\ covers blocks outs /\
    (Forall (fun r => zlen r < 2 ^ 32) results ->
     (forall i, (i < filterNums)%nat -> pos i (length outs) outs < 2 ^ 32) /\
     results = (fun i => filter_block i outs) <$> seq 0 filterNums).
Proof.
  intros Hn Hok Hoffs.
  destruct (add_blocks_built (key_count blocks) blocks FilterBlockBuilder_new [] [] [] 0 built_filters_new Hn Hok)
    as (b & ks & outs & pending & Hadd & Hb & _ & HN & Hin); [simpl; lia|lia|done|done|].
  destruct (Finish_built b ks outs pending Hb) as (ks' & outs' & results & b' & Hfin & Hres & Hrb & (b0 & Hb0) & Hext);
    [by apply Hok|].
  exists b, outs', results, b'. split_and!; [done|done|done| | | |].
  - by rewrite Hres, length_fmap, length_seq.
  - pose proof (bf_groups _ _ _ _ Hb0) as Hg. clear -Hg. induction Hg as [|k o ks os (_ & Hs & _) _ IH]; by constructor.
  - intros off keys key Hel Hkey. eapply group_matches; [exact Hb0| |done]. apply Hext. by eapply Hin.
  - intros Hsm. assert (Hsz : forall i, (i < filterNums)%nat -> pos i (length outs') outs' < 2 ^ 32).
    { intros i Hi. rewrite Hres, Forall_fmap, Forall_seq in Hsm. specialize (Hsm i ltac:(lia)).
      simpl in Hsm. unfold finish_filter, PutFixed32 in Hsm.
      rewrite fold_PutFixed32, !zlen_app, <- pos_all in Hsm.
      repeat match type of Hsm with context [zlen ?x] => pose proof (zlen_nonneg x); generalize dependent (zlen x); intros end.
      lia. }
    split; [done|]. rewrite Hres. apply list_fmap_ext. intros ? i Hi%lookup_seq. apply finish_filter_eq. apply Hsz. lia.
Qed.

(** ** Regions

    Region [r] of a table holds the filters at the indices
    [r * RF .. (r + 1) * RF - 1]; the last one runs to the end. *)

Section Regions.
Context (RF regions : nat) (outs : list (list bytes)).

Definition region_limit (r : nat) : nat :=
  if (S r =? regions)%nat then length outs else (S r * RF)%nat.

Definition region_data (r i : nat) : bytes :=
  sub_bytes (concat (column i outs)) (Z.to_nat (pos i (r * RF) outs))
    (Z.to_nat (pos i (region_limit r) outs - pos i (r * RF) outs)).

Record reader_ok (rd : FilterBlockReader) : Prop := {
  ro_offsets : filter_offsets rd = (fun i => offset_table i outs) <$> seq 0 filterNums;
  ro_num : num_ rd = zlen outs + 1;
  ro_lg : base_lg_ rd = kFilterBaseLg;
  ro_rf : regionFilters rd = Z.of_nat RF;
  ro_datas : length (datas_ rd) = regions;
  ro_counts : length (curr_num_of_filters_regions_ rd) = regions;
  ro_loaded : forall r c region, curr_num_of_filters_regions_ rd !! r = Some c ->
    datas_ rd !! r = Some region ->
    0 <= c <= Z.of_nat filterNums /\ region = region_data r <$> seq 0 (Z.to_nat c)
}.

(** The regions cover the filters: what the code computes from the size of the
    table when the region size is a multiple of the filter base. *)
Definition regions_cover : Prop :=
  (0 < RF)%nat /\ (regions * RF < length outs + RF)%nat /\ (length outs <= regions * RF)%nat.

Lemma offset_table_lookup i j : (j <= length outs)%nat -> offset_table i outs !! j = Some (pos i j outs).
Proof. intros Hj. unfold offset_table. rewrite list_lookup_fmap, lookup_seq_lt by lia. done. Qed.

Lemma region_of_index j : regions_cover -> (j < length outs)%nat ->
  (j / RF < regions)%nat /\ (j / RF * RF <= j)%nat /\ (S j <= region_limit (j / RF))%nat /\
  (region_limit (j / RF) <= length outs)%nat.
Proof.
  intros (HRF & Hc1 & Hc2) Hj. pose proof (Nat.div_mod_eq j RF) as Hd.
  pose proof (Nat.mod_upper_bound j RF ltac:(lia)) as Hm. set (q := (j / RF)%nat) in *.
  assert (Hq : (q < regions)%nat) by nia. unfold region_limit.
  destruct (Nat.eqb_spec (S q) regions); split_and!; nia.
Qed.

Lemma filter_in_region i j o : regions_cover -> outs !! j = Some o ->
  pos i (length outs) outs < 2 ^ 32 ->
  sub_bytes (region_data (j / RF) i) (Z.to_nat (u32 (pos i j outs - pos i (j / RF * RF) outs)))
    (Z.to_nat (pos i (S j) outs - pos i j outs)) = nth i o [].
Proof.
  intros Hcov Ho Hsz. apply lookup_lt_Some in Ho as Hj.
  destruct (region_of_index j Hcov Hj) as (_ & Hlo & Hhi & Hend).
  pose proof (pos_mono i _ _ outs Hlo) as H1. pose proof (pos_mono i _ _ outs Hhi) as H2.
  pose proof (pos_mono i j (S j) outs ltac:(lia)) as H3. pose proof (pos_mono i _ _ outs Hend) as H4.
  pose proof (pos_nonneg i (j / RF * RF) outs).
  rewrite u32_small by lia. unfold region_data. rewrite sub_bytes_sub by lia.
  rewrite <- (filter_text i j outs o [] Ho), app_nil_r. f_equal. lia.
Qed.

Lemma collect_at j o : regions_cover -> outs !! j = Some o ->
  (forall i, (i < filterNums)%nat -> pos i (length outs) outs < 2 ^ 32) ->
  forall n i m, (i + n <= filterNums)%nat -> (n <= m)%nat ->
  collect_filters ((fun i => offset_table i outs) <$> seq i m) (region_data (j / RF) <$> seq i n) j
    (j / RF * RF) n = Some (Some ((fun i => nth i o []) <$> seq i n)).
Proof.
  intros Hcov Ho Hsz n. apply lookup_lt_Some in Ho as Hj.
  destruct (region_of_index j Hcov Hj) as (_ & Hlo & _ & _).
  induction n as [|n IH]; intros i m Hi Hm; [done|]. destruct m as [|m]; [lia|].
  cbn [seq fmap list_fmap collect_filters].
  rewrite !offset_table_lookup by lia.
  pose proof (pos_mono i j (S j) outs ltac:(lia)). rewrite (proj2 (Z.leb_le _ _)) by lia.
  rewrite IH by lia. cbn iota. rewrite (filter_in_region i j o) by (done || apply Hsz; lia). done.
Qed.

(** The answer of the reader is that of the policy on the loaded filters. *)
Lemma KeyMayMatch_at rd off j o c key :
  reader_ok rd -> regions_cover -> 0 <= off -> j = filter_index off -> outs !! j = Some o ->
  length o = filterNums ->
  (forall i, (i < filterNums)%nat -> pos i (length outs) outs < 2 ^ 32) ->
  curr_num_of_filters_regions_ rd !! (j / RF)%nat = Some c ->
  KeyMayMatch rd off key
  = if 0 <? c then KeyMayMatchFilters key (take (Z.to_nat c) o) else Some true.
Proof.
  intros [Hoffs Hnum Hlg Hrf Hdl Hcl Hld] Hcov Hoff Hj Ho Hlo Hsz Hc.
  apply lookup_lt_Some in Ho as Hjl. destruct (region_of_index j Hcov Hjl) as (Hr & _ & _ & _).
  pose proof Hcov as (HRF & _ & _).
  unfold KeyMayMatch. rewrite Hlg, Hrf, Hnum.
  assert (Hidx : off ≫ kFilterBaseLg = Z.of_nat j).
  { rewrite Hj. unfold filter_index, kFilterBase, kFilterBaseLg. rewrite Z.shiftr_div_pow2, Z.shiftl_mul_pow2 by lia.
    rewrite Z2Nat.id; [done|]. apply Z.div_pos; lia. }
  rewrite Hidx. rewrite (proj2 (Z.eqb_neq _ _)) by lia. rewrite <- Nat2Z.inj_div, Nat2Z.id.
  rewrite (proj2 (Z.ltb_lt _ _)) by (unfold zlen; lia). rewrite Hc.
  destruct (lookup_lt_is_Some_2 (datas_ rd) (j / RF)%nat ltac:(lia)) as [region Hreg]. rewrite Hreg.
  destruct (Hld _ _ _ Hc Hreg) as [Hcr ->]. destruct (Z.ltb_spec 0 c); [|done].
  rewrite <- Nat2Z.inj_mul, !Nat2Z.id, Hoffs.
  rewrite (collect_at j o Hcov Ho Hsz (Z.to_nat c) 0 filterNums) by lia.
  f_equal. rewrite <- (seq_nth_out o filterNums Hlo) at 1. rewrite <- fmap_take. f_equal.
  apply list_eq. intros x. destruct (decide (x < Z.to_nat c)%nat).
  - rewrite lookup_take_lt, !lookup_seq_lt by lia. done.
  - rewrite lookup_take_ge by lia. rewrite lookup_ge_None_2; [done|rewrite length_seq; lia].
Qed.

End Regions.

End FilterBlock.

(** ** The elastic policy satisfies the interface *)

Lemma multi_bits_end bits bpk :
  MultiFilter.filterNums (MultiFilter.make bits bpk) <= 12 ->
  exists bs rest, MultiFilter.bits_per_key_per_filter_ (MultiFilter.make bits bpk) = bs ++ 0 :: rest /\
    length bs = length (MultiFilter.filters (MultiFilter.make bits bpk)) /\ Forall (fun b => b <> 0) bs.
Proof.
  unfold MultiFilter.filterNums, zlen. simpl. intros Hn. set (fs := MultiFilter.make_filters 0 bits) in *.
  exists (map Child.bits_per_key_ fs), (replicate (15 - length fs) 0). split_and!.
  - replace (16 - length fs)%nat with (S (15 - length fs)) by lia. done.
  - apply length_map.
  - apply Forall_map, make_filters_bits.
Qed.

Lemma multi_same_sizes nkeys fs (out : list bytes) rest :
  Forall2 (fun f o => length o = filter_length nkeys f) fs out ->
  forall i j b, (i < length fs)%nat -> (j < length fs)%nat ->
  (map Child.bits_per_key_ fs ++ rest) !! i = Some b -> (map Child.bits_per_key_ fs ++ rest) !! j = Some b ->
  length (nth i out []) = length (nth j out []).
Proof.
  intros Hf i j b Hi Hj Hbi Hbj.
  rewrite lookup_app_l in Hbi by (by rewrite length_map). rewrite lookup_app_l in Hbj by (by rewrite length_map).
  apply list_lookup_fmap_Some in Hbi as (fi & -> & Hfi). apply list_lookup_fmap_Some in Hbj as (fj & E & Hfj).
  destruct (Forall2_lookup_l _ _ _ _ _ Hf Hfi) as (oi & Hoi & Hli).
  destruct (Forall2_lookup_l _ _ _ _ _ Hf Hfj) as (oj & Hoj & Hlj).
  rewrite (nth_lookup_Some _ _ _ _ Hoi), (nth_lookup_Some _ _ _ _ Hoj), Hli, Hlj.
  unfold filter_length. by rewrite E.
Qed.

Lemma multi_match_total fs key : forall strs, Forall (fun f => 0 <= Child.id_ f < 12) fs ->
  (length strs <= length fs)%nat -> is_Some (MultiFilter.match_each fs key strs).
Proof.
  intros strs Hfs. revert strs. induction Hfs as [|f fs Hf _ IH]; intros [|s strs] Hl; try done; simpl in Hl; [lia|].
  cbn [MultiFilter.match_each].
  assert (is_Some (Child.KeyMayMatch f key s)) as [b ->].
  { unfold Child.KeyMayMatch, BloomHash. destruct (BloomHash_seed_some _ Hf) as [sd ->].
    repeat case_match; done. }
  simpl. destruct b; [|done]. apply IH. lia.
Qed.

Lemma multi_ids bits bpk : MultiFilter.filterNums (MultiFilter.make bits bpk) <= 12 ->
  Forall (fun f => 0 <= Child.id_ f < 12) (MultiFilter.make_filters 0 bits).
Proof.
  intros Hn. apply Forall_forall. intros f Hf%list_elem_of_In.
  destruct (make_filters_id 0 bits f Hf) as (Hid & _). unfold MultiFilter.filterNums in Hn. simpl in Hn. lia.
Qed.

Lemma MultiPolicy_laws bits bpk :
  MultiFilter.filterNums (MultiFilter.make bits bpk) <= 12 -> FilterPolicyLaws (MultiPolicy bits bpk).
Proof.
  intros Hn. split; [by apply multi_bits_end|intros key fs Hl; apply multi_match_total; [by apply (multi_ids bits bpk)|done]|].
  intros keys dsts Hk Hl. simpl in *.
  destruct (create_match_each (zlen keys) (MultiFilter.make_filters 0 bits) keys dsts)
    as (out & Hc & Ho & Hsz & Hm); [done|by apply (make_children_ok bits bpk)|done|].
  exists out. split_and!; [done..| |done]. intros i j b. by apply (multi_same_sizes (zlen keys)).
Qed.

Lemma InternalPolicy_laws bits bpk :
  MultiFilter.filterNums (MultiFilter.make bits bpk) <= 12 -> FilterPolicyLaws (InternalPolicy bits bpk).
Proof.
  intros Hn. split; [by apply multi_bits_end|intros key fs Hl; apply multi_match_total; [by apply (multi_ids bits bpk)|done]|].
  intros keys dsts Hk Hl. simpl in *.
  assert (Hz : zlen (map ExtractUserKey keys) = zlen keys) by (unfold zlen; by rewrite length_map).
  destruct (create_match_each (zlen keys) (MultiFilter.make_filters 0 bits) (map ExtractUserKey keys) dsts)
    as (out & Hc & Ho & Hsz & Hm); [done|by apply (make_children_ok bits bpk)|done|].
  exists out. split_and!; [done|done| |].
  - intros i j b. by apply (multi_same_sizes (zlen keys)).
  - intros key m Hin. apply Hm. by apply in_map.
Qed.
