(* ===== verification/TableFilters.v ===== *)
(** * TableFilters: loading and evicting the filters of a table's regions

    The filter management of src/LSM-EBF/table/table.cc: the elastic part of the
    engine.  The multi queue asks a table to hold more or fewer filters for one
    region ([AdjustFilters], [RemoveFilters]); the table reads the region's part
    of further filter blocks from the file, or drops the last ones.  The bytes a
    [Slice] points to are kept by value in [filter_datas] and in the reader; a
    file fills the caller's buffer (it is not memory mapped).  [None] is a run
    the source leaves undefined: an index out of range, a division by zero. *)
From S2P Require Import Prelude Coding Status TableFormat FilterBlock.

Record TableRep := MkTable {
  filter : option FilterBlockReader;
  filter_datas : list (list bytes);
  filter_handles : list bytes;
  offsets_ : list (list Z);
  t_base_lg : Z;
  region_divide_size : Z;
  t_file : RandomAccessFile
}.

(** The offsets stored in the metaindex block, as [ReadMeta] decodes them. *)
Definition decode_offsets (contents : bytes) : Z * list Z :=
  let n := zlen contents in
  let num := (n - 5) / 4 in
  (byte_at contents (Z.to_nat (n - 1)),
   (fun i => DecodeFixed32 (drop (i * 4) contents)) <$> seq 0 (Z.to_nat (num + 1))).

Section Table.
Context `{!FilterPolicy}.

Definition set_filter (t : TableRep) (f : option FilterBlockReader) (d : list (list bytes)) : TableRep :=
  MkTable f d (filter_handles t) (offsets_ t) (t_base_lg t) (region_divide_size t) (t_file t).

Definition set_file (t : TableRep) (f : RandomAccessFile) : TableRep :=
  MkTable (filter t) (filter_datas t) (filter_handles t) (offsets_ t) (t_base_lg t)
    (region_divide_size t) f.

(** [0] when there is no filter or the region id is negative. *)
Definition getCurrFilterNum (t : TableRep) (regionId : Z) : option Z :=
  match filter t with
  | None => Some 0
  | Some rd => if regionId <? 0 then Some 0 else getCurrFiltersNum rd (Z.to_nat regionId)
  end.

Definition getRegionNum (t : TableRep) : Z :=
  match offsets_ t with
  | [] => 0
  | offs :: _ =>
      let data_size := (zlen offs - 1) * (1 ≪ t_base_lg t) in
      (data_size + region_divide_size t - 1) / region_divide_size t
  end.

(** [region_divide_size / (1 << base_lg)]: the filters of a region. *)
Definition regionOffset (t : TableRep) : Z := region_divide_size t / (1 ≪ t_base_lg t).

(** The place of a region in the filter block with these offsets: first byte
    and length, in [uint32_t] arithmetic. *)
Definition region_extent (t : TableRep) (offs : list Z) (regionId : Z) : option (Z * Z) :=
  let loc := regionId * regionOffset t in
  match offs !! Z.to_nat loc,
        offs !! Z.to_nat (if negb (regionId =? getRegionNum t - 1) then loc + regionOffset t
                          else zlen offs - 1) with
  | Some first, Some limit => Some (first, u32 (limit - first))
  | _, _ => None
  end.

Definition new_reader (t : TableRep) : option FilterBlockReader :=
  FilterBlockReader_new (getRegionNum t) (regionOffset t) (t_base_lg t) (offsets_ t).

(** [rep_->filter] created on first use. *)
Definition ensure_filter (t : TableRep) : option FilterBlockReader :=
  match filter t with Some rd => Some rd | None => new_reader t end.

(** A region's bytes of one more filter: [filter_datas[regionId].push_back] and [AddFilter]. *)
Definition load_region (t : TableRep) (contents : bytes) (regionId : Z) : option TableRep :=
  match ensure_filter t with
  | None => None
  | Some rd =>
      let r := Z.to_nat regionId in
      if (r <? length (filter_datas t))%nat then
        Some (set_filter t (Some (AddFilter rd contents r))
                (alter (fun region => region ++ [contents]) r (filter_datas t)))
      else None
  end.

(** [ReadFilter(handle, regionId)]: the filter's bits, 0 on an error. *)
Definition ReadFilter (t : TableRep) (filter_handle_value : bytes) (regionId : Z)
    : option (Z * TableRep) :=
  let '(s, handle, _) := Handle.DecodeFrom BlockHandle_new filter_handle_value in
  if negb (ok s) then Some (0, t)
  else
    match getCurrFilterNum t regionId with
    | None => None
    | Some curr =>
        match offsets_ t !! Z.to_nat curr with
        | None => None
        | Some offs =>
            match region_extent t offs regionId with
            | None => None
            | Some (first, data_size) =>
                let '(s, contents, f) :=
                  RandRead (t_file t) (u64 (offset handle + first)) (Z.to_nat data_size) in
                let t := set_file t f in
                if negb (ok s) then Some (0, t)
                else
                  match load_region t contents regionId, bits_per_key_per_filter_ !! Z.to_nat curr with
                  | Some t, Some bits => Some (bits, t)
                  | _, _ => None
                  end
            end
        end
    end.

(** [while (n-- && curr_filter_num < filter_handles.size())]: the counter goes
    on past a filter that could not be read. *)
Fixpoint AddFilters_loop (n : nat) (t : TableRep) (curr : Z) (regionId : Z) (delta : Z)
    : option (Z * TableRep) :=
  match n with
  | O => Some (delta, t)
  | S n =>
      if curr <? zlen (filter_handles t) then
        match filter_handles t !! Z.to_nat curr with
        | None => None
        | Some v =>
            match ReadFilter t v regionId with
            | None => None
            | Some (d, t) => AddFilters_loop n t (curr + 1) regionId (u64 (delta + d))
            end
        end
      else Some (delta, t)
  end.

(** The turns of [while (n--)]: a negative [n] leaves only the other condition. *)
Definition loop_count (n : Z) (t : TableRep) : nat :=
  if n <? 0 then length (filter_handles t) else Z.to_nat n.

Definition AddFilters (t : TableRep) (n : Z) (regionId : Z) : option (Z * TableRep) :=
  match ensure_filter t with
  | None => None
  | Some rd =>
      let t := set_filter t (Some rd) (filter_datas t) in
      match getCurrFilterNum t regionId with
      | None => None
      | Some curr => AddFilters_loop (loop_count n t) t curr regionId 0
      end
  end.

(** The loops of [Table::RemoveFilters] that drop the data of [n] filters. *)
Fixpoint pop_datas (n : nat) (datas : list (list bytes)) (regionId : nat) (curr : Z)
    : option (list (list bytes)) :=
  match n with
  | O => Some datas
  | S n =>
      if 0 <? curr then
        match datas !! regionId with
        | Some (_ :: _) =>
            pop_datas n (alter (fun region => removelast region) regionId datas) regionId (curr - 1)
        | _ => None
        end
      else Some datas
  end.

(** [RemoveFilters(n, regionId)]; [n = -1] keeps one filter. *)
Definition RemoveFilters (t : TableRep) (n : Z) (regionId : Z) : option (Z * TableRep) :=
  match filter t with
  | None => Some (0, t)
  | Some rd =>
      let r := Z.to_nat regionId in
      match getCurrFiltersNum rd r with
      | None => None
      | Some curr =>
          let m := if n =? -1 then curr - 1 else n in
          match FilterBlock.RemoveFilters rd m r,
                pop_datas (Z.to_nat m) (filter_datas t) r curr with
          | Some (delta, rd), Some datas => Some (delta, set_filter t (Some rd) datas)
          | _, _ => None
          end
      end
  end.

(** [AdjustFilters(n, regionId)]: load up to [n] filters, never evict. *)
Definition AdjustFilters (t : TableRep) (n : Z) (regionId : Z) : option (Z * TableRep) :=
  if 0 <? n then
    match getCurrFilterNum t regionId with
    | None => None
    | Some curr =>
        match filter t with
        | None => AddFilters t n regionId
        | Some _ => if curr <? n then AddFilters t (n - curr) regionId else Some (0, t)
        end
    end
  else Some (0, t).

(** ** The versions for a range of regions *)

(** The extents of the regions [regionId_start ..], relative to the first. *)
Fixpoint range_extents (t : TableRep) (offs : list Z) (regionId : Z) (count : nat)
    : option (list (Z * Z)) :=
  match count with
  | O => Some []
  | S count =>
      match region_extent t offs regionId, range_extents t offs (regionId + 1) count with
      | Some e, Some es => Some (e :: es)
      | _, _ => None
      end
  end.

(** The last loop of [ReadFilter] for a range: each region's part of the read. *)
Fixpoint load_regions (t : TableRep) (buf : bytes) (base : Z) (regionId : Z) (es : list (Z * Z))
    : option TableRep :=
  match es with
  | [] => Some t
  | (first, data_size) :: es =>
      match load_region t (sub_bytes buf (Z.to_nat (u64 (first - base))) (Z.to_nat data_size)) regionId with
      | None => None
      | Some t => load_regions t buf base (regionId + 1) es
      end
  end.

(** [delta] is charged before the read, and stays charged if it fails. *)
Definition ReadFilter_range (t : TableRep) (filter_handle_value : bytes)
    (regionId_start regionId_end : Z) (delta : list Z) : option (list Z * TableRep) :=
  let '(s, handle, _) := Handle.DecodeFrom BlockHandle_new filter_handle_value in
  if negb (ok s) then Some (delta, t)
  else
    match getCurrFilterNum t regionId_start with
    | None => None
    | Some curr =>
        match offsets_ t !! Z.to_nat curr, bits_per_key_per_filter_ !! Z.to_nat curr with
        | Some offs, Some bits =>
            match range_extents t offs regionId_start (Z.to_nat (regionId_end - regionId_start + 1)) with
            | Some (((base, _) :: _) as es) =>
                let delta := (fun d => u64 (d + bits)) <$> delta in
                let '(last_first, last_size) := default (0, 0) (last es) in
                let data_size := u64 (u64 (last_first - base) + last_size) in
                let '(s, contents, f) :=
                  RandRead (t_file t) (u64 (offset handle + base)) (Z.to_nat data_size) in
                let t := set_file t f in
                if negb (ok s) then Some (delta, t)
                else
                  match load_regions t contents base regionId_start es with
                  | Some t => Some (delta, t)
                  | None => None
                  end
            | _ => None
            end
        | _, _ => None
        end
    end.

Fixpoint AddFilters_range_loop (n : nat) (t : TableRep) (curr : Z) (regionId_start regionId_end : Z)
    (delta : list Z) : option (list Z * TableRep) :=
  match n with
  | O => Some (delta, t)
  | S n =>
      if curr <? zlen (filter_handles t) then
        match filter_handles t !! Z.to_nat curr with
        | None => None
        | Some v =>
            match ReadFilter_range t v regionId_start regionId_end delta with
            | None => None
            | Some (delta, t) =>
                AddFilters_range_loop n t (curr + 1) regionId_start regionId_end delta
            end
        end
      else Some (delta, t)
  end.

Definition AddFilters_range (t : TableRep) (n : Z) (regionId_start regionId_end : Z)
    : option (list Z * TableRep) :=
  let delta := replicate (Z.to_nat (regionId_end - regionId_start + 1)) 0 in
  match ensure_filter t with
  | None => None
  | Some rd =>
      let t := set_filter t (Some rd) (filter_datas t) in
      match getCurrFilterNum t regionId_start with
      | None => None
      | Some curr => AddFilters_range_loop (loop_count n t) t curr regionId_start regionId_end delta
      end
  end.

(** [NULL] is the empty list. *)
Definition AdjustFilters_range (t : TableRep) (n : Z) (regionId_start regionId_end : Z)
    : option (list Z * TableRep) :=
  if 0 <? n then
    match getCurrFilterNum t regionId_start with
    | None => None
    | Some curr =>
        match filter t with
        | None => AddFilters_range t n regionId_start regionId_end
        | Some _ =>
            if curr <? n then AddFilters_range t (n - curr) regionId_start regionId_end
            else Some ([], t)
        end
    end
  else Some ([], t).

(** [getCurrFiltersSize]. *)
Definition getCurrFiltersSize (t : TableRep) (regionId : Z) : option Z :=
  match filter t with
  | None => Some 0
  | Some _ =>
      if regionId <? 0 then Some 0
      else
        match getCurrFilterNum t regionId, filter_datas t !! Z.to_nat regionId with
        | Some curr, Some region =>
            if (length region <? Z.to_nat curr)%nat then None
            else Some (foldr (fun d acc => u64 (zlen d + acc)) 0 (take (Z.to_nat curr) region))
        | _, _ => None
        end
  end.

(** The question [InternalGet] asks: no filter, or the filter's answer. *)
Definition may_match (t : TableRep) (block_offset : Z) (key : bytes) : option bool :=
  match filter t with
  | None => Some true
  | Some rd => KeyMayMatch rd block_offset key
  end.

(** ** The state of a table as a vector of filter counts *)

Section Counts.
Context (outs : list (list bytes)) (RF regions : nat) (hs : list BlockHandle) (file : RandomAccessFile).

(** A table whose filter blocks were written from [outs]. *)
Record written : Prop := {
  wr_nums : (0 < filterNums)%nat;
  wr_cover : regions_cover RF regions outs;
  wr_some : (0 < regions)%nat;
  wr_small : forall i, (i < filterNums)%nat -> pos i (length outs) outs < 2 ^ 32;
  wr_handles : length hs = filterNums;
  wr_blocks : forall i h, hs !! i = Some h -> handle_ok h /\ offset h + 2 ^ 33 < 2 ^ 64 /\
    holds file (offset h) (filter_block i outs);
  wr_bits : forall i, (i < filterNums)%nat -> is_Some (bits_per_key_per_filter_ !! i)
}.

Definition loaded (counts : list Z) : list (list bytes) :=
  imap (fun r c => region_data RF regions outs r <$> seq 0 (Z.to_nat c)) counts.

Record table_ok (t : TableRep) (counts : list Z) : Prop := {
  tk_offsets : offsets_ t = (fun i => offset_table i outs) <$> seq 0 filterNums;
  tk_lg : t_base_lg t = kFilterBaseLg;
  tk_divide : region_divide_size t = Z.of_nat RF * kFilterBase;
  tk_handles : filter_handles t = handle_bytes <$> hs;
  tk_file : t_file t = file;
  tk_counts : length counts = regions;
  tk_range : Forall (fun c => 0 <= c <= Z.of_nat filterNums) counts;
  tk_datas : filter_datas t = loaded counts;
  tk_reader : match filter t with
              | None => counts = replicate regions 0
              | Some rd => reader_ok RF regions outs rd /\ datas_ rd = loaded counts /\
                           curr_num_of_filters_regions_ rd = counts /\ num_regions rd = Z.of_nat regions
              end
}.

Context (Hw : written).

Lemma first_table t counts : table_ok t counts ->
  exists rest, offsets_ t = offset_table 0 outs :: rest /\ zlen (offset_table 0 outs) = zlen outs + 1.
Proof.
  intros Ht. rewrite (tk_offsets _ _ Ht). pose proof (wr_nums Hw). destruct filterNums as [|n]; [lia|].
  simpl. eexists. split; [reflexivity|]. unfold offset_table, zlen. rewrite length_fmap, length_seq. lia.
Qed.

Lemma regionOffset_ok t counts : table_ok t counts -> regionOffset t = Z.of_nat RF.
Proof.
  intros Ht. unfold regionOffset. rewrite (tk_divide _ _ Ht), (tk_lg _ _ Ht).
  apply Z.div_mul. done.
Qed.

Lemma getRegionNum_ok t counts : table_ok t counts -> getRegionNum t = Z.of_nat regions.
Proof.
  intros Ht. unfold getRegionNum. destruct (first_table t counts Ht) as (rest & -> & Hz).
  rewrite Hz, (tk_divide _ _ Ht), (tk_lg _ _ Ht). change (1 ≪ kFilterBaseLg) with 65536.
  change kFilterBase with 65536. destruct (wr_cover Hw) as (HRF & Hc1 & Hc2). unfold zlen.
  symmetry. apply Z.div_unique with (r := (Z.of_nat (length outs) * 65536 + Z.of_nat RF * 65536 - 1)
    - Z.of_nat RF * 65536 * Z.of_nat regions); [left|]; nia.
Qed.

Lemma region_extent_ok t counts i r : table_ok t counts -> (i < filterNums)%nat -> (r < regions)%nat ->
  region_extent t (offset_table i outs) (Z.of_nat r)
  = Some (pos i (r * RF) outs, pos i (region_limit RF regions outs r) outs - pos i (r * RF) outs) /\
  (r * RF <= region_limit RF regions outs r <= length outs)%nat.
Proof.
  intros Ht Hi Hr. destruct (wr_cover Hw) as (HRF & Hc1 & Hc2).
  assert (Hb : (r * RF <= region_limit RF regions outs r <= length outs)%nat).
  { unfold region_limit. destruct (Nat.eqb_spec (S r) regions); nia. }
  split; [|done]. unfold region_extent. rewrite (regionOffset_ok _ _ Ht), (getRegionNum_ok _ _ Ht).
  replace (Z.to_nat (Z.of_nat r * Z.of_nat RF)) with (r * RF)%nat by nia.
  rewrite offset_table_lookup by lia.
  assert (Hz : zlen (offset_table i outs) = zlen outs + 1)
    by (unfold offset_table, zlen; rewrite length_fmap, length_seq; lia).
  replace (Z.to_nat _) with (region_limit RF regions outs r).
  - rewrite offset_table_lookup by lia. f_equal. f_equal.
    pose proof (pos_mono i _ _ outs (proj1 Hb)). pose proof (pos_mono i _ _ outs (proj2 Hb)).
    pose proof (wr_small Hw i Hi). pose proof (pos_nonneg i (r * RF) outs). apply u32_small. lia.
  - rewrite Hz. unfold region_limit, zlen. destruct (Nat.eqb_spec (S r) regions) as [E|E].
    + replace (Z.of_nat r =? Z.of_nat regions - 1) with true by (symmetry; apply Z.eqb_eq; lia). simpl. lia.
    + replace (Z.of_nat r =? Z.of_nat regions - 1) with false by (symmetry; apply Z.eqb_neq; lia). simpl. nia.
Qed.

(** Reading an extent of filter block [i]. *)
Lemma read_extent i h a b : hs !! i = Some h -> (a <= b <= length outs)%nat ->
  RandRead file (u64 (offset h + pos i a outs)) (Z.to_nat (pos i b outs - pos i a outs))
  = (Status_OK, sub_bytes (concat (column i outs)) (Z.to_nat (pos i a outs))
                  (Z.to_nat (pos i b outs - pos i a outs)), file).
Proof.
  intros Hh Hab. destruct (wr_blocks Hw i h Hh) as ((Hoff & _) & Hbig & Hholds).
  assert (Hi : (i < filterNums)%nat) by (apply lookup_lt_Some in Hh; pose proof (wr_handles Hw); lia).
  pose proof (pos_mono i _ _ outs (proj1 Hab)). pose proof (pos_mono i _ _ outs (proj2 Hab)).
  pose proof (wr_small Hw i Hi). pose proof (pos_nonneg i a outs).
  rewrite u64_small by lia. unfold filter_block in Hholds. apply holds_app in Hholds as [Hholds _].
  apply (RandRead_sub file (offset h) _ (pos i a outs)); [done|lia|].
  rewrite pos_all in *. unfold zlen in *. lia.
Qed.

Lemma loaded_alter counts r c :
  counts !! r = Some c -> 0 <= c ->
  alter (fun region => region ++ [region_data RF regions outs r (Z.to_nat c)]) r (loaded counts)
  = loaded (<[r := c + 1]> counts).
Proof.
  intros Hc H0. unfold loaded. apply list_eq. intros k. rewrite list_lookup_imap.
  destruct (decide (k = r)) as [->|Hne].
  - rewrite list_lookup_alter_eq, list_lookup_imap, Hc. simpl.
    rewrite list_lookup_insert_eq by (by apply lookup_lt_Some in Hc). simpl.
    replace (Z.to_nat (c + 1)) with (S (Z.to_nat c)) by lia. by rewrite seq_S, fmap_app.
  - rewrite list_lookup_alter_ne, list_lookup_imap, list_lookup_insert_ne by done. done.
Qed.

Lemma loaded_length counts : length (loaded counts) = length counts.
Proof. apply length_imap. Qed.

Lemma reader_of_counts rd counts :
  filter_offsets rd = (fun i => offset_table i outs) <$> seq 0 filterNums ->
  num_ rd = zlen outs + 1 -> base_lg_ rd = kFilterBaseLg -> regionFilters rd = Z.of_nat RF ->
  datas_ rd = loaded counts -> curr_num_of_filters_regions_ rd = counts -> length counts = regions ->
  Forall (fun c => 0 <= c <= Z.of_nat filterNums) counts -> reader_ok RF regions outs rd.
Proof.
  intros Ho Hn Hl Hr Hd Hc Hlen Hrange. split; try done.
  - by rewrite Hd, loaded_length.
  - by rewrite Hc.
  - intros r c region Hrc Hreg. rewrite Hc in Hrc. rewrite Hd in Hreg. unfold loaded in Hreg.
    rewrite list_lookup_imap, Hrc in Hreg. injection Hreg as <-. split; [|done].
    by apply (Forall_lookup_1 _ _ _ _ Hrange Hrc).
Qed.

(** [rep_->filter] after it has been created or found. *)
Lemma ensure_filter_ok t counts : table_ok t counts ->
  exists rd, ensure_filter t = Some rd /\ table_ok (set_filter t (Some rd) (filter_datas t)) counts.
Proof.
  intros Ht. pose proof Ht as [Ho Hlg Hdv Hh Hf Hcl Hcr Hd Hr]. unfold ensure_filter.
  destruct (filter t) as [rd|] eqn:Hft.
  - exists rd. split; [done|]. by split.
  - destruct (first_table t counts Ht) as (rest & Hfirst & Hz).
    unfold new_reader, FilterBlockReader_new. rewrite Hfirst.
    rewrite (getRegionNum_ok _ _ Ht), (regionOffset_ok _ _ Ht), (proj2 (Z.eqb_neq _ _)), Nat2Z.id
      by (pose proof (wr_some Hw); lia).
    eexists. split; [reflexivity|]. split; simpl; try done.
    assert (Hl : loaded counts = replicate regions []).
    { rewrite Hr. unfold loaded. apply list_eq. intros k. rewrite list_lookup_imap.
      destruct (decide (k < regions)%nat); [by rewrite !lookup_replicate_2|].
      by rewrite !lookup_ge_None_2 by (rewrite length_replicate; lia). }
    split_and!; try done. apply (reader_of_counts _ counts); simpl; try done. by rewrite <- Ho, Hfirst.
Qed.

Lemma getCurrFilterNum_ok t counts r c : table_ok t counts -> counts !! r = Some c ->
  getCurrFilterNum t (Z.of_nat r) = Some c.
Proof.
  intros Ht Hc. unfold getCurrFilterNum. pose proof (tk_reader _ _ Ht) as Hr.
  destruct (filter t) as [rd|].
  - destruct Hr as (_ & _ & Hcur & _). rewrite (proj2 (Z.ltb_ge _ _)) by lia.
    unfold getCurrFiltersNum. by rewrite Hcur, Nat2Z.id.
  - rewrite Hr in Hc. by apply lookup_replicate in Hc as [-> _].
Qed.

(** Loading the next filter of a region. *)
Lemma load_region_ok t counts r c :
  table_ok t counts -> counts !! r = Some c -> c < Z.of_nat filterNums ->
  exists t', load_region t (region_data RF regions outs r (Z.to_nat c)) (Z.of_nat r) = Some t' /\
    table_ok t' (<[r := c + 1]> counts).
Proof.
  intros Ht Hc Hlt. destruct (ensure_filter_ok t counts Ht) as (rd & Hens & Ht1).
  unfold load_region. rewrite Hens, Nat2Z.id. apply lookup_lt_Some in Hc as Hr.
  pose proof (Forall_lookup_1 _ _ _ _ (tk_range _ _ Ht) Hc) as Hcr. simpl in Hcr.
  rewrite (tk_datas _ _ Ht), loaded_length, (proj2 (Nat.ltb_lt _ _) Hr).
  eexists. split; [reflexivity|]. pose proof Ht1 as [Ho Hlg Hdv Hh Hf Hcl Hrange Hd Hrd]. simpl in *.
  destruct Hrd as (Hok & Hds & Hcur & Hnr). rewrite loaded_alter by (done || lia).
  assert (Hrange' : Forall (fun c => 0 <= c <= Z.of_nat filterNums) (<[r:=c + 1]> counts))
    by (apply Forall_insert; [done|lia]).
  split; simpl; try done; [by rewrite length_insert|].
  assert (Hcur' : alter (fun n : Z => n + 1) r (curr_num_of_filters_regions_ rd) = <[r:=c + 1]> counts).
  { rewrite Hcur. apply list_eq. intros k. destruct (decide (k = r)) as [->|].
    - by rewrite list_lookup_alter_eq, Hc, list_lookup_insert_eq by done.
    - by rewrite list_lookup_alter_ne, list_lookup_insert_ne by done. }
  split_and!; [|by rewrite Hds, loaded_alter by (done || lia)|done|done].
  destruct Hok as [? ? ? ? ? ? ?].
  apply (reader_of_counts _ (<[r:=c + 1]> counts)); simpl; try done; [by rewrite Hds, loaded_alter by (done || lia)|].
  by rewrite length_insert.
Qed.


Lemma set_file_same t counts : table_ok t counts -> set_file t file = t.
Proof. intros Ht. rewrite <- (tk_file _ _ Ht). by destruct t. Qed.

Lemma handle_at t counts i : table_ok t counts -> (i < filterNums)%nat ->
  exists h, hs !! i = Some h /\ filter_handles t !! i = Some (handle_bytes h) /\
    Handle.DecodeFrom BlockHandle_new (handle_bytes h) = (Status_OK, h, []).
Proof.
  intros Ht Hi. destruct (lookup_lt_is_Some_2 hs i) as [h Hh]; [pose proof (wr_handles Hw); lia|].
  exists h. split_and!; [done| |].
  - by rewrite (tk_handles _ _ Ht), list_lookup_fmap, Hh.
  - destruct (wr_blocks Hw i h Hh) as (Hok & _).
    rewrite <- (app_nil_r (handle_bytes h)). by apply Handle_DecodeFrom_Encode.
Qed.

Lemma table_at t counts i : table_ok t counts -> (i < filterNums)%nat ->
  offsets_ t !! i = Some (offset_table i outs).
Proof. intros Ht Hi. by rewrite (tk_offsets _ _ Ht), list_lookup_fmap, lookup_seq_lt. Qed.

Lemma count_range t counts r c : table_ok t counts -> counts !! r = Some c ->
  0 <= c <= Z.of_nat filterNums /\ (r < regions)%nat.
Proof.
  intros Ht Hc. split; [exact (Forall_lookup_1 _ _ _ _ (tk_range _ _ Ht) Hc)|].
  apply lookup_lt_Some in Hc. pose proof (tk_counts _ _ Ht). lia.
Qed.

Lemma ReadFilter_ok t counts r c v :
  table_ok t counts -> counts !! r = Some c -> c < Z.of_nat filterNums ->
  filter_handles t !! Z.to_nat c = Some v ->
  exists bits t', bits_per_key_per_filter_ !! Z.to_nat c = Some bits /\
    ReadFilter t v (Z.of_nat r) = Some (bits, t') /\ table_ok t' (<[r := c + 1]> counts).
Proof.
  intros Ht Hc Hlt Hv. destruct (count_range t counts r c Ht Hc) as [Hcr Hr].
  destruct (handle_at t counts (Z.to_nat c) Ht ltac:(lia)) as (h & Hh & Hv' & Hdec).
  rewrite Hv in Hv'. injection Hv' as ->. destruct (wr_bits Hw (Z.to_nat c) ltac:(lia)) as [bits Hbits].
  destruct (load_region_ok t counts r c Ht Hc Hlt) as (t' & Hload & Ht').
  exists bits, t'. split_and!; [done| |done].
  unfold ReadFilter. rewrite Hdec. simpl negb. cbv iota.
  rewrite (getCurrFilterNum_ok t counts r c Ht Hc), (table_at t counts (Z.to_nat c) Ht) by lia.
  destruct (region_extent_ok t counts (Z.to_nat c) r Ht ltac:(lia) Hr) as [-> Hb].
  rewrite (tk_file _ _ Ht), (read_extent _ h _ _ Hh Hb). simpl negb. cbv iota.
  fold (region_data RF regions outs r (Z.to_nat c)). rewrite (set_file_same t counts Ht), Hload, Hbits. done.
Qed.

(** The bits of the filters [from .. from + n - 1], the charge of a load. *)
Definition charge (from n : nat) : Z :=
  foldl (fun acc i => u64 (acc + default 0 (bits_per_key_per_filter_ !! i))) 0 (seq from n).

Lemma AddFilters_loop_ok n : forall t counts r c delta,
  table_ok t counts -> counts !! r = Some c ->
  let m := Nat.min n (filterNums - Z.to_nat c) in
  exists t', AddFilters_loop n t c (Z.of_nat r) delta
    = Some (foldl (fun acc i => u64 (acc + default 0 (bits_per_key_per_filter_ !! i))) delta
              (seq (Z.to_nat c) m), t') /\
    table_ok t' (<[r := c + Z.of_nat m]> counts).
Proof.
  induction n as [|n IH]; intros t counts r c delta Ht Hc m; subst m.
  { exists t. split; [done|]. rewrite Z.add_0_r. by rewrite list_insert_id. }
  destruct (count_range t counts r c Ht Hc) as [Hcr Hr]. cbn [AddFilters_loop].
  assert (Hz : zlen (filter_handles t) = Z.of_nat filterNums).
  { rewrite (tk_handles _ _ Ht). unfold zlen. rewrite length_fmap, (wr_handles Hw). done. }
  rewrite Hz. destruct (Z.ltb_spec c (Z.of_nat filterNums)) as [Hlt|Hge].
  - destruct (handle_at t counts (Z.to_nat c) Ht ltac:(lia)) as (h & _ & Hv & _). rewrite Hv.
    destruct (ReadFilter_ok t counts r c _ Ht Hc Hlt Hv) as (bits & t1 & Hbits & -> & Ht1).
    destruct (IH t1 (<[r:=c + 1]> counts) r (c + 1) (u64 (delta + bits)) Ht1) as (t' & -> & Ht').
    { rewrite list_lookup_insert_eq; [done|]. by apply lookup_lt_Some in Hc. }
    replace (filterNums - Z.to_nat c)%nat with (S (filterNums - Z.to_nat (c + 1)))%nat by lia.
    exists t'. split.
    + rewrite <- Nat.succ_min_distr. cbn [seq foldl]. rewrite Hbits. simpl default.
      replace (S (Z.to_nat c)) with (Z.to_nat (c + 1)) by lia. done.
    + rewrite list_insert_insert_eq in Ht'. rewrite <- Nat.succ_min_distr.
      by replace (c + Z.of_nat (S (n `min` (filterNums - Z.to_nat (c + 1)))))
        with (c + 1 + Z.of_nat (n `min` (filterNums - Z.to_nat (c + 1)))) by lia.
  - replace (filterNums - Z.to_nat c)%nat with 0%nat by lia. rewrite Nat.min_0_r. simpl.
    exists t. split; [done|]. rewrite Z.add_0_r. by rewrite list_insert_id.
Qed.

Lemma loop_count_nonneg n t : 0 <= n -> loop_count n t = Z.to_nat n.
Proof. intros Hn. unfold loop_count. by rewrite (proj2 (Z.ltb_ge _ _) Hn). Qed.

Lemma AddFilters_ok t counts r c n :
  table_ok t counts -> counts !! r = Some c -> 0 <= n ->
  let m := Nat.min (Z.to_nat n) (filterNums - Z.to_nat c) in
  exists t', AddFilters t n (Z.of_nat r) = Some (charge (Z.to_nat c) m, t') /\
    table_ok t' (<[r := c + Z.of_nat m]> counts).
Proof.
  intros Ht Hc Hn m. unfold AddFilters. destruct (ensure_filter_ok t counts Ht) as (rd & -> & Ht1).
  rewrite (getCurrFilterNum_ok _ counts r c Ht1 Hc), loop_count_nonneg by done. by apply AddFilters_loop_ok.
Qed.

(** The count a request for [n] filters leads to. *)
Definition adjusted (n c : Z) : Z := if 0 <? n then Z.max c (Z.min n (Z.of_nat filterNums)) else c.

Lemma AdjustFilters_ok t counts r c n :
  table_ok t counts -> counts !! r = Some c ->
  exists t', AdjustFilters t n (Z.of_nat r)
      = Some (charge (Z.to_nat c) (Z.to_nat (adjusted n c - c)), t') /\
    table_ok t' (<[r := adjusted n c]> counts).
Proof.
  intros Ht Hc. destruct (count_range t counts r c Ht Hc) as [Hcr Hr].
  unfold AdjustFilters, adjusted. destruct (Z.ltb_spec 0 n) as [Hn|Hn].
  2: { rewrite Z.sub_diag. exists t. split; [done|]. by rewrite list_insert_id. }
  rewrite (getCurrFilterNum_ok t counts r c Ht Hc). pose proof (tk_reader _ _ Ht) as Hrd.
  assert (Hadd : c < n -> exists t', AddFilters t (n - c) (Z.of_nat r)
      = Some (charge (Z.to_nat c) (Z.to_nat (c `max` (n `min` Z.of_nat filterNums) - c)), t') /\
    table_ok t' (<[r := c `max` (n `min` Z.of_nat filterNums)]> counts)).
  { intros Hlt. destruct (AddFilters_ok t counts r c (n - c) Ht Hc ltac:(lia)) as (t' & -> & Ht'). exists t'.
    replace (c `max` (n `min` Z.of_nat filterNums))
      with (c + Z.of_nat (Z.to_nat (n - c) `min` (filterNums - Z.to_nat c))) by lia.
    split; [|done]. do 3 f_equal. lia. }
  assert (Hskip : n <= c -> Some (0, t) = Some (charge (Z.to_nat c)
    (Z.to_nat (c `max` (n `min` Z.of_nat filterNums) - c)), t) /\
    table_ok t (<[r := c `max` (n `min` Z.of_nat filterNums)]> counts)).
  { intros Hge. replace (c `max` _) with c by lia. rewrite Z.sub_diag.
    split; [done|]. by rewrite list_insert_id. }
  destruct (filter t) as [rd|].
  - destruct (Z.ltb_spec c n) as [Hlt|Hge]; [by apply Hadd|]. exists t. by apply Hskip.
  - assert (c = 0) as -> by (rewrite Hrd in Hc; by apply lookup_replicate in Hc as [-> _]).
    destruct (Hadd ltac:(lia)) as (t' & Ht' & Hok). rewrite (Z.sub_0_r n) in Ht'. by exists t'.
Qed.

Lemma loaded_remove counts r c :
  counts !! r = Some c -> 0 < c ->
  alter (fun region => removelast region) r (loaded counts) = loaded (<[r := c - 1]> counts).
Proof.
  intros Hc H0. unfold loaded. apply list_eq. intros k. rewrite list_lookup_imap.
  destruct (decide (k = r)) as [->|Hne].
  - rewrite list_lookup_alter_eq, list_lookup_imap, Hc. simpl.
    rewrite list_lookup_insert_eq by (by apply lookup_lt_Some in Hc). simpl.
    replace (Z.to_nat c) with (S (Z.to_nat (c - 1))) at 1 by lia.
    rewrite seq_S, fmap_app. cbn [fmap list_fmap]. by rewrite removelast_last.
  - rewrite list_lookup_alter_ne, list_lookup_imap, list_lookup_insert_ne by done. done.
Qed.

Lemma pop_datas_ok n : forall counts r c,
  counts !! r = Some c -> Z.of_nat n <= c ->
  pop_datas n (loaded counts) r c = Some (loaded (<[r := c - Z.of_nat n]> counts)).
Proof.
  induction n as [|n IH]; intros counts r c Hc Hn; cbn [pop_datas].
  { rewrite Z.sub_0_r. by rewrite list_insert_id. }
  rewrite (proj2 (Z.ltb_lt _ _)) by lia.
  assert (Hl : loaded counts !! r = Some (region_data RF regions outs r <$> seq 0 (Z.to_nat c)))
    by (unfold loaded; by rewrite list_lookup_imap, Hc).
  rewrite Hl. replace (Z.to_nat c) with (S (Z.to_nat (c - 1))) by lia. cbn [seq fmap list_fmap].
  rewrite (loaded_remove counts r c Hc) by lia.
  rewrite IH; [|rewrite list_lookup_insert_eq; [done|by apply lookup_lt_Some in Hc]|lia].
  rewrite list_insert_insert_eq. do 3 f_equal. lia.
Qed.

(** The charge given back by [n] evictions from a region with [c] filters. *)
Fixpoint refund (n : nat) (c : nat) (delta : Z) : Z :=
  match n with
  | O => delta
  | S n => refund n (c - 1) (u64 (delta + default 0 (bits_per_key_per_filter_ !! (c - 1)%nat)))
  end.

Lemma RemoveFilters_loop_ok n : forall rd counts r c delta,
  datas_ rd = loaded counts -> curr_num_of_filters_regions_ rd = counts ->
  counts !! r = Some c -> Z.of_nat n <= c <= Z.of_nat filterNums ->
  exists rd', RemoveFilters_loop n rd r delta = Some (refund n (Z.to_nat c) delta, rd') /\
    datas_ rd' = loaded (<[r := c - Z.of_nat n]> counts) /\
    curr_num_of_filters_regions_ rd' = <[r := c - Z.of_nat n]> counts /\
    num_ rd' = num_ rd /\ num_regions rd' = num_regions rd /\ regionFilters rd' = regionFilters rd /\
    filter_offsets rd' = filter_offsets rd /\ base_lg_ rd' = base_lg_ rd.
Proof.
  induction n as [|n IH]; intros rd counts r c delta Hd Hcur Hc Hn; cbn [RemoveFilters_loop refund].
  { exists rd. rewrite Z.sub_0_r, list_insert_id by done. split_and!; done. }
  rewrite Hcur, Hc. destruct (wr_bits Hw (Z.to_nat (c - 1)) ltac:(lia)) as [bits Hbits]. rewrite Hbits.
  assert (Hcur' : alter (fun n : Z => n - 1) r counts = <[r:=c - 1]> counts).
  { apply list_eq. intros k. destruct (decide (k = r)) as [->|].
    - rewrite list_lookup_alter_eq, Hc, list_lookup_insert_eq; [done|by apply lookup_lt_Some in Hc].
    - by rewrite list_lookup_alter_ne, list_lookup_insert_ne by done. }
  rewrite Hcur'.
  destruct (IH (MkFilterReader (alter (fun region => removelast region) r (datas_ rd)) (<[r:=c - 1]> counts)
      (num_ rd) (num_regions rd) (regionFilters rd) (filter_offsets rd) (base_lg_ rd))
    (<[r:=c - 1]> counts) r (c - 1) (u64 (delta + bits))) as (rd' & -> & Hd' & Hc' & Hrest).
  - simpl. by rewrite Hd, (loaded_remove counts r c Hc) by lia.
  - done.
  - rewrite list_lookup_insert_eq; [done|by apply lookup_lt_Some in Hc].
  - lia.
  - exists rd'. rewrite list_insert_insert_eq in Hd', Hc'.
    replace (c - 1 - Z.of_nat n) with (c - Z.of_nat (S n)) in * by lia.
    replace (Z.to_nat c - 1)%nat with (Z.to_nat (c - 1)) by lia. rewrite Hbits. simpl default.
    split_and!; [done..|tauto|tauto|tauto|tauto|tauto].
Qed.

Lemma RemoveFilters_ok t counts r c n :
  table_ok t counts -> filter t <> None -> counts !! r = Some c -> 0 <= n <= c ->
  exists t', RemoveFilters t n (Z.of_nat r) = Some (refund (Z.to_nat n) (Z.to_nat c) 0, t') /\
    table_ok t' (<[r := c - n]> counts).
Proof.
  intros Ht Hne Hc Hn. destruct (count_range t counts r c Ht Hc) as [Hcr Hr].
  pose proof Ht as [Ho Hlg Hdv Hh Hf Hcl Hrange Hd Hrd].
  unfold RemoveFilters. destruct (filter t) as [rd|]; [|done]. destruct Hrd as (Hok & Hds & Hcur & Hnr).
  rewrite Nat2Z.id. unfold getCurrFiltersNum. rewrite Hcur, Hc.
  rewrite (proj2 (Z.eqb_neq n (-1))) by lia.
  unfold FilterBlock.RemoveFilters. rewrite Hcur, Hc, (proj2 (Z.ltb_ge c n)), (proj2 (Z.ltb_ge n 0)) by lia.
  destruct (RemoveFilters_loop_ok (Z.to_nat n) rd counts r c 0 Hds Hcur Hc ltac:(lia))
    as (rd' & -> & Hd' & Hc' & Hn' & Hnr' & Hrf' & Hof' & Hlg').
  rewrite Hd, (pop_datas_ok (Z.to_nat n) counts r c Hc) by lia.
  rewrite Z2Nat.id in * by lia. eexists. split; [reflexivity|].
  assert (Hrange' : Forall (fun c => 0 <= c <= Z.of_nat filterNums) (<[r:=c - n]> counts))
    by (apply Forall_insert; [done|lia]).
  split; simpl; try done; [by rewrite length_insert|]. destruct Hok as [? ? ? ? ? ? ?].
  split_and!; try done; [|congruence].
  apply (reader_of_counts _ (<[r:=c - n]> counts)); try done; try congruence. by rewrite length_insert.
Qed.

(** *** Ranges of regions *)

Fixpoint set_range (k r : nat) (v : Z) (counts : list Z) : list Z :=
  match k with O => counts | S k => set_range k (S r) v (<[r := v]> counts) end.

Definition uniform (counts : list Z) (r k : nat) (c : Z) : Prop :=
  forall j, (r <= j < r + k)%nat -> counts !! j = Some c.

Lemma uniform_insert counts r k c v : uniform counts r (S k) c -> uniform (<[r := v]> counts) (S r) k c.
Proof. intros Hu j Hj. rewrite list_lookup_insert_ne by lia. apply Hu. lia. Qed.

Lemma set_range_uniform k : forall r v counts c, uniform counts r k c -> uniform (set_range k r v counts) r k v.
Proof.
  induction k as [|k IH]; intros r v counts c Hu j Hj; [lia|]. cbn [set_range].
  assert (Hlt : (r < length counts)%nat) by (eapply lookup_lt_Some, Hu; lia).
  destruct (Nat.eq_dec j r) as [->|].
  - clear IH Hu. assert (Hkeep : forall k r' cs, (r < r')%nat -> set_range k r' v cs !! r = cs !! r).
    { induction k0 as [|k0 IH]; intros r' cs Hr; [done|]. cbn [set_range]. rewrite IH by lia.
      by rewrite list_lookup_insert_ne by lia. }
    rewrite Hkeep by lia. by rewrite list_lookup_insert_eq.
  - apply (IH (S r) v (<[r := v]> counts) c); [by apply uniform_insert|lia].
Qed.

Lemma set_range_twice k : forall r v w counts,
  set_range k r w (set_range k r v counts) = set_range k r w counts.
Proof.
  assert (Hcomm : forall k r r' v w cs, (r < r')%nat ->
    <[r := w]> (set_range k r' v cs) = set_range k r' v (<[r := w]> cs)).
  { induction k0 as [|k0 IH]; intros r r' v w cs Hr; [done|]. cbn [set_range]. rewrite IH by lia.
    by rewrite list_insert_insert_ne by lia. }
  induction k as [|k IH]; intros r v w counts; [done|]. cbn [set_range].
  rewrite Hcomm by lia. rewrite IH. by rewrite list_insert_insert_eq.
Qed.

Lemma set_range_same k : forall r c counts, uniform counts r k c -> set_range k r c counts = counts.
Proof.
  induction k as [|k IH]; intros r c counts Hu; [done|]. cbn [set_range].
  rewrite list_insert_id by (apply Hu; lia). apply IH. intros j Hj. apply Hu. lia.
Qed.

Definition extent (i r : nat) : Z * Z :=
  (pos i (r * RF) outs, pos i (region_limit RF regions outs r) outs - pos i (r * RF) outs).

Lemma range_extents_ok t counts i k : table_ok t counts -> (i < filterNums)%nat -> forall r,
  (r + k <= regions)%nat ->
  range_extents t (offset_table i outs) (Z.of_nat r) k = Some (extent i <$> seq r k).
Proof.
  intros Ht Hi. induction k as [|k IH]; intros r Hr; [done|]. cbn [range_extents].
  destruct (region_extent_ok t counts i r Ht Hi ltac:(lia)) as [-> _].
  replace (Z.of_nat r + 1) with (Z.of_nat (S r)) by lia. rewrite IH by lia. done.
Qed.

(** The part of the read that belongs to one region. *)
Lemma region_part i r0 r e : (i < filterNums)%nat -> (r0 <= r)%nat -> (r <= e)%nat -> (e < regions)%nat ->
  sub_bytes (sub_bytes (concat (column i outs)) (Z.to_nat (pos i (r0 * RF) outs))
      (Z.to_nat (pos i (region_limit RF regions outs e) outs - pos i (r0 * RF) outs)))
    (Z.to_nat (u64 ((extent i r).1 - (extent i r0).1))) (Z.to_nat (extent i r).2)
  = region_data RF regions outs r i.
Proof.
  intros Hi H1 H2 H3. destruct (wr_cover Hw) as (HRF & Hc1 & Hc2). unfold extent. simpl fst. simpl snd.
  assert (Hlim : forall x, (x < regions)%nat ->
    (x * RF <= region_limit RF regions outs x <= length outs)%nat).
  { intros x Hx. unfold region_limit. destruct (Nat.eqb_spec (S x) regions); nia. }
  assert (Hle : (region_limit RF regions outs r <= region_limit RF regions outs e)%nat).
  { destruct (Nat.eq_dec r e) as [->|]; [done|]. pose proof (Hlim e ltac:(lia)).
    unfold region_limit at 1. rewrite (proj2 (Nat.eqb_neq _ _)) by lia. nia. }
  pose proof (Hlim r ltac:(lia)) as [Ha Hb]. pose proof (Hlim e ltac:(lia)) as [_ Hd].
  pose proof (pos_mono i (r0 * RF) (r * RF) outs ltac:(nia)).
  pose proof (pos_mono i _ _ outs Ha). pose proof (pos_mono i _ _ outs Hle). pose proof (pos_mono i _ _ outs Hd).
  pose proof (wr_small Hw i Hi). pose proof (pos_nonneg i (r0 * RF) outs).
  rewrite u64_small by lia. rewrite sub_bytes_sub by lia. unfold region_data. f_equal. lia.
Qed.

Lemma load_regions_ok i c r0 e k : Z.of_nat i = c -> (i < filterNums)%nat -> forall t counts r,
  table_ok t counts -> (r0 <= r)%nat -> S e = (r + k)%nat -> (e < regions)%nat -> uniform counts r k c ->
  exists t', load_regions t
      (sub_bytes (concat (column i outs)) (Z.to_nat (pos i (r0 * RF) outs))
        (Z.to_nat (pos i (region_limit RF regions outs e) outs - pos i (r0 * RF) outs)))
      (extent i r0).1 (Z.of_nat r) (extent i <$> seq r k) = Some t' /\
    table_ok t' (set_range k r (c + 1) counts).
Proof.
  intros Hic Hi. induction k as [|k IH]; intros t counts r Ht Hr He Hreg Hu; [by exists t|].
  cbn [seq fmap list_fmap load_regions set_range]. rewrite (surjective_pairing (extent i r)).
  rewrite region_part by lia. pose proof (Hu r ltac:(lia)) as Hc.
  destruct (load_region_ok t counts r c Ht Hc ltac:(lia)) as (t1 & Hl1 & Ht1).
  rewrite <- Hic, Nat2Z.id in Hl1. rewrite Hl1.
  replace (Z.of_nat r + 1) with (Z.of_nat (S r)) by lia.
  apply IH; [done|lia|lia|done|]. by apply uniform_insert.
Qed.

Lemma ReadFilter_range_ok t counts r k c v delta :
  table_ok t counts -> uniform counts r (S k) c -> (r + S k <= regions)%nat -> c < Z.of_nat filterNums ->
  filter_handles t !! Z.to_nat c = Some v ->
  exists bits t', bits_per_key_per_filter_ !! Z.to_nat c = Some bits /\
    ReadFilter_range t v (Z.of_nat r) (Z.of_nat (r + k)) delta = Some ((fun d => u64 (d + bits)) <$> delta, t') /\
    table_ok t' (set_range (S k) r (c + 1) counts).
Proof.
  intros Ht Hu Hr Hlt Hv. pose proof (Hu r ltac:(lia)) as Hc. destruct (count_range t counts r c Ht Hc) as [Hcr _].
  destruct (handle_at t counts (Z.to_nat c) Ht ltac:(lia)) as (h & Hh & Hv' & Hdec).
  rewrite Hv in Hv'. injection Hv' as ->. destruct (wr_bits Hw (Z.to_nat c) ltac:(lia)) as [bits Hbits].
  destruct (load_regions_ok (Z.to_nat c) c r (r + k) (S k) ltac:(lia) ltac:(lia) t counts r Ht ltac:(lia)
    ltac:(lia) ltac:(lia) Hu) as (t' & Hload & Ht').
  exists bits, t'. split_and!; [done| |done].
  unfold ReadFilter_range. rewrite Hdec. simpl negb. cbv iota.
  rewrite (getCurrFilterNum_ok t counts r c Ht Hc), (table_at t counts (Z.to_nat c) Ht), Hbits by lia.
  replace (Z.to_nat (Z.of_nat (r + k) - Z.of_nat r + 1)) with (S k) by lia.
  rewrite (range_extents_ok t counts) by (done || lia).
  assert (Hlast : last (extent (Z.to_nat c) <$> seq r (S k)) = Some (extent (Z.to_nat c) (r + k))).
  { rewrite seq_S, fmap_app. cbn [fmap list_fmap]. apply last_snoc. }
  rewrite Hlast. cbn [seq fmap list_fmap] in *.
  change (extent (Z.to_nat c) r) with (pos (Z.to_nat c) (r * RF) outs, (extent (Z.to_nat c) r).2) in *.
  change (extent (Z.to_nat c) (r + k)) with (pos (Z.to_nat c) ((r + k) * RF) outs,
    pos (Z.to_nat c) (region_limit RF regions outs (r + k)) outs - pos (Z.to_nat c) ((r + k) * RF) outs).
  cbn [default fst from_option id] in *. cbv iota beta.
  assert (Hlim : (r * RF <= region_limit RF regions outs (r + k) <= length outs)%nat /\
                 ((r + k) * RF <= region_limit RF regions outs (r + k))%nat).
  { destruct (region_extent_ok t counts (Z.to_nat c) (r + k) Ht ltac:(lia) ltac:(lia)) as [_ ?]. nia. }
  pose proof (pos_mono (Z.to_nat c) (r * RF) ((r + k) * RF) outs ltac:(nia)).
  pose proof (pos_mono (Z.to_nat c) _ _ outs (proj2 Hlim)).
  pose proof (pos_mono (Z.to_nat c) _ _ outs (proj2 (proj1 Hlim))).
  pose proof (wr_small Hw (Z.to_nat c) ltac:(lia)). pose proof (pos_nonneg (Z.to_nat c) (r * RF) outs).
  rewrite (u64_small (pos (Z.to_nat c) ((r + k) * RF) outs - pos (Z.to_nat c) (r * RF) outs)) by lia.
  replace (pos (Z.to_nat c) ((r + k) * RF) outs - pos (Z.to_nat c) (r * RF) outs
    + (pos (Z.to_nat c) (region_limit RF regions outs (r + k)) outs - pos (Z.to_nat c) ((r + k) * RF) outs))
    with (pos (Z.to_nat c) (region_limit RF regions outs (r + k)) outs - pos (Z.to_nat c) (r * RF) outs) by lia.
  rewrite (u64_small (_ - pos (Z.to_nat c) (r * RF) outs)) by lia.
  rewrite (tk_file _ _ Ht), (read_extent _ h _ _ Hh (proj1 Hlim)). simpl negb. cbv iota.
  by rewrite (set_file_same t counts Ht), Hload.
Qed.

Lemma AddFilters_range_loop_ok n : forall t counts r k c delta,
  table_ok t counts -> uniform counts r (S k) c -> (r + S k <= regions)%nat ->
  exists delta' t', AddFilters_range_loop n t c (Z.of_nat r) (Z.of_nat (r + k)) delta = Some (delta', t') /\
    table_ok t' (set_range (S k) r (c + Z.of_nat (Nat.min n (filterNums - Z.to_nat c))) counts).
Proof.
  induction n as [|n IH]; intros t counts r k c delta Ht Hu Hr.
  { exists delta, t. split; [done|]. rewrite Z.add_0_r. by rewrite set_range_same. }
  pose proof (Hu r ltac:(lia)) as Hc. destruct (count_range t counts r c Ht Hc) as [Hcr _].
  cbn [AddFilters_range_loop].
  assert (Hz : zlen (filter_handles t) = Z.of_nat filterNums).
  { rewrite (tk_handles _ _ Ht). unfold zlen. rewrite length_fmap, (wr_handles Hw). done. }
  rewrite Hz. destruct (Z.ltb_spec c (Z.of_nat filterNums)) as [Hlt|Hge].
  - destruct (handle_at t counts (Z.to_nat c) Ht ltac:(lia)) as (h & _ & Hv & _). rewrite Hv.
    destruct (ReadFilter_range_ok t counts r k c _ delta Ht Hu Hr Hlt Hv) as (bits & t1 & _ & -> & Ht1).
    destruct (IH t1 _ r k (c + 1) ((fun d => u64 (d + bits)) <$> delta) Ht1) as (d' & t' & -> & Ht');
      [by eapply set_range_uniform|lia|].
    exists d', t'. split; [done|]. rewrite set_range_twice in Ht'.
    by replace (c + Z.of_nat (S n `min` (filterNums - Z.to_nat c)))
      with (c + 1 + Z.of_nat (n `min` (filterNums - Z.to_nat (c + 1)))) by lia.
  - exists delta, t. split; [done|]. replace (S n `min` (filterNums - Z.to_nat c))%nat with 0%nat by lia.
    rewrite Z.add_0_r. by rewrite set_range_same.
Qed.

Lemma AdjustFilters_range_ok t counts r k c n :
  table_ok t counts -> uniform counts r (S k) c -> (r + S k <= regions)%nat ->
  exists delta t', AdjustFilters_range t n (Z.of_nat r) (Z.of_nat (r + k)) = Some (delta, t') /\
    table_ok t' (set_range (S k) r (adjusted n c) counts).
Proof.
  intros Ht Hu Hr. pose proof (Hu r ltac:(lia)) as Hc. destruct (count_range t counts r c Ht Hc) as [Hcr _].
  unfold AdjustFilters_range, adjusted. destruct (Z.ltb_spec 0 n) as [Hn|Hn].
  2: { exists [], t. split; [done|]. by rewrite set_range_same. }
  rewrite (getCurrFilterNum_ok t counts r c Ht Hc). pose proof (tk_reader _ _ Ht) as Hrd.
  assert (Hadd : forall m, 0 <= m -> c + m = n -> exists delta t',
    AddFilters_range t m (Z.of_nat r) (Z.of_nat (r + k)) = Some (delta, t') /\
    table_ok t' (set_range (S k) r (c `max` (n `min` Z.of_nat filterNums)) counts)).
  { intros m Hm Hcm. unfold AddFilters_range. destruct (ensure_filter_ok t counts Ht) as (rd & -> & Ht1).
    rewrite (getCurrFilterNum_ok _ counts r c Ht1 Hc), loop_count_nonneg by done.
    replace (c `max` (n `min` Z.of_nat filterNums))
      with (c + Z.of_nat (Z.to_nat m `min` (filterNums - Z.to_nat c))) by lia.
    by apply AddFilters_range_loop_ok. }
  destruct (filter t) as [rd|].
  - destruct (Z.ltb_spec c n) as [Hlt|Hge]; [apply Hadd; lia|]. exists [], t. split; [done|].
    replace (c `max` _) with c by lia. by rewrite set_range_same.
  - assert (c = 0) as -> by (rewrite Hrd in Hc; by apply lookup_replicate in Hc as [-> _]). apply Hadd; lia.
Qed.

(** The answer of a table in state [counts] for a block of the table. *)
Lemma may_match_ok t counts off o key :
  table_ok t counts -> 0 <= off -> outs !! filter_index off = Some o -> length o = filterNums ->
  exists c, counts !! (filter_index off / RF)%nat = Some c /\
    may_match t off key = if 0 <? c then KeyMayMatchFilters key (take (Z.to_nat c) o) else Some true.
Proof.
  intros Ht Hoff Ho Hl. apply lookup_lt_Some in Ho as Hj.
  destruct (region_of_index RF regions outs _ (wr_cover Hw) Hj) as (Hr & _).
  destruct (lookup_lt_is_Some_2 counts (filter_index off / RF)%nat) as [c Hc];
    [rewrite (tk_counts _ _ Ht); lia|].
  exists c. split; [done|]. pose proof (tk_reader _ _ Ht) as Hrd. unfold may_match.
  destruct (filter t) as [rd|].
  - destruct Hrd as (Hok & _ & Hcur & _).
    apply (KeyMayMatch_at RF regions outs rd off _ o c key Hok (wr_cover Hw) Hoff eq_refl Ho Hl (wr_small Hw)).
    by rewrite Hcur.
  - rewrite Hrd in Hc. by apply lookup_replicate in Hc as [-> _].
Qed.

End Counts.

(** ** Sequences of adjustments *)

Inductive filter_op :=
  | OpAdjust (n : Z) (regionId : nat)
  | OpAdjustRange (n : Z) (regionId_start : nat) (more : nat)
  | OpRemove (n : Z) (regionId : nat).

(** What the operations do to the vector of counts.  A range must be uniform
    (the source asserts it), and no more filters are removed than are loaded. *)
Definition uniformb (counts : list Z) (r k : nat) (c : Z) : bool :=
  forallb (fun j => bool_decide (counts !! j = Some c)) (seq r k).

Definition counts_step (counts : list Z) (op : filter_op) : option (list Z) :=
  match op with
  | OpAdjust n r =>
      match counts !! r with Some c => Some (<[r := adjusted n c]> counts) | None => None end
  | OpAdjustRange n r k =>
      match counts !! r with
      | Some c => if uniformb counts r (S k) c then Some (set_range (S k) r (adjusted n c) counts) else None
      | None => None
      end
  | OpRemove n r =>
      match counts !! r with
      | Some c => if (0 <=? n) && (n <=? c) then Some (<[r := c - n]> counts) else None
      | None => None
      end
  end.

Definition table_step (t : TableRep) (op : filter_op) : option TableRep :=
  match op with
  | OpAdjust n r => snd <$> AdjustFilters t n (Z.of_nat r)
  | OpAdjustRange n r k => snd <$> AdjustFilters_range t n (Z.of_nat r) (Z.of_nat (r + k))
  | OpRemove n r => snd <$> RemoveFilters t n (Z.of_nat r)
  end.

Fixpoint counts_run (counts : list Z) (ops : list filter_op) : option (list Z) :=
  match ops with
  | [] => Some counts
  | op :: ops => match counts_step counts op with Some c => counts_run c ops | None => None end
  end.

Fixpoint table_run (t : TableRep) (ops : list filter_op) : option TableRep :=
  match ops with
  | [] => Some t
  | op :: ops => match table_step t op with Some t => table_run t ops | None => None end
  end.

Lemma table_step_ok outs RF regions hs file t counts op counts' :
  written outs RF regions hs file -> table_ok outs RF regions hs file t counts ->
  counts_step counts op = Some counts' ->
  exists t', table_step t op = Some t' /\ table_ok outs RF regions hs file t' counts'.
Proof.
  intros Hw Ht Hstep. destruct op as [n r|n r k|n r]; simpl in *;
    destruct (counts !! r) as [c|] eqn:Hc; try done.
  - injection Hstep as <-.
    destruct (AdjustFilters_ok outs RF regions hs file Hw t counts r c n Ht Hc) as (t' & -> & Ht'). by exists t'.
  - destruct (uniformb counts r (S k) c) eqn:Hu; [|done]. injection Hstep as <-.
    assert (Hu' : uniform counts r (S k) c).
    { intros j Hj. unfold uniformb in Hu. rewrite forallb_forall in Hu.
      specialize (Hu j). rewrite bool_decide_eq_true in Hu. apply Hu, in_seq. lia. }
    assert (Hr : (r + S k <= regions)%nat).
    { pose proof (Hu' (r + k)%nat ltac:(lia)) as Hl. apply lookup_lt_Some in Hl.
      pose proof (tk_counts _ _ _ _ _ _ _ Ht). lia. }
    destruct (AdjustFilters_range_ok outs RF regions hs file Hw t counts r k c n Ht Hu' Hr)
      as (d & t' & -> & Ht'). by exists t'.
  - destruct ((0 <=? n) && (n <=? c)) eqn:Hn; [|done]. zsimp. injection Hstep as <-.
    destruct (filter t) as [rd|] eqn:Hf.
    + destruct (RemoveFilters_ok outs RF regions hs file Hw t counts r c n Ht ltac:(by rewrite Hf) Hc ltac:(lia))
        as (t' & -> & Ht'). by exists t'.
    + unfold RemoveFilters. rewrite Hf. exists t. split; [done|].
      pose proof (tk_reader _ _ _ _ _ _ _ Ht) as Hrd. rewrite Hf in Hrd.
      assert (c = 0) by (rewrite Hrd in Hc; by apply lookup_replicate in Hc as [-> _]).
      replace (c - n) with c by lia. by rewrite list_insert_id.
Qed.

Lemma table_run_ok outs RF regions hs file ops : written outs RF regions hs file -> forall t counts counts',
  table_ok outs RF regions hs file t counts -> counts_run counts ops = Some counts' ->
  exists t', table_run t ops = Some t' /\ table_ok outs RF regions hs file t' counts'.
Proof.
  intros Hw. induction ops as [|op ops IH]; intros t counts counts' Ht Hrun; simpl in *.
  - injection Hrun as <-. by exists t.
  - destruct (counts_step counts op) as [c1|] eqn:Hs; [|done].
    destruct (table_step_ok _ _ _ _ _ t counts op c1 Hw Ht Hs) as (t1 & -> & Ht1). by apply (IH t1 c1).
Qed.

(** ** From the builder to the table *)

Lemma zlen_concat_fixed (l : list Z) : zlen (concat (EncodeFixed32 <$> l)) = 4 * zlen l.
Proof.
  induction l as [|x l IH]; [done|]. rewrite fmap_cons. cbn [concat].
  rewrite zlen_app, IH, zlen_cons. unfold zlen. simpl. lia.
Qed.

Lemma concat_fixed_lookup (l : list Z) i x rest :
  l !! i = Some x -> 0 <= x < 2 ^ 32 ->
  DecodeFixed32 (drop (i * 4) (concat (EncodeFixed32 <$> l) ++ rest)) = x.
Proof.
  revert i. induction l as [|y l IH]; intros i Hl Hx; [done|]. rewrite fmap_cons. cbn [concat].
  rewrite <- app_assoc. destruct i as [|i].
  - injection Hl as ->. by apply DecodeFixed32_Encode.
  - replace (S i * 4)%nat with (4 + i * 4)%nat by lia. rewrite <- drop_drop.
    rewrite drop_app_exact by reflexivity. by apply IH.
Qed.

Lemma length_offset_table i outs : length (offset_table i outs) = S (length outs).
Proof. unfold offset_table. by rewrite length_fmap, length_seq. Qed.

Lemma getOffsets_ok b i outs : results_ b !! i = Some (filter_block i outs) ->
  pos i (length outs) outs < 2 ^ 32 ->
  getOffsets b i = Some (concat (EncodeFixed32 <$> offset_table i outs) ++ [kFilterBaseLg]).
Proof.
  intros Hb Hsz. unfold getOffsets. rewrite Hb. pose proof (pos_nonneg i (length outs) outs).
  set (d := concat (column i outs)). set (w := concat (EncodeFixed32 <$> offset_table i outs)).
  assert (Hd : zlen d = pos i (length outs) outs) by (by rewrite pos_all).
  assert (Hwz : zlen w = 4 * (zlen outs + 1)).
  { unfold w. rewrite zlen_concat_fixed. unfold zlen. rewrite length_offset_table. lia. }
  assert (Hz : zlen (filter_block i outs) = zlen d + zlen w + 1).
  { unfold filter_block. rewrite !zlen_app. fold d w. unfold zlen at 3. simpl. lia. }
  pose proof (zlen_nonneg d). pose proof (zlen_nonneg outs).
  rewrite Hz, (proj2 (Z.ltb_ge _ _)) by lia.
  assert (Hsplit : filter_block i outs = (d ++ concat (EncodeFixed32 <$> ((fun j => pos i j outs) <$> seq 0 (length outs))))
      ++ EncodeFixed32 (pos i (length outs) outs) ++ [kFilterBaseLg]).
  { unfold filter_block, offset_table. rewrite seq_S, !fmap_app, concat_app. cbn [fmap list_fmap concat].
    rewrite app_nil_r, <- !app_assoc. done. }
  assert (Hlast : DecodeFixed32 (drop (Z.to_nat (zlen d + zlen w + 1 - 5)) (filter_block i outs))
    = pos i (length outs) outs).
  { rewrite Hsplit, drop_app_exact; [by apply DecodeFixed32_Encode|].
    rewrite length_app. pose proof (zlen_concat_fixed ((fun j => pos i j outs) <$> seq 0 (length outs))) as Hc.
    unfold zlen in *. rewrite length_fmap, length_seq in Hc. lia. }
  rewrite Hlast, (proj2 (Z.ltb_ge _ _)) by lia. f_equal. unfold filter_block. fold d w.
  apply drop_app_exact. rewrite <- Hd. apply to_nat_zlen.
Qed.

Lemma decode_offsets_ok i outs : (forall j, (j <= length outs)%nat -> pos i j outs < 2 ^ 32) ->
  decode_offsets (concat (EncodeFixed32 <$> offset_table i outs) ++ [kFilterBaseLg])
  = (kFilterBaseLg, offset_table i outs).
Proof.
  intros Hsz. set (w := concat (EncodeFixed32 <$> offset_table i outs)).
  assert (Hwz : zlen w = 4 * (zlen outs + 1)).
  { unfold w. rewrite zlen_concat_fixed. unfold zlen. rewrite length_offset_table. lia. }
  assert (Hz : zlen (w ++ [kFilterBaseLg]) = 4 * (zlen outs + 1) + 1) by (rewrite zlen_app, Hwz; done).
  unfold decode_offsets. rewrite Hz. f_equal.
  - replace (Z.to_nat _) with (length w) by (unfold zlen in *; lia).
    unfold byte_at. rewrite app_nth2, Nat.sub_diag by lia. done.
  - replace (Z.to_nat ((4 * (zlen outs + 1) + 1 - 5) / 4 + 1)) with (S (length outs)).
    2: { replace (4 * (zlen outs + 1) + 1 - 5) with (zlen outs * 4) by lia. rewrite Z.div_mul by lia.
         unfold zlen. lia. }
    unfold offset_table at 1. apply list_fmap_ext. intros ? j Hj%lookup_seq.
    apply concat_fixed_lookup; [by apply offset_table_lookup; lia|].
    pose proof (pos_nonneg i j outs). split; [done|]. apply Hsz. lia.
Qed.

End Table.

(** ** Properties *)

(** A table opened on a file that holds the filter blocks of a finished
    builder, with nothing loaded yet. *)
Record opened `{!FilterPolicy} (t : TableRep) (b : FilterBlockBuilder) (hs : list BlockHandle) : Prop := {
  op_offsets : offsets_ t
    = (fun i => (decode_offsets (default [] (getOffsets b i))).2) <$> seq 0 filterNums;
  op_lg : t_base_lg t = (decode_offsets (default [] (getOffsets b 0))).1;
  op_handles : filter_handles t = handle_bytes <$> hs;
  op_count : length hs = filterNums;
  op_blocks : forall i h block, hs !! i = Some h -> results_ b !! i = Some block ->
    handle_ok h /\ offset h + 2 ^ 33 < 2 ^ 64 /\ holds (t_file t) (offset h) block;
  op_none : filter t = None;
  op_datas : filter_datas t = replicate (Z.to_nat (getRegionNum t)) []
}.

Lemma opened_table `{!FilterPolicy} t b hs RF outs results :
  opened t b hs -> 0 < RF -> region_divide_size t = RF * kFilterBase -> (0 < filterNums)%nat ->
  (0 < length outs)%nat -> (forall i, (i < filterNums)%nat -> is_Some (bits_per_key_per_filter_ !! i)) ->
  (forall i, (i < filterNums)%nat -> pos i (length outs) outs < 2 ^ 32) ->
  results = (fun i => filter_block i outs) <$> seq 0 filterNums -> results_ b = results ->
  let regions := Z.to_nat (getRegionNum t) in
  written outs (Z.to_nat RF) regions hs (t_file t) /\
  table_ok outs (Z.to_nat RF) regions hs (t_file t) t (replicate regions 0).
Proof.
  intros [Hto Htl Hth Htc Htb Htn Htd] HRF Hdv Hn Hsome Hbits Hsz Hblk Hrb regions.
  assert (Hlk : forall i, (i < filterNums)%nat -> results_ b !! i = Some (filter_block i outs))
    by (intros i Hi; by rewrite Hrb, Hblk, list_lookup_fmap, lookup_seq_lt).
  assert (Hdec : forall i, (i < filterNums)%nat ->
    decode_offsets (default [] (getOffsets b i)) = (kFilterBaseLg, offset_table i outs)).
  { intros i Hi. rewrite (getOffsets_ok b i outs (Hlk i Hi) (Hsz i Hi)). apply decode_offsets_ok.
    intros j Hj. pose proof (pos_mono i j (length outs) outs Hj). pose proof (Hsz i Hi). lia. }
  assert (Hoff : offsets_ t = (fun i => offset_table i outs) <$> seq 0 filterNums).
  { rewrite Hto. apply list_fmap_ext. intros ? i Hi%lookup_seq. by rewrite Hdec by lia. }
  assert (Hlg : t_base_lg t = kFilterBaseLg) by (by rewrite Htl, Hdec by lia).
  assert (Hrn : getRegionNum t = (zlen outs * 65536 + RF * 65536 - 1) / (RF * 65536)).
  { unfold getRegionNum. rewrite Hoff, Hdv, Hlg. destruct filterNums as [|m]; [lia|]. simpl.
    assert (Hz : zlen (offset_table 0 outs) = zlen outs + 1) by (unfold zlen; rewrite length_offset_table; lia).
    rewrite Hz. change kFilterBase with 65536. change (1 ≪ kFilterBaseLg) with 65536. f_equal. lia. }
  assert (Hq : getRegionNum t * RF < zlen outs + RF /\ zlen outs <= getRegionNum t * RF).
  { rewrite Hrn. pose proof (Z.div_mod (zlen outs * 65536 + RF * 65536 - 1) (RF * 65536) ltac:(lia)).
    pose proof (Z.mod_pos_bound (zlen outs * 65536 + RF * 65536 - 1) (RF * 65536) ltac:(lia)). nia. }
  assert (0 < getRegionNum t) by (unfold zlen in Hq; nia).
  unfold zlen in Hq. split.
  - split; try done.
    + unfold regions_cover, regions. nia.
    + unfold regions. lia.
    + intros i h Hh. apply lookup_lt_Some in Hh as Hi. apply (Htb i h); [done|]. apply Hlk. lia.
  - split; try done.
    + rewrite Hdv, Z2Nat.id by lia. done.
    + by rewrite length_replicate.
    + apply Forall_replicate. lia.
    + rewrite Htd. fold regions. unfold loaded. apply list_eq. intros k. rewrite list_lookup_imap.
      destruct (decide (k < regions)%nat); [by rewrite !lookup_replicate_2|].
      by rewrite !lookup_ge_None_2 by (rewrite length_replicate; lia).
    + by rewrite Htn.
Qed.

Lemma offsets_from_nonneg lo blocks off keys :
  offsets_from lo blocks -> (off, keys) ∈ blocks -> 0 <= lo -> 0 <= off.
Proof.
  revert lo. induction blocks as [|[o ks] blocks IH]; intros lo Hf Hel Hlo; [by apply not_elem_of_nil in Hel|].
  destruct Hf as [Hle Hf]. apply elem_of_cons in Hel as [E|Hel]; [injection E as -> ->; lia|].
  apply (IH o Hf Hel). lia.
Qed.

(** C21. The elastic filters never lose a key.  Build the filter blocks of a
    table from any blocks in file order, open it with a region size that is a
    multiple of the filter base, and run any sequence of [AdjustFilters] (one
    region or a range) and [RemoveFilters] that respects the asserted
    preconditions.  Every call returns, the number of filters loaded for each
    region is exactly the abstract count, and for each key of each block the
    filter answers "may match", however many filters its region holds. *)
Theorem elastic_filters_no_false_negative {P : FilterPolicy} {L : FilterPolicyLaws P}
    (blocks : list (Z * list bytes)) :
  (0 < filterNums)%nat -> (forall l, (length l <= key_count blocks)%nat -> keys_ok l) ->
  offsets_from 0 blocks -> (forall i, (i < filterNums)%nat -> is_Some (bits_per_key_per_filter_ !! i)) ->
  (exists off keys key, (off, keys) ∈ blocks /\ In key keys) ->
  exists b results b',
    add_blocks FilterBlockBuilder_new blocks = Some b /\ Finish b = Some (results, b') /\
    forall t hs RF ops counts,
      Forall (fun r => zlen r < 2 ^ 32) results -> opened t b' hs ->
      0 < RF -> region_divide_size t = RF * kFilterBase ->
      counts_run (replicate (Z.to_nat (getRegionNum t)) 0) ops = Some counts ->
      exists t', table_run t ops = Some t' /\
        (forall r c, counts !! r = Some c -> getCurrFilterNum t' (Z.of_nat r) = Some c) /\
        forall off keys key, (off, keys) ∈ blocks -> In key keys -> may_match t' off key = Some true.
Proof.
  intros Hn Hok Hoffs Hbits (off0 & keys0 & key0 & Hin0 & Hkey0).
  destruct (table_filters_built blocks Hn Hok Hoffs) as (b & outs & results & b' & Hadd & Hfin & Hrb & _ & _ & Hcov & Hres).
  exists b, results, b'. split_and!; [done|done|].
  intros t hs RF ops counts Hsmall Hopen HRF Hdv Hrun.
  destruct (Hres Hsmall) as [Hsz Hblk].
  assert (Hsome : (0 < length outs)%nat).
  { destruct (Hcov _ _ _ Hin0 Hkey0) as (o & Ho & _). apply lookup_lt_Some in Ho. lia. }
  destruct (opened_table t b' hs RF outs results Hopen HRF Hdv Hn Hsome Hbits Hsz Hblk Hrb) as [Hw Ht].
  destruct (table_run_ok _ _ _ _ _ ops Hw t _ counts Ht Hrun) as (t' & Hrun' & Ht').
  exists t'. split_and!; [done| |].
  - intros r c Hc. by eapply getCurrFilterNum_ok.
  - intros off keys key Hel Hin. destruct (Hcov off keys key Hel Hin) as (o & Ho & Hl & Hm).
    destruct (may_match_ok _ _ _ _ _ Hw t' counts off o key Ht' (offsets_from_nonneg 0 blocks off keys Hoffs Hel ltac:(lia)) Ho Hl)
      as (c & _ & ->). destruct (0 <? c); [apply Hm|done].
Qed.

(** A small table: two blocks of internal keys, the second past the first
    filter base, with two filters of 4 and 8 bits per key. *)
#[local] Instance example_policy : FilterPolicy := InternalPolicy [4; 8; 0] 12.
Definition example_laws : FilterPolicyLaws example_policy := InternalPolicy_laws [4; 8; 0] 12 ltac:(vm_compute; discriminate).

Definition example_blocks : list (Z * list bytes) :=
  [(0, [[97; 1; 0; 0; 0; 0; 0; 0; 0]; [98; 1; 0; 0; 0; 0; 0; 0; 0]]);
   (70000, [[99; 1; 0; 0; 0; 0; 0; 0; 0]])].

Definition example_builder : FilterBlockBuilder := Eval vm_compute in
  match add_blocks FilterBlockBuilder_new example_blocks with
  | Some b => match Finish b with Some (_, b) => b | None => b end
  | None => FilterBlockBuilder_new
  end.

Definition example_handles : list BlockHandle :=
  [MkHandle 0 (zlen (nth 0 (results_ example_builder) []));
   MkHandle (zlen (nth 0 (results_ example_builder) [])) (zlen (nth 1 (results_ example_builder) []))].

Definition example_table : TableRep :=
  MkTable None [[]; []] (handle_bytes <$> example_handles)
    ((fun i => (decode_offsets (default [] (getOffsets example_builder i))).2) <$> seq 0 2)
    16 kFilterBase (RFile (concat (results_ example_builder)) []).

Lemma example_table_opened : opened example_table example_builder example_handles.
Proof.
  split; [vm_compute; reflexivity|vm_compute; reflexivity|reflexivity|reflexivity| |reflexivity|vm_compute; reflexivity].
  intros i h block Hh Hblk. destruct i as [|[|i]]; [| |done]; injection Hh as <-; injection Hblk as <-.
  - split; [repeat split; vm_compute; first [reflexivity|discriminate]|split; [vm_compute; reflexivity|]].
    split; [vm_compute; discriminate|split; [reflexivity|]]. exists [], (nth 1 (results_ example_builder) []). split; vm_compute; reflexivity.
  - split; [repeat split; vm_compute; first [reflexivity|discriminate]|split; [vm_compute; reflexivity|]].
    split; [vm_compute; discriminate|split; [reflexivity|]]. exists (nth 0 (results_ example_builder) []), []. split; vm_compute; reflexivity.
Qed.

Lemma example_keys_ok l : (length l <= key_count example_blocks)%nat -> keys_ok l.
Proof. intros Hl. change (length l <= 3)%nat in Hl. unfold keys_ok. simpl. unfold multi_keys_ok, zlen. repeat constructor; lia. Qed.

Lemma example_bits i : (i < filterNums)%nat -> is_Some (bits_per_key_per_filter_ !! i).
Proof. intros Hi. change (i < 2)%nat in Hi. destruct i as [|[|i]]; [by eexists|by eexists|lia]. Qed.

Lemma example_built b results b' : add_blocks FilterBlockBuilder_new example_blocks = Some b -> Finish b = Some (results, b') -> b' = example_builder /\ results = results_ example_builder.
Proof. intros Hadd Hfin. vm_compute in Hadd. injection Hadd as <-. vm_compute in Hfin. injection Hfin as <- <-. done. Qed.

Lemma example_small : Forall (fun r => zlen r < 2 ^ 32) (results_ example_builder).
Proof. apply (bool_decide_unpack _). vm_compute. exact I. Qed.

(** The example table, with nothing loaded. *)
Lemma example_table_ok : exists outs, written outs 1 2 example_handles (t_file example_table) /\
  table_ok outs 1 2 example_handles (t_file example_table) example_table [0; 0].
Proof.
  destruct (table_filters_built (FilterPolicyLaws0 := example_laws) example_blocks) as (b & outs & results & b' & Hadd & Hfin & Hrb & _ & _ & Hcov & Hres);
    [vm_compute; lia|exact example_keys_ok|simpl; lia|].
  destruct (example_built b results b' Hadd Hfin) as [-> ->]. destruct (Hres example_small) as [Hsz Hblk]. exists outs.
  apply (opened_table example_table example_builder example_handles 1 outs (results_ example_builder) example_table_opened); try done; [vm_compute; lia| |exact example_bits].
  destruct (Hcov 70000 [[99; 1; 0; 0; 0; 0; 0; 0; 0]] [99; 1; 0; 0; 0; 0; 0; 0; 0]) as (o & Ho & _); [right; left|by left|]. apply lookup_lt_Some in Ho. lia.
Qed.

Lemma elastic_filters_no_false_negative_witness :
  exists t', table_run example_table
      [OpAdjustRange 1 0 1; OpAdjust 2 1; OpRemove 1 0] = Some t' /\
    may_match t' 70000 [99; 1; 0; 0; 0; 0; 0; 0; 0] = Some true.
Proof.
  destruct (elastic_filters_no_false_negative (P := example_policy) (L := example_laws) example_blocks)
    as (b & results & b' & Hadd & Hfin & Hall); [vm_compute; lia|exact example_keys_ok|simpl; lia|exact example_bits| |].
  - exists 70000, [[99; 1; 0; 0; 0; 0; 0; 0; 0]], [99; 1; 0; 0; 0; 0; 0; 0; 0]. split; [right; left|by left].
  - destruct (example_built b results b' Hadd Hfin) as [-> ->].
    destruct (Hall example_table example_handles 1 [OpAdjustRange 1 0 1; OpAdjust 2 1; OpRemove 1 0] [0; 2] example_small example_table_opened)
      as (t' & Hrun & _ & Hm); [lia|reflexivity|vm_compute; reflexivity|].
    exists t'. split; [done|]. apply (Hm 70000 [[99; 1; 0; 0; 0; 0; 0; 0; 0]]); [right; left|by left].
Defined.
