(* ===== verification/TableBuilder.v ===== *)
(** * TableBuilder: writing a table file

    src/LSM-EBF/table/table_builder.cc.  [Rep] has the fields of
    [TableBuilder::Rep] and [tableMetaData_]; the comparator and the policy are
    the interfaces [Comparator] and [FilterPolicy], and the options keep the
    comparator's address and the policy's name ([None] for NULL).  [None] as a
    result is a run the source leaves undefined.  Assertions are hypotheses of
    the theorems. *)
From stdpp Require Import pretty.
From S2P Require Import Prelude Coding Crc32c Status Comparator TableFormat Block FilterBlock.

(** The options the table code reads, include/leveldb/options.h. *)
Record Options := MkOptions {
  comparator : nat;
  paranoid_checks : bool;
  block_size : Z;
  block_restart_interval : Z;
  compression : CompressionType;
  filter_policy : option bytes;
  add_filter : bool;
  init_filter_nums : Z;
  freq_divide_size : Z;
  opt_region_divide_size : Z;
  opt_kFilterBaseLg : Z
}.

Definition set_restart_interval (o : Options) (n : Z) : Options :=
  MkOptions (comparator o) (paranoid_checks o) (block_size o) n (compression o) (filter_policy o)
    (add_filter o) (init_filter_nums o) (freq_divide_size o) (opt_region_divide_size o)
    (opt_kFilterBaseLg o).

(** [filter_num] of the slices of [filter_data] are set. *)
Record TableMetaData := MkMetaData {
  index_data : bytes;
  filter_data : list bytes;
  load_filter_num : list Z
}.

Module TableBuilder.

Record Rep := MkRep {
  options : Options;
  index_block_options : Options;
  file : WritableFile;
  r_offset : Z;
  r_status : Status;
  data_block : BlockBuilder;
  index_block : BlockBuilder;
  last_key : bytes;
  num_entries : Z;
  closed : bool;
  filter_block : option FilterBlockBuilder;
  pending_index_entry : bool;
  pending_handle : BlockHandle;
  tableMetaData_ : option TableMetaData
}.

(** Field updates. *)
Definition with_file (r : Rep) (f : WritableFile) (off : Z) (s : Status) : Rep :=
  MkRep (options r) (index_block_options r) f off s (data_block r) (index_block r) (last_key r)
    (num_entries r) (closed r) (filter_block r) (pending_index_entry r) (pending_handle r)
    (tableMetaData_ r).

Definition with_data (r : Rep) (b : BlockBuilder) : Rep :=
  MkRep (options r) (index_block_options r) (file r) (r_offset r) (r_status r) b (index_block r)
    (last_key r) (num_entries r) (closed r) (filter_block r) (pending_index_entry r)
    (pending_handle r) (tableMetaData_ r).

Definition with_index (r : Rep) (b : BlockBuilder) (key : bytes) (pending : bool) : Rep :=
  MkRep (options r) (index_block_options r) (file r) (r_offset r) (r_status r) (data_block r) b
    key (num_entries r) (closed r) (filter_block r) pending (pending_handle r) (tableMetaData_ r).

Definition with_pending (r : Rep) (pending : bool) (h : BlockHandle) : Rep :=
  MkRep (options r) (index_block_options r) (file r) (r_offset r) (r_status r) (data_block r)
    (index_block r) (last_key r) (num_entries r) (closed r) (filter_block r) pending h
    (tableMetaData_ r).

Definition with_filter (r : Rep) (b : option FilterBlockBuilder) : Rep :=
  MkRep (options r) (index_block_options r) (file r) (r_offset r) (r_status r) (data_block r)
    (index_block r) (last_key r) (num_entries r) (closed r) b (pending_index_entry r)
    (pending_handle r) (tableMetaData_ r).

Definition with_key (r : Rep) (key : bytes) (n : Z) : Rep :=
  MkRep (options r) (index_block_options r) (file r) (r_offset r) (r_status r) (data_block r)
    (index_block r) key n (closed r) (filter_block r) (pending_index_entry r)
    (pending_handle r) (tableMetaData_ r).

Definition with_closed (r : Rep) (m : option TableMetaData) : Rep :=
  MkRep (options r) (index_block_options r) (file r) (r_offset r) (r_status r) (data_block r)
    (index_block r) (last_key r) (num_entries r) true (filter_block r) (pending_index_entry r)
    (pending_handle r) m.

Definition with_options (r : Rep) (o io : Options) : Rep :=
  MkRep o io (file r) (r_offset r) (r_status r) (data_block r) (index_block r) (last_key r)
    (num_entries r) (closed r) (filter_block r) (pending_index_entry r) (pending_handle r)
    (tableMetaData_ r).

Definition is_ok (r : Rep) : bool := ok (r_status r).

Section Operations.
Context `{!Crc32c, !Snappy, !Comparator, !FilterPolicy}.

(** [Rep]'s constructor. *)
Definition Rep_new (opt : Options) (f : WritableFile) : Rep :=
  MkRep opt (set_restart_interval opt 1) f 0 Status_OK Builder.make Builder.make [] 0 false
    (match filter_policy opt with None => None | Some _ => Some FilterBlockBuilder_new end)
    false BlockHandle_new None.

(** [filter_block->StartBlock] when there is a filter block. *)
Definition start_filter (r : Rep) (off : Z) : option Rep :=
  match filter_block r with
  | None => Some r
  | Some b => b ← StartBlock b off; Some (with_filter r (Some b))
  end.

Definition make (opt : Options) (f : WritableFile) : option Rep := start_filter (Rep_new opt f) 0.

Definition ChangeOptions (r : Rep) (opt : Options) : Status * Rep :=
  if negb (comparator opt =? comparator (options r))%nat then
    (InvalidArgument (str "changing comparator while building table") [], r)
  else (Status_OK, with_options r opt (set_restart_interval opt 1)).

(** The handle is set whether or not the block could be written. *)
Definition WriteRawBlock (r : Rep) (block_contents : bytes) (type : CompressionType)
    : BlockHandle * Rep :=
  let handle := MkHandle (r_offset r) (zlen block_contents) in
  let '(s, f) := Append (file r) block_contents in
  if ok s then
    let '(s, f) := Append f (block_trailer block_contents type) in
    (handle, with_file r f
       (if ok s then u64 (r_offset r + u64 (zlen block_contents + kBlockTrailerSize))
        else r_offset r) s)
  else (handle, with_file r f (r_offset r) s).

(** The [switch] on the compression type. *)
Definition choose_contents (type : CompressionType) (raw : bytes) : bytes * CompressionType :=
  match type with
  | kNoCompression => (raw, kNoCompression)
  | kSnappyCompression =>
      match Snappy_Compress raw with
      | Some compressed =>
          if zlen compressed <? zlen raw - zlen raw / 8 then (compressed, kSnappyCompression)
          else (raw, kNoCompression)
      | None => (raw, kNoCompression)
      end
  end.

(** The handle, the block after its [Reset], and the builder. *)
Definition WriteBlock (r : Rep) (block : BlockBuilder) : BlockHandle * BlockBuilder * Rep :=
  let '(raw, block) := Builder.Finish block in
  let '(block_contents, type) := choose_contents (compression (options r)) raw in
  let '(handle, r) := WriteRawBlock r block_contents type in
  (handle, Builder.Reset block, r).

Definition Flush (r : Rep) : option Rep :=
  if negb (is_ok r) then Some r
  else if Builder.empty (data_block r) then Some r
  else
    let '(h, b, r) := WriteBlock r (data_block r) in
    let r := with_pending (with_data r b) (pending_index_entry r) h in
    let r :=
      if is_ok r then
        let '(s, f) := Status.Flush (file r) in
        with_file (with_pending r true (pending_handle r)) f (r_offset r) s
      else r in
    start_filter r (r_offset r).

(** The index entry of the block that was flushed last, under key [key]. *)
Definition add_index_entry (r : Rep) (key : bytes) : Rep :=
  with_index r
    (Builder.Add (block_restart_interval (index_block_options r)) (index_block r) key
       (Handle.EncodeTo (pending_handle r) [])) key false.

Definition Add (r : Rep) (key value : bytes) : option Rep :=
  if negb (is_ok r) then Some r
  else
    let r := if pending_index_entry r
             then add_index_entry r (FindShortestSeparator (last_key r) key) else r in
    let r := with_filter r ((fun b => AddKey b key) <$> filter_block r) in
    let r := with_key r key (num_entries r + 1) in
    let r := with_data r (Builder.Add (block_restart_interval (options r)) (data_block r) key value) in
    let estimated_block_size := Builder.CurrentSizeEstimate (data_block r) in
    if block_size (options r) <=? estimated_block_size then Flush r else Some r.

(** The loop over the filters of [Finish]: no check between the blocks. *)
Fixpoint write_filters (r : Rep) (results : list bytes) : list BlockHandle * Rep :=
  match results with
  | [] => ([], r)
  | raw :: results =>
      let '(h, r) := WriteRawBlock r raw kNoCompression in
      let '(hs, r) := write_filters r results in
      (h :: hs, r)
  end.

Definition offsets_key (i : nat) : bytes :=
  str "filter.0offsets" ++ str (pretty i) ++ str "filter.offset".

(** The offsets of each group of equal sizes, under the last index of the
    group; the array of sizes ends with a 0. *)
Fixpoint add_offsets (interval : Z) (b : FilterBlockBuilder) (i : nat) (bits : list Z)
    (meta : BlockBuilder) : option BlockBuilder :=
  match bits with
  | [] => None
  | bi :: rest =>
      if bi =? 0 then Some meta
      else
        match rest with
        | [] => None
        | bn :: _ =>
            if negb (bn =? 0) && (bi =? bn) then add_offsets interval b (S i) rest meta
            else
              offsets ← getOffsets b i;
              add_offsets interval b (S i) rest (Builder.Add interval meta (offsets_key i) offsets)
        end
  end.

Definition filter_key (id : Z) (name : bytes) : bytes := str "filter." ++ [id] ++ name.

Fixpoint add_handles (interval : Z) (id : Z) (name : bytes) (hs : list BlockHandle)
    (meta : BlockBuilder) : BlockBuilder :=
  match hs with
  | [] => meta
  | h :: hs =>
      add_handles interval (id + 1) name hs
        (Builder.Add interval meta (filter_key id name) (Handle.EncodeTo h []))
  end.

(** The metaindex block; [None] if the policy is gone by now. *)
Definition metaindex (o : Options) (b : option FilterBlockBuilder) (hs : list BlockHandle)
    : option BlockBuilder :=
  match b with
  | None => Some Builder.make
  | Some b =>
      meta ← add_offsets (block_restart_interval o) b 0 bits_per_key_per_filter_ Builder.make;
      name ← filter_policy o;
      Some (add_handles (block_restart_interval o) 49 name hs meta)
  end.

(** The steps of [Finish], each under its [if (ok())]. *)
Definition finish_filters (r : Rep) : option (list bytes * list BlockHandle * Rep) :=
  match filter_block r with
  | Some b =>
      if is_ok r then
        '(results, b) ← FilterBlock.Finish b;
        let '(hs, r) := write_filters (with_filter r (Some b)) results in
        Some (results, hs, r)
      else Some ([], [], r)
  | None => Some ([], [], r)
  end.

Definition finish_metaindex (r : Rep) (hs : list BlockHandle) : option (BlockHandle * Rep) :=
  if is_ok r then
    meta ← metaindex (options r) (filter_block r) hs;
    let '(h, _, r) := WriteBlock r meta in
    Some (h, r)
  else Some (BlockHandle_new, r).

(** [index_data] is a copy of the finished block; [WriteBlock] finishes it a
    second time, which changes nothing. *)
Definition finish_index (r : Rep) : bytes * BlockHandle * Rep :=
  if is_ok r then
    let r := if pending_index_entry r
             then add_index_entry r (FindShortSuccessor (last_key r)) else r in
    let '(raw, b) := Builder.Finish (index_block r) in
    let '(h, b, r) := WriteBlock r b in
    (raw, h, with_index r b (last_key r) (pending_index_entry r))
  else ([], BlockHandle_new, r).

Definition finish_footer (r : Rep) (metaindex_handle index_handle : BlockHandle) : Rep :=
  if is_ok r then
    let footer_encoding := FooterCode.EncodeTo (MkFooter metaindex_handle index_handle) [] in
    let '(s, f) := Append (file r) footer_encoding in
    with_file r f (if ok s then u64 (r_offset r + zlen footer_encoding) else r_offset r) s
  else r.

Definition Finish (r : Rep) : option (Status * Rep) :=
  r ← Flush r;
  let r := with_closed r (Some (MkMetaData [] [] [])) in
  '(results, hs, r) ← finish_filters r;
  '(metaindex_handle, r) ← finish_metaindex r hs;
  let '(raw, index_handle, r) := finish_index r in
  let r := finish_footer r metaindex_handle index_handle in
  let r := with_closed r (Some (MkMetaData raw results [])) in
  Some (r_status r, r).

Definition Abandon (r : Rep) : Rep := with_closed r (tableMetaData_ r).
Definition NumEntries (r : Rep) : Z := num_entries r.
Definition FileSize (r : Rep) : Z := r_offset r.

(** A client that adds entries and finishes. *)
Fixpoint add_entries (r : Rep) (kvs : list (bytes * bytes)) : option Rep :=
  match kvs with
  | [] => Some r
  | kv :: kvs => r ← Add r kv.1 kv.2; add_entries r kvs
  end.

Definition build_table (opt : Options) (f : WritableFile) (kvs : list (bytes * bytes))
    : option (Status * Rep) :=
  r ← make opt f; r ← add_entries r kvs; Finish r.

End Operations.

(** ** What the builder writes *)

(** A bound of the bytes that an entry takes in its data block and in the index. *)
Definition entry_cost (kv : bytes * bytes) : Z := zlen kv.1 + zlen kv.2 + 64.

Definition data_cost (kvs : list (bytes * bytes)) : Z := foldr (fun kv acc => entry_cost kv + acc) 0 kvs.

Lemma data_cost_app l1 l2 : data_cost (l1 ++ l2) = data_cost l1 + data_cost l2.
Proof. induction l1; simpl; lia. Qed.

Lemma data_cost_nonneg l : 0 <= data_cost l.
Proof.
  induction l as [|kv l IH]; simpl; [lia|]. unfold entry_cost.
  pose proof (zlen_nonneg kv.1). pose proof (zlen_nonneg kv.2). lia.
Qed.

Lemma data_cost_length l : 64 * zlen l <= data_cost l.
Proof.
  induction l as [|kv l IH]; simpl; [done|]. rewrite zlen_cons. unfold entry_cost.
  pose proof (zlen_nonneg kv.1). pose proof (zlen_nonneg kv.2). lia.
Qed.

Definition last_key_of (g : list (bytes * bytes)) : bytes := (default ([], []) (last g)).1.
Definition first_key_of (g : list (bytes * bytes)) : bytes := (default ([], []) (head g)).1.

Section Layout.
Context `{!Crc32c, !Snappy, !Comparator} (opt : Options).

(** A block on disk and its handle. *)
Definition block_stored (raw : bytes) : bytes :=
  let '(c, t) := choose_contents (compression opt) raw in stored_block c t.

Definition block_handle (off : Z) (raw : bytes) : BlockHandle :=
  MkHandle off (zlen (choose_contents (compression opt) raw).1).

Definition data_raw (g : list (bytes * bytes)) : bytes := build_block (block_restart_interval opt) g.

Definition data_text (groups : list (list (bytes * bytes))) : bytes :=
  concat ((fun g => block_stored (data_raw g)) <$> groups).

(** The index entries of the groups from offset [off] on; [next] is the first
    key after them, if there is one. *)
Fixpoint index_entries (off : Z) (groups : list (list (bytes * bytes))) (next : option bytes)
    : list (bytes * BlockHandle) :=
  match groups with
  | [] => []
  | g :: rest =>
      let after := match rest with g' :: _ => Some (first_key_of g') | [] => next end in
      (match after with
       | Some key => FindShortestSeparator (last_key_of g) key
       | None => FindShortSuccessor (last_key_of g)
       end, block_handle off (data_raw g))
        :: index_entries (off + zlen (block_stored (data_raw g))) rest next
  end.

Definition encode_entry (e : bytes * BlockHandle) : bytes * bytes := (e.1, handle_bytes e.2).

(** The blocks as the filter builder sees them. *)
Fixpoint filter_input (off : Z) (groups : list (list (bytes * bytes))) (cur : list (bytes * bytes))
    : list (Z * list bytes) :=
  match groups with
  | [] => [(off, fst <$> cur)]
  | g :: rest => (off, fst <$> g) :: filter_input (off + zlen (block_stored (data_raw g))) rest cur
  end.

Lemma data_text_snoc gs g : data_text (gs ++ [g]) = data_text gs ++ block_stored (data_raw g).
Proof. unfold data_text. rewrite fmap_app, concat_app. simpl. by rewrite app_nil_r. Qed.

Lemma index_entries_snoc gs g next : forall off,
  index_entries off (gs ++ [g]) next =
    index_entries off gs (Some (first_key_of g)) ++
      [(match next with
        | Some key => FindShortestSeparator (last_key_of g) key
        | None => FindShortSuccessor (last_key_of g)
        end, block_handle (off + zlen (data_text gs)) (data_raw g))].
Proof.
  induction gs as [|g0 gs IH]; intros off; [simpl; by rewrite Z.add_0_r|].
  cbn [app index_entries]. rewrite IH. cbn [app]. f_equal; [f_equal; by destruct gs|].
  f_equal. f_equal. f_equal. f_equal. unfold data_text. cbn [fmap list_fmap concat]. rewrite zlen_app. lia.
Qed.

Lemma filter_input_snoc gs g cur : forall off,
  filter_input off (gs ++ [g]) cur
  = filter_input off gs g ++ [(off + zlen (data_text (gs ++ [g])), fst <$> cur)].
Proof.
  induction gs as [|g0 gs IH]; intros off.
  - unfold data_text. simpl. by rewrite app_nil_r.
  - cbn [app filter_input]. rewrite IH. cbn [app]. f_equal. f_equal. f_equal. f_equal.
    unfold data_text. cbn [app fmap list_fmap concat]. rewrite zlen_app. lia.
Qed.

(** *** Sizes *)

Lemma choose_contents_length raw : zlen (choose_contents (compression opt) raw).1 <= zlen raw.
Proof.
  unfold choose_contents. pose proof (zlen_nonneg raw).
  destruct (compression opt); simpl; [lia|]. destruct (Snappy_Compress raw); simpl; [|lia].
  case_match; simpl; [|lia]. zsimp. pose proof (Z.div_pos (zlen raw) 8). lia.
Qed.

Lemma block_stored_length raw : zlen (block_stored raw) <= zlen raw + 5.
Proof.
  pose proof (choose_contents_length raw) as Hle. unfold block_stored.
  destruct (choose_contents _ _) as [c t]. simpl in Hle. rewrite stored_block_length. unfold kBlockTrailerSize. lia.
Qed.

(** The number of bytes of a block. *)
Lemma add_all_size interval kvs :
  zlen (b_buffer (add_all interval kvs)) + 4 * zlen (b_restarts (add_all interval kvs)) + 45 * zlen kvs
  <= data_cost kvs + 4.
Proof.
  induction kvs as [|[k v] kvs IH] using rev_ind; [done|].
  rewrite add_all_snoc, data_cost_app, zlen_app. set (b := add_all interval kvs) in *. simpl.
  unfold Builder.Add. destruct (if _ <? _ then _ else _) as [[sh rst] ct] eqn:Hsel. simpl.
  assert (zlen rst <= zlen (b_restarts b) + 1).
  { destruct (b_counter b <? interval); injection Hsel as _ <- _; [lia|]. rewrite zlen_app. done. }
  unfold PutVarint32. rewrite !zlen_app.
  assert (Hv : forall x, zlen (EncodeVarint32 (u32 x)) <= 5).
  { intros x. pose proof (EncodeVarint32_length (u32 x) (u32_range x)). unfold zlen. lia. }
  pose proof (Hv (Z.of_nat sh)). pose proof (Hv (zlen k - Z.of_nat sh)). pose proof (Hv (zlen v)).
  assert (zlen (drop sh k) <= zlen k) by (unfold zlen; rewrite length_drop; lia).
  unfold entry_cost. simpl. change (zlen [(k, v)]) with 1. lia.
Qed.

Lemma build_block_size interval kvs : zlen (build_block interval kvs) + 45 * zlen kvs <= data_cost kvs + 8.
Proof.
  rewrite Finish_eq by apply add_all_open. rewrite !zlen_app, zlen_concat_fixed32.
  change (zlen (EncodeFixed32 _)) with 4. pose proof (add_all_size interval kvs). lia.
Qed.

Lemma data_text_size groups : Forall (fun g => g <> []) groups ->
  zlen (data_text groups) + 32 * zlen groups <= data_cost (concat groups).
Proof.
  induction 1 as [|g groups Hg _ IH]; [done|].
  unfold data_text in *. cbn [fmap list_fmap concat]. rewrite zlen_app, data_cost_app, zlen_cons.
  pose proof (block_stored_length (data_raw g)).
  pose proof (build_block_size (block_restart_interval opt) g).
  assert (1 <= zlen g) by (destruct g; [done|rewrite zlen_cons; pose proof (zlen_nonneg g); lia]).
  unfold data_raw in *. lia.
Qed.

Lemma Add_not_empty interval b k v : Builder.empty (Builder.Add interval b k v) = false.
Proof.
  unfold Builder.Add. destruct (if _ <? _ then _ else _) as [[sh rst] ct]. unfold Builder.empty. simpl.
  unfold PutVarint32.
  pose proof (EncodeVarint32_length (u32 (Z.of_nat sh)) (u32_range _)).
  destruct ((((_ ++ _) ++ _) ++ _) ++ _) eqn:E; [|done].
  apply (f_equal length) in E. rewrite !length_app in E. simpl in E. lia.
Qed.

Lemma add_all_empty interval kvs : Builder.empty (add_all interval kvs) = bool_decide (kvs = []).
Proof.
  destruct kvs as [|kv kvs] using rev_ind; [done|].
  rewrite add_all_snoc, Add_not_empty. symmetry. apply bool_decide_eq_false. by destruct kvs.
Qed.
End Layout.

(** ** The invariant of a builder *)

Section Build.
Context `{!Crc32c, !Snappy} {C : Comparator} {L : ComparatorLaws C} {P : FilterPolicy} {PL : FilterPolicyLaws P}.
Context (opt : Options) (N : nat).
Context (Hfilters : filter_policy opt <> None ->
  (0 < filterNums)%nat /\ forall l, (length l <= N)%nat -> keys_ok l).

(** The index block while the entry of the last group is pending, and after it
    was added when the next key came. *)
Definition index_state (r : Rep) (groups : list (list (bytes * bytes))) (cur : list (bytes * bytes)) : Prop :=
  if pending_index_entry r then
    exists gs g, groups = gs ++ [g] /\ cur = [] /\ last_key r = last_key_of g /\
      pending_handle r = block_handle opt (zlen (data_text opt gs)) (data_raw opt g) /\
      index_block r = add_all 1 (encode_entry <$> index_entries opt 0 gs (Some (first_key_of g)))
  else
    index_block r = add_all 1 (encode_entry <$> index_entries opt 0 groups (Some (first_key_of cur))) /\
    (groups <> [] -> cur <> []) /\ (cur <> [] -> last_key r = last_key_of cur).

Record building (r : Rep) (groups : list (list (bytes * bytes))) (cur : list (bytes * bytes)) : Prop := {
  bd_options : options r = opt;
  bd_index_options : index_block_options r = set_restart_interval opt 1;
  bd_status : r_status r = Status_OK;
  bd_file : file r = WFile (data_text opt groups) [];
  bd_offset : r_offset r = zlen (data_text opt groups);
  bd_groups : Forall (fun g => g <> []) groups;
  bd_data : data_block r = add_all (block_restart_interval opt) cur;
  bd_index : index_state r groups cur;
  bd_entries : num_entries r = zlen (concat groups ++ cur);
  bd_filter : match filter_policy opt with
              | None => filter_block r = None
              | Some _ => exists b, filter_block r = Some b /\
                  add_blocks FilterBlockBuilder_new (filter_input opt 0 groups cur) = Some b
              end
}.

(** *** The filter builder follows *)

Lemma add_blocks_app l1 l2 b :
  add_blocks b (l1 ++ l2) = match add_blocks b l1 with Some b => add_blocks b l2 | None => None end.
Proof.
  revert b. induction l1 as [|[off keys] l1 IH]; intros b; [done|]. cbn [app add_blocks].
  destruct (StartBlock b off); [apply IH|done].
Qed.

Lemma filter_input_key kv cur groups : forall off b,
  add_blocks b (filter_input opt off groups (cur ++ [kv]))
  = (fun b => AddKey b kv.1) <$> add_blocks b (filter_input opt off groups cur).
Proof.
  induction groups as [|g groups IH]; intros off b; cbn [filter_input add_blocks].
  - destruct (StartBlock b off); [|done]. by rewrite fmap_app, fold_left_app.
  - destruct (StartBlock b off); [|done]. apply IH.
Qed.

Lemma filter_input_offsets groups cur : forall off, offsets_from off (filter_input opt off groups cur).
Proof using Type.
  clear Hfilters.
  induction groups as [|g groups IH]; intros off; cbn [filter_input offsets_from]; [lia|].
  split; [lia|]. pose proof (zlen_nonneg (block_stored opt (data_raw opt g))).
  specialize (IH (off + zlen (block_stored opt (data_raw opt g)))).
  destruct groups; cbn [filter_input offsets_from] in *; intuition lia.
Qed.

Lemma filter_input_count groups cur : forall off,
  key_count (filter_input opt off groups cur) = length (concat groups ++ cur).
Proof using Type.
  clear Hfilters.
  unfold key_count. induction groups as [|g groups IH]; intros off; cbn [filter_input fmap list_fmap concat snd app].
  - by rewrite app_nil_r, length_fmap.
  - rewrite length_app, IH, length_fmap, !length_app. lia.
Qed.

Lemma filter_input_total groups cur :
  filter_policy opt <> None -> (length (concat groups ++ cur) <= N)%nat ->
  is_Some (add_blocks FilterBlockBuilder_new (filter_input opt 0 groups cur)).
Proof.
  intros Hp HN. destruct (Hfilters Hp) as [Hn Hk].
  destruct (add_blocks_built N (filter_input opt 0 groups cur) FilterBlockBuilder_new [] [] [] 0
    built_filters_new Hn Hk) as (b & _ & _ & _ & -> & _); [|done|done|apply filter_input_offsets|done].
  rewrite filter_input_count. simpl. lia.
Qed.

(** *** Writing a block *)

Lemma u64_add_r a b : u64 (a + u64 b) = u64 (a + b).
Proof. unfold u64. apply Z.add_mod_idemp_r. lia. Qed.

Lemma WriteRawBlock_ok r text c t :
  file r = WFile text [] ->
  WriteRawBlock r c t = (MkHandle (r_offset r) (zlen c),
    with_file r (WFile (text ++ stored_block c t) []) (u64 (r_offset r + zlen (stored_block c t))) Status_OK).
Proof.
  intros Hf. unfold WriteRawBlock, Append, next_io. rewrite Hf. simpl. rewrite u64_add_r.
  rewrite stored_block_length. unfold stored_block. by rewrite <- app_assoc.
Qed.

Lemma WriteBlock_ok r text b :
  file r = WFile text [] -> options r = opt ->
  let raw := (Builder.Finish b).1 in
  WriteBlock r b = (block_handle opt (r_offset r) raw, Builder.make,
    with_file r (WFile (text ++ block_stored opt raw) []) (u64 (r_offset r + zlen (block_stored opt raw))) Status_OK).
Proof.
  intros Hf Ho raw. unfold WriteBlock, block_stored, block_handle. rewrite Ho.
  destruct (Builder.Finish b) as [raw' b'] eqn:Hb. subst raw. cbn [fst].
  destruct (choose_contents (compression opt) raw') as [c t]. by rewrite (WriteRawBlock_ok r text).
Qed.

Lemma start_filter_ok r groups cur off b :
  filter_policy opt <> None -> filter_block r = Some b ->
  add_blocks FilterBlockBuilder_new (filter_input opt 0 groups cur) = Some b -> cur <> [] ->
  (length (concat (groups ++ [cur])) <= N)%nat -> off = zlen (data_text opt (groups ++ [cur])) ->
  exists b', start_filter r off = Some (with_filter r (Some b')) /\
    add_blocks FilterBlockBuilder_new (filter_input opt 0 (groups ++ [cur]) []) = Some b'.
Proof.
  intros Hp Hfb Hadd Hne HN ->.
  destruct (filter_input_total (groups ++ [cur]) [] Hp) as [b' Hb']; [by rewrite app_nil_r|].
  exists b'. split; [|done]. rewrite filter_input_snoc, add_blocks_app, Hadd in Hb'. simpl in Hb'.
  unfold start_filter. rewrite Hfb. destruct (StartBlock b _); [|done]. by injection Hb' as ->.
Qed.

(** *** The operations keep it *)

Lemma text_small groups cur :
  Forall (fun g => g <> []) groups -> data_cost (concat groups ++ cur) < 2 ^ 63 ->
  zlen (data_text opt groups) < 2 ^ 63.
Proof.
  intros Hg Hc. pose proof (data_text_size opt groups Hg). rewrite data_cost_app in Hc.
  pose proof (data_cost_nonneg cur). pose proof (zlen_nonneg groups). lia.
Qed.

Lemma Flush_building r groups cur :
  building r groups cur -> cur <> [] -> (length (concat groups ++ cur) <= N)%nat ->
  data_cost (concat groups ++ cur) < 2 ^ 63 ->
  exists r', Flush r = Some r' /\ building r' (groups ++ [cur]) [] /\ pending_index_entry r' = true.
Proof.
  intros [Ho Hio Hs Hf Hoff Hg Hd Hidx Hn Hfb] Hne HN Hc.
  assert (Hcat : concat (groups ++ [cur]) = concat groups ++ cur)
    by (rewrite concat_app; simpl; by rewrite app_nil_r).
  assert (Hg' : Forall (fun g => g <> []) (groups ++ [cur])) by (apply Forall_app; auto).
  pose proof (text_small (groups ++ [cur]) [] Hg' ltac:(by rewrite app_nil_r, Hcat)) as Hsmall.
  pose proof (zlen_nonneg (data_text opt (groups ++ [cur]))).
  assert (Hp : pending_index_entry r = false).
  { unfold index_state in Hidx. destruct (pending_index_entry r); [|done].
    destruct Hidx as (? & ? & _ & -> & _). done. }
  unfold Flush, is_ok. rewrite Hs, Hd, add_all_empty, bool_decide_eq_false_2 by done. cbn [negb ok Status_OK].
  rewrite (WriteBlock_ok r _ _ Hf Ho). cbn [fst snd].
  change ((Builder.Finish (add_all (block_restart_interval opt) cur)).1) with (data_raw opt cur).
  cbn [r_status with_pending with_data with_file ok Status_OK file Status.Flush next_io w_io r_offset
    contents pending_handle]. rewrite <- data_text_snoc.
  rewrite Hoff, <- zlen_app, <- data_text_snoc, u64_small by lia.
  set (r1 := with_file _ _ _ _).
  assert (Hb1 : forall fb, match filter_policy opt with
      | None => fb = None
      | Some _ => exists b, fb = Some b /\
          add_blocks FilterBlockBuilder_new (filter_input opt 0 (groups ++ [cur]) []) = Some b
      end -> building (with_filter r1 fb) (groups ++ [cur]) []).
  { intros fb Hfb'. split; try done.
    - unfold index_state. simpl. exists groups, cur. split_and!; try done.
      + unfold index_state in Hidx. rewrite Hp in Hidx. by apply Hidx.
      + unfold index_state in Hidx. rewrite Hp in Hidx. apply Hidx.
    - simpl. rewrite Hn, Hcat. by rewrite app_nil_r. }
  destruct (filter_policy opt) as [name|] eqn:Hpol in Hfb, Hb1 |- *.
  - destruct Hfb as (b & Hb & Hadd).
    destruct (start_filter_ok r1 groups cur (zlen (data_text opt (groups ++ [cur]))) b)
      as (b' & Hst & Hadd'); try done; [by rewrite Hpol|by rewrite Hcat|].
    rewrite Hst. eexists. split; [done|]. split; [|done]. apply Hb1. by exists b'.
  - exists r1. split; [unfold start_filter, r1; simpl; by rewrite Hfb|]. split; [|done].
    replace r1 with (with_filter r1 None) by (unfold r1, with_filter, with_file; simpl; by rewrite Hfb).
    by apply Hb1.
Qed.

Lemma last_key_of_snoc g kv : last_key_of (g ++ [kv]) = kv.1.
Proof. unfold last_key_of. by rewrite last_snoc. Qed.

Lemma first_key_of_snoc g kv : g <> [] -> first_key_of (g ++ [kv]) = first_key_of g.
Proof. by destruct g. Qed.

Lemma Add_building r groups cur kv :
  building r groups cur -> (length (concat groups ++ cur ++ [kv]) <= N)%nat ->
  data_cost (concat groups ++ cur ++ [kv]) < 2 ^ 63 ->
  exists r' groups' cur', Add r kv.1 kv.2 = Some r' /\ building r' groups' cur' /\
    concat groups' ++ cur' = concat groups ++ cur ++ [kv].
Proof.
  intros [Ho Hio Hs Hf Hoff Hg Hd Hidx Hn Hfb] HN Hc.
  unfold Add, is_ok. rewrite Hs. cbn [negb ok Status_OK].
  set (r0 := if pending_index_entry r then _ else r).
  assert (Hr0 : options r0 = opt /\ index_block_options r0 = set_restart_interval opt 1 /\
    r_status r0 = Status_OK /\ file r0 = WFile (data_text opt groups) [] /\
    r_offset r0 = zlen (data_text opt groups) /\ data_block r0 = add_all (block_restart_interval opt) cur /\
    num_entries r0 = zlen (concat groups ++ cur) /\ filter_block r0 = filter_block r /\
    pending_index_entry r0 = false /\
    index_block r0 = add_all 1 (encode_entry <$> index_entries opt 0 groups (Some (first_key_of (cur ++ [kv]))))).
  { subst r0. unfold index_state in Hidx. destruct (pending_index_entry r) eqn:Hp.
    - destruct Hidx as (gs & g & -> & -> & Hlk & Hh & Hib).
      split_and!; simpl; try done. rewrite Hib, Hio, Hlk, Hh. simpl.
      rewrite index_entries_snoc, fmap_app. simpl. by rewrite add_all_snoc.
    - destruct Hidx as (Hib & Hne & Hlk). split_and!; try done. rewrite Hib.
      destruct cur as [|c cur]; [|done]. destruct groups; [done|]. by destruct Hne. }
  clearbody r0. destruct Hr0 as (Ho0 & Hio0 & Hs0 & Hf0 & Hoff0 & Hd0 & Hn0 & Hfb0 & Hp0 & Hib0).
  set (r1 := with_data _ _).
  assert (Hb1 : building r1 groups (cur ++ [kv])).
  { split; try done.
    - simpl. by rewrite Ho0, Hd0, add_all_snoc.
    - unfold index_state. simpl. rewrite Hp0. split_and!; [done|by destruct cur|].
      intros _. by rewrite last_key_of_snoc.
    - simpl. rewrite Hn0. unfold zlen. rewrite !length_app. simpl. lia.
    - simpl. rewrite Hfb0. destruct (filter_policy opt); [|by rewrite Hfb].
      destruct Hfb as (b & -> & Hadd). exists (AddKey b kv.1). split; [done|].
      by rewrite filter_input_key, Hadd. }
  destruct (block_size _ <=? _).
  - destruct (Flush_building r1 groups (cur ++ [kv]) Hb1) as (r' & Hfl & Hb' & _); [by destruct cur|done|done|].
    exists r', (groups ++ [cur ++ [kv]]), []. split_and!; [done..|].
    rewrite concat_app. simpl. by rewrite !app_nil_r.
  - by exists r1, groups, (cur ++ [kv]).
Qed.

Lemma add_entries_building kvs : forall r groups cur,
  building r groups cur -> (length (concat groups ++ cur ++ kvs) <= N)%nat ->
  data_cost (concat groups ++ cur ++ kvs) < 2 ^ 63 ->
  exists r' groups' cur', add_entries r kvs = Some r' /\ building r' groups' cur' /\
    concat groups' ++ cur' = concat groups ++ cur ++ kvs.
Proof.
  induction kvs as [|kv kvs IH]; intros r groups cur Hb HN Hc.
  - exists r, groups, cur. by rewrite app_nil_r.
  - replace (concat groups ++ cur ++ kv :: kvs) with ((concat groups ++ cur ++ [kv]) ++ kvs) in *
      by (by rewrite <- !app_assoc).
    rewrite data_cost_app in Hc. rewrite length_app in HN. pose proof (data_cost_nonneg kvs).
    destruct (Add_building r groups cur kv Hb) as (r1 & g1 & c1 & Hadd & Hb1 & Heq1); [lia|lia|].
    destruct (IH r1 g1 c1 Hb1) as (r' & g' & c' & Hrun & Hb' & Heq').
    { rewrite app_assoc, Heq1, length_app. lia. }
    { rewrite app_assoc, Heq1, data_cost_app. lia. }
    exists r', g', c'. split_and!; [|done|].
    + cbn [add_entries]. by rewrite Hadd.
    + by rewrite Heq', app_assoc, Heq1.
Qed.

Lemma make_building : exists r, make opt (WFile [] []) = Some r /\ building r [] [].
Proof.
  assert (Hb : forall fb, match filter_policy opt with
      | None => fb = None
      | Some _ => exists b, fb = Some b /\
          add_blocks FilterBlockBuilder_new (filter_input opt 0 [] []) = Some b
      end -> building (with_filter (Rep_new opt (WFile [] [])) fb) [] []) by (intros fb Hfb; by split).
  unfold make, start_filter. cbn [filter_block Rep_new].
  destruct (filter_policy opt) as [name|] eqn:Hp in Hb |- *.
  - destruct (filter_input_total [] []) as [b Hb']; [by rewrite Hp|simpl; lia|].
    pose proof Hb' as Hst. cbn [filter_input add_blocks fmap list_fmap fold_left] in Hst.
    destruct (StartBlock FilterBlockBuilder_new 0) as [b1|] eqn:Hs; [|done]. injection Hst as ->.
    simpl. eexists. split; [done|]. apply Hb. by exists b.
  - eexists. split; [done|].
    replace (Rep_new opt (WFile [] [])) with (with_filter (Rep_new opt (WFile [] [])) None)
      by (unfold with_filter, Rep_new; simpl; by rewrite Hp). by apply Hb.
Qed.

(** *** The metaindex block *)

Fixpoint offset_entries (b : FilterBlockBuilder) (i : nat) (bits : list Z) : list (bytes * bytes) :=
  match bits with
  | bi :: ((bn :: _) as rest) =>
      if bi =? 0 then []
      else if negb (bn =? 0) && (bi =? bn) then offset_entries b (S i) rest
      else (offsets_key i, default [] (getOffsets b i)) :: offset_entries b (S i) rest
  | _ => []
  end.

Fixpoint handle_entries (id : Z) (name : bytes) (hs : list BlockHandle) : list (bytes * bytes) :=
  match hs with
  | [] => []
  | h :: hs => (filter_key id name, handle_bytes h) :: handle_entries (id + 1) name hs
  end.

Definition meta_entries (fb : option FilterBlockBuilder) (name : bytes) (hs : list BlockHandle)
    : list (bytes * bytes) :=
  match fb with
  | None => []
  | Some b => offset_entries b 0 bits_per_key_per_filter_ ++ handle_entries 49 name hs
  end.

Lemma add_offsets_eq interval b rest bs : forall i l,
  Forall (fun x => x <> 0) bs -> (forall j, (i <= j < i + length bs)%nat -> is_Some (getOffsets b j)) ->
  add_offsets interval b i (bs ++ 0 :: rest) (add_all interval l)
  = Some (add_all interval (l ++ offset_entries b i (bs ++ 0 :: rest))).
Proof.
  induction bs as [|x bs IH]; intros i l Hnz Hget.
  - simpl. destruct rest; by rewrite app_nil_r.
  - apply Forall_cons in Hnz as [Hx Hnz]. simpl in Hget.
    assert (Hget' : forall j, (S i <= j < S i + length bs)%nat -> is_Some (getOffsets b j))
      by (intros; apply Hget; lia).
    destruct (Hget i ltac:(lia)) as [o Ho].
    assert (Hsplit : exists n tl, bs ++ 0 :: rest = n :: tl) by (destruct bs; eauto).
    destruct Hsplit as (n & tl & Hn).
    cbn [app add_offsets offset_entries]. rewrite (proj2 (Z.eqb_neq x 0) Hx).
    specialize (IH (S i)). rewrite Hn in *.
    destruct (negb (n =? 0) && (x =? n)); [by apply IH|]. rewrite Ho. cbn [mbind option_bind default].
    rewrite (app_assoc l [_] _ : l ++ (offsets_key i, o) :: _ = _), <- (IH (l ++ [_])) by done.
    by rewrite add_all_snoc.
Qed.

Lemma add_handles_eq interval name hs : forall id l,
  add_handles interval id name hs (add_all interval l) = add_all interval (l ++ handle_entries id name hs).
Proof.
  induction hs as [|h hs IH]; intros id l; cbn [add_handles handle_entries]; [by rewrite app_nil_r|].
  rewrite (app_assoc l [_] _ : l ++ (filter_key id name, handle_bytes h) :: _ = _), <- IH.
  by rewrite add_all_snoc, Handle_EncodeTo_eq.
Qed.

Lemma metaindex_eq fb hs name :
  filter_policy opt = Some name -> length (results_ fb) = filterNums ->
  metaindex opt (Some fb) hs
  = Some (add_all (block_restart_interval opt) (meta_entries (Some fb) name hs)).
Proof.
  intros Hp Hl. destruct bits_end as (bits & rest & Hbits & Hlen & Hnz).
  unfold metaindex, meta_entries. rewrite Hbits.
  rewrite (add_offsets_eq _ fb rest bits 0 []); [|done|].
  - cbn [mbind option_bind]. rewrite Hp. cbn [mbind option_bind]. by rewrite add_handles_eq.
  - intros j Hj. unfold getOffsets. destruct (lookup_lt_is_Some_2 (results_ fb) j ltac:(lia)) as [c ->].
    repeat case_match; by eexists.
Qed.

(** *** [Finish] *)

Definition filters_text (results : list bytes) : bytes :=
  concat ((fun c => stored_block c kNoCompression) <$> results).

(** Handles as written, with the wrap-around of the offset. *)
Definition wrap_handle (h : BlockHandle) : BlockHandle := MkHandle (u64 (offset h)) (size h).

Definition filter_handles_at (off : Z) (results : list bytes) : list BlockHandle :=
  wrap_handle <$> consecutive off ((., kNoCompression) <$> results).

Lemma with_file_twice r f1 o1 s1 f2 o2 s2 : with_file (with_file r f1 o1 s1) f2 o2 s2 = with_file r f2 o2 s2.
Proof. done. Qed.

Lemma with_file_same r f o : file r = f -> r_offset r = o -> r_status r = Status_OK -> with_file r f o Status_OK = r.
Proof. intros <- <- Hs. unfold with_file. rewrite <- Hs. by destruct r. Qed.

Lemma write_filters_ok results : forall r text off,
  file r = WFile text [] -> r_offset r = u64 off -> r_status r = Status_OK ->
  write_filters r results = (filter_handles_at off results,
    with_file r (WFile (text ++ filters_text results) []) (u64 (off + zlen (filters_text results))) Status_OK).
Proof.
  induction results as [|c results IH]; intros r text off Hf Ho Hs.
  - cbn [write_filters]. unfold filters_text. simpl. rewrite Z.add_0_r, app_nil_r.
    by rewrite with_file_same.
  - cbn [write_filters]. rewrite (WriteRawBlock_ok r text c kNoCompression Hf).
    set (n := zlen (stored_block c kNoCompression)).
    rewrite (IH _ (text ++ stored_block c kNoCompression) (off + n)); [|done| |done].
    + rewrite with_file_twice. unfold filter_handles_at, filters_text. cbn [fmap list_fmap concat consecutive].
      rewrite zlen_app. fold n. rewrite <- app_assoc, Ho. f_equal.
      * f_equal. unfold n. by rewrite stored_block_length.
      * f_equal. f_equal. lia.
    + simpl. rewrite Ho. unfold u64. by rewrite Z.add_mod_idemp_l by lia.
Qed.

Definition index_raw (groups : list (list (bytes * bytes))) : bytes :=
  build_block 1 (encode_entry <$> index_entries opt 0 groups None).

Definition meta_raw (fb : option FilterBlockBuilder) (hs : list BlockHandle) : bytes :=
  build_block (block_restart_interval opt) (meta_entries fb (default [] (filter_policy opt)) hs).

(** The bytes of a table with these data blocks and filters. *)
Definition meta_offset (groups : list (list (bytes * bytes))) (results : list bytes) : Z :=
  zlen (data_text opt groups) + zlen (filters_text results).

Definition table_meta (groups : list (list (bytes * bytes))) (results : list bytes)
    (fb : option FilterBlockBuilder) : bytes :=
  meta_raw fb (filter_handles_at (zlen (data_text opt groups)) results).

Definition index_offset (groups : list (list (bytes * bytes))) (results : list bytes)
    (fb : option FilterBlockBuilder) : Z :=
  meta_offset groups results + zlen (block_stored opt (table_meta groups results fb)).

Definition table_footer (groups : list (list (bytes * bytes))) (results : list bytes)
    (fb : option FilterBlockBuilder) : Footer :=
  MkFooter (block_handle opt (u64 (meta_offset groups results)) (table_meta groups results fb))
    (block_handle opt (u64 (index_offset groups results fb)) (index_raw groups)).

Definition table_text (groups : list (list (bytes * bytes))) (results : list bytes)
    (fb : option FilterBlockBuilder) : bytes :=
  data_text opt groups ++ filters_text results ++ block_stored opt (table_meta groups results fb) ++
  block_stored opt (index_raw groups) ++ FooterCode.EncodeTo (table_footer groups results fb) [].

(** The filters come from the filter builder run over the data blocks. *)
Definition filters_of (groups : list (list (bytes * bytes))) (results : list bytes)
    (fb : option FilterBlockBuilder) : Prop :=
  match filter_policy opt with
  | None => results = [] /\ fb = None
  | Some _ => exists b b', fb = Some b' /\ results_ b' = results /\ length results = filterNums /\
      add_blocks FilterBlockBuilder_new (filter_input opt 0 groups []) = Some b /\
      FilterBlock.Finish b = Some (results, b')
  end.

Lemma building_closed r groups cur m : building r groups cur -> building (with_closed r m) groups cur.
Proof. by intros []. Qed.

Lemma flush_all r groups cur :
  building r groups cur -> (length (concat groups ++ cur) <= N)%nat ->
  data_cost (concat groups ++ cur) < 2 ^ 63 ->
  exists r' groups', Flush r = Some r' /\ building r' groups' [] /\ concat groups' = concat groups ++ cur.
Proof.
  intros Hb HN Hc. destruct cur as [|kv cur].
  - exists r, groups. rewrite app_nil_r. split_and!; [|done|done].
    unfold Flush, is_ok. by rewrite (bd_status _ _ _ Hb), (bd_data _ _ _ Hb).
  - destruct (Flush_building r groups (kv :: cur) Hb) as (r' & Hf & Hb' & _); [done..|].
    exists r', (groups ++ [kv :: cur]). split_and!; [done..|]. rewrite concat_app. simpl. by rewrite app_nil_r.
Qed.

Lemma text_u64 r groups : building r groups [] -> data_cost (concat groups) < 2 ^ 63 ->
  u64 (zlen (data_text opt groups)) = zlen (data_text opt groups).
Proof.
  intros Hb Hc. pose proof (text_small groups [] (bd_groups _ _ _ Hb) ltac:(by rewrite app_nil_r)).
  pose proof (zlen_nonneg (data_text opt groups)). apply u64_small. lia.
Qed.

Lemma finish_filters_ok r groups :
  building r groups [] -> (length (concat groups) <= N)%nat -> data_cost (concat groups) < 2 ^ 63 ->
  exists results fb, filters_of groups results fb /\
    finish_filters r = Some (results, filter_handles_at (zlen (data_text opt groups)) results,
      with_file (with_filter r fb) (WFile (data_text opt groups ++ filters_text results) [])
        (u64 (meta_offset groups results)) Status_OK).
Proof.
  intros Hb HN Hc. pose proof (text_u64 r groups Hb Hc) as Hu. pose proof Hb as [Ho Hio Hs Hf Hoff Hg Hd Hidx Hn Hfb].
  unfold finish_filters, filters_of, meta_offset. destruct (filter_policy opt) as [name|] eqn:Hp in Hfb |- *.
  - destruct Hfb as (b & -> & Hadd). unfold is_ok. rewrite Hs. cbn [ok Status_OK].
    destruct (Hfilters ltac:(by rewrite Hp)) as [Hnum Hk].
    destruct (table_filters_built (filter_input opt 0 groups []) Hnum)
      as (b1 & outs & results & b' & Hadd' & Hfin & Hrb & Hlen & _).
    { intros l Hl. apply Hk. rewrite filter_input_count, app_nil_r in Hl. lia. }
    { apply filter_input_offsets. }
    rewrite Hadd in Hadd'. injection Hadd' as <-. exists results, (Some b'). split; [by exists b, b'|].
    rewrite Hfin. cbn [mbind option_bind].
    rewrite (write_filters_ok results (with_filter r (Some b')) (data_text opt groups) (zlen (data_text opt groups)));
      [done|done| |done].
    by rewrite Hu, <- Hoff.
  - exists [], None. split; [done|]. rewrite Hfb. unfold filters_text, filter_handles_at. simpl.
    rewrite app_nil_r, Z.add_0_r, Hu. do 2 f_equal. symmetry.
    replace (with_filter r None) with r by (unfold with_filter; rewrite <- Hfb; by destruct r).
    by apply with_file_same.
Qed.

(** The index block once the last entry is in. *)
Lemma finish_index_block r groups :
  building r groups [] ->
  index_block (if pending_index_entry r then add_index_entry r (FindShortSuccessor (last_key r)) else r)
  = add_all 1 (encode_entry <$> index_entries opt 0 groups None).
Proof.
  intros [Ho Hio Hs Hf Hoff Hg Hd Hidx Hn Hfb]. unfold index_state in Hidx.
  destruct (pending_index_entry r).
  - destruct Hidx as (gs & g & -> & _ & Hlk & Hh & Hib). simpl.
    rewrite Hib, Hio, Hlk, Hh, index_entries_snoc, fmap_app. simpl. by rewrite add_all_snoc.
  - destruct Hidx as (Hib & Hne & _). destruct groups; [done|]. by destruct Hne.
Qed.

Lemma Finish_again b : Builder.Finish (Builder.Finish b).2 = ((Builder.Finish b).1, (Builder.Finish b).2).
Proof. unfold Builder.Finish. destruct (b_finished b) eqn:E; simpl; [by rewrite E|done]. Qed.

(** The write of the index block, whatever was written before it. *)
Lemma finish_index_ok r0 r fb groups off text :
  building r0 groups [] -> r = with_file (with_filter r0 fb) (WFile text []) (u64 off) Status_OK ->
  exists r', finish_index r = (index_raw groups, block_handle opt (u64 off) (index_raw groups), r') /\
    file r' = WFile (text ++ block_stored opt (index_raw groups)) [] /\
    r_offset r' = u64 (off + zlen (block_stored opt (index_raw groups))) /\
    r_status r' = Status_OK /\ num_entries r' = num_entries r0.
Proof.
  intros Hb ->. pose proof (finish_index_block r0 groups Hb) as Hib.
  unfold finish_index, is_ok. cbn [r_status with_file ok Status_OK].
  set (r1 := if pending_index_entry _ then _ else _).
  assert (Hr1 : index_block r1 = add_all 1 (encode_entry <$> index_entries opt 0 groups None) /\
    file r1 = WFile text [] /\ r_offset r1 = u64 off /\ options r1 = opt /\ num_entries r1 = num_entries r0).
  { subst r1. cbn [pending_index_entry with_file with_filter]. rewrite <- Hib, <- (bd_options _ _ _ Hb).
    by destruct (pending_index_entry r0). }
  clearbody r1. destruct Hr1 as (Hi & Hf & Hoff & Ho & Hn). rewrite Hi.
  pose proof (Finish_again (add_all 1 (encode_entry <$> index_entries opt 0 groups None))) as Hag.
  destruct (Builder.Finish (add_all 1 _)) as [raw b] eqn:Hfin. simpl in Hag.
  assert (raw = index_raw groups) as -> by (unfold index_raw, build_block; by rewrite Hfin).
  rewrite (WriteBlock_ok r1 text b Hf Ho), Hag. cbn [fst snd]. rewrite Hoff.
  eexists. split; [reflexivity|]. cbn [file with_index with_file r_offset r_status num_entries].
  split_and!; try done. unfold u64. by rewrite Z.add_mod_idemp_l by lia.
Qed.

Lemma Finish_building r groups cur :
  building r groups cur -> (length (concat groups ++ cur) <= N)%nat ->
  data_cost (concat groups ++ cur) < 2 ^ 63 ->
  exists r' groups' results fb, Finish r = Some (Status_OK, r') /\
    concat groups' = concat groups ++ cur /\ Forall (fun g => g <> []) groups' /\
    filters_of groups' results fb /\ file r' = WFile (table_text groups' results fb) [] /\
    tableMetaData_ r' = Some (MkMetaData (index_raw groups') results []) /\
    NumEntries r' = zlen (concat groups') /\ closed r' = true /\ FileSize r' = u64 (zlen (table_text groups' results fb)).
Proof.
  intros Hb HN Hc. destruct (flush_all r groups cur Hb HN Hc) as (r1 & gs & Hfl & Hb1 & Hcat).
  rewrite <- Hcat in HN, Hc. set (m0 := Some (MkMetaData [] [] [])).
  pose proof (building_closed r1 gs [] m0 Hb1) as Hb2.
  destruct (finish_filters_ok _ gs Hb2 HN Hc) as (results & fb & Hfs & Hff).
  set (r2 := with_file _ _ _ _) in Hff.
  set (hs := filter_handles_at (zlen (data_text opt gs)) results) in *.
  assert (Hmeta : metaindex opt fb hs = Some (add_all (block_restart_interval opt)
      (meta_entries fb (default [] (filter_policy opt)) hs))).
  { unfold filters_of in Hfs. destruct (filter_policy opt) as [name|] eqn:Hp in Hfs |- *.
    - destruct Hfs as (b & b' & -> & Hrb & Hlen & _). apply metaindex_eq; [done|by rewrite Hrb].
    - by destruct Hfs as [_ ->]. }
  assert (Hfm : finish_metaindex r2 hs = Some (block_handle opt (u64 (meta_offset gs results)) (table_meta gs results fb),
      with_file r2 (WFile ((data_text opt gs ++ filters_text results) ++ block_stored opt (table_meta gs results fb)) [])
        (u64 (index_offset gs results fb)) Status_OK)).
  { unfold finish_metaindex, is_ok. cbn [r_status r2 with_file ok Status_OK filter_block with_filter].
    assert (Ho2 : options r2 = opt) by exact (bd_options _ _ _ Hb1).
    rewrite Ho2, Hmeta. cbn [mbind option_bind].
    rewrite (WriteBlock_ok r2 (data_text opt gs ++ filters_text results) _ eq_refl Ho2).
    do 2 f_equal. unfold r2 at 2. cbn [r_offset with_file]. unfold u64 at 1 2.
    rewrite Z.add_mod_idemp_l by lia. done. }
  destruct (finish_index_ok (with_closed r1 m0) _ fb gs (index_offset gs results fb)
    ((data_text opt gs ++ filters_text results) ++ block_stored opt (table_meta gs results fb)) Hb2 eq_refl)
    as (r4 & Hfi & Hf4 & Ho4 & Hs4 & Hn4).
  exists (with_closed (finish_footer r4 (block_handle opt (u64 (meta_offset gs results)) (table_meta gs results fb))
    (block_handle opt (u64 (index_offset gs results fb)) (index_raw gs))) (Some (MkMetaData (index_raw gs) results []))),
    gs, results, fb.
  unfold Finish. rewrite Hfl. cbn [mbind option_bind]. fold m0. rewrite Hff. cbn [mbind option_bind].
  rewrite Hfm. cbn [mbind option_bind]. unfold r2. rewrite with_file_twice, Hfi.
  unfold finish_footer, is_ok. rewrite Hs4. cbn [ok Status_OK]. unfold Append, next_io. rewrite Hf4.
  cbn [w_io contents fst snd]. split_and!; try done; [exact (bd_groups _ _ _ Hb1)| | |].
  - cbn [file with_closed with_file]. unfold table_text. by rewrite <- !app_assoc.
  - unfold NumEntries. cbn [num_entries with_closed with_file]. rewrite Hn4. cbn [num_entries with_closed].
    rewrite (bd_entries _ _ _ Hb1). by rewrite app_nil_r.
  - unfold FileSize. cbn [r_offset with_closed with_file]. rewrite Ho4. unfold table_text, table_footer, index_offset, meta_offset. rewrite !zlen_app.
    unfold u64. rewrite Z.add_mod_idemp_l by lia. f_equal. lia.
Qed.

(** A table built without I/O failures. *)
Lemma build_table_ok kvs :
  (length kvs <= N)%nat -> data_cost kvs < 2 ^ 63 ->
  exists r groups results fb, build_table opt (WFile [] []) kvs = Some (Status_OK, r) /\
    concat groups = kvs /\ Forall (fun g => g <> []) groups /\ filters_of groups results fb /\
    file r = WFile (table_text groups results fb) [] /\
    tableMetaData_ r = Some (MkMetaData (index_raw groups) results []) /\
    NumEntries r = zlen kvs /\ closed r = true /\ FileSize r = u64 (zlen (table_text groups results fb)).
Proof.
  intros HN Hc. destruct make_building as (r0 & Hmake & Hb0).
  destruct (add_entries_building kvs r0 [] [] Hb0 HN Hc) as (r1 & gs & cur & Hadd & Hb1 & Heq).
  simpl in Heq. rewrite <- Heq in HN, Hc.
  destruct (Finish_building r1 gs cur Hb1 HN Hc) as (r & gs' & results & fb & Hfin & Hcat & Hrest).
  rewrite Heq in Hcat. exists r, gs', results, fb. unfold build_table. rewrite Hmake. cbn [mbind option_bind].
  rewrite Hadd. cbn [mbind option_bind]. rewrite Hfin, <- Hcat at 1. destruct Hrest as (? & ? & ? & ? & ? & ? & ?).
  by rewrite <- Hcat.
Qed.
End Build.

End TableBuilder.
