(* ===== verification/Table.v ===== *)
(** * Table: reading a table file

    src/LSM-EBF/table/table.cc: opening a file, its metaindex, the blocks and
    their cache, point lookups and the queries on the index block.  The part of
    [Table::Rep] that manages the filters is [TableRep] of TableFilters.  The
    block cache is the interface [BlockCache].  Files fill the caller's buffer
    (they are not memory mapped).  [None] is a run the source leaves undefined,
    an exception included. *)
From S2P Require Import Prelude Coding Crc32c Status Comparator TableFormat Block Iterators.
From S2P Require Import FilterBlock TableFilters TableBuilder.

(** ** The block cache, include/leveldb/cache.h

    [may_hold c k b]: the cache may answer [b] for [k]. *)
Class BlockCache := {
  cache : Type;
  cache_Lookup : cache -> bytes -> option Block * cache;
  cache_Insert : cache -> bytes -> Block -> Z -> cache;
  cache_NewId : cache -> Z * cache;
  may_hold : cache -> bytes -> Block -> Prop
}.

(** An answer is what was inserted last for the key, or nothing; an entry may
    be dropped at any time. *)
Class BlockCacheLaws (C : BlockCache) := {
  lookup_held : forall c k b, (cache_Lookup c k).1 = Some b -> may_hold c k b;
  lookup_keeps : forall c k k' b, may_hold (cache_Lookup c k).2 k' b -> may_hold c k' b;
  insert_keeps : forall c k b n k' b', may_hold (cache_Insert c k b n) k' b' ->
    (k' = k /\ b' = b) \/ (k' <> k /\ may_hold c k' b');
  newid_keeps : forall c k b, may_hold (cache_NewId c).2 k b -> may_hold c k b
}.

Module Table.

Record Table := MkTbl {
  rep : TableRep;
  t_options : Options;
  cache_id : Z;
  t_metaindex_handle : BlockHandle;
  t_index_block : Block;
  has_access : list bool;
  freqs : list Z
}.

Definition with_rep (t : Table) (r : TableRep) : Table :=
  MkTbl r (t_options t) (cache_id t) (t_metaindex_handle t) (t_index_block t) (has_access t) (freqs t).

Definition with_file (t : Table) (f : RandomAccessFile) : Table := with_rep t (set_file (rep t) f).

Definition with_access (t : Table) (a : list bool) : Table :=
  MkTbl (rep t) (t_options t) (cache_id t) (t_metaindex_handle t) (t_index_block t) a (freqs t).

Definition with_freqs (t : Table) (fs : list Z) : Table :=
  MkTbl (rep t) (t_options t) (cache_id t) (t_metaindex_handle t) (t_index_block t) (has_access t) fs.

(** What a lookup reads of [ReadOptions] and the counters it updates there. *)
Record ReadOptions := MkReadOptions {
  verify_checksums : bool;
  fill_cache : bool;
  file_number : Z;
  access_file_nums : Z;
  read_file_nums : Z
}.

Section Operations.
Context `{!Crc32c, !Snappy, !Comparator, !FilterPolicy, !BlockCache}.

(** ** The metaindex *)

(** The loop of [ReadMeta] over the sizes of the filters; [prev] is the size
    before.  The offsets of a filter with the size of the one before are the
    same and are not stored again. *)
Fixpoint read_offsets (prev : option Z) (bits : list Z) (it : BIter) (lg : Z) (offs : list (list Z))
    : option (Z * list (list Z)) :=
  match bits with
  | [] => None
  | b :: bits =>
      if b =? 0 then Some (lg, offs)
      else if bool_decide (prev = Some b) then
        o ← last offs; read_offsets (Some b) bits it lg (offs ++ [o])
      else if bi_Valid it && (5 <=? zlen (bi_value it)) then
        let '(lg, o) := decode_offsets (bi_value it) in
        it ← bi_step (C := BytewiseComparator) it OpNext;
        read_offsets (Some b) bits it lg (offs ++ [o])
      else None
  end.

(** [while (iter->Valid())]: an entry takes at least three bytes of the block. *)
Fixpoint read_handles (fuel : nat) (it : BIter) : option (list bytes) :=
  match fuel with
  | O => None
  | S fuel =>
      if bi_Valid it then
        it' ← bi_step (C := BytewiseComparator) it OpNext;
        vs ← read_handles fuel it';
        Some (bi_value it :: vs)
      else Some []
  end.

(** ** [ReadFilters]: the first [n] filters of all regions *)

Fixpoint decode_handles (vs : list bytes) (n : nat) : option (option (list BlockHandle)) :=
  match n with
  | O => Some (Some [])
  | S n =>
      match vs with
      | [] => None
      | v :: vs =>
          let '(s, h, _) := Handle.DecodeFrom BlockHandle_new v in
          if ok s then
            r ← decode_handles vs n;
            Some (option_map (cons h) r)
          else Some None
      end
  end.

(** The two loops over the regions [js] for filter [i]. *)
Fixpoint push_regions (t : TableRep) (data : bytes) (offs : list Z) (js : list nat) : option TableRep :=
  match js with
  | [] => Some t
  | j :: js =>
      '(first, data_size) ← region_extent t offs (Z.of_nat j);
      _ ← filter_datas t !! j;
      push_regions
        (set_filter t (filter t)
           (alter (fun region => region ++ [sub_bytes data (Z.to_nat first) (Z.to_nat data_size)])
              j (filter_datas t))) data offs js
  end.

Fixpoint add_regions (t : TableRep) (rd : FilterBlockReader) (i : nat) (js : list nat)
    : option FilterBlockReader :=
  match js with
  | [] => Some rd
  | j :: js =>
      region ← filter_datas t !! j;
      contents ← region !! i;
      add_regions t (AddFilter rd contents j) i js
  end.

Fixpoint load_filters (t : TableRep) (charge : list Z) (i : nat) (blocks : list BlockContents)
    : option (TableRep * list Z) :=
  match blocks with
  | [] => Some (t, charge)
  | block :: blocks =>
      let js := seq 0 (Z.to_nat (getRegionNum t)) in
      offs ← offsets_ t !! i;
      bits ← bits_per_key_per_filter_ !! i;
      '(t, charge) ←
        (if heap_allocated block then
           t ← push_regions t (data block) offs js;
           Some (t, (fun c => u64 (c + bits)) <$> charge)
         else Some (t, charge));
      rd ← ensure_filter t;
      rd ← add_regions t rd i js;
      load_filters (set_filter t (Some rd) (filter_datas t)) charge (S i) blocks
  end.

(** The charge of each region, [None] for NULL. *)
Definition ReadFilters (t : TableRep) (n : Z) (meta : option TableMetaData)
    : option (TableRep * option (list Z)) :=
  if 32 <? n then None
  else
    r ← decode_handles (filter_handles t) (Z.to_nat n);
    match r with
    | None => Some (t, None)
    | Some hs =>
        '(blocks, t) ←
          match meta with
          | Some m =>
              if zlen (filter_data m) <? n then None
              else Some (Some ((fun d => MkContents d true true) <$> take (Z.to_nat n) (filter_data m)), t)
          | None =>
              let '(s, blocks, f) := ReadBlocks (t_file t) false hs in
              Some (if ok s then Some blocks else None, set_file t f)
          end;
        match blocks with
        | None => Some (t, None)
        | Some blocks =>
            '(t, charge) ← load_filters t (replicate (Z.to_nat (getRegionNum t)) 0) 0 blocks;
            Some (t, Some charge)
        end
    end.

Definition kOffsets : bytes := str "filter.0offsets".

(** A metaindex that cannot be read leaves the table without filters. *)
Definition ReadMeta (o : Options) (t : TableRep) (metaindex_handle : BlockHandle) (add_filter_num : Z)
    (meta : option TableMetaData) : option (TableRep * option (list Z)) :=
  match filter_policy o with
  | None => Some (t, None)
  | Some name =>
      let '(s, contents, f) := ReadBlock (t_file t) false (paranoid_checks o) metaindex_handle in
      let t := set_file t f in
      if negb (ok s) then Some (t, None)
      else
        let it := bi_open (Block_new (data contents)) in
        it ← bi_step (C := BytewiseComparator) it (OpSeek kOffsets);
        t ←
          (if bi_Valid it && starts_with (bi_key it) kOffsets then
             '(lg, offs) ← read_offsets None bits_per_key_per_filter_ it (t_base_lg t) [];
             let t := MkTable (filter t) (filter_datas t) (filter_handles t) offs lg
                        (region_divide_size t) (t_file t) in
             Some (set_filter t (filter t) (filter_datas t ++ replicate (Z.to_nat (getRegionNum t)) []))
           else Some t);
        it ← bi_step (C := BytewiseComparator) it
               (OpSeek (TableBuilder.filter_key 49 name));
        vs ← read_handles (S (length (data contents))) it;
        let t := MkTable (filter t) (filter_datas t) (filter_handles t ++ vs) (offsets_ t) (t_base_lg t)
                   (region_divide_size t) (t_file t) in
        if 0 <? add_filter_num then ReadFilters t add_filter_num meta else Some (t, None)
  end.

(** ** Opening *)

(** [(max_offset + kFilterBaseLg + freq_divide_size - 1) / freq_divide_size] for
    the handle in the last entry of the index. *)
Definition freq_slots (o : Options) (index_value : bytes) : option Z :=
  let '(_, handle, _) := Handle.DecodeFrom BlockHandle_new index_value in
  let lg := opt_kFilterBaseLg o in
  let fds := freq_divide_size o in
  if (1 <=? lg) && (lg <=? 31) && (0 <? fds) then
    let max_offset := offset handle &&& Z.lnot (1 ≪ (lg - 1)) in
    Some (i32 (u64 (max_offset + lg + fds - 1) / fds))
  else None.

Definition Open (o : Options) (f : RandomAccessFile) (size : Z) (oc : option cache)
    (meta : option TableMetaData)
    : option (Status * option (Table * option (list Z)) * RandomAccessFile * option cache) :=
  if size <? Z.of_nat kEncodedLength then
    Some (Corruption (str "file is too short to be an sstable") [], None, f, oc)
  else
    let '(s, footer_input, f) := RandRead f (size - Z.of_nat kEncodedLength) kEncodedLength in
    if negb (ok s) then Some (s, None, f, oc)
    else
      let '(s, footer, _) := FooterCode.DecodeFrom (MkFooter BlockHandle_new BlockHandle_new) footer_input in
      if negb (ok s) then Some (s, None, f, oc)
      else
        let '(s, contents, f) := ReadBlock f false (paranoid_checks o) (index_handle footer) in
        if negb (ok s) then Some (s, None, f, oc)
        else
          let index_block := Block_new (data contents) in
          let '(id, oc) :=
            match oc with
            | Some c => let '(id, c) := cache_NewId c in (id, Some c)
            | None => (0, None)
            end in
          let rep := MkTable None [] [] [] 0 (opt_region_divide_size o) f in
          add_filter_num ←
            match meta with
            | Some m => head (load_filter_num m)
            | None => Some (if add_filter o then init_filter_nums o else 0)
            end;
          '(rep, charge) ← ReadMeta o rep (metaindex_handle footer) add_filter_num meta;
          let has_access := replicate (Z.to_nat (getRegionNum rep)) false in
          iiter ← bi_step (bi_open index_block) OpLast;
          freq_count ← freq_slots o (bi_value iiter);
          if freq_count <? 0 then None
          else
            Some (Status_OK,
                  Some (MkTbl rep o id (metaindex_handle footer) index_block has_access
                          (replicate (Z.to_nat freq_count) 0), charge),
                  t_file rep, oc).

(** ** Blocks *)

Definition cache_key (id off : Z) : bytes := EncodeFixed64 id ++ EncodeFixed64 off.

(** The file read of [BlockReader]. *)
Definition read_data_block (t : Table) (ro : ReadOptions) (handle : BlockHandle)
    : Status * option (Block * bool) * Table :=
  let '(s, contents, f) := ReadBlock (t_file (rep t)) false (verify_checksums ro) handle in
  (s, if ok s then Some (Block_new (data contents), cachable contents) else None, with_file t f).

Definition BlockReader (t : Table) (oc : option cache) (ro : ReadOptions) (index_value : bytes)
    : BIter * Table * option cache :=
  let '(s, handle, _) := Handle.DecodeFrom BlockHandle_new index_value in
  let '(s, block, t, oc) :=
    if ok s then
      match oc with
      | Some c =>
          let key := cache_key (cache_id t) (offset handle) in
          let '(found, c) := cache_Lookup c key in
          match found with
          | Some block => (s, Some block, t, Some c)
          | None =>
              let '(s, b, t) := read_data_block t ro handle in
              match b with
              | Some (block, cachable) =>
                  (s, Some block, t,
                   Some (if cachable && fill_cache ro then cache_Insert c key block (size_ block) else c))
              | None => (s, None, t, Some c)
              end
          end
      | None =>
          let '(s, b, t) := read_data_block t ro handle in (s, fst <$> b, t, None)
      end
    else (s, None, t, oc) in
  match block with
  | Some block => (bi_open block, t, oc)
  | None => (NewErrorIterator s, t, oc)
  end.

(** ** [InternalGet] *)

(** The filters of a region are loaded on its first access. *)
Definition first_access (t : Table) (regionId : Z) : option Table :=
  access ← (if regionId <? 0 then None else has_access t !! Z.to_nat regionId);
  if (access : bool) then Some t
  else
    curr ← getCurrFilterNum (rep t) regionId;
    if negb (curr =? 0) then Some t
    else
      '(_, r) ← AddFilters (rep t) (init_filter_nums (t_options t)) regionId;
      Some (with_access (with_rep t r) (<[Z.to_nat regionId := true]> (has_access t))).

Definition count_access (t : Table) (off : Z) : option Table :=
  let fds := freq_divide_size (t_options t) in
  if fds =? 0 then None
  else
    let which := Z.to_nat (off / fds) in
    Some (with_freqs t (alter (fun c => i32 (c + 1)) which (freqs t))).

(** What the caller of [InternalGet] sees: the status, the entry passed to the
    saver if it is called, and the name of the region. *)
Record GetResult := MkGet {
  get_status : Status;
  saved : option (bytes * bytes);
  region_name : option bytes
}.

Definition region_id (t : Table) (off : Z) : Z := u32 (off / opt_region_divide_size (t_options t) + 1).

(** The block of the index entry: its entry at or after [k], if any. *)
Definition search_block (t : Table) (oc : option cache) (ro : ReadOptions) (index_value k : bytes)
    : option (Status * option (bytes * bytes) * Table * option cache) :=
  let '(block_iter, t, oc) := BlockReader t oc ro index_value in
  block_iter ← bi_step block_iter (OpSeek k);
  Some (bi_status block_iter,
        if bi_Valid block_iter then Some (bi_key block_iter, bi_value block_iter) else None, t, oc).

Definition InternalGet (t : Table) (oc : option cache) (ro : ReadOptions) (k : bytes)
    : option (GetResult * Table * option cache * ReadOptions) :=
  iiter ← bi_step (bi_open (t_index_block t)) (OpSeek k);
  if negb (bi_Valid iiter) then Some (MkGet (bi_status iiter) None None, t, oc, ro)
  else
    let '(ds, handle, _) := Handle.DecodeFrom BlockHandle_new (bi_value iiter) in
    if opt_region_divide_size (t_options t) =? 0 then None
    else
      let id := region_id t (offset handle) in
      let name := EncodeFixed64 (file_number ro) ++ EncodeFixed32 id in
      let had_filter := match filter (rep t) with Some _ => true | None => false end in
      t ← first_access t (id - 1);
      matched ← (if had_filter && ok ds then may_match (rep t) (offset handle) k else Some true);
      '(s, saved, t, oc, reads) ←
        (if matched : bool then
           '(s, saved, t, oc) ← search_block t oc ro (bi_value iiter) k;
           Some (s, saved, t, oc, 1)
         else Some (Status_OK, None, t, oc, 0));
      t ← (if ok ds then count_access t (offset handle) else Some t);
      Some (MkGet (if ok s then bi_status iiter else s) saved (Some name), t, oc,
            MkReadOptions (verify_checksums ro) (fill_cache ro) (file_number ro)
              ((access_file_nums ro + 1) mod 2 ^ 16) ((read_file_nums ro + reads) mod 2 ^ 16)).

(** ** Queries on the index *)

Definition ApproximateOffsetOf (t : Table) (key : bytes) : option Z :=
  index_iter ← bi_step (bi_open (t_index_block t)) (OpSeek key);
  Some (if bi_Valid index_iter then
          let '(s, handle, _) := Handle.DecodeFrom BlockHandle_new (bi_value index_iter) in
          if ok s then offset handle else offset (t_metaindex_handle t)
        else offset (t_metaindex_handle t)).

(** The key of the first block at or after each multiple of [freq_divide_size]. *)
Fixpoint region_keys_loop (fds : Z) (it : BIter) (i : Z) (count : nat) : option (list bytes * BIter) :=
  match count with
  | O => Some ([], it)
  | S count =>
      it ← bi_SeekByValue it (u64 (i * fds));
      '(keys, it') ← region_keys_loop fds it (i + 1) count;
      Some (bi_key it :: keys, it')
  end.

Definition region_key_ranges (o : Options) (index_block : Block) : option (list bytes) :=
  iiter ← bi_step (bi_open index_block) OpLast;
  count ← freq_slots o (bi_value iiter);
  '(keys, iiter) ← region_keys_loop (freq_divide_size o) iiter 0 (Z.to_nat count);
  iiter ← bi_step iiter OpLast;
  Some (keys ++ [bi_key iiter]).

Definition getRegionKeyRanges (t : Table) : option (list bytes) :=
  region_key_ranges (t_options t) (t_index_block t).

Definition getRegionKeyRangesByStr (o : Options) (index_content : bytes) : option (list bytes) :=
  region_key_ranges o (Block_new index_content).

End Operations.
End Table.
