(* ===== verification/Cache.v ===== *)
(** * Cache: the shards of the LRU cache

    src/LSM-EBF/util/cache.cc, one shard.  A handle is an address of the memory of its
    shard; the circular lists [lru_] and [in_use_] are the lists of their
    members, oldest first, and a chain of the hash table is the list of its
    members in order.  The calls of the deleters are recorded in order.  [None]
    is a run the source leaves undefined (a dead handle is read) or that does
    not end. *)
From stdpp Require Import gmap.
From S2P Require Import Prelude Coding Status Hash Comparator TableFormat Block.

Module LRU.

Record LRUHandle (V : Type) := MkLRUHandle {
  value : V;
  charge : Z;
  key : bytes;
  hash : Z;
  in_cache : bool;
  refs : Z
}.
Arguments MkLRUHandle {V}.
Arguments value {V}.
Arguments charge {V}.
Arguments key {V}.
Arguments hash {V}.
Arguments in_cache {V}.
Arguments refs {V}.

(** ** [HandleTable] *)

Record HandleTable := MkHandleTable { length_ : Z; elems_ : Z; list_ : list (list nat) }.

Section Code.
Context {V : Type}.

Abbreviation Heap := (gmap nat (LRUHandle V)).

(** The walk of [FindPointer] along a chain: the entries before the match, the
    match, and the entries after it. *)
Fixpoint find_chain (m : Heap) (k : bytes) (hv : Z) (chain : list nat) : option (list nat * option nat * list nat) :=
  match chain with
  | [] => Some ([], None, [])
  | a :: rest =>
      h ← m !! a;
      if (hash h =? hv) && Slice_eqb k (key h) then Some ([], Some a, rest)
      else
        '(before, found, after) ← find_chain m k hv rest;
        Some (a :: before, found, after)
  end.

Definition bucket (hv len : Z) : nat := Z.to_nat (hv &&& u32 (len - 1)).

Definition FindPointer (m : Heap) (t : HandleTable) (k : bytes) (hv : Z) : option (list nat * option nat * list nat) :=
  chain ← list_ t !! bucket hv (length_ t);
  find_chain m k hv chain.

Definition ht_Lookup (m : Heap) (t : HandleTable) (k : bytes) (hv : Z) : option (option nat) :=
  '(_, found, _) ← FindPointer m t k hv; Some found.

(** [while (new_length < elems_) new_length *= 2] in 32 bits: the source does
    not return when [elems_] is above 2^31. *)
Fixpoint resize_length (fuel : nat) (new_length elems : Z) : option Z :=
  match fuel with
  | O => None
  | S fuel => if new_length <? elems then resize_length fuel (u32 (new_length * 2)) elems else Some new_length
  end.

(** Each handle is pushed to the front of its new chain. *)
Fixpoint rehash (m : Heap) (new_length : Z) (chain : list nat) (new_list : list (list nat)) : option (list (list nat)) :=
  match chain with
  | [] => Some new_list
  | a :: chain =>
      h ← m !! a;
      rehash m new_length chain (alter (cons a) (bucket (hash h) new_length) new_list)
  end.

(** [start] is the first length tried: 4 in cache.cc, 131072 in multi_queue.cc. *)
Definition Resize (start : Z) (m : Heap) (t : HandleTable) : option HandleTable :=
  new_length ← resize_length 32 start (elems_ t);
  new_list ← rehash m new_length (concat (list_ t)) (replicate (Z.to_nat new_length) []);
  Some (MkHandleTable new_length (elems_ t) new_list).

Definition HandleTable_new (start : Z) (m : Heap) : option HandleTable := Resize start m (MkHandleTable 0 0 []).

Definition ht_Insert (start : Z) (m : Heap) (t : HandleTable) (a : nat) : option (option nat * HandleTable) :=
  h ← m !! a;
  '(before, old, after) ← FindPointer m t (key h) (hash h);
  let t' := MkHandleTable (length_ t) (elems_ t) (<[bucket (hash h) (length_ t) := before ++ a :: after]> (list_ t)) in
  match old with
  | Some _ => Some (old, t')
  | None =>
      let t' := MkHandleTable (length_ t') (u32 (elems_ t' + 1)) (list_ t') in
      if length_ t' <? elems_ t' then t' ← Resize start m t'; Some (None, t') else Some (None, t')
  end.

Definition ht_Remove (m : Heap) (t : HandleTable) (k : bytes) (hv : Z) : option (option nat * HandleTable) :=
  '(before, result, after) ← FindPointer m t k hv;
  match result with
  | Some _ => Some (result, MkHandleTable (length_ t) (u32 (elems_ t - 1))
                              (<[bucket hv (length_ t) := before ++ after]> (list_ t)))
  | None => Some (None, t)
  end.

(** ** [LRUCache], one shard *)

Record LRUCache := MkLRUCache {
  capacity_ : Z;
  usage_ : Z;
  lru_ : list nat;
  in_use_ : list nat;
  table_ : HandleTable;
  heap : Heap;
  next_addr : nat;
  deleted : list (bytes * V)
}.

Definition LRUCache_new (capacity : Z) : option LRUCache :=
  t ← HandleTable_new 4 ∅; Some (MkLRUCache capacity 0 [] [] t ∅ 0 []).

Definition with_heap (c : LRUCache) (m : Heap) : LRUCache :=
  MkLRUCache (capacity_ c) (usage_ c) (lru_ c) (in_use_ c) (table_ c) m (next_addr c) (deleted c).

Definition with_lists (c : LRUCache) (lru in_use : list nat) : LRUCache :=
  MkLRUCache (capacity_ c) (usage_ c) lru in_use (table_ c) (heap c) (next_addr c) (deleted c).

Definition with_table (c : LRUCache) (t : HandleTable) : LRUCache :=
  MkLRUCache (capacity_ c) (usage_ c) (lru_ c) (in_use_ c) t (heap c) (next_addr c) (deleted c).

Definition with_usage (c : LRUCache) (n : Z) : LRUCache :=
  MkLRUCache (capacity_ c) n (lru_ c) (in_use_ c) (table_ c) (heap c) (next_addr c) (deleted c).

Definition set_refs (h : LRUHandle V) (n : Z) : LRUHandle V :=
  MkLRUHandle (value h) (charge h) (key h) (hash h) (in_cache h) n.

Definition set_in_cache (h : LRUHandle V) (b : bool) : LRUHandle V :=
  MkLRUHandle (value h) (charge h) (key h) (hash h) b (refs h).

(** Unlinks [e] from the list it is on. *)
Definition LRU_Remove (c : LRUCache) (e : nat) : LRUCache :=
  with_lists c (base.filter (fun a => a <> e) (lru_ c)) (base.filter (fun a => a <> e) (in_use_ c)).

Definition append_lru (c : LRUCache) (e : nat) : LRUCache := with_lists c (lru_ c ++ [e]) (in_use_ c).
Definition append_in_use (c : LRUCache) (e : nat) : LRUCache := with_lists c (lru_ c) (in_use_ c ++ [e]).

Definition Ref (c : LRUCache) (e : nat) : option LRUCache :=
  h ← heap c !! e;
  let c := if (refs h =? 1) && in_cache h then append_in_use (LRU_Remove c e) e else c in
  Some (with_heap c (<[e := set_refs h (u32 (refs h + 1))]> (heap c))).

Definition Unref (c : LRUCache) (e : nat) : option LRUCache :=
  h ← heap c !! e;
  let n := u32 (refs h - 1) in
  if n =? 0 then
    Some (MkLRUCache (capacity_ c) (usage_ c) (lru_ c) (in_use_ c) (table_ c) (delete e (heap c)) (next_addr c)
            (deleted c ++ [(key h, value h)]))
  else
    let c := if in_cache h && (n =? 1) then append_lru (LRU_Remove c e) e else c in
    Some (with_heap c (<[e := set_refs h n]> (heap c))).

Definition FinishErase (c : LRUCache) (e : option nat) : option (bool * LRUCache) :=
  match e with
  | None => Some (false, c)
  | Some e =>
      let c := LRU_Remove c e in
      h ← heap c !! e;
      let c := with_heap c (<[e := set_in_cache h false]> (heap c)) in
      let c := with_usage c (u64 (usage_ c - charge h)) in
      c ← Unref c e;
      Some (true, c)
  end.

Definition Lookup (c : LRUCache) (k : bytes) (hv : Z) : option (option nat * LRUCache) :=
  e ← ht_Lookup (heap c) (table_ c) k hv;
  match e with
  | Some e => c ← Ref c e; Some (Some e, c)
  | None => Some (None, c)
  end.

Definition Release (c : LRUCache) (e : nat) : option LRUCache := Unref c e.

(** The head of the LRU list leaves the table and the cache. *)
Definition evict (c : LRUCache) (old : nat) : option LRUCache :=
  h ← heap c !! old;
  '(r, t) ← ht_Remove (heap c) (table_ c) (key h) (hash h);
  '(_, c) ← FinishErase (with_table c t) r;
  Some c.

(** [while (usage_ > capacity_ && lru_.next != &lru_)]. *)
Fixpoint evict_loop (fuel : nat) (c : LRUCache) : option LRUCache :=
  match fuel with
  | O => None
  | S fuel =>
      match lru_ c with
      | old :: _ => if capacity_ c <? usage_ c then c ← evict c old; evict_loop fuel c else Some c
      | [] => Some c
      end
  end.

(** [if (capacity_ > 0)]: the handle enters the list and the table. *)
Definition insert_cached (c : LRUCache) (e : nat) (ch : Z) : option LRUCache :=
  let c := with_usage (append_in_use c e) (u64 (usage_ c + ch)) in
  '(old, t) ← ht_Insert 4 (heap c) (table_ c) e;
  '(_, c) ← FinishErase (with_table c t) old;
  Some c.

Definition Insert (c : LRUCache) (k : bytes) (hv : Z) (v : V) (ch : Z) : option (nat * LRUCache) :=
  let e := next_addr c in
  let cached := 0 <? capacity_ c in
  let h := MkLRUHandle v ch k hv cached (if cached then 2 else 1) in
  let c := MkLRUCache (capacity_ c) (usage_ c) (lru_ c) (in_use_ c) (table_ c) (<[e := h]> (heap c)) (S e) (deleted c) in
  c ← (if cached then insert_cached c e ch else Some c);
  c ← evict_loop (S (length (lru_ c))) c;
  Some (e, c).

Definition Erase (c : LRUCache) (k : bytes) (hv : Z) : option LRUCache :=
  '(r, t) ← ht_Remove (heap c) (table_ c) k hv;
  '(_, c) ← FinishErase (with_table c t) r;
  Some c.

Fixpoint prune_loop (fuel : nat) (c : LRUCache) : option LRUCache :=
  match fuel with
  | O => None
  | S fuel => match lru_ c with old :: _ => c ← evict c old; prune_loop fuel c | [] => Some c end
  end.

Definition Prune (c : LRUCache) : option LRUCache := prune_loop (S (length (lru_ c))) c.

Definition TotalCharge (c : LRUCache) : Z := usage_ c.

(** The loop of [~LRUCache]; [es] is what is left of the LRU list. *)
Fixpoint destroy_loop (c : LRUCache) (es : list nat) : option LRUCache :=
  match es with
  | [] => Some c
  | e :: es =>
      h ← heap c !! e;
      c ← Unref (with_heap c (<[e := set_in_cache h false]> (heap c))) e;
      destroy_loop c es
  end.

Definition LRUCache_delete (c : LRUCache) : option LRUCache := destroy_loop c (lru_ c).
End Code.
Arguments LRUCache : clear implicits.


(** ** The hash table holds a set of handles *)

Section Table.
Context {V : Type}.
Abbreviation Heap := (gmap nat (LRUHandle V)).
Implicit Types (m : Heap) (t : HandleTable) (ids chain : list nat).

(** [ids] are the handles of the table. *)
Record ht_ok m t ids : Prop := {
  ht_len : exists n, 2 <= n <= 31 /\ length_ t = 2 ^ n;
  ht_buckets : length (list_ t) = Z.to_nat (length_ t);
  ht_ids : concat (list_ t) ≡ₚ ids;
  ht_chain : forall b chain a, list_ t !! b = Some chain -> a ∈ chain ->
    exists h, m !! a = Some h /\ bucket (hash h) (length_ t) = b;
  ht_elems : elems_ t = zlen ids
}.

(** Handles with their keys and hashes in range. *)
Definition heap_ok m : Prop := forall a h, m !! a = Some h -> hash h = Hash (key h) 0.

Lemma hash_in_range m a h : heap_ok m -> m !! a = Some h -> 0 <= hash h < 2 ^ 32.
Proof. intros Hm Ha. rewrite (Hm a h Ha). apply Hash_range. Qed.

Lemma bucket_range hv n : 0 <= hv < 2 ^ 32 -> 2 <= n <= 31 -> (bucket hv (2 ^ n) < Z.to_nat (2 ^ n))%nat.
Proof.
  intros Hh Hn. unfold bucket. assert (2 ^ 2 <= 2 ^ n <= 2 ^ 31) by (split; apply Z.pow_le_mono_r; lia).
  rewrite u32_small by lia. replace (2 ^ n - 1) with (Z.ones n) by (rewrite Z.ones_equiv; lia).
  rewrite Z.land_ones by lia. pose proof (Z.mod_pos_bound hv (2 ^ n)). lia.
Qed.

Lemma ht_member m t ids a : ht_ok m t ids -> a ∈ ids -> exists b chain h, list_ t !! b = Some chain /\ a ∈ chain /\
  m !! a = Some h /\ bucket (hash h) (length_ t) = b.
Proof.
  intros Ht Ha. rewrite <- (ht_ids _ _ _ Ht) in Ha. apply elem_of_concat in Ha as (chain & [b Hb]%list_elem_of_lookup & Ha).
  destruct (ht_chain _ _ _ Ht b chain a Hb Ha) as (h & Hh & Hbk). by exists b, chain, h.
Qed.

(** Keys are not changed in the table. *)
Definition same_keys m m' ids : Prop := forall a h, a ∈ ids -> m !! a = Some h ->
  exists h', m' !! a = Some h' /\ key h' = key h /\ hash h' = hash h.

Lemma ht_ok_ext m m' t ids : ht_ok m t ids -> same_keys m m' ids -> ht_ok m' t ids.
Proof.
  intros Ht Hs. destruct Ht as [Hl Hb Hi Hc He]. split; try done. intros b chain a Hbc Ha.
  destruct (Hc b chain a Hbc Ha) as (h & Hh & Hbk). destruct (Hs a h) as (h' & Hh' & _ & Ehash); [|done|].
  - rewrite <- Hi. apply elem_of_concat. exists chain. split; [by eapply list_elem_of_lookup_2|done].
  - exists h'. by rewrite Ehash.
Qed.

Definition unique_keys m ids : Prop := NoDup ids /\
  forall a a' h h', a ∈ ids -> a' ∈ ids -> m !! a = Some h -> m !! a' = Some h' -> key h = key h' -> a = a'.

Lemma find_chain_spec m k chain : heap_ok m -> (forall a, a ∈ chain -> is_Some (m !! a)) ->
  exists before found after, find_chain m k (Hash k 0) chain = Some (before, found, after) /\
    match found with
    | Some a => chain = before ++ a :: after /\ exists h, m !! a = Some h /\ key h = k
    | None => chain = before /\ after = [] /\ forall a h, a ∈ chain -> m !! a = Some h -> key h <> k
    end.
Proof.
  intros Hm. induction chain as [|a chain IH]; intros Hall.
  { exists [], None, []. split_and!; try done. by intros a h ?%not_elem_of_nil. }
  cbn [find_chain]. destruct (Hall a ltac:(left)) as [h Hh]. rewrite Hh. cbn [mbind option_bind].
  destruct (decide (key h = k)) as [<-|Hne].
  - rewrite (Hm a h Hh), Z.eqb_refl, (proj2 (Slice_eqb_spec _ _) eq_refl). cbn [andb].
    exists [], (Some a), chain. split; [done|]. split; [done|]. by exists h.
  - assert (Hf : (hash h =? Hash k 0) && Slice_eqb k (key h) = false).
    { apply andb_false_iff. right. apply not_true_iff_false. rewrite Slice_eqb_spec. congruence. }
    rewrite Hf. destruct IH as (before & found & after & -> & Hspec); [intros x Hx; apply Hall; by right|].
    cbn [mbind option_bind]. exists (a :: before), found, after. split; [done|].
    destruct found as [x|]; [destruct Hspec as [-> ?]; done|]. destruct Hspec as (-> & -> & Hno). split_and!; try done.
    intros x hx [->|Hx]%elem_of_cons Hhx; [congruence|by eapply Hno].
Qed.

(** What [FindPointer] finds in the whole table. *)
Lemma FindPointer_spec m t ids k : heap_ok m -> ht_ok m t ids -> unique_keys m ids ->
  exists before found after, FindPointer m t k (Hash k 0) = Some (before, found, after) /\
    (exists l1 l2, list_ t = l1 ++ (before ++ option_list found ++ after) :: l2 /\ length l1 = bucket (Hash k 0) (length_ t)) /\
    match found with
    | Some a => a ∈ ids /\ exists h, m !! a = Some h /\ key h = k
    | None => after = [] /\ forall a h, a ∈ ids -> m !! a = Some h -> key h <> k
    end.
Proof.
  intros Hm Ht Hu. destruct (ht_len _ _ _ Ht) as (n & Hn & Hlen).
  pose proof (bucket_range (Hash k 0) n (Hash_range k 0) Hn) as Hb. rewrite <- Hlen in Hb.
  destruct (lookup_lt_is_Some_2 (list_ t) (bucket (Hash k 0) (length_ t))) as [chain Hchain]; [by rewrite (ht_buckets _ _ _ Ht)|].
  assert (Hin : forall a, a ∈ chain -> a ∈ ids).
  { intros a Ha. rewrite <- (ht_ids _ _ _ Ht). apply elem_of_concat. exists chain. split; [by eapply list_elem_of_lookup_2|done]. }
  destruct (find_chain_spec m k chain Hm) as (before & found & after & Hfind & Hspec).
  { intros a Ha. destruct (ht_chain _ _ _ Ht _ _ a Hchain Ha) as (h & Hh & _). by eexists. }
  unfold FindPointer. rewrite Hchain. cbn [mbind option_bind]. exists before, found, after. split; [done|].
  split.
  - exists (take (bucket (Hash k 0) (length_ t)) (list_ t)), (drop (S (bucket (Hash k 0) (length_ t))) (list_ t)).
    split; [|rewrite length_take; apply lookup_lt_Some in Hchain; lia].
    rewrite <- (take_drop_middle (list_ t) _ chain Hchain) at 1. f_equal. f_equal.
    destruct found; simpl; [by destruct Hspec as [-> _]|]. destruct Hspec as (-> & -> & _). by rewrite app_nil_r.
  - destruct found as [a|].
    + destruct Hspec as [-> Hh]. split; [apply Hin, elem_of_app; right; left|done].
    + destruct Hspec as (-> & -> & Hno). split; [done|]. intros a h Ha Hh Hk. subst k.
      destruct (ht_member m t ids a Ht Ha) as (b & chain' & h' & Hb' & Hin' & Hh' & Hbk). rewrite Hh in Hh'. injection Hh' as <-.
      rewrite (Hm a h Hh) in Hbk. rewrite <- Hbk, Hchain in Hb'. injection Hb' as <-. by eapply Hno.
Qed.

Lemma insert_bucket {A} (l1 l2 : list A) x y : <[length l1 := y]> (l1 ++ x :: l2) = l1 ++ y :: l2.
Proof. rewrite insert_app_r_alt by lia. by rewrite Nat.sub_diag. Qed.

Lemma concat_alter_cons (l : list (list nat)) b a : (b < length l)%nat -> concat (alter (cons a) b l) ≡ₚ a :: concat l.
Proof.
  revert b. induction l as [|x l IH]; intros [|b] Hb; simpl in *; [lia|lia|done|].
  change (list_alter (cons a) b l) with (alter (cons a) b l). rewrite IH by lia. apply Permutation_sym, Permutation_middle.
Qed.

Definition in_buckets m len (l : list (list nat)) : Prop :=
  forall b chain a, l !! b = Some chain -> a ∈ chain -> exists h, m !! a = Some h /\ bucket (hash h) len = b.

Lemma rehash_spec m n chain : heap_ok m -> 2 <= n <= 31 -> forall new_list,
  (forall a, a ∈ chain -> is_Some (m !! a)) -> length new_list = Z.to_nat (2 ^ n) -> in_buckets m (2 ^ n) new_list ->
  exists l, rehash m (2 ^ n) chain new_list = Some l /\ length l = Z.to_nat (2 ^ n) /\ concat l ≡ₚ chain ++ concat new_list /\
    in_buckets m (2 ^ n) l.
Proof.
  intros Hm Hn. induction chain as [|a chain IH]; intros new_list Hall Hlen Hb; cbn [rehash]; [by exists new_list|].
  destruct (Hall a ltac:(left)) as [h Hh]. rewrite Hh. cbn [mbind option_bind].
  pose proof (bucket_range (hash h) n (hash_in_range m a h Hm Hh) Hn) as Hlt. set (b := bucket (hash h) (2 ^ n)) in *.
  destruct (IH (alter (cons a) b new_list)) as (l & -> & Hl & Hp & Hb').
  - intros x Hx. apply Hall. by right.
  - by rewrite length_alter.
  - intros b' chain' a' Hb' Ha'. destruct (decide (b' = b)) as [->|Hne].
    + rewrite list_lookup_alter_eq in Hb'. destruct (new_list !! b) as [c|] eqn:Hc; [|done]. injection Hb' as <-.
      apply elem_of_cons in Ha' as [->|Ha']; [by exists h|by eapply Hb].
    + rewrite list_lookup_alter_ne in Hb' by done. by eapply Hb.
  - exists l. split_and!; [done|done| |done]. rewrite Hp, concat_alter_cons by lia. simpl. apply Permutation_sym, Permutation_middle.
Qed.

Lemma resize_length_spec fuel : forall i elems, 2 <= i <= 31 -> 31 - i < Z.of_nat fuel -> elems <= 2 ^ 31 ->
  exists n, i <= n <= 31 /\ resize_length fuel (2 ^ i) elems = Some (2 ^ n).
Proof.
  induction fuel as [|fuel IH]; intros i elems Hi Hf He; [lia|]. cbn [resize_length].
  destruct (Z.ltb_spec (2 ^ i) elems) as [Hlt|]; [|exists i; split; [lia|done]].
  assert (i < 31) by (destruct (Z.eq_dec i 31) as [->|]; lia).
  assert (Hd : 2 ^ i * 2 = 2 ^ (i + 1)) by (rewrite Z.pow_add_r by lia; lia).
  assert (2 ^ (i + 1) <= 2 ^ 31) by (apply Z.pow_le_mono_r; lia). assert (0 <= 2 ^ (i + 1)) by lia.
  rewrite Hd, u32_small by lia. destruct (IH (i + 1) elems ltac:(lia) ltac:(lia) He) as (n & Hn & ->). exists n. split; [lia|done].
Qed.

Definition start_ok (start : Z) : Prop := exists i, 2 <= i <= 31 /\ start = 2 ^ i.

Lemma start_4 : start_ok 4.
Proof. by exists 2. Qed.

Lemma Resize_spec start m t ids : start_ok start -> heap_ok m -> concat (list_ t) ≡ₚ ids -> (forall a, a ∈ ids -> is_Some (m !! a)) ->
  elems_ t = zlen ids -> zlen ids <= 2 ^ 31 -> exists t', Resize start m t = Some t' /\ ht_ok m t' ids.
Proof.
  intros (i & Hi & ->) Hm Hp Hall He Hsz. unfold Resize.
  destruct (resize_length_spec 32 i (elems_ t)) as (n & Hn & Hr); [lia|lia|lia|].
  rewrite Hr. cbn [mbind option_bind].
  destruct (rehash_spec m n (concat (list_ t)) Hm ltac:(lia) (replicate (Z.to_nat (2 ^ n)) [])) as (l & -> & Hl & Hpl & Hb).
  - intros a Ha. apply Hall. by rewrite <- Hp.
  - by rewrite length_replicate.
  - intros b chain a Hb Ha. apply lookup_replicate in Hb as [-> _]. by apply not_elem_of_nil in Ha.
  - cbn [mbind option_bind]. eexists. split; [done|]. split; try done; [exists n; split; [lia|done]|]. simpl. rewrite Hpl, Hp.
    assert (Hnil : forall k, concat (replicate k (@nil nat)) = []) by (induction k; simpl; auto). by rewrite Hnil, app_nil_r.
Qed.

Lemma HandleTable_new_ok start : start_ok start -> exists t, HandleTable_new start (∅ : Heap) = Some t /\ ht_ok ∅ t [].
Proof.
  intros Hs. apply (Resize_spec start ∅ (MkHandleTable 0 0 []) []); try done.
  by intros a ?%not_elem_of_nil.
Qed.

(** [Lookup], [Remove] and [Insert] by key. *)
Lemma ht_Lookup_spec m t ids k : heap_ok m -> ht_ok m t ids -> unique_keys m ids ->
  exists found, ht_Lookup m t k (Hash k 0) = Some found /\
    match found with
    | Some a => a ∈ ids /\ exists h, m !! a = Some h /\ key h = k
    | None => forall a h, a ∈ ids -> m !! a = Some h -> key h <> k
    end.
Proof.
  intros Hm Ht Hu. destruct (FindPointer_spec m t ids k Hm Ht Hu) as (before & found & after & Hf & _ & Hspec).
  unfold ht_Lookup. rewrite Hf. cbn [mbind option_bind]. exists found. split; [done|].
  destruct found; [done|]. by destruct Hspec.
Qed.

#[local] Ltac in_list := rewrite ?elem_of_app, ?elem_of_cons in *; tauto.

(** Replacing the chain of one bucket. *)
Lemma replace_chain m t ids l1 chain l2 chain' ids' elems : ht_ok m t ids -> list_ t = l1 ++ chain :: l2 ->
  concat (l1 ++ chain' :: l2) ≡ₚ ids' -> elems = zlen ids' ->
  (forall a, a ∈ chain' -> a ∈ chain \/ exists h, m !! a = Some h /\ bucket (hash h) (length_ t) = length l1) ->
  ht_ok m (MkHandleTable (length_ t) elems (l1 ++ chain' :: l2)) ids'.
Proof.
  intros Ht Hl Hp He Hc. destruct Ht as [Hlen Hb Hi Hch _]. split; try done.
  - simpl. rewrite <- Hb, Hl, !length_app. done.
  - simpl. intros b c a Hlk Ha. destruct (decide (b = length l1)) as [->|Hne].
    + rewrite lookup_app_r, Nat.sub_diag in Hlk by lia. injection Hlk as <-.
      destruct (Hc a Ha) as [Ha'|]; [|done]. apply (Hch _ chain); [|done]. by rewrite Hl, lookup_app_r, Nat.sub_diag by lia.
    + apply (Hch b c); [|done]. rewrite Hl. rewrite <- Hlk.
      rewrite !lookup_app. destruct (l1 !! b) eqn:E; [done|]. apply lookup_ge_None in E.
      destruct (b - length l1)%nat eqn:E'; [lia|done].
Qed.

Lemma ht_Remove_spec m t ids k : heap_ok m -> ht_ok m t ids -> unique_keys m ids -> zlen ids < 2 ^ 32 ->
  exists r t', ht_Remove m t k (Hash k 0) = Some (r, t') /\
    match r with
    | Some a => exists ids', ids ≡ₚ a :: ids' /\ ht_ok m t' ids' /\ exists h, m !! a = Some h /\ key h = k
    | None => t' = t /\ forall a h, a ∈ ids -> m !! a = Some h -> key h <> k
    end.
Proof.
  intros Hm Ht Hu Hsz. destruct (FindPointer_spec m t ids k Hm Ht Hu) as (before & found & after & Hf & (l1 & l2 & Hl & Hb) & Hspec).
  unfold ht_Remove. rewrite Hf. cbn [mbind option_bind]. destruct found as [a|].
  - destruct Hspec as [Ha Hh]. eexists (Some a), _. split; [done|]. exists (concat (l1 ++ (before ++ after) :: l2)).
    assert (Hp : ids ≡ₚ a :: concat (l1 ++ (before ++ after) :: l2)).
    { rewrite <- (ht_ids _ _ _ Ht), Hl, !concat_app. simpl. rewrite <- !app_assoc, !Permutation_middle. solve_Permutation. }
    split_and!; [exact Hp| |done]. rewrite <- Hb, Hl, insert_bucket.
    eapply replace_chain; [done|exact Hl|done| |].
    + rewrite (ht_elems _ _ _ Ht). unfold zlen in *. rewrite Hp in Hsz |- *. simpl in *. rewrite u32_small by lia. lia.
    + intros x Hx. left. simpl. in_list.
  - destruct Hspec as [_ Hno]. exists None, t. done.
Qed.

Lemma ht_Insert_spec start m t ids a h : start_ok start -> heap_ok m -> ht_ok m t ids -> unique_keys m ids -> m !! a = Some h ->
  zlen ids < 2 ^ 31 - 1 ->
  exists old t', ht_Insert start m t a = Some (old, t') /\
    match old with
    | Some o => exists ids', ids ≡ₚ o :: ids' /\ ht_ok m t' (a :: ids') /\ exists ho, m !! o = Some ho /\ key ho = key h
    | None => ht_ok m t' (a :: ids) /\ forall x hx, x ∈ ids -> m !! x = Some hx -> key hx <> key h
    end.
Proof.
  intros Hstart Hm Ht Hu Ha Hsz. destruct (FindPointer_spec m t ids (key h) Hm Ht Hu) as (before & found & after & Hf & (l1 & l2 & Hl & Hb) & Hspec).
  unfold ht_Insert. rewrite Ha. cbn [mbind option_bind]. rewrite (Hm a h Ha) in *. rewrite Hf. cbn [mbind option_bind].
  assert (Hmine : exists h0, m !! a = Some h0 /\ bucket (hash h0) (length_ t) = length l1) by (exists h; by rewrite (Hm a h Ha)).
  rewrite <- Hb, Hl, insert_bucket. destruct found as [o|].
  - destruct Hspec as [Ho Hho]. eexists (Some o), _. split; [done|]. exists (concat (l1 ++ (before ++ after) :: l2)).
    assert (Hp : ids ≡ₚ o :: concat (l1 ++ (before ++ after) :: l2)).
    { rewrite <- (ht_ids _ _ _ Ht), Hl, !concat_app. simpl. rewrite <- !app_assoc, !Permutation_middle. solve_Permutation. }
    split_and!; [exact Hp| |done]. eapply replace_chain; [done|exact Hl| | |].
    + rewrite !concat_app. simpl. rewrite <- !app_assoc. simpl. rewrite !Permutation_middle. solve_Permutation.
    + rewrite (ht_elems _ _ _ Ht). unfold zlen. by rewrite Hp.
    + intros x Hx. simpl. apply elem_of_app in Hx as [Hx|[->|Hx]%elem_of_cons]; [left; in_list|by right|left; in_list].
  - destruct Hspec as [-> Hno].
    assert (Hok : ht_ok m (MkHandleTable (length_ t) (u32 (elems_ t + 1)) (l1 ++ (before ++ [a]) :: l2)) (a :: ids)).
    { eapply replace_chain; [done|exact Hl| | |].
      - rewrite <- (ht_ids _ _ _ Ht), Hl, !concat_app. simpl. rewrite <- !app_assoc. rewrite ?app_nil_r. solve_Permutation.
      - rewrite (ht_elems _ _ _ Ht), zlen_cons. pose proof (zlen_nonneg ids). rewrite u32_small by lia. lia.
      - intros x Hx. simpl. apply elem_of_app in Hx as [Hx|[->|Hx]%elem_of_cons]; [left; in_list|by right|by apply not_elem_of_nil in Hx]. }
    cbn [length_ elems_ list_]. destruct (_ <? _); [|by eexists None, _].
    destruct (Resize_spec start m (MkHandleTable (length_ t) (u32 (elems_ t + 1)) (l1 ++ (before ++ [a]) :: l2)) (a :: ids) Hstart Hm)
      as (t' & -> & Ht').
    + apply (ht_ids _ _ _ Hok).
    + intros x Hx. destruct (ht_member _ _ _ x Hok Hx) as (_ & _ & hx & _ & _ & Hhx & _). by eexists.
    + apply (ht_elems _ _ _ Hok).
    + rewrite zlen_cons. lia.
    + cbn [mbind option_bind]. by exists None, t'.
Qed.
End Table.

(** ** Invariant of a shard *)

Section Shard.
Context {V : Type}.
Implicit Types (c : LRUCache V) (ids : list nat) (h : LRUHandle V).

Definition charge_of c (a : nat) : Z := match heap c !! a with Some h => charge h | None => 0 end.
Definition total c ids : Z := foldr (fun a n => charge_of c a + n) 0 ids.

(** The lists, reference counts and usage; [ids] are the handles in the cache. *)
Record lists_ok c ids : Prop := {
  lo_heap : heap_ok (heap c);
  lo_ids : NoDup ids;
  lo_cached : forall a, a ∈ ids <-> exists h, heap c !! a = Some h /\ in_cache h = true;
  lo_refs : forall a h, heap c !! a = Some h -> 1 <= refs h < 2 ^ 32;
  lo_lru : NoDup (lru_ c) /\ forall a, a ∈ lru_ c <-> exists h, heap c !! a = Some h /\ in_cache h = true /\ refs h = 1;
  lo_use : NoDup (in_use_ c) /\ forall a, a ∈ in_use_ c <-> exists h, heap c !! a = Some h /\ in_cache h = true /\ 1 < refs h;
  lo_next : forall a h, heap c !! a = Some h -> (a < next_addr c)%nat;
  lo_usage : usage_ c = u64 (total c ids)
}.

Record wf c ids : Prop := {
  wf_lists : lists_ok c ids;
  wf_table : ht_ok (heap c) (table_ c) ids;
  wf_unique : unique_keys (heap c) ids
}.

(** References held by clients. *)
Definition external h : Z := refs h - (if in_cache h then 1 else 0).

Lemma total_ext c c' ids : (forall a, a ∈ ids -> charge_of c' a = charge_of c a) -> total c' ids = total c ids.
Proof.
  induction ids as [|a ids IH]; intros Hext; [done|]. cbn [total foldr]. fold (total c' ids) (total c ids).
  rewrite IH, Hext; [done|left|]. intros x Hx. apply Hext. by right.
Qed.

Lemma total_perm c ids ids' : ids ≡ₚ ids' -> total c ids = total c ids'.
Proof. unfold total. induction 1; simpl in *; lia. Qed.

Lemma heap_ok_insert (m : gmap nat (LRUHandle V)) a h : heap_ok m -> hash h = Hash (key h) 0 -> heap_ok (<[a := h]> m).
Proof. intros Hm Hh b hb. rewrite lookup_insert_Some. intros [[-> <-]|[_ Hb]]; [done|by eapply Hm]. Qed.

Lemma elem_of_remove (l : list nat) e a : a ∈ base.filter (fun x => x <> e) l <-> a ∈ l /\ a <> e.
Proof. rewrite list_elem_of_filter. tauto. Qed.

(** *** References *)

(** Handle [e] changes to [o] (gone if [None]) and moves between the lists. *)
Lemma lists_update c c' ids ids' e (o : option (LRUHandle V)) :
  lists_ok c ids -> heap c' = partial_alter (fun _ => o) e (heap c) ->
  (forall h, o = Some h -> hash h = Hash (key h) 0 /\ 1 <= refs h < 2 ^ 32) ->
  (e < next_addr c')%nat -> (next_addr c <= next_addr c')%nat ->
  NoDup ids' -> (forall a, a <> e -> a ∈ ids' <-> a ∈ ids) -> (e ∈ ids' <-> exists h, o = Some h /\ in_cache h = true) ->
  NoDup (lru_ c') -> (forall a, a <> e -> a ∈ lru_ c' <-> a ∈ lru_ c) ->
  (e ∈ lru_ c' <-> exists h, o = Some h /\ in_cache h = true /\ refs h = 1) ->
  NoDup (in_use_ c') -> (forall a, a <> e -> a ∈ in_use_ c' <-> a ∈ in_use_ c) ->
  (e ∈ in_use_ c' <-> exists h, o = Some h /\ in_cache h = true /\ 1 < refs h) ->
  usage_ c' = u64 (total c' ids') -> lists_ok c' ids'.
Proof.
  intros Hl Hh Ho Hn1 Hn2 Hni Hi1 Hi2 Hnl Hl1 Hl2 Hnu Hu1 Hu2 Hus.
  assert (He : heap c' !! e = o) by (rewrite Hh; by rewrite lookup_partial_alter_eq).
  assert (Hne : forall a, a <> e -> heap c' !! a = heap c !! a) by (intros a Ha; rewrite Hh; by rewrite lookup_partial_alter_ne by done).
  split; try done.
  - intros a h Ha. destruct (decide (a = e)) as [->|Hae]; [apply Ho; congruence|]. rewrite Hne in Ha by done. by eapply lo_heap.
  - intros a. destruct (decide (a = e)) as [->|Hae]; [by rewrite Hi2, He|]. rewrite Hi1, Hne by done. apply (lo_cached _ _ Hl).
  - intros a h Ha. destruct (decide (a = e)) as [->|Hae]; [apply Ho; congruence|]. rewrite Hne in Ha by done. by eapply lo_refs.
  - split; [done|]. intros a. destruct (decide (a = e)) as [->|Hae]; [by rewrite Hl2, He|]. rewrite Hl1, Hne by done. apply (lo_lru _ _ Hl).
  - split; [done|]. intros a. destruct (decide (a = e)) as [->|Hae]; [by rewrite Hu2, He|]. rewrite Hu1, Hne by done. apply (lo_use _ _ Hl).
  - intros a h Ha. destruct (decide (a = e)) as [->|Hae]; [lia|]. rewrite Hne in Ha by done.
    pose proof (lo_next _ _ Hl a h Ha). lia.
Qed.

(** Membership after unlinking [e] and appending it again. *)
Lemma relink (l : list nat) e : NoDup l ->
  NoDup (base.filter (fun x => x <> e) l ++ [e]) /\
  (forall a, a <> e -> a ∈ base.filter (fun x => x <> e) l ++ [e] <-> a ∈ l) /\ e ∈ base.filter (fun x => x <> e) l ++ [e].
Proof.
  intros Hn. split_and!.
  - apply NoDup_app. split_and!; [by apply NoDup_filter| |apply NoDup_singleton].
    by intros a [_ Hne]%elem_of_remove ->%list_elem_of_singleton.
  - intros a Ha. rewrite elem_of_app, elem_of_remove, list_elem_of_singleton. tauto.
  - apply elem_of_app. right. by apply list_elem_of_singleton.
Qed.

Lemma unlink (l : list nat) e : NoDup l ->
  NoDup (base.filter (fun x => x <> e) l) /\ (forall a, a <> e -> a ∈ base.filter (fun x => x <> e) l <-> a ∈ l) /\
  e ∉ base.filter (fun x => x <> e) l.
Proof.
  intros Hn. split_and!; [by apply NoDup_filter|intros a Ha; rewrite elem_of_remove; tauto|]. by intros [_ ?]%elem_of_remove.
Qed.

Lemma on_lru c ids e h : lists_ok c ids -> heap c !! e = Some h -> e ∈ lru_ c <-> in_cache h = true /\ refs h = 1.
Proof.
  intros Hl He. destruct (lo_lru _ _ Hl) as [_ Hin]. rewrite Hin, He. split; [by intros (x & [= <-] & ?)|by exists h].
Qed.

Lemma on_use c ids e h : lists_ok c ids -> heap c !! e = Some h -> e ∈ in_use_ c <-> in_cache h = true /\ 1 < refs h.
Proof.
  intros Hl He. destruct (lo_use _ _ Hl) as [_ Hin]. rewrite Hin, He. split; [by intros (x & [= <-] & ?)|by exists h].
Qed.

Lemma in_ids c ids e h : lists_ok c ids -> heap c !! e = Some h -> e ∈ ids <-> in_cache h = true.
Proof. intros Hl He. rewrite (lo_cached _ _ Hl), He. split; [by intros (x & [= <-] & ?)|by exists h]. Qed.

Lemma some_handle (h : LRUHandle V) (P : LRUHandle V -> Prop) : (exists x, Some h = Some x /\ P x) <-> P h.
Proof. split; [by intros (x & [= <-] & ?)|by exists h]. Qed.

(** Only the count of [e] changes. *)
Lemma total_refs c c' ids e h n : heap c !! e = Some h -> heap c' = <[e := set_refs h n]> (heap c) -> total c' ids = total c ids.
Proof.
  intros He Hh. apply total_ext. intros a _. unfold charge_of. rewrite Hh.
  destruct (decide (a = e)) as [->|]; [by rewrite lookup_insert_eq, He|by rewrite lookup_insert_ne].
Qed.

Lemma Ref_lists c ids e h : lists_ok c ids -> heap c !! e = Some h -> refs h < 2 ^ 32 - 1 ->
  exists c', Ref c e = Some c' /\ lists_ok c' ids /\ heap c' = <[e := set_refs h (refs h + 1)]> (heap c) /\
    table_ c' = table_ c /\ capacity_ c' = capacity_ c /\ next_addr c' = next_addr c /\ deleted c' = deleted c.
Proof.
  intros Hl He Hr. pose proof (lo_refs _ _ Hl e h He) as Hh. pose proof (lo_next _ _ Hl e h He).
  pose proof (on_lru _ _ _ _ Hl He) as Hol. pose proof (on_use _ _ _ _ Hl He) as Hou. pose proof (in_ids _ _ _ _ Hl He) as Hoi.
  destruct (lo_lru _ _ Hl) as [Hnd1 _]. destruct (lo_use _ _ Hl) as [Hnd2 _].
  unfold Ref. rewrite He. cbn [mbind option_bind]. rewrite u32_small by lia. eexists. split; [done|].
  assert (Hok : forall h0, Some (set_refs h (refs h + 1)) = Some h0 -> hash h0 = Hash (key h0) 0 /\ 1 <= refs h0 < 2 ^ 32)
    by (intros ? [= <-]; simpl; split; [apply (lo_heap _ _ Hl e h He)|lia]).
  destruct ((refs h =? 1) && in_cache h) eqn:Hcase; (split; [|done]).
  - apply andb_true_iff in Hcase as [H1%Z.eqb_eq Hic]. destruct (unlink (lru_ c) e Hnd1) as (Hu1 & Hu2 & Hu3).
    destruct (relink (in_use_ c) e Hnd2) as (Hv1 & Hv2 & Hv3).
    eapply (lists_update c _ ids ids e (Some _) Hl); try done; cbn -[base.filter]; rewrite ?some_handle; simpl; try tauto.
    + apply (lo_ids _ _ Hl).
    + split; [done|]. lia.
    + split; [|done]. intros _. split; [done|lia].
    + rewrite (lo_usage _ _ Hl). f_equal. symmetry. by eapply total_refs.
  - assert (Hcase' : in_cache h = true -> refs h <> 1) by (intros Hic; rewrite Hic, andb_true_r in Hcase; by apply Z.eqb_neq).
    eapply (lists_update c _ ids ids e (Some _) Hl); try done; cbn -[base.filter]; rewrite ?some_handle; simpl; try tauto.
    + apply (lo_ids _ _ Hl).
    + rewrite Hol. split; [intros [? ?]; tauto|lia].
    + rewrite Hou. split; [intros [? ?]; split; [done|lia]|intros [? ?]; split; [done|]]. pose proof (Hcase' ltac:(done)). lia.
    + rewrite (lo_usage _ _ Hl). f_equal. symmetry. by eapply total_refs.
Qed.

(** What is left of a handle that loses a reference. *)
Definition drop_ref (m : gmap nat (LRUHandle V)) (e : nat) h : gmap nat (LRUHandle V) :=
  if refs h =? 1 then delete e m else <[e := set_refs h (refs h - 1)]> m.

Definition drop_log h : list (bytes * V) := if refs h =? 1 then [(key h, value h)] else [].

Lemma total_drop c c' ids e : e ∉ ids -> (forall a, a <> e -> heap c' !! a = heap c !! a) -> total c' ids = total c ids.
Proof. intros He Hh. apply total_ext. intros a Ha. unfold charge_of. rewrite Hh; [done|]. by intros ->. Qed.

Lemma Unref_lists c ids e h : lists_ok c ids -> heap c !! e = Some h -> 1 <= external h ->
  exists c', Unref c e = Some c' /\ lists_ok c' ids /\ heap c' = drop_ref (heap c) e h /\
    table_ c' = table_ c /\ capacity_ c' = capacity_ c /\ next_addr c' = next_addr c /\
    deleted c' = deleted c ++ drop_log h.
Proof.
  intros Hl He Hx. pose proof (lo_refs _ _ Hl e h He) as Hh. pose proof (lo_next _ _ Hl e h He) as Hlt.
  pose proof (on_lru _ _ _ _ Hl He) as Hol. pose proof (on_use _ _ _ _ Hl He) as Hou. pose proof (in_ids _ _ _ _ Hl He) as Hoi.
  destruct (lo_lru _ _ Hl) as [Hnd1 _]. destruct (lo_use _ _ Hl) as [Hnd2 _]. unfold external in Hx.
  unfold Unref, drop_ref, drop_log. rewrite He. cbn [mbind option_bind]. rewrite u32_small by lia.
  destruct (Z.eqb_spec (refs h) 1) as [H1|H1].
  - assert (Hic : in_cache h = false) by (destruct (in_cache h); [lia|done]).
    rewrite H1. eexists. split; [done|]. split; [|done]. rewrite Hic in *.
    eapply (lists_update c _ ids ids e None Hl); try done; cbn.
    + apply (lo_ids _ _ Hl).
    + rewrite Hoi. split; [done|by intros (? & ? & _)].
    + rewrite Hol. split; [by intros [? _]|by intros (? & ? & _)].
    + rewrite Hou. split; [by intros [? _]|by intros (? & ? & _)].
    + rewrite (lo_usage _ _ Hl). f_equal. symmetry. apply (total_drop _ _ _ e); [by rewrite Hoi|]. intros a Ha. simpl.
      by rewrite lookup_delete_ne.
  - rewrite (proj2 (Z.eqb_neq _ _)) by lia. eexists. split; [done|]. rewrite app_nil_r.
    assert (Hok : forall h0, Some (set_refs h (refs h - 1)) = Some h0 -> hash h0 = Hash (key h0) 0 /\ 1 <= refs h0 < 2 ^ 32)
      by (intros ? [= <-]; simpl; split; [apply (lo_heap _ _ Hl e h He)|lia]).
    destruct (in_cache h && (refs h - 1 =? 1)) eqn:Hcase; (split; [|done]).
    + apply andb_true_iff in Hcase as [Hic H2%Z.eqb_eq]. destruct (unlink (in_use_ c) e Hnd2) as (Hu1 & Hu2 & Hu3).
      destruct (relink (lru_ c) e Hnd1) as (Hv1 & Hv2 & Hv3).
      eapply (lists_update c _ ids ids e (Some _) Hl); try done; cbn -[base.filter]; rewrite ?some_handle; simpl; try tauto.
      * apply (lo_ids _ _ Hl).
      * split; [done|]. lia.
      * rewrite (lo_usage _ _ Hl). f_equal. symmetry. by eapply total_refs.
    + assert (Hcase' : in_cache h = true -> refs h <> 2).
      { intros Hic Hr. rewrite Hic, (proj2 (Z.eqb_eq (refs h - 1) 1)) in Hcase by lia. done. }
      eapply (lists_update c _ ids ids e (Some _) Hl); try done; cbn -[base.filter]; rewrite ?some_handle; simpl; try tauto.
      * apply (lo_ids _ _ Hl).
      * rewrite Hol. split; [intros [? ?]; lia|]. intros [Hic ?]. specialize (Hcase' Hic). lia.
      * rewrite Hou. split; [intros [Hic ?]|intros [? ?]; split; [done|lia]]. specialize (Hcase' Hic). split; [done|lia].
      * rewrite (lo_usage _ _ Hl). f_equal. symmetry. by eapply total_refs.
Qed.

(** Taking [e] out of the cache. *)
Lemma FinishErase_lists c ids ids' e : lists_ok c ids -> ids ≡ₚ e :: ids' ->
  exists h c', heap c !! e = Some h /\ in_cache h = true /\ FinishErase c (Some e) = Some (true, c') /\ lists_ok c' ids' /\
    heap c' = drop_ref (heap c) e (set_in_cache h false) /\ deleted c' = deleted c ++ drop_log h /\
    table_ c' = table_ c /\ capacity_ c' = capacity_ c /\ next_addr c' = next_addr c /\
    lru_ c' = base.filter (fun a => a <> e) (lru_ c).
Proof.
  intros Hl Hp. assert (Hin : e ∈ ids) by (rewrite Hp; left). apply (lo_cached _ _ Hl) in Hin as (h & He & Hic). exists h.
  pose proof (lo_refs _ _ Hl e h He) as Hh. pose proof (lo_next _ _ Hl e h He) as Hlt.
  destruct (lo_lru _ _ Hl) as [Hnd1 _]. destruct (lo_use _ _ Hl) as [Hnd2 _].
  destruct (unlink (lru_ c) e Hnd1) as (Hu1 & Hu2 & Hu3). destruct (unlink (in_use_ c) e Hnd2) as (Hv1 & Hv2 & Hv3).
  pose proof (lo_ids _ _ Hl) as Hndi. rewrite Hp in Hndi. apply NoDup_cons in Hndi as [Hni Hndi].
  assert (Hids : forall a, a <> e -> a ∈ ids' <-> a ∈ ids) by (intros a Ha; rewrite Hp, elem_of_cons; tauto).
  assert (Hus : u64 (usage_ c - charge h) = u64 (total c ids')).
  { rewrite (lo_usage _ _ Hl), (total_perm _ _ _ Hp). cbn [total foldr]. unfold charge_of at 1. rewrite He.
    fold (total c ids'). unfold u64. rewrite Zminus_mod_idemp_l. f_equal. lia. }
  unfold FinishErase. cbn -[base.filter Unref]. rewrite He. cbn -[base.filter Unref]. unfold Unref at 1. cbn -[base.filter].
  rewrite lookup_insert_eq. cbn -[base.filter]. rewrite u32_small by lia. unfold drop_ref, drop_log. cbn -[base.filter].
  destruct (Z.eqb_spec (refs h) 1) as [H1|H1].
  - rewrite H1. cbn -[base.filter]. eexists. split_and!; try done; cbn -[base.filter].
    + eapply (lists_update c _ ids ids' e None Hl); cbn -[base.filter]; try done.
      * rewrite delete_insert_eq. done.
      * split; [done|]. by intros (? & ? & _).
      * split; [done|]. by intros (? & ? & _).
      * split; [done|]. by intros (? & ? & _).
      * rewrite Hus. f_equal. symmetry. apply (total_drop _ _ _ e); [done|]. intros a Ha. simpl. by rewrite lookup_delete_ne, lookup_insert_ne.
    + by rewrite delete_insert_eq.
  - rewrite (proj2 (Z.eqb_neq _ 0)) by lia. cbn -[base.filter]. eexists. split_and!; try done; cbn -[base.filter].
    + eapply (lists_update c _ ids ids' e (Some _) Hl); cbn -[base.filter]; try done; rewrite ?some_handle; simpl.
      * rewrite insert_insert_eq. done.
      * intros ? [= <-]. simpl. split; [apply (lo_heap _ _ Hl e h He)|lia].
      * split; [done|]. by intros [=].
      * split; [done|]. by intros [[=] _].
      * split; [done|]. by intros [[=] _].
      * rewrite Hus. f_equal. symmetry. apply (total_drop _ _ _ e); [done|]. intros a Ha. simpl. by rewrite !lookup_insert_ne.
    + by rewrite insert_insert_eq.
    + by rewrite app_nil_r.
Qed.

(** *** Entries of the heap *)

Definition entry h : bytes * V := (key h, value h).
Definition live (m : gmap nat (LRUHandle V)) : list (bytes * V) := (fun e => entry e.2) <$> map_to_list m.

Lemma live_new m e h : m !! e = None -> live (<[e := h]> m) ≡ₚ entry h :: live m.
Proof. intros He. unfold live. by rewrite map_to_list_insert. Qed.

Lemma live_delete m e h : m !! e = Some h -> entry h :: live (delete e m) ≡ₚ live m.
Proof. intros He. unfold live. by rewrite <- (map_to_list_delete m e h He). Qed.

Lemma live_update m e h h' : m !! e = Some h -> entry h' = entry h -> live (<[e := h']> m) ≡ₚ live m.
Proof.
  intros He E. rewrite <- (live_delete m e h He), <- E, <- insert_delete_eq. apply live_new. apply lookup_delete_eq.
Qed.

(** A handle that goes away is given to its deleter. *)
Lemma live_drop m e h h' : m !! e = Some h -> entry h' = entry h -> drop_log h' ++ live (drop_ref m e h') ≡ₚ live m.
Proof.
  intros He E. unfold drop_log, drop_ref. destruct (refs h' =? 1); simpl.
  - fold (entry h'). rewrite E. by apply live_delete.
  - by apply (live_update m e h).
Qed.

(** ** Clients

    [held]: the handles the clients hold, with repetitions; [log]: the entries
    inserted, by address. *)
Definition count (held : list nat) (a : nat) : Z := zlen (base.filter (fun x => x = a) held).
Definition held_refs (o : option (LRUHandle V)) : Z := match o with Some h => external h | None => 0 end.

Record tracked c ids (held : list nat) (log : list (bytes * V)) : Prop := {
  tr_lists : lists_ok c ids;
  tr_next : next_addr c = length log;
  tr_capacity : 0 < capacity_ c \/ ids = [];
  tr_log : forall a h, heap c !! a = Some h -> log !! a = Some (entry h);
  tr_held : forall a, count held a = held_refs (heap c !! a);
  tr_deleted : deleted c ++ live (heap c) ≡ₚ log
}.

(** [current]: the last entry inserted under each key and not erased. *)
Record client_ok c ids (held : list nat) (log : list (bytes * V)) (current : gmap bytes nat) : Prop := {
  cl_tracked : tracked c ids held log;
  cl_table : ht_ok (heap c) (table_ c) ids;
  cl_unique : unique_keys (heap c) ids;
  cl_current : forall a h, heap c !! a = Some h -> in_cache h = true -> current !! key h = Some a
}.

Lemma count_nonneg held a : 0 <= count held a.
Proof. apply zlen_nonneg. Qed.

Lemma count_le held a : count held a <= zlen held.
Proof. unfold count, zlen. pose proof (length_filter (fun x => x = a) held). lia. Qed.

Lemma drop_ref_lookup (m : gmap nat (LRUHandle V)) e h a : a <> e -> drop_ref m e h !! a = m !! a.
Proof. intros Ha. unfold drop_ref. case_match; [by rewrite lookup_delete_ne|by rewrite lookup_insert_ne]. Qed.

Lemma drop_ref_refs m e h : 1 <= refs h -> held_refs (drop_ref m e h !! e) = if refs h =? 1 then 0 else external h - 1.
Proof.
  intros Hr. unfold drop_ref. destruct (refs h =? 1); [by rewrite lookup_delete_eq|]. rewrite lookup_insert_eq. simpl.
  unfold external. simpl. destruct (in_cache h); lia.
Qed.

Lemma drop_ref_Some m e h a x : drop_ref m e h !! a = Some x -> (a = e /\ x = set_refs h (refs h - 1)) \/ (a <> e /\ m !! a = Some x).
Proof.
  intros Hx. destruct (decide (a = e)) as [->|Hne]; [|right; by rewrite drop_ref_lookup in Hx].
  unfold drop_ref in Hx. destruct (refs h =? 1); [by rewrite lookup_delete_eq in Hx|]. rewrite lookup_insert_eq in Hx.
  injection Hx as <-. by left.
Qed.

(** Taking an entry out of the cache changes nothing for the clients. *)
Lemma FinishErase_tracked c ids ids' held log e : tracked c ids held log -> ids ≡ₚ e :: ids' ->
  exists h c', heap c !! e = Some h /\ FinishErase c (Some e) = Some (true, c') /\ tracked c' ids' held log /\
    heap c' = drop_ref (heap c) e (set_in_cache h false) /\ table_ c' = table_ c /\ capacity_ c' = capacity_ c /\
    lru_ c' = base.filter (fun a => a <> e) (lru_ c).
Proof.
  intros Ht Hp. destruct (FinishErase_lists c ids ids' e (tr_lists _ _ _ _ Ht) Hp)
    as (h & c' & He & Hic & Hfe & Hl' & Hh & Hd & Htab & Hcap & Hn & Hlru).
  exists h, c'. split_and!; try done. pose proof (lo_refs _ _ (tr_lists _ _ _ _ Ht) e h He) as Hr. split; try done.
  - by rewrite Hn, (tr_next _ _ _ _ Ht).
  - rewrite Hcap. destruct (tr_capacity _ _ _ _ Ht) as [|E]; [by left|]. rewrite E in Hp. by apply Permutation_nil_cons in Hp.
  - intros a x. rewrite Hh. intros [[-> ->]|[_ Hx]]%drop_ref_Some; [exact (tr_log _ _ _ _ Ht e h He)|by eapply tr_log].
  - intros a. rewrite (tr_held _ _ _ _ Ht), Hh. destruct (decide (a = e)) as [->|Hne].
    + rewrite He, drop_ref_refs by (simpl; lia). simpl. unfold external. rewrite Hic. simpl. destruct (Z.eqb_spec (refs h) 1); lia.
    + by rewrite drop_ref_lookup.
  - rewrite Hd, Hh, <- app_assoc. rewrite <- (tr_deleted _ _ _ _ Ht). apply Permutation_app_head.
    change (drop_log h) with (drop_log (set_in_cache h false)). by apply (live_drop _ _ h).
Qed.

Lemma lists_table c ids t : lists_ok c ids -> lists_ok (with_table c t) ids.
Proof. by intros []. Qed.

Lemma tracked_table c ids held log t : tracked c ids held log -> tracked (with_table c t) ids held log.
Proof. intros []. split; try done. by apply lists_table. Qed.

Lemma ids_bound c ids held log : tracked c ids held log -> zlen ids <= zlen log.
Proof.
  intros Ht. unfold zlen. apply inj_le. rewrite <- (length_seq (length log) 0). apply submseteq_length, NoDup_submseteq.
  - apply (lo_ids _ _ (tr_lists _ _ _ _ Ht)).
  - intros a Ha. apply (lo_cached _ _ (tr_lists _ _ _ _ Ht)) in Ha as (h & Hh & _).
    pose proof (lo_next _ _ (tr_lists _ _ _ _ Ht) a h Hh) as Hlt. rewrite (tr_next _ _ _ _ Ht) in Hlt. apply elem_of_seq. lia.
Qed.

(** Everything cached afterwards was cached before. *)
Definition kept c c' : Prop := forall a h, heap c' !! a = Some h -> in_cache h = true ->
  exists h0, heap c !! a = Some h0 /\ in_cache h0 = true /\ entry h0 = entry h.

Lemma kept_refl c : kept c c.
Proof. intros a h Ha Hi. by exists h. Qed.

Lemma kept_trans c1 c2 c3 : kept c1 c2 -> kept c2 c3 -> kept c1 c3.
Proof.
  intros H12 H23 a h Ha Hi. destruct (H23 a h Ha Hi) as (h2 & Ha2 & Hi2 & E2). destruct (H12 a h2 Ha2 Hi2) as (h1 & Ha1 & Hi1 & E1).
  exists h1. split_and!; [done|done|congruence].
Qed.

Lemma unique_sub (m : gmap nat (LRUHandle V)) ids ids' e : unique_keys m ids -> ids ≡ₚ e :: ids' -> unique_keys m ids'.
Proof.
  intros [Hn Hu] Hp. rewrite Hp in Hn. apply NoDup_cons in Hn as [_ Hn]. split; [done|].
  intros a a' h h' Ha Ha'. apply Hu; rewrite Hp; by right.
Qed.

Lemma unique_ext (m m' : gmap nat (LRUHandle V)) ids : unique_keys m ids -> same_keys m' m ids ->
  (forall a, a ∈ ids -> is_Some (m' !! a)) -> unique_keys m' ids.
Proof.
  intros [Hn Hu] Hs Hall. split; [done|]. intros a a' h h' Ha Ha' Hh Hh' E.
  destruct (Hs a h Ha Hh) as (x & Hx & Ex & _). destruct (Hs a' h' Ha' Hh') as (x' & Hx' & Ex' & _).
  apply (Hu a a' x x'); try done. congruence.
Qed.

Lemma same_elsewhere (m m' : gmap nat (LRUHandle V)) e ids : e ∉ ids -> (forall a, a <> e -> m' !! a = m !! a) ->
  same_keys m m' ids /\ same_keys m' m ids.
Proof.
  intros He Hm. split; intros a h Ha Hh; exists h; (split; [|done]); [rewrite Hm|rewrite <- Hm]; try done; by intros ->.
Qed.

(** [e] leaves the table and the cache. *)
Lemma erase_client c ids ids' held log current t e : tracked c ids held log -> ids ≡ₚ e :: ids' ->
  ht_ok (heap c) t ids' -> unique_keys (heap c) ids' ->
  (forall a h, a <> e -> heap c !! a = Some h -> in_cache h = true -> current !! key h = Some a) ->
  exists c', FinishErase (with_table c t) (Some e) = Some (true, c') /\ client_ok c' ids' held log current /\
    capacity_ c' = capacity_ c /\ lru_ c' = base.filter (fun a => a <> e) (lru_ c) /\ kept c c' /\
    (forall h, heap c' !! e = Some h -> in_cache h = false) /\ (forall a, a <> e -> heap c' !! a = heap c !! a).
Proof.
  intros Ht Hp Htab Hu Hcur.
  destruct (FinishErase_tracked (with_table c t) ids ids' held log e (tracked_table _ _ _ _ t Ht) Hp)
    as (h & c' & He & Hfe & Ht' & Hh & Htab' & Hcap & Hlru).
  change (heap (with_table c t)) with (heap c) in *. exists c'.
  assert (Hne : forall a, a <> e -> heap c' !! a = heap c !! a) by (intros a Ha; rewrite Hh; by apply drop_ref_lookup).
  assert (Hgone : forall x, heap c' !! e = Some x -> in_cache x = false).
  { intros x. rewrite Hh. by intros [[_ ->]|[? _]]%drop_ref_Some. }
  assert (Hni : e ∉ ids').
  { pose proof (lo_ids _ _ (tr_lists _ _ _ _ Ht)) as Hn. rewrite Hp in Hn. by apply NoDup_cons in Hn as [? _]. }
  destruct (same_elsewhere (heap c) (heap c') e ids' Hni Hne) as [Hs1 Hs2].
  split_and!; try done.
  - split; [done|rewrite Htab'; by eapply ht_ok_ext| |].
    + eapply unique_ext; [done|done|]. intros a Ha. rewrite Hne by (by intros ->).
      destruct (ht_member _ _ _ a Htab Ha) as (_ & _ & x & _ & _ & Hx & _). by eexists.
    + intros a x Hx Hi. destruct (decide (a = e)) as [->|Hae]; [by rewrite (Hgone x Hx) in Hi|].
      rewrite Hne in Hx by done. by apply Hcur.
  - intros a x Hx Hi. destruct (decide (a = e)) as [->|Hae]; [by rewrite (Hgone x Hx) in Hi|].
    rewrite Hne in Hx by done. by exists x.
Qed.

Lemma remove_client c ids held log current k : client_ok c ids held log current -> zlen ids < 2 ^ 32 ->
  exists r t, ht_Remove (heap c) (table_ c) k (Hash k 0) = Some (r, t) /\
    match r with
    | Some e => exists ids' h, ids ≡ₚ e :: ids' /\ heap c !! e = Some h /\ key h = k /\
        ht_ok (heap c) t ids' /\ unique_keys (heap c) ids'
    | None => t = table_ c /\ forall a h, a ∈ ids -> heap c !! a = Some h -> key h <> k
    end.
Proof.
  intros [Ht Htab Hu Hcur] Hsz.
  destruct (ht_Remove_spec (heap c) (table_ c) ids k (lo_heap _ _ (tr_lists _ _ _ _ Ht)) Htab Hu ltac:(lia)) as (r & t & Hr & Hspec).
  exists r, t. split; [done|]. destruct r as [e|]; [|done]. destruct Hspec as (ids' & Hp & Ht' & h & Hh & Hk).
  exists ids', h. split_and!; try done. by eapply unique_sub.
Qed.

Lemma Erase_client c ids held log current k : client_ok c ids held log current -> zlen ids < 2 ^ 32 ->
  exists c' ids', Erase c k (Hash k 0) = Some c' /\ client_ok c' ids' held log (delete k current) /\
    capacity_ c' = capacity_ c /\ kept c c'.
Proof.
  intros Hc Hsz. destruct (remove_client c ids held log current k Hc Hsz) as (r & t & Hr & Hspec).
  unfold Erase. rewrite Hr. cbn [mbind option_bind]. destruct r as [e|].
  - destruct Hspec as (ids' & h & Hp & Hh & Hk & Ht' & Hu'). destruct Hc as [Ht Htab Hu Hcur].
    destruct (erase_client c ids ids' held log (delete k current) t e Ht Hp Ht' Hu') as (c' & -> & Hc' & Hcap & _ & Hkept & _).
    + intros a x Hae Hx Hi. rewrite lookup_delete_ne; [by apply Hcur|]. intros E. apply Hae.
      assert (Hin : e ∈ ids) by (rewrite Hp; left). destruct Hu as [_ Huniq].
      apply (Huniq a e x h); [by apply (in_ids _ _ _ _ (tr_lists _ _ _ _ Ht) Hx)|done|done|done|congruence].
    + cbn [mbind option_bind]. by exists c', ids'.
  - destruct Hspec as [-> Hno]. cbn. exists c, ids. assert (E : with_table c (table_ c) = c) by (by destruct c).
    rewrite E. split_and!; [done| |done|apply kept_refl]. destruct Hc as [Ht Htab Hu Hcur]. split; try done.
    intros a x Hx Hi. rewrite lookup_delete_ne; [by apply Hcur|]. intros ->.
    by apply (Hno a x); [by apply (in_ids _ _ _ _ (tr_lists _ _ _ _ Ht) Hx)|..].
Qed.

Lemma evict_client c ids held log current old rest : client_ok c ids held log current -> zlen ids < 2 ^ 32 ->
  lru_ c = old :: rest ->
  exists c' ids', evict c old = Some c' /\ client_ok c' ids' held log current /\ capacity_ c' = capacity_ c /\
    lru_ c' = rest /\ kept c c' /\ zlen ids' <= zlen ids.
Proof.
  intros Hc Hsz Hlru. pose proof Hc as [Ht Htab Hu Hcur]. pose proof (tr_lists _ _ _ _ Ht) as Hl.
  destruct (lo_lru _ _ Hl) as [Hnd Hin]. destruct (proj1 (Hin old)) as (h & Hh & Hi & Hr); [rewrite Hlru; left|].
  unfold evict. rewrite Hh. cbn [mbind option_bind]. rewrite (lo_heap _ _ Hl old h Hh).
  destruct (remove_client c ids held log current (key h) Hc Hsz) as (r & t & -> & Hspec). cbn [mbind option_bind].
  assert (Hold : old ∈ ids) by (by apply (in_ids _ _ _ _ Hl Hh)).
  destruct r as [e|]; [|by destruct Hspec as [_ Hno]; destruct (Hno old h Hold Hh)].
  destruct Hspec as (ids' & he & Hp & Hhe & Hk & Ht' & Hu').
  assert (e = old) as ->.
  { destruct Hu as [_ Huniq]. apply (Huniq e old he h); [rewrite Hp; left|done|done|done|done]. }
  destruct (erase_client c ids ids' held log current t old Ht Hp Ht' Hu') as (c' & -> & Hc' & Hcap & Hl' & Hkept & _).
  { intros a x _ Hx Hix. by apply Hcur. }
  cbn [mbind option_bind]. exists c', ids'. split_and!; try done; [|unfold zlen; rewrite Hp; simpl; lia]. rewrite Hl', Hlru. rewrite Hlru in Hnd.
  apply NoDup_cons in Hnd as [Hni _]. rewrite filter_cons_False by (by intros ?).
  rewrite <- (app_nil_r rest) at 1. apply filter_split; [|by intros ? ?%not_elem_of_nil]. by intros x Hx ->.
Qed.

Lemma evict_loop_client fuel : forall c ids held log current, client_ok c ids held log current -> zlen ids < 2 ^ 32 ->
  (length (lru_ c) < fuel)%nat ->
  exists c' ids', evict_loop fuel c = Some c' /\ client_ok c' ids' held log current /\ capacity_ c' = capacity_ c /\
    kept c c' /\ (usage_ c' <= capacity_ c' \/ lru_ c' = []).
Proof.
  induction fuel as [|fuel IH]; intros c ids held log current Hc Hsz Hf; [lia|]. cbn [evict_loop].
  destruct (lru_ c) as [|old rest] eqn:Hlru.
  { exists c, ids. split_and!; [done|done|done|apply kept_refl|by right]. }
  destruct (Z.ltb_spec (capacity_ c) (usage_ c)); [|exists c, ids; split_and!; [done|done|done|apply kept_refl|by left]].
  destruct (evict_client c ids held log current old rest Hc Hsz Hlru) as (c1 & ids1 & -> & Hc1 & Hcap1 & Hlru1 & Hk1 & Hle1).
  cbn [mbind option_bind]. simpl in Hf.
  destruct (IH c1 ids1 held log current Hc1 ltac:(lia)) as (c2 & ids2 & -> & Hc2 & Hcap2 & Hk2 & Hres); [rewrite Hlru1; lia|].
  exists c2, ids2. split_and!; [done|done|congruence|by eapply kept_trans|done].
Qed.

Lemma prune_loop_client fuel : forall c ids held log current, client_ok c ids held log current -> zlen ids < 2 ^ 32 ->
  (length (lru_ c) < fuel)%nat ->
  exists c' ids', prune_loop fuel c = Some c' /\ client_ok c' ids' held log current /\ capacity_ c' = capacity_ c /\
    kept c c' /\ lru_ c' = [].
Proof.
  induction fuel as [|fuel IH]; intros c ids held log current Hc Hsz Hf; [lia|]. cbn [prune_loop].
  destruct (lru_ c) as [|old rest] eqn:Hlru.
  { exists c, ids. split_and!; [done|done|done|apply kept_refl|done]. }
  destruct (evict_client c ids held log current old rest Hc Hsz Hlru) as (c1 & ids1 & -> & Hc1 & Hcap1 & Hlru1 & Hk1 & Hle1).
  cbn [mbind option_bind]. simpl in Hf.
  destruct (IH c1 ids1 held log current Hc1 ltac:(lia)) as (c2 & ids2 & -> & Hc2 & Hcap2 & Hk2 & Hres); [rewrite Hlru1; lia|].
  exists c2, ids2. split_and!; [done|done|congruence|by eapply kept_trans|done].
Qed.

(** *** Operations of a client *)

Lemma Prune_client c ids held log current : client_ok c ids held log current -> zlen ids < 2 ^ 32 ->
  exists c' ids', Prune c = Some c' /\ client_ok c' ids' held log current /\ capacity_ c' = capacity_ c /\ kept c c' /\ lru_ c' = [].
Proof. intros Hc Hsz. apply (prune_loop_client (S (length (lru_ c))) c ids); [done|done|lia]. Qed.

Lemma count_cons held a b : count (b :: held) a = (if decide (b = a) then 1 else 0) + count held a.
Proof.
  unfold count. destruct (decide (b = a)) as [->|Hne].
  - rewrite filter_cons_True by done. apply zlen_cons.
  - by rewrite filter_cons_False.
Qed.

Lemma new_client capacity : exists c, LRUCache_new capacity = Some c /\ client_ok (c : LRUCache V) [] [] [] ∅ /\ capacity_ c = capacity.
Proof.
  destruct (HandleTable_new_ok (V := V) 4 start_4) as (t & Ht & Htab). unfold LRUCache_new. rewrite Ht. cbn [mbind option_bind].
  eexists. split; [done|]. split; [|done]. split; cbn; try done.
  - split; cbn; try done; [|by right]. split; cbn; try done.
    + by apply NoDup_nil.
    + intros a. split; [by intros ?%not_elem_of_nil|]. by intros (h & ? & _).
    + split; [by apply NoDup_nil|]. intros a. split; [by intros ?%not_elem_of_nil|]. by intros (h & ? & _).
    + split; [by apply NoDup_nil|]. intros a. split; [by intros ?%not_elem_of_nil|]. by intros (h & ? & _).
  - split; [by apply NoDup_nil|]. by intros a a' h h' ?%not_elem_of_nil.
Qed.

Lemma refs_held c ids held log a h : tracked c ids held log -> heap c !! a = Some h -> refs h <= zlen held + 1.
Proof.
  intros Ht Hh. pose proof (tr_held _ _ _ _ Ht a) as Hc. rewrite Hh in Hc. simpl in Hc. unfold external in Hc.
  pose proof (count_le held a). destruct (in_cache h); lia.
Qed.

Lemma Lookup_client c ids held log current k : client_ok c ids held log current -> zlen held < 2 ^ 31 ->
  exists r c', Lookup c k (Hash k 0) = Some (r, c') /\ capacity_ c' = capacity_ c /\ kept c c' /\
    match r with
    | Some a => client_ok c' ids (a :: held) log current /\ current !! k = Some a /\
        exists h, heap c !! a = Some h /\ in_cache h = true /\ key h = k
    | None => c' = c /\ forall a h, heap c !! a = Some h -> in_cache h = true -> key h <> k
    end.
Proof.
  intros [Ht Htab Hu Hcur] Hsz. pose proof (tr_lists _ _ _ _ Ht) as Hl.
  destruct (ht_Lookup_spec (heap c) (table_ c) ids k (lo_heap _ _ Hl) Htab Hu) as (found & Hf & Hspec).
  unfold Lookup. rewrite Hf. cbn [mbind option_bind]. destruct found as [a|].
  - destruct Hspec as (Ha & h & Hh & Hk). pose proof (proj1 (in_ids _ _ _ _ Hl Hh) Ha) as Hi.
    destruct (Ref_lists c ids a h Hl Hh) as (c' & -> & Hl' & Hh' & Htab' & Hcap & Hn & Hd).
    { pose proof (refs_held _ _ _ _ _ _ Ht Hh). lia. }
    cbn [mbind option_bind]. exists (Some a), c'. split; [done|]. split; [done|].
    assert (Hsame : forall b x, heap c' !! b = Some x -> exists x0, heap c !! b = Some x0 /\ entry x0 = entry x /\
      in_cache x0 = in_cache x /\ hash x0 = hash x).
    { intros b x. rewrite Hh', lookup_insert_Some. intros [[-> <-]|[_ Hx]]; [by exists h|by exists x]. }
    split; [intros b x Hx Hix; destruct (Hsame b x Hx) as (x0 & ? & ? & ? & _); exists x0; split_and!; congruence|].
    assert (Hkeys : same_keys (heap c) (heap c') ids).
    { intros b x _ Hx. rewrite Hh'. destruct (decide (b = a)) as [->|Hne].
      - exists (set_refs h (refs h + 1)). rewrite lookup_insert_eq. rewrite Hh in Hx. by injection Hx as <-.
      - exists x. by rewrite lookup_insert_ne. }
    split_and!; [|rewrite <- Hk; by apply Hcur|by exists h]. split.
    + split; try done.
      * by rewrite Hn, (tr_next _ _ _ _ Ht).
      * rewrite Hcap. apply (tr_capacity _ _ _ _ Ht).
      * intros b x Hx. destruct (Hsame b x Hx) as (x0 & Hx0 & <- & _). by eapply tr_log.
      * intros b. rewrite count_cons, (tr_held _ _ _ _ Ht), Hh'. case_decide as Hba.
        -- subst b. rewrite lookup_insert_eq, Hh. simpl. unfold external. simpl. lia.
        -- rewrite lookup_insert_ne by done. lia.
      * rewrite Hd, Hh'. rewrite <- (tr_deleted _ _ _ _ Ht). apply Permutation_app_head. by apply (live_update _ _ h).
    + rewrite Htab'. by eapply ht_ok_ext.
    + eapply unique_ext; [exact Hu| |].
      * intros b x Hb Hx. destruct (Hsame b x Hx) as (x0 & Hx0 & E & _ & Eh). injection E as Ek _. by exists x0.
      * intros b Hb. rewrite Hh'. destruct (decide (b = a)) as [->|Hne]; [by rewrite lookup_insert_eq|].
        rewrite lookup_insert_ne by done. apply (lo_cached _ _ Hl) in Hb as (x & -> & _). by eexists.
    + intros b x Hx Hix. destruct (Hsame b x Hx) as (x0 & Hx0 & E & Ei & _). injection E as <- _. apply (Hcur b x0 Hx0). congruence.
  - cbn. exists None, c. split_and!; try done; [apply kept_refl|]. intros a h Hh Hi. apply (Hspec a h); [|done].
    by apply (in_ids _ _ _ _ Hl Hh).
Qed.

(** One occurrence of [a] is given back. *)
Fixpoint give_back {A} `{EqDecision A} (held : list A) (a : A) : list A :=
  match held with
  | [] => []
  | b :: held => if decide (b = a) then held else b :: give_back held a
  end.

Lemma Release_client c ids held held' log current a : client_ok c ids held log current -> held ≡ₚ a :: held' ->
  exists c', Release c a = Some c' /\ client_ok c' ids held' log current /\ capacity_ c' = capacity_ c /\ kept c c'.
Proof.
  intros [Ht Htab Hu Hcur] Hp. pose proof (tr_lists _ _ _ _ Ht) as Hl.
  assert (Hcount : forall b, count held b = (if decide (a = b) then 1 else 0) + count held' b).
  { intros b. rewrite <- count_cons. unfold count, zlen. by rewrite Hp. }
  pose proof (tr_held _ _ _ _ Ht a) as Hc. rewrite Hcount, decide_True in Hc by done. pose proof (count_nonneg held' a).
  destruct (heap c !! a) as [h|] eqn:Hh; [|simpl in Hc; lia]. simpl in Hc.
  destruct (Unref_lists c ids a h Hl Hh ltac:(lia)) as (c' & Hun & Hl' & Hh' & Htab' & Hcap & Hn & Hd).
  pose proof (lo_refs _ _ Hl a h Hh) as Hr.
  assert (Hsame : forall b x, heap c' !! b = Some x -> exists x0, heap c !! b = Some x0 /\ entry x0 = entry x /\
    in_cache x0 = in_cache x /\ hash x0 = hash x).
  { intros b x. rewrite Hh'. intros [[-> ->]|[_ Hx]]%drop_ref_Some; [by exists h|by exists x]. }
  assert (Hkeys : same_keys (heap c) (heap c') ids).
  { intros b x Hb Hx. rewrite Hh'. destruct (decide (b = a)) as [->|Hne].
    - rewrite Hh in Hx. injection Hx as <-. apply (in_ids _ _ _ _ Hl Hh) in Hb. unfold drop_ref, external in *. rewrite Hb in Hc.
      rewrite (proj2 (Z.eqb_neq _ _)) by lia. rewrite lookup_insert_eq. by eexists.
    - exists x. by rewrite drop_ref_lookup. }
  unfold Release. exists c'. split; [done|]. split_and!; [|done|].
  - split.
    + split; try done.
      * by rewrite Hn, (tr_next _ _ _ _ Ht).
      * rewrite Hcap. apply (tr_capacity _ _ _ _ Ht).
      * intros b x Hx. destruct (Hsame b x Hx) as (x0 & Hx0 & <- & _). by eapply tr_log.
      * intros b. pose proof (tr_held _ _ _ _ Ht b) as Hb. rewrite Hcount in Hb. rewrite Hh'. case_decide as Hab.
        -- subst b. rewrite Hh in Hb. simpl in Hb. rewrite drop_ref_refs by lia. destruct (Z.eqb_spec (refs h) 1); [|lia].
           unfold external in Hb. destruct (in_cache h); lia.
        -- rewrite drop_ref_lookup by done. lia.
      * rewrite Hd, Hh', <- app_assoc. rewrite <- (tr_deleted _ _ _ _ Ht). apply Permutation_app_head. by apply (live_drop _ _ h).
    + rewrite Htab'. by eapply ht_ok_ext.
    + eapply unique_ext; [exact Hu| |].
      * intros b x Hb Hx. destruct (Hsame b x Hx) as (x0 & Hx0 & E & _ & Eh). injection E as Ek _. by exists x0.
      * intros b Hb. apply (lo_cached _ _ Hl) in Hb as Hb'. destruct Hb' as (x & Hx & _).
        destruct (Hkeys b x Hb Hx) as (x' & Hx' & _). by eexists.
    + intros b x Hx Hix. destruct (Hsame b x Hx) as (x0 & Hx0 & E & Ei & _). injection E as <- _. apply (Hcur b x0 Hx0). congruence.
  - intros b x Hx Hix. destruct (Hsame b x Hx) as (x0 & ? & ? & ? & _). exists x0. split_and!; congruence.
Qed.

(** The new handle in memory, before the table sees it. *)
Lemma insert_tracked c ids held log k v ch (cached : bool) : cached = (0 <? capacity_ c) -> tracked c ids held log ->
  let e := next_addr c in
  let h := MkLRUHandle v ch k (Hash k 0) cached (if cached then 2 else 1) in
  tracked (MkLRUCache (capacity_ c) (if cached then u64 (usage_ c + ch) else usage_ c) (lru_ c)
             (if cached then in_use_ c ++ [e] else in_use_ c) (table_ c) (<[e := h]> (heap c)) (S e) (deleted c))
    (if cached then e :: ids else ids) (e :: held) (log ++ [(k, v)]).
Proof.
  intros Hcap Ht e h. pose proof (tr_lists _ _ _ _ Ht) as Hl. pose proof (tr_next _ _ _ _ Ht) as Hen. fold e in Hen.
  assert (Hnone : heap c !! e = None).
  { destruct (heap c !! e) as [x|] eqn:Hx; [|done]. pose proof (lo_next _ _ Hl e x Hx). unfold e in *. lia. }
  assert (Hni : e ∉ ids). { intros Hi. apply (lo_cached _ _ Hl) in Hi as (x & Hx & _). congruence. }
  assert (Hnl : e ∉ lru_ c). { intros Hi. apply (lo_lru _ _ Hl) in Hi as (x & Hx & _). congruence. }
  assert (Hnu : e ∉ in_use_ c). { intros Hi. apply (lo_use _ _ Hl) in Hi as (x & Hx & _). congruence. }
  destruct (lo_lru _ _ Hl) as [Hnd1 _]. destruct (lo_use _ _ Hl) as [Hnd2 _]. pose proof (lo_ids _ _ Hl) as Hndi.
  set (c1 := MkLRUCache _ _ _ _ _ _ _ _).
  assert (Htot : total c1 ids = total c ids).
  { apply (total_drop _ _ _ e); [done|]. intros a Ha. unfold c1. cbn [heap]. by rewrite lookup_insert_ne. }
  split.
  - eapply (lists_update c c1 ids _ e (Some h) Hl); rewrite ?some_handle; unfold c1; cbn; try done; fold c1.
    + intros ? [= <-]. unfold h. cbn. split; [done|]. destruct cached; lia.
    + lia.
    + unfold e. lia.
    + destruct cached; [by apply NoDup_cons|done].
    + intros a Ha. destruct cached; [|done]. rewrite elem_of_cons. tauto.
    + destruct cached; [|done]. rewrite elem_of_cons. tauto.
    + split; [done|]. by destruct cached; intros [? ?].
    + destruct cached; [|done]. apply NoDup_app. split_and!; [done| |apply NoDup_singleton]. by intros x Hx ->%list_elem_of_singleton.
    + intros a Ha. destruct cached; [|done]. rewrite elem_of_app, list_elem_of_singleton. tauto.
    + destruct cached; [|split; [done|by intros [? _]]]. rewrite elem_of_app, list_elem_of_singleton. split; [|tauto]. intros _. split; [done|lia].
    + destruct cached; [|by rewrite Htot, (lo_usage _ _ Hl)]. unfold total. cbn [foldr]. fold (total c1 ids). rewrite Htot.
      assert (Hce : charge_of c1 e = ch) by (unfold charge_of, c1; cbn [heap]; by rewrite lookup_insert_eq).
      rewrite Hce, (lo_usage _ _ Hl). unfold u64. rewrite Zplus_mod_idemp_l. f_equal. lia.
  - cbn. rewrite length_app, Hen. simpl. lia.
  - cbn. destruct cached; [|apply (tr_capacity _ _ _ _ Ht)]. left. by apply Z.ltb_lt.
  - intros a x. cbn. rewrite lookup_insert_Some. intros [[<- <-]|[_ Hx]].
    + rewrite lookup_app_r, Hen, Nat.sub_diag by (rewrite Hen; lia). done.
    + apply lookup_app_l_Some. by eapply tr_log.
  - intros a. rewrite count_cons, (tr_held _ _ _ _ Ht). cbn. case_decide as Hea.
    + subst a. rewrite lookup_insert_eq, Hnone. unfold h. simpl. unfold external. simpl. destruct cached; lia.
    + by rewrite lookup_insert_ne.
  - cbn. rewrite live_new by done. rewrite <- (tr_deleted _ _ _ _ Ht). unfold h, entry. cbn. solve_Permutation.
Qed.

(** The new entry replaces an older one of its key. *)
Lemma insert_cached_client c ids held log current k v ch : client_ok c ids held log current -> zlen ids < 2 ^ 31 - 1 ->
  let e := next_addr c in
  let h := MkLRUHandle v ch k (Hash k 0) (0 <? capacity_ c) (if 0 <? capacity_ c then 2 else 1) in
  exists c2 ids2, (if 0 <? capacity_ c
      then insert_cached (MkLRUCache (capacity_ c) (usage_ c) (lru_ c) (in_use_ c) (table_ c) (<[e := h]> (heap c)) (S e) (deleted c)) e ch
      else Some (MkLRUCache (capacity_ c) (usage_ c) (lru_ c) (in_use_ c) (table_ c) (<[e := h]> (heap c)) (S e) (deleted c))) = Some c2 /\
      client_ok c2 ids2 (e :: held) (log ++ [(k, v)]) (if 0 <? capacity_ c then <[k := e]> current else current) /\
      capacity_ c2 = capacity_ c /\ zlen ids2 <= zlen ids + 1 /\
      (forall a x, heap c2 !! a = Some x -> in_cache x = true ->
         (a = e /\ entry x = (k, v)) \/ (key x <> k /\ heap c !! a = Some x)).
Proof.
  intros [Ht Htab Hu Hcur] Hsz. pose proof (tr_lists _ _ _ _ Ht) as Hl. set (e := next_addr c).
  assert (Hnone : heap c !! e = None).
  { destruct (heap c !! e) as [x|] eqn:Hx; [|done]. pose proof (lo_next _ _ Hl e x Hx). unfold e in *. lia. }
  assert (Hni : e ∉ ids). { intros Hi. apply (lo_cached _ _ Hl) in Hi as (x & Hx & _). congruence. }
  pose proof (insert_tracked c ids held log k v ch _ eq_refl Ht) as Ht1. cbn zeta in Ht1. fold e in Ht1.
  set (h := MkLRUHandle v ch k (Hash k 0) (0 <? capacity_ c) (if 0 <? capacity_ c then 2 else 1)) in *.
  destruct (same_elsewhere (heap c) (<[e := h]> (heap c)) e ids Hni) as [Hs1 Hs2]; [intros a Ha; by rewrite lookup_insert_ne|].
  assert (Htab1 : ht_ok (<[e := h]> (heap c)) (table_ c) ids) by (by eapply ht_ok_ext).
  assert (Hu1 : unique_keys (<[e := h]> (heap c)) ids).
  { eapply unique_ext; [exact Hu|done|]. intros a Ha. destruct (ht_member _ _ _ a Htab1 Ha) as (_ & _ & x & _ & _ & Hx & _). by eexists. }
  destruct (0 <? capacity_ c) eqn:Hcap.
  - unfold insert_cached. cbv zeta. set (c1 := with_usage _ _). change (tracked c1 (e :: ids) (e :: held) (log ++ [(k, v)])) in Ht1.
    assert (Hhe : heap c1 !! e = Some h) by apply lookup_insert_eq.
    assert (Hne : forall a, a <> e -> heap c1 !! a = heap c !! a) by (intros a Ha; by apply lookup_insert_ne).
    change (<[e := h]> (heap c)) with (heap c1) in Htab1, Hu1.
    destruct (ht_Insert_spec 4 (heap c1) (table_ c1) ids e h start_4 (lo_heap _ _ (tr_lists _ _ _ _ Ht1)) Htab1 Hu1 Hhe ltac:(lia))
      as (old & t & -> & Hspec). cbn [mbind option_bind]. destruct old as [o|].
    + destruct Hspec as (ids0 & Hp & Ht0 & ho & Hho & Hko).
      assert (Hoe : o <> e) by (intros ->; apply Hni; rewrite Hp; left).
      assert (Hdiff : forall a x, a ∈ ids -> a <> o -> heap c1 !! a = Some x -> key x <> k).
      { intros a x Ha Hao Hx E. apply Hao. destruct Hu1 as [_ Huniq]. apply (Huniq a o x ho); [done|rewrite Hp; left|done|done|].
        rewrite Hko. exact E. }
      assert (Hin0 : forall a, a ∈ ids0 -> a ∈ ids /\ a <> o).
      { intros a Ha. split; [rewrite Hp; by right|]. intros ->. pose proof (proj1 Hu) as Hn. rewrite Hp in Hn. by apply NoDup_cons in Hn as [? _]. }
      assert (Hcached1 : forall a x, a <> e -> heap c1 !! a = Some x -> in_cache x = true -> a ∈ ids).
      { intros a x Hae Hx Hi. rewrite Hne in Hx by done. by apply (in_ids _ _ _ _ Hl Hx). }
      destruct (erase_client c1 (e :: ids) (e :: ids0) (e :: held) (log ++ [(k, v)]) (<[k := e]> current) t o Ht1)
        as (c2 & -> & Hc2 & Hcap2 & _ & _ & Hgone & Hkeep).
      * rewrite Hp. solve_Permutation.
      * done.
      * split; [apply NoDup_cons; split; [by intros [? _]%Hin0|]; pose proof (proj1 Hu) as Hn; rewrite Hp in Hn; by apply NoDup_cons in Hn as [_ ?]|].
        intros a a' x x' [->|Ha]%elem_of_cons [->|Ha']%elem_of_cons Hx Hx' E; [done| | |].
        -- rewrite Hhe in Hx. injection Hx as <-. destruct (Hin0 a' Ha') as [H1 H2]. by destruct (Hdiff a' x' H1 H2 Hx').
        -- rewrite Hhe in Hx'. injection Hx' as <-. destruct (Hin0 a Ha) as [H1 H2]. by destruct (Hdiff a x H1 H2 Hx).
        -- destruct Hu1 as [_ Huniq]. apply (Huniq a a' x x'); try done; by apply Hin0.
      * intros a x Hao Hx Hi. destruct (decide (a = e)) as [->|Hae].
        -- rewrite Hhe in Hx. injection Hx as <-. apply lookup_insert_eq.
        -- pose proof (Hcached1 a x Hae Hx Hi) as Hai. rewrite lookup_insert_ne; [rewrite Hne in Hx by done; by apply Hcur|].
           intros E. by apply (Hdiff a x Hai Hao Hx).
      * cbn [mbind option_bind]. exists c2, (e :: ids0). split_and!; [done|done|done|unfold zlen; rewrite Hp; simpl; lia|]. intros a x Hx Hi.
        destruct (decide (a = o)) as [->|Hao]; [by rewrite (Hgone x Hx) in Hi|]. rewrite Hkeep in Hx by done.
        destruct (decide (a = e)) as [->|Hae]; [left; split; [done|]; rewrite Hhe in Hx; by injection Hx as <-|].
        right. split; [|by rewrite Hne in Hx]. apply (Hdiff a x); [by eapply Hcached1|done|done].
    + destruct Hspec as [Ht0 Hno]. cbn. exists (with_table c1 t), (e :: ids). split; [done|]. split_and!; [|done|rewrite zlen_cons; lia|].
      * split; [by apply tracked_table|done| |].
        -- split; [apply NoDup_cons; split; [done|apply Hu]|].
           intros a a' x x' [->|Ha]%elem_of_cons [->|Ha']%elem_of_cons Hx Hx' E; [done| | |].
           ++ cbn in Hx. rewrite lookup_insert_eq in Hx. injection Hx as <-. by destruct (Hno a' x' Ha' Hx').
           ++ cbn in Hx'. rewrite lookup_insert_eq in Hx'. injection Hx' as <-. by destruct (Hno a x Ha Hx).
           ++ destruct Hu1 as [_ Huniq]. by apply (Huniq a a' x x').
        -- intros a x Hx Hi. change (heap c1 !! a = Some x) in Hx. destruct (decide (a = e)) as [->|Hae].
           ++ rewrite Hhe in Hx. injection Hx as <-. apply lookup_insert_eq.
           ++ rewrite Hne in Hx by done. rewrite lookup_insert_ne; [by apply Hcur|]. intros E.
              apply (Hno a x); [by apply (in_ids _ _ _ _ Hl Hx)|by rewrite Hne|done].
      * intros a x Hx Hi. change (heap c1 !! a = Some x) in Hx. destruct (decide (a = e)) as [->|Hae].
        -- left. split; [done|]. rewrite Hhe in Hx. by injection Hx as <-.
        -- right. rewrite Hne in Hx by done. split; [|done]. intros E.
           apply (Hno a x); [by apply (in_ids _ _ _ _ Hl Hx)|by rewrite Hne|done].
  - eexists _, ids. split; [done|]. split; [|split; [done|split; [lia|]]].
    + split; try done. cbn. intros a x. rewrite lookup_insert_Some. intros [[<- <-]|[_ Hx]]; [done|by apply Hcur].
    + cbn. intros a x. rewrite lookup_insert_Some. intros [[<- <-]|[Hne Hx]] Hi; [done|]. exfalso.
      apply Z.ltb_ge in Hcap. destruct (tr_capacity _ _ _ _ Ht) as [|E]; [lia|].
      apply (in_ids _ _ _ _ Hl Hx) in Hi. rewrite E in Hi. by apply not_elem_of_nil in Hi.
Qed.

Lemma Insert_client c ids held log current k v ch : client_ok c ids held log current -> zlen ids < 2 ^ 31 - 1 ->
  exists e c' ids', Insert c k (Hash k 0) v ch = Some (e, c') /\ e = length log /\
    client_ok c' ids' (e :: held) (log ++ [(k, v)]) (if 0 <? capacity_ c then <[k := e]> current else current) /\
    capacity_ c' = capacity_ c /\ (usage_ c' <= capacity_ c \/ lru_ c' = []) /\
    (forall a h, heap c' !! a = Some h -> in_cache h = true ->
       (a = e /\ entry h = (k, v)) \/ (key h <> k /\ exists h0, heap c !! a = Some h0 /\ in_cache h0 = true /\ entry h0 = entry h)).
Proof.
  intros Hc Hsz. destruct (insert_cached_client c ids held log current k v ch Hc Hsz) as (c2 & ids2 & Hm & Hc2 & Hcap2 & Hle2 & Hin2).
  unfold Insert. cbn zeta. rewrite Hm. cbn [mbind option_bind]. set (e := next_addr c) in *.
  assert (Hen : e = length log) by apply (tr_next _ _ _ _ (cl_tracked _ _ _ _ _ Hc)).
  destruct (evict_loop_client (S (length (lru_ c2))) c2 ids2 _ _ _ Hc2 ltac:(lia) ltac:(lia)) as (c3 & ids3 & -> & Hc3 & Hcap3 & Hk3 & Hres).
  cbn [mbind option_bind]. exists e, c3, ids3. split_and!; [done|done|done|congruence|by rewrite <- Hcap2, <- Hcap3|].
  intros a x Hx Hi. destruct (Hk3 a x Hx Hi) as (x2 & Hx2 & Hi2 & E2). destruct (Hin2 a x2 Hx2 Hi2) as [[-> E]|[Hk Hx0]].
  - left. split; [done|congruence].
  - right. injection E2 as Ek Ev. split; [congruence|]. exists x2. split_and!; [done|done|unfold entry; congruence].
Qed.

(** ** Histories of a client *)

Inductive cache_op := OInsert (k : bytes) (v : V) (ch : Z) | OLookup (k : bytes) | ORelease (a : nat) | OErase (k : bytes) | OPrune.

(** An operation with the handle it returns. *)
Definition cache_step c (op : cache_op) : option (option nat * LRUCache V) :=
  match op with
  | OInsert k v ch => '(e, c) ← Insert c k (Hash k 0) v ch; Some (Some e, c)
  | OLookup k => Lookup c k (Hash k 0)
  | ORelease a => c ← Release c a; Some (None, c)
  | OErase k => c ← Erase c k (Hash k 0); Some (None, c)
  | OPrune => c ← Prune c; Some (None, c)
  end.

(** What the client knows: the handles it holds, the entries inserted so far,
    the last entry of each key. *)
Record view := MkView { held : list nat; log : list (bytes * V); current : gmap bytes nat }.

Definition view_step (capacity : Z) (w : view) (op : cache_op) (r : option nat) : view :=
  match op with
  | OInsert k v _ =>
      let e := length (log w) in
      MkView (e :: held w) (log w ++ [(k, v)]) (if 0 <? capacity then <[k := e]> (current w) else current w)
  | OLookup _ => MkView (option_list r ++ held w) (log w) (current w)
  | ORelease a => MkView (give_back (held w) a) (log w) (current w)
  | OErase k => MkView (held w) (log w) (delete k (current w))
  | OPrune => w
  end.

(** A client only releases what it holds. *)
Definition allowed (w : view) (op : cache_op) : bool :=
  match op with ORelease a => bool_decide (a ∈ held w) | _ => true end.

(** The operations up to the first that is not allowed. *)
Fixpoint client_run c (w : view) (ops : list cache_op) : option (LRUCache V * view) :=
  match ops with
  | [] => Some (c, w)
  | op :: ops =>
      if allowed w op then '(r, c') ← cache_step c op; client_run c' (view_step (capacity_ c) w op r) ops
      else Some (c, w)
  end.

Lemma give_back_perm {A} `{EqDecision A} (l : list A) a : a ∈ l -> l ≡ₚ a :: give_back l a.
Proof.
  induction l as [|b l IH]; intros Ha; [by apply not_elem_of_nil in Ha|]. cbn [give_back].
  destruct (decide (b = a)) as [->|Hne]; [done|]. apply elem_of_cons in Ha as [->|Ha]; [done|].
  rewrite (IH Ha) at 1. apply Permutation_swap.
Qed.

Definition view_ok c (w : view) : Prop := exists ids, client_ok c ids (held w) (log w) (current w).

Lemma cache_step_ok c w op : view_ok c w -> allowed w op = true -> zlen (log w) < 2 ^ 31 - 1 -> zlen (held w) < 2 ^ 31 ->
  exists r c', cache_step c op = Some (r, c') /\ view_ok c' (view_step (capacity_ c) w op r) /\ capacity_ c' = capacity_ c.
Proof.
  intros [ids Hc] Ha Hlog Hheld. pose proof (ids_bound _ _ _ _ (cl_tracked _ _ _ _ _ Hc)). destruct op as [k v ch|k|a|k|]; cbn [cache_step view_step].
  - destruct (Insert_client _ _ _ _ _ k v ch Hc ltac:(lia)) as (e & c' & ids' & -> & -> & Hc' & Hcap & _). cbn [mbind option_bind].
    eexists _, c'. split; [done|]. split; [by exists ids'|done].
  - destruct (Lookup_client _ _ _ _ _ k Hc Hheld) as (r & c' & -> & Hcap & _ & Hspec). exists r, c'. split; [done|]. split; [|done].
    exists ids. destruct r as [a|]; cbn; [by destruct Hspec|]. by destruct Hspec as [-> _].
  - apply bool_decide_eq_true in Ha. destruct (Release_client _ _ _ (give_back (held w) a) _ _ a Hc) as (c' & -> & Hc' & Hcap & _).
    { by apply give_back_perm. }
    cbn [mbind option_bind]. eexists _, c'. split; [done|]. split; [by exists ids|done].
  - destruct (Erase_client _ _ _ _ _ k Hc ltac:(lia)) as (c' & ids' & -> & Hc' & Hcap & _). cbn [mbind option_bind].
    eexists _, c'. split; [done|]. split; [by exists ids'|done].
  - destruct (Prune_client c ids _ _ _ Hc ltac:(lia)) as (c' & ids' & -> & Hc' & Hcap & _).
    cbn [mbind option_bind]. eexists _, c'. split; [done|]. split; [by exists ids'|done].
Qed.

Lemma view_size capacity w op r : zlen (log (view_step capacity w op r)) <= zlen (log w) + 1 /\
  zlen (held (view_step capacity w op r)) <= zlen (held w) + 1.
Proof.
  assert (Hgb : forall (l : list nat) a, zlen (give_back l a) <= zlen l).
  { intros l a. induction l as [|b l IH]; [done|]. cbn [give_back]. rewrite zlen_cons. case_decide; [lia|]. rewrite zlen_cons. lia. }
  destruct op as [k v ch|k|a|k|]; cbn [view_step log held]; rewrite ?zlen_cons, ?zlen_app; try lia.
  - unfold zlen at 2. simpl. lia.
  - assert (zlen (option_list r) <= 1) by (destruct r; unfold zlen; simpl; lia). lia.
  - specialize (Hgb (held w) a). lia.
Qed.

Lemma client_run_ok ops : forall c w, view_ok c w -> zlen (log w) + zlen ops < 2 ^ 31 -> zlen (held w) + zlen ops < 2 ^ 31 ->
  exists c' w', client_run c w ops = Some (c', w') /\ view_ok c' w' /\ capacity_ c' = capacity_ c /\
    zlen (log w') <= zlen (log w) + zlen ops /\ zlen (held w') <= zlen (held w) + zlen ops.
Proof.
  induction ops as [|op ops IH]; intros c w Hw H1 H2; cbn [client_run].
  { exists c, w. rewrite (zlen_nil (A := cache_op)). split_and!; try done; lia. }
  rewrite zlen_cons in H1, H2 |- *. pose proof (zlen_nonneg ops).
  destruct (allowed w op) eqn:Ha; [|exists c, w; split_and!; try done; lia].
  destruct (cache_step_ok c w op Hw Ha ltac:(lia) ltac:(lia)) as (r & c1 & -> & Hw1 & Hcap). cbn [mbind option_bind].
  destruct (view_size (capacity_ c) w op r). destruct (IH c1 _ Hw1 ltac:(lia) ltac:(lia)) as (c2 & w2 & -> & Hw2 & Hcap2 & ? & ?).
  exists c2, w2. split_and!; [done|done|congruence|lia|lia].
Qed.

(** *** The handles of a client *)

Lemma held_live c w a : view_ok c w -> a ∈ held w -> exists h, heap c !! a = Some h /\ log w !! a = Some (entry h) /\ 1 <= external h.
Proof.
  intros [ids [Ht _ _ _]] Ha. pose proof (tr_held _ _ _ _ Ht a) as Hc.
  assert (1 <= count (held w) a).
  { unfold count, zlen. destruct (base.filter _ _) as [|x l] eqn:Hf; [|simpl; lia].
    assert (Hin : a ∈ base.filter (fun x => x = a) (held w)) by (by apply list_elem_of_filter). rewrite Hf in Hin. by apply not_elem_of_nil in Hin. }
  destruct (heap c !! a) as [h|] eqn:Hh; simpl in Hc; [|lia]. exists h. split_and!; [done|by eapply tr_log|lia].
Qed.

Lemma lru_unheld c w a : view_ok c w -> (a ∈ lru_ c) <-> (a ∉ held w) /\ exists h, heap c !! a = Some h /\ in_cache h = true.
Proof.
  intros Hw. pose proof Hw as [ids [Ht _ _ _]]. pose proof (tr_lists _ _ _ _ Ht) as Hl. rewrite (proj2 (lo_lru _ _ Hl) a). split.
  - intros (h & Hh & Hi & Hr). split; [|by exists h]. intros Ha. destruct (held_live c w a Hw Ha) as (h' & Hh' & _ & Hx).
    rewrite Hh in Hh'. injection Hh' as <-. unfold external in Hx. rewrite Hi in Hx. lia.
  - intros [Ha (h & Hh & Hi)]. exists h. split_and!; [done|done|]. pose proof (tr_held _ _ _ _ Ht a) as Hc. rewrite Hh in Hc. simpl in Hc.
    assert (count (held w) a = 0).
    { unfold count, zlen. rewrite filter_none; [done|]. by intros x Hx ->. }
    unfold external in Hc. rewrite Hi in Hc. lia.
Qed.

(** *** The destructor *)

Lemma destroy_loop_ok es : forall c, NoDup es -> (forall a, a ∈ es -> exists h, heap c !! a = Some h /\ refs h = 1) ->
  exists c', destroy_loop c es = Some c' /\ deleted c' ++ live (heap c') ≡ₚ deleted c ++ live (heap c) /\
    forall a, heap c' !! a = if decide (a ∈ es) then None else heap c !! a.
Proof.
  induction es as [|e es IH]; intros c Hnd Hes; cbn [destroy_loop]; [by exists c|]. apply NoDup_cons in Hnd as [Hni Hnd].
  destruct (Hes e) as (h & Hh & Hr); [left|]. rewrite Hh. cbn [mbind option_bind]. unfold Unref, with_heap. cbn [heap].
  rewrite lookup_insert_eq. cbn [mbind option_bind set_in_cache refs]. rewrite Hr. change (u32 (1 - 1) =? 0) with true. cbn match. cbn [mbind option_bind].
  rewrite delete_insert_eq. cbn [set_in_cache key value]. set (c1 := MkLRUCache _ _ _ _ _ _ _ _).
  destruct (IH c1 Hnd) as (c' & -> & Hp & Hl).
  { intros a Ha. destruct (Hes a) as (x & Hx & Hrx); [by right|]. exists x. split; [|done]. unfold c1. cbn. rewrite lookup_delete_ne; [done|]. by intros <-. }
  exists c'. split; [done|]. split.
  - rewrite Hp. unfold c1. cbn. rewrite <- (live_delete (heap c) e h Hh). unfold entry. solve_Permutation.
  - intros a. rewrite Hl. unfold c1. cbn. destruct (decide (a = e)) as [->|Hae].
    + rewrite (decide_True (P := e ∈ e :: es)) by left. rewrite lookup_delete_eq. by destruct (decide (e ∈ es)).
    + rewrite lookup_delete_ne by done. destruct (decide (a ∈ es)) as [Ha|Ha]; [by rewrite decide_True by (by right)|].
      rewrite decide_False; [done|]. by intros [?|?]%elem_of_cons.
Qed.

Lemma delete_client c w : view_ok c w -> held w = [] ->
  exists c', LRUCache_delete c = Some c' /\ deleted c' ≡ₚ log w /\ heap c' = ∅.
Proof.
  intros Hw Hnil. pose proof Hw as [ids [Ht _ _ _]]. pose proof (tr_lists _ _ _ _ Ht) as Hl.
  destruct (destroy_loop_ok (lru_ c) c) as (c' & Hd & Hp & Hh).
  { apply (lo_lru _ _ Hl). }
  { intros a (h & Hh & _ & Hr)%(lo_lru _ _ Hl). by exists h. }
  exists c'. split; [exact Hd|]. assert (He : heap c' = ∅).
  { apply map_eq. intros a. rewrite Hh, lookup_empty. case_decide as Ha; [done|]. destruct (heap c !! a) as [h|] eqn:Hx; [|done].
    exfalso. apply Ha. apply (lru_unheld c w a Hw). rewrite Hnil. split; [apply not_elem_of_nil|]. exists h. split; [done|].
    pose proof (tr_held _ _ _ _ Ht a) as Hc. rewrite Hnil, Hx in Hc. pose proof (lo_refs _ _ Hl a h Hx). destruct (in_cache h) eqn:Hi; [done|].
    unfold count, zlen, held_refs, external in Hc. rewrite Hi in Hc. simpl in Hc. lia. }
  split; [|done]. rewrite He in Hp. unfold live in Hp at 1. rewrite map_to_list_empty, app_nil_r in Hp. rewrite Hp. apply (tr_deleted _ _ _ _ Ht).
Qed.
End Shard.

(** ** Properties *)

(** C37. The LRU cache keeps its promises to any client.  Start from an empty
    shard of any capacity and run any history of insertions, lookups, releases
    of held handles, erasures and prunings.  Every call returns.  A handle the
    client holds is alive and shows the entry it was inserted with.  A lookup
    finds nothing, or the last entry inserted under the key and not erased
    since.  Every entry ever inserted is alive or has been given to its deleter
    exactly once.  The entries that may be evicted are exactly the cached ones
    that no client holds, and an insertion leaves the usage within the capacity
    unless nothing can be evicted.  Once no handle is held, the destructor gives
    every remaining entry to its deleter. *)
Theorem lru_cache_history {V : Type} (capacity : Z) (ops : list (@cache_op V)) : zlen ops < 2 ^ 31 - 1 ->
  exists c0 c w, LRUCache_new capacity = Some c0 /\ client_run c0 (MkView [] [] ∅) ops = Some (c, w) /\
    (forall a, a ∈ held w -> exists h, heap c !! a = Some h /\ log w !! a = Some (key h, value h)) /\
    (forall k, exists r c', Lookup c k (Hash k 0) = Some (r, c') /\ (r = None \/ r = current w !! k)) /\
    deleted c ++ live (heap c) ≡ₚ log w /\
    (forall a, (a ∈ lru_ c) <-> (a ∉ held w) /\ exists h, heap c !! a = Some h /\ in_cache h = true) /\
    (forall k v ch, exists e c', Insert c k (Hash k 0) v ch = Some (e, c') /\ (usage_ c' <= capacity \/ lru_ c' = [])) /\
    (held w = [] -> exists c', LRUCache_delete c = Some c' /\ deleted c' ≡ₚ log w /\ heap c' = ∅).
Proof.
  intros Hsz. destruct (new_client (V := V) capacity) as (c0 & Hnew & Hc0 & Hcap0).
  destruct (client_run_ok ops c0 (MkView [] [] ∅)) as (c & w & Hrun & Hw & Hcap & Hlog & Hheld); [by exists []|unfold zlen in *; simpl; lia|unfold zlen in *; simpl; lia|].
  cbn [log held] in Hlog, Hheld. rewrite (zlen_nil (A := nat)) in Hheld. rewrite (zlen_nil (A := bytes * V)) in Hlog.
  exists c0, c, w. split; [done|]. split; [done|]. pose proof Hw as [ids Hc]. pose proof (ids_bound _ _ _ _ (cl_tracked _ _ _ _ _ Hc)). split_and!.
  - intros a Ha. destruct (held_live c w a Hw Ha) as (h & Hh & Hl & _). by exists h.
  - intros k. destruct (Lookup_client _ _ _ _ _ k Hc ltac:(lia)) as (r & c' & Hlk & _ & _ & Hspec). exists r, c'. split; [done|].
    destruct r as [a|]; [|by left]. right. by destruct Hspec as (_ & -> & _).
  - apply (tr_deleted _ _ _ _ (cl_tracked _ _ _ _ _ Hc)).
  - intros a. by apply lru_unheld.
  - intros k v ch. destruct (Insert_client _ _ _ _ _ k v ch Hc ltac:(lia)) as (e & c' & ids' & Hi & _ & _ & _ & Hu & _).
    exists e, c'. split; [done|]. by rewrite <- Hcap0, <- Hcap.
  - by apply delete_client.
Qed.

(** Three entries of charge 1 in a shard of capacity 2: the released one goes. *)
Definition sample_ops : list (@cache_op Z) :=
  [OInsert [97] 1 1; OInsert [98] 2 1; ORelease 0; OInsert [99] 3 1; OLookup [98]; OErase [98]].

Lemma lru_cache_history_witness :
  exists c0 c w, LRUCache_new 2 = Some c0 /\ client_run c0 (MkView [] [] ∅) sample_ops = Some (c, w) /\
    deleted c = [([97], 1)] /\ held w = [1; 2; 1]%nat /\ (forall a, a ∈ held w -> is_Some (heap c !! a)).
Proof.
  destruct (lru_cache_history 2 sample_ops ltac:(reflexivity)) as (c0 & c & w & Hnew & Hrun & Hheld & _).
  exists c0, c, w. split; [exact Hnew|]. split; [exact Hrun|].
  assert (Hval : deleted c = [([97], 1)] /\ held w = [1; 2; 1]%nat).
  { vm_compute in Hnew. injection Hnew as <-. vm_compute in Hrun. injection Hrun as <- <-. split; vm_compute; reflexivity. }
  destruct Hval as [-> Hh]. split; [reflexivity|]. split; [exact Hh|]. intros a Ha. destruct (Hheld a Ha) as (h & -> & _). by eexists.
Defined.

End LRU.
