(* ===== verification/ShardedCache.v ===== *)
(** * ShardedCache: the cache behind [NewLRUCache]

    [ShardedLRUCache] of src/LSM-EBF/util/cache.cc: sixteen shards chosen by the
    high bits of a key's hash.  A handle is an address in the memory of the
    shard that allocated it.  The cache implements the interface [BlockCache]
    the tables are verified against. *)
From stdpp Require Import gmap.
From S2P Require Import Prelude Coding Status Hash Comparator TableFormat Block Iterators.
From S2P Require Import FilterBlock TableFilters TableBuilder Table Cache.
Import LRU.

Module Sharded.

Definition kNumShardBits : Z := 4.
Definition kNumShards : Z := Z.shiftl 1 kNumShardBits.

Definition Shard (hv : Z) : nat := Z.to_nat (Z.shiftr hv (32 - kNumShardBits)).

(** A pointer to an [LRUHandle]: the shard whose memory it is in, and where. *)
Abbreviation Handle := (nat * nat)%type.

Section Code.
Context {V : Type}.

Record ShardedLRUCache := MkSharded { shard_ : list (LRUCache V); last_id_ : Z }.

Definition with_shard (s : ShardedLRUCache) (i : nat) (c : LRUCache V) : ShardedLRUCache :=
  MkSharded (<[i := c]> (shard_ s)) (last_id_ s).

Definition make (capacity : Z) : option ShardedLRUCache :=
  let per_shard := u64 (capacity + (kNumShards - 1)) / kNumShards in
  c ← LRUCache_new per_shard;
  Some (MkSharded (replicate (Z.to_nat kNumShards) c) 0).

Definition HashSlice (k : bytes) : Z := Hash k 0.

Definition Insert (s : ShardedLRUCache) (k : bytes) (v : V) (ch : Z) : option (Handle * ShardedLRUCache) :=
  let hv := HashSlice k in
  let i := Shard hv in
  c ← shard_ s !! i;
  '(e, c) ← LRU.Insert c k hv v ch;
  Some ((i, e), with_shard s i c).

Definition Lookup (s : ShardedLRUCache) (k : bytes) : option (option Handle * ShardedLRUCache) :=
  let hv := HashSlice k in
  let i := Shard hv in
  c ← shard_ s !! i;
  '(e, c) ← LRU.Lookup c k hv;
  Some ((fun a => (i, a)) <$> (e : option nat), with_shard s i c).

(** The [LRUHandle] a pointer points to. *)
Definition deref (s : ShardedLRUCache) (p : Handle) : option (LRUHandle V) :=
  c ← shard_ s !! p.1; heap c !! p.2.

Definition Release (s : ShardedLRUCache) (p : Handle) : option ShardedLRUCache :=
  h ← deref s p;
  let i := Shard (hash h) in
  c ← shard_ s !! i;
  c ← LRU.Release c p.2;
  Some (with_shard s i c).

Definition Erase (s : ShardedLRUCache) (k : bytes) : option ShardedLRUCache :=
  let hv := HashSlice k in
  let i := Shard hv in
  c ← shard_ s !! i;
  c ← LRU.Erase c k hv;
  Some (with_shard s i c).

Definition Value (s : ShardedLRUCache) (p : Handle) : option V := value <$> deref s p.

Definition NewId (s : ShardedLRUCache) : Z * ShardedLRUCache :=
  let id := u64 (last_id_ s + 1) in (id, MkSharded (shard_ s) id).

Definition Prune (s : ShardedLRUCache) : option ShardedLRUCache :=
  cs ← mapM LRU.Prune (shard_ s);
  Some (MkSharded cs (last_id_ s)).

(** [~ShardedLRUCache]: the destructors of the shards. *)
Definition destroy (s : ShardedLRUCache) : option ShardedLRUCache :=
  cs ← mapM LRUCache_delete (shard_ s);
  Some (MkSharded cs (last_id_ s)).

Definition TotalCharge (s : ShardedLRUCache) : Z :=
  fold_left (fun total c => u64 (total + LRU.TotalCharge c)) (shard_ s) 0.
End Code.
Arguments ShardedLRUCache : clear implicits.

(** ** The contract: a map that may forget

    [include/leveldb/cache.h].  The client sees the handles it holds, the
    entry every handle ever given out was inserted with, the last handle stored
    under each key and not erased, and the ids given out. *)
Section Contract.
Context {V : Type}.

Inductive op := OInsert (k : bytes) (v : V) (ch : Z) | OLookup (k : bytes) | ORelease (p : Handle) | OErase (k : bytes) | OPrune | ONewId.
Inductive answer := AHandle (p : option Handle) | ANone | AId (id : Z).

Record lossy := MkLossy {
  holds : list Handle;
  entries : gmap Handle (bytes * V);
  stored : gmap bytes Handle;
  ids_given : list Z
}.

Definition lossy_new : lossy := MkLossy [] ∅ ∅ [].

(** The next state when the answer is one the contract allows: a lookup misses
    or hits the last entry stored under the key; handles and ids are fresh. *)
Definition lossy_step (w : lossy) (o : op) (r : answer) : option lossy :=
  match o, r with
  | OInsert k v _, AHandle (Some p) =>
      if entries w !! p is None
      then Some (MkLossy (p :: holds w) (<[p := (k, v)]> (entries w)) (<[k := p]> (stored w)) (ids_given w))
      else None
  | OLookup _, AHandle None => Some w
  | OLookup k, AHandle (Some p) =>
      if decide (stored w !! k = Some p) then Some (MkLossy (p :: holds w) (entries w) (stored w) (ids_given w)) else None
  | ORelease p, ANone => Some (MkLossy (give_back (holds w) p) (entries w) (stored w) (ids_given w))
  | OErase k, ANone => Some (MkLossy (holds w) (entries w) (delete k (stored w)) (ids_given w))
  | OPrune, ANone => Some w
  | ONewId, AId id =>
      if bool_decide (id ∈ ids_given w) then None
      else Some (MkLossy (holds w) (entries w) (stored w) (id :: ids_given w))
  | _, _ => None
  end.

(** A call with its answer. *)
Definition step (s : ShardedLRUCache V) (o : op) : option (answer * ShardedLRUCache V) :=
  match o with
  | OInsert k v ch => '(p, s) ← Insert s k v ch; Some (AHandle (Some p), s)
  | OLookup k => '(p, s) ← Lookup s k; Some (AHandle p, s)
  | ORelease p => s ← Release s p; Some (ANone, s)
  | OErase k => s ← Erase s k; Some (ANone, s)
  | OPrune => s ← Prune s; Some (ANone, s)
  | ONewId => let (id, s) := NewId s in Some (AId id, s)
  end.

(** A client releases only what it holds. *)
Definition may_call (w : lossy) (o : op) : bool :=
  match o with ORelease p => bool_decide (p ∈ holds w) | _ => true end.

(** The calls up to the first a client may not make, checked against the
    contract; [None] when a call does not return or its answer is not allowed. *)
Fixpoint checked_run (s : ShardedLRUCache V) (w : lossy) (os : list op) : option (ShardedLRUCache V * lossy) :=
  match os with
  | [] => Some (s, w)
  | o :: os =>
      if may_call w o then '(r, s) ← step s o; w ← lossy_step w o r; checked_run s w os
      else Some (s, w)
  end.

(** ** The shards under the contract *)

(** The handles of shard [i]. *)
Definition in_shard (i : nat) (l : list Handle) : list nat := snd <$> base.filter (fun p => p.1 = i) l.

Lemma in_shard_cons i (p : Handle) l : in_shard i (p :: l) = if decide (p.1 = i) then p.2 :: in_shard i l else in_shard i l.
Proof. unfold in_shard. rewrite filter_cons. by case_decide. Qed.

Lemma elem_of_in_shard i a l : a ∈ in_shard i l <-> (i, a) ∈ l.
Proof.
  unfold in_shard. rewrite list_elem_of_fmap. setoid_rewrite list_elem_of_filter. split.
  - intros ([j b] & -> & <- & Hb). done.
  - intros Ha. by exists (i, a).
Qed.

Lemma in_shard_give_back i (l : list Handle) (p : Handle) :
  in_shard i (give_back l p) = if decide (p.1 = i) then give_back (in_shard i l) p.2 else in_shard i l.
Proof.
  induction l as [|q l IH]; [by case_decide|]. cbn [give_back]. rewrite in_shard_cons. destruct (decide (q = p)) as [->|Hne].
  - case_decide; [|done]. cbn. by rewrite decide_True.
  - rewrite in_shard_cons, IH. destruct (decide (q.1 = i)) as [Hq|Hq], (decide (p.1 = i)) as [Hp|Hp]; try done.
    cbn. rewrite decide_False; [done|]. intros E. apply Hne. destruct p, q; simpl in *; congruence.
Qed.

(** Shard [i] as a client of it alone sees it, after [n] calls. *)
Record shard_view (i : nat) (n : Z) (c : LRUCache V) (w : lossy) (lv : @view V) : Prop := {
  sv_ok : view_ok c lv;
  sv_held : LRU.held lv = in_shard i (holds w);
  sv_log : forall a, entries w !! (i, a) = LRU.log lv !! a;
  sv_own : forall a k v, LRU.log lv !! a = Some (k, v) -> Shard (HashSlice k) = i;
  sv_current : forall k a, LRU.current lv !! k = Some a -> Shard (HashSlice k) = i -> stored w !! k = Some (i, a);
  sv_off : capacity_ c <= 0 -> LRU.current lv = ∅;
  sv_log_size : zlen (LRU.log lv) <= n;
  sv_held_size : zlen (LRU.held lv) <= n
}.

Record sharded_ok (n : Z) (s : ShardedLRUCache V) (w : lossy) : Prop := {
  so_length : length (shard_ s) = 16%nat;
  so_shards : forall i c, shard_ s !! i = Some c -> exists lv, shard_view i n c w lv;
  so_holds : forall p, p ∈ holds w -> (p.1 < 16)%nat;
  so_ids : forall id, id ∈ ids_given w -> 0 <= id <= last_id_ s;
  so_last : 0 <= last_id_ s <= n
}.

Lemma shard_range k : (Shard (HashSlice k) < 16)%nat.
Proof.
  unfold Shard, HashSlice. pose proof (Hash_range k 0) as H. rewrite Z.shiftr_div_pow2 by done.
  change (32 - kNumShardBits) with 28. assert (Hash k 0 / 2 ^ 28 < 16) by (apply Z.div_lt_upper_bound; lia). lia.
Qed.

Lemma shard_of n s w k : sharded_ok n s w -> exists c, shard_ s !! Shard (HashSlice k) = Some c.
Proof.
  intros Hs. destruct (shard_ s !! Shard (HashSlice k)) eqn:E; [by eexists|].
  apply lookup_ge_None in E. rewrite (so_length _ _ _ Hs) in E. pose proof (shard_range k). lia.
Qed.

(** A call on one shard leaves what the others' clients see. *)
Lemma one_shard n s w w' i c c' lv' : sharded_ok n s w -> shard_ s !! i = Some c -> shard_view i (n + 1) c' w' lv' ->
  (forall p, p ∈ holds w' -> p ∈ holds w \/ p.1 = i) -> ids_given w' = ids_given w ->
  (forall j lv cj, j <> i -> shard_view j n cj w lv -> shard_view j (n + 1) cj w' lv) ->
  sharded_ok (n + 1) (with_shard s i c') w'.
Proof.
  intros [Hlen Hsh Hin Hids Hlast] Hc Hv Hp Hg Hother. split; cbn.
  - by rewrite length_insert.
  - intros j cj. rewrite list_lookup_insert_Some. intros [(<- & <- & _)|[Hne Hj]]; [by eexists|].
    destruct (Hsh j cj Hj) as [lv Hlv]. exists lv. by apply Hother.
  - intros p [Hold| ->]%Hp; [by apply Hin|]. apply lookup_lt_Some in Hc. lia.
  - by rewrite Hg.
  - lia.
Qed.

Lemma other_shard j n c w w' lv : shard_view j n c w lv -> in_shard j (holds w') = in_shard j (holds w) ->
  (forall a, entries w' !! (j, a) = entries w !! (j, a)) ->
  (forall k, Shard (HashSlice k) = j -> stored w' !! k = stored w !! k) -> shard_view j (n + 1) c w' lv.
Proof.
  intros [] Hh He Hst. split; try done; [congruence|intros a; by rewrite He| |lia|lia]. intros k a Hk Hj. rewrite Hst by done. by apply sv_current0.
Qed.

(** Taking a handle of shard [i], or giving one back. *)
Lemma take_other i j e l : j <> i -> in_shard j ((i, e) :: l) = in_shard j l.
Proof. intros Hne. rewrite in_shard_cons. cbn. by rewrite decide_False. Qed.

Lemma take_own i e l : in_shard i ((i, e) :: l) = e :: in_shard i l.
Proof. rewrite in_shard_cons. cbn. by rewrite decide_True. Qed.

Lemma shard_view_size i n c w lv : n < 2 ^ 31 - 1 -> shard_view i n c w lv -> exists ids,
  client_ok c ids (LRU.held lv) (LRU.log lv) (LRU.current lv) /\ zlen ids < 2 ^ 31 - 1 /\ zlen (LRU.held lv) < 2 ^ 31.
Proof.
  intros Hn [[ids Hc] _ _ _ _ _ Hlog Hheld]. exists ids. pose proof (ids_bound _ _ _ _ (cl_tracked _ _ _ _ _ Hc)).
  split_and!; [done|lia|lia].
Qed.

Lemma Insert_ok n s w k v ch : n < 2 ^ 31 - 1 -> sharded_ok n s w ->
  exists p s' w', Insert s k v ch = Some (p, s') /\ lossy_step w (OInsert k v ch) (AHandle (Some p)) = Some w' /\ sharded_ok (n + 1) s' w'.
Proof.
  intros Hn Hs. destruct (shard_of n s w k Hs) as [c Hc]. destruct (so_shards _ _ _ Hs _ _ Hc) as [lv Hv].
  destruct (shard_view_size _ _ _ _ _ Hn Hv) as (ids & Hcl & Hids & Hheld). unfold Insert. cbn zeta. rewrite Hc. cbn [mbind option_bind].
  set (i := Shard (HashSlice k)) in *. unfold HashSlice.
  destruct (Insert_client _ _ _ _ _ k v ch Hcl Hids) as (e & c' & ids' & -> & -> & Hcl' & Hcap & _). cbn [mbind option_bind].
  set (e := length (LRU.log lv)). assert (Hfresh : entries w !! (i, e) = None).
  { rewrite (sv_log _ _ _ _ _ Hv). by apply lookup_ge_None. }
  exists (i, e), (with_shard s i c'). eexists. split; [done|]. cbn [lossy_step]. rewrite Hfresh. split; [done|].
  eapply one_shard with (lv' := MkView (e :: LRU.held lv) (LRU.log lv ++ [(k, v)]) _); [done|done| | |done|].
  - destruct Hv. split; cbn [LRU.held LRU.log LRU.current holds entries stored]; [by exists ids'| | | | | | |].
    + by rewrite take_own, sv_held0.
    + intros a. destruct (decide (a = e)) as [->|Hne].
      * by rewrite lookup_insert_eq, list_lookup_middle.
      * rewrite lookup_insert_ne by congruence. rewrite sv_log0. destruct (decide (a < e)%nat); [by rewrite lookup_app_l|].
        rewrite lookup_app_r by lia. rewrite (proj2 (lookup_ge_None _ _)) by lia.
        symmetry. apply lookup_ge_None. simpl. unfold e in *. lia.
    + intros a k' v' [Ha|[_ Ha]]%lookup_app_Some; [by eapply sv_own0|].
      apply list_lookup_singleton_Some in Ha as [_ [= <- <-]]. done.
    + intros k' a Hcur Hk'. destruct (0 <? capacity_ c) eqn:Hpos.
      * destruct (decide (k' = k)) as [->|Hne].
        -- rewrite lookup_insert_eq in Hcur. injection Hcur as <-. apply lookup_insert_eq.
        -- rewrite lookup_insert_ne in Hcur by done. rewrite lookup_insert_ne by done. by apply sv_current0.
      * apply Z.ltb_ge in Hpos. rewrite sv_off0 in Hcur by done. by rewrite lookup_empty in Hcur.
    + rewrite Hcap. intros Hz. rewrite (proj2 (Z.ltb_ge _ _) Hz). by apply sv_off0.
    + rewrite zlen_app. unfold zlen at 2. simpl. lia.
    + rewrite zlen_cons. lia.
  - cbn. intros p [->|?]%elem_of_cons; auto.
  - intros j lvj cj Hne Hvj. eapply other_shard; [done|cbn [holds]; by rewrite take_other| |].
    + intros a. cbn. rewrite lookup_insert_ne; [done|congruence].
    + intros k' Hk'. cbn. rewrite lookup_insert_ne; [done|]. intros ->. by apply Hne.
Qed.

Lemma Lookup_ok n s w k : n < 2 ^ 31 - 1 -> sharded_ok n s w ->
  exists p s' w', Lookup s k = Some (p, s') /\ lossy_step w (OLookup k) (AHandle p) = Some w' /\ sharded_ok (n + 1) s' w'.
Proof.
  intros Hn Hs. destruct (shard_of n s w k Hs) as [c Hc]. destruct (so_shards _ _ _ Hs _ _ Hc) as [lv Hv].
  destruct (shard_view_size _ _ _ _ _ Hn Hv) as (ids & Hcl & Hids & Hheld). unfold Lookup. cbn zeta. rewrite Hc. cbn [mbind option_bind].
  set (i := Shard (HashSlice k)) in *. unfold HashSlice.
  destruct (Lookup_client _ _ _ _ _ k Hcl Hheld) as (r & c' & -> & Hcap & _ & Hr). cbn [mbind option_bind].
  destruct r as [a|].
  - destruct Hr as (Hcl' & Hcur & _). exists (Some (i, a)), (with_shard s i c'). eexists. split; [done|]. cbn [lossy_step].
    rewrite decide_True by (by apply (sv_current _ _ _ _ _ Hv)). split; [done|].
    eapply one_shard with (lv' := MkView (a :: LRU.held lv) (LRU.log lv) (LRU.current lv)); [done|done| | |done|].
    + destruct Hv. split; cbn [LRU.held LRU.log LRU.current holds entries stored]; try done; [by exists ids|by rewrite take_own, sv_held0|by rewrite Hcap|lia|rewrite zlen_cons; lia].
    + cbn. intros p [->|?]%elem_of_cons; auto.
    + intros j lvj cj Hne Hvj. eapply other_shard; [done|cbn [holds]; by rewrite take_other|done|done].
  - destruct Hr as [-> _]. eexists _, _, w. split; [done|]. split; [done|]. eapply one_shard; [done|done| | |done|].
    + by eapply other_shard.
    + auto.
    + intros j lvj cj _ Hvj. by eapply other_shard.
Qed.

Lemma deref_held n s w p : sharded_ok n s w -> p ∈ holds w -> exists c lv h, shard_ s !! p.1 = Some c /\ shard_view p.1 n c w lv /\
  deref s p = Some h /\ entries w !! p = Some (key h, value h) /\ Shard (hash h) = p.1 /\ p.2 ∈ LRU.held lv.
Proof.
  intros Hs Hp. destruct p as [i a]. cbn. destruct (lookup_lt_is_Some_2 (shard_ s) i) as [c Hc].
  { rewrite (so_length _ _ _ Hs). by apply (so_holds _ _ _ Hs) in Hp. }
  destruct (so_shards _ _ _ Hs _ _ Hc) as [lv Hv]. assert (Ha : a ∈ LRU.held lv).
  { rewrite (sv_held _ _ _ _ _ Hv). by apply elem_of_in_shard. }
  destruct (held_live c lv a (sv_ok _ _ _ _ _ Hv) Ha) as (h & Hh & Hl & _). exists c, lv, h. unfold deref. cbn. rewrite Hc. cbn.
  split_and!; try done; [by rewrite (sv_log _ _ _ _ _ Hv)|].
  destruct (sv_ok _ _ _ _ _ Hv) as [ids [Ht _ _ _]]. rewrite (lo_heap _ _ (tr_lists _ _ _ _ Ht) _ _ Hh).
  by apply (sv_own _ _ _ _ _ Hv a (key h) (value h)).
Qed.

Lemma Release_ok n s w p : sharded_ok n s w -> p ∈ holds w ->
  exists s' w', Release s p = Some s' /\ lossy_step w (ORelease p) ANone = Some w' /\ sharded_ok (n + 1) s' w'.
Proof.
  intros Hs Hp. destruct (deref_held n s w p Hs Hp) as (c & lv & h & Hc & Hv & Hd & _ & Hsh & Ha). destruct p as [i a]. cbn in *.
  destruct (sv_ok _ _ _ _ _ Hv) as [ids Hcl]. unfold Release. rewrite Hd. cbn [mbind option_bind]. rewrite Hsh. cbn zeta. rewrite Hc. cbn [mbind option_bind snd].
  destruct (Release_client _ _ _ (give_back (LRU.held lv) a) _ _ a Hcl) as (c' & -> & Hc' & Hcap & _); [by apply give_back_perm|].
  cbn [mbind option_bind]. eexists _, _. split; [done|]. split; [done|].
  eapply one_shard with (lv' := MkView (give_back (LRU.held lv) a) (LRU.log lv) (LRU.current lv)); [done|done| | |done|].
  - destruct Hv. split; cbn [LRU.held LRU.log LRU.current holds entries stored]; try done; [by exists ids| |by rewrite Hcap|lia|].
    + rewrite in_shard_give_back, decide_True by done. by rewrite sv_held0.
    + pose proof (f_equal Z.of_nat (Permutation_length (give_back_perm _ _ Ha))) as Hl. unfold zlen in *. simpl in Hl. lia.
  - cbn. intros q Hq. left. rewrite (give_back_perm _ _ Hp). by right.
  - intros j lvj cj Hne Hvj. eapply other_shard; [done| |done|done]. cbn [holds]. rewrite in_shard_give_back, decide_False; [done|]. cbn. congruence.
Qed.

Lemma Erase_ok n s w k : n < 2 ^ 31 - 1 -> sharded_ok n s w ->
  exists s' w', Erase s k = Some s' /\ lossy_step w (OErase k) ANone = Some w' /\ sharded_ok (n + 1) s' w'.
Proof.
  intros Hn Hs. destruct (shard_of n s w k Hs) as [c Hc]. destruct (so_shards _ _ _ Hs _ _ Hc) as [lv Hv].
  destruct (shard_view_size _ _ _ _ _ Hn Hv) as (ids & Hcl & Hids & Hheld). unfold Erase. cbn zeta. rewrite Hc. cbn [mbind option_bind].
  set (i := Shard (HashSlice k)) in *. unfold HashSlice.
  destruct (Erase_client _ _ _ _ _ k Hcl ltac:(lia)) as (c' & ids' & -> & Hc' & Hcap & _). cbn [mbind option_bind].
  eexists _, _. split; [done|]. split; [done|].
  eapply one_shard with (lv' := MkView (LRU.held lv) (LRU.log lv) (delete k (LRU.current lv))); [done|done| | |done|].
  - destruct Hv. split; cbn [LRU.held LRU.log LRU.current holds entries stored]; try done; [by exists ids'| | |lia|lia].
    + intros k' a. rewrite lookup_delete_Some. intros [Hne Hk'] Hi. rewrite lookup_delete_ne by done. by apply sv_current0.
    + rewrite Hcap. intros Hz. by rewrite sv_off0, delete_empty.
  - auto.
  - intros j lvj cj Hne Hvj. eapply other_shard; [done|done|done|]. cbn. intros k' Hk'. apply lookup_delete_ne. intros <-. by apply Hne.
Qed.

Lemma Prune_ok n s w : n < 2 ^ 31 - 1 -> sharded_ok n s w -> exists s', Prune s = Some s' /\ sharded_ok (n + 1) s' w.
Proof.
  intros Hn Hs. unfold Prune.
  assert (Hall : exists cs, mapM LRU.Prune (shard_ s) = Some cs).
  { apply mapM_is_Some. apply Forall_lookup. intros i c Hc. destruct (so_shards _ _ _ Hs _ _ Hc) as [lv Hv].
    destruct (shard_view_size _ _ _ _ _ Hn Hv) as (ids & Hcl & Hids & Hheld).
    destruct (Prune_client c ids _ _ _ Hcl ltac:(lia)) as (c' & ids' & Hpr & _). exists c'. exact Hpr. }
  destruct Hall as [cs Hcs]. rewrite Hcs. cbn. eexists. split; [done|]. apply mapM_Some in Hcs. split; cbn.
  - rewrite <- (Forall2_length _ _ _ Hcs). apply (so_length _ _ _ Hs).
  - intros i c' Hc'. destruct (Forall2_lookup_r _ _ _ _ _ Hcs Hc') as (c & Hc & Hpr). destruct (so_shards _ _ _ Hs _ _ Hc) as [lv Hv].
    destruct (shard_view_size _ _ _ _ _ Hn Hv) as (ids & Hcl & Hids & Hheld).
    destruct (Prune_client c ids _ _ _ Hcl ltac:(lia)) as (c2 & ids' & Hpr2 & Hcl' & Hcap & _).
    rewrite Hpr in Hpr2. injection Hpr2 as <-. exists lv. destruct Hv. split; try done; [by exists ids'|by rewrite Hcap|lia|lia].
  - apply (so_holds _ _ _ Hs).
  - apply (so_ids _ _ _ Hs).
  - pose proof (so_last _ _ _ Hs). lia.
Qed.

Lemma step_ok n s w o : n < 2 ^ 31 - 1 -> sharded_ok n s w -> may_call w o = true ->
  exists r s' w', step s o = Some (r, s') /\ lossy_step w o r = Some w' /\ sharded_ok (n + 1) s' w'.
Proof.
  intros Hn Hs Ha. destruct o as [k v ch|k|p|k| |]; cbn [step].
  - destruct (Insert_ok n s w k v ch Hn Hs) as (p & s' & w' & -> & Hl & Hs'). cbn [mbind option_bind]. by eexists _, s', w'.
  - destruct (Lookup_ok n s w k Hn Hs) as (p & s' & w' & -> & Hl & Hs'). cbn [mbind option_bind]. by eexists _, s', w'.
  - apply bool_decide_eq_true in Ha. destruct (Release_ok n s w p Hs Ha) as (s' & w' & -> & Hl & Hs'). by eexists _, s', w'.
  - destruct (Erase_ok n s w k Hn Hs) as (s' & w' & -> & Hl & Hs'). by eexists _, s', w'.
  - destruct (Prune_ok n s w Hn Hs) as (s' & -> & Hs'). by eexists _, s', w.
  - unfold NewId. cbn zeta. eexists _, _, _. split; [done|]. pose proof (so_last _ _ _ Hs). rewrite u64_small by lia. cbn [lossy_step].
    rewrite bool_decide_eq_false_2 by (intros Hid%(so_ids _ _ _ Hs); lia). split; [done|]. split; cbn; [apply (so_length _ _ _ Hs)| | | |lia].
    + intros i c Hc. destruct (so_shards _ _ _ Hs _ _ Hc) as [lv Hv]. exists lv. by eapply other_shard.
    + apply (so_holds _ _ _ Hs).
    + intros id [->|Hid]%elem_of_cons; [lia|]. pose proof (so_ids _ _ _ Hs id Hid). lia.
Qed.

Lemma sharded_make_ok capacity : exists s, make capacity = Some s /\ sharded_ok 0 s lossy_new.
Proof.
  unfold make. cbn zeta. destruct (new_client (V := V) (u64 (capacity + (kNumShards - 1)) / kNumShards)) as (c & -> & Hc & Hcap).
  cbn [mbind option_bind]. eexists. split; [done|]. split; cbn; try done.
  - intros i c' Hc'. change (replicate 16 c !! i = Some c') in Hc'. apply lookup_replicate in Hc' as [-> _].
    exists (MkView [] [] ∅). split; try done. by exists [].
  - by intros p ?%not_elem_of_nil.
  - by intros p ?%not_elem_of_nil.
Qed.

Lemma checked_run_ok os : forall n s w, sharded_ok n s w -> n + zlen os < 2 ^ 31 ->
  exists s' w', checked_run s w os = Some (s', w') /\ sharded_ok (n + zlen os) s' w'.
Proof.
  induction os as [|o os IH]; intros n s w Hs Hn; cbn [checked_run].
  { exists s, w. rewrite (zlen_nil (A := op)), Z.add_0_r. done. }
  rewrite zlen_cons in Hn |- *. pose proof (zlen_nonneg os). destruct (may_call w o) eqn:Ha.
  - destruct (step_ok n s w o ltac:(lia) Hs Ha) as (r & s1 & w1 & -> & Hl & Hs1). cbn [mbind option_bind]. rewrite Hl. cbn [mbind option_bind].
    destruct (IH (n + 1) s1 w1 Hs1 ltac:(lia)) as (s2 & w2 & -> & Hs2). exists s2, w2. by rewrite Z.add_assoc.
  - exists s, w. split; [done|]. destruct Hs as [Hlen Hsh Hin Hids Hlast]. split; try done; [|lia].
    intros i c Hc. destruct (Hsh i c Hc) as [lv []]. exists lv. split; try done; lia.
Qed.
End Contract.

(** ** The cache of a table's blocks

    How a table uses the cache: it reads the value of a hit and releases the
    handle; it releases the handle of an insertion. *)
Section Blocks.
Context {V : Type}.
Implicit Types (s : ShardedLRUCache V) (c : LRUCache V).

Definition use (s : ShardedLRUCache V) (k : bytes) : option (option V * ShardedLRUCache V) :=
  '(p, s) ← Lookup s k;
  match p with
  | None => Some (None, s)
  | Some p => v ← Value s p; s ← Release s p; Some (Some v, s)
  end.

Definition put (s : ShardedLRUCache V) (k : bytes) (v : V) (ch : Z) : option (unit * ShardedLRUCache V) :=
  '(p, s) ← Insert s k v ch;
  s ← Release s p; Some (tt, s).

(** Between calls no handle is held. *)
Definition quiet_shard c : Prop := exists ids log current, client_ok c ids [] log current.
Definition quiet s : Prop := length (shard_ s) = 16%nat /\ forall i c, shard_ s !! i = Some c -> quiet_shard c.

(** The number of entries of the shard [k] belongs to. *)
Definition shard_size s (k : bytes) : Z :=
  match shard_ s !! Shard (HashSlice k) with Some c => elems_ (table_ c) | None => 0 end.

Definition holding c (k : bytes) (v : V) : Prop := exists a h, heap c !! a = Some h /\ in_cache h = true /\ entry h = (k, v).

Definition shard_holds s (k : bytes) (v : V) : Prop := exists c, shard_ s !! Shard (HashSlice k) = Some c /\ holding c k v.

Lemma kept_holding c c' k v : kept c c' -> holding c' k v -> holding c k v.
Proof. intros Hk (a & h & Hh & Hi & He). destruct (Hk a h Hh Hi) as (h0 & ? & ? & ?). exists a, h0. split_and!; congruence. Qed.

(** A held handle can be read, and releasing it leaves the shard quiet. *)
Lemma release_last c ids log current a k v : client_ok c ids [a] log current -> log !! a = Some (k, v) ->
  exists h c', heap c !! a = Some h /\ entry h = (k, v) /\ hash h = Hash k 0 /\ LRU.Release c a = Some c' /\ quiet_shard c' /\ kept c c'.
Proof.
  intros Hc Ha. destruct (held_live c (MkView [a] log current) a) as (h & Hh & Hl & _); [by exists ids|left|].
  cbn [LRU.log] in Hl. assert (He : entry h = (k, v)) by congruence. destruct (Release_client c ids [a] [] log current a Hc) as (c' & Hr & Hc' & _ & Hk); [done|].
  exists h, c'. split_and!; try done; [|by exists ids, log, current].
  rewrite (lo_heap _ _ (tr_lists _ _ _ _ (cl_tracked _ _ _ _ _ Hc)) _ _ Hh). unfold entry in He. congruence.
Qed.

Lemma quiet_with_shard s i c c' : quiet s -> shard_ s !! i = Some c -> quiet_shard c' -> quiet (with_shard s i c').
Proof.
  intros [Hl Hs] Hc Hq. split; cbn; [by rewrite length_insert|]. intros j cj.
  rewrite list_lookup_insert_Some. intros [(_ & <- & _)|[_ Hj]]; [done|by apply (Hs j)].
Qed.

Lemma with_shard_twice s i c1 c2 : with_shard (with_shard s i c1) i c2 = with_shard s i c2.
Proof. unfold with_shard. cbn. by rewrite list_insert_insert_eq. Qed.

(** Reading and releasing through the pointer of shard [i]. *)
Lemma finish s i c c1 c2 h a k : shard_ s !! i = Some c -> i = Shard (HashSlice k) -> heap c1 !! a = Some h -> hash h = Hash k 0 ->
  LRU.Release c1 a = Some c2 ->
  Value (with_shard s i c1) (i, a) = Some (value h) /\ Release (with_shard s i c1) (i, a) = Some (with_shard s i c2).
Proof.
  intros Hc Hi Hh Hhash Hr. assert (Hlt : (i < length (shard_ s))%nat) by (by eapply lookup_lt_Some).
  unfold Value, Release, deref. cbn [fst snd with_shard shard_]. rewrite list_lookup_insert_eq by done. cbn [mbind option_bind]. rewrite Hh.
  cbn [fmap option_fmap option_map mbind option_bind]. split; [done|]. rewrite Hhash. change (Hash k 0) with (HashSlice k). rewrite <- Hi.
  cbn zeta. rewrite list_lookup_insert_eq by done. cbn [mbind option_bind]. rewrite Hr. cbn [mbind option_bind].
  f_equal. apply with_shard_twice.
Qed.

Lemma quiet_shard_of s k : quiet s -> exists c, shard_ s !! Shard (HashSlice k) = Some c /\ quiet_shard c.
Proof.
  intros [Hl Hs]. destruct (lookup_lt_is_Some_2 (shard_ s) (Shard (HashSlice k))) as [c Hc]; [rewrite Hl; apply shard_range|].
  exists c. split; [done|by apply (Hs _ _ Hc)].
Qed.

Lemma other_shard_holds s i c' k v : (i < length (shard_ s))%nat -> shard_holds (with_shard s i c') k v ->
  (Shard (HashSlice k) = i /\ holding c' k v) \/ (Shard (HashSlice k) <> i /\ shard_holds s k v).
Proof.
  intros Hi (c & Hc & Hh). cbn in Hc. destruct (decide (Shard (HashSlice k) = i)) as [E|Hne].
  - left. split; [done|]. rewrite E, list_lookup_insert_eq in Hc by done. by injection Hc as <-.
  - right. split; [done|]. rewrite list_lookup_insert_ne in Hc by congruence. by exists c.
Qed.

Lemma use_ok s k : quiet s -> exists r s', use s k = Some (r, s') /\ quiet s' /\
  (forall v, r = Some v -> shard_holds s k v) /\ (forall k' v, shard_holds s' k' v -> shard_holds s k' v).
Proof.
  intros Hq. destruct (quiet_shard_of s k Hq) as (c & Hc & ids & log & current & Hcl). unfold use, Lookup. cbn zeta. rewrite Hc. cbn [mbind option_bind].
  set (i := Shard (HashSlice k)) in *. change (HashSlice k) with (Hash k 0).
  destruct (Lookup_client _ _ _ _ _ k Hcl ltac:(done)) as (r & c1 & -> & _ & Hk1 & Hr). cbn [mbind option_bind].
  destruct r as [a|]; cbn [fmap option_fmap option_map].
  - destruct Hr as (Hcl1 & _ & h0 & Hh0 & Hi0 & Hk0). pose proof (tr_log _ _ _ _ (cl_tracked _ _ _ _ _ Hcl) _ _ Hh0) as Hlog.
    destruct (release_last c1 ids log current a k (value h0) Hcl1) as (h & c2 & Hh & He & Hhash & Hrel & Hq2 & Hk2).
    { rewrite Hlog. unfold entry. by rewrite Hk0. }
    destruct (finish s i c c1 c2 h a k Hc eq_refl Hh Hhash Hrel) as [-> ->]. cbn [mbind option_bind]. eexists _, _. split; [done|].
    split; [by eapply quiet_with_shard|]. injection He as _ He. split.
    + intros v [= <-]. exists c. split; [done|]. exists a, h0. split_and!; [done|done|unfold entry; congruence].
    + intros k' v [[E Hv]|[_ Hv]]%other_shard_holds; [|done|by eapply lookup_lt_Some]. exists c. rewrite E. split; [done|].
      eapply kept_holding; [|done]. by eapply kept_trans.
  - destruct Hr as [-> _]. eexists None, _. split; [done|]. split; [by eapply quiet_with_shard; [| |exists ids, log, current]|]. split; [done|].
    intros k' v [[E Hv]|[_ Hv]]%other_shard_holds; [|done|by eapply lookup_lt_Some]. exists c. by rewrite E.
Qed.

Lemma put_ok s k v ch : quiet s -> shard_size s k < 2 ^ 31 - 1 -> exists s', put s k v ch = Some (tt, s') /\ quiet s' /\
  (forall k' v', shard_holds s' k' v' -> (k' = k /\ v' = v) \/ (k' <> k /\ shard_holds s k' v')).
Proof.
  intros Hq Hsz. destruct (quiet_shard_of s k Hq) as (c & Hc & ids & log & current & Hcl). unfold shard_size in Hsz. rewrite Hc in Hsz.
  unfold put, Insert. cbn zeta. rewrite Hc. cbn [mbind option_bind]. set (i := Shard (HashSlice k)) in *. change (HashSlice k) with (Hash k 0).
  rewrite (ht_elems _ _ _ (cl_table _ _ _ _ _ Hcl)) in Hsz.
  destruct (Insert_client _ _ _ _ _ k v ch Hcl Hsz) as (e & c1 & ids1 & -> & -> & Hcl1 & _ & _ & Hkeep). cbn [mbind option_bind].
  destruct (release_last c1 ids1 _ _ _ k v Hcl1) as (h & c2 & Hh & He & Hhash & Hrel & Hq2 & Hk2).
  { by rewrite list_lookup_middle. }
  destruct (finish s i c c1 c2 h _ k Hc eq_refl Hh Hhash Hrel) as [_ ->]. cbn [mbind option_bind]. eexists. split; [done|].
  split; [by eapply quiet_with_shard|].
  intros k' v' [[E Hv]|[Hne Hv]]%other_shard_holds; [| |by eapply lookup_lt_Some].
  - apply (kept_holding _ _ _ _ Hk2) in Hv as (a & h' & Hh' & Hi' & He'). destruct (Hkeep a h' Hh' Hi') as [[_ Hx]|[Hx (h0 & Hh0 & Hi0 & Hx0)]].
    + left. rewrite Hx in He'. by injection He' as -> ->.
    + right. unfold entry in He'. injection He' as <- <-. split; [done|]. exists c. rewrite E. split; [done|]. by exists a, h0.
  - right. split; [|done]. intros ->. by apply Hne.
Qed.

Lemma make_quiet capacity : exists s, make capacity = Some s /\ quiet s.
Proof.
  unfold make. cbn zeta. destruct (new_client (V := V) (u64 (capacity + (kNumShards - 1)) / kNumShards)) as (c & -> & Hc & _).
  eexists. split; [done|]. split; [done|]. intros i c' Hc'. change (replicate 16 c !! i = Some c') in Hc'.
  apply lookup_replicate in Hc' as [-> _]. by exists [], [], ∅.
Qed.
End Blocks.

(** The states of the cache a table uses; [None] once a shard has more entries
    than the arithmetic of its hash table supports. *)
Definition block_cache : Type := option { s : ShardedLRUCache Block | quiet s }.

Definition after {A} (q : option (A * ShardedLRUCache Block)) : (forall r s, q = Some (r, s) -> quiet s) -> option A * block_cache :=
  match q with
  | Some (r, s) => fun H => (Some r, Some (exist _ s (H r s eq_refl)))
  | None => fun _ => (None, None)
  end.

Lemma use_quiet s k : quiet (V := Block) s -> forall r s', use s k = Some (r, s') -> quiet s'.
Proof. intros Hq r s' E. destruct (use_ok s k Hq) as (r0 & s0 & E0 & Hq0 & _). congruence. Qed.

Definition put_within (s : ShardedLRUCache Block) (k : bytes) (b : Block) (ch : Z) : option (unit * ShardedLRUCache Block) :=
  if shard_size s k <? 2 ^ 31 - 1 then put s k b ch else None.

Lemma put_quiet s k b ch : quiet s -> forall r s', put_within s k b ch = Some (r, s') -> quiet s'.
Proof.
  intros Hq r s'. unfold put_within. destruct (Z.ltb_spec (shard_size s k) (2 ^ 31 - 1)); [|done]. intros E.
  destruct (put_ok s k b ch Hq) as (s0 & E0 & Hq0 & _); [lia|congruence].
Qed.

Lemma newid_quiet s : quiet (V := Block) s -> quiet (NewId s).2.
Proof. done. Qed.

#[export] Instance lru_block_cache : BlockCache := {|
  cache := block_cache;
  cache_Lookup q k :=
    match q with
    | Some (exist _ s H) => let (r, q') := after (use s k) (use_quiet s k H) in (mjoin r, q')
    | None => (None, None)
    end;
  cache_Insert q k b ch :=
    match q with
    | Some (exist _ s H) => (after (put_within s k b ch) (put_quiet s k b ch H)).2
    | None => None
    end;
  cache_NewId q :=
    match q with
    | Some (exist _ s H) => ((NewId s).1, Some (exist _ (NewId s).2 (newid_quiet s H)))
    | None => (0, None)
    end;
  may_hold q k b := match q with Some (exist _ s _) => shard_holds s k b | None => False end
|}.

Lemma after_Some {A} q H r s : q = Some (r, s) -> exists Hs, after (A := A) q H = (Some r, Some (exist _ s Hs)).
Proof. intros ->. cbn. by eexists. Qed.

Lemma after_None {A} q H : q = None -> after (A := A) q H = (None, None).
Proof. by intros ->. Qed.

#[export] Instance lru_block_cache_laws : BlockCacheLaws lru_block_cache.
Proof.
  split.
  - intros [[s H]|] k b; [|done]. cbn. destruct (use_ok s k H) as (r & s' & E & _ & Hr & _).
    destruct (after_Some _ (use_quiet s k H) r s' E) as [Hs ->]. cbn. apply Hr.
  - intros [[s H]|] k k' b; [|done]. cbn. destruct (use_ok s k H) as (r & s' & E & _ & _ & Hr).
    destruct (after_Some _ (use_quiet s k H) r s' E) as [Hs ->]. cbn. apply Hr.
  - intros [[s H]|] k b n k' b'; [|done]. cbn. destruct (Z.ltb_spec (shard_size s k) (2 ^ 31 - 1)) as [Hlt|Hge].
    + destruct (put_ok s k b n H Hlt) as (s' & E & _ & Hr). assert (E' : put_within s k b n = Some (tt, s')).
      { unfold put_within. by rewrite (proj2 (Z.ltb_lt _ _) Hlt). }
      destruct (after_Some _ (put_quiet s k b n H) tt s' E') as [Hs ->]. cbn. apply Hr.
    + rewrite after_None; [done|]. unfold put_within. by rewrite (proj2 (Z.ltb_ge _ _) Hge).
  - by intros [[s H]|] k b.
Qed.

(** ** Properties *)

(** C36. The cache behind [NewLRUCache] is a map that may forget.  From an empty
    cache of any capacity, under any history of calls of a client that releases
    only handles it holds: every call returns; a lookup misses or answers the
    handle stored last under the key and not erased since; handles and ids are
    never given out twice; and every handle still held, even of an entry
    evicted, replaced or erased meanwhile, shows the value it was inserted
    with. *)
Theorem sharded_cache_is_lossy_map {V : Type} (capacity : Z) (os : list (@op V)) : zlen os < 2 ^ 31 ->
  exists s0 s w, make capacity = Some s0 /\ checked_run s0 lossy_new os = Some (s, w) /\
    forall p, p ∈ holds w -> exists k v, entries w !! p = Some (k, v) /\ Value s p = Some v.
Proof.
  intros Hn. destruct (sharded_make_ok (V := V) capacity) as (s0 & Hs0 & Hok0). destruct (checked_run_ok os 0 s0 lossy_new Hok0) as (s & w & Hrun & Hok); [lia|].
  exists s0, s, w. split_and!; [done|done|]. intros p Hp. destruct (deref_held _ s w p Hok Hp) as (c & lv & h & _ & _ & Hd & He & _).
  exists (key h), (value h). split; [done|]. unfold Value. by rewrite Hd.
Qed.

(** Capacity 16: one unit per shard.  The second entry of a key replaces the
    first, whose handle stays readable. *)
Definition sample_calls : list (@op Z) :=
  [ONewId; OInsert [97] 1 1; OInsert [97] 2 1; OLookup [97]; OErase [97]; OLookup [97]; OInsert [98] 3 1; OPrune; ONewId].

Lemma sharded_cache_is_lossy_map_witness :
  exists s0 s w, make 16 = Some s0 /\ checked_run s0 lossy_new sample_calls = Some (s, w) /\ length (holds w) = 4%nat /\
    forall p, p ∈ holds w -> is_Some (Value s p).
Proof.
  destruct (sharded_cache_is_lossy_map 16 sample_calls ltac:(reflexivity)) as (s0 & s & w & Hnew & Hrun & Hheld).
  exists s0, s, w. split; [exact Hnew|]. split; [exact Hrun|]. split.
  - vm_compute in Hnew. injection Hnew as <-. vm_compute in Hrun. injection Hrun as <- <-. reflexivity.
  - intros p Hp. destruct (Hheld p Hp) as (k & v & _ & ->). by eexists.
Defined.
End Sharded.
