(* ===== verification/TableOpen.v ===== *)
(** * TableOpen: a built table opens

    The file written by TableBuilder, read back by the operations of Table:
    footer, index block, metaindex and filters. *)
From S2P Require Import Prelude Coding Crc32c Status Comparator TableFormat Block Iterators.
From S2P Require Import FilterBlock TableFilters TableBuilder Table.
Import TableBuilder.

(** ** Blocks on disk *)

Lemma Add_bytes_ok interval b kv : bytes_ok (b_buffer b) -> kv_ok kv ->
  bytes_ok (b_buffer (Builder.Add interval b kv.1 kv.2)).
Proof.
  intros Hb (Hk & Hv & _). unfold Builder.Add. destruct (if _ <? _ then _ else _) as [[sh rst] ct]. simpl.
  unfold PutVarint32. rewrite !bytes_ok_app. split_and!; try done; try apply EncodeVarint32_ok; try apply u32_range.
  by apply bytes_ok_drop.
Qed.

Lemma build_block_ok interval kvs : Forall kv_ok kvs -> bytes_ok (build_block interval kvs).
Proof.
  intros Hkv. rewrite Finish_eq by apply add_all_open. rewrite !bytes_ok_app. split_and!.
  - induction kvs as [|kv kvs IH] using rev_ind; [constructor|].
    apply Forall_app in Hkv as [Hkv Hk]. apply Forall_cons in Hk as [Hk _]. rewrite add_all_snoc.
    by apply Add_bytes_ok; [apply IH|].
  - apply Forall_concat, Forall_fmap, Forall_true. intros x. apply EncodeFixed32_ok.
  - apply EncodeFixed32_ok.
Qed.

Section OnDisk.
Context `{!Crc32c, !Snappy} (opt : Options).

Lemma choose_bytes_ok raw : bytes_ok raw -> bytes_ok (choose_contents (compression opt) raw).1.
Proof.
  intros Hr. unfold choose_contents. destruct (compression opt); [done|].
  destruct (Snappy_Compress raw) as [c|] eqn:Hc; [|done]. case_match; [|done]. by eapply snappy_ok.
Qed.

(** A block is read back as what was given to [WriteBlock]. *)
Lemma ReadBlock_block f verify off raw :
  bytes_ok raw -> zlen raw + 5 < 2 ^ 64 -> holds f off (block_stored opt raw) ->
  ReadBlock f false verify (block_handle opt off raw) = (Status_OK, MkContents raw true true, f).
Proof.
  intros Hr Hl Hh. pose proof (choose_contents_length opt raw) as Hle. pose proof (choose_bytes_ok raw Hr) as Hc.
  unfold block_stored in Hh. unfold block_handle.
  destruct (choose_contents (compression opt) raw) as [c t] eqn:Hch. simpl in *.
  rewrite (ReadBlock_stored f false verify c t off) by (done || unfold kBlockTrailerSize; lia).
  f_equal. unfold choose_contents in Hch. destruct (compression opt).
  { injection Hch as <- <-. apply block_payload_plain. }
  destruct (Snappy_Compress raw) as [c'|] eqn:Hs; [|injection Hch as <- <-; apply block_payload_plain].
  destruct (_ <? _); injection Hch as <- <-; [|apply block_payload_plain]. by apply block_payload_snappy.
Qed.

Lemma block_handle_ok off raw : 0 <= off < 2 ^ 64 -> zlen raw < 2 ^ 64 -> handle_ok (block_handle opt off raw).
Proof.
  intros Ho Hr. split; [done|]. simpl. pose proof (choose_contents_length opt raw).
  pose proof (zlen_nonneg (choose_contents (compression opt) raw).1). lia.
Qed.
End OnDisk.

(** ** The keys of the metaindex *)

Lemma offsets_key_digit i : (i < 10)%nat ->
  offsets_key i = str "filter." ++ 48 :: str "offsets" ++ (48 + Z.of_nat i) :: str "filter.offset".
Proof. intros Hi. do 10 (destruct i as [|i]; [reflexivity|]). lia. Qed.

Lemma offsets_key_ok i : bytes_ok (offsets_key i).
Proof. unfold offsets_key. rewrite !bytes_ok_app. split_and!; apply str_ok. Qed.

Lemma offsets_key_lt i j : (i < j)%nat -> (j < 10)%nat -> lex (offsets_key i) (offsets_key j) < 0.
Proof.
  intros Hij Hj. rewrite !offsets_key_digit by lia. rewrite !app_comm_cons, !app_assoc. apply lex_app_lt. lia.
Qed.

Lemma offsets_key_filter i id name : (i < 10)%nat -> 49 <= id -> lex (offsets_key i) (filter_key id name) < 0.
Proof. intros Hi Hid. rewrite offsets_key_digit by lia. unfold filter_key. change ([id] ++ name) with (id :: name).
  apply lex_app_lt. lia. Qed.

Lemma filter_key_lt id id' name : id < id' -> lex (filter_key id name) (filter_key id' name) < 0.
Proof. intros. unfold filter_key. change ([id] ++ name) with (id :: name). change ([id'] ++ name) with (id' :: name).
  by apply lex_app_lt. Qed.

Lemma filter_key_ok id name : is_byte id -> bytes_ok name -> bytes_ok (filter_key id name).
Proof. intros Hid Hn. unfold filter_key. rewrite !bytes_ok_app. split_and!; [apply str_ok|by apply Forall_singleton|done]. Qed.

Lemma kOffsets_first i : (i < 10)%nat ->
  lex (offsets_key i) Table.kOffsets >= 0 /\ starts_with (offsets_key i) Table.kOffsets = true.
Proof. intros Hi. do 10 (destruct i as [|i]; [split; vm_compute; done|]). lia. Qed.

Section MetaKeys.
Context {P : FilterPolicy} (b : FilterBlockBuilder) (rest : list Z).

(** The entries of an array of sizes, one step at a time. *)
Lemma offset_entries_step i x bs : x <> 0 ->
  offset_entries b i ((x :: bs) ++ 0 :: rest) =
    if match bs with [] => false | y :: _ => negb (y =? 0) && (x =? y) end
    then offset_entries b (S i) (bs ++ 0 :: rest)
    else (offsets_key i, default [] (getOffsets b i)) :: offset_entries b (S i) (bs ++ 0 :: rest).
Proof.
  intros Hx. destruct bs as [|y bs]; cbn [app offset_entries]; by rewrite (proj2 (Z.eqb_neq x 0) Hx).
Qed.

Lemma offset_entries_end i : offset_entries b i (0 :: rest) = [].
Proof. by destruct rest. Qed.

Lemma offset_entries_in kv bs : Forall (fun x => x <> 0) bs -> forall i, kv ∈ offset_entries b i (bs ++ 0 :: rest) ->
  exists j, (i <= j < i + length bs)%nat /\ kv = (offsets_key j, default [] (getOffsets b j)).
Proof.
  induction 1 as [|x bs Hx Hbs IH]; intros i Hkv; [simpl app in Hkv; rewrite offset_entries_end in Hkv; by apply not_elem_of_nil in Hkv|].
  rewrite offset_entries_step in Hkv by done. simpl.
  assert (Hnext : kv ∈ offset_entries b (S i) (bs ++ 0 :: rest) -> exists j, (i <= j < i + S (length bs))%nat /\
    kv = (offsets_key j, default [] (getOffsets b j))).
  { intros Hin. destruct (IH (S i) Hin) as (j & Hj & ->). exists j. split; [lia|done]. }
  case_match; [by apply Hnext|]. apply elem_of_cons in Hkv as [->|Hkv]; [|by apply Hnext].
  exists i. split; [lia|done].
Qed.

Lemma offset_entries_length bs : forall i, (length (offset_entries b i (bs ++ 0%Z :: rest)) <= length bs)%nat.
Proof.
  induction bs as [|x bs IH]; intros i; [simpl app; by rewrite offset_entries_end|].
  specialize (IH (S i)). destruct bs as [|y bs]; cbn [app offset_entries] in *; repeat case_match; simpl in *; lia.
Qed.

Lemma offset_entries_sorted bs : Forall (fun x => x <> 0) bs -> forall i, (i + length bs <= 10)%nat ->
  sorted_kvs (offset_entries b i (bs ++ 0 :: rest)).
Proof.
  induction 1 as [|x bs Hx Hbs IH]; intros i Hi; [simpl app; rewrite offset_entries_end; apply sorted_kvs_nil|].
  rewrite offset_entries_step by done. simpl in Hi.
  assert (Hs : sorted_kvs (offset_entries b (S i) (bs ++ 0 :: rest))) by (apply IH; lia).
  case_match; [done|]. apply sorted_kvs_cons; [apply offsets_key_ok|done|].
  intros kv' (j & Hj & ->)%offset_entries_in; [|done]. simpl.
  unfold Bytewise.compare. rewrite Slice_compare_lex. apply offsets_key_lt; lia.
Qed.

Lemma handle_entries_in kv name hs : forall id, kv ∈ handle_entries id name hs ->
  exists id' h, id <= id' < id + zlen hs /\ h ∈ hs /\ kv = (filter_key id' name, handle_bytes h).
Proof.
  induction hs as [|h hs IH]; intros id Hkv; [by apply not_elem_of_nil in Hkv|].
  rewrite zlen_cons. pose proof (zlen_nonneg hs). cbn [handle_entries] in Hkv.
  apply elem_of_cons in Hkv as [->|Hkv].
  - exists id, h. split_and!; [lia|lia|by left|done].
  - destruct (IH (id + 1) Hkv) as (id' & h' & Hid & Hh & ->). exists id', h'. split_and!; [lia|lia|by right|done].
Qed.

Lemma handle_entries_sorted name hs : bytes_ok name -> forall id, 0 <= id -> id + zlen hs <= 256 ->
  sorted_kvs (handle_entries id name hs).
Proof.
  intros Hn. induction hs as [|h hs IH]; intros id Hid Hl; [apply sorted_kvs_nil|].
  rewrite zlen_cons in Hl. pose proof (zlen_nonneg hs). cbn [handle_entries].
  apply sorted_kvs_cons; [apply filter_key_ok; [unfold is_byte; lia|done]|apply IH; lia|].
  intros kv' (id' & h' & Hid' & _ & ->)%handle_entries_in. simpl.
  unfold Bytewise.compare. rewrite Slice_compare_lex. apply filter_key_lt. lia.
Qed.

Lemma zlen_handle_entries name hs id : zlen (handle_entries id name hs) = zlen hs.
Proof. unfold zlen. f_equal. revert id. induction hs; intros; simpl; auto. Qed.

Lemma handle_entries_values name hs : forall id, snd <$> handle_entries id name hs = handle_bytes <$> hs.
Proof. induction hs as [|h hs IH]; intros id; [done|]. cbn [handle_entries fmap list_fmap]. f_equal. apply IH. Qed.

Lemma meta_sorted bs name hs :
  Forall (fun x => x <> 0) bs -> (length bs <= 10)%nat -> bytes_ok name -> zlen hs <= 16 ->
  sorted_kvs (offset_entries b 0 (bs ++ 0 :: rest) ++ handle_entries 49 name hs).
Proof.
  intros Hbs Hl Hn Hh. apply sorted_kvs_app.
  - by apply offset_entries_sorted.
  - apply handle_entries_sorted; [done|lia|lia].
  - intros kv kv' (j & Hj & ->)%offset_entries_in (id & h & Hid & _ & ->)%handle_entries_in; [|done]. simpl.
    unfold Bytewise.compare. rewrite Slice_compare_lex. apply offsets_key_filter; lia.
Qed.
End MetaKeys.

(** ** Reading the metaindex *)

Lemma add_all_count interval kvs : (length kvs <= length (b_buffer (add_all interval kvs)))%nat.
Proof.
  induction kvs as [|kv kvs IH] using rev_ind; [simpl; lia|]. rewrite add_all_snoc, length_app.
  unfold Builder.Add. destruct (if _ <? _ then _ else _) as [[sh rst] ct]. simpl. unfold PutVarint32.
  rewrite !length_app. pose proof (EncodeVarint32_length (u32 (Z.of_nat sh)) (u32_range _)). lia.
Qed.

Lemma build_block_count interval kvs : (length kvs <= length (build_block interval kvs))%nat.
Proof.
  rewrite Finish_eq by apply add_all_open. rewrite length_app. pose proof (add_all_count interval kvs). lia.
Qed.

Section CursorRead.
Context {C : Comparator} (interval : Z) (kvs : list (bytes * bytes)).
Context (Hcur : cursor_over kvs (bi_at interval kvs)).

(** What a block's iterator shows at a position, and its moves. *)
Lemma bi_at_entry it p k v rest : bi_at interval kvs it p -> drop p kvs = (k, v) :: rest ->
  bi_Valid it = true /\ bi_key it = k /\ bi_value it = v /\
  exists it', bi_step it OpNext = Some it' /\ bi_at interval kvs it' (S p) /\ drop (S p) kvs = rest.
Proof.
  intros Hat Hd. assert (Hl : kvs !! p = Some (k, v)) by (by rewrite <- (Nat.add_0_r p), <- lookup_drop, Hd).
  destruct (cur_shows _ _ Hcur it p Hat) as [_ Hs]. rewrite Hl in Hs. simpl in Hs. destruct Hs as (Hv & Hk & Hval).
  apply lookup_lt_Some in Hl as Hlt. split_and!; [done..|].
  destruct (cur_step _ _ Hcur it p OpNext (S p) Hat I) as (it' & Hst & Hat').
  { simpl. by rewrite (proj2 (Nat.ltb_lt _ _) Hlt). }
  exists it'. split_and!; [done..|]. replace (S p) with (p + 1)%nat by lia. by rewrite <- drop_drop, Hd.
Qed.

Lemma bi_at_end it p : bi_at interval kvs it p -> drop p kvs = [] -> bi_Valid it = false.
Proof.
  intros Hat Hd. destruct (cur_shows _ _ Hcur it p Hat) as [_ Hs].
  rewrite (lookup_ge_None_2 kvs p) in Hs; [done|].
  apply (f_equal length) in Hd. rewrite length_drop in Hd. simpl in Hd. lia.
Qed.

Lemma bi_at_status it p : bi_at interval kvs it p -> bi_status it = Status_OK.
Proof. intros Hat. by destruct (cur_shows _ _ Hcur it p Hat) as [Hs _]. Qed.

Lemma bi_seek_at it p target : bi_at interval kvs it p -> valid_key target ->
  exists it', bi_step it (OpSeek target) = Some it' /\
    bi_at interval kvs it' (length (base.filter (fun kv => Compare kv.1 target < 0) kvs)).
Proof. intros Hat Ht. by apply (cur_step _ _ Hcur it p (OpSeek target)). Qed.

Lemma bi_last_at it p : bi_at interval kvs it p ->
  exists it', bi_step it OpLast = Some it' /\ bi_at interval kvs it' (length kvs - 1).
Proof. intros Hat. by apply (cur_step _ _ Hcur it p OpLast). Qed.
End CursorRead.

Lemma read_handles_ok interval kvs : cursor_over (H := BytewiseComparator) kvs (bi_at interval kvs) ->
  forall fuel it p, bi_at interval kvs it p -> (length kvs - p < fuel)%nat ->
  Table.read_handles fuel it = Some (snd <$> drop p kvs).
Proof.
  intros Hcur. induction fuel as [|fuel IH]; intros it p Hat Hf; [lia|]. cbn [Table.read_handles].
  destruct (drop p kvs) as [|[k v] rest] eqn:Hd.
  - by rewrite (bi_at_end interval kvs Hcur it p Hat Hd).
  - destruct (bi_at_entry interval kvs Hcur it p k v rest Hat Hd) as (-> & _ & -> & it' & -> & Hat' & Hd').
    cbn [mbind option_bind]. apply (f_equal length) in Hd. rewrite length_drop in Hd. simpl in Hd.
    rewrite (IH it' (S p) Hat') by lia. cbn [mbind option_bind]. by rewrite Hd'.
Qed.

Section MetaRead.
Context {P : FilterPolicy} (fb : FilterBlockBuilder) (outs : list (list bytes)) (bits rest : list Z).
Context (Hbits : bits_per_key_per_filter_ = bits ++ 0 :: rest) (Hlen : length bits = filterNums).
Context (Hnz : Forall (fun x => x <> 0) bits).
Context (Hres : forall i, (i < filterNums)%nat -> results_ fb !! i = Some (FilterBlock.filter_block i outs)).
Context (Hsz : forall i, (i < filterNums)%nat -> pos i (length outs) outs < 2 ^ 32).
Context (Hsame : Forall same_sizes outs).

(** Filters of the same size have the same offsets. *)
Lemma offset_table_same i j x : bits !! i = Some x -> bits !! j = Some x ->
  offset_table i outs = offset_table j outs.
Proof.
  intros Hi Hj. unfold offset_table. apply list_fmap_ext. intros _ k _. unfold pos.
  apply lookup_lt_Some in Hi as Hil. apply lookup_lt_Some in Hj as Hjl.
  assert (Heq : forall o, o ∈ outs -> length (nth i o []) = length (nth j o [])).
  { intros o Ho. rewrite Forall_forall in Hsame. apply (Hsame o Ho i j x); [lia|lia|..];
      rewrite Hbits, lookup_app_l; done. }
  clear -Heq. unfold zlen. f_equal. unfold column. revert k.
  induction outs as [|o os IH]; intros k; [by destruct k|]. destruct k as [|k]; [done|].
  cbn [fmap list_fmap take concat]. rewrite !length_app, IH, Heq; [done|by left|]. intros; apply Heq. by right.
Qed.

Lemma getOffsets_table i : (i < filterNums)%nat ->
  5 <= zlen (default [] (getOffsets fb i)) /\
  decode_offsets (default [] (getOffsets fb i)) = (kFilterBaseLg, offset_table i outs).
Proof.
  intros Hi. rewrite (getOffsets_ok fb i outs (Hres i Hi) (Hsz i Hi)).
  change (default [] (Some ?x)) with x. split.
  - rewrite zlen_app, zlen_concat_fixed. unfold zlen. rewrite length_offset_table. simpl. lia.
  - apply decode_offsets_ok. intros j Hj. pose proof (pos_mono i j (length outs) outs Hj). pose proof (Hsz i Hi). lia.
Qed.

(** The entry of a group is that of its last filter. *)
Lemma offset_entries_head x bs : forall pre, bits = pre ++ x :: bs ->
  exists e tl, offset_entries fb (length pre) ((x :: bs) ++ 0 :: rest) = (offsets_key e, default [] (getOffsets fb e)) :: tl /\
    bits !! e = Some x.
Proof.
  induction bs as [|y bs IH]; intros pre Hpre.
  - assert (Hx : x <> 0) by (rewrite Hpre in Hnz; by apply Forall_app in Hnz as [_ [? _]%Forall_cons]).
    rewrite offset_entries_step by done. exists (length pre). eexists. split; [done|].
    by rewrite Hpre, list_lookup_middle.
  - assert (Hx : x <> 0) by (rewrite Hpre in Hnz; by apply Forall_app in Hnz as [_ [? _]%Forall_cons]).
    rewrite offset_entries_step by done. destruct (negb (y =? 0) && (x =? y)) eqn:E.
    + apply andb_true_iff in E as [_ E%Z.eqb_eq]. subst y.
      destruct (IH (pre ++ [x])) as (e & tl & He & Hbe); [by rewrite <- app_assoc|].
      exists e, tl. split; [|done]. rewrite <- He. f_equal. rewrite length_app. simpl. lia.
    + exists (length pre). eexists. split; [done|]. by rewrite Hpre, list_lookup_middle.
Qed.

Context (interval : Z) (kvs hsuf : list (bytes * bytes)).
Context (Hcur : cursor_over (H := BytewiseComparator) kvs (bi_at interval kvs)).

Lemma read_offsets_ok bs : forall pre it p lg,
  bits = pre ++ bs -> bi_at interval kvs it p -> (0 < filterNums)%nat ->
  match bs with
  | [] => True
  | x :: _ => drop p kvs = (if bool_decide (last pre = Some x)
                            then tail (offset_entries fb (length pre) (bs ++ 0 :: rest))
                            else offset_entries fb (length pre) (bs ++ 0 :: rest)) ++ hsuf
  end ->
  (pre <> [] -> lg = kFilterBaseLg) ->
  Table.read_offsets (last pre) (bs ++ 0 :: rest) it lg ((fun i => offset_table i outs) <$> seq 0 (length pre))
  = Some (kFilterBaseLg, (fun i => offset_table i outs) <$> seq 0 filterNums).
Proof.
  induction bs as [|x bs IH]; intros pre it p lg Hpre Hat Hnum Hd Hlg.
  - simpl. rewrite app_nil_r in Hpre. subst pre. rewrite Hlen, Hlg; [done|]. intros E. rewrite E in Hlen. simpl in Hlen. lia.
  - assert (Hx : x <> 0) by (rewrite Hpre in Hnz; by apply Forall_app in Hnz as [_ [? _]%Forall_cons]).
    assert (Hbx : bits !! length pre = Some x) by (by rewrite Hpre, list_lookup_middle).
    assert (Hpl : (length pre < filterNums)%nat) by (apply lookup_lt_Some in Hbx; lia).
    assert (Hpush : ((fun i => offset_table i outs) <$> seq 0 (length pre)) ++ [offset_table (length pre) outs]
        = (fun i => offset_table i outs) <$> seq 0 (length (pre ++ [x]))).
    { rewrite length_app. simpl length. rewrite seq_app, fmap_app. done. }
    assert (Hnext : forall it' p' lg', bi_at interval kvs it' p' -> lg' = kFilterBaseLg ->
      drop p' kvs = tail (offset_entries fb (length pre) ((x :: bs) ++ 0 :: rest)) ++ hsuf ->
      Table.read_offsets (Some x) (bs ++ 0 :: rest) it' lg'
        (((fun i => offset_table i outs) <$> seq 0 (length pre)) ++ [offset_table (length pre) outs])
      = Some (kFilterBaseLg, (fun i => offset_table i outs) <$> seq 0 filterNums)).
    { intros it' p' lg' Hat' -> Hd'. rewrite Hpush, <- (last_snoc x pre).
      apply (IH (pre ++ [x]) it' p'); try done; [by rewrite <- app_assoc|].
      destruct bs as [|y bs]; [done|]. rewrite last_snoc, Hd'. f_equal. rewrite offset_entries_step by done.
      assert (Hy : y <> 0) by (rewrite Hpre in Hnz; by apply Forall_app in Hnz as [_ [_ [? _]%Forall_cons]%Forall_cons]).
      rewrite (proj2 (Z.eqb_neq y 0) Hy). simpl negb. cbn [andb].
      replace (length (pre ++ [x])) with (S (length pre)) by (rewrite length_app; simpl; lia).
      destruct (Z.eqb_spec x y) as [->|Hne].
      - by rewrite bool_decide_eq_true_2.
      - rewrite bool_decide_eq_false_2 by congruence. done. }
    cbn [app Table.read_offsets]. rewrite (proj2 (Z.eqb_neq x 0) Hx).
    case_bool_decide as Hl.
    + destruct pre as [|z pre] using rev_ind; [done|]. clear IHpre. rewrite last_snoc in Hl. injection Hl as ->.
      assert (Hlast : last ((fun i => offset_table i outs) <$> seq 0 (length (pre ++ [x])))
          = Some (offset_table (length (pre ++ [x])) outs)).
      { rewrite length_app. simpl length. rewrite seq_app, fmap_app, last_app. simpl. f_equal.
        apply (offset_table_same _ _ x).
        - rewrite Hpre, <- app_assoc. by apply list_lookup_middle.
        - replace (length pre + 1)%nat with (length (pre ++ [x])) by (rewrite length_app; done). done. }
      rewrite Hlast. cbn [mbind option_bind]. apply (Hnext it p lg Hat); [|done]. apply Hlg. by destruct pre.
    + destruct (offset_entries_head x bs pre Hpre) as (e & tl & He & Hbe). rewrite He in Hd, Hnext. cbn [app] in Hd.
      destruct (bi_at_entry interval kvs Hcur it p _ _ _ Hat Hd) as (-> & _ & -> & it' & -> & Hat' & Hd').
      apply lookup_lt_Some in Hbe as Hel. destruct (getOffsets_table e ltac:(lia)) as [H5 ->].
      rewrite (proj2 (Z.leb_le _ _) H5). cbn [andb mbind option_bind].
      rewrite (offset_table_same e (length pre) x Hbe Hbx). by apply (Hnext it' (S p)).
Qed.
End MetaRead.

(** ** Loading the first filters of all regions *)

Section LoadFilters.
Context {P : FilterPolicy} (outs : list (list bytes)) (RF regions : nat) (hs : list BlockHandle).
Context (f : RandomAccessFile) (Hw : written outs RF regions hs f).

Abbreviation loaded := (TableFilters.loaded outs RF regions).
Abbreviation table_ok := (TableFilters.table_ok outs RF regions hs f).

(** Regions [0 .. a - 1] have [i + 1] filters, the others [i]. *)
Definition counts_at (a i : nat) : list Z :=
  replicate a (Z.of_nat i + 1) ++ replicate (regions - a) (Z.of_nat i).

Lemma counts_at_0 i : counts_at 0 i = replicate regions (Z.of_nat i).
Proof. unfold counts_at. simpl. by rewrite Nat.sub_0_r. Qed.

Lemma counts_at_all i : counts_at regions i = replicate regions (Z.of_nat (S i)).
Proof. unfold counts_at. rewrite Nat.sub_diag. simpl. rewrite app_nil_r. f_equal. lia. Qed.

Lemma counts_at_lookup a i : (a < regions)%nat -> counts_at a i !! a = Some (Z.of_nat i).
Proof.
  intros Ha. unfold counts_at. rewrite lookup_app_r by (rewrite length_replicate; lia).
  rewrite length_replicate, Nat.sub_diag. by apply lookup_replicate_2; lia.
Qed.

Lemma counts_at_insert a i : (a < regions)%nat -> <[a := Z.of_nat i + 1]> (counts_at a i) = counts_at (S a) i.
Proof.
  intros Ha. unfold counts_at. rewrite insert_app_r_alt by (rewrite length_replicate; lia).
  rewrite length_replicate, Nat.sub_diag. replace (regions - a)%nat with (S (regions - S a)) by lia.
  rewrite (replicate_S_end a), <- app_assoc. done.
Qed.

Lemma counts_alter a i : (a < regions)%nat -> alter (fun n => n + 1) a (counts_at a i) = counts_at (S a) i.
Proof.
  intros Ha. rewrite <- counts_at_insert by done. apply list_eq. intros k. destruct (decide (k = a)) as [->|].
  - rewrite list_lookup_alter_eq, counts_at_lookup by done. rewrite list_lookup_insert_eq; [done|].
    unfold counts_at. rewrite length_app, !length_replicate. lia.
  - by rewrite list_lookup_alter_ne, list_lookup_insert_ne by done.
Qed.

Lemma loaded_counts a i : (a < regions)%nat ->
  alter (fun region => region ++ [region_data RF regions outs a i]) a (loaded (counts_at a i)) = loaded (counts_at (S a) i).
Proof.
  intros Ha. rewrite <- counts_at_insert by done.
  rewrite <- (loaded_alter outs RF regions (counts_at a i) a (Z.of_nat i)) by (try apply counts_at_lookup; lia).
  by rewrite Nat2Z.id.
Qed.

(** The part of a filter block that belongs to a region. *)
Lemma region_part_of_block r i : (r * RF <= region_limit RF regions outs r <= length outs)%nat ->
  sub_bytes (FilterBlock.filter_block i outs) (Z.to_nat (pos i (r * RF) outs))
    (Z.to_nat (pos i (region_limit RF regions outs r) outs - pos i (r * RF) outs)) = region_data RF regions outs r i.
Proof.
  intros Hb. unfold region_data, sub_bytes, FilterBlock.filter_block.
  pose proof (pos_mono i _ _ outs (proj1 Hb)). pose proof (pos_mono i _ _ outs (proj2 Hb)) as Hle.
  pose proof (pos_nonneg i (r * RF) outs). rewrite pos_all in Hle. unfold zlen in *.
  rewrite drop_app_le by lia. apply take_app_le. rewrite length_drop. lia.
Qed.

Lemma push_regions_ok t0 counts i : table_ok t0 counts -> (i < filterNums)%nat -> forall m a,
  (a + m = regions)%nat ->
  Table.push_regions (set_filter t0 (filter t0) (loaded (counts_at a i))) (FilterBlock.filter_block i outs)
    (offset_table i outs) (seq a m)
  = Some (set_filter t0 (filter t0) (loaded (counts_at regions i))).
Proof.
  intros Ht Hi. induction m as [|m IH]; intros a Ha; [by replace a with regions by lia|].
  cbn [seq Table.push_regions].
  change (region_extent (set_filter t0 _ _) ?o ?r) with (region_extent t0 o r).
  destruct (region_extent_ok outs RF regions hs f Hw t0 counts i a Ht Hi ltac:(lia)) as [-> Hb].
  cbn [mbind option_bind filter_datas set_filter].
  destruct (lookup_lt_is_Some_2 (loaded (counts_at a i)) a) as [x Hx].
  { rewrite loaded_length. unfold counts_at. rewrite length_app, !length_replicate. lia. }
  rewrite Hx. cbn [mbind option_bind]. rewrite region_part_of_block, loaded_counts by (done || lia).
  apply (IH (S a)). lia.
Qed.

Lemma add_regions_ok t i : filter_datas t = loaded (counts_at regions i) -> forall m a rd,
  (a + m = regions)%nat -> datas_ rd = loaded (counts_at a i) ->
  curr_num_of_filters_regions_ rd = counts_at a i ->
  Table.add_regions t rd i (seq a m)
  = Some (MkFilterReader (loaded (counts_at regions i)) (counts_at regions i) (num_ rd) (num_regions rd)
            (regionFilters rd) (filter_offsets rd) (base_lg_ rd)).
Proof.
  intros Hd. induction m as [|m IH]; intros a rd Ha Hds Hcs.
  - assert (a = regions) as -> by lia. rewrite <- Hds, <- Hcs. by destruct rd.
  - cbn [seq Table.add_regions]. rewrite Hd. unfold TableFilters.loaded at 1. rewrite list_lookup_imap.
    rewrite counts_at_all at 1. rewrite lookup_replicate_2 by lia. cbn [fmap option_fmap option_map mbind option_bind].
    rewrite list_lookup_fmap, lookup_seq_lt by lia. cbn [fmap option_fmap option_map mbind option_bind].
    rewrite (IH (S a)); [done|lia|..]; unfold AddFilter; cbn [datas_ curr_num_of_filters_regions_].
    + rewrite Hds. apply loaded_counts. lia.
    + rewrite Hcs. apply counts_alter. lia.
Qed.

Lemma load_filters_ok k : forall i t charge, table_ok t (replicate regions (Z.of_nat i)) ->
  (i + k <= filterNums)%nat ->
  exists t' charge', Table.load_filters t charge i
      ((fun j => MkContents (FilterBlock.filter_block j outs) true true) <$> seq i k) = Some (t', charge') /\
    table_ok t' (replicate regions (Z.of_nat (i + k))) /\ length charge' = length charge /\
    (filter t <> None \/ (0 < k)%nat -> filter t' <> None).
Proof.
  induction k as [|k IH]; intros i t charge Ht Hk.
  - exists t, charge. rewrite Nat.add_0_r. split_and!; [done..|]. by intros [?|?]; [|lia].
  - cbn [seq fmap list_fmap Table.load_filters heap_allocated data].
    rewrite (table_at outs RF regions hs f t _ i Ht) by lia. cbn [mbind option_bind].
    destruct (wr_bits _ _ _ _ _ Hw i ltac:(lia)) as [bits ->]. cbn [mbind option_bind].
    rewrite (getRegionNum_ok outs RF regions hs f Hw t _ Ht), Nat2Z.id.
    assert (Ht0 : t = set_filter t (filter t) (loaded (counts_at 0 i))).
    { rewrite counts_at_0, <- (tk_datas _ _ _ _ _ _ _ Ht). by destruct t. }
    pose proof (push_regions_ok t _ i Ht ltac:(lia) regions 0 eq_refl) as Hpush.
    rewrite <- Ht0 in Hpush. rewrite Hpush. cbn [mbind option_bind].
    change (ensure_filter (set_filter t (filter t) ?d)) with (ensure_filter t).
    destruct (ensure_filter_ok outs RF regions hs f Hw t _ Ht) as (rd & -> & Ht1). cbn [mbind option_bind].
    pose proof Ht1 as [Ho Hlg Hdv Hh Hf Hcl Hrange Hd Hrd]. simpl in Hrd. destruct Hrd as (Hok & Hds & Hcur & Hnr).
    rewrite (add_regions_ok (set_filter t (filter t) (loaded (counts_at regions i))) i eq_refl regions 0 rd) by (rewrite ?counts_at_0; done). cbn [mbind option_bind].
    assert (Ht2 : table_ok (set_filter (set_filter t (filter t) (loaded (counts_at regions i)))
      (Some (MkFilterReader (loaded (counts_at regions i)) (counts_at regions i) (num_ rd) (num_regions rd)
            (regionFilters rd) (filter_offsets rd) (base_lg_ rd))) (loaded (counts_at regions i)))
      (replicate regions (Z.of_nat (S i)))).
    { rewrite counts_at_all. split; simpl; try done; [by rewrite length_replicate|apply Forall_replicate; lia|].
      destruct Hok as [? ? ? ? ? ? ?].
      split_and!; try done. apply (reader_of_counts _ _ _ _ (replicate regions (Z.of_nat (S i)))); simpl; try done;
        [by rewrite length_replicate|apply Forall_replicate; lia]. }
    destruct (IH (S i) _ ((fun c => u64 (c + bits)) <$> charge) Ht2 ltac:(lia)) as (t' & charge' & Hl & Ht' & Hc & Hsome).
    exists t', charge'. split_and!; [exact Hl| |by rewrite Hc, length_fmap|].
    + by replace (i + S k)%nat with (S i + k)%nat by lia.
    + intros _. apply Hsome. by left.
Qed.
End LoadFilters.

Lemma decode_handles_ok hs n : Forall handle_ok hs -> (n <= length hs)%nat ->
  Table.decode_handles (handle_bytes <$> hs) n = Some (Some (take n hs)).
Proof.
  intros Hok. revert n. induction Hok as [|h hs Hh _ IH]; intros [|n] Hn; try done; simpl in Hn; [lia|].
  cbn [fmap list_fmap Table.decode_handles take].
  rewrite <- (app_nil_r (handle_bytes h)), Handle_DecodeFrom_Encode by done. cbn [ok Status_OK].
  rewrite IH by lia. done.
Qed.

Section ReadFilters.
Context `{!Crc32c, !Snappy} {P : FilterPolicy} (outs : list (list bytes)) (RF regions : nat).
Context (f : RandomAccessFile) (off : Z) (results : list bytes).
Context (Hresults : results = (fun i => FilterBlock.filter_block i outs) <$> seq 0 filterNums).
Context (Hw : written outs RF regions (consecutive off ((., kNoCompression) <$> results)) f).
Context (Hholds : holds f off (filters_text results)) (Hsize : zlen (filters_text results) < 2 ^ 64).
Context (Hnum : (filterNums <= 32)%nat).

Lemma length_results : length results = filterNums.
Proof. by rewrite Hresults, length_fmap, length_seq. Qed.

Lemma first_results n : (n <= filterNums)%nat ->
  take n results = (fun i => FilterBlock.filter_block i outs) <$> seq 0 n.
Proof. intros Hn. rewrite Hresults, <- fmap_take, take_seq. by rewrite Nat.min_l by lia. Qed.

Lemma read_filter_blocks n : (0 < n <= filterNums)%nat ->
  ReadBlocks f false (take n (consecutive off ((., kNoCompression) <$> results)))
  = (Status_OK, (fun i => MkContents (FilterBlock.filter_block i outs) true true) <$> seq 0 n, f).
Proof.
  intros Hn. rewrite take_consecutive, <- fmap_take.
  assert (Htext : filters_text results = filters_text (take n results) ++ filters_text (drop n results)).
  { unfold filters_text. rewrite <- concat_app, <- fmap_app, take_drop. done. }
  assert (Hst : forall l, concat ((fun p => stored_block p.1 p.2) <$> ((., kNoCompression) <$> l)) = filters_text l)
    by (intros l; unfold filters_text; by rewrite <- list_fmap_compose).
  rewrite ReadBlocks_stored.
  - by rewrite read_each_plain, first_results, <- list_fmap_compose by lia.
  - unfold stored_total. rewrite Hst. rewrite Htext, zlen_app in Hsize.
    pose proof (zlen_nonneg (filters_text (drop n results))). lia.
  - intros E. apply (f_equal length) in E. rewrite length_fmap, length_take, length_results in E. simpl in E. lia.
  - rewrite Hst. rewrite Htext in Hholds. by apply holds_app in Hholds as [? _].
Qed.

(** The metadata that the builder hands over, or the file. *)
Lemma ReadFilters_ok t n meta :
  table_ok outs RF regions (consecutive off ((., kNoCompression) <$> results)) f t (replicate regions 0) ->
  0 < n <= Z.of_nat filterNums -> match meta with None => True | Some m => filter_data m = results end ->
  exists t' charge, Table.ReadFilters t n meta = Some (t', Some charge) /\ length charge = regions /\
    table_ok outs RF regions (consecutive off ((., kNoCompression) <$> results)) f t' (replicate regions n) /\
    filter t' <> None.
Proof.
  intros Ht Hn Hmeta. set (hs := consecutive off _) in *.
  assert (Hhs : Forall handle_ok hs).
  { apply Forall_lookup. intros i h Hh. by destruct (wr_blocks _ _ _ _ _ Hw i h Hh). }
  assert (Hlen : length hs = filterNums)
    by (unfold hs; by rewrite length_consecutive, length_fmap, length_results).
  unfold Table.ReadFilters. rewrite (proj2 (Z.ltb_ge _ _)) by lia.
  rewrite (tk_handles _ _ _ _ _ _ _ Ht), decode_handles_ok by (done || lia). cbn [mbind option_bind].
  assert (Hblocks : match meta with
      | Some m => if zlen (filter_data m) <? n then None
                  else Some (Some ((fun d => MkContents d true true) <$> take (Z.to_nat n) (filter_data m)), t)
      | None => let '(s, blocks, f) := ReadBlocks (t_file t) false (take (Z.to_nat n) hs) in
                Some (if ok s then Some blocks else None, set_file t f)
      end = Some (Some ((fun i => MkContents (FilterBlock.filter_block i outs) true true) <$> seq 0 (Z.to_nat n)), t)).
  { destruct meta as [m|].
    - rewrite Hmeta, (proj2 (Z.ltb_ge _ _)) by (unfold zlen; rewrite length_results; lia).
      by rewrite first_results, <- list_fmap_compose by lia.
    - rewrite (tk_file _ _ _ _ _ _ _ Ht), read_filter_blocks by lia. cbn [ok Status_OK].
      by rewrite (set_file_same _ _ _ _ _ _ _ Ht). }
  rewrite Hblocks. cbn [mbind option_bind].
  destruct (load_filters_ok outs RF regions hs f Hw (Z.to_nat n) 0 t (replicate (Z.to_nat (getRegionNum t)) 0) Ht)
    as (t' & charge & -> & Ht' & Hc & Hsome); [lia|].
  exists t', charge. cbn [mbind option_bind]. split_and!; [done| | |apply Hsome; right; lia].
  - rewrite Hc, length_replicate, (getRegionNum_ok _ _ _ _ _ Hw _ _ Ht). lia.
  - by replace n with (Z.of_nat (0 + Z.to_nat n)) by lia.
Qed.
End ReadFilters.

(** ** The file of a built table *)

Section Built.
Context `{!Crc32c, !Snappy} {C : Comparator} {L : ComparatorLaws C} {P : FilterPolicy} {PL : FilterPolicyLaws P}.
Context (opt : Options) (name : bytes) (groups : list (list (bytes * bytes))) (results : list bytes).
Context (fb : FilterBlockBuilder) (outs : list (list bytes)) (RF : Z).

Abbreviation text := (table_text opt groups results (Some fb)).
Abbreviation disk := (RFile text []).
Abbreviation data_end := (zlen (data_text opt groups)).

(** What is known of a file written by the builder, of the options and of the
    bounds within which the theorems hold. *)
Record built_table : Prop := {
  bt_policy : filter_policy opt = Some name;
  bt_name : bytes_ok name /\ zlen name < 2 ^ 20;
  bt_interval : 1 <= block_restart_interval opt;
  bt_kv : Forall kv_ok (concat groups);
  bt_sorted : sorted_kvs (concat groups);
  bt_some : groups <> [];
  bt_groups : Forall (fun g => g <> []) groups;
  bt_cost : data_cost (concat groups) < 2 ^ 31;
  bt_size : zlen text < 2 ^ 27;
  bt_nums : (0 < filterNums <= 10)%nat;
  bt_results : results = (fun i => FilterBlock.filter_block i outs) <$> seq 0 filterNums;
  bt_fb : results_ fb = results;
  bt_small : forall i, (i < filterNums)%nat -> pos i (length outs) outs < 2 ^ 32;
  bt_same : Forall same_sizes outs;
  bt_covers : covers (filter_input opt 0 groups []) outs;
  bt_outs : (0 < length outs)%nat;
  bt_regions : 0 < RF /\ opt_region_divide_size opt = RF * kFilterBase;
  bt_freq : 1 <= opt_kFilterBaseLg opt <= 31 /\ 0 < freq_divide_size opt < 2 ^ 62
}.

Context (Hbt : built_table).

Lemma text_split : text = data_text opt groups ++ filters_text results ++
  block_stored opt (table_meta opt groups results (Some fb)) ++ block_stored opt (index_raw opt groups) ++
  FooterCode.EncodeTo (table_footer opt groups results (Some fb)) [].
Proof. done. Qed.

(** All offsets are small. *)
Lemma text_bounds :
  0 <= data_end /\ 0 <= zlen (filters_text results) /\
  0 <= zlen (block_stored opt (table_meta opt groups results (Some fb))) /\
  0 <= zlen (block_stored opt (index_raw opt groups)) /\
  data_end + zlen (filters_text results) + zlen (block_stored opt (table_meta opt groups results (Some fb))) +
    zlen (block_stored opt (index_raw opt groups)) +
    zlen (FooterCode.EncodeTo (table_footer opt groups results (Some fb)) []) < 2 ^ 27.
Proof.
  pose proof (bt_size Hbt) as Hs. rewrite text_split in Hs. rewrite !zlen_app in Hs.
  repeat split; try apply zlen_nonneg. lia.
Qed.

Lemma holds_all off pre d post : text = pre ++ d ++ post -> zlen pre = off -> holds disk off d.
Proof.
  intros Ht <-. split; [apply zlen_nonneg|]. split; [done|]. exists pre, post. by rewrite <- Ht.
Qed.

Lemma holds_filters : holds disk data_end (filters_text results).
Proof. by eapply holds_all; [apply text_split|]. Qed.

Lemma holds_meta : holds disk (meta_offset opt groups results)
  (block_stored opt (table_meta opt groups results (Some fb))).
Proof.
  eapply (holds_all _ (data_text opt groups ++ filters_text results)).
  - rewrite text_split, <- !app_assoc. done.
  - by rewrite zlen_app.
Qed.

Lemma holds_index : holds disk (index_offset opt groups results (Some fb)) (block_stored opt (index_raw opt groups)).
Proof.
  eapply (holds_all _ ((data_text opt groups ++ filters_text results) ++
    block_stored opt (table_meta opt groups results (Some fb)))).
  - rewrite text_split, <- !app_assoc. done.
  - by rewrite !zlen_app.
Qed.

(** The data block at a position. *)
Lemma holds_data gs g rest : groups = gs ++ g :: rest ->
  holds disk (zlen (data_text opt gs)) (block_stored opt (data_raw opt g)).
Proof.
  intros Hg. eapply (holds_all _ (data_text opt gs)); [|done].
  rewrite text_split. unfold data_text at 1. rewrite Hg, fmap_app, concat_app. cbn [fmap list_fmap concat].
  rewrite <- !app_assoc. done.
Qed.

Lemma filters_consecutive :
  filter_handles_at data_end results = consecutive data_end ((., kNoCompression) <$> results).
Proof.
  unfold filter_handles_at. pose proof text_bounds as (Hoff & Hfl & Hm & Hi & Hb).
  assert (Hsmall : data_end + zlen (filters_text results) < 2 ^ 64)
    by (pose proof (zlen_nonneg (FooterCode.EncodeTo (table_footer opt groups results (Some fb)) [])); lia).
  clear Hb Hbt Hfl Hm Hi. generalize dependent data_end. intros off Hoff Hsmall.
  revert off Hoff Hsmall. induction results as [|c rs IH]; intros off Hoff Hs; [done|].
  unfold filters_text in Hs. cbn [fmap list_fmap concat] in Hs. rewrite zlen_app in Hs.
  pose proof (zlen_nonneg (stored_block c kNoCompression)).
  pose proof (zlen_nonneg (concat ((fun c : bytes => stored_block c kNoCompression) <$> rs))).
  cbn [fmap list_fmap consecutive]. f_equal.
  - unfold wrap_handle. simpl. rewrite u64_small by lia. done.
  - cbn [fst]. rewrite <- stored_block_length with (t := kNoCompression). apply IH; [lia|]. unfold filters_text. lia.
Qed.

(** *** Filters *)

Definition regions : nat :=
  Z.to_nat ((zlen outs * kFilterBase + RF * kFilterBase - 1) / (RF * kFilterBase)).

Abbreviation handles := (consecutive data_end ((., kNoCompression) <$> results)).

Lemma results_length : length results = filterNums.
Proof. by rewrite (bt_results Hbt), length_fmap, length_seq. Qed.

Lemma regions_bounds : Z.of_nat regions * RF < zlen outs + RF /\ zlen outs <= Z.of_nat regions * RF /\ (0 < regions)%nat.
Proof.
  destruct (bt_regions Hbt) as [HRF _]. pose proof (bt_outs Hbt) as Ho.
  assert (Ho' : 1 <= zlen outs) by (unfold zlen; lia). unfold regions. change kFilterBase with 65536.
  set (q := (zlen outs * 65536 + RF * 65536 - 1) / (RF * 65536)).
  pose proof (Z.div_mod (zlen outs * 65536 + RF * 65536 - 1) (RF * 65536) ltac:(lia)) as Hdm. fold q in Hdm.
  pose proof (Z.mod_pos_bound (zlen outs * 65536 + RF * 65536 - 1) (RF * 65536) ltac:(lia)).
  assert (0 < q) by nia. rewrite Z2Nat.id by lia. nia.
Qed.

Lemma table_written : written outs (Z.to_nat RF) regions handles disk.
Proof.
  destruct (bt_regions Hbt) as [HRF _]. pose proof regions_bounds as (Hr1 & Hr2 & Hr3).
  pose proof text_bounds as (Hde & Hfl & Hm & Hi & Hb). pose proof (bt_nums Hbt) as Hn.
  assert (Hfoot := zlen_nonneg (FooterCode.EncodeTo (table_footer opt groups results (Some fb)) [])).
  split; try done; [lia| |exact (bt_small Hbt)| | |].
  - unfold regions_cover, zlen in *. nia.
  - by rewrite length_consecutive, length_fmap, results_length.
  - intros i h Hh. apply lookup_lt_Some in Hh as Hil. rewrite length_consecutive, length_fmap in Hil.
    destruct (lookup_lt_is_Some_2 results i Hil) as [c Hc].
    assert (Hc' : c = FilterBlock.filter_block i outs).
    { rewrite (bt_results Hbt), list_lookup_fmap, lookup_seq_lt in Hc by (rewrite results_length in Hil; lia).
      by injection Hc as <-. }
    rewrite (consecutive_lookup _ data_end i (c, kNoCompression)) in Hh by (by rewrite list_lookup_fmap, Hc).
    injection Hh as <-. cbn [offset size fst].
    assert (Hsplit : filters_text results
      = filters_text (take i results) ++ c ++ (block_trailer c kNoCompression ++ filters_text (drop (S i) results))).
    { unfold filters_text. rewrite <- (take_drop_middle results i c Hc) at 1. rewrite fmap_app, concat_app.
      cbn [fmap list_fmap concat]. unfold stored_block at 2. by rewrite <- !app_assoc. }
    assert (Hst : stored_total (take i ((., kNoCompression) <$> results)) = zlen (filters_text (take i results))).
    { unfold stored_total, filters_text. rewrite <- fmap_take, <- list_fmap_compose. done. }
    pose proof Hsplit as Hz. apply (f_equal zlen) in Hz. rewrite !zlen_app in Hz.
    pose proof (zlen_nonneg (filters_text (take i results))). pose proof (zlen_nonneg c).
    pose proof (zlen_nonneg (block_trailer c kNoCompression)).
    pose proof (zlen_nonneg (filters_text (drop (S i) results))).
    rewrite Hst. split_and!; try (split; simpl; lia); try lia.
    rewrite <- Hc'. pose proof holds_filters as Hf. revert Hf. generalize disk. intros d Hf. rewrite Hsplit in Hf.
    apply holds_app in Hf as [_ Hf]. by apply holds_app in Hf as [Hf _].
  - intros i Hi'. destruct bits_end as (bits & rest & -> & Hlen & _).
    apply lookup_lt_is_Some_2. rewrite length_app. simpl. lia.
Qed.

(** *** The metaindex block *)

Abbreviation metas := (meta_entries (Some fb) name handles).

Lemma data_cost_bound (l : list (bytes * bytes)) B :
  (forall kv, kv ∈ l -> entry_cost kv <= B) -> data_cost l <= zlen l * B.
Proof.
  induction l as [|kv l IH]; intros Hall; [done|]. rewrite zlen_cons. cbn [data_cost foldr].
  pose proof (Hall kv ltac:(left)). fold (data_cost l). specialize (IH ltac:(intros; apply Hall; by right)). nia.
Qed.

Lemma handles_ok : Forall handle_ok handles.
Proof. apply Forall_lookup. intros i h Hh. by destruct (wr_blocks _ _ _ _ _ table_written i h Hh). Qed.

Lemma offset_value_size i : (i < filterNums)%nat ->
  bytes_ok (default [] (getOffsets fb i)) /\ zlen (default [] (getOffsets fb i)) < 2 ^ 27.
Proof.
  intros Hi. assert (Hri : results !! i = Some (FilterBlock.filter_block i outs))
    by (by rewrite (bt_results Hbt), list_lookup_fmap, lookup_seq_lt).
  rewrite (getOffsets_ok fb i outs) by (rewrite ?(bt_fb Hbt); done || by apply (bt_small Hbt)).
  change (default [] (Some ?x)) with x. split.
  - apply bytes_ok_app. split; [|by repeat constructor].
    apply Forall_concat, Forall_fmap, Forall_true. intros x. apply EncodeFixed32_ok.
  - assert (Hle : zlen (FilterBlock.filter_block i outs) <= zlen (filters_text results)).
    { unfold filters_text. rewrite <- (take_drop_middle results i _ Hri), fmap_app, concat_app.
      cbn [fmap list_fmap concat]. unfold stored_block at 2. rewrite !zlen_app.
      repeat match goal with |- context [zlen ?x] => lazymatch goal with
        | _ : 0 <= zlen x |- _ => fail | _ => pose proof (zlen_nonneg x) end end. lia. }
    unfold FilterBlock.filter_block in Hle. rewrite zlen_app in Hle.
    pose proof (zlen_nonneg (concat (column i outs))). pose proof text_bounds.
    pose proof (zlen_nonneg (FooterCode.EncodeTo (table_footer opt groups results (Some fb)) [])). lia.
Qed.

Lemma metas_ok : Forall kv_ok metas /\ (forall kv, kv ∈ metas -> entry_cost kv <= 2 ^ 27 + 2 ^ 21) /\
  zlen metas <= 20 /\ sorted_kvs (C := BytewiseComparator) metas.
Proof.
  destruct (bt_name Hbt) as [Hnm Hnl]. pose proof (bt_nums Hbt) as Hnums.
  destruct bits_end as (bits & rest & Hbits & Hlen & Hnz).
  pose proof handles_ok as Hhok. rewrite Forall_forall in Hhok.
  assert (Hhl : length handles = filterNums) by (by rewrite length_consecutive, length_fmap, results_length).
  pose proof (f_equal Z.of_nat Hhl : zlen handles = Z.of_nat filterNums) as Hzh.
  assert (Hcases : forall kv, kv ∈ metas -> kv_ok kv /\ entry_cost kv <= 2 ^ 27 + 2 ^ 21).
  { intros kv Hkv. unfold meta_entries in Hkv. rewrite Hbits in Hkv.
    apply elem_of_app in Hkv as [Hkv|(id & h & Hid & Hh & ->)%handle_entries_in];
      [apply (offset_entries_in _ _ _ _ Hnz) in Hkv as (j & Hj & ->)|].
    - destruct (offset_value_size j ltac:(lia)) as [Hok Hsz].
      assert (Hk : zlen (offsets_key j) = 29) by (rewrite offsets_key_digit by lia; done).
      unfold kv_ok, entry_cost. cbn [fst snd]. rewrite Hk. split_and!; try done; try lia. apply offsets_key_ok.
    - specialize (Hhok h Hh). pose proof (handle_bytes_length h Hhok) as Hl. unfold kMaxEncodedLength in Hl.
      assert (Hk : zlen (filter_key id name) = 8 + zlen name) by (unfold filter_key; rewrite !zlen_app; change (zlen (str "filter.")) with 7; change (zlen [id]) with 1; lia).
      unfold kv_ok, entry_cost. cbn [fst snd]. rewrite Hk.
      split_and!; try lia; [apply filter_key_ok; [unfold is_byte; lia|done]|by apply handle_bytes_ok|..];
        assert (zlen (handle_bytes h) <= 20) by (unfold zlen; lia); lia. }
  split_and!.
  - apply Forall_forall. intros kv Hkv. by apply Hcases.
  - intros kv Hkv. by apply Hcases.
  - unfold meta_entries. rewrite Hbits, zlen_app, zlen_handle_entries.
    assert (zlen (offset_entries fb 0 (bits ++ 0 :: rest)) <= 10); [|lia].
    pose proof (offset_entries_length fb rest bits 0). unfold zlen. lia.
  - unfold meta_entries. rewrite Hbits. apply meta_sorted; [done|lia|done|lia].
Qed.

Lemma meta_raw_eq : table_meta opt groups results (Some fb) = build_block (block_restart_interval opt) metas.
Proof. unfold table_meta, meta_raw. rewrite filters_consecutive, (bt_policy Hbt). done. Qed.

Lemma meta_raw_size : zlen (build_block (block_restart_interval opt) metas) < 2 ^ 32.
Proof.
  destruct metas_ok as (_ & Hc & Hl & _). pose proof (data_cost_bound metas _ Hc).
  pose proof (build_block_size (block_restart_interval opt) metas). pose proof (zlen_nonneg metas). nia.
Qed.

Lemma read_metaindex verify :
  ReadBlock disk false verify (metaindex_handle (table_footer opt groups results (Some fb)))
  = (Status_OK, MkContents (build_block (block_restart_interval opt) metas) true true, disk).
Proof.
  pose proof text_bounds as (Hd & Hf & Hm & Hi & Hb).
  pose proof (zlen_nonneg (FooterCode.EncodeTo (table_footer opt groups results (Some fb)) [])).
  unfold table_footer. cbn [metaindex_handle]. unfold meta_offset at 1. rewrite u64_small by lia.
  fold (meta_offset opt groups results). rewrite (ReadBlock_block opt disk verify).
  - by rewrite meta_raw_eq.
  - rewrite meta_raw_eq. apply build_block_ok. apply metas_ok.
  - rewrite meta_raw_eq. pose proof meta_raw_size. lia.
  - apply holds_meta.
Qed.

(** A table with its metaindex read and no filter loaded. *)
Definition bare_table : TableRep :=
  MkTable None (replicate regions []) (handle_bytes <$> handles)
    ((fun i => offset_table i outs) <$> seq 0 filterNums) kFilterBaseLg (opt_region_divide_size opt) disk.

Lemma bare_table_ok : table_ok outs (Z.to_nat RF) regions handles disk bare_table (replicate regions 0).
Proof.
  destruct (bt_regions Hbt) as [HRF Hdiv]. split; simpl; try done.
  - rewrite Hdiv, Z2Nat.id by lia. done.
  - by rewrite length_replicate.
  - apply Forall_replicate. lia.
  - unfold TableFilters.loaded. apply list_eq. intros k. rewrite list_lookup_imap.
    destruct (decide (k < regions)%nat); [by rewrite !lookup_replicate_2|].
    by rewrite !lookup_ge_None_2 by (rewrite length_replicate; lia).
Qed.

Lemma region_num_of_table datas hds :
  getRegionNum (MkTable None datas hds ((fun i => offset_table i outs) <$> seq 0 filterNums) kFilterBaseLg
    (opt_region_divide_size opt) disk) = Z.of_nat regions.
Proof. exact (getRegionNum_ok _ _ _ _ _ table_written _ _ bare_table_ok). Qed.

(** The walk over the metaindex. *)
Lemma read_metaindex_entries it0 p0 :
  bi_at (block_restart_interval opt) metas it0 p0 ->
  exists it1 it2, bi_step (C := BytewiseComparator) it0 (OpSeek Table.kOffsets) = Some it1 /\
    bi_Valid it1 && starts_with (bi_key it1) Table.kOffsets = true /\
    Table.read_offsets None bits_per_key_per_filter_ it1 0 []
      = Some (kFilterBaseLg, (fun i => offset_table i outs) <$> seq 0 filterNums) /\
    bi_step (C := BytewiseComparator) it1 (OpSeek (filter_key 49 name)) = Some it2 /\
    forall fuel, (length metas < fuel)%nat -> Table.read_handles fuel it2 = Some (handle_bytes <$> handles).
Proof.
  intros Hat0. destruct metas_ok as (Hkv & _ & _ & Hsorted). destruct (bt_name Hbt) as [Hnm _].
  pose proof (bt_nums Hbt) as Hnums. destruct bits_end as (bits & rest & Hbits & Hlen & Hnz).
  pose proof (bi_cursor (C := BytewiseComparator) (block_restart_interval opt) metas Hsorted) as Hcur.
  assert (Hm : metas = offset_entries fb 0 (bits ++ 0 :: rest) ++ handle_entries 49 name handles)
    by (unfold meta_entries; by rewrite Hbits).
  assert (Hoff : forall kv, kv ∈ offset_entries fb 0 (bits ++ 0 :: rest) -> exists j, (j < 10)%nat /\ kv.1 = offsets_key j).
  { intros kv Hin. apply (offset_entries_in _ _ _ _ Hnz) in Hin as (j & Hj & ->). exists j. split; [lia|done]. }
  destruct (bi_seek_at (C := BytewiseComparator) _ metas Hcur it0 p0 Table.kOffsets Hat0) as (it1 & Hs1 & Hat1).
  { apply str_ok. }
  assert (Hp0 : length (base.filter (fun kv : bytes * bytes => @Compare BytewiseComparator kv.1 Table.kOffsets < 0) metas) = 0%nat).
  { rewrite filter_none; [done|]. intros kv Hin. simpl. unfold Bytewise.compare. rewrite Slice_compare_lex.
    rewrite Hm in Hin. apply elem_of_app in Hin as [Hin|(id & h & Hid & _ & ->)%handle_entries_in].
    - destruct (Hoff kv Hin) as (j & Hj & ->). pose proof (kOffsets_first j Hj). lia.
    - cbn [fst]. pose proof (lex_app_lt (str "filter.") (str "offsets") name 48 id ltac:(lia)) as Hlt.
      rewrite lex_opp. change (str "filter." ++ 48 :: str "offsets") with Table.kOffsets in Hlt.
      unfold filter_key. change ([id] ++ name) with (id :: name). lia. }
  rewrite Hp0 in Hat1.
  destruct (bi_seek_at (C := BytewiseComparator) _ metas Hcur it1 0%nat (filter_key 49 name) Hat1) as (it2 & Hs2 & Hat2).
  { apply filter_key_ok; [unfold is_byte; lia|done]. }
  assert (Hp2 : length (base.filter (fun kv : bytes * bytes => @Compare BytewiseComparator kv.1 (filter_key 49 name) < 0) metas)
    = length (offset_entries fb 0 (bits ++ 0 :: rest))).
  { rewrite Hm, filter_split; [done|..]; intros kv Hin; simpl; unfold Bytewise.compare; rewrite Slice_compare_lex.
    - destruct (Hoff kv Hin) as (j & Hj & ->). apply offsets_key_filter; lia.
    - apply handle_entries_in in Hin as (id & h & Hid & _ & ->). cbn [fst].
      destruct (Z.eq_dec id 49) as [->|]; [rewrite lex_refl; lia|]. rewrite lex_opp.
      pose proof (filter_key_lt 49 id name ltac:(lia)). lia. }
  rewrite Hp2 in Hat2. exists it1, it2. split_and!; [done| | |done|].
  - destruct bits as [|x bs]; [simpl in Hlen; lia|].
    destruct (offset_entries_head fb (x :: bs) rest Hlen Hnz x bs [] eq_refl) as (e & tl & He & Hbe).
    simpl length in He.
    destruct (bi_at_entry _ metas Hcur it1 0%nat (offsets_key e) (default [] (getOffsets fb e))
      (tl ++ handle_entries 49 name handles) Hat1) as (-> & -> & _).
    { rewrite drop_0, Hm, He. done. }
    apply lookup_lt_Some in Hbe. by destruct (kOffsets_first e ltac:(lia)) as [_ ->].
  - rewrite Hbits.
    apply (read_offsets_ok fb outs bits rest Hbits Hlen Hnz) with (pre := []) (p := 0%nat)
      (interval := block_restart_interval opt) (kvs := metas) (hsuf := handle_entries 49 name handles); try done.
    + intros i Hi. by rewrite (bt_fb Hbt), (bt_results Hbt), list_lookup_fmap, lookup_seq_lt.
    + exact (bt_small Hbt).
    + exact (bt_same Hbt).
    + lia.
    + rewrite Hm. by destruct bits.
  - intros fuel Hfuel. rewrite (read_handles_ok _ metas Hcur fuel it2 _ Hat2) by lia.
    rewrite Hm, drop_app_length. by rewrite handle_entries_values.
Qed.

(** The metadata handed over by the builder is its own. *)
Definition meta_for (meta : option TableMetaData) (n : Z) : Prop :=
  match meta with
  | None => n = (if add_filter opt then init_filter_nums opt else 0)
  | Some m => head (load_filter_num m) = Some n /\ filter_data m = results
  end.

Lemma ReadMeta_ok n meta : 0 <= n <= Z.of_nat filterNums -> meta_for meta n ->
  exists t charge, Table.ReadMeta opt (MkTable None [] [] [] 0 (opt_region_divide_size opt) disk)
      (metaindex_handle (table_footer opt groups results (Some fb))) n meta = Some (t, charge) /\
    table_ok outs (Z.to_nat RF) regions handles disk t (replicate regions n) /\
    (0 < n -> filter t <> None).
Proof.
  intros Hn Hmeta. pose proof metas_ok as (Hkv & _ & _ & Hsorted).
  unfold Table.ReadMeta. rewrite (bt_policy Hbt). cbn [t_file]. rewrite read_metaindex. cbn [negb ok Status_OK data].
  change (set_file (MkTable ?a ?b ?c ?d ?e ?g ?h) ?i) with (MkTable a b c d e g i).
  pose proof (bi_open_at (block_restart_interval opt) metas (bt_interval Hbt) Hkv meta_raw_size) as Hat0.
  destruct (read_metaindex_entries _ _ Hat0) as (it1 & it2 & -> & Hv & Hro & Hs2 & Hrh).
  cbn [mbind option_bind]. rewrite Hv. cbn [t_base_lg]. rewrite Hro. cbn [mbind option_bind filter filter_datas filter_handles
    offsets_ region_divide_size t_file set_filter app t_base_lg].
  rewrite region_num_of_table, Nat2Z.id, Hs2. cbn [mbind option_bind].
  rewrite Hrh by (pose proof (build_block_count (block_restart_interval opt) metas); lia).
  cbn [mbind option_bind]. fold bare_table.
  destruct (Z.ltb_spec 0 n) as [Hpos|Hz].
  - destruct (ReadFilters_ok outs (Z.to_nat RF) regions disk data_end results (bt_results Hbt) table_written
      holds_filters) with (t := bare_table) (n := n) (meta := meta) as (t & charge & -> & _ & Ht & Hsome).
    + pose proof text_bounds. pose proof (zlen_nonneg (FooterCode.EncodeTo (table_footer opt groups results (Some fb)) [])). lia.
    + pose proof (bt_nums Hbt). lia.
    + apply bare_table_ok.
    + lia.
    + destruct meta; [|done]. by destruct Hmeta.
    + exists t, (Some charge). auto.
  - assert (n = 0) as -> by lia. exists bare_table, None. split_and!; [done|apply bare_table_ok|lia].
Qed.
End Built.
