(* ===== verification/TableIndex.v ===== *)
(** * TableIndex: the index block of a built table

    The keys that TableBuilder puts between data blocks separate them, so the
    index block is sorted and a search in it finds the block of a key. *)
From S2P Require Import Prelude Coding Crc32c Status Comparator TableFormat Block Iterators.
From S2P Require Import FilterBlock TableFilters TableBuilder Table TableOpen.
Import TableBuilder.

Lemma last_key_in g : g <> [] -> exists kv, kv ∈ g /\ last_key_of g = kv.1 /\ last g = Some kv.
Proof.
  intros Hg. destruct g as [|kv g] using rev_ind; [done|]. clear IHg. exists kv.
  unfold last_key_of. rewrite last_snoc. split_and!; [|done|done]. apply elem_of_app. right. by left.
Qed.

Lemma first_key_in g : g <> [] -> exists kv, kv ∈ g /\ first_key_of g = kv.1.
Proof. intros Hg. destruct g as [|kv g]; [done|]. exists kv. split; [by left|done]. Qed.

Section Index.
Context `{!Crc32c, !Snappy} {C : Comparator} {L : ComparatorLaws C} (opt : Options).

(** The key of the index entry of block [j]. *)
Definition index_key (groups : list (list (bytes * bytes))) (next : option bytes) (j : nat) : bytes :=
  let g := default [] (groups !! j) in
  match (match groups !! S j with Some g' => Some (first_key_of g') | None => next end) with
  | Some key => FindShortestSeparator (last_key_of g) key
  | None => FindShortSuccessor (last_key_of g)
  end.

Lemma index_lookup groups next : forall off j g, groups !! j = Some g ->
  index_entries opt off groups next !! j
  = Some (index_key groups next j, block_handle opt (off + zlen (data_text opt (take j groups))) (data_raw opt g)).
Proof.
  induction groups as [|g0 groups IH]; intros off j g Hj; [done|]. destruct j as [|j].
  - injection Hj as ->. cbn [index_entries take]. unfold index_key, data_text. simpl.
    rewrite Z.add_0_r. by destruct groups.
  - cbn [index_entries]. simpl lookup. rewrite (IH _ j g Hj). f_equal. f_equal. f_equal.
    unfold data_text. cbn [take fmap list_fmap concat]. rewrite zlen_app. lia.
Qed.

Lemma length_index_entries groups next : forall off, length (index_entries opt off groups next) = length groups.
Proof. induction groups; intros; simpl; auto. Qed.

Context (groups : list (list (bytes * bytes))).
Context (Hsorted : sorted_kvs (concat groups)) (Hne : Forall (fun g => g <> []) groups).

Lemma group_valid j g kv : groups !! j = Some g -> kv ∈ g -> valid_key kv.1.
Proof.
  intros Hj Hkv. destruct Hsorted as [Hv _]. rewrite Forall_forall in Hv. apply Hv.
  apply list_elem_of_In, in_concat. exists g. split; apply list_elem_of_In; [by eapply list_elem_of_lookup_2|done].
Qed.

Lemma groups_sorted i j gi gj x y : (i < j)%nat -> groups !! i = Some gi -> groups !! j = Some gj ->
  x ∈ gi -> y ∈ gj -> Compare x.1 y.1 < 0.
Proof.
  intros Hij Hi Hj Hx Hy.
  pose proof (take_drop_middle groups i gi Hi) as Hsplit. rewrite <- Hsplit, concat_app in Hsorted. simpl in Hsorted.
  apply sorted_kvs_app_inv in Hsorted as (_ & Hs & _). apply sorted_kvs_app_inv in Hs as (_ & _ & Hlt).
  apply Hlt; [done|]. apply list_elem_of_In, in_concat. exists gj. split; apply list_elem_of_In; [|done].
  apply (list_elem_of_lookup_2 _ (j - S i)). rewrite lookup_drop. rewrite <- Hj. f_equal. lia.
Qed.

Lemma group_kvs_sorted j g : groups !! j = Some g -> sorted_kvs g.
Proof.
  intros Hj. pose proof (take_drop_middle groups j g Hj) as Hsplit. rewrite <- Hsplit, concat_app in Hsorted.
  simpl in Hsorted. apply sorted_kvs_app_inv in Hsorted as (_ & Hs & _). by apply sorted_kvs_app_inv in Hs as (Hg & _).
Qed.

Lemma group_not_empty j g : groups !! j = Some g -> g <> [].
Proof. intros Hj. by apply (Forall_lookup_1 _ _ _ _ Hne Hj). Qed.

(** No key of a block is above its last one. *)
Lemma group_last j g kv : groups !! j = Some g -> kv ∈ g -> Compare kv.1 (last_key_of g) <= 0.
Proof.
  intros Hj Hkv. pose proof (group_kvs_sorted j g Hj) as [Hv Hs].
  destruct (last_key_in g (group_not_empty j g Hj)) as (kl & Hkl & -> & Hlast).
  apply list_elem_of_lookup in Hkv as [a Ha]. rewrite last_lookup in Hlast.
  apply lookup_lt_Some in Ha as Hal. destruct (decide (a = pred (length g))) as [->|Hne'].
  - rewrite Ha in Hlast. injection Hlast as ->. rewrite cmp_refl; [lia|].
    by apply (Forall_lookup_1 _ _ _ _ Hv Ha).
  - specialize (Hs a (pred (length g)) kv kl ltac:(lia) Ha Hlast). lia.
Qed.

Lemma cmp_eq_or_lt a b : valid_key a -> b = a \/ Compare a b < 0 -> Compare a b <= 0.
Proof. intros Ha [->|]; [rewrite cmp_refl by done|]; lia. Qed.

(** The key of an index entry is at or above its block and below the next ones. *)
Lemma index_key_spec j g : groups !! j = Some g ->
  valid_key (index_key groups None j) /\
  (length (index_key groups None j) <= length (last_key_of g))%nat /\
  (forall kv, kv ∈ g -> Compare kv.1 (index_key groups None j) <= 0) /\
  (forall k gk kv, (j < k)%nat -> groups !! k = Some gk -> kv ∈ gk -> Compare (index_key groups None j) kv.1 < 0) /\
  (forall g', groups !! S j = Some g' -> index_key groups None j = FindShortestSeparator (last_key_of g) (first_key_of g')).
Proof.
  intros Hj. destruct (last_key_in g (group_not_empty j g Hj)) as (kl & Hkl & Elast & _).
  assert (Hvl : valid_key (last_key_of g)) by (rewrite Elast; by eapply group_valid).
  unfold index_key. rewrite Hj. change (default [] (Some g)) with g.
  destruct (groups !! S j) as [g'|] eqn:Hj'.
  - destruct (first_key_in g' (group_not_empty _ _ Hj')) as (kf & Hkf & Efirst).
    assert (Hvf : valid_key (first_key_of g')) by (rewrite Efirst; by eapply group_valid).
    set (sep := FindShortestSeparator (last_key_of g) (first_key_of g')).
    assert (Hvs : valid_key sep) by (by apply sep_valid).
    assert (Hle : Compare (last_key_of g) sep <= 0).
    { apply cmp_eq_or_lt; [done|]. destruct (sep_between _ _ Hvl Hvf) as [?|[? _]]; auto. }
    assert (Hlt : Compare sep (first_key_of g') < 0).
    { destruct (sep_between _ _ Hvl Hvf) as [E|[_ ?]]; [|done]. unfold sep. rewrite E, Elast, Efirst.
      by apply (groups_sorted j (S j) g g'); [lia|..]. }
    split_and!; [done|by apply sep_length| | |].
    + intros kv Hkv. apply (cmp_trans _ (last_key_of g)); try done; [by apply (group_valid j g)|by apply (group_last j g)].
    + intros k gk kv Hk Hgk Hkv. assert (Hvk : valid_key kv.1) by (by eapply group_valid).
      destruct (decide (k = S j)) as [->|Hne'].
      * rewrite Hj' in Hgk. injection Hgk as <-.
        apply (cmp_lt_le_trans _ (first_key_of g')); try done.
        destruct g' as [|kv0 g']; [by apply elem_of_nil in Hkv|]. apply elem_of_cons in Hkv as [->|Hkv].
        -- rewrite cmp_refl; [lia|done].
        -- pose proof (group_kvs_sorted _ _ Hj') as Hs. apply (sorted_kvs_app_inv [kv0] g') in Hs as (_ & _ & Hs).
           assert (Compare kv0.1 kv.1 < 0) by (apply Hs; [by left|done]).
           change (first_key_of (kv0 :: g')) with kv0.1. lia.
      * apply (cmp_lt_le_trans _ (first_key_of g')); try done.
        assert (Compare (first_key_of g') kv.1 < 0); [|lia]. rewrite Efirst.
        by apply (groups_sorted (S j) k g' gk); [lia|..].
    + by intros ? [= <-].
  - split_and!; [by apply short_succ_valid|by apply short_succ_length| | |done].
    + intros kv Hkv. apply (cmp_trans _ (last_key_of g)); try done; [by apply (group_valid j g)|by apply short_succ_valid| |].
      * by apply (group_last j g).
      * apply cmp_eq_or_lt; [done|]. by apply short_succ_above.
    + intros k gk kv Hk Hgk Hkv. apply lookup_lt_Some in Hgk. apply lookup_ge_None in Hj'. lia.
Qed.

Abbreviation index_kvs := (encode_entry <$> index_entries opt 0 groups None).

Lemma index_kv_lookup j kv : index_kvs !! j = Some kv ->
  exists g, groups !! j = Some g /\ kv = (index_key groups None j,
    handle_bytes (block_handle opt (zlen (data_text opt (take j groups))) (data_raw opt g))).
Proof.
  intros Hkv. apply lookup_lt_Some in Hkv as Hl. rewrite length_fmap, length_index_entries in Hl.
  destruct (lookup_lt_is_Some_2 groups j Hl) as [g Hg]. exists g. split; [done|].
  rewrite list_lookup_fmap, (index_lookup groups None 0 j g Hg) in Hkv. by injection Hkv as <-.
Qed.

Lemma index_sorted : sorted_kvs index_kvs.
Proof.
  split.
  - apply Forall_lookup. intros j kv Hkv. destruct (index_kv_lookup j kv Hkv) as (g & Hg & ->).
    by destruct (index_key_spec j g Hg).
  - intros i j x y Hij Hx Hy. destruct (index_kv_lookup i x Hx) as (gi & Hgi & ->).
    destruct (index_kv_lookup j y Hy) as (gj & Hgj & ->). cbn [fst].
    destruct (index_key_spec i gi Hgi) as (Hvi & _ & _ & Hlt & _).
    destruct (index_key_spec j gj Hgj) as (Hvj & _ & Hle & _ & _).
    destruct (first_key_in gj (group_not_empty j gj Hgj)) as (kf & Hkf & _).
    apply (cmp_lt_le_trans _ kf.1); [done|by eapply group_valid|done|by eapply Hlt|by apply Hle].
Qed.
End Index.
