(* ===== verification/TableGet.v ===== *)
(** * TableGet: opening a built table and looking keys up

    [Table::Open] and [Table::InternalGet] of src/LSM-EBF/table/table.cc on a
    file written by TableBuilder. *)
From S2P Require Import Prelude Coding Crc32c Status Comparator TableFormat Block Iterators.
From S2P Require Import FilterBlock TableFilters TableBuilder Table TableOpen TableIndex.
Import TableBuilder.

(** ** Sizes of the index *)

Lemma data_cost_member kv g : kv ∈ g -> entry_cost kv <= data_cost g.
Proof.
  intros [i Hi]%list_elem_of_lookup. rewrite <- (take_drop_middle g i kv Hi), data_cost_app.
  cbn [data_cost foldr]. fold (data_cost (drop (S i) g)).
  pose proof (data_cost_nonneg (take i g)). pose proof (data_cost_nonneg (drop (S i) g)). lia.
Qed.

Lemma data_cost_group j groups g : groups !! j = Some g -> data_cost g <= data_cost (concat groups).
Proof.
  intros Hj. rewrite <- (take_drop_middle groups j g Hj), concat_app. simpl. rewrite !data_cost_app.
  pose proof (data_cost_nonneg (concat (take j groups))). pose proof (data_cost_nonneg (concat (drop (S j) groups))). lia.
Qed.

Lemma zlen_handle_bytes h : handle_ok h -> zlen (handle_bytes h) <= 20.
Proof. intros Hh. pose proof (handle_bytes_length h Hh). unfold kMaxEncodedLength, zlen in *. lia. Qed.

Section Get.
Context `{!Crc32c, !Snappy} {C : Comparator} {L : ComparatorLaws C} {P : FilterPolicy} {PL : FilterPolicyLaws P}.
Context {BC : BlockCache} {BL : BlockCacheLaws BC}.
Context (opt : Options) (name : bytes) (groups : list (list (bytes * bytes))) (results : list bytes).
Context (fb : FilterBlockBuilder) (outs : list (list bytes)) (RF : Z).
Context (Hbt : built_table opt name groups results fb outs RF).

Abbreviation text := (table_text opt groups results (Some fb)).
Abbreviation disk := (RFile text []).
Abbreviation regions := (regions outs RF).
Abbreviation handles := (consecutive (zlen (data_text opt groups)) ((., kNoCompression) <$> results)).
Abbreviation index_kvs := (encode_entry <$> index_entries opt 0 groups None).
Abbreviation block_off j := (zlen (data_text opt (take j groups))).
Abbreviation footer := (table_footer opt groups results (Some fb)).

Let Hsorted := bt_sorted _ _ _ _ _ _ _ Hbt.
Let Hne := bt_groups _ _ _ _ _ _ _ Hbt.

(** *** Data blocks *)

Lemma group_kv_ok j g : groups !! j = Some g -> Forall kv_ok g.
Proof.
  intros Hj. pose proof (bt_kv _ _ _ _ _ _ _ Hbt) as Hkv.
  rewrite <- (take_drop_middle groups j g Hj), concat_app in Hkv. simpl in Hkv.
  apply Forall_app in Hkv as [_ Hkv]. by apply Forall_app in Hkv as [Hkv _].
Qed.

Lemma data_raw_size j g : groups !! j = Some g -> zlen (data_raw opt g) < 2 ^ 32 - 5.
Proof.
  intros Hj. pose proof (build_block_size (block_restart_interval opt) g). pose proof (data_cost_group j groups g Hj).
  pose proof (bt_cost _ _ _ _ _ _ _ Hbt). pose proof (zlen_nonneg g). unfold data_raw. lia.
Qed.

Lemma block_off_small j : 0 <= block_off j < 2 ^ 27.
Proof.
  split; [apply zlen_nonneg|]. pose proof (text_bounds _ _ _ _ _ _ _ Hbt) as (_ & Hf & Hm & Hi & Hb).
  pose proof (zlen_nonneg (FooterCode.EncodeTo footer [])).
  assert (block_off j <= zlen (data_text opt groups)); [|lia].
  rewrite <- (take_drop j groups) at 2. unfold data_text. rewrite fmap_app, concat_app, zlen_app.
  pose proof (zlen_nonneg (concat ((fun g => block_stored opt (data_raw opt g)) <$> drop j groups))). lia.
Qed.

Lemma data_handle_ok j g : groups !! j = Some g -> handle_ok (block_handle opt (block_off j) (data_raw opt g)).
Proof. intros Hj. pose proof (block_off_small j). pose proof (data_raw_size j g Hj). apply block_handle_ok; lia. Qed.

Lemma read_data verify j g : groups !! j = Some g ->
  ReadBlock disk false verify (block_handle opt (block_off j) (data_raw opt g))
  = (Status_OK, MkContents (data_raw opt g) true true, disk).
Proof.
  intros Hj. apply ReadBlock_block.
  - apply build_block_ok. by eapply group_kv_ok.
  - pose proof (data_raw_size j g Hj). lia.
  - apply (holds_data opt groups results fb (take j groups) g (drop (S j) groups)).
    by rewrite take_drop_middle.
Qed.

(** *** The index block *)

Lemma index_kv_ok : Forall kv_ok index_kvs.
Proof.
  apply Forall_lookup. intros j kv Hkv. destruct (index_kv_lookup opt groups j kv Hkv) as (g & Hg & ->).
  destruct (index_key_spec groups Hsorted Hne j g Hg) as (Hv & Hl & _).
  pose proof (data_handle_ok j g Hg) as Hh. pose proof (zlen_handle_bytes _ Hh).
  destruct (last_key_in g (group_not_empty groups Hne j g Hg)) as (kl & Hkl & Elast & _). rewrite Elast in Hl.
  pose proof (group_kv_ok j g Hg) as Hkv'. rewrite Forall_forall in Hkv'. destruct (Hkv' kl Hkl) as (_ & _ & Hkz & _).
  split_and!; cbn [fst snd]; [by apply valid_bytes|by apply handle_bytes_ok|unfold zlen in *; lia|lia].
Qed.

Lemma index_size : zlen (index_raw opt groups) < 2 ^ 32 - 5.
Proof.
  assert (Hf2 : Forall2 (fun g e => zlen e.1 <= zlen (last_key_of g) /\ zlen e.2 <= 20 /\ g <> []) groups index_kvs).
  { apply Forall2_same_length_lookup. split; [by rewrite length_fmap, length_index_entries|].
    intros j g kv Hg Hkv. destruct (index_kv_lookup opt groups j kv Hkv) as (g' & Hg' & ->).
    rewrite Hg in Hg'. injection Hg' as <-. cbn [fst snd].
    destruct (index_key_spec groups Hsorted Hne j g Hg) as (_ & Hl & _).
    split_and!; [unfold zlen; lia|by apply zlen_handle_bytes, data_handle_ok|by eapply group_not_empty]. }
  assert (Hc : data_cost index_kvs <= data_cost (concat groups) + 20 * zlen index_kvs).
  { clear -Hf2. induction Hf2 as [|g e gs es (H1 & H2 & Hg) _ IH]; [done|].
    cbn [data_cost foldr concat]. fold (data_cost es). rewrite data_cost_app, zlen_cons.
    destruct (last_key_in g Hg) as (kl & Hkl & Elast & _). rewrite Elast in H1.
    pose proof (data_cost_member kl g Hkl). pose proof (zlen_nonneg kl.2). unfold entry_cost in *. lia. }
  pose proof (build_block_size 1 index_kvs). pose proof (bt_cost _ _ _ _ _ _ _ Hbt).
  pose proof (zlen_nonneg index_kvs). unfold index_raw. lia.
Qed.

Lemma index_cursor : cursor_over index_kvs (bi_at 1 index_kvs).
Proof. apply bi_cursor. by apply index_sorted. Qed.

Lemma index_open_at : bi_at 1 index_kvs (bi_open (Block_new (index_raw opt groups))) (length index_kvs).
Proof. apply bi_open_at; [lia|apply index_kv_ok|]. pose proof index_size. unfold index_raw in *. lia. Qed.

Lemma read_index verify :
  ReadBlock disk false verify (index_handle footer) = (Status_OK, MkContents (index_raw opt groups) true true, disk).
Proof.
  pose proof (text_bounds _ _ _ _ _ _ _ Hbt) as (Hd & Hf & Hm & Hi & Hb).
  pose proof (zlen_nonneg (FooterCode.EncodeTo footer [])). pose proof index_size.
  unfold table_footer. cbn [index_handle].
  assert (Hoff : u64 (index_offset opt groups results (Some fb)) = index_offset opt groups results (Some fb)).
  { apply u64_small. unfold index_offset, meta_offset. lia. }
  rewrite Hoff. apply ReadBlock_block; [apply build_block_ok, index_kv_ok|lia|].
  apply holds_index.
Qed.

(** *** Opening *)

Lemma footer_handles_ok : handle_ok (metaindex_handle footer) /\ handle_ok (index_handle footer).
Proof.
  pose proof index_size. pose proof (meta_raw_size _ _ _ _ _ _ _ Hbt).
  unfold table_footer. cbn [metaindex_handle index_handle].
  split; apply block_handle_ok; try apply u64_range; [|lia].
  rewrite (meta_raw_eq _ _ _ _ _ _ _ Hbt). lia.
Qed.

Lemma read_footer :
  Z.of_nat kEncodedLength <= zlen text /\
  RandRead disk (zlen text - Z.of_nat kEncodedLength) kEncodedLength = (Status_OK, FooterCode.EncodeTo footer [], disk).
Proof.
  destruct footer_handles_ok as [Hm Hi]. pose proof (Footer_length footer Hm Hi) as Hl.
  set (pre := data_text opt groups ++ filters_text results ++
    block_stored opt (table_meta opt groups results (Some fb)) ++ block_stored opt (index_raw opt groups)).
  assert (Ht : text = pre ++ FooterCode.EncodeTo footer []) by (unfold pre; by rewrite <- !app_assoc).
  assert (Hz : zlen text = zlen pre + Z.of_nat kEncodedLength).
  { rewrite Ht, zlen_app. f_equal. unfold zlen. by rewrite Hl. }
  pose proof (zlen_nonneg pre). split; [lia|]. rewrite <- Hl at 2. apply RandRead_holds.
  apply (holds_all opt groups results fb _ pre _ []); [by rewrite app_nil_r|lia].
Qed.

Lemma last_entry_offset : exists it g, bi_step (bi_open (Block_new (index_raw opt groups))) OpLast = Some it /\
  groups !! (length groups - 1)%nat = Some g /\
  bi_value it = handle_bytes (block_handle opt (block_off (length groups - 1)) (data_raw opt g)).
Proof.
  destruct (bi_last_at 1 index_kvs index_cursor _ _ index_open_at) as (it & Hst & Hat).
  pose proof (bt_some _ _ _ _ _ _ _ Hbt) as Hsome.
  assert (Hlen : length index_kvs = length groups) by (by rewrite length_fmap, length_index_entries).
  rewrite Hlen in Hat. destruct (lookup_lt_is_Some_2 index_kvs (length groups - 1)) as [kv Hkv].
  { rewrite Hlen. destruct groups; [done|simpl; lia]. }
  destruct (cur_shows _ _ index_cursor it _ Hat) as [_ Hs]. rewrite Hkv in Hs.
  destruct (index_kv_lookup opt groups _ kv Hkv) as (g & Hg & ->). destruct Hs as (_ & _ & Hval).
  by exists it, g.
Qed.

Lemma freq_slots_ok j g : groups !! j = Some g ->
  exists n, Table.freq_slots opt (handle_bytes (block_handle opt (block_off j) (data_raw opt g))) = Some n /\ 0 <= n.
Proof.
  intros Hj. destruct (bt_freq _ _ _ _ _ _ _ Hbt) as [Hlg Hfds]. unfold Table.freq_slots.
  rewrite <- (app_nil_r (handle_bytes _)), Handle_DecodeFrom_Encode by (by apply data_handle_ok).
  rewrite (proj2 (Z.leb_le 1 _)), (proj2 (Z.leb_le _ 31)), (proj2 (Z.ltb_lt 0 _)) by lia. cbn [andb].
  eexists. split; [done|]. cbn [offset block_handle]. pose proof (block_off_small j) as Ho.
  rewrite <- Z.sub_land_same_l. set (m := block_off j &&& (1 ≪ (opt_kFilterBaseLg opt - 1))).
  assert (0 <= m) by (apply Z.land_nonneg; lia).
  assert (0 <= block_off j - m) by (unfold m; rewrite Z.sub_land_same_l; apply Z.land_nonneg; lia).
  set (x := block_off j - m) in *. rewrite u64_small by lia.
  assert (0 <= (x + opt_kFilterBaseLg opt + freq_divide_size opt - 1) / freq_divide_size opt < 2 ^ 31).
  { split; [apply Z.div_pos; lia|]. apply Z.div_lt_upper_bound; [lia|]. nia. }
  unfold i32. rewrite Z.mod_small; lia.
Qed.

(** The state of an open table: [counts] is the number of filters loaded for
    each region. *)
Record table_state (t : Table.Table) (counts : list Z) : Prop := {
  ts_rep : table_ok outs (Z.to_nat RF) regions handles disk (Table.rep t) counts;
  ts_options : Table.t_options t = opt;
  ts_index : Table.t_index_block t = Block_new (index_raw opt groups);
  ts_access : length (Table.has_access t) = regions;
  ts_meta : Table.t_metaindex_handle t = metaindex_handle footer
}.

Definition new_id (oc : option cache) : Z * option cache :=
  match oc with Some c => let '(id, c) := cache_NewId c in (id, Some c) | None => (0, None) end.

Lemma Open_ok oc meta n : 0 <= n <= Z.of_nat filterNums -> meta_for opt results meta n ->
  exists t charge, Table.Open opt disk (zlen text) oc meta
      = Some (Status_OK, Some (t, charge), disk, (new_id oc).2) /\
    table_state t (replicate regions n) /\ Table.cache_id t = (new_id oc).1.
Proof.
  intros Hn Hmeta. destruct read_footer as [Hsz Hrf]. destruct footer_handles_ok as [Hmh Hih].
  unfold Table.Open. rewrite (proj2 (Z.ltb_ge _ _) Hsz), Hrf. cbn [negb ok Status_OK].
  rewrite <- (app_nil_r (FooterCode.EncodeTo footer [])), Footer_DecodeFrom_Encode by done. cbn [negb ok Status_OK].
  rewrite read_index. cbn [negb ok Status_OK data]. fold (new_id oc).
  destruct (new_id oc) as [id oc']. cbn [fst snd].
  assert (Hnum : match meta with
      | Some m => head (load_filter_num m)
      | None => Some (if add_filter opt then init_filter_nums opt else 0)
      end = Some n) by (destruct meta; [by destruct Hmeta|by rewrite Hmeta]).
  rewrite Hnum. cbn [mbind option_bind].
  destruct (ReadMeta_ok _ _ _ _ _ _ _ Hbt n meta Hn Hmeta) as (rep & charge & -> & Hrep & _).
  cbn [mbind option_bind]. rewrite (getRegionNum_ok _ _ _ _ _ (table_written _ _ _ _ _ _ _ Hbt) _ _ Hrep), Nat2Z.id.
  destruct last_entry_offset as (it & g & -> & Hg & Hval). cbn [mbind option_bind]. rewrite Hval.
  destruct (freq_slots_ok _ g Hg) as (slots & -> & Hslots). cbn [mbind option_bind].
  rewrite (proj2 (Z.ltb_ge _ _) Hslots), (tk_file _ _ _ _ _ _ _ Hrep).
  eexists _, charge. split; [reflexivity|]. split; [|done]. split; try done. apply length_replicate.
Qed.

(** *** Locating a key *)

Abbreviation kvs := (concat groups).
Abbreviation below k := (base.filter (fun kv : bytes * bytes => Compare kv.1 k < 0)).

Lemma index_blocks : block_index index_kvs groups.
Proof.
  assert (Hidx : forall j e g, index_kvs !! j = Some e -> groups !! j = Some g -> e.1 = index_key groups None j).
  { intros j e g He Hg. by destruct (index_kv_lookup opt groups j e He) as (g' & _ & ->). }
  split; [by rewrite length_fmap, length_index_entries|by apply index_sorted|exact Hsorted|..].
  - intros j e g kv He Hg Hkv. rewrite (Hidx j e g He Hg).
    destruct (index_key_spec groups Hsorted Hne j g Hg) as (_ & _ & Hle & _). by apply Hle.
  - intros j j' e g kv Hlt He Hg Hkv. destruct (index_kv_lookup opt groups j e He) as (gj & Hgj & ->).
    destruct (index_key_spec groups Hsorted Hne j gj Hgj) as (_ & _ & _ & Hgt & _). by eapply Hgt.
Qed.

Lemma locate_past k : valid_key k -> length (below k index_kvs) = length groups -> below k kvs = kvs.
Proof. apply (seek_past _ _ index_blocks). Qed.

Lemma locate_block k j g : valid_key k -> length (below k index_kvs) = j -> groups !! j = Some g ->
  ~ Compare (index_key groups None j) k < 0 /\ below k kvs = concat (take j groups) ++ below k g.
Proof.
  intros Hk Hj Hg. destruct (seek_block _ _ index_blocks k j g Hk Hj Hg) as (e & He & Hcmp & Hb).
  by destruct (index_kv_lookup opt groups j e He) as (g' & _ & ->).
Qed.

(** *** Blocks and their cache *)

Lemma block_off_lt i j gi : (i < j)%nat -> groups !! i = Some gi -> block_off i < block_off j.
Proof.
  intros Hij Hi.
  assert (Hj : take j groups = take i groups ++ gi :: take (j - S i) (drop (S i) groups)).
  { rewrite <- (take_drop_middle groups i gi Hi) at 1. apply lookup_lt_Some in Hi.
    rewrite take_app, length_take_le, take_ge by (rewrite ?length_take_le; lia). f_equal.
    replace (j - i)%nat with (S (j - S i)) by lia. done. }
  rewrite Hj. unfold data_text. rewrite fmap_app, concat_app. cbn [fmap list_fmap concat].
  rewrite !zlen_app. pose proof (zlen_nonneg (concat ((fun g => block_stored opt (data_raw opt g)) <$> take (j - S i) (drop (S i) groups)))).
  assert (0 < zlen (block_stored opt (data_raw opt gi))); [|lia].
  unfold block_stored. destruct (choose_contents _ _) as [c ty]. rewrite stored_block_length.
  pose proof (zlen_nonneg c). unfold kBlockTrailerSize. lia.
Qed.

Lemma block_off_inj i j gi gj : groups !! i = Some gi -> groups !! j = Some gj -> block_off i = block_off j -> i = j.
Proof.
  intros Hi Hj Heq. destruct (Nat.lt_trichotomy i j) as [Hlt|[->|Hlt]]; [|done|].
  - pose proof (block_off_lt i j gi Hlt Hi). lia.
  - pose proof (block_off_lt j i gj Hlt Hj). lia.
Qed.

Lemma cache_key_inj id a b : 0 <= a < 2 ^ 64 -> 0 <= b < 2 ^ 64 ->
  Table.cache_key id a = Table.cache_key id b -> a = b.
Proof.
  intros Ha Hb Heq. unfold Table.cache_key in Heq. apply app_inj_1 in Heq as [_ Heq]; [|done].
  rewrite <- (DecodeFixed64_Encode a []), <- (DecodeFixed64_Encode b []) by done. by rewrite Heq.
Qed.

(** What the cache holds for this table are its blocks. *)
Definition cache_good (id : Z) (oc : option cache) : Prop :=
  forall c j g b, oc = Some c -> groups !! j = Some g -> may_hold c (Table.cache_key id (block_off j)) b ->
  b = Block_new (data_raw opt g).

Lemma keep_file t counts : table_state t counts -> Table.with_file t disk = t.
Proof.
  intros Ht. unfold Table.with_file, Table.with_rep.
  rewrite (set_file_same _ _ _ _ _ _ _ (ts_rep _ _ Ht)). by destruct t.
Qed.

Lemma BlockReader_ok t counts oc ro j g :
  table_state t counts -> cache_good (Table.cache_id t) oc -> groups !! j = Some g ->
  exists oc', Table.BlockReader t oc ro (handle_bytes (block_handle opt (block_off j) (data_raw opt g)))
    = (bi_open (Block_new (data_raw opt g)), t, oc') /\ cache_good (Table.cache_id t) oc'.
Proof.
  intros Ht Hc Hj. unfold Table.BlockReader.
  rewrite <- (app_nil_r (handle_bytes _)), Handle_DecodeFrom_Encode by (by apply data_handle_ok).
  cbn [ok Status_OK].
  assert (Hread : Table.read_data_block t ro (block_handle opt (block_off j) (data_raw opt g))
    = (Status_OK, Some (Block_new (data_raw opt g), true), t)).
  { unfold Table.read_data_block. rewrite (tk_file _ _ _ _ _ _ _ (ts_rep _ _ Ht)), (read_data _ j g Hj).
    cbn [ok Status_OK data cachable]. by rewrite (keep_file t counts Ht). }
  rewrite Hread. destruct oc as [c|]; [|by exists None].
  cbn [offset block_handle]. set (key := Table.cache_key _ _).
  pose proof (lookup_held c key) as Hheld. pose proof (lookup_keeps c key) as Hkeep.
  destruct (cache_Lookup c key) as [found c1]. cbn [fst snd] in Hheld, Hkeep.
  assert (Hc1 : cache_good (Table.cache_id t) (Some c1)).
  { intros c' i gi b [= <-] Hi Hm. eapply Hc; [done|done|by apply Hkeep]. }
  destruct found as [b|].
  - exists (Some c1). split; [|done]. f_equal. f_equal. f_equal.
    eapply Hc; [done|exact Hj|by apply Hheld].
  - cbn [andb]. destruct (Table.fill_cache ro); [|by exists (Some c1)].
    eexists. split; [reflexivity|]. intros c' i gi b [= <-] Hi Hm.
    apply insert_keeps in Hm as [[Hk ->]|[_ Hm]]; [|by eapply Hc1].
    apply cache_key_inj in Hk; [|pose proof (block_off_small i); lia|pose proof (block_off_small j); lia].
    rewrite (block_off_inj i j gi g Hi Hj Hk), Hj in Hi. by injection Hi as <-.
Qed.

Lemma search_block_ok t counts oc ro j g k :
  table_state t counts -> cache_good (Table.cache_id t) oc -> groups !! j = Some g -> valid_key k ->
  exists oc', Table.search_block t oc ro (handle_bytes (block_handle opt (block_off j) (data_raw opt g))) k
    = Some (Status_OK, g !! length (below k g), t, oc') /\ cache_good (Table.cache_id t) oc'.
Proof.
  intros Ht Hc Hj Hk. unfold Table.search_block.
  destruct (BlockReader_ok t counts oc ro j g Ht Hc Hj) as (oc' & -> & Hc'). exists oc'. split; [|done].
  pose proof (bi_cursor (block_restart_interval opt) g (group_kvs_sorted groups Hsorted j g Hj)) as Hcur.
  pose proof (bi_open_at (block_restart_interval opt) g (bt_interval _ _ _ _ _ _ _ Hbt) (group_kv_ok j g Hj)) as Hat.
  pose proof (data_raw_size j g Hj) as Hsz. unfold data_raw in *.
  destruct (bi_seek_at _ g Hcur _ _ k (Hat ltac:(lia)) Hk) as (it & -> & Hat'). cbn [mbind option_bind].
  destruct (cur_shows _ _ Hcur it _ Hat') as [Hst Hs]. simpl in Hst, Hs. rewrite Hst.
  destruct (g !! _) as [[k' v]|]; [by destruct Hs as (-> & -> & ->)|by rewrite Hs].
Qed.

(** *** Filters *)

Lemma filter_input_lookup gs cur : forall off j g, gs !! j = Some g ->
  (off + zlen (data_text opt (take j gs)), fst <$> g) ∈ filter_input opt off gs cur.
Proof.
  induction gs as [|g0 gs IH]; intros off j g Hj; [done|]. cbn [filter_input]. destruct j as [|j].
  - injection Hj as ->. unfold data_text. simpl. rewrite Z.add_0_r. by left.
  - right. specialize (IH (off + zlen (block_stored opt (data_raw opt g0))) j g Hj).
    unfold data_text in *. cbn [take fmap list_fmap concat]. rewrite zlen_app.
    by replace (off + (zlen (block_stored opt (data_raw opt g0)) + zlen (concat ((fun g1 => block_stored opt (data_raw opt g1)) <$> take j gs))))
      with (off + zlen (block_stored opt (data_raw opt g0)) + zlen (concat ((fun g1 => block_stored opt (data_raw opt g1)) <$> take j gs))) by lia.
Qed.

(** The filters of a block answer for its keys. *)
Lemma block_filters j g : groups !! j = Some g ->
  exists o, outs !! filter_index (block_off j) = Some o /\ length o = filterNums /\
    forall kv m, kv ∈ g -> KeyMayMatchFilters kv.1 (take m o) = Some true.
Proof.
  intros Hj. pose proof (filter_input_lookup groups [] 0 j g Hj) as Hin. rewrite Z.add_0_l in Hin.
  destruct (first_key_in g (group_not_empty groups Hne j g Hj)) as (kv0 & Hkv0 & _).
  pose proof (bt_covers _ _ _ _ _ _ _ Hbt) as Hcov.
  assert (Hk : forall kv, kv ∈ g -> In kv.1 (fst <$> g)).
  { intros kv Hkv. apply list_elem_of_In. by apply list_elem_of_fmap_2. }
  destruct (Hcov _ _ _ Hin (Hk kv0 Hkv0)) as (o & Ho & Hl & _). exists o. split_and!; [done..|].
  intros kv m Hkv. destruct (Hcov _ _ _ Hin (Hk kv Hkv)) as (o' & Ho' & _ & Hm). rewrite Ho in Ho'. by injection Ho' as <-.
Qed.

Lemma region_id_ok t counts j g : table_state t counts -> groups !! j = Some g ->
  Table.region_id t (block_off j) - 1 = Z.of_nat (filter_index (block_off j) / Z.to_nat RF) /\
  (filter_index (block_off j) / Z.to_nat RF < regions)%nat.
Proof.
  intros Ht Hj. destruct (bt_regions _ _ _ _ _ _ _ Hbt) as [HRF Hrds]. pose proof (block_off_small j) as Hb.
  destruct (block_filters j g Hj) as (o & Ho & _). apply lookup_lt_Some in Ho as Hlt.
  destruct (region_of_index _ _ _ _ (wr_cover _ _ _ _ _ (table_written _ _ _ _ _ _ _ Hbt)) Hlt) as (Hr & _).
  split; [|done]. unfold Table.region_id. rewrite (ts_options _ _ Ht), Hrds, (Z.mul_comm RF).
  unfold filter_index. rewrite <- Z.div_div by (done || lia).
  assert (0 <= block_off j / kFilterBase) by (apply Z.div_pos; [lia|done]).
  assert (block_off j / kFilterBase <= block_off j) by (apply Z.div_le_upper_bound; [done|]; change kFilterBase with 65536; lia).
  assert (0 <= block_off j / kFilterBase / RF) by (apply Z.div_pos; lia).
  assert (block_off j / kFilterBase / RF <= block_off j / kFilterBase) by (apply Z.div_le_upper_bound; nia).
  rewrite Nat2Z.inj_div, !Z2Nat.id, u32_small by lia. lia.
Qed.

(** Regions without filters may get some. *)
Definition grown (counts counts' : list Z) : Prop := forall r c, 0 < c -> counts !! r = Some c -> counts' !! r = Some c.

(** The first access of a region loads its filters; later ones change nothing. *)
Lemma first_access_ok t counts j g : table_state t counts -> groups !! j = Some g -> 0 <= init_filter_nums opt ->
  exists t' counts', Table.first_access t (Table.region_id t (block_off j) - 1) = Some t' /\
    table_state t' counts' /\ Table.cache_id t' = Table.cache_id t /\ grown counts counts'.
Proof.
  intros Ht Hj Hinit. destruct (region_id_ok t counts j g Ht Hj) as [-> Hr].
  set (r := (filter_index (block_off j) / Z.to_nat RF)%nat) in *. unfold Table.first_access.
  rewrite (proj2 (Z.ltb_ge _ _)), Nat2Z.id by lia.
  destruct (lookup_lt_is_Some_2 (Table.has_access t) r) as [a ->]; [by rewrite (ts_access _ _ Ht)|].
  cbn [mbind option_bind]. destruct a; [exists t, counts; split_and!; [done|done|done|by intros ? ? ?]|].
  destruct (lookup_lt_is_Some_2 counts r) as [c Hc]; [by rewrite (tk_counts _ _ _ _ _ _ _ (ts_rep _ _ Ht))|].
  pose proof (table_written _ _ _ _ _ _ _ Hbt) as Hw.
  rewrite (getCurrFilterNum_ok _ _ _ _ _ _ _ _ _ (ts_rep _ _ Ht) Hc). cbn [mbind option_bind].
  destruct (Z.eqb_spec c 0) as [->|]; cbn [negb]; [|exists t, counts; split_and!; [done|done|done|by intros ? ? ?]].
  rewrite (ts_options _ _ Ht).
  destruct (AddFilters_ok _ _ _ _ _ Hw _ _ r 0 _ (ts_rep _ _ Ht) Hc Hinit) as (rep' & -> & Hrep').
  cbn [mbind option_bind]. eexists _, _. split; [reflexivity|]. split_and!; [|done|].
  - destruct Ht. split; try done. simpl. by rewrite length_insert.
  - intros r' c' Hc' Hr'. rewrite list_lookup_insert_ne; [done|]. intros <-. rewrite Hc in Hr'. injection Hr' as <-. lia.
Qed.

Lemma may_match_some t counts j g k : table_state t counts -> groups !! j = Some g ->
  exists b, may_match (Table.rep t) (block_off j) k = Some b /\
    (forall kv, kv ∈ g -> (forall fs, KeyMayMatchFilters k fs = KeyMayMatchFilters kv.1 fs) -> b = true).
Proof.
  intros Ht Hj. destruct (block_filters j g Hj) as (o & Ho & Hl & Hm). pose proof (block_off_small j) as [Hnn _].
  destruct (may_match_ok _ _ _ _ _ (table_written _ _ _ _ _ _ _ Hbt) _ counts (block_off j) o k (ts_rep _ _ Ht) Hnn Ho Hl)
    as (c & Hc & ->).
  destruct (0 <? c); [|by exists true].
  destruct (match_total k (take (Z.to_nat c) o)) as [b Hb]; [rewrite length_take; lia|].
  exists b. split; [done|]. intros kv Hkv Heq. rewrite Heq, (Hm kv _ Hkv) in Hb. by injection Hb.
Qed.

Lemma count_access_ok t counts off : table_state t counts ->
  exists t', Table.count_access t off = Some t' /\ table_state t' counts /\ Table.cache_id t' = Table.cache_id t.
Proof.
  intros Ht. destruct (bt_freq _ _ _ _ _ _ _ Hbt) as [_ Hf]. unfold Table.count_access. rewrite (ts_options _ _ Ht).
  rewrite (proj2 (Z.eqb_neq _ _)) by lia. eexists. split; [reflexivity|]. split; [|done]. by destruct Ht.
Qed.

(** What a lookup in the block of [k] finds of the whole table. *)
Lemma block_answer k j g : valid_key k -> length (below k index_kvs) = j -> groups !! j = Some g ->
  match g !! length (below k g) with
  | Some kv => kvs !! length (below k kvs) = Some kv
  | None => forall kv, kvs !! length (below k kvs) = Some kv ->
      exists l, l ∈ kvs /\ Compare l.1 k < 0 /\ ~ Compare (FindShortestSeparator l.1 kv.1) k < 0
  end.
Proof.
  intros Hk Hn Hj. destruct (locate_block k j g Hk Hn Hj) as (Hkey & Hbelow).
  rewrite Hbelow, length_app.
  assert (Hkvs : kvs = concat (take j groups) ++ g ++ concat (drop (S j) groups)).
  { rewrite <- (take_drop_middle groups j g Hj) at 1. by rewrite concat_app. }
  assert (Hat : kvs !! (length (concat (take j groups)) + length (below k g))%nat
    = (g ++ concat (drop (S j) groups)) !! length (below k g)).
  { rewrite Hkvs at 1. rewrite lookup_app_r by lia. f_equal. lia. }
  rewrite Hat. destruct (seek_split g k) as (l1 & l2 & Hg & Hf & H1 & _);
    [by eapply group_kvs_sorted|done|]. rewrite Hf.
  destruct (g !! length l1) as [kv|] eqn:Hl; [by apply lookup_app_l_Some|].
  assert (l2 = []) as ->.
  { apply lookup_ge_None in Hl. rewrite Hg, length_app in Hl. destruct l2; [done|simpl in Hl; lia]. }
  rewrite app_nil_r in Hg. rewrite Hg, lookup_app_r, Nat.sub_diag by lia. intros kv Hkv.
  destruct (last_key_in g (group_not_empty groups Hne j g Hj)) as (kl & Hkl & Elast & _).
  exists kl. split_and!; [rewrite Hkvs; set_solver|apply H1; by rewrite <- Hg|].
  destruct (groups !! S j) as [g'|] eqn:Hj'.
  - destruct (index_key_spec groups Hsorted Hne j g Hj) as (_ & _ & _ & _ & Hsep).
    rewrite (Hsep g' Hj'), Elast in Hkey.
    erewrite drop_S in Hkv by exact Hj'. cbn [concat] in Hkv.
    pose proof (group_not_empty groups Hne _ _ Hj'). destruct g' as [|kv' g']; [done|].
    injection Hkv as <-. exact Hkey.
  - apply lookup_ge_None in Hj'. rewrite drop_ge in Hkv by done. done.
Qed.
(** *** Lookup *)

(** The index block has a key at or after [k]. *)
Definition reaches (k : bytes) : bool := bool_decide (Exists (fun e : bytes * bytes => ~ Compare e.1 k < 0) index_kvs).

Lemma reaches_lookup k : reaches k = match index_kvs !! length (below k index_kvs) with Some _ => true | None => false end.
Proof.
  unfold reaches. case_bool_decide as Hr.
  - apply Exists_exists in Hr as (e & He & Hge). destruct (lookup_lt_is_Some_2 index_kvs (length (below k index_kvs))) as [x ->]; [by eapply length_filter_lt|done].
  - rewrite lookup_ge_None_2; [done|]. revert Hr. generalize index_kvs. clear. intros es. induction es as [|e es IH]; [done|]. rewrite Exists_cons. intros [He Hes]%Decidable.not_or.
    rewrite filter_cons_True by (destruct (decide (Compare e.1 k < 0)); [done|by destruct He]). cbn [length]. apply le_n_S. by apply IH.
Qed.

(** So it has when an entry is at or after [k]. *)
Lemma reaches_entry k kv : valid_key k -> kv ∈ kvs -> ~ Compare kv.1 k < 0 -> reaches k = true.
Proof.
  intros Hk Hkv Hge. rewrite reaches_lookup. destruct (index_kvs !! _) eqn:E; [done|]. apply lookup_ge_None in E. exfalso.
  pose proof (length_filter (fun e : bytes * bytes => Compare e.1 k < 0) index_kvs). rewrite length_fmap, length_index_entries in *.
  pose proof (length_filter_lt (fun e : bytes * bytes => Compare e.1 k < 0) kvs kv Hkv Hge) as Hlt. rewrite locate_past in Hlt by (done || lia). lia.
Qed.

(** The entry at or after [k]: the answer [kv] may be missed only when [k]
    lies between the end of a block and its separator. *)
Lemma InternalGet_ok t counts oc ro k :
  table_state t counts -> cache_good (Table.cache_id t) oc -> valid_key k -> 0 <= init_filter_nums opt ->
  exists r t' counts' oc' ro', Table.InternalGet t oc ro k = Some (r, t', oc', ro') /\
    table_state t' counts' /\ Table.cache_id t' = Table.cache_id t /\ cache_good (Table.cache_id t) oc' /\
    Table.get_status r = Status_OK /\
    (Table.saved r = None \/ Table.saved r = kvs !! length (below k kvs)) /\
    (forall kv, kvs !! length (below k kvs) = Some kv ->
       (forall fs, KeyMayMatchFilters k fs = KeyMayMatchFilters kv.1 fs) ->
       Table.saved r = Some kv \/
       exists l, l ∈ kvs /\ Compare l.1 k < 0 /\ ~ Compare (FindShortestSeparator l.1 kv.1) k < 0) /\
    grown counts counts' /\
    (if reaches k then exists id, 1 <= id <= Z.of_nat regions /\
       Table.region_name r = Some (EncodeFixed64 (Table.file_number ro) ++ EncodeFixed32 id) else Table.region_name r = None).
Proof.
  intros Ht Hc Hk Hinit. rewrite reaches_lookup. unfold Table.InternalGet. rewrite (ts_index _ _ Ht).
  destruct (bi_seek_at 1 index_kvs index_cursor _ _ k index_open_at Hk) as (it & -> & Hat). cbn [mbind option_bind].
  pose proof (bi_at_status 1 index_kvs index_cursor it _ Hat) as Hst.
  destruct (cur_shows _ _ index_cursor it _ Hat) as [_ Hs].
  remember (length (below k index_kvs)) as j eqn:Hj. symmetry in Hj.
  destruct (index_kvs !! j) as [kv|] eqn:Hkv.
  2: { simpl in Hs. rewrite Hs, Hst. cbn [negb]. exists (Table.MkGet Status_OK None None), t, counts, oc, ro.
    assert (Hnone : kvs !! length (below k kvs) = None); [|split_and!; try done; [by left|by rewrite Hnone|by intros ? ? ?]].
    rewrite locate_past; [by rewrite lookup_ge_None_2|done|].
    rewrite Hj. apply lookup_ge_None in Hkv. pose proof (cur_le _ _ index_cursor it _ Hat).
    rewrite length_fmap, length_index_entries in *. lia. }
  destruct (index_kv_lookup opt groups j kv Hkv) as (g & Hg & ->).
  destruct Hs as (Hval & _ & Hv). simpl in Hval, Hv. rewrite Hval, Hv. cbn [negb].
  rewrite <- (app_nil_r (handle_bytes _)), Handle_DecodeFrom_Encode, app_nil_r by (by apply data_handle_ok).
  destruct (bt_regions _ _ _ _ _ _ _ Hbt) as [HRF Hrds].
  rewrite (proj2 (Z.eqb_neq _ 0)) by (rewrite (ts_options _ _ Ht), Hrds; change kFilterBase with 65536; lia).
  cbn [offset block_handle].
  destruct (first_access_ok t counts j g Ht Hg Hinit) as (t1 & counts1 & -> & Ht1 & Hid1 & Hgrown). cbn [mbind option_bind ok Status_OK].
  rewrite <- Hid1 in Hc.
  destruct (may_match_some t1 counts1 j g k Ht1 Hg) as (b & Hb & Hmatch).
  pose proof (block_answer k j g Hk Hj Hg) as Hans.
  assert (Hm : exists matched, (if match filter (Table.rep t) with Some _ => true | None => false end && true
      then may_match (Table.rep t1) (block_off j) k else Some true) = Some matched /\ (matched = true \/ matched = b)).
  { destruct (filter (Table.rep t)); [exists b|exists true]; simpl; auto. }
  destruct Hm as (matched & -> & Hmb). cbn [mbind option_bind].
  assert (Hsearch : exists saved oc' reads, (if matched then
        '(s, saved, t', oc') ← Table.search_block t1 oc ro (handle_bytes (block_handle opt (block_off j) (data_raw opt g))) k;
        Some (s, saved, t', oc', 1) else Some (Status_OK, None, t1, oc, 0))
      = Some (Status_OK, saved, t1, oc', reads) /\ cache_good (Table.cache_id t1) oc' /\
      saved = if matched then g !! length (below k g) else None).
  { destruct matched; [|by exists None, oc, 0].
    destruct (search_block_ok t1 counts1 oc ro j g k Ht1 Hc Hg Hk) as (oc' & -> & Hc'). by exists (g !! length (below k g)), oc', 1. }
  destruct Hsearch as (saved & oc' & reads & -> & Hc' & Hsaved). cbn [mbind option_bind].
  destruct (count_access_ok t1 counts1 (block_off j) Ht1) as (t2 & -> & Ht2 & Hid2). cbn [mbind option_bind ok Status_OK].
  eexists _, t2, counts1, oc', _. split; [reflexivity|]. rewrite Hst. cbn [Table.get_status Table.saved].
  split_and!; [done|congruence|by rewrite <- Hid1|done| | |done|].
  - destruct (g !! _) as [kv|]; [rewrite Hans|]; destruct matched; auto.
  - intros kv Hkv' Hsame. destruct (g !! length (below k g)) as [kv'|] eqn:Hl; [|right; by apply Hans].
    rewrite Hans in Hkv'. injection Hkv' as ->. apply list_elem_of_lookup_2 in Hl. pose proof (Hmatch kv Hl Hsame) as Eb. subst b.
    left. by destruct Hmb as [Em|Em]; rewrite Em in Hsaved.
  - destruct (region_id_ok t counts j g Ht Hg) as [Eid Hr]. exists (Table.region_id t (block_off j)). split; [|done]. lia.
Qed.
End Get.
