(* ===== verification/TableLookup.v ===== *)
(** * TableLookup: from the entries of a table to the answers of its lookups

    The contract of src/LSM-EBF/table/ as the rest of the database uses it: a
    table built from sorted internal keys, opened and used (lookups, elastic
    adjustments of its filters, a block cache shared with other tables) answers
    a lookup of (user key, snapshot) with the newest visible entry. *)
From stdpp Require Import gmap.
From S2P Require Import Prelude Coding Crc32c Status Bloom Comparator DbFormat TableFormat Block Iterators.
From S2P Require Import FilterBlock TableFilters TableBuilder Table Cache ShardedCache TableOpen TableIndex TableGet.
Import TableBuilder.

(** ** The table a builder leaves behind *)

(** Options under which a table with elastic filters is built and opened. *)
Record table_options {P : FilterPolicy} (opt : Options) (name : bytes) (RF : Z) : Prop := {
  to_policy : filter_policy opt = Some name;
  to_name : bytes_ok name /\ zlen name < 2 ^ 20;
  to_interval : 1 <= block_restart_interval opt;
  to_nums : (0 < filterNums <= 10)%nat;
  to_init : 0 <= init_filter_nums opt <= Z.of_nat filterNums;
  to_regions : 0 < RF /\ opt_region_divide_size opt = RF * kFilterBase;
  to_freq : 1 <= opt_kFilterBaseLg opt <= 31 /\ 0 < freq_divide_size opt < 2 ^ 62
}.

(** Entries a table can be built from. *)
Record table_entries `{!Comparator} {P : FilterPolicy} (kvs : list (bytes * bytes)) : Prop := {
  te_some : kvs <> [];
  te_sorted : sorted_kvs kvs;
  te_kv : Forall kv_ok kvs;
  te_cost : data_cost kvs < 2 ^ 31;
  te_keys : forall l, (length l <= length kvs)%nat -> keys_ok l
}.

Lemma result_in_text `{!Crc32c} results r : r ∈ results -> zlen r <= zlen (filters_text results).
Proof.
  intros Hr. unfold filters_text. induction results as [|x results IH]; [by apply not_elem_of_nil in Hr|].
  cbn [fmap list_fmap concat]. rewrite zlen_app, stored_block_length.
  pose proof (zlen_nonneg x). pose proof (zlen_nonneg (concat ((fun r => stored_block r kNoCompression) <$> results))).
  apply elem_of_cons in Hr as [->|Hr]; [unfold kBlockTrailerSize; lia|]. specialize (IH Hr). unfold kBlockTrailerSize. lia.
Qed.

(** Metadata the caller may hand to [Open]: none, or that of the builder with
    the number of filters to load. *)
Definition own_meta `{!FilterPolicy} (r : Rep) (meta : option TableMetaData) : Prop :=
  match meta with
  | None => True
  | Some m => exists n built, head (load_filter_num m) = Some n /\ 0 <= n <= Z.of_nat filterNums /\
      tableMetaData_ r = Some built /\ filter_data m = filter_data built
  end.

Section Contract.
Context `{!Crc32c, !Snappy} {C : Comparator} {L : ComparatorLaws C} {P : FilterPolicy} {PL : FilterPolicyLaws P}.
Context {BC : BlockCache} {BL : BlockCacheLaws BC}.

Lemma build_built opt name RF kvs : table_options opt name RF -> table_entries kvs ->
  exists r groups results fb outs, build_table opt (WFile [] []) kvs = Some (Status_OK, r) /\
    concat groups = kvs /\ file r = WFile (table_text opt groups results (Some fb)) [] /\
    tableMetaData_ r = Some (MkMetaData (index_raw opt groups) results []) /\ NumEntries r = zlen kvs /\
    (zlen (table_text opt groups results (Some fb)) < 2 ^ 27 -> built_table opt name groups results fb outs RF).
Proof.
  intros Ho He. pose proof (to_nums _ _ _ Ho) as Hn.
  destruct (build_table_ok opt (length kvs)) with (kvs := kvs)
    as (r & groups & results & fb & Hb & Hcat & Hgs & Hf & Hfile & Hmeta & Hnum & _); [|lia| |].
  { intros _. split; [lia|apply (te_keys _ He)]. }
  { pose proof (te_cost _ He). lia. }
  unfold filters_of in Hf. rewrite (to_policy _ _ _ Ho) in Hf. destruct Hf as (b & b' & -> & Hrb & Hlen & Hadd & Hfin).
  destruct (table_filters_built (filter_input opt 0 groups [])) as (b0 & outs & results0 & b0' & Hadd0 & Hfin0 & _ & _ & Hsame & Hcov & Hsz).
  { lia. }
  { intros l Hl. apply (te_keys _ He). by rewrite filter_input_count, app_nil_r, Hcat in Hl. }
  { apply filter_input_offsets. }
  rewrite Hadd in Hadd0. injection Hadd0 as <-. rewrite Hfin in Hfin0. injection Hfin0 as <- <-.
  exists r, groups, results, b', outs. split_and!; try done. intros Hsmall.
  destruct Hsz as [Hpos Hblk].
  { apply Forall_forall. intros x Hx. pose proof (result_in_text results x Hx) as Hl.
    unfold table_text in Hsmall. rewrite 2!zlen_app in Hsmall. pose proof (zlen_nonneg (data_text opt groups)).
    match type of Hsmall with _ + (_ + zlen ?y) < _ => pose proof (zlen_nonneg y) end.
    lia. }
  pose proof (te_some _ He) as Hsome.
  split; try done; try apply Ho; try (rewrite Hcat; apply He).
  - intros ->. simpl in Hcat. by symmetry in Hcat.
  - destruct groups as [|[|kv g] groups]; [by symmetry in Hcat|by apply Forall_cons in Hgs as [? _]|].
    destruct (Hcov 0 (fst <$> kv :: g) kv.1) as (o & Ho' & _); [by left|by left|].
    apply lookup_lt_Some in Ho'. lia.
Qed.

(** ** Use of an open table *)

(** The number of filters each region holds, as the table reports it. *)
Definition current_counts (t : Table.Table) : list Z :=
  (fun r => default 0 (getCurrFilterNum (Table.rep t) (Z.of_nat r))) <$> seq 0 (Z.to_nat (getRegionNum (Table.rep t))).

(** The states of a table and the block cache under a client that looks keys
    up and adjusts filters within the asserted preconditions, while other
    tables, with other ids, use the cache. *)
Inductive reach : Table.Table * option cache -> Table.Table * option cache -> Prop :=
  | reach_refl st : reach st st
  | reach_get st t oc ro k r t' oc' ro' :
      reach st (t, oc) -> valid_key k -> Table.InternalGet t oc ro k = Some (r, t', oc', ro') ->
      reach st (t', oc')
  | reach_adjust st t oc op rep' :
      reach st (t, oc) -> is_Some (counts_step (current_counts t) op) ->
      table_step (Table.rep t) op = Some rep' -> reach st (Table.with_rep t rep', oc)
  | reach_cache st t c c' :
      reach st (t, Some c) ->
      (forall off b, may_hold c' (Table.cache_key (Table.cache_id t) off) b ->
                     may_hold c (Table.cache_key (Table.cache_id t) off) b) ->
      reach st (t, Some c').

(** Nothing is cached under the id the new table gets. *)
Definition cache_fresh (oc : option cache) : Prop :=
  forall c off b, oc = Some c -> ~ may_hold c (Table.cache_key (cache_NewId c).1 off) b.

Section Use.
Context (opt : Options) (name : bytes) (groups : list (list (bytes * bytes))) (results : list bytes).
Context (fb : FilterBlockBuilder) (outs : list (list bytes)) (RF : Z).
Context (Hbt : built_table opt name groups results fb outs RF) (Hinit : 0 <= init_filter_nums opt).

Abbreviation state := (table_state opt groups results fb outs RF).
Abbreviation good := (cache_good opt groups).

Lemma current_counts_ok t counts : state t counts -> current_counts t = counts.
Proof.
  intros Ht. pose proof (ts_rep _ _ _ _ _ _ _ _ Ht) as Hr. pose proof (table_written _ _ _ _ _ _ _ Hbt) as Hw.
  unfold current_counts. rewrite (getRegionNum_ok _ _ _ _ _ Hw _ _ Hr), Nat2Z.id, <- (tk_counts _ _ _ _ _ _ _ Hr).
  apply list_eq. intros r. rewrite list_lookup_fmap. destruct (counts !! r) as [c|] eqn:Hc.
  - rewrite lookup_seq_lt by (by eapply lookup_lt_Some). simpl.
    by rewrite (getCurrFilterNum_ok _ _ _ _ _ _ _ _ _ Hr Hc).
  - by rewrite lookup_seq_ge by (by apply lookup_ge_None).
Qed.

Lemma adjust_state t counts op : state t counts -> is_Some (counts_step (current_counts t) op) ->
  exists rep' counts', table_step (Table.rep t) op = Some rep' /\ state (Table.with_rep t rep') counts'.
Proof.
  intros Ht [counts' Hs]. rewrite (current_counts_ok t counts Ht) in Hs.
  destruct (table_step_ok _ _ _ _ _ _ _ op counts' (table_written _ _ _ _ _ _ _ Hbt) (ts_rep _ _ _ _ _ _ _ _ Ht) Hs)
    as (rep' & Hst & Hrep'). exists rep', counts'. split; [done|]. by destruct Ht.
Qed.

(** The invariant of use. *)
Lemma reach_state t oc t' oc' counts : reach (t, oc) (t', oc') -> state t counts -> good (Table.cache_id t) oc ->
  exists counts', state t' counts' /\ good (Table.cache_id t') oc'.
Proof.
  intros Hr Ht Hg. remember (t', oc') as st' eqn:E. remember (t, oc) as st eqn:E0.
  revert t oc t' oc' E E0 Ht Hg. induction Hr as
    [st|st t1 oc1 ro k r t2 oc2 ro2 Hr IH Hk Hget|st t1 oc1 op rep' Hr IH Hop Hst|st t1 c c' Hr IH Hc];
    intros t oc t' oc' E E0 Ht Hg; subst st.
  - simplify_eq. by exists counts.
  - injection E as <- <-. destruct (IH t oc t1 oc1 eq_refl eq_refl Ht Hg) as (counts1 & Ht1 & Hg1).
    destruct (InternalGet_ok _ _ _ _ _ _ _ Hbt t1 counts1 oc1 ro k Ht1 Hg1 Hk Hinit)
      as (r' & t2' & counts2 & oc2' & ro2' & Hget' & Ht2 & Hid & Hg2 & _).
    rewrite Hget in Hget'. injection Hget' as <- <- <- <-. exists counts2. by rewrite Hid.
  - injection E as <- <-. destruct (IH t oc t1 oc1 eq_refl eq_refl Ht Hg) as (counts1 & Ht1 & Hg1).
    destruct (adjust_state t1 counts1 op Ht1 Hop) as (rep2 & counts2 & Hst' & Ht2).
    rewrite Hst in Hst'. injection Hst' as <-. by exists counts2.
  - injection E as <- <-. destruct (IH t oc t1 (Some c) eq_refl eq_refl Ht Hg) as (counts1 & Ht1 & Hg1).
    exists counts1. split; [done|]. intros c0 j g b [= <-] Hj Hm. eapply Hg1; [done|exact Hj|by apply Hc].
Qed.

Lemma open_good oc : cache_fresh oc -> good (new_id oc).1 (new_id oc).2.
Proof.
  intros Hf c j g b Hc Hj Hm. destruct oc as [c0|]; [|done]. simpl in *.
  specialize (Hf c0 (zlen (data_text opt (take j groups))) b eq_refl). pose proof (newid_keeps c0) as Hk.
  destruct (cache_NewId c0) as [id c1]. simpl in *. injection Hc as <-. by apply Hk in Hm.
Qed.
End Use.

(** A table that is built, opened and used stays in a good state. *)
Lemma built_and_used opt name RF kvs : table_options opt name RF -> table_entries kvs ->
  exists r groups results fb outs,
    build_table opt (WFile [] []) kvs = Some (Status_OK, r) /\ concat groups = kvs /\
    file r = WFile (table_text opt groups results (Some fb)) [] /\ NumEntries r = zlen kvs /\
    let text := table_text opt groups results (Some fb) in
    (zlen text < 2 ^ 27 -> built_table opt name groups results fb outs RF /\
     forall oc meta, cache_fresh oc -> own_meta r meta ->
     exists t charge oc',
       Table.Open opt (RFile text []) (zlen text) oc meta = Some (Status_OK, Some (t, charge), RFile text [], oc') /\
       forall t1 oc1, reach (t, oc') (t1, oc1) ->
         exists counts, table_state opt groups results fb outs RF t1 counts /\ cache_good opt groups (Table.cache_id t1) oc1).
Proof.
  intros Ho He. destruct (build_built opt name RF kvs Ho He) as (r & groups & results & fb & outs & Hb & Hcat & Hfile & Hmeta & Hnum & Hbt).
  exists r, groups, results, fb, outs. split_and!; [done..|]. intros text Hsz. specialize (Hbt Hsz). split; [done|].
  intros oc meta Hfresh Hown. pose proof (to_init _ _ _ Ho) as Hinit.
  assert (Hn : exists n, 0 <= n <= Z.of_nat filterNums /\ meta_for opt results meta n).
  { destruct meta as [m|]; simpl in *.
    - destruct Hown as (n & built & Hn & Hrange & Hbuilt & Hd). rewrite Hmeta in Hbuilt. injection Hbuilt as <-. by exists n.
    - eexists. split; [|reflexivity]. case_match; lia. }
  destruct Hn as (n & Hn & Hfor).
  destruct (Open_ok _ _ _ _ _ _ _ Hbt oc meta n Hn Hfor) as (t & charge & Hopen & Ht & Hid).
  exists t, charge, (new_id oc).2. split; [exact Hopen|]. intros t1 oc1 Hreach.
  pose proof (open_good opt groups oc Hfresh) as Hg. rewrite <- Hid in Hg.
  exact (reach_state _ _ _ _ _ _ _ Hbt ltac:(lia) _ _ _ _ _ Hreach Ht Hg).
Qed.
End Contract.

(** ** Versions of a user key *)

(** The newest entry of [u] at snapshot [s]: the first in the internal order. *)
Definition visible (u : bytes) (s : Z) (kvs : list (bytes * bytes)) : option (bytes * bytes) :=
  head (base.filter (fun kv => ExtractUserKey kv.1 = u /\
    ExtractTag kv.1 <= PackSequenceAndType s kValueTypeForSeek) kvs).

(** [SaveValue] of version_set.cc ignores an entry of another user key. *)
Definition of_user (u : bytes) (found : option (bytes * bytes)) : option (bytes * bytes) :=
  kv ← found; if bool_decide (ExtractUserKey kv.1 = u) then Some kv else None.

Section Versions.
#[local] Existing Instance BytewiseComparator.
Abbreviation internal := (@InternalKeyComparator BytewiseComparator).
Context (u : bytes) (s : Z) (Hu : bytes_ok u) (Hs : seq_ok s).
Abbreviation target := (LookupKey.internal_key (LookupKey.make u s)).
Abbreviation tag := (PackSequenceAndType s kValueTypeForSeek).

Lemma target_valid : @valid_key internal target.
Proof. rewrite lookup_internal_key. by apply valid_ikey. Qed.

Lemma below_target k : @Compare internal k target < 0 <->
  lex (ExtractUserKey k) u < 0 \/ (ExtractUserKey k = u /\ tag < ExtractTag k).
Proof.
  simpl. rewrite internal_compare_lt, lookup_internal_key, ExtractUserKey_ikey, ExtractTag_ikey by (by apply Pack_range).
  change (@Compare BytewiseComparator) with Bytewise.compare. unfold Bytewise.compare. rewrite Slice_compare_lex. by rewrite lex_eq.
Qed.

(** The first entry not below the lookup key is the newest visible one, if it
    has the user key at all. *)
Lemma first_visible kvs : sorted_kvs (C := internal) kvs ->
  of_user u (kvs !! length (base.filter (fun kv => @Compare internal kv.1 target < 0) kvs)) = visible u s kvs.
Proof.
  intros Hsorted. destruct (seek_split (C := internal) kvs target Hsorted target_valid) as (l1 & l2 & -> & -> & H1 & H2).
  rewrite lookup_app_r, Nat.sub_diag by lia. unfold visible. rewrite filter_app.
  rewrite (filter_none _ l1), app_nil_l.
  2: { intros kv Hkv [Hku Ht]. specialize (H1 kv Hkv). rewrite below_target, Hku, lex_refl in H1. destruct H1 as [?|[_ ?]]; lia. }
  destruct l2 as [|kv l2]; [done|].
  assert (Hhi : forall x, x ∈ kv :: l2 -> lex u (ExtractUserKey x.1) < 0 \/ (ExtractUserKey x.1 = u /\ ExtractTag x.1 <= tag)).
  { intros x Hx. specialize (H2 x Hx). rewrite below_target in H2. rewrite lex_opp.
    destruct (Z.eq_dec (lex (ExtractUserKey x.1) u) 0) as [E%lex_eq|]; [right; split; [done|]|left; lia].
    apply Z.nlt_ge. intros Hgt. apply H2. by right. }
  simpl. unfold of_user. simpl. case_bool_decide as Hku.
  - destruct (Hhi kv ltac:(by left)) as [Hlt|[_ Ht]]; [rewrite Hku, lex_refl in Hlt; lia|].
    by rewrite filter_cons_True.
  - rewrite filter_none; [done|]. intros x Hx [Hxu _].
    destruct (Hhi kv ltac:(by left)) as [Hlt|[? _]]; [|done].
    apply elem_of_cons in Hx as [->|Hx]; [done|].
    apply sorted_kvs_app_inv in Hsorted as (_ & Hsorted & _).
    apply (sorted_kvs_app_inv [kv] l2) in Hsorted as (_ & _ & Hord).
    specialize (Hord kv x ltac:(by left) Hx). simpl in Hord. rewrite internal_compare_lt, Hxu in Hord.
    change (@Compare BytewiseComparator) with Bytewise.compare in Hord. unfold Bytewise.compare in Hord.
    rewrite Slice_compare_lex, lex_eq, (lex_opp u) in Hord. destruct Hord as [?|[? _]]; [lia|done].
Qed.

(** No separator of the internal order comes between a lookup key and an entry
    of its user key. *)
Lemma separator_below l k : @valid_key internal l -> @valid_key internal k ->
  ExtractUserKey k = u -> @Compare internal l target < 0 ->
  @Compare internal (@FindShortestSeparator internal l k) target < 0.
Proof.
  intros (_ & _ & Hl) (_ & _ & Hk) Hku Hlt.
  destruct (internal_separator_cases l k) as [E|(tmp & Htmp & Hz & _ & E)]; simpl; rewrite E; [exact Hlt|].
  change (internal_compare ?a target) with (@Compare internal a target). rewrite below_target, ExtractUserKey_ikey. left.
  destruct (sep_between (ExtractUserKey l) (ExtractUserKey k) Hl Hk) as [E'|[_ E']]; [subst tmp; rewrite E' in Hz; lia|].
  rewrite <- Htmp, Hku in E'. simpl in E'. unfold Bytewise.compare in E'. by rewrite Slice_compare_lex in E'.
Qed.
End Versions.

(** ** Properties *)

Section Lookup.
Context `{!Crc32c, !Snappy} {BC : BlockCache} {BL : BlockCacheLaws BC}.
Context (bits : list Z) (bpk : Z) {PL : FilterPolicyLaws (InternalPolicy bits bpk)}.

#[local] Instance db_comparator : Comparator := @InternalKeyComparator BytewiseComparator.
#[local] Instance db_policy : FilterPolicy := InternalPolicy bits bpk.

Lemma lookup_visible opt name groups results fb outs RF t counts oc ro u s :
  built_table opt name groups results fb outs RF -> 0 <= init_filter_nums opt ->
  table_state opt groups results fb outs RF t counts -> cache_good opt groups (Table.cache_id t) oc ->
  bytes_ok u -> seq_ok s ->
  exists res t' oc' ro', Table.InternalGet t oc ro (LookupKey.internal_key (LookupKey.make u s)) = Some (res, t', oc', ro') /\
    Table.get_status res = Status_OK /\ of_user u (Table.saved res) = visible u s (concat groups).
Proof.
  intros Hbt Hinit Ht Hg Hu Hs.
  destruct (InternalGet_ok _ _ _ _ _ _ _ Hbt t counts oc ro _ Ht Hg (target_valid u s Hu) Hinit)
    as (res & t' & counts' & oc' & ro' & Hget & _ & _ & _ & Hst & Hsaved & Hfound & _).
  exists res, t', oc', ro'. split_and!; [done..|].
  pose proof (bt_sorted _ _ _ _ _ _ _ Hbt) as Hsorted.
  pose proof (first_visible u s Hu Hs (concat groups) Hsorted) as Hfv.
  change (@InternalKeyComparator BytewiseComparator) with db_comparator in Hfv. rewrite <- Hfv. clear Hfv.
  destruct Hsaved as [Hnone|Hsome]; [|by rewrite Hsome]. rewrite Hnone in Hfound |- *.
  destruct (concat groups !! _) as [kv|] eqn:Hkv; [|done]. simpl. unfold of_user. simpl. case_bool_decide as Hku; [|done].
  exfalso. destruct (Hfound kv eq_refl) as [|(l & Hl & Hlt & Hsep)]; [|done|].
  - intros fs. simpl. unfold InternalFilterPolicy.KeyMayMatchFilters. f_equal.
    by rewrite lookup_internal_key, ExtractUserKey_ikey, Hku.
  - apply Hsep. destruct Hsorted as [Hv _]. rewrite Forall_forall in Hv.
    apply separator_below; [done|by apply Hv|apply Hv; by eapply list_elem_of_lookup_2|done|done].
Qed.

(** C1. Tables are correct end to end.  Build a table from entries in internal
    key order (any entries a block can hold), with elastic filters over user
    keys; open the file, from disk or with the builder's metadata, with any
    block cache that obeys its contract.  However the table is then used (any
    lookups, any adjustments of its filters that respect the asserted
    preconditions, other tables filling the cache), every adjustment succeeds
    and every lookup of a user key at a snapshot succeeds and passes to the
    saver the newest entry of that key at or before the snapshot, or no entry
    of that key when there is none. *)
Theorem table_lookup_newest opt name RF kvs :
  table_options opt name RF -> table_entries kvs ->
  exists r text,
    build_table opt (WFile [] []) kvs = Some (Status_OK, r) /\ file r = WFile text [] /\
    NumEntries r = zlen kvs /\
    (zlen text < 2 ^ 27 -> forall oc meta, cache_fresh oc -> own_meta r meta ->
     exists t charge oc',
       Table.Open opt (RFile text []) (zlen text) oc meta = Some (Status_OK, Some (t, charge), RFile text [], oc') /\
       forall t1 oc1, reach (t, oc') (t1, oc1) ->
         (forall op, is_Some (counts_step (current_counts t1) op) -> is_Some (table_step (Table.rep t1) op)) /\
         forall u s ro, bytes_ok u -> seq_ok s ->
           exists res t2 oc2 ro2,
             Table.InternalGet t1 oc1 ro (LookupKey.internal_key (LookupKey.make u s)) = Some (res, t2, oc2, ro2) /\
             Table.get_status res = Status_OK /\ of_user u (Table.saved res) = visible u s kvs).
Proof.
  intros Ho He. destruct (built_and_used opt name RF kvs Ho He) as (r & groups & results & fb & outs & Hb & Hcat & Hfile & Hnum & Huse).
  exists r, (table_text opt groups results (Some fb)). split_and!; [done..|].
  intros Hsz oc meta Hfresh Hown. destruct (Huse Hsz) as [Hbt Hopen]. pose proof (to_init _ _ _ Ho) as Hinit.
  destruct (Hopen oc meta Hfresh Hown) as (t & charge & oc' & Ho' & Hreach). exists t, charge, oc'. split; [exact Ho'|].
  intros t1 oc1 Hr. destruct (Hreach t1 oc1 Hr) as (counts1 & Ht1 & Hg1). split.
  - intros op Hop. destruct (adjust_state _ _ _ _ _ _ _ Hbt t1 counts1 op Ht1 Hop) as (rep' & _ & -> & _). by eexists.
  - intros u s ro Hu Hs. rewrite <- Hcat. apply (lookup_visible opt name groups results fb outs RF t1 counts1); [done|lia|done..].
Qed.
End Lookup.

(** An LRU cache of 8 MB, and a table of five entries in three blocks. *)
Definition example_shards : Sharded.ShardedLRUCache Block :=
  default (Sharded.MkSharded [] 0) (Sharded.make (8 * 1024 * 1024)).

Lemma example_shards_quiet : Sharded.quiet example_shards.
Proof. unfold example_shards. destruct (Sharded.make_quiet (V := Block) (8 * 1024 * 1024)) as (s & -> & Hq). exact Hq. Qed.

Lemma example_shards_empty k b : ~ Sharded.shard_holds example_shards k b.
Proof.
  intros (c & Hc & a & h & Hh & _). assert (E : LRU.heap c = ∅).
  { assert (Hall : Forall (fun c => LRU.heap c = ∅) (Sharded.shard_ example_shards)) by (vm_compute; repeat constructor).
    by apply (Forall_lookup_1 _ _ _ _ Hall Hc). }
  by rewrite E, lookup_empty in Hh.
Qed.

#[local] Existing Instances Sharded.lru_block_cache Sharded.lru_block_cache_laws.

Definition example_cache : cache := Some (exist _ example_shards example_shards_quiet).

Definition example_key (u : bytes) (s : Z) : bytes := DbFormat.ikey u (PackSequenceAndType s kTypeValue).

Definition example_kvs : list (bytes * bytes) :=
  [(example_key [97] 5, [1]); (example_key [97] 3, [2]); (example_key [98; 98; 98] 7, [3]);
   (example_key [100; 1; 1; 1] 7, [4; 4]); (example_key [100; 1; 1; 9] 7, [4; 4; 6])].

Definition example_options : Options :=
  MkOptions 0 true 40 2 kNoCompression (Some (str "bloom")) true 2 65536 65536 16.

Section Example.
#[local] Existing Instance db_comparator.
#[local] Instance example_filters : FilterPolicy := InternalPolicy [4; 8; 8; 0] 20.
#[local] Instance example_crc : Crc32c := crc32c_portable 0.


Lemma example_filter_laws : FilterPolicyLaws example_filters.
Proof. apply InternalPolicy_laws. vm_compute. discriminate. Qed.

Lemma example_options_ok : table_options example_options (str "bloom") 1.
Proof.
  split; try done; try (vm_compute; repeat split; (discriminate || lia)).
  split; [by_decide|reflexivity].
Qed.

Lemma example_entries_ok : table_entries example_kvs.
Proof.
  split.
  - discriminate.
  - repeat (apply sorted_kvs_cons; [| |apply Forall_forall; by_decide]); try apply sorted_kvs_nil;
      split_and!; by_decide.
  - by_decide.
  - reflexivity.
  - intros l Hl. change (length l <= 5)%nat in Hl. simpl. unfold multi_keys_ok, zlen. repeat constructor; lia.
Qed.

Definition text_of (o : option (Status * Rep)) : bytes :=
  match o with Some (_, r) => contents (file r) | None => [] end.

Definition opened_of (o : option (Status * option (Table.Table * option (list Z)) * RandomAccessFile * option cache))
    : option (Table.Table * option cache) :=
  match o with Some (_, Some (t, _), _, oc) => Some (t, oc) | _ => None end.

Definition example_text : bytes := Eval vm_compute in
  text_of (build_table example_options (WFile [] []) example_kvs).

Definition example_opened : option (Table.Table * option cache) := Eval vm_compute in
  opened_of (Table.Open example_options (RFile example_text []) (zlen example_text) (Some example_cache) None).

Lemma table_lookup_newest_witness :
  exists t oc t1 res t2 oc2 ro2,
    example_opened = Some (t, oc) /\ table_step (Table.rep t) (OpRemove 1 0) = Some (Table.rep t1) /\
    Table.InternalGet t1 oc (Table.MkReadOptions true true 9 0 0)
      (LookupKey.internal_key (LookupKey.make [97] 4)) = Some (res, t2, oc2, ro2) /\
    of_user [97] (Table.saved res) = Some (example_key [97] 3, [2]).
Proof.
  destruct (table_lookup_newest (PL := example_filter_laws) [4; 8; 8; 0] 20 example_options (str "bloom") 1 example_kvs
    example_options_ok example_entries_ok) as (r & text & Hb & Hfile & _ & Hall).
  assert (Ht : text = example_text).
  { replace text with (text_of (Some (Status_OK, r))) by (simpl; by rewrite Hfile).
    rewrite <- Hb. vm_compute. reflexivity. }
  subst text. destruct (Hall ltac:(vm_compute; reflexivity) (Some example_cache) None) as (t & charge & oc & Hopen & Huse);
    [intros c off b [= <-]; apply example_shards_empty|done|].
  assert (Ho : example_opened = Some (t, oc)).
  { change (Some (t, oc)) with (opened_of (Some (Status_OK, Some (t, charge), RFile example_text [], oc))).
    rewrite <- Hopen. vm_compute. reflexivity. }
  assert (Hop : is_Some (counts_step (current_counts t) (OpRemove 1 0))).
  { assert (Hc : current_counts t = [2]); [|rewrite Hc; by eexists].
    injection Ho as <- _. vm_compute. reflexivity. }
  destruct (proj1 (Huse t oc (reach_refl _)) (OpRemove 1 0) Hop) as [rep' Hstep].
  destruct (Huse (Table.with_rep t rep') oc) as [_ Hget]; [by eapply reach_adjust; [apply reach_refl|..]|].
  destruct (Hget [97] 4 (Table.MkReadOptions true true 9 0 0)) as (res & t2 & oc2 & ro2 & Hg & _ & Hv);
    [by_decide|split; vm_compute; discriminate|].
  exists t, oc, (Table.with_rep t rep'), res, t2, oc2, ro2. split_and!; [done|done|done|].
  rewrite Hv. vm_compute. reflexivity.
Defined.
End Example.
