(* ===== verification/TableIter.v ===== *)
(** * TableIter: scanning a table

    [Table::NewIterator] of src/LSM-EBF/table/table.cc: the two-level iterator
    over the index block and the blocks that [BlockReader] opens. *)
From S2P Require Import Prelude Coding Crc32c Status Bloom Comparator DbFormat TableFormat Block Iterators TwoLevel.
From S2P Require Import FilterBlock TableFilters TableBuilder Table Cache ShardedCache TableOpen TableIndex TableGet TableLookup.
Import TableBuilder.

Section NewIterator.
Context `{!Crc32c, !Snappy, !Comparator, !FilterPolicy, !BlockCache}.

Definition block_reader (ro : Table.ReadOptions) (e : Table.Table * option cache) (index_value : bytes)
    : BIter * (Table.Table * option cache) :=
  let '(it, t, oc) := Table.BlockReader e.1 e.2 ro index_value in (it, (t, oc)).

Definition Table_NewIterator (t : Table.Table) (oc : option cache) : @TwoLevelIterator BIter BIter (Table.Table * option cache) :=
  NewTwoLevelIterator (t, oc) (bi_open (Table.t_index_block t)).

(** An index entry takes at least a byte of the block. *)
Definition table_fuel (t : Table.Table) : nat := (length (data_ (Table.t_index_block t)) + 2)%nat.

Definition Table_Iterator (ro : Table.ReadOptions) (t : Table.Table)
    : Iterator (@TwoLevelIterator BIter BIter (Table.Table * option cache)) :=
  TwoLevel_Iterator (block_reader ro) (table_fuel t).
End NewIterator.

Section Scan.
Context `{!Crc32c, !Snappy} {C : Comparator} {L : ComparatorLaws C} {P : FilterPolicy} {PL : FilterPolicyLaws P}.
Context {BC : BlockCache} {BL : BlockCacheLaws BC}.
Context (opt : Options) (name : bytes) (groups : list (list (bytes * bytes))) (results : list bytes).
Context (fb : FilterBlockBuilder) (outs : list (list bytes)) (RF : Z).
Context (Hbt : built_table opt name groups results fb outs RF).

Abbreviation index_kvs := (encode_entry <$> index_entries opt 0 groups None).

Definition table_env (counts : list Z) (id : Z) (e : Table.Table * option cache) : Prop :=
  table_state opt groups results fb outs RF e.1 counts /\ cache_good opt groups (Table.cache_id e.1) e.2 /\
  Table.cache_id e.1 = id.

Lemma handle_bytes_inj h h' : handle_ok h -> handle_ok h' -> handle_bytes h = handle_bytes h' -> h = h'.
Proof.
  intros Hh Hh' E. pose proof (Handle_DecodeFrom_Encode h BlockHandle_new [] Hh) as H1. pose proof (Handle_DecodeFrom_Encode h' BlockHandle_new [] Hh') as H2.
  rewrite E, H2 in H1. congruence.
Qed.

Lemma table_two_level t counts ro : table_state opt groups results fb outs RF t counts ->
  two_level_ok (block_reader ro) (table_fuel t) index_kvs groups (bi_at 1 index_kvs)
    (fun j it o => exists g, groups !! j = Some g /\ bi_at (block_restart_interval opt) g it o)
    (table_env counts (Table.cache_id t)).
Proof.
  intros Ht. pose proof (bt_sorted _ _ _ _ _ _ _ Hbt) as Hsorted. split.
  - by eapply index_cursor.
  - intros j g Hj. pose proof (bi_cursor (block_restart_interval opt) g (group_kvs_sorted groups Hsorted j g Hj)) as Hc.
    split.
    + intros it i (g' & Hg' & Hat). rewrite Hj in Hg'. injection Hg' as <-. by apply (cur_le _ _ Hc it).
    + intros it i (g' & Hg' & Hat). rewrite Hj in Hg'. injection Hg' as <-. by apply (cur_shows _ _ Hc).
    + intros it i op i' (g' & Hg' & Hat) Hop Hst. rewrite Hj in Hg'. injection Hg' as <-.
      destruct (cur_step _ _ Hc it i op i' Hat Hop Hst) as (it' & Hit & Hat'). exists it'. split; [done|]. by exists g.
  - by eapply index_blocks.
  - intros e j k h (Hs & Hg & Hid) Hj. destruct (index_kv_lookup opt groups j _ Hj) as (g & Hgj & [= -> ->]).
    destruct (BlockReader_ok _ _ _ _ _ _ _ Hbt e.1 counts e.2 ro j g Hs Hg Hgj) as (oc' & Hr & Hg').
    exists (bi_open (Block_new (data_raw opt g))), (e.1, oc'), (length g). unfold block_reader. rewrite Hr.
    split; [done|]. split; [done|]. exists g. split; [done|].
    pose proof (data_raw_size _ _ _ _ _ _ _ Hbt j g Hgj). unfold data_raw in *.
    apply bi_open_at; [apply (bt_interval _ _ _ _ _ _ _ Hbt)|by eapply group_kv_ok|lia].
  - intros i j k k' h Hi Hj. destruct (index_kv_lookup opt groups i _ Hi) as (gi & Hgi & [= -> ->]).
    destruct (index_kv_lookup opt groups j _ Hj) as (gj & Hgj & [= -> E]).
    apply handle_bytes_inj in E; [|by eapply data_handle_ok..]. injection E as E _. by eapply block_off_inj.
  - unfold table_fuel. rewrite (ts_index _ _ _ _ _ _ _ _ Ht), Block_new_data.
    pose proof (build_block_count 1 index_kvs) as Hc. rewrite length_fmap, length_index_entries in Hc. unfold index_raw. lia.
Qed.
End Scan.

(** ** Properties *)

(** C2. Scanning a table yields its entries.  Build a table from sorted
    entries, open the file and use the table in any way; then any sequence of
    moves (first, last, seek, next, prev) of an iterator made by
    [Table::NewIterator] returns, and the iterator shows exactly the entry on
    which a cursor over the sorted list of entries stands, with an OK status. *)
Theorem table_iterator_refines `{!Crc32c, !Snappy} {C : Comparator} {L : ComparatorLaws C} {P : FilterPolicy}
    {PL : FilterPolicyLaws P} {BC : BlockCache} {BL : BlockCacheLaws BC} opt name RF kvs :
  table_options opt name RF -> table_entries kvs ->
  exists r text, build_table opt (WFile [] []) kvs = Some (Status_OK, r) /\ file r = WFile text [] /\
    (zlen text < 2 ^ 27 -> forall oc meta, cache_fresh oc -> own_meta r meta ->
     exists t charge oc',
       Table.Open opt (RFile text []) (zlen text) oc meta = Some (Status_OK, Some (t, charge), RFile text [], oc') /\
       forall t1 oc1 ro ops p, reach (t, oc') (t1, oc1) -> Forall op_ok ops ->
         cursor_run kvs (length kvs) ops = Some p ->
         exists it, irun (Iterator0 := Table_Iterator ro t1) (Table_NewIterator t1 oc1) ops = Some it /\
           ishows (Iterator0 := Table_Iterator ro t1) it kvs p).
Proof.
  intros Ho He. destruct (built_and_used opt name RF kvs Ho He) as (r & groups & results & fb & outs & Hb & Hcat & Hfile & Hnum & Huse).
  exists r, (table_text opt groups results (Some fb)). split_and!; [done..|].
  intros Hsz oc meta Hfresh Hown. destruct (Huse Hsz) as [Hbt Hopen].
  destruct (Hopen oc meta Hfresh Hown) as (t & charge & oc' & Ho' & Hreach). exists t, charge, oc'. split; [exact Ho'|].
  intros t1 oc1 ro ops p Hr Hops Hrun. destruct (Hreach t1 oc1 Hr) as (counts & Ht1 & Hg1).
  pose proof (table_two_level _ _ _ _ _ _ _ Hbt t1 counts ro Ht1) as Htl. rewrite <- Hcat in Hrun |- *.
  pose proof (two_level_cursor _ _ _ _ _ _ _ Htl) as Hcur.
  assert (Hnew : tl_at (encode_entry <$> index_entries opt 0 groups None) groups
    (bi_at 1 (encode_entry <$> index_entries opt 0 groups None))
    (fun j it o => exists g, groups !! j = Some g /\ bi_at (block_restart_interval opt) g it o)
    (table_env opt groups results fb outs RF counts (Table.cache_id t1)) (Table_NewIterator t1 oc1) (length (concat groups))).
  { unfold Table_NewIterator. rewrite (ts_index _ _ _ _ _ _ _ _ Ht1). eapply two_level_new; [done|]. by eapply index_open_at. }
  destruct (cursor_run_at _ _ ops Hcur _ _ p Hnew Hops Hrun) as (it & Hit & Hat). exists it. split; [exact Hit|].
  exact (cur_shows _ _ Hcur it p Hat).
Qed.

Section Example.
#[local] Existing Instances db_comparator example_filters example_crc
  Sharded.lru_block_cache Sharded.lru_block_cache_laws.

Lemma table_iterator_refines_witness :
  exists t oc it ro, example_opened = Some (t, oc) /\
    irun (Iterator0 := Table_Iterator ro t) (Table_NewIterator t oc)
      [OpSeek (example_key [98] 9); OpNext; OpPrev; OpNext; OpNext; OpNext] = Some it /\
    tl_Valid it = false.
Proof.
  destruct (table_iterator_refines (L := InternalLaws) (PL := example_filter_laws) example_options (str "bloom") 1 example_kvs
    example_options_ok example_entries_ok) as (r & text & Hb & Hfile & Hall).
  assert (Ht : text = example_text).
  { replace text with (text_of (Some (Status_OK, r))) by (simpl; by rewrite Hfile). rewrite <- Hb. vm_compute. reflexivity. }
  subst text. destruct (Hall ltac:(vm_compute; reflexivity) (Some example_cache) None) as (t & charge & oc & Hopen & Huse);
    [intros c off b [= <-]; apply example_shards_empty|done|].
  assert (Ho : example_opened = Some (t, oc)).
  { change (Some (t, oc)) with (opened_of (Some (Status_OK, Some (t, charge), RFile example_text [], oc))).
    rewrite <- Hopen. vm_compute. reflexivity. }
  set (ops := [OpSeek (example_key [98] 9); OpNext; OpPrev; OpNext; OpNext; OpNext]).
  destruct (Huse t oc (Table.MkReadOptions true true 9 0 0) ops 5%nat (reach_refl _)) as (it & Hit & Hs).
  - repeat constructor; apply (bool_decide_unpack _); vm_compute; exact I.
  - vm_compute. reflexivity.
  - exists t, oc, it, (Table.MkReadOptions true true 9 0 0). split; [exact Ho|]. split; [exact Hit|]. exact (proj2 Hs).
Defined.
End Example.
