(* ===== verification/TableErrors.v ===== *)
(** * TableErrors: tables and failing files

    What [TableBuilder] (src/LSM-EBF/table/table_builder.cc) reports when writes
    fail, for every script of failures of the file. *)
From S2P Require Import Prelude Coding Crc32c Status Bloom Comparator DbFormat TableFormat Block Iterators.
From S2P Require Import FilterBlock TableFilters TableBuilder Table.
Import TableBuilder.

Section Errors.
Context `{!Crc32c, !Snappy} {C : Comparator} {P : FilterPolicy}.

(** The builder on a file whose remaining writes all succeed. *)
Definition strip (r : Rep) : Rep := with_file r (WFile (contents (file r)) []) (r_offset r) (r_status r).

Lemma Append_ok f d f' : Append f d = (Status_OK, f') -> Append (WFile (contents f) []) d = (Status_OK, WFile (contents f') []).
Proof. unfold Append. destruct (next_io (w_io f)) as [[|s got] l]; simpl; [by intros [= <-]|done]. Qed.

Lemma Flush_file_ok f f' : Status.Flush f = (Status_OK, f') -> Status.Flush (WFile (contents f) []) = (Status_OK, WFile (contents f') []).
Proof. unfold Status.Flush. destruct (next_io (w_io f)) as [[|s got] l]; simpl; [by intros [= <-]|done]. Qed.

Lemma ok_OK s : ok s = true -> s = Status_OK.
Proof. by destruct s. Qed.

Lemma WriteRawBlock_strip r c ty h r' : WriteRawBlock r c ty = (h, r') -> is_ok r' = true ->
  WriteRawBlock (strip r) c ty = (h, strip r').
Proof.
  unfold WriteRawBlock. destruct (Append (file r) c) as [s f] eqn:Ha. destruct (ok s) eqn:Hs.
  - destruct (Append f _) as [s' f'] eqn:Hb. intros [= <- <-]. unfold is_ok. cbn [r_status with_file]. intros Hs'.
    apply ok_OK in Hs as ->. apply ok_OK in Hs' as ->.
    cbn [strip with_file file r_offset]. rewrite (Append_ok _ _ _ Ha). cbn [ok Status_OK].
    by rewrite (Append_ok _ _ _ Hb).
  - intros [= <- <-]. unfold is_ok. cbn [r_status with_file]. by rewrite Hs.
Qed.

Lemma WriteBlock_strip r b h b' r' : WriteBlock r b = (h, b', r') -> is_ok r' = true ->
  WriteBlock (strip r) b = (h, b', strip r').
Proof.
  unfold WriteBlock. destruct (Builder.Finish b) as [raw b1]. cbn [strip with_file options].
  destruct (choose_contents _ raw) as [c ty]. destruct (WriteRawBlock r c ty) as [h1 r1] eqn:Hw.
  intros [= <- <- <-] Hok. by rewrite (WriteRawBlock_strip _ _ _ _ _ Hw Hok).
Qed.

Lemma start_filter_strip r off r' : start_filter r off = Some r' ->
  start_filter (strip r) off = Some (strip r') /\ is_ok r' = is_ok r.
Proof.
  unfold start_filter. cbn [strip with_file filter_block]. destruct (filter_block r) as [b|]; [|by intros [= <-]].
  destruct (StartBlock b off); [|done]. simpl. by intros [= <-].
Qed.

Lemma Flush_strip r r' : Flush r = Some r' -> is_ok r' = true -> Flush (strip r) = Some (strip r') /\ is_ok r = true.
Proof.
  unfold Flush. change (is_ok (strip r)) with (is_ok r). change (data_block (strip r)) with (data_block r).
  destruct (is_ok r) eqn:Hok; cbn [negb]; [|intros [= <-]; congruence].
  destruct (Builder.empty _); [by intros [= <-]|].
  destruct (WriteBlock r (data_block r)) as [[h b] r1] eqn:Hw.
  set (r2 := with_pending (with_data r1 b) (pending_index_entry r1) h).
  intros Hst Hok'. destruct (start_filter_strip _ _ _ Hst) as [Hst' Heq]. rewrite Heq in Hok'.
  destruct (is_ok r2) eqn:Hok2; [|congruence].
  rewrite (WriteBlock_strip _ _ _ _ _ Hw Hok2).
  change (with_pending (with_data (strip r1) b) (pending_index_entry (strip r1)) h) with (strip r2).
  change (is_ok (strip r2)) with (is_ok r2). rewrite Hok2.
  destruct (Status.Flush (file r2)) as [s f] eqn:Hf. unfold is_ok in Hok'. cbn [r_status with_file] in Hok'.
  apply ok_OK in Hok' as ->. change (file (strip r2)) with (WFile (contents (file r2)) []).
  rewrite (Flush_file_ok _ _ Hf). split; [exact Hst'|done].
Qed.

Lemma Add_strip r k v r' : Add r k v = Some r' -> is_ok r' = true -> Add (strip r) k v = Some (strip r') /\ is_ok r = true.
Proof.
  unfold Add. change (is_ok (strip r)) with (is_ok r).
  destruct (is_ok r) eqn:Hok; cbn [negb]; [|intros [= <-]; congruence].
  set (r1 := if pending_index_entry r then _ else r).
  assert (H1 : (if pending_index_entry (strip r) then add_index_entry (strip r) (FindShortestSeparator (last_key (strip r)) k)
    else strip r) = strip r1) by (unfold r1; simpl; by destruct (pending_index_entry r)).
  rewrite H1. set (r2 := with_data _ _).
  intros Hf Hok'. match goal with |- context [with_data ?a ?b] => change (with_data a b) with (strip r2) end.
  change (options (strip r2)) with (options r2). change (data_block (strip r2)) with (data_block r2).
  destruct (_ <=? _); [|by injection Hf as <-]. by destruct (Flush_strip _ _ Hf Hok') as [-> _].
Qed.

Lemma add_entries_strip kvs : forall r r', add_entries r kvs = Some r' -> is_ok r' = true ->
  add_entries (strip r) kvs = Some (strip r') /\ is_ok r = true.
Proof.
  induction kvs as [|kv kvs IH]; intros r r'; cbn [add_entries]; [by intros [= <-]|].
  destruct (Add r kv.1 kv.2) as [r1|] eqn:Ha; [|done]. cbn [mbind option_bind]. intros Hr Hok.
  destruct (IH _ _ Hr Hok) as [IH' Hok1]. destruct (Add_strip _ _ _ _ Ha Hok1) as [-> ?]. by cbn [mbind option_bind].
Qed.

Lemma finish_metaindex_strip r hs h r' : finish_metaindex r hs = Some (h, r') -> is_ok r' = true ->
  finish_metaindex (strip r) hs = Some (h, strip r') /\ is_ok r = true.
Proof.
  unfold finish_metaindex. change (is_ok (strip r)) with (is_ok r). destruct (is_ok r) eqn:Hok; [|intros [= <- <-]; congruence].
  change (options (strip r)) with (options r). change (filter_block (strip r)) with (filter_block r).
  destruct (metaindex _ _ _) as [meta|]; [|done]. cbn [mbind option_bind].
  destruct (WriteBlock r meta) as [[h1 b] r1] eqn:Hw. intros [= <- <-] Hok'. by rewrite (WriteBlock_strip _ _ _ _ _ Hw Hok').
Qed.

Lemma finish_index_strip r raw h r' : finish_index r = (raw, h, r') -> is_ok r' = true ->
  finish_index (strip r) = (raw, h, strip r') /\ is_ok r = true.
Proof.
  unfold finish_index. change (is_ok (strip r)) with (is_ok r). destruct (is_ok r) eqn:Hok; [|intros [= <- <- <-]; congruence].
  set (r1 := if pending_index_entry r then _ else r).
  assert (H1 : (if pending_index_entry (strip r) then add_index_entry (strip r) (FindShortSuccessor (last_key (strip r)))
    else strip r) = strip r1) by (unfold r1; simpl; by destruct (pending_index_entry r)).
  rewrite H1. change (index_block (strip r1)) with (index_block r1). destruct (Builder.Finish _) as [raw1 b1].
  destruct (WriteBlock r1 b1) as [[h1 b2] r2] eqn:Hw. intros [= <- <- <-] Hok'.
  by rewrite (WriteBlock_strip _ _ _ _ _ Hw Hok').
Qed.

Lemma finish_footer_strip r a b : is_ok (finish_footer r a b) = true ->
  finish_footer (strip r) a b = strip (finish_footer r a b) /\ is_ok r = true.
Proof.
  unfold finish_footer. change (is_ok (strip r)) with (is_ok r). destruct (is_ok r) eqn:Hok; [|congruence].
  destruct (Append (file r) _) as [s f] eqn:Ha. unfold is_ok at 1. cbn [r_status with_file]. intros Hs.
  apply ok_OK in Hs as ->. change (file (strip r)) with (WFile (contents (file r)) []). by rewrite (Append_ok _ _ _ Ha).
Qed.

Lemma Flush_no_filter r r' : filter_block r = None -> Flush r = Some r' -> filter_block r' = None.
Proof.
  intros Hnf Hfl. unfold Flush in Hfl. destruct (negb (is_ok r)); [by injection Hfl as <-|].
  destruct (Builder.empty _); [by injection Hfl as <-|]. unfold WriteBlock, WriteRawBlock in Hfl.
  repeat case_match; unfold start_filter in Hfl; simplify_eq/=; rewrite Hnf in Hfl; by injection Hfl as <-.
Qed.

(** Without filters every step of [Finish] is guarded by the status. *)
Lemma Finish_strip r s r' : filter_block r = None -> Finish r = Some (s, r') -> ok s = true ->
  Finish (strip r) = Some (s, strip r') /\ is_ok r = true.
Proof.
  intros Hnf Hfin Hs. unfold Finish in *. destruct (Flush r) as [r1|] eqn:Hfl; [|done]. cbn [mbind option_bind] in Hfin.
  pose proof (Flush_no_filter r r1 Hnf Hfl) as Hnf1.
  set (r2 := with_closed r1 _) in Hfin. unfold finish_filters in Hfin.
  change (filter_block r2) with (filter_block r1) in Hfin. rewrite Hnf1 in Hfin. cbn [mbind option_bind] in Hfin.
  destruct (finish_metaindex r2 []) as [[hm r3]|] eqn:Hm; [|done]. cbn [mbind option_bind] in Hfin.
  destruct (finish_index r3) as [[raw hi] r4] eqn:Hi. injection Hfin as Es Er.
  assert (Hok5 : is_ok (finish_footer r4 hm hi) = true) by (unfold is_ok; simpl in Es; by rewrite Es).
  destruct (finish_footer_strip _ _ _ Hok5) as [Hf4 Hok4]. destruct (finish_index_strip _ _ _ _ Hi Hok4) as [Hi' Hok3].
  destruct (finish_metaindex_strip _ _ _ _ Hm Hok3) as [Hm' Hok2].
  destruct (Flush_strip _ _ Hfl Hok2) as [-> Hok]. split; [|done]. cbn [mbind option_bind].
  change (with_closed (strip r1) ?m) with (strip (with_closed r1 m)). fold r2. unfold finish_filters.
  change (filter_block (strip r2)) with (filter_block r1). rewrite Hnf1. cbn [mbind option_bind].
  rewrite Hm'. cbn [mbind option_bind]. rewrite Hi', Hf4. subst s r'. done.
Qed.

Lemma Add_no_filter r k v r' : filter_block r = None -> Add r k v = Some r' -> filter_block r' = None.
Proof.
  intros Hnf. unfold Add. destruct (negb (is_ok r)); [by intros [= <-]|].
  set (r1 := with_data _ _). assert (Hnf1 : filter_block r1 = None).
  { subst r1. destruct (pending_index_entry r); simpl; by rewrite Hnf. }
  destruct (_ <=? _); [by apply Flush_no_filter|by intros [= <-]].
Qed.

Lemma add_entries_no_filter kvs : forall r r', filter_block r = None -> add_entries r kvs = Some r' -> filter_block r' = None.
Proof.
  induction kvs as [|kv kvs IH]; intros r r' Hnf; cbn [add_entries]; [by intros [= <-]|].
  destruct (Add r kv.1 kv.2) as [r1|] eqn:Ha; [|done]. cbn [mbind option_bind]. apply IH. by eapply Add_no_filter.
Qed.

(** ** Filter blocks that are lost *)

(** The remaining writes all succeed. *)
Definition quiet (f : WritableFile) : Prop := Forall (eq IoOk) (w_io f).

(** A filter block as it is in the file. *)
Definition stored (raw : bytes) : bytes := raw ++ block_trailer raw kNoCompression.

Lemma Append_quiet f d : quiet f -> exists f', Append f d = (Status_OK, f') /\ quiet f' /\ contents f' = contents f ++ d.
Proof.
  unfold quiet, Append. destruct f as [c l]. cbn [w_io contents]. intros Hq. destruct l as [|o l]; cbn [next_io]; [by eexists|]. apply Forall_cons in Hq as [<- Hq]. by eexists.
Qed.

(** A write that may fail, or succeeds. *)
Lemma Append_first f d o l : w_io f = o :: l -> Append f d = match o with IoOk => (Status_OK, WFile (contents f ++ d) l) | IoErr s got => (Some s, WFile (contents f ++ take got d) l) end.
Proof. unfold Append. by intros ->. Qed.

Lemma WriteRawBlock_quiet r c ty : quiet (file r) -> exists f off, WriteRawBlock r c ty = (MkHandle (r_offset r) (zlen c), with_file r f off Status_OK) /\ quiet f /\ contents f = contents (file r) ++ c ++ block_trailer c ty.
Proof.
  intros Hq. unfold WriteRawBlock. destruct (Append_quiet (file r) c Hq) as (f1 & -> & Hq1 & E1). cbn [ok Status_OK]. destruct (Append_quiet f1 (block_trailer c ty) Hq1) as (f2 & -> & Hq2 & E2).
  eexists f2, _. split; [reflexivity|]. split; [done|]. by rewrite E2, E1, app_assoc.
Qed.

Lemma WriteBlock_quiet r b : quiet (file r) -> exists h b' f off, WriteBlock r b = (h, b', with_file r f off Status_OK) /\ quiet f /\ contents (file r) `prefix_of` contents f.
Proof.
  intros Hq. unfold WriteBlock. destruct (Builder.Finish b) as [raw b1]. destruct (choose_contents _ raw) as [c ty]. destruct (WriteRawBlock_quiet r c ty Hq) as (f & off & -> & Hq' & E). cbn [fst snd].
  eexists _, _, f, off. split; [reflexivity|]. split; [done|]. rewrite E. by apply prefix_app_r.
Qed.

(** Filters that are written, with the handle of the first. *)
Lemma write_filters_quiet results : forall r, quiet (file r) -> results <> [] -> exists hs f off, write_filters r results = (hs, with_file r f off Status_OK) /\ quiet f /\
  contents f = contents (file r) ++ concat (stored <$> results) /\ hs !! 0%nat = (fun raw => MkHandle (r_offset r) (zlen raw)) <$> results !! 0%nat.
Proof.
  induction results as [|raw results IH]; intros r Hq Hne; [done|]. cbn [write_filters]. destruct (WriteRawBlock_quiet r raw kNoCompression Hq) as (f & off & -> & Hq1 & E1).
  destruct results as [|raw2 results].
  - cbn [write_filters]. eexists _, f, off. split; [reflexivity|]. split; [done|]. split; [|done]. rewrite E1. cbn. by rewrite app_nil_r.
  - destruct (IH (with_file r f off Status_OK) Hq1 ltac:(done)) as (hs & f' & off' & -> & Hq2 & E2 & _). rewrite with_file_twice. eexists _, f', off'. split; [reflexivity|]. split; [done|]. split; [|done].
    rewrite E2. cbn [file with_file]. rewrite E1. rewrite !fmap_cons. cbn [concat]. unfold stored. by rewrite <- !app_assoc.
Qed.

(** The filters before the one that fails. *)
Lemma write_filters_front front l : forall r back, w_io (file r) = replicate (2 * length front) IoOk ++ l -> is_ok r = true -> exists hs r', write_filters r (front ++ back) = (let '(hs', r'') := write_filters r' back in (hs ++ hs', r'')) /\
  length hs = length front /\ r' = with_file r (WFile (contents (file r) ++ concat (stored <$> front)) l) (r_offset r') Status_OK.
Proof.
  induction front as [|raw front IH]; intros r back Hl Hok.
  - exists [], r. cbn [app length]. split; [by destruct (write_filters r back)|]. split; [done|]. cbn. rewrite app_nil_r. symmetry. apply with_file_same; [|done|by apply ok_OK].
    destruct (file r) as [c l']. cbn in *. by subst.
  - replace (2 * length (raw :: front))%nat with (S (S (2 * length front))) in Hl by (cbn [length]; lia). cbn [replicate app] in Hl. cbn [app write_filters]. unfold WriteRawBlock. rewrite (Append_first _ _ _ _ Hl). cbn [ok Status_OK].
    rewrite (Append_first (WFile _ _) _ IoOk (replicate (2 * length front) IoOk ++ l) eq_refl). cbn [ok Status_OK contents]. set (r1 := with_file r _ _ _).
    destruct (IH r1 back eq_refl eq_refl) as (hs & r' & -> & Hlen & Er'). exists (MkHandle (r_offset r) (zlen raw) :: hs), r'. split; [by destruct (write_filters r' back)|]. split; [cbn; by rewrite Hlen|].
    rewrite Er' at 1. unfold r1. rewrite with_file_twice. cbn [file with_file contents]. unfold stored. rewrite fmap_cons. cbn [concat]. by rewrite <- !app_assoc.
Qed.

(** One of the filters fails and the next takes its place. *)
Lemma write_filters_lost r front raw back s got rest : w_io (file r) = replicate (2 * length front) IoOk ++ IoErr s got :: rest -> Forall (eq IoOk) rest -> is_ok r = true -> back <> [] ->
  exists hs f off at_, write_filters r (front ++ raw :: back) = (hs, with_file r f off Status_OK) /\ quiet f /\
    contents f = contents (file r) ++ concat (stored <$> front) ++ take got raw ++ concat (stored <$> back) /\
    hs !! length front = Some (MkHandle at_ (zlen raw)) /\ hs !! S (length front) = (fun next => MkHandle at_ (zlen next)) <$> back !! 0%nat.
Proof.
  intros Hl Hrest Hok Hne. destruct (write_filters_front front _ r (raw :: back) Hl Hok) as (hs & r' & -> & Hlen & Er'). cbn [write_filters]. unfold WriteRawBlock.
  rewrite (Append_first (file r') raw (IoErr s got) rest) by (by rewrite Er'). cbn [ok Status_OK]. set (r1 := with_file r' _ _ _).
  destruct (write_filters_quiet back r1 Hrest Hne) as (hs' & f & off & -> & Hq & E & Hh).
  assert (Ew : with_file r1 f off Status_OK = with_file r f off Status_OK) by (unfold r1; rewrite with_file_twice, Er'; apply with_file_twice).
  assert (Ec : contents (file r') = contents (file r) ++ concat (stored <$> front)) by (by rewrite Er').
  eexists _, f, off, (r_offset r'). split; [rewrite Ew; reflexivity|].
  split; [done|]. split; [rewrite E; unfold r1; cbn [file with_file contents]; by rewrite Ec, <- !app_assoc|].
  split; [by rewrite lookup_app_r, Hlen, Nat.sub_diag by lia|]. rewrite lookup_app_r, Hlen, Nat.sub_succ_l, Nat.sub_diag by lia. exact Hh.
Qed.

Lemma metaindex_handles o b hs hs' : is_Some (metaindex o b hs) -> is_Some (metaindex o b hs').
Proof.
  unfold metaindex. destruct b as [b|]; [|done]. destruct (add_offsets _ _ _ _ _); [|done]. cbn [mbind option_bind]. by destruct (filter_policy o).
Qed.

(** What follows the filters succeeds. *)
Lemma finish_rest_quiet r hs : quiet (file r) -> is_ok r = true -> is_Some (metaindex (options r) (filter_block r) hs) ->
  exists hm r1, finish_metaindex r hs = Some (hm, r1) /\ let '(raw, hi, r2) := finish_index r1 in let r3 := finish_footer r2 hm hi in r_status r3 = Status_OK /\ contents (file r) `prefix_of` contents (file r3).
Proof.
  intros Hq Hok [meta Hm]. unfold finish_metaindex. rewrite Hok, Hm. cbn [mbind option_bind]. destruct (WriteBlock_quiet r meta Hq) as (h & b & f & off & -> & Hq1 & Hp1). eexists h, _. split; [reflexivity|].
  unfold finish_index. change (is_ok (with_file r f off Status_OK)) with true. cbn iota. set (r1 := with_file r f off Status_OK) in *. set (r2 := if pending_index_entry r1 then _ else r1).
  assert (Hf2 : file r2 = f) by (unfold r2; by destruct (pending_index_entry r1)). destruct (Builder.Finish (index_block r2)) as [raw b2].
  destruct (WriteBlock_quiet r2 b2 ltac:(by rewrite Hf2)) as (h2 & b3 & f2 & off2 & -> & Hq2 & Hp2). rewrite Hf2 in Hp2. unfold finish_footer.
  match goal with |- context [is_ok ?x] => change (is_ok x) with true end. cbn iota.
  destruct (Append_quiet f2 (FooterCode.EncodeTo (MkFooter h h2) []) Hq2) as (f3 & Ha & _ & E3). match goal with |- context [Append (file ?x) ?d] => change (Append (file x) d) with (Append f2 d) end. rewrite Ha.
  split; [done|]. cbn [file with_file]. rewrite E3. etrans; [exact Hp1|]. etrans; [exact Hp2|]. by apply prefix_app_r.
Qed.
End Errors.

(** ** Properties *)

(** [d] is the file of a table without filters that holds the entries [kvs]. *)
Definition plain_table `{!Crc32c, !Snappy, !Comparator, !FilterPolicy} (opt : Options) (kvs : list (bytes * bytes)) (d : bytes) : Prop :=
  exists groups, concat groups = kvs /\ Forall (fun g => g <> []) groups /\ d = table_text opt groups [] None.

(** C38. A builder without a filter policy reports success only when the whole
    table is on disk: for every script of failing or short writes, if [Finish]
    returns OK after any sequence of [Add]s, the file holds exactly the data
    blocks, metaindex, index and footer of the entries. *)
Theorem builder_ok_means_written `{!Crc32c, !Snappy} {C : Comparator} {L : ComparatorLaws C} {P : FilterPolicy}
    {PL : FilterPolicyLaws P} (opt : Options) (script : list io) (kvs : list (bytes * bytes)) (r : Rep) :
  filter_policy opt = None -> data_cost kvs < 2 ^ 63 ->
  build_table opt (WFile [] script) kvs = Some (Status_OK, r) ->
  plain_table opt kvs (contents (file r)) /\ NumEntries r = zlen kvs.
Proof.
  intros Hp Hc Hb. unfold build_table, make, start_filter in Hb. unfold Rep_new in Hb at 1. rewrite Hp in Hb.
  cbn [filter_block mbind option_bind] in Hb. set (r0 := Rep_new opt (WFile [] script)) in Hb.
  assert (Hnf0 : filter_block r0 = None) by (unfold r0, Rep_new; simpl; by rewrite Hp).
  destruct (add_entries r0 kvs) as [r1|] eqn:Hadd; [|done]. cbn [mbind option_bind] in Hb.
  destruct (Finish_strip r1 _ r (add_entries_no_filter kvs r0 r1 Hnf0 Hadd) Hb eq_refl) as [Hfin Hok1].
  destruct (add_entries_strip kvs r0 r1 Hadd Hok1) as [Hadd' _].
  destruct (build_table_ok opt (length kvs)) with (kvs := kvs)
    as (r' & groups & results & fb & Hb' & Hcat & Hne & Hf & Hfile & _ & Hnum & _); [done|lia|done|].
  unfold build_table, make, start_filter in Hb'. unfold Rep_new in Hb' at 1. rewrite Hp in Hb'.
  cbn [filter_block mbind option_bind] in Hb'. change (Rep_new opt (WFile [] [])) with (strip r0) in Hb'.
  rewrite Hadd' in Hb'. cbn [mbind option_bind] in Hb'. rewrite Hfin in Hb'. injection Hb' as <-.
  unfold filters_of in Hf. rewrite Hp in Hf. destruct Hf as [-> ->].
  split; [|done]. exists groups. split_and!; [done|done|]. by injection Hfile as ->.
Qed.

(** C39. With a filter policy the guarantee is lost: the loop of [Finish] over the
    filter blocks goes on after a failed write, and the next block overwrites the
    status.  Take any builder whose [Finish] returns on a file without failures
    ([strip], [rs]), with the filter blocks [front], [raw] and [back], [back] not
    empty.  Let the write of [raw] fail after [got] bytes, and the others succeed.
    Then [Finish] returns OK all the same; the file has [got] bytes of [raw] where
    the complete one has the block with its trailer; and the handles that the
    metaindex gets for [raw] and for the block after it name the same place. *)
Theorem lost_filter_write_reported_ok `{!Crc32c, !Snappy} {C : Comparator} {P : FilterPolicy} (r r1 rs : Rep) (b b' : FilterBlockBuilder) (front back : list bytes) (raw s : bytes) (s0 : Status) (got : nat) (rest : list io) :
  Finish (strip r) = Some (s0, rs) -> Flush r = Some r1 -> is_ok r1 = true -> filter_block r1 = Some b -> FilterBlock.Finish b = Some (front ++ raw :: back, b') -> back <> [] ->
  w_io (file r1) = replicate (2 * length front) IoOk ++ IoErr s got :: rest -> Forall (eq IoOk) rest ->
  exists r', Finish r = Some (Status_OK, r') /\
    (contents (file r1) ++ concat (stored <$> front) ++ take got raw ++ concat (stored <$> back)) `prefix_of` contents (file r') /\
    (contents (file r1) ++ concat (stored <$> front) ++ stored raw ++ concat (stored <$> back)) `prefix_of` contents (file rs) /\
    exists hs r2 place, finish_filters (with_closed r1 (Some (MkMetaData [] [] []))) = Some (front ++ raw :: back, hs, r2) /\
      hs !! length front = Some (MkHandle place (zlen raw)) /\ hs !! S (length front) = (fun next => MkHandle place (zlen next)) <$> back !! 0%nat.
Proof.
  intros Hs Hfl Hok Hb Hfin Hne Hl Hrest. destruct (Flush_strip r r1 Hfl Hok) as [Hfl' _]. set (m := Some (MkMetaData [] [] [])) in *.
  (* the complete file *)
  unfold Finish in Hs. rewrite Hfl' in Hs. cbn [mbind option_bind] in Hs. fold m in Hs. unfold finish_filters in Hs. change (filter_block (with_closed (strip r1) m)) with (filter_block r1) in Hs.
  change (is_ok (with_closed (strip r1) m)) with (is_ok r1) in Hs. rewrite Hb, Hok, Hfin in Hs. cbn [mbind option_bind] in Hs. set (q := with_filter (with_closed (strip r1) m) (Some b')) in Hs.
  destruct (write_filters_quiet (front ++ raw :: back) q ltac:(constructor) ltac:(by destruct front)) as (hs0 & f0 & off0 & E0 & Hq0 & Hc0 & _). rewrite E0 in Hs. cbn [mbind option_bind] in Hs.
  assert (Hmeta : is_Some (metaindex (options r1) (Some b') hs0)).
  { unfold finish_metaindex in Hs. change (is_ok (with_file q f0 off0 Status_OK)) with true in Hs. cbn iota in Hs. change (options (with_file q f0 off0 Status_OK)) with (options r1) in Hs.
    change (filter_block (with_file q f0 off0 Status_OK)) with (Some b') in Hs. destruct (metaindex (options r1) (Some b') hs0); [by eexists|done]. }
  destruct (finish_rest_quiet (with_file q f0 off0 Status_OK) hs0 Hq0 eq_refl Hmeta) as (hm0 & q1 & Em0 & Hrest0). rewrite Em0 in Hs. cbn [mbind option_bind] in Hs. destruct (finish_index q1) as [[raw0 hi0] q2]. destruct Hrest0 as [_ Hp0]. injection Hs as _ <-.
  (* the file with the failure *)
  set (p := with_filter (with_closed r1 m) (Some b')). destruct (write_filters_lost p front raw back s got rest Hl Hrest Hok Hne) as (hs & f & off & place & E & Hq & Hc & Hh1 & Hh2).
  assert (Eff : finish_filters (with_closed r1 m) = Some (front ++ raw :: back, hs, with_file p f off Status_OK)).
  { unfold finish_filters. change (filter_block (with_closed r1 m)) with (filter_block r1). change (is_ok (with_closed r1 m)) with (is_ok r1). rewrite Hb, Hok, Hfin. cbn [mbind option_bind]. fold p. by rewrite E. }
  destruct (finish_rest_quiet (with_file p f off Status_OK) hs Hq eq_refl (metaindex_handles _ _ _ _ Hmeta)) as (hm & p1 & Em & Hend). unfold Finish. rewrite Hfl. cbn [mbind option_bind]. fold m. rewrite Eff. cbn [mbind option_bind]. rewrite Em. cbn [mbind option_bind].
  destruct (finish_index p1) as [[raw1 hi] p2]. destruct Hend as [Est Hp]. cbn [r_status with_closed]. rewrite Est. eexists. split; [reflexivity|]. cbn [file with_closed]. cbn [file with_file] in Hp, Hp0. rewrite Hc in Hp. rewrite Hc0 in Hp0. split; [exact Hp|]. split.
  - rewrite fmap_app, fmap_cons, concat_app in Hp0. exact Hp0.
  - by exists hs, (with_file p f off Status_OK), place.
Qed.

Section Example.
#[local] Instance example_filters : FilterPolicy := InternalPolicy [4; 8; 8; 0] 20.
#[local] Instance example_crc : Crc32c := crc32c_portable 0.
#[local] Instance example_comparator : Comparator := @InternalKeyComparator BytewiseComparator.
#[local] Instance example_comparator_laws : ComparatorLaws example_comparator := InternalLaws.
#[local] Instance no_cache : BlockCache := {|
  cache := unit; cache_Lookup _ _ := (None, tt); cache_Insert _ _ _ _ := tt; cache_NewId _ := (1, tt);
  may_hold _ _ _ := False
|}.

Definition one_key (s : Z) : bytes := DbFormat.ikey [97] (PackSequenceAndType s kTypeValue).

Definition two_versions : list (bytes * bytes) := [(one_key 5, [1]); (one_key 3, [2])].

Definition plain_options (policy : option bytes) : Options :=
  MkOptions 0 true 4000 2 kNoCompression policy true 2 65536 65536 16.

Definition plain_built : Rep := Eval vm_compute in
  match build_table (plain_options None) (WFile [] [IoOk; IoOk]) two_versions with
  | Some (_, r) => r
  | None => Rep_new (plain_options None) (WFile [] [])
  end.

Lemma builder_ok_means_written_witness :
  exists r groups, build_table (plain_options None) (WFile [] [IoOk; IoOk]) two_versions = Some (Status_OK, r) /\
    concat groups = two_versions /\ contents (file r) = table_text (plain_options None) groups [] None.
Proof.
  assert (Hb : build_table (plain_options None) (WFile [] [IoOk; IoOk]) two_versions = Some (Status_OK, plain_built))
    by (vm_compute; reflexivity).
  destruct (builder_ok_means_written (PL := InternalPolicy_laws [4; 8; 8; 0] 20 ltac:(vm_compute; discriminate))
    (plain_options None) [IoOk; IoOk] two_versions plain_built) as ((groups & Hcat & _ & Htext) & _);
    [reflexivity|reflexivity|exact Hb|].
  exists plain_built, groups. split; [exact Hb|]. split; [exact Hcat|exact Htext].
Defined.

(** The first of the filters is lost. *)
Abbreviation filter_options := (plain_options (Some (str "bloom"))).
Abbreviation lost_script := [IoOk; IoOk; IoOk; IoErr (str "disk full") 3].

Definition filled : Rep := Eval vm_compute in
  default (Rep_new filter_options (WFile [] [])) (r ← make filter_options (WFile [] lost_script); add_entries r two_versions).
Definition flushed : Rep := Eval vm_compute in default (Rep_new filter_options (WFile [] [])) (Flush filled).
Definition complete : Rep := Eval vm_compute in
  match Finish (strip filled) with Some (_, r) => r | None => Rep_new filter_options (WFile [] []) end.
Definition flushed_filter : FilterBlockBuilder := Eval vm_compute in default FilterBlockBuilder_new (filter_block flushed).
Definition finished_filter : list bytes * FilterBlockBuilder := Eval vm_compute in default ([], FilterBlockBuilder_new) (FilterBlock.Finish flushed_filter).
Definition first_filter : bytes := Eval vm_compute in default [] (finished_filter.1 !! 0%nat).
Definition other_filters : list bytes := Eval vm_compute in drop 1 finished_filter.1.

Lemma lost_filter_write_reported_ok_witness : exists r', build_table filter_options (WFile [] lost_script) two_versions = Some (Status_OK, r') /\
  length other_filters = 2%nat /\ (contents (file flushed) ++ take 3 first_filter ++ concat (stored <$> other_filters)) `prefix_of` contents (file r').
Proof.
  destruct (lost_filter_write_reported_ok filled flushed complete flushed_filter finished_filter.2 [] other_filters first_filter (str "disk full") Status_OK 3 []) as (r' & Hf & Hc & _).
  - vm_compute. reflexivity.
  - vm_compute. reflexivity.
  - reflexivity.
  - vm_compute. reflexivity.
  - vm_compute. reflexivity.
  - vm_compute. discriminate.
  - vm_compute. reflexivity.
  - constructor.
  - exists r'. split; [|split; [vm_compute; reflexivity|exact Hc]].
    assert (Hb : (r ← make filter_options (WFile [] lost_script); add_entries r two_versions) = Some filled) by (vm_compute; reflexivity).
    unfold build_table. destruct (make filter_options (WFile [] lost_script)) as [r0|]; [|done]. cbn [mbind option_bind] in Hb |- *. rewrite Hb. exact Hf.
Defined.

(** A lookup may miss a key then: here the write of the first filter fails,
    [Finish] and [Open] both report success, and a lookup of a key of the table
    succeeds without finding it. *)
Example lost_filter_write_hides_key :
  exists script r t charge f oc res t' oc' ro',
    build_table (plain_options (Some (str "bloom"))) (WFile [] script) two_versions = Some (Status_OK, r) /\
    Exists (fun o => o <> IoOk) script /\
    Table.Open (plain_options (Some (str "bloom"))) (RFile (contents (file r)) []) (zlen (contents (file r))) None None
      = Some (Status_OK, Some (t, charge), f, oc) /\
    Table.InternalGet t oc (Table.MkReadOptions true true 9 0 0) (one_key 5) = Some (res, t', oc', ro') /\
    Table.get_status res = Status_OK /\ Table.saved res = None /\ one_key 5 ∈ fst <$> two_versions.
Proof.
  exists [IoOk; IoOk; IoOk; IoErr (str "disk full") 0]. do 9 eexists. split_and!.
  - vm_compute. reflexivity.
  - do 3 right. left. discriminate.
  - vm_compute. reflexivity.
  - vm_compute. reflexivity.
  - reflexivity.
  - reflexivity.
  - left.
Qed.
End Example.
