(* ===== verification/VersionEdit.v ===== *)
(** * VersionEdit: the records of the descriptor log

    src/LSM-EBF/db/version_edit.h and version_edit.cc.  An [InternalKey] is its
    representation; the [std::set] of deleted files is its elements in order. *)
From S2P Require Import Prelude Coding Status DbFormat.

Record FileMetaData := MkFile {
  refs : Z;
  allowed_seeks : Z;
  number : Z;
  file_size : Z;
  smallest : bytes;
  largest : bytes;
  access_time : Z
}.

Definition FileMetaData_new (number file_size : Z) (smallest largest : bytes) : FileMetaData :=
  MkFile 0 (1 ≪ 30) number file_size smallest largest 0.

Record VersionEdit := MkEdit {
  comparator_ : bytes;
  log_number_ : Z;
  prev_log_number_ : Z;
  next_file_number_ : Z;
  last_sequence_ : Z;
  has_comparator_ : bool;
  has_log_number_ : bool;
  has_prev_log_number_ : bool;
  has_next_file_number_ : bool;
  has_last_sequence_ : bool;
  compact_pointers_ : list (Z * bytes);
  deleted_files_ : list (Z * Z);
  new_files_ : list (Z * FileMetaData)
}.

Module Tag.
Definition kComparator : Z := 1.
Definition kLogNumber : Z := 2.
Definition kNextFileNumber : Z := 3.
Definition kLastSequence : Z := 4.
Definition kCompactPointer : Z := 5.
Definition kDeletedFile : Z := 6.
Definition kNewFile : Z := 7.
Definition kPrevLogNumber : Z := 9.
End Tag.

(** [Clear] leaves the compaction pointers as they are. *)
Definition Clear (e : VersionEdit) : VersionEdit :=
  MkEdit [] 0 0 0 0 false false false false false (compact_pointers_ e) [] [].

Definition VersionEdit_new : VersionEdit :=
  Clear (MkEdit [] 0 0 0 0 false false false false false [] [] []).

(** ** Setters *)

Definition SetComparatorName (e : VersionEdit) (name : bytes) : VersionEdit :=
  MkEdit name (log_number_ e) (prev_log_number_ e) (next_file_number_ e) (last_sequence_ e)
    true (has_log_number_ e) (has_prev_log_number_ e) (has_next_file_number_ e) (has_last_sequence_ e)
    (compact_pointers_ e) (deleted_files_ e) (new_files_ e).

Definition SetLogNumber (e : VersionEdit) (num : Z) : VersionEdit :=
  MkEdit (comparator_ e) num (prev_log_number_ e) (next_file_number_ e) (last_sequence_ e)
    (has_comparator_ e) true (has_prev_log_number_ e) (has_next_file_number_ e) (has_last_sequence_ e)
    (compact_pointers_ e) (deleted_files_ e) (new_files_ e).

Definition SetPrevLogNumber (e : VersionEdit) (num : Z) : VersionEdit :=
  MkEdit (comparator_ e) (log_number_ e) num (next_file_number_ e) (last_sequence_ e)
    (has_comparator_ e) (has_log_number_ e) true (has_next_file_number_ e) (has_last_sequence_ e)
    (compact_pointers_ e) (deleted_files_ e) (new_files_ e).

Definition SetNextFile (e : VersionEdit) (num : Z) : VersionEdit :=
  MkEdit (comparator_ e) (log_number_ e) (prev_log_number_ e) num (last_sequence_ e)
    (has_comparator_ e) (has_log_number_ e) (has_prev_log_number_ e) true (has_last_sequence_ e)
    (compact_pointers_ e) (deleted_files_ e) (new_files_ e).

Definition SetLastSequence (e : VersionEdit) (seq : Z) : VersionEdit :=
  MkEdit (comparator_ e) (log_number_ e) (prev_log_number_ e) (next_file_number_ e) seq
    (has_comparator_ e) (has_log_number_ e) (has_prev_log_number_ e) (has_next_file_number_ e) true
    (compact_pointers_ e) (deleted_files_ e) (new_files_ e).

Definition SetCompactPointer (e : VersionEdit) (level : Z) (key : bytes) : VersionEdit :=
  MkEdit (comparator_ e) (log_number_ e) (prev_log_number_ e) (next_file_number_ e) (last_sequence_ e)
    (has_comparator_ e) (has_log_number_ e) (has_prev_log_number_ e) (has_next_file_number_ e)
    (has_last_sequence_ e) (compact_pointers_ e ++ [(level, key)]) (deleted_files_ e) (new_files_ e).

Definition push_file (e : VersionEdit) (level : Z) (f : FileMetaData) : VersionEdit :=
  MkEdit (comparator_ e) (log_number_ e) (prev_log_number_ e) (next_file_number_ e) (last_sequence_ e)
    (has_comparator_ e) (has_log_number_ e) (has_prev_log_number_ e) (has_next_file_number_ e)
    (has_last_sequence_ e) (compact_pointers_ e) (deleted_files_ e) (new_files_ e ++ [(level, f)]).

Definition AddFile (e : VersionEdit) (level file file_size : Z) (smallest largest : bytes) : VersionEdit :=
  push_file e level (FileMetaData_new file file_size smallest largest).

(** [std::pair] order, and insertion into a [std::set]. *)
Definition pair_ltb (a b : Z * Z) : bool :=
  (a.1 <? b.1) || ((a.1 =? b.1) && (a.2 <? b.2)).

Fixpoint set_insert (x : Z * Z) (l : list (Z * Z)) : list (Z * Z) :=
  match l with
  | [] => [x]
  | y :: l' => if pair_ltb x y then x :: l else if pair_ltb y x then y :: set_insert x l' else l
  end.

Definition DeleteFile (e : VersionEdit) (level file : Z) : VersionEdit :=
  MkEdit (comparator_ e) (log_number_ e) (prev_log_number_ e) (next_file_number_ e) (last_sequence_ e)
    (has_comparator_ e) (has_log_number_ e) (has_prev_log_number_ e) (has_next_file_number_ e)
    (has_last_sequence_ e) (compact_pointers_ e) (set_insert (level, file) (deleted_files_ e)) (new_files_ e).

(** ** [EncodeTo] *)

Definition put_if (b : bool) (f : bytes -> bytes) (dst : bytes) : bytes := if b then f dst else dst.

Definition encode_pointer (dst : bytes) (p : Z * bytes) : bytes :=
  PutLengthPrefixedSlice (PutVarint32 (PutVarint32 dst Tag.kCompactPointer) (u32 p.1)) p.2.

Definition encode_deleted (dst : bytes) (p : Z * Z) : bytes :=
  PutVarint64 (PutVarint32 (PutVarint32 dst Tag.kDeletedFile) (u32 p.1)) p.2.

Definition encode_new (dst : bytes) (p : Z * FileMetaData) : bytes :=
  let f := p.2 in
  let dst := PutVarint32 dst Tag.kNewFile in
  let dst := PutVarint32 dst (u32 p.1) in
  let dst := PutVarint64 dst (number f) in
  let dst := PutVarint64 dst (file_size f) in
  let dst := PutLengthPrefixedSlice dst (smallest f) in
  PutLengthPrefixedSlice dst (largest f).

Definition EncodeTo (e : VersionEdit) (dst : bytes) : bytes :=
  let dst := put_if (has_comparator_ e)
    (fun dst => PutLengthPrefixedSlice (PutVarint32 dst Tag.kComparator) (comparator_ e)) dst in
  let dst := put_if (has_log_number_ e)
    (fun dst => PutVarint64 (PutVarint32 dst Tag.kLogNumber) (log_number_ e)) dst in
  let dst := put_if (has_prev_log_number_ e)
    (fun dst => PutVarint64 (PutVarint32 dst Tag.kPrevLogNumber) (prev_log_number_ e)) dst in
  let dst := put_if (has_next_file_number_ e)
    (fun dst => PutVarint64 (PutVarint32 dst Tag.kNextFileNumber) (next_file_number_ e)) dst in
  let dst := put_if (has_last_sequence_ e)
    (fun dst => PutVarint64 (PutVarint32 dst Tag.kLastSequence) (last_sequence_ e)) dst in
  let dst := fold_left encode_pointer (compact_pointers_ e) dst in
  let dst := fold_left encode_deleted (deleted_files_ e) dst in
  fold_left encode_new (new_files_ e) dst.

(** ** [DecodeFrom] *)

Definition GetInternalKey (input : bytes) : option (bytes * bytes) :=
  match GetLengthPrefixedSlice input with
  | (Some str, input) => Some (str, input)
  | (None, _) => None
  end.

Definition GetLevel (input : bytes) : option (Z * bytes) :=
  match GetVarint32 input with
  | Some (v, input) => if v <? kNumLevels then Some (v, input) else None
  | None => None
  end.

(** One tag: the edit and the rest of the input, or the error message. *)
Definition decode_tag (tag : Z) (input : bytes) (e : VersionEdit) : bytes + (VersionEdit * bytes) :=
  if tag =? Tag.kComparator then
    match GetLengthPrefixedSlice input with
    | (Some str, input) => inr (SetComparatorName e str, input)
    | _ => inl (str "comparator name")
    end
  else if tag =? Tag.kLogNumber then
    match GetVarint64 input with
    | Some (n, input) => inr (SetLogNumber e n, input)
    | None => inl (str "log number")
    end
  else if tag =? Tag.kPrevLogNumber then
    match GetVarint64 input with
    | Some (n, input) => inr (SetPrevLogNumber e n, input)
    | None => inl (str "previous log number")
    end
  else if tag =? Tag.kNextFileNumber then
    match GetVarint64 input with
    | Some (n, input) => inr (SetNextFile e n, input)
    | None => inl (str "next file number")
    end
  else if tag =? Tag.kLastSequence then
    match GetVarint64 input with
    | Some (n, input) => inr (SetLastSequence e n, input)
    | None => inl (str "last sequence number")
    end
  else if tag =? Tag.kCompactPointer then
    match (l ← GetLevel input; k ← GetInternalKey l.2; Some (l.1, k)) with
    | Some (level, (key, input)) => inr (SetCompactPointer e level key, input)
    | None => inl (str "compaction pointer")
    end
  else if tag =? Tag.kDeletedFile then
    match (l ← GetLevel input; n ← GetVarint64 l.2; Some (l.1, n)) with
    | Some (level, (num, input)) => inr (DeleteFile e level num, input)
    | None => inl (str "deleted file")
    end
  else if tag =? Tag.kNewFile then
    match (l ← GetLevel input; n ← GetVarint64 l.2; s ← GetVarint64 n.2;
           a ← GetInternalKey s.2; b ← GetInternalKey a.2; Some (l.1, (n.1, s.1, a.1, b))) with
    | Some (level, (num, size, small, (large, input))) =>
        inr (AddFile e level num size small large, input)
    | None => inl (str "new-file entry")
    end
  else inl (str "unknown tag").

(** [while (msg == NULL && GetVarint32(&input, &tag))]: every tag consumes
    input, so its length bounds the iterations. *)
Fixpoint DecodeFrom_loop (fuel : nat) (input : bytes) (e : VersionEdit)
    : option (option bytes * bytes * VersionEdit) :=
  match GetVarint32 input with
  | None => Some (None, input, e)
  | Some (tag, rest) =>
      match fuel with
      | O => None
      | S fuel =>
          match decode_tag tag rest e with
          | inl msg => Some (Some msg, rest, e)
          | inr (e, rest) => DecodeFrom_loop fuel rest e
          end
      end
  end.

Definition DecodeFrom (e : VersionEdit) (src : bytes) : option (Status * VersionEdit) :=
  match DecodeFrom_loop (length src) src (Clear e) with
  | None => None
  | Some (msg, input, e) =>
      let msg := match msg, input with
                 | None, _ :: _ => Some (str "invalid tag")
                 | _, _ => msg
                 end in
      Some (match msg with Some m => Corruption (str "VersionEdit") m | None => Status_OK end, e)
  end.

(** ** Edits as lists of items

    Encoding writes one item after the other; decoding applies one update per
    item. *)
Definition item : Type := bytes * (VersionEdit -> VersionEdit).

Definition item_ok (i : item) : Prop :=
  exists tag payload, 0 <= tag < 2 ^ 32 /\ i.1 = EncodeVarint32 tag ++ payload /\
    forall rest e, decode_tag tag (payload ++ rest) e = inr (i.2 e, rest).

Lemma DecodeFrom_items items : forall fuel e,
  Forall item_ok items -> (length items <= fuel)%nat ->
  DecodeFrom_loop fuel (concat (fst <$> items)) e
  = Some (None, [], fold_left (fun e i => i.2 e) items e).
Proof.
  induction items as [|i items IH]; intros fuel e Hok Hf; [by destruct fuel|].
  apply Forall_cons in Hok as [(tag & payload & Ht & Hb & Hd) Hok]. destruct fuel as [|fuel]; [simpl in Hf; lia|].
  rewrite fmap_cons. cbn [concat]. rewrite Hb, <- app_assoc. cbn [DecodeFrom_loop].
  rewrite GetVarint32_Encode by done. rewrite Hd. cbn [fold_left]. apply IH; [done|simpl in Hf; lia].
Qed.

Definition tagged (tag : Z) (payload : bytes) : bytes := EncodeVarint32 tag ++ payload.

Definition comparator_item (n : bytes) : item :=
  (tagged Tag.kComparator (length_prefixed n), fun e => SetComparatorName e n).
Definition number_item (tag : Z) (set : VersionEdit -> Z -> VersionEdit) (n : Z) : item :=
  (tagged tag (EncodeVarint64 n), fun e => set e n).
Definition pointer_item (p : Z * bytes) : item :=
  (tagged Tag.kCompactPointer (EncodeVarint32 p.1 ++ length_prefixed p.2),
   fun e => SetCompactPointer e p.1 p.2).
Definition deleted_item (p : Z * Z) : item :=
  (tagged Tag.kDeletedFile (EncodeVarint32 p.1 ++ EncodeVarint64 p.2), fun e => DeleteFile e p.1 p.2).
Definition new_item (p : Z * FileMetaData) : item :=
  (tagged Tag.kNewFile (EncodeVarint32 p.1 ++ EncodeVarint64 (number p.2) ++ EncodeVarint64 (file_size p.2)
     ++ length_prefixed (smallest p.2) ++ length_prefixed (largest p.2)),
   fun e => AddFile e p.1 (number p.2) (file_size p.2) (smallest p.2) (largest p.2)).

Definition opt_item (b : bool) (i : item) : list item := if b then [i] else [].

Definition items_of (e : VersionEdit) : list item :=
  opt_item (has_comparator_ e) (comparator_item (comparator_ e)) ++
  opt_item (has_log_number_ e) (number_item Tag.kLogNumber SetLogNumber (log_number_ e)) ++
  opt_item (has_prev_log_number_ e) (number_item Tag.kPrevLogNumber SetPrevLogNumber (prev_log_number_ e)) ++
  opt_item (has_next_file_number_ e) (number_item Tag.kNextFileNumber SetNextFile (next_file_number_ e)) ++
  opt_item (has_last_sequence_ e) (number_item Tag.kLastSequence SetLastSequence (last_sequence_ e)) ++
  (pointer_item <$> compact_pointers_ e) ++ (deleted_item <$> deleted_files_ e) ++
  (new_item <$> new_files_ e).

(** What the engine puts into an edit. *)
Definition level_ok (l : Z) : Prop := 0 <= l < kNumLevels.
Definition num_ok (n : Z) : Prop := 0 <= n < 2 ^ 64.
Definition file_ok (f : FileMetaData) : Prop :=
  num_ok (number f) /\ num_ok (file_size f) /\ zlen (smallest f) < 2 ^ 32 /\ zlen (largest f) < 2 ^ 32 /\
  f = FileMetaData_new (number f) (file_size f) (smallest f) (largest f).

Fixpoint set_sorted (l : list (Z * Z)) : Prop :=
  match l with
  | [] => True
  | x :: l' => Forall (fun y => pair_ltb x y = true) l' /\ set_sorted l'
  end.

Record edit_ok (e : VersionEdit) : Prop := {
  eo_comparator : zlen (comparator_ e) < 2 ^ 32 /\ (has_comparator_ e = false -> comparator_ e = []);
  eo_log : num_ok (log_number_ e) /\ (has_log_number_ e = false -> log_number_ e = 0);
  eo_prev : num_ok (prev_log_number_ e) /\ (has_prev_log_number_ e = false -> prev_log_number_ e = 0);
  eo_next : num_ok (next_file_number_ e) /\ (has_next_file_number_ e = false -> next_file_number_ e = 0);
  eo_last : num_ok (last_sequence_ e) /\ (has_last_sequence_ e = false -> last_sequence_ e = 0);
  eo_pointers : Forall (fun p => level_ok p.1 /\ zlen p.2 < 2 ^ 32) (compact_pointers_ e);
  eo_deleted : Forall (fun p => level_ok p.1 /\ num_ok p.2) (deleted_files_ e) /\ set_sorted (deleted_files_ e);
  eo_new : Forall (fun p => level_ok p.1 /\ file_ok p.2) (new_files_ e)
}.

Lemma level_u32 l : level_ok l -> u32 l = l.
Proof. unfold level_ok, kNumLevels. intros. apply u32_small. lia. Qed.

Lemma GetLevel_encode l rest : level_ok l -> GetLevel (EncodeVarint32 l ++ rest) = Some (l, rest).
Proof.
  unfold level_ok, kNumLevels. intros. unfold GetLevel. rewrite GetVarint32_Encode by lia.
  rewrite (proj2 (Z.ltb_lt _ _)) by (unfold kNumLevels; lia). done.
Qed.

Lemma GetInternalKey_encode k rest : zlen k < 2 ^ 32 ->
  GetInternalKey (length_prefixed k ++ rest) = Some (k, rest).
Proof. intros. unfold GetInternalKey. by rewrite GetLengthPrefixedSlice_Put. Qed.

Lemma fold_encode {A} (enc : bytes -> A -> bytes) (i : A -> item) (l : list A) :
  Forall (fun x => forall dst, enc dst x = dst ++ (i x).1) l -> forall dst,
  fold_left enc l dst = dst ++ concat (fst <$> (i <$> l)).
Proof.
  induction 1 as [|x l Hx Hl IH]; intros dst; simpl; [by rewrite app_nil_r|].
  rewrite IH, Hx, <- app_assoc. done.
Qed.

Lemma put_if_item b f (i : item) dst :
  (forall dst, f dst = dst ++ i.1) -> put_if b f dst = dst ++ concat (fst <$> opt_item b i).
Proof. intros Hf. destruct b; simpl; [by rewrite Hf, app_nil_r|by rewrite app_nil_r]. Qed.

Ltac put := unfold tagged, PutVarint32, PutVarint64; rewrite <- ?app_assoc; reflexivity.

Lemma EncodeTo_items e dst : edit_ok e -> EncodeTo e dst = dst ++ concat (fst <$> items_of e).
Proof.
  intros [[Hc _] _ _ _ _ Hp [Hd _] Hn]. unfold EncodeTo, items_of. cbv zeta.
  rewrite (fold_encode encode_new new_item), (fold_encode encode_deleted deleted_item),
    (fold_encode encode_pointer pointer_item).
  - rewrite (put_if_item _ _ (number_item Tag.kLastSequence SetLastSequence (last_sequence_ e))) by (intros; put).
    rewrite (put_if_item _ _ (number_item Tag.kNextFileNumber SetNextFile (next_file_number_ e))) by (intros; put).
    rewrite (put_if_item _ _ (number_item Tag.kPrevLogNumber SetPrevLogNumber (prev_log_number_ e))) by (intros; put).
    rewrite (put_if_item _ _ (number_item Tag.kLogNumber SetLogNumber (log_number_ e))) by (intros; put).
    rewrite (put_if_item _ _ (comparator_item (comparator_ e)))
      by (intros; rewrite PutLengthPrefixedSlice_eq by done; put).
    by rewrite !fmap_app, !concat_app, <- !app_assoc.
  - eapply Forall_impl; [exact Hp|]. intros [l k] [Hl Hk] dst'. unfold encode_pointer, pointer_item. simpl in *.
    rewrite PutLengthPrefixedSlice_eq, level_u32 by done. put.
  - eapply Forall_impl; [exact Hd|]. intros [l n] [Hl Hk] dst'. unfold encode_deleted, deleted_item. simpl in *.
    rewrite level_u32 by done. put.
  - eapply Forall_impl; [exact Hn|]. intros [l f] (Hl & Hf1 & Hf2 & Hf3 & Hf4 & _) dst'.
    unfold encode_new, new_item. simpl in *. cbv zeta.
    rewrite !PutLengthPrefixedSlice_eq, level_u32 by done. put.
Qed.

Lemma number_item_ok tag set n :
  (tag, set) ∈ [(Tag.kLogNumber, SetLogNumber); (Tag.kPrevLogNumber, SetPrevLogNumber);
                (Tag.kNextFileNumber, SetNextFile); (Tag.kLastSequence, SetLastSequence)] ->
  num_ok n -> item_ok (number_item tag set n).
Proof.
  intros Hin Hn. exists tag, (EncodeVarint64 n).
  rewrite !elem_of_cons in Hin. destruct Hin as [E|[E|[E|[E|E%not_elem_of_nil]]]]; [..|done];
    injection E as -> ->; (split; [vm_compute; split; [discriminate|reflexivity]|]); (split; [reflexivity|]);
    intros rest e; unfold decode_tag; simpl; by rewrite GetVarint64_Encode.
Qed.

Lemma tag_small tag : (0 <=? tag) && (tag <? 10) = true -> 0 <= tag < 2 ^ 32.
Proof. intros. zsimp. lia. Qed.

Lemma items_ok e : edit_ok e -> Forall item_ok (items_of e).
Proof.
  intros [[Hc _] [Hl _] [Hpv _] [Hnx _] [Hls _] Hp [Hd _] Hn].
  assert (Hopt : forall b i, item_ok i -> Forall item_ok (opt_item b i)).
  { intros [] i Hi; repeat constructor. done. }
  unfold items_of. rewrite !Forall_app. split_and!;
    try (apply Hopt; apply number_item_ok; [rewrite !elem_of_cons; tauto|done]).
  - apply Hopt. exists Tag.kComparator, (length_prefixed (comparator_ e)).
    split; [by apply tag_small|]. split; [done|]. intros rest e'. unfold decode_tag. simpl.
    by rewrite GetLengthPrefixedSlice_Put.
  - apply Forall_fmap. eapply Forall_impl; [exact Hp|]. intros [l k] [Hlv Hk].
    eexists Tag.kCompactPointer, _. split; [by apply tag_small|]. split; [reflexivity|]. intros rest e'.
    unfold decode_tag. simpl. rewrite <- app_assoc, GetLevel_encode by done. simpl.
    by rewrite GetInternalKey_encode.
  - apply Forall_fmap. eapply Forall_impl; [exact Hd|]. intros [l k] [Hlv Hk].
    eexists Tag.kDeletedFile, _. split; [by apply tag_small|]. split; [reflexivity|]. intros rest e'.
    unfold decode_tag. simpl. rewrite <- app_assoc, GetLevel_encode by done. simpl.
    by rewrite GetVarint64_Encode.
  - apply Forall_fmap. eapply Forall_impl; [exact Hn|]. intros [l f] (Hlv & Hf1 & Hf2 & Hf3 & Hf4 & _).
    eexists Tag.kNewFile, _. split; [by apply tag_small|]. split; [reflexivity|]. intros rest e'.
    unfold decode_tag. simpl in *. rewrite <- !app_assoc, GetLevel_encode by done. simpl.
    rewrite GetVarint64_Encode by done. simpl. rewrite GetVarint64_Encode by done. simpl.
    rewrite GetInternalKey_encode by done. simpl. by rewrite GetInternalKey_encode.
Qed.

(** ** What the updates make of an edit *)

Definition with_lists (e : VersionEdit) p d n : VersionEdit :=
  MkEdit (comparator_ e) (log_number_ e) (prev_log_number_ e) (next_file_number_ e) (last_sequence_ e)
    (has_comparator_ e) (has_log_number_ e) (has_prev_log_number_ e) (has_next_file_number_ e)
    (has_last_sequence_ e) p d n.

Abbreviation apply_items := (fold_left (fun (e : VersionEdit) (i : item) => i.2 e)).

Lemma apply_pointers l : forall e,
  apply_items (pointer_item <$> l) e
  = with_lists e (compact_pointers_ e ++ l) (deleted_files_ e) (new_files_ e).
Proof.
  induction l as [|[lv k] l IH]; intros e; simpl; [rewrite app_nil_r; by destruct e|].
  rewrite IH. unfold with_lists. simpl. by rewrite <- app_assoc.
Qed.

Lemma pair_ltb_irrefl x : pair_ltb x x = false.
Proof. unfold pair_ltb. rewrite !Z.ltb_irrefl. by rewrite andb_false_r. Qed.

Lemma pair_ltb_asym x y : pair_ltb x y = true -> pair_ltb y x = false.
Proof. unfold pair_ltb. destruct x, y. simpl. intros H. zcases; by zsimp || (simpl in *; zsimp; lia) || done. Qed.

Lemma set_insert_last x l : Forall (fun y => pair_ltb y x = true) l -> set_insert x l = l ++ [x].
Proof.
  induction 1 as [|y l Hy Hl IH]; [done|]. simpl. rewrite (pair_ltb_asym _ _ Hy), Hy. by rewrite IH.
Qed.

Lemma set_sorted_app l1 l2 : set_sorted (l1 ++ l2) ->
  set_sorted l2 /\ forall x y, x ∈ l1 -> y ∈ l2 -> pair_ltb x y = true.
Proof.
  induction l1 as [|a l1 IH]; intros Hs; simpl in Hs; [split; [done|]; by intros x y ?%not_elem_of_nil|].
  destruct Hs as [Ha Hs]. destruct (IH Hs) as [H2 Hx]. split; [done|].
  intros x y [->|Hin]%elem_of_cons Hy; [|by apply Hx].
  rewrite Forall_forall in Ha. apply Ha, elem_of_app. by right.
Qed.

Lemma apply_deleted l : forall e, set_sorted (deleted_files_ e ++ l) ->
  apply_items (deleted_item <$> l) e
  = with_lists e (compact_pointers_ e) (deleted_files_ e ++ l) (new_files_ e).
Proof.
  induction l as [|[lv k] l IH]; intros e Hs; simpl; [rewrite app_nil_r; by destruct e|].
  assert (Hins : set_insert (lv, k) (deleted_files_ e) = deleted_files_ e ++ [(lv, k)]).
  { apply set_insert_last. apply Forall_forall. intros x Hx.
    apply set_sorted_app in Hs as [_ Hs]. apply Hs; [done|left]. }
  rewrite IH; unfold DeleteFile; simpl; rewrite Hins.
  - unfold with_lists. simpl. by rewrite <- app_assoc.
  - by rewrite <- app_assoc.
Qed.

Lemma apply_new l : forall e, Forall (fun p => file_ok p.2) l ->
  apply_items (new_item <$> l) e
  = with_lists e (compact_pointers_ e) (deleted_files_ e) (new_files_ e ++ l).
Proof.
  induction l as [|[lv f] l IH]; intros e Hf; simpl; [rewrite app_nil_r; by destruct e|].
  apply Forall_cons in Hf as [(_ & _ & _ & _ & Heq) Hf]. simpl in Heq. rewrite IH by done.
  unfold with_lists, AddFile, push_file. simpl. rewrite <- Heq. by rewrite <- app_assoc.
Qed.

Lemma apply_all e e0 : edit_ok e ->
  apply_items (items_of e) (Clear e0)
  = with_lists e (compact_pointers_ e0 ++ compact_pointers_ e) (deleted_files_ e) (new_files_ e).
Proof.
  intros [[_ Hc] [_ Hl] [_ Hp] [_ Hn] [_ Hs] _ [_ Hd] Hf]. unfold items_of. rewrite !fold_left_app.
  assert (Hhead : forall f : VersionEdit -> VersionEdit, f (apply_items (opt_item (has_last_sequence_ e) (number_item Tag.kLastSequence SetLastSequence (last_sequence_ e)))
    (apply_items (opt_item (has_next_file_number_ e) (number_item Tag.kNextFileNumber SetNextFile (next_file_number_ e)))
    (apply_items (opt_item (has_prev_log_number_ e) (number_item Tag.kPrevLogNumber SetPrevLogNumber (prev_log_number_ e)))
    (apply_items (opt_item (has_log_number_ e) (number_item Tag.kLogNumber SetLogNumber (log_number_ e)))
    (apply_items (opt_item (has_comparator_ e) (comparator_item (comparator_ e))) (Clear e0))))))
    = f (with_lists e (compact_pointers_ e0) [] [])).
  { intros f. f_equal. destruct e as [c ln pn nn ls [] [] [] [] [] ps ds fs]; simpl in *;
      rewrite ?Hc, ?Hl, ?Hp, ?Hn, ?Hs by done; reflexivity. }
  rewrite Hhead, apply_pointers, apply_deleted, apply_new; simpl; try done.
  eapply Forall_impl; [exact Hf|]. by intros ? [_ ?].
Qed.

(** ** Decoding always returns *)

Lemma GetVarint64_shorter input v rest : GetVarint64 input = Some (v, rest) -> (length rest < length input)%nat.
Proof. intros H. apply GetVarint64_consumes in H as (_ & pre & -> & Hp). rewrite length_app. lia. Qed.

Lemma GetLevel_shorter input v rest : bytes_ok input -> GetLevel input = Some (v, rest) ->
  (length rest < length input)%nat /\ bytes_ok rest.
Proof.
  intros Hok. unfold GetLevel. destruct (GetVarint32 input) as [[w r]|] eqn:E; [|done].
  destruct (w <? kNumLevels); [|done]. intros [= <- <-].
  apply GetVarint32_consumes in E as (_ & pre & -> & Hp); [|done]. apply bytes_ok_app in Hok as [_ Hr].
  rewrite length_app. split; [lia|done].
Qed.

Lemma GetInternalKey_shorter input k rest : bytes_ok input -> GetInternalKey input = Some (k, rest) ->
  (length rest < length input)%nat /\ bytes_ok rest.
Proof.
  intros Hok. unfold GetInternalKey. destruct (GetLengthPrefixedSlice input) as [[s|] r] eqn:E; [|done].
  intros [= <- <-]. apply GetLengthPrefixedSlice_splits in E as (pre & -> & Hp); [|done].
  apply bytes_ok_app in Hok as [_ Hr]. apply bytes_ok_app in Hr as [_ Hr]. rewrite !length_app. split; [lia|done].
Qed.

Lemma GetVarint64_rest input v rest : bytes_ok input -> GetVarint64 input = Some (v, rest) ->
  (length rest < length input)%nat /\ bytes_ok rest.
Proof.
  intros Hok H. split; [by eapply GetVarint64_shorter|].
  apply GetVarint64_consumes in H as (_ & pre & -> & _). by apply bytes_ok_app in Hok as [_ ?].
Qed.

Ltac shorter :=
  repeat match goal with
  | H : GetVarint64 ?i = Some _ |- _ => apply GetVarint64_rest in H as [? ?]; [|assumption]
  | H : GetLevel ?i = Some _ |- _ => apply GetLevel_shorter in H as [? ?]; [|assumption]
  | H : GetInternalKey ?i = Some _ |- _ => apply GetInternalKey_shorter in H as [? ?]; [|assumption]
  end.

Lemma decode_tag_shorter tag input e e' rest :
  bytes_ok input -> decode_tag tag input e = inr (e', rest) ->
  (length rest <= length input)%nat /\ bytes_ok rest.
Proof.
  intros Hok. unfold decode_tag.
  repeat (destruct (tag =? _);
    [repeat match goal with
       | |- context [GetLengthPrefixedSlice ?i] =>
           destruct (GetLengthPrefixedSlice i) as [[?|] ?] eqn:?; simpl; [|discriminate]
       | |- context [GetVarint64 ?i] => destruct (GetVarint64 i) as [[? ?]|] eqn:?; simpl; [|discriminate]
       | |- context [GetLevel ?i] => destruct (GetLevel i) as [[? ?]|] eqn:?; simpl; [|discriminate]
       | |- context [GetInternalKey ?i] => destruct (GetInternalKey i) as [[? ?]|] eqn:?; simpl; [|discriminate]
       end; try (intros [= <- <-]; shorter; split; [lia|assumption])|]); [|discriminate].
  intros [= <- <-]. apply GetLengthPrefixedSlice_splits in Heqp as (pre & -> & Hp); [|done].
  apply bytes_ok_app in Hok as [_ Hr]. apply bytes_ok_app in Hr as [_ Hr]. rewrite !length_app. split; [lia|done].
Qed.

Lemma DecodeFrom_loop_total fuel : forall input e,
  bytes_ok input -> (length input <= fuel)%nat -> is_Some (DecodeFrom_loop fuel input e).
Proof.
  induction fuel as [|fuel IH]; intros input e Hok Hl; cbn [DecodeFrom_loop];
    destruct (GetVarint32 input) as [[tag rest]|] eqn:E; try done;
    apply GetVarint32_consumes in E as (_ & pre & -> & Hp); try done; rewrite length_app in Hl; [lia|].
  apply bytes_ok_app in Hok as [_ Hr]. destruct (decode_tag tag rest e) as [m|[e' r']] eqn:Hd; [done|].
  apply decode_tag_shorter in Hd as [? ?]; [|done]. apply IH; [done|lia].
Qed.

(** Decoding into an object that held other pointers keeps them in front. *)
Lemma decode_encode e e1 : edit_ok e -> DecodeFrom e1 (EncodeTo e [])
  = Some (Status_OK, with_lists e (compact_pointers_ e1 ++ compact_pointers_ e) (deleted_files_ e) (new_files_ e)).
Proof.
  intros He. unfold DecodeFrom. rewrite EncodeTo_items by done. cbn [app]. pose proof (items_ok e He) as Hok.
  rewrite DecodeFrom_items; [by rewrite apply_all|done|]. clear He e1.
  induction Hok as [|i l (tag & payload & Ht & Hb & _) Hok IH]; [done|].
  rewrite fmap_cons. cbn [concat]. rewrite Hb, !length_app. simpl. pose proof (EncodeVarint32_length tag Ht). lia.
Qed.

Lemma decode_encode_new e : edit_ok e -> DecodeFrom VersionEdit_new (EncodeTo e []) = Some (Status_OK, e).
Proof. intros He. rewrite decode_encode by done. by destruct e. Qed.

(** An encoded edit is a string of bytes when its keys are. *)
Record edit_bytes (e : VersionEdit) : Prop := {
  eb_comparator : bytes_ok (comparator_ e);
  eb_pointers : Forall (fun p => bytes_ok p.2) (compact_pointers_ e);
  eb_new : Forall (fun p => bytes_ok (smallest p.2) /\ bytes_ok (largest p.2)) (new_files_ e)
}.

Lemma length_prefixed_ok k : zlen k < 2 ^ 32 -> bytes_ok k -> bytes_ok (length_prefixed k).
Proof. intros Hk Hb. apply bytes_ok_app. split; [|done]. apply EncodeVarint32_ok. pose proof (zlen_nonneg k). lia. Qed.

Lemma EncodeTo_bytes e : edit_ok e -> edit_bytes e -> bytes_ok (EncodeTo e []).
Proof.
  intros He [B1 B2 B3]. rewrite EncodeTo_items by done. cbn [app]. destruct He as [[H1 _] [H2 _] [H3 _] [H4 _] [H5 _] H6 [H7 _] H8].
  unfold num_ok, level_ok, kNumLevels in *. apply Forall_concat. rewrite Forall_fmap.
  assert (Hnum : forall b t f n, 0 <= t < 2 ^ 32 -> 0 <= n -> Forall (bytes_ok ∘ fst) (opt_item b (number_item t f n))).
  { intros [|] t f n Ht Hn; constructor; [|done]. apply bytes_ok_app. split; [by apply EncodeVarint32_ok|by apply EncodeVarint64_ok]. }
  assert (Htag : forall t d, 0 <= t < 2 ^ 32 -> bytes_ok d -> bytes_ok (tagged t d)).
  { intros t d Ht Hd. apply bytes_ok_app. split; [by apply EncodeVarint32_ok|done]. }
  unfold items_of. repeat (apply Forall_app; split); try (apply Hnum; [done|lia]).
  - destruct (has_comparator_ e); constructor; [|done]. apply Htag; [done|]. by apply length_prefixed_ok.
  - rewrite Forall_fmap. apply Forall_forall. intros p Hp. rewrite Forall_forall in H6, B2. destruct (H6 p Hp) as [? ?].
    apply Htag; [done|]. apply bytes_ok_app. split; [apply EncodeVarint32_ok; lia|]. apply length_prefixed_ok; [done|by apply B2].
  - rewrite Forall_fmap. apply Forall_forall. intros p Hp. rewrite Forall_forall in H7. destruct (H7 p Hp) as [? ?].
    apply Htag; [done|]. apply bytes_ok_app. split; [apply EncodeVarint32_ok; lia|apply EncodeVarint64_ok; lia].
  - rewrite Forall_fmap. apply Forall_forall. intros p Hp. rewrite Forall_forall in H8, B3. destruct (H8 p Hp) as [? (? & ? & ? & ? & _)].
    destruct (B3 p Hp) as [? ?]. unfold num_ok in *. apply Htag; [done|]. do 4 (apply bytes_ok_app; split; [first [apply EncodeVarint32_ok; lia|apply EncodeVarint64_ok; lia|by apply length_prefixed_ok]|]).
    by apply length_prefixed_ok.
Qed.

(** ** Properties *)

(** Descriptor round trip: decoding the encoding of an edit into any edit
    object succeeds and gives that edit back, field by field.  Since [Clear]
    does not reset them, the compaction pointers the object held before stay in
    front of the decoded ones; for a fresh object the result is the edit. *)
Theorem version_edit_roundtrip (e e0 : VersionEdit) :
  edit_ok e ->
  DecodeFrom e0 (EncodeTo e [])
  = Some (Status_OK, with_lists e (compact_pointers_ e0 ++ compact_pointers_ e)
                       (deleted_files_ e) (new_files_ e)) /\
  DecodeFrom VersionEdit_new (EncodeTo e []) = Some (Status_OK, e).
Proof. intros He. split; rewrite decode_encode by done; [done|by destruct e]. Qed.

Lemma version_edit_roundtrip_witness :
  let e := DeleteFile (DeleteFile (AddFile (SetCompactPointer (SetLogNumber VersionEdit_new 300) 2 [1; 2])
             1 7 4096 [97; 1; 0; 0; 0; 0; 0; 0; 0] [98; 1; 0; 0; 0; 0; 0; 0; 0]) 2 9) 0 12 in
  DecodeFrom VersionEdit_new (EncodeTo e []) = Some (Status_OK, e).
Proof.
  intros e. apply (version_edit_roundtrip e VersionEdit_new).
  split; unfold num_ok; simpl; repeat split; try lia; try discriminate;
    repeat constructor; unfold level_ok, num_ok, kNumLevels, zlen; simpl; try lia; reflexivity.
Defined.

(** Decoding is total: on any bytes, well formed or not, [DecodeFrom]
    returns, with an OK status or with a corruption error. *)
Theorem version_edit_decode_total (e : VersionEdit) (src : bytes) :
  bytes_ok src -> exists s e', DecodeFrom e src = Some (s, e') /\ (ok s = true \/ code s = code_num kCorruption).
Proof.
  intros Hok. destruct (DecodeFrom_loop_total (length src) src (Clear e) Hok ltac:(lia)) as [[[msg input] e'] Hd].
  unfold DecodeFrom. rewrite Hd. destruct msg as [m|]; [|destruct input]; (eexists _, _; split; [reflexivity|]).
  - right. reflexivity.
  - by left.
  - by right.
Qed.

Lemma version_edit_decode_total_witness :
  exists s e', DecodeFrom VersionEdit_new [7; 9] = Some (s, e') /\
    (ok s = true \/ code s = code_num kCorruption).
Proof. apply (version_edit_decode_total VersionEdit_new [7; 9]). repeat constructor; unfold is_byte; lia. Defined.
