(* ===== verification/Version.v ===== *)
(** * Version: searching the files of a version

    src/LSM-EBF/db/version_set.cc, the part that reads the lists of files of a
    version: [FindFile], the overlap tests, [GetOverlappingInputs] with its
    restarts on level 0, and the choice of a level for a new memtable file.
    These read only the fields of a file that never change (number, size and
    bounds), so they take the lists of files themselves; [None] is a failed
    assertion, undefined behaviour or a loop out of fuel. *)
From stdpp Require Import gmap.
From S2P Require Import Prelude Coding Status Comparator DbFormat VersionEdit.

(** ** The heap of files *)

(** [FileMetaData] objects by address: versions share them. *)
Abbreviation file_heap := (gmap Z FileMetaData).

(** The fields of a file that never change. *)
Abbreviation file_meta := (Z * Z * bytes * bytes)%type.

Definition meta (f : FileMetaData) : file_meta := (number f, file_size f, smallest f, largest f).

(** ** Limits from the options *)

(** A product in type [int]: overflow is undefined. *)
Definition int_mul (a b : Z) : option Z :=
  if (- 2 ^ 31 <=? a * b) && (a * b <? 2 ^ 31) then Some (a * b) else None.

Definition TargetFileSize (max_file_size : Z) : Z := i32 max_file_size.

Definition MaxGrandParentOverlapBytes (max_file_size : Z) : option Z :=
  int_mul 10 (TargetFileSize max_file_size).

Definition ExpandedCompactionByteSizeLimit (max_file_size : Z) : option Z :=
  int_mul 25 (TargetFileSize max_file_size).

(** The [int] of [TargetFileSize] widened to [uint64_t]. *)
Definition MaxFileSizeForLevel (max_file_size : Z) (level : Z) : Z := u64 (TargetFileSize max_file_size).

(** [int64_t sum += uint64_t]. *)
Definition TotalFileSize (files : list FileMetaData) : Z :=
  foldl (fun sum f => i64 (sum + file_size f)) 0 files.

(** An [InternalKey] made of its parts. *)
Definition InternalKey_make (u : bytes) (s : Z) (t : ValueType) : bytes :=
  AppendInternalKey [] {| user_key := u; sequence := s; type := t |}.

Section Files.
Context {user_comparator : Comparator}.

(** ** File search *)

Fixpoint find_file_loop (fuel : nat) (files : list FileMetaData) (key : bytes) (left right : Z) : option Z :=
  if left <? right then
    match fuel with
    | O => None
    | S fuel =>
        let mid := u32 (left + right) / 2 in
        f ← files !! Z.to_nat mid;
        if internal_compare (largest f) key <? 0
        then find_file_loop fuel files key (u32 (mid + 1)) right
        else find_file_loop fuel files key left mid
    end
  else Some right.

Definition FindFile (files : list FileMetaData) (key : bytes) : option Z :=
  right ← find_file_loop (length files) files key 0 (u32 (zlen files));
  Some (i32 right).

(** [NULL] is [None]. *)
Definition AfterFile (user_key : option bytes) (f : FileMetaData) : bool :=
  match user_key with
  | None => false
  | Some k => 0 <? Compare k (ExtractUserKey (largest f))
  end.

Definition BeforeFile (user_key : option bytes) (f : FileMetaData) : bool :=
  match user_key with
  | None => false
  | Some k => Compare k (ExtractUserKey (smallest f)) <? 0
  end.

Definition SomeFileOverlapsRange (disjoint_sorted_files : bool) (files : list FileMetaData)
    (smallest_user_key largest_user_key : option bytes) : option bool :=
  if negb disjoint_sorted_files then
    Some (existsb (fun f => negb (AfterFile smallest_user_key f || BeforeFile largest_user_key f)) files)
  else
    index ← (match smallest_user_key with
             | None => Some 0
             | Some k =>
                 i ← FindFile files (InternalKey_make k kMaxSequenceNumber kValueTypeForSeek); Some (u32 i)
             end);
    if zlen files <=? index then Some false
    else
      f ← files !! Z.to_nat index;
      Some (negb (BeforeFile largest_user_key f)).

(** ** Overlapping inputs *)

Definition before_range (user_begin : option bytes) (f : FileMetaData) : bool :=
  match user_begin with
  | None => false
  | Some b => Compare (ExtractUserKey (largest f)) b <? 0
  end.

Definition after_range (user_end : option bytes) (f : FileMetaData) : bool :=
  match user_end with
  | None => false
  | Some e => 0 <? Compare (ExtractUserKey (smallest f)) e
  end.

(** The file reaches below the range, or above it. *)
Definition extends_begin (user_begin : option bytes) (f : FileMetaData) : bool :=
  match user_begin with
  | None => false
  | Some b => Compare (ExtractUserKey (smallest f)) b <? 0
  end.

Definition extends_end (user_end : option bytes) (f : FileMetaData) : bool :=
  match user_end with
  | None => false
  | Some e => 0 <? Compare (ExtractUserKey (largest f)) e
  end.

(** The loop, from index [i]; level 0 restarts when a file extends the range. *)
Fixpoint inputs_loop (fuel : nat) (level : Z) (files : list FileMetaData) (i : nat)
    (user_begin user_end : option bytes) (inputs : list FileMetaData) : option (list FileMetaData) :=
  match files !! i with
  | None => Some inputs
  | Some f =>
      match fuel with
      | O => None
      | S fuel =>
          if before_range user_begin f then inputs_loop fuel level files (S i) user_begin user_end inputs
          else if after_range user_end f then inputs_loop fuel level files (S i) user_begin user_end inputs
          else if level =? 0 then
            if extends_begin user_begin f
            then inputs_loop fuel level files 0 (Some (ExtractUserKey (smallest f))) user_end []
            else if extends_end user_end f
            then inputs_loop fuel level files 0 user_begin (Some (ExtractUserKey (largest f))) []
            else inputs_loop fuel level files (S i) user_begin user_end (inputs ++ [f])
          else inputs_loop fuel level files (S i) user_begin user_end (inputs ++ [f])
      end
  end.

(** Each restart moves a bound past that of another file. *)
Definition inputs_fuel (files : list FileMetaData) : nat :=
  ((2 * length files + 1) * (length files + 1))%nat.

Definition GetOverlappingInputs (level : Z) (files_ : list (list FileMetaData))
    (begin end_ : option bytes) : option (list FileMetaData) :=
  if (0 <=? level) && (level <? kNumLevels) then
    files ← files_ !! Z.to_nat level;
    inputs_loop (inputs_fuel files) level files 0 (ExtractUserKey <$> begin) (ExtractUserKey <$> end_) []
  else None.

(** ** The level of a new memtable file *)

Definition OverlapInLevel (files_ : list (list FileMetaData)) (level : Z)
    (smallest_user_key largest_user_key : option bytes) : option bool :=
  files ← files_ !! Z.to_nat level;
  SomeFileOverlapsRange (0 <? level) files smallest_user_key largest_user_key.

(** The test of the grandparents in the loop. *)
Definition too_many_grandparents (max_file_size : Z) (files_ : list (list FileMetaData)) (level : Z)
    (start limit : bytes) : option bool :=
  if level + 2 <? kNumLevels then
    overlaps ← GetOverlappingInputs (level + 2) files_ (Some start) (Some limit);
    bound ← MaxGrandParentOverlapBytes max_file_size;
    Some (bound <? TotalFileSize overlaps)
  else Some false.

Fixpoint pick_level_loop (fuel : nat) (max_file_size : Z) (files_ : list (list FileMetaData)) (level : Z)
    (small large : bytes) : option Z :=
  if level <? kMaxMemCompactLevel then
    match fuel with
    | O => None
    | S fuel =>
        overlap ← OverlapInLevel files_ (level + 1) (Some small) (Some large);
        if overlap : bool then Some level
        else
          many ← too_many_grandparents max_file_size files_ level
            (InternalKey_make small kMaxSequenceNumber kValueTypeForSeek)
            (InternalKey_make large 0 kTypeDeletion);
          if many : bool then Some level
          else pick_level_loop fuel max_file_size files_ (level + 1) small large
    end
  else Some level.

Definition PickLevelForMemTableOutput (max_file_size : Z) (files_ : list (list FileMetaData))
    (smallest_user_key largest_user_key : bytes) : option Z :=
  overlap ← OverlapInLevel files_ 0 (Some smallest_user_key) (Some largest_user_key);
  if overlap : bool then Some 0
  else pick_level_loop (Z.to_nat kMaxMemCompactLevel) max_file_size files_ 0 smallest_user_key largest_user_key.
End Files.

(** ** Well-formed files *)

Abbreviation ustart f := (ExtractUserKey (smallest f)).
Abbreviation ulimit f := (ExtractUserKey (largest f)).

Section Laws.
Context {C : Comparator} {L : ComparatorLaws C}.

Definition internal_key_ok (k : bytes) : Prop :=
  exists u s t, valid_key u /\ seq_ok s /\ k = ikey u (PackSequenceAndType s t).

Record file_ok (f : FileMetaData) : Prop := {
  fo_smallest : internal_key_ok (smallest f);
  fo_largest : internal_key_ok (largest f);
  fo_range : internal_compare (smallest f) (largest f) <= 0;
  fo_size : 0 <= file_size f < 2 ^ 64
}.

(** Sorted files with disjoint ranges, the precondition of the binary search. *)
Definition level_sorted (files : list FileMetaData) : Prop :=
  Forall file_ok files /\
  forall i j f g, (i < j)%nat -> files !! i = Some f -> files !! j = Some g ->
    internal_compare (largest f) (smallest g) < 0.

Lemma internal_key_ok_valid k : internal_key_ok k -> @valid_key InternalKeyComparator k.
Proof. intros (u & s & t & Hu & _ & ->). by apply valid_ikey. Qed.

Lemma internal_key_ok_user k : internal_key_ok k -> valid_key (ExtractUserKey k).
Proof. intros (u & s & t & Hu & _ & ->). by rewrite ExtractUserKey_ikey. Qed.

#[local] Hint Resolve internal_key_ok_valid internal_key_ok_user fo_smallest fo_largest : kv.

Lemma InternalKey_make_eq u s t : InternalKey_make u s t = ikey u (PackSequenceAndType s t).
Proof. unfold InternalKey_make. by rewrite AppendInternalKey_ikey. Qed.

Lemma InternalKey_make_ok u s t : valid_key u -> seq_ok s -> internal_key_ok (InternalKey_make u s t).
Proof. intros. rewrite InternalKey_make_eq. by exists u, s, t. Qed.

Lemma seq_ok_max : seq_ok kMaxSequenceNumber.
Proof. split; vm_compute; discriminate. Qed.

Lemma seq_ok_0 : seq_ok 0.
Proof. split; vm_compute; discriminate. Qed.

(** The internal order refines the order of user keys. *)
Lemma internal_le_user a b : internal_compare a b <= 0 -> Compare (ExtractUserKey a) (ExtractUserKey b) <= 0.
Proof. rewrite internal_compare_le. intros [?|[? _]]; lia. Qed.

(** A key is below the first possible key of a user key exactly when its user
    key is. *)
Lemma below_first_key k u : internal_key_ok k -> valid_key u ->
  internal_compare k (InternalKey_make u kMaxSequenceNumber kValueTypeForSeek) < 0 <-> Compare (ExtractUserKey k) u < 0.
Proof.
  intros (u' & s & t & Hu' & Hs & ->) Hu. pose proof seq_ok_max as Hmax. rewrite InternalKey_make_eq, internal_compare_lt.
  rewrite !ExtractUserKey_ikey, !ExtractTag_ikey by (by apply Pack_range). split; [|by left].
  intros [?|[_ Hlt]]; [done|]. apply Pack_lt in Hlt; [|done..]. unfold seq_ok in Hs.
  pose proof (value_type_code_range t). destruct Hlt as [?|[_ ?]]; [lia|]. simpl in *. lia.
Qed.

Lemma internal_lt_user_le a b c : @valid_key InternalKeyComparator a -> @valid_key InternalKeyComparator b ->
  @valid_key InternalKeyComparator c -> internal_compare a b < 0 -> internal_compare b c <= 0 -> internal_compare a c < 0.
Proof. apply (cmp_lt_le_trans (C := InternalKeyComparator)). Qed.

Lemma internal_le_lt a b c : @valid_key InternalKeyComparator a -> @valid_key InternalKeyComparator b ->
  @valid_key InternalKeyComparator c -> internal_compare a b <= 0 -> internal_compare b c < 0 -> internal_compare a c < 0.
Proof. apply (cmp_le_lt_trans (C := InternalKeyComparator)). Qed.

Section Sorted.
Context (files : list FileMetaData) (Hs : level_sorted files).

Lemma level_file_ok f : f ∈ files -> file_ok f.
Proof. intros Hf. destruct Hs as [Hv _]. rewrite Forall_forall in Hv. by apply Hv. Qed.

(** A search key splits a sorted level. *)
Lemma level_split key : @valid_key InternalKeyComparator key ->
  exists l1 l2, files = l1 ++ l2 /\ (forall f, f ∈ l1 -> internal_compare (largest f) key < 0) /\
    (forall f, f ∈ l2 -> ~ internal_compare (largest f) key < 0).
Proof.
  intros Hk. destruct Hs as [Hv Ho]. clear Hs. induction files as [|f fs IH].
  - exists [], []. split_and!; [done|by intros ? ?%not_elem_of_nil..].
  - apply Forall_cons in Hv as [Hf Hv]. destruct (decide (internal_compare (largest f) key < 0)) as [Hlo|Hhi].
    + destruct IH as (l1 & l2 & -> & H1 & H2); [done| |].
      { intros i j x y Hij Hi Hj. apply (Ho (S i) (S j)); [lia|done|done]. }
      exists (f :: l1), l2. split_and!; [done| |done]. intros x [->|Hx]%elem_of_cons; auto.
    + exists [], (f :: fs). split_and!; [done|by intros ? ?%not_elem_of_nil|].
      intros x [->|[j Hj]%list_elem_of_lookup]%elem_of_cons; [done|]. intros Hlt. apply Hhi.
      pose proof (Ho 0%nat (S j) f x ltac:(lia) eq_refl Hj) as Hfx. rewrite Forall_forall in Hv.
      assert (Hx : file_ok x) by (apply Hv; by eapply list_elem_of_lookup_2).
      apply (internal_lt_user_le _ (smallest x)); auto with kv.
      apply Z.lt_le_incl, (internal_le_lt _ (largest x)); auto with kv. by apply fo_range.
Qed.

(** Later files are above, in user keys too. *)
Lemma level_above i j f g : (i <= j)%nat -> files !! i = Some f -> files !! j = Some g ->
  Compare (ExtractUserKey (smallest f)) (ExtractUserKey (smallest g)) <= 0.
Proof.
  intros Hij Hi Hj. destruct (decide (i = j)) as [->|Hne].
  - rewrite Hi in Hj. injection Hj as <-. rewrite cmp_refl; [lia|].
    apply internal_key_ok_user, fo_smallest, level_file_ok. by eapply list_elem_of_lookup_2.
  - pose proof (proj2 Hs i j f g ltac:(lia) Hi Hj) as Hlt.
    assert (Hf : file_ok f) by (eapply level_file_ok, list_elem_of_lookup_2; done).
    assert (Hg : file_ok g) by (eapply level_file_ok, list_elem_of_lookup_2; done).
    apply internal_le_user, Z.lt_le_incl, (internal_le_lt _ (largest f)); auto with kv. by apply fo_range.
Qed.
End Sorted.

(** ** [FindFile] *)

Lemma find_file_loop_ok fuel : forall l1 l2 key left right,
  (forall f, f ∈ l1 -> internal_compare (largest f) key < 0) ->
  (forall f, f ∈ l2 -> ~ internal_compare (largest f) key < 0) ->
  zlen (l1 ++ l2) < 2 ^ 31 -> 0 <= left <= zlen l1 -> zlen l1 <= right <= zlen (l1 ++ l2) ->
  right - left <= Z.of_nat fuel ->
  find_file_loop fuel (l1 ++ l2) key left right = Some (zlen l1).
Proof.
  induction fuel as [|fuel IH]; intros l1 l2 key left right H1 H2 Hz Hl Hr Hf; cbn [find_file_loop].
  - rewrite (proj2 (Z.ltb_ge _ _)) by lia. f_equal. lia.
  - destruct (Z.ltb_spec left right) as [Hlt|]; [|f_equal; lia]. rewrite !(u32_small (left + right)) by lia.
    pose proof (Z.div_lt_upper_bound (left + right) 2 right ltac:(lia) ltac:(lia)).
    pose proof (Z.div_le_lower_bound (left + right) 2 left ltac:(lia) ltac:(lia)).
    set (mid := (left + right) / 2) in *.
    destruct (lookup_lt_is_Some_2 (l1 ++ l2) (Z.to_nat mid)) as [f Hfm]; [unfold zlen in *; lia|].
    rewrite Hfm. cbn [mbind option_bind]. apply lookup_app_Some in Hfm as [Hfm|[Hge Hfm]].
    + apply lookup_lt_Some in Hfm as Hlt1. apply list_elem_of_lookup_2 in Hfm. rewrite (proj2 (Z.ltb_lt _ _)) by auto.
      rewrite u32_small by (unfold zlen in *; lia). apply IH; try done; unfold zlen in *; lia.
    + apply list_elem_of_lookup_2 in Hfm. specialize (H2 f Hfm) as Hnot. rewrite (proj2 (Z.ltb_ge _ _)) by lia.
      apply IH; try done; unfold zlen in *; lia.
Qed.

Lemma FindFile_split l1 l2 key :
  (forall f, f ∈ l1 -> internal_compare (largest f) key < 0) ->
  (forall f, f ∈ l2 -> ~ internal_compare (largest f) key < 0) ->
  zlen (l1 ++ l2) < 2 ^ 31 -> FindFile (l1 ++ l2) key = Some (zlen l1).
Proof.
  intros H1 H2 Hz. pose proof (zlen_nonneg l1). pose proof (zlen_nonneg l2). pose proof (zlen_app l1 l2) as Happ.
  unfold FindFile. rewrite u32_small by lia. rewrite (find_file_loop_ok _ l1 l2); [|done|done|done|lia|lia|unfold zlen; lia].
  cbn [mbind option_bind]. f_equal. unfold i32.
  rewrite Z.mod_small by lia. lia.
Qed.

(** ** Overlap with a range of user keys *)

(** Bounds of a range; [None] is no bound. *)
Definition lo_le (a b : option bytes) : Prop :=
  match a, b with
  | None, _ => True
  | Some x, Some y => Compare x y <= 0
  | Some _, None => False
  end.

Definition hi_le (a b : option bytes) : Prop :=
  match b, a with
  | None, _ => True
  | Some y, Some x => Compare x y <= 0
  | Some _, None => False
  end.

Definition bound_ok (k : option bytes) : Prop := match k with Some k => valid_key k | None => True end.

(** The file's range of user keys meets the range. *)
Definition overlaps (lo hi : option bytes) (f : FileMetaData) : Prop :=
  lo_le lo (Some (ulimit f)) /\ hi_le (Some (ustart f)) hi.

#[export] Instance lo_le_dec a b : Decision (lo_le a b).
Proof. destruct a, b; simpl; apply _. Defined.
#[export] Instance hi_le_dec a b : Decision (hi_le a b).
Proof. destruct a, b; simpl; apply _. Defined.
#[export] Instance overlaps_dec lo hi f : Decision (overlaps lo hi f).
Proof. unfold overlaps. apply _. Defined.

Lemma lo_le_trans a b c : bound_ok a -> bound_ok b -> bound_ok c -> lo_le a b -> lo_le b c -> lo_le a c.
Proof. destruct a, b, c; simpl; try done. intros Ha Hb Hc. by apply cmp_trans. Qed.

Lemma hi_le_trans a b c : bound_ok a -> bound_ok b -> bound_ok c -> hi_le a b -> hi_le b c -> hi_le a c.
Proof. destruct a, b, c; simpl; try done. intros Ha Hb Hc. by apply cmp_trans. Qed.

Lemma lo_le_refl a : bound_ok a -> lo_le a a.
Proof. destruct a; simpl; [|done]. intros. rewrite cmp_refl by done. lia. Qed.

Lemma hi_le_refl a : bound_ok a -> hi_le a a.
Proof. destruct a; simpl; [|done]. intros. rewrite cmp_refl by done. lia. Qed.

(** The tests of the code as comparisons of bounds. *)
Lemma AfterFile_lo lo f : bound_ok lo -> file_ok f -> AfterFile lo f = negb (bool_decide (lo_le lo (Some (ulimit f)))).
Proof. destruct lo as [k|]; simpl; [|done]. intros Hk Hf. case_bool_decide; simpl; zcases; done. Qed.

Lemma BeforeFile_hi hi f : bound_ok hi -> file_ok f -> BeforeFile hi f = negb (bool_decide (hi_le (Some (ustart f)) hi)).
Proof.
  destruct hi as [k|]; simpl; [|done]. intros Hk Hf. pose proof (internal_key_ok_user _ (fo_smallest _ Hf)) as Hu.
  pose proof (cmp_sgn_opp k (ustart f) Hk Hu). case_bool_decide; simpl; zcases; try done; lia.
Qed.

Lemma before_range_lo lo f : bound_ok lo -> file_ok f -> before_range lo f = negb (bool_decide (lo_le lo (Some (ulimit f)))).
Proof.
  destruct lo as [k|]; simpl; [|done]. intros Hk Hf. pose proof (internal_key_ok_user _ (fo_largest _ Hf)) as Hu.
  pose proof (cmp_sgn_opp (ulimit f) k Hu Hk). case_bool_decide; simpl; zcases; try done; lia.
Qed.

Lemma after_range_hi hi f : after_range hi f = negb (bool_decide (hi_le (Some (ustart f)) hi)).
Proof. destruct hi as [k|]; simpl; [|done]. case_bool_decide; simpl; zcases; done. Qed.

Lemma extends_begin_lo lo f : bound_ok lo -> file_ok f -> extends_begin lo f = negb (bool_decide (lo_le lo (Some (ustart f)))).
Proof.
  destruct lo as [k|]; simpl; [|done]. intros Hk Hf. pose proof (internal_key_ok_user _ (fo_smallest _ Hf)) as Hu.
  pose proof (cmp_sgn_opp (ustart f) k Hu Hk). case_bool_decide; simpl; zcases; try done; lia.
Qed.

Lemma extends_end_hi hi f : extends_end hi f = negb (bool_decide (hi_le (Some (ulimit f)) hi)).
Proof. destruct hi as [k|]; simpl; [|done]. case_bool_decide; simpl; zcases; done. Qed.

Lemma overlaps_test lo hi f : bound_ok lo -> bound_ok hi -> file_ok f ->
  negb (AfterFile lo f || BeforeFile hi f) = bool_decide (overlaps lo hi f).
Proof.
  intros Hlo Hhi Hf. rewrite AfterFile_lo, BeforeFile_hi by done. unfold overlaps.
  rewrite negb_orb, !negb_involutive. symmetry. apply bool_decide_and.
Qed.

(** The files of a sorted level from the first one whose limit is in reach. *)
Lemma overlaps_from l1 f l2 hi : level_sorted (l1 ++ f :: l2) -> bound_ok hi ->
  (exists g, g ∈ f :: l2 /\ hi_le (Some (ustart g)) hi) -> hi_le (Some (ustart f)) hi.
Proof.
  intros Hs Hhi (g & [j Hj]%list_elem_of_lookup & Hle).
  assert (Hf : (l1 ++ f :: l2) !! length l1 = Some f) by (by rewrite lookup_app_r, Nat.sub_diag by lia).
  assert (Hg : (l1 ++ f :: l2) !! (length l1 + j)%nat = Some g) by (rewrite lookup_app_r by lia; by rewrite Nat.add_sub_swap, Nat.sub_diag by lia).
  pose proof (level_above _ Hs (length l1) (length l1 + j)%nat f g ltac:(lia) Hf Hg) as Hfg.
  assert (Hok : forall x i, (l1 ++ f :: l2) !! i = Some x -> valid_key (ustart x)).
  { intros x i Hx. eapply internal_key_ok_user, fo_smallest, level_file_ok; [done|]. by eapply list_elem_of_lookup_2. }
  apply (hi_le_trans _ (Some (ustart g))); simpl; eauto.
Qed.

Lemma SomeFileOverlapsRange_ok disjoint files lo hi :
  Forall file_ok files -> (disjoint = true -> level_sorted files) -> zlen files < 2 ^ 31 -> bound_ok lo -> bound_ok hi ->
  exists b, SomeFileOverlapsRange disjoint files lo hi = Some b /\ (b = true <-> exists f, f ∈ files /\ overlaps lo hi f).
Proof.
  intros Hok Hd Hz Hlo Hhi. rewrite Forall_forall in Hok. unfold SomeFileOverlapsRange. destruct disjoint; cbn [negb].
  2:{ eexists. split; [done|]. rewrite existsb_exists. split; intros (f & Hf & Ho).
      - apply list_elem_of_In in Hf. rewrite overlaps_test in Ho by auto. apply bool_decide_eq_true in Ho. by exists f.
      - exists f. split; [by apply list_elem_of_In|]. rewrite overlaps_test by auto. by apply bool_decide_eq_true. }
  specialize (Hd eq_refl).
  assert (Hsplit : exists l1 l2, files = l1 ++ l2 /\ (forall f, f ∈ l1 -> ~ lo_le lo (Some (ulimit f))) /\
    (forall f, f ∈ l2 -> lo_le lo (Some (ulimit f))) /\
    match lo with None => Some 0 | Some k => i ← FindFile files (InternalKey_make k kMaxSequenceNumber kValueTypeForSeek); Some (u32 i) end
      = Some (zlen l1)).
  { destruct lo as [k|]; [|by exists [], files; split_and!; [done|by intros ? ?%not_elem_of_nil|..]]. simpl in Hlo.
    destruct (level_split files Hd (InternalKey_make k kMaxSequenceNumber kValueTypeForSeek)) as (l1 & l2 & -> & H1 & H2).
    { apply internal_key_ok_valid, InternalKey_make_ok; [done|apply seq_ok_max]. }
    exists l1, l2. rewrite FindFile_split by done. cbn [mbind option_bind]. pose proof (zlen_nonneg l1). pose proof (zlen_nonneg l2).
    rewrite zlen_app in Hz. rewrite u32_small by lia.
    assert (Hkey : forall f, f ∈ l1 ++ l2 -> lo_le (Some k) (Some (ulimit f)) <-> ~ internal_compare (largest f) (InternalKey_make k kMaxSequenceNumber kValueTypeForSeek) < 0).
    { intros f Hf. specialize (Hok f Hf). rewrite below_first_key by (done || by apply fo_largest). simpl.
      pose proof (cmp_sgn_opp (ulimit f) k (internal_key_ok_user _ (fo_largest _ Hok)) Hlo). lia. }
    split_and!; [done| | |done]; intros f Hf; rewrite Hkey by (apply elem_of_app; auto); [|by apply H2]. intros Hn. by apply Hn, H1. }
  destruct Hsplit as (l1 & l2 & -> & H1 & H2 & ->). cbn [mbind option_bind]. rewrite zlen_app. destruct l2 as [|f l2].
  - rewrite (proj2 (Z.leb_le _ _)) by (unfold zlen; simpl; lia). exists false. split; [done|]. split; [done|].
    intros (f & Hf & Ho & _). rewrite app_nil_r in Hf. by destruct (H1 f Hf).
  - rewrite (proj2 (Z.leb_gt _ _)) by (unfold zlen; simpl; lia). unfold zlen. rewrite Nat2Z.id, lookup_app_r, Nat.sub_diag by lia. simpl.
    assert (Hf : f ∈ l1 ++ f :: l2) by (apply elem_of_app; right; by left).
    eexists. split; [done|]. rewrite BeforeFile_hi, negb_involutive, bool_decide_eq_true by auto. split.
    + intros Ho. exists f. split; [done|]. split; [by apply H2; left|done].
    + intros (g & Hg & Hlo' & Hhi'). apply (overlaps_from l1 f l2); [done..|]. exists g. split; [|done].
      apply elem_of_app in Hg as [Hg|Hg]; [by destruct (H1 g Hg)|done].
Qed.

(** ** [GetOverlappingInputs] *)

(** A range that contains every file it overlaps. *)
Definition closed_range (files : list FileMetaData) (lo hi : option bytes) : Prop :=
  forall f, f ∈ files -> overlaps lo hi f -> lo_le lo (Some (ustart f)) /\ hi_le (Some (ulimit f)) hi.

Definition within (lo hi lo' hi' : option bytes) : Prop := lo_le lo' lo /\ hi_le hi hi'.

Section Inputs.
Context (files : list FileMetaData) (Hok : Forall file_ok files).

Lemma input_file_ok f : f ∈ files -> file_ok f.
Proof. rewrite Forall_forall in Hok. apply Hok. Qed.

Lemma input_start_ok f : f ∈ files -> valid_key (ustart f).
Proof. intros Hf. apply internal_key_ok_user, fo_smallest. by apply input_file_ok. Qed.

Lemma input_limit_ok f : f ∈ files -> valid_key (ulimit f).
Proof. intros Hf. apply internal_key_ok_user, fo_largest. by apply input_file_ok. Qed.

#[local] Hint Resolve input_file_ok input_start_ok input_limit_ok : kv.

Lemma overlaps_within lo hi lo' hi' f : f ∈ files -> bound_ok lo -> bound_ok hi -> bound_ok lo' -> bound_ok hi' ->
  within lo hi lo' hi' -> overlaps lo hi f -> overlaps lo' hi' f.
Proof.
  intros Hf Hlo Hhi Hlo' Hhi' [Hl Hh] [H1 H2]. split.
  - apply (lo_le_trans _ lo); simpl; auto with kv.
  - apply (hi_le_trans _ hi); simpl; auto with kv.
Qed.

(** What is left to extend: the measure of the restarts. *)
Definition extensions (lo hi : option bytes) : nat :=
  (length (base.filter (fun f => extends_begin lo f = true) files) +
   length (base.filter (fun f => extends_end hi f = true) files))%nat.

Lemma extensions_le lo hi : (extensions lo hi <= 2 * length files)%nat.
Proof.
  unfold extensions. pose proof (length_filter (fun f => extends_begin lo f = true) files).
  pose proof (length_filter (fun f => extends_end hi f = true) files). lia.
Qed.

Lemma fewer (P Q : FileMetaData -> Prop) `{!forall x, Decision (P x), !forall x, Decision (Q x)} y :
  (forall x, x ∈ files -> Q x -> P x) -> y ∈ files -> P y -> ~ Q y ->
  (length (base.filter Q files) < length (base.filter P files))%nat.
Proof.
  intros HQP Hy HP HQ. assert (Hle : forall l, (forall x, x ∈ l -> x ∈ files) -> (length (base.filter Q l) <= length (base.filter P l))%nat).
  { intros l. induction l as [|x l IH]; intros Hin; [done|]. specialize (IH ltac:(intros; apply Hin; by right)).
    destruct (decide (Q x)) as [HQx|HQx].
    - rewrite !filter_cons_True; [simpl; lia| |done]. apply HQP; [apply Hin; by left|done].
    - rewrite filter_cons_False by done. rewrite filter_cons. case_decide; simpl; lia. }
  apply list_elem_of_split in Hy as (l1 & l2 & E). rewrite E in *. rewrite !filter_app, !length_app.
  rewrite (filter_cons_True P) by done. rewrite (filter_cons_False Q) by done. cbn [length].
  pose proof (Hle l1 ltac:(intros; apply elem_of_app; by left)). pose proof (Hle l2 ltac:(intros; apply elem_of_app; right; by right)). lia.
Qed.

Lemma extend_begin_fewer lo hi f : bound_ok lo -> f ∈ files -> extends_begin lo f = true ->
  (extensions (Some (ustart f)) hi < extensions lo hi)%nat.
Proof.
  intros Hlo Hf He. unfold extensions. apply Nat.add_lt_mono_r. apply (fewer _ _ f); [|done|done|].
  - intros x Hx. rewrite !extends_begin_lo in * by (simpl; auto with kv). rewrite !negb_true_iff, !bool_decide_eq_false in *.
    intros Hn Hle. apply Hn. destruct lo as [b|]; [|done]. simpl in *.
    pose proof (cmp_sgn_opp (ustart f) b ltac:(auto with kv) Hlo). apply Z.lt_le_incl, (cmp_lt_le_trans _ b); auto with kv. lia.
  - rewrite extends_begin_lo by (simpl; auto with kv). rewrite bool_decide_true; [done|]. apply lo_le_refl. simpl. auto with kv.
Qed.

Lemma extend_end_fewer lo hi f : bound_ok hi -> f ∈ files -> extends_end hi f = true ->
  (extensions lo (Some (ulimit f)) < extensions lo hi)%nat.
Proof.
  intros Hhi Hf He. unfold extensions. apply Nat.add_lt_mono_l. apply (fewer _ _ f); [|done|done|].
  - intros x Hx. rewrite !extends_end_hi in *. rewrite !negb_true_iff, !bool_decide_eq_false in *.
    intros Hn Hle. apply Hn. destruct hi as [e|]; [|done]. simpl in *.
    apply (cmp_trans _ e); auto with kv. pose proof (cmp_sgn_opp e (ulimit f) Hhi ltac:(auto with kv)). lia.
  - rewrite extends_end_hi, bool_decide_true; [done|]. apply hi_le_refl. simpl. auto with kv.
Qed.

(** The loop on a level above 0. *)
Lemma inputs_loop_above level fuel : level <> 0 -> forall i lo hi acc, bound_ok lo -> bound_ok hi -> (length files - i <= fuel)%nat ->
  inputs_loop fuel level files i lo hi acc = Some (acc ++ base.filter (overlaps lo hi) (drop i files)).
Proof.
  intros Hlev. induction fuel as [|fuel IH]; intros i lo hi acc Hlo Hhi Hf; cbn [inputs_loop].
  - rewrite (proj2 (lookup_ge_None files i)) by lia. by rewrite drop_ge, app_nil_r by lia.
  - destruct (files !! i) as [f|] eqn:Hi; [|apply lookup_ge_None in Hi; by rewrite drop_ge, app_nil_r by lia].
    apply lookup_lt_Some in Hi as Hlt. pose proof (list_elem_of_lookup_2 _ _ _ Hi) as Hin.
    rewrite before_range_lo, after_range_hi, (proj2 (Z.eqb_neq _ _) Hlev) by auto with kv. rewrite !IH by (done || lia).
    rewrite (drop_S _ _ _ Hi). destruct (decide (overlaps lo hi f)) as [Ho|Ho].
    + rewrite filter_cons_True, !bool_decide_true by (done || apply Ho). simpl. by rewrite <- app_assoc.
    + rewrite filter_cons_False by done. case_bool_decide as H1; [|done]. case_bool_decide as H2; [|done]. by destruct Ho.
Qed.

(** The loop on level 0: the files of the least closed range around the
    bounds. *)
Lemma inputs_loop_0 fuel : forall i lo hi, bound_ok lo -> bound_ok hi ->
  (i <= length files)%nat ->
  (extensions lo hi * (length files + 1) + (length files - i) <= fuel)%nat ->
  (forall f, f ∈ take i files -> overlaps lo hi f -> extends_begin lo f = false /\ extends_end hi f = false) ->
  exists lo' hi', inputs_loop fuel 0 files i lo hi (base.filter (overlaps lo hi) (take i files)) = Some (base.filter (overlaps lo' hi') files) /\
    bound_ok lo' /\ bound_ok hi' /\ within lo hi lo' hi' /\ closed_range files lo' hi' /\
    forall lo'' hi'', bound_ok lo'' -> bound_ok hi'' -> within lo hi lo'' hi'' -> closed_range files lo'' hi'' -> within lo' hi' lo'' hi''.
Proof.
  assert (Hend : forall lo hi, bound_ok lo -> bound_ok hi ->
    (forall f, f ∈ files -> overlaps lo hi f -> extends_begin lo f = false /\ extends_end hi f = false) -> closed_range files lo hi).
  { intros lo hi Hlo Hhi Hc f Hf Ho. destruct (Hc f Hf Ho) as [H1 H2]. rewrite extends_begin_lo in H1 by auto with kv. rewrite extends_end_hi in H2.
    rewrite !negb_false_iff, !bool_decide_eq_true in *. done. }
  assert (Hrefl : forall lo hi, bound_ok lo -> bound_ok hi -> within lo hi lo hi) by (split; [by apply lo_le_refl|by apply hi_le_refl]).
  induction fuel as [|fuel IH]; intros i lo hi Hlo Hhi Hi Hf Hc; cbn [inputs_loop];
    (destruct (files !! i) as [f|] eqn:Hfi; [apply lookup_lt_Some in Hfi as Hlt|apply lookup_ge_None in Hfi;
      rewrite take_ge in * by lia; exists lo, hi; split_and!; auto]); [lia|].
  pose proof (list_elem_of_lookup_2 _ _ _ Hfi) as Hin.
  assert (Hskip : ~ overlaps lo hi f -> base.filter (overlaps lo hi) (take i files) = base.filter (overlaps lo hi) (take (S i) files)).
  { intros Hn. rewrite (take_S_r _ _ _ Hfi), filter_app, filter_cons_False, filter_nil, app_nil_r by done. done. }
  assert (Hnext : (overlaps lo hi f -> extends_begin lo f = false /\ extends_end hi f = false) ->
    forall g, g ∈ take (S i) files -> overlaps lo hi g -> extends_begin lo g = false /\ extends_end hi g = false).
  { intros He g. rewrite (take_S_r _ _ _ Hfi), elem_of_app, list_elem_of_singleton. intros [Hg|E]; [by auto|subst g; by auto]. }
  rewrite before_range_lo, after_range_hi by auto with kv. cbn [Z.eqb].
  case_bool_decide as H1; simpl; [|rewrite Hskip by (by intros [? _]); apply IH; [done..|lia|lia|]; apply Hnext; by intros [? _]].
  case_bool_decide as H2; simpl; [|rewrite Hskip by (by intros [_ ?]); apply IH; [done..|lia|lia|]; apply Hnext; by intros [_ ?]].
  destruct (extends_begin lo f) eqn:E1; [|destruct (extends_end hi f) eqn:E2].
  - pose proof (extend_begin_fewer lo hi f Hlo Hin E1) as Hm. pose proof (input_start_ok f Hin) as Hu.
    assert (Hw : lo_le (Some (ustart f)) lo).
    { destruct lo as [b|]; [|done]. rewrite extends_begin_lo in E1 by auto with kv. rewrite negb_true_iff, bool_decide_eq_false in E1. simpl in *.
      pose proof (cmp_sgn_opp (ustart f) b Hu Hlo). lia. }
    destruct (IH 0%nat (Some (ustart f)) hi) as (lo' & hi' & Hr & Hlo' & Hhi' & [Hw1 Hw2] & Hcl & Hleast); [done|done|lia|nia|by intros ? ?%not_elem_of_nil|].
    exists lo', hi'. split_and!; [exact Hr|done|done| |done|].
    + split; [|done]. apply (lo_le_trans _ (Some (ustart f))); done.
    + intros lo'' hi'' Hl'' Hh'' [Hw1'' Hw2''] Hcl''. apply Hleast; [done..| |done]. split; [|done].
      apply Hcl''; [done|]. apply (overlaps_within lo hi); done.
  - pose proof (extend_end_fewer lo hi f Hhi Hin E2) as Hm. pose proof (input_limit_ok f Hin) as Hu.
    assert (Hw : hi_le hi (Some (ulimit f))).
    { destruct hi as [b|]; [|done]. rewrite extends_end_hi in E2. rewrite negb_true_iff, bool_decide_eq_false in E2. simpl in *.
      pose proof (cmp_sgn_opp b (ulimit f) Hhi Hu). lia. }
    destruct (IH 0%nat lo (Some (ulimit f))) as (lo' & hi' & Hr & Hlo' & Hhi' & [Hw1 Hw2] & Hcl & Hleast); [done|done|lia|nia|by intros ? ?%not_elem_of_nil|].
    exists lo', hi'. split_and!; [exact Hr|done|done| |done|].
    + split; [done|]. apply (hi_le_trans _ (Some (ulimit f))); done.
    + intros lo'' hi'' Hl'' Hh'' [Hw1'' Hw2''] Hcl''. apply Hleast; [done..| |done]. split; [done|].
      apply Hcl''; [done|]. apply (overlaps_within lo hi); done.
  - rewrite <- (filter_cons_True (overlaps lo hi) f []) by done.
    replace (base.filter (overlaps lo hi) (take i files) ++ base.filter (overlaps lo hi) [f]) with (base.filter (overlaps lo hi) (take (S i) files))
      by (rewrite (take_S_r _ _ _ Hfi); apply filter_app).
    apply IH; [done..|lia|lia|]. by apply Hnext.
Qed.
End Inputs.

(** ** Facts for the callers *)

Lemma GetOverlappingInputs_0 files_ files begin end_ :
  files_ !! 0%nat = Some files -> Forall file_ok files ->
  bound_ok (ExtractUserKey <$> begin) -> bound_ok (ExtractUserKey <$> end_) ->
  exists lo hi, GetOverlappingInputs 0 files_ begin end_ = Some (base.filter (overlaps lo hi) files) /\
    bound_ok lo /\ bound_ok hi /\ within (ExtractUserKey <$> begin) (ExtractUserKey <$> end_) lo hi /\
    closed_range files lo hi /\
    forall lo' hi', bound_ok lo' -> bound_ok hi' -> within (ExtractUserKey <$> begin) (ExtractUserKey <$> end_) lo' hi' ->
      closed_range files lo' hi' -> within lo hi lo' hi'.
Proof.
  intros Hl Hok Hb He. unfold GetOverlappingInputs. change ((0 <=? 0) && (0 <? kNumLevels)) with true. cbn iota. change (Z.to_nat 0) with 0%nat.
  rewrite Hl. cbn [mbind option_bind].
  apply (inputs_loop_0 files Hok (inputs_fuel files) 0); [done|done|lia| |by intros ? ?%not_elem_of_nil].
  pose proof (extensions_le files (ExtractUserKey <$> begin) (ExtractUserKey <$> end_)). unfold inputs_fuel. nia.
Qed.

Lemma GetOverlappingInputs_above level files_ files begin end_ :
  0 < level < kNumLevels -> files_ !! Z.to_nat level = Some files -> Forall file_ok files ->
  bound_ok (ExtractUserKey <$> begin) -> bound_ok (ExtractUserKey <$> end_) ->
  GetOverlappingInputs level files_ begin end_
    = Some (base.filter (overlaps (ExtractUserKey <$> begin) (ExtractUserKey <$> end_)) files).
Proof.
  intros Hlev Hl Hok Hb He. unfold GetOverlappingInputs. rewrite (proj2 (Z.leb_le _ _)), (proj2 (Z.ltb_lt _ _)) by lia.
  cbn [andb]. rewrite Hl. cbn [mbind option_bind].
  rewrite (inputs_loop_above files Hok); [by rewrite drop_0|lia|done|done|unfold inputs_fuel; nia].
Qed.

(** The files of a version: eight levels, sorted above level 0. *)
Record version_files_ok (files_ : list (list FileMetaData)) : Prop := {
  vf_levels : length files_ = Z.to_nat kNumLevels;
  vf_files : forall l files, files_ !! l = Some files -> Forall file_ok files /\ zlen files < 2 ^ 31;
  vf_sorted : forall l files, (0 < l)%nat -> files_ !! l = Some files -> level_sorted files
}.

Definition no_overlap (files_ : list (list FileMetaData)) (l : nat) (small large : bytes) : Prop :=
  forall files f, files_ !! l = Some files -> f ∈ files -> ~ overlaps (Some small) (Some large) f.

Section Pick.
Context (max_file_size : Z) (files_ : list (list FileMetaData)) (Hfiles : version_files_ok files_).
Context (small large : bytes) (Hsmall : valid_key small) (Hlarge : valid_key large).
Context (Hsize : 0 <= max_file_size < 2 ^ 31 / 10).

Lemma level_exists l : (l < Z.to_nat kNumLevels)%nat -> exists files, files_ !! l = Some files.
Proof. intros Hl. apply lookup_lt_is_Some_2. by rewrite (vf_levels _ Hfiles). Qed.

Lemma OverlapInLevel_ok level : 0 <= level < kNumLevels ->
  exists b, OverlapInLevel files_ level (Some small) (Some large) = Some b /\
    (b = false -> no_overlap files_ (Z.to_nat level) small large).
Proof.
  intros Hlev. destruct (level_exists (Z.to_nat level)) as [files Hl]; [lia|]. destruct (vf_files _ Hfiles _ _ Hl) as [Hok Hz].
  destruct (SomeFileOverlapsRange_ok (0 <? level) files (Some small) (Some large)) as (b & Hb & Hiff); [done| |done..|].
  - intros Hpos%Z.ltb_lt. apply (vf_sorted _ Hfiles (Z.to_nat level)); [lia|done].
  - unfold OverlapInLevel. rewrite Hl. exists b. split; [exact Hb|]. intros -> files' f Hl' Hf Ho.
    rewrite Hl in Hl'. injection Hl' as <-. assert (false = true); [|done]. apply Hiff. by exists f.
Qed.

Lemma too_many_total level : 0 <= level < kMaxMemCompactLevel ->
  exists b, too_many_grandparents max_file_size files_ level (InternalKey_make small kMaxSequenceNumber kValueTypeForSeek)
    (InternalKey_make large 0 kTypeDeletion) = Some b.
Proof.
  intros Hlev. unfold too_many_grandparents. unfold kMaxMemCompactLevel, kNumLevels in *. rewrite (proj2 (Z.ltb_lt _ _)) by lia.
  destruct (level_exists (Z.to_nat (level + 2))) as [files Hl]; [unfold kNumLevels; lia|]. destruct (vf_files _ Hfiles _ _ Hl) as [Hok _].
  rewrite (GetOverlappingInputs_above _ _ files); [|unfold kNumLevels; lia|done|done| |];
    [|simpl; by rewrite InternalKey_make_eq, ExtractUserKey_ikey..].
  cbn [mbind option_bind]. unfold MaxGrandParentOverlapBytes, int_mul, TargetFileSize, i32.
  change (2 ^ 31 / 10) with 214748364 in Hsize. change (2 ^ 31) with 2147483648. change (2 ^ 32) with 4294967296.
  rewrite Z.mod_small by lia. rewrite (proj2 (Z.leb_le _ _)), (proj2 (Z.ltb_lt _ _)) by lia. by eexists.
Qed.

Lemma pick_level_ok fuel : forall level, 0 <= level <= kMaxMemCompactLevel -> kMaxMemCompactLevel - level <= Z.of_nat fuel ->
  (forall l, (l <= Z.to_nat level)%nat -> no_overlap files_ l small large) ->
  exists r, pick_level_loop fuel max_file_size files_ level small large = Some r /\ 0 <= r <= kMaxMemCompactLevel /\
    forall l, (l <= Z.to_nat r)%nat -> no_overlap files_ l small large.
Proof.
  induction fuel as [|fuel IH]; intros level Hlev Hf Hno; cbn [pick_level_loop].
  - rewrite (proj2 (Z.ltb_ge _ _)) by lia. by exists level.
  - destruct (Z.ltb_spec level kMaxMemCompactLevel) as [Hlt|]; [|by exists level].
    destruct (OverlapInLevel_ok (level + 1)) as ([|] & -> & Hb); [unfold kNumLevels, kMaxMemCompactLevel in *; lia| |]; cbn [mbind option_bind]; [by exists level|].
    destruct (too_many_total level ltac:(lia)) as [[|] ->]; cbn [mbind option_bind]; [by exists level|].
    apply IH; [lia|lia|]. intros l Hl. destruct (decide (l = Z.to_nat (level + 1))) as [->|]; [by apply Hb|]. apply Hno. lia.
Qed.

Lemma PickLevel_ok : exists r, PickLevelForMemTableOutput max_file_size files_ small large = Some r /\
  0 <= r <= kMaxMemCompactLevel /\ (0 < r -> forall l, (l <= Z.to_nat r)%nat -> no_overlap files_ l small large).
Proof.
  unfold PickLevelForMemTableOutput. destruct (OverlapInLevel_ok 0) as ([|] & -> & Hb); [vm_compute; split; [discriminate|reflexivity]| |]; cbn [mbind option_bind].
  - exists 0. split; [done|]. split; [unfold kMaxMemCompactLevel; lia|lia].
  - destruct (pick_level_ok (Z.to_nat kMaxMemCompactLevel) 0) as (r & Hr & Hle & Hno); [unfold kMaxMemCompactLevel; lia|unfold kMaxMemCompactLevel; lia| |by exists r].
    intros l Hl. assert (l = 0%nat) as -> by lia. by apply Hb.
Qed.
End Pick.

(** A file that overlaps no file of a sorted level has its place there. *)
Lemma level_insert files f : level_sorted files -> file_ok f ->
  (forall g, g ∈ files -> ~ overlaps (Some (ustart f)) (Some (ulimit f)) g) ->
  exists l1 l2, files = l1 ++ l2 /\ level_sorted (l1 ++ f :: l2).
Proof.
  intros Hs Hf Hno. pose proof (internal_key_ok_user _ (fo_smallest _ Hf)) as Hu. pose proof (internal_key_ok_user _ (fo_largest _ Hf)) as Hv.
  destruct (level_split files Hs (InternalKey_make (ustart f) kMaxSequenceNumber kValueTypeForSeek)) as (l1 & l2 & -> & H1 & H2).
  { apply internal_key_ok_valid, InternalKey_make_ok; [done|apply seq_ok_max]. }
  pose proof Hs as [Hall Hord]. rewrite Forall_forall in Hall.
  assert (Hlow : forall g, g ∈ l1 -> internal_compare (largest g) (smallest f) < 0).
  { intros g Hg. assert (Hgo : file_ok g) by (apply Hall, elem_of_app; by left). specialize (H1 g Hg).
    rewrite below_first_key in H1 by (done || by apply fo_largest). rewrite internal_compare_lt. by left. }
  assert (Hhigh : forall g, g ∈ l2 -> internal_compare (largest f) (smallest g) < 0).
  { intros g Hg. assert (Hgo : file_ok g) by (apply Hall, elem_of_app; by right). specialize (H2 g Hg).
    rewrite below_first_key in H2 by (done || by apply fo_largest). specialize (Hno g ltac:(apply elem_of_app; by right)).
    pose proof (internal_key_ok_user _ (fo_largest _ Hgo)) as Hgl. pose proof (internal_key_ok_user _ (fo_smallest _ Hgo)) as Hgs.
    pose proof (cmp_sgn_opp (ulimit g) (ustart f) Hgl Hu). pose proof (cmp_sgn_opp (ulimit f) (ustart g) Hv Hgs).
    rewrite internal_compare_lt. left. unfold overlaps in Hno. simpl in Hno. lia. }
  exists l1, l2. split; [done|]. split.
  - apply Forall_app. split; [|constructor]; [|done|]; apply Forall_forall; intros g Hg; apply Hall, elem_of_app; auto.
  - intros i j g h Hij Hi Hj. apply lookup_app_Some in Hi as [Hi|[Hi1 Hi]].
    + apply lookup_app_Some in Hj as [Hj|[Hj1 Hj]]; [apply (Hord i j); [done|by apply lookup_app_l_Some..]|].
      apply list_elem_of_lookup_2 in Hi as Hgi. destruct (j - length l1)%nat as [|j'] eqn:Ej; simpl in Hj; [injection Hj as <-; by apply Hlow|].
      apply (Hord i (length l1 + j')%nat); [apply lookup_lt_Some in Hi; lia|by apply lookup_app_l_Some|].
      rewrite lookup_app_r by lia. by rewrite Nat.add_sub_swap, Nat.sub_diag by lia.
    + rewrite lookup_app_r in Hj by lia. destruct (j - length l1)%nat as [|j'] eqn:Ej; [lia|]. simpl in Hj. destruct (i - length l1)%nat as [|i'] eqn:Ei.
      * injection Hi as <-. apply Hhigh. by eapply list_elem_of_lookup_2.
      * simpl in Hi. apply (Hord (length l1 + i') (length l1 + j'))%nat; [lia|..];
          rewrite lookup_app_r by lia; by rewrite Nat.add_sub_swap, Nat.sub_diag by lia.
Qed.
End Laws.

(** ** Properties *)

(** C6. [GetOverlappingInputs] ends on any version and returns exactly the
    files that overlap a range: above level 0 the range of user keys asked for;
    on level 0 the least range around it that contains every file it overlaps,
    so that no level-0 file left out overlaps one taken. *)
Theorem overlapping_inputs_least {C : Comparator} {L : ComparatorLaws C} files_ level files begin end_ :
  0 <= level < kNumLevels -> files_ !! Z.to_nat level = Some files -> Forall file_ok files ->
  bound_ok (ExtractUserKey <$> begin) -> bound_ok (ExtractUserKey <$> end_) ->
  exists lo hi, GetOverlappingInputs level files_ begin end_ = Some (base.filter (overlaps lo hi) files) /\
    within (ExtractUserKey <$> begin) (ExtractUserKey <$> end_) lo hi /\
    (level <> 0 -> lo = ExtractUserKey <$> begin /\ hi = ExtractUserKey <$> end_) /\
    (level = 0 -> closed_range files lo hi /\
       forall lo' hi', bound_ok lo' -> bound_ok hi' -> within (ExtractUserKey <$> begin) (ExtractUserKey <$> end_) lo' hi' ->
         closed_range files lo' hi' -> within lo hi lo' hi').
Proof.
  intros Hlev Hl Hok Hb He. destruct (decide (level = 0)) as [->|Hne].
  - destruct (GetOverlappingInputs_0 files_ files begin end_ Hl Hok Hb He) as (lo & hi & Hr & _ & _ & Hw & Hcl & Hleast).
    exists lo, hi. split_and!; done.
  - exists (ExtractUserKey <$> begin), (ExtractUserKey <$> end_). split_and!; [|split; [by apply lo_le_refl|by apply hi_le_refl]|done|done].
    apply GetOverlappingInputs_above; try done. lia.
Qed.

(** The binary search of [SomeFileOverlapsRange] is equivalent to its
    linear scan: on a sorted level of disjoint files both answer whether some
    file's range of user keys meets the range asked for, open or closed. *)
Theorem overlap_search_is_scan {C : Comparator} {L : ComparatorLaws C} files small large :
  level_sorted files -> zlen files < 2 ^ 31 -> bound_ok small -> bound_ok large ->
  exists b, SomeFileOverlapsRange true files small large = Some b /\ SomeFileOverlapsRange false files small large = Some b /\
    (b = true <-> exists f, f ∈ files /\ overlaps small large f).
Proof.
  intros Hs Hz Hsm Hla. destruct (SomeFileOverlapsRange_ok true files small large (proj1 Hs) (fun _ => Hs) Hz Hsm Hla) as (b & Hb & Hi).
  destruct (SomeFileOverlapsRange_ok false files small large (proj1 Hs) ltac:(done) Hz Hsm Hla) as (b' & Hb' & Hi').
  exists b. split_and!; [done| |done]. rewrite Hb'. f_equal. destruct b, b'; try done; [by apply Hi', Hi|symmetry; by apply Hi, Hi'].
Qed.


(** Overflow of the compaction limits: for the file sizes that
    [SanitizeOptions] lets through (1 MB to 1 GB), the byte limit on an expanded
    compaction is computed without overflow of [int] exactly below 85 899 346
    bytes, that on grandparents exactly below 214 748 365 bytes. *)
Theorem compaction_limits_overflow max_file_size :
  2 ^ 20 <= max_file_size <= 2 ^ 30 ->
  (ExpandedCompactionByteSizeLimit max_file_size = if max_file_size <? 85899346 then Some (25 * max_file_size) else None) /\
  (MaxGrandParentOverlapBytes max_file_size = if max_file_size <? 214748365 then Some (10 * max_file_size) else None).
Proof.
  intros Hm. unfold ExpandedCompactionByteSizeLimit, MaxGrandParentOverlapBytes, int_mul, TargetFileSize, i32.
  change (2 ^ 20) with 1048576 in Hm. change (2 ^ 30) with 1073741824 in Hm. change (2 ^ 31) with 2147483648. change (2 ^ 32) with 4294967296.
  rewrite Z.mod_small, Z.add_simpl_r by lia. split; zcases; done.
Qed.

Section Example.
#[local] Existing Instances BytewiseComparator BytewiseLaws.

Definition example_file (number : Z) (a b : bytes) : FileMetaData :=
  FileMetaData_new number 100 (InternalKey_make a 9 kTypeValue) (InternalKey_make b 5 kTypeValue).

(** Three overlapping files on level 0, two files on level 1. *)
Definition example_levels : list (list FileMetaData) :=
  [[example_file 7 [97] [100]; example_file 8 [99] [103]; example_file 9 [112] [115]];
   [example_file 3 [98] [99]; example_file 4 [100] [102]]; []; []; []; []; []; []].

Lemma example_file_ok n a b : bytes_ok a -> bytes_ok b -> lex a b < 0 -> file_ok (example_file n a b).
Proof.
  intros Ha Hb Hlt. assert (H9 : seq_ok 9) by (split; vm_compute; discriminate). assert (H5 : seq_ok 5) by (split; vm_compute; discriminate).
  split; cbn [example_file FileMetaData_new smallest largest file_size]; try (by apply InternalKey_make_ok); [|lia].
  rewrite !InternalKey_make_eq, internal_compare_le, !ExtractUserKey_ikey. left. simpl. unfold Bytewise.compare. by rewrite Slice_compare_lex.
Qed.

#[local] Ltac bytes_tac := repeat constructor; lia.

Lemma overlapping_inputs_least_witness :
  exists lo hi, GetOverlappingInputs 0 example_levels (Some (InternalKey_make [102] 9 kTypeValue)) (Some (InternalKey_make [102] 2 kTypeValue))
      = Some (base.filter (overlaps lo hi) (take 3 (example_levels !!! 0%nat))) /\
    closed_range (example_levels !!! 0%nat) lo hi.
Proof.
  destruct (overlapping_inputs_least example_levels 0 (example_levels !!! 0%nat)
    (Some (InternalKey_make [102] 9 kTypeValue)) (Some (InternalKey_make [102] 2 kTypeValue))) as (lo & hi & Hr & _ & _ & H0).
  - vm_compute. split; [discriminate|reflexivity].
  - reflexivity.
  - simpl. repeat constructor; apply example_file_ok; (bytes_tac || reflexivity).
  - cbn [fmap option_fmap option_map bound_ok]. rewrite InternalKey_make_eq, ExtractUserKey_ikey. bytes_tac.
  - cbn [fmap option_fmap option_map bound_ok]. rewrite InternalKey_make_eq, ExtractUserKey_ikey. bytes_tac.
  - exists lo, hi. split; [exact Hr|]. exact (proj1 (H0 eq_refl)).
Defined.

Lemma example_inputs :
  map number <$> GetOverlappingInputs 0 example_levels (Some (InternalKey_make [102] 9 kTypeValue)) (Some (InternalKey_make [102] 2 kTypeValue))
    = Some [7; 8].
Proof. vm_compute. reflexivity. Qed.

Lemma example_level_1 : level_sorted (example_levels !!! 1%nat).
Proof.
  split; [simpl; repeat constructor; apply example_file_ok; (bytes_tac || reflexivity)|].
  intros [|[|i]] [|[|j]] f g Hij Hi Hj; try lia; try done. injection Hi as <-. injection Hj as <-. vm_compute. reflexivity.
Qed.

Lemma overlap_search_is_scan_witness :
  exists b, SomeFileOverlapsRange true (example_levels !!! 1%nat) (Some [103]) None = Some b /\
    SomeFileOverlapsRange false (example_levels !!! 1%nat) (Some [103]) None = Some b.
Proof.
  destruct (overlap_search_is_scan (example_levels !!! 1%nat) (Some [103]) None) as (b & Hb & Hb' & _);
    [apply example_level_1|vm_compute; reflexivity|bytes_tac|done|]. exists b. by split.
Defined.

Lemma example_levels_ok : version_files_ok example_levels.
Proof.
  split; [reflexivity|..].
  - intros l files Hl. do 8 (destruct l as [|l]; [injection Hl as <-; split; [|vm_compute; reflexivity];
      repeat constructor; apply example_file_ok; (bytes_tac || reflexivity)|]). done.
  - intros [|l] files Hpos Hl; [lia|]. destruct l as [|l]; [injection Hl as <-; apply example_level_1|].
    do 6 (destruct l as [|l]; [injection Hl as <-; split; [done|by intros [|] [|]]|]). done.
Qed.


Lemma compaction_limits_overflow_witness : ExpandedCompactionByteSizeLimit (100 * 2 ^ 20) = None.
Proof. rewrite (proj1 (compaction_limits_overflow (100 * 2 ^ 20) ltac:(vm_compute; split; discriminate))). reflexivity. Defined.
End Example.
