(* ===== verification/VersionGet.v ===== *)
(** * VersionGet: point lookups in a version

    src/LSM-EBF/db/version_set.cc: [Version::Get] with its callback [SaveValue],
    [ForEachOverlapping], and the seek statistics [UpdateStats] and
    [RecordReadSample].  A version refers to its [FileMetaData] objects by
    address in a heap that all versions share; lookups count accesses there.
    The table cache is an interface, [TableCache], with what [Get] relies on in
    [TableCacheLaws].  The build defines MULTI_THREAD_MODE, so the latency
    statistics inside [Get] are not compiled. *)
From stdpp Require Import gmap sorting.
From Stdlib Require Import SpecFloat.
From S2P Require Import Prelude Coding Crc32c Status Bloom Comparator DbFormat Block Iterators VersionEdit Version.
From S2P Require Import FilterBlock TableFilters TableBuilder Table TableLookup.

(** ** Data *)

Record Version := MkVersion {
  refs_ : Z;
  files_ : list (list Z);
  file_to_compact_ : option Z;
  file_to_compact_level_ : Z;
  compaction_score_ : spec_float;
  compaction_level_ : Z
}.

(** -1.0 *)
Definition minus_one : spec_float := SFopp (SFone 53 1024).

Definition Version_new : Version :=
  MkVersion 0 (replicate (Z.to_nat kNumLevels) []) None (-1) minus_one (-1).

Definition load (h : file_heap) (ptrs : list Z) : option (list FileMetaData) := mapM (fun p => h !! p) ptrs.

Record GetStats := MkStats { seek_file : option Z; seek_file_level : Z }.

Definition with_access_time (f : FileMetaData) (n : Z) : FileMetaData :=
  MkFile (refs f) (allowed_seeks f) (number f) (file_size f) (smallest f) (largest f) n.

Definition with_allowed_seeks (f : FileMetaData) (n : Z) : FileMetaData :=
  MkFile (refs f) n (number f) (file_size f) (smallest f) (largest f) (access_time f).

(** ** The callback *)

Module Saver.
Inductive SaverState := kNotFound | kFound | kDeleted | kCorrupt.

Record Saver := MkSaver { state : SaverState; saver_user_key : bytes; saver_value : bytes }.

Definition SaveValue {C : Comparator} (s : Saver) (ikey v : bytes) : Saver :=
  match ParseInternalKey ikey with
  | None => MkSaver kCorrupt (saver_user_key s) (saver_value s)
  | Some parsed_key =>
      if Compare (user_key parsed_key) (saver_user_key s) =? 0 then
        match type parsed_key with
        | kTypeValue => MkSaver kFound (saver_user_key s) v
        | kTypeDeletion => MkSaver kDeleted (saver_user_key s) (saver_value s)
        end
      else s
  end.
End Saver.

(** ** The table cache as [Get] uses it *)

(** The mutable part of [ReadOptions]. *)
Record GetOptions := MkGetOptions {
  table_read : Table.ReadOptions;
  file_level : Z;
  access_compacted_file_nums : Z
}.

(** [tc_Get] returns the status and the entry it passed to the callback, if it
    called it. *)
Class TableCache := {
  table_cache : Type;
  addCurrentTime : table_cache -> table_cache;
  tc_Get : table_cache -> GetOptions -> Z -> Z -> bytes ->
    option (Status * option (bytes * bytes) * table_cache * GetOptions)
}.

Section Get.
Context {user_comparator : Comparator} {TC : TableCache}.

(** ** Files to search *)

(** The order of [std::sort] with [NewestFirst]. *)
Definition NewestFirst (a b : FileMetaData) : bool := number b <? number a.

Definition newest_order (a b : Z * FileMetaData) : Prop := NewestFirst b.2 a.2 = false.

#[export] Instance newest_order_dec a b : Decision (newest_order a b).
Proof. unfold newest_order. apply _. Defined.

Definition contains_user_key (user_key : bytes) (f : FileMetaData) : bool :=
  (0 <=? Compare user_key (ExtractUserKey (smallest f))) && (Compare user_key (ExtractUserKey (largest f)) <=? 0).

Definition files_to_search (h : file_heap) (level : Z) (ptrs : list Z) (user_key ikey : bytes) : option (list Z) :=
  files ← load h ptrs;
  if level =? 0 then
    Some (fst <$> merge_sort newest_order
                    (base.filter (fun pf => contains_user_key user_key pf.2 = true) (zip ptrs files)))
  else
    index ← FindFile files ikey;
    if zlen files <=? u32 index then Some []
    else
      p ← ptrs !! Z.to_nat (u32 index);
      f ← files !! Z.to_nat (u32 index);
      Some (if Compare user_key (ExtractUserKey (smallest f)) <? 0 then [] else [p]).

(** ** [Version::Get] *)

(** The local variables of [Get] and what it writes through pointers. *)
Record GetState := MkGetState {
  stats : GetStats;
  last_file_read : option Z;
  last_file_read_level : Z;
  heap : file_heap;
  cache_ : table_cache;
  options : GetOptions;
  value : bytes
}.

(** The first file read is charged when a second one is. *)
Definition charge_first (st : GetState) : GetStats :=
  match last_file_read st, seek_file (stats st) with
  | Some f, None => MkStats (Some f) (last_file_read_level st)
  | _, _ => stats st
  end.

(** The body of the inner loop; [Some s] when it returns [s]. *)
Definition search_file (user_key ikey : bytes) (level : Z) (p : Z) (st : GetState)
    : option (option Status * GetState) :=
  f ← heap st !! p;
  let h := <[p := with_access_time f (i32 (access_time f + 1))]> (heap st) in
  let opts := MkGetOptions (table_read (options st)) level (access_compacted_file_nums (options st)) in
  '(s, found, c, opts) ← tc_Get (cache_ st) opts (number f) (file_size f) ikey;
  let saver := Saver.MkSaver Saver.kNotFound user_key (value st) in
  let saver := match found with Some (k, v) => Saver.SaveValue saver k v | None => saver end in
  let st := MkGetState (charge_first st) (Some p) level h c opts (Saver.saver_value saver) in
  if negb (ok s) then Some (Some s, st)
  else
    Some (match Saver.state saver with
          | Saver.kNotFound => None
          | Saver.kFound => Some s
          | Saver.kDeleted => Some (NotFound [] [])
          | Saver.kCorrupt => Some (Corruption (str "corrupted key for ") user_key)
          end, st).

Fixpoint search_files (user_key ikey : bytes) (level : Z) (ptrs : list Z) (st : GetState)
    : option (option Status * GetState) :=
  match ptrs with
  | [] => Some (None, st)
  | p :: ptrs =>
      '(r, st) ← search_file user_key ikey level p st;
      match r with
      | Some s => Some (Some s, st)
      | None => search_files user_key ikey level ptrs st
      end
  end.

Fixpoint search_levels (user_key ikey : bytes) (level : Z) (levels : list (list Z)) (st : GetState)
    : option (Status * GetState) :=
  match levels with
  | [] => Some (NotFound [] [], st)
  | files :: levels =>
      match files with
      | [] => search_levels user_key ikey (level + 1) levels st
      | _ =>
          ptrs ← files_to_search (heap st) level files user_key ikey;
          '(r, st) ← search_files user_key ikey level ptrs st;
          match r with
          | Some s => Some (s, st)
          | None => search_levels user_key ikey (level + 1) levels st
          end
      end
  end.

Definition reset_counters (ro : Table.ReadOptions) : Table.ReadOptions :=
  Table.MkReadOptions (Table.verify_checksums ro) (Table.fill_cache ro) (Table.file_number ro) 0 0.

Definition Get (v : Version) (h : file_heap) (c : table_cache) (opts : GetOptions) (k : LookupKey.t) (value : bytes)
    : option (Status * GetState) :=
  search_levels (LookupKey.lookup_user_key k) (LookupKey.internal_key k) 0 (files_ v)
    (MkGetState (MkStats None (-1)) None (-1) h (addCurrentTime c)
       (MkGetOptions (reset_counters (table_read opts)) (file_level opts) 0) value).

(** ** Seek statistics *)

Definition UpdateStats (v : Version) (h : file_heap) (st : GetStats) : option (bool * Version * file_heap) :=
  match seek_file st with
  | None => Some (false, v, h)
  | Some p =>
      f ← h !! p;
      let f := with_allowed_seeks f (i32 (allowed_seeks f - 1)) in
      let h := <[p := f]> h in
      if (allowed_seeks f <=? 0) && bool_decide (file_to_compact_ v = None) then
        Some (true, MkVersion (refs_ v) (files_ v) (Some p) (seek_file_level st) (compaction_score_ v) (compaction_level_ v), h)
      else Some (false, v, h)
  end.

(** [ForEachOverlapping] with the callback [func], on a state [A]; [false]
    stops it. *)
Section ForEach.
Context {A : Type} (func : A -> Z -> Z -> bool * A).

Fixpoint call_files (level : Z) (ptrs : list Z) (a : A) : bool * A :=
  match ptrs with
  | [] => (true, a)
  | p :: ptrs =>
      let '(go, a) := func a level p in
      if go : bool then call_files level ptrs a else (false, a)
  end.

Fixpoint call_levels (h : file_heap) (user_key ikey : bytes) (level : Z) (levels : list (list Z)) (a : A) : option A :=
  match levels with
  | [] => Some a
  | files :: levels =>
      ptrs ← files_to_search h level files user_key ikey;
      let '(go, a) := call_files level ptrs a in
      if go : bool then call_levels h user_key ikey (level + 1) levels a else Some a
  end.

Definition ForEachOverlapping (v : Version) (h : file_heap) (user_key internal_key : bytes) (a : A) : option A :=
  call_levels h user_key internal_key 0 (files_ v) a.
End ForEach.

(** [State::Match]: remembers the first file and stops at the second. *)
Definition Match (st : GetStats * Z) (level p : Z) : bool * (GetStats * Z) :=
  let matches := st.2 + 1 in
  let stats := if matches =? 1 then MkStats (Some p) level else st.1 in
  (matches <? 2, (stats, matches)).

Definition RecordReadSample (v : Version) (h : file_heap) (internal_key : bytes) : option (bool * Version * file_heap) :=
  match ParseInternalKey internal_key with
  | None => Some (false, v, h)
  | Some ikey =>
      '(stats, matches) ← ForEachOverlapping Match v h (user_key ikey) internal_key (MkStats None (-1), 0);
      if 2 <=? matches then UpdateStats v h stats else Some (false, v, h)
  end.
End Get.

(** ** What the table cache promises *)

(** [contents n] is the size of table file [n] and its entries; [inv] is an
    invariant of the cache.  A lookup succeeds and passes on an entry of the
    file: the newest visible one of the user key, or one of another user key,
    or none when there is no visible one (see [table_lookup_newest]).  The file
    must have an entry at or after the key that is sought: without one
    [InternalGet] does not write the name of the region that [TableCache::Get]
    then uses. *)
Class TableCacheLaws (TC : TableCache) (contents : Z -> option (Z * list (bytes * bytes))) (inv : table_cache -> Prop) := {
  tc_time : forall c, inv c -> inv (addCurrentTime c);
  tc_get : forall c opts n size kvs u s, inv c -> contents n = Some (size, kvs) -> bytes_ok u -> seq_ok s ->
    (exists kv, kv ∈ kvs /\ ~ internal_compare (user_comparator := BytewiseComparator) kv.1 (LookupKey.internal_key (LookupKey.make u s)) < 0) ->
    exists found c' opts', tc_Get c opts n size (LookupKey.internal_key (LookupKey.make u s)) = Some (Status_OK, found, c', opts') /\
      inv c' /\ (forall kv, found = Some kv -> kv ∈ kvs) /\ of_user u found = visible u s kvs
}.

(** ** The levels of a version as a multi-version map *)

Section Lsm.
#[local] Existing Instances BytewiseComparator BytewiseLaws.
Context (contents : Z -> option (Z * list (bytes * bytes))).

Definition entries_of (f : FileMetaData) : list (bytes * bytes) :=
  match contents (number f) with Some (_, kvs) => kvs | None => [] end.

(** The file has the size and the bounds of its entries. *)
Record file_serves (f : FileMetaData) : Prop := {
  sv_ok : file_ok f;
  sv_size : contents (number f) = Some (file_size f, entries_of f);
  sv_sorted : sorted_kvs (C := InternalKeyComparator) (entries_of f);
  sv_keys : forall kv, kv ∈ entries_of f -> internal_key_ok kv.1 /\
    internal_compare (smallest f) kv.1 <= 0 /\ internal_compare kv.1 (largest f) <= 0;
  sv_last : exists kv, kv ∈ entries_of f /\ kv.1 = largest f
}.

(** Level [l] is newer than the levels below; on level 0 file numbers tell. *)
Definition newer (l : nat) (f : FileMetaData) (l' : nat) (g : FileMetaData) : Prop :=
  (l < l')%nat \/ (l = 0%nat /\ l' = 0%nat /\ number g < number f).

Record lsm_ok (levels : list (list FileMetaData)) : Prop := {
  lsm_files : version_files_ok levels;
  lsm_serves : forall l files f, levels !! l = Some files -> f ∈ files -> file_serves f;
  lsm_newer : forall l l' files files' f g a b,
    levels !! l = Some files -> levels !! l' = Some files' -> f ∈ files -> g ∈ files' -> newer l f l' g ->
    a ∈ entries_of f -> b ∈ entries_of g -> ExtractUserKey a.1 = ExtractUserKey b.1 -> ExtractTag b.1 < ExtractTag a.1;
  lsm_numbers : forall files, levels !! 0%nat = Some files -> NoDup (number <$> files)
}.

(** No file of level 0 ends in a version of [u] that the snapshot does not see. *)
Definition ends_seen (u : bytes) (s : Z) (levels : list (list FileMetaData)) : Prop :=
  forall files f, levels !! 0%nat = Some files -> f ∈ files -> ExtractUserKey (largest f) = u -> ExtractTag (largest f) <= PackSequenceAndType s kValueTypeForSeek.

Definition level_entries (files : list FileMetaData) : list (bytes * bytes) := concat (entries_of <$> files).
Definition all_entries (levels : list (list FileMetaData)) : list (bytes * bytes) := concat (level_entries <$> levels).

Lemma elem_level_entries files e : e ∈ level_entries files <-> exists f, f ∈ files /\ e ∈ entries_of f.
Proof.
  unfold level_entries. rewrite elem_of_concat. split.
  - intros (l & (f & -> & Hf)%list_elem_of_fmap & He). by exists f.
  - intros (f & Hf & He). exists (entries_of f). split; [|done]. by apply list_elem_of_fmap_2.
Qed.

Lemma elem_all_entries levels e : e ∈ all_entries levels <-> exists l files, levels !! l = Some files /\ e ∈ level_entries files.
Proof.
  unfold all_entries. rewrite elem_of_concat. split.
  - intros (l & (fs & -> & [i Hi]%list_elem_of_lookup)%list_elem_of_fmap & He). by exists i, fs.
  - intros (i & fs & Hi & He). exists (level_entries fs). split; [|done]. apply list_elem_of_fmap_2. by eapply list_elem_of_lookup_2.
Qed.

(** ** Lookups in a list of entries *)

Section Seen.
Context (u : bytes) (s : Z).

Definition seen (e : bytes * bytes) : Prop :=
  ExtractUserKey e.1 = u /\ ExtractTag e.1 <= PackSequenceAndType s kValueTypeForSeek.

(** The newest entry the snapshot sees of the user key. *)
Definition newest (es : list (bytes * bytes)) (e : bytes * bytes) : Prop :=
  e ∈ es /\ seen e /\ forall e', e' ∈ es -> seen e' -> ExtractTag e'.1 <= ExtractTag e.1.

(** The answer to a lookup that found [e]. *)
Definition answers (e : bytes * bytes) (old : bytes) (st : Status) (val : bytes) : Prop :=
  exists k, ParseInternalKey e.1 = Some k /\
    match type k with
    | kTypeValue => st = Status_OK /\ val = e.2
    | kTypeDeletion => st = NotFound [] [] /\ val = old
    end.

Lemma same_user_lt a b : ExtractUserKey a = u -> ExtractUserKey b = u -> internal_compare a b < 0 -> ExtractTag b < ExtractTag a.
Proof.
  intros Ha Hb. rewrite internal_compare_lt, Ha, Hb. simpl. unfold Bytewise.compare. rewrite Slice_compare_lex, lex_refl. lia.
Qed.

Lemma visible_None es : visible u s es = None -> forall e, e ∈ es -> ~ seen e.
Proof.
  unfold visible. intros Hn e He Hs. set (l := base.filter _ es) in Hn. assert (Hin : e ∈ l) by (by apply list_elem_of_filter).
  destruct l; [by apply not_elem_of_nil in Hin|done].
Qed.

Lemma visible_newest es e : sorted_kvs (C := InternalKeyComparator) es -> visible u s es = Some e -> newest es e.
Proof.
  intros Hs. induction es as [|x es IH]; [done|]. apply (sorted_kvs_app_inv [x] es) in Hs as (_ & Hs & Hlt). unfold visible.
  destruct (decide (seen x)) as [Hx|Hx].
  - rewrite filter_cons_True by done. intros [= <-]. split; [by left|]. split; [done|]. intros e' He' Hse'.
    apply elem_of_cons in He' as [->|He']; [lia|]. apply Z.lt_le_incl, same_user_lt; [apply Hx|apply Hse'|]. by apply Hlt; [left|].
  - rewrite filter_cons_False by done. intros He. destruct (IH Hs He) as (Hin & Hse & Hmax). split; [by right|]. split; [done|].
    intros e' [->|He']%elem_of_cons Hse'; [done|]. by apply Hmax.
Qed.

Lemma visible_Some es e : e ∈ es -> seen e -> exists e', visible u s es = Some e'.
Proof.
  intros He Hs. destruct (visible u s es) as [e'|] eqn:E; [by exists e'|]. by destruct (visible_None es E e He).
Qed.
End Seen.
End Lsm.

(** ** Counters do not matter *)

Definition metas (levels : list (list FileMetaData)) : list (list file_meta) :=
  (fun fs : list FileMetaData => meta <$> fs) <$> levels.

Definition heap_same (h h' : file_heap) : Prop := forall p, meta <$> h !! p = meta <$> h' !! p.

#[export] Instance heap_same_equiv : Equivalence heap_same.
Proof. split; [by intros ? ?|by intros ? ? H p|]. intros h1 h2 h3 H1 H2 p. by rewrite (H1 p). Qed.

Lemma heap_same_insert h p f f' : h !! p = Some f -> meta f' = meta f -> heap_same h (<[p := f']> h).
Proof.
  intros Hp Hm q. destruct (decide (q = p)) as [->|Hne]; [by rewrite lookup_insert_eq, Hp; simpl; rewrite Hm|by rewrite lookup_insert_ne].
Qed.

Lemma load_same h h' ptrs files : heap_same h h' -> load h ptrs = Some files ->
  exists files', load h' ptrs = Some files' /\ meta <$> files' = meta <$> files.
Proof.
  intros Hs. unfold load. rewrite mapM_Some. intros Hf. induction Hf as [|p f ptrs files Hp _ (files' & Hl & Hm)]; [by exists []|].
  pose proof (Hs p) as Hsp. rewrite Hp in Hsp. destruct (h' !! p) as [f'|] eqn:Hp'; [|done]. injection Hsp as E1 E2 E3 E4.
  exists (f' :: files'). cbn. rewrite Hp'. cbn. rewrite Hl. split; [done|]. rewrite Hm. f_equal. unfold meta. congruence.
Qed.

Definition load_levels (h : file_heap) (v : Version) : option (list (list FileMetaData)) := mapM (load h) (files_ v).

Lemma load_levels_same h h' v levels : heap_same h h' -> load_levels h v = Some levels ->
  exists levels', load_levels h' v = Some levels' /\ metas levels' = metas levels.
Proof.
  intros Hs. unfold load_levels. rewrite mapM_Some. intros Hf. induction Hf as [|ps fs pss fss Hp _ (levels' & Hl & Hm)]; [by exists []|].
  destruct (load_same h h' ps fs Hs Hp) as (fs' & Hl' & Hm'). exists (fs' :: levels'). cbn. rewrite Hl'. cbn. rewrite Hl. split; [done|].
  unfold metas in *. cbn. by f_equal.
Qed.

Lemma load_levels_lookup h v levels l ptrs : load_levels h v = Some levels -> files_ v !! l = Some ptrs ->
  exists files, levels !! l = Some files /\ load h ptrs = Some files.
Proof.
  unfold load_levels. rewrite mapM_Some. intros Hf Hl. destruct (Forall2_lookup_l _ _ _ _ _ Hf Hl) as (files & H1 & H2). by exists files.
Qed.

Section Same.
#[local] Existing Instances BytewiseComparator BytewiseLaws.
Context (contents : Z -> option (Z * list (bytes * bytes))).
Context (levels levels' : list (list FileMetaData)) (Hsame : metas levels' = metas levels).

Lemma same_level l files' : levels' !! l = Some files' -> exists files, levels !! l = Some files /\ meta <$> files' = meta <$> files.
Proof.
  intros Hl. unfold metas in Hsame. apply (f_equal (lookup l)) in Hsame. rewrite !list_lookup_fmap, Hl in Hsame. cbn in Hsame.
  destruct (levels !! l) as [files|]; [|done]. injection Hsame as E. by exists files.
Qed.

Lemma same_file (files files' : list FileMetaData) f' i : meta <$> files' = meta <$> files -> files' !! i = Some f' -> exists f, files !! i = Some f /\ meta f' = meta f.
Proof.
  intros Hm Hi. apply (f_equal (lookup i)) in Hm. rewrite !list_lookup_fmap, Hi in Hm. cbn in Hm.
  destruct (files !! i) as [f|]; [|done]. exists f. split; [done|]. cbn in Hm. congruence.
Qed.

Lemma same_elem (files files' : list FileMetaData) f' : meta <$> files' = meta <$> files -> f' ∈ files' -> exists f, f ∈ files /\ meta f' = meta f.
Proof.
  intros Hm [i Hi]%list_elem_of_lookup. destruct (same_file files files' f' i Hm Hi) as (f & Hf & E). exists f.
  split; [by eapply list_elem_of_lookup_2|done].
Qed.

Lemma meta_file_ok f f' : meta f' = meta f -> file_ok f -> file_ok f'.
Proof. intros [= E1 E2 E3 E4] [H1 H2 H3 H4]. split; rewrite ?E1, ?E2, ?E3, ?E4; done. Qed.

Lemma meta_entries f f' : meta f' = meta f -> entries_of contents f' = entries_of contents f.
Proof. unfold entries_of. by intros [= -> _ _ _]. Qed.

Lemma meta_serves f f' : meta f' = meta f -> file_serves contents f -> file_serves contents f'.
Proof.
  intros Hm [H1 H2 H3 H4 H5]. pose proof (meta_entries f f' Hm) as He. pose proof (meta_file_ok f f' Hm H1) as Ho. injection Hm as E1 E2 E3 E4.
  split; rewrite ?He, ?E1, ?E2, ?E3, ?E4; done.
Qed.

Lemma same_level_entries (files files' : list FileMetaData) : meta <$> files' = meta <$> files -> level_entries contents files' = level_entries contents files.
Proof.
  intros Hm. unfold level_entries. f_equal. apply list_eq. intros i. rewrite !list_lookup_fmap.
  apply (f_equal (lookup i)) in Hm. rewrite !list_lookup_fmap in Hm.
  destruct (files' !! i) as [f'|], (files !! i) as [f|]; try done. cbn in *. f_equal. apply meta_entries. congruence.
Qed.

Lemma same_all_entries n : all_entries contents (drop n levels') = all_entries contents (drop n levels).
Proof.
  unfold all_entries. f_equal. apply list_eq. intros i. rewrite !list_lookup_fmap, !lookup_drop.
  destruct (levels' !! (n + i)%nat) as [fs'|] eqn:Hl.
  - destruct (same_level _ _ Hl) as (fs & -> & Hm). cbn. f_equal. by apply same_level_entries.
  - unfold metas in Hsame. apply (f_equal (lookup (n + i)%nat)) in Hsame. rewrite !list_lookup_fmap, Hl in Hsame. by destruct (levels !! (n + i)%nat).
Qed.

Lemma same_files_ok (files files' : list FileMetaData) : meta <$> files' = meta <$> files -> Forall file_ok files -> Forall file_ok files'.
Proof.
  rewrite !Forall_forall. intros Hm Hok f' Hf'. destruct (same_elem _ _ _ Hm Hf') as (f & Hf & E). apply (meta_file_ok f); auto.
Qed.

Lemma lsm_ok_same : lsm_ok contents levels -> lsm_ok contents levels'.
Proof.
  intros [[Hlen Hfiles Hsort] Hserves Hnewer Hnums]. split.
  - split.
    + unfold metas in Hsame. apply (f_equal length) in Hsame. rewrite !length_fmap in Hsame. lia.
    + intros l files' Hl. destruct (same_level _ _ Hl) as (files & Hl0 & Hm). destruct (Hfiles _ _ Hl0) as [Hok Hz]. split.
      * by apply (same_files_ok files).
      * apply (f_equal length) in Hm. rewrite !length_fmap in Hm. unfold zlen in *. lia.
    + intros l files' Hpos Hl. destruct (same_level _ _ Hl) as (files & Hl0 & Hm). destruct (Hsort _ _ Hpos Hl0) as [Hok Ho]. split.
      * by apply (same_files_ok files).
      * intros i j f' g' Hij Hi Hj. destruct (same_file _ _ _ _ Hm Hi) as (f & Hf & E). destruct (same_file _ _ _ _ Hm Hj) as (g & Hg & E').
        injection E as _ _ _ ->. injection E' as _ _ -> _. by apply (Ho i j).
  - intros l files' f' Hl Hf'. destruct (same_level _ _ Hl) as (files & Hl0 & Hm). destruct (same_elem _ _ _ Hm Hf') as (f & Hf & E).
    apply (meta_serves f); [done|]. by eapply Hserves.
  - intros l l' fs gs f' g' a b Hl Hl' Hf' Hg' Hn. destruct (same_level _ _ Hl) as (fs0 & Hl0 & Hm). destruct (same_elem _ _ _ Hm Hf') as (f & Hf & E).
    destruct (same_level _ _ Hl') as (gs0 & Hl0' & Hm'). destruct (same_elem _ _ _ Hm' Hg') as (g & Hg & E').
    rewrite (meta_entries f f' E), (meta_entries g g' E'). apply (Hnewer l l' fs0 gs0 f g); try done.
    injection E as E _ _ _. injection E' as E' _ _ _. unfold newer in *. by rewrite <- E, <- E'.
  - intros files' Hl. destruct (same_level _ _ Hl) as (files & Hl0 & Hm). specialize (Hnums _ Hl0).
    assert (E : number <$> files' = number <$> files); [|by rewrite E].
    apply (f_equal (fmap (fun m : file_meta => m.1.1.1))) in Hm. by rewrite <- !list_fmap_compose in Hm.
Qed.

Lemma ends_seen_same u s : ends_seen u s levels -> ends_seen u s levels'.
Proof.
  intros He files' f' Hl Hf'. destruct (same_level _ _ Hl) as (files & Hl0 & Hm). destruct (same_elem _ _ _ Hm Hf') as (f & Hf & E).
  injection E as _ _ _ ->. by apply (He files f).
Qed.
End Same.

(** ** Searching files *)

Section Search.
#[local] Existing Instances BytewiseComparator BytewiseLaws.
Context {TC : TableCache} (contents : Z -> option (Z * list (bytes * bytes))) (inv : table_cache -> Prop).
Context {TL : TableCacheLaws TC contents inv}.
Context (u : bytes) (s : Z) (Hu : bytes_ok u) (Hs : seq_ok s).

Abbreviation key := (LookupKey.internal_key (LookupKey.make u s)).

Lemma parse_ok k : internal_key_ok k -> exists p, ParseInternalKey k = Some p /\ user_key p = ExtractUserKey k.
Proof. intros (u' & s' & t & _ & Hs' & ->). rewrite ParseInternalKey_ikey by done. eexists. split; [done|]. by rewrite ExtractUserKey_ikey. Qed.

Lemma user_compare a b : (Compare a b =? 0) = bool_decide (a = b).
Proof. simpl. unfold Bytewise.compare. rewrite Slice_compare_lex. case_bool_decide as E; [by apply Z.eqb_eq, lex_eq|]. apply Z.eqb_neq. by rewrite lex_eq. Qed.

Lemma search_file_ok level p f st : heap st !! p = Some f -> file_serves contents f -> ~ internal_compare (largest f) key < 0 -> inv (cache_ st) ->
  exists r st', search_file u key level p st = Some (r, st') /\ heap_same (heap st) (heap st') /\ inv (cache_ st') /\
    match visible u s (entries_of contents f) with
    | None => r = None /\ value st' = value st
    | Some e => exists rs, r = Some rs /\ answers e (value st) rs (value st')
    end.
Proof.
  intros Hp Hf Hend Hc.
  destruct (tc_get (cache_ st) (MkGetOptions (table_read (options st)) level (access_compacted_file_nums (options st)))
    (number f) (file_size f) (entries_of contents f) u s Hc (sv_size _ _ Hf) Hu Hs ltac:(destruct (sv_last _ _ Hf) as (kv & Hkv & E); exists kv; by rewrite E)) as (found & c' & opts' & Hget & Hc' & Hin & Hvis).
  unfold search_file. rewrite Hp. cbn [mbind option_bind]. rewrite Hget. cbn [mbind option_bind negb ok Status_OK]. eexists _, _. split; [done|].
  split; [by apply (heap_same_insert _ _ f)|]. split; [done|]. cbn [value]. rewrite <- Hvis. destruct found as [[k v]|]; [|done]. unfold of_user. cbn [mbind option_bind fst].
  destruct (parse_ok k) as (pk & Hpk & Hpu); [by apply (sv_keys _ _ Hf (k, v)), Hin|]. unfold Saver.SaveValue. rewrite Hpk, Hpu, user_compare. cbn [Saver.saver_user_key].
  case_bool_decide as E; [|done]. destruct (type pk) eqn:Et; cbn; eexists; (split; [done|]); exists pk; rewrite Et; done.
Qed.

Definition holds_file (h : file_heap) (pf : Z * FileMetaData) : Prop := exists f, h !! pf.1 = Some f /\ meta f = meta pf.2.

Lemma holds_same h h' pf : heap_same h h' -> holds_file h pf -> holds_file h' pf.
Proof.
  intros Hh (f & Hf & Hm). pose proof (Hh pf.1) as E. rewrite Hf in E. destruct (h' !! pf.1) as [f'|] eqn:Hf'; [|done].
  exists f'. split; [done|]. cbn in E. congruence.
Qed.

Abbreviation nothing pf := (visible u s (entries_of contents pf.2) = None).

Lemma search_files_ok level qs : forall st, Forall (holds_file (heap st)) qs -> Forall (fun pf => file_serves contents pf.2 /\ ~ internal_compare (largest pf.2) key < 0) qs -> inv (cache_ st) ->
  exists r st', search_files u key level (fst <$> qs) st = Some (r, st') /\ heap_same (heap st) (heap st') /\ inv (cache_ st') /\
    match r with
    | None => Forall (fun pf => nothing pf) qs /\ value st' = value st
    | Some rs => exists qs1 pf qs2 e, qs = qs1 ++ pf :: qs2 /\ Forall (fun pf => nothing pf) qs1 /\
        visible u s (entries_of contents pf.2) = Some e /\ answers e (value st) rs (value st')
    end.
Proof.
  induction qs as [|pf qs IH]; intros st Hh Hv Hc; cbn [fmap list_fmap search_files].
  { exists None, st. split_and!; done. }
  apply Forall_cons in Hh as [(f & Hp & Hm) Hh]. apply Forall_cons in Hv as [[Hf Hend] Hv].
  destruct (search_file_ok level pf.1 f st Hp) as (r & st1 & -> & Hs1 & Hc1 & Hr); [by apply (meta_serves _ pf.2)|injection Hm as _ _ _ ->; done|done|].
  cbn [mbind option_bind]. rewrite (meta_entries contents pf.2 f Hm) in Hr.
  destruct (visible u s (entries_of contents pf.2)) as [e|] eqn:Hvis.
  - destruct Hr as (rs & -> & Ha). exists (Some rs), st1. split_and!; try done. exists [], pf, qs, e. split_and!; done.
  - destruct Hr as [-> Hval]. destruct (IH st1) as (r & st' & -> & Hs' & Hc' & Hr); [|done|done|].
    { apply (Forall_impl _ _ _ Hh). intros x Hx. by apply (holds_same (heap st) (heap st1)). }
    exists r, st'. split; [done|]. split; [by etrans|]. split; [done|]. rewrite Hval in Hr. destruct r as [rs|].
    + destruct Hr as (qs1 & pf' & qs2 & e & -> & Hq & He & Ha). exists (pf :: qs1), pf', qs2, e. split_and!; try done. by constructor.
    + destruct Hr as [Hq Hv']. split; [by constructor|done].
Qed.

(** ** The files of a level that matter *)

(** [qs] are files of the level in an order in which the first one with a
    visible entry has the newest, and which misses no entry. *)
Record level_plan (h : file_heap) (files : list FileMetaData) (qs : list (Z * FileMetaData)) : Prop := {
  lp_in : forall pf, pf ∈ qs -> pf.2 ∈ files /\ h !! pf.1 = Some pf.2;
  lp_end : forall pf, pf ∈ qs -> ~ internal_compare (largest pf.2) key < 0;
  lp_none : Forall (fun pf => nothing pf) qs -> forall e, e ∈ level_entries contents files -> ~ seen u s e;
  lp_some : forall qs1 pf qs2 e, qs = qs1 ++ pf :: qs2 -> Forall (fun pf => nothing pf) qs1 ->
    visible u s (entries_of contents pf.2) = Some e -> newest u s (level_entries contents files) e
}.

Lemma load_zip h ptrs files : load h ptrs = Some files ->
  (forall pf, pf ∈ zip ptrs files -> pf.2 ∈ files /\ h !! pf.1 = Some pf.2) /\ (forall f, f ∈ files -> exists p, (p, f) ∈ zip ptrs files).
Proof.
  unfold load. rewrite mapM_Some. induction 1 as [|p f ptrs files Hp _ [IH1 IH2]]; cbn.
  { split; by intros ? ?%not_elem_of_nil. }
  split.
  - intros pf [->|Hin]%elem_of_cons; [split; [by left|done]|]. destruct (IH1 pf Hin). split; [by right|done].
  - intros g [->|Hin]%elem_of_cons; [exists p; by left|]. destruct (IH2 g Hin) as [q Hq]. exists q. by right.
Qed.

(** A seen entry is not below the lookup key. *)
Lemma seen_not_below e : seen u s e -> ~ internal_compare e.1 key < 0.
Proof.
  intros [Heu Het] Hlt. change (@Compare InternalKeyComparator e.1 key < 0) in Hlt. rewrite below_target in Hlt by done.
  rewrite Heu, lex_refl in Hlt. destruct Hlt as [?|[_ ?]]; lia.
Qed.

Lemma not_below_seen k : ExtractUserKey k = u -> ~ internal_compare k key < 0 -> ExtractTag k <= PackSequenceAndType s kValueTypeForSeek.
Proof.
  intros Hk Hn. apply Z.nlt_ge. intros Hlt. apply Hn. change (@Compare InternalKeyComparator k key < 0). rewrite below_target by done. by right.
Qed.

#[local] Instance newest_order_total : Total newest_order.
Proof. intros a b. unfold newest_order, NewestFirst. rewrite !Z.ltb_ge. lia. Qed.

#[local] Instance newest_order_trans : Transitive newest_order.
Proof. intros a b c. unfold newest_order, NewestFirst. rewrite !Z.ltb_ge. lia. Qed.

Section Plan.
Context (h : file_heap) (levels : list (list FileMetaData)) (Hlsm : lsm_ok contents levels).

(** The user key of an entry is in the range of its file. *)
Lemma serves_user_range f e : file_serves contents f -> e ∈ entries_of contents f ->
  Compare (ustart f) (ExtractUserKey e.1) <= 0 /\ Compare (ExtractUserKey e.1) (ulimit f) <= 0.
Proof. intros Hf He. destruct (sv_keys _ _ Hf e He) as (_ & H1 & H2). split; by apply internal_le_user. Qed.

Lemma number_inj files f g : levels !! 0%nat = Some files -> f ∈ files -> g ∈ files -> number f = number g -> f = g.
Proof.
  intros Hl [i Hi]%list_elem_of_lookup [j Hj]%list_elem_of_lookup E. pose proof (lsm_numbers _ _ Hlsm _ Hl) as Hnd.
  assert (i = j); [|congruence]. apply (NoDup_lookup _ i j (number f) Hnd); rewrite list_lookup_fmap; [by rewrite Hi|by rewrite Hj, E].
Qed.

Lemma plan_0 ptrs files : ends_seen u s levels -> load h ptrs = Some files -> levels !! 0%nat = Some files ->
  exists qs, files_to_search h 0 ptrs u key = Some (fst <$> qs) /\ level_plan h files qs.
Proof.
  intros Hends Hl H0. destruct (load_zip h ptrs files Hl) as [Hzin Hzall]. unfold files_to_search. rewrite Hl. cbn [mbind option_bind Z.eqb].
  set (qs := merge_sort _ _). exists qs. split; [done|].
  assert (Hqs : forall pf, pf ∈ qs <-> contains_user_key u pf.2 = true /\ pf ∈ zip ptrs files).
  { intros pf. unfold qs. rewrite merge_sort_Permutation. by rewrite list_elem_of_filter. }
  assert (Hsort : StronglySorted newest_order qs) by apply (StronglySorted_merge_sort _).
  assert (Hserve : forall f, f ∈ files -> file_serves contents f) by (intros f Hf; by eapply lsm_serves).
  assert (Hcover : forall f e, f ∈ files -> e ∈ entries_of contents f -> seen u s e -> exists p, (p, f) ∈ qs).
  { intros f e Hf He [Heu _]. destruct (Hzall f Hf) as [p Hp]. exists p. apply Hqs. split; [|done]. unfold contains_user_key. cbn [snd].
    destruct (serves_user_range f e (Hserve f Hf) He) as [H1 H2]. rewrite Heu in H1, H2.
    pose proof (sv_ok _ _ (Hserve f Hf)) as Hok. pose proof (internal_key_ok_user _ (fo_smallest _ Hok)) as Hv.
    pose proof (cmp_sgn_opp u (ustart f) Hu Hv). apply andb_true_intro. split; apply Z.leb_le; lia. }
  split.
  - intros pf Hpf. apply Hqs in Hpf as [_ Hpf]. by apply Hzin.
  - intros pf Hpf Hlt. apply Hqs in Hpf as [[_ Hcu%Z.leb_le]%andb_true_iff Hpf]. destruct (Hzin pf Hpf) as [Hpff _].
    change (@Compare InternalKeyComparator (largest pf.2) key < 0) in Hlt. rewrite below_target in Hlt by done.
    simpl in Hcu. unfold Bytewise.compare in Hcu. rewrite Slice_compare_lex, lex_opp in Hcu. destruct Hlt as [Hlt|[Hlu Hlt]]; [lia|]. specialize (Hends files pf.2 H0 Hpff Hlu). lia.
  - intros Hnone e (f & Hf & He)%elem_level_entries Hse. destruct (Hcover f e Hf He Hse) as [p Hp]. rewrite Forall_forall in Hnone.
    by apply (visible_None _ _ _ (Hnone (p, f) Hp) e He).
  - intros qs1 pf qs2 e Heq Hnone Hvis. assert (Hpf : pf ∈ qs) by (rewrite Heq; apply elem_of_app; right; by left).
    destruct (Hzin pf) as [Hpff _]; [by apply Hqs|]. destruct (visible_newest u s _ e (sv_sorted _ _ (Hserve _ Hpff)) Hvis) as (Hin & Hse & Hmax).
    split; [apply elem_level_entries; by exists pf.2|]. split; [done|]. intros e' (g & Hg & He')%elem_level_entries Hse'.
    destruct (Hcover g e' Hg He' Hse') as [p Hp]. rewrite Heq in Hp. apply elem_of_app in Hp as [Hp|Hp].
    { rewrite Forall_forall in Hnone. by destruct (visible_None _ _ _ (Hnone _ Hp) e' He'). }
    apply elem_of_cons in Hp as [<-|Hp]; [by apply Hmax|].
    rewrite Heq in Hsort. apply StronglySorted_app in Hsort as (_ & _ & Hsort). apply StronglySorted_inv in Hsort as [_ Hall].
    rewrite Forall_forall in Hall. specialize (Hall _ Hp). unfold newest_order, NewestFirst in Hall. cbn [snd] in Hall. apply Z.ltb_ge in Hall.
    destruct (Z.eq_dec (number g) (number pf.2)) as [E|Hne].
    + rewrite (number_inj files g pf.2 H0 Hg Hpff E) in He'. by apply Hmax.
    + apply Z.lt_le_incl, (lsm_newer _ _ Hlsm 0 0 files files pf.2 g e e'); try done; [right; split_and!; [done|done|lia]|].
      destruct Hse as [-> _]. by destruct Hse' as [-> _].
Qed.

(** A sorted level split at the lookup key. *)
Section Split.
Context (files l1 l2 : list FileMetaData) (Hsort : level_sorted files) (Heq : files = l1 ++ l2).
Context (Hserve : forall f, f ∈ files -> file_serves contents f).
Context (Hlow : forall f, f ∈ l1 -> internal_compare (largest f) key < 0).
Context (Hhigh : forall f, f ∈ l2 -> ~ internal_compare (largest f) key < 0).

Lemma file_valid f : f ∈ files -> @valid_key InternalKeyComparator (smallest f) /\ @valid_key InternalKeyComparator (largest f).
Proof. intros Hf. pose proof (sv_ok _ _ (Hserve f Hf)) as Ho. split; apply internal_key_ok_valid; apply Ho. Qed.

Lemma level_entry_valid f e : f ∈ files -> e ∈ entries_of contents f -> @valid_key InternalKeyComparator e.1.
Proof. intros Hf He. by apply internal_key_ok_valid, (sv_keys _ _ (Hserve f Hf) e He). Qed.

(** A seen entry lies in a file from [l2] on. *)
Lemma seen_in_rest g e : g ∈ files -> e ∈ entries_of contents g -> seen u s e -> g ∈ l2.
Proof.
  intros Hg He Hse. pose proof (seen_not_below e Hse) as Hn. destruct (sv_keys _ _ (Hserve g Hg) e He) as (_ & _ & Hle).
  pose proof Hg as Hg'. rewrite Heq in Hg'. apply elem_of_app in Hg' as [Hg'|]; [|done]. exfalso. apply Hn.
  apply (internal_le_lt _ (largest g)); [by eapply level_entry_valid|by apply file_valid|by apply target_valid|done|by apply Hlow].
Qed.

Context (c : FileMetaData) (rest : list FileMetaData) (Hrest : l2 = c :: rest).

Lemma first_in : c ∈ files.
Proof. rewrite Heq, Hrest. apply elem_of_app. right. by left. Qed.

Lemma rest_in g : g ∈ rest -> g ∈ files.
Proof. intros Hg. rewrite Heq, Hrest. apply elem_of_app. right. by right. Qed.

(** The entries of the files after [c] are above it. *)
Lemma rest_above g e : g ∈ rest -> e ∈ entries_of contents g -> internal_compare (largest c) e.1 < 0.
Proof.
  intros Hg He. pose proof (rest_in g Hg) as Hgf. destruct (sv_keys _ _ (Hserve g Hgf) e He) as (_ & Hge & _).
  apply (internal_lt_user_le _ (smallest g)); [apply file_valid, first_in|by apply file_valid|by eapply level_entry_valid| |done].
  apply list_elem_of_lookup in Hg as [j Hj]. apply (proj2 Hsort (length l1) (length l1 + S j)%nat c g); [lia|..]; rewrite Heq, Hrest, lookup_app_r by lia.
  - by rewrite Nat.sub_diag.
  - by rewrite Nat.add_sub_swap, Nat.sub_diag by lia.
Qed.

(** A seen entry after [c] makes the last entry of [c] a seen one. *)
Lemma seen_in_first g e : g ∈ files -> e ∈ entries_of contents g -> seen u s e -> exists e0, e0 ∈ entries_of contents c /\ seen u s e0.
Proof.
  intros Hg He Hse. pose proof (seen_in_rest g e Hg He Hse) as Hg2. rewrite Hrest in Hg2. apply elem_of_cons in Hg2 as [->|Hg2]; [by exists e|].
  destruct (sv_last _ _ (Hserve c first_in)) as (e0 & He0 & Elast). exists e0. split; [done|].
  pose proof (rest_above g e Hg2 He) as Hlt. apply Z.lt_le_incl, internal_le_user in Hlt. destruct Hse as [Heu _]. rewrite Heu in Hlt.
  pose proof (Hhigh c ltac:(rewrite Hrest; by left)) as Hnb.
  assert (Hge : ~ lex (ulimit c) u < 0).
  { intros ?. apply Hnb. change (@Compare InternalKeyComparator (largest c) key < 0). rewrite below_target by done. by left. }
  simpl in Hlt. unfold Bytewise.compare in Hlt. rewrite Slice_compare_lex in Hlt.
  assert (Hlu : ulimit c = u) by (apply lex_eq; lia). rewrite <- Elast in Hlu, Hnb. split; [done|]. by apply not_below_seen.
Qed.

(** The newest entry of [c] is that of the level. *)
Lemma first_newest e : visible u s (entries_of contents c) = Some e -> newest u s (level_entries contents files) e.
Proof.
  intros Hvis. pose proof (Hserve c first_in) as Hcs. destruct (visible_newest u s _ e (sv_sorted _ _ Hcs) Hvis) as (Hein & Hse & Hmax).
  split; [apply elem_level_entries; exists c; split; [apply first_in|done]|]. split; [done|]. intros e' (g & Hg & He')%elem_level_entries Hse'.
  pose proof (seen_in_rest g e' Hg He' Hse') as Hg2. rewrite Hrest in Hg2. apply elem_of_cons in Hg2 as [->|Hg2]; [by apply Hmax|].
  apply Z.lt_le_incl, (same_user_lt u); [apply Hse|apply Hse'|]. destruct (sv_keys _ _ Hcs e Hein) as (_ & _ & Hle).
  apply (internal_le_lt _ (largest c)); [eapply level_entry_valid; [apply first_in|done]|apply file_valid, first_in|by eapply level_entry_valid|done|].
  by apply (rest_above g).
Qed.

Lemma first_plan p : h !! p = Some c ->
  level_plan h files (if Compare u (ustart c) <? 0 then [] else [(p, c)]).
Proof.
  intros Hp. pose proof (Hserve c first_in) as Hcs. split.
  - intros pf. case_match; [by intros ?%not_elem_of_nil|]. intros ->%list_elem_of_singleton. split; [apply first_in|done].
  - intros pf. case_match; [by intros ?%not_elem_of_nil|]. intros ->%list_elem_of_singleton. apply Hhigh. rewrite Hrest. by left.
  - intros Hnone e (g & Hg & He)%elem_level_entries Hse. destruct (seen_in_first g e Hg He Hse) as (e0 & He0 & Hse0). revert Hnone.
    destruct (Z.ltb_spec (Compare u (ustart c)) 0) as [Hbefore|_].
    + intros _. destruct (serves_user_range c e0 Hcs He0) as [Hr _]. destruct Hse0 as [Heu _]. rewrite Heu in Hr.
      pose proof (cmp_sgn_opp u (ustart c) Hu (internal_key_ok_user _ (fo_smallest _ (sv_ok _ _ Hcs)))). lia.
    + intros Hnone. apply Forall_cons in Hnone as [Hnone _]. by apply (visible_None _ _ _ Hnone e0 He0).
  - intros qs1 pf qs2 e E _ Hvis. case_match; [by destruct qs1|]. destruct qs1 as [|? [|]]; [|done..]. injection E as <- <-. by apply first_newest.
Qed.
End Split.

Lemma plan_above l ptrs files : (0 < l)%nat -> load h ptrs = Some files -> levels !! l = Some files ->
  exists qs, files_to_search h (Z.of_nat l) ptrs u key = Some (fst <$> qs) /\ level_plan h files qs.
Proof.
  intros Hl Hload Hlev. destruct (vf_files _ (lsm_files _ _ Hlsm) _ _ Hlev) as [Hok Hz].
  pose proof (vf_sorted _ (lsm_files _ _ Hlsm) l files Hl Hlev) as Hsort.
  assert (Hserve : forall f, f ∈ files -> file_serves contents f) by (intros f Hf; by eapply lsm_serves).
  unfold files_to_search. rewrite Hload. cbn [mbind option_bind]. rewrite (proj2 (Z.eqb_neq (Z.of_nat l) 0)) by lia.
  destruct (level_split files Hsort key) as (l1 & l2 & Heq & H1 & H2); [by apply target_valid|].
  pose proof (FindFile_split l1 l2 key H1 H2 ltac:(by rewrite <- Heq)) as Hfind. rewrite <- Heq in Hfind. rewrite Hfind. cbn [mbind option_bind].
  pose proof (zlen_nonneg l1). pose proof (zlen_nonneg l2). pose proof (zlen_app l1 l2) as Hlen. rewrite <- Heq in Hlen. rewrite u32_small by lia.
  destruct l2 as [|c rest].
  - rewrite (proj2 (Z.leb_le _ _)) by (unfold zlen in *; simpl in *; lia). exists []. split; [done|].
    split; [by intros ? ?%not_elem_of_nil|by intros ? ?%not_elem_of_nil| |intros [|] ? ? ? E; done].
    intros _ e (g & Hg & He)%elem_level_entries Hse. by apply (seen_in_rest files l1 [] Heq Hserve H1 g e Hg He), not_elem_of_nil in Hse.
  - assert (Hc : files !! length l1 = Some c) by (rewrite Heq, lookup_app_r, Nat.sub_diag by lia; done).
    rewrite (proj2 (Z.leb_gt _ _)) by (unfold zlen in *; simpl in *; lia). unfold zlen. rewrite Nat2Z.id, Hc.
    unfold load in Hload. rewrite mapM_Some in Hload. destruct (Forall2_lookup_r _ _ _ _ _ Hload Hc) as (p & Hp & Hpc).
    rewrite Hp. cbn [mbind option_bind]. exists (if Compare u (ustart c) <? 0 then [] else [(p, c)]).
    split; [by case_match|]. by apply (first_plan files l1 (c :: rest) Hsort Heq Hserve H1 H2 c rest).
Qed.
End Plan.

(** ** The whole search *)

Lemma newest_app_l levels l files e : lsm_ok contents levels -> levels !! l = Some files ->
  newest u s (level_entries contents files) e -> newest u s (all_entries contents (drop l levels)) e.
Proof.
  intros Hlsm Hl (Hin & Hse & Hmax). split.
  { apply elem_all_entries. exists 0%nat, files. rewrite lookup_drop, Nat.add_0_r. done. }
  split; [done|]. intros e' (j & fs & Hj & He')%elem_all_entries Hse'. rewrite lookup_drop in Hj.
  destruct (Nat.eq_dec j 0) as [->|Hne]; [rewrite Nat.add_0_r, Hl in Hj; injection Hj as <-; by apply Hmax|].
  apply elem_level_entries in Hin as (f & Hf & He). apply elem_level_entries in He' as (g & Hg & He').
  apply Z.lt_le_incl, (lsm_newer _ _ Hlsm l (l + j)%nat files fs f g e e'); try done; [left; lia|].
  destruct Hse as [-> _]. by destruct Hse' as [-> _].
Qed.

Lemma all_entries_drop levels l files : levels !! l = Some files ->
  all_entries contents (drop l levels) = level_entries contents files ++ all_entries contents (drop (S l) levels).
Proof. intros Hl. unfold all_entries. by rewrite (drop_S _ _ _ Hl). Qed.

Lemma newest_app_r es es' e : (forall x, x ∈ es -> ~ seen u s x) -> newest u s es' e -> newest u s (es ++ es') e.
Proof.
  intros Hn (Hin & Hse & Hmax). split; [apply elem_of_app; by right|]. split; [done|].
  intros e' [He'|He']%elem_of_app Hse'; [by destruct (Hn e' He')|by apply Hmax].
Qed.

Definition lookup_result (es : list (bytes * bytes)) (old : bytes) (rs : Status) (val : bytes) : Prop :=
  (exists e, newest u s es e /\ answers e old rs val) \/
  ((forall e, e ∈ es -> ~ seen u s e) /\ rs = NotFound [] [] /\ val = old).

Lemma search_levels_ok v n : forall l st levels, (length (files_ v) - l = n)%nat ->
  load_levels (heap st) v = Some levels -> lsm_ok contents levels -> ends_seen u s levels -> inv (cache_ st) ->
  exists rs st', search_levels u key (Z.of_nat l) (drop l (files_ v)) st = Some (rs, st') /\
    heap_same (heap st) (heap st') /\ inv (cache_ st') /\
    lookup_result (all_entries contents (drop l levels)) (value st) rs (value st').
Proof.
  induction n as [|n IH]; intros l st levels Hn Hload Hlsm Hends Hc.
  - pose proof (length_mapM _ _ _ Hload) as Hlen. rewrite !drop_ge by lia. exists (NotFound [] []), st. split_and!; try done. right. split_and!; try done.
    by intros e ?%not_elem_of_nil.
  - destruct (lookup_lt_is_Some_2 (files_ v) l) as [ptrs Hl]; [lia|]. destruct (load_levels_lookup _ _ _ _ _ Hload Hl) as (files & Hlf & Hlp).
    rewrite (drop_S _ _ _ Hl), (all_entries_drop _ _ _ Hlf). cbn [search_levels]. replace (Z.of_nat l + 1) with (Z.of_nat (S l)) by lia.
    assert (Hplan : exists qs, files_to_search (heap st) (Z.of_nat l) ptrs u key = Some (fst <$> qs) /\ level_plan (heap st) files qs).
    { destruct l as [|l]; [by eapply plan_0|by eapply plan_above; [|lia|..]]. }
    destruct Hplan as (qs & Hqs & Hlp').
    destruct (search_files_ok (Z.of_nat l) qs st) as (r & st1 & Hr & Hs1 & Hc1 & Hpost); [..|done|].
    { apply Forall_forall. intros pf Hpf. destruct (lp_in _ _ _ Hlp' pf Hpf) as [_ Hh]. by exists pf.2. }
    { apply Forall_forall. intros pf Hpf. destruct (lp_in _ _ _ Hlp' pf Hpf) as [Hf _]. split; [by eapply lsm_serves|by eapply lp_end]. }
    destruct (load_levels_same _ _ _ _ Hs1 Hload) as (levels1 & Hload1 & Hm).
    destruct ptrs as [|p0 ptrs].
    { assert (files = []) as -> by (unfold load in Hlp; cbn in Hlp; by injection Hlp). apply (IH (S l) st levels); [lia|done..]. }
    rewrite Hqs. cbn [mbind option_bind]. rewrite Hr. cbn [mbind option_bind]. destruct r as [rs|].
    + destruct Hpost as (qs1 & pf & qs2 & e & Heq & Hno & Hvis & Ha). exists rs, st1. split_and!; try done. left. exists e. split; [|done].
      rewrite <- (all_entries_drop _ _ _ Hlf). apply (newest_app_l _ _ files); [done..|]. by eapply lp_some.
    + destruct Hpost as [Hno Hval]. pose proof (lp_none _ _ _ Hlp' Hno) as Hnone.
      destruct (IH (S l) st1 levels1) as (rs & st' & -> & Hs' & Hc' & Hres); [lia|done|by apply (lsm_ok_same contents levels)|by apply (ends_seen_same levels)|done|].
      exists rs, st'. split; [done|]. split; [by etrans|]. split; [done|]. rewrite Hval, (same_all_entries contents levels levels1 Hm) in Hres.
      destruct Hres as [(e & Hne & Ha)|(Hnot & Hrs & Hv)]; [left; exists e; split; [by apply newest_app_r|done]|].
      right. split_and!; [|done|done]. intros e [He|He]%elem_of_app; auto.
Qed.
End Search.

Lemma Get_ok {TC : TableCache} contents inv {TL : TableCacheLaws TC contents inv} v h levels c opts u s old :
  load_levels h v = Some levels -> lsm_ok contents levels -> ends_seen u s levels -> inv c -> bytes_ok u -> seq_ok s ->
  exists rs st', Get (user_comparator := BytewiseComparator) v h c opts (LookupKey.make u s) old = Some (rs, st') /\
    lookup_result u s (all_entries contents levels) old rs (value st') /\
    heap_same h (heap st') /\ inv (cache_ st').
Proof.
  intros Hload Hlsm Hends Hc Hu Hs. unfold Get.
  assert (Hk : LookupKey.lookup_user_key (LookupKey.make u s) = u).
  { unfold LookupKey.lookup_user_key. rewrite lookup_internal_key. apply ExtractUserKey_ikey. }
  rewrite Hk. set (st := MkGetState _ _ _ _ _ _ _).
  destruct (search_levels_ok contents inv u s Hu Hs v (length (files_ v)) 0 st levels) as (rs & st' & Hr & Hs' & Hc' & Hres);
    [lia|done|done|done|by apply tc_time|].
  exists rs, st'. split_and!; [exact Hr|exact Hres|exact Hs'|exact Hc'].
Qed.

(** ** Properties *)

(** C4. [Version::Get] answers from the newest version of the key.  For any
    version whose levels satisfy the tree's invariant (files sorted and disjoint
    above level 0, each with the bounds of its entries, newer entries of a user
    key in newer files) and any table cache that keeps its contract, and a
    snapshot that sees the last entry of each file of level 0 that ends in the
    user key ([ends_seen]; the newest state always does, and for an older one
    [TableCache::Get] is undefined, see [cached_get_newest] in CachedGet.v): the lookup
    of (user key, snapshot) returns; with OK and the value when the newest entry
    the snapshot sees over all levels is a value, with NotFound when it is a
    deletion or there is none.  Only access counters of files change. *)
Theorem version_get_newest {TC : TableCache} contents inv {TL : TableCacheLaws TC contents inv} v h levels c opts u s old :
  load_levels h v = Some levels -> lsm_ok contents levels -> ends_seen u s levels -> inv c -> bytes_ok u -> seq_ok s ->
  exists rs st', Get (user_comparator := BytewiseComparator) v h c opts (LookupKey.make u s) old = Some (rs, st') /\
    lookup_result u s (all_entries contents levels) old rs (value st') /\
    heap_same h (heap st') /\ inv (cache_ st').
Proof. intros. by eapply Get_ok. Qed.

(** A cache that reads the entries of a file directly. *)
Section Direct.
#[local] Existing Instances BytewiseComparator BytewiseLaws.
Context (contents : Z -> option (Z * list (bytes * bytes))).

Definition direct_cache : TableCache := {|
  table_cache := unit;
  addCurrentTime := id;
  tc_Get := fun c opts n size k =>
    match contents n with
    | Some (_, kvs) => Some (Status_OK, kvs !! length (base.filter (fun kv => internal_compare kv.1 k < 0) kvs), c, opts)
    | None => Some (NotFound [] [], None, c, opts)
    end
|}.

Lemma direct_cache_laws : (forall n size kvs, contents n = Some (size, kvs) -> sorted_kvs (C := InternalKeyComparator) kvs) ->
  TableCacheLaws direct_cache contents (fun _ => True).
Proof.
  intros Hsort. split; [done|]. intros c opts n size kvs u s _ Hn Hu Hs _. cbn. rewrite Hn. eexists _, _, _. split; [done|]. split; [done|]. split.
  - intros kv Hkv. by eapply list_elem_of_lookup_2.
  - apply (first_visible u s Hu Hs kvs). by eapply Hsort.
Qed.
End Direct.

Section Example.
#[local] Existing Instances BytewiseComparator BytewiseLaws.

Definition entry (u : bytes) (n : Z) (t : ValueType) (v : bytes) : bytes * bytes := (InternalKey_make u n t, v).

(** Two files on level 0 and one on level 1; the newest entry of the key 98 is a deletion. *)
Definition example_contents (n : Z) : option (Z * list (bytes * bytes)) :=
  if n =? 9 then Some (100, [entry [98] 12 kTypeDeletion []; entry [99] 11 kTypeValue [3]])
  else if n =? 8 then Some (100, [entry [97] 8 kTypeValue [2]; entry [98] 9 kTypeValue [7]])
  else if n =? 4 then Some (100, [entry [97] 2 kTypeValue [1]; entry [98] 1 kTypeValue [5]])
  else None.

Definition file_over (n : Z) (a b : bytes * bytes) : FileMetaData := FileMetaData_new n 100 a.1 b.1.

Definition example_heap : file_heap :=
  <[1 := file_over 8 (entry [97] 8 kTypeValue [2]) (entry [98] 9 kTypeValue [7])]>
  (<[2 := file_over 9 (entry [98] 12 kTypeDeletion []) (entry [99] 11 kTypeValue [3])]>
  (<[3 := file_over 4 (entry [97] 2 kTypeValue [1]) (entry [98] 1 kTypeValue [5])]> ∅)).

Definition example_version : Version :=
  MkVersion 1 [[1; 2]; [3]; []; []; []; []; []; []] None (-1) minus_one (-1).

Definition example_files : list (list FileMetaData) := default [] (load_levels example_heap example_version).


Lemma example_key_ok u n t : bytes_ok u -> seq_ok n -> internal_key_ok (InternalKey_make u n t).
Proof. intros Hu Hn. apply InternalKey_make_ok; [exact Hu|exact Hn]. Qed.

Lemma example_sorted n size kvs : example_contents n = Some (size, kvs) -> sorted_kvs (C := InternalKeyComparator) kvs.
Proof.
  unfold example_contents. repeat case_match; intros [= <- <-];
  repeat (apply sorted_kvs_cons; [apply internal_key_ok_valid, example_key_ok; [by_decide|split; vm_compute; discriminate]| |apply Forall_forall; by_decide]); apply sorted_kvs_nil.
Qed.

(** The files with their levels. *)
Definition example_leveled : list (nat * FileMetaData) :=
  concat (imap (fun l files => (fun f => (l, f)) <$> files) example_files).

Lemma example_leveled_in l files f : example_files !! l = Some files -> f ∈ files -> (l, f) ∈ example_leveled.
Proof.
  intros Hl Hf. unfold example_leveled. apply elem_of_concat. exists ((fun f => (l, f)) <$> files). split.
  - apply (list_elem_of_lookup_2 _ l). rewrite list_lookup_imap, Hl. done.
  - by apply list_elem_of_fmap_2.
Qed.

Lemma file_over_serves n kvs a b : example_contents n = Some (100, kvs) ->
  kvs = [a; b] -> internal_key_ok a.1 -> internal_key_ok b.1 -> internal_compare a.1 b.1 < 0 ->
  file_serves example_contents (file_over n a b).
Proof.
  intros Hn -> Ha Hb Hlt. assert (He : entries_of example_contents (file_over n a b) = [a; b]) by (unfold entries_of; simpl; by rewrite Hn).
  assert (Hrefl : forall k, internal_key_ok k -> internal_compare k k = 0).
  { intros k Hk. apply (cmp_refl (C := InternalKeyComparator)). by apply internal_key_ok_valid. }
  split; rewrite ?He; cbn [file_over FileMetaData_new smallest largest number file_size].
  - split; try done; simpl; lia.
  - done.
  - by apply (example_sorted n 100).
  - intros kv [->|[->|?%not_elem_of_nil]%elem_of_cons]%elem_of_cons; rewrite ?Hrefl by done; (split; [done|]); lia.
  - exists b. split; [right; by left|done].
Qed.

Lemma example_lsm : lsm_ok example_contents example_files.
Proof.
  assert (Hserve : Forall (fun lf => file_serves example_contents lf.2) example_leveled).
  { change example_leveled with [(0%nat, file_over 8 (entry [97] 8 kTypeValue [2]) (entry [98] 9 kTypeValue [7]));
      (0%nat, file_over 9 (entry [98] 12 kTypeDeletion []) (entry [99] 11 kTypeValue [3]));
      (1%nat, file_over 4 (entry [97] 2 kTypeValue [1]) (entry [98] 1 kTypeValue [5]))].
    apply Forall_cons_2; [|apply Forall_cons_2; [|apply Forall_cons_2; [|apply Forall_nil_2]]]; cbn [snd].
    - apply (file_over_serves 8 _ (entry [97] 8 kTypeValue [2]) (entry [98] 9 kTypeValue [7]) eq_refl eq_refl);
        [apply example_key_ok; [by_decide|split; vm_compute; discriminate]..|vm_compute; reflexivity].
    - apply (file_over_serves 9 _ (entry [98] 12 kTypeDeletion []) (entry [99] 11 kTypeValue [3]) eq_refl eq_refl);
        [apply example_key_ok; [by_decide|split; vm_compute; discriminate]..|vm_compute; reflexivity].
    - apply (file_over_serves 4 _ (entry [97] 2 kTypeValue [1]) (entry [98] 1 kTypeValue [5]) eq_refl eq_refl);
        [apply example_key_ok; [by_decide|split; vm_compute; discriminate]..|vm_compute; reflexivity]. }
  rewrite Forall_forall in Hserve.
  assert (Hs : forall l files f, example_files !! l = Some files -> f ∈ files -> file_serves example_contents f).
  { intros l files f Hl Hf. by apply (Hserve (l, f)), (example_leveled_in l files). }
  split.
  - split; [vm_compute; reflexivity|..].
    + intros l files Hl. split; [apply Forall_forall; intros f Hf; by eapply sv_ok, Hs|].
      do 8 (destruct l as [|l]; [injection Hl as <-; vm_compute; reflexivity|]). done.
    + intros l files Hpos Hl. split; [apply Forall_forall; intros f Hf; by eapply sv_ok, Hs|].
      destruct l as [|l]; [lia|]. do 7 (destruct l as [|l]; [injection Hl as <-; intros [|i] [|j] f g Hij Hi Hj; try lia; done|]). done.
  - exact Hs.
  - assert (Hall : Forall (fun lf => Forall (fun lg => (newer lf.1 lf.2 lg.1 lg.2) -> Forall (fun a => Forall (fun b =>
      ExtractUserKey a.1 = ExtractUserKey b.1 -> ExtractTag b.1 < ExtractTag a.1) (entries_of example_contents lg.2))
      (entries_of example_contents lf.2)) example_leveled) example_leveled) by (unfold newer; by_decide).
    intros l l' files files' f g a b Hl Hl' Hf Hg Hn Ha Hb. rewrite Forall_forall in Hall.
    specialize (Hall _ (example_leveled_in l files f Hl Hf)). rewrite Forall_forall in Hall.
    specialize (Hall _ (example_leveled_in l' files' g Hl' Hg) Hn). rewrite Forall_forall in Hall. specialize (Hall a Ha).
    rewrite Forall_forall in Hall. by apply Hall.
  - intros files [= <-]. by_decide.
Qed.

Lemma version_get_newest_witness :
  exists rs st', Get (TC := direct_cache example_contents) (user_comparator := BytewiseComparator) example_version example_heap tt
      (MkGetOptions (Table.MkReadOptions true true 0 0 0) 0 0) (LookupKey.make [98] 20) [] = Some (rs, st') /\
    rs = NotFound [] [] /\
    lookup_result [98] 20 (all_entries example_contents example_files) [] rs (value st').
Proof.
  destruct (version_get_newest (TC := direct_cache example_contents) example_contents (fun _ => True)
    (TL := direct_cache_laws example_contents example_sorted) example_version example_heap example_files tt
    (MkGetOptions (Table.MkReadOptions true true 0 0 0) 0 0) [98] 20 []) as (rs & st' & Hg & Hr & _).
  - reflexivity.
  - exact example_lsm.
  - intros files f [= <-] Hf. apply elem_of_cons in Hf as [->|[->|?%elem_of_nil]%elem_of_cons]; [..|done]; vm_compute; discriminate.
  - exact Logic.I.
  - by_decide.
  - split; vm_compute; discriminate.
  - exists rs, st'. split; [exact Hg|]. split; [|exact Hr].
    assert (E : fst <$> Some (rs, st') = Some (NotFound [] [])) by (rewrite <- Hg; vm_compute; reflexivity). injection E as E. exact E.
Defined.
End Example.
