(* ===== verification/VersionBuilder.v ===== *)
(** * VersionBuilder: applying edits to the files of a version

    [VersionSet::Builder] of src/LSM-EBF/db/version_set.cc: [Apply] collects the
    deletions and additions of edits, [SaveTo] merges the additions into the
    sorted lists of the base version, dropping deleted files, and the destructor
    gives up the builder's references.  [FileMetaData] objects live in a heap by
    address, with their reference counts; [None] is a failed assertion (the
    build keeps assertions) or the abort of the overlap check. *)
From stdpp Require Import gmap sorting.
From S2P Require Import Prelude Coding Status Comparator DbFormat VersionEdit Version.

(** ** Data *)

(** Reading through a pointer; live pointers are never dangling (see
    VersionSet). *)
Definition fm (h : file_heap) (p : Z) : FileMetaData := default (FileMetaData_new 0 0 [] []) (h !! p).

Definition with_refs (f : FileMetaData) (n : Z) : FileMetaData :=
  MkFile n (allowed_seeks f) (number f) (file_size f) (smallest f) (largest f) (access_time f).

(** [f->refs++], and [f->refs--; if (f->refs <= 0) delete f]. *)
Definition ref_file (h : file_heap) (p : Z) : file_heap := <[p := with_refs (fm h p) (refs (fm h p) + 1)]> h.

Definition unref_file (h : file_heap) (p : Z) : file_heap :=
  let f := with_refs (fm h p) (refs (fm h p) - 1) in
  if refs f <=? 0 then delete p h else <[p := f]> h.

Record FileExtraMetaData := MkExtra { is_compacted : bool; latency_sum : Z; count : Z }.

Record LevelState := MkLevel { deleted_files : list Z; added_files : list Z }.

Definition LevelState_new : LevelState := MkLevel [] [].

(** The heap with the next free address. *)
Record Store := MkStore { st_files : file_heap; st_next : Z }.

(** [new FileMetaData(f)]. *)
Definition new_file (s : Store) (f : FileMetaData) : Z * Store :=
  (st_next s, MkStore (<[st_next s := f]> (st_files s)) (st_next s + 1)).

Section Builder.
Context {user_comparator : Comparator}.

Definition BySmallestKey (f1 f2 : FileMetaData) : bool :=
  let r := internal_compare (smallest f1) (smallest f2) in
  if negb (r =? 0) then r <? 0 else number f1 <? number f2.

(** [FileSet::insert]: a sorted set, an equivalent element stays. *)
Fixpoint FileSet_insert (h : file_heap) (p : Z) (l : list Z) : list Z :=
  match l with
  | [] => [p]
  | q :: l' =>
      if BySmallestKey (fm h p) (fm h q) then p :: l
      else if BySmallestKey (fm h q) (fm h p) then q :: FileSet_insert h p l'
      else l
  end.

(** [std::set<uint64_t>], as a list without order. *)
Definition num_insert (n : Z) (l : list Z) : list Z := if bool_decide (n ∈ l) then l else n :: l.
Definition num_erase (n : Z) (l : list Z) : list Z := base.filter (fun m => m <> n) l.

(** ** [Apply] *)

Definition apply_pointer (cp : list bytes) (e : Z * bytes) : list bytes := <[Z.to_nat e.1 := e.2]> cp.

Definition apply_delete (levels : list LevelState) (e : Z * Z) : list LevelState :=
  alter (fun l => MkLevel (num_insert e.2 (deleted_files l)) (added_files l)) (Z.to_nat e.1) levels.

(** [allowed_seeks] as an [int]: one seek for 16 KB, at least 100. *)
Definition initial_seeks (size : Z) : Z :=
  let n := i32 (size / 16384) in if n <? 100 then 100 else n.

Definition apply_add (st : Store * list LevelState) (e : Z * FileMetaData) : Store * list LevelState :=
  let f0 := e.2 in
  let f := MkFile 1 (initial_seeks (file_size f0)) (number f0) (file_size f0) (smallest f0) (largest f0) (access_time f0) in
  let '(p, s) := new_file st.1 f in
  (s, alter (fun l => MkLevel (num_erase (number f) (deleted_files l)) (FileSet_insert (st_files s) p (added_files l)))
        (Z.to_nat e.1) st.2).

Definition Apply (cp : list bytes) (s : Store) (levels : list LevelState) (edit : VersionEdit)
    : list bytes * Store * list LevelState :=
  let cp := fold_left apply_pointer (compact_pointers_ edit) cp in
  let levels := fold_left apply_delete (deleted_files_ edit) levels in
  let '(s, levels) := fold_left apply_add (new_files_ edit) (s, levels) in
  (cp, s, levels).

(** ** [SaveTo] *)

Definition MaybeAddFile (deleted : list Z) (level : Z) (st : file_heap * list Z) (p : Z)
    : option (file_heap * list Z) :=
  let '(h, files) := st in
  if bool_decide (number (fm h p) ∈ deleted) then Some st
  else if (0 <? level) &&
          match last files with
          | Some q => negb (internal_compare (largest (fm h q)) (smallest (fm h p)) <? 0)
          | None => false
          end
  then None
  else Some (ref_file h p, files ++ [p]).

Fixpoint add_files (deleted : list Z) (level : Z) (ps : list Z) (st : file_heap * list Z) : option (file_heap * list Z) :=
  match ps with
  | [] => Some st
  | p :: ps => st ← MaybeAddFile deleted level st p; add_files deleted level ps st
  end.

(** [std::upper_bound]: the elements not above [p] of a sorted range, and the
    rest. *)
Fixpoint upper_bound (h : file_heap) (p : Z) (l : list Z) : list Z * list Z :=
  match l with
  | [] => ([], [])
  | q :: l' =>
      if BySmallestKey (fm h p) (fm h q) then ([], l)
      else let '(l1, l2) := upper_bound h p l' in (q :: l1, l2)
  end.

Fixpoint merge_files (deleted : list Z) (level : Z) (base added : list Z) (st : file_heap * list Z)
    : option (file_heap * list Z) :=
  match added with
  | [] => add_files deleted level base st
  | a :: added =>
      let '(below, base) := upper_bound st.1 a base in
      st ← add_files deleted level below st;
      st ← MaybeAddFile deleted level st a;
      merge_files deleted level base added st
  end.

(** The check after the merge: abort on an overlap above level 0. *)
Fixpoint no_adjacent_overlap (h : file_heap) (files : list Z) : bool :=
  match files with
  | p :: ((q :: _) as rest) =>
      (internal_compare (largest (fm h p)) (smallest (fm h q)) <? 0) && no_adjacent_overlap h rest
  | _ => true
  end.

(** The statistics records of the added files. *)
Definition add_extra (h : file_heap) (init : bool) (added : list Z) (m : gmap Z FileExtraMetaData) : gmap Z FileExtraMetaData :=
  fold_left (fun m p => <[number (fm h p) := MkExtra (negb init) 0 0]> m) added m.

Fixpoint save_levels (init : bool) (level : Z) (levels : list LevelState) (base : list (list Z))
    (h : file_heap) (extra : list (gmap Z FileExtraMetaData))
    : option (file_heap * list (list Z) * list (gmap Z FileExtraMetaData)) :=
  match levels, base, extra with
  | l :: levels, b :: base, x :: extra =>
      '(h, files) ← merge_files (deleted_files l) level b (added_files l) (h, []);
      if negb (level =? 0) && negb (no_adjacent_overlap h files) then None
      else
        '(h', rest, extra) ← save_levels init (level + 1) levels base h extra;
        Some (h', files :: rest, add_extra h init (added_files l) x :: extra)
  | _, _, _ => Some (h, [], extra)
  end.

(** [init] is the static flag: true until the first call ends. *)
Definition SaveTo (init : bool) (levels : list LevelState) (base : list (list Z)) (h : file_heap)
    (extra : list (gmap Z FileExtraMetaData))
    : option (file_heap * list (list Z) * list (gmap Z FileExtraMetaData) * bool) :=
  '(h, files, extra) ← save_levels init 0 levels base h extra;
  Some (h, files, extra, false).

(** ** The destructor *)

Definition drop_added (levels : list LevelState) (h : file_heap) : file_heap :=
  fold_left (fun h l => fold_left unref_file (added_files l) h) levels h.

(** ** [DeleteLevel0File] *)

(** The file with the largest number; the first file when all numbers are 0. *)
Fixpoint biggest (h : file_heap) (best : Z) (big : Z) (l : list Z) : Z :=
  match l with
  | [] => best
  | p :: l => if big <? number (fm h p) then biggest h p (number (fm h p)) l else biggest h best big l
  end.

Fixpoint shrink_level0 (fuel : nat) (h : file_heap) (l : LevelState) : LevelState :=
  match fuel with
  | O => l
  | S fuel =>
      if (3 <? length (added_files l))%nat then
        match added_files l with
        | [] => l
        | p0 :: _ =>
            let p := biggest h p0 0 (added_files l) in
            shrink_level0 fuel h (MkLevel (num_insert (number (fm h p)) (deleted_files l)) (base.filter (fun q => q <> p) (added_files l)))
        end
      else l
  end.

Definition DeleteLevel0File (h : file_heap) (levels : list LevelState) : list LevelState :=
  match levels with
  | [] => []
  | l :: levels => shrink_level0 (length (added_files l)) h l :: levels
  end.
End Builder.

(** ** Reference counts *)

Definition count_ref (p : Z) (owners : list Z) : Z := zlen (base.filter (fun q => q = p) owners).

(** [owners] lists every reference to a file, and the heap holds exactly the
    files that are referred to, each with the number of its references. *)
Definition refs_ok (h : file_heap) (owners : list Z) : Prop :=
  forall p, match h !! p with
            | Some f => p ∈ owners /\ refs f = count_ref p owners
            | None => p ∉ owners
            end.

Lemma count_ref_cons p q owners : count_ref p (q :: owners) = count_ref p owners + (if bool_decide (q = p) then 1 else 0).
Proof. unfold count_ref, zlen. rewrite filter_cons. case_bool_decide; case_decide; try done; cbn [length]; lia. Qed.

Lemma count_ref_pos p owners : p ∈ owners <-> 0 < count_ref p owners.
Proof.
  unfold count_ref, zlen. split.
  - intros Hp. assert (Hin : p ∈ base.filter (fun q => q = p) owners) by (by apply list_elem_of_filter). destruct (base.filter _ _); [by apply not_elem_of_nil in Hin|simpl; lia].
  - destruct (base.filter (fun q => q = p) owners) as [|q l] eqn:E; [simpl; lia|]. intros _.
    assert (Hq : q ∈ base.filter (fun q => q = p) owners) by (rewrite E; by left). apply list_elem_of_filter in Hq as [-> Hq]. done.
Qed.

#[export] Instance count_ref_perm p : Proper ((≡ₚ) ==> eq) (count_ref p).
Proof. intros l l' Hl. unfold count_ref, zlen. by rewrite Hl. Qed.

#[export] Instance refs_ok_perm : Proper (eq ==> (≡ₚ) ==> iff) refs_ok.
Proof. intros h ? <- l l' Hl. unfold refs_ok. split; intros H p; specialize (H p); destruct (h !! p); rewrite ?Hl in *; by rewrite <- ?Hl in *. Qed.

Lemma refs_ok_lookup h owners p : refs_ok h owners -> p ∈ owners -> exists f, h !! p = Some f /\ refs f = count_ref p owners.
Proof. intros H Hp. specialize (H p). destruct (h !! p) as [f|]; [|done]. exists f. by destruct H. Qed.

Lemma fm_lookup h p f : h !! p = Some f -> fm h p = f.
Proof. intros E. unfold fm. by rewrite E. Qed.

Lemma ref_file_ok h owners p : refs_ok h owners -> p ∈ owners -> refs_ok (ref_file h p) (p :: owners).
Proof.
  intros H Hp q. destruct (refs_ok_lookup h owners p H Hp) as (f & Hf & Hr). unfold ref_file. rewrite (fm_lookup _ _ _ Hf).
  rewrite count_ref_cons. destruct (decide (q = p)) as [->|Hne].
  - rewrite lookup_insert_eq, bool_decide_true by done. split; [by left|]. simpl. lia.
  - rewrite lookup_insert_ne, bool_decide_false by done. specialize (H q). destruct (h !! q) as [g|].
    + destruct H as [Hin Hc]. split; [by right|lia].
    + rewrite elem_of_cons. intros [?|?]; done.
Qed.

Lemma unref_file_ok h owners p : refs_ok h (p :: owners) -> refs_ok (unref_file h p) owners.
Proof.
  intros H q. destruct (refs_ok_lookup h _ p H ltac:(by left)) as (f & Hf & Hr). unfold unref_file. rewrite (fm_lookup _ _ _ Hf).
  rewrite count_ref_cons, bool_decide_true in Hr by done. cbn [refs with_refs].
  assert (Hother : q <> p -> match h !! q with Some g => q ∈ owners /\ refs g = count_ref q owners | None => q ∉ owners end).
  { intros Hne. specialize (H q). rewrite count_ref_cons, bool_decide_false in H by done. destruct (h !! q).
    - destruct H as [Hin Hc]. apply elem_of_cons in Hin as [?|Hin]; [done|]. split; [done|lia].
    - intros Hin. apply H. by right. }
  pose proof (count_ref_pos p owners) as Hpos. destruct (Z.leb_spec (refs f - 1) 0); destruct (decide (q = p)) as [->|Hne].
  - rewrite lookup_delete_eq. intros Hin%Hpos. lia.
  - rewrite lookup_delete_ne by done. by apply Hother.
  - rewrite lookup_insert_eq. split; [apply Hpos; lia|]. simpl. lia.
  - rewrite lookup_insert_ne by done. by apply Hother.
Qed.

Lemma new_file_refs s owners f : refs_ok (st_files s) owners -> st_files s !! st_next s = None -> refs f = 1 ->
  refs_ok (st_files (new_file s f).2) (st_next s :: owners).
Proof.
  intros H Hn Hr q. cbn. rewrite count_ref_cons. destruct (decide (q = st_next s)) as [->|Hne].
  - rewrite lookup_insert_eq, bool_decide_true by done. split; [by left|]. specialize (H (st_next s)). rewrite Hn in H.
    assert (~ 0 < count_ref (st_next s) owners) by (by rewrite <- count_ref_pos). pose proof (zlen_nonneg (base.filter (fun q => q = st_next s) owners)). unfold count_ref in *. lia.
  - rewrite lookup_insert_ne, bool_decide_false by done. specialize (H q). destruct (st_files s !! q) as [g|].
    + destruct H as [Hin Hc]. split; [by right|lia].
    + rewrite elem_of_cons. intros [?|?]; done.
Qed.

(** The fields that do not change, of the files [p] refers to. *)
Definition fmeta (h : file_heap) (p : Z) : file_meta := meta (fm h p).

Lemma ref_file_meta h p q : fmeta (ref_file h p) q = fmeta h q.
Proof.
  unfold fmeta, ref_file, fm at 1. destruct (decide (q = p)) as [->|Hne]; [by rewrite lookup_insert_eq|by rewrite lookup_insert_ne].
Qed.

Lemma unref_file_meta h owners p q : refs_ok h (p :: owners) -> q ∈ owners -> fmeta (unref_file h p) q = fmeta h q.
Proof.
  intros H Hq. pose proof (unref_file_ok h owners p H) as H'. destruct (refs_ok_lookup _ _ q H' Hq) as (f & Hf & _).
  unfold fmeta, fm at 1. rewrite Hf. cbn. unfold unref_file in Hf. case_match.
  - apply lookup_delete_Some in Hf as [_ Hf]. by rewrite (fm_lookup _ _ _ Hf).
  - destruct (decide (q = p)) as [->|Hne]; [rewrite lookup_insert_eq in Hf; by injection Hf as <-|].
    rewrite lookup_insert_ne in Hf by done. by rewrite (fm_lookup _ _ _ Hf).
Qed.

(** ** The order of files *)

Abbreviation mnum m := (m.1.1.1 : Z).
Abbreviation msmall m := (m.1.2 : bytes).
Abbreviation mlarge m := (m.2 : bytes).
Abbreviation nums l := ((fun m : file_meta => mnum m) <$> l).

Section Order.
Context {C : Comparator} {L : ComparatorLaws C}.

Definition meta_ok (m : file_meta) : Prop :=
  internal_key_ok (msmall m) /\ internal_key_ok (mlarge m) /\ internal_compare (msmall m) (mlarge m) <= 0.

Definition lt_file (a b : file_meta) : Prop :=
  internal_compare (msmall a) (msmall b) < 0 \/ (internal_compare (msmall a) (msmall b) = 0 /\ mnum a < mnum b).

Lemma BySmallestKey_lt f g : BySmallestKey f g = true <-> lt_file (meta f) (meta g).
Proof. unfold BySmallestKey, lt_file. cbn. destruct (Z.eqb_spec (internal_compare (smallest f) (smallest g)) 0); cbn; rewrite Z.ltb_lt; lia. Qed.

Lemma small_valid m : meta_ok m -> @valid_key InternalKeyComparator (msmall m).
Proof. intros (H & _). by apply internal_key_ok_valid. Qed.

Lemma lt_file_trans a b c : meta_ok a -> meta_ok b -> meta_ok c -> lt_file a b -> lt_file b c -> lt_file a c.
Proof.
  intros Ha%small_valid Hb%small_valid Hc%small_valid [H1|[H1 N1]] [H2|[H2 N2]]; unfold lt_file.
  - left. apply (cmp_lt_le_trans (C := InternalKeyComparator) _ (msmall b)); try done. simpl. lia.
  - left. apply (cmp_lt_le_trans (C := InternalKeyComparator) _ (msmall b)); try done. simpl. lia.
  - left. apply (cmp_le_lt_trans (C := InternalKeyComparator) _ (msmall b)); try done. simpl. lia.
  - pose proof (cmp_trans (C := InternalKeyComparator) _ _ _ Ha Hb Hc ltac:(simpl; lia) ltac:(simpl; lia)) as Hle. simpl in Hle.
    destruct (Z.eq_dec (internal_compare (msmall a) (msmall c)) 0); [right; split; [done|lia]|left; lia].
Qed.

Lemma lt_file_irrefl a : meta_ok a -> ~ lt_file a a.
Proof. intros Ha%small_valid [H|[_ H]]; [|lia]. pose proof (cmp_refl (C := InternalKeyComparator) _ Ha) as E. simpl in E. lia. Qed.

Lemma lt_file_total a b : meta_ok a -> meta_ok b -> mnum a <> mnum b -> lt_file a b \/ lt_file b a.
Proof.
  intros Ha%small_valid Hb%small_valid Hn. unfold lt_file.
  pose proof (cmp_antisym (C := InternalKeyComparator) _ _ Ha Hb) as E. simpl in E. lia.
Qed.

Lemma lt_file_asym a b : meta_ok a -> meta_ok b -> lt_file a b -> ~ lt_file b a.
Proof. intros Ha Hb H1 H2. apply (lt_file_irrefl a Ha). by apply (lt_file_trans a b a). Qed.

Abbreviation sorted_files l := (StronglySorted lt_file l).

(** Sorted lists of the same files are equal. *)
Lemma sorted_files_unique l1 l2 : Forall meta_ok l1 -> sorted_files l1 -> sorted_files l2 -> l1 ≡ₚ l2 -> l1 = l2.
Proof.
  intros Hok H1 H2 Hp. apply (StronglySorted_unique_strong lt_file); [|done..]. rewrite Forall_forall in Hok.
  intros a b Ha Hb Hab Hba. exfalso. apply (lt_file_asym a b); [by apply Hok| |done..]. apply Hok. by rewrite Hp.
Qed.

Lemma sorted_files_cons a l : Forall meta_ok (a :: l) -> sorted_files l -> (forall b, head l = Some b -> lt_file a b) -> sorted_files (a :: l).
Proof.
  intros Hok Hs Hh. constructor; [done|]. destruct l as [|b l]; [constructor|]. specialize (Hh b eq_refl).
  apply Forall_cons in Hok as [Ha Hok]. apply StronglySorted_inv in Hs as [_ Hb]. constructor; [done|].
  apply Forall_cons in Hok as [Hbo Hok]. rewrite Forall_forall in Hb, Hok |- *. intros c Hc. apply (lt_file_trans a b c); auto.
Qed.

Lemma sorted_files_app l1 l2 : sorted_files l1 -> sorted_files l2 -> (forall a b, a ∈ l1 -> b ∈ l2 -> lt_file a b) -> sorted_files (l1 ++ l2).
Proof.
  intros H1 H2 H12. induction H1 as [|a l1 H1 IH Hall]; [done|]. cbn. constructor.
  - apply IH. intros x y Hx Hy. apply H12; [by right|done].
  - apply Forall_app. split; [done|]. apply Forall_forall. intros b Hb. apply H12; [by left|done].
Qed.

(** ** Sorted sets and merges of pointers *)

Section Heap.
Context (h : file_heap).

Abbreviation ms l := (fmeta h <$> l).

Lemma FileSet_insert_ok p l : Forall meta_ok (fmeta h p :: ms l) -> sorted_files (ms l) -> mnum (fmeta h p) ∉ ((fun m : file_meta => mnum m) <$> ms l) ->
  FileSet_insert h p l ≡ₚ p :: l /\ sorted_files (ms (FileSet_insert h p l)).
Proof.
  intros Hok Hs Hn. induction l as [|q l IH]; [split; [done|by repeat constructor]|]. cbn [FileSet_insert].
  rewrite !fmap_cons in *. apply Forall_cons in Hok as [Hp Hok]. apply Forall_cons in Hok as [Hq Hok]. apply not_elem_of_cons in Hn as [Hne Hn].
  destruct (BySmallestKey (fm h p) (fm h q)) eqn:E1.
  { apply BySmallestKey_lt in E1. split; [done|]. cbn [fmap list_fmap]. apply sorted_files_cons; [by apply Forall_cons; split; [|apply Forall_cons]|done|]. intros b [= <-]. done. }
  destruct (lt_file_total _ _ Hp Hq Hne) as [Hlt|Hlt]; [apply BySmallestKey_lt in Hlt; congruence|].
  rewrite (proj2 (BySmallestKey_lt (fm h q) (fm h p)) Hlt). apply StronglySorted_inv in Hs as [Hs Hall].
  destruct IH as [Hperm Hsorted]; [by constructor|done|done|]. split; [rewrite Hperm; constructor|].
  rewrite fmap_cons. constructor; [done|]. rewrite Hperm, fmap_cons. by constructor.
Qed.

Lemma upper_bound_ok p l l1 l2 : Forall meta_ok (fmeta h p :: ms l) -> sorted_files (ms l) -> mnum (fmeta h p) ∉ ((fun m : file_meta => mnum m) <$> ms l) ->
  upper_bound h p l = (l1, l2) ->
  l = l1 ++ l2 /\ (forall q, q ∈ l1 -> lt_file (fmeta h q) (fmeta h p)) /\ (forall q, q ∈ l2 -> lt_file (fmeta h p) (fmeta h q)).
Proof.
  revert l1 l2. induction l as [|q l IH]; intros l1 l2 Hok Hs Hn; cbn [upper_bound].
  { intros [= <- <-]. split_and!; [done|by intros ? ?%not_elem_of_nil..]. }
  rewrite !fmap_cons in *. apply Forall_cons in Hok as [Hp Hok]. apply Forall_cons in Hok as [Hq Hok]. apply not_elem_of_cons in Hn as [Hne Hn].
  apply StronglySorted_inv in Hs as [Hs Hall].
  destruct (BySmallestKey (fm h p) (fm h q)) eqn:E1.
  - intros [= <- <-]. apply BySmallestKey_lt in E1. split_and!; [done|by intros ? ?%not_elem_of_nil|].
    intros x [->|Hx]%elem_of_cons; [done|]. rewrite Forall_forall in Hall, Hok. apply (lt_file_trans _ (fmeta h q)); [done|done| |done|];
      [apply Hok|apply Hall]; by apply list_elem_of_fmap_2.
  - destruct (upper_bound h p l) as [a b] eqn:E. intros [= <- <-]. destruct (IH a b) as (-> & H1 & H2); [by constructor|done..|].
    split_and!; [done| |done]. intros x [->|Hx]%elem_of_cons; [|by apply H1].
    destruct (lt_file_total _ _ Hp Hq Hne) as [Hlt|Hlt]; [apply BySmallestKey_lt in Hlt; congruence|done].
Qed.

(** The order in which [SaveTo] visits the files of a level. *)
Fixpoint merge_list (base added : list Z) : list Z :=
  match added with
  | [] => base
  | a :: added => let '(below, base) := upper_bound h a base in below ++ a :: merge_list base added
  end.

Lemma merge_list_ok added : forall base, Forall meta_ok (ms (base ++ added)) -> sorted_files (ms base) -> sorted_files (ms added) ->
  NoDup (nums (ms (base ++ added))) ->
  merge_list base added ≡ₚ base ++ added /\ sorted_files (ms (merge_list base added)).
Proof.
  induction added as [|a added IH]; intros base Hok Hb Ha Hnd; [by rewrite app_nil_r in *|]. cbn [merge_list].
  destruct (upper_bound h a base) as [below rest] eqn:E.
  rewrite fmap_app, fmap_cons in Hok. apply Forall_app in Hok as [Hokb Hoka]. apply Forall_cons in Hoka as [Hoka Hok].
  rewrite fmap_app, fmap_cons, fmap_app, fmap_cons in Hnd. apply NoDup_app in Hnd as (Hndb & Hdisj & Hnda).
  destruct (upper_bound_ok a base below rest) as (-> & Hlow & Hhigh); [by constructor|done| |done|].
  { intros Hin. apply (Hdisj _ Hin). by left. }
  rewrite fmap_app in Hb, Hokb, Hndb. apply Forall_app in Hokb as [Hok1 Hok2]. apply StronglySorted_app in Hb as (Hcross & Hb1 & Hb2).
  apply StronglySorted_inv in Ha as [Ha Hall]. rewrite fmap_app in Hndb. apply NoDup_app in Hndb as (_ & _ & Hndr). apply NoDup_cons in Hnda as [Hna Hnda].
  destruct (IH rest) as [Hperm Hsorted].
  { rewrite fmap_app. by apply Forall_app. }
  { done. }
  { done. }
  { rewrite fmap_app, fmap_app. apply NoDup_app. split; [done|]. split; [|done]. intros x Hx Hx'. apply (Hdisj x); [|by right].
    rewrite !fmap_app. apply elem_of_app. by right. }
  split.
  - rewrite Hperm, <- app_assoc, Permutation_middle. done.
  - rewrite fmap_app, fmap_cons. rewrite Forall_forall in Hok1, Hok2, Hall, Hok. apply sorted_files_app; [done| |].
    + constructor; [done|]. rewrite Hperm, fmap_app. apply Forall_app. split; [|by apply Forall_forall].
      apply Forall_forall. intros x (q & -> & Hq)%list_elem_of_fmap. by apply Hhigh.
    + intros x y (q & -> & Hq)%list_elem_of_fmap Hy. specialize (Hlow q Hq). apply elem_of_cons in Hy as [->|Hy]; [done|].
      apply (lt_file_trans _ (fmeta h a)); [apply Hok1; by apply list_elem_of_fmap_2|done| |done|].
      * rewrite Hperm, fmap_app in Hy. apply elem_of_app in Hy as [Hy|Hy]; auto.
      * rewrite Hperm, fmap_app in Hy. apply elem_of_app in Hy as [(r & -> & Hr)%list_elem_of_fmap|Hy]; auto.
Qed.
End Heap.
End Order.

(** ** References in bulk *)

Lemma ref_files_ok l : forall h owners, refs_ok h owners -> (forall p, p ∈ l -> p ∈ owners) -> refs_ok (fold_left ref_file l h) (l ++ owners).
Proof.
  induction l as [|p l IH]; intros h owners H Hin; [done|]. cbn [fold_left app]. rewrite Permutation_middle. apply IH.
  - apply ref_file_ok; [done|]. apply Hin. by left.
  - intros q Hq. right. apply Hin. by right.
Qed.

Lemma ref_files_meta l : forall h q, fmeta (fold_left ref_file l h) q = fmeta h q.
Proof. induction l as [|p l IH]; intros h q; [done|]. cbn [fold_left]. by rewrite IH, ref_file_meta. Qed.

Lemma unref_files_ok l : forall h owners, refs_ok h (l ++ owners) ->
  refs_ok (fold_left unref_file l h) owners /\ forall q, q ∈ owners -> fmeta (fold_left unref_file l h) q = fmeta h q.
Proof.
  induction l as [|p l IH]; intros h owners H; [done|]. cbn [fold_left]. cbn [app] in H.
  destruct (IH (unref_file h p) owners) as [H1 H2]; [by apply unref_file_ok|]. split; [done|]. intros q Hq. rewrite H2 by done.
  apply (unref_file_meta h (l ++ owners)); [done|]. apply elem_of_app. by right.
Qed.

Lemma drop_added_eq levels : forall h, drop_added levels h = fold_left unref_file (concat (added_files <$> levels)) h.
Proof.
  unfold drop_added. induction levels as [|l levels IH]; intros h; [done|]. cbn [fold_left fmap list_fmap concat]. by rewrite IH, fold_left_app.
Qed.

(** ** [SaveTo] computed *)

Section Save.
Context {C : Comparator} {L : ComparatorLaws C}.

Definition same_metas (h h' : file_heap) : Prop := forall q, fmeta h' q = fmeta h q.

Lemma BySmallestKey_meta f g f' g' : meta f' = meta f -> meta g' = meta g -> BySmallestKey f' g' = BySmallestKey f g.
Proof. intros [= E1 E2 E3 E4] [= E5 E6 E7 E8]. unfold BySmallestKey. by rewrite E1, E3, E5, E7. Qed.

Lemma upper_bound_meta h h' p l : same_metas h h' -> upper_bound h' p l = upper_bound h p l.
Proof.
  intros Hs. induction l as [|q l IH]; [done|]. cbn [upper_bound].
  rewrite (BySmallestKey_meta (fm h p) (fm h q)) by apply Hs. by rewrite IH.
Qed.

Lemma merge_list_meta h h' added : same_metas h h' -> forall base, merge_list h' base added = merge_list h base added.
Proof.
  intros Hs. induction added as [|a added IH]; intros base; [done|]. cbn [merge_list]. rewrite (upper_bound_meta h h') by done.
  destruct (upper_bound h a base). by rewrite IH.
Qed.

(** The files of a visit that are not deleted. *)
Definition kept (h : file_heap) (deleted ps : list Z) : list Z := base.filter (fun p => mnum (fmeta h p) ∉ deleted) ps.

Definition before_file (h : file_heap) (p q : Z) : Prop := internal_compare (mlarge (fmeta h p)) (msmall (fmeta h q)) < 0.

Lemma kept_meta h h' d ps : same_metas h h' -> kept h' d ps = kept h d ps.
Proof. intros Hs. unfold kept. apply list_filter_iff. intros p. by rewrite (Hs p). Qed.

Lemma same_metas_ref h l : same_metas h (fold_left ref_file l h).
Proof. intros q. apply ref_files_meta. Qed.

Lemma add_files_app d level ps1 ps2 st : add_files d level (ps1 ++ ps2) st = st ← add_files d level ps1 st; add_files d level ps2 st.
Proof. revert st. induction ps1 as [|p ps1 IH]; intros st; [done|]. cbn. destruct (MaybeAddFile d level st p); [apply IH|done]. Qed.

Lemma add_files_heap d level ps : forall st st', add_files d level ps st = Some st' -> same_metas st.1 st'.1.
Proof.
  induction ps as [|p ps IH]; intros [h files] st'; cbn [add_files]; [by intros [= <-]|]. unfold MaybeAddFile. case_bool_decide; [apply IH|].
  case_match; [done|]. cbn [mbind option_bind]. intros Hr q. rewrite (IH _ _ Hr q). apply ref_file_meta.
Qed.

Lemma merge_files_flat d level added : forall base st, merge_files d level base added st = add_files d level (merge_list st.1 base added) st.
Proof.
  induction added as [|a added IH]; intros base st; [done|]. cbn [merge_files merge_list]. destruct (upper_bound st.1 a base) as [below rest].
  rewrite add_files_app. destruct (add_files d level below st) as [st1|] eqn:E1; [|done]. cbn [mbind option_bind add_files].
  apply add_files_heap in E1. destruct (MaybeAddFile d level st1 a) as [st2|] eqn:E2; [|done]. cbn [mbind option_bind]. rewrite IH. f_equal.
  apply merge_list_meta. assert (E : add_files d level [a] st1 = Some st2) by (cbn; by rewrite E2).
  apply add_files_heap in E. intros q. by rewrite (E q), (E1 q).
Qed.

Lemma strongly_sorted_mono {A} (R S : A -> A -> Prop) l : (forall a b, R a b -> S a b) -> StronglySorted R l -> StronglySorted S l.
Proof. intros HRS. induction 1 as [|a l _ IH Hall]; constructor; [done|]. eapply Forall_impl; [done|]. intros b. apply HRS. Qed.

Lemma last_before R (l : list Z) x rest : StronglySorted R (l ++ x :: rest) -> forall q, last l = Some q -> R q x.
Proof.
  intros Hs q Hq. apply last_Some in Hq as [l' ->]. rewrite <- app_assoc in Hs. apply StronglySorted_app in Hs as (_ & _ & Hs).
  apply StronglySorted_inv in Hs as [_ Hs]. by apply Forall_cons in Hs as [? _].
Qed.

Lemma add_files_ok d level ps : forall h acc,
  (0 < level -> StronglySorted (before_file h) (acc ++ kept h d ps)) ->
  add_files d level ps (h, acc) = Some (fold_left ref_file (kept h d ps) h, acc ++ kept h d ps).
Proof.
  induction ps as [|p ps IH]; intros h acc Hdis; cbn [add_files].
  { unfold kept. rewrite filter_nil, app_nil_r. done. }
  unfold MaybeAddFile. unfold kept in *. case_bool_decide as Hd; cbn [mbind option_bind].
  { rewrite filter_cons_False in * by (intros Hn; by apply Hn). by apply IH. }
  rewrite filter_cons_True in * by done.
  assert (Hchk : ((0 <? level) && match last acc with Some q => negb (internal_compare (largest (fm h q)) (smallest (fm h p)) <? 0) | None => false end) = false).
  { destruct (Z.ltb_spec 0 level) as [Hl|]; [|done]. cbn. destruct (last acc) as [q|] eqn:Hq; [|done]. apply negb_false_iff, Z.ltb_lt.
    exact (last_before _ _ _ _ (Hdis Hl) q Hq). }
  rewrite Hchk. cbn [mbind option_bind fold_left]. pose proof (same_metas_ref h [p]) as Hm. cbn in Hm. fold (kept (ref_file h p) d ps) in *.
  specialize (IH (ref_file h p) (acc ++ [p])). fold (kept (ref_file h p) d ps) in IH. rewrite (kept_meta h) in IH by done. rewrite IH.
  - by rewrite <- app_assoc.
  - intros Hl. rewrite <- app_assoc. specialize (Hdis Hl). revert Hdis. apply strongly_sorted_mono. intros a b. unfold before_file. by rewrite !Hm.
Qed.

Lemma no_adjacent_ok h files : StronglySorted (before_file h) files -> no_adjacent_overlap h files = true.
Proof.
  induction 1 as [|p files Hs IH Hall]; [done|]. destruct files as [|q files]; [done|]. cbn [no_adjacent_overlap] in *. rewrite IH, andb_true_r.
  apply Forall_cons in Hall as [Hpq _]. apply Z.ltb_lt. exact Hpq.
Qed.

(** The files of a level of the new version. *)
Definition new_level (h : file_heap) (ls : LevelState) (b : list Z) : list Z :=
  kept h (deleted_files ls) (merge_list h b (added_files ls)).

Definition new_levels (h : file_heap) (levels : list LevelState) (base : list (list Z)) : list (list Z) :=
  zip_with (new_level h) levels base.

Lemma new_level_meta h h' ls b : same_metas h h' -> new_level h' ls b = new_level h ls b.
Proof. intros Hs. unfold new_level. by rewrite (merge_list_meta h h'), (kept_meta h h'). Qed.

Lemma save_levels_ok init levels : forall base extra level h,
  length base = length levels -> length extra = length levels -> 0 <= level ->
  (forall i ls b, levels !! i = Some ls -> base !! i = Some b -> 0 < level + Z.of_nat i -> StronglySorted (before_file h) (new_level h ls b)) ->
  exists extra', save_levels init level levels base h extra
    = Some (fold_left ref_file (concat (new_levels h levels base)) h, new_levels h levels base, extra') /\ length extra' = length levels.
Proof.
  induction levels as [|ls levels IH]; intros [|b base] [|x extra] level h Hb He Hl Hdis; try done; cbn [save_levels].
  { by exists []. }
  injection Hb as Hb. injection He as He. rewrite merge_files_flat.
  pose proof (Hdis 0%nat ls b eq_refl eq_refl) as H0. rewrite Z.add_0_r in H0. cbn [fst].
  rewrite add_files_ok by done. cbn [mbind option_bind app]. fold (new_level h ls b).
  set (h1 := fold_left ref_file (new_level h ls b) h). pose proof (same_metas_ref h (new_level h ls b)) as Hm. fold h1 in Hm.
  assert (Hchk : (negb (level =? 0) && negb (no_adjacent_overlap h1 (new_level h ls b))) = false).
  { destruct (Z.eqb_spec level 0) as [->|Hne]; [done|]. cbn. rewrite no_adjacent_ok; [done|].
    apply (strongly_sorted_mono (before_file h)); [intros p q; unfold before_file; by rewrite !Hm|]. apply H0. lia. }
  rewrite Hchk. assert (Hsame : new_levels h1 levels base = new_levels h levels base).
  { unfold new_levels. clear -Hm. revert base. induction levels as [|l levels IH]; intros [|b' base]; [done..|]. cbn. by rewrite IH, (new_level_meta h h1). }
  destruct (IH base extra (level + 1) h1) as (extra' & Hs & Hlen); [done|done|lia| |].
  { intros i ls' b' Hi Hb' Hpos. rewrite (new_level_meta h h1) by done.
    apply (strongly_sorted_mono (before_file h)); [intros p q; unfold before_file; by rewrite !Hm|]. apply (Hdis (S i)); [done|done|lia]. }
  rewrite Hs. cbn [mbind option_bind]. rewrite Hsame. exists (add_extra h1 init (added_files ls) x :: extra').
  split; [|cbn; by rewrite Hlen]. cbn [new_levels zip_with concat]. by rewrite fold_left_app.
Qed.

Lemma SaveTo_ok init levels base extra h :
  length base = length levels -> length extra = length levels ->
  (forall i ls b, levels !! i = Some ls -> base !! i = Some b -> (0 < i)%nat -> StronglySorted (before_file h) (new_level h ls b)) ->
  exists extra', SaveTo init levels base h extra
    = Some (fold_left ref_file (concat (new_levels h levels base)) h, new_levels h levels base, extra', false) /\ length extra' = length levels.
Proof.
  intros Hb He Hdis. unfold SaveTo. destruct (save_levels_ok init levels base extra 0 h) as (extra' & -> & Hlen); [done|done|done| |by exists extra'].
  intros i ls b Hi Hb' Hpos. apply (Hdis i); [done|done|lia].
Qed.

(** *** When it aborts *)

Lemma add_files_done d level ps : forall h acc h' files, add_files d level ps (h, acc) = Some (h', files) ->
  h' = fold_left ref_file (kept h d ps) h /\ files = acc ++ kept h d ps.
Proof.
  induction ps as [|p ps IH]; intros h acc h' files; cbn [add_files]; [intros [= <- <-]; unfold kept; by rewrite filter_nil, app_nil_r|].
  unfold MaybeAddFile. unfold kept. rewrite filter_cons. case_bool_decide as Hd; cbn [mbind option_bind].
  { rewrite decide_False by (intros Hn; by apply Hn). apply IH. }
  rewrite decide_True by done. case_match; [done|]. cbn [mbind option_bind]. intros [-> ->]%IH. pose proof (same_metas_ref h [p]) as Hm. cbn in Hm.
  rewrite (kept_meta h) by done. by rewrite <- app_assoc.
Qed.

Lemma no_adjacent_meta h h' files : same_metas h h' -> no_adjacent_overlap h' files = no_adjacent_overlap h files.
Proof.
  intros Hm. induction files as [|p files IH]; [done|]. destruct files as [|q files]; [done|]. cbn [no_adjacent_overlap] in *. rewrite IH.
  pose proof (Hm p) as Ep. pose proof (Hm q) as Eq. unfold fmeta, meta in Ep, Eq. injection Ep as _ _ _ ->. injection Eq as _ _ -> _. done.
Qed.

(** A level above 0 that was saved passed the check. *)
Lemma save_levels_done init levels : forall base extra level h r, save_levels init level levels base h extra = Some r -> length extra = length levels -> 0 <= level ->
  forall i ls b, levels !! i = Some ls -> base !! i = Some b -> 0 < level + Z.of_nat i -> no_adjacent_overlap h (new_level h ls b) = true.
Proof.
  induction levels as [|l levels IH]; intros [|b0 base] [|x extra] level h r Hs He Hl i ls b Hi Hb Hpos; try done. cbn [save_levels] in Hs. rewrite merge_files_flat in Hs. cbn [fst] in Hs.
  apply bind_Some in Hs as ([h1 files] & Hadd & Hs). apply add_files_done in Hadd as [-> ->]. fold (new_level h l b0) in Hs. cbn [app] in Hs. pose proof (same_metas_ref h (new_level h l b0)) as Hm.
  destruct (negb (level =? 0) && _) eqn:Hchk; [done|]. apply bind_Some in Hs as ([[h2 rest] extra2] & Hs & _). destruct i as [|i].
  - injection Hi as <-. injection Hb as <-. apply andb_false_iff in Hchk as [Hz|Hc%negb_false_iff]; [apply negb_false_iff, Z.eqb_eq in Hz; lia|]. by rewrite (no_adjacent_meta h) in Hc.
  - injection He as He. specialize (IH base extra (level + 1) _ _ Hs He ltac:(lia) i ls b Hi Hb ltac:(lia)). by rewrite (no_adjacent_meta h), (new_level_meta h) in IH.
Qed.

(** ** What the builder has collected *)

(** No two files of the list overlap. *)
Definition pairwise_disjoint (l : list file_meta) : Prop :=
  forall a b, a ∈ l -> b ∈ l -> a <> b ->
    internal_compare (mlarge a) (msmall b) < 0 \/ internal_compare (mlarge b) (msmall a) < 0.

(** One level: [B] are the files of the base version, [A] those added so far and
    [S] those that stay. *)
Record level_rep (h : file_heap) (ls : LevelState) (B A S : list file_meta) : Prop := {
  lr_ok : Forall meta_ok (B ++ A);
  lr_nodup : NoDup (nums (B ++ A));
  lr_sorted : StronglySorted lt_file (fmeta h <$> added_files ls);
  lr_added : fmeta h <$> added_files ls ≡ₚ A;
  lr_stay : S ≡ₚ base.filter (fun m => mnum m ∉ deleted_files ls) (B ++ A)
}.

(** The effect of an edit on the files of a level. *)
Definition edit_deletes (e : VersionEdit) (l : nat) : list Z :=
  snd <$> base.filter (fun d => Z.to_nat d.1 = l) (deleted_files_ e).

Definition edit_adds (e : VersionEdit) (l : nat) : list file_meta :=
  (fun x => meta x.2) <$> base.filter (fun x => Z.to_nat x.1 = l) (new_files_ e).

Definition apply_edit (S : nat -> list file_meta) (e : VersionEdit) (l : nat) : list file_meta :=
  base.filter (fun m => mnum m ∉ edit_deletes e l) (S l) ++ edit_adds e l.

Lemma num_insert_elem n m l : m ∈ num_insert n l <-> m = n \/ m ∈ l.
Proof. unfold num_insert. case_bool_decide; rewrite ?elem_of_cons; naive_solver. Qed.

Lemma num_erase_elem n m l : m ∈ num_erase n l <-> m <> n /\ m ∈ l.
Proof. unfold num_erase. by rewrite list_elem_of_filter. Qed.

Lemma level_delete h ls B A S n : level_rep h ls B A S ->
  level_rep h (MkLevel (num_insert n (deleted_files ls)) (added_files ls)) B A (base.filter (fun m => mnum m <> n) S).
Proof.
  intros [H1 H2 H3 H4 H5]. split; try done. cbn [deleted_files]. rewrite H5, list_filter_filter. apply Permutation_refl', filter_ext_in.
  intros m _. rewrite num_insert_elem. naive_solver.
Qed.

Lemma level_add h ls B A S p : level_rep h ls B A S -> meta_ok (fmeta h p) -> mnum (fmeta h p) ∉ nums (B ++ A) ->
  level_rep h (MkLevel (num_erase (mnum (fmeta h p)) (deleted_files ls)) (FileSet_insert h p (added_files ls))) B (A ++ [fmeta h p]) (S ++ [fmeta h p]) /\
  FileSet_insert h p (added_files ls) ≡ₚ p :: added_files ls.
Proof.
  intros [H1 H2 H3 H4 H5] Hp Hn. set (m := fmeta h p) in *. apply Forall_app in H1 as [HB HA].
  destruct (FileSet_insert_ok h p (added_files ls)) as [Hperm Hsort].
  { apply Forall_cons. split; [done|]. by rewrite H4. }
  { done. }
  { rewrite H4. intros Hin. apply Hn. rewrite fmap_app. apply elem_of_app. by right. }
  split; [|done]. split.
  - rewrite app_assoc. apply Forall_app. split; [by apply Forall_app|]. by apply Forall_singleton.
  - rewrite app_assoc, fmap_app. apply NoDup_app. split; [done|]. split; [|apply NoDup_singleton]. intros x Hx Hx'. apply list_elem_of_singleton in Hx' as ->. done.
  - done.
  - cbn [added_files]. rewrite Hperm, fmap_cons, H4. fold m. by rewrite Permutation_app_comm.
  - cbn [deleted_files]. rewrite app_assoc, filter_app. rewrite filter_cons_True, filter_nil by (rewrite num_erase_elem; naive_solver).
    apply Permutation_app; [|done]. rewrite H5. apply Permutation_refl', filter_ext_in. intros x Hx. rewrite num_erase_elem.
    assert (mnum x <> mnum m); [|naive_solver]. intros E. apply Hn. rewrite <- E. by apply (list_elem_of_fmap_2 (fun m : file_meta => mnum m)).
Qed.

Record builder_ok (s : Store) (levels : list LevelState) (others : list Z) (B A S : nat -> list file_meta) : Prop := {
  bo_length : length levels = Z.to_nat kNumLevels;
  bo_refs : refs_ok (st_files s) (concat (added_files <$> levels) ++ others);
  bo_fresh : forall p, is_Some (st_files s !! p) -> p < st_next s;
  bo_levels : forall l ls, levels !! l = Some ls -> level_rep (st_files s) ls (B l) (A l) (S l)
}.

Lemma level_rep_perm h ls B A S S' : level_rep h ls B A S -> S' ≡ₚ S -> level_rep h ls B A S'.
Proof. intros [H1 H2 H3 H4 H5] Hp. split; try done. by rewrite Hp. Qed.

Lemma level_rep_heap h h' ls B A S : level_rep h ls B A S -> (forall p, p ∈ added_files ls -> fmeta h' p = fmeta h p) -> level_rep h' ls B A S.
Proof.
  intros [H1 H2 H3 H4 H5] Hm. assert (E : fmeta h' <$> added_files ls = fmeta h <$> added_files ls).
  { apply list_fmap_ext. intros i p Hp. apply Hm. by eapply list_elem_of_lookup_2. }
  split; rewrite ?E; done.
Qed.

Lemma concat_alter (f : LevelState -> LevelState) l levels ls p : levels !! l = Some ls -> added_files (f ls) ≡ₚ p :: added_files ls ->
  concat (added_files <$> alter f l levels) ≡ₚ p :: concat (added_files <$> levels).
Proof.
  revert l. induction levels as [|x levels IH]; intros [|l] Hl Hp; [done..| |]; cbn in *.
  - injection Hl as ->. by rewrite Hp.
  - rewrite (IH l Hl Hp). by rewrite Permutation_middle.
Qed.

Lemma apply_deletes_ok s others B A ds : forall levels S, builder_ok s levels others B A S ->
  builder_ok s (fold_left apply_delete ds levels) others B A
    (fun l => base.filter (fun m => mnum m ∉ (snd <$> base.filter (fun d => Z.to_nat d.1 = l) ds)) (S l)).
Proof.
  induction ds as [|d ds IH]; intros levels S [H1 H2 H3 H4]; cbn [fold_left].
  { split; try done. intros l ls Hl. eapply level_rep_perm; [by apply H4|]. rewrite filter_nil. cbn. rewrite filter_keep; [done|].
    by intros m _ ?%not_elem_of_nil. }
  assert (Hstep : builder_ok s (apply_delete levels d) others B A (fun l => if decide (Z.to_nat d.1 = l) then base.filter (fun m => mnum m <> d.2) (S l) else S l)).
  { unfold apply_delete. split.
    - by rewrite length_alter.
    - assert (E : added_files <$> alter (fun l => MkLevel (num_insert d.2 (deleted_files l)) (added_files l)) (Z.to_nat d.1) levels = added_files <$> levels); [|by rewrite E].
      apply list_eq. intros i. rewrite !list_lookup_fmap. destruct (decide (i = Z.to_nat d.1)) as [->|Hne]; [rewrite list_lookup_alter_eq|by rewrite list_lookup_alter_ne].
      by destruct (levels !! _).
    - done.
    - intros l ls Hl. case_decide as E.
      + subst l. rewrite list_lookup_alter_eq in Hl. destruct (levels !! Z.to_nat d.1) as [ls0|] eqn:Hl0; [|done]. injection Hl as <-.
        apply level_delete. by apply H4.
      + rewrite list_lookup_alter_ne in Hl by done. by apply H4. }
  destruct (IH _ _ Hstep) as [I1 I2 I3 I4]. split; try done. intros l ls Hl. eapply level_rep_perm; [by apply I4|].
  rewrite filter_cons. case_decide as E; [|done]. rewrite list_filter_filter. apply Permutation_refl', filter_ext_in. intros m _.
  rewrite fmap_cons, not_elem_of_cons. naive_solver.
Qed.

Definition new_file_ok (x : Z * FileMetaData) : Prop := 0 <= x.1 < kNumLevels /\ meta_ok (meta x.2).

Definition adds_at (l : nat) (xs : list (Z * FileMetaData)) : list file_meta :=
  (fun x => meta x.2) <$> base.filter (fun x => Z.to_nat x.1 = l) xs.

Lemma adds_at_cons l x xs : adds_at l (x :: xs) = (if decide (Z.to_nat x.1 = l) then [meta x.2] else []) ++ adds_at l xs.
Proof. unfold adds_at. rewrite filter_cons. by case_decide. Qed.

Lemma adds_at_app l xs ys : adds_at l (xs ++ ys) = adds_at l xs ++ adds_at l ys.
Proof. unfold adds_at. by rewrite filter_app, fmap_app. Qed.

(** Allocation leaves the other files alone. *)
Lemma new_file_meta s f p : p <> st_next s -> fmeta (st_files (new_file s f).2) p = fmeta (st_files s) p.
Proof. intros Hne. unfold fmeta, fm. cbn. by rewrite lookup_insert_ne. Qed.

Lemma apply_add_ok s levels others B A S x : builder_ok s levels others B A S -> new_file_ok x ->
  mnum (meta x.2) ∉ nums (B (Z.to_nat x.1) ++ A (Z.to_nat x.1)) ->
  exists s' levels', apply_add (s, levels) x = (s', levels') /\
    builder_ok s' levels' others B (fun l => A l ++ adds_at l [x]) (fun l => S l ++ adds_at l [x]) /\
    (forall p, p < st_next s -> st_files s' !! p = st_files s !! p) /\ st_next s < st_next s'.
Proof.
  intros [H1 H2 H3 H4] [Hlev Hok] Hn. unfold apply_add. cbn [fst snd].
  set (f := MkFile 1 _ _ _ _ _ _). destruct (new_file s f) as [p s'] eqn:Enew. exists s'. eexists. split; [done|].
  assert (Hp : p = st_next s) by (unfold new_file in Enew; congruence). subst p. assert (Hs' : s' = (new_file s f).2) by (by rewrite Enew).
  assert (Hnone : st_files s !! st_next s = None). { destruct (st_files s !! st_next s) as [g|] eqn:E; [|done]. pose proof (H3 (st_next s) ltac:(by eexists)). lia. }
  assert (Hmp : fmeta (st_files s') (st_next s) = meta x.2). { subst s'. unfold fmeta, fm. cbn. by rewrite lookup_insert_eq. }
  assert (Hold : forall l ls, levels !! l = Some ls -> level_rep (st_files s') ls (B l) (A l) (S l)).
  { intros l ls Hl. apply (level_rep_heap (st_files s)); [by apply H4|]. intros q Hq. rewrite Hs'. apply new_file_meta. intros ->.
    specialize (H2 (st_next s)). rewrite Hnone in H2. apply H2, elem_of_app. left. apply elem_of_concat. exists (added_files ls).
    split; [|done]. apply list_elem_of_fmap_2. by eapply list_elem_of_lookup_2. }
  destruct (lookup_lt_is_Some_2 levels (Z.to_nat x.1)) as [ls Hls]; [rewrite H1; lia|].
  destruct (level_add (st_files s') ls (B (Z.to_nat x.1)) (A (Z.to_nat x.1)) (S (Z.to_nat x.1)) (st_next s)) as [Hadd Hperm];
    [by apply Hold|by rewrite Hmp|by rewrite Hmp|]. rewrite Hmp in Hadd. change (mnum (meta x.2)) with (number f) in Hadd.
  split; [|split; [|by rewrite Hs'; cbn; lia]].
  - split.
    + by rewrite length_alter.
    + rewrite (concat_alter _ _ _ ls (st_next s)) by done. cbn [app]. rewrite Hs'. by apply new_file_refs.
    + intros q Hq. rewrite Hs' in Hq |- *. cbn in *. destruct (decide (q = st_next s)) as [->|Hne]; [lia|]. rewrite lookup_insert_ne in Hq by done.
      specialize (H3 q Hq). lia.
    + intros l ls' Hl. rewrite adds_at_cons. unfold adds_at. rewrite filter_nil, app_nil_r. case_decide as E.
      * subst l. rewrite list_lookup_alter_eq, Hls in Hl. injection Hl as <-. done.
      * rewrite list_lookup_alter_ne in Hl by done. cbn. rewrite !app_nil_r. by apply Hold.
  - intros q Hq. rewrite Hs'. cbn. rewrite lookup_insert_ne by lia. done.
Qed.

Lemma builder_ok_ext s levels others B A A' S S' : builder_ok s levels others B A S ->
  (forall l, A' l = A l) -> (forall l, S' l ≡ₚ S l) -> builder_ok s levels others B A' S'.
Proof.
  intros [H1 H2 H3 H4] HA HS. split; try done. intros l ls Hl. rewrite HA. eapply level_rep_perm; [by apply H4|done].
Qed.

Lemma apply_adds_ok others B xs : forall s levels A S, builder_ok s levels others B A S -> Forall new_file_ok xs ->
  (forall l, NoDup (nums (B l ++ A l ++ adds_at l xs))) ->
  exists s' levels', fold_left apply_add xs (s, levels) = (s', levels') /\
    builder_ok s' levels' others B (fun l => A l ++ adds_at l xs) (fun l => S l ++ adds_at l xs) /\
    (forall p, p < st_next s -> st_files s' !! p = st_files s !! p) /\ st_next s <= st_next s'.
Proof.
  induction xs as [|x xs IH]; intros s levels A S Hb Hok Hnd.
  { exists s, levels. split_and!; [done| |done|lia]. eapply builder_ok_ext; [done|..]; intros l; by rewrite app_nil_r. }
  apply Forall_cons in Hok as [Hx Hok]. cbn [fold_left].
  destruct (apply_add_ok s levels others B A S x Hb Hx) as (s1 & levels1 & -> & Hb1 & Hp1 & Hn1).
  { specialize (Hnd (Z.to_nat x.1)). rewrite adds_at_cons, decide_True, app_assoc, fmap_app in Hnd by done.
    apply NoDup_app in Hnd as (_ & Hd & _). intros Hin. apply (Hd _ Hin). rewrite fmap_app. apply elem_of_app. left. by left. }
  destruct (IH s1 levels1 _ _ Hb1 Hok) as (s' & levels' & -> & Hb' & Hp' & Hn').
  { intros l. specialize (Hnd l). rewrite adds_at_cons in Hnd. rewrite <- app_assoc, adds_at_cons. unfold adds_at at 1. by rewrite filter_nil, app_nil_r. }
  exists s', levels'. split_and!; [done| | |lia].
  - eapply builder_ok_ext; [done|..]; intros l; cbn beta; by rewrite (adds_at_app l [x] xs : adds_at l (x :: xs) = _), app_assoc.
  - intros p Hp. rewrite Hp' by lia. by apply Hp1.
Qed.

(** An edit is applied as its effect says. *)
Lemma Apply_ok cp s levels others B A S e : builder_ok s levels others B A S -> Forall new_file_ok (new_files_ e) ->
  (forall l, NoDup (nums (B l ++ A l ++ edit_adds e l))) ->
  exists cp' s' levels', Apply cp s levels e = (cp', s', levels') /\
    builder_ok s' levels' others B (fun l => A l ++ edit_adds e l) (apply_edit S e) /\
    (forall p, p < st_next s -> st_files s' !! p = st_files s !! p) /\ st_next s <= st_next s'.
Proof.
  intros Hb Hok Hnd. unfold Apply. pose proof (apply_deletes_ok s others B A (deleted_files_ e) levels S Hb) as Hd.
  destruct (apply_adds_ok others B (new_files_ e) s _ A _ Hd Hok Hnd) as (s' & levels' & -> & Hb' & Hp & Hn).
  eexists _, s', levels'. split_and!; [done|exact Hb'|done|done].
Qed.

(** The start of a builder. *)
Lemma builder_start s others B : refs_ok (st_files s) others -> (forall p, is_Some (st_files s !! p) -> p < st_next s) ->
  (forall l, Forall meta_ok (B l) /\ NoDup (nums (B l))) ->
  builder_ok s (replicate (Z.to_nat kNumLevels) LevelState_new) others B (fun _ => []) B.
Proof.
  intros Hr Hf HB. split; [apply length_replicate| |done|].
  - assert (E : concat (added_files <$> replicate (Z.to_nat kNumLevels) LevelState_new) = []) by reflexivity. by rewrite E.
  - intros l ls Hl. apply lookup_replicate in Hl as [-> _]. destruct (HB l). split; rewrite ?app_nil_r; try done; [constructor|].
    cbn. rewrite filter_keep; [done|]. by intros m _ ?%not_elem_of_nil.
Qed.

Lemma sorted_disjoint l : Forall meta_ok l -> StronglySorted lt_file l -> pairwise_disjoint l ->
  StronglySorted (fun a b => internal_compare (mlarge a) (msmall b) < 0) l.
Proof.
  intros Hok Hs Hd. induction Hs as [|a l Hs IH Hall]; [constructor|]. apply Forall_cons in Hok as [Ha Hok]. constructor.
  { apply IH; [done|]. intros x y Hx Hy. apply Hd; by right. }
  rewrite Forall_forall in *. intros b Hb. specialize (Hall b Hb). pose proof (Hok b Hb) as Hbo. destruct (Hd a b) as [?|Hlt]; [by left|by right| |done|].
  { intros <-. by apply (lt_file_irrefl a). }
  exfalso. destruct Hbo as (Hs1 & Hl1 & Hle). destruct Ha as (Hs2 & _ & _).
  pose proof (internal_le_lt (msmall b) (mlarge b) (msmall a) ltac:(by apply internal_key_ok_valid) ltac:(by apply internal_key_ok_valid) ltac:(by apply internal_key_ok_valid) Hle Hlt) as Hba.
  pose proof (cmp_sgn_opp (C := InternalKeyComparator) (msmall b) (msmall a) ltac:(by apply internal_key_ok_valid) ltac:(by apply internal_key_ok_valid)) as Hop. simpl in Hop.
  destruct Hall as [?|[? _]]; lia.
Qed.

Lemma strongly_sorted_filter {A} (R : A -> A -> Prop) (P : A -> Prop) `{!forall x, Decision (P x)} (l : list A) : StronglySorted R l -> StronglySorted R (base.filter P l).
Proof.
  induction 1 as [|a l Hs IH Hall]; [constructor|]. rewrite filter_cons. case_decide; [|done]. constructor; [done|].
  rewrite Forall_forall in *. intros b Hb. apply list_elem_of_filter in Hb as [_ Hb]. auto.
Qed.

Lemma strongly_sorted_fmap {A D} (R : D -> D -> Prop) (f : A -> D) (l : list A) : StronglySorted R (f <$> l) <-> StronglySorted (fun a b => R (f a) (f b)) l.
Proof.
  induction l as [|a l IH]; [split; constructor|]. rewrite fmap_cons. split; intros [H1 H2]%StronglySorted_inv; constructor; try (by apply IH).
  - exact (proj1 (Forall_fmap _ _ _) H2).
  - exact (proj2 (Forall_fmap _ _ _) H2).
Qed.

Lemma filter_fmap_meta h d ps : fmeta h <$> kept h d ps = base.filter (fun m => mnum m ∉ d) (fmeta h <$> ps).
Proof.
  unfold kept. induction ps as [|p ps IH]; [done|]. rewrite fmap_cons, !filter_cons. case_decide; [rewrite fmap_cons; by f_equal|done].
Qed.

(** A level of the new version: the files that stay, sorted. *)
Lemma new_level_ok h ls b B A S : level_rep h ls B A S -> fmeta h <$> b = B -> StronglySorted lt_file B ->
  StronglySorted lt_file (fmeta h <$> new_level h ls b) /\ fmeta h <$> new_level h ls b ≡ₚ S /\
  (forall p, p ∈ new_level h ls b -> p ∈ b ++ added_files ls) /\
  (pairwise_disjoint S -> StronglySorted (before_file h) (new_level h ls b)).
Proof.
  intros [H1 H2 H3 H4 H5] HB Hs.
  destruct (merge_list_ok h (added_files ls) b) as [Hperm Hsort].
  { by rewrite fmap_app, H4, HB. }
  { by rewrite HB. }
  { done. }
  { by rewrite fmap_app, H4, HB. }
  assert (Hsorted : StronglySorted lt_file (fmeta h <$> new_level h ls b)) by (unfold new_level; rewrite filter_fmap_meta; by apply strongly_sorted_filter).
  assert (HpS : fmeta h <$> new_level h ls b ≡ₚ S) by (unfold new_level; by rewrite filter_fmap_meta, Hperm, fmap_app, H4, HB, H5).
  split_and!; [done|done| |].
  - intros p Hp. unfold new_level, kept in Hp. apply list_elem_of_filter in Hp as [_ Hp]. by rewrite Hperm in Hp.
  - intros Hd. change (StronglySorted (fun p q => (fun a b => internal_compare (mlarge a) (msmall b) < 0) (fmeta h p) (fmeta h q)) (new_level h ls b)).
    apply strongly_sorted_fmap. apply sorted_disjoint; [|done|].
    + rewrite HpS, H5. apply Forall_forall. intros m Hm. apply list_elem_of_filter in Hm as [_ Hm]. rewrite Forall_forall in H1. by apply H1.
    + intros x y Hx Hy. apply Hd; by rewrite <- HpS.
Qed.

(** ** A builder from beginning to end *)

Fixpoint apply_all (cp : list bytes) (s : Store) (levels : list LevelState) (edits : list VersionEdit)
    : list bytes * Store * list LevelState :=
  match edits with
  | [] => (cp, s, levels)
  | e :: edits => let '(cp, s, levels) := Apply cp s levels e in apply_all cp s levels edits
  end.

(** The compaction pointers after the edits. *)
Definition apply_pointers (cp : list bytes) (edits : list VersionEdit) : list bytes :=
  fold_left (fun cp e => fold_left apply_pointer (compact_pointers_ e) cp) edits cp.

Lemma apply_all_pointers edits : forall cp s levels, (apply_all cp s levels edits).1.1 = apply_pointers cp edits.
Proof.
  induction edits as [|e edits IH]; intros cp s levels; [done|]. cbn [apply_all]. unfold Apply. destruct (fold_left apply_add _ _). by rewrite IH.
Qed.

(** The constructor, an [Apply] for each edit, [SaveTo] and the destructor; the
    reference to the base version is the caller's. *)
Definition build (init : bool) (cp : list bytes) (s : Store) (base : list (list Z)) (extra : list (gmap Z FileExtraMetaData))
    (edits : list VersionEdit) : option (list bytes * Store * list (list Z) * list (gmap Z FileExtraMetaData) * bool) :=
  let '(cp, s, levels) := apply_all cp s (replicate (Z.to_nat kNumLevels) LevelState_new) edits in
  '(h, files, extra, init) ← SaveTo init levels base (st_files s) extra;
  Some (cp, MkStore (drop_added levels h) (st_next s), files, extra, init).

Definition level_files (files : list (list Z)) (l : nat) : list Z := default [] (files !! l).

(** The files of a level, without their counts. *)
Definition level_metas (h : file_heap) (files : list (list Z)) (l : nat) : list file_meta := fmeta h <$> level_files files l.

Definition adds_of (edits : list VersionEdit) (l : nat) : list file_meta := concat ((fun e => edit_adds e l) <$> edits).

Definition apply_edits (B : nat -> list file_meta) (edits : list VersionEdit) : nat -> list file_meta := fold_left apply_edit edits B.

Definition edit_files_ok (e : VersionEdit) : Prop := Forall new_file_ok (new_files_ e).

(** A store whose files are referred to by [owners], with fresh addresses from
    [st_next] on. *)
Record store_ok (s : Store) (owners : list Z) : Prop := {
  so_refs : refs_ok (st_files s) owners;
  so_fresh : forall p, is_Some (st_files s !! p) -> p < st_next s
}.

#[export] Instance store_ok_perm : Proper (eq ==> (≡ₚ) ==> iff) store_ok.
Proof. intros s ? <- l l' Hl. split; intros [H1 H2]; split; try done; [by rewrite <- Hl|by rewrite Hl]. Qed.

(** The levels of a version: proper key ranges, sorted, one file per number. *)
Record levels_ok (h : file_heap) (files : list (list Z)) : Prop := {
  lo_length : length files = Z.to_nat kNumLevels;
  lo_metas : forall l, Forall meta_ok (level_metas h files l);
  lo_nodup : forall l, NoDup (nums (level_metas h files l));
  lo_sorted : forall l, StronglySorted lt_file (level_metas h files l);
  lo_disjoint : forall l, (0 < l)%nat -> StronglySorted (fun a b => internal_compare (mlarge a) (msmall b) < 0) (level_metas h files l)
}.

Lemma apply_all_ok others B edits : forall cp s levels A S, builder_ok s levels others B A S -> Forall edit_files_ok edits ->
  (forall l, NoDup (nums (B l ++ A l ++ adds_of edits l))) ->
  exists cp' s' levels', apply_all cp s levels edits = (cp', s', levels') /\
    builder_ok s' levels' others B (fun l => A l ++ adds_of edits l) (apply_edits S edits) /\
    (forall p, p < st_next s -> st_files s' !! p = st_files s !! p) /\ st_next s <= st_next s'.
Proof.
  induction edits as [|e edits IH]; intros cp s levels A S Hb Hok Hnd.
  { exists cp, s, levels. split_and!; [done| |done|lia]. eapply builder_ok_ext; [done|..]; intros l; [apply app_nil_r|done]. }
  apply Forall_cons in Hok as [He Hok]. cbn [apply_all].
  assert (Hadd : forall l, adds_of (e :: edits) l = edit_adds e l ++ adds_of edits l) by done.
  destruct (Apply_ok cp s levels others B A S e Hb He) as (cp1 & s1 & levels1 & -> & Hb1 & Hp1 & Hn1).
  { intros l. specialize (Hnd l). rewrite Hadd, !app_assoc, fmap_app in Hnd. apply NoDup_app in Hnd as (Hnd & _). by rewrite <- app_assoc in Hnd. }
  destruct (IH cp1 s1 levels1 _ _ Hb1 Hok) as (cp' & s' & levels' & -> & Hb' & Hp' & Hn').
  { intros l. specialize (Hnd l). by rewrite Hadd, (app_assoc (A l)) in Hnd. }
  exists cp', s', levels'. split_and!; [done| | |lia].
  - eapply builder_ok_ext; [done|..]; intros l; [by rewrite Hadd, app_assoc|done].
  - intros p Hp. rewrite Hp' by lia. by apply Hp1.
Qed.

Lemma fmeta_eq h h' p : h' !! p = h !! p -> fmeta h' p = fmeta h p.
Proof. intros E. unfold fmeta, fm. by rewrite E. Qed.

Lemma level_files_in files l p : p ∈ level_files files l -> p ∈ concat files.
Proof.
  unfold level_files. destruct (files !! l) as [ps|] eqn:E; cbn; [|by intros ?%not_elem_of_nil]. intros Hp.
  apply elem_of_concat. exists ps. split; [by eapply list_elem_of_lookup_2|done].
Qed.

Lemma level_metas_ext h h' files l : (forall p, p ∈ concat files -> fmeta h' p = fmeta h p) -> level_metas h' files l = level_metas h files l.
Proof. intros Hm. apply list_fmap_ext. intros i p Hp. apply Hm, (level_files_in files l). by eapply list_elem_of_lookup_2. Qed.

Lemma store_lt s owners p : store_ok s owners -> p ∈ owners -> p < st_next s.
Proof. intros [Hr Hf] Hp. apply Hf. destruct (refs_ok_lookup _ _ _ Hr Hp) as (f & -> & _). by eexists. Qed.

Lemma nums_nodup_filter (P : file_meta -> Prop) `{!forall x, Decision (P x)} (l : list file_meta) : NoDup (nums l) -> NoDup (nums (base.filter P l)).
Proof.
  induction l as [|m l IH]; [done|]. rewrite fmap_cons, filter_cons, NoDup_cons. intros [Hm Hnd]. case_decide; [|by apply IH].
  rewrite fmap_cons, NoDup_cons. split; [|by apply IH]. intros Hin. apply Hm. apply list_elem_of_fmap in Hin as (x & -> & Hx).
  apply list_elem_of_filter in Hx as [_ Hx]. by apply (list_elem_of_fmap_2 (fun m : file_meta => mnum m)).
Qed.

(** The levels [SaveTo] makes of what the builder has collected. *)
Lemma new_levels_ok s levels others base A S :
  builder_ok s levels others (level_metas (st_files s) base) A S -> levels_ok (st_files s) base ->
  (forall l, (0 < l)%nat -> pairwise_disjoint (S l)) ->
  levels_ok (st_files s) (new_levels (st_files s) levels base) /\
  (forall l, (l < Z.to_nat kNumLevels)%nat -> level_metas (st_files s) (new_levels (st_files s) levels base) l ≡ₚ S l) /\
  (forall p, p ∈ concat (new_levels (st_files s) levels base) -> p ∈ concat base ++ concat (added_files <$> levels)) /\
  (forall i ls b, levels !! i = Some ls -> base !! i = Some b -> (0 < i)%nat -> StronglySorted (before_file (st_files s)) (new_level (st_files s) ls b)).
Proof.
  intros [H1 H2 H3 H4] [B1 B2 B3 B4 B5] Hd. set (h := st_files s) in *.
  assert (Hlev : forall l ls b, levels !! l = Some ls -> base !! l = Some b ->
    StronglySorted lt_file (fmeta h <$> new_level h ls b) /\ fmeta h <$> new_level h ls b ≡ₚ S l /\
    (forall p, p ∈ new_level h ls b -> p ∈ b ++ added_files ls) /\
    (pairwise_disjoint (S l) -> StronglySorted (before_file h) (new_level h ls b))).
  { intros l ls b Hls Hb. specialize (B4 l). specialize (H4 l ls Hls). unfold level_metas, level_files in B4, H4. rewrite Hb in B4, H4.
    by apply (new_level_ok h ls b _ (A l) (S l) H4). }
  assert (Hat : forall l, level_metas h (new_levels h levels base) l = [] \/
    exists ls b, levels !! l = Some ls /\ base !! l = Some b /\ level_metas h (new_levels h levels base) l = fmeta h <$> new_level h ls b).
  { intros l. unfold level_metas, level_files, new_levels. rewrite lookup_zip_with.
    destruct (levels !! l) as [ls|]; [|by left]. destruct (base !! l) as [b|]; [|by left]. right. by exists ls, b. }
  assert (HS : forall l ls b, levels !! l = Some ls -> base !! l = Some b -> Forall meta_ok (S l) /\ NoDup (nums (S l))).
  { intros l ls b Hls Hb. destruct (H4 l ls Hls) as [R1 R2 _ _ R5]. rewrite R5. split; [|by apply nums_nodup_filter].
    rewrite Forall_forall in R1 |- *. intros m Hm. apply list_elem_of_filter in Hm as [_ Hm]. by apply R1. }
  split_and!.
  - split.
    + unfold new_levels. rewrite length_zip_with. lia.
    + intros l. destruct (Hat l) as [->|(ls & b & Hls & Hb & ->)]; [constructor|]. destruct (Hlev l ls b Hls Hb) as (_ & -> & _). by eapply HS.
    + intros l. destruct (Hat l) as [->|(ls & b & Hls & Hb & ->)]; [constructor|]. destruct (Hlev l ls b Hls Hb) as (_ & -> & _). by eapply HS.
    + intros l. destruct (Hat l) as [->|(ls & b & Hls & Hb & ->)]; [constructor|]. by apply (Hlev l ls b Hls Hb).
    + intros l Hl. destruct (Hat l) as [->|(ls & b & Hls & Hb & ->)]; [constructor|]. apply strongly_sorted_fmap.
      destruct (Hlev l ls b Hls Hb) as (_ & _ & _ & Hdis). apply Hdis, Hd, Hl.
  - intros l Hl. destruct (lookup_lt_is_Some_2 levels l) as [ls Hls]; [lia|]. destruct (lookup_lt_is_Some_2 base l) as [b Hb]; [lia|].
    unfold level_metas, level_files, new_levels. rewrite lookup_zip_with, Hls, Hb. cbn. by apply (Hlev l ls b Hls Hb).
  - intros p Hp. apply elem_of_concat in Hp as (ps & Hps & Hp). apply list_elem_of_lookup in Hps as [l Hps].
    unfold new_levels in Hps. apply lookup_zip_with_Some in Hps as (ls & b & -> & Hls & Hb). destruct (Hlev l ls b Hls Hb) as (_ & _ & Hin & _).
    specialize (Hin p Hp). apply elem_of_app in Hin as [Hin|Hin]; apply elem_of_app; [left|right]; apply elem_of_concat; eexists; split; try exact Hin.
    + by eapply list_elem_of_lookup_2.
    + apply list_elem_of_fmap_2. by eapply list_elem_of_lookup_2.
  - intros l ls b Hls Hb Hl. destruct (Hlev l ls b Hls Hb) as (_ & _ & _ & Hdis). by apply Hdis, Hd.
Qed.

Lemma levels_ok_ext h h' files : levels_ok h files -> (forall p, p ∈ concat files -> fmeta h' p = fmeta h p) -> levels_ok h' files.
Proof. intros [H1 H2 H3 H4 H5] Hm. split; [done|..]; intros l; rewrite (level_metas_ext h h') by done; auto. Qed.

(** [SaveTo] over a well-formed version gives a well-formed version of the files
    that stay; every file of it is counted once more. *)
Lemma save_ok init s levels owners base extra A S :
  builder_ok s levels owners (level_metas (st_files s) base) A S -> (forall p, p ∈ concat base -> p ∈ owners) ->
  levels_ok (st_files s) base -> length extra = Z.to_nat kNumLevels -> (forall l, (0 < l)%nat -> pairwise_disjoint (S l)) ->
  exists h files extra', SaveTo init levels base (st_files s) extra = Some (h, files, extra', false) /\
    length extra' = Z.to_nat kNumLevels /\ store_ok (MkStore h (st_next s)) (concat (added_files <$> levels) ++ (concat files ++ owners)) /\
    same_metas (st_files s) h /\ levels_ok h files /\
    (forall l, (l < Z.to_nat kNumLevels)%nat -> level_metas h files l ≡ₚ S l).
Proof.
  intros Hb Hbase Hlev Hex Hdis. pose proof Hb as [L1 L2 L3 _].
  destruct (new_levels_ok s levels owners base A S Hb Hlev Hdis) as (N1 & N2 & N3 & N4).
  destruct (SaveTo_ok init levels base extra (st_files s)) as (extra' & Hsave & Hex'); [destruct Hlev; congruence|congruence|done|].
  set (files := new_levels (st_files s) levels base) in *. set (h := fold_left ref_file (concat files) (st_files s)) in *.
  assert (Hm : same_metas (st_files s) h) by apply same_metas_ref.
  assert (Hin : forall p, p ∈ concat files -> p ∈ concat (added_files <$> levels) ++ owners).
  { intros p Hp. apply elem_of_app. specialize (N3 p Hp). apply elem_of_app in N3 as [?|?]; [right; auto|by left]. }
  assert (Hr : refs_ok h (concat (added_files <$> levels) ++ (concat files ++ owners))).
  { rewrite app_assoc, (Permutation_app_comm (concat (added_files <$> levels))), <- app_assoc. by apply ref_files_ok. }
  exists h, files, extra'. split_and!; [done|congruence| |done| |].
  - split; cbn [st_files st_next]; [done|]. intros p [f Hp]. specialize (Hr p). rewrite Hp in Hr. destruct Hr as [Hr _]. apply L3.
    assert (Hown : p ∈ concat (added_files <$> levels) ++ owners) by (rewrite !elem_of_app in *; specialize (Hin p); rewrite elem_of_app in Hin; tauto).
    destruct (refs_ok_lookup _ _ p L2 Hown) as (g & -> & _). by eexists.
  - apply (levels_ok_ext (st_files s)); [done|]. intros p _. apply Hm.
  - intros l Hl. rewrite (level_metas_ext (st_files s)); [by apply N2|]. intros p _. apply Hm.
Qed.

(** The destructor gives up the references of the added files. *)
Lemma drop_added_ok levels h next owners : store_ok (MkStore h next) (concat (added_files <$> levels) ++ owners) ->
  store_ok (MkStore (drop_added levels h) next) owners /\ forall p, p ∈ owners -> fmeta (drop_added levels h) p = fmeta h p.
Proof.
  intros [Hr Hf]. cbn [st_files st_next] in *. rewrite drop_added_eq. destruct (unref_files_ok _ _ _ Hr) as [Hr' Hm]. split; [|done].
  split; cbn [st_files st_next]; [done|]. intros p [f Hp]. specialize (Hr' p). rewrite Hp in Hr'. destruct Hr' as [Hin _].
  apply Hf. destruct (refs_ok_lookup _ _ p Hr) as (g & -> & _); [apply elem_of_app; by right|by eexists].
Qed.

(** What a builder has collected when all edits are applied. *)
Lemma collect_ok cp s owners base edits :
  store_ok s owners -> (forall p, p ∈ concat base -> p ∈ owners) -> levels_ok (st_files s) base -> Forall edit_files_ok edits ->
  (forall l, NoDup (nums (level_metas (st_files s) base l ++ adds_of edits l))) ->
  exists cp' s' levels, apply_all cp s (replicate (Z.to_nat kNumLevels) LevelState_new) edits = (cp', s', levels) /\
    builder_ok s' levels owners (level_metas (st_files s') base) (adds_of edits) (apply_edits (level_metas (st_files s) base) edits) /\
    levels_ok (st_files s') base /\ (forall p, p ∈ owners -> fmeta (st_files s') p = fmeta (st_files s) p) /\ st_next s <= st_next s'.
Proof.
  intros Hso Hbase Hlev Hed Hnd. pose proof Hso as [Hr Hf]. set (B := level_metas (st_files s) base) in *.
  destruct (apply_all_ok owners B edits cp s (replicate (Z.to_nat kNumLevels) LevelState_new) (fun _ => []) B) as (cp' & s1 & levels & -> & Hb & Hp & Hn);
    [|done|done|].
  { apply builder_start; [done..|]. intros l. by destruct Hlev. }
  assert (Hm1 : forall p, p ∈ owners -> fmeta (st_files s1) p = fmeta (st_files s) p).
  { intros p Hin. apply fmeta_eq, Hp. by apply (store_lt s owners). }
  exists cp', s1, levels. split_and!; [done| |apply (levels_ok_ext (st_files s)); auto|done|done].
  destruct Hb as [b1 b2 b3 b4]. split; [done..|]. intros l ls Hl. rewrite (level_metas_ext (st_files s)) by auto. by apply b4.
Qed.

(** A builder over a well-formed version gives a well-formed version of the
    files the edits leave, with exact reference counts. *)
Lemma build_ok init cp s owners base extra edits :
  store_ok s owners -> (forall p, p ∈ concat base -> p ∈ owners) -> levels_ok (st_files s) base ->
  length extra = Z.to_nat kNumLevels -> Forall edit_files_ok edits ->
  (forall l, NoDup (nums (level_metas (st_files s) base l ++ adds_of edits l))) ->
  (forall l, (0 < l)%nat -> pairwise_disjoint (apply_edits (level_metas (st_files s) base) edits l)) ->
  exists cp' s' files extra', build init cp s base extra edits = Some (cp', s', files, extra', false) /\
    store_ok s' (concat files ++ owners) /\ levels_ok (st_files s') files /\ length extra' = Z.to_nat kNumLevels /\
    (forall p, p ∈ owners -> fmeta (st_files s') p = fmeta (st_files s) p) /\
    (forall l, (l < Z.to_nat kNumLevels)%nat -> level_metas (st_files s') files l ≡ₚ apply_edits (level_metas (st_files s) base) edits l) /\
    cp' = apply_pointers cp edits.
Proof.
  intros Hso Hbase Hlev Hex Hed Hnd Hdis. unfold build. pose proof (apply_all_pointers edits cp s (replicate (Z.to_nat kNumLevels) LevelState_new)) as Hcp.
  destruct (collect_ok cp s owners base edits) as (cp' & s1 & levels & Eall & Hb & Hlev1 & Hm1 & _); [done..|].
  rewrite Eall in *. cbn [fst] in Hcp. destruct (save_ok init s1 levels owners base extra _ _ Hb) as (h & files & extra' & -> & Hex' & Hso' & Hm & Hl & Hperm); [done..|].
  cbn [mbind option_bind]. destruct (drop_added_ok _ _ _ _ Hso') as [Hso'' Hm''].
  eexists cp', _, files, extra'. split; [done|]. cbn [st_files]. split_and!; [done| |done| | |done].
  - apply (levels_ok_ext h); [done|]. intros p Hin. apply Hm'', elem_of_app. by left.
  - intros p Hin. rewrite Hm'', Hm by (apply elem_of_app; by right). by apply Hm1.
  - intros l Hl'. rewrite (level_metas_ext h); [by apply Hperm|]. intros p Hin. apply Hm'', elem_of_app. by left.
Qed.

(** The check of adjacent files orders all of them. *)
Lemma adjacent_sorted h files : Forall meta_ok (fmeta h <$> files) -> no_adjacent_overlap h files = true -> StronglySorted (before_file h) files.
Proof.
  induction files as [|p files IH]; intros Hok Hn; [constructor|]. rewrite fmap_cons in Hok. apply Forall_cons in Hok as [Hp Hok]. destruct files as [|q files]; [repeat constructor|].
  cbn [no_adjacent_overlap] in Hn. apply andb_true_iff in Hn as [Hpq%Z.ltb_lt Hn]. specialize (IH Hok Hn). constructor; [done|]. pose proof IH as [_ Hall]%StronglySorted_inv. constructor; [exact Hpq|].
  rewrite fmap_cons in Hok. apply Forall_cons in Hok as [(Q1 & Q2 & Q3) Hok]. rewrite Forall_forall in Hok. rewrite Forall_forall in Hall |- *. intros r Hr. destruct (Hok _ (list_elem_of_fmap_2 (fmeta h) files r Hr)) as (R1 & _).
  destruct Hp as (_ & P2 & _). pose proof (internal_le_lt _ _ _ (internal_key_ok_valid _ Q1) (internal_key_ok_valid _ Q2) (internal_key_ok_valid _ R1) Q3 (Hall r Hr)) as Hqr.
  apply (internal_le_lt _ (msmall (fmeta h q))); [by apply internal_key_ok_valid..| |done]. change (internal_compare (mlarge (fmeta h p)) (msmall (fmeta h q)) < 0) in Hpq. lia.
Qed.

Lemma sorted_pairwise l : StronglySorted (fun a b => internal_compare (mlarge a) (msmall b) < 0) l -> pairwise_disjoint l.
Proof.
  induction 1 as [|m l _ IH Hall]; intros a b; [by intros ?%not_elem_of_nil|]. rewrite Forall_forall in Hall. intros [->|Ha]%elem_of_cons [->|Hb]%elem_of_cons Hne; [done|left; by apply Hall|right; by apply Hall|by apply IH].
Qed.

Lemma apply_edits_in edits : forall S l m, m ∈ apply_edits S edits l -> m ∈ S l \/ m ∈ adds_of edits l.
Proof.
  induction edits as [|e edits IH]; intros S l m; [by left|]. cbn. intros [Hm|Hm]%IH; [|right; unfold adds_of; cbn; apply elem_of_app; by right].
  unfold apply_edit in Hm. apply elem_of_app in Hm as [[_ Hm]%list_elem_of_filter|Hm]; [by left|]. right. unfold adds_of. cbn. apply elem_of_app. by left.
Qed.

(** Nothing is added outside of the levels. *)
Lemma no_level_above base h edits l : length base = Z.to_nat kNumLevels -> Forall edit_files_ok edits -> (Z.to_nat kNumLevels <= l)%nat -> pairwise_disjoint (apply_edits (level_metas h base) edits l).
Proof.
  intros Hlen Hed Hl a b Ha _ _. exfalso. apply apply_edits_in in Ha as [Ha|Ha].
  - unfold level_metas, level_files in Ha. rewrite lookup_ge_None_2 in Ha by lia. by apply not_elem_of_nil in Ha.
  - unfold adds_of in Ha. apply elem_of_concat in Ha as (l' & (e & -> & He)%list_elem_of_fmap & Ha). rewrite Forall_forall in Hed. specialize (Hed e He). unfold edit_files_ok in Hed. rewrite Forall_forall in Hed.
    unfold edit_adds in Ha. apply list_elem_of_fmap in Ha as (x & -> & [Hx Hin]%list_elem_of_filter). destruct (Hed x Hin) as [Hr _]. lia.
Qed.

Lemma build_disjoint init cp s owners base extra edits r :
  store_ok s owners -> (forall p, p ∈ concat base -> p ∈ owners) -> levels_ok (st_files s) base ->
  length extra = Z.to_nat kNumLevels -> Forall edit_files_ok edits ->
  (forall l, NoDup (nums (level_metas (st_files s) base l ++ adds_of edits l))) ->
  build init cp s base extra edits = Some r -> forall l, (0 < l)%nat -> pairwise_disjoint (apply_edits (level_metas (st_files s) base) edits l).
Proof.
  intros Hso Hbase Hlev Hex Hed Hnd Hr l Hl. destruct (decide (Z.to_nat kNumLevels <= l)%nat) as [|Hlt]; [apply no_level_above; [by destruct Hlev|done|done]|].
  destruct (collect_ok cp s owners base edits) as (cp' & s1 & levels & Eall & [H1 H2 H3 H4] & [B1 B2 B3 B4 B5] & _); [done..|]. unfold build in Hr. rewrite Eall in Hr. apply bind_Some in Hr as ([[[h files] ex] i0] & Hs & _).
  unfold SaveTo in Hs. apply bind_Some in Hs as ([[h' files'] ex'] & Hs & _). destruct (lookup_lt_is_Some_2 levels l) as [ls Hls]; [lia|]. destruct (lookup_lt_is_Some_2 base l) as [b Hb]; [lia|].
  pose proof (save_levels_done init levels base extra 0 _ _ Hs ltac:(lia) ltac:(lia) l ls b Hls Hb ltac:(lia)) as Hn. specialize (H4 l ls Hls). specialize (B4 l). unfold level_metas, level_files in H4, B4. rewrite Hb in H4, B4. cbn [default] in H4, B4.
  destruct (new_level_ok (st_files s1) ls b _ _ _ H4 eq_refl B4) as (_ & Hperm & _). assert (Hok : Forall meta_ok (fmeta (st_files s1) <$> new_level (st_files s1) ls b)).
  { rewrite Hperm, (lr_stay _ _ _ _ _ H4). apply Forall_forall. intros m [_ Hm]%list_elem_of_filter. pose proof (lr_ok _ _ _ _ _ H4) as Ho. rewrite Forall_forall in Ho. by apply Ho. }
  pose proof (adjacent_sorted _ _ Hok Hn) as Hsort. assert (Hp : pairwise_disjoint (fmeta (st_files s1) <$> new_level (st_files s1) ls b)) by (apply sorted_pairwise, strongly_sorted_fmap; exact Hsort).
  intros x y Hx Hy. apply Hp; by rewrite Hperm.
Qed.

(** C11. A builder is given a well-formed version and any edits whose files have
    proper key ranges and numbers of their own on each level.  It aborts exactly
    when two of the files the edits leave on a level above 0 overlap.  Otherwise
    [SaveTo] makes a well-formed version of the files they leave: the levels are
    sorted, files above level 0 do not overlap, each level holds exactly the files
    of the base version and the edits that were not deleted, and after the
    destructor every file's count is the number of versions that hold it. *)
Theorem saved_version_well_formed init cp s owners base extra edits :
  store_ok s owners -> (forall p, p ∈ concat base -> p ∈ owners) -> levels_ok (st_files s) base ->
  length extra = Z.to_nat kNumLevels -> Forall edit_files_ok edits ->
  (forall l, NoDup (nums (level_metas (st_files s) base l ++ adds_of edits l))) ->
  let left_on := apply_edits (level_metas (st_files s) base) edits in
  (build init cp s base extra edits = None <-> ~ forall l, (0 < l)%nat -> pairwise_disjoint (left_on l)) /\
  forall cp' s' files extra' init', build init cp s base extra edits = Some (cp', s', files, extra', init') ->
    init' = false /\ levels_ok (st_files s') files /\ store_ok s' (concat files ++ owners) /\
    forall l, (l < Z.to_nat kNumLevels)%nat -> level_metas (st_files s') files l ≡ₚ left_on l.
Proof.
  intros H1 H2 H3 H4 H5 H6 left_on. pose proof (build_ok init cp s owners base extra edits H1 H2 H3 H4 H5 H6) as Hok. pose proof (fun r => build_disjoint init cp s owners base extra edits r H1 H2 H3 H4 H5 H6) as Hdis. fold left_on in Hok, Hdis. split.
  - split; [intros E Hd; destruct (Hok Hd) as (? & ? & ? & ? & E' & _); congruence|]. intros Hn. destruct (build init cp s base extra edits) as [r|] eqn:E; [|done]. destruct Hn. by apply (Hdis r).
  - intros cp' s' files extra' init' E. destruct (Hok (Hdis _ E)) as (cp1 & s1 & files1 & extra1 & E1 & Hs & Hl & _ & _ & Hm & _). rewrite E in E1. injection E1 as -> -> -> -> ->. by split_and!.
Qed.
End Save.

(** ** An example: one file below, replaced by a smaller one beside a second *)

Section Example.
Context (C := BytewiseComparator).

Definition built_file (refs n : Z) (a b : bytes) : FileMetaData :=
  MkFile refs 100 n 10 (InternalKey_make a 9 kTypeValue) (InternalKey_make b 5 kTypeValue) 0.

Definition example_store : Store := MkStore {[0 := built_file 1 5 [97] [100]]} 1.
Definition example_base : list (list Z) := [[]; [0]; []; []; []; []; []; []].

Definition example_edits : list VersionEdit :=
  [AddFile (DeleteFile VersionEdit_new 1 5) 1 6 10 (InternalKey_make [97] 9 kTypeValue) (InternalKey_make [98] 5 kTypeValue);
   AddFile VersionEdit_new 1 7 10 (InternalKey_make [101] 9 kTypeValue) (InternalKey_make [102] 5 kTypeValue)].

Lemma built_meta_ok n size a b : bytes_ok a -> bytes_ok b -> lex a b < 0 ->
  meta_ok (C := BytewiseComparator) (n, size, InternalKey_make a 9 kTypeValue, InternalKey_make b 5 kTypeValue).
Proof.
  intros Ha Hb Hlt. split_and!; [apply InternalKey_make_ok; [done|split; vm_compute; discriminate]..|]. cbn [fst snd].
  rewrite !InternalKey_make_eq, internal_compare_le, !ExtractUserKey_ikey. left. simpl. unfold Bytewise.compare. by rewrite Slice_compare_lex.
Qed.

Lemma built_new_ok n a b : bytes_ok a -> bytes_ok b -> lex a b < 0 ->
  new_file_ok (C := BytewiseComparator) (1, FileMetaData_new n 10 (InternalKey_make a 9 kTypeValue) (InternalKey_make b 5 kTypeValue)).
Proof. intros Ha Hb Hlt. split; [by_decide|]. by apply built_meta_ok. Qed.

Lemma built_levels_ok : levels_ok (C := BytewiseComparator) (st_files example_store) example_base.
Proof.
  split; [done|..]; intros l; destruct l as [|[|[|[|[|[|[|[|l]]]]]]]]; try (intros _); try (by constructor); cbn;
    repeat first [apply Forall_nil | apply Forall_cons; split | apply SSorted_cons | apply SSorted_nil | apply NoDup_singleton | by_decide].
  all: apply built_meta_ok; [by_decide..|reflexivity].
Qed.

(** A second edit that overlaps the first. *)
Definition overlapping_edits : list VersionEdit :=
  [AddFile VersionEdit_new 1 6 10 (InternalKey_make [98] 9 kTypeValue) (InternalKey_make [99] 5 kTypeValue)].

Lemma built_store_ok : store_ok example_store [0].
Proof.
  split; intros p; cbn; destruct (decide (p = 0)) as [->|Hne];
    [rewrite lookup_singleton_eq; by_decide|rewrite lookup_singleton_ne by done; set_solver|lia|rewrite lookup_singleton_ne by done; by intros []].
Qed.

Lemma saved_version_well_formed_witness :
  (exists cp' s' files extra', build (C := BytewiseComparator) true [] example_store example_base (replicate 8 ∅) example_edits = Some (cp', s', files, extra', false) /\
    levels_ok (C := BytewiseComparator) (st_files s') files /\
    level_metas (st_files s') files 1 ≡ₚ apply_edits (level_metas (st_files example_store) example_base) example_edits 1) /\
  build (C := BytewiseComparator) true [] example_store example_base (replicate 8 ∅) overlapping_edits = None.
Proof.
  assert (Hin : forall p, p ∈ concat example_base -> p ∈ [0]) by (cbn; set_solver). split.
  - destruct (saved_version_well_formed (C := BytewiseComparator) true [] example_store [0] example_base (replicate 8 ∅) example_edits) as (_ & Hsaved).
    + exact built_store_ok.
    + exact Hin.
    + exact built_levels_ok.
    + reflexivity.
    + apply Forall_cons; split; [|apply Forall_cons; split; [|apply Forall_nil; exact I]].
      * exact (Forall_cons_2 new_file_ok _ [] (built_new_ok 6 [97] [98] ltac:(by_decide) ltac:(by_decide) eq_refl) (Forall_nil_2 _)).
      * exact (Forall_cons_2 new_file_ok _ [] (built_new_ok 7 [101] [102] ltac:(by_decide) ltac:(by_decide) eq_refl) (Forall_nil_2 _)).
    + intros l. destruct l as [|[|[|[|[|[|[|[|l]]]]]]]]; by_decide.
    + destruct (build (C := BytewiseComparator) true [] example_store example_base (replicate 8 ∅) example_edits) as [[[[[cp' s'] files] extra'] init']|] eqn:E; [|by vm_compute in E].
      destruct (Hsaved cp' s' files extra' init' eq_refl) as (-> & Hl & _ & Hm). exists cp', s', files, extra'. split_and!; [done|exact Hl|apply Hm; vm_compute; lia].
  - apply (saved_version_well_formed (C := BytewiseComparator) true [] example_store [0] example_base (replicate 8 ∅) overlapping_edits).
    + exact built_store_ok.
    + exact Hin.
    + exact built_levels_ok.
    + reflexivity.
    + apply Forall_cons; split; [|apply Forall_nil; exact I].
      exact (Forall_cons_2 new_file_ok _ [] (built_new_ok 6 [98] [99] ltac:(by_decide) ltac:(by_decide) eq_refl) (Forall_nil_2 _)).
    + intros l. destruct l as [|[|[|[|[|[|[|[|l]]]]]]]]; by_decide.
    + intros Hd. specialize (Hd 1%nat ltac:(lia) (fmeta (st_files example_store) 0) (meta (FileMetaData_new 6 10 (InternalKey_make [98] 9 kTypeValue) (InternalKey_make [99] 5 kTypeValue)))).
      vm_compute in Hd. destruct Hd as [Hd|Hd]; [set_solver|set_solver|done|discriminate Hd|discriminate Hd].
Defined.
End Example.
