(* ===== verification/Manifest.v ===== *)
(** * Manifest: the descriptor log in the directory

    The operations of include/leveldb/env.h that src/LSM-EBF/db/version_set.cc
    uses for the MANIFEST and CURRENT files, on the directory of Filename.v, and
    [ReadFileToString] of util/env.cc.  An open descriptor is a [log::Writer] on
    a file of the directory: its contents are the file's, and all operations
    draw their outcomes from the environment's list. *)
From stdpp Require Import gmap.
From S2P Require Import Prelude Coding Crc32c Status Filename Log.

(** ** Reading *)

Definition NewSequentialFile (e : Env) (fname : bytes) : Status * option SequentialFile * Env :=
  let '(o, l) := next_io (env_io e) in
  match o with
  | IoErr s _ => (Some s, None, MkEnv (files e) l)
  | IoOk =>
      match files e !! fname with
      | None => (NotFound fname (str "No such file or directory"), None, MkEnv (files e) l)
      | Some c => (Status_OK, Some (SFile c l), MkEnv (files e) l)
      end
  end.

Definition kBufferSize : nat := Z.to_nat 8192.

(** The loop of [ReadFileToString]; [None] when the fuel is too small. *)
Fixpoint read_file_loop (fuel : nat) (f : SequentialFile) (data : bytes) : option (Status * bytes * SequentialFile) :=
  match fuel with
  | O => None
  | S fuel =>
      let '(s, fragment, f) := SeqRead f kBufferSize in
      if negb (ok s) then Some (s, data, f)
      else match fragment with
           | [] => Some (s, data, f)
           | _ => read_file_loop fuel f (data ++ fragment)
           end
  end.

Definition ReadFileToString (e : Env) (fname : bytes) : option (Status * bytes * Env) :=
  let '(s, file, e) := NewSequentialFile e fname in
  match file with
  | None => Some (s, [], e)
  | Some f =>
      '(s, data, f) ← read_file_loop (S (length (rest f))) f [];
      Some (s, data, MkEnv (files e) (s_io f))
  end.

(** On failure the size is 0. *)
Definition GetFileSize (e : Env) (fname : bytes) : Status * Z * Env :=
  let '(o, l) := next_io (env_io e) in
  match o with
  | IoErr s _ => (Some s, 0, MkEnv (files e) l)
  | IoOk =>
      match files e !! fname with
      | None => (NotFound fname (str "No such file or directory"), 0, MkEnv (files e) l)
      | Some c => (Status_OK, zlen c, MkEnv (files e) l)
      end
  end.

(** ** Writing *)

Definition NewAppendableFile (e : Env) (fname : bytes) : Status * Env :=
  env_op e (fun fs => match fs !! fname with Some _ => fs | None => <[fname := []]> fs end).

Section Descriptor.
Context `{!Crc32c}.

(** [descriptor_file_] with [descriptor_log_]. *)
Record Descriptor := MkDesc { d_name : bytes; d_block_offset : Z; d_type_crc : list Z }.

Definition Descriptor_new (fname : bytes) (dest_length : Z) : Descriptor :=
  MkDesc fname (dest_length mod kBlockSize) InitTypeCrc.

Definition descriptor_writer (e : Env) (d : Descriptor) : Writer :=
  MkWriter (WFile (default [] (files e !! d_name d)) (env_io e)) (d_block_offset d) (d_type_crc d).

Definition descriptor_AddRecord (e : Env) (d : Descriptor) (record : bytes) : option (Status * Env * Descriptor) :=
  '(s, w) ← AddRecord (descriptor_writer e d) record;
  Some (s, MkEnv (<[d_name d := contents (dest_ w)]> (files e)) (w_io (dest_ w)),
        MkDesc (d_name d) (block_offset_ w) (type_crc_ w)).

(** ** Lemmas *)

Record descriptor_ok (d : Descriptor) : Prop := {
  do_offset : offset_ok (d_block_offset d);
  do_crc : d_type_crc d = InitTypeCrc
}.

Lemma Descriptor_new_ok fname n : descriptor_ok (Descriptor_new fname n).
Proof. split; [|done]. unfold offset_ok. cbn. pose proof (Z.mod_pos_bound n kBlockSize ltac:(done)). lia. Qed.

Lemma switch_block_offset w : offset_ok (block_offset_ w) ->
  block_offset_ (switch_block w) = start (block_offset_ w) /\ type_crc_ (switch_block w) = type_crc_ w.
Proof.
  intros Ho. pose proof (start_range _ Ho). assert (E : start (block_offset_ w) = if kBlockSize - block_offset_ w <? kHeaderSize then 0 else block_offset_ w) by reflexivity.
  unfold switch_block. rewrite E. by destruct (kBlockSize - block_offset_ w <? kHeaderSize).
Qed.

Lemma EmitPhysicalRecord_offset w t d s w' : EmitPhysicalRecord w t d = (s, w') ->
  block_offset_ w' = block_offset_ w + kHeaderSize + zlen d /\ type_crc_ w' = type_crc_ w.
Proof. unfold EmitPhysicalRecord. repeat case_match; intros [= <- <-]; done. Qed.

(** Whatever writes fail, the loop ends. *)
Lemma AddRecord_loop_total fuel : forall w d begin, offset_ok (block_offset_ w) ->
  (length d + 1 + (if decide (start (block_offset_ w) + kHeaderSize = kBlockSize)%Z then 1 else 0) <= fuel)%nat ->
  exists s w', AddRecord_loop fuel w d begin = Some (s, w') /\ offset_ok (block_offset_ w') /\ type_crc_ w' = type_crc_ w.
Proof.
  induction fuel as [|fuel IH]; intros w d begin Ho Hf; [lia|]. cbn [AddRecord_loop].
  destruct (switch_block_offset w Ho) as [E1 E2]. pose proof (start_range _ Ho) as Hs. pose proof (zlen_nonneg d).
  set (avail := kBlockSize - block_offset_ (switch_block w) - kHeaderSize). assert (Ha : avail = kBlockSize - start (block_offset_ w) - kHeaderSize) by (unfold avail; lia).
  set (n := if zlen d <? avail then zlen d else avail). assert (Hn : 0 <= n <= zlen d /\ n <= avail) by (unfold n; zcases).
  destruct (EmitPhysicalRecord (switch_block w) _ (take (Z.to_nat n) d)) as [s w1] eqn:Em. apply EmitPhysicalRecord_offset in Em as [Eo Ec].
  assert (Hlen : zlen (take (Z.to_nat n) d) = n) by (unfold zlen in *; rewrite length_take; lia). rewrite Hlen, E1 in Eo.
  destruct (ok s && (0 <? zlen d - n)) eqn:Eg.
  - apply andb_true_iff in Eg as [_ Hlt%Z.ltb_lt]. assert (Hna : n = avail) by (unfold n in *; destruct (Z.ltb_spec (zlen d) avail); lia).
    assert (Eb : block_offset_ w1 = kBlockSize) by lia.
    destruct (IH w1 (drop (Z.to_nat n) d) false) as (s' & w' & -> & Ho' & Ec').
    { rewrite Eb. unfold offset_ok, kBlockSize. lia. }
    { rewrite length_drop, Eb, decide_False by (vm_compute; lia). unfold zlen in *. destruct (decide _); lia. }
    exists s', w'. split_and!; [done|done|congruence].
  - exists s, w1. split_and!; [done| |congruence]. unfold offset_ok in *. unfold kHeaderSize, kBlockSize in *. lia.
Qed.

Lemma descriptor_AddRecord_total e d record : descriptor_ok d ->
  exists s e' d', descriptor_AddRecord e d record = Some (s, e', d') /\ descriptor_ok d' /\ d_name d' = d_name d /\
    forall f, f <> d_name d -> files e' !! f = files e !! f.
Proof.
  intros [Ho Hc]. unfold descriptor_AddRecord, AddRecord.
  destruct (AddRecord_loop_total (length record + 2) (descriptor_writer e d) record true) as (s & w & -> & Ho' & Hc');
    [done|destruct (decide _); lia|]. cbn [mbind option_bind]. eexists _, _, _. split; [done|]. cbn [d_name files].
  split_and!; [split; cbn in *; [done|congruence]|done|]. intros f Hf. by rewrite lookup_insert_ne.
Qed.

(** Without failures a record is appended to the log. *)
Lemma descriptor_AddRecord_ok e d record : descriptor_ok d -> env_io e = [] ->
  exists bs off, emits true (d_block_offset d) record bs off /\ offset_ok off /\
    descriptor_AddRecord e d record
    = Some (Status_OK, MkEnv (<[d_name d := default [] (files e !! d_name d) ++ bs]> (files e)) [], MkDesc (d_name d) off InitTypeCrc).
Proof.
  intros [Ho Hc] Hio. unfold descriptor_AddRecord, descriptor_writer. rewrite Hio, Hc.
  destruct (AddRecord_spec (default [] (files e !! d_name d)) (d_block_offset d) record Ho) as (bs & off & He & Ho' & ->).
  by exists bs, off.
Qed.

Lemma read_file_loop_ok fuel : forall c data, (length c < fuel)%nat ->
  read_file_loop fuel (SFile c []) data = Some (Status_OK, data ++ c, SFile [] []).
Proof.
  induction fuel as [|fuel IH]; intros c data Hf; [lia|]. cbn [read_file_loop]. unfold SeqRead. cbn [s_io rest next_io ok Status_OK negb].
  destruct (take kBufferSize c) as [|b t] eqn:Ht.
  { assert (c = []) as ->. { destruct c; [done|]. apply (f_equal length) in Ht. rewrite length_take in Ht. unfold kBufferSize in Ht. simpl in Ht. lia. }
    by rewrite drop_nil, app_nil_r. }
  rewrite <- Ht, IH, <- app_assoc, take_drop; [done|]. apply (f_equal length) in Ht. rewrite length_take in Ht. rewrite length_drop. cbn [length] in Ht. lia.
Qed.

Lemma ReadFileToString_ok e fname c : env_io e = [] -> files e !! fname = Some c -> ReadFileToString e fname = Some (Status_OK, c, e).
Proof.
  intros Hio Hf. unfold ReadFileToString, NewSequentialFile. rewrite Hio. cbn [next_io]. rewrite Hf. cbn [rest].
  rewrite read_file_loop_ok by lia. cbn. destruct e as [fs io]. cbn in *. by subst.
Qed.
End Descriptor.
