(* ===== verification/VersionSet.v ===== *)
(** * VersionSet: the versions of a database and their descriptor log

    [VersionSet] and the lifetime of [Version] of src/LSM-EBF/db/version_set.cc.
    Versions live in a heap by address with their reference counts; the ring
    through [dummy_versions_] is a list, oldest first.  A version that is being
    built is a value until [AppendVersion] gives it its address: nothing else
    can reach it before.  [LogAndApply] releases the mutex while it writes; the
    model has no other operation in that window.  [None] is a failed assertion
    or an abort. *)
From stdpp Require Import gmap sorting.
From Stdlib Require Import SpecFloat.
From S2P Require Import Prelude Coding Crc32c Status Bloom Comparator DbFormat Filename Log VersionEdit Version VersionGet VersionBuilder Manifest.

(** ** Data *)

Record Options := MkOptions {
  dbname_ : bytes;
  comparator_name : bytes;
  max_file_size : Z;
  reuse_logs : bool;
  force_delete_level0_file : bool;
  l0_base_ratio : spec_float;
  size_ratio : Z;
  force_disable_compaction : bool;
  seek_compaction_ : bool
}.

Record Versions := MkVersions {
  by_addr : gmap Z Version;
  next_addr : Z;
  ring : list Z;
  current_ : option Z
}.

Record VersionSet := MkVersionSet {
  env_ : Env;
  store_ : Store;
  versions_ : Versions;
  next_file : Z;
  manifest_file_number_ : Z;
  last_seq : Z;
  log_number : Z;
  prev_log_number : Z;
  descriptor_ : option Descriptor;
  compact_pointer_ : list bytes;
  files_extra_ : list (gmap Z FileExtraMetaData);
  init_ : bool
}.

Definition with_env (vs : VersionSet) (e : Env) : VersionSet :=
  MkVersionSet e (store_ vs) (versions_ vs) (next_file vs) (manifest_file_number_ vs) (last_seq vs) (log_number vs)
    (prev_log_number vs) (descriptor_ vs) (compact_pointer_ vs) (files_extra_ vs) (init_ vs).

Definition with_heap (vs : VersionSet) (s : Store) (v : Versions) : VersionSet :=
  MkVersionSet (env_ vs) s v (next_file vs) (manifest_file_number_ vs) (last_seq vs) (log_number vs)
    (prev_log_number vs) (descriptor_ vs) (compact_pointer_ vs) (files_extra_ vs) (init_ vs).

Definition with_numbers (vs : VersionSet) (next manifest last log prev : Z) : VersionSet :=
  MkVersionSet (env_ vs) (store_ vs) (versions_ vs) next manifest last log prev
    (descriptor_ vs) (compact_pointer_ vs) (files_extra_ vs) (init_ vs).

Definition with_descriptor (vs : VersionSet) (e : Env) (d : option Descriptor) : VersionSet :=
  MkVersionSet e (store_ vs) (versions_ vs) (next_file vs) (manifest_file_number_ vs) (last_seq vs) (log_number vs)
    (prev_log_number vs) d (compact_pointer_ vs) (files_extra_ vs) (init_ vs).

Definition with_built (vs : VersionSet) (s : Store) (cp : list bytes) (extra : list (gmap Z FileExtraMetaData)) (init : bool) : VersionSet :=
  MkVersionSet (env_ vs) s (versions_ vs) (next_file vs) (manifest_file_number_ vs) (last_seq vs) (log_number vs)
    (prev_log_number vs) (descriptor_ vs) cp extra init.

(** ** Reference counts of versions *)

Definition with_count (v : Version) (n : Z) : Version :=
  MkVersion n (files_ v) (file_to_compact_ v) (file_to_compact_level_ v) (compaction_score_ v) (compaction_level_ v).

(** [~Version]: every file gives up one reference, and must have one. *)
Fixpoint drop_files (h : file_heap) (ps : list Z) : option file_heap :=
  match ps with
  | [] => Some h
  | p :: ps => f ← h !! p; if 0 <? refs f then drop_files (unref_file h p) ps else None
  end.

Definition drop_version_files (s : Store) (v : Version) : option Store :=
  h ← drop_files (st_files s) (concat (files_ v)); Some (MkStore h (st_next s)).

Definition Version_Ref (vs : VersionSet) (p : Z) : option VersionSet :=
  v ← by_addr (versions_ vs) !! p;
  let vv := versions_ vs in
  Some (with_heap vs (store_ vs) (MkVersions (<[p := with_count v (refs_ v + 1)]> (by_addr vv)) (next_addr vv) (ring vv) (current_ vv))).

Definition Version_Unref (vs : VersionSet) (p : Z) : option VersionSet :=
  v ← by_addr (versions_ vs) !! p;
  let vv := versions_ vs in
  if 1 <=? refs_ v then
    if refs_ v - 1 =? 0 then
      s ← drop_version_files (store_ vs) v;
      Some (with_heap vs s (MkVersions (delete p (by_addr vv)) (next_addr vv) (base.filter (fun q => q <> p) (ring vv)) (current_ vv)))
    else Some (with_heap vs (store_ vs) (MkVersions (<[p := with_count v (refs_ v - 1)]> (by_addr vv)) (next_addr vv) (ring vv) (current_ vv)))
  else None.

Definition AppendVersion (vs : VersionSet) (v : Version) : option VersionSet :=
  if refs_ v =? 0 then
    vs ← match current_ (versions_ vs) with Some c => Version_Unref vs c | None => Some vs end;
    let vv := versions_ vs in
    let p := next_addr vv in
    Some (with_heap vs (store_ vs) (MkVersions (<[p := with_count v 1]> (by_addr vv)) (p + 1) (ring vv ++ [p]) (Some p)))
  else None.

(** ** File numbers *)

Definition NewFileNumber (vs : VersionSet) : Z * VersionSet :=
  (next_file vs, with_numbers vs (u64 (next_file vs + 1)) (manifest_file_number_ vs) (last_seq vs) (log_number vs) (prev_log_number vs)).

Definition ReuseFileNumber (vs : VersionSet) (file_number : Z) : VersionSet :=
  if next_file vs =? u64 (file_number + 1)
  then with_numbers vs file_number (manifest_file_number_ vs) (last_seq vs) (log_number vs) (prev_log_number vs) else vs.

Definition MarkFileNumberUsed (vs : VersionSet) (number : Z) : VersionSet :=
  if next_file vs <=? number
  then with_numbers vs (u64 (number + 1)) (manifest_file_number_ vs) (last_seq vs) (log_number vs) (prev_log_number vs) else vs.

Definition SetLastSequence (vs : VersionSet) (s : Z) : option VersionSet :=
  if last_seq vs <=? s then Some (with_numbers vs (next_file vs) (manifest_file_number_ vs) s (log_number vs) (prev_log_number vs)) else None.

(** ** Queries *)

Definition current_version (vs : VersionSet) : option Version :=
  p ← current_ (versions_ vs); by_addr (versions_ vs) !! p.

Definition NumLevelFiles (vs : VersionSet) (level : Z) : option Z :=
  if (0 <=? level) && (level <? kNumLevels) then v ← current_version vs; Some (zlen (level_files (files_ v) (Z.to_nat level))) else None.

Definition NumLevelBytes (vs : VersionSet) (level : Z) : option Z :=
  if (0 <=? level) && (level <? kNumLevels)
  then v ← current_version vs; Some (TotalFileSize (fm (st_files (store_ vs)) <$> level_files (files_ v) (Z.to_nat level))) else None.

(** The numbers of the files of every version in the ring. *)
Definition AddLiveFiles (vs : VersionSet) (live : list Z) : list Z :=
  fold_left (fun live p =>
    match by_addr (versions_ vs) !! p with
    | Some v => fold_left (fun live f => num_insert (number (fm (st_files (store_ vs)) f)) live) (concat (files_ v)) live
    | None => live
    end) (ring (versions_ vs)) live.

Definition NeedsCompaction (vs : VersionSet) : option bool :=
  v ← current_version vs;
  Some (SFleb (SFone 53 1024) (compaction_score_ v) || match file_to_compact_ v with Some _ => true | None => false end).

Section Set_.
Context {user_comparator : Comparator} `{!Crc32c} (o : Options).

(** ** [Finalize] *)

Definition MaxBytesForLevel (level : Z) : spec_float :=
  Nat.iter (Z.to_nat (level - 1)) (fun r => SFmul 53 1024 r (double_of_Z (size_ratio o)))
    (SFmul 53 1024 (SFmul 53 1024 (double_of_Z 10) (double_of_Z 1048576)) (l0_base_ratio o)).

Definition level_score (h : file_heap) (v : Version) (level : Z) : spec_float :=
  let files := level_files (files_ v) (Z.to_nat level) in
  if level =? 0 then SFdiv 53 1024 (double_of_Z (zlen files)) (double_of_Z kL0_CompactionTrigger)
  else SFdiv 53 1024 (double_of_Z (u64 (TotalFileSize (fm h <$> files)))) (MaxBytesForLevel level).

Definition best_step (h : file_heap) (v : Version) (best : Z * spec_float) (level : Z) : Z * spec_float :=
  if SFltb best.2 (level_score h v level) then (level, level_score h v level) else best.

Definition Finalize (h : file_heap) (v : Version) : Version :=
  let '(best_level, best_score) := fold_left (best_step h v) (seqZ 0 (kNumLevels - 1)) (-1, minus_one) in
  MkVersion (refs_ v) (files_ v) (file_to_compact_ v) (file_to_compact_level_ v) best_score best_level.

(** ** The descriptor *)

Fixpoint snapshot_pointers (level : Z) (cp : list bytes) (e : VersionEdit) : VersionEdit :=
  match cp with
  | [] => e
  | key :: cp => snapshot_pointers (level + 1) cp (match key with [] => e | _ => SetCompactPointer e level key end)
  end.

Fixpoint snapshot_files (h : file_heap) (level : Z) (files : list (list Z)) (e : VersionEdit) : VersionEdit :=
  match files with
  | [] => e
  | ps :: files =>
      snapshot_files h (level + 1) files
        (fold_left (fun e p => let f := fm h p in AddFile e level (number f) (file_size f) (smallest f) (largest f)) ps e)
  end.

Definition snapshot_edit (vs : VersionSet) (v : Version) : VersionEdit :=
  snapshot_files (st_files (store_ vs)) 0 (files_ v)
    (snapshot_pointers 0 (compact_pointer_ vs) (SetComparatorName VersionEdit_new (comparator_name o))).

Definition add_record (vs : VersionSet) (record : bytes) : option (Status * VersionSet) :=
  d ← descriptor_ vs;
  '(s, e, d) ← descriptor_AddRecord (env_ vs) d record;
  Some (s, with_descriptor vs e (Some d)).

Definition WriteSnapshot (vs : VersionSet) : option (Status * VersionSet) :=
  v ← current_version vs; add_record vs (EncodeTo (snapshot_edit vs v) []).

(** A new descriptor log, with a snapshot of the current version. *)
Definition new_manifest (vs : VersionSet) (new_manifest_file : bytes) : option (Status * VersionSet) :=
  let '(s, e) := NewWritableFile (env_ vs) new_manifest_file in
  if ok s then WriteSnapshot (with_descriptor vs e (Some (Descriptor_new new_manifest_file 0)))
  else Some (s, with_env vs e).

(** The record of the edit, synced. *)
Definition write_edit (vs : VersionSet) (edit : VersionEdit) : option (Status * VersionSet) :=
  '(s, vs) ← add_record vs (EncodeTo edit []);
  if ok s then let '(s, e) := file_Sync (env_ vs) in Some (s, with_env vs e) else Some (s, vs).

(** ** [LogAndApply] *)

Definition complete_edit (vs : VersionSet) (edit : VersionEdit) : option VersionEdit :=
  edit ← (if has_log_number_ edit
          then if (log_number vs <=? log_number_ edit) && (log_number_ edit <? next_file vs) then Some edit else None
          else Some (SetLogNumber edit (log_number vs)));
  let edit := if has_prev_log_number_ edit then edit else SetPrevLogNumber edit (prev_log_number vs) in
  Some (VersionEdit.SetLastSequence (SetNextFile edit (next_file vs)) (last_seq vs)).

(** The scope of the builder, and [Finalize]. *)
Definition build_version (vs : VersionSet) (edit : VersionEdit) : option (VersionSet * Version) :=
  c ← current_ (versions_ vs);
  vs ← Version_Ref vs c;
  base ← by_addr (versions_ vs) !! c;
  '(cp, s, files, extra, init) ← build (init_ vs) (compact_pointer_ vs) (store_ vs) (files_ base) (files_extra_ vs) [edit];
  let vs := with_built vs s cp extra init in
  vs ← Version_Unref vs c;
  Some (vs, Finalize (st_files (store_ vs)) (MkVersion 0 files None (-1) minus_one (-1))).

(** Everything that is written: a new descriptor when there is none, the
    record, and CURRENT for a new descriptor. *)
Definition log_edit (vs : VersionSet) (edit : VersionEdit) (fresh : bool) : option (Status * VersionSet) :=
  '(s, vs) ← (if fresh then new_manifest vs (DescriptorFileName (dbname_ o) (manifest_file_number_ vs)) else Some (Status_OK, vs));
  '(s, vs) ← (if ok s then write_edit vs edit else Some (s, vs));
  if ok s && fresh
  then let '(s, e, _) := SetCurrentFile (env_ vs) (dbname_ o) (manifest_file_number_ vs) in Some (s, with_env vs e)
  else Some (s, vs).

Definition LogAndApply (vs : VersionSet) (edit : VersionEdit) : option (Status * VersionSet) :=
  edit ← complete_edit vs edit;
  '(vs, v) ← build_version vs edit;
  let fresh := match descriptor_ vs with None => true | Some _ => false end in
  '(s, vs) ← log_edit vs edit fresh;
  if ok s then
    vs ← AppendVersion vs v;
    Some (s, with_numbers vs (next_file vs) (manifest_file_number_ vs) (last_seq vs) (log_number_ edit) (prev_log_number_ edit))
  else
    st ← drop_version_files (store_ vs) v;
    let vs := with_heap vs st (versions_ vs) in
    Some (s, if fresh
             then with_descriptor vs (Filename.DeleteFile (env_ vs) (DescriptorFileName (dbname_ o) (manifest_file_number_ vs))).2 None
             else vs).

(** ** [Recover] *)

(** What the loop over the records has collected: the status, the numbers with
    their [have_] flags, and the builder. *)
Record Recovery := MkRecovery {
  rc_status : Status;
  rc_log : option Z;
  rc_prev : option Z;
  rc_next : option Z;
  rc_last : option Z;
  rc_pointers : list bytes;
  rc_store : Store;
  rc_levels : list LevelState
}.

Definition with_status (r : Recovery) (s : Status) : Recovery :=
  MkRecovery s (rc_log r) (rc_prev r) (rc_next r) (rc_last r) (rc_pointers r) (rc_store r) (rc_levels r).

(** [LogReporter]: the first report stays. *)
Definition LogReporter_Corruption (s : Status) (report : Z * Status) : Status := if ok s then report.2 else s.

Definition number_field (has : bool) (n : Z) (old : option Z) : option Z := if has then Some n else old.

Definition check_comparator (s : Status) (edit : VersionEdit) : Status :=
  if ok s && (has_comparator_ edit && negb (Slice_eqb (comparator_ edit) (comparator_name o)))
  then InvalidArgument (comparator_ edit ++ str " does not match existing comparator ") (comparator_name o) else s.

Definition recover_record (r : Recovery) (record : bytes) : option Recovery :=
  '(s, edit) ← DecodeFrom VersionEdit_new record;
  let s := check_comparator s edit in
  let '(cp, st, levels) := if ok s then Apply (rc_pointers r) (rc_store r) (rc_levels r) edit
                           else (rc_pointers r, rc_store r, rc_levels r) in
  Some (MkRecovery s (number_field (has_log_number_ edit) (log_number_ edit) (rc_log r))
          (number_field (has_prev_log_number_ edit) (prev_log_number_ edit) (rc_prev r))
          (number_field (has_next_file_number_ edit) (next_file_number_ edit) (rc_next r))
          (number_field (has_last_sequence_ edit) (last_sequence_ edit) (rc_last r)) cp st levels).

Fixpoint recover_loop (fuel : nat) (rd : Reader) (r : Recovery) : option (Reader * Recovery) :=
  match fuel with
  | O => None
  | S fuel =>
      '(found, record, rd') ← ReadRecord rd;
      let r := with_status r (fold_left LogReporter_Corruption (drop (length (reports rd)) (reports rd')) (rc_status r)) in
      if found && ok (rc_status r) then r ← recover_record r record; recover_loop fuel rd' r
      else Some (rd', r)
  end.

(** The checks after the loop. *)
Definition missing_entry (r : Recovery) : Status :=
  match rc_next r, rc_log r, rc_last r with
  | None, _, _ => Corruption (str "no meta-nextfile entry in descriptor") []
  | _, None, _ => Corruption (str "no meta-lognumber entry in descriptor") []
  | _, _, None => Corruption (str "no last-sequence-number entry in descriptor") []
  | _, _, _ => rc_status r
  end.

Definition ReuseManifest (vs : VersionSet) (dscname dscbase : bytes) : option (bool * VersionSet) :=
  if negb (reuse_logs o) then Some (false, vs)
  else match ParseFileName dscbase with
       | Some (manifest_number, kDescriptorFile) =>
           let '(s, manifest_size, e) := GetFileSize (env_ vs) dscname in
           let vs := with_env vs e in
           if negb (ok s) || (u64 (TargetFileSize (max_file_size o)) <=? manifest_size) then Some (false, vs)
           else match descriptor_ vs with
                | Some _ => None
                | None =>
                    let '(r, e) := NewAppendableFile (env_ vs) dscname in
                    if negb (ok r) then Some (false, with_env vs e)
                    else Some (true, with_numbers (with_descriptor vs e (Some (Descriptor_new dscname manifest_size)))
                                       (next_file vs) manifest_number (last_seq vs) (log_number vs) (prev_log_number vs))
                end
       | _ => Some (false, vs)
       end.

(** The part under [if (s.ok())] that installs the recovered version. *)
Definition install_recovered (vs : VersionSet) (base : Version) (levels : list LevelState) (next last log prev : Z)
    (dscname current : bytes) (save_manifest : bool) : option (bool * VersionSet) :=
  '(h, files, extra, init) ← SaveTo (init_ vs) levels (files_ base) (st_files (store_ vs)) (files_extra_ vs);
  let vs := with_built vs (MkStore h (st_next (store_ vs))) (compact_pointer_ vs) extra init in
  vs ← AppendVersion vs (Finalize h (MkVersion 0 files None (-1) minus_one (-1)));
  let vs := with_numbers vs (u64 (next + 1)) next last log prev in
  '(reused, vs) ← ReuseManifest vs dscname current;
  Some (if (reused : bool) then save_manifest else true, vs).

Definition Recover_from (vs : VersionSet) (file : SequentialFile) (dscname current : bytes) (save_manifest : bool)
    : option (Status * bool * VersionSet) :=
  c ← current_ (versions_ vs);
  vs ← Version_Ref vs c;
  base ← by_addr (versions_ vs) !! c;
  let rd := Reader_new file true true 0 in
  '(rd, r) ← recover_loop (S (unread rd)) rd
    (MkRecovery Status_OK None None None None (compact_pointer_ vs) (store_ vs) (replicate (Z.to_nat kNumLevels) LevelState_new));
  let vs := with_env (with_built vs (rc_store r) (rc_pointers r) (files_extra_ vs) (init_ vs)) (MkEnv (files (env_ vs)) (s_io (file_ rd))) in
  let s := if ok (rc_status r) then missing_entry r else rc_status r in
  let prev := default 0 (rc_prev r) in
  let log := default 0 (rc_log r) in
  let vs := if ok (rc_status r) then MarkFileNumberUsed (MarkFileNumberUsed vs prev) log else vs in
  let '(levels, save_manifest) :=
    if force_delete_level0_file o then (DeleteLevel0File (st_files (store_ vs)) (rc_levels r), true) else (rc_levels r, save_manifest) in
  '(save_manifest, vs) ← (if ok s
    then install_recovered vs base levels (default 0 (rc_next r)) (default 0 (rc_last r)) log prev dscname current save_manifest
    else Some (save_manifest, vs));
  let vs := with_heap vs (MkStore (drop_added levels (st_files (store_ vs))) (st_next (store_ vs))) (versions_ vs) in
  vs ← Version_Unref vs c;
  Some (s, save_manifest, vs).

Definition Recover (vs : VersionSet) (save_manifest : bool) : option (Status * bool * VersionSet) :=
  '(s, current, e) ← ReadFileToString (env_ vs) (CurrentFileName (dbname_ o));
  let vs := with_env vs e in
  if negb (ok s) then Some (s, save_manifest, vs)
  else if match last current with Some b => negb (b =? 10) | None => true end
  then Some (Corruption (str "CURRENT file does not end with newline") [], save_manifest, vs)
  else
    let current := take (length current - 1) current in
    let dscname := dbname_ o ++ str "/" ++ current in
    let '(s, file, e) := NewSequentialFile (env_ vs) dscname in
    let vs := with_env vs e in
    match file with
    | None => Some (if IsNotFound s then Corruption (str "CURRENT points to a non-existent file") (Status_ToString s) else s, save_manifest, vs)
    | Some f => Recover_from vs f dscname current save_manifest
    end.

(** The constructor. *)
Definition VersionSet_new (e : Env) : option VersionSet :=
  AppendVersion (MkVersionSet e (MkStore ∅ 0) (MkVersions ∅ 0 [] None) 2 0 0 0 0 None
    (replicate (Z.to_nat kNumLevels) []) (replicate (Z.to_nat kNumLevels) ∅) true) Version_new.

(** The destructor. *)
Definition VersionSet_delete (vs : VersionSet) : option VersionSet :=
  c ← current_ (versions_ vs);
  vs ← Version_Unref vs c;
  match ring (versions_ vs) with
  | [] => Some (with_descriptor vs (env_ vs) None)
  | _ => None
  end.
End Set_.
