(* ===== verification/VersionRefs.v ===== *)
(** * VersionRefs: the lifetime of versions and files

    The invariant of the heap of versions and files of VersionSet.v: every
    version is counted once for each of its holders, every file once for each
    version that has it, the ring holds exactly the live versions, and every
    live version is well formed.  It is kept by [Ref], [Unref], the destructor
    and [AppendVersion]. *)
From stdpp Require Import gmap sorting.
From S2P Require Import Prelude Coding Crc32c Status Comparator DbFormat Filename Log VersionEdit Version VersionGet VersionBuilder Manifest VersionSet.

Definition vr (vv : Versions) (p : Z) : Version := default Version_new (by_addr vv !! p).

(** One reference to a file for each version in the ring that has it. *)
Definition file_owners (vv : Versions) : list Z := ring vv ≫= (fun p => concat (files_ (vr vv p))).

Section Refs.
Context {C : Comparator} {L : ComparatorLaws C}.

(** [owners] are the holders of versions, [temps] the references to files that
    no version holds (a builder's, or those of a version not yet installed). *)
Record heap_ok (s : Store) (vv : Versions) (owners temps : list Z) : Prop := {
  ho_count : forall p, match by_addr vv !! p with
                       | Some v => p ∈ owners /\ refs_ v = count_ref p owners
                       | None => p ∉ owners
                       end;
  ho_nodup : NoDup (ring vv);
  ho_ring : forall p, p ∈ ring vv <-> is_Some (by_addr vv !! p);
  ho_fresh : forall p, is_Some (by_addr vv !! p) -> p < next_addr vv;
  ho_store : store_ok s (file_owners vv ++ temps);
  ho_levels : forall p v, by_addr vv !! p = Some v -> levels_ok (st_files s) (files_ v)
}.

#[export] Instance heap_ok_perm : Proper (eq ==> eq ==> (≡ₚ) ==> (≡ₚ) ==> iff) heap_ok.
Proof.
  intros s ? <- vv ? <- o1 o2 Ho t1 t2 Ht. split; intros [H1 H2 H3 H4 H5 H6]; split; try done.
  - intros p. specialize (H1 p). destruct (by_addr vv !! p); by rewrite <- Ho.
  - by rewrite <- Ht.
  - intros p. specialize (H1 p). destruct (by_addr vv !! p); by rewrite Ho.
  - by rewrite Ht.
Qed.

(** The versions of the remaining holders and the files they can reach are
    left as they were. *)
Record frame (s s' : Store) (vv vv' : Versions) (owners temps : list Z) : Prop := {
  fr_files : forall p, p ∈ owners -> files_ (vr vv' p) = files_ (vr vv p);
  fr_metas : forall p, p ∈ file_owners vv' ++ temps -> fmeta (st_files s') p = fmeta (st_files s) p;
  fr_current : current_ vv' = current_ vv
}.

Lemma vr_lookup vv p v : by_addr vv !! p = Some v -> vr vv p = v.
Proof. intros E. unfold vr. by rewrite E. Qed.

Lemma heap_ok_live s vv owners temps p : heap_ok s vv owners temps -> p ∈ owners -> exists v, by_addr vv !! p = Some v /\ refs_ v = count_ref p owners.
Proof. intros [H _ _ _ _ _] Hp. specialize (H p). destruct (by_addr vv !! p) as [v|]; [|done]. exists v. by destruct H. Qed.

(** Files of a live version are owned. *)
Lemma live_files_owned s vv owners temps p v f : heap_ok s vv owners temps -> by_addr vv !! p = Some v -> f ∈ concat (files_ v) ->
  f ∈ file_owners vv ++ temps.
Proof.
  intros [_ _ Hr _ _ _] Hp Hf. apply elem_of_app. left. apply list_elem_of_bind. exists p. rewrite (vr_lookup vv p v Hp). split; [done|].
  apply Hr. by eexists.
Qed.

Lemma file_owners_ext vv vv' : ring vv' = ring vv -> (forall p, p ∈ ring vv -> files_ (vr vv' p) = files_ (vr vv p)) -> file_owners vv' = file_owners vv.
Proof.
  intros Hr Hf. unfold file_owners. rewrite Hr. clear Hr. induction (ring vv) as [|p l IH]; [done|]. cbn.
  rewrite (Hf p) by (by left). f_equal. apply IH. intros q Hq. apply Hf. by right.
Qed.

(** A change of the count of one version. *)
Lemma set_count_ok s vv owners owners' temps p v n : heap_ok s vv owners temps -> by_addr vv !! p = Some v ->
  p ∈ owners' -> n = count_ref p owners' -> (forall q, q <> p -> count_ref q owners' = count_ref q owners) ->
  let vv' := MkVersions (<[p := with_count v n]> (by_addr vv)) (next_addr vv) (ring vv) (current_ vv) in
  heap_ok s vv' owners' temps /\ frame s s vv vv' owners' temps.
Proof.
  intros [H1 H2 H3 H4 H5 H6] Hp Hin Hn Hq vv'.
  assert (Hf : forall q, files_ (vr vv' q) = files_ (vr vv q)).
  { intros q. unfold vr. cbn. destruct (decide (q = p)) as [->|Hne]; [by rewrite lookup_insert_eq, Hp|by rewrite lookup_insert_ne]. }
  split; [split|split]; cbn -[file_owners vr]; try done.
  - intros q. destruct (decide (q = p)) as [->|Hne]; [by rewrite lookup_insert_eq|]. rewrite lookup_insert_ne by done.
    specialize (H1 q). pose proof (count_ref_pos q owners) as P1. pose proof (count_ref_pos q owners') as P2. rewrite (Hq q Hne) in P2.
    destruct (by_addr vv !! q); [destruct H1 as [H1 H1']; rewrite Hq by done; split; [by apply P2, P1|done]|]. intros Hin'. by apply H1, P1, P2.
  - intros q. rewrite H3. destruct (decide (q = p)) as [->|Hne]; [rewrite lookup_insert_eq|by rewrite lookup_insert_ne]. by split; [|rewrite Hp].
  - intros q Hq'. apply H4. destruct (decide (q = p)) as [->|Hne]; [by rewrite Hp|by rewrite lookup_insert_ne in Hq'].
  - rewrite (file_owners_ext vv); [done|done|]. intros q _. apply Hf.
  - intros q w Hw. destruct (decide (q = p)) as [->|Hne]; [|rewrite lookup_insert_ne in Hw by done; by apply (H6 q)].
    rewrite lookup_insert_eq in Hw. injection Hw as <-. exact (H6 p v Hp).
Qed.

Lemma Version_Ref_ok vs owners temps p : heap_ok (store_ vs) (versions_ vs) owners temps -> p ∈ owners ->
  exists vv', Version_Ref vs p = Some (with_heap vs (store_ vs) vv') /\ heap_ok (store_ vs) vv' (p :: owners) temps /\
    frame (store_ vs) (store_ vs) (versions_ vs) vv' (p :: owners) temps.
Proof.
  intros H Hp. destruct (heap_ok_live _ _ _ _ _ H Hp) as (v & Hv & Hr). unfold Version_Ref. rewrite Hv. cbn [mbind option_bind].
  eexists. split; [done|]. apply (set_count_ok _ _ owners); [done|done|by left| |].
  - rewrite count_ref_cons, bool_decide_true by done. lia.
  - intros q Hq. rewrite count_ref_cons, bool_decide_false by done. lia.
Qed.

Lemma drop_files_ok ps : forall h owners, refs_ok h (ps ++ owners) -> drop_files h ps = Some (fold_left unref_file ps h).
Proof.
  induction ps as [|p ps IH]; intros h owners H; [done|]. cbn [drop_files fold_left].
  destruct (refs_ok_lookup h _ p H ltac:(by left)) as (f & -> & Hr). cbn [mbind option_bind].
  assert (Hpos : 0 < refs f) by (rewrite Hr; apply count_ref_pos; by left). rewrite (proj2 (Z.ltb_lt _ _) Hpos).
  apply (IH _ owners). by apply unref_file_ok.
Qed.

Lemma drop_version_files_ok s v owners : store_ok s (concat (files_ v) ++ owners) ->
  exists s', drop_version_files s v = Some s' /\ store_ok s' owners /\ forall p, p ∈ owners -> fmeta (st_files s') p = fmeta (st_files s) p.
Proof.
  intros [Hr Hf]. unfold drop_version_files. rewrite (drop_files_ok _ _ owners) by done. cbn [mbind option_bind]. eexists. split; [done|].
  destruct (unref_files_ok _ _ _ Hr) as [Hr' Hm]. split; [|done]. split; cbn [st_files st_next]; [done|].
  intros p [f Hp]. apply Hf. specialize (Hr' p). rewrite Hp in Hr'. destruct (refs_ok_lookup _ _ p Hr) as (g & -> & _); [|by eexists].
  apply elem_of_app. right. by destruct Hr'.
Qed.

Lemma remove_from_ring (l : list Z) p : NoDup l -> p ∈ l -> l ≡ₚ p :: base.filter (fun q => q <> p) l.
Proof.
  induction 1 as [|q l Hq Hnd IH]; [by intros ?%not_elem_of_nil|]. rewrite filter_cons. intros [->|Hp]%elem_of_cons.
  - rewrite decide_False by (intros Hn; by apply Hn). rewrite filter_keep; [done|]. by intros x Hx ->.
  - rewrite decide_True by (intros ->; done). rewrite IH at 1 by done. constructor.
Qed.

(** The last holder of a version lets go of it. *)
Lemma delete_version_ok s vv owners temps p v : heap_ok s vv (p :: owners) temps -> by_addr vv !! p = Some v -> p ∉ owners ->
  let vv' := MkVersions (delete p (by_addr vv)) (next_addr vv) (base.filter (fun q => q <> p) (ring vv)) (current_ vv) in
  exists s', drop_version_files s v = Some s' /\ heap_ok s' vv' owners temps /\ frame s s' vv vv' owners temps.
Proof.
  intros H Hp Hnot vv'. pose proof H as [H1 H2 H3 H4 H5 H6].
  assert (Hvr : forall q, q <> p -> vr vv' q = vr vv q) by (intros q Hq; unfold vr; cbn; by rewrite lookup_delete_ne).
  assert (Hown : file_owners vv ≡ₚ concat (files_ v) ++ file_owners vv').
  { unfold file_owners. rewrite (remove_from_ring (ring vv) p) at 1; [|done|apply H3; by eexists]. cbn [mbind list_bind].
    rewrite (vr_lookup vv p v Hp). apply Permutation_app; [done|]. cbn [ring vv']. apply Permutation_refl'.
    assert (Hne : forall q, q ∈ base.filter (fun q => q <> p) (ring vv) -> q <> p) by (intros q Hq; by apply list_elem_of_filter in Hq as [? _]).
    revert Hne. generalize (base.filter (fun q => q <> p) (ring vv)). intros l Hne. induction l as [|q l IH]; [done|]. cbn.
    rewrite (Hvr q) by (apply Hne; by left). f_equal. apply IH. intros x Hx. apply Hne. by right. }
  destruct (drop_version_files_ok s v (file_owners vv' ++ temps)) as (s' & Hd & Hs' & Hm); [by rewrite app_assoc, <- Hown|].
  exists s'. split; [done|]. split; [split|split]; cbn -[file_owners vr].
  - intros q. specialize (H1 q). destruct (decide (q = p)) as [->|Hne].
    + by rewrite lookup_delete_eq.
    + rewrite lookup_delete_ne by done. destruct (by_addr vv !! q); rewrite elem_of_cons in H1; [|naive_solver].
      rewrite count_ref_cons, bool_decide_false in H1 by done. destruct H1 as [[?|?] ?]; [done|]. split; [done|lia].
  - by apply NoDup_filter.
  - intros q. rewrite list_elem_of_filter, H3. destruct (decide (q = p)) as [->|Hne]; [rewrite lookup_delete_eq|rewrite lookup_delete_ne by done]; [|naive_solver].
    split; [naive_solver|by intros []].
  - intros q Hq. apply H4. destruct (decide (q = p)) as [->|Hne]; [by rewrite Hp|by rewrite lookup_delete_ne in Hq].
  - done.
  - intros q w Hw. apply lookup_delete_Some in Hw as [Hne Hw]. apply (levels_ok_ext (st_files s)); [by apply (H6 q)|]. intros f Hf. apply Hm, elem_of_app. left.
    apply list_elem_of_bind. exists q. rewrite Hvr, (vr_lookup vv q w Hw) by done. split; [done|]. apply list_elem_of_filter. split; [done|]. apply H3. by eexists.
  - intros q Hq. rewrite Hvr; [done|]. by intros ->.
  - done.
  - done.
Qed.

Lemma Version_Unref_ok vs owners temps p : heap_ok (store_ vs) (versions_ vs) (p :: owners) temps ->
  exists s' vv', Version_Unref vs p = Some (with_heap vs s' vv') /\ heap_ok s' vv' owners temps /\
    frame (store_ vs) s' (versions_ vs) vv' owners temps.
Proof.
  intros H. destruct (heap_ok_live _ _ _ _ p H ltac:(by left)) as (v & Hv & Hr). unfold Version_Unref. rewrite Hv. cbn [mbind option_bind].
  rewrite count_ref_cons, bool_decide_true in Hr by done. pose proof (zlen_nonneg (base.filter (fun q => q = p) owners)) as Hz.
  fold (count_ref p owners) in Hz. rewrite (proj2 (Z.leb_le 1 (refs_ v))) by lia. destruct (Z.eqb_spec (refs_ v - 1) 0) as [E|E].
  - assert (Hnot : p ∉ owners) by (rewrite count_ref_pos; lia).
    destruct (delete_version_ok _ _ _ _ p v H Hv Hnot) as (s' & -> & Hok & Hfr). cbn [mbind option_bind]. by eexists s', _.
  - exists (store_ vs). eexists. split; [done|]. apply (set_count_ok _ _ (p :: owners)); [done|done|apply count_ref_pos; lia|lia|].
    intros q Hq. rewrite count_ref_cons, bool_decide_false by done. lia.
Qed.

(** A version built over temporary references becomes current. *)
Lemma install_ok s vv owners temps v : heap_ok s vv owners (concat (files_ v) ++ temps) -> levels_ok (st_files s) (files_ v) ->
  let p := next_addr vv in
  let vv' := MkVersions (<[p := with_count v 1]> (by_addr vv)) (p + 1) (ring vv ++ [p]) (Some p) in
  heap_ok s vv' (p :: owners) temps /\ (forall q, q ∈ owners -> files_ (vr vv' q) = files_ (vr vv q)).
Proof.
  intros H Hl p vv'. pose proof H as [H1 H2 H3 H4 H5 H6].
  assert (Hnone : by_addr vv !! p = None). { destruct (by_addr vv !! p) as [w|] eqn:E; [|done]. pose proof (H4 p ltac:(by eexists)). unfold p in *. lia. }
  assert (Hnot : p ∉ owners) by (specialize (H1 p); by rewrite Hnone in H1).
  assert (Hring : p ∉ ring vv) by (rewrite H3, Hnone; by intros []).
  assert (Hvr : forall q, q <> p -> vr vv' q = vr vv q) by (intros q Hq; unfold vr; cbn; by rewrite lookup_insert_ne).
  assert (Hown : file_owners vv' ≡ₚ concat (files_ v) ++ file_owners vv).
  { unfold file_owners. cbn [ring vv']. rewrite bind_app, Permutation_app_comm. apply Permutation_app.
    - cbn. unfold vr. cbn. rewrite lookup_insert_eq. cbn. by rewrite app_nil_r.
    - apply Permutation_refl'. clear -Hring Hvr. induction (ring vv) as [|q l IH]; [done|]. apply not_elem_of_cons in Hring as [Hne Hring]. cbn.
      rewrite Hvr by done. f_equal. by apply IH. }
  split; [split|]; cbn -[file_owners vr].
  - intros q. rewrite count_ref_cons. destruct (decide (q = p)) as [->|Hne].
    + rewrite lookup_insert_eq, bool_decide_true by done. split; [by left|]. cbn. pose proof (count_ref_pos p owners) as P.
      pose proof (zlen_nonneg (base.filter (fun q => q = p) owners)) as Hz. fold (count_ref p owners) in Hz. destruct (decide (0 < count_ref p owners)); [naive_solver|lia].
    + rewrite lookup_insert_ne, bool_decide_false by done. specialize (H1 q). destruct (by_addr vv !! q).
      * destruct H1. split; [by right|lia].
      * rewrite elem_of_cons. intros [?|?]; [congruence|done].
  - apply NoDup_app. split; [done|]. split; [|apply NoDup_singleton]. intros q Hq Hq'. apply list_elem_of_singleton in Hq' as ->. done.
  - intros q. rewrite elem_of_app, list_elem_of_singleton, H3. destruct (decide (q = p)) as [->|Hne]; [rewrite lookup_insert_eq|rewrite lookup_insert_ne by done]; naive_solver.
  - intros q Hq. destruct (decide (q = p)) as [->|Hne]; [lia|]. rewrite lookup_insert_ne in Hq by done. specialize (H4 q Hq). unfold p. lia.
  - rewrite Hown. by rewrite (Permutation_app_comm (concat _)), <- app_assoc.
  - intros q w Hw. destruct (decide (q = p)) as [->|Hne]; [rewrite lookup_insert_eq in Hw; by injection Hw as <-|].
    rewrite lookup_insert_ne in Hw by done. by apply (H6 q).
  - intros q Hq. rewrite Hvr; [done|]. by intros ->.
Qed.

Lemma AppendVersion_ok vs owners temps v c : heap_ok (store_ vs) (versions_ vs) (c :: owners) (concat (files_ v) ++ temps) ->
  current_ (versions_ vs) = Some c -> refs_ v = 0 -> levels_ok (st_files (store_ vs)) (files_ v) ->
  exists s' vv' c', AppendVersion vs v = Some (with_heap vs s' vv') /\ heap_ok s' vv' (c' :: owners) temps /\ current_ vv' = Some c' /\
    by_addr vv' !! c' = Some (with_count v 1) /\ (forall p, p ∈ owners -> files_ (vr vv' p) = files_ (vr (versions_ vs) p)) /\
    (forall p, p ∈ file_owners vv' ++ temps -> fmeta (st_files s') p = fmeta (st_files (store_ vs)) p).
Proof.
  intros H Hc Hr Hl. unfold AppendVersion. rewrite Hr, Hc. cbn [Z.eqb].
  destruct (Version_Unref_ok vs owners _ c H) as (s' & vv1 & -> & H1 & [F1 F2 _]). cbn [mbind option_bind].
  assert (Hl1 : levels_ok (st_files s') (files_ v)).
  { apply (levels_ok_ext (st_files (store_ vs))); [done|]. intros p Hp. apply F2. rewrite !elem_of_app. tauto. }
  destruct (install_ok s' vv1 owners temps v H1 Hl1) as [H2 F3]. cbn [versions_ store_ with_heap].
  exists s'. eexists _, _. split; [done|]. split; [exact H2|]. cbn [current_ by_addr]. rewrite lookup_insert_eq. split_and!; [done|done| |].
  - intros p Hp. by rewrite F3, F1.
  - intros p Hp. apply F2. destruct H2 as [_ _ _ _ [G2 _] _]. destruct H1 as [_ _ _ _ [G1 _] _].
    destruct (refs_ok_lookup _ _ p G2 Hp) as (f & Hf & _). specialize (G1 p). rewrite Hf in G1. by destruct G1.
Qed.
End Refs.
