(* ===== verification/VersionApply.v ===== *)
(** * VersionApply: [LogAndApply] is atomic

    Whatever operations on the files fail, [LogAndApply] of VersionSet.v either
    installs the version the edit describes or leaves the current version and
    the numbers as they were; the reference counts stay exact and other holders
    keep what they see.  [AddLiveFiles] reports exactly the files somebody can
    reach. *)
From stdpp Require Import gmap sorting.
From Stdlib Require Import SpecFloat.
From S2P Require Import Prelude Coding Crc32c Status Bloom Comparator DbFormat Filename Log VersionEdit Version VersionGet VersionBuilder Manifest VersionSet VersionRefs.

(** What the holder of version [p] sees. *)
Definition view (vs : VersionSet) (p : Z) (l : nat) : list file_meta := level_metas (st_files (store_ vs)) (files_ (vr (versions_ vs) p)) l.

Section Apply.
Context {C : Comparator} {L : ComparatorLaws C} `{!Crc32c} (o : Options).

(** [c] is the current version, [holders] the references of others. *)
Record set_ok (vs : VersionSet) (c : Z) (holders : list Z) : Prop := {
  sk_heap : heap_ok (store_ vs) (versions_ vs) (c :: holders) [];
  sk_current : current_ (versions_ vs) = Some c;
  sk_descriptor : forall d, descriptor_ vs = Some d -> descriptor_ok d;
  sk_extra : length (files_extra_ vs) = Z.to_nat kNumLevels
}.

(** An edit the current version can take: proper new files with new numbers,
    that leave the levels above 0 disjoint. *)
Record edit_applies (B : nat -> list file_meta) (e : VersionEdit) : Prop := {
  ea_files : edit_files_ok e;
  ea_nodup : forall l, NoDup (nums (B l ++ edit_adds e l));
  ea_disjoint : forall l, (0 < l)%nat -> pairwise_disjoint (apply_edit B e l)
}.

(** The part of the set that the heap operations leave alone. *)
Record same_rest (vs vs' : VersionSet) : Prop := {
  sr_next : next_file vs' = next_file vs;
  sr_manifest : manifest_file_number_ vs' = manifest_file_number_ vs;
  sr_last : last_seq vs' = last_seq vs;
  sr_log : log_number vs' = log_number vs;
  sr_prev : prev_log_number vs' = prev_log_number vs
}.

Lemma complete_edit_lists vs e e' : complete_edit vs e = Some e' -> new_files_ e' = new_files_ e /\ deleted_files_ e' = deleted_files_ e.
Proof. unfold complete_edit. destruct (has_log_number_ e); [case_match; [|done]|]; cbn [mbind option_bind]; intros [= <-]; cbn; by case_match. Qed.

Lemma edit_applies_ext B e e' : new_files_ e' = new_files_ e -> deleted_files_ e' = deleted_files_ e -> edit_applies B e ->
  edit_applies B e' /\ apply_edit B e' = apply_edit B e.
Proof.
  intros Hn Hd [H1 H2 H3].
  assert (Ha : forall l, edit_adds e' l = edit_adds e l) by (intros l; unfold edit_adds; by rewrite Hn).
  assert (E : apply_edit B e' = apply_edit B e) by (unfold apply_edit, edit_adds, edit_deletes; by rewrite Hn, Hd).
  split; [|done]. split; [unfold edit_files_ok; by rewrite Hn| |by rewrite E]. intros l. rewrite Ha. apply H2.
Qed.

Lemma Finalize_files h v : files_ (Finalize o h v) = files_ v /\ refs_ (Finalize o h v) = refs_ v.
Proof. unfold Finalize. by destruct (fold_left _ _ _). Qed.

(** The builder's scope: the new version is a value with its own references. *)
Lemma build_version_ok vs c holders e : set_ok vs c holders -> edit_applies (view vs c) e ->
  exists vs' v, build_version o vs e = Some (vs', v) /\
    heap_ok (store_ vs') (versions_ vs') (c :: holders) (concat (files_ v) ++ []) /\ levels_ok (st_files (store_ vs')) (files_ v) /\ refs_ v = 0 /\
    (forall l, (l < Z.to_nat kNumLevels)%nat -> level_metas (st_files (store_ vs')) (files_ v) l ≡ₚ apply_edit (view vs c) e l) /\
    (forall p l, p ∈ c :: holders -> view vs' p l = view vs p l) /\ current_ (versions_ vs') = Some c /\
    same_rest vs vs' /\ env_ vs' = env_ vs /\ descriptor_ vs' = descriptor_ vs /\ length (files_extra_ vs') = Z.to_nat kNumLevels /\
    compact_pointer_ vs' = apply_pointers (compact_pointer_ vs) [e].
Proof.
  intros [Hh Hc Hd Hx] [E1 E2 E3]. unfold build_version. rewrite Hc. cbn [mbind option_bind].
  destruct (Version_Ref_ok vs (c :: holders) [] c Hh ltac:(by left)) as (vv1 & -> & Hh1 & [F1 F2 F3]). cbn [mbind option_bind versions_ store_ with_heap].
  destruct (heap_ok_live _ _ _ _ c Hh1 ltac:(by left)) as (base & Hb & _). rewrite Hb. cbn [mbind option_bind].
  assert (Hbase : files_ base = files_ (vr (versions_ vs) c)) by (rewrite <- (F1 c ltac:(by left)); by rewrite (vr_lookup vv1 c base Hb)).
  assert (Hv : forall l, level_metas (st_files (store_ vs)) (files_ base) l = view vs c l) by (intros l; unfold view; by rewrite Hbase).
  pose proof Hh1 as [G1 G2 G3 G4 G5 G6]. cbn [init_ compact_pointer_ files_extra_ with_heap].
  destruct (build_ok (init_ vs) (compact_pointer_ vs) (store_ vs) (file_owners vv1 ++ []) (files_ base) (files_extra_ vs) [e])
    as (cp & s & files & extra & -> & Hs & Hl & Hx' & Hm & Hp & Hcp).
  { done. }
  { intros p Hp. by apply (live_files_owned (store_ vs) vv1 (c :: c :: holders) [] c base). }
  { by apply (G6 c). }
  { done. }
  { by apply Forall_singleton. }
  { intros l. unfold adds_of. cbn. rewrite app_nil_r, Hv. apply E2. }
  { intros l Hl. cbn. unfold apply_edit. rewrite Hv. by apply E3. }
  cbn [mbind option_bind]. set (vs2 := with_built _ s cp extra false).
  assert (Hh2 : heap_ok (store_ vs2) (versions_ vs2) (c :: c :: holders) (concat files ++ [])).
  { split; [done..| |]; cbn [store_ versions_ vs2 with_built with_heap].
    - by rewrite app_nil_r, (Permutation_app_comm _ (concat files)), <- (app_nil_r (file_owners vv1)).
    - intros p w Hw. apply (levels_ok_ext (st_files (store_ vs))); [by apply (G6 p)|]. intros f Hf. apply Hm.
      by apply (live_files_owned (store_ vs) vv1 (c :: c :: holders) [] p w). }
  destruct (Version_Unref_ok vs2 (c :: holders) (concat files ++ []) c Hh2) as (s' & vv' & -> & Hh3 & [F1' F2' F3']). cbn [mbind option_bind].
  eexists _, _. split; [done|]. cbn [store_ versions_ with_heap]. destruct (Finalize_files (st_files s') (MkVersion 0 files None (-1) minus_one (-1))) as [-> ->].
  cbn [refs_ files_]. split_and!; [done| |done| | |exact (eq_trans F3' (eq_trans F3 Hc))|done..].
  - apply (levels_ok_ext (st_files s)); [done|]. intros p Hin. apply F2'. rewrite !elem_of_app. tauto.
  - intros l Hlt. rewrite (level_metas_ext (st_files s)) by (intros p Hin; apply F2'; rewrite !elem_of_app; tauto).
    rewrite Hp by done. cbn. unfold apply_edit. by rewrite Hv.
  - intros p l Hin. destruct (heap_ok_live _ _ _ _ p Hh3 Hin) as (w & Hw & _). unfold view. cbn [store_ versions_ with_heap].
    assert (Ef : files_ (vr vv' p) = files_ (vr (versions_ vs) p)) by (rewrite F1' by done; apply F1; by right).
    rewrite Ef. apply level_metas_ext. intros f Hf. rewrite <- Ef, (vr_lookup vv' p w Hw) in Hf.
    pose proof (live_files_owned _ _ _ _ p w f Hh3 Hw Hf) as Hown. rewrite F2' by done. apply Hm.
    assert (Hw0 : exists w0, by_addr vv1 !! p = Some w0 /\ files_ w0 = files_ w).
    { destruct (heap_ok_live _ _ _ _ p Hh1 ltac:(by right)) as (w0 & Hw0 & _). exists w0. split; [done|].
      rewrite <- (vr_lookup vv1 p w0 Hw0), <- (vr_lookup vv' p w Hw). symmetry. by apply F1'. }
    destruct Hw0 as (w0 & Hw0 & Ew). rewrite <- Ew in Hf. by apply (live_files_owned (store_ vs) vv1 (c :: c :: holders) [] p w0).
Qed.

Lemma with_env_descriptor vs e : with_env vs e = with_descriptor vs e (descriptor_ vs).
Proof. done. Qed.

Lemma with_descriptor_twice vs e d e' d' : with_descriptor (with_descriptor vs e d) e' d' = with_descriptor vs e' d'.
Proof. done. Qed.

Definition descriptor_good (d : option Descriptor) : Prop := forall x, d = Some x -> descriptor_ok x.

(** Writing ends whatever fails, and touches nothing but the files and the
    descriptor. *)
Definition writes (vs : VersionSet) (r : option (Status * VersionSet)) : Prop :=
  exists s e d, r = Some (s, with_descriptor vs e d) /\ descriptor_good d /\ (ok s = true -> is_Some d).

Lemma add_record_writes vs record : descriptor_good (descriptor_ vs) -> is_Some (descriptor_ vs) -> writes vs (add_record vs record).
Proof.
  intros Hg [d Hd]. unfold add_record. rewrite Hd. cbn [mbind option_bind].
  destruct (descriptor_AddRecord_total (env_ vs) d record (Hg d Hd)) as (s & e & d' & -> & Hok & _). cbn [mbind option_bind].
  exists s, e, (Some d'). split_and!; [done|by intros x [= <-]|by eexists].
Qed.

Lemma write_edit_writes vs e : descriptor_good (descriptor_ vs) -> is_Some (descriptor_ vs) -> writes vs (write_edit vs e).
Proof.
  intros Hg Hd. unfold write_edit. destruct (add_record_writes vs (EncodeTo e []) Hg Hd) as (s & e1 & d1 & -> & Hg1 & Hs1). cbn [mbind option_bind].
  destruct (ok s) eqn:Es; [|exists s, e1, d1; by rewrite Es]. specialize (Hs1 eq_refl). destruct (file_Sync _) as [s2 e2].
  exists s2, e2, d1. by rewrite with_env_descriptor.
Qed.

Lemma new_manifest_writes vs v fname : current_version vs = Some v -> descriptor_good (descriptor_ vs) -> writes vs (new_manifest o vs fname).
Proof.
  intros Hv Hg. unfold new_manifest. destruct (NewWritableFile (env_ vs) fname) as [s e]. destruct (ok s) eqn:Es.
  - unfold WriteSnapshot. assert (Hv' : current_version (with_descriptor vs e (Some (Descriptor_new fname 0))) = Some v) by done. rewrite Hv'.
    cbn [mbind option_bind]. set (vs1 := with_descriptor vs e _) in *.
    assert (Hg1 : descriptor_good (descriptor_ vs1)) by (intros x [= <-]; apply Descriptor_new_ok).
    exact (add_record_writes vs1 (EncodeTo (snapshot_edit o vs1 v) []) Hg1 ltac:(by eexists)).
  - exists s, e, (descriptor_ vs). by rewrite Es.
Qed.

Lemma log_edit_writes vs e v fresh : current_version vs = Some v -> descriptor_good (descriptor_ vs) ->
  (fresh = false -> is_Some (descriptor_ vs)) -> writes vs (log_edit o vs e fresh).
Proof.
  intros Hv Hg Hf. unfold log_edit.
  assert (H1 : writes vs (if fresh then new_manifest o vs (DescriptorFileName (dbname_ o) (manifest_file_number_ vs)) else Some (Status_OK, vs))).
  { destruct fresh; [by apply (new_manifest_writes vs v)|]. exists Status_OK, (env_ vs), (descriptor_ vs). split_and!; [by destruct vs|done|auto]. }
  destruct H1 as (s & e1 & d1 & -> & Hg1 & Hs1). cbn [mbind option_bind].
  assert (H2 : writes vs (if ok s then write_edit (with_descriptor vs e1 d1) e else Some (s, with_descriptor vs e1 d1))).
  { destruct (ok s) eqn:Es; [exact (write_edit_writes (with_descriptor vs e1 d1) e Hg1 (Hs1 eq_refl))|]. exists s, e1, d1. by rewrite Es. }
  destruct H2 as (s2 & e2 & d2 & -> & Hg2 & Hs2). cbn [mbind option_bind]. destruct (ok s2) eqn:Es2; cbn [andb]; [destruct fresh; cbn [andb]|].
  - destruct (SetCurrentFile _ _ _) as [[s3 e3] t]. exists s3, e3, d2. split_and!; [done|done|auto].
  - exists s2, e2, d2. by rewrite Es2.
  - exists s2, e2, d2. by rewrite Es2.
Qed.

Lemma complete_edit_total vs e : (has_log_number_ e = true -> log_number vs <= log_number_ e < next_file vs) ->
  exists e', complete_edit vs e = Some e'.
Proof.
  intros Hl. unfold complete_edit. destruct (has_log_number_ e); [|by eexists]. specialize (Hl eq_refl).
  rewrite (proj2 (Z.leb_le _ _)), (proj2 (Z.ltb_lt _ _)) by lia. by eexists.
Qed.

Lemma view_lookup vs p v : by_addr (versions_ vs) !! p = Some v -> view vs p = level_metas (st_files (store_ vs)) (files_ v).
Proof. intros Hp. unfold view. by rewrite (vr_lookup _ _ _ Hp). Qed.

(** Views survive what leaves the version and its files alone. *)
Lemma view_same s' vv' vs p owners temps l : heap_ok s' vv' owners temps -> p ∈ owners ->
  files_ (vr vv' p) = files_ (vr (versions_ vs) p) ->
  (forall f, f ∈ file_owners vv' ++ temps -> fmeta (st_files s') f = fmeta (st_files (store_ vs)) f) ->
  level_metas (st_files s') (files_ (vr vv' p)) l = view vs p l.
Proof.
  intros Hh Hp Hf Hm. unfold view. rewrite <- Hf. apply level_metas_ext. intros f Hin. apply Hm.
  destruct (heap_ok_live _ _ _ _ p Hh Hp) as (w & Hw & _). rewrite (vr_lookup _ _ _ Hw) in Hin. by apply (live_files_owned s' vv' owners temps p w).
Qed.

(** The two ends of [LogAndApply]. *)
Lemma install_end vs c holders v e d : heap_ok (store_ vs) (versions_ vs) (c :: holders) (concat (files_ v) ++ []) ->
  current_ (versions_ vs) = Some c -> levels_ok (st_files (store_ vs)) (files_ v) -> refs_ v = 0 ->
  descriptor_good d -> length (files_extra_ vs) = Z.to_nat kNumLevels ->
  exists s' vv' c', AppendVersion (with_descriptor vs e d) v = Some (with_heap (with_descriptor vs e d) s' vv') /\
    forall next man last log prev, let vs' := with_numbers (with_heap (with_descriptor vs e d) s' vv') next man last log prev in
    set_ok vs' c' holders /\ (forall l, view vs' c' l = level_metas (st_files (store_ vs)) (files_ v) l) /\
    (forall p l, p ∈ holders -> view vs' p l = view vs p l).
Proof.
  intros Hh Hc Hl Hr Hd Hx.
  destruct (AppendVersion_ok (with_descriptor vs e d) holders [] v c) as (s' & vv' & c' & -> & Hh' & Hc' & Hv' & Hf & Hm); [done..|].
  exists s', vv', c'. split; [done|]. intros next man la lg pr vs'. split_and!; [done| |].
  - intros l. unfold view. cbn [store_ versions_ with_numbers with_heap vs']. rewrite (vr_lookup _ _ _ Hv'). cbn [files_ with_count]. apply level_metas_ext.
    intros f Hin. apply Hm. by apply (live_files_owned s' vv' (c' :: holders) [] c' (with_count v 1)).
  - intros p l Hp. apply (view_same s' vv' vs p (c' :: holders) []); [done|by right|by apply Hf|done].
Qed.

Lemma abandon_end vs c holders v : heap_ok (store_ vs) (versions_ vs) (c :: holders) (concat (files_ v) ++ []) ->
  exists s', drop_version_files (store_ vs) v = Some s' /\ heap_ok s' (versions_ vs) (c :: holders) [] /\
    forall p l, p ∈ c :: holders -> level_metas (st_files s') (files_ (vr (versions_ vs) p)) l = view vs p l.
Proof.
  intros [H1 H2 H3 H4 H5 H6].
  destruct (drop_version_files_ok (store_ vs) v (file_owners (versions_ vs) ++ [])) as (s' & Hd & Hs & Hm).
  { by rewrite app_nil_r, Permutation_app_comm, <- (app_nil_r (concat (files_ v))). }
  assert (Hh : heap_ok s' (versions_ vs) (c :: holders) []).
  { split; try done. intros p w Hw. apply (levels_ok_ext (st_files (store_ vs))); [by apply (H6 p)|]. intros f Hf. apply Hm, elem_of_app. left.
    apply list_elem_of_bind. exists p. rewrite (vr_lookup _ _ _ Hw). split; [done|]. apply H3. by eexists. }
  exists s'. split_and!; [done|done|]. intros p l Hp. by apply (view_same s' (versions_ vs) vs p (c :: holders) []).
Qed.

Lemma set_current_version vs c holders : set_ok vs c holders -> exists v, current_version vs = Some v.
Proof.
  intros [H1 H2 _ _]. unfold current_version. rewrite H2. destruct (heap_ok_live _ _ _ _ c H1 ltac:(by left)) as (v & Hv & _). by exists v.
Qed.

(** What the installed version holds. *)
Definition applied (vs vs' : VersionSet) (c c' : Z) (e : VersionEdit) : Prop :=
  (forall l, (l < Z.to_nat kNumLevels)%nat -> view vs' c' l ≡ₚ apply_edit (view vs c) e l) /\
  log_number vs' = (if has_log_number_ e then log_number_ e else log_number vs) /\
  prev_log_number vs' = (if has_prev_log_number_ e then prev_log_number_ e else prev_log_number vs).

Lemma complete_edit_numbers vs e e' : complete_edit vs e = Some e' ->
  log_number_ e' = (if has_log_number_ e then log_number_ e else log_number vs) /\
  prev_log_number_ e' = (if has_prev_log_number_ e then prev_log_number_ e else prev_log_number vs) /\
  has_log_number_ e' = true /\ has_prev_log_number_ e' = true /\ has_next_file_number_ e' = true /\ has_last_sequence_ e' = true /\
  next_file_number_ e' = next_file vs /\ last_sequence_ e' = last_seq vs.
Proof.
  unfold complete_edit. destruct (has_log_number_ e) eqn:El; [case_match; [|done]|]; cbn [mbind option_bind]; intros [= <-]; cbn;
    destruct (has_prev_log_number_ e) eqn:Ep; done.
Qed.

(** C9. [LogAndApply] is atomic in memory.  From any consistent version set, for
    any edit that fits the current version and whatever file operations fail, it
    returns without a failed assertion; the set stays consistent (exact counts
    of versions and files, sorted disjoint levels), other holders see their
    versions unchanged, and either the status is OK, the new current version
    holds exactly the files the edit leaves and the log numbers are the edit's,
    or the current version, what it holds and the numbers are as before. *)
Theorem log_and_apply_atomic vs c holders e :
  set_ok vs c holders -> edit_applies (view vs c) e ->
  (has_log_number_ e = true -> log_number vs <= log_number_ e < next_file vs) ->
  exists s vs' c', LogAndApply o vs e = Some (s, vs') /\ set_ok vs' c' holders /\
    (forall p l, p ∈ holders -> view vs' p l = view vs p l) /\
    next_file vs' = next_file vs /\ manifest_file_number_ vs' = manifest_file_number_ vs /\ last_seq vs' = last_seq vs /\
    if ok s then applied vs vs' c c' e
    else c' = c /\ (forall l, view vs' c l = view vs c l) /\ log_number vs' = log_number vs /\ prev_log_number vs' = prev_log_number vs.
Proof.
  intros Hs He Hlog. unfold LogAndApply. destruct (complete_edit_total vs e Hlog) as [e' Ece]. rewrite Ece. cbn [mbind option_bind].
  destruct (complete_edit_lists vs e e' Ece) as [En Ed]. destruct (complete_edit_numbers vs e e' Ece) as (Nl & Np & _).
  destruct (edit_applies_ext (view vs c) e e' En Ed He) as [He' Eq].
  destruct (build_version_ok vs c holders e' Hs He') as (vs1 & v & -> & Hh & Hl & Hr & Hp & Hv & Hc & [R1 R2 R3 R4 R5] & Henv & Hdesc & Hx & _).
  cbn [mbind option_bind]. pose proof Hs as [_ _ Hg _]. rewrite <- Hdesc in Hg.
  set (fresh := match descriptor_ vs1 with None => true | Some _ => false end).
  destruct (log_edit_writes vs1 e' (vr (versions_ vs1) c) fresh) as (s & e1 & d & -> & Hg1 & Hs1).
  { unfold current_version. rewrite Hc. destruct (heap_ok_live _ _ _ _ c Hh ltac:(by left)) as (w & Hw & _). cbn. by rewrite (vr_lookup _ _ _ Hw). }
  { exact Hg. }
  { unfold fresh. by destruct (descriptor_ vs1). }
  cbn [mbind option_bind]. destruct (ok s) eqn:Es.
  - destruct (install_end vs1 c holders v e1 d Hh Hc Hl Hr Hg1 Hx) as (s' & vv' & c' & -> & Hend). cbn [mbind option_bind].
    eexists s, _, c'. split; [done|]. rewrite Es.
    match goal with |- context [with_numbers _ ?a ?b ?c ?d ?e] => destruct (Hend a b c d e) as (Hok & Hnew & Hold) end.
    split_and!; [done| |done..|].
    + intros p l Hin. rewrite Hold by done. apply Hv. by right.
    + unfold applied. split_and!; [|done|done]. intros l Hlt. rewrite Hnew, <- Eq. by apply Hp.
  - destruct (abandon_end vs1 c holders v Hh) as (s' & Hd & Hh' & Hview). cbn [store_ with_descriptor]. rewrite Hd. cbn [mbind option_bind].
    eexists s, _, c. split; [done|]. rewrite Es. split_and!; try done.
    + destruct fresh; split; cbn; try done.
    + intros p l Hin. rewrite <- (Hv p l) by (by right). destruct fresh; apply Hview; by right.
    + by destruct fresh.
    + by destruct fresh.
    + by destruct fresh.
    + intros l. rewrite <- (Hv c l) by (by left). destruct fresh; apply Hview; by left.
    + by destruct fresh.
    + by destruct fresh.
Qed.

Lemma insert_numbers h ps n : forall live,
  n ∈ fold_left (fun live f => num_insert (number (fm h f)) live) ps live <-> n ∈ live \/ exists f, f ∈ ps /\ number (fm h f) = n.
Proof.
  induction ps as [|p ps IH]; intros live; cbn [fold_left].
  { split; [by left|]. intros [?|(f & Hf & _)]; [done|]. by apply not_elem_of_nil in Hf. }
  rewrite IH, num_insert_elem. split; [|set_solver]. intros [[->|?]|(f & Hf & ?)]; [right; exists p; set_solver|by left|right; exists f; set_solver].
Qed.

Lemma elem_of_level_metas h files m : (exists l, m ∈ level_metas h files l) <-> exists f, f ∈ concat files /\ fmeta h f = m.
Proof.
  split.
  - intros (l & Hm). apply list_elem_of_fmap in Hm as (f & -> & Hf). exists f. split; [by apply (level_files_in files l)|done].
  - intros (f & Hf & <-). apply elem_of_concat in Hf as (ps & Hps & Hf). apply list_elem_of_lookup in Hps as [l Hl]. exists l.
    apply list_elem_of_fmap_2. unfold level_files. by rewrite Hl.
Qed.

(** [AddLiveFiles] keeps every file that somebody can reach: the numbers it
    adds are exactly those of the files in the versions that are current or
    held, so deleting the others never removes a file in use. *)
Lemma AddLiveFiles_exact vs c holders live n : set_ok vs c holders ->
  n ∈ AddLiveFiles vs live <-> n ∈ live \/ exists p l m, p ∈ c :: holders /\ m ∈ view vs p l /\ mnum m = n.
Proof.
  intros [Hh _ _ _]. pose proof Hh as [H1 _ H3 _ _ _].
  assert (Hgen : forall ps live, (forall p, p ∈ ps -> p ∈ ring (versions_ vs)) ->
    n ∈ fold_left (fun live p => match by_addr (versions_ vs) !! p with
      | Some v => fold_left (fun live f => num_insert (number (fm (st_files (store_ vs)) f)) live) (concat (files_ v)) live
      | None => live end) ps live <-> n ∈ live \/ exists p l m, p ∈ ps /\ m ∈ view vs p l /\ mnum m = n).
  { induction ps as [|p ps IH]; intros lv Hps; cbn [fold_left].
    { split; [by left|]. intros [?|(p & l & m & Hp & _)]; [done|]. by apply not_elem_of_nil in Hp. }
    rewrite IH by set_solver. destruct (proj1 (H3 p) (Hps p ltac:(by left))) as [v Hv]. rewrite Hv, insert_numbers.
    assert (Hview : (exists f, f ∈ concat (files_ v) /\ number (fm (st_files (store_ vs)) f) = n) <-> exists l m, m ∈ view vs p l /\ mnum m = n).
    { rewrite (view_lookup _ _ _ Hv). pose proof (elem_of_level_metas (st_files (store_ vs)) (files_ v)) as E. split.
      - intros (f & Hf & <-). destruct (proj2 (E (fmeta (st_files (store_ vs)) f))) as [l Hl]; [by exists f|]. by exists l, (fmeta (st_files (store_ vs)) f).
      - intros (l & m & Hm & <-). destruct (proj1 (E m)) as (f & Hf & <-); [by exists l|]. by exists f. }
    rewrite Hview. clear. split.
    - intros [[?|(l & m & ? & ?)]|(q & l & m & ? & ? & ?)]; [by left|right; exists p, l, m; set_solver|right; exists q, l, m; set_solver].
    - intros [?|(q & l & m & [->|Hq]%elem_of_cons & Hm & Hn)]; [by left; left|left; right; by exists l, m|right; by exists q, l, m]. }
  unfold AddLiveFiles. rewrite Hgen by done. f_equiv. split; intros (p & l & m & Hp & Hm); exists p, l, m; (split; [|done]).
  - apply H3 in Hp as [v Hv]. specialize (H1 p). rewrite Hv in H1. by destruct H1.
  - apply H3. destruct (heap_ok_live _ _ _ _ p Hh Hp) as (v & -> & _). by eexists.
Qed.
End Apply.

(** ** An example: a version that a reader holds too, and a failing write *)

Section Example.
#[local] Existing Instance BytewiseComparator.
#[local] Instance crc_example : Crc32c := crc32c_portable 0.

Definition example_options : Options :=
  MkOptions (str "/db") (str "leveldb.BytewiseComparator") 2097152 false false (SFone 53 1024) 2 false true.

Definition example_set_with (v : Version) (ios : list io) : VersionSet :=
  MkVersionSet (MkEnv ∅ ios) example_store (MkVersions {[0 := v]} 1 [0] (Some 0)) 8 7 100 6 0 None (replicate 8 []) (replicate 8 ∅) false.

Definition example_set : list io -> VersionSet := example_set_with (MkVersion 2 example_base None (-1) minus_one (-1)).

Definition example_edit : VersionEdit :=
  AddFile (VersionEdit.DeleteFile VersionEdit_new 1 5) 1 6 10 (InternalKey_make [97] 9 kTypeValue) (InternalKey_make [98] 5 kTypeValue).

Lemma example_store_ok : store_ok example_store [0].
Proof.
  split; intros p; cbn; destruct (decide (p = 0)) as [->|Hne];
    [rewrite lookup_singleton_eq; by_decide|rewrite lookup_singleton_ne by done; set_solver|lia|rewrite lookup_singleton_ne by done; by intros []].
Qed.

Lemma example_set_with_ok v ios : refs_ v = 2 -> files_ v = example_base -> set_ok (example_set_with v ios) 0 [0].
Proof.
  intros Hr Hf. split; [split|done..]; cbn -[file_owners].
  - intros p. destruct (decide (p = 0)) as [->|Hne]; [rewrite lookup_singleton_eq, Hr; by_decide|rewrite lookup_singleton_ne by done; set_solver].
  - apply NoDup_singleton.
  - intros p. rewrite list_elem_of_singleton. destruct (decide (p = 0)) as [->|Hne]; [by rewrite lookup_singleton_eq|].
    rewrite lookup_singleton_ne by done. split; [done|by intros []].
  - intros p. destruct (decide (p = 0)) as [->|Hne]; [lia|]. rewrite lookup_singleton_ne by done. by intros [].
  - unfold file_owners, vr. cbn. rewrite lookup_singleton_eq. cbn. rewrite Hf. exact example_store_ok.
  - intros p w Hp. apply lookup_singleton_Some in Hp as [_ <-]. rewrite Hf. exact built_levels_ok.
Qed.

Lemma example_set_ok ios : set_ok (example_set ios) 0 [0].
Proof. by apply example_set_with_ok. Qed.

Lemma example_edit_applies ios : edit_applies (view (example_set ios) 0) example_edit.
Proof.
  split.
  - exact (Forall_cons_2 new_file_ok _ [] (built_new_ok 6 [97] [98] ltac:(by_decide) ltac:(by_decide) eq_refl) (Forall_nil_2 _)).
  - intros l. destruct l as [|[|[|[|[|[|[|[|l]]]]]]]]; by_decide.
  - intros l Hl a b. destruct l as [|[|[|[|[|[|[|[|l]]]]]]]]; [lia|..]; try (cbn; by intros ?%not_elem_of_nil).
    intros Ha Hb Hne. vm_compute in Ha, Hb. set_solver.
Qed.

Lemma log_and_apply_atomic_witness :
  exists s vs' c', LogAndApply example_options (example_set [IoOk; IoOk; IoErr [1] 2]) example_edit = Some (s, vs') /\ set_ok vs' c' [0] /\
    view vs' 0 1 = view (example_set []) 0 1.
Proof.
  destruct (log_and_apply_atomic example_options (example_set [IoOk; IoOk; IoErr [1] 2]) 0 [0] example_edit) as (s & vs' & c' & E & Hok & Hv & _).
  - apply example_set_ok.
  - apply example_edit_applies.
  - discriminate.
  - exists s, vs', c'. split_and!; [exact E|exact Hok|]. rewrite Hv by (by left). reflexivity.
Defined.

Example live_files_example : 5 ∈ AddLiveFiles (example_set []) [3].
Proof.
  apply (AddLiveFiles_exact (example_set []) 0 [0] [3] 5 (example_set_ok [])). right.
  exists 0, 1%nat, (5, 10, InternalKey_make [97] 9 kTypeValue, InternalKey_make [100] 5 kTypeValue). split; [by left|].
  split; [vm_compute; by left|reflexivity].
Qed.

(** The failing write leaves the reader's version current. *)
Lemma example_failure :
  (fun r => (ok r.1, current_ (versions_ r.2), descriptor_ r.2)) <$> LogAndApply example_options (example_set [IoOk; IoOk; IoErr [1] 2]) example_edit
    = Some (false, Some 0, None).
Proof. vm_compute. reflexivity. Qed.
End Example.
