(* ===== verification/VersionRecover.v ===== *)
(** * VersionRecover: the descriptor log and recovery

    What [LogAndApply] writes when the files do not fail, and what [Recover]
    makes of it: the loop over the records of the descriptor applies exactly the
    edits whose records are complete. *)
From stdpp Require Import gmap sorting.
From Stdlib Require Import SpecFloat.
From S2P Require Import Prelude Coding Crc32c Status Bloom Comparator DbFormat Filename Log VersionEdit Version VersionGet VersionBuilder Manifest VersionSet VersionRefs VersionApply.

(** ** Names *)

Lemma descriptor_base db n : 0 <= n < 2 ^ 64 -> DescriptorFileName db n = db ++ str "/" ++ (str "MANIFEST-" ++ number6 n) /\
  base_name db (DescriptorFileName db n) = str "MANIFEST-" ++ number6 n.
Proof.
  intros Hn. destruct (number6_spec n Hn) as (_ & _ & Hl).
  assert (E : DescriptorFileName db n = db ++ str "/" ++ (str "MANIFEST-" ++ number6 n)).
  { unfold DescriptorFileName. rewrite take_ge; [done|]. rewrite length_app. simpl. lia. }
  split; [done|]. rewrite E. unfold base_name. rewrite <- drop_drop, drop_app_length. done.
Qed.

Lemma descriptor_not_current db n : 0 <= n < 2 ^ 64 -> DescriptorFileName db n <> CurrentFileName db.
Proof. intros Hn. rewrite (proj1 (descriptor_base db n Hn)). unfold CurrentFileName. intros E. apply app_inv_head in E. discriminate. Qed.

Lemma descriptor_not_temp db n k : 0 <= n < 2 ^ 64 -> 0 <= k < 2 ^ 64 -> DescriptorFileName db n <> TempFileName db k.
Proof.
  intros Hn Hk E. apply (f_equal (base_name db)) in E. rewrite (proj2 (descriptor_base db n Hn)) in E.
  unfold TempFileName in E. rewrite MakeFileName_base in E by (done || (simpl; lia)).
  destruct (number6_spec k Hk) as (Hd & _ & Hl). destruct (number6 k) as [|d ds]; [simpl in Hl; lia|]. apply Forall_cons in Hd as [Hd _]. injection E as <- _. done.
Qed.

Lemma SetCurrentFile_ok e db n : 0 <= n < 2 ^ 64 -> env_io e = [] ->
  exists e' t, SetCurrentFile e db n = (Status_OK, e', t) /\ env_io e' = [] /\
    files e' !! CurrentFileName db = Some (base_name db (DescriptorFileName db n) ++ [10]) /\
    forall f, f <> CurrentFileName db -> f <> TempFileName db n -> files e' !! f = files e !! f.
Proof.
  intros Hn Hio. destruct e as [fs ios]. cbn in Hio. subst ios. unfold SetCurrentFile, WriteStringToFileSync, DoWriteStringToFile.
  fold (base_name db (DescriptorFileName db n)). set (b := base_name db _). set (tmp := TempFileName db n). set (cur := CurrentFileName db).
  unfold NewWritableFile, file_Append, file_Sync, file_Close, RenameFile, env_op. cbn [env_io next_io files ok Status_OK negb andb].
  rewrite !lookup_insert_eq. cbn [default]. eexists _, _. split; [reflexivity|]. cbn [files env_io id app]. rewrite lookup_insert_eq. split_and!; [done|apply lookup_insert_eq|].
  intros f H1 H2. by rewrite lookup_insert_ne, lookup_delete_ne, !lookup_insert_ne by done.
Qed.

Section Recover.
Context {C : Comparator} {L : ComparatorLaws C} `{!Crc32c} (o : Options).

Abbreviation enc e := (EncodeTo e []).

(** An edit that survives encoding. *)
Record edit_encodable (e : VersionEdit) : Prop := {
  ee_ok : edit_ok e;
  ee_bytes : edit_bytes e;
  ee_comparator : has_comparator_ e = true -> comparator_ e = comparator_name o
}.

(** The open descriptor holds the records of [es]. *)
Record manifest_log (vs : VersionSet) (es : list VersionEdit) (d : Descriptor) (bs : bytes) : Prop := {
  ml_descriptor : descriptor_ vs = Some d;
  ml_name : d_name d = DescriptorFileName (dbname_ o) (manifest_file_number_ vs);
  ml_ok : descriptor_ok d;
  ml_bytes : files (env_ vs) !! d_name d = Some bs;
  ml_log : log_of 0 ((fun e => enc e) <$> es) bs (d_block_offset d);
  ml_io : env_io (env_ vs) = []
}.

Lemma add_record_log vs es d bs e : manifest_log vs es d bs ->
  exists e' d' bs', add_record vs (enc e) = Some (Status_OK, with_descriptor vs e' (Some d')) /\
    manifest_log (with_descriptor vs e' (Some d')) (es ++ [e]) d' (bs ++ bs') /\
    forall f, f <> d_name d -> files e' !! f = files (env_ vs) !! f.
Proof.
  intros [H1 H2 H3 H4 H5 H6]. unfold add_record. rewrite H1. cbn [mbind option_bind].
  destruct (descriptor_AddRecord_ok (env_ vs) d (enc e) H3 H6) as (bs' & off & He & Ho & ->). cbn [mbind option_bind]. rewrite H4. cbn [default].
  eexists _, _, bs'. split; [done|]. split.
  - split; cbn; try done; [apply lookup_insert_eq|]. rewrite fmap_app. eapply log_of_app; [done|]. cbn. rewrite <- (app_nil_r bs'). by eapply log_cons; [|constructor].
  - intros f Hf. cbn. by rewrite lookup_insert_ne.
Qed.

(** CURRENT names the descriptor. *)
Definition current_points (e : Env) (n : Z) : Prop :=
  files e !! CurrentFileName (dbname_ o) = Some (base_name (dbname_ o) (DescriptorFileName (dbname_ o) n) ++ [10]).

Lemma write_edit_log vs es d bs e : manifest_log vs es d bs ->
  exists e' d' bs', write_edit vs e = Some (Status_OK, with_descriptor vs e' (Some d')) /\
    manifest_log (with_descriptor vs e' (Some d')) (es ++ [e]) d' (bs ++ bs') /\
    forall f, f <> d_name d -> files e' !! f = files (env_ vs) !! f.
Proof.
  intros Hm. unfold write_edit. destruct (add_record_log vs es d bs e Hm) as (e1 & d' & bs' & -> & [M1 M2 M3 M4 M5 M6] & Hf). cbn [mbind option_bind ok Status_OK].
  destruct e1 as [fs ios]. cbn in M6. subst ios. unfold file_Sync, env_op. cbn. eexists _, d', bs'. split; [done|]. split; [by split|done].
Qed.

(** What [LogAndApply] writes on top of an open descriptor. *)
Lemma log_edit_more vs es d bs e : manifest_log vs es d bs -> current_points (env_ vs) (manifest_file_number_ vs) ->
  0 <= manifest_file_number_ vs < 2 ^ 64 ->
  exists e' d' bs', log_edit o vs e false = Some (Status_OK, with_descriptor vs e' (Some d')) /\
    manifest_log (with_descriptor vs e' (Some d')) (es ++ [e]) d' (bs ++ bs') /\ current_points e' (manifest_file_number_ vs).
Proof.
  intros Hm Hc Hn. unfold log_edit. cbn [mbind option_bind ok Status_OK].
  destruct (write_edit_log vs es d bs e Hm) as (e' & d' & bs' & -> & Hm' & Hf). cbn [mbind option_bind ok Status_OK andb].
  exists e', d', bs'. split_and!; [done|done|]. unfold current_points. rewrite Hf; [done|]. rewrite (ml_name _ _ _ _ Hm). intros E. by apply (descriptor_not_current (dbname_ o) (manifest_file_number_ vs) Hn).
Qed.

(** And what it writes when it creates the descriptor. *)
Lemma log_edit_fresh vs v e : current_version vs = Some v -> descriptor_ vs = None -> env_io (env_ vs) = [] -> 0 <= manifest_file_number_ vs < 2 ^ 64 ->
  exists e' d' bs, log_edit o vs e true = Some (Status_OK, with_descriptor vs e' (Some d')) /\
    manifest_log (with_descriptor vs e' (Some d')) [snapshot_edit o vs v; e] d' bs /\ current_points e' (manifest_file_number_ vs).
Proof.
  intros Hv Hd Hio Hn. unfold log_edit, new_manifest. set (name := DescriptorFileName (dbname_ o) (manifest_file_number_ vs)).
  unfold NewWritableFile, env_op. rewrite Hio. cbn [next_io ok Status_OK]. unfold WriteSnapshot.
  set (vs1 := with_descriptor vs (MkEnv (<[name:=[]]> (files (env_ vs))) []) (Some (Descriptor_new name 0))).
  assert (Hv1 : current_version vs1 = Some v) by done. rewrite Hv1. cbn [mbind option_bind].
  assert (Hm1 : manifest_log vs1 [] (Descriptor_new name 0) []) by (split; [done|done|apply Descriptor_new_ok|apply lookup_insert_eq|constructor|done]).
  assert (Hsnap : snapshot_edit o vs1 v = snapshot_edit o vs v) by done. rewrite Hsnap.
  destruct (add_record_log vs1 [] _ _ (snapshot_edit o vs v) Hm1) as (e2 & d2 & bs2 & -> & Hm2 & _). cbn [mbind option_bind ok Status_OK].
  destruct (write_edit_log _ _ _ _ e Hm2) as (e3 & d3 & bs3 & -> & Hm3 & _). cbn [mbind option_bind ok Status_OK andb env_ with_descriptor].
  destruct (SetCurrentFile_ok e3 (dbname_ o) (manifest_file_number_ vs) Hn (ml_io _ _ _ _ Hm3)) as (e4 & t & E & Hio4 & Hcur & Hf).
  change (manifest_file_number_ (with_descriptor (with_descriptor vs1 e2 (Some d2)) e3 (Some d3))) with (manifest_file_number_ vs). rewrite E.
  eexists e4, d3, _. split; [done|]. split; [|done]. destruct Hm3 as [M1 M2 M3 M4 M5 M6]. split; try done. cbn [env_ with_descriptor].
  rewrite Hf; [done|..]; rewrite M2; [by apply descriptor_not_current|by apply descriptor_not_temp].
Qed.

(** ** The snapshot *)

Fixpoint snapshot_list (h : file_heap) (level : Z) (files : list (list Z)) : list (Z * FileMetaData) :=
  match files with
  | [] => []
  | ps :: files =>
      ((fun p => (level, FileMetaData_new (number (fm h p)) (file_size (fm h p)) (smallest (fm h p)) (largest (fm h p)))) <$> ps)
        ++ snapshot_list h (level + 1) files
  end.

Lemma add_files_edit h level ps : forall e,
  fold_left (fun e p => let f := fm h p in AddFile e level (number f) (file_size f) (smallest f) (largest f)) ps e
  = with_lists e (compact_pointers_ e) (deleted_files_ e)
      (new_files_ e ++ ((fun p => (level, FileMetaData_new (number (fm h p)) (file_size (fm h p)) (smallest (fm h p)) (largest (fm h p)))) <$> ps)).
Proof.
  induction ps as [|p ps IH]; intros e; cbn [fold_left fmap list_fmap]; [rewrite app_nil_r; by destruct e|]. rewrite IH. cbn. by rewrite <- app_assoc.
Qed.

Lemma snapshot_files_eq h files : forall level e, snapshot_files h level files e
  = with_lists e (compact_pointers_ e) (deleted_files_ e) (new_files_ e ++ snapshot_list h level files).
Proof.
  induction files as [|ps files IH]; intros level e; cbn [snapshot_files snapshot_list]; [rewrite app_nil_r; by destruct e|].
  rewrite IH, add_files_edit. cbn. by rewrite <- app_assoc.
Qed.

Fixpoint pointer_list (level : Z) (cp : list bytes) : list (Z * bytes) :=
  match cp with
  | [] => []
  | key :: cp => match key with [] => [] | _ => [(level, key)] end ++ pointer_list (level + 1) cp
  end.

Lemma snapshot_pointers_eq cp : forall level e, snapshot_pointers level cp e
  = with_lists e (compact_pointers_ e ++ pointer_list level cp) (deleted_files_ e) (new_files_ e).
Proof.
  induction cp as [|key cp IH]; intros level e; cbn [snapshot_pointers pointer_list]; [rewrite app_nil_r; by destruct e|].
  rewrite IH. destruct key as [|b k]; [done|]. cbn. by rewrite <- app_assoc.
Qed.

Lemma snapshot_edit_eq vs v : snapshot_edit o vs v
  = with_lists (SetComparatorName VersionEdit_new (comparator_name o)) (pointer_list 0 (compact_pointer_ vs)) [] (snapshot_list (st_files (store_ vs)) 0 (files_ v)).
Proof. unfold snapshot_edit. by rewrite snapshot_files_eq, snapshot_pointers_eq. Qed.

Lemma adds_at_snapshot h files : forall k l, adds_at l (snapshot_list h (Z.of_nat k) files) = if decide (k <= l)%nat then level_metas h files (l - k) else [].
Proof.
  induction files as [|ps files IH]; intros k l; cbn [snapshot_list]; [by case_decide|]. rewrite adds_at_app.
  replace (Z.of_nat k + 1) with (Z.of_nat (S k)) by lia. rewrite IH.
  assert (Hhere : adds_at l ((fun p => (Z.of_nat k, FileMetaData_new (number (fm h p)) (file_size (fm h p)) (smallest (fm h p)) (largest (fm h p)))) <$> ps)
    = if decide (k = l) then fmeta h <$> ps else []).
  { clear. induction ps as [|p ps IH]; [by case_decide|]. rewrite fmap_cons, adds_at_cons, IH. cbn [fst]. rewrite Nat2Z.id. by repeat case_decide. }
  rewrite Hhere. destruct (decide (k = l)) as [->|Hne].
  - rewrite decide_False, decide_True, app_nil_r, Nat.sub_diag by lia. done.
  - destruct (decide (S k <= l)%nat); [rewrite decide_True by lia|rewrite decide_False by lia; done]. cbn [app].
    replace (l - k)%nat with (S (l - S k)) by lia. done.
Qed.

Lemma snapshot_adds vs v l : edit_adds (snapshot_edit o vs v) l = level_metas (st_files (store_ vs)) (files_ v) l.
Proof.
  rewrite snapshot_edit_eq. change (adds_at l (snapshot_list (st_files (store_ vs)) (Z.of_nat 0) (files_ v)) = level_metas (st_files (store_ vs)) (files_ v) l).
  rewrite adds_at_snapshot, decide_True by lia. by rewrite Nat.sub_0_r.
Qed.

(** A file and a pointer that survive encoding. *)
Definition meta_encodable (m : file_meta) : Prop :=
  num_ok (mnum m) /\ num_ok m.1.1.2 /\ zlen (msmall m) < 2 ^ 32 /\ zlen (mlarge m) < 2 ^ 32.

Definition pointer_encodable (key : bytes) : Prop := zlen key < 2 ^ 32 /\ bytes_ok key.

Lemma meta_ok_bytes m : meta_ok m -> bytes_ok (msmall m) /\ bytes_ok (mlarge m).
Proof.
  intros (H1 & H2 & _). split; [destruct H1 as (u & s & t & Hu & _ & ->)|destruct H2 as (u & s & t & Hu & _ & ->)];
    (apply bytes_ok_app; split; [by apply valid_bytes|apply EncodeFixed64_ok]).
Qed.

Lemma snapshot_list_in h files : forall level x, x ∈ snapshot_list h level files ->
  exists l m, m ∈ level_metas h files l /\ (l < length files)%nat /\ x.1 = level + Z.of_nat l /\ meta x.2 = m /\
    x.2 = FileMetaData_new (number x.2) (file_size x.2) (smallest x.2) (largest x.2).
Proof.
  induction files as [|ps files IH]; intros level x; cbn [snapshot_list]; [by intros ?%not_elem_of_nil|]. rewrite elem_of_app. intros [Hx|Hx].
  - apply list_elem_of_fmap in Hx as (p & -> & Hp). exists 0%nat, (fmeta h p). cbn. split_and!; [by apply list_elem_of_fmap_2|lia|lia|done|done].
  - destruct (IH _ _ Hx) as (l & m & Hm & Hl & H1 & H2). exists (S l), m. cbn [length]. split_and!; [exact Hm|lia|lia|apply H2..].
Qed.

Lemma pointer_list_in cp : forall level x, x ∈ pointer_list level cp -> exists l, cp !! l = Some x.2 /\ x.1 = level + Z.of_nat l.
Proof.
  induction cp as [|key cp IH]; intros level x; cbn [pointer_list]; [by intros ?%not_elem_of_nil|]. rewrite elem_of_app. intros [Hx|Hx].
  - exists 0%nat. destruct key as [|b k]; [by apply not_elem_of_nil in Hx|]. apply list_elem_of_singleton in Hx as ->. cbn. split; [done|lia].
  - destruct (IH _ _ Hx) as (l & Hl & E). exists (S l). split; [done|lia].
Qed.

(** The options are as the engine sets them. *)
Record options_ok : Prop := {
  oo_name : zlen (comparator_name o) < 2 ^ 32;
  oo_bytes : bytes_ok (comparator_name o);
  oo_keep : force_delete_level0_file o = false
}.

Lemma snapshot_files_ok vs v : levels_ok (st_files (store_ vs)) (files_ v) -> edit_files_ok (snapshot_edit o vs v).
Proof.
  intros [H1 H2 _ _ _]. unfold edit_files_ok. rewrite snapshot_edit_eq. apply Forall_forall. intros x Hx. cbn in Hx.
  destruct (snapshot_list_in _ _ _ _ Hx) as (l & m & Hm & Hl & E1 & <- & _). specialize (H2 l). rewrite Forall_forall in H2.
  split; [unfold kNumLevels in *; lia|by apply H2].
Qed.

Lemma snapshot_encodable vs v : options_ok -> levels_ok (st_files (store_ vs)) (files_ v) ->
  (forall l m, m ∈ level_metas (st_files (store_ vs)) (files_ v) l -> meta_encodable m) ->
  length (compact_pointer_ vs) = Z.to_nat kNumLevels -> Forall pointer_encodable (compact_pointer_ vs) ->
  edit_encodable (snapshot_edit o vs v).
Proof.
  intros [O1 O2 _] [H1 H2 _ _ _] Hm Hlen Hcp. rewrite snapshot_edit_eq. rewrite Forall_forall in Hcp.
  assert (Hp : forall x, x ∈ pointer_list 0 (compact_pointer_ vs) -> level_ok x.1 /\ pointer_encodable x.2).
  { intros x Hx. destruct (pointer_list_in _ _ _ Hx) as (l & Hl & E). pose proof (lookup_lt_Some _ _ _ Hl).
    split; [unfold level_ok; rewrite Hlen in *; unfold kNumLevels in *; lia|]. apply Hcp. by eapply list_elem_of_lookup_2. }
  assert (Hx : forall x, x ∈ snapshot_list (st_files (store_ vs)) 0 (files_ v) -> level_ok x.1 /\ meta_ok (meta x.2) /\ meta_encodable (meta x.2) /\
    x.2 = FileMetaData_new (number x.2) (file_size x.2) (smallest x.2) (largest x.2)).
  { intros x Hx. destruct (snapshot_list_in _ _ _ _ Hx) as (l & m & Hin & Hl & E1 & <- & E2). specialize (H2 l). rewrite Forall_forall in H2.
    split_and!; [unfold level_ok, kNumLevels in *; lia|by apply H2|by apply (Hm l)|done]. }
  split; [split|split|done]; cbn; try (by (split; [unfold num_ok; lia|])); try done.
  - apply Forall_forall. intros x Hin. destruct (Hp x Hin) as [? [? _]]. done.
  - apply Forall_forall. intros x Hin. destruct (Hx x Hin) as (? & _ & (? & ? & ? & ?) & ?). split; [done|]. by split_and!.
  - apply Forall_forall. intros x Hin. by destruct (Hp x Hin) as [_ [_ ?]].
  - apply Forall_forall. intros x Hin. destruct (Hx x Hin) as (_ & Hok & _). exact (meta_ok_bytes _ Hok).
Qed.

Lemma complete_encodable vs e e' : edit_encodable e -> complete_edit vs e = Some e' ->
  num_ok (log_number vs) -> num_ok (prev_log_number vs) -> num_ok (next_file vs) -> num_ok (last_seq vs) -> edit_encodable e'.
Proof.
  intros [[[E1 E1'] [E2 E2'] [E3 E3'] [E4 E4'] [E5 E5'] E6 [E7 E7'] E8] [B1 B2 B3] Hc] Hce N1 N2 N3 N4. unfold complete_edit in Hce.
  destruct (has_log_number_ e) eqn:El; [case_match; [|done]|]; cbn [mbind option_bind] in Hce; injection Hce as <-;
    cbn [has_prev_log_number_ SetLogNumber];
    destruct (has_prev_log_number_ e) eqn:Ep; (split; [split|split|]; cbn; first [done|split; first [done|congruence|auto]]).
Qed.

(** ** The loop over the records *)

Definition recover_edit (r : Recovery) (e : VersionEdit) : Recovery :=
  let '(cp, st, levels) := Apply (rc_pointers r) (rc_store r) (rc_levels r) e in
  MkRecovery Status_OK (number_field (has_log_number_ e) (log_number_ e) (rc_log r))
    (number_field (has_prev_log_number_ e) (prev_log_number_ e) (rc_prev r))
    (number_field (has_next_file_number_ e) (next_file_number_ e) (rc_next r))
    (number_field (has_last_sequence_ e) (last_sequence_ e) (rc_last r)) cp st levels.

Lemma recover_record_ok r e : edit_encodable e -> recover_record o r (enc e) = Some (recover_edit r e).
Proof.
  intros [He _ Hc]. unfold recover_record, recover_edit. rewrite decode_encode_new by done. cbn [mbind option_bind]. unfold check_comparator. cbn [ok Status_OK andb].
  assert (E : has_comparator_ e && negb (Slice_eqb (comparator_ e) (comparator_name o)) = false).
  { destruct (has_comparator_ e); [|done]. rewrite (proj2 (Slice_eqb_spec _ _)) by (by apply Hc). done. }
  rewrite E. cbn [ok]. by destruct (Apply _ _ _ _) as [[cp st] levels].
Qed.

Lemma recover_edit_status r e : rc_status (recover_edit r e) = Status_OK.
Proof. unfold recover_edit. by destruct (Apply _ _ _ _) as [[cp st] levels]. Qed.

Lemma with_status_same r : with_status r (rc_status r) = r.
Proof. by destruct r. Qed.

Lemma recover_loop_clean es : forall rd rd' r fuel, clean_reads rd ((fun e => enc e) <$> es) rd' -> Forall edit_encodable es ->
  rc_status r = Status_OK -> (unread rd < fuel)%nat -> recover_loop o fuel rd r = Some (rd', fold_left recover_edit es r).
Proof.
  induction es as [|e es IH]; intros rd rd' r fuel Hr Hes Hs Hf; destruct fuel as [|fuel]; try lia; cbn [recover_loop].
  - inversion Hr as [? ? Hread Hrep|]; subst. rewrite Hread. cbn [mbind option_bind andb]. rewrite Hrep, drop_all. cbn [fold_left]. by rewrite with_status_same.
  - inversion Hr as [|? ? rd1 ? ? Hread Hrep Hlt Hr']; subst. rewrite Hread. cbn [mbind option_bind]. rewrite Hrep, drop_all. cbn [fold_left].
    rewrite with_status_same, Hs. cbn [ok Status_OK andb]. apply Forall_cons in Hes as [He Hes]. rewrite recover_record_ok by done. cbn [mbind option_bind].
    apply IH; [done|done|apply recover_edit_status|lia].
Qed.

Lemma recover_edits_builder es : forall r,
  (rc_pointers (fold_left recover_edit es r), rc_store (fold_left recover_edit es r), rc_levels (fold_left recover_edit es r))
  = apply_all (rc_pointers r) (rc_store r) (rc_levels r) es.
Proof.
  induction es as [|e es IH]; intros r; [done|]. cbn [fold_left apply_all]. rewrite IH. unfold recover_edit. by destruct (Apply _ _ _ _) as [[cp st] levels].
Qed.

(** An edit with all four numbers decides them. *)
Definition full_numbers (e : VersionEdit) : Prop :=
  has_log_number_ e = true /\ has_prev_log_number_ e = true /\ has_next_file_number_ e = true /\ has_last_sequence_ e = true.

Lemma recover_edits_numbers es e r : full_numbers e -> let r' := fold_left recover_edit (es ++ [e]) r in
  rc_status r' = Status_OK /\ rc_log r' = Some (log_number_ e) /\ rc_prev r' = Some (prev_log_number_ e) /\
  rc_next r' = Some (next_file_number_ e) /\ rc_last r' = Some (last_sequence_ e).
Proof.
  intros (H1 & H2 & H3 & H4). rewrite fold_left_app. cbn [fold_left]. unfold recover_edit. destruct (Apply _ _ _ _) as [[cp st] levels]. cbn.
  by rewrite H1, H2, H3, H4.
Qed.

(** ** A new version set *)

Lemma empty_level h n l : level_metas h (replicate n []) l = [].
Proof.
  unfold level_metas, level_files. destruct (replicate n ([] : list Z) !! l) as [x|] eqn:El; [|done]. by apply lookup_replicate in El as [-> _].
Qed.

Lemma empty_levels_ok h : levels_ok h (replicate (Z.to_nat kNumLevels) []).
Proof. split; [apply length_replicate|..]; intros l; rewrite empty_level; constructor. Qed.

Lemma VersionSet_new_ok e : exists vs, VersionSet_new e = Some vs /\ set_ok vs 0 [] /\ (forall l, view vs 0 l = []) /\
  env_ vs = e /\ descriptor_ vs = None /\ compact_pointer_ vs = replicate (Z.to_nat kNumLevels) [].
Proof.
  eexists. split; [reflexivity|]. split_and!; try done.
  - split; [split|done..|apply length_replicate]; cbn -[file_owners kNumLevels].
    + intros p. destruct (decide (p = 0)) as [->|Hne]; [rewrite lookup_insert_eq; by_decide|rewrite lookup_insert_ne, lookup_empty by done; set_solver].
    + apply NoDup_singleton.
    + intros p. rewrite list_elem_of_singleton. destruct (decide (p = 0)) as [->|Hne]; [by rewrite lookup_insert_eq|].
      rewrite lookup_insert_ne, lookup_empty by done. split; [done|by intros []].
    + intros p. destruct (decide (p = 0)) as [->|Hne]; [lia|]. rewrite lookup_insert_ne, lookup_empty by done. by intros [].
    + split; intros p; cbn; [apply not_elem_of_nil|by intros []].
    + intros p v Hp. destruct (decide (p = 0)) as [->|Hne]; [|by rewrite lookup_insert_ne in Hp]. rewrite lookup_insert_eq in Hp. injection Hp as <-. apply empty_levels_ok.
  - intros l. apply (empty_level _ (Z.to_nat kNumLevels) l).
Qed.

(** ** [Recover] on a descriptor that reads cleanly *)

Lemma ReuseManifest_ok vs n b : descriptor_ vs = None -> exists reused e d man,
  ReuseManifest o vs n b = Some (reused, with_numbers (with_descriptor vs e d) (next_file vs) man (last_seq vs) (log_number vs) (prev_log_number vs)) /\ descriptor_good d.
Proof.
  intros Hd. assert (Hsame : forall e, with_env vs e = with_numbers (with_descriptor vs e None) (next_file vs) (manifest_file_number_ vs) (last_seq vs) (log_number vs) (prev_log_number vs)).
  { intros e. destruct vs. cbn in *. by subst. }
  assert (Hid : vs = with_numbers (with_descriptor vs (env_ vs) None) (next_file vs) (manifest_file_number_ vs) (last_seq vs) (log_number vs) (prev_log_number vs)).
  { destruct vs. cbn in *. by subst. }
  assert (Hquit : forall e, exists reused e' d man, Some (false, with_env vs e) =
    Some (reused, with_numbers (with_descriptor vs e' d) (next_file vs) man (last_seq vs) (log_number vs) (prev_log_number vs)) /\ descriptor_good d).
  { intros e. exists false, e, None, (manifest_file_number_ vs). by rewrite Hsame. }
  unfold ReuseManifest. destruct (reuse_logs o); cbn [negb].
  2: { exists false, (env_ vs), None, (manifest_file_number_ vs). by rewrite <- Hid. }
  destruct (ParseFileName b) as [[num []]|]; try (exists false, (env_ vs), None, (manifest_file_number_ vs); by rewrite <- Hid).
  destruct (GetFileSize (env_ vs) n) as [[s size] e1]. case_match; [apply Hquit|]. cbn [descriptor_ with_env]. rewrite Hd.
  destruct (NewAppendableFile _ n) as [r e2]. destruct (ok r); cbn [negb].
  - eexists true, e2, (Some (Descriptor_new n size)), num. split; [done|]. intros x [= <-]. apply Descriptor_new_ok.
  - apply (Hquit e2).
Qed.

Lemma view_out_of_range vs c holders l : set_ok vs c holders -> (Z.to_nat kNumLevels <= l)%nat -> view vs c l = [].
Proof.
  intros [Hh _ _ _] Hl. destruct (heap_ok_live _ _ _ _ c Hh ltac:(by left)) as (v & Hv & _). destruct Hh as [_ _ _ _ _ H6].
  rewrite (view_lookup _ _ _ Hv). destruct (H6 c v Hv) as [Hlen _ _ _ _]. unfold level_metas, level_files. by rewrite lookup_ge_None_2 by lia.
Qed.

Lemma apply_edits_ext es : forall B B' l, B l = B' l -> apply_edits B es l = apply_edits B' es l.
Proof. induction es as [|e es IH]; intros B B' l E; [done|]. cbn. apply IH. unfold apply_edit. by rewrite E. Qed.

Definition no_files (l : nat) : list file_meta := [].

(** Edits that can be replayed from nothing. *)
Record replayable (es : list VersionEdit) : Prop := {
  rp_files : Forall edit_files_ok es;
  rp_nodup : forall l, NoDup (nums (adds_of es l));
  rp_disjoint : forall l, (0 < l)%nat -> pairwise_disjoint (apply_edits no_files es l)
}.

(** The recovered version is installed, and the builder's and the old version's
    references are dropped. *)
Lemma install_recovered_ok vs c base levels next la lg pr n b sm A S :
  heap_ok (store_ vs) (versions_ vs) [c; c] (concat (added_files <$> levels)) -> current_ (versions_ vs) = Some c -> by_addr (versions_ vs) !! c = Some base ->
  builder_ok (store_ vs) levels (file_owners (versions_ vs)) (level_metas (st_files (store_ vs)) (files_ base)) A S ->
  (forall l, (0 < l)%nat -> pairwise_disjoint (S l)) -> length (files_extra_ vs) = Z.to_nat kNumLevels -> descriptor_ vs = None ->
  exists save vs1 vs' c', install_recovered o vs base levels next la lg pr n b sm = Some (save, vs1) /\
    Version_Unref (with_heap vs1 (MkStore (drop_added levels (st_files (store_ vs1))) (st_next (store_ vs1))) (versions_ vs1)) c = Some vs' /\
    set_ok vs' c' [] /\ (forall l, (l < Z.to_nat kNumLevels)%nat -> view vs' c' l ≡ₚ S l) /\
    next_file vs' = u64 (next + 1) /\ last_seq vs' = la /\ log_number vs' = lg /\ prev_log_number vs' = pr /\ compact_pointer_ vs' = compact_pointer_ vs.
Proof.
  intros Hh Hc Hb Hbo Hdis Hx Hd. pose proof Hh as [H1 H2 H3 H4 H5 H6]. unfold install_recovered.
  destruct (save_ok (init_ vs) (store_ vs) levels (file_owners (versions_ vs)) (files_ base) (files_extra_ vs) A S Hbo) as (h & files & extra & -> & Hx' & Hs & Hm & Hl & Hp);
    [|by apply (H6 c)|done|done|].
  { intros p Hp. apply list_elem_of_bind. exists c. rewrite (vr_lookup _ _ _ Hb). split; [done|]. apply H3. by eexists. }
  cbn [mbind option_bind]. set (vs2 := with_built vs (MkStore h (st_next (store_ vs))) (compact_pointer_ vs) extra false).
  destruct (Finalize_files o h (MkVersion 0 files None (-1) minus_one (-1))) as [Ff Fr]. set (v := Finalize o h (MkVersion 0 files None (-1) minus_one (-1))) in *. cbn in Ff, Fr.
  destruct (AppendVersion_ok vs2 [c] (concat (added_files <$> levels)) v c) as (s3 & vv3 & c' & -> & Hh3 & Hc3 & Hv3 & Hf3 & Hm3).
  { rewrite Ff. split; try done.
    - cbn [store_ versions_ vs2 with_built]. rewrite (Permutation_app_comm (concat files)), app_assoc, (Permutation_app_comm (file_owners _)), <- app_assoc.
      by rewrite (Permutation_app_comm (file_owners _)).
    - intros p w Hw. apply (levels_ok_ext (st_files (store_ vs))); [by apply (H6 p)|]. intros f _. apply Hm. }
  { done. }
  { done. }
  { by rewrite Ff. }
  cbn [mbind option_bind]. set (vs4 := with_numbers (with_heap vs2 s3 vv3) (u64 (next + 1)) next la lg pr).
  destruct (ReuseManifest_ok vs4 n b Hd) as (reused & e5 & d5 & man & -> & Hg5). cbn [mbind option_bind].
  set (vs5 := with_numbers (with_descriptor vs4 e5 d5) _ _ _ _ _).
  destruct (drop_added_ok levels (st_files s3) (st_next s3) (file_owners vv3)) as [Hs6 Hm6].
  { destruct Hh3 as [_ _ _ _ [G1 G2] _]. split; [by rewrite Permutation_app_comm|done]. }
  set (s6 := MkStore (drop_added levels (st_files s3)) (st_next s3)) in *.
  assert (Hh6 : heap_ok s6 vv3 (c :: [c']) []).
  { rewrite (Permutation_swap c' c []). destruct Hh3 as [G1 G2 G3 G4 G5 G6]. split; try done; [by rewrite app_nil_r|].
    intros p w Hw. apply (levels_ok_ext (st_files s3)); [by apply (G6 p)|]. intros f Hf. apply Hm6. apply list_elem_of_bind. exists p.
    rewrite (vr_lookup _ _ _ Hw). split; [done|]. apply G3. by eexists. }
  destruct (Version_Unref_ok (with_heap vs5 s6 vv3) [c'] [] c Hh6) as (s7 & vv7 & E7 & Hh7 & [F1 F2 F3]).
  eexists _, vs5, _, c'. split; [done|]. split; [exact E7|]. split_and!; try done.
  - split; [done|exact (eq_trans F3 Hc3)|done|done].
  - intros l Hlt. unfold view. cbn [store_ versions_ with_heap]. rewrite (F1 c') by (by left). cbn [versions_ with_heap]. rewrite (vr_lookup _ _ _ Hv3). cbn [files_ with_count].
    rewrite <- (Hp l Hlt), <- Ff. apply Permutation_refl', level_metas_ext. intros f Hf.
    assert (Hown : f ∈ file_owners vv7 ++ []).
    { destruct (heap_ok_live _ _ _ _ c' Hh7 ltac:(by left)) as (w & Hw & _). apply (live_files_owned s7 vv7 [c'] [] c' w); [done|done|].
      rewrite <- (vr_lookup _ _ _ Hw), (F1 c') by (by left). cbn [versions_ with_heap]. by rewrite (vr_lookup _ _ _ Hv3). }
    rewrite (F2 f Hown). cbn [store_ with_heap]. cbn [st_files s6].
    assert (Hown3 : f ∈ file_owners vv3). { apply list_elem_of_bind. exists c'. rewrite (vr_lookup _ _ _ Hv3). split; [done|]. destruct Hh3 as [_ _ G3 _ _ _]. apply G3. by eexists. }
    rewrite Hm6 by done. apply Hm3, elem_of_app. by left.
Qed.

(** The loop over the records leaves a consistent heap with the builder's
    references beside the versions'. *)
Lemma collect_heap vs c es cp : set_ok vs c [] -> (forall l, view vs c l = []) -> replayable es ->
  exists vv1 base cp' s1 levels, Version_Ref vs c = Some (with_heap vs (store_ vs) vv1) /\ by_addr vv1 !! c = Some base /\ current_ vv1 = Some c /\
    apply_all cp (store_ vs) (replicate (Z.to_nat kNumLevels) LevelState_new) es = (cp', s1, levels) /\
    heap_ok s1 vv1 [c; c] (concat (added_files <$> levels)) /\
    builder_ok s1 levels (file_owners vv1) (level_metas (st_files s1) (files_ base)) (adds_of es) (apply_edits (level_metas (st_files (store_ vs)) (files_ base)) es) /\
    forall l, apply_edits (level_metas (st_files (store_ vs)) (files_ base)) es l = apply_edits no_files es l.
Proof.
  intros [Hh Hc _ _] Hview [R1 R2 R3]. destruct (Version_Ref_ok vs [c] [] c Hh ltac:(by left)) as (vv1 & E1 & Hh1 & [F1 F2 F3]).
  destruct (heap_ok_live _ _ _ _ c Hh1 ltac:(by left)) as (base & Hb & _). pose proof Hh1 as [G1 G2 G3 G4 G5 G6].
  assert (Hemp : forall l, level_metas (st_files (store_ vs)) (files_ base) l = []).
  { intros l. rewrite <- (Hview l). unfold view. rewrite <- (F1 c) by (by left). by rewrite (vr_lookup _ _ _ Hb). }
  rewrite app_nil_r in G5.
  destruct (collect_ok cp (store_ vs) (file_owners vv1) (files_ base) es) as (cp' & s1 & levels & Eall & Hbo & Hl1 & Hm1 & Hn1); [done| |by apply (G6 c)|done| |].
  { intros p Hp. apply list_elem_of_bind. exists c. rewrite (vr_lookup _ _ _ Hb). split; [done|]. apply G3. by eexists. }
  { intros l. rewrite Hemp. apply R2. }
  exists vv1, base, cp', s1, levels. split_and!; try done; [congruence| |].
  - split; try done.
    + destruct Hbo as [_ B2 B3 _]. split; [by rewrite Permutation_app_comm|done].
    + intros p w Hw. apply (levels_ok_ext (st_files (store_ vs))); [by apply (G6 p)|]. intros f Hf. apply Hm1. apply list_elem_of_bind. exists p.
      rewrite (vr_lookup _ _ _ Hw). split; [done|]. apply G3. by eexists.
  - intros l. apply apply_edits_ext, Hemp.
Qed.

(** Finding the descriptor through CURRENT. *)
Lemma Recover_opens vs e n G sm : env_ vs = e -> 0 <= n < 2 ^ 64 -> env_io e = [] -> current_points e n ->
  files e !! DescriptorFileName (dbname_ o) n = Some G ->
  Recover o vs sm = Recover_from o (with_env (with_env vs e) (MkEnv (files e) [])) (SFile G []) (DescriptorFileName (dbname_ o) n) (str "MANIFEST-" ++ number6 n) sm.
Proof.
  intros Henv Hn Hio Hcur HG. destruct (descriptor_base (dbname_ o) n Hn) as [Ename Ebase]. unfold current_points in Hcur. rewrite Ebase in Hcur.
  set (b := str "MANIFEST-" ++ number6 n) in *. unfold Recover. rewrite Henv.
  rewrite (ReadFileToString_ok e _ _ Hio Hcur). cbn [mbind option_bind ok Status_OK negb]. rewrite last_snoc. cbn [Z.eqb Pos.eqb negb].
  assert (Et : take (length (b ++ [10]) - 1) (b ++ [10]) = b) by (rewrite length_app, Nat.add_sub; apply take_app_length).
  rewrite Et, <- Ename. unfold NewSequentialFile. cbn [env_ with_env]. rewrite Hio. cbn [next_io]. by rewrite HG.
Qed.

(** The numbers a recovery ends with. *)
Definition recovered_numbers (r : Recovery) (el : VersionEdit) : Prop :=
  rc_status r = Status_OK /\ rc_log r = Some (log_number_ el) /\ rc_prev r = Some (prev_log_number_ el) /\
  rc_next r = Some (next_file_number_ el) /\ rc_last r = Some (last_sequence_ el).

(** [Recover_from] once the loop has ended. *)
Lemma Recover_from_ends vs c vs1 base file dscname b sm rd rd' r el save vs5 vs' :
  current_ (versions_ vs) = Some c -> Version_Ref vs c = Some vs1 -> by_addr (versions_ vs1) !! c = Some base -> force_delete_level0_file o = false ->
  rd = Reader_new file true true 0 ->
  recover_loop o (S (unread rd)) rd (MkRecovery Status_OK None None None None (compact_pointer_ vs1) (store_ vs1) (replicate (Z.to_nat kNumLevels) LevelState_new)) = Some (rd', r) ->
  recovered_numbers r el ->
  let vs2 := with_env (with_built vs1 (rc_store r) (rc_pointers r) (files_extra_ vs1) (init_ vs1)) (MkEnv (files (env_ vs1)) (s_io (file_ rd'))) in
  install_recovered o (MarkFileNumberUsed (MarkFileNumberUsed vs2 (prev_log_number_ el)) (log_number_ el)) base (rc_levels r)
    (next_file_number_ el) (last_sequence_ el) (log_number_ el) (prev_log_number_ el) dscname b sm = Some (save, vs5) ->
  Version_Unref (with_heap vs5 (MkStore (drop_added (rc_levels r) (st_files (store_ vs5))) (st_next (store_ vs5))) (versions_ vs5)) c = Some vs' ->
  Recover_from o vs file dscname b sm = Some (Status_OK, save, vs').
Proof.
  intros Hc Hr Hb Hk -> Hloop (N1 & N2 & N3 & N4 & N5) vs2 Hinst Hun. unfold Recover_from. rewrite Hc. cbn [mbind option_bind]. rewrite Hr. cbn [mbind option_bind].
  rewrite Hb. cbn [mbind option_bind]. rewrite Hloop. cbn [mbind option_bind]. unfold missing_entry. rewrite N1, N2, N3, N4, N5, Hk. cbn [ok Status_OK default from_option id].
  fold vs2. rewrite Hinst. cbn [mbind option_bind]. by rewrite Hun.
Qed.

Lemma MarkFileNumberUsed_rest vs n : store_ (MarkFileNumberUsed vs n) = store_ vs /\ versions_ (MarkFileNumberUsed vs n) = versions_ vs /\
  files_extra_ (MarkFileNumberUsed vs n) = files_extra_ vs /\ descriptor_ (MarkFileNumberUsed vs n) = descriptor_ vs /\
  compact_pointer_ (MarkFileNumberUsed vs n) = compact_pointer_ vs.
Proof. unfold MarkFileNumberUsed. by destruct (next_file vs <=? n). Qed.

Lemma Recover_from_clean vs c file dscname b es el sm rd' : options_ok -> set_ok vs c [] -> (forall l, view vs c l = []) -> descriptor_ vs = None ->
  clean_reads (Reader_new file true true 0) ((fun e => enc e) <$> (es ++ [el])) rd' ->
  Forall edit_encodable (es ++ [el]) -> full_numbers el -> replayable (es ++ [el]) ->
  exists save vs' c', Recover_from o vs file dscname b sm = Some (Status_OK, save, vs') /\ set_ok vs' c' [] /\
    (forall l, (l < Z.to_nat kNumLevels)%nat -> view vs' c' l ≡ₚ apply_edits no_files (es ++ [el]) l) /\
    next_file vs' = u64 (next_file_number_ el + 1) /\ last_seq vs' = last_sequence_ el /\ log_number vs' = log_number_ el /\
    prev_log_number vs' = prev_log_number_ el /\ compact_pointer_ vs' = apply_pointers (compact_pointer_ vs) (es ++ [el]).
Proof.
  intros [_ _ Okeep] Hok Hview Hdesc Hread Henc Hfull Hrep.
  destruct (collect_heap vs c (es ++ [el]) (compact_pointer_ vs) Hok Hview Hrep) as (vv3 & base & cp' & s1 & levels & Href & Hb & Hc3 & Hall & Hh & Hbo & Heq).
  set (r0 := MkRecovery Status_OK None None None None (compact_pointer_ vs) (store_ vs) (replicate (Z.to_nat kNumLevels) LevelState_new)).
  pose proof (recover_loop_clean (es ++ [el]) _ rd' r0 (S (unread (Reader_new file true true 0))) Hread Henc eq_refl ltac:(lia)) as Hloop.
  pose proof (recover_edits_numbers es el r0 Hfull) as Hnum. pose proof (recover_edits_builder (es ++ [el]) r0) as Hr.
  revert Hloop Hnum Hr. generalize (fold_left recover_edit (es ++ [el]) r0). intros r Hloop Hnum Hr. cbn [rc_pointers rc_store rc_levels r0] in Hr. rewrite Hall in Hr.
  injection Hr as R1 R2 R3.
  set (vs2 := with_env (with_built (with_heap vs (store_ vs) vv3) (rc_store r) (rc_pointers r) (files_extra_ vs) (init_ vs)) (MkEnv (files (env_ vs)) (s_io (file_ rd')))).
  set (vs4 := MarkFileNumberUsed (MarkFileNumberUsed vs2 (prev_log_number_ el)) (log_number_ el)).
  assert (V : store_ vs4 = s1 /\ versions_ vs4 = vv3 /\ files_extra_ vs4 = files_extra_ vs /\ descriptor_ vs4 = None /\ compact_pointer_ vs4 = cp').
  { unfold vs4. pose proof (MarkFileNumberUsed_rest (MarkFileNumberUsed vs2 (prev_log_number_ el)) (log_number_ el)) as (-> & -> & -> & -> & ->).
    pose proof (MarkFileNumberUsed_rest vs2 (prev_log_number_ el)) as (-> & -> & -> & -> & ->). by rewrite <- R1, <- R2. }
  destruct V as (V1 & V2 & V3 & V4 & V5).
  destruct (install_recovered_ok vs4 c base levels (next_file_number_ el) (last_sequence_ el) (log_number_ el) (prev_log_number_ el)
    dscname b sm (adds_of (es ++ [el])) (apply_edits (level_metas (st_files (store_ vs)) (files_ base)) (es ++ [el])))
    as (save & vs5 & vs' & c' & E5 & E6 & Hok6 & Hv6 & M1 & M2 & M3 & M4 & M5); rewrite ?V1, ?V2, ?V3; try done.
  { intros l Hl. rewrite Heq. by apply Hrep. }
  { by destruct Hok. }
  exists save, vs', c'. split.
  { apply (Recover_from_ends vs c (with_heap vs (store_ vs) vv3) base file dscname b sm (Reader_new file true true 0) rd' r el save vs5 vs');
      [by apply (sk_current _ _ _ Hok)|done|done|done|done|exact Hloop|exact Hnum|by rewrite R3|by rewrite R3]. }
  split_and!; try done.
  - intros l Hl. rewrite <- Heq. by apply Hv6.
  - rewrite M5, V5. pose proof (apply_all_pointers (es ++ [el]) (compact_pointer_ vs) (store_ vs) (replicate (Z.to_nat kNumLevels) LevelState_new)) as Hp.
    by rewrite Hall in Hp.
Qed.

Lemma Recover_clean e n G es el sm rd' : options_ok -> 0 <= n < 2 ^ 64 -> env_io e = [] -> current_points e n ->
  files e !! DescriptorFileName (dbname_ o) n = Some G ->
  clean_reads (Reader_new (SFile G []) true true 0) ((fun e => enc e) <$> (es ++ [el])) rd' ->
  Forall edit_encodable (es ++ [el]) -> full_numbers el -> replayable (es ++ [el]) ->
  exists vs1 save vs' c', VersionSet_new e = Some vs1 /\ Recover o vs1 sm = Some (Status_OK, save, vs') /\ set_ok vs' c' [] /\
    (forall l, (l < Z.to_nat kNumLevels)%nat -> view vs' c' l ≡ₚ apply_edits no_files (es ++ [el]) l) /\
    next_file vs' = u64 (next_file_number_ el + 1) /\ last_seq vs' = last_sequence_ el /\ log_number vs' = log_number_ el /\
    prev_log_number vs' = prev_log_number_ el /\ compact_pointer_ vs' = apply_pointers (replicate (Z.to_nat kNumLevels) []) (es ++ [el]).
Proof.
  intros Ho Hn Hio Hcur HG Hread Henc Hfull Hrep. destruct (VersionSet_new_ok e) as (vs1 & E1 & Hok & Hview & Henv & Hdesc & Hcp). exists vs1.
  set (vs2 := with_env (with_env vs1 e) (MkEnv (files e) [])). assert (Hok2 : set_ok vs2 0 []) by (destruct Hok as [K1 K2 K3 K4]; by split).
  destruct (Recover_from_clean vs2 0 (SFile G []) (DescriptorFileName (dbname_ o) n) (str "MANIFEST-" ++ number6 n) es el sm rd' Ho Hok2 Hview Hdesc Hread Henc Hfull Hrep)
    as (save & vs' & c' & E & Hok' & Hv & N1 & N2 & N3 & N4 & N5).
  exists save, vs', c'. rewrite (Recover_opens vs1 e n G sm Henv Hn Hio Hcur HG). rewrite <- Hcp. by split_and!.
Qed.
End Recover.
