(* ===== verification/VersionHistory.v ===== *)
(** * VersionHistory: crash recovery of the version set

    A history of edits applied with [LogAndApply], a crash that keeps any prefix
    of the descriptor log, and [Recover] in a new version set: the recovered
    current version is the one after the last edit whose record survived. *)
From stdpp Require Import gmap sorting.
From Stdlib Require Import SpecFloat.
From S2P Require Import Prelude Coding Crc32c Status Bloom Comparator DbFormat Filename Log VersionEdit Version VersionGet VersionBuilder Manifest VersionSet VersionRefs VersionApply VersionRecover.

Section History.
Context {C : Comparator} {L : ComparatorLaws C} `{!Crc32c} (o : Options).

Abbreviation enc e := (EncodeTo e []).

(** ** One step *)

(** [vs1] is the set between the builder and the writes. *)
Lemma LogAndApply_split vs c holders e e' : set_ok vs c holders -> edit_applies (view vs c) e -> complete_edit vs e = Some e' ->
  exists vs1 w, current_version vs1 = Some w /\ descriptor_ vs1 = descriptor_ vs /\ env_ vs1 = env_ vs /\ same_rest vs vs1 /\
    compact_pointer_ vs1 = apply_pointers (compact_pointer_ vs) [e'] /\ levels_ok (st_files (store_ vs1)) (files_ w) /\
    (forall l, level_metas (st_files (store_ vs1)) (files_ w) l = view vs c l) /\
    forall env' d', descriptor_ok d' ->
      log_edit o vs1 e' (match descriptor_ vs with None => true | Some _ => false end) = Some (Status_OK, with_descriptor vs1 env' (Some d')) ->
      exists vs' c', LogAndApply o vs e = Some (Status_OK, vs') /\ set_ok vs' c' holders /\
        (forall l, (l < Z.to_nat kNumLevels)%nat -> view vs' c' l ≡ₚ apply_edit (view vs c) e l) /\
        env_ vs' = env' /\ descriptor_ vs' = Some d' /\ next_file vs' = next_file vs /\ manifest_file_number_ vs' = manifest_file_number_ vs /\
        last_seq vs' = last_seq vs /\ log_number vs' = log_number_ e' /\ prev_log_number vs' = prev_log_number_ e' /\
        compact_pointer_ vs' = apply_pointers (compact_pointer_ vs) [e'].
Proof.
  intros Hs He Ece. destruct (complete_edit_lists vs e e' Ece) as [En Ed]. destruct (edit_applies_ext (view vs c) e e' En Ed He) as [He' Eq].
  destruct (build_version_ok o vs c holders e' Hs He') as (vs1 & v & Eb & Hh & Hl & Hr & Hp & Hv & Hc & Hrest & Henv & Hdesc & Hx & Hcp).
  destruct (heap_ok_live _ _ _ _ c Hh ltac:(by left)) as (w & Hw & _). exists vs1, w.
  split_and!; try done.
  - unfold current_version. by rewrite Hc.
  - destruct Hh as [_ _ _ _ _ H6]. by apply (H6 c).
  - intros l. rewrite <- (Hv c l) by (by left). by rewrite (view_lookup _ _ _ Hw).
  - intros env' d' Hd' Hlog. unfold LogAndApply. rewrite Ece. cbn [mbind option_bind]. rewrite Eb. cbn [mbind option_bind]. rewrite Hdesc, Hlog.
    cbn [mbind option_bind ok Status_OK].
    destruct (install_end vs1 c holders v env' (Some d') Hh Hc Hl Hr ltac:(by intros x [= <-]) Hx) as (s' & vv' & c' & -> & Hend). cbn [mbind option_bind].
    eexists _, c'. split; [done|]. match goal with |- context [with_numbers _ ?a ?b ?c ?d ?e] => destruct (Hend a b c d e) as (Hok & Hnew & _) end.
    destruct Hrest as [S1 S2 S3 S4 S5]. split_and!; try done.
    intros l Hlt. rewrite Hnew, <- Eq. by apply Hp.
Qed.

(** The descriptor is open, CURRENT names it and it holds the records of [es]. *)
Record persisted (vs : VersionSet) (es : list VersionEdit) (bs : bytes) : Prop := {
  ps_log : exists d, manifest_log o vs es d bs;
  ps_current : current_points o (env_ vs) (manifest_file_number_ vs)
}.

(** What a step makes of the set. *)
Record stepped (vs vs' : VersionSet) (c c' : Z) (holders : list Z) (e e' : VersionEdit) : Prop := {
  st_set : set_ok vs' c' holders;
  st_view : forall l, (l < Z.to_nat kNumLevels)%nat -> view vs' c' l ≡ₚ apply_edit (view vs c) e l;
  st_manifest : manifest_file_number_ vs' = manifest_file_number_ vs;
  st_next_file : next_file vs' = next_file vs;
  st_last : last_seq vs' = last_seq vs;
  st_log : log_number vs' = log_number_ e';
  st_prev : prev_log_number vs' = prev_log_number_ e';
  st_pointers : compact_pointer_ vs' = apply_pointers (compact_pointer_ vs) [e']
}.

Lemma step_more vs c holders e e' es bs : set_ok vs c holders -> edit_applies (view vs c) e -> complete_edit vs e = Some e' ->
  persisted vs es bs -> 0 <= manifest_file_number_ vs < 2 ^ 64 ->
  exists vs' c' bs', LogAndApply o vs e = Some (Status_OK, vs') /\ stepped vs vs' c c' holders e e' /\ persisted vs' (es ++ [e']) (bs ++ bs').
Proof.
  intros Hs He Ece [(d & Hm) Hcur] Hn. destruct (LogAndApply_split vs c holders e e' Hs He Ece) as (vs1 & w & Hw & Hd1 & He1 & [R1 R2 R3 R4 R5] & Hcp & _ & _ & Hend).
  assert (Hm1 : manifest_log o vs1 es d bs) by (destruct Hm as [M1 M2 M3 M4 M5 M6]; split; congruence || (rewrite ?He1; done)).
  destruct (log_edit_more o vs1 es d bs e') as (env' & d' & bs' & Hlog & Hm' & Hcur'); [done|by rewrite He1, R2|by rewrite R2|].
  rewrite (ml_descriptor _ _ _ _ _ Hm) in Hend. destruct (Hend env' d' (ml_ok _ _ _ _ _ Hm') Hlog) as (vs' & c' & E & Hok & Hv & E1 & E2 & E3 & E4 & E5 & E6 & E7 & E8).
  exists vs', c', bs'. split_and!; [done|by split|]. split.
  - exists d'. destruct Hm' as [M1 M2 M3 M4 M5 M6]. split; try done; cbn in *; rewrite ?E1, ?E4; congruence.
  - rewrite E1, E4, <- R2. done.
Qed.

Lemma step_fresh vs c holders e e' : set_ok vs c holders -> edit_applies (view vs c) e -> complete_edit vs e = Some e' ->
  descriptor_ vs = None -> env_io (env_ vs) = [] -> 0 <= manifest_file_number_ vs < 2 ^ 64 ->
  exists vs' c' bs vs1 w, LogAndApply o vs e = Some (Status_OK, vs') /\ stepped vs vs' c c' holders e e' /\
    persisted vs' [snapshot_edit o vs1 w; e'] bs /\ levels_ok (st_files (store_ vs1)) (files_ w) /\
    (forall l, level_metas (st_files (store_ vs1)) (files_ w) l = view vs c l) /\ compact_pointer_ vs1 = apply_pointers (compact_pointer_ vs) [e'].
Proof.
  intros Hs He Ece Hd Hio Hn. destruct (LogAndApply_split vs c holders e e' Hs He Ece) as (vs1 & w & Hw & Hd1 & He1 & [R1 R2 R3 R4 R5] & Hcp & Hl & Hview & Hend).
  destruct (log_edit_fresh o vs1 w e') as (env' & d' & bs & Hlog & Hm' & Hcur'); [done|congruence|by rewrite He1|by rewrite R2|].
  rewrite Hd in Hend. destruct (Hend env' d' (ml_ok _ _ _ _ _ Hm') Hlog) as (vs' & c' & E & Hok & Hv & E1 & E2 & E3 & E4 & E5 & E6 & E7 & E8).
  exists vs', c', bs, vs1, w. split_and!; try done; split; try done.
  - exists d'. destruct Hm' as [M1 M2 M3 M4 M5 M6]. split; try done; cbn in *; rewrite ?E1, ?E4; congruence.
  - rewrite E1, E4, <- R2. done.
Qed.

(** ** Permutations of levels *)

Lemma apply_edit_perm B B' e l : B l ≡ₚ B' l -> apply_edit B e l ≡ₚ apply_edit B' e l.
Proof. intros E. unfold apply_edit. by rewrite E. Qed.

Lemma pairwise_disjoint_perm (l l' : list file_meta) : l ≡ₚ l' -> pairwise_disjoint l -> pairwise_disjoint l'.
Proof. intros E Hd a b Ha Hb. apply Hd; by rewrite E. Qed.

Lemma apply_edits_sub es : forall B l, apply_edits B es l ⊆+ B l ++ adds_of es l.
Proof.
  induction es as [|e es IH]; intros B l; [cbn; by rewrite app_nil_r|]. cbn. etrans; [apply IH|]. unfold apply_edit. rewrite <- app_assoc.
  apply submseteq_app; [|done]. apply sublist_submseteq, sublist_filter.
Qed.

Lemma sub_nodup (l k : list file_meta) : l ⊆+ k -> NoDup (nums k) -> NoDup (nums l).
Proof. intros [r ->]%submseteq_Permutation. rewrite fmap_app. by intros (? & _)%NoDup_app. Qed.

Lemma adds_of_app es es' l : adds_of (es ++ es') l = adds_of es l ++ adds_of es' l.
Proof. unfold adds_of. by rewrite fmap_app, concat_app. Qed.

Lemma apply_edits_snoc B es e l : apply_edits B (es ++ [e]) l = apply_edit (apply_edits B es) e l.
Proof. unfold apply_edits. by rewrite fold_left_app. Qed.

(** ** Histories *)

(** A step of a history: the counters at the time, and the edit. *)
Definition history : Type := list (Z * Z * VersionEdit).

Definition set_counters (vs : VersionSet) (next last : Z) : VersionSet :=
  with_numbers vs next (manifest_file_number_ vs) last (log_number vs) (prev_log_number vs).

Fixpoint run_history (vs : VersionSet) (hs : history) : option VersionSet :=
  match hs with
  | [] => Some vs
  | (next, last, e) :: hs =>
      '(s, vs) ← LogAndApply o (set_counters vs next last) e;
      if ok s then run_history vs hs else None
  end.

Definition next_log (log : Z) (e : VersionEdit) : Z := if has_log_number_ e then log_number_ e else log.

(** Every edit can be encoded and fits the files [B] of its time, file numbers
    are new on their level among all those [used] before. *)
Fixpoint history_ok (B used : nat -> list file_meta) (log : Z) (hs : history) : Prop :=
  match hs with
  | [] => True
  | (next, last, e) :: hs =>
      (edit_encodable o e /\ edit_files_ok e /\ (forall l, NoDup (nums (used l ++ edit_adds e l))) /\
       (forall l, (0 < l)%nat -> pairwise_disjoint (apply_edit B e l)) /\ num_ok next /\ num_ok last /\
       (has_log_number_ e = true -> log <= log_number_ e < next)) /\
      history_ok (apply_edit B e) (fun l => used l ++ edit_adds e l) (next_log log e) hs
  end.

(** The state between two steps: [es] are the edits in the descriptor. *)
Record history_inv (vs : VersionSet) (c : Z) (holders : list Z) (es : list VersionEdit) (bs : bytes) : Prop := {
  hi_set : set_ok vs c holders;
  hi_persisted : persisted vs es bs;
  hi_encodable : Forall (edit_encodable o) es;
  hi_files : Forall edit_files_ok es;
  hi_nodup : forall l, NoDup (nums (adds_of es l));
  hi_view : forall l, (l < Z.to_nat kNumLevels)%nat -> view vs c l ≡ₚ apply_edits no_files es l;
  hi_last : exists es0 el, es = es0 ++ [el] /\ full_numbers el /\ log_number_ el = log_number vs /\ prev_log_number_ el = prev_log_number vs /\
              next_file_number_ el = next_file vs /\ last_sequence_ el = last_seq vs;
  hi_manifest : 0 <= manifest_file_number_ vs < 2 ^ 64
}.

Lemma new_files_in_range e l : edit_files_ok e -> (Z.to_nat kNumLevels <= l)%nat -> edit_adds e l = [].
Proof.
  intros He Hl. unfold edit_adds. assert (E : base.filter (fun x : Z * FileMetaData => Z.to_nat x.1 = l) (new_files_ e) = []); [|by rewrite E].
  apply elem_of_nil_inv. intros x Hx. apply list_elem_of_filter in Hx as [<- Hx]. unfold edit_files_ok in He. rewrite Forall_forall in He.
  destruct (He x Hx) as [? _]. unfold kNumLevels in *. lia.
Qed.

(** An edit of a history fits the version of its time. *)
Lemma history_edit_applies vs c holders B used e : set_ok vs c holders -> (forall l, (l < Z.to_nat kNumLevels)%nat -> B l ≡ₚ view vs c l) ->
  (forall l, view vs c l ⊆+ used l) -> edit_files_ok e -> (forall l, NoDup (nums (used l ++ edit_adds e l))) ->
  (forall l, (0 < l)%nat -> pairwise_disjoint (apply_edit B e l)) -> edit_applies (view vs c) e.
Proof.
  intros Hs HB Hsub He Hnd Hdis. split; [done| |].
  - intros l. apply (sub_nodup _ (used l ++ edit_adds e l)); [|done]. by apply submseteq_app.
  - intros l Hl. destruct (decide (l < Z.to_nat kNumLevels)%nat) as [Hlt|Hge].
    + apply (pairwise_disjoint_perm (apply_edit B e l)); [apply apply_edit_perm; by apply HB|by apply Hdis].
    + unfold apply_edit. rewrite (view_out_of_range vs c holders l), (new_files_in_range e l) by (done || lia). by intros a b ?%not_elem_of_nil.
Qed.

Lemma complete_same vs e e' : complete_edit vs e = Some e' -> (forall l, edit_adds e' l = edit_adds e l) /\ (forall B, apply_edit B e' = apply_edit B e) /\
  (edit_files_ok e -> edit_files_ok e').
Proof.
  intros Hc. destruct (complete_edit_lists vs e e' Hc) as [En Ed]. unfold apply_edit, edit_adds, edit_deletes, edit_files_ok. by rewrite En, Ed.
Qed.

Lemma inv_numbers vs c holders es bs : history_inv vs c holders es bs -> num_ok (log_number vs) /\ num_ok (prev_log_number vs).
Proof.
  intros [_ _ He _ _ _ (es0 & el & -> & _ & <- & <- & _) _]. apply Forall_app in He as [_ He]. apply Forall_singleton in He as [[_ [H1 _] [H2 _] _ _ _ _ _] _ _]. done.
Qed.

(** One step keeps the invariant and adds one record. *)
Lemma history_step vs c holders es bs next last e B used : history_inv vs c holders es bs ->
  (forall l, (l < Z.to_nat kNumLevels)%nat -> B l ≡ₚ view vs c l) -> (forall l, used l = adds_of es l) ->
  history_ok B used (log_number vs) [(next, last, e)] ->
  exists vs' c' e' bs', LogAndApply o (set_counters vs next last) e = Some (Status_OK, vs') /\ history_inv vs' c' holders (es ++ [e']) (bs ++ bs') /\
    (forall l, (l < Z.to_nat kNumLevels)%nat -> apply_edit B e l ≡ₚ view vs' c' l) /\ (forall l, used l ++ edit_adds e l = adds_of (es ++ [e']) l) /\
    log_number vs' = next_log (log_number vs) e /\ manifest_file_number_ vs' = manifest_file_number_ vs.
Proof.
  intros Hi HB Hu [(E1 & E2 & E3 & E4 & E5 & E6 & E7) _]. destruct (inv_numbers _ _ _ _ _ Hi) as [N1 N2]. destruct Hi as [Hs Hp He Hf Hn Hv Hl Hman].
  set (vs0 := set_counters vs next last). destruct (complete_edit_total vs0 e E7) as [e' Ece].
  assert (Hs0 : set_ok vs0 c holders) by (destruct Hs; by split).
  assert (Hp0 : persisted vs0 es bs). { destruct Hp as [(d & Hm) Hc]. split; [exists d; destruct Hm; by split|done]. }
  assert (Hsub : forall l, view vs0 c l ⊆+ used l).
  { intros l. rewrite Hu. destruct (decide (l < Z.to_nat kNumLevels)%nat) as [Hlt|Hge].
    - change (view vs0 c l) with (view vs c l). rewrite Hv by done. exact (apply_edits_sub es no_files l).
    - rewrite (view_out_of_range vs0 c holders l) by (done || lia). apply submseteq_nil_l. }
  assert (Ha : edit_applies (view vs0 c) e) by (by apply (history_edit_applies vs0 c holders B used)).
  destruct (step_more vs0 c holders e e' es bs Hs0 Ha Ece Hp0 Hman) as (vs' & c' & bs' & Hlog & [S1 S2 S3 S4 S5 S6 S7 S8] & Hp').
  destruct (complete_same vs0 e e' Ece) as (Sa & Se & Sf). destruct (complete_edit_numbers vs0 e e' Ece) as (M1 & M2 & M3 & M4 & M5 & M6 & M7 & M8).
  exists vs', c', e', bs'. assert (Hadd : forall l, used l ++ edit_adds e l = adds_of (es ++ [e']) l).
  { intros l. rewrite adds_of_app, Hu, <- Sa. unfold adds_of at 3. cbn. by rewrite app_nil_r. }
  split_and!; [done| | |done|by rewrite S6|done].
  - split; try done.
    + apply Forall_app. split; [done|]. apply Forall_singleton. by apply (complete_encodable o vs0 e e').
    + apply Forall_app. split; [done|]. apply Forall_singleton. by apply Sf.
    + intros l. rewrite <- Hadd. apply E3.
    + intros l Hlt. rewrite S2 by done. rewrite apply_edits_snoc, Se. apply apply_edit_perm. change (view vs0 c l) with (view vs c l). by apply Hv.
    + exists es, e'. split; [done|]. split; [done|]. by rewrite S6, S7, S4, S5, M7, M8.
    + by rewrite S3.
  - intros l Hlt. rewrite S2 by done. apply apply_edit_perm. by apply HB.
Qed.

(** All steps, with the state after each of them. *)
Lemma run_ok holders hs : forall vs c es bs B used, history_inv vs c holders es bs ->
  (forall l, (l < Z.to_nat kNumLevels)%nat -> B l ≡ₚ view vs c l) -> (forall l, used l = adds_of es l) -> history_ok B used (log_number vs) hs ->
  exists es' bs', length es' = length hs /\
    forall j, (j <= length hs)%nat -> exists vsj cj bsj, run_history vs (take j hs) = Some vsj /\ history_inv vsj cj holders (es ++ take j es') bsj /\
      bsj `prefix_of` bs ++ bs' /\ (j = length hs -> bsj = bs ++ bs') /\ manifest_file_number_ vsj = manifest_file_number_ vs.
Proof.
  induction hs as [|[[next last] e] hs IH]; intros vs c es bs B used Hi HB Hu Hok.
  { exists [], []. split; [done|]. intros j Hj. exists vs, c, bs. rewrite !take_nil, !app_nil_r. by split_and!. }
  destruct Hok as [H1 Hok]. destruct (history_step vs c holders es bs next last e B used Hi HB Hu ltac:(by split)) as (vs1 & c1 & e1 & bs1 & E1 & Hi1 & HB1 & Hu1 & Hlog & Hman).
  rewrite <- Hlog in Hok. destruct (IH vs1 c1 (es ++ [e1]) (bs ++ bs1) _ _ Hi1 HB1 Hu1 Hok) as (es' & bs' & Hlen & Hj).
  exists (e1 :: es'), (bs1 ++ bs'). split; [cbn; lia|]. intros [|j] Hlt.
  - exists vs, c, bs. cbn [take]. rewrite app_nil_r. split_and!; [done|done|by eexists|cbn; lia|done].
  - destruct (Hj j ltac:(cbn in Hlt; lia)) as (vsj & cj & bsj & Ej & Hij & Hpre & Hall & Hpre'). exists vsj, cj, bsj. rewrite <- app_assoc in Hij. rewrite <- app_assoc in Hpre, Hall.
    split_and!; [cbn [take run_history]; rewrite E1; exact Ej|exact Hij|exact Hpre|intros E; apply Hall; cbn in E; lia|congruence].
Qed.

(** ** The first step *)

(** A version set that has no descriptor yet. *)
Record start_ok (vs : VersionSet) (c : Z) (holders : list Z) : Prop := {
  so_set : set_ok vs c holders;
  so_closed : descriptor_ vs = None;
  so_io : env_io (env_ vs) = [];
  so_manifest : 0 <= manifest_file_number_ vs < 2 ^ 64;
  so_log : num_ok (log_number vs);
  so_prev : num_ok (prev_log_number vs);
  so_metas : forall l m, m ∈ view vs c l -> meta_encodable m;
  so_pointers : length (compact_pointer_ vs) = Z.to_nat kNumLevels /\ Forall pointer_encodable (compact_pointer_ vs)
}.

Lemma set_view_ok vs c holders l : set_ok vs c holders -> Forall meta_ok (view vs c l) /\ NoDup (nums (view vs c l)) /\ StronglySorted lt_file (view vs c l) /\
  ((0 < l)%nat -> pairwise_disjoint (view vs c l)).
Proof.
  intros [Hh _ _ _]. destruct (heap_ok_live _ _ _ _ c Hh ltac:(by left)) as (v & Hv & _). destruct Hh as [_ _ _ _ _ H6]. rewrite (view_lookup _ _ _ Hv).
  destruct (H6 c v Hv) as [_ L2 L3 L4 L5]. split_and!; [done..|]. intros Hl. specialize (L5 l Hl). clear -L5.
  induction L5 as [|a l' _ IH Hall]; [by intros a b ?%not_elem_of_nil|]. rewrite Forall_forall in Hall.
  intros x y [->|Hx]%elem_of_cons [->|Hy]%elem_of_cons Hne; [done|left; auto|right; auto|by apply IH].
Qed.

Lemma apply_pointers_ok cp e : edit_encodable o e -> length cp = Z.to_nat kNumLevels -> Forall pointer_encodable cp ->
  length (apply_pointers cp [e]) = Z.to_nat kNumLevels /\ Forall pointer_encodable (apply_pointers cp [e]).
Proof.
  intros [[_ _ _ _ _ E _ _] [_ B _] _] Hl Hcp. cbn. revert E B cp Hl Hcp. induction (compact_pointers_ e) as [|[lv key] ps IH]; intros E B cp Hl Hcp; [done|].
  apply Forall_cons in E as [[_ E1] E]. apply Forall_cons in B as [B1 B]. cbn [fold_left]. apply IH; [done|done| |].
  - unfold apply_pointer. by rewrite length_insert.
  - apply Forall_insert; [done|by split].
Qed.

Lemma inv_first vs c holders next last e : options_ok o -> start_ok vs c holders -> history_ok (view vs c) (view vs c) (log_number vs) [(next, last, e)] ->
  exists vs' c' snap e' bs, LogAndApply o (set_counters vs next last) e = Some (Status_OK, vs') /\ history_inv vs' c' holders [snap; e'] bs /\
    (forall l, (l < Z.to_nat kNumLevels)%nat -> apply_edit (view vs c) e l ≡ₚ view vs' c' l) /\ (forall l, view vs c l ++ edit_adds e l = adds_of [snap; e'] l) /\
    log_number vs' = next_log (log_number vs) e.
Proof.
  intros Ho [Hs Hd Hio Hman N1 N2 Hmeta [Hpl Hpe]] [(E1 & E2 & E3 & E4 & E5 & E6 & E7) _].
  set (vs0 := set_counters vs next last). destruct (complete_edit_total vs0 e E7) as [e' Ece].
  assert (Hs0 : set_ok vs0 c holders) by (destruct Hs; by split).
  assert (Ha : edit_applies (view vs0 c) e) by (by split).
  destruct (step_fresh vs0 c holders e e' Hs0 Ha Ece Hd Hio Hman) as (vs' & c' & bs & vs1 & w & Hlog & [S1 S2 S3 S4 S5 S6 S7 S8] & Hp' & Hl1 & Hv1 & Hcp1).
  destruct (complete_same vs0 e e' Ece) as (Sa & Se & Sf). destruct (complete_edit_numbers vs0 e e' Ece) as (M1 & M2 & M3 & M4 & M5 & M6 & M7 & M8).
  assert (He' : edit_encodable o e') by (by apply (complete_encodable o vs0 e e')).
  destruct (apply_pointers_ok (compact_pointer_ vs) e' He' Hpl Hpe) as [Hpl' Hpe'].
  exists vs', c', (snapshot_edit o vs1 w), e', bs.
  assert (Hadd : forall l, view vs c l ++ edit_adds e l = adds_of [snapshot_edit o vs1 w; e'] l).
  { intros l. unfold adds_of. cbn [fmap list_fmap concat]. rewrite app_nil_r, snapshot_adds, Hv1, Sa. done. }
  split_and!; [done| |intros l Hlt; by rewrite S2|done|by rewrite S6].
  split; try done.
  - apply Forall_cons. split; [|by apply Forall_singleton]. apply snapshot_encodable; [done|done| |by rewrite Hcp1|by rewrite Hcp1].
    intros l m. rewrite Hv1. apply Hmeta.
  - apply Forall_cons. split; [by apply snapshot_files_ok|]. apply Forall_singleton. by apply Sf.
  - intros l. rewrite <- Hadd. apply E3.
  - intros l Hlt. rewrite S2 by done. rewrite <- Se. change ([snapshot_edit o vs1 w; e']) with ([snapshot_edit o vs1 w] ++ [e']). rewrite apply_edits_snoc.
    apply apply_edit_perm. cbn. unfold apply_edit. rewrite snapshot_adds, Hv1. done.
  - exists [snapshot_edit o vs1 w], e'. split; [done|]. split; [done|]. by rewrite S6, S7, S4, S5, M7, M8.
  - by rewrite S3.
Qed.

Lemma inv_replayable vs c holders es bs : history_inv vs c holders es bs -> replayable es.
Proof.
  intros [Hs _ _ Hf Hn Hv _ _]. split; [done|done|]. intros l Hl. destruct (decide (l < Z.to_nat kNumLevels)%nat) as [Hlt|Hge].
  - apply (pairwise_disjoint_perm (view vs c l)); [by apply Hv|]. by apply (set_view_ok vs c holders l Hs).
  - assert (E : adds_of es l = []).
    { unfold adds_of. clear -Hf Hge. induction Hf as [|e es He _ IH]; [done|]. cbn. rewrite new_files_in_range by (done || lia). exact IH. }
    pose proof (apply_edits_sub es no_files l) as Hsub. unfold no_files in Hsub at 2. rewrite E in Hsub. cbn in Hsub. apply submseteq_nil_r in Hsub as ->.
    by intros a b ?%not_elem_of_nil.
Qed.

(** ** A crash *)

Definition manifest_name (vs : VersionSet) : bytes := DescriptorFileName (dbname_ o) (manifest_file_number_ vs).

Definition manifest_size (vs : VersionSet) : nat := length (default [] (files (env_ vs) !! manifest_name vs)).

(** The directory after a crash that kept [k] bytes of the descriptor. *)
Definition crash (vs : VersionSet) (k : nat) : Env := MkEnv (alter (take k) (manifest_name vs) (files (env_ vs))) [].

Lemma inv_size vs c holders es bs : history_inv vs c holders es bs -> files (env_ vs) !! manifest_name vs = Some bs /\ manifest_size vs = length bs.
Proof.
  intros [_ [(d & [M1 M2 M3 M4 M5 M6]) _] _ _ _ _ _ _]. rewrite M2 in M4. unfold manifest_size, manifest_name. by rewrite M4.
Qed.

Lemma inv_bytes vs c holders es bs : history_inv vs c holders es bs -> Forall bytes_ok ((fun e => enc e) <$> es).
Proof.
  intros [_ _ He _ _ _ _ _]. apply Forall_forall. intros x Hx. apply list_elem_of_fmap in Hx as (e & -> & Hx). rewrite Forall_forall in He.
  destruct (He e Hx) as [H1 H2 _]. by apply EncodeTo_bytes.
Qed.

Lemma inv_log vs c holders es bs : history_inv vs c holders es bs -> exists off, log_of kBlockSize ((fun e => enc e) <$> es) bs off.
Proof.
  intros [_ [(d & [M1 M2 M3 M4 M5 M6]) _] _ _ _ _ (es0 & el & -> & _) _]. eexists. eapply (log_of_congruent 0); [..|exact M5]; try done.
  intros E. apply (f_equal length) in E. rewrite length_fmap, length_app in E. cbn in E. lia.
Qed.

(** Reading the descriptor after the crash gives the edits whose records are
    complete. *)
Lemma read_crash vs c holders es bs k : history_inv vs c holders es bs ->
  exists m rd, clean_reads (Reader_new (SFile (take k bs) []) true true 0) ((fun e => enc e) <$> take m es) rd /\ (m <= length es)%nat /\
    forall j vsj cj hj bsj, (j <= length es)%nat -> history_inv vsj cj hj (take j es) bsj -> (j <= m <-> length bsj <= length (take k bs))%nat.
Proof.
  intros Hi. destruct (inv_log _ _ _ _ _ Hi) as [off Hlog]. pose proof (inv_bytes _ _ _ _ _ Hi) as Hb.
  destruct (ReadAll_log ((fun e => enc e) <$> es) kBlockSize bs off (Reader_new (SFile (take k bs) []) true true 0) (take k bs) (drop k bs)
    (S (unread (Reader_new (SFile (take k bs) []) true true 0))) Hlog (Reader_new_at_pos _ _ _) (take_drop _ _) Hb block_end_ok ltac:(lia))
    as (m & rd & _ & _ & [Hm Hrec] & Hclean).
  rewrite length_fmap in Hm, Hrec. exists m, rd. rewrite fmap_take. split_and!; [done|done|]. intros j vsj cj hj bsj Hj Hij.
  destruct (inv_log _ _ _ _ _ Hij) as [offj Hlogj]. rewrite fmap_take in Hlogj. by apply (Hrec j bsj offj).
Qed.

(** The new version set shows what the old one did. *)
Lemma views_equal vs c holders vs' c' holders' S : set_ok vs c holders -> set_ok vs' c' holders' ->
  (forall l, (l < Z.to_nat kNumLevels)%nat -> view vs c l ≡ₚ S l) -> (forall l, (l < Z.to_nat kNumLevels)%nat -> view vs' c' l ≡ₚ S l) ->
  forall l, view vs' c' l = view vs c l.
Proof.
  intros H0 H' E E' l. destruct (decide (l < Z.to_nat kNumLevels)%nat) as [Hlt|Hge].
  - destruct (set_view_ok vs c holders l H0) as (_ & _ & S1 & _). destruct (set_view_ok vs' c' holders' l H') as (Hm & _ & S2 & _).
    apply sorted_files_unique; [done..|]. by rewrite E, E'.
  - rewrite (view_out_of_range vs c holders), (view_out_of_range vs' c' holders') by (done || lia). done.
Qed.

Lemma recover_crash vs c holders es bs k sm m rd vsm cm bsm : options_ok o -> history_inv vs c holders es bs ->
  history_inv vsm cm holders (take m es) bsm -> manifest_file_number_ vsm = manifest_file_number_ vs ->
  clean_reads (Reader_new (SFile (take k bs) []) true true 0) ((fun e => enc e) <$> take m es) rd ->
  exists fresh save vs' c', VersionSet_new (crash vs k) = Some fresh /\ Recover o fresh sm = Some (Status_OK, save, vs') /\ set_ok vs' c' [] /\
    (forall l, view vs' c' l = view vsm cm l) /\ log_number vs' = log_number vsm /\ prev_log_number vs' = prev_log_number vsm /\
    last_seq vs' = last_seq vsm /\ next_file vs' = u64 (next_file vsm + 1).
Proof.
  intros Ho Hi Him Hman Hread. pose proof (inv_replayable _ _ _ _ _ Him) as Hrep. destruct (inv_size _ _ _ _ _ Hi) as [Hbs _].
  destruct Hi as [_ [_ Hcur] _ _ _ _ _ Hn]. destruct Him as [Hs _ Henc _ _ Hv (es0 & el & Ees & Hfull & L1 & L2 & L3 & L4) _]. rewrite Ees in *.
  destruct (Recover_clean o (crash vs k) (manifest_file_number_ vs) (take k bs) es0 el sm rd Ho Hn) as (fresh & save & vs' & c' & E1 & E2 & Hok & Hv' & N1 & N2 & N3 & N4 & _); try done.
  { unfold current_points, crash. cbn [files]. rewrite lookup_alter_ne; [done|]. by apply descriptor_not_current. }
  { unfold crash. cbn [files]. fold (manifest_name vs). by rewrite lookup_alter_eq, Hbs. }
  exists fresh, save, vs', c'. split_and!; try done; [|congruence..]. by apply (views_equal vsm cm holders vs' c' [] (apply_edits no_files (es0 ++ [el]))).
Qed.

(** C8. The version set survives a crash.  Apply any history of edits with
    [LogAndApply] to a set without a descriptor (the first edit creates it and
    points CURRENT at it), crash after the first edit, keeping any number [k] of
    bytes of the descriptor that covers that edit, and recover in a new version
    set: [Recover] reports OK and its current version has, level by level, the
    very files of the version after the [m]-th edit, with that version's log
    numbers and sequence number, where [m] counts at least every edit whose
    bytes were all kept. *)
Theorem manifest_crash_recovery vs0 c0 holders hs :
  options_ok o -> start_ok vs0 c0 holders -> history_ok (view vs0 c0) (view vs0 c0) (log_number vs0) hs -> hs <> [] ->
  exists vs1 vsn, run_history vs0 (take 1 hs) = Some vs1 /\ run_history vs0 hs = Some vsn /\
  forall k sm, (manifest_size vs1 <= k)%nat ->
  exists m vsm cm, (1 <= m <= length hs)%nat /\ run_history vs0 (take m hs) = Some vsm /\ set_ok vsm cm holders /\
    (forall j vsj, (1 <= j <= length hs)%nat -> run_history vs0 (take j hs) = Some vsj -> (manifest_size vsj <= k)%nat -> (j <= m)%nat) /\
    exists fresh save vs' c', VersionSet_new (crash vsn k) = Some fresh /\ Recover o fresh sm = Some (Status_OK, save, vs') /\ set_ok vs' c' [] /\
      (forall l, view vs' c' l = view vsm cm l) /\ log_number vs' = log_number vsm /\ prev_log_number vs' = prev_log_number vsm /\
      last_seq vs' = last_seq vsm /\ next_file vs' = u64 (next_file vsm + 1).
Proof.
  intros Ho Hst Hok Hne. destruct hs as [|[[next last] e] hs]; [done|]. destruct Hok as [H1 Hok].
  destruct (inv_first vs0 c0 holders next last e Ho Hst ltac:(by split)) as (vs1 & c1 & snap & e1 & bs1 & E1 & Hi1 & HB1 & Hu1 & Hlog1).
  rewrite <- Hlog1 in Hok. destruct (run_ok holders hs vs1 c1 [snap; e1] bs1 _ _ Hi1 HB1 Hu1 Hok) as (es' & bs' & Hlen & Hrun).
  assert (Hstep : forall j, run_history vs0 (take (S j) ((next, last, e) :: hs)) = run_history vs1 (take j hs)) by (intros j; cbn; by rewrite E1).
  destruct (Hrun (length hs) ltac:(lia)) as (vsn & cn & bsn & En & Hin & _ & Hbn & Hmn). rewrite (Hbn eq_refl) in Hin. rewrite take_ge in Hin by lia.
  exists vs1, vsn. split; [rewrite Hstep; done|]. split; [cbn [run_history]; rewrite E1; rewrite take_ge in En by lia; exact En|]. intros k sm Hk.
  destruct (read_crash _ _ _ _ _ k Hin) as (m & rd & Hread & Hm & Hcut). rewrite length_app in Hm. cbn [length] in Hm.
  assert (Hbound : forall x y : bytes, x `prefix_of` y -> (length x <= k)%nat -> (length x <= length (take k y))%nat).
  { intros x y [z ->] Hx. rewrite length_take, length_app. lia. }
  assert (Hreach : forall j vsj cj bsj, (j <= length hs)%nat -> history_inv vsj cj holders ([snap; e1] ++ take j es') bsj -> bsj `prefix_of` bs1 ++ bs' ->
    (length bsj <= k)%nat -> (S (S j) <= m)%nat).
  { intros j vsj cj bsj Hj Hij Hpre Hsz. apply (Hcut (S (S j)) vsj cj holders bsj); [rewrite length_app; cbn; lia|exact Hij|by apply Hbound]. }
  assert (Hm2 : (2 <= m)%nat).
  { apply (Hreach 0%nat vs1 c1 bs1); [lia|exact Hi1|by eexists|]. by destruct (inv_size _ _ _ _ _ Hi1) as [_ <-]. }
  destruct (Hrun (m - 2)%nat ltac:(lia)) as (vsm & cm & bsm & Em & Him & _ & _ & Hmm).
  exists (m - 1)%nat, vsm, cm. replace (m - 1)%nat with (S (m - 2)) by lia. rewrite Hstep. cbn [length]. split_and!; [lia|lia|done|by destruct Him| |].
  - intros [|j] vsj Hj Ej Hsz; [lia|]. rewrite Hstep in Ej. destruct (Hrun j ltac:(lia)) as (vsj' & cj & bsj & Ej' & Hij & Hpre & _).
    rewrite Ej in Ej'. injection Ej' as <-. destruct (inv_size _ _ _ _ _ Hij) as [_ Es]. rewrite Es in Hsz.
    pose proof (Hreach j vsj cj bsj ltac:(lia) Hij Hpre Hsz). lia.
  - assert (Et : take m ([snap; e1] ++ es') = [snap; e1] ++ take (m - 2) es') by (replace m with (S (S (m - 2))) at 1 by lia; done).
    rewrite <- Et in Him. apply (recover_crash vsn cn holders ([snap; e1] ++ es') (bs1 ++ bs') k sm m rd vsm cm bsm); try done. congruence.
Qed.
End History.

(** ** An example: two edits, and every way of cutting the descriptor *)

Section Example.
#[local] Existing Instance BytewiseComparator.
#[local] Instance crc_history : Crc32c := crc32c_portable 0.

Definition example_move : VersionEdit :=
  AddFile (VersionEdit.DeleteFile VersionEdit_new 1 6) 1 7 10 (InternalKey_make [101] 9 kTypeValue) (InternalKey_make [102] 5 kTypeValue).

Definition example_history : history := [(8, 100, example_edit); (9, 120, example_move)].

Lemma example_encodable n d a b : num_ok n -> num_ok d -> bytes_ok a -> bytes_ok b -> zlen a < 100 -> zlen b < 100 ->
  edit_encodable example_options (AddFile (VersionEdit.DeleteFile VersionEdit_new 1 d) 1 n 10 (InternalKey_make a 9 kTypeValue) (InternalKey_make b 5 kTypeValue)).
Proof.
  intros Hn Hd Ha Hb La Lb. assert (Hz : forall x s t, zlen x < 100 -> zlen (InternalKey_make x s t) < 2 ^ 32).
  { intros x s t Hx. rewrite InternalKey_make_eq. unfold ikey. rewrite zlen_app. unfold zlen at 2. rewrite length_EncodeFixed64. lia. }
  assert (Hbytes : forall x s t, bytes_ok x -> bytes_ok (InternalKey_make x s t)).
  { intros x s t Hx. rewrite InternalKey_make_eq. apply bytes_ok_app. split; [done|apply EncodeFixed64_ok]. }
  assert (H10 : num_ok 10) by (unfold num_ok; lia). assert (H1 : level_ok 1) by (unfold level_ok, kNumLevels; lia).
  split; [split|split|done]; cbn -[InternalKey_make]; try (by (split; [unfold num_ok; lia|done])); try done.
  - split; [|by split]. apply Forall_singleton. by split.
  - apply Forall_singleton. split; [done|]. unfold VersionEdit.file_ok. cbn -[InternalKey_make]. split_and!; [done|done|apply Hz; lia|apply Hz; lia|done].
  - apply Forall_nil. exact I.
  - apply Forall_singleton. split; by apply Hbytes.
Qed.

Lemma example_start_ok : start_ok (example_set []) 0 [0].
Proof.
  split; try done.
  - apply example_set_ok.
  - intros l m. destruct l as [|[|[|[|[|[|[|[|l]]]]]]]]; try (by intros ?%not_elem_of_nil). intros Hm. vm_compute in Hm.
    apply list_elem_of_singleton in Hm as ->. vm_compute. split_and!; by intros.
  - split; [done|]. apply Forall_replicate. split; [by vm_compute|constructor].
Qed.

Lemma example_history_ok : history_ok example_options (view (example_set []) 0) (view (example_set []) 0) 6 example_history.
Proof.
  assert (Hnum : forall n, 0 <= n < 1000 -> num_ok n) by (unfold num_ok; lia).
  split; [|split; [|exact I]]; split_and!; try (apply Hnum; lia); try discriminate.
  - apply example_encodable; first [by_decide|reflexivity|apply Hnum; lia].
  - exact (Forall_cons_2 new_file_ok _ [] (built_new_ok 6 [97] [98] ltac:(by_decide) ltac:(by_decide) eq_refl) (Forall_nil_2 _)).
  - intros l. destruct l as [|[|[|[|[|[|[|[|l]]]]]]]]; by_decide.
  - exact (ea_disjoint _ _ (example_edit_applies [])).
  - apply example_encodable; first [by_decide|reflexivity|apply Hnum; lia].
  - exact (Forall_cons_2 new_file_ok _ [] (built_new_ok 7 [101] [102] ltac:(by_decide) ltac:(by_decide) eq_refl) (Forall_nil_2 _)).
  - intros l. destruct l as [|[|[|[|[|[|[|[|l]]]]]]]]; by_decide.
  - intros l Hl a b. destruct l as [|[|[|[|[|[|[|[|l]]]]]]]]; [lia|..]; try (cbn; by intros ?%not_elem_of_nil).
    intros Ha Hb Hne. vm_compute in Ha, Hb. set_solver.
Qed.

Lemma manifest_crash_recovery_witness :
  exists vs1 vsn, run_history example_options (example_set []) (take 1 example_history) = Some vs1 /\
    run_history example_options (example_set []) example_history = Some vsn /\
    exists m fresh save vs', (1 <= m <= 2)%nat /\ VersionSet_new (crash example_options vsn (manifest_size example_options vs1 + 3)) = Some fresh /\
      Recover example_options fresh false = Some (Status_OK, save, vs').
Proof.
  destruct (manifest_crash_recovery example_options (example_set []) 0 [0] example_history) as (vs1 & vsn & E1 & En & Hk).
  - split; [reflexivity|by_decide|reflexivity].
  - exact example_start_ok.
  - exact example_history_ok.
  - discriminate.
  - exists vs1, vsn. split; [exact E1|]. split; [exact En|].
    destruct (Hk (manifest_size example_options vs1 + 3)%nat false ltac:(lia)) as (m & vsm & cm & Hm & _ & _ & _ & fresh & save & vs' & c' & Ef & Er & _).
    exists m, fresh, save, vs'. split_and!; [apply Hm|apply Hm|exact Ef|exact Er].
Defined.
End Example.
