(* ===== verification/Compaction.v ===== *)
(** * Compaction: choosing the files to compact

    [VersionSet::PickCompaction], [SetupOtherInputs], [CompactRange] and class
    [Compaction] of src/LSM-EBF/db/version_set.cc.  A compaction holds a
    reference to its input version; its file lists are given by the files they
    point to, whose names and ranges never change.  [None] is a failed assertion
    or an overflow in type [int]. *)
From stdpp Require Import gmap sorting.
From Stdlib Require Import SpecFloat.
From S2P Require Import Prelude Coding Crc32c Status Bloom Comparator DbFormat Filename Log VersionEdit Version VersionGet VersionBuilder Manifest VersionSet VersionRefs VersionApply.
From S2P Require Import Table.

(** ** Data *)

Record Compaction := MkCompaction {
  level_ : Z;
  max_output_file_size_ : Z;
  input_version_ : option Z;
  edit_ : VersionEdit;
  inputs0 : list FileMetaData;
  inputs1 : list FileMetaData;
  grandparents_ : list FileMetaData;
  grandparent_index_ : nat;
  seen_key_ : bool;
  overlapped_bytes_ : Z;
  level_ptrs_ : list nat
}.

Definition Compaction_new (max_file_size level : Z) : Compaction :=
  MkCompaction level (MaxFileSizeForLevel max_file_size level) None VersionEdit_new [] [] [] 0 false 0 (replicate (Z.to_nat kNumLevels) 0%nat).

Definition with_inputs (c : Compaction) (i0 i1 : list FileMetaData) : Compaction :=
  MkCompaction (level_ c) (max_output_file_size_ c) (input_version_ c) (edit_ c) i0 i1 (grandparents_ c) (grandparent_index_ c)
    (seen_key_ c) (overlapped_bytes_ c) (level_ptrs_ c).

Definition with_input_version (c : Compaction) (v : option Z) : Compaction :=
  MkCompaction (level_ c) (max_output_file_size_ c) v (edit_ c) (inputs0 c) (inputs1 c) (grandparents_ c) (grandparent_index_ c)
    (seen_key_ c) (overlapped_bytes_ c) (level_ptrs_ c).

Definition with_setup (c : Compaction) (i0 i1 gp : list FileMetaData) (e : VersionEdit) : Compaction :=
  MkCompaction (level_ c) (max_output_file_size_ c) (input_version_ c) e i0 i1 gp (grandparent_index_ c)
    (seen_key_ c) (overlapped_bytes_ c) (level_ptrs_ c).

(** The files of a version, level by level. *)
Definition version_levels (h : file_heap) (v : Version) : list (list FileMetaData) := (fun ps : list Z => fm h <$> ps) <$> files_ v.

Section Compact.
Context {user_comparator : Comparator}.

(** ** Ranges *)

Definition widen (r : bytes * bytes) (f : FileMetaData) : bytes * bytes :=
  (if internal_compare (smallest f) r.1 <? 0 then smallest f else r.1,
   if 0 <? internal_compare (largest f) r.2 then largest f else r.2).

Definition GetRange (inputs : list FileMetaData) : option (bytes * bytes) :=
  match inputs with
  | [] => None
  | f :: inputs => Some (fold_left widen inputs (smallest f, largest f))
  end.

Definition GetRange2 (inputs1 inputs2 : list FileMetaData) : option (bytes * bytes) := GetRange (inputs1 ++ inputs2).

(** ** [SetupOtherInputs] *)

(** The attempt to take more files of the level: the new inputs and their range,
    when it takes no more files of the next level. *)
Definition expand_inputs (max_file_size level : Z) (files : list (list FileMetaData)) (i0 i1 : list FileMetaData) (all_start all_limit : bytes)
    : option (option (list FileMetaData * list FileMetaData * (bytes * bytes))) :=
  expanded0 ← GetOverlappingInputs level files (Some all_start) (Some all_limit);
  if (length i0 <? length expanded0)%nat then
    limit ← ExpandedCompactionByteSizeLimit max_file_size;
    if i64 (TotalFileSize i1 + TotalFileSize expanded0) <? limit then
      '(new_start, new_limit) ← GetRange expanded0;
      expanded1 ← GetOverlappingInputs (level + 1) files (Some new_start) (Some new_limit);
      if (length expanded1 =? length i1)%nat then Some (Some (expanded0, expanded1, (new_start, new_limit))) else Some None
    else Some None
  else Some None.

(** The compaction with all its inputs, and the key where the next one starts. *)
Definition SetupOtherInputs (max_file_size : Z) (files : list (list FileMetaData)) (c : Compaction) : option (Compaction * bytes) :=
  let level := level_ c in
  '(smallest, largest) ← GetRange (inputs0 c);
  i1 ← GetOverlappingInputs (level + 1) files (Some smallest) (Some largest);
  '(all_start, all_limit) ← GetRange2 (inputs0 c) i1;
  grown ← (match i1 with
           | [] => Some None
           | _ => expand_inputs max_file_size level files (inputs0 c) i1 all_start all_limit
           end);
  '(i0, i1, largest, (all_start, all_limit)) ←
    (match grown with
     | Some (e0, e1, (new_start, new_limit)) => r ← GetRange2 e0 e1; Some (e0, e1, new_limit, r)
     | None => Some (inputs0 c, i1, largest, (all_start, all_limit))
     end);
  gp ← (if level + 2 <? kNumLevels then GetOverlappingInputs (level + 2) files (Some all_start) (Some all_limit) else Some (grandparents_ c));
  Some (with_setup c i0 i1 gp (SetCompactPointer (edit_ c) level largest), largest).

Definition set_pointer (vs : VersionSet) (level : Z) (key : bytes) : VersionSet :=
  with_built vs (store_ vs) (<[Z.to_nat level := key]> (compact_pointer_ vs)) (files_extra_ vs) (init_ vs).

Context (o : Options).

(** The setup of a compaction over the current version. *)
Definition setup_compaction (vs : VersionSet) (files : list (list FileMetaData)) (c : Compaction) : option (Compaction * VersionSet) :=
  '(c, largest) ← SetupOtherInputs (max_file_size o) files c;
  Some (c, set_pointer vs (level_ c) largest).

(** ** [PickCompaction] *)

(** The first file after the pointer, or the first of all. *)
Definition pick_first (pointer : bytes) (files : list FileMetaData) : option FileMetaData :=
  match List.find (fun f => match pointer with [] => true | _ => 0 <? internal_compare (largest f) pointer end) files with
  | Some f => Some f
  | None => head files
  end.

(** The level and the first input, if there is something to do. *)
Definition pick_input (vs : VersionSet) (v : Version) : option (option (Z * FileMetaData)) :=
  let h := st_files (store_ vs) in
  let size_compaction := negb (force_disable_compaction o) && SFleb (SFone 53 1024) (compaction_score_ v) in
  let seek_compaction := negb (force_disable_compaction o) && seek_compaction_ o in
  if size_compaction then
    let level := compaction_level_ v in
    if (0 <=? level) && (level + 1 <? kNumLevels) then
      f ← pick_first (default [] (compact_pointer_ vs !! Z.to_nat level)) (default [] (version_levels h v !! Z.to_nat level));
      Some (Some (level, f))
    else None
  else match file_to_compact_ v with
       | Some p => if seek_compaction then Some (Some (file_to_compact_level_ v, fm h p)) else Some None
       | None => Some None
       end.

(** Level 0 takes every file that overlaps the picked one. *)
Definition overlapping_level0 (files : list (list FileMetaData)) (c : Compaction) : option Compaction :=
  if level_ c =? 0 then
    '(smallest, largest) ← GetRange (inputs0 c);
    i0 ← GetOverlappingInputs 0 files (Some smallest) (Some largest);
    match i0 with [] => None | _ => Some (with_inputs c i0 (inputs1 c)) end
  else Some c.

Definition PickCompaction (vs : VersionSet) : option (option Compaction * VersionSet) :=
  cur ← current_ (versions_ vs);
  v ← by_addr (versions_ vs) !! cur;
  picked ← pick_input vs v;
  match picked with
  | None => Some (None, vs)
  | Some (level, f) =>
      let files := version_levels (st_files (store_ vs)) v in
      let c := with_input_version (with_inputs (Compaction_new (max_file_size o) level) [f] []) (Some cur) in
      vs ← Version_Ref vs cur;
      c ← overlapping_level0 files c;
      '(c, vs) ← setup_compaction vs files c;
      Some (Some c, vs)
  end.

(** ** [CompactRange] *)

(** [inputs.resize(i + 1)] at the first file where the sum reaches the limit. *)
Fixpoint cut_inputs (limit total : Z) (inputs : list FileMetaData) : list FileMetaData :=
  match inputs with
  | [] => []
  | f :: inputs => let total := u64 (total + file_size f) in f :: (if limit <=? total then [] else cut_inputs limit total inputs)
  end.

Definition CompactRange (vs : VersionSet) (level : Z) (begin end_ : option bytes) : option (option Compaction * VersionSet) :=
  cur ← current_ (versions_ vs);
  v ← by_addr (versions_ vs) !! cur;
  let files := version_levels (st_files (store_ vs)) v in
  inputs ← GetOverlappingInputs level files begin end_;
  match inputs with
  | [] => Some (None, vs)
  | _ =>
      let inputs := if 0 <? level then cut_inputs (MaxFileSizeForLevel (max_file_size o) level) 0 inputs else inputs in
      vs ← Version_Ref vs cur;
      '(c, vs) ← setup_compaction vs files (with_input_version (with_inputs (Compaction_new (max_file_size o) level) inputs []) (Some cur));
      Some (Some c, vs)
  end.

(** ** Class [Compaction] *)

Definition IsTrivialMove (c : Compaction) : option bool :=
  if (length (inputs0 c) =? 1)%nat && (length (inputs1 c) =? 0)%nat then
    limit ← MaxGrandParentOverlapBytes (max_file_size o); Some (TotalFileSize (grandparents_ c) <=? limit)
  else Some false.

Definition AddInputDeletions (c : Compaction) (e : VersionEdit) : VersionEdit :=
  fold_left (fun e f => VersionEdit.DeleteFile e (level_ c + 1) (number f)) (inputs1 c)
    (fold_left (fun e f => VersionEdit.DeleteFile e (level_ c) (number f)) (inputs0 c) e).

(** The files from index [n] on: the index where the scan stops, and whether the
    key lies in the file there. *)
Fixpoint skip_files (u : bytes) (files : list FileMetaData) (n : nat) : nat * bool :=
  match files with
  | [] => (n, false)
  | f :: files =>
      if Compare u (ExtractUserKey (largest f)) <=? 0 then (n, 0 <=? Compare u (ExtractUserKey (smallest f)))
      else skip_files u files (S n)
  end.

Fixpoint base_levels (u : bytes) (levels : list (list FileMetaData)) (ptrs : list nat) : bool * list nat :=
  match levels, ptrs with
  | files :: levels, p :: ptrs =>
      let '(p', inside) := skip_files u (drop p files) p in
      if inside then (false, p' :: ptrs)
      else let '(b, ptrs) := base_levels u levels ptrs in (b, p' :: ptrs)
  | _, _ => (true, ptrs)
  end.

Definition IsBaseLevelForKey (files : list (list FileMetaData)) (c : Compaction) (u : bytes) : bool * Compaction :=
  let n := Z.to_nat (level_ c + 2) in
  let '(b, ptrs) := base_levels u (drop n files) (drop n (level_ptrs_ c)) in
  (b, MkCompaction (level_ c) (max_output_file_size_ c) (input_version_ c) (edit_ c) (inputs0 c) (inputs1 c) (grandparents_ c)
        (grandparent_index_ c) (seen_key_ c) (overlapped_bytes_ c) (take n (level_ptrs_ c) ++ ptrs)).

(** The grandparents passed by the key: the new index and overlapped bytes. *)
Fixpoint pass_grandparents (key : bytes) (seen : bool) (files : list FileMetaData) (index : nat) (bytes_ : Z) : nat * Z :=
  match files with
  | [] => (index, bytes_)
  | f :: files =>
      if 0 <? internal_compare key (largest f)
      then pass_grandparents key seen files (S index) (if seen then i64 (bytes_ + file_size f) else bytes_)
      else (index, bytes_)
  end.

Definition ShouldStopBefore (c : Compaction) (key : bytes) : option (bool * Compaction) :=
  let '(index, overlapped) := pass_grandparents key (seen_key_ c) (drop (grandparent_index_ c) (grandparents_ c)) (grandparent_index_ c) (overlapped_bytes_ c) in
  limit ← MaxGrandParentOverlapBytes (max_file_size o);
  let stop := limit <? overlapped in
  Some (stop, MkCompaction (level_ c) (max_output_file_size_ c) (input_version_ c) (edit_ c) (inputs0 c) (inputs1 c) (grandparents_ c)
                index true (if stop then 0 else overlapped) (level_ptrs_ c)).

(** The destructor and [ReleaseInputs] give up the input version. *)
Definition ReleaseInputs (vs : VersionSet) (c : Compaction) : option (Compaction * VersionSet) :=
  match input_version_ c with
  | Some v => vs ← Version_Unref vs v; Some (with_input_version c None, vs)
  | None => Some (c, vs)
  end.

(** ** Queries *)

Definition overlapping_bytes (files : list (list FileMetaData)) (level : Z) (result : option Z) (f : FileMetaData) : option Z :=
  result ← result;
  overlaps ← GetOverlappingInputs (level + 1) files (Some (smallest f)) (Some (largest f));
  let sum := TotalFileSize overlaps in
  Some (if result <? sum then sum else result).

Definition MaxNextLevelOverlappingBytes (files : list (list FileMetaData)) : option Z :=
  fold_left (fun result level => fold_left (overlapping_bytes files level) (default [] (files !! Z.to_nat level)) result)
    (seqZ 1 (kNumLevels - 2)) (Some 0).
End Compact.

(** ** A key split over two files of a level *)

Section Split.
#[local] Existing Instance BytewiseComparator.
#[local] Instance crc_split : Crc32c := crc32c_portable 0.

(** The key 98 has its new version at the end of file 5 and its old version at
    the beginning of file 6; file 12 is file 5 rewritten by the compaction. *)
Definition split_contents (n : Z) : option (Z * list (bytes * bytes)) :=
  if (n =? 5) || (n =? 12) then Some (20000000, [entry [97] 9 kTypeValue [3]; entry [98] 8 kTypeValue [2]])
  else if n =? 6 then Some (20000000, [entry [98] 4 kTypeValue [1]; entry [99] 3 kTypeValue [5]])
  else None.

Definition split_edit : VersionEdit :=
  AddFile (AddFile VersionEdit_new 1 5 20000000 (InternalKey_make [97] 9 kTypeValue) (InternalKey_make [98] 8 kTypeValue))
    1 6 20000000 (InternalKey_make [98] 4 kTypeValue) (InternalKey_make [99] 3 kTypeValue).

Definition split_get (vs : VersionSet) : option (Status * bytes) :=
  v ← current_version vs;
  '(rs, st) ← Get (TC := direct_cache split_contents) (user_comparator := BytewiseComparator) v (st_files (store_ vs)) tt
    (MkGetOptions (Table.MkReadOptions true true 0 0 0) 0 0) (LookupKey.make [98] 20) [];
  Some (rs, value st).

(** A lookup before and after the compaction that [PickCompaction] chooses. *)
Definition split_run : option ((Status * bytes) * (list Z * list Z) * (Status * bytes)) :=
  vs ← VersionSet_new (MkEnv ∅ []);
  '(_, vs) ← LogAndApply example_options (with_numbers vs 20 2 50 0 0) split_edit;
  before ← split_get vs;
  '(c, vs) ← PickCompaction example_options vs;
  c ← c;
  '(_, vs) ← LogAndApply example_options vs
    (AddFile (AddInputDeletions c (edit_ c)) (level_ c + 1) 12 20000000 (InternalKey_make [97] 9 kTypeValue) (InternalKey_make [98] 8 kTypeValue));
  after ← split_get vs;
  Some (before, (number <$> inputs0 c, number <$> inputs1 c), after).

(** The compaction takes file 5 without file 6, which holds an older version of
    the same key: the lookup that returned the new value returns the old one
    afterwards. *)
Theorem split_key_resurrected : split_run = Some ((Status_OK, [2]), ([5], []), (Status_OK, [1])).
Proof. vm_compute. reflexivity. Qed.
End Split.
