(* ===== verification/CompactionInputs.v ===== *)
(** * CompactionInputs: a compaction takes whole keys

    What Compaction.v promises about the inputs it picks: together with a file
    of the level it takes every file of the next level, and every file of the
    level itself as far as levels do not split a key, that may hold an entry of
    one of its keys; and [IsBaseLevelForKey] with its moving pointers answers as
    a scan of the deeper levels. *)
From stdpp Require Import gmap sorting.
From Stdlib Require Import SpecFloat.
From S2P Require Import Prelude Coding Crc32c Status Bloom Comparator DbFormat Filename Log VersionEdit Version VersionGet VersionBuilder Manifest VersionSet VersionRefs VersionApply Compaction.

Section Inputs.
Context {C : Comparator} {L : ComparatorLaws C}.

(** ** Ranges *)

(** [r] covers the files, and its ends are ends of files. *)
Record covers (r : bytes * bytes) (fs : list FileMetaData) : Prop := {
  cv_files : Forall file_ok fs;
  cv_lo : internal_key_ok r.1;
  cv_hi : internal_key_ok r.2;
  cv_start : forall f, f ∈ fs -> internal_compare r.1 (smallest f) <= 0;
  cv_limit : forall f, f ∈ fs -> internal_compare (largest f) r.2 <= 0
}.

Lemma internal_refl k : internal_key_ok k -> internal_compare k k <= 0.
Proof. intros Hk%internal_key_ok_valid. pose proof (cmp_refl (C := InternalKeyComparator) k Hk) as E. simpl in E. lia. Qed.

Lemma internal_trans a b c : internal_key_ok a -> internal_key_ok b -> internal_key_ok c ->
  internal_compare a b <= 0 -> internal_compare b c <= 0 -> internal_compare a c <= 0.
Proof. intros Ha%internal_key_ok_valid Hb%internal_key_ok_valid Hc%internal_key_ok_valid. apply (cmp_trans (C := InternalKeyComparator)); done. Qed.

Lemma internal_flip a b : internal_key_ok a -> internal_key_ok b -> ~ internal_compare a b <= 0 -> internal_compare b a <= 0.
Proof.
  intros Ha%internal_key_ok_valid Hb%internal_key_ok_valid Hn. pose proof (cmp_antisym (C := InternalKeyComparator) a b Ha Hb) as E. simpl in E. lia.
Qed.

Lemma internal_min a b : internal_key_ok a -> internal_key_ok b -> exists lo, (if internal_compare a b <? 0 then a else b) = lo /\
  internal_key_ok lo /\ internal_compare lo a <= 0 /\ internal_compare lo b <= 0.
Proof.
  intros Ha Hb. destruct (Z.ltb_spec (internal_compare a b) 0); (eexists; split; [done|]); split_and!; try done; try lia; try (by apply internal_refl).
  pose proof (cmp_antisym (C := InternalKeyComparator) a b ltac:(by apply internal_key_ok_valid) ltac:(by apply internal_key_ok_valid)) as E. simpl in E. lia.
Qed.

Lemma internal_max a b : internal_key_ok a -> internal_key_ok b -> exists hi, (if 0 <? internal_compare a b then a else b) = hi /\
  internal_key_ok hi /\ internal_compare a hi <= 0 /\ internal_compare b hi <= 0.
Proof.
  intros Ha Hb. destruct (Z.ltb_spec 0 (internal_compare a b)); (eexists; split; [done|]); split_and!; try done; try lia; try (by apply internal_refl).
  apply internal_flip; [done..|lia].
Qed.

Lemma widen_covers r fs f : covers r fs -> file_ok f -> covers (widen r f) (fs ++ [f]).
Proof.
  intros [H0 H1 H2 H3 H4] Hf. pose proof Hf as [F1 F2 _ _]. unfold widen. rewrite Forall_forall in H0.
  destruct (internal_min (smallest f) r.1 F1 H1) as (lo & -> & L1 & L2 & L3). destruct (internal_max (largest f) r.2 F2 H2) as (hi & -> & M1 & M2 & M3).
  split; cbn [fst snd]; [|done|done|..].
  - apply Forall_app. split; [by apply Forall_forall|by apply Forall_singleton].
  - intros g [Hg| ->%list_elem_of_singleton]%elem_of_app; [|done]. destruct (H0 g Hg). by apply (internal_trans _ r.1); [..|apply H3].
  - intros g [Hg| ->%list_elem_of_singleton]%elem_of_app; [|done]. destruct (H0 g Hg). by apply (internal_trans _ r.2); [..|apply H4|].
Qed.

Lemma GetRange_ok fs : fs <> [] -> Forall file_ok fs -> exists r, GetRange fs = Some r /\ covers r fs.
Proof.
  intros Hne Hok. destruct fs as [|f fs]; [done|]. apply Forall_cons in Hok as [Hf Hok]. eexists. split; [done|].
  assert (Hgen : forall fs acc r, covers r acc -> Forall file_ok fs -> covers (fold_left widen fs r) (acc ++ fs)).
  { clear -L. induction fs as [|f fs IH]; intros acc r Hr Hok; [by rewrite app_nil_r|]. apply Forall_cons in Hok as [Hf Hok]. cbn [fold_left].
    replace (acc ++ f :: fs) with ((acc ++ [f]) ++ fs) by (by rewrite <- app_assoc). apply IH; [by apply widen_covers|done]. }
  apply (Hgen fs [f]); [|done]. pose proof Hf as [F1 F2 _ _]. split; cbn [fst snd]; [by apply Forall_singleton|done|done|..];
    intros g ->%list_elem_of_singleton; by apply internal_refl.
Qed.

(** ** Overlaps of files *)

(** Some user key may be in both files. *)
Definition share_keys (f g : FileMetaData) : Prop := Compare (ustart f) (ulimit g) <= 0 /\ Compare (ustart g) (ulimit f) <= 0.

Lemma file_user_ok f : file_ok f -> valid_key (ustart f) /\ valid_key (ulimit f) /\ Compare (ustart f) (ulimit f) <= 0.
Proof. intros [H1 H2 H3 _]. split_and!; [by apply internal_key_ok_user..|by apply internal_le_user]. Qed.

Lemma covers_user r fs f : covers r fs -> f ∈ fs ->
  valid_key (ExtractUserKey r.1) /\ valid_key (ExtractUserKey r.2) /\ Compare (ExtractUserKey r.1) (ustart f) <= 0 /\ Compare (ulimit f) (ExtractUserKey r.2) <= 0.
Proof.
  intros [H0 H1 H2 H3 H4] Hf. split_and!; [by apply internal_key_ok_user..| |]; apply internal_le_user; auto.
Qed.

(** A file that shares keys with a covered one overlaps the range. *)
Lemma covers_overlaps r fs f g : covers r fs -> f ∈ fs -> file_ok g -> share_keys f g -> overlaps (Some (ExtractUserKey r.1)) (Some (ExtractUserKey r.2)) g.
Proof.
  intros Hr Hf Hg [S1 S2]. destruct (covers_user r fs f Hr Hf) as (V1 & V2 & C1 & C2). pose proof (cv_files _ _ Hr) as Hok. rewrite Forall_forall in Hok.
  destruct (file_user_ok f (Hok f Hf)) as (U1 & U2 & _). destruct (file_user_ok g Hg) as (W1 & W2 & _). split; cbn.
  - by apply (cmp_trans _ (ustart f)).
  - by apply (cmp_trans _ (ulimit f)).
Qed.

Lemma share_keys_refl f : file_ok f -> share_keys f f.
Proof. intros Hf. destruct (file_user_ok f Hf) as (_ & _ & ?). done. Qed.

(** ** [SetupOtherInputs] *)

(** Together with a file of [fs], the list has every file of the level that may
    share a key with it. *)
Definition whole (level_files fs : list FileMetaData) : Prop :=
  forall f g, f ∈ fs -> g ∈ level_files -> share_keys f g -> g ∈ fs.

(** A set of files that its range closes is whole. *)
Lemma closed_whole fs lo hi : Forall file_ok fs -> bound_ok lo -> bound_ok hi ->
  closed_range fs lo hi -> whole fs (base.filter (overlaps lo hi) fs).
Proof.
  intros Hok O1 O2 Hcl f g Hf Hg [S1 S2]. rewrite Forall_forall in Hok. apply list_elem_of_filter in Hf as [Ho Hf]. apply list_elem_of_filter. split; [|done].
  destruct (Hcl f Hf Ho) as [K1 K2]. destruct (file_user_ok g (Hok g Hg)) as (U1 & U2 & _). destruct (file_user_ok f (Hok f Hf)) as (V1 & V2 & _). split.
  - exact (lo_le_trans lo (Some (ustart f)) (Some (ulimit g)) O1 V1 U2 K1 S1).
  - exact (hi_le_trans (Some (ustart g)) (Some (ulimit f)) hi U1 V2 O2 S2 K2).
Qed.

Section Setup.
Context (files : list (list FileMetaData)) (Hv : version_files_ok files).

Lemma level_files_ok l fs : files !! l = Some fs -> Forall file_ok fs.
Proof. intros Hl. by destruct (vf_files _ Hv l fs Hl). Qed.

(** Overlapping inputs over a covering range: part of the level, with all files
    that share keys with a covered one; on level 0 a whole set. *)
Lemma overlapping_ok level fs r covered : 0 <= level < kNumLevels -> files !! Z.to_nat level = Some fs -> covers r covered ->
  exists inputs, GetOverlappingInputs level files (Some r.1) (Some r.2) = Some inputs /\ (forall g, g ∈ inputs -> g ∈ fs) /\
    (forall f g, f ∈ covered -> g ∈ fs -> share_keys f g -> g ∈ inputs) /\ (level = 0 -> whole fs inputs).
Proof.
  intros Hlev Hfs Hr. pose proof (level_files_ok _ _ Hfs) as Hok. pose proof Hok as Hok'. rewrite Forall_forall in Hok'.
  assert (B1 : bound_ok (ExtractUserKey <$> Some r.1)) by (cbn; apply internal_key_ok_user, Hr).
  assert (B2 : bound_ok (ExtractUserKey <$> Some r.2)) by (cbn; apply internal_key_ok_user, Hr).
  destruct (decide (level = 0)) as [->|Hne].
  - destruct (GetOverlappingInputs_0 files fs (Some r.1) (Some r.2) Hfs Hok B1 B2) as (lo & hi & E & O1 & O2 & [W1 W2] & Hcl & _).
    eexists. split; [exact E|]. split_and!.
    + intros g Hg. by apply list_elem_of_filter in Hg as [_ ?].
    + intros f g Hf Hg Hs. apply list_elem_of_filter. split; [|done]. destruct (covers_overlaps r covered f g Hr Hf (Hok' g Hg) Hs) as [K1 K2].
      destruct (file_user_ok g (Hok' g Hg)) as (U1 & U2 & _). split;
        [exact (lo_le_trans lo (Some (ExtractUserKey r.1)) (Some (ulimit g)) O1 B1 U2 W1 K1)|exact (hi_le_trans (Some (ustart g)) (Some (ExtractUserKey r.2)) hi U1 B2 O2 K2 W2)].
    + intros _. by apply (closed_whole fs lo hi).
  - eexists. split; [apply GetOverlappingInputs_above; [lia|done..]|]. split_and!.
    + intros g Hg. by apply list_elem_of_filter in Hg as [_ ?].
    + intros f g Hf Hg Hs. apply list_elem_of_filter. split; [|done]. exact (covers_overlaps r covered f g Hr Hf (Hok' g Hg) Hs).
    + done.
Qed.

(** A level where no key is split over two files. *)
Definition user_disjoint (fs : list FileMetaData) : Prop := forall f g, f ∈ fs -> g ∈ fs -> share_keys f g -> f = g.

Lemma disjoint_whole fs inputs : user_disjoint fs -> (forall f, f ∈ inputs -> f ∈ fs) -> whole fs inputs.
Proof. intros Hd Hsub f g Hf Hg Hs. by rewrite <- (Hd f g (Hsub f Hf) Hg Hs). Qed.

Lemma covers_app r a b : covers r (a ++ b) -> covers r a.
Proof.
  intros [H0 H1 H2 H3 H4]. apply Forall_app in H0 as [H0 _]. split; [done..| |]; intros f Hf; [apply H3|apply H4]; apply elem_of_app; by left.
Qed.

Lemma limits_ok mfs : 0 <= mfs < 2 ^ 31 / 25 -> exists l, ExpandedCompactionByteSizeLimit mfs = Some l.
Proof.
  intros Hm. change (2 ^ 31 / 25) with 85899345 in Hm. unfold ExpandedCompactionByteSizeLimit, int_mul, TargetFileSize, i32.
  rewrite (Z.mod_small (mfs + 2 ^ 31)) by lia. replace (mfs + 2 ^ 31 - 2 ^ 31) with mfs by lia.
  rewrite (proj2 (Z.leb_le _ _)), (proj2 (Z.ltb_lt _ _)) by lia. by eexists.
Qed.

(** Inputs of a level and of the next one such that no file of the next level
    that may hold one of their keys is missing, nor one of level 0 or of a level
    that splits no key. *)
Record inputs_ok (level : Z) (fs fs1 i0 i1 : list FileMetaData) : Prop := {
  in_sub0 : forall f, f ∈ i0 -> f ∈ fs;
  in_sub1 : forall f, f ∈ i1 -> f ∈ fs1;
  in_next : forall f g, f ∈ i0 -> g ∈ fs1 -> share_keys f g -> g ∈ i1;
  in_same : level = 0 \/ user_disjoint fs -> whole fs i0
}.

Lemma whole_inputs level fs inputs : (level = 0 -> whole fs inputs) -> (forall f, f ∈ inputs -> f ∈ fs) ->
  level = 0 \/ user_disjoint fs -> whole fs inputs.
Proof. intros H0 Hsub [->|Hd]; [by apply H0|by apply disjoint_whole]. Qed.

Section Levels.
Context (level : Z) (fs fs1 : list FileMetaData) (Hlev : 0 <= level) (Hnext : level + 1 < kNumLevels).
Context (Hfs : files !! Z.to_nat level = Some fs) (Hfs1 : files !! Z.to_nat (level + 1) = Some fs1).
Context (mfs : Z) (Hmfs : 0 <= mfs < 2 ^ 31 / 25).

Lemma sub_ok l i : files !! l = Some fs -> (forall f, f ∈ i -> f ∈ fs) -> Forall file_ok i.
Proof. intros Hl Hsub. pose proof (level_files_ok _ _ Hl) as Hok. rewrite Forall_forall in Hok. apply Forall_forall. auto. Qed.

Lemma expand_inputs_ok i0 i1 r : i0 <> [] -> (forall f, f ∈ i0 -> f ∈ fs) -> covers r (i0 ++ i1) ->
  exists grown, expand_inputs mfs level files i0 i1 r.1 r.2 = Some grown /\
    forall e0 e1 n, grown = Some (e0, e1, n) -> inputs_ok level fs fs1 e0 e1 /\ covers n e0 /\ (forall f, f ∈ i0 -> f ∈ e0).
Proof.
  intros Hne Hsub Hr. destruct (overlapping_ok level fs r (i0 ++ i1) ltac:(lia) Hfs Hr) as (e0 & Ee & Se & Ie & We).
  pose proof (sub_ok _ _ Hfs Hsub) as Hi0. rewrite Forall_forall in Hi0.
  assert (Hmore : forall f, f ∈ i0 -> f ∈ e0).
  { intros f Hf. apply (Ie f f); [apply elem_of_app; by left|by apply Hsub|apply share_keys_refl; by apply Hi0]. }
  destruct (GetRange_ok e0) as (n & En & Cn); [|by apply (sub_ok _ _ Hfs)|].
  { destruct i0 as [|f i0]; [done|]. specialize (Hmore f ltac:(by left)). intros ->. by apply elem_of_nil in Hmore. }
  destruct (overlapping_ok (level + 1) fs1 n e0 ltac:(lia) Hfs1 Cn) as (e1 & Ee1 & Se1 & Ie1 & _).
  destruct (limits_ok mfs Hmfs) as [lim Hlim].
  unfold expand_inputs. rewrite Ee. cbn [mbind option_bind]. destruct (length i0 <? length e0)%nat; [|by eexists].
  rewrite Hlim. cbn [mbind option_bind]. destruct (_ <? lim); [|by eexists]. rewrite En. cbn [mbind option_bind].
  destruct n as [ns nl]. cbn [fst snd] in Ee1. rewrite Ee1. cbn [mbind option_bind]. destruct (_ =? _)%nat; [|by eexists].
  eexists. split; [done|]. intros e0' e1' n' [= <- <- <-]. split_and!; [|done..]. split; [done..|by apply whole_inputs].
Qed.

(** [SetupOtherInputs] always succeeds; the inputs grow to complete ones, the
    next compaction starts at their end, and the grandparents are the files two
    levels down that may share a key with them. *)
Record setup_ok (c c' : Compaction) (key : bytes) : Prop := {
  su_level : level_ c' = level_ c;
  su_version : input_version_ c' = input_version_ c;
  su_more : forall f, f ∈ inputs0 c -> f ∈ inputs0 c';
  su_inputs : inputs_ok level fs fs1 (inputs0 c') (inputs1 c');
  su_key : exists start, covers (start, key) (inputs0 c');
  su_pointer : edit_ c' = SetCompactPointer (edit_ c) level key;
  su_grand : forall fs2 f g, files !! Z.to_nat (level + 2) = Some fs2 -> f ∈ inputs0 c' ++ inputs1 c' -> g ∈ fs2 -> share_keys f g ->
    g ∈ grandparents_ c'
}.

Lemma SetupOtherInputs_ok c : level_ c = level -> inputs0 c <> [] -> (forall f, f ∈ inputs0 c -> f ∈ fs) -> (level = 0 -> whole fs (inputs0 c)) ->
  exists c' key, SetupOtherInputs mfs files c = Some (c', key) /\ setup_ok c c' key.
Proof.
  intros El Hne Hsub Hw. unfold SetupOtherInputs. rewrite El.
  pose proof (sub_ok _ _ Hfs Hsub) as Hi0. destruct (GetRange_ok (inputs0 c) Hne Hi0) as ([s0 l0] & -> & C0). cbn [mbind option_bind].
  destruct (overlapping_ok (level + 1) fs1 (s0, l0) (inputs0 c) ltac:(lia) Hfs1 C0) as (i1 & E1 & S1 & I1 & _). cbn [fst snd] in E1. rewrite E1. cbn [mbind option_bind].
  assert (Hgood : inputs_ok level fs fs1 (inputs0 c) i1) by (split; [done..|by apply whole_inputs]).
  assert (Hi1 : Forall file_ok i1).
  { pose proof (level_files_ok _ _ Hfs1) as Hok. rewrite Forall_forall in Hok. apply Forall_forall. auto. }
  unfold GetRange2. destruct (GetRange_ok (inputs0 c ++ i1)) as ([sa la] & Ea & Ca); [by destruct (inputs0 c)|by apply Forall_app|].
  rewrite Ea. cbn [mbind option_bind].
  assert (Hgr : exists grown, match i1 with [] => Some None | _ :: _ => expand_inputs mfs level files (inputs0 c) i1 sa la end = Some grown /\
    forall e0 e1 n, grown = Some (e0, e1, n) -> inputs_ok level fs fs1 e0 e1 /\ covers n e0 /\ (forall f, f ∈ inputs0 c -> f ∈ e0)).
  { destruct i1; [by eexists|]. exact (expand_inputs_ok _ _ (sa, la) Hne Hsub Ca). }
  destruct Hgr as (grown & -> & Hgrown). cbn [mbind option_bind].
  assert (Hfin : exists i0' i1' key r, match grown with Some (e0, e1, (_, new_limit)) => r ← GetRange (e0 ++ e1); Some (e0, e1, new_limit, r) | None => Some (inputs0 c, i1, l0, (sa, la)) end
      = Some (i0', i1', key, r) /\ inputs_ok level fs fs1 i0' i1' /\ (exists s, covers (s, key) i0') /\ (forall f, f ∈ inputs0 c -> f ∈ i0') /\ covers r (i0' ++ i1')).
  { destruct grown as [[[e0 e1] [ns nl]]|]; [|by exists (inputs0 c), i1, l0, (sa, la); eauto 8].
    destruct (Hgrown e0 e1 (ns, nl) eq_refl) as (G1 & G2 & G3). destruct (GetRange_ok (e0 ++ e1)) as (r & -> & Cr).
    - intros [-> _]%app_eq_nil. destruct (inputs0 c) as [|f i0]; [done|]. specialize (G3 f ltac:(by left)). by apply elem_of_nil in G3.
    - apply Forall_app. split; [by apply (sub_ok _ _ Hfs), G1|]. pose proof (level_files_ok _ _ Hfs1) as Hok. rewrite Forall_forall in Hok. apply Forall_forall. intros f Hf. by apply Hok, G1.
    - exists e0, e1, nl, r. eauto 8. }
  destruct Hfin as (i0' & i1' & key & [s' l'] & -> & F1 & F2 & F3 & F4). cbn [mbind option_bind].
  destruct (Z.ltb_spec (level + 2) kNumLevels) as [H2|H2].
  - destruct (lookup_lt_is_Some_2 files (Z.to_nat (level + 2))) as [fs2 Hfs2]; [rewrite (vf_levels _ Hv); lia|].
    destruct (overlapping_ok (level + 2) fs2 (s', l') (i0' ++ i1') ltac:(lia) Hfs2 F4) as (gp & Eg & _ & Ig & _). cbn [fst snd] in Eg. rewrite Eg. cbn [mbind option_bind].
    eexists _, _. split; [done|]. split; cbn; try done. intros fs2' f g Hfs2'. rewrite Hfs2 in Hfs2'. injection Hfs2' as <-. apply Ig.
  - cbn [mbind option_bind]. eexists _, _. split; [done|]. split; cbn; try done.
    intros fs2' f g Hfs2'. apply lookup_lt_Some in Hfs2'. rewrite (vf_levels _ Hv) in Hfs2'. lia.
Qed.
End Levels.
End Setup.

(** ** [PickCompaction] *)

Definition sizes_ok (files : list (list FileMetaData)) : Prop :=
  forall l fs, files !! l = Some fs -> zlen fs < 2 ^ 31 /\ Forall (fun f => 0 <= file_size f < 2 ^ 64) fs.

Lemma strongly_sorted_lookup {A} (R : A -> A -> Prop) l i j x y : StronglySorted R l -> (i < j)%nat -> l !! i = Some x -> l !! j = Some y -> R x y.
Proof.
  intros Hl. revert i j. induction Hl as [|a l Hl IH Ha]; intros i j Hij Hi Hj; [done|].
  destruct i as [|i], j as [|j]; cbn in *; [lia| |lia|apply (IH i j); [lia|done..]]. injection Hi as ->. rewrite Forall_forall in Ha. apply Ha. by apply list_elem_of_lookup_2 in Hj.
Qed.

(** The levels of a well-formed version, as the range functions take them. *)
Lemma levels_version_files h v : levels_ok h (files_ v) -> sizes_ok (version_levels h v) -> version_files_ok (version_levels h v).
Proof.
  intros [H1 H2 _ _ H5] Hs.
  assert (Hok : forall l fs, version_levels h v !! l = Some fs -> Forall file_ok fs).
  { intros l fs Hl. destruct (Hs l fs Hl) as [_ Hsz]. unfold version_levels in Hl. rewrite list_lookup_fmap in Hl. apply fmap_Some in Hl as (ps & Hps & ->).
    specialize (H2 l). unfold level_metas, level_files in H2. rewrite Hps in H2. cbn [default id] in H2. apply (proj1 (Forall_fmap _ _ _)) in H2. apply (proj1 (Forall_fmap _ _ _)) in Hsz. apply Forall_fmap.
    eapply Forall_impl; [apply Forall_and; split; [exact H2|exact Hsz]|]. intros p [(M1 & M2 & M3) M4]. by split. }
  split; [unfold version_levels; by rewrite length_fmap|intros l fs Hl; split; [by apply (Hok l)|by apply (Hs l)]|].
  intros l fs Hpos Hl. split; [by apply (Hok l)|]. intros i j f g Hij Hi Hj. unfold version_levels in Hl. rewrite list_lookup_fmap in Hl.
  apply fmap_Some in Hl as (ps & Hps & ->). rewrite list_lookup_fmap in Hi, Hj. apply fmap_Some in Hi as (p & Hp & ->). apply fmap_Some in Hj as (q & Hq & ->).
  specialize (H5 l Hpos). unfold level_metas, level_files in H5. rewrite Hps in H5. cbn in H5.
  apply (strongly_sorted_lookup _ _ i j (fmeta h p) (fmeta h q) H5); [done|by rewrite list_lookup_fmap, ?Hp, ?Hq..].
Qed.

(** What the version says about a compaction: a score of at least 1 names a
    level that has files, and a file with too many seeks is in its level. *)
Record pick_ok (v : Version) : Prop := {
  pk_score : SFleb (SFone 53 1024) (compaction_score_ v) = true ->
    0 <= compaction_level_ v /\ compaction_level_ v + 1 < kNumLevels /\ level_files (files_ v) (Z.to_nat (compaction_level_ v)) <> [];
  pk_seek : forall p, file_to_compact_ v = Some p ->
    0 <= file_to_compact_level_ v /\ file_to_compact_level_ v + 1 < kNumLevels /\ p ∈ level_files (files_ v) (Z.to_nat (file_to_compact_level_ v))
}.

Lemma zero_score y : SFleb (SFone 53 1024) (SFdiv 53 1024 (double_of_Z 0) y) = false.
Proof. by destruct y. Qed.

(** [Finalize] gives the version such a score. *)
Lemma Finalize_score (o : Options) h v : let v' := Finalize o h v in SFleb (SFone 53 1024) (compaction_score_ v') = true ->
    0 <= compaction_level_ v' /\ compaction_level_ v' + 1 < kNumLevels /\ level_files (files_ v') (Z.to_nat (compaction_level_ v')) <> [].
Proof.
  assert (Hfold : forall ls best, (forall l, l ∈ ls -> 0 <= l < kNumLevels - 1) ->
    best = (-1, minus_one) \/ (0 <= best.1 < kNumLevels - 1 /\ best.2 = level_score o h v best.1) ->
    let b := fold_left (best_step o h v) ls best in b = (-1, minus_one) \/ (0 <= b.1 < kNumLevels - 1 /\ b.2 = level_score o h v b.1)).
  { induction ls as [|l ls IH]; intros best Hls Hb; [done|]. cbn [fold_left]. apply IH; [intros k Hk; apply Hls; by right|].
    unfold best_step. destruct (SFltb _ _); [|done]. right. split; [apply Hls; by left|done]. }
  pose proof (Hfold (seqZ 0 (kNumLevels - 1)) (-1, minus_one)) as Hb. cbv zeta in Hb |- *. unfold Finalize.
  destruct (fold_left _ _ _) as [bl bs]. cbn [compaction_score_ compaction_level_ files_].
  intros Hs. destruct Hb as [[= -> ->]|[Hr Hsc]]; [intros l Hl; apply elem_of_seqZ in Hl; lia|by left|done|].
  cbn [fst snd] in Hr, Hsc. split_and!; [lia|lia|]. intros Hnil. rewrite Hsc in Hs. unfold level_score in Hs. rewrite Hnil in Hs. cbn [fmap list_fmap] in Hs.
  change (u64 (TotalFileSize [])) with 0 in Hs. change (zlen (@nil Z)) with 0 in Hs. destruct (bl =? 0); by rewrite zero_score in Hs.
Qed.

Section Pick.
Context {crc : Crc32c} (o : Options) (Hmfs : 0 <= max_file_size o < 2 ^ 31 / 25).

Lemma pick_first_in pointer fs : fs <> [] -> exists f, pick_first pointer fs = Some f /\ f ∈ fs.
Proof.
  intros Hne. unfold pick_first. destruct (List.find _ fs) as [f|] eqn:E.
  - exists f. split; [done|]. apply find_some in E as [E _]. by apply list_elem_of_In.
  - destruct fs as [|f fs]; [done|]. exists f. split; [done|by left].
Qed.

Lemma version_levels_lookup h v l : level_files (files_ v) l <> [] -> version_levels h v !! l = Some (fm h <$> level_files (files_ v) l).
Proof. unfold level_files, version_levels. rewrite list_lookup_fmap. by destruct (files_ v !! l). Qed.

(** Nothing to do: compactions are off, no level is full and no file is due. *)
Definition nothing_due (v : Version) : Prop :=
  force_disable_compaction o = true \/
  (SFleb (SFone 53 1024) (compaction_score_ v) = false /\ (file_to_compact_ v = None \/ seek_compaction_ o = false)).

Lemma pick_input_ok vs v : pick_ok v -> exists picked, pick_input o vs v = Some picked /\
  match picked with
  | None => nothing_due v
  | Some (level, f) => 0 <= level /\ level + 1 < kNumLevels /\
      exists fs, version_levels (st_files (store_ vs)) v !! Z.to_nat level = Some fs /\ f ∈ fs
  end.
Proof.
  intros [Hs Hk]. unfold pick_input, nothing_due. destruct (force_disable_compaction o); cbn [negb andb].
  { eexists. split; [by destruct (file_to_compact_ v)|by left]. }
  destruct (SFleb _ _) eqn:E.
  - destruct (Hs eq_refl) as (L1 & L2 & L3). rewrite (proj2 (Z.leb_le _ _) L1), (proj2 (Z.ltb_lt _ _) L2). cbn [andb].
    rewrite (version_levels_lookup _ _ _ L3). cbn [default].
    destruct (pick_first_in (default [] (compact_pointer_ vs !! Z.to_nat (compaction_level_ v))) (fm (st_files (store_ vs)) <$> level_files (files_ v) (Z.to_nat (compaction_level_ v)))) as (f & Ef & Hf).
    { intros He%fmap_nil_inv. done. }
    replace (pick_first _ _) with (Some f) by (symmetry; exact Ef). cbn [mbind option_bind]. eexists. split; [done|]. split_and!; [done..|]. eexists. split; [by apply version_levels_lookup|done].
  - destruct (file_to_compact_ v) as [p|]; [|by eexists; split; [done|]; right; split; [|left]].
    destruct (seek_compaction_ o); [|by eexists; split; [done|]; right; split; [|right]].
    destruct (Hk p eq_refl) as (L1 & L2 & L3). eexists. split; [done|]. split_and!; [done..|].
    assert (level_files (files_ v) (Z.to_nat (file_to_compact_level_ v)) <> []) as Hne by (intros En; rewrite En in L3; by apply elem_of_nil in L3).
    eexists. split; [by apply version_levels_lookup|]. by apply list_elem_of_fmap_2.
Qed.

(** Level 0: a whole set with the picked file. *)
Lemma overlapping_level0_ok files c f fs : version_files_ok files -> 0 <= level_ c -> files !! Z.to_nat (level_ c) = Some fs -> inputs0 c = [f] -> f ∈ fs ->
  exists c', overlapping_level0 files c = Some c' /\ level_ c' = level_ c /\ input_version_ c' = input_version_ c /\ edit_ c' = edit_ c /\
    f ∈ inputs0 c' /\ (forall g, g ∈ inputs0 c' -> g ∈ fs) /\ (level_ c = 0 -> whole fs (inputs0 c')).
Proof.
  intros Hv H0 Hfs Hi Hf. unfold overlapping_level0. destruct (Z.eqb_spec (level_ c) 0) as [E|E].
  - rewrite E in *. pose proof (level_files_ok files Hv _ _ Hfs) as Hok. rewrite Forall_forall in Hok. rewrite Hi.
    destruct (GetRange_ok [f]) as ([s l] & -> & Cr); [done|by apply Forall_singleton, Hok|]. cbn [mbind option_bind].
    destruct (overlapping_ok files Hv 0 fs (s, l) [f] ltac:(done) Hfs Cr) as (i0 & Ei & Si & Ii & Wi). cbn [fst snd] in Ei. rewrite Ei. cbn [mbind option_bind].
    assert (f ∈ i0) as Hfi by (apply (Ii f f); [by left|done|by apply share_keys_refl, Hok]).
    destruct i0 as [|g i0]; [by apply elem_of_nil in Hfi|]. eexists. split; [done|]. split_and!; [done..|by apply Wi].
  - exists c. rewrite Hi. split_and!; try done; [by left|]. by intros g ->%list_elem_of_singleton.
Qed.

(** Taking the reference and setting the pointer keep the set in order. *)
Lemma hold_current vs c holders : set_ok vs c holders ->
  exists vv', Version_Ref vs c = Some (with_heap vs (store_ vs) vv') /\ forall level key, set_ok (set_pointer (with_heap vs (store_ vs) vv') level key) c (c :: holders).
Proof.
  intros [Hh Hc Hd He]. destruct (Version_Ref_ok vs (c :: holders) [] c Hh ltac:(by left)) as (vv1 & E & Hh1 & [F1 F2 F3]).
  exists vv1. split; [done|]. intros level key. split; cbn; [done|by rewrite F3|done..].
Qed.

(** The result of picking: a reference to the version, and complete inputs of
    its level and of the next one. *)
Definition compaction_ok (vs vs' : VersionSet) (cur : Z) (holders : list Z) (files : list (list FileMetaData)) (c : Compaction) : Prop :=
  set_ok vs' cur (cur :: holders) /\ input_version_ c = Some cur /\ inputs0 c <> [] /\
  exists fs fs1 key start, files !! Z.to_nat (level_ c) = Some fs /\ files !! Z.to_nat (level_ c + 1) = Some fs1 /\
    inputs_ok (level_ c) fs fs1 (inputs0 c) (inputs1 c) /\
    compact_pointer_ vs' = <[Z.to_nat (level_ c) := key]> (compact_pointer_ vs) /\ covers (start, key) (inputs0 c) /\
    edit_ c = SetCompactPointer VersionEdit_new (level_ c) key.

Lemma setup_compaction_ok vs cur holders files fs c : set_ok vs cur holders -> version_files_ok files ->
  0 <= level_ c -> level_ c + 1 < kNumLevels -> input_version_ c = Some cur -> edit_ c = VersionEdit_new ->
  files !! Z.to_nat (level_ c) = Some fs -> inputs0 c <> [] -> (forall f, f ∈ inputs0 c -> f ∈ fs) -> (level_ c = 0 -> whole fs (inputs0 c)) ->
  exists vs1 c' vs', Version_Ref vs cur = Some vs1 /\ setup_compaction o vs1 files c = Some (c', vs') /\ compaction_ok vs vs' cur holders files c' /\
    level_ c' = level_ c /\ (forall f, f ∈ inputs0 c -> f ∈ inputs0 c').
Proof.
  intros Hset Hv H0 H1 Hiv Hed Hfs Hne Hsub Hw. destruct (hold_current vs cur holders Hset) as (vv & Er & Hok).
  destruct (lookup_lt_is_Some_2 files (Z.to_nat (level_ c + 1))) as [fs1 Hfs1]; [rewrite (vf_levels _ Hv); lia|].
  destruct (SetupOtherInputs_ok files Hv (level_ c) fs fs1 H0 H1 Hfs Hfs1 (max_file_size o) Hmfs c eq_refl Hne Hsub Hw) as (c' & key & Es & [S1 S2 S3 S4 [start S5] S6 _]).
  eexists _, c', _. split; [exact Er|]. unfold setup_compaction. rewrite Es. cbn [mbind option_bind]. split; [done|]. split; [|done].
  split; [apply Hok|]. split; [by rewrite S2|]. split.
  - destruct (inputs0 c) as [|f i]; [done|]. specialize (S3 f ltac:(by left)). intros En. rewrite En in S3. by apply elem_of_nil in S3.
  - exists fs, fs1, key, start. rewrite S1. rewrite S6, Hed. done.
Qed.

Lemma cut_inputs_prefix limit inputs : forall total, inputs <> [] -> cut_inputs limit total inputs <> [] /\ forall f, f ∈ cut_inputs limit total inputs -> f ∈ inputs.
Proof.
  induction inputs as [|f inputs IH]; intros total Hne; [done|]. cbn [cut_inputs]. split; [done|]. intros g [->|Hg]%elem_of_cons; [by left|]. right.
  destruct (limit <=? _); [by apply elem_of_nil in Hg|]. destruct inputs as [|f' inputs]; [by apply elem_of_nil in Hg|]. by apply (IH (u64 (total + file_size f))).
Qed.

(** The manual compaction: nothing if no file of the level overlaps the range,
    else complete inputs that start with the first files of the range. *)
Lemma CompactRange_ok vs cur holders v level begin end_ : set_ok vs cur holders -> by_addr (versions_ vs) !! cur = Some v ->
  sizes_ok (version_levels (st_files (store_ vs)) v) -> 0 <= level -> level + 1 < kNumLevels -> bound_ok (ExtractUserKey <$> begin) -> bound_ok (ExtractUserKey <$> end_) ->
  exists r vs' inputs, GetOverlappingInputs level (version_levels (st_files (store_ vs)) v) begin end_ = Some inputs /\
    CompactRange o vs level begin end_ = Some (r, vs') /\
    match r with
    | None => vs' = vs /\ inputs = []
    | Some c => compaction_ok vs vs' cur holders (version_levels (st_files (store_ vs)) v) c /\ level_ c = level /\ (exists f, head inputs = Some f /\ f ∈ inputs0 c)
    end.
Proof.
  intros Hset Hcur Hsz L0 L1 B1 B2. pose proof Hset as [Hh Hc _ _]. set (files := version_levels _ v) in *.
  assert (Hv : version_files_ok files) by (apply levels_version_files; [by apply (ho_levels _ _ _ _ Hh cur)|done]).
  destruct (lookup_lt_is_Some_2 files (Z.to_nat level)) as [fs Hfs]; [rewrite (vf_levels _ Hv); lia|]. pose proof (level_files_ok files Hv _ _ Hfs) as Hok.
  assert (Hov : exists inputs, GetOverlappingInputs level files begin end_ = Some inputs /\ (forall f, f ∈ inputs -> f ∈ fs) /\ (level = 0 -> whole fs inputs)).
  { destruct (decide (level = 0)) as [->|Hne].
    - destruct (GetOverlappingInputs_0 files fs begin end_ Hfs Hok B1 B2) as (lo & hi & E & O1 & O2 & _ & Hcl & _). eexists. split; [exact E|]. split.
      + intros g Hg. by apply list_elem_of_filter in Hg as [_ ?].
      + intros _. by apply (closed_whole fs lo hi).
    - eexists. split; [apply GetOverlappingInputs_above; [lia|done..]|]. split; [|done]. intros g Hg. by apply list_elem_of_filter in Hg as [_ ?]. }
  destruct Hov as (inputs & Ei & Hsub & Hw). unfold CompactRange. rewrite Hc. cbn [mbind option_bind]. rewrite Hcur. cbn [mbind option_bind]. fold files.
  rewrite Ei. cbn [mbind option_bind]. destruct inputs as [|f inputs]; [by eexists _, _, _|].
  set (cut := if 0 <? level then _ else _).
  assert (Hcut : f ∈ cut /\ forall g, g ∈ cut -> g ∈ f :: inputs).
  { subst cut. destruct (0 <? level); [|split; [by left|done]]. split; [cbn; by left|]. by apply cut_inputs_prefix. }
  destruct Hcut as [Hf Hcut]. set (c := with_input_version (with_inputs (Compaction_new (max_file_size o) level) cut []) (Some cur)).
  destruct (setup_compaction_ok vs cur holders files fs c Hset Hv L0 L1 eq_refl eq_refl Hfs) as (vs1 & c' & vs' & -> & Es & Hcok & El & Hmore).
  - intros En. change (inputs0 c) with cut in En. rewrite En in Hf. by apply elem_of_nil in Hf.
  - intros g Hg. by apply Hsub, Hcut.
  - change (level_ c) with level. intros ->. by apply Hw.
  - cbn [mbind option_bind]. rewrite Es. cbn [mbind option_bind]. eexists _, _, _. split; [done|]. split; [done|]. split; [done|]. split; [by rewrite El|].
    exists f. split; [done|by apply Hmore].
Qed.

(** C12. [PickCompaction] always returns.  It returns nothing only if compactions
    are disabled, or no level is full and no file has used up its seeks, and
    then changes nothing.  Otherwise the compaction holds a reference to the
    current version and takes at least one file; with a file of its level it
    takes every file of the next level that may hold one of its keys, and every
    such file of the same level, if that is level 0 or splits no key between two
    files.  The compaction pointer of the level moves to the end of the inputs,
    as the edit records. *)
Theorem pick_compaction_complete vs cur holders v : set_ok vs cur holders -> by_addr (versions_ vs) !! cur = Some v ->
  sizes_ok (version_levels (st_files (store_ vs)) v) -> pick_ok v ->
  exists r vs', PickCompaction o vs = Some (r, vs') /\
    match r with
    | None => vs' = vs /\ nothing_due v
    | Some c => compaction_ok vs vs' cur holders (version_levels (st_files (store_ vs)) v) c
    end.
Proof.
  intros Hset Hcur Hsz Hpk. pose proof Hset as [Hh Hc _ _]. set (files := version_levels _ v) in *.
  assert (Hv : version_files_ok files) by (apply levels_version_files; [by apply (ho_levels _ _ _ _ Hh cur)|done]).
  unfold PickCompaction. rewrite Hc. cbn [mbind option_bind]. rewrite Hcur. cbn [mbind option_bind].
  destruct (pick_input_ok vs v Hpk) as (picked & -> & Hp). cbn [mbind option_bind]. destruct picked as [[level f]|]; [|by eexists _, _].
  destruct Hp as (L0 & L1 & fs & Hfs & Hf). fold files in Hfs |- *.
  set (c := with_input_version _ _).
  destruct (overlapping_level0_ok files c f fs Hv L0 Hfs eq_refl Hf) as (c1 & Ec & E1 & E2 & E3 & E4 & E5 & E6). change (level_ c) with level in *.
  destruct (setup_compaction_ok vs cur holders files fs c1) as (vs1 & c' & vs' & -> & Es & Hok & _);
    [done|done|by rewrite E1|by rewrite E1|by rewrite E2|by rewrite E3|by rewrite E1|by intros En; rewrite En in E4; apply elem_of_nil in E4|done|by rewrite E1|].
  cbn [mbind option_bind]. rewrite Ec. cbn [mbind option_bind]. rewrite Es. cbn [mbind option_bind]. by eexists _, _.
Qed.
End Pick.

(** ** [IsBaseLevelForKey] *)

Definition in_file (u : bytes) (f : FileMetaData) : bool := (Compare u (ulimit f) <=? 0) && (0 <=? Compare u (ustart f)).

(** No file of the levels from [level + 2] on has the key in its range. *)
Definition base_scan (files : list (list FileMetaData)) (level : Z) (u : bytes) : bool :=
  forallb (fun fs => negb (existsb (in_file u) fs)) (drop (Z.to_nat (level + 2)) files).

(** The answers for a run of keys, the pointers carried along. *)
Fixpoint base_answers (files : list (list FileMetaData)) (c : Compaction) (us : list bytes) : list bool :=
  match us with
  | [] => []
  | u :: us => let '(b, c) := IsBaseLevelForKey files c u in b :: base_answers files c us
  end.

(** The files before the pointer end before the key. *)
Definition passed (u : bytes) (fs : list FileMetaData) (p : nat) : Prop :=
  (p <= length fs)%nat /\ forall f, f ∈ take p fs -> 0 < Compare u (ulimit f).

Lemma skip_files_ok u rest : forall pre, valid_key u -> level_sorted (pre ++ rest) -> (forall f, f ∈ pre -> 0 < Compare u (ulimit f)) ->
  passed u (pre ++ rest) (skip_files u rest (length pre)).1 /\ (skip_files u rest (length pre)).2 = existsb (in_file u) (pre ++ rest).
Proof.
  intros pre Hu. revert pre.
  assert (Hpre : forall pre, (forall f, f ∈ pre -> 0 < Compare u (ulimit f)) -> existsb (in_file u) pre = false).
  { intros pre Hp. destruct (existsb _ pre) eqn:E; [|done]. apply existsb_exists in E as (f & Hf & E). apply list_elem_of_In, Hp in Hf.
    unfold in_file in E. apply andb_true_iff in E as [E _]. lia. }
  induction rest as [|f rest IH]; intros pre Hs Hp; cbn [skip_files].
  - rewrite app_nil_r in *. cbn [fst snd]. unfold passed. rewrite firstn_all, Hpre by done. by split_and!.
  - change (ExtractUserKey (largest f)) with (ulimit f). change (ExtractUserKey (smallest f)) with (ustart f).
    destruct (Z.leb_spec (Compare u (ulimit f)) 0) as [Hle|Hgt].
    + cbn [fst snd]. split; [unfold passed; rewrite take_app_length, length_app; split; [lia|done]|].
      rewrite existsb_app, Hpre by done. cbn [orb existsb]. unfold in_file at 1. rewrite (proj2 (Z.leb_le _ _) Hle). cbn [andb].
      destruct (Z.leb_spec 0 (Compare u (ustart f))) as [|Hlt]; [done|]. cbn [orb]. symmetry. destruct (existsb _ rest) eqn:E; [|done].
      apply existsb_exists in E as (g & Hg & E). apply list_elem_of_In in Hg. apply andb_true_iff in E as [_ E%Z.leb_le].
      destruct Hs as [Hok Hs]. apply list_elem_of_lookup in Hg as [j Hj].
      assert (Hi : (pre ++ f :: rest) !! length pre = Some f) by (by rewrite list_lookup_middle).
      assert (Hj' : (pre ++ f :: rest) !! (length pre + S j)%nat = Some g) by (by rewrite lookup_app_r, Nat.add_comm, Nat.add_sub by lia).
      specialize (Hs (length pre) (length pre + S j)%nat f g ltac:(lia) Hi Hj'). rewrite Forall_lookup in Hok. pose proof (Hok _ _ Hi) as Hf. pose proof (Hok _ _ Hj') as Hg.
      destruct (file_user_ok f Hf) as (U1 & U2 & U3). destruct (file_user_ok g Hg) as (V1 & V2 & V3).
      assert (Hfg : Compare (ulimit f) (ustart g) <= 0) by (apply internal_le_user; lia).
      pose proof (cmp_trans _ _ _ U1 U2 V1 U3 Hfg) as T. pose proof (cmp_antisym u (ustart g) Hu V1). assert (Compare (ustart g) u <= 0) by lia.
      pose proof (cmp_trans _ _ _ U1 V1 Hu T ltac:(done)). pose proof (cmp_antisym u (ustart f) Hu U1). lia.
    + replace (pre ++ f :: rest) with ((pre ++ [f]) ++ rest) in * by (by rewrite <- app_assoc).
      replace (S (length pre)) with (length (pre ++ [f])) by (rewrite length_app; cbn; lia). apply IH; [done|].
      intros g [Hg| ->%list_elem_of_singleton]%elem_of_app; [by apply Hp|done].
Qed.

Lemma passed_mono u u' fs p : Forall file_ok fs -> valid_key u -> valid_key u' -> Compare u u' <= 0 -> passed u fs p -> passed u' fs p.
Proof.
  intros Hok Hu Hu' Hle [H1 H2]. split; [done|]. intros f Hf. pose proof (H2 f Hf) as Hlt. rewrite Forall_forall in Hok.
  assert (f ∈ fs) as Hin by (rewrite <- (take_drop p fs); apply elem_of_app; by left). destruct (file_user_ok f (Hok f Hin)) as (_ & V & _).
  destruct (Z.lt_ge_cases 0 (Compare u' (ulimit f))) as [|Hge]; [done|]. pose proof (cmp_trans _ _ _ Hu Hu' V Hle ltac:(lia)). lia.
Qed.

Lemma base_levels_ok u levels : forall ptrs, valid_key u -> Forall level_sorted levels -> Forall2 (passed u) levels ptrs ->
  Forall2 (passed u) levels (base_levels u levels ptrs).2 /\ (base_levels u levels ptrs).1 = forallb (fun fs => negb (existsb (in_file u) fs)) levels.
Proof.
  induction levels as [|fs levels IH]; intros ptrs Hu Hs Hp; [by inversion Hp|]. apply Forall_cons in Hs as [Hf Hs].
  inversion Hp as [|? p ? ptrs' [P1 P2] Hp']; subst. cbn [base_levels forallb].
  destruct (skip_files_ok u (drop p fs) (take p fs)) as [K1 K2]; [done|by rewrite take_drop|done|]. rewrite take_drop in K1, K2.
  rewrite length_take_le in K1, K2 by done. destruct (skip_files u (drop p fs) p) as [p' inside]. cbn [fst snd] in K1, K2. rewrite <- K2.
  destruct inside; cbn [negb andb fst snd]; [split; [by constructor|done]|].
  destruct (IH ptrs' Hu Hs Hp') as [I1 I2]. destruct (base_levels u levels ptrs') as [b ptrs2]. cbn [fst snd] in *. split; [by constructor|done].
Qed.

(** The pointers of a compaction that has been asked about [u] last. *)
Definition ptrs_ok (files : list (list FileMetaData)) (c : Compaction) (u : bytes) : Prop :=
  0 <= level_ c /\ Forall2 (passed u) (drop (Z.to_nat (level_ c + 2)) files) (drop (Z.to_nat (level_ c + 2)) (level_ptrs_ c)) /\
  (Z.to_nat (level_ c + 2) <= length (level_ptrs_ c))%nat.

Section Base.
Context (files : list (list FileMetaData)) (Hv : version_files_ok files).

Lemma deep_sorted level : 0 <= level -> Forall level_sorted (drop (Z.to_nat (level + 2)) files).
Proof. intros Hl. apply Forall_lookup. intros i fs. rewrite lookup_drop. apply (vf_sorted _ Hv). lia. Qed.

Lemma IsBaseLevelForKey_ok c u : valid_key u -> ptrs_ok files c u ->
  exists c', IsBaseLevelForKey files c u = (base_scan files (level_ c) u, c') /\ ptrs_ok files c' u /\ level_ c' = level_ c.
Proof.
  intros Hu (H0 & Hp & Hlen). destruct (base_levels_ok u _ _ Hu (deep_sorted _ H0) Hp) as [K1 K2]. unfold IsBaseLevelForKey.
  destruct (base_levels _ _ _) as [b ptrs]. cbn [fst snd] in K1, K2. subst b. eexists. split; [done|]. split; [|done].
  split; [done|]. cbn [level_ level_ptrs_]. rewrite drop_app_length' by (rewrite length_take; lia). split; [done|]. rewrite length_app, length_take. lia.
Qed.

Lemma ptrs_ok_mono c u u' : valid_key u -> valid_key u' -> Compare u u' <= 0 -> ptrs_ok files c u -> ptrs_ok files c u'.
Proof.
  intros Hu Hu' Hle (H0 & Hp & Hlen). split; [done|]. split; [|done]. pose proof (deep_sorted _ H0) as Hs. rewrite Forall_lookup in Hs.
  apply Forall2_same_length_lookup_2; [by eapply Forall2_length|]. intros i fs p Hi Hj. apply (passed_mono u); [by apply (Hs i fs Hi)|done..|].
  by apply (Forall2_lookup_lr _ _ _ i fs p Hp).
Qed.

Lemma base_answers_ok us : forall c u, valid_key u -> Forall valid_key us -> StronglySorted (fun a b => Compare a b <= 0) (u :: us) -> ptrs_ok files c u ->
  base_answers files c us = base_scan files (level_ c) <$> us.
Proof.
  induction us as [|u' us IH]; intros c u Hu Hus Hs Hp; [done|]. apply Forall_cons in Hus as [Hu' Hus].
  apply StronglySorted_cons in Hs as [Hle Hs]. apply Forall_cons in Hle as [Hle _]. cbn [base_answers fmap list_fmap].
  destruct (IsBaseLevelForKey_ok c u' Hu') as (c' & -> & Hp' & <-); [by apply (ptrs_ok_mono c u)|]. f_equal. by apply (IH c' u').
Qed.

Lemma new_ptrs_ok c u : 0 <= level_ c -> level_ c + 1 < kNumLevels -> level_ptrs_ c = replicate (Z.to_nat kNumLevels) 0%nat -> ptrs_ok files c u.
Proof.
  intros H0 H1 E. split; [done|]. rewrite E. split; [|rewrite length_replicate; lia]. apply Forall2_same_length_lookup_2.
  - rewrite !length_drop, (vf_levels _ Hv), length_replicate. done.
  - intros i fs p _ Hi. rewrite lookup_drop in Hi. apply lookup_replicate_1 in Hi as [-> _]. split; [lia|]. rewrite take_0. by intros f ?%elem_of_nil.
Qed.

(** Over the keys of a compaction in their order [IsBaseLevelForKey], whose
    pointers only move forward, answers each time as a scan of every file of the
    levels below the outputs does. *)
Theorem base_level_scan c us : 0 <= level_ c -> level_ c + 1 < kNumLevels -> level_ptrs_ c = replicate (Z.to_nat kNumLevels) 0%nat ->
  Forall valid_key us -> StronglySorted (fun a b => Compare a b <= 0) us -> base_answers files c us = base_scan files (level_ c) <$> us.
Proof.
  intros H0 H1 E Hus Hs. destruct us as [|u us]; [done|]. pose proof Hus as [Hu _]%Forall_cons.
  apply (base_answers_ok _ c u); [done|done| |by apply new_ptrs_ok]. apply StronglySorted_cons. split; [|done].
  apply StronglySorted_cons in Hs as [Hs _]. constructor; [|done]. pose proof (cmp_refl u Hu). lia.
Qed.
End Base.
End Inputs.

(** ** A file with too many seeks *)

Section Example_.
#[local] Existing Instance BytewiseComparator.
#[local] Instance crc_pick : Crc32c := crc32c_portable 0.

Definition pick_version : Version := MkVersion 2 example_base (Some 0) 1 minus_one (-1).

Lemma pick_sizes : sizes_ok (version_levels (st_files example_store) pick_version).
Proof. intros l fs Hl. destruct l as [|[|[|[|[|[|[|[|l]]]]]]]]; try (vm_compute in Hl; discriminate Hl); injection Hl as <-; by_decide. Qed.

Lemma pick_compaction_complete_witness :
  exists r vs', PickCompaction example_options (example_set_with pick_version []) = Some (r, vs') /\ (fun c => number <$> inputs0 c) <$> r = Some [5].
Proof.
  destruct (pick_compaction_complete example_options ltac:(by_decide) (example_set_with pick_version []) 0 [0] pick_version) as (r & vs' & E & H).
  - by apply example_set_with_ok.
  - reflexivity.
  - exact pick_sizes.
  - split; [discriminate|]. intros p [= <-]. split_and!; [done..|by left].
  - exists r, vs'. split; [exact E|]. vm_compute in E. injection E as <- <-. reflexivity.
Defined.

Definition deep_files : list (list FileMetaData) := [[]; []; [fm (st_files example_store) 0]; []; []; []; []; []].

Lemma deep_files_ok : version_files_ok deep_files.
Proof.
  assert (Hf : file_ok (fm (st_files example_store) 0)).
  { pose proof (levels_version_files _ pick_version built_levels_ok pick_sizes) as Hv. destruct (vf_files _ Hv 1 _ eq_refl) as [Hok _]. by inversion Hok. }
  assert (Hlev : forall l fs, deep_files !! l = Some fs -> Forall file_ok fs /\ (length fs <= 1)%nat).
  { intros l fs Hl. do 8 (destruct l as [|l]; [injection Hl as <-; split; [first [by constructor|by apply Forall_singleton]|cbn; lia]|]). done. }
  split; [done|..].
  - intros l fs Hl. destruct (Hlev l fs Hl) as [H1 H2]. split; [done|]. unfold zlen. lia.
  - intros l fs _ Hl. destruct (Hlev l fs Hl) as [H1 H2]. split; [done|]. intros i j f g Hij _ Hj%lookup_lt_Some. lia.
Qed.

(** The outputs of a compaction of level 0 go to level 1; the file of level 2
    holds the keys from 97 to 100. *)
Lemma base_level_scan_witness : base_answers deep_files (Compaction_new 2097152 0) [[96]; [98]; [101]] = [true; false; true].
Proof.
  rewrite (base_level_scan deep_files deep_files_ok (Compaction_new 2097152 0) [[96]; [98]; [101]]); [reflexivity|done|done|done|by_decide|].
  repeat first [apply SSorted_nil | apply SSorted_cons | apply Forall_nil | apply Forall_cons; split]; by_decide.
Defined.
End Example_.
