(* ===== verification/MultiQueue.v ===== *)
(** * MultiQueue: the queues that decide how many filters a region keeps

    src/LSM-EBF/util/multi_queue.cc.  A handle stands for a table (region id 0)
    or for one region of a table; the handles of regions that nobody uses are on
    the queue with the number of their filters.  A handle is an address of the
    memory, as in Cache.v; the circular lists are the lists of their members,
    oldest first.  The tables behind the handles are given by the interface
    [RegionTable]; the doubles are IEEE numbers, and [pow(0.6185, n)] of the C
    library is the parameter [pow6185].

    Every call runs under the mutex and is one step.  [None] is a failed
    assertion, a run the source leaves undefined, or one that does not end. *)
From stdpp Require Import gmap.
From Stdlib Require Import SpecFloat.
From S2P Require Import Prelude Coding Status Hash Bloom Cache.

(** What the queues need of a table: the filters of a region in memory, dropping
    and loading filters (with the charge returned), and the access mark. *)
Class RegionTable (T : Type) := MkRegionTable {
  rt_num : T -> Z -> option Z;
  rt_remove : T -> Z -> Z -> option (Z * T);
  rt_adjust : T -> Z -> Z -> option (Z * T);
  rt_access : T -> Z -> option T
}.

(** ** Data *)

(** The fields of [LRUQueueHandle] beside those of [LRUHandle]; [q_value] is the
    address of the table. *)
Record QueueData := MkQueueData {
  q_value : Z;
  fre_count : Z;
  expire_time : Z;
  queue_id : Z;
  type_ : bool;
  value_id : Z;
  value_refs : Z;
  table_handle : option nat;
  prev_region : option nat;
  next_region : option nat
}.

Abbreviation LRUQueueHandle := (LRU.LRUHandle QueueData).
Abbreviation charge := LRU.charge.
Abbreviation refs := LRU.refs.
Abbreviation in_cache := LRU.in_cache.
Abbreviation data := LRU.value.

(** What the constructor fixes.  [head_charge] is the [charge] of the head of a
    queue, which is never initialized. *)
Record Params := MkParams {
  capacity_ : Z;
  lrus_num_ : Z;
  life_time_ : Z;
  change_ratio : spec_float;
  fps : list spec_float;
  bits_per_key_per_filter_ : list Z;
  bits_per_key_per_filter_sum : list Z;
  head_charge : Z
}.

Record Queues := MkQueues {
  in_use_ : list nat;
  lrus_ : list (list nat);
  lru_lens_ : list Z;
  sum_freqs_ : list Z;
  sum_lru_len : Z
}.

Record Memory (T : Type) := MkMemory {
  heap : gmap nat LRUQueueHandle;
  next_addr : nat;
  deleted : list (bytes * Z);
  tables : gmap Z T
}.
Arguments MkMemory {T}.
Arguments heap {T}.
Arguments next_addr {T}.
Arguments deleted {T}.
Arguments tables {T}.

Record MultiQueue (T : Type) := MkMultiQueue {
  queues : Queues;
  mem : Memory T;
  table_ : LRU.HandleTable;
  usage_ : Z;
  current_time_ : Z;
  expection_ : spec_float;
  multi_queue_init : bool;
  need_adjust : bool;
  insert_count : Z;
  last_id_ : Z
}.
Arguments MkMultiQueue {T}.
Arguments queues {T}.
Arguments mem {T}.
Arguments table_ {T}.
Arguments usage_ {T}.
Arguments current_time_ {T}.
Arguments expection_ {T}.
Arguments multi_queue_init {T}.
Arguments need_adjust {T}.
Arguments insert_count {T}.
Arguments last_id_ {T}.

(** ** Setters *)

Definition with_data (h : LRUQueueHandle) (d : QueueData) : LRUQueueHandle :=
  LRU.MkLRUHandle d (charge h) (LRU.key h) (LRU.hash h) (in_cache h) (refs h).
Definition with_charge (h : LRUQueueHandle) (n : Z) : LRUQueueHandle :=
  LRU.MkLRUHandle (data h) n (LRU.key h) (LRU.hash h) (in_cache h) (refs h).
Definition set_queue (h : LRUQueueHandle) (q : Z) : LRUQueueHandle :=
  let d := data h in
  with_data h (MkQueueData (q_value d) (fre_count d) (expire_time d) q (type_ d) (value_id d) (value_refs d) (table_handle d) (prev_region d) (next_region d)).
Definition set_fre (h : LRUQueueHandle) (n : Z) : LRUQueueHandle :=
  let d := data h in
  with_data h (MkQueueData (q_value d) n (expire_time d) (queue_id d) (type_ d) (value_id d) (value_refs d) (table_handle d) (prev_region d) (next_region d)).
Definition set_expire (h : LRUQueueHandle) (n : Z) : LRUQueueHandle :=
  let d := data h in
  with_data h (MkQueueData (q_value d) (fre_count d) n (queue_id d) (type_ d) (value_id d) (value_refs d) (table_handle d) (prev_region d) (next_region d)).
Definition set_value_refs (h : LRUQueueHandle) (n : Z) : LRUQueueHandle :=
  let d := data h in
  with_data h (MkQueueData (q_value d) (fre_count d) (expire_time d) (queue_id d) (type_ d) (value_id d) n (table_handle d) (prev_region d) (next_region d)).
Definition set_next_region (h : LRUQueueHandle) (n : option nat) : LRUQueueHandle :=
  let d := data h in
  with_data h (MkQueueData (q_value d) (fre_count d) (expire_time d) (queue_id d) (type_ d) (value_id d) (value_refs d) (table_handle d) (prev_region d) n).

Section Setters.
Context {T : Type}.
Implicit Types mq : MultiQueue T.

Definition with_queues mq (q : Queues) : MultiQueue T :=
  MkMultiQueue q (mem mq) (table_ mq) (usage_ mq) (current_time_ mq) (expection_ mq) (multi_queue_init mq) (need_adjust mq) (insert_count mq) (last_id_ mq).
Definition with_mem mq (m : Memory T) : MultiQueue T :=
  MkMultiQueue (queues mq) m (table_ mq) (usage_ mq) (current_time_ mq) (expection_ mq) (multi_queue_init mq) (need_adjust mq) (insert_count mq) (last_id_ mq).
Definition with_usage mq (n : Z) : MultiQueue T :=
  MkMultiQueue (queues mq) (mem mq) (table_ mq) n (current_time_ mq) (expection_ mq) (multi_queue_init mq) (need_adjust mq) (insert_count mq) (last_id_ mq).
Definition with_exp mq (x : spec_float) : MultiQueue T :=
  MkMultiQueue (queues mq) (mem mq) (table_ mq) (usage_ mq) (current_time_ mq) x (multi_queue_init mq) (need_adjust mq) (insert_count mq) (last_id_ mq).
Definition with_table mq (t : LRU.HandleTable) : MultiQueue T :=
  MkMultiQueue (queues mq) (mem mq) t (usage_ mq) (current_time_ mq) (expection_ mq) (multi_queue_init mq) (need_adjust mq) (insert_count mq) (last_id_ mq).
Definition with_flags mq (init adjust : bool) (time count id : Z) : MultiQueue T :=
  MkMultiQueue (queues mq) (mem mq) (table_ mq) (usage_ mq) time (expection_ mq) init adjust count id.

Definition put mq (a : nat) (h : LRUQueueHandle) : MultiQueue T :=
  with_mem mq (MkMemory (<[a := h]> (heap (mem mq))) (next_addr (mem mq)) (deleted (mem mq)) (tables (mem mq))).
Definition put_table mq (p : Z) (t : T) : MultiQueue T :=
  with_mem mq (MkMemory (heap (mem mq)) (next_addr (mem mq)) (deleted (mem mq)) (<[p := t]> (tables (mem mq)))).
Definition handle mq (a : nat) : option LRUQueueHandle := heap (mem mq) !! a.

(** A field of a [std::vector<size_t>] changed by [d]. *)
Definition bump (l : list Z) (k : Z) (d : Z) : option (list Z) :=
  n ← (if k <? 0 then None else l !! Z.to_nat k);
  Some (<[Z.to_nat k := u64 (n + d)]> l).
Definition add_len mq (k d : Z) : option (MultiQueue T) :=
  let q := queues mq in
  lens ← bump (lru_lens_ q) k d; Some (with_queues mq (MkQueues (in_use_ q) (lrus_ q) lens (sum_freqs_ q) (sum_lru_len q))).
Definition add_freq mq (k d : Z) : option (MultiQueue T) :=
  let q := queues mq in
  fs ← bump (sum_freqs_ q) k d; Some (with_queues mq (MkQueues (in_use_ q) (lrus_ q) (lru_lens_ q) fs (sum_lru_len q))).
Definition add_sum mq (d : Z) : MultiQueue T :=
  let q := queues mq in
  with_queues mq (MkQueues (in_use_ q) (lrus_ q) (lru_lens_ q) (sum_freqs_ q) (u64 (sum_lru_len q + d))).
End Setters.

Definition fadd : spec_float -> spec_float -> spec_float := SFadd 53 1024.
Definition fsub : spec_float -> spec_float -> spec_float := SFsub 53 1024.
Definition fmul : spec_float -> spec_float -> spec_float := SFmul 53 1024.

Section Code.
Context {T : Type} {RT : RegionTable T} (P : Params).
Implicit Types mq : MultiQueue T.

(** ** Lists *)

(** A list: the one in use, or a queue. *)
Inductive list_id := InUse | Lru (k : Z).

Definition LRU_Remove mq (e : nat) : MultiQueue T :=
  let q := queues mq in
  let unlink := base.filter (fun a => a <> e) in
  with_queues mq (MkQueues (unlink (in_use_ q)) (unlink <$> lrus_ q) (lru_lens_ q) (sum_freqs_ q) (sum_lru_len q)).

Definition lru mq (k : Z) : option (list nat) := if k <? 0 then None else lrus_ (queues mq) !! Z.to_nat k.

(** The newest entry of the list; a queue gives the handle its number. *)
Definition LRU_Append mq (l : list_id) (e : nat) : option (MultiQueue T) :=
  h ← handle mq e;
  let q := queues mq in
  match l with
  | InUse => Some (with_queues mq (MkQueues (in_use_ q ++ [e]) (lrus_ q) (lru_lens_ q) (sum_freqs_ q) (sum_lru_len q)))
  | Lru k =>
      old ← lru mq k;
      Some (put (with_queues mq (MkQueues (in_use_ q) (<[Z.to_nat k := old ++ [e]]> (lrus_ q)) (lru_lens_ q) (sum_freqs_ q) (sum_lru_len q)))
              e (set_queue h k))
  end.

(** ** Regions *)

(** [e->value_id - 1], passed as an [int]. *)
Definition region (h : LRUQueueHandle) : Z := i32 (value_id (data h) - 1).

Definition curr_num mq (h : LRUQueueHandle) : option Z := t ← tables (mem mq) !! q_value (data h); rt_num t (region h).

Definition at_ {A} (l : list A) (i : Z) : option A := if i <? 0 then None else l !! Z.to_nat i.

Definition FalsePositive mq (h : LRUQueueHandle) : option spec_float := n ← curr_num mq h; at_ (fps P) n.

(** The table drops one filter of the region, or loads up to [n] of them. *)
Definition remove_filter mq (h : LRUQueueHandle) : option (Z * MultiQueue T) :=
  t ← tables (mem mq) !! q_value (data h);
  '(delta, t) ← rt_remove t 1 (region h);
  Some (delta, put_table mq (q_value (data h)) t).

Definition adjust_filters mq (h : LRUQueueHandle) (n : Z) : option (Z * MultiQueue T) :=
  t ← tables (mem mq) !! q_value (data h);
  '(delta, t) ← rt_adjust t n (region h);
  Some (delta, put_table mq (q_value (data h)) t).

Definition set_access mq (h : LRUQueueHandle) : option (MultiQueue T) :=
  t ← tables (mem mq) !! q_value (data h);
  t ← rt_access t (region h);
  Some (put_table mq (q_value (data h)) t).

Definition Num_Queue mq (k fre : Z) : option Z :=
  l ← lru mq k;
  match head l, last l with
  | Some a, Some b => ha ← handle mq a; hb ← handle mq b; Some (u64 (fre_count (data ha) + fre_count (data hb)) / 2)
  | _, _ => Some (fre ≫ 1)
  end.

(** [n * x] for a [uint64_t] and a [double]. *)
Definition weigh (n : Z) (x : spec_float) : spec_float := fmul (double_of_Z n) x.

(** ** [RecomputeExp] *)

(** [charge / bits_sum * bits]: the charge of one filter of the region. *)
Definition filter_charge (h : LRUQueueHandle) (k : Z) : option Z :=
  sum ← at_ (bits_per_key_per_filter_sum P) (queue_id (data h));
  bits ← at_ (bits_per_key_per_filter_ P) k;
  if sum =? 0 then None else Some (u64 (charge h / sum * bits)).

Definition need_bits mq (h : LRUQueueHandle) : option Z :=
  let over := i32 (usage_ mq - capacity_ P) in
  if queue_id (data h) =? 0 then
    l ← lru mq 1;
    c ← match l with [] => Some (head_charge P) | a :: _ => charge <$> handle mq a end;
    Some (i32 (over + c))
  else c ← filter_charge h (queue_id (data h) + 1); Some (i32 (over + c)).

(** What the expired handles at the head of queue [i] could give back, and the
    expectation if they did. *)
Fixpoint expired_gain mq (i need : Z) (olds : list nat) (remove_bits : Z) (change : spec_float) : option (Z * spec_float) :=
  match olds with
  | [] => Some (remove_bits, change)
  | a :: olds =>
      if remove_bits <? need then
        h ← handle mq a;
        if expire_time (data h) <? current_time_ mq then
          c ← filter_charge h i;
          f ← at_ (fps P) (i - 1);
          fp ← FalsePositive mq h;
          let n := fre_count (data h) in
          expired_gain mq i need olds (i32 (remove_bits + c)) (fadd change (fsub (weigh n f) (weigh n fp)))
        else Some (remove_bits, change)
      else Some (remove_bits, change)
  end.

(** The queue with the least expectation among those that give back enough. *)
Fixpoint choose_queue mq (need : Z) (new_exp : spec_float) (is_ : list Z) (best : spec_float * Z) : option (spec_float * Z) :=
  match is_ with
  | [] => Some best
  | i :: is_ =>
      l ← lru mq i;
      '(remove_bits, change) ← expired_gain mq i need l 0 new_exp;
      choose_queue mq need new_exp is_ (if (need <=? remove_bits) && SFltb change best.1 then (change, i) else best)
  end.

(** The head [old] of queue [k] goes to queue [k - 1]. *)
Definition demote mq (k : Z) (old : nat) : option (MultiQueue T) :=
  h ← handle mq old;
  mq ← add_len mq k (-1);
  mq ← add_freq mq k (- fre_count (data h));
  let mq := LRU_Remove mq old in
  mq ← add_len mq (k - 1) 1;
  mq ← add_freq mq (k - 1) (fre_count (data h));
  LRU_Append mq (Lru (k - 1)) old.

Fixpoint evict_expired (fuel : nat) mq (k need remove_bits : Z) : option (MultiQueue T) :=
  match fuel with
  | O => None
  | S fuel =>
      l ← lru mq k;
      match l with
      | [] => Some mq
      | old :: _ =>
          if remove_bits <? need then
            h ← handle mq old;
            c ← filter_charge h k;
            '(delta, mq) ← remove_filter mq h;
            mq ← demote (with_usage mq (u64 (usage_ mq - delta))) k old;
            evict_expired fuel mq k need (i32 (remove_bits + c))
          else Some mq
      end
  end.

(** [++e->queue_id] with the sums of the frequencies. *)
Definition promote mq (e : nat) : option (MultiQueue T) :=
  h ← handle mq e;
  let q := queue_id (data h) in
  mq ← add_freq mq q (- fre_count (data h));
  mq ← add_freq mq (q + 1) (fre_count (data h));
  Some (put mq e (set_queue h (u16 (q + 1)))).

Definition RecomputeExp mq (e : nat) : option (MultiQueue T) :=
  h ← handle mq e;
  let q := queue_id (data h) in
  if multi_queue_init mq || (q + 1 =? lrus_num_ P) then
    let mq := put mq e (set_fre h (u64 (fre_count (data h) + 1))) in
    mq ← add_freq mq q 1;
    fp ← FalsePositive mq h;
    Some (with_exp mq (fadd (expection_ mq) fp))
  else
    fp ← FalsePositive mq h;
    let now := fadd (expection_ mq) fp in
    let n := u64 (fre_count (data h) + 1) in
    let h := set_fre h n in
    let mq := put mq e h in
    f ← at_ (fps P) (q + 1);
    let new_exp := fadd (fsub (expection_ mq) (weigh (u64 (n - 1)) fp)) (weigh n f) in
    need ← need_bits mq h;
    if 0 <? need then
      '(min_exp, min_i) ← choose_queue mq need new_exp (seqZ 1 (lrus_num_ P - 1)) (now, -1);
      if negb (min_i =? -1) && SFltb (fmul now (change_ratio P)) (fsub now min_exp) then
        if SFltb min_exp now then
          l ← lru mq min_i;
          mq ← evict_expired (S (length l)) mq min_i need 0;
          mq ← promote mq e;
          Some (with_exp mq min_exp)
        else None
      else Some (with_exp mq now)
    else if SFltb (fmul now (change_ratio P)) (fsub now new_exp) then
      mq ← promote mq e; Some (with_exp mq new_exp)
    else Some (with_exp mq now).

(** ** Shrinking *)

(** One filter of the head [old] of queue [k] is dropped, and the handle moves
    to queue [k - 1] with the frequency of that queue. *)
Definition shrink_head mq (k : Z) (old : nat) : option (Z * MultiQueue T) :=
  h ← handle mq old;
  '(delta, mq) ← remove_filter mq h;
  let mq := with_usage mq (u64 (usage_ mq - delta)) in
  fk ← at_ (fps P) k;
  f ← at_ (fps P) (k - 1);
  let n := fre_count (data h) in
  n' ← Num_Queue mq (k - 1) n;
  let h := set_fre (with_charge h (u64 (charge h - delta))) n' in
  let mq := put (with_exp mq (fadd (fsub (expection_ mq) (weigh n fk)) (weigh n' f))) old h in
  mq ← demote mq k old;
  Some (delta, mq).

(** The inner loop: expired heads of queue [k]. *)
Fixpoint shrink_queue (fuel : nat) mq (k removed limit : Z) : option (Z * MultiQueue T) :=
  match fuel with
  | O => None
  | S fuel =>
      l ← lru mq k;
      match l with
      | [] => Some (removed, mq)
      | old :: _ =>
          if removed <? limit then
            h ← handle mq old;
            if (refs h =? 1) && (expire_time (data h) <? current_time_ mq) then
              '(delta, mq) ← shrink_head mq k old;
              shrink_queue fuel mq k (i64 (removed + delta)) limit
            else Some (removed, mq)
          else Some (removed, mq)
      end
  end.

(** The outer loop: the queues from [k] down to 1. *)
Fixpoint shrink_down (k : nat) mq (removed limit : Z) : option (Z * MultiQueue T) :=
  match k with
  | O => Some (removed, mq)
  | S k' =>
      if capacity_ P <? usage_ mq then
        l ← lru mq (Z.of_nat k);
        '(removed, mq) ← shrink_queue (S (length l)) mq (Z.of_nat k) removed limit;
        shrink_down k' mq removed limit
      else Some (removed, mq)
  end.

Definition longest_queue mq : option (Z * Z) :=
  foldl (fun best i =>
    '(len, j) ← best;
    n ← at_ (lru_lens_ (queues mq)) i;
    Some (if len <? n then (n, i) else (len, j))) (Some (0, -1)) (seqZ 1 (lrus_num_ P - 1)).

(** The forced loop: it spins when the queue is empty too early. *)
Fixpoint force_queue (fuel : nat) mq (k removed limit : Z) : option (MultiQueue T) :=
  match fuel with
  | O => None
  | S fuel =>
      if removed <? limit then
        l ← lru mq k;
        match l with
        | [] => None
        | old :: _ => '(delta, mq) ← shrink_head mq k old; force_queue fuel mq k (i64 (removed + delta)) limit
        end
      else Some mq
  end.

Definition ShrinkLRU mq (k limit : Z) (force : bool) : option (bool * MultiQueue T) :=
  if force then
    '(_, k) ← longest_queue mq;
    if k =? -1 then Some (true, mq)
    else l ← lru mq k; mq ← force_queue (S (length l)) mq k 0 limit; Some (true, mq)
  else
    '(removed, mq) ← shrink_down (Z.to_nat k) mq 0 limit;
    Some (limit <=? removed, mq).

Definition MayBeShrinkUsage mq : option (MultiQueue T) :=
  if capacity_ P <=? usage_ mq then
    let mq := with_flags mq false (need_adjust mq) (current_time_ mq) (insert_count mq) (last_id_ mq) in
    '(done_, mq) ← ShrinkLRU mq (lrus_num_ P - 1) (i64 (usage_ mq - capacity_ P)) false;
    if (done_ : bool) then Some mq
    else '(_, mq) ← ShrinkLRU mq 1 (i64 (usage_ mq - capacity_ P)) true; Some mq
  else Some mq.

(** ** References *)

Definition Ref mq (e : nat) (addFreCount : bool) : option (MultiQueue T) :=
  h ← handle mq e;
  mq ← (if (refs h =? 1) && in_cache h then
          let mq := LRU_Remove mq e in
          mq ← LRU_Append mq InUse e;
          mq ← add_len mq (queue_id (data h)) (-1);
          Some (add_sum mq (-1))
        else Some mq);
  let h := LRU.set_refs h (u32 (refs h + 1)) in
  let mq := put mq e h in
  mq ← (if addFreCount then
          mq ← set_access mq h;
          if current_time_ mq <? expire_time (data h) then RecomputeExp mq e else Some mq
        else Some mq);
  h ← handle mq e;
  Some (put mq e (set_expire h (u64 (current_time_ mq + life_time_ P)))).

(** The handle is freed; the handle of a table calls the deleter, which frees
    the table. *)
Definition deallocate mq (e : nat) (h : LRUQueueHandle) : option (MultiQueue T) :=
  f ← at_ (fps P) (queue_id (data h));
  let mq := with_exp mq (fsub (expection_ mq) (weigh (fre_count (data h)) f)) in
  let m := mem mq in
  if value_id (data h) =? 0
  then Some (with_mem mq (MkMemory (delete e (heap m)) (next_addr m) (deleted m ++ [(take 8 (LRU.key h), q_value (data h))]) (delete (q_value (data h)) (tables m))))
  else Some (with_mem mq (MkMemory (delete e (heap m)) (next_addr m) (deleted m) (tables m))).

(** A handle that goes back to its queue: its filters are loaded up to the
    number of the queue, or the queue is the one of the filters it has.  The
    flag says that the usage has grown. *)
Definition settle mq (e : nat) (h : LRUQueueHandle) : option (bool * MultiQueue T) :=
  if (0 <? value_id (data h)) && type_ (data h) then
    n ← curr_num mq h;
    if n <? queue_id (data h) then
      '(delta, mq) ← adjust_filters mq h (queue_id (data h));
      Some (true, with_usage (put mq e (with_charge h (u64 (charge h + delta)))) (u64 (usage_ mq + delta)))
    else if queue_id (data h) <? n then
      delta ← at_ (bits_per_key_per_filter_sum P) (u16 n);
      Some (true, with_usage (put mq e (with_charge (set_queue h (u16 n)) delta)) (u64 (usage_ mq + delta)))
    else Some (false, mq)
  else Some (false, mq).

(** The handle joins its queue. *)
Definition requeue mq (e : nat) : option (MultiQueue T) :=
  h ← handle mq e;
  mq ← LRU_Append (LRU_Remove mq e) (Lru (queue_id (data h))) e;
  mq ← add_len mq (queue_id (data h)) 1;
  Some (add_sum mq 1).

Definition Unref mq (e : nat) : option (MultiQueue T) :=
  h ← handle mq e;
  if 0 <? refs h then
    let h := LRU.set_refs h (refs h - 1) in
    let mq := put mq e h in
    if refs h =? 0 then if in_cache h then None else deallocate mq e h
    else if in_cache h && (refs h =? 1) then
      '(grown, mq) ← settle mq e h;
      mq ← (if (grown : bool) then MayBeShrinkUsage mq else Some mq);
      requeue mq e
    else Some mq
  else None.

Definition Lookup mq (k : bytes) (Get : bool) : option (option nat * MultiQueue T) :=
  e ← LRU.ht_Lookup (heap (mem mq)) (table_ mq) k (Hash k 0);
  match e with
  | Some a => mq ← Ref mq a Get; Some (Some a, mq)
  | None => Some (None, mq)
  end.

Definition Release mq (e : nat) : option (MultiQueue T) := Unref mq e.

Definition LookupFreCount mq (k : bytes) : option Z :=
  e ← LRU.ht_Lookup (heap (mem mq)) (table_ mq) k (Hash k 0);
  match e with
  | Some a => h ← handle mq a; Some (fre_count (data h))
  | None => Some 0
  end.

Definition SetFreCount mq (k : bytes) (freCount : Z) : option (MultiQueue T) :=
  e ← LRU.ht_Lookup (heap (mem mq)) (table_ mq) k (Hash k 0);
  match e with
  | Some a =>
      h ← handle mq a;
      fp ← FalsePositive mq h;
      let x := fsub (expection_ mq) (weigh (fre_count (data h)) fp) in
      Some (with_exp (put mq a (set_fre h freCount)) (fadd x (weigh freCount fp)))
  | None => Some mq
  end.

(** ** Insertion and removal *)

Definition FinishErase mq (e : option nat) : option (bool * MultiQueue T) :=
  match e with
  | None => Some (false, mq)
  | Some a =>
      h ← handle mq a;
      if in_cache h then
        let mq := LRU_Remove mq a in
        mq ← (if refs h =? 1 then
                mq ← add_len mq (queue_id (data h)) (-1);
                mq ← add_freq mq (queue_id (data h)) (- fre_count (data h));
                Some (add_sum mq (-1))
              else Some mq);
        let mq := put mq a (LRU.set_in_cache h false) in
        mq ← Unref (with_usage mq (u64 (usage_ mq - charge h))) a;
        Some (true, mq)
      else None
  end.

(** The new entry replaces one with the same key. *)
Definition enter mq (e : nat) : option (MultiQueue T) :=
  '(old, t) ← LRU.ht_Insert 131072 (heap (mem mq)) (table_ mq) e;
  '(_, mq) ← FinishErase (with_table mq t) old;
  Some mq.

(** The key of a region: the file number, then the id. *)
Definition region_key (k : bytes) (id : Z) : bytes := take 8 k ++ EncodeFixed32 id.

(** The handle before the new one of region [id], whose link is set. *)
Definition link_region mq (e : nat) (k : bytes) (id : Z) : option (option nat * MultiQueue T) :=
  if id =? 1 then Some (None, mq)
  else
    p ← LRU.ht_Lookup (heap (mem mq)) (table_ mq) (region_key k (id - 1)) (Hash (region_key k (id - 1)) 0);
    match p with
    | Some a => h ← handle mq a; Some (Some a, put mq a (set_next_region h (Some e)))
    | None => None
    end.

Definition insert_table mq (e : nat) (h : LRUQueueHandle) : option (MultiQueue T) :=
  let d := data h in
  let h := LRU.MkLRUHandle (MkQueueData (q_value d) (fre_count d) (expire_time d) 0 (type_ d) 0 0 (Some e) None None)
             (charge h) (LRU.key h) (LRU.hash h) true 2 in
  mq ← LRU_Append (put mq e h) InUse e;
  enter mq e.

Definition insert_region mq (e : nat) (h : LRUQueueHandle) : option (MultiQueue T) :=
  let d := data h in
  let k := LRU.key h in
  t ← LRU.ht_Lookup (heap (mem mq)) (table_ mq) (region_key k 0) (Hash (region_key k 0) 0);
  match t with
  | None => None
  | Some a =>
      ht ← handle mq a;
      let mq := put mq a (set_value_refs ht (u32 (value_refs (data ht) + 1))) in
      '(prev, mq) ← link_region mq e k (value_id d);
      let h := LRU.MkLRUHandle (MkQueueData (q_value d) (fre_count d) (expire_time d) (queue_id d) (type_ d) (value_id d) 0 (Some a) prev None)
                 (charge h) (LRU.key h) (LRU.hash h) true 1 in
      mq ← LRU_Append (put mq e h) (Lru (queue_id d)) e;
      mq ← add_len mq (queue_id d) 1;
      let mq := add_sum mq 1 in
      enter (with_usage mq (u64 (usage_ mq + charge h))) e
  end.

(** The handle is made and entered. *)
Definition insert_handle mq (k : bytes) (value : Z) (ch : Z) (type : bool) : option (nat * MultiQueue T) :=
  if zlen k <? 12 then None
  else
    let e := next_addr (mem mq) in
    let m := mem mq in
    let id := DecodeFixed32 (drop 8 k) in
    t ← tables m !! value;
    n ← rt_num t (i32 (id - 1));
    let h := LRU.MkLRUHandle (MkQueueData value 0 (u64 (current_time_ mq + life_time_ P)) (u16 n) type id 0 None None None) ch k (Hash k 0) false 1 in
    let mq := with_mem mq (MkMemory (<[e := h]> (heap m)) (S e) (deleted m) (tables m)) in
    let mq := with_flags mq (multi_queue_init mq) (need_adjust mq) (current_time_ mq) (i32 (insert_count mq + 1)) (last_id_ mq) in
    mq ← (if id =? 0 then insert_table mq e h
          else if 0 <? capacity_ P then insert_region mq e h
          else Some mq);
    Some (e, mq).

Definition Insert mq (k : bytes) (value : Z) (ch : Z) (type : bool) : option (nat * MultiQueue T) :=
  '(e, mq) ← insert_handle mq k value ch type;
  mq ← MayBeShrinkUsage mq;
  Some (e, mq).

Definition Erase mq (k : bytes) : option (MultiQueue T) :=
  '(old, t) ← LRU.ht_Remove (heap (mem mq)) (table_ mq) k (Hash k 0);
  '(_, mq) ← FinishErase (with_table mq t) old;
  Some mq.

(** ** Queries and switches *)

Definition AllocFilterNums mq (freq : Z) : option Z :=
  match
    foldl (fun acc i =>
      match acc with
      | Some (inr last_) =>
          l ← lru mq i;
          match l with
          | [] => Some (inr last_)
          | _ =>
              s ← at_ (sum_freqs_ (queues mq)) i;
              n ← at_ (lru_lens_ (queues mq)) i;
              if n =? 0 then None else if u64 freq <? s / n then Some (inl i) else Some (inr i)
          end
      | r => r
      end) (Some (inr 1)) (seqZ 1 (lrus_num_ P - 1))
  with
  | Some (inl i) | Some (inr i) => Some i
  | None => None
  end.

(** The first queue that is not empty; without one no value is returned. *)
Definition GetLRUFreCount mq : option Z :=
  a ← head (mjoin (tail (lrus_ (queues mq))));
  h ← handle mq a; Some (fre_count (data h)).

Definition IsCacheFull mq : bool := capacity_ P <=? usage_ mq.
Definition TotalCharge mq : Z := usage_ mq.
Definition Value mq (e : nat) : option Z := h ← handle mq e; Some (q_value (data h)).

Definition addCurrentTime mq : MultiQueue T :=
  with_flags mq (multi_queue_init mq) (need_adjust mq) (u64 (current_time_ mq + 1)) (insert_count mq) (last_id_ mq).
Definition set_adjustment mq (on : bool) : MultiQueue T :=
  with_flags mq (multi_queue_init mq) on (current_time_ mq) (insert_count mq) (last_id_ mq).
Definition NewId mq : Z * MultiQueue T :=
  let id := u64 (last_id_ mq + 1) in
  (id, with_flags mq (multi_queue_init mq) (need_adjust mq) (current_time_ mq) (insert_count mq) id).

(** ** Construction and destruction *)

(** [garbage] is what [last_id_], which no constructor sets, holds. *)
Definition MultiQueue_new (init : bool) (garbage : Z) : option (MultiQueue T) :=
  let n := Z.to_nat (lrus_num_ P) in
  t ← LRU.HandleTable_new 131072 (∅ : gmap nat LRUQueueHandle);
  Some (MkMultiQueue (MkQueues [] (replicate n []) (replicate n 0) (replicate n 0) 0) (MkMemory ∅ 0 [] ∅) t 0 0 (S754_zero false) init true 0 garbage).

Fixpoint destroy_list mq (es : list nat) : option (MultiQueue T) :=
  match es with
  | [] => Some mq
  | e :: es =>
      h ← handle mq e;
      if in_cache h && (refs h =? 1) then
        mq ← Unref (put mq e (LRU.set_in_cache h false)) e;
        destroy_list mq es
      else None
  end.

Definition MultiQueue_delete mq : option (MultiQueue T) :=
  match in_use_ (queues mq) with
  | [] => foldl (fun r l => mq ← r; destroy_list mq l) (Some mq) (lrus_ (queues mq))
  | _ => None
  end.
End Code.

(** [sum_bits] after each filter. *)
Fixpoint running_sums (sum_bits : Z) (bits : list Z) : list Z :=
  match bits with
  | [] => []
  | b :: bits => i32 (sum_bits + b) :: running_sums (i32 (sum_bits + b)) bits
  end.

(** The parameters a constructor computes: one false-positive rate and one sum
    of bits for each number of filters. *)
Definition MultiQueue_params (pow6185 : Z -> spec_float) (filter_bits : list Z) (capacity lrus_num life_time : Z) (change_ratio : spec_float) (head_charge : Z)
    : option Params :=
  let bits := take (Z.to_nat (lrus_num - 1)) filter_bits in
  if (length bits =? Z.to_nat (lrus_num - 1))%nat then
    let sums := running_sums 0 bits in
    Some (MkParams capacity lrus_num life_time change_ratio (SFone 53 1024 :: (pow6185 <$> sums)) (0 :: bits) (0 :: (u64 <$> sums)) head_charge)
  else None.
