(* ===== verification/QueueLists.v ===== *)
(** * QueueLists: the lists of the multi queue

    Where a handle is: on the list of its queue if only the cache holds it, on
    [in_use_] if others do, on no list once it has left the cache.  The lists of
    MultiQueue.v hold each handle in its place exactly once, and [lru_lens_] are
    their lengths; this file shows it of the moves between the lists. *)
From stdpp Require Import gmap.
From S2P Require Import Prelude Coding Status Hash Cache MultiQueue.

#[export] Instance list_id_eq : EqDecision list_id.
Proof. solve_decision. Defined.

Definition list_of (q : Queues) (l : list_id) : list nat :=
  match l with InUse => in_use_ q | Lru k => default [] (at_ (lrus_ q) k) end.

Definition place (h : LRUQueueHandle) : option list_id :=
  if in_cache h then Some (if refs h =? 1 then Lru (queue_id (data h)) else InUse) else None.

(** The place of the handle [x] is [in_use_] while it is being released. *)
Definition placed (x : option nat) (m : gmap nat LRUQueueHandle) (a : nat) : option list_id :=
  if decide (x = Some a) then Some InUse else m !! a ≫= place.

(** [n] queues, [pl] the places of the handles. *)
Record lists_ok (n : Z) (q : Queues) (pl : nat -> option list_id) : Prop := {
  ls_place : forall l a, a ∈ list_of q l <-> pl a = Some l;
  ls_nodup : forall l, NoDup (list_of q l);
  ls_num : zlen (lrus_ q) = n;
  ls_lens : forall k, at_ (lru_lens_ q) k = zlen <$> at_ (lrus_ q) k;
  ls_freqs : zlen (sum_freqs_ q) = n
}.

Lemma at_lookup {A} (l : list A) k : 0 <= k -> at_ l k = l !! Z.to_nat k.
Proof. intros Hk. unfold at_. by rewrite (proj2 (Z.ltb_ge _ _) Hk). Qed.

Lemma at_Some {A} (l : list A) k : 0 <= k < zlen l -> exists x, at_ l k = Some x.
Proof. intros Hk. rewrite at_lookup by lia. apply lookup_lt_is_Some_2. unfold zlen in Hk. lia. Qed.

Lemma at_range {A} (l : list A) k x : at_ l k = Some x -> 0 <= k < zlen l.
Proof. unfold at_, zlen. destruct (Z.ltb_spec k 0); [done|]. intros ?%lookup_lt_Some. lia. Qed.

Lemma at_fmap {A B} (f : A -> B) (l : list A) k : at_ (f <$> l) k = f <$> at_ l k.
Proof. unfold at_. destruct (k <? 0); [done|]. apply list_lookup_fmap. Qed.

Lemma at_insert {A} (l : list A) k j (x : A) : 0 <= k < zlen l -> at_ (<[Z.to_nat k := x]> l) j = if decide (j = k) then Some x else at_ l j.
Proof.
  intros Hk. unfold at_, zlen in *. destruct (Z.ltb_spec j 0) as [Hj|Hj]; [by rewrite decide_False by lia|]. destruct (decide (j = k)) as [->|Hne].
  - apply list_lookup_insert_eq. lia.
  - apply list_lookup_insert_ne. lia.
Qed.

Lemma zlen_insert {A} (l : list A) i (x : A) : zlen (<[i := x]> l) = zlen l.
Proof. unfold zlen. by rewrite length_insert. Qed.

Lemma bump_field_ok l k d n : at_ l k = Some n -> exists l', bump l k d = Some l' /\ zlen l' = zlen l /\ forall j, at_ l' j = if decide (j = k) then Some (u64 (n + d)) else at_ l j.
Proof.
  intros Hn. pose proof (at_range _ _ _ Hn) as Hr. unfold bump. unfold at_ in Hn. rewrite Hn. cbn [mbind option_bind]. eexists. split; [done|].
  split; [apply zlen_insert|]. intros j. by apply at_insert.
Qed.

(** ** Moves *)

Definition unlink (e : nat) (l : list nat) : list nat := base.filter (fun a => a <> e) l.

Lemma unlink_in e l a : a ∈ unlink e l <-> a ∈ l /\ a <> e.
Proof. unfold unlink. rewrite list_elem_of_filter. tauto. Qed.

Lemma unlink_notin e l : e ∉ l -> unlink e l = l.
Proof. intros Hn. apply filter_keep. intros a Ha ->. done. Qed.

Lemma unlink_length e l : NoDup l -> e ∈ l -> zlen (unlink e l) = zlen l - 1.
Proof.
  intros Hnd. induction Hnd as [|a l Ha Hnd IH]; [by intros ?%elem_of_nil|]. unfold unlink in *. intros [->|He]%elem_of_cons.
  - rewrite filter_cons_False by naive_solver. fold (unlink a l). rewrite unlink_notin by done. rewrite zlen_cons. lia.
  - rewrite filter_cons_True by (intros ->; done). rewrite !zlen_cons, IH by done. lia.
Qed.

Lemma unlink_nodup e l : NoDup l -> NoDup (unlink e l).
Proof. apply NoDup_filter. Qed.

(** [q'] is [q] with [e] moved to the end of the list [l], if any. *)
Record moved (q q' : Queues) (e : nat) (l : option list_id) : Prop := {
  mv_lists : forall l', list_of q' l' = unlink e (list_of q l') ++ (if decide (Some l' = l) then [e] else []);
  mv_num : zlen (lrus_ q') = zlen (lrus_ q);
  mv_freqs : zlen (sum_freqs_ q') = zlen (sum_freqs_ q)
}.

Lemma lens_at n q pl k : lists_ok n q pl -> 0 <= k < n -> at_ (lru_lens_ q) k = Some (zlen (list_of q (Lru k))).
Proof.
  intros [_ _ Hn Hl _] Hk. rewrite Hl. destruct (at_Some (lrus_ q) k) as [l El]; [lia|]. cbn. by rewrite El.
Qed.

Lemma moved_ok n q q' pl pl' e l : lists_ok n q pl -> moved q q' e l -> (forall a, a <> e -> pl' a = pl a) -> pl' e = l ->
  (forall k, 0 <= k < n -> at_ (lru_lens_ q') k = Some (zlen (list_of q' (Lru k)))) -> zlen (lru_lens_ q') = n -> lists_ok n q' pl'.
Proof.
  intros [H1 H2 H3 H4 H5] [M1 M2 M3] Hpl He Hlen Hn. split.
  - intros l' a. rewrite M1, elem_of_app, unlink_in, H1. destruct (decide (a = e)) as [->|Hne].
    + rewrite He. destruct (decide (Some l' = l)) as [<-|Hl]; [|split; [intros [[? ?]|?%elem_of_nil]; done|by intros ->]]. split; [done|]. intros _. right. by left.
    + rewrite Hpl by done. split; [intros [[? ?]|Hin]; [done|]|intros ?; by left]. destruct (decide _); [|by apply elem_of_nil in Hin].
      by apply list_elem_of_singleton in Hin.
  - intros l'. rewrite M1. apply NoDup_app. split_and!; [by apply unlink_nodup| |destruct (decide _); [apply NoDup_singleton|apply NoDup_nil_2]].
    intros a [_ Ha]%unlink_in Hin. destruct (decide _); [|by apply elem_of_nil in Hin]. by apply list_elem_of_singleton in Hin.
  - lia.
  - intros k. destruct (decide (0 <= k < n)) as [Hk|Hk].
    + rewrite Hlen by done. destruct (at_Some (lrus_ q') k) as [x Ex]; [lia|]. cbn. by rewrite Ex.
    + destruct (at_ (lru_lens_ q') k) eqn:E1; [apply at_range in E1; lia|]. destruct (at_ (lrus_ q') k) eqn:E2; [apply at_range in E2; lia|done].
  - lia.
Qed.

(** The length of a list after the move. *)
Lemma moved_length n q q' pl e l k : lists_ok n q pl -> moved q q' e l ->
  zlen (list_of q' (Lru k)) = zlen (list_of q (Lru k)) - (if decide (pl e = Some (Lru k)) then 1 else 0) + (if decide (l = Some (Lru k)) then 1 else 0).
Proof.
  intros Hok [M1 _ _]. rewrite M1, zlen_app.
  assert (E1 : zlen (unlink e (list_of q (Lru k))) = zlen (list_of q (Lru k)) - (if decide (pl e = Some (Lru k)) then 1 else 0)).
  { destruct (decide _) as [Hp|Hp].
    - apply unlink_length; [apply Hok|]. by apply (ls_place _ _ _ Hok).
    - rewrite unlink_notin; [lia|]. by rewrite (ls_place _ _ _ Hok). }
  rewrite E1. f_equal. destruct (decide (Some (Lru k) = l)), (decide (l = Some (Lru k))); try congruence; done.
Qed.

Lemma zlen_lens n q pl : lists_ok n q pl -> 0 <= n -> zlen (lru_lens_ q) = n.
Proof.
  intros [_ _ Hn Hl _] H0. destruct (Z.lt_trichotomy (zlen (lru_lens_ q)) n) as [H|[H|H]]; [|done|].
  - pose proof (zlen_nonneg (lru_lens_ q)). destruct (at_Some (lrus_ q) (zlen (lru_lens_ q))) as [x Ex]; [lia|].
    specialize (Hl (zlen (lru_lens_ q))). rewrite Ex in Hl. apply at_range in Hl. lia.
  - destruct (at_Some (lru_lens_ q) n) as [x Ex]; [lia|]. specialize (Hl n). rewrite Ex in Hl. symmetry in Hl. apply fmap_Some in Hl as (y & Ey & _).
    apply at_range in Ey. lia.
Qed.

Lemma bounded_length (l : list nat) N : NoDup l -> (forall a, a ∈ l -> (a < N)%nat) -> zlen l <= Z.of_nat N.
Proof.
  intros Hnd Hb. unfold zlen. apply Nat2Z.inj_le. rewrite <- (length_seq N 0). apply submseteq_length, NoDup_submseteq; [done|].
  intros a Ha. apply elem_of_seq. specialize (Hb a Ha). lia.
Qed.

Lemma u64_count n d : 0 <= n < 2 ^ 32 -> -1 <= d <= 1 -> 0 <= n + d -> u64 (n + d) = n + d.
Proof. intros H1 H2 H3. apply u64_small. lia. Qed.

(** ** The moves of the code *)

Section Moves.
Context {T : Type} (n : Z) (mq : MultiQueue T) (pl : nat -> option list_id).
Context (Hok : lists_ok n (queues mq) pl) (Hsmall : forall k, zlen (list_of (queues mq) (Lru k)) < 2 ^ 32).

Lemma lens_remove e k : pl e = Some (Lru k) -> 0 <= k < n /\ 1 <= zlen (list_of (queues mq) (Lru k)).
Proof.
  intros Hp. apply (ls_place _ _ _ Hok) in Hp. cbn [list_of] in *. destruct (at_ (lrus_ (queues mq)) k) as [l|] eqn:E; [|by apply elem_of_nil in Hp].
  apply at_range in E. rewrite (ls_num _ _ _ Hok) in E. split; [done|]. cbn in *. destruct l; [by apply elem_of_nil in Hp|]. rewrite zlen_cons. pose proof (zlen_nonneg l). lia.
Qed.

(** Out of its queue to [in_use_]. *)
Lemma to_use e k h : pl e = Some (Lru k) -> handle mq e = Some h ->
  exists q', (mq ← LRU_Append (LRU_Remove mq e) InUse e; mq ← add_len mq k (-1); Some (add_sum mq (-1))) = Some (with_queues mq q') /\
    forall pl', (forall a, a <> e -> pl' a = pl a) -> pl' e = Some InUse -> lists_ok n q' pl'.
Proof.
  intros Hp Hh. destruct (lens_remove e k Hp) as [Hk Hpos]. unfold LRU_Append, handle in *. cbn [LRU_Remove with_queues mem queues]. rewrite Hh. cbn [mbind option_bind].
  unfold add_len. cbn [with_queues queues lru_lens_]. destruct (bump_field_ok (lru_lens_ (queues mq)) k (-1) _ (lens_at _ _ _ k Hok Hk)) as (lens & -> & Hz & Hl).
  cbn [mbind option_bind]. eexists. split; [done|]. intros pl' Hpl He. set (q' := MkQueues _ _ _ _ _).
  assert (Hm : moved (queues mq) q' e (Some InUse)).
  { split; [|cbn; unfold zlen; by rewrite length_fmap|done]. intros [|j]; cbn -[at_]; [by rewrite decide_True|]. rewrite decide_False, app_nil_r by done.
    rewrite at_fmap. by destruct (at_ (lrus_ (queues mq)) j). }
  apply (moved_ok n (queues mq) q' pl pl' e (Some InUse)); [done|done|done|done| |].
  - intros j Hj. rewrite (moved_length n _ q' pl e (Some InUse) j Hok Hm), Hp. cbn [lru_lens_ q']. rewrite Hl, (decide_False (P := Some InUse = _)) by done.
    rewrite (lens_at n _ pl j Hok Hj). destruct (decide (j = k)) as [->|Hne].
    + rewrite decide_True by done. f_equal. rewrite u64_count; [lia|split; [lia|apply Hsmall]|lia|lia].
    + rewrite decide_False by congruence. f_equal. lia.
  - change (zlen lens = n). rewrite Hz. apply (zlen_lens n _ pl Hok). lia.
Qed.

(** From [in_use_], or from no list, to its queue. *)
Lemma to_queue e k h : pl e = Some InUse \/ pl e = None -> handle mq e = Some h -> 0 <= k < n ->
  exists q', (mq ← LRU_Append (LRU_Remove mq e) (Lru k) e; mq ← add_len mq k 1; Some (add_sum mq 1)) = Some (put (with_queues mq q') e (set_queue h k)) /\
    forall pl', (forall a, a <> e -> pl' a = pl a) -> pl' e = Some (Lru k) -> lists_ok n q' pl'.
Proof.
  intros Hp Hh Hk. unfold LRU_Append, lru, handle in *. cbn [LRU_Remove with_queues mem queues lrus_]. rewrite Hh. cbn [mbind option_bind].
  rewrite (proj2 (Z.ltb_ge _ _)) by lia. destruct (at_Some (lrus_ (queues mq)) k) as [l El]; [by rewrite (ls_num _ _ _ Hok)|]. pose proof El as El'. rewrite at_lookup in El' by lia.
  rewrite list_lookup_fmap, El'. cbn [fmap option_fmap option_map mbind option_bind]. unfold add_len. cbn [put with_mem with_queues queues lru_lens_].
  destruct (bump_field_ok (lru_lens_ (queues mq)) k 1 _ (lens_at _ _ _ k Hok Hk)) as (lens & -> & Hz & Hl). cbn [mbind option_bind]. eexists. split; [done|].
  intros pl' Hpl He. set (q' := MkQueues _ _ _ _ _).
  assert (Hm : moved (queues mq) q' e (Some (Lru k))).
  { split; [|cbn; rewrite zlen_insert; unfold zlen; by rewrite length_fmap|done]. intros [|j]; cbn -[at_]; [by rewrite decide_False, app_nil_r|].
    rewrite at_insert by (unfold zlen; rewrite length_fmap; fold (zlen (lrus_ (queues mq))); rewrite (ls_num _ _ _ Hok); lia).
    destruct (decide (j = k)) as [->|Hne]; [rewrite El, (decide_True (P := Some _ = _)) by done; done|].
    rewrite decide_False, app_nil_r, at_fmap by congruence. by destruct (at_ (lrus_ (queues mq)) j). }
  apply (moved_ok n (queues mq) q' pl pl' e (Some (Lru k))); [done|done|done|done| |].
  - intros j Hj. rewrite (moved_length n _ q' pl e (Some (Lru k)) j Hok Hm). rewrite (decide_False (P := pl e = _)) by (destruct Hp; congruence).
    cbn [lru_lens_ q']. rewrite Hl, (lens_at n _ pl j Hok Hj). destruct (decide (j = k)) as [->|Hne].
    + rewrite decide_True by done. f_equal. pose proof (zlen_nonneg (list_of (queues mq) (Lru k))). rewrite u64_count; [lia|split; [lia|apply Hsmall]|lia|lia].
    + rewrite decide_False by congruence. f_equal. lia.
  - change (zlen lens = n). rewrite Hz. apply (zlen_lens n _ pl Hok). lia.
Qed.

(** From a queue to the one below. *)
Lemma demote_ok k old h : pl old = Some (Lru k) -> 1 <= k -> handle mq old = Some h ->
  exists q', demote mq k old = Some (put (with_queues mq q') old (set_queue h (k - 1))) /\ moved (queues mq) q' old (Some (Lru (k - 1))) /\
    forall pl', (forall a, a <> old -> pl' a = pl a) -> pl' old = Some (Lru (k - 1)) -> lists_ok n q' pl'.
Proof.
  intros Hp H1 Hh. destruct (lens_remove old k Hp) as [Hk Hpos]. unfold demote, add_len, add_freq. rewrite Hh. cbn [mbind option_bind]. cbv zeta.
  destruct (bump_field_ok (lru_lens_ (queues mq)) k (-1) _ (lens_at _ _ _ k Hok Hk)) as (lens & -> & Hz & Hl). cbn [mbind option_bind].
  cbn [with_queues queues sum_freqs_]. destruct (at_Some (sum_freqs_ (queues mq)) k) as [s Hs]; [by rewrite (ls_freqs _ _ _ Hok)|].
  destruct (bump_field_ok _ _ (- fre_count (data h)) _ Hs) as (fs & -> & Hfz & _). cbn [mbind option_bind].
  cbn [LRU_Remove with_queues queues lru_lens_].
  assert (E1 : at_ lens (k - 1) = Some (zlen (list_of (queues mq) (Lru (k - 1))))) by (rewrite Hl, decide_False by lia; apply (lens_at n _ pl); [done|lia]).
  destruct (bump_field_ok _ _ 1 _ E1) as (lens' & -> & Hz' & Hl'). cbn [mbind option_bind].
  cbn [with_queues queues sum_freqs_]. destruct (at_Some fs (k - 1)) as [s' Hs']; [rewrite Hfz, (ls_freqs _ _ _ Hok); lia|].
  destruct (bump_field_ok _ _ (fre_count (data h)) _ Hs') as (fs' & -> & Hfz' & _). cbn [mbind option_bind].
  unfold LRU_Append, lru, handle in *. cbn [LRU_Remove with_queues queues mem lrus_]. rewrite Hh. cbn [mbind option_bind]. rewrite (proj2 (Z.ltb_ge _ _)) by lia.
  destruct (at_Some (lrus_ (queues mq)) (k - 1)) as [l El]; [rewrite (ls_num _ _ _ Hok); lia|]. pose proof El as El'. rewrite at_lookup in El' by lia.
  rewrite list_lookup_fmap, El'. cbn [fmap option_fmap option_map mbind option_bind]. eexists. split; [done|].
  set (q' := MkQueues _ _ _ _ _).
  assert (Hm : moved (queues mq) q' old (Some (Lru (k - 1)))).
  { split; [|cbn; rewrite zlen_insert; unfold zlen; by rewrite length_fmap|cbn; lia]. intros [|j]; cbn -[at_]; [by rewrite decide_False, app_nil_r|].
    rewrite at_insert by (unfold zlen; rewrite length_fmap; fold (zlen (lrus_ (queues mq))); rewrite (ls_num _ _ _ Hok); lia).
    destruct (decide (j = k - 1)) as [->|Hne]; [rewrite El, (decide_True (P := Some _ = _)) by done; done|].
    rewrite decide_False, app_nil_r, at_fmap by congruence. by destruct (at_ (lrus_ (queues mq)) j). }
  split; [done|]. intros pl' Hpl He. apply (moved_ok n (queues mq) q' pl pl' old (Some (Lru (k - 1)))); [done|done|done|done| |].
  - intros j Hj. rewrite (moved_length n _ q' pl old (Some (Lru (k - 1))) j Hok Hm), Hp. cbn [lru_lens_ q']. rewrite Hl', Hl.
    pose proof (zlen_nonneg (list_of (queues mq) (Lru (k - 1)))). destruct (decide (j = k - 1)) as [->|Hne].
    + rewrite (decide_False (P := Some (Lru k) = _)), (decide_True (P := Some (Lru (k - 1)) = _)) by (try done; intros [= ?]; lia).
      f_equal. rewrite u64_count; [lia|split; [lia|apply Hsmall]|lia|lia].
    + rewrite (decide_False (P := Some (Lru (k - 1)) = _)) by congruence. destruct (decide (j = k)) as [->|Hne'].
      * rewrite decide_True by done. f_equal. rewrite u64_count; [lia|split; [lia|apply Hsmall]|lia|lia].
      * rewrite decide_False by congruence. rewrite (lens_at n _ pl j Hok Hj). f_equal. lia.
  - change (zlen lens' = n). rewrite Hz', Hz. apply (zlen_lens n _ pl Hok). lia.
Qed.

(** Off its list, for good. *)
Lemma take_off e l h : pl e = Some l -> handle mq e = Some h -> place h = Some l ->
  exists q', (let mq := LRU_Remove mq e in
     if refs h =? 1 then mq ← add_len mq (queue_id (data h)) (-1); mq ← add_freq mq (queue_id (data h)) (- fre_count (data h)); Some (add_sum mq (-1)) else Some mq)
     = Some (with_queues mq q') /\
    forall pl', (forall a, a <> e -> pl' a = pl a) -> pl' e = None -> lists_ok n q' pl'.
Proof.
  intros Hp Hh Hpl. unfold place in Hpl. destruct (in_cache h); [|done]. destruct (refs h =? 1); injection Hpl as <-.
  - destruct (lens_remove e _ Hp) as [Hk Hpos]. unfold add_len, add_freq. cbn [LRU_Remove with_queues queues lru_lens_ sum_freqs_].
    destruct (bump_field_ok (lru_lens_ (queues mq)) _ (-1) _ (lens_at _ _ _ _ Hok Hk)) as (lens & -> & Hz & Hl). cbn [mbind option_bind with_queues queues sum_freqs_].
    destruct (at_Some (sum_freqs_ (queues mq)) (queue_id (data h))) as [s Hs]; [by rewrite (ls_freqs _ _ _ Hok)|].
    destruct (bump_field_ok _ _ (- fre_count (data h)) _ Hs) as (fs & -> & Hfz & _). cbn [mbind option_bind]. eexists. split; [done|]. set (q' := MkQueues _ _ _ _ _).
    assert (Hm : moved (queues mq) q' e None).
    { split; [|cbn; unfold zlen; by rewrite length_fmap|cbn; lia]. intros [|j]; cbn -[at_]; rewrite ?app_nil_r; [done|]. rewrite at_fmap. by destruct (at_ (lrus_ (queues mq)) j). }
    intros pl' Hpl' He. apply (moved_ok n (queues mq) q' pl pl' e None); [done|done|done|done| |].
    + intros j Hj. rewrite (moved_length n _ q' pl e None j Hok Hm), Hp. change (lru_lens_ q') with lens. rewrite Hl, (decide_False (P := None = _)) by done.
      rewrite (lens_at n _ pl j Hok Hj). destruct (decide (j = queue_id (data h))) as [->|Hne].
      * rewrite decide_True by done. f_equal. rewrite u64_count; [lia|split; [lia|apply Hsmall]|lia|lia].
      * rewrite decide_False by congruence. f_equal. lia.
    + change (zlen lens = n). rewrite Hz. apply (zlen_lens n _ pl Hok). lia.
  - eexists. split; [done|]. set (q' := MkQueues _ _ _ _ _).
    assert (Hm : moved (queues mq) q' e None).
    { split; [|cbn; unfold zlen; by rewrite length_fmap|done]. intros [|j]; cbn -[at_]; rewrite ?app_nil_r; [done|]. rewrite at_fmap. by destruct (at_ (lrus_ (queues mq)) j). }
    intros pl' Hpl' He. pose proof (zlen_nonneg (lrus_ (queues mq))) as Hn0. rewrite (ls_num _ _ _ Hok) in Hn0.
    apply (moved_ok n (queues mq) q' pl pl' e None); [done|done|done|done| |by apply (zlen_lens n _ pl Hok)].
    intros j Hj. rewrite (moved_length n _ q' pl e None j Hok Hm), Hp. rewrite !decide_False by done. change (lru_lens_ q') with (lru_lens_ (queues mq)).
    rewrite (lens_at n _ pl j Hok Hj). f_equal. lia.
Qed.

(** A handle on no list. *)
Lemma unlisted e : pl e = None -> LRU_Remove mq e = mq.
Proof.
  clear Hsmall. intros Hp. assert (Hno : forall l, e ∉ list_of (queues mq) l) by (intros l Hin; apply (ls_place _ _ _ Hok) in Hin; congruence).
  unfold LRU_Remove. destruct mq as [[iu ls lens fs sum] m t u c x i na ic id]. cbn in *. unfold with_queues. cbn. f_equal. f_equal.
  - apply (unlink_notin e iu), (Hno InUse).
  - rewrite <- (list_fmap_id ls) at 2. apply list_fmap_ext. intros k l Hl. apply (unlink_notin e l). specialize (Hno (Lru (Z.of_nat k))). cbn in Hno.
    rewrite at_lookup, Nat2Z.id, Hl in Hno by lia. done.
Qed.

Lemma to_use_new e h : pl e = None -> handle mq e = Some h ->
  exists q', LRU_Append mq InUse e = Some (with_queues mq q') /\ forall pl', (forall a, a <> e -> pl' a = pl a) -> pl' e = Some InUse -> lists_ok n q' pl'.
Proof.
  intros Hp Hh. unfold LRU_Append. rewrite Hh. cbn [mbind option_bind]. eexists. split; [done|]. intros pl' Hpl He. set (q' := MkQueues _ _ _ _ _).
  assert (Hno : forall l, unlink e (list_of (queues mq) l) = list_of (queues mq) l) by (intros l; apply unlink_notin; intros Hin; apply (ls_place _ _ _ Hok) in Hin; congruence).
  assert (Hm : moved (queues mq) q' e (Some InUse)).
  { split; [|done|done]. intros [|j]; rewrite Hno; cbn -[at_]; [by rewrite decide_True|]. by rewrite decide_False, app_nil_r. }
  pose proof (zlen_nonneg (lrus_ (queues mq))) as Hn0. rewrite (ls_num _ _ _ Hok) in Hn0.
  apply (moved_ok n (queues mq) q' pl pl' e (Some InUse)); [done|done|done|done| |by apply (zlen_lens n _ pl Hok)].
  intros j Hj. change (at_ (lru_lens_ (queues mq)) j = Some (zlen (list_of (queues mq) (Lru j)))). by apply (lens_at n _ pl).
Qed.
End Moves.
