(* ===== verification/QueueInvariant.v ===== *)
(** * QueueInvariant: the queue of a region tells its filters

    The invariant of MultiQueue.v against the interface [RegionTableLaws]: every
    handle is in its place, the region of a handle on queue [k > 0] has exactly
    [k] filters in memory, and no two handles share a region.  It is kept by the
    shrinking of the usage and by [RecomputeExp], which are the steps that move
    handles between queues and load or drop filters. *)
From stdpp Require Import gmap.
From Stdlib Require Import SpecFloat.
From S2P Require Import Prelude Coding Status Hash Bloom Cache MultiQueue QueueLists.

(** What the queues rely on: the filters of a region of a table that is in
    order, and how dropping and loading filters change them and only them. *)
Class RegionTableLaws (T : Type) (RT : RegionTable T) (P : Params) := {
  rt_ok : T -> Prop;
  rt_regions : T -> Z;
  rt_regions_range : forall t, rt_ok t -> 0 <= rt_regions t < 2 ^ 31;
  rt_num_ok : forall t r, rt_ok t -> 0 <= r < rt_regions t -> exists c, rt_num t r = Some c /\ 0 <= c < lrus_num_ P;
  rt_num_table : forall t, rt_ok t -> rt_num t (-1) = Some 0;
  rt_remove_ok : forall t r c, rt_ok t -> 0 <= r < rt_regions t -> rt_num t r = Some c -> 0 < c ->
    exists d t', rt_remove t 1 r = Some (d, t') /\ at_ (bits_per_key_per_filter_ P) c = Some d /\ rt_ok t' /\ rt_regions t' = rt_regions t /\
      rt_num t' r = Some (c - 1) /\ forall r', -1 <= r' < rt_regions t -> r' <> r -> rt_num t' r' = rt_num t r';
  rt_adjust_ok : forall t r c n, rt_ok t -> 0 <= r < rt_regions t -> rt_num t r = Some c -> c < n < lrus_num_ P ->
    exists d t', rt_adjust t n r = Some (d, t') /\ rt_ok t' /\ rt_regions t' = rt_regions t /\
      rt_num t' r = Some n /\ forall r', -1 <= r' < rt_regions t -> r' <> r -> rt_num t' r' = rt_num t r';
  rt_access_ok : forall t r, rt_ok t -> 0 <= r < rt_regions t ->
    exists t', rt_access t r = Some t' /\ rt_ok t' /\ rt_regions t' = rt_regions t /\ forall r', rt_num t' r' = rt_num t r'
}.

(** Parameters as the constructor computes them, for at least one filter of at
    least one bit. *)
Record params_ok (P : Params) : Prop := {
  po_num : 2 <= lrus_num_ P < 2 ^ 16;
  po_fps : zlen (fps P) = lrus_num_ P;
  po_bits : zlen (bits_per_key_per_filter_ P) = lrus_num_ P;
  po_sums : zlen (bits_per_key_per_filter_sum P) = lrus_num_ P;
  po_pos : forall k s, 0 < k -> at_ (bits_per_key_per_filter_sum P) k = Some s -> 0 < s;
  po_bit : forall k b, at_ (bits_per_key_per_filter_ P) k = Some b -> 0 <= b < 2 ^ 31
}.

Section Invariant.
Context {T : Type} {RT : RegionTable T} (P : Params) {L : RegionTableLaws T RT P} (HP : params_ok P).
Implicit Types (mq : MultiQueue T) (h : LRUQueueHandle).

(** ** The invariant *)

Record handle_ok (ts : gmap Z T) (l : list_id) h : Prop := {
  ho_queue : 0 <= queue_id (data h) < lrus_num_ P;
  ho_value : 0 <= value_id (data h) < 2 ^ 31;
  ho_table : exists t, ts !! q_value (data h) = Some t /\ rt_ok t /\ value_id (data h) <= rt_regions t /\
    forall k, l = Lru k -> 1 <= k -> rt_num t (value_id (data h) - 1) = Some k;
  ho_zero : value_id (data h) = 0 -> queue_id (data h) = 0;
  ho_type : 0 < value_id (data h) -> type_ (data h) = true
}.

(** [x] is the handle that is being released, if any. *)
Record queue_ok (x : option nat) mq : Prop := {
  qo_lists : lists_ok (lrus_num_ P) (queues mq) (placed x (heap (mem mq)));
  qo_handles : forall a h l, handle mq a = Some h -> placed x (heap (mem mq)) a = Some l -> handle_ok (tables (mem mq)) l h;
  qo_x : forall a, x = Some a -> is_Some (handle mq a);
  qo_distinct : forall a b ha hb, handle mq a = Some ha -> handle mq b = Some hb ->
    placed x (heap (mem mq)) a <> None -> placed x (heap (mem mq)) b <> None ->
    q_value (data ha) = q_value (data hb) -> value_id (data ha) = value_id (data hb) -> a = b;
  qo_fresh : forall a, is_Some (handle mq a) -> (a < next_addr (mem mq))%nat;
  qo_small : Z.of_nat (next_addr (mem mq)) < 2 ^ 32
}.

(** What never changes in a handle while it moves between queues. *)
Definition core h := (LRU.key h, LRU.hash h, in_cache h, refs h, q_value (data h), value_id (data h), type_ (data h)).

(** What no step on the queues changes: which handles there are and who holds
    them. *)
Record kept (x : option nat) mq mq' : Prop := {
  kp_core : forall a, core <$> handle mq' a = core <$> handle mq a;
  kp_use : forall a, placed x (heap (mem mq')) a = Some InUse <-> placed x (heap (mem mq)) a = Some InUse;
  kp_none : forall a, placed x (heap (mem mq')) a = None <-> placed x (heap (mem mq)) a = None;
  kp_gone : forall a, placed x (heap (mem mq)) a = None -> handle mq' a = handle mq a;
  kp_tables : forall p, is_Some (tables (mem mq) !! p) -> is_Some (tables (mem mq') !! p);
  kp_next : next_addr (mem mq') = next_addr (mem mq);
  kp_deleted : deleted (mem mq') = deleted (mem mq);
  kp_table : table_ mq' = table_ mq;
  kp_time : current_time_ mq' = current_time_ mq
}.

(** Handles that are not on a queue stay as they are, with the filters of their
    regions. *)
Record frame (x : option nat) mq mq' : Prop := {
  fr_kept : kept x mq mq';
  fr_off : forall a l, placed x (heap (mem mq)) a = l -> l = None \/ l = Some InUse -> handle mq' a = handle mq a;
  fr_count : forall a h, handle mq a = Some h -> placed x (heap (mem mq)) a = Some InUse -> curr_num mq' h = curr_num mq h
}.

Lemma queue_kept_refl x mq : kept x mq mq.
Proof. by split. Qed.

Lemma queue_kept_trans x mq1 mq2 mq3 : kept x mq1 mq2 -> kept x mq2 mq3 -> kept x mq1 mq3.
Proof.
  intros [A1 A2 A3 A4 A5 A6 A7 A8 A9] [B1 B2 B3 B4 B5 B6 B7 B8 B9]. split; try congruence; intros a; [by rewrite B2|by rewrite B3| |by intros ?%A5%B5].
  intros Hn. rewrite B4; [by apply A4|by apply A3].
Qed.

Lemma frame_refl x mq : frame x mq mq.
Proof. split; [apply queue_kept_refl|done..]. Qed.

Lemma frame_trans x mq1 mq2 mq3 : frame x mq1 mq2 -> frame x mq2 mq3 -> frame x mq1 mq3.
Proof.
  intros [A1 A2 A3] [B1 B2 B3]. pose proof A1 as [_ U1 N1 _ _ _ _ _ _]. split; [by apply (queue_kept_trans x mq1 mq2)|..].
  - intros a l Hl Hc. rewrite (B2 a (placed x (heap (mem mq2)) a)); [by apply (A2 a l)|done|]. destruct Hc as [->| ->]; [left; by apply N1|right; by apply U1].
  - intros a h Hh Hu. rewrite (B3 a h); [by apply (A3 a)| |by apply U1]. rewrite (A2 a _ eq_refl); [done|by right].
Qed.

Lemma place_lru h k : place h = Some (Lru k) -> in_cache h = true /\ refs h = 1 /\ queue_id (data h) = k.
Proof. unfold place. destruct (in_cache h); [|done]. destruct (Z.eqb_spec (refs h) 1); [|done]. by intros [= <-]. Qed.

Lemma placed_lru x m a k : placed x m a = Some (Lru k) -> x <> Some a /\ exists h, m !! a = Some h /\ place h = Some (Lru k).
Proof. unfold placed. destruct (decide _); [done|]. intros Hb. split; [done|]. by apply bind_Some in Hb. Qed.

(** A handle on a queue, with its table. *)
Lemma queued x mq a k : queue_ok x mq -> placed x (heap (mem mq)) a = Some (Lru k) ->
  exists h, handle mq a = Some h /\ in_cache h = true /\ refs h = 1 /\ queue_id (data h) = k /\ handle_ok (tables (mem mq)) (Lru k) h /\ 0 <= k < lrus_num_ P.
Proof.
  intros Hq Hp. destruct (placed_lru _ _ _ _ Hp) as (_ & h & Hh & Hpl). destruct (place_lru h k Hpl) as (H1 & H2 & H3).
  pose proof (qo_handles _ _ Hq a h _ Hh Hp) as Ho. exists h. split_and!; try done; rewrite <- H3; apply Ho.
Qed.

Lemma region_of ts l h : handle_ok ts l h -> region h = value_id (data h) - 1.
Proof. intros [_ Hv _ _ _]. unfold region, i32. rewrite Z.mod_small by lia. lia. Qed.

Lemma list_small x mq : queue_ok x mq -> forall k, zlen (list_of (queues mq) (Lru k)) < 2 ^ 32.
Proof.
  intros Hq k. pose proof (qo_small _ _ Hq). cut (zlen (list_of (queues mq) (Lru k)) <= Z.of_nat (next_addr (mem mq))); [lia|].
  apply bounded_length; [apply (ls_nodup _ _ _ (qo_lists _ _ Hq))|]. intros a Ha. apply (ls_place _ _ _ (qo_lists _ _ Hq)) in Ha.
  destruct (queued x mq a k Hq Ha) as (h & Hh & _). apply (qo_fresh _ _ Hq). by eexists.
Qed.

(** ** One filter less *)

Lemma place_same h h1 : core h1 = core h -> queue_id (data h1) = queue_id (data h) -> place h1 = place h.
Proof. intros [= _ _ E1 E2 _ _ _] E3. unfold place. by rewrite E1, E2, E3. Qed.

Lemma placed_insert x m a h b : placed x (<[a := h]> m) b = if decide (x = Some b) then Some InUse else if decide (b = a) then place h else placed x m b.
Proof.
  unfold placed. destruct (decide (x = Some b)); [done|]. destruct (decide (b = a)) as [->|Hne]; [by rewrite lookup_insert_eq|by rewrite lookup_insert_ne].
Qed.

(** The state in which [demote] runs: a filter of [old]'s region is dropped, and
    [old] is [h1], which is [h] up to its charge and frequency. *)
Record lowering mq mq1 (old : nat) h h1 (t' : T) : Prop := {
  lw_core : core h1 = core h;
  lw_queue : queue_id (data h1) = queue_id (data h);
  lw_queues : queues mq1 = queues mq;
  lw_heap : heap (mem mq1) = <[old := h1]> (heap (mem mq));
  lw_tables : tables (mem mq1) = <[q_value (data h) := t']> (tables (mem mq));
  lw_next : next_addr (mem mq1) = next_addr (mem mq);
  lw_deleted : deleted (mem mq1) = deleted (mem mq);
  lw_table : table_ mq1 = table_ mq;
  lw_time : current_time_ mq1 = current_time_ mq
}.

Section Lower.
Context (x : option nat) (mq mq1 mq2 : MultiQueue T) (old : nat) (k : Z) (h h1 : LRUQueueHandle) (t t' : T) (q' : Queues).
Context (Hq : queue_ok x mq) (Hp : placed x (heap (mem mq)) old = Some (Lru k)) (H1 : 1 <= k) (Hh : handle mq old = Some h).
Context (Ht : tables (mem mq) !! q_value (data h) = Some t) (Hok' : rt_ok t') (Hreg : rt_regions t' = rt_regions t).
Context (Hnum : rt_num t' (value_id (data h) - 1) = Some (k - 1)) (Hoth : forall r, -1 <= r < rt_regions t -> r <> value_id (data h) - 1 -> rt_num t' r = rt_num t r).
Context (Hl : lowering mq mq1 old h h1 t') (E2 : mq2 = put (with_queues mq1 q') old (set_queue h1 (k - 1))).

#[local] Lemma lower_heap : heap (mem mq2) = <[old := set_queue h1 (k - 1)]> (heap (mem mq)).
Proof. rewrite E2. cbn. rewrite (lw_heap _ _ _ _ _ _ Hl). apply insert_insert_eq. Qed.

#[local] Lemma lower_x : x <> Some old.
Proof. by destruct (placed_lru _ _ _ _ Hp). Qed.

#[local] Lemma lower_place : place h = Some (Lru k).
Proof. destruct (placed_lru _ _ _ _ Hp) as (_ & h' & E & Hpl). unfold handle in Hh. congruence. Qed.

#[local] Lemma lower_place' : place (set_queue h1 (k - 1)) = Some (Lru (k - 1)).
Proof.
  destruct (place_lru h k lower_place) as (Hc & Hr & _). pose proof (lw_core _ _ _ _ _ _ Hl) as [= _ _ E3 E4 _ _ _].
  unfold place. cbn. by rewrite E3, E4, Hc, Hr.
Qed.

#[local] Lemma lower_placed a : placed x (heap (mem mq2)) a = if decide (a = old) then Some (Lru (k - 1)) else placed x (heap (mem mq)) a.
Proof.
  rewrite lower_heap, placed_insert. destruct (decide (a = old)) as [->|Hne].
  - rewrite decide_False by (apply lower_x). apply lower_place'.
  - destruct (decide (x = Some a)) as [Hx|]; [|done]. unfold placed. by rewrite decide_True.
Qed.

#[local] Lemma lower_handle a : a <> old -> handle mq2 a = handle mq a.
Proof. intros Hne. unfold handle. rewrite lower_heap. by apply lookup_insert_ne. Qed.

#[local] Lemma lower_old : handle mq2 old = Some (set_queue h1 (k - 1)).
Proof. unfold handle. rewrite lower_heap. apply lookup_insert_eq. Qed.

#[local] Lemma lower_tables : tables (mem mq2) = <[q_value (data h) := t']> (tables (mem mq)).
Proof. rewrite E2. apply Hl. Qed.

(** Another handle keeps its filters. *)
#[local] Lemma lower_other a ha l : a <> old -> handle mq a = Some ha -> placed x (heap (mem mq)) a = Some l -> handle_ok (tables (mem mq)) l ha -> handle_ok (tables (mem mq2)) l ha.
Proof.
  intros Hne Ha Hpa [A1 A2 (ta & A3 & A4 & A5 & A6) A7 A8]. split; [done|done| |done|done]. rewrite lower_tables.
  destruct (decide (q_value (data ha) = q_value (data h))) as [E|E]; [|rewrite lookup_insert_ne by done; by exists ta].
  rewrite E, lookup_insert_eq. exists t'. rewrite E, Ht in A3. injection A3 as <-. split_and!; [done|done|lia|]. intros j -> Hj. rewrite Hoth; [by apply A6|lia|].
  intros Eq. apply Hne. apply (qo_distinct _ _ Hq a old ha h Ha Hh); [congruence|congruence|done|lia].
Qed.

Lemma lower_ok : lists_ok (lrus_num_ P) q' (placed x (heap (mem mq2))) -> queue_ok x mq2 /\ frame x mq mq2.
Proof.
  intros Hlists. pose proof (lw_core _ _ _ _ _ _ Hl) as Hcore. pose proof Hcore as [= C1 C2 C3 C4 C5 C6 C7].
  destruct (queued x mq old k Hq Hp) as (h' & Hh' & Hc & Hr & Hqid & [O1 O2 O3 O4 O5] & Hk). rewrite Hh in Hh'. injection Hh' as <-.
  assert (Hold : forall a l, placed x (heap (mem mq)) a = l -> l = None \/ l = Some InUse -> a <> old) by (intros a l Hpa Hc' ->; destruct Hc'; congruence).
  split; [split|split; [split|..]].
  - by rewrite E2 in *.
  - intros a ha l Ha Hpa. rewrite lower_placed in Hpa. destruct (decide (a = old)) as [->|Hne].
    + rewrite lower_old in Ha. injection Ha as <-. injection Hpa as <-. destruct O3 as (t0 & T1 & T2 & T3 & T4).
      split; cbn; rewrite ?C6, ?C5, ?C7; [lia|done| |intros Hz; specialize (O4 Hz); lia|done].
      rewrite lower_tables, lookup_insert_eq. exists t'. rewrite Ht in T1. injection T1 as <-. split_and!; [done|done|lia|]. intros j [= <-] _. done.
    + rewrite lower_handle in Ha by done. apply (lower_other a); [done..|]. by apply (qo_handles _ _ Hq a).
  - intros a Hx. destruct (decide (a = old)) as [->|Hne]; [by rewrite lower_old|]. rewrite lower_handle by done. by apply (qo_x _ _ Hq).
  - assert (Hv : forall a ha, handle mq2 a = Some ha -> placed x (heap (mem mq2)) a <> None -> exists ha0, handle mq a = Some ha0 /\
        q_value (data ha) = q_value (data ha0) /\ value_id (data ha) = value_id (data ha0) /\ placed x (heap (mem mq)) a <> None).
    { intros a ha Ha Hpa. rewrite lower_placed in Hpa. destruct (decide (a = old)) as [->|Hne].
      - rewrite lower_old in Ha. injection Ha as <-. exists h. cbn. split_and!; [done..|congruence].
      - rewrite lower_handle in Ha by done. by exists ha. }
    intros a b ha hb Ha Hb Hpa Hpb Eq Ev. destruct (Hv a ha Ha Hpa) as (a0 & A1 & A2 & A3 & A4). destruct (Hv b hb Hb Hpb) as (b0 & B1 & B2 & B3 & B4).
    apply (qo_distinct _ _ Hq a b a0 b0); congruence.
  - intros a Ha. rewrite E2. cbn. rewrite (lw_next _ _ _ _ _ _ Hl). apply (qo_fresh _ _ Hq). destruct (decide (a = old)) as [->|Hne]; [by eexists|].
    by rewrite <- lower_handle.
  - rewrite E2. cbn. rewrite (lw_next _ _ _ _ _ _ Hl). apply Hq.
  - intros a. destruct (decide (a = old)) as [->|Hne]; [rewrite lower_old, Hh; cbn; f_equal; by rewrite <- Hcore|by rewrite lower_handle].
  - intros a. rewrite lower_placed. destruct (decide (a = old)) as [->|]; [|done]. rewrite Hp. split; congruence.
  - intros a. rewrite lower_placed. destruct (decide (a = old)) as [->|]; [|done]. rewrite Hp. split; congruence.
  - intros a Hn. apply lower_handle. by apply (Hold a None); [|left].
  - intros p Hsome. rewrite lower_tables. destruct (decide (p = q_value (data h))) as [->|]; [by rewrite lookup_insert_eq|by rewrite lookup_insert_ne].
  - rewrite E2. apply Hl.
  - rewrite E2. apply Hl.
  - rewrite E2. apply Hl.
  - rewrite E2. apply Hl.
  - intros a l Hpa Hc'. apply lower_handle. by apply (Hold a l).
  - intros a ha Ha Hpa. assert (a <> old) as Hne by (by apply (Hold a (Some InUse)); [|right]). unfold curr_num. rewrite lower_tables.
    destruct (decide (q_value (data ha) = q_value (data h))) as [E|E]; [|by rewrite lookup_insert_ne by done].
    rewrite E, lookup_insert_eq, Ht. cbn [mbind option_bind]. pose proof (qo_handles _ _ Hq a ha _ Ha Hpa) as Hho. rewrite (region_of _ _ _ Hho). pose proof Hho as [_ V (ta & T1 & _ & T2 & _) _ _].
    rewrite E, Ht in T1. injection T1 as <-. apply Hoth; [lia|].
    intros Eq. apply Hne. apply (qo_distinct _ _ Hq a old ha h Ha Hh); [congruence|congruence|done|lia].
Qed.
End Lower.

(** ** Steps that lower a handle *)

Section Step.
Context (x : option nat) (mq : MultiQueue T) (old : nat) (k : Z).
Context (Hq : queue_ok x mq) (Hp : placed x (heap (mem mq)) old = Some (Lru k)) (H1 : 1 <= k).

Lemma remove_filter_ok : exists h d t t', handle mq old = Some h /\ remove_filter mq h = Some (d, put_table mq (q_value (data h)) t') /\
  at_ (bits_per_key_per_filter_ P) k = Some d /\ tables (mem mq) !! q_value (data h) = Some t /\ rt_ok t' /\ rt_regions t' = rt_regions t /\
  rt_num t' (value_id (data h) - 1) = Some (k - 1) /\ forall r, -1 <= r < rt_regions t -> r <> value_id (data h) - 1 -> rt_num t' r = rt_num t r.
Proof.
  destruct (queued x mq old k Hq Hp) as (h & Hh & _ & _ & Hqid & Ho & Hk). pose proof Ho as [O1 O2 (t & T1 & T2 & T3 & T4) O4 O5].
  assert (0 < value_id (data h)) by (destruct (decide (value_id (data h) = 0)) as [E|]; [specialize (O4 E)|]; lia).
  destruct (rt_remove_ok t (value_id (data h) - 1) k T2 ltac:(lia) (T4 k eq_refl H1) ltac:(lia)) as (d & t' & E & R1 & R2 & R3 & R4 & R5).
  exists h, d, t, t'. split; [done|]. split; [|done]. unfold remove_filter. rewrite T1. cbn [mbind option_bind]. rewrite (region_of _ _ _ Ho), E. done.
Qed.

Lemma demote_lower mq1 h h1 t t' : handle mq old = Some h -> tables (mem mq) !! q_value (data h) = Some t -> rt_ok t' -> rt_regions t' = rt_regions t ->
  rt_num t' (value_id (data h) - 1) = Some (k - 1) -> (forall r, -1 <= r < rt_regions t -> r <> value_id (data h) - 1 -> rt_num t' r = rt_num t r) -> lowering mq mq1 old h h1 t' ->
  exists mq2, demote mq1 k old = Some mq2 /\ queue_ok x mq2 /\ frame x mq mq2 /\ usage_ mq2 = usage_ mq1 /\
    moved (queues mq) (queues mq2) old (Some (Lru (k - 1))).
Proof.
  intros Hh Ht Hok Hreg Hnum Hoth Hl. pose proof Hl as [L1 L2 L3 L4 L5 L6 L7 L8 L9].
  assert (Hpl : forall a, placed x (heap (mem mq1)) a = placed x (heap (mem mq)) a).
  { intros a. rewrite L4, placed_insert. destruct (decide (x = Some a)) as [Hx|Hx]; [by rewrite (decide_True (P := x = Some a)) || (unfold placed; by rewrite decide_True)|].
    destruct (decide (a = old)) as [->|]; [|done]. unfold placed. rewrite decide_False by done. unfold handle in Hh. rewrite Hh. by apply place_same. }
  assert (Hlists : lists_ok (lrus_num_ P) (queues mq1) (placed x (heap (mem mq1)))).
  { rewrite L3. destruct (qo_lists _ _ Hq) as [A1 A2 A3 A4 A5]. split; try done. intros l a. by rewrite Hpl. }
  assert (Hh1 : handle mq1 old = Some h1) by (unfold handle; rewrite L4; apply lookup_insert_eq).
  destruct (demote_ok (lrus_num_ P) mq1 _ Hlists ltac:(rewrite L3; by apply (list_small x)) k old h1) as (q' & E & Hm & Hq'); [by rewrite Hpl|done|done|].
  rewrite E. eexists. split; [done|]. set (mq2 := put _ _ _).
  assert (Hlow : lists_ok (lrus_num_ P) q' (placed x (heap (mem mq2)))).
  { apply Hq'.
    - intros a Hne. cbn. rewrite placed_insert, (decide_False (P := a = old)) by done. destruct (decide _) as [Hx|]; [|done]. unfold placed. by rewrite decide_True.
    - rewrite (lower_placed x mq mq1 mq2 old k h h1 t' q' Hp Hh Hl eq_refl). by rewrite decide_True. }
  destruct (lower_ok x mq mq1 mq2 old k h h1 t t' q' Hq Hp H1 Hh Ht Hok Hreg Hnum Hoth Hl eq_refl Hlow) as [A B].
  split_and!; [done|done|done|]. by rewrite L3 in Hm.
Qed.

Lemma moved_head q q' (l : list nat) : lists_ok (lrus_num_ P) q (placed x (heap (mem mq))) -> moved q q' old (Some (Lru (k - 1))) -> list_of q (Lru k) = old :: l ->
  list_of q' (Lru k) = l.
Proof.
  intros Hl [M _ _] E. rewrite M, decide_False, app_nil_r, E by (intros [= ?]; lia). unfold unlink. rewrite filter_cons_False by naive_solver.
  apply unlink_notin. pose proof (ls_nodup _ _ _ Hl (Lru k)) as Hnd. rewrite E in Hnd. by apply NoDup_cons in Hnd as [? _].
Qed.

Lemma queue_handle a j : a ∈ list_of (queues mq) (Lru j) -> exists h, handle mq a = Some h.
Proof. intros Ha. apply (ls_place _ _ _ (qo_lists _ _ Hq)) in Ha. destruct (queued x mq a j Hq Ha) as (h & Hh & _). by exists h. Qed.

Lemma lru_at j : 0 <= j < lrus_num_ P -> lru mq j = Some (list_of (queues mq) (Lru j)).
Proof.
  intros Hj. destruct (at_Some (lrus_ (queues mq)) j) as [l El]; [by rewrite (ls_num _ _ _ (qo_lists _ _ Hq))|]. unfold lru. cbn. rewrite El. unfold at_ in El. done.
Qed.

Lemma Num_Queue_ok j fre : 0 <= j < lrus_num_ P -> exists n, Num_Queue mq j fre = Some n.
Proof.
  intros Hj. unfold Num_Queue. rewrite (lru_at j Hj). cbn [mbind option_bind]. destruct (head _) as [a|] eqn:Ea; [|by eexists]. destruct (last _) as [b|] eqn:Eb; [|by eexists].
  destruct (queue_handle a j) as [ha ->]; [by apply head_Some_elem_of|]. destruct (queue_handle b j) as [hb ->]; [by apply last_Some_elem_of|]. cbn. by eexists.
Qed.
End Step.

(** What a lowering step does to the queues and the usage. *)
Definition lowered (x : option nat) mq mq' (k : Z) (old : nat) : Prop :=
  queue_ok x mq' /\ frame x mq mq' /\ moved (queues mq) (queues mq') old (Some (Lru (k - 1))).

Lemma fps_at k : 0 <= k < lrus_num_ P -> exists f, at_ (fps P) k = Some f.
Proof. intros Hk. apply at_Some. by rewrite (po_fps _ HP). Qed.

Lemma shrink_head_ok x mq old k : queue_ok x mq -> placed x (heap (mem mq)) old = Some (Lru k) -> 1 <= k ->
  exists d mq', shrink_head P mq k old = Some (d, mq') /\ at_ (bits_per_key_per_filter_ P) k = Some d /\ lowered x mq mq' k old /\
    usage_ mq' = u64 (usage_ mq - d).
Proof.
  intros Hq Hp H1. destruct (remove_filter_ok x mq old k Hq Hp H1) as (h & d & t & t' & Hh & Er & Hd & Ht & R1 & R2 & R3 & R4).
  destruct (queued x mq old k Hq Hp) as (_ & _ & _ & _ & _ & _ & Hk). unfold shrink_head. rewrite Hh. cbn [mbind option_bind]. rewrite Er. cbn [mbind option_bind].
  destruct (fps_at k) as [fk ->]; [lia|]. destruct (fps_at (k - 1)) as [f ->]; [lia|]. cbn [mbind option_bind].
  destruct (Num_Queue_ok x mq Hq (k - 1) (fre_count (data h)) ltac:(lia)) as [n' En].
  change (Num_Queue (with_usage _ _) (k - 1) _) with (Num_Queue mq (k - 1) (fre_count (data h))). rewrite En. cbn [mbind option_bind].
  set (mq1 := put _ old _). destruct (demote_lower x mq old k Hq Hp H1 mq1 h (set_fre (with_charge h (u64 (charge h - d))) n') t t' Hh Ht R1 R2 R3 R4) as (mq2 & -> & A & B & D & M).
  { by split. }
  cbn [mbind option_bind]. exists d, mq2. split_and!; done.
Qed.

(** ** Shrinking *)

(** The largest charge of one filter. *)
Definition max_bits : Z := foldr Z.max 0 (bits_per_key_per_filter_ P).

(** The charge given back, when no counter overflows: at most one filter more than
    asked for. *)
Definition gave_back mq mq' (removed removed' limit : Z) : Prop :=
  0 <= removed -> limit <= 2 ^ 62 ->
  removed <= removed' <= Z.max removed (limit + max_bits) /\ usage_ mq' = u64 (usage_ mq - (removed' - removed)).

Lemma u64_sub_sub a b c : u64 (u64 (a - b) - c) = u64 (a - (b + c)).
Proof. unfold u64. rewrite Zminus_mod_idemp_l. f_equal. lia. Qed.

Lemma usage_refl mq removed limit : gave_back mq mq removed removed limit \/ usage_ mq <> u64 (usage_ mq).
Proof.
  destruct (decide (usage_ mq = u64 (usage_ mq))) as [E|]; [left|by right]. intros _ _. split; [lia|]. by rewrite Z.sub_diag, Z.sub_0_r.
Qed.

Lemma head_placed x mq k old l : queue_ok x mq -> list_of (queues mq) (Lru k) = old :: l -> placed x (heap (mem mq)) old = Some (Lru k).
Proof. intros Hq E. apply (ls_place _ _ _ (qo_lists _ _ Hq)). rewrite E. by left. Qed.

Lemma bit_range k d : at_ (bits_per_key_per_filter_ P) k = Some d -> 0 <= d < 2 ^ 31.
Proof. apply (po_bit _ HP). Qed.

Lemma max_bits_ge k d : at_ (bits_per_key_per_filter_ P) k = Some d -> d <= max_bits.
Proof.
  intros Hd. pose proof (at_range _ _ _ Hd) as Hk. rewrite at_lookup in Hd by lia. clear Hk. revert Hd. unfold max_bits. generalize (Z.to_nat k). clear k. induction (bits_per_key_per_filter_ P) as [|x l IH]; intros n; [done|]. destruct n as [|n]; cbn; intros E; [injection E as ->; lia|]. specialize (IH n E). lia.
Qed.

Lemma max_bits_range : 0 <= max_bits < 2 ^ 31.
Proof.
  assert (Hall : Forall (fun b => 0 <= b < 2 ^ 31) (bits_per_key_per_filter_ P)).
  { apply Forall_lookup_2. intros i b Hb. apply (po_bit _ HP (Z.of_nat i)). rewrite at_lookup by lia. by rewrite Nat2Z.id. }
  unfold max_bits. induction Hall; cbn [foldr]; lia.
Qed.

Lemma i64_small z : - 2 ^ 63 <= z < 2 ^ 63 -> i64 z = z.
Proof. intros Hz. unfold i64. rewrite Z.mod_small by lia. lia. Qed.

Lemma gave_back_step mq mq1 mq2 removed removed' limit d : 0 <= d <= max_bits -> removed < limit -> usage_ mq1 = u64 (usage_ mq - d) ->
  gave_back mq1 mq2 (i64 (removed + d)) removed' limit -> gave_back mq mq2 removed removed' limit.
Proof.
  intros Hd Hlt Hu Hg H0 Hlim. pose proof max_bits_range. unfold gave_back in Hg. rewrite i64_small in Hg by lia. destruct (Hg ltac:(lia) Hlim) as [G1 G2]. split; [lia|].
  rewrite G2, Hu, u64_sub_sub. f_equal. lia.
Qed.

Lemma shrink_queue_ok x k limit fuel : 1 <= k < lrus_num_ P -> forall mq removed, queue_ok x mq -> (length (list_of (queues mq) (Lru k)) < fuel)%nat ->
  usage_ mq = u64 (usage_ mq) ->
  exists removed' mq', shrink_queue P fuel mq k removed limit = Some (removed', mq') /\ queue_ok x mq' /\ frame x mq mq' /\ gave_back mq mq' removed removed' limit /\
    usage_ mq' = u64 (usage_ mq').
Proof.
  intros Hk. induction fuel as [|fuel IH]; intros mq removed Hq Hf Hu; [lia|]. cbn [shrink_queue]. rewrite (lru_at x mq Hq k ltac:(lia)). cbn [mbind option_bind].
  assert (Hstop : exists removed' mq', Some (removed, mq) = Some (removed', mq') /\ queue_ok x mq' /\ frame x mq mq' /\ gave_back mq mq' removed removed' limit /\ usage_ mq' = u64 (usage_ mq')).
  { exists removed, mq. split_and!; [done|done|apply frame_refl| |done]. by destruct (usage_refl mq removed limit). }
  destruct (list_of _ (Lru k)) as [|old l] eqn:El; [done|]. destruct (Z.ltb_spec removed limit) as [Hlt|]; [|done].
  pose proof (head_placed x mq k old l Hq El) as Hp. destruct (queued x mq old k Hq Hp) as (h & Hh & _). rewrite Hh. cbn [mbind option_bind]. destruct (_ && _); [|done].
  destruct (shrink_head_ok x mq old k Hq Hp ltac:(lia)) as (d & mq1 & -> & Hd & (A & B & M) & Hu1). cbn [mbind option_bind].
  pose proof (moved_head x mq old k _ _ l (qo_lists _ _ Hq) M El) as El1.
  destruct (IH mq1 (i64 (removed + d)) A) as (removed' & mq' & -> & I1 & I2 & I3 & I4); [rewrite El1; cbn in Hf; lia|rewrite Hu1; unfold u64; by rewrite Zmod_mod|].
  exists removed', mq'. split_and!; [done|done|by apply (frame_trans x mq mq1)| |done]. apply (gave_back_step mq mq1 _ _ _ _ d); [split; [by apply (bit_range k)|by apply (max_bits_ge k)]|done..].
Qed.

Lemma gave_back_trans mq mq1 mq2 r r1 r2 limit : gave_back mq mq1 r r1 limit -> gave_back mq1 mq2 r1 r2 limit -> gave_back mq mq2 r r2 limit.
Proof.
  intros H1 H2 H0 Hl. destruct (H1 H0 Hl) as [A1 A2]. destruct (H2 ltac:(lia) Hl) as [B1 B2]. split; [lia|]. rewrite B2, A2, u64_sub_sub. f_equal. lia.
Qed.

Lemma shrink_down_ok x limit k : Z.of_nat k < lrus_num_ P -> forall mq removed, queue_ok x mq -> usage_ mq = u64 (usage_ mq) ->
  exists removed' mq', shrink_down P k mq removed limit = Some (removed', mq') /\ queue_ok x mq' /\ frame x mq mq' /\ gave_back mq mq' removed removed' limit /\
    usage_ mq' = u64 (usage_ mq').
Proof.
  induction k as [|k IH]; intros Hk mq removed Hq Hu; cbn [shrink_down].
  { exists removed, mq. split_and!; [done|done|apply frame_refl| |done]. by destruct (usage_refl mq removed limit). }
  destruct (_ <? _); [|exists removed, mq; split_and!; [done|done|apply frame_refl| |done]; by destruct (usage_refl mq removed limit)].
  rewrite (lru_at x mq Hq) by lia. cbn [mbind option_bind].
  destruct (shrink_queue_ok x (Z.of_nat (S k)) limit (S (length (list_of (queues mq) (Lru (Z.of_nat (S k)))))) ltac:(lia) mq removed Hq) as (r1 & mq1 & -> & A1 & A2 & A3 & A4); [lia|done|].
  cbn [mbind option_bind]. destruct (IH ltac:(lia) mq1 r1 A1 A4) as (r2 & mq2 & -> & B1 & B2 & B3 & B4). exists r2, mq2. split_and!; [done|done| | |done].
  - by apply (frame_trans x mq mq1).
  - by apply (gave_back_trans mq mq1 mq2 removed r1).
Qed.

(** The longest of the queues above 0. *)
Lemma longest_queue_ok x mq : queue_ok x mq -> exists len k, longest_queue P mq = Some (len, k) /\
  (forall j, 1 <= j < lrus_num_ P -> zlen (list_of (queues mq) (Lru j)) <= len) /\
  ((k = -1 /\ len = 0) \/ (1 <= k < lrus_num_ P /\ len = zlen (list_of (queues mq) (Lru k)) /\ 0 < len)).
Proof.
  intros Hq. unfold longest_queue.
  assert (Hgen : forall is_ len k, (forall i, i ∈ is_ -> 1 <= i < lrus_num_ P) ->
    ((k = -1 /\ len = 0) \/ (1 <= k < lrus_num_ P /\ len = zlen (list_of (queues mq) (Lru k)) /\ 0 < len)) ->
    exists len' k', foldl (fun best i => '(len, j) ← best; n ← at_ (lru_lens_ (queues mq)) i; Some (if len <? n then (n, i) else (len, j))) (Some (len, k)) is_ = Some (len', k') /\
      len <= len' /\ (forall j, j ∈ is_ -> zlen (list_of (queues mq) (Lru j)) <= len') /\
      ((k' = -1 /\ len' = 0) \/ (1 <= k' < lrus_num_ P /\ len' = zlen (list_of (queues mq) (Lru k')) /\ 0 < len'))).
  { induction is_ as [|i is_ IH]; intros len k Hi Hk; cbn [foldl].
    { exists len, k. split_and!; [done|lia|by intros j ?%elem_of_nil|done]. }
    specialize (Hi i ltac:(by left)) as Hri. cbn [mbind option_bind]. rewrite (lens_at _ _ _ i (qo_lists _ _ Hq)) by lia. cbn [mbind option_bind].
    assert (Hi' : forall j, j ∈ is_ -> 1 <= j < lrus_num_ P) by (intros j Hj; apply Hi; by right).
    destruct (Z.ltb_spec len (zlen (list_of (queues mq) (Lru i)))) as [Hlt|Hge].
    - destruct (IH (zlen (list_of (queues mq) (Lru i))) i Hi') as (len' & k' & E & I1 & I2 & I3); [right; split_and!; [lia|lia|done|destruct Hk as [[_ ?]|(_ & _ & ?)]; lia]|].
      exists len', k'. split_and!; [exact E|lia| |done]. intros j [->|Hj]%elem_of_cons; [lia|by apply I2].
    - destruct (IH len k Hi' Hk) as (len' & k' & E & I1 & I2 & I3). exists len', k'. split_and!; [exact E|lia| |done]. intros j [->|Hj]%elem_of_cons; [lia|by apply I2]. }
  destruct (Hgen (seqZ 1 (lrus_num_ P - 1)) 0 (-1)) as (len & k & E & _ & H2 & H3); [intros i Hi; apply elem_of_seqZ in Hi; lia|by left|].
  exists len, k. split_and!; [exact E| |done]. intros j Hj. apply H2, elem_of_seqZ. lia.
Qed.

(** The forced loop ends exactly if one filter of every handle of the queue is
    enough. *)
Lemma force_queue_ok x k d limit fuel : 1 <= k < lrus_num_ P -> at_ (bits_per_key_per_filter_ P) k = Some d ->
  forall mq removed, queue_ok x mq -> (length (list_of (queues mq) (Lru k)) < fuel)%nat -> usage_ mq = u64 (usage_ mq) ->
    0 <= removed -> removed + zlen (list_of (queues mq) (Lru k)) * d < 2 ^ 63 ->
  if limit <=? removed + zlen (list_of (queues mq) (Lru k)) * d
  then exists mq', force_queue P fuel mq k removed limit = Some mq' /\ queue_ok x mq' /\ frame x mq mq' /\ usage_ mq' = u64 (usage_ mq') /\
         exists removed', limit <= removed' <= Z.max removed (limit + d) /\ removed <= removed' /\ usage_ mq' = u64 (usage_ mq - (removed' - removed))
  else force_queue P fuel mq k removed limit = None.
Proof.
  intros Hk Hd. pose proof (bit_range k d Hd) as Hdr. induction fuel as [|fuel IH]; intros mq removed Hq Hf Hu H0 Hb; [lia|]. cbn [force_queue].
  destruct (Z.ltb_spec removed limit) as [Hlt|Hge].
  2:{ pose proof (zlen_nonneg (list_of (queues mq) (Lru k))). destruct (Z.leb_spec limit (removed + zlen (list_of (queues mq) (Lru k)) * d)); [|nia]. exists mq. split_and!; [done|done|apply frame_refl|done|].
      exists removed. split_and!; [lia|lia|lia|by rewrite Z.sub_diag, Z.sub_0_r]. }
  rewrite (lru_at x mq Hq k ltac:(lia)). cbn [mbind option_bind]. destruct (list_of _ (Lru k)) as [|old l] eqn:El.
  { change (zlen []) with 0. destruct (Z.leb_spec limit (removed + 0 * d)); [lia|done]. }
  pose proof (head_placed x mq k old l Hq El) as Hp. destruct (shrink_head_ok x mq old k Hq Hp ltac:(lia)) as (d' & mq1 & -> & Hd' & (A & B & M) & Hu1). cbn [mbind option_bind].
  rewrite Hd in Hd'. injection Hd' as <-. pose proof (moved_head x mq old k _ _ l (qo_lists _ _ Hq) M El) as El1. rewrite zlen_cons in *. pose proof (zlen_nonneg l).
  rewrite i64_small by nia. specialize (IH mq1 (removed + d) A). rewrite El1 in IH. specialize (IH ltac:(cbn in Hf; lia) ltac:(rewrite Hu1; unfold u64; by rewrite Zmod_mod) ltac:(lia) ltac:(nia)).
  replace (removed + d + zlen l * d) with (removed + (zlen l + 1) * d) in IH by lia. replace (1 + zlen l) with (zlen l + 1) in * by lia.
  destruct (limit <=? removed + (zlen l + 1) * d); [|done]. destruct IH as (mq' & E & I1 & I2 & I3 & r & R1 & R2 & R3).
  exists mq'. split_and!; [exact E|done|by apply (frame_trans x mq mq1)|done|]. exists r. split_and!; [lia|lia|lia|]. rewrite R3, Hu1, u64_sub_sub. f_equal. lia.
Qed.

(** ** [MayBeShrinkUsage] *)

(** The usage after the expired handles have given what they can. *)
Definition after_expired mq : option (bool * MultiQueue T) :=
  ShrinkLRU P (with_flags mq false (need_adjust mq) (current_time_ mq) (insert_count mq) (last_id_ mq)) (lrus_num_ P - 1) (i64 (usage_ mq - capacity_ P)) false.

(** The forced loop is entered and the longest queue has too little to give. *)
Definition spins mq : bool :=
  if capacity_ P <=? usage_ mq then
    match after_expired mq with
    | Some (false, m) =>
        match longest_queue P m with
        | Some (len, k) => negb (k =? -1) && (len * default 0 (at_ (bits_per_key_per_filter_ P) k) <? i64 (usage_ m - capacity_ P))
        | None => false
        end
    | _ => false
    end
  else false.

Definition queues_empty mq : Prop := forall k, 1 <= k < lrus_num_ P -> list_of (queues mq) (Lru k) = [].

Lemma queue_ok_flags x mq init adj time count id : queue_ok x mq -> queue_ok x (with_flags mq init adj time count id).
Proof. intros [A1 A2 A3 A4 A5 A6]. split; done. Qed.

Lemma after_expired_ok x mq : queue_ok x mq -> usage_ mq = u64 (usage_ mq) ->
  exists b mq', after_expired mq = Some (b, mq') /\ queue_ok x mq' /\ frame x mq mq' /\ usage_ mq' = u64 (usage_ mq') /\
    exists removed, gave_back mq mq' 0 removed (i64 (usage_ mq - capacity_ P)) /\ b = (i64 (usage_ mq - capacity_ P) <=? removed).
Proof.
  intros Hq Hu. unfold after_expired, ShrinkLRU. set (mq0 := with_flags _ _ _ _ _ _). pose proof (po_num _ HP).
  destruct (shrink_down_ok x (i64 (usage_ mq - capacity_ P)) (Z.to_nat (lrus_num_ P - 1)) ltac:(lia) mq0 0) as (r & mq' & -> & A1 & A2 & A3 & A4); [by apply queue_ok_flags|done|].
  cbn [mbind option_bind]. eexists _, mq'. split; [done|]. split_and!; [done| |done|by exists r].
  apply (frame_trans x mq mq0); [|done]. split; [by split|done..].
Qed.

(** Shrinking ends unless it spins; it leaves the usage within the capacity, or
    no region outside has a filter, and gives back at most one filter more than
    needed. *)
Lemma MayBeShrinkUsage_ok x mq : queue_ok x mq -> usage_ mq = u64 (usage_ mq) ->
  if spins mq then MayBeShrinkUsage P mq = None
  else exists mq', MayBeShrinkUsage P mq = Some mq' /\ queue_ok x mq' /\ frame x mq mq' /\ usage_ mq' = u64 (usage_ mq') /\
    (max_bits <= capacity_ P -> usage_ mq <= 2 ^ 62 ->
      (usage_ mq' <= capacity_ P \/ queues_empty mq') /\ Z.min (usage_ mq) (capacity_ P - max_bits) <= usage_ mq' <= usage_ mq).
Proof.
  intros Hq Hu. pose proof max_bits_range as Hmb. assert (Hu0 : 0 <= usage_ mq) by (rewrite Hu; apply Z.mod_pos_bound; lia). unfold spins, MayBeShrinkUsage. destruct (Z.leb_spec (capacity_ P) (usage_ mq)) as [Hfull|Hfree].
  2:{ exists mq. split_and!; [done|done|apply frame_refl|done|]. intros _ _. split; [left; lia|lia]. }
  destruct (after_expired_ok x mq Hq Hu) as (b & m & E & A1 & A2 & A3 & removed & A4 & Hb). rewrite E. unfold after_expired in E. cbv zeta.
  change (usage_ (with_flags mq false (need_adjust mq) (current_time_ mq) (insert_count mq) (last_id_ mq))) with (usage_ mq). rewrite E. cbn [mbind option_bind].
  assert (Hm : max_bits <= capacity_ P -> usage_ mq <= 2 ^ 62 -> usage_ m = usage_ mq - removed /\ 0 <= removed <= usage_ mq - capacity_ P + max_bits /\ i64 (usage_ mq - capacity_ P) = usage_ mq - capacity_ P).
  { intros Hc Hr. unfold gave_back in A4. rewrite i64_small in A4 by lia. destruct (A4 ltac:(lia) ltac:(lia)) as [G1 G2]. rewrite Z.sub_0_r in G2. rewrite i64_small by lia.
    split_and!; [|lia..]. rewrite G2. apply u64_small. lia. }
  destruct b.
  - exists m. split_and!; [done..|]. intros Hc Hr. destruct (Hm Hc Hr) as (M1 & M2 & M3). rewrite M3 in Hb. symmetry in Hb. apply Z.leb_le in Hb. split; [left; lia|lia].
  - destruct (longest_queue_ok x m A1) as (len & k & El & Hmax & Hk). rewrite El. unfold ShrinkLRU. rewrite El. cbn [mbind option_bind].
    destruct Hk as [[-> ->]|(Hk & -> & Hlen)].
    + cbn. exists m. split_and!; [done..|]. intros Hc Hr. destruct (Hm Hc Hr) as (M1 & M2 & M3). split; [|lia]. right. intros j Hj. specialize (Hmax j Hj). apply length_zero_iff_nil. unfold zlen in Hmax. lia.
    + rewrite (proj2 (Z.eqb_neq k (-1))) by lia. cbn [negb andb]. rewrite (lru_at x m A1 k) by lia. cbn [mbind option_bind].
      destruct (at_Some (bits_per_key_per_filter_ P) k) as [d Hd]; [rewrite (po_bits _ HP); lia|]. rewrite Hd. cbn [default]. pose proof (bit_range k d Hd). pose proof (max_bits_ge k d Hd).
      pose proof (list_small x m A1 k). pose proof (force_queue_ok x k d (i64 (usage_ m - capacity_ P)) (S (length (list_of (queues m) (Lru k)))) Hk Hd m 0 A1 ltac:(lia) A3 ltac:(lia) ltac:(nia)) as Hforce.
      rewrite Z.add_0_l in Hforce. change (id d) with d. rewrite Z.ltb_antisym. destruct (i64 (usage_ m - capacity_ P) <=? _); cbn [negb]; [|by rewrite Hforce].
      destruct Hforce as (mq' & -> & F1 & F2 & F3 & r & R1 & R2 & R3). cbn [mbind option_bind]. exists mq'. split_and!; [done|done|by apply (frame_trans x mq m)|done|].
      intros Hc Hr. destruct (Hm Hc Hr) as (M1 & M2 & M3). rewrite M3 in Hb. symmetry in Hb. apply Z.leb_gt in Hb. rewrite Z.sub_0_r in R3.
      rewrite (i64_small (usage_ m - capacity_ P)) in R1 by lia. rewrite R3, u64_small by lia. split; [left; lia|lia].
Qed.

(** ** Comparison of doubles *)

Lemma SFltb_trans a b c : SFltb a b = true -> SFltb b c = true -> SFltb a c = true.
Proof.
  unfold SFltb. destruct a as [s1|s1| |s1 m1 e1], b as [s2|s2| |s2 m2 e2], c as [s3|s3| |s3 m3 e3]; cbn;
    try (destruct s1); try (destruct s2); try (destruct s3); try done;
    destruct (Z.compare_spec e1 e2), (Z.compare_spec e2 e3), (Z.compare_spec e1 e3); try lia; try done; try (intros; done);
    rewrite ?Pos.compare_cont_spec; cbn;
    destruct (Pos.compare_spec m1 m2), (Pos.compare_spec m2 m3), (Pos.compare_spec m1 m3); cbn; try lia; done.
Qed.

(** ** [RecomputeExp] *)

Lemma filter_charge_ok h k : 1 <= queue_id (data h) < lrus_num_ P -> 0 <= k < lrus_num_ P -> exists c, filter_charge P h k = Some c.
Proof.
  intros Hq Hk. unfold filter_charge. destruct (at_Some (bits_per_key_per_filter_sum P) (queue_id (data h))) as [s Hs]; [rewrite (po_sums _ HP); lia|]. rewrite Hs.
  destruct (at_Some (bits_per_key_per_filter_ P) k) as [b ->]; [rewrite (po_bits _ HP); lia|]. cbn [mbind option_bind].
  pose proof (po_pos _ HP (queue_id (data h)) s ltac:(lia) Hs). rewrite (proj2 (Z.eqb_neq s 0)) by lia. by eexists.
Qed.

Lemma curr_num_ok ts mq l h : tables (mem mq) = ts -> handle_ok ts l h -> exists c, curr_num mq h = Some c /\ 0 <= c < lrus_num_ P.
Proof.
  intros Hts Ho. pose proof Ho as [O1 O2 (t & T1 & T2 & T3 & T4) O4 O5]. unfold curr_num. rewrite Hts, T1. cbn [mbind option_bind]. rewrite (region_of _ _ _ Ho).
  destruct (decide (value_id (data h) = 0)) as [->|Hne]; [|apply rt_num_ok; [done|lia]]. rewrite rt_num_table by done. exists 0. pose proof (po_num _ HP). split; [done|lia].
Qed.

Lemma FalsePositive_ok mq l h : handle_ok (tables (mem mq)) l h -> exists f, FalsePositive P mq h = Some f.
Proof. intros Ho. destruct (curr_num_ok _ mq l h eq_refl Ho) as (c & Hc & Hr). unfold FalsePositive. rewrite Hc. cbn [mbind option_bind]. by apply fps_at. Qed.

Lemma expired_gain_ok x mq i need olds : queue_ok x mq -> 1 <= i < lrus_num_ P -> (forall a, a ∈ olds -> a ∈ list_of (queues mq) (Lru i)) ->
  forall rb change, exists g, expired_gain P mq i need olds rb change = Some g.
Proof.
  intros Hq Hi. induction olds as [|a olds IH]; intros Hin rb change; cbn [expired_gain]; [by eexists|]. destruct (_ <? _); [|by eexists].
  pose proof (proj1 (ls_place _ _ _ (qo_lists _ _ Hq) (Lru i) a) (Hin a ltac:(by left))) as Hp.
  destruct (queued x mq a i Hq Hp) as (h & Hh & _ & _ & Hqid & Ho & _). rewrite Hh. cbn [mbind option_bind]. destruct (_ <? _); [|by eexists].
  destruct (filter_charge_ok h i) as [c ->]; [lia|lia|]. destruct (fps_at (i - 1)) as [f ->]; [lia|]. destruct (FalsePositive_ok mq _ h Ho) as [fp ->]. cbn [mbind option_bind].
  apply IH. intros b Hb. apply Hin. by right.
Qed.

(** What queue [i] offers: enough expired filters, and the expectation then. *)
Definition offers mq (need : Z) (new_exp : spec_float) (i : Z) (change : spec_float) : Prop :=
  exists rb, expired_gain P mq i need (list_of (queues mq) (Lru i)) 0 new_exp = Some (rb, change) /\ need <= rb.

(** The choice is an offer below [now] that no other offer undercuts. *)
Lemma choose_queue_ok x mq need new_exp now is_ : queue_ok x mq -> (forall i, i ∈ is_ -> 1 <= i < lrus_num_ P) ->
  forall min_exp min_i, (min_i = -1 /\ min_exp = now) \/ (1 <= min_i < lrus_num_ P /\ offers mq need new_exp min_i min_exp /\ SFltb min_exp now = true) ->
  exists min_exp' min_i', choose_queue P mq need new_exp is_ (min_exp, min_i) = Some (min_exp', min_i') /\
    ((min_i' = -1 /\ min_exp' = now) \/ (1 <= min_i' < lrus_num_ P /\ offers mq need new_exp min_i' min_exp' /\ SFltb min_exp' now = true)) /\
    (min_exp' = min_exp \/ SFltb min_exp' min_exp = true) /\
    (forall i change, i ∈ is_ -> offers mq need new_exp i change -> SFltb change min_exp' = false).
Proof.
  intros Hq. induction is_ as [|i is_ IH]; intros Hi min_exp min_i Hb; cbn [choose_queue].
  { exists min_exp, min_i. split_and!; [done|done|by left|by intros i change ?%elem_of_nil]. }
  specialize (Hi i ltac:(by left)) as Hri. rewrite (lru_at x mq Hq i) by lia. cbn [mbind option_bind].
  destruct (expired_gain_ok x mq i need _ Hq Hri (fun a Ha => Ha) 0 new_exp) as [[rb change] Eg]. rewrite Eg. cbn [mbind option_bind fst].
  assert (Hi' : forall j, j ∈ is_ -> 1 <= j < lrus_num_ P) by (intros j Hj; apply Hi; by right).
  destruct ((need <=? rb) && SFltb change min_exp) eqn:Ec.
  - apply andb_true_iff in Ec as [En%Z.leb_le Ec].
    assert (Hnow : SFltb change now = true) by (destruct Hb as [[_ <-]|(_ & _ & Hlt)]; [done|by apply (SFltb_trans _ min_exp)]).
    destruct (IH Hi' change i) as (m & j & E & I1 & I2 & I3); [right; split_and!; [lia|lia|by exists rb|done]|].
    exists m, j. split_and!; [exact E|done|right; destruct I2 as [->|I2]; [done|by apply (SFltb_trans _ change)]|].
    intros i' ch [->|Hin]%elem_of_cons Hof; [|by apply (I3 i')]. destruct Hof as (rb' & Eg' & _). rewrite Eg in Eg'. injection Eg' as <- <-.
    destruct (SFltb change m) eqn:Em; [|done]. destruct I2 as [->|I2]; [|pose proof (SFltb_trans _ _ _ Em I2) as Hself]; exfalso; [rename Em into Hself|];
      revert Hself; unfold SFltb; destruct change as [[]|[]| |[] ? ?]; cbn; try done; rewrite ?Z.compare_refl, ?Pos.compare_cont_refl; done.
  - destruct (IH Hi' min_exp min_i Hb) as (m & j & E & I1 & I2 & I3). exists m, j. split_and!; [exact E|done|done|].
    intros i' ch [->|Hin]%elem_of_cons Hof; [|by apply (I3 i')]. destruct Hof as (rb' & Eg' & Hrb). rewrite Eg in Eg'. injection Eg' as <- <-.
    rewrite (proj2 (Z.leb_le _ _) Hrb) in Ec. cbn [andb] in Ec. destruct (SFltb change m) eqn:Em; [|done]. destruct I2 as [->|I2]; [congruence|].
    by rewrite (SFltb_trans _ _ _ Em I2) in Ec.
Qed.

(** A handle may change as long as it keeps its place. *)
Lemma queue_put_ok x mq a h h' : queue_ok x mq -> handle mq a = Some h -> core h' = core h -> placed x (heap (mem mq)) a <> None -> placed x (<[a := h']> (heap (mem mq))) a = placed x (heap (mem mq)) a ->
  (forall l, placed x (heap (mem mq)) a = Some l -> handle_ok (tables (mem mq)) l h -> handle_ok (tables (mem mq)) l h') ->
  queue_ok x (put mq a h') /\ kept x mq (put mq a h').
Proof.
  intros [Q1 Q2 Q3 Q4 Q5 Q6] Hh Hc Hnn Hp Ho. pose proof Hc as [= C1 C2 C3 C4 C5 C6 C7].
  assert (Hpl : forall b, placed x (<[a := h']> (heap (mem mq))) b = placed x (heap (mem mq)) b).
  { intros b. destruct (decide (b = a)) as [->|Hne]; [done|]. rewrite placed_insert, (decide_False (P := b = a)) by done. destruct (decide _) as [Hx|]; [|done]. unfold placed. by rewrite decide_True. }
  assert (Hhd : forall b, b <> a -> handle (put mq a h') b = handle mq b) by (intros b Hne; unfold handle; cbn; by apply lookup_insert_ne).
  assert (Hha : handle (put mq a h') a = Some h') by (unfold handle; cbn; apply lookup_insert_eq).
  split; split; cbn [put with_mem mem heap tables next_addr deleted table_ current_time_ queues]; try done.
  - destruct Q1 as [A1 A2 A3 A4 A5]. split; try done. intros l b. by rewrite Hpl.
  - intros b hb l Hb Hpb. rewrite Hpl in Hpb. destruct (decide (b = a)) as [->|Hne].
    + rewrite Hha in Hb. injection Hb as <-. apply Ho; [done|]. by apply (Q2 a).
    + rewrite Hhd in Hb by done. by apply (Q2 b).
  - intros b Hx. destruct (decide (b = a)) as [->|Hne]; [by rewrite Hha|rewrite Hhd by done; by apply Q3].
  - assert (Hv : forall b hb, handle (put mq a h') b = Some hb -> exists hb0, handle mq b = Some hb0 /\ q_value (data hb) = q_value (data hb0) /\ value_id (data hb) = value_id (data hb0)).
    { intros b hb Hb. destruct (decide (b = a)) as [->|Hne]; [rewrite Hha in Hb; injection Hb as <-; by exists h|rewrite Hhd in Hb by done; by exists hb]. }
    intros b c hb hc Hb Hc' Hpb Hpc Eq Ev. rewrite Hpl in Hpb, Hpc. destruct (Hv b hb Hb) as (b0 & B1 & B2 & B3). destruct (Hv c hc Hc') as (c0 & D1 & D2 & D3).
    apply (Q4 b c b0 c0); congruence.
  - intros b Hb. apply Q5. destruct (decide (b = a)) as [->|Hne]; [by eexists|by rewrite <- Hhd].
  - intros b. destruct (decide (b = a)) as [->|Hne]; [rewrite Hha, Hh; cbn; by f_equal|by rewrite Hhd].
  - intros b. by rewrite Hpl.
  - intros b. by rewrite Hpl.
  - intros b Hb. apply Hhd. by intros ->.
Qed.

(** A handle in use may also change its queue. *)
Lemma put_use mq a h h' : queue_ok None mq -> handle mq a = Some h -> place h = Some InUse -> core h' = core h -> 0 <= queue_id (data h') < lrus_num_ P ->
  (value_id (data h) = 0 -> queue_id (data h') = 0) -> queue_ok None (put mq a h') /\ kept None mq (put mq a h') /\ place h' = Some InUse.
Proof.
  intros Hq Hh Hp Hc Hr Hz. pose proof Hc as [= C1 C2 C3 C4 C5 C6 C7].
  assert (Hp' : place h' = Some InUse) by (revert Hp; unfold place; rewrite C3, C4; destruct (in_cache h); [|done]; by destruct (refs h =? 1)).
  assert (Hpl : placed None (heap (mem mq)) a = Some InUse) by (unfold placed; rewrite decide_False by done; unfold handle in Hh; by rewrite Hh).
  destruct (queue_put_ok None mq a h h' Hq Hh Hc) as [A B]; [by rewrite Hpl| |intros l Hl [O1 O2 O3 O4 O5]|done].
  - rewrite Hpl. unfold placed. rewrite decide_False by done. by rewrite lookup_insert_eq.
  - rewrite Hpl in Hl. injection Hl as <-. by split; rewrite ?C6, ?C5, ?C7.
Qed.

Lemma evict_expired_ok x k need fuel : 1 <= k < lrus_num_ P -> forall mq rb, queue_ok x mq -> (length (list_of (queues mq) (Lru k)) < fuel)%nat -> usage_ mq = u64 (usage_ mq) ->
  exists mq', evict_expired P fuel mq k need rb = Some mq' /\ queue_ok x mq' /\ frame x mq mq' /\ usage_ mq' = u64 (usage_ mq').
Proof.
  intros Hk. induction fuel as [|fuel IH]; intros mq rb Hq Hf Hu; [lia|]. cbn [evict_expired]. rewrite (lru_at x mq Hq k ltac:(lia)). cbn [mbind option_bind].
  assert (Hstop : exists mq', Some mq = Some mq' /\ queue_ok x mq' /\ frame x mq mq' /\ usage_ mq' = u64 (usage_ mq')) by (exists mq; split_and!; [done|done|apply frame_refl|done]).
  destruct (list_of _ (Lru k)) as [|old l] eqn:El; [done|]. destruct (_ <? _); [|done].
  pose proof (head_placed x mq k old l Hq El) as Hp. destruct (remove_filter_ok x mq old k Hq Hp ltac:(lia)) as (h & d & t & t' & Hh & Er & _ & Ht & R1 & R2 & R3 & R4).
  destruct (queued x mq old k Hq Hp) as (h' & Hh' & _ & _ & Hqid & _ & _). rewrite Hh in Hh'. injection Hh' as <-. rewrite Hh. cbn [mbind option_bind].
  destruct (filter_charge_ok h k) as [c ->]; [lia|lia|]. cbn [mbind option_bind]. rewrite Er. cbn [mbind option_bind]. set (mq1 := with_usage _ _).
  destruct (demote_lower x mq old k Hq Hp ltac:(lia) mq1 h h t t' Hh Ht R1 R2 R3 R4) as (mq2 & -> & A & B & D & M).
  { split; try done. cbn. unfold handle in Hh. by rewrite insert_id. }
  cbn [mbind option_bind]. pose proof (moved_head x mq old k _ _ l (qo_lists _ _ Hq) M El) as El1.
  destruct (IH mq2 (i32 (rb + c)) A) as (mq' & -> & I1 & I2 & I3); [rewrite El1; cbn in Hf; lia|rewrite D; cbn; unfold u64; by rewrite Zmod_mod|].
  exists mq'. split_and!; [done|done|by apply (frame_trans x mq mq2)|done].
Qed.

Lemma need_bits_ok mq a h : queue_ok None mq -> handle mq a = Some h -> place h = Some InUse -> queue_id (data h) + 1 < lrus_num_ P -> exists need, need_bits P mq h = Some need.
Proof.
  intros Hq Hh Hp Hr. pose proof (po_num _ HP).
  assert (Ho : handle_ok (tables (mem mq)) InUse h) by (apply (qo_handles _ _ Hq a); [done|unfold placed; rewrite decide_False by done; unfold handle in Hh; by rewrite Hh]).
  pose proof (ho_queue _ _ _ Ho). unfold need_bits. destruct (Z.eqb_spec (queue_id (data h)) 0).
  - rewrite (lru_at None mq Hq 1) by lia. cbn [mbind option_bind]. destruct (list_of _ (Lru 1)) as [|b l] eqn:El; cbn [mbind option_bind]; [by eexists|].
    destruct (queued None mq b 1 Hq (head_placed None mq 1 b l Hq El)) as (hb & -> & _). cbn. by eexists.
  - destruct (filter_charge_ok h (queue_id (data h) + 1)) as [c ->]; [lia|lia|]. cbn. by eexists.
Qed.

Lemma add_freq_ok x mq k d : queue_ok x mq -> 0 <= k < lrus_num_ P -> exists fs, add_freq mq k d
    = Some (with_queues mq (MkQueues (in_use_ (queues mq)) (lrus_ (queues mq)) (lru_lens_ (queues mq)) fs (sum_lru_len (queues mq)))) /\ zlen fs = lrus_num_ P.
Proof.
  intros Hq Hk. unfold add_freq. cbv zeta. destruct (at_Some (sum_freqs_ (queues mq)) k) as [s Hs]; [by rewrite (ls_freqs _ _ _ (qo_lists _ _ Hq))|].
  destruct (bump_field_ok _ _ d _ Hs) as (fs & -> & Hz & _). exists fs. split; [done|]. rewrite Hz. apply (ls_freqs _ _ _ (qo_lists _ _ Hq)).
Qed.

Lemma freq_queue_ok x mq fs : queue_ok x mq -> zlen fs = lrus_num_ P ->
  let mq' := with_queues mq (MkQueues (in_use_ (queues mq)) (lrus_ (queues mq)) (lru_lens_ (queues mq)) fs (sum_lru_len (queues mq))) in queue_ok x mq' /\ frame x mq mq'.
Proof. intros [[A1 A2 A3 A4 A5] Q2 Q3 Q4 Q5 Q6] Hz. split; [split; [by split|done..]|split; [by split|done..]]. Qed.

Lemma promote_ok mq e h : queue_ok None mq -> handle mq e = Some h -> place h = Some InUse -> 0 < value_id (data h) -> 0 <= queue_id (data h) -> queue_id (data h) + 1 < lrus_num_ P ->
  exists mq', promote mq e = Some mq' /\ queue_ok None mq' /\ kept None mq mq' /\ usage_ mq' = usage_ mq /\ tables (mem mq') = tables (mem mq).
Proof.
  intros Hq Hh Hp Hv H0 Hr. unfold promote. rewrite Hh. cbn [mbind option_bind]. pose proof (po_num _ HP).
  destruct (add_freq_ok None mq (queue_id (data h)) (- fre_count (data h)) Hq ltac:(lia)) as (fs & -> & Hz). cbn [mbind option_bind].
  destruct (freq_queue_ok None mq fs Hq Hz) as [Hq1 Hf1]. set (mq1 := with_queues _ _) in *.
  destruct (add_freq_ok None mq1 (queue_id (data h) + 1) (fre_count (data h)) Hq1 ltac:(lia)) as (fs2 & -> & Hz2). cbn [mbind option_bind].
  destruct (freq_queue_ok None mq1 fs2 Hq1 Hz2) as [Hq2 Hf2]. set (mq2 := with_queues mq1 _) in *.
  assert (E : u16 (queue_id (data h) + 1) = queue_id (data h) + 1) by (unfold u16; apply Z.mod_small; lia). rewrite E.
  destruct (put_use mq2 e h (set_queue h (queue_id (data h) + 1)) Hq2 Hh Hp eq_refl) as (A & B & _); [cbn; lia|lia|].
  eexists. split; [done|]. split_and!; [done| |done|done]. apply (queue_kept_trans None mq mq2); [|done]. apply (queue_kept_trans None mq mq1); [apply Hf1|apply Hf2].
Qed.

Lemma queue_ok_same x mq mq' : queues mq' = queues mq -> mem mq' = mem mq -> queue_ok x mq -> queue_ok x mq'.
Proof. intros E1 E2 [Q1 Q2 Q3 Q4 Q5 Q6]. unfold handle in *. split; unfold handle; rewrite ?E1, ?E2; done. Qed.

(** The access of a handle in use: its frequency grows, and it may be promised
    one more filter, for which expired regions give up theirs. *)
Lemma RecomputeExp_ok mq e h : queue_ok None mq -> usage_ mq = u64 (usage_ mq) -> handle mq e = Some h -> place h = Some InUse -> 0 < value_id (data h) ->
  exists mq', RecomputeExp P mq e = Some mq' /\ queue_ok None mq' /\ kept None mq mq' /\ usage_ mq' = u64 (usage_ mq').
Proof.
  intros Hq Hu Hh Hp Hv. pose proof (po_num _ HP).
  assert (Ho : handle_ok (tables (mem mq)) InUse h) by (apply (qo_handles _ _ Hq e); [done|unfold placed; rewrite decide_False by done; unfold handle in Hh; by rewrite Hh]).
  pose proof (ho_queue _ _ _ Ho) as Hr. destruct (FalsePositive_ok mq _ h Ho) as [fp Hfp]. set (n := u64 (fre_count (data h) + 1)).
  destruct (put_use mq e h (set_fre h n) Hq Hh Hp eq_refl ltac:(done) ltac:(cbn; lia)) as (Hq1 & Hk1 & Hp1). set (mq1 := put mq e (set_fre h n)) in *.
  assert (Hh1 : handle mq1 e = Some (set_fre h n)) by (unfold handle; cbn; apply lookup_insert_eq).
  assert (Hend : forall mq' y, queue_ok None mq' -> kept None mq mq' -> usage_ mq' = u64 (usage_ mq') -> exists m, Some (with_exp mq' y) = Some m /\ queue_ok None m /\ kept None mq m /\ usage_ m = u64 (usage_ m)).
  { intros mq' y A B D. eexists. split; [done|]. split_and!; [by apply (queue_ok_same None mq')| |done]. destruct B. by split. }
  unfold RecomputeExp. rewrite Hh. cbn [mbind option_bind]. fold n. fold mq1. destruct (_ || _) eqn:Eb.
  { destruct (add_freq_ok None mq1 (queue_id (data h)) 1 Hq1 ltac:(lia)) as (fs & -> & Hz). cbn [mbind option_bind]. destruct (freq_queue_ok None mq1 fs Hq1 Hz) as [Hq2 Hf2].
    set (mq2 := with_queues _ _) in *. change (FalsePositive P mq2 h) with (FalsePositive P mq h). rewrite Hfp. cbn [mbind option_bind]. apply Hend; [done| |done].
    apply (queue_kept_trans None mq mq1); [done|apply Hf2]. }
  apply orb_false_iff in Eb as [_ Eb%Z.eqb_neq]. rewrite Hfp. cbn [mbind option_bind]. destruct (fps_at (queue_id (data h) + 1)) as [f ->]; [lia|]. cbn [mbind option_bind].
  destruct (need_bits_ok mq1 e (set_fre h n) Hq1 Hh1 Hp1) as [need ->]; [cbn; lia|]. cbn [mbind option_bind].
  assert (Hprom : forall m y, queue_ok None m -> kept None mq m -> usage_ m = u64 (usage_ m) -> handle m e = Some (set_fre h n) ->
    exists mq', (mq ← promote m e; Some (with_exp mq y)) = Some mq' /\ queue_ok None mq' /\ kept None mq mq' /\ usage_ mq' = u64 (usage_ mq')).
  { intros m y A B D E. destruct (promote_ok m e (set_fre h n) A E Hp1) as (m' & -> & F1 & F2 & F3 & _); [cbn; lia..|]. cbn [mbind option_bind].
    apply Hend; [done|by apply (queue_kept_trans None mq m)|by rewrite F3]. }
  set (now := fadd _ fp). set (new_exp := fadd (fsub _ _) _). destruct (0 <? need).
  - destruct (choose_queue_ok None mq1 need new_exp now (seqZ 1 (lrus_num_ P - 1)) Hq1) with (min_exp := now) (min_i := -1) as (me & mi & -> & Hc & _ & _);
      [intros i Hi; apply elem_of_seqZ in Hi; lia|by left|]. cbn [mbind option_bind]. destruct (_ && _) eqn:E2; [|by apply Hend].
    apply andb_true_iff in E2 as [E2%negb_true_iff%Z.eqb_neq _]. destruct Hc as [[-> _]|(Hmi & _ & ->)]; [done|]. rewrite (lru_at None mq1 Hq1 mi) by lia. cbn [mbind option_bind].
    destruct (evict_expired_ok None mi need (S (length (list_of (queues mq1) (Lru mi)))) Hmi mq1 0 Hq1 ltac:(lia) Hu) as (m & -> & A & B & D). cbn [mbind option_bind].
    apply Hprom; [done|apply (queue_kept_trans None mq mq1); [done|apply B]|done|]. rewrite (fr_off _ _ _ B e (Some InUse)); [done| |by right].
    unfold placed. rewrite decide_False by done. cbn. rewrite lookup_insert_eq. done.
  - destruct (SFltb _ _); [|by apply Hend]. by apply Hprom.
Qed.
End Invariant.
