(* ===== verification/QueueClient.v ===== *)
(** * QueueClient: the multi queue under its clients

    The calls of MultiQueue.v as the table cache makes them, over an invariant
    that also counts the references of the clients and finds every cached handle
    in the hash table.  A history of calls keeps the invariant, every call
    returns, unless the forced shrinking spins, and the deleter runs exactly when
    a table's handle has left the cache and nobody holds it. *)
From stdpp Require Import gmap.
From Stdlib Require Import SpecFloat.
From S2P Require Import Prelude Coding Status Hash Bloom Cache MultiQueue QueueLists QueueInvariant.

Section Client.
Context {T : Type} {RT : RegionTable T} (P : Params) {L : RegionTableLaws T RT P} (HP : params_ok P).
Implicit Types (mq : MultiQueue T) (h : LRUQueueHandle).

(** ** Changes of the invariant *)

(** A handle changes its place. *)
Lemma reput_ok x x' mq q' a h h' : queue_ok P x mq -> handle mq a = Some h -> q_value (data h') = q_value (data h) -> value_id (data h') = value_id (data h) ->
  lists_ok (lrus_num_ P) q' (placed x' (<[a := h']> (heap (mem mq)))) ->
  (forall b, b <> a -> placed x' (heap (mem mq)) b = placed x (heap (mem mq)) b) ->
  (forall l, placed x' (<[a := h']> (heap (mem mq))) a = Some l -> handle_ok P (tables (mem mq)) l h') ->
  (placed x' (<[a := h']> (heap (mem mq))) a <> None -> placed x (heap (mem mq)) a <> None) -> (forall b, x' = Some b -> b = a) -> queue_ok P x' (put (with_queues mq q') a h').
Proof.
  intros [Q1 Q2 Q3 Q4 Q5 Q6] Hh Ev Ei Hl Hoth Ho Hn Hx.
  assert (Hpl : forall b, b <> a -> placed x' (<[a := h']> (heap (mem mq))) b = placed x (heap (mem mq)) b).
  { intros b Hne. rewrite <- Hoth by done. rewrite placed_insert, (decide_False (P := b = a)) by done. destruct (decide _) as [Hb|]; [|done]. unfold placed. by rewrite decide_True. }
  set (mq' := put (with_queues mq q') a h').
  assert (Hhd : forall b, b <> a -> handle mq' b = handle mq b) by (intros b Hne; unfold handle; cbn; by apply lookup_insert_ne).
  assert (Hha : handle mq' a = Some h') by (unfold handle; cbn; apply lookup_insert_eq).
  split; cbn [mq' put with_mem with_queues mem heap tables next_addr queues]; try done.
  - intros b hb l Hb Hpb. destruct (decide (b = a)) as [->|Hne]; [rewrite Hha in Hb; injection Hb as <-; by apply Ho|].
    rewrite Hhd in Hb by done. rewrite Hpl in Hpb by done. by apply (Q2 b).
  - intros b Hb. rewrite (Hx b Hb), Hha. done.
  - assert (Hv : forall b hb, handle mq' b = Some hb -> placed x' (<[a := h']> (heap (mem mq))) b <> None -> exists hb0, handle mq b = Some hb0 /\
      q_value (data hb) = q_value (data hb0) /\ value_id (data hb) = value_id (data hb0) /\ placed x (heap (mem mq)) b <> None).
    { intros b hb Hb Hpb. destruct (decide (b = a)) as [->|Hne]; [rewrite Hha in Hb; injection Hb as <-; exists h; split_and!; auto|].
      rewrite Hhd in Hb by done. rewrite Hpl in Hpb by done. by exists hb. }
    intros b c hb hc Hb Hc Hpb Hpc Eq Evv. destruct (Hv b hb Hb Hpb) as (b0 & B1 & B2 & B3 & B4). destruct (Hv c hc Hc Hpc) as (c0 & D1 & D2 & D3 & D4).
    apply (Q4 b c b0 c0); congruence.
  - intros b Hb. apply Q5. destruct (decide (b = a)) as [->|Hne]; [by eexists|by rewrite <- Hhd].
Qed.

(** A table changes in no region of a handle on a queue. *)
Lemma put_table_ok x mq p t t' : queue_ok P x mq -> tables (mem mq) !! p = Some t -> rt_ok t' -> rt_regions t' = rt_regions t ->
  (forall a h k, handle mq a = Some h -> placed x (heap (mem mq)) a = Some (Lru k) -> 1 <= k -> q_value (data h) = p ->
    rt_num t (value_id (data h) - 1) = Some k -> rt_num t' (value_id (data h) - 1) = Some k) ->
  queue_ok P x (put_table mq p t') /\ kept x mq (put_table mq p t').
Proof.
  intros [Q1 Q2 Q3 Q4 Q5 Q6] Ht Hok Hreg Hsame. split.
  2:{ split; try done. intros p' Hp'. cbn. destruct (decide (p' = p)) as [->|]; [by rewrite lookup_insert_eq|by rewrite lookup_insert_ne]. }
  split; try done. intros a h l Ha Hpa. cbn.
  change (handle mq a = Some h) in Ha. change (placed x (heap (mem mq)) a = Some l) in Hpa. destruct (Q2 a h l Ha Hpa) as [O1 O2 (ta & T1 & T2 & T3 & T4) O4 O5]. split; try done.
  destruct (decide (q_value (data h) = p)) as [E|E]; [|rewrite lookup_insert_ne by done; by exists ta].
  rewrite E, lookup_insert_eq. exists t'. rewrite E, Ht in T1. injection T1 as <-. split_and!; [done|done|lia|]. intros k -> Hk. apply (Hsame a h k); auto.
Qed.

(** ** The invariant *)

(** [ids] are the handles in the hash table, [held] the handles the clients
    hold, with repetitions. *)
Record books mq (ids held : list nat) : Prop := {
  mk_hash : LRU.heap_ok (heap (mem mq));
  mk_ht : LRU.ht_ok (heap (mem mq)) (table_ mq) ids;
  mk_unique : LRU.unique_keys (heap (mem mq)) ids;
  mk_ids : forall a h, handle mq a = Some h -> a ∈ ids <-> in_cache h = true;
  mk_refs : forall a, LRU.count held a = match handle mq a with Some h => refs h - (if in_cache h then 1 else 0) | None => 0 end;
  mk_pos : forall a h, handle mq a = Some h -> 1 <= refs h;
  mk_gone : forall a h, handle mq a = Some h -> in_cache h = false -> 0 <= queue_id (data h) < lrus_num_ P;
  mk_dead : forall a h b hb, handle mq a = Some h -> handle mq b = Some hb -> in_cache h = false -> in_cache hb = true -> value_id (data h) = 0 ->
    q_value (data hb) <> q_value (data h);
  mk_once : forall a h b hb, handle mq a = Some h -> handle mq b = Some hb -> value_id (data h) = 0 -> value_id (data hb) = 0 -> q_value (data h) = q_value (data hb) -> a = b;
  mk_live : forall a h, handle mq a = Some h -> value_id (data h) = 0 -> is_Some (tables (mem mq) !! q_value (data h))
}.

Record mq_ok mq (ids held : list nat) : Prop := {
  mk_queue : queue_ok P None mq;
  mk_usage : usage_ mq = u64 (usage_ mq);
  mk_books :> books mq ids held
}.

Lemma core_handle mq mq' a h' : (forall b, core <$> handle mq' b = core <$> handle mq b) -> handle mq' a = Some h' -> exists h, handle mq a = Some h /\ core h' = core h.
Proof.
  intros Hc Ha. specialize (Hc a). rewrite Ha in Hc. cbn in Hc. symmetry in Hc. apply fmap_Some in Hc as (h & Hh & E). by exists h.
Qed.

Lemma core_handle_rev mq mq' a h : (forall b, core <$> handle mq' b = core <$> handle mq b) -> handle mq a = Some h -> exists h', handle mq' a = Some h' /\ core h' = core h.
Proof. intros Hc Ha. specialize (Hc a). rewrite Ha in Hc. cbn in Hc. apply fmap_Some in Hc as (h' & Hh & E). by exists h'. Qed.

Lemma ids_handle mq ids held a : books mq ids held -> a ∈ ids -> exists h, handle mq a = Some h /\ in_cache h = true.
Proof.
  intros Hm Ha. destruct (LRU.ht_member _ _ _ a (mk_ht _ _ _ Hm) Ha) as (_ & _ & h & _ & _ & Hh & _). exists h. split; [done|]. by apply (mk_ids _ _ _ Hm a h Hh).
Qed.

(** The steps on the queues keep it. *)
Lemma books_kept x mq mq' ids held : books mq ids held -> kept x mq mq' -> (forall a h, x = Some a -> handle mq a = Some h -> in_cache h = true) -> books mq' ids held.
Proof.
  intros Hm [K1 K2 K3 K4 K5 K6 K7 K8 K9] Hx. pose proof Hm as [M3 M4 M5 M6 M7 M8 M9 M10 M11 M12].
  assert (Hback : forall a h', handle mq' a = Some h' -> exists h, handle mq a = Some h /\ core h' = core h) by (intros; by apply (core_handle mq mq')).
  assert (Hfwd : LRU.same_keys (heap (mem mq)) (heap (mem mq')) ids).
  { intros a h _ Ha. destruct (core_handle_rev mq mq' a h K1 Ha) as (h' & Hh' & [= C1 C2 _ _ _ _ _]). by exists h'. }
  split.
  - intros a h' Ha. destruct (Hback a h' Ha) as (h & Hh & [= C1 C2 _ _ _ _ _]). rewrite C1, C2. by apply (M3 a).
  - rewrite K8. by apply (LRU.ht_ok_ext (heap (mem mq))).
  - apply (LRU.unique_ext (heap (mem mq))); [done|..].
    + intros a h' _ Ha. destruct (Hback a h' Ha) as (h & Hh & [= C1 C2 _ _ _ _ _]). by exists h.
    + intros a Ha. destruct (ids_handle mq ids held a Hm Ha) as (h & Hh & _). destruct (core_handle_rev mq mq' a h K1 Hh) as (h' & Hh' & _). by exists h'.
  - intros a h' Ha. destruct (Hback a h' Ha) as (h & Hh & [= _ _ -> _ _ _ _]). by apply M6.
  - intros a. rewrite M7. specialize (K1 a). destruct (handle mq' a) as [h'|], (handle mq a) as [h|]; cbn in K1; try done. by injection K1 as _ _ -> -> _ _ _.
  - intros a h' Ha. destruct (Hback a h' Ha) as (h & Hh & [= _ _ _ -> _ _ _]). by apply (M8 a).
  - intros a h' Ha Hc. destruct (Hback a h' Ha) as (h & Hh & [= _ _ C3 _ _ _ _]). rewrite C3 in Hc. rewrite K4, Hh in Ha; [injection Ha as <-; by apply (M9 a)|].
    unfold placed. rewrite decide_False by (intros Ex; by rewrite (Hx a h Ex Hh) in Hc). unfold handle in Hh. rewrite Hh. cbn. unfold place. by rewrite Hc.
  - intros a h' b hb' Ha Hb. destruct (Hback a h' Ha) as (h & Hh & [= _ _ -> _ -> -> _]). destruct (Hback b hb' Hb) as (hb & Hhb & [= _ _ -> _ -> _ _]). by apply (M10 a h b hb).
  - intros a h' b hb' Ha Hb. destruct (Hback a h' Ha) as (h & Hh & [= _ _ _ _ -> -> _]). destruct (Hback b hb' Hb) as (hb & Hhb & [= _ _ _ _ -> -> _]). by apply (M11 a h b hb).
  - intros a h' Ha. destruct (Hback a h' Ha) as (h & Hh & [= _ _ _ _ -> -> _]). intros Hz. apply K5. by apply (M12 a h).
Qed.

Lemma mq_ok_kept mq mq' ids held : mq_ok mq ids held -> kept None mq mq' -> queue_ok P None mq' -> usage_ mq' = u64 (usage_ mq') -> mq_ok mq' ids held.
Proof. intros Hm Hk Hq Hu. split; [done|done|]. apply (books_kept None mq); [apply Hm|done|done]. Qed.

(** ** References *)

(** A change of one handle that keeps its key and its table. *)
Lemma books_put mq mq' ids held held' a h h' : books mq ids held -> handle mq a = Some h -> heap (mem mq') = <[a := h']> (heap (mem mq)) ->
  table_ mq' = table_ mq -> (forall p, is_Some (tables (mem mq) !! p) -> is_Some (tables (mem mq') !! p)) ->
  LRU.key h' = LRU.key h -> LRU.hash h' = LRU.hash h -> in_cache h' = in_cache h -> q_value (data h') = q_value (data h) -> value_id (data h') = value_id (data h) ->
  1 <= refs h' -> (in_cache h' = false -> 0 <= queue_id (data h') < lrus_num_ P) ->
  (forall b, b <> a -> LRU.count held' b = LRU.count held b) -> LRU.count held' a = refs h' - (if in_cache h' then 1 else 0) -> books mq' ids held'.
Proof.
  intros Hm Hh Eh Et Hts C1 C2 C3 C4 C5 Hpos Hgone Hoth Hcnt. pose proof Hm as [M3 M4 M5 M6 M7 M8 M9 M10 M11 M12].
  assert (Hhd : forall b, b <> a -> handle mq' b = handle mq b) by (intros b Hne; unfold handle; rewrite Eh; by apply lookup_insert_ne).
  assert (Hha : handle mq' a = Some h') by (unfold handle; rewrite Eh; apply lookup_insert_eq).
  assert (Hback : forall b hb', handle mq' b = Some hb' -> exists hb, handle mq b = Some hb /\ LRU.key hb' = LRU.key hb /\ LRU.hash hb' = LRU.hash hb /\ in_cache hb' = in_cache hb /\
    q_value (data hb') = q_value (data hb) /\ value_id (data hb') = value_id (data hb)).
  { intros b hb' Hb. destruct (decide (b = a)) as [->|Hne]; [rewrite Hha in Hb; injection Hb as <-; exists h; by split_and!|]. rewrite Hhd in Hb by done. by exists hb'. }
  assert (Hfwd : LRU.same_keys (heap (mem mq)) (heap (mem mq')) ids).
  { intros b hb _ Hb. change (handle mq b = Some hb) in Hb. change (exists hb', handle mq' b = Some hb' /\ LRU.key hb' = LRU.key hb /\ LRU.hash hb' = LRU.hash hb).
    destruct (decide (b = a)) as [->|Hne]; [rewrite Hh in Hb; injection Hb as <-; by exists h'|]. rewrite Hhd by done. by exists hb. }
  split.
  - intros b hb' Hb. destruct (Hback b hb' Hb) as (hb & Hhb & -> & -> & _). by apply (M3 b).
  - rewrite Et. by apply (LRU.ht_ok_ext (heap (mem mq))).
  - apply (LRU.unique_ext (heap (mem mq))); [done|..].
    + intros b hb' _ Hb. destruct (Hback b hb' Hb) as (hb & Hhb & E1 & E2 & _). by exists hb.
    + intros b Hb. destruct (ids_handle mq ids held b Hm Hb) as (hb & Hhb & _). destruct (Hfwd b hb Hb Hhb) as (hb' & E & _). by exists hb'.
  - intros b hb' Hb. destruct (Hback b hb' Hb) as (hb & Hhb & _ & _ & -> & _). by apply M6.
  - intros b. destruct (decide (b = a)) as [->|Hne]; [by rewrite Hha|]. rewrite Hoth, Hhd by done. apply M7.
  - intros b hb' Hb. destruct (decide (b = a)) as [->|Hne]; [rewrite Hha in Hb; by injection Hb as <-|]. rewrite Hhd in Hb by done. by apply (M8 b).
  - intros b hb' Hb Hc. destruct (decide (b = a)) as [->|Hne]; [rewrite Hha in Hb; injection Hb as <-; auto|]. rewrite Hhd in Hb by done. by apply (M9 b).
  - intros b hb' c hc' Hb Hc. destruct (Hback b hb' Hb) as (hb & Hhb & _ & _ & -> & -> & ->). destruct (Hback c hc' Hc) as (hc & Hhc & _ & _ & -> & -> & _). by apply (M10 b hb c hc).
  - intros b hb' c hc' Hb Hc. destruct (Hback b hb' Hb) as (hb & Hhb & _ & _ & _ & -> & ->). destruct (Hback c hc' Hc) as (hc & Hhc & _ & _ & _ & -> & ->). by apply (M11 b hb c hc).
  - intros b hb' Hb. destruct (Hback b hb' Hb) as (hb & Hhb & _ & _ & _ & -> & ->). intros Hz. apply Hts. by apply (M12 b hb).
Qed.

Lemma placed_none m a h : m !! a = Some h -> placed None m a = place h.
Proof. intros E. unfold placed. rewrite decide_False by done. by rewrite E. Qed.

Lemma placed_put m a h b : placed None (<[a := h]> m) b = if decide (b = a) then place h else placed None m b.
Proof. by rewrite placed_insert, decide_False. Qed.

Lemma handle_ok_use ts l h h' : handle_ok P ts l h -> core h' = core h -> queue_id (data h') = queue_id (data h) -> handle_ok P ts InUse h'.
Proof.
  intros [O1 O2 (t & T1 & T2 & T3 & _) O4 O5] [= C1 C2 C3 C4 C5 C6 C7] Eq. split; rewrite ?Eq, ?C5, ?C6, ?C7; try done. by exists t.
Qed.

(** The first step of [Ref]: one more reference, off the queue. *)
Definition take_ref mq (e : nat) (h : LRUQueueHandle) : option (MultiQueue T) :=
  mq ← (if (refs h =? 1) && in_cache h then
          let mq := LRU_Remove mq e in
          mq ← LRU_Append mq InUse e;
          mq ← add_len mq (queue_id (data h)) (-1);
          Some (add_sum mq (-1))
        else Some mq);
  Some (put mq e (LRU.set_refs h (u32 (refs h + 1)))).

Lemma take_ref_ok mq ids held a h : mq_ok mq ids held -> a ∈ ids -> handle mq a = Some h -> zlen held + 1 < 2 ^ 31 ->
  exists mq' h', take_ref mq a h = Some mq' /\ mq_ok mq' ids (a :: held) /\ current_time_ mq' = current_time_ mq /\
    h' = LRU.set_refs h (u32 (refs h + 1)) /\ handle mq' a = Some h' /\ place h' = Some InUse.
Proof.
  intros Hm Ha Hh Hsz. pose proof (proj1 (mk_ids _ _ _ Hm a h Hh) Ha) as Hc. pose proof (mk_refs _ _ _ Hm a) as Hr. rewrite Hh, Hc in Hr.
  pose proof (LRU.count_le held a) as Hle. pose proof (mk_pos _ _ _ Hm a h Hh) as Hpos. pose proof (mk_queue _ _ _ Hm) as Hq.
  assert (Eu : u32 (refs h + 1) = refs h + 1) by (apply u32_small; lia). set (h' := LRU.set_refs h (u32 (refs h + 1))).
  assert (Hp' : place h' = Some InUse) by (unfold place; cbn; rewrite Hc, Eu; by rewrite (proj2 (Z.eqb_neq _ _)) by lia).
  pose proof (placed_none _ _ _ Hh : placed None (heap (mem mq)) a = place h) as Hpa.
  assert (Hpn : placed None (heap (mem mq)) a <> None) by (rewrite Hpa; unfold place; by rewrite Hc).
  assert (Hho : handle_ok P (tables (mem mq)) InUse h').
  { destruct (place h) as [l|] eqn:El; [|by rewrite Hpa in Hpn]. pose proof (qo_handles _ _ _ Hq a h l Hh ltac:(by rewrite Hpa)) as [O1 O2 (t & T1 & T2 & T3 & _) O4 O5]. split; try done. by exists t. }
  assert (Hend : forall q', lists_ok (lrus_num_ P) q' (placed None (<[a := h']> (heap (mem mq)))) -> mq_ok (put (with_queues mq q') a h') ids (a :: held)).
  { intros q' Hl. split; [|apply Hm|].
    { apply (reput_ok None None mq q' a h h'); try done. intros l Hl'. rewrite placed_put, decide_True, Hp' in Hl' by done. by injection Hl' as <-. }
    apply (books_put mq _ ids held (a :: held) a h h'); try done; [apply Hm| |intros Hf; change (in_cache h = false) in Hf; congruence|intros b Hne; rewrite LRU.count_cons, decide_False by done; lia|].
    - cbn. lia.
    - rewrite LRU.count_cons, decide_True by done. cbn. rewrite Hc. lia. }
  unfold take_ref. rewrite Hc, andb_true_r. destruct (Z.eqb_spec (refs h) 1) as [E1|E1].
  - destruct (to_use (lrus_num_ P) mq _ (qo_lists _ _ _ Hq) (list_small P None mq Hq) a (queue_id (data h)) h) as (q' & Eq & Hl);
      [rewrite Hpa; unfold place; by rewrite Hc, E1|done|]. cbv zeta. rewrite Eq. cbn [mbind option_bind]. fold h'. exists (put (with_queues mq q') a h'), h'.
    split_and!; [done| |done|done|unfold handle; cbn; apply lookup_insert_eq|done]. apply Hend, Hl; [|by rewrite placed_put, decide_True].
    intros b Hne. by rewrite placed_put, decide_False.
  - cbn [mbind option_bind]. fold h'. exists (put mq a h'), h'. split_and!; [done| |done|done|unfold handle; cbn; apply lookup_insert_eq|done].
    replace (put mq a h') with (put (with_queues mq (queues mq)) a h') by (by destruct mq). apply Hend. destruct (qo_lists _ _ _ Hq) as [A1 A2 A3 A4 A5]. split; try done.
    intros l b. rewrite A1, placed_put. destruct (decide (b = a)) as [->|]; [|done]. rewrite Hpa, Hp'. unfold place. rewrite Hc, (proj2 (Z.eqb_neq _ _)) by lia. done.
Qed.

Lemma Ref_steps mq e h add : handle mq e = Some h ->
  Ref P mq e add = (mq ← take_ref mq e h;
    mq ← (if add then
            mq ← set_access mq (LRU.set_refs h (u32 (refs h + 1)));
            if current_time_ mq <? expire_time (data h) then RecomputeExp P mq e else Some mq
          else Some mq);
    h ← handle mq e;
    Some (put mq e (set_expire h (u64 (current_time_ mq + life_time_ P))))).
Proof. intros Hh. unfold Ref, take_ref. rewrite Hh. cbn [mbind option_bind]. match goal with |- ?X ≫= _ = _ => by destruct X end. Qed.

Lemma set_access_ok mq ids held a h : mq_ok mq ids held -> handle mq a = Some h -> place h = Some InUse -> 0 < value_id (data h) ->
  exists mq', set_access mq h = Some mq' /\ mq_ok mq' ids held /\ handle mq' a = Some h /\ current_time_ mq' = current_time_ mq.
Proof.
  intros Hm Hh Hp Hv. pose proof (mk_queue _ _ _ Hm) as Hq.
  pose proof (qo_handles _ _ _ Hq a h InUse Hh ltac:(by rewrite (placed_none _ _ _ Hh))) as Ho. pose proof Ho as [O1 O2 (t & T1 & T2 & T3 & _) O4 O5].
  destruct (rt_access_ok t (value_id (data h) - 1) T2 ltac:(lia)) as (t' & E & A1 & A2 & A3). unfold set_access. rewrite T1. cbn [mbind option_bind].
  rewrite (region_of P _ _ _ Ho), E. cbn [mbind option_bind]. eexists. split; [done|].
  destruct (put_table_ok None mq (q_value (data h)) t t' Hq T1 A1 A2) as [B1 B2]; [intros; by rewrite A3|].
  split_and!; [by apply (mq_ok_kept mq); [..|apply Hm]|done|done].
Qed.

Lemma Ref_ok mq ids held a h (add : bool) : mq_ok mq ids held -> a ∈ ids -> handle mq a = Some h -> zlen held + 1 < 2 ^ 31 -> (add = true -> 0 < value_id (data h)) ->
  exists mq', Ref P mq a add = Some mq' /\ mq_ok mq' ids (a :: held).
Proof.
  intros Hm Ha Hh Hsz Hadd. rewrite (Ref_steps mq a h add Hh).
  destruct (take_ref_ok mq ids held a h Hm Ha Hh Hsz) as (mq1 & h1 & -> & Hm1 & Ht1 & Eh1 & Hh1 & Hp1). cbn [mbind option_bind]. rewrite <- Eh1.
  assert (Hend : forall m, mq_ok m ids (a :: held) -> exists mq', (h ← handle m a; Some (put m a (set_expire h (u64 (current_time_ m + life_time_ P))))) = Some mq' /\ mq_ok mq' ids (a :: held)).
  { intros m Hmm. destruct (ids_handle m ids _ a Hmm Ha) as (hm & Hhm & Hcm). rewrite Hhm. cbn [mbind option_bind]. eexists. split; [done|].
    destruct (queue_put_ok P None m a hm (set_expire hm (u64 (current_time_ m + life_time_ P))) (mk_queue _ _ _ Hmm) Hhm eq_refl) as [A B].
    - rewrite (placed_none _ _ _ Hhm). unfold place. by rewrite Hcm.
    - rewrite placed_put, decide_True by done. by rewrite (placed_none _ _ _ Hhm).
    - intros l _ [O1 O2 O3 O4 O5]. by split.
    - by apply (mq_ok_kept m); [..|apply Hmm]. }
  destruct add; [|by apply Hend]. destruct (set_access_ok mq1 ids (a :: held) a h1 Hm1 Hh1 Hp1) as (mq2 & -> & Hm2 & Hh2 & Ht2); [rewrite Eh1; by apply Hadd|]. cbn [mbind option_bind].
  destruct (_ <? _); [|by apply Hend]. destruct (RecomputeExp_ok P HP mq2 a h1 (mk_queue _ _ _ Hm2) (mk_usage _ _ _ Hm2) Hh2 Hp1) as (mq3 & -> & A & B & D); [rewrite Eh1; by apply Hadd|].
  cbn [mbind option_bind]. apply Hend. by apply (mq_ok_kept mq2).
Qed.

(** The entry of a key, if it is cached. *)
Definition entry_of mq (ids : list nat) (k : bytes) (r : option nat) : Prop :=
  match r with
  | Some a => a ∈ ids /\ exists h, handle mq a = Some h /\ LRU.key h = k
  | None => forall a h, a ∈ ids -> handle mq a = Some h -> LRU.key h <> k
  end.

Lemma find_ok mq ids held k : mq_ok mq ids held -> exists r, LRU.ht_Lookup (heap (mem mq)) (table_ mq) k (Hash k 0) = Some r /\ entry_of mq ids k r.
Proof. intros Hm. exact (LRU.ht_Lookup_spec _ _ ids k (mk_hash _ _ _ Hm) (mk_ht _ _ _ Hm) (mk_unique _ _ _ Hm)). Qed.

Lemma queue_Lookup_ok mq ids held k (get : bool) : mq_ok mq ids held -> zlen held + 1 < 2 ^ 31 ->
  (get = true -> forall a h, a ∈ ids -> handle mq a = Some h -> LRU.key h = k -> 0 < value_id (data h)) ->
  exists r mq', Lookup P mq k get = Some (r, mq') /\ entry_of mq ids k r /\ mq_ok mq' ids (option_list r ++ held).
Proof.
  intros Hm Hsz Hget. unfold Lookup. destruct (find_ok mq ids held k Hm) as (r & -> & Hr). cbn [mbind option_bind]. destruct r as [a|]; [|by exists None, mq].
  destruct Hr as (Ha & h & Hh & Hk). destruct (Ref_ok mq ids held a h get Hm Ha Hh Hsz) as (mq' & -> & Hm'); [intros Hg; by apply (Hget Hg a h)|].
  cbn [mbind option_bind]. exists (Some a), mq'. split_and!; [done| |done]. split; [done|]. by exists h.
Qed.

Lemma SetFreCount_ok mq ids held k n : mq_ok mq ids held -> exists mq', SetFreCount P mq k n = Some mq' /\ mq_ok mq' ids held.
Proof.
  intros Hm. unfold SetFreCount. destruct (find_ok mq ids held k Hm) as (r & -> & Hr). cbn [mbind option_bind]. destruct r as [a|]; [|by exists mq].
  destruct Hr as (Ha & h & Hh & Hk). rewrite Hh. cbn [mbind option_bind]. pose proof (mk_queue _ _ _ Hm) as Hq. pose proof (proj1 (mk_ids _ _ _ Hm a h Hh) Ha) as Hc.
  pose proof (placed_none _ _ _ Hh : placed None (heap (mem mq)) a = place h) as Hpa.
  assert (exists l, place h = Some l) as [l Hl] by (unfold place; rewrite Hc; by eexists).
  pose proof (qo_handles _ _ _ Hq a h l Hh ltac:(by rewrite Hpa)) as Ho. destruct (FalsePositive_ok P HP mq l h Ho) as [fp ->]. cbn [mbind option_bind].
  eexists. split; [done|]. destruct (queue_put_ok P None mq a h (set_fre h n) Hq Hh eq_refl) as [A B].
  - by rewrite Hpa, Hl.
  - rewrite placed_put, decide_True by done. by rewrite Hpa.
  - intros l' _ [O1 O2 O3 O4 O5]. by split.
  - apply (mq_ok_kept mq); [done|destruct B; by split|by apply (queue_ok_same P None (put mq a (set_fre h n)))|apply Hm].
Qed.

(** ** Releases *)

Lemma count_give held held' a b : held ≡ₚ a :: held' -> LRU.count held b = (if decide (a = b) then 1 else 0) + LRU.count held' b.
Proof. intros Hp. rewrite <- LRU.count_cons. unfold LRU.count, zlen. by rewrite Hp. Qed.

(** A handle outside the cache is freed. *)
Definition freed mq (e : nat) (h : LRUQueueHandle) (x : spec_float) : MultiQueue T :=
  let m := mem mq in
  with_mem (with_exp mq x) (MkMemory (delete e (heap m)) (next_addr m)
    (deleted m ++ (if value_id (data h) =? 0 then [(take 8 (LRU.key h), q_value (data h))] else []))
    (if value_id (data h) =? 0 then delete (q_value (data h)) (tables m) else tables m)).

Lemma freed_ok mq ids held held' a h x : mq_ok mq ids held -> held ≡ₚ a :: held' -> handle mq a = Some h -> in_cache h = false -> refs h = 1 -> mq_ok (freed mq a h x) ids held'.
Proof.
  intros [[Q1 Q2 Q3 Q4 Q5 Q6] Mu Hb] Hp Hh Hc Hr. pose proof Hb as [M3 M4 M5 M6 M7 M8 M9 M10 M11 M12]. set (mq' := freed mq a h x).
  assert (Hai : a ∉ ids) by (rewrite (M6 a h Hh); congruence).
  assert (Hhd : forall b hb, handle mq' b = Some hb -> b <> a /\ handle mq b = Some hb) by (intros b hb Hb'; unfold handle in Hb'; cbn in Hb'; apply lookup_delete_Some in Hb' as [? ?]; done).
  assert (Hhd' : forall b, b <> a -> handle mq' b = handle mq b) by (intros b Hne; unfold handle; cbn; by apply lookup_delete_ne).
  assert (Hpl : forall b, placed None (heap (mem mq')) b = placed None (heap (mem mq)) b).
  { intros b. cbn. unfold placed. rewrite !decide_False by done. destruct (decide (b = a)) as [->|Hne]; [|by rewrite lookup_delete_ne].
    rewrite lookup_delete_eq. unfold handle in Hh. rewrite Hh. cbn. unfold place. by rewrite Hc. }
  assert (Hts : forall b hb, handle mq b = Some hb -> b <> a -> in_cache hb = true \/ value_id (data hb) = 0 -> tables (mem mq') !! q_value (data hb) = tables (mem mq) !! q_value (data hb)).
  { intros b hb Hb' Hne Hor. cbn. destruct (Z.eqb_spec (value_id (data h)) 0) as [Hz|]; [|done]. apply lookup_delete_ne. intros E. destruct Hor as [Hcb|Hzb].
    - by apply (M10 a h b hb).
    - apply Hne. by apply (M11 b hb a h). }
  assert (Hincache : forall b hb l, handle mq b = Some hb -> placed None (heap (mem mq)) b = Some l -> in_cache hb = true).
  { intros b hb l Hb' Hl. rewrite (placed_none _ _ _ Hb') in Hl. unfold place in Hl. by destruct (in_cache hb). }
  split; [split|done|split]; cbn [mq' freed with_mem with_exp mem heap tables next_addr table_ queues]; try done.
  - destruct Q1 as [A1 A2 A3 A4 A5]. split; try done. intros l b. rewrite A1. cbn in Hpl. by rewrite Hpl.
  - intros b hb l Hb' Hl. destruct (Hhd b hb Hb') as [Hne Hb0]. change (placed None (heap (mem mq')) b = Some l) in Hl. rewrite Hpl in Hl.
    destruct (Q2 b hb l Hb0 Hl) as [O1 O2 (t & T1 & T2) O4 O5]. split; try done. exists t. split; [|done]. rewrite <- T1. apply (Hts b hb Hb0 Hne). left. by apply (Hincache b hb l).
  - intros b c hb hc Hb' Hc' Hpb Hpc. destruct (Hhd b hb Hb') as [_ B]. destruct (Hhd c hc Hc') as [_ C']. apply (Q4 b c hb hc B C'); [rewrite <- Hpl; exact Hpb|rewrite <- Hpl; exact Hpc].
  - intros b [hb Hb']. apply Q5. destruct (Hhd b hb Hb') as [_ B]. by exists hb.
  - intros b hb Hb'. destruct (Hhd b hb Hb') as [_ B]. by apply (M3 b).
  - apply (LRU.ht_ok_ext (heap (mem mq))); [done|]. apply (LRU.same_elsewhere (heap (mem mq)) (delete a (heap (mem mq))) a ids); [done|]. intros b Hne. by apply lookup_delete_ne.
  - apply (LRU.unique_ext (heap (mem mq))); [done|apply (LRU.same_elsewhere (heap (mem mq)) (delete a (heap (mem mq))) a ids); [done|intros b Hne; by apply lookup_delete_ne]|].
    intros b Hb'. destruct (ids_handle mq ids held b Hb Hb') as (hb & Hhb & _). rewrite lookup_delete_ne by (intros ->; done). by exists hb.
  - intros b hb Hb'. destruct (Hhd b hb Hb') as [_ B]. by apply M6.
  - intros b. specialize (M7 b). rewrite (count_give held held' a b Hp) in M7. destruct (decide (a = b)) as [<-|Hne].
    + rewrite Hh, Hc, Hr in M7. unfold handle. cbn. rewrite lookup_delete_eq. lia.
    + rewrite Hhd' by done. lia.
  - intros b hb Hb'. destruct (Hhd b hb Hb') as [_ B]. by apply (M8 b).
  - intros b hb Hb'. destruct (Hhd b hb Hb') as [_ B]. by apply (M9 b).
  - intros b hb c hc Hb' Hc'. destruct (Hhd b hb Hb') as [_ B]. destruct (Hhd c hc Hc') as [_ C']. by apply (M10 b hb c hc).
  - intros b hb c hc Hb' Hc'. destruct (Hhd b hb Hb') as [_ B]. destruct (Hhd c hc Hc') as [_ C']. by apply (M11 b hb c hc).
  - intros b hb Hb' Hz. destruct (Hhd b hb Hb') as [Hne B]. change (is_Some (tables (mem mq') !! q_value (data hb))). rewrite (Hts b hb B Hne); [by apply (M12 b)|by right].
Qed.

Lemma drop_ref_ok mq ids held held' a h : mq_ok mq ids held -> held ≡ₚ a :: held' -> handle mq a = Some h -> 2 <= refs h -> (in_cache h = true -> 3 <= refs h) ->
  mq_ok (put mq a (LRU.set_refs h (refs h - 1))) ids held'.
Proof.
  intros Hm Hp Hh Hr Hc. set (h' := LRU.set_refs h (refs h - 1)). pose proof (mk_queue _ _ _ Hm) as Hq.
  pose proof (placed_none _ _ _ Hh : placed None (heap (mem mq)) a = place h) as Hpa.
  assert (Hpl : place h' = place h).
  { unfold place. cbn. destruct (in_cache h) eqn:E; [|done]. specialize (Hc eq_refl). rewrite !(proj2 (Z.eqb_neq _ _)) by lia. done. }
  split; [|apply Hm|].
  - replace (put mq a h') with (put (with_queues mq (queues mq)) a h') by (by destruct mq). apply (reput_ok None None mq (queues mq) a h h'); try done.
    + destruct (qo_lists _ _ _ Hq) as [A1 A2 A3 A4 A5]. split; try done. intros l b. rewrite A1, placed_put. destruct (decide (b = a)) as [->|]; [|done]. by rewrite Hpl, Hpa.
    + intros l Hl. rewrite placed_put, decide_True, Hpl in Hl by done. destruct (qo_handles _ _ _ Hq a h l Hh ltac:(by rewrite Hpa)) as [O1 O2 O3 O4 O5]. by split.
    + by rewrite placed_put, decide_True, Hpl, Hpa.
  - pose proof (mk_refs _ _ _ Hm a) as Hcnt. rewrite Hh, (count_give held held' a a Hp), decide_True in Hcnt by done.
    apply (books_put mq _ ids held held' a h h'); try done; [apply Hm|cbn; lia|intros E; by apply (mk_gone _ _ _ Hm a h)| |cbn; lia].
    intros b Hne. by rewrite (count_give held held' a b Hp), decide_False.
Qed.

(** A handle that has left the cache: at the last release it is freed, and the
    handle of a table calls the deleter. *)
Lemma Unref_gone mq ids held held' a h : mq_ok mq ids held -> held ≡ₚ a :: held' -> handle mq a = Some h -> in_cache h = false ->
  exists mq', Unref P mq a = Some mq' /\ mq_ok mq' ids held' /\
    deleted (mem mq') = deleted (mem mq) ++ (if (refs h =? 1) && (value_id (data h) =? 0) then [(take 8 (LRU.key h), q_value (data h))] else []) /\
    current_time_ mq' = current_time_ mq.
Proof.
  intros Hm Hp Hh Hc. pose proof (mk_pos _ _ _ Hm a h Hh) as Hpos. unfold Unref. rewrite Hh. cbn [mbind option_bind]. rewrite (proj2 (Z.ltb_lt _ _)) by lia. cbv zeta.
  change (refs (LRU.set_refs h (refs h - 1))) with (refs h - 1). change (in_cache (LRU.set_refs h (refs h - 1))) with (in_cache h). rewrite Hc. cbn [andb].
  destruct (Z.eqb_spec (refs h - 1) 0) as [E|E].
  - unfold deallocate. destruct (fps_at P HP (queue_id (data h))) as [f Hf]; [by apply (mk_gone _ _ _ Hm a)|].
    change (queue_id (data (LRU.set_refs h (refs h - 1)))) with (queue_id (data h)). rewrite Hf. cbn [mbind option_bind]. cbv zeta.
    change (value_id (data (LRU.set_refs h (refs h - 1)))) with (value_id (data h)). rewrite (proj2 (Z.eqb_eq (refs h) 1)) by lia. cbn [andb].
    assert (Hdel : delete a (<[a := LRU.set_refs h (refs h - 1)]> (heap (mem mq))) = delete a (heap (mem mq))) by apply delete_insert_eq.
    pose proof (freed_ok mq ids held held' a h) as Hfr. destruct (value_id (data h) =? 0) eqn:Ez; (eexists; split; [done|]); cbn; rewrite Hdel.
    + split_and!; [|done|done]. specialize (Hfr (fsub (expection_ mq) (weigh (fre_count (data h)) f)) Hm Hp Hh Hc ltac:(lia)). unfold freed in Hfr. by rewrite Ez in Hfr.
    + split_and!; [|by rewrite app_nil_r|done]. specialize (Hfr (fsub (expection_ mq) (weigh (fre_count (data h)) f)) Hm Hp Hh Hc ltac:(lia)). unfold freed in Hfr. rewrite Ez in Hfr. by rewrite app_nil_r in Hfr.
  - rewrite (proj2 (Z.eqb_neq (refs h) 1)) by lia. eexists. split; [done|]. cbn [andb]. rewrite app_nil_r. split_and!; [|done|done].
    apply (drop_ref_ok mq ids held held' a h); [done|done|done|lia|by rewrite Hc].
Qed.

(** The last client gives up a cached handle: until it is back on a queue the
    handle counts as in use. *)
Lemma begin_release mq ids held held' a h : mq_ok mq ids held -> held ≡ₚ a :: held' -> handle mq a = Some h -> in_cache h = true -> refs h = 2 ->
  let mq1 := put mq a (LRU.set_refs h 1) in queue_ok P (Some a) mq1 /\ books mq1 ids held'.
Proof.
  intros Hm Hp Hh Hc Hr mq1. set (h1 := LRU.set_refs h 1). pose proof (mk_queue _ _ _ Hm) as Hq.
  pose proof (placed_none _ _ _ Hh : placed None (heap (mem mq)) a = place h) as Hpa. assert (Hpl : place h = Some InUse) by (unfold place; by rewrite Hc, Hr).
  split.
  - replace mq1 with (put (with_queues mq (queues mq)) a h1) by (by destruct mq). apply (reput_ok None (Some a) mq (queues mq) a h h1); try done.
    + destruct (qo_lists _ _ _ Hq) as [A1 A2 A3 A4 A5]. split; try done. intros l b. rewrite A1, placed_insert. destruct (decide (Some a = Some b)) as [[= <-]|Hne]; [by rewrite Hpa, Hpl|].
      rewrite decide_False by congruence. unfold placed. by rewrite !decide_False by (try done; congruence).
    + intros b Hne. unfold placed. by rewrite !decide_False by (try done; congruence).
    + intros l Hl. rewrite placed_insert, decide_True in Hl by done. injection Hl as <-. destruct (qo_handles _ _ _ Hq a h InUse Hh ltac:(by rewrite Hpa)) as [O1 O2 O3 O4 O5]. by split.
    + intros _. by rewrite Hpa, Hpl.
    + by intros b [= <-].
  - pose proof (mk_refs _ _ _ Hm a) as Hcnt. rewrite Hh, Hc, Hr, (count_give held held' a a Hp), decide_True in Hcnt by done.
    apply (books_put mq _ ids held held' a h h1); try done; [apply Hm|intros E; change (in_cache h = false) in E; congruence| |cbn; rewrite Hc; lia].
    intros b Hne. by rewrite (count_give held held' a b Hp), decide_False.
Qed.

(** The region of the handle has the filters of its queue. *)
Definition settled mq h : Prop := 0 < value_id (data h) -> curr_num mq h = Some (queue_id (data h)).

Lemma placed_self a (m : gmap nat LRUQueueHandle) : placed (Some a) m a = Some InUse.
Proof. unfold placed. by rewrite decide_True. Qed.

Lemma settle_ok mq a h : queue_ok P (Some a) mq -> handle mq a = Some h -> usage_ mq = u64 (usage_ mq) ->
  exists g mq' h', settle P mq a h = Some (g, mq') /\ queue_ok P (Some a) mq' /\ kept (Some a) mq mq' /\ handle mq' a = Some h' /\ core h' = core h /\
    settled mq' h' /\ usage_ mq' = u64 (usage_ mq').
Proof.
  intros Hq Hh Hu. pose proof (placed_self a (heap (mem mq))) as Hpa. pose proof (qo_handles _ _ _ Hq a h InUse Hh Hpa) as Ho. pose proof Ho as [O1 O2 (t & T1 & T2 & T3 & _) O4 O5].
  unfold settle. destruct (Z.ltb_spec 0 (value_id (data h))) as [Hv|Hv].
  2:{ exists false, mq, h. split_and!; [done|done|apply queue_kept_refl|done|done|intros ?; lia|done]. }
  rewrite (O5 Hv). cbn [andb]. destruct (curr_num_ok P HP _ mq InUse h eq_refl Ho) as (n & En & Hn). rewrite En. cbn [mbind option_bind]. pose proof (po_num _ HP).
  assert (En' : rt_num t (value_id (data h) - 1) = Some n) by (unfold curr_num in En; rewrite T1 in En; cbn in En; by rewrite (region_of P _ _ _ Ho) in En).
  destruct (Z.ltb_spec n (queue_id (data h))) as [Hlt|Hge]; [|destruct (Z.ltb_spec (queue_id (data h)) n) as [Hgt|Heq]].
  - destruct (rt_adjust_ok t (value_id (data h) - 1) n (queue_id (data h)) T2 ltac:(lia) En' ltac:(lia)) as (d & t' & Ea & A1 & A2 & A3 & A4).
    unfold adjust_filters. rewrite T1. cbn [mbind option_bind]. rewrite (region_of P _ _ _ Ho), Ea. cbn [mbind option_bind].
    destruct (put_table_ok (Some a) mq (q_value (data h)) t t' Hq T1 A1 A2) as [B1 B2].
    { intros b hb k Hb Hpb Hk Eqv En2. pose proof (qo_handles _ _ _ Hq b hb _ Hb Hpb) as [_ V (tb & V1 & _ & V2 & _) _ _]. rewrite Eqv, T1 in V1. injection V1 as <-.
      rewrite A4; [done|lia|]. intros Eqr. assert (b = a) as ->; [|congruence]. apply (qo_distinct _ _ _ Hq b a hb h Hb Hh); [congruence|congruence|done|lia]. }
    set (mq1 := put_table mq (q_value (data h)) t') in *. set (h' := with_charge h (u64 (charge h + d))).
    destruct (queue_put_ok P (Some a) mq1 a h h' B1 Hh eq_refl) as [D1 D2]; [by rewrite placed_self|by rewrite !placed_self|intros l _ [P1 P2 P3 P4 P5]; by split|].
    eexists true, _, h'. split; [done|]. split_and!.
    + by apply (queue_ok_same P (Some a) (put mq1 a h')).
    + apply (queue_kept_trans (Some a) mq (put mq1 a h')); [by apply (queue_kept_trans (Some a) mq mq1)|by split].
    + unfold handle. cbn. apply lookup_insert_eq.
    + done.
    + intros _. unfold curr_num. cbn. rewrite lookup_insert_eq. cbn. unfold region. cbn. change (i32 (value_id (data h) - 1)) with (region h). by rewrite (region_of P _ _ _ Ho).
    + cbn. unfold u64. by rewrite Zmod_mod.
  - assert (Eu : u16 n = n) by (unfold u16; apply Z.mod_small; lia). rewrite Eu. destruct (at_Some (bits_per_key_per_filter_sum P) n) as [d ->]; [rewrite (po_sums _ HP); lia|].
    cbn [mbind option_bind]. set (h' := with_charge (set_queue h n) d).
    destruct (queue_put_ok P (Some a) mq a h h' Hq Hh eq_refl) as [D1 D2]; [by rewrite Hpa|by rewrite !placed_self|intros l _ [P1 P2 P3 P4 P5]; split; cbn; try done; lia|].
    eexists true, _, h'. split; [done|]. split_and!.
    + by apply (queue_ok_same P (Some a) (put mq a h')).
    + apply (queue_kept_trans (Some a) mq (put mq a h')); [done|by split].
    + unfold handle. cbn. apply lookup_insert_eq.
    + done.
    + intros _. exact En.
    + cbn. unfold u64. by rewrite Zmod_mod.
  - exists false, mq, h. split_and!; [done|done|apply queue_kept_refl|done|done| |done]. intros _. rewrite En. f_equal. lia.
Qed.

Lemma requeue_ok mq ids held a h : queue_ok P (Some a) mq -> books mq ids held -> usage_ mq = u64 (usage_ mq) -> handle mq a = Some h -> in_cache h = true -> refs h = 1 -> settled mq h ->
  exists mq', requeue mq a = Some mq' /\ mq_ok mq' ids held.
Proof.
  intros Hq Hb Hu Hh Hc Hr Hs. pose proof (placed_self a (heap (mem mq))) as Hpa. pose proof (qo_handles _ _ _ Hq a h InUse Hh Hpa) as Ho. pose proof Ho as [O1 O2 (t & T1 & T2 & T3 & _) O4 O5].
  set (k := queue_id (data h)) in *. set (h' := set_queue h k).
  assert (Hpl : place h' = Some (Lru k)) by (unfold place; cbn; by rewrite Hc, Hr).
  destruct (to_queue (lrus_num_ P) mq _ (qo_lists _ _ _ Hq) (list_small P _ mq Hq) a k h (or_introl Hpa) Hh O1) as (q' & E & Hl).
  unfold requeue. rewrite Hh. cbn [mbind option_bind]. fold k. rewrite E. eexists. split; [done|]. fold h'. split; [|done|].
  - apply (reput_ok (Some a) None mq q' a h h'); try done.
    + apply Hl; [|by rewrite placed_put, decide_True]. intros b Hne. rewrite placed_put, decide_False by done. unfold placed. by rewrite !decide_False by (try done; congruence).
    + intros b Hne. unfold placed. by rewrite !decide_False by (try done; congruence).
    + intros l Hl'. rewrite placed_put, decide_True, Hpl in Hl' by done. injection Hl' as <-. split; try done. cbn. exists t. split_and!; [done|done|done|].
      intros j [= <-] Hj. assert (0 < value_id (data h)) as Hv by (destruct (decide (value_id (data h) = 0)) as [Hz|]; [specialize (O4 Hz)|]; lia).
      specialize (Hs Hv). unfold curr_num in Hs. rewrite T1 in Hs. cbn in Hs. by rewrite (region_of P _ _ _ Ho) in Hs.
    + by rewrite Hpa.
  - apply (books_put mq _ ids held held a h h'); try done; [change (refs h') with (refs h); lia|]. rewrite (mk_refs _ _ _ Hb a), Hh. done.
Qed.

(** The release makes the usage grow and then spins. *)
Definition release_spins mq (a : nat) : bool :=
  match handle mq a with
  | Some h =>
      in_cache h && (refs h =? 2) &&
      match settle P (put mq a (LRU.set_refs h 1)) a (LRU.set_refs h 1) with Some (true, m) => spins P m | _ => false end
  | None => false
  end.

Lemma queue_Release_ok mq ids held held' a : mq_ok mq ids held -> held ≡ₚ a :: held' ->
  if release_spins mq a then Release P mq a = None else exists mq', Release P mq a = Some mq' /\ mq_ok mq' ids held'.
Proof.
  intros Hm Hp. pose proof (mk_refs _ _ _ Hm a) as Hcnt. rewrite (count_give held held' a a Hp), decide_True in Hcnt by done. pose proof (LRU.count_nonneg held' a).
  unfold release_spins, Release. destruct (handle mq a) as [h|] eqn:Hh; [|lia]. destruct (in_cache h) eqn:Hc; cbn [andb].
  2:{ destruct (Unref_gone mq ids held held' a h Hm Hp Hh Hc) as (mq' & E & H' & _). by exists mq'. }
  unfold Unref. rewrite Hh. cbn [mbind option_bind]. rewrite (proj2 (Z.ltb_lt _ _)) by lia. cbv zeta.
  change (refs (LRU.set_refs h (refs h - 1))) with (refs h - 1). change (in_cache (LRU.set_refs h (refs h - 1))) with (in_cache h). rewrite Hc. cbn [andb].
  rewrite (proj2 (Z.eqb_neq (refs h - 1) 0)) by lia. destruct (Z.eqb_spec (refs h) 2) as [E2|E2].
  - rewrite E2. cbn [Z.sub Z.add Z.opp Z.pos_sub Z.eqb Pos.eqb]. change (2 - 1) with 1. cbn [Z.eqb Pos.eqb]. destruct (begin_release mq ids held held' a h Hm Hp Hh Hc E2) as [Hq1 Hb1]. cbv zeta in Hq1, Hb1.
    set (h1 := LRU.set_refs h 1) in *. set (mq1 := put mq a h1) in *. assert (Hh1 : handle mq1 a = Some h1) by (unfold handle; cbn; apply lookup_insert_eq).
    destruct (settle_ok mq1 a h1 Hq1 Hh1 ltac:(apply Hm)) as (g & mq2 & h2 & -> & A1 & A2 & A3 & A4 & A5 & A6). cbn [mbind option_bind]. pose proof A4 as [= C1 C2 C3 C4 C5 C6 C7].
    assert (Hb2 : books mq2 ids held') by (apply (books_kept (Some a) mq1); [done..|]; intros b hb [= <-] Hb'; rewrite Hh1 in Hb'; by injection Hb' as <-).
    destruct g; [|cbn [mbind option_bind]; apply (requeue_ok mq2 ids held' a h2); try done; by rewrite C3].
    pose proof (MayBeShrinkUsage_ok P HP (Some a) mq2 A1 A6) as Hs. destruct (spins P mq2); [by rewrite Hs|]. destruct Hs as (mq3 & -> & B1 & B2 & B3 & _). cbn [mbind option_bind].
    pose proof (placed_self a (heap (mem mq2))) as Hpa. apply (requeue_ok mq3 ids held' a h2); try done; [|rewrite (fr_off _ _ _ B2 a _ Hpa); [done|by right]|by rewrite C3|].
    + apply (books_kept (Some a) mq2); [done|apply B2|]. intros b hb [= <-] Hb'. rewrite A3 in Hb'. injection Hb' as <-. by rewrite C3.
    + intros Hv. rewrite (fr_count _ _ _ B2 a h2 A3 Hpa). by apply A5.
  - rewrite (proj2 (Z.eqb_neq (refs h - 1) 1)) by lia. cbn [andb]. eexists. split; [done|]. apply (drop_ref_ok mq ids held held' a h); [done|done|done|lia|lia].
Qed.

(** ** Removal *)

Lemma ids_small mq ids held : mq_ok mq ids held -> zlen ids <= Z.of_nat (next_addr (mem mq)).
Proof.
  intros Hm. apply bounded_length; [apply (mk_unique _ _ _ Hm)|]. intros a Ha. destruct (ids_handle mq ids held a Hm Ha) as (h & Hh & _).
  apply (qo_fresh _ _ _ (mk_queue _ _ _ Hm)). by exists h.
Qed.

(** The handle leaves the cache; the cache's reference is the caller's. *)
Lemma uncache_ok mq mq1 ids ids' held a h t q' : mq_ok mq ids held -> handle mq a = Some h -> ids ≡ₚ a :: ids' -> LRU.ht_ok (heap (mem mq)) t ids' ->
  (value_id (data h) = 0 -> forall b hb, b ∈ ids' -> handle mq b = Some hb -> q_value (data hb) <> q_value (data h)) ->
  (forall pl', (forall b, b <> a -> pl' b = placed None (heap (mem mq)) b) -> pl' a = None -> lists_ok (lrus_num_ P) q' pl') ->
  mq1 = with_usage (put (with_queues (with_table mq t) q') a (LRU.set_in_cache h false)) (u64 (usage_ mq - charge h)) -> mq_ok mq1 ids' (a :: held).
Proof.
  intros Hm Hh Hp Ht Hdead Hl ->. set (h' := LRU.set_in_cache h false). pose proof (mk_queue _ _ _ Hm) as Hq. pose proof (mk_books _ _ _ Hm) as [M3 M4 M5 M6 M7 M8 M9 M10 M11 M12].
  assert (Ha : a ∈ ids) by (rewrite Hp; by left). pose proof (proj1 (M6 a h Hh) Ha) as Hc. pose proof (LRU.unique_sub _ _ _ _ M5 Hp) as Hu'.
  assert (Hna : a ∉ ids') by (destruct M5 as [Hnd _]; rewrite Hp in Hnd; by apply NoDup_cons in Hnd as [? _]).
  set (mq1 := with_usage _ _). assert (Hhd : forall b, b <> a -> handle mq1 b = handle mq b) by (intros b Hne; unfold handle; cbn; by apply lookup_insert_ne).
  assert (Hha : handle mq1 a = Some h') by (unfold handle; cbn; apply lookup_insert_eq).
  assert (Hback : forall b hb', handle mq1 b = Some hb' -> exists hb, handle mq b = Some hb /\ LRU.key hb' = LRU.key hb /\ LRU.hash hb' = LRU.hash hb /\ refs hb' = refs hb /\
    data hb' = data hb /\ (in_cache hb' = true -> b <> a /\ in_cache hb = true)).
  { intros b hb' Hb. destruct (decide (b = a)) as [->|Hne]; [rewrite Hha in Hb; injection Hb as <-; exists h; by split_and!|]. rewrite Hhd in Hb by done. exists hb'. by split_and!. }
  destruct (LRU.same_elsewhere (heap (mem mq)) (heap (mem mq1)) a ids' Hna) as [S1 S2]; [intros b Hne; by apply lookup_insert_ne|].
  split.
  - apply (queue_ok_same P None (put (with_queues mq q') a h')); [done|done|]. apply (reput_ok None None mq q' a h h'); try done.
    + apply Hl; [intros b Hne; by rewrite placed_put, decide_False|by rewrite placed_put, decide_True].
    + intros l Hl'. by rewrite placed_put, decide_True in Hl'.
    + by rewrite placed_put, decide_True.
  - cbn. unfold u64. by rewrite Zmod_mod.
  - split.
    + intros b hb' Hb. destruct (Hback b hb' Hb) as (hb & Hhb & -> & -> & _). by apply (M3 b).
    + by apply (LRU.ht_ok_ext (heap (mem mq))).
    + apply (LRU.unique_ext (heap (mem mq))); [done|done|]. intros b Hb. change (is_Some (handle mq1 b)). rewrite Hhd by (intros ->; done).
      destruct (ids_handle mq ids held b Hm) as (hb & Hhb & _); [rewrite Hp; by right|]. by exists hb.
    + intros b hb Hb. destruct (decide (b = a)) as [->|Hne]; [rewrite Hha in Hb; injection Hb as <-; by split|]. rewrite Hhd in Hb by done. rewrite <- (M6 b hb Hb), Hp, elem_of_cons. naive_solver.
    + intros b. rewrite LRU.count_cons, M7. destruct (decide (a = b)) as [<-|Hne]; [rewrite Hha, Hh, Hc; cbn; lia|by rewrite Hhd].
    + intros b hb' Hb. destruct (Hback b hb' Hb) as (hb & Hhb & _ & _ & -> & _). by apply (M8 b).
    + intros b hb' Hb Hcb. destruct (decide (b = a)) as [->|Hne]; [|rewrite Hhd in Hb by done; by apply (M9 b)]. rewrite Hha in Hb. injection Hb as <-. cbn.
      pose proof (placed_none _ _ _ Hh : placed None (heap (mem mq)) a = place h) as Hpa. assert (exists l, place h = Some l) as [l El] by (unfold place; rewrite Hc; by eexists).
      apply (qo_handles _ _ _ Hq a h l Hh). by rewrite Hpa.
    + intros b hb' c hc' Hb Hc' Hcb Hcc. destruct (Hback b hb' Hb) as (hb & Hhb & _ & _ & _ & -> & _). destruct (Hback c hc' Hc') as (hc & Hhc & _ & _ & _ & -> & Hin). destruct (Hin Hcc) as [Hne Hcc'].
      intros Hz. destruct (decide (b = a)) as [->|Hnb].
      * rewrite Hh in Hhb. injection Hhb as <-. apply (Hdead Hz c hc); [|done]. apply (M6 c hc Hhc) in Hcc'. rewrite Hp in Hcc'. by apply elem_of_cons in Hcc' as [?|?].
      * rewrite Hhd, Hhb in Hb by done. injection Hb as <-. by apply (M10 b hb c hc).
    + intros b hb' c hc' Hb Hc'. destruct (Hback b hb' Hb) as (hb & Hhb & _ & _ & _ & -> & _). destruct (Hback c hc' Hc') as (hc & Hhc & _ & _ & _ & -> & _). by apply (M11 b hb c hc).
    + intros b hb' Hb. destruct (Hback b hb' Hb) as (hb & Hhb & _ & _ & _ & -> & _). by apply (M12 b).
Qed.

(** The handles of a table go before the table's own. *)
Definition erasable mq (ids : list nat) (k : bytes) : Prop :=
  forall a h b hb, a ∈ ids -> handle mq a = Some h -> LRU.key h = k -> value_id (data h) = 0 -> b ∈ ids -> handle mq b = Some hb -> q_value (data hb) = q_value (data h) -> b = a.

Lemma queue_Erase_ok mq ids held k : mq_ok mq ids held -> erasable mq ids k ->
  exists mq' ids', Erase P mq k = Some mq' /\ mq_ok mq' ids' held /\
    (ids' = ids /\ (forall a h, a ∈ ids -> handle mq a = Some h -> LRU.key h <> k) \/ exists a h, ids ≡ₚ a :: ids' /\ handle mq a = Some h /\ LRU.key h = k).
Proof.
  intros Hm He. pose proof (mk_queue _ _ _ Hm) as Hq. pose proof (ids_small mq ids held Hm) as Hsz. pose proof (qo_small _ _ _ Hq). unfold Erase.
  destruct (LRU.ht_Remove_spec (heap (mem mq)) (table_ mq) ids k (mk_hash _ _ _ Hm) (mk_ht _ _ _ Hm) (mk_unique _ _ _ Hm) ltac:(lia)) as (r & t & -> & Hr). cbn [mbind option_bind].
  destruct r as [a|]; [|destruct Hr as [-> Hno]; exists mq, ids; cbn; split_and!; [by destruct mq|done|left; by split]].
  destruct Hr as (ids' & Hp & Ht & h & Hh & Hk). change (handle mq a = Some h) in Hh. assert (Ha : a ∈ ids) by (rewrite Hp; by left). pose proof (proj1 (mk_ids _ _ _ Hm a h Hh) Ha) as Hc.
  pose proof (placed_none _ _ _ Hh : placed None (heap (mem mq)) a = place h) as Hpa. assert (exists l, place h = Some l) as [l El] by (unfold place; rewrite Hc; by eexists).
  destruct (take_off (lrus_num_ P) (with_table mq t) _ (qo_lists _ _ _ Hq) (list_small P None mq Hq) a l h) as (q' & Eq & Hl); [by rewrite Hpa|done|done|].
  unfold FinishErase. change (handle (with_table mq t) a) with (handle mq a). rewrite Hh. cbn [mbind option_bind]. rewrite Hc. cbv zeta in Eq |- *. rewrite Eq. cbn [mbind option_bind].
  set (mq1 := with_usage _ _).
  assert (Hm1 : mq_ok mq1 ids' (a :: held)).
  { apply (uncache_ok mq mq1 ids ids' held a h t q' Hm Hh Hp Ht); [|done|done]. intros Hz b hb Hb Hhb E. assert (b = a) as ->; [apply (He a h b hb); try done; rewrite Hp; by right|].
    destruct (mk_unique _ _ _ Hm) as [Hnd _]. rewrite Hp in Hnd. by apply NoDup_cons in Hnd as [? _]. }
  destruct (Unref_gone mq1 ids' (a :: held) held a (LRU.set_in_cache h false) Hm1) as (mq2 & -> & Hm2 & _); [done|unfold handle; cbn; apply lookup_insert_eq|done|].
  cbn [mbind option_bind]. exists mq2, ids'. split_and!; [done|done|]. right. by exists a, h.
Qed.

(** ** Insertion *)

(** A new table in memory. *)
Lemma new_table_ok mq ids held p t : mq_ok mq ids held -> tables (mem mq) !! p = None -> mq_ok (put_table mq p t) ids held.
Proof.
  intros Hm Hp. pose proof (mk_queue _ _ _ Hm) as [Q1 Q2 Q3 Q4 Q5 Q6]. apply (mq_ok_kept mq); [done|split; try done| |apply Hm].
  - intros p' Hp'. cbn. by rewrite lookup_insert_ne by (intros ->; rewrite Hp in Hp'; by destruct Hp').
  - split; try done. intros a h l Ha Hl. destruct (Q2 a h l Ha Hl) as [O1 O2 (t0 & T1 & T2) O4 O5]. split; try done. exists t0. split; [|done].
    cbn. rewrite lookup_insert_ne; [done|]. intros ->. congruence.
Qed.

Definition new_handle mq (k : bytes) (p ch n : Z) : LRUQueueHandle :=
  LRU.MkLRUHandle (MkQueueData p 0 (u64 (current_time_ mq + life_time_ P)) (u16 n) true (DecodeFixed32 (drop 8 k)) 0 None None None) ch k (Hash k 0) false 1.

Definition allocated mq (k : bytes) (p ch n : Z) : MultiQueue T :=
  let e := next_addr (mem mq) in
  let m := mem mq in
  with_flags (with_mem mq (MkMemory (<[e := new_handle mq k p ch n]> (heap m)) (S e) (deleted m) (tables m)))
    (multi_queue_init mq) (need_adjust mq) (current_time_ mq) (i32 (insert_count mq + 1)) (last_id_ mq).

(** The new handle is the caller's until it is in the cache. *)
Lemma allocated_ok mq ids held k p ch n : mq_ok mq ids held -> is_Some (tables (mem mq) !! p) -> 0 <= n < lrus_num_ P -> Z.of_nat (next_addr (mem mq)) + 1 < 2 ^ 32 ->
  (DecodeFixed32 (drop 8 k) = 0 -> forall b hb, handle mq b = Some hb -> in_cache hb = true \/ value_id (data hb) = 0 -> q_value (data hb) <> p) ->
  mq_ok (allocated mq k p ch n) ids (next_addr (mem mq) :: held).
Proof.
  intros Hm Hp Hn Hsz Hz. pose proof (mk_queue _ _ _ Hm) as [Q1 Q2 Q3 Q4 Q5 Q6]. pose proof (mk_books _ _ _ Hm) as [M3 M4 M5 M6 M7 M8 M9 M10 M11 M12]. pose proof (po_num _ HP).
  set (e := next_addr (mem mq)). set (h := new_handle mq k p ch n). set (mq' := allocated mq k p ch n).
  assert (He : handle mq e = None) by (destruct (handle mq e) as [he|] eqn:E; [|done]; specialize (Q5 e ltac:(by exists he)); subst e; lia).
  assert (Hei : e ∉ ids) by (intros Hin; destruct (ids_handle mq ids held e Hm Hin) as (he & Hhe & _); congruence).
  assert (Hhd : forall b, b <> e -> handle mq' b = handle mq b) by (intros b Hne; unfold handle; cbn; by apply lookup_insert_ne).
  assert (Hhe : handle mq' e = Some h) by (unfold handle; cbn; apply lookup_insert_eq).
  assert (Hpl : forall b, placed None (heap (mem mq')) b = placed None (heap (mem mq)) b).
  { intros b. cbn. rewrite placed_put. destruct (decide (b = next_addr (mem mq))) as [->|]; [|done]. unfold placed. rewrite decide_False by done. fold e. unfold handle in He. by rewrite He. }
  assert (Hlook : forall b hb, handle mq' b = Some hb -> (b = e /\ hb = h) \/ (b <> e /\ handle mq b = Some hb)).
  { intros b hb Hb. destruct (decide (b = e)) as [->|Hne]; [left; split; [done|congruence]|right; split; [done|]]. by rewrite Hhd in Hb. }
  assert (Eq : queue_id (data h) = n) by (cbn; unfold u16; apply Z.mod_small; lia).
  destruct (LRU.same_elsewhere (heap (mem mq)) (heap (mem mq')) e ids Hei) as [S1 S2]; [intros b Hne; by apply lookup_insert_ne|].
  assert (Hpn : forall b hb, handle mq' b = Some hb -> placed None (heap (mem mq')) b <> None -> handle mq b = Some hb /\ placed None (heap (mem mq)) b <> None).
  { intros b hb Hb Hp'. destruct (Hlook b hb Hb) as [[-> ->]|[_ Hb']]; [|split; [done|by rewrite <- Hpl]]. destruct Hp'. rewrite (placed_none _ _ _ Hhe). done. }
  split; [split|apply Hm|split].
  - destruct Q1 as [A1 A2 A3 A4 A5]. split; try done. intros l b. rewrite Hpl. apply A1.
  - intros b hb l Hb Hl. destruct (Hpn b hb Hb ltac:(congruence)) as [Hb' _]. rewrite Hpl in Hl. by apply (Q2 b).
  - done.
  - intros b c hb hc Hb Hc Hpb Hpc. destruct (Hpn b hb Hb Hpb) as [B1 B2]. destruct (Hpn c hc Hc Hpc) as [C1 C2]. by apply (Q4 b c hb hc).
  - intros b [hb Hb]. cbn. destruct (Hlook b hb Hb) as [[-> _]|[_ Hb']]; [subst e; lia|]. specialize (Q5 b ltac:(by exists hb)). lia.
  - cbn. lia.
  - intros b hb Hb. destruct (Hlook b hb Hb) as [[-> ->]|[_ Hb']]; [done|by apply (M3 b)].
  - by apply (LRU.ht_ok_ext (heap (mem mq))).
  - apply (LRU.unique_ext (heap (mem mq))); [done|done|]. intros b Hb. destruct (ids_handle mq ids held b Hm Hb) as (hb & Hhb & _). change (is_Some (handle mq' b)).
    rewrite Hhd by (intros ->; done). by exists hb.
  - intros b hb Hb. destruct (Hlook b hb Hb) as [[-> ->]|[_ Hb']]; [by split|by apply M6].
  - intros b. rewrite LRU.count_cons, M7. destruct (decide (e = b)) as [<-|Hne]; [rewrite Hhe, He; done|by rewrite Hhd].
  - intros b hb Hb. destruct (Hlook b hb Hb) as [[-> ->]|[_ Hb']]; [done|by apply (M8 b)].
  - intros b hb Hb Hc. destruct (Hlook b hb Hb) as [[-> ->]|[_ Hb']]; [by rewrite Eq|by apply (M9 b)].
  - intros b hb c hc Hb Hc Hcb Hcc Hzb. destruct (Hlook b hb Hb) as [[-> ->]|[_ Hb']], (Hlook c hc Hc) as [[-> ->]|[_ Hc']]; try done.
    + apply (Hz Hzb c hc Hc'). by left.
    + by apply (M10 b hb c hc).
  - intros b hb c hc Hb Hc Hzb Hzc Ev. destruct (Hlook b hb Hb) as [[-> ->]|[_ Hb']], (Hlook c hc Hc) as [[-> ->]|[_ Hc']]; [done| | |by apply (M11 b hb c hc)].
    + exfalso. apply (Hz Hzb c hc Hc'); [by right|done].
    + exfalso. apply (Hz Hzc b hb Hb'); [by right|done].
  - intros b hb Hb Hzb. destruct (Hlook b hb Hb) as [[-> ->]|[_ Hb']]; [done|by apply (M12 b)].
Qed.

(** The handle [e] enters the cache as [h']. *)
Lemma cached_ok mq mq1 ids held held' e h h' l : mq_ok mq ids held -> handle mq e = Some h -> in_cache h = false ->
  in_cache h' = true -> LRU.key h' = LRU.key h -> LRU.hash h' = LRU.hash h -> q_value (data h') = q_value (data h) -> value_id (data h') = value_id (data h) ->
  place h' = Some l -> handle_ok P (tables (mem mq)) l h' -> lists_ok (lrus_num_ P) (queues mq1) (placed None (<[e := h']> (heap (mem mq)))) ->
  (forall b hb, b ∈ ids -> handle mq b = Some hb -> LRU.key hb <> LRU.key h /\ (q_value (data hb) = q_value (data h) -> value_id (data hb) <> value_id (data h))) ->
  (forall b hb, handle mq b = Some hb -> b <> e -> in_cache hb = false -> value_id (data hb) = 0 -> q_value (data hb) <> q_value (data h)) ->
  LRU.count held' e = refs h' - 1 -> (forall b, b <> e -> LRU.count held' b = LRU.count held b) -> 1 <= refs h' -> Z.of_nat (next_addr (mem mq)) < 2 ^ 31 - 1 ->
  mem mq1 = MkMemory (<[e := h']> (heap (mem mq))) (next_addr (mem mq)) (deleted (mem mq)) (tables (mem mq)) -> table_ mq1 = table_ mq -> usage_ mq1 = u64 (usage_ mq1) ->
  exists mq', enter P mq1 e = Some mq' /\ mq_ok mq' (e :: ids) held' /\ usage_ mq' = usage_ mq1.
Proof.
  intros Hm Hh Hc Hc' C1 C2 C4 C5 Hpl Hho Hl Hno Hdead Hcnt Hoth Hpos Hsz Em Et Hu. pose proof (mk_queue _ _ _ Hm) as [Q1 Q2 Q3 Q4 Q5 Q6].
  pose proof (mk_books _ _ _ Hm) as [M3 M4 M5 M6 M7 M8 M9 M10 M11 M12]. pose proof (ids_small mq ids held Hm).
  assert (Hei : e ∉ ids) by (rewrite (M6 e h Hh); congruence).
  assert (Hhd : forall b, b <> e -> handle mq1 b = handle mq b) by (intros b Hne; unfold handle; rewrite Em; by apply lookup_insert_ne).
  assert (Hhe : handle mq1 e = Some h') by (unfold handle; rewrite Em; apply lookup_insert_eq).
  assert (Hlook : forall b hb, handle mq1 b = Some hb -> (b = e /\ hb = h') \/ (b <> e /\ handle mq b = Some hb)).
  { intros b hb Hb. destruct (decide (b = e)) as [->|Hne]; [left; split; [done|congruence]|right; split; [done|]]. by rewrite Hhd in Hb. }
  destruct (LRU.same_elsewhere (heap (mem mq)) (heap (mem mq1)) e ids Hei) as [S1 S2]; [intros b Hne; by apply Hhd|].
  assert (Hheap : LRU.heap_ok (heap (mem mq1))) by (intros b hb Hb; destruct (Hlook b hb Hb) as [[-> ->]|[_ Hb']]; [rewrite C1, C2; by apply (M3 e)|by apply (M3 b)]).
  assert (Hht : LRU.ht_ok (heap (mem mq1)) (table_ mq1) ids) by (rewrite Et; by apply (LRU.ht_ok_ext (heap (mem mq)))).
  assert (Hin1 : forall b, b ∈ ids -> is_Some (heap (mem mq1) !! b)).
  { intros b Hb. destruct (ids_handle mq ids held b Hm Hb) as (hb & Hhb & _). change (is_Some (handle mq1 b)). rewrite Hhd by (intros ->; done). by exists hb. }
  assert (Huq : LRU.unique_keys (heap (mem mq1)) ids) by (by apply (LRU.unique_ext (heap (mem mq)))).
  assert (Hkeys : forall b hb, b ∈ ids -> handle mq1 b = Some hb -> LRU.key hb <> LRU.key h' /\ (q_value (data hb) = q_value (data h) -> value_id (data hb) <> value_id (data h))).
  { intros b hb Hb Hhb. rewrite C1. apply (Hno b hb Hb). destruct (Hlook b hb Hhb) as [[-> _]|[_ ?]]; done. }
  unfold enter. destruct (LRU.ht_Insert_spec 131072 (heap (mem mq1)) (table_ mq1) ids e h' ltac:(by exists 17) Hheap Hht Huq Hhe ltac:(lia)) as (old & t & -> & Hold). cbn [mbind option_bind].
  destruct old as [o|].
  { destruct Hold as (ids' & Hp' & _ & ho & Hho' & Ek). exfalso. destruct (Hkeys o ho) as [Hk _]; [rewrite Hp'; by left|done|]. done. }
  destruct Hold as [Ht _]. cbn [FinishErase mbind option_bind]. eexists. split; [done|]. split; [|done]. set (mq' := with_table mq1 t).
  assert (Hplh : forall b, placed None (heap (mem mq')) b = if decide (b = e) then Some l else placed None (heap (mem mq)) b).
  { intros b. cbn. rewrite Em. cbn. rewrite placed_put. by rewrite Hpl. }
  split; [split|done|split].
  - cbn. by rewrite Em.
  - intros b hb l' Hb Hl'. rewrite Hplh in Hl'. cbn. rewrite Em. cbn. destruct (Hlook b hb Hb) as [[-> ->]|[Hne Hb']].
    + rewrite decide_True in Hl' by done. by injection Hl' as <-.
    + rewrite decide_False in Hl' by done. by apply (Q2 b).
  - done.
  - intros b c hb hc Hb Hc0 Hpb Hpc Ev Ei. rewrite Hplh in Hpb, Hpc.
    assert (Hincache : forall b hb, handle mq b = Some hb -> placed None (heap (mem mq)) b <> None -> b ∈ ids).
    { intros b0 hb0 Hb0 Hp0. apply (M6 b0 hb0 Hb0). rewrite (placed_none _ _ _ Hb0) in Hp0. unfold place in Hp0. by destruct (in_cache hb0). }
    destruct (Hlook b hb Hb) as [[-> ->]|[Hnb Hb']], (Hlook c hc Hc0) as [[-> ->]|[Hnc Hc0']]; [done|exfalso..|].
    + rewrite decide_False in Hpc by done. destruct (Hkeys c hc (Hincache c hc Hc0' Hpc) Hc0) as [_ Hd]. apply Hd; congruence.
    + rewrite decide_False in Hpb by done. destruct (Hkeys b hb (Hincache b hb Hb' Hpb) Hb) as [_ Hd]. apply Hd; congruence.
    + rewrite decide_False in Hpb by done. rewrite decide_False in Hpc by done. by apply (Q4 b c hb hc).
  - intros b [hb Hb]. cbn. rewrite Em. cbn. apply Q5. destruct (Hlook b hb Hb) as [[-> _]|[_ Hb']]; [by exists h|by exists hb].
  - cbn. rewrite Em. cbn. lia.
  - done.
  - done.
  - split; [apply NoDup_cons; split; [done|apply Huq]|]. intros b c hb hc [->|Hb]%elem_of_cons [->|Hc0]%elem_of_cons Hhb Hhc Ek; [done| | |by apply (proj2 Huq b c hb hc)].
    + change (handle mq1 e = Some hb) in Hhb. rewrite Hhe in Hhb. injection Hhb as <-. by destruct (Hkeys c hc Hc0 Hhc) as [[] _].
    + change (handle mq1 e = Some hc) in Hhc. rewrite Hhe in Hhc. injection Hhc as <-. by destruct (Hkeys b hb Hb Hhb) as [[] _].
  - intros b hb Hb. rewrite elem_of_cons. destruct (Hlook b hb Hb) as [[-> ->]|[Hne Hb']]; [rewrite Hc'; naive_solver|]. rewrite (M6 b hb Hb'). naive_solver.
  - intros b. destruct (decide (b = e)) as [->|Hne]; [change (handle mq' e) with (handle mq1 e); by rewrite Hhe, Hc'|]. rewrite Hoth by done. change (handle mq' b) with (handle mq1 b). by rewrite Hhd.
  - intros b hb Hb. destruct (Hlook b hb Hb) as [[-> ->]|[_ Hb']]; [done|by apply (M8 b)].
  - intros b hb Hb Hcb. destruct (Hlook b hb Hb) as [[-> ->]|[_ Hb']]; [congruence|by apply (M9 b)].
  - intros b hb c hc Hb Hc0 Hcb Hcc Hz. destruct (Hlook b hb Hb) as [[-> ->]|[Hnb Hb']]; [congruence|]. destruct (Hlook c hc Hc0) as [[-> ->]|[_ Hc0']]; [|by apply (M10 b hb c hc)].
    rewrite C4. intros E. by apply (Hdead b hb Hb' Hnb Hcb Hz).
  - intros b hb c hc Hb Hc0 Hz Hz' Ev. destruct (Hlook b hb Hb) as [[-> ->]|[Hnb Hb']], (Hlook c hc Hc0) as [[-> ->]|[Hnc Hc0']]; [done|..].
    + apply (M11 e h c hc); [done|done|congruence..].
    + apply (M11 b hb e h); [done|done|congruence..].
    + by apply (M11 b hb c hc).
  - intros b hb Hb Hz. cbn. rewrite Em. cbn. destruct (Hlook b hb Hb) as [[-> ->]|[_ Hb']]; [rewrite C4; apply (M12 e h Hh); congruence|by apply (M12 b)].
Qed.

(** The handle of a table whose address is not in use. *)
Lemma insert_table_ok mq ids held k p t ch : mq_ok mq ids held -> tables (mem mq) !! p = Some t -> rt_ok t -> 12 <= zlen k -> DecodeFixed32 (drop 8 k) = 0 ->
  (forall b hb, handle mq b = Some hb -> in_cache hb = true \/ value_id (data hb) = 0 -> q_value (data hb) <> p) ->
  (forall b hb, b ∈ ids -> handle mq b = Some hb -> LRU.key hb <> k) -> Z.of_nat (next_addr (mem mq)) < 2 ^ 31 - 2 ->
  exists mq', insert_handle P mq k p ch true = Some (next_addr (mem mq), mq') /\ mq_ok mq' (next_addr (mem mq) :: ids) (next_addr (mem mq) :: held) /\ usage_ mq' = usage_ mq.
Proof.
  intros Hm Ht Htok Hk Hid Hfree Hno Hsz. pose proof (po_num _ HP) as Hn. unfold insert_handle. rewrite (proj2 (Z.ltb_ge _ _)) by lia. rewrite Ht. cbn [mbind option_bind].
  cbv zeta. assert (En : rt_num t (i32 (DecodeFixed32 (drop 8 k) - 1)) = Some 0) by (rewrite Hid; exact (rt_num_table t Htok)). rewrite En. cbn [mbind option_bind].
  rewrite (proj2 (Z.eqb_eq _ _) Hid). fold (new_handle mq k p ch 0).
  pose proof (allocated_ok mq ids held k p ch 0 Hm ltac:(by exists t) ltac:(lia) ltac:(lia) (fun _ => Hfree)) as HmA. set (mqA := allocated mq k p ch 0) in *.
  set (e := next_addr (mem mq)) in *. change (with_flags _ _ _ _ _ _) with mqA. unfold insert_table. cbv zeta.
  assert (HhA : handle mqA e = Some (new_handle mq k p ch 0)) by (unfold handle; cbn; apply lookup_insert_eq).
  set (h' := LRU.MkLRUHandle _ _ _ _ _ _).
  assert (HpA : placed None (heap (mem mqA)) e = None) by (by rewrite (placed_none _ _ _ HhA)).
  assert (Hput : handle (put mqA e h') e = Some h') by (unfold handle; cbn; apply lookup_insert_eq).
  destruct (to_use_new (lrus_num_ P) (put mqA e h') _ (qo_lists _ _ _ (mk_queue _ _ _ HmA)) e h' HpA Hput) as (q' & -> & Hl). cbn [mbind option_bind].
  destruct (cached_ok mqA (with_queues (put mqA e h') q') ids (e :: held) (e :: held) e (new_handle mq k p ch 0) h' InUse HmA HhA) as (mq' & -> & Hm' & Hu'); try done.
  - split; cbn; [lia|lia| |done|lia]. exists t. split_and!; [done|done|by apply rt_regions_range|done].
  - apply Hl; [intros a Hne; by rewrite placed_put, decide_False|by rewrite placed_put, decide_True].
  - intros b hb Hb Hhb. assert (Hne : b <> e) by (intros ->; rewrite (mk_ids _ _ _ HmA e _ HhA) in Hb; done).
    assert (Hhb' : handle mq b = Some hb) by (unfold handle in Hhb |- *; cbn in Hhb; by rewrite lookup_insert_ne in Hhb).
    split; [by apply (Hno b)|]. intros E. exfalso. apply (Hfree b hb Hhb'); [|done]. left. by apply (mk_ids _ _ _ Hm b hb Hhb').
  - intros b hb Hhb Hne _ Hz. apply (Hfree b hb); [|by right]. unfold handle in Hhb |- *. cbn in Hhb. by rewrite lookup_insert_ne in Hhb.
  - rewrite LRU.count_cons, decide_True by done. pose proof (mk_refs _ _ _ HmA e) as Hc. rewrite LRU.count_cons, decide_True, HhA in Hc by done. cbn in Hc |- *. lia.
  - cbn. lia.
  - apply Hm.
  - cbn [mbind option_bind]. by exists mq'.
Qed.

(** A field of a cached handle that no list depends on. *)
Lemma touch_ok mq ids held a h h' : mq_ok mq ids held -> a ∈ ids -> handle mq a = Some h -> core h' = core h -> queue_id (data h') = queue_id (data h) -> mq_ok (put mq a h') ids held.
Proof.
  intros Hm Ha Hh Hc Eq. pose proof (proj1 (mk_ids _ _ _ Hm a h Hh) Ha) as Hin. pose proof (placed_none _ _ _ Hh : placed None (heap (mem mq)) a = place h) as Hpa.
  destruct (queue_put_ok P None mq a h h' (mk_queue _ _ _ Hm) Hh Hc) as [A B].
  - rewrite Hpa. unfold place. by rewrite Hin.
  - rewrite placed_put, decide_True, Hpa by done. by apply place_same.
  - intros l _ [O1 O2 O3 O4 O5]. pose proof Hc as [= C1 C2 C3 C4 C5 C6 C7]. split; rewrite ?Eq, ?C5, ?C6, ?C7; done.
  - by apply (mq_ok_kept mq); [..|apply Hm].
Qed.

Lemma present mq ids held k a h : mq_ok mq ids held -> a ∈ ids -> handle mq a = Some h -> LRU.key h = k -> LRU.ht_Lookup (heap (mem mq)) (table_ mq) k (Hash k 0) = Some (Some a).
Proof.
  intros Hm Ha Hh Hk. destruct (find_ok mq ids held k Hm) as (r & -> & Hr). destruct r as [b|]; [|by destruct (Hr a h Ha Hh)].
  destruct Hr as (Hb & hb & Hhb & Hkb). do 2 f_equal. apply (proj2 (mk_unique _ _ _ Hm) b a hb h Hb Ha Hhb Hh). congruence.
Qed.

(** The region before the new one is cached. *)
Definition has_prev mq (ids : list nat) (k : bytes) (id : Z) : Prop := id = 1 \/ exists a h, a ∈ ids /\ handle mq a = Some h /\ LRU.key h = region_key k (id - 1).

Lemma link_region_ok mq ids held e k id : mq_ok mq ids held -> has_prev mq ids k id -> e ∉ ids ->
  exists prev mq', link_region mq e k id = Some (prev, mq') /\ mq_ok mq' ids held /\ (forall b, b ∉ ids -> handle mq' b = handle mq b) /\ tables (mem mq') = tables (mem mq) /\
    next_addr (mem mq') = next_addr (mem mq) /\ usage_ mq' = usage_ mq /\ kept None mq mq'.
Proof.
  intros Hm Hp He. unfold link_region. destruct (Z.eqb_spec id 1) as [->|Hne]; [exists None, mq; split_and!; try done; apply queue_kept_refl|].
  destruct Hp as [->|(a & h & Ha & Hh & Hk)]; [done|]. rewrite (present mq ids held _ a h Hm Ha Hh Hk). cbn [mbind option_bind]. rewrite Hh. cbn [mbind option_bind].
  eexists _, _. split; [done|]. split_and!; try done.
  - by apply (touch_ok mq ids held a h).
  - intros b Hb. unfold handle. cbn. apply lookup_insert_ne. by intros ->.
  - pose proof (proj1 (mk_ids _ _ _ Hm a h Hh) Ha) as Hin. pose proof (placed_none _ _ _ Hh : placed None (heap (mem mq)) a = place h) as Hpa.
    apply (queue_put_ok P None mq a h _ (mk_queue _ _ _ Hm) Hh); [done|rewrite Hpa; unfold place; by rewrite Hin|rewrite placed_put, decide_True, Hpa by done; by apply place_same|].
    intros l _ [O1 O2 O3 O4 O5]. by split.
Qed.

Lemma cached_table mq ids held a h : mq_ok mq ids held -> a ∈ ids -> handle mq a = Some h -> exists t, tables (mem mq) !! q_value (data h) = Some t /\ rt_ok t.
Proof.
  intros Hm Ha Hh. pose proof (proj1 (mk_ids _ _ _ Hm a h Hh) Ha) as Hc. pose proof (qo_handles _ _ _ (mk_queue _ _ _ Hm) a h (if refs h =? 1 then Lru (queue_id (data h)) else InUse) Hh) as Ho.
  rewrite (placed_none _ _ _ Hh) in Ho. unfold place in Ho. rewrite Hc in Ho. destruct Ho as [_ _ (t & T1 & T2 & _) _ _]; [by destruct (refs h =? 1)|]. by exists t.
Qed.

(** A region of a cached table, entered in order. *)
Record region_fits mq (ids : list nat) (k : bytes) (p : Z) (t : T) : Prop := {
  rf_table : tables (mem mq) !! p = Some t;
  rf_len : 12 <= zlen k;
  rf_id : 1 <= DecodeFixed32 (drop 8 k) <= rt_regions t;
  rf_handle : exists a h, a ∈ ids /\ handle mq a = Some h /\ LRU.key h = region_key k 0 /\ q_value (data h) = p;
  rf_prev : has_prev mq ids k (DecodeFixed32 (drop 8 k));
  rf_new : forall b hb, b ∈ ids -> handle mq b = Some hb -> LRU.key hb <> k /\ (q_value (data hb) = p -> value_id (data hb) <> DecodeFixed32 (drop 8 k))
}.

Lemma insert_region_ok mq ids held k p t ch : mq_ok mq ids held -> region_fits mq ids k p t -> 0 < capacity_ P -> Z.of_nat (next_addr (mem mq)) < 2 ^ 31 - 2 ->
  exists mq', insert_handle P mq k p ch true = Some (next_addr (mem mq), mq') /\ mq_ok mq' (next_addr (mem mq) :: ids) held /\ usage_ mq' = u64 (usage_ mq + ch).
Proof.
  intros Hm [Ht Hk Hid (a & ha & Ha & Hha & Hka & Hpa) Hprev Hnew] Hcap Hsz. pose proof (po_num _ HP) as Hn.
  destruct (cached_table mq ids held a ha Hm Ha Hha) as (t' & Ht' & Htok). rewrite Hpa, Ht in Ht'. injection Ht' as <-. pose proof (rt_regions_range t Htok) as Hrr.
  unfold insert_handle. rewrite (proj2 (Z.ltb_ge _ _)) by lia. rewrite Ht. cbn [mbind option_bind]. cbv zeta. set (id := DecodeFixed32 (drop 8 k)) in *.
  assert (Ei : i32 (id - 1) = id - 1) by (unfold i32; rewrite Z.mod_small by lia; lia). rewrite Ei. destruct (rt_num_ok t (id - 1) Htok ltac:(lia)) as (n & En & Hnr). rewrite En. cbn [mbind option_bind].
  unfold id. fold (new_handle mq k p ch n). fold id. pose proof (allocated_ok mq ids held k p ch n Hm ltac:(by exists t) Hnr ltac:(lia) ltac:(fold id; lia)) as HmA.
  set (mqA := allocated mq k p ch n) in *. set (e := next_addr (mem mq)) in *. change (with_flags _ _ _ _ _ _) with mqA. rewrite (proj2 (Z.eqb_neq id 0)), (proj2 (Z.ltb_lt _ _) Hcap) by lia.
  assert (HhA : handle mqA e = Some (new_handle mq k p ch n)) by (unfold handle; cbn; apply lookup_insert_eq).
  assert (Hei : e ∉ ids) by (rewrite (mk_ids _ _ _ HmA e _ HhA); done).
  assert (Hold : forall b hb, b ∈ ids -> handle mq b = Some hb -> handle mqA b = Some hb) by (intros b hb Hb Hhb; unfold handle; cbn; rewrite lookup_insert_ne by (intros <-; by apply Hei); done).
  assert (Hold' : forall b hb, b ∈ ids -> handle mqA b = Some hb -> handle mq b = Some hb) by (intros b hb Hb Hhb; unfold handle in Hhb |- *; cbn in Hhb; by rewrite lookup_insert_ne in Hhb by (intros <-; by apply Hei)).
  unfold insert_region. cbv zeta. change (LRU.key (new_handle mq k p ch n)) with k. rewrite (present mqA ids _ _ a ha HmA Ha (Hold a ha Ha Hha) Hka). cbn [mbind option_bind].
  rewrite (Hold a ha Ha Hha). cbn [mbind option_bind]. set (ha' := set_value_refs ha _). pose proof (touch_ok mqA ids _ a ha ha' HmA Ha (Hold a ha Ha Hha) eq_refl eq_refl) as HmB.
  set (mqB := put mqA a ha') in *. assert (HhB : forall b, b <> a -> handle mqB b = handle mqA b) by (intros b Hne; unfold handle; cbn; by apply lookup_insert_ne).
  change (value_id (data (new_handle mq k p ch n))) with id.
  assert (HprevB : has_prev mqB ids k id).
  { destruct Hprev as [->|(b & hb & Hb & Hhb & Hkb)]; [by left|]. right. destruct (decide (b = a)) as [->|Hne].
    - exists a, ha'. split_and!; [done|unfold handle; cbn; apply lookup_insert_eq|]. rewrite Hha in Hhb. by injection Hhb as ->.
    - exists b, hb. split_and!; [done| |done]. rewrite HhB by done. by apply Hold. }
  destruct (link_region_ok mqB ids _ e k id HmB HprevB Hei) as (prev & mqC & -> & HmC & HhC & HtC & HnC & HuC & HkC). cbn [mbind option_bind].
  assert (Hea : e <> a) by (intros ->; done). assert (HhCe : handle mqC e = Some (new_handle mq k p ch n)) by (by rewrite HhC, HhB).
  assert (Eq : u16 n = n) by (unfold u16; apply Z.mod_small; lia). change (queue_id (data (new_handle mq k p ch n))) with (u16 n). rewrite Eq.
  set (h' := LRU.MkLRUHandle _ _ _ _ _ _). assert (Hput : handle (put mqC e h') e = Some h') by (unfold handle; cbn; apply lookup_insert_eq).
  assert (HpC : placed None (heap (mem mqC)) e = None) by (by rewrite (placed_none _ _ _ HhCe)). pose proof (mk_queue _ _ _ HmC) as HqC.
  destruct (to_queue (lrus_num_ P) (put mqC e h') _ (qo_lists _ _ _ HqC) (list_small P None mqC HqC) e n h' (or_intror HpC) Hput Hnr) as (q' & E & Hl).
  rewrite (unlisted (lrus_num_ P) (put mqC e h') _ (qo_lists _ _ _ HqC) e HpC) in E. destruct (LRU_Append (put mqC e h') (Lru n) e) as [m1|]; [|done]. cbn [mbind option_bind] in E |- *.
  destruct (add_len m1 n 1) as [m2|]; [|done]. cbn [mbind option_bind] in E |- *. apply (inj Some) in E. rewrite E. set (h2 := set_queue h' n). set (mqD := with_usage _ _).
  assert (Hback : forall b hb, b ∈ ids -> handle mqC b = Some hb -> exists hb0, handle mq b = Some hb0 /\ LRU.key hb = LRU.key hb0 /\ q_value (data hb) = q_value (data hb0) /\ value_id (data hb) = value_id (data hb0)).
  { intros b hb Hb Hhb. destruct (core_handle mqB mqC b hb (kp_core _ _ _ HkC) Hhb) as (hb1 & Hhb1 & [= C1 _ _ _ C5 C6 _]). rewrite C1, C5, C6. destruct (decide (b = a)) as [->|Hne].
    - unfold handle in Hhb1. cbn in Hhb1. rewrite lookup_insert_eq in Hhb1. injection Hhb1 as <-. by exists ha.
    - rewrite HhB in Hhb1 by done. exists hb1. split; [by apply Hold'|done]. }
  destruct (cached_ok mqC mqD ids (e :: held) held e (new_handle mq k p ch n) h2 (Lru n) HmC HhCe) as (mq' & -> & Hm' & Hu'); try done.
  - rewrite HtC. split; cbn; [lia|fold id; lia| |fold id; lia|done]. exists t. split_and!; [done|done|fold id; lia|]. intros j [= <-] _. done.
  - apply Hl; [|cbn; by rewrite placed_put, decide_True]. intros b Hne. by rewrite placed_put, decide_False.
  - intros b hb Hb Hhb. destruct (Hback b hb Hb Hhb) as (hb0 & Hhb0 & -> & -> & ->). by apply (Hnew b hb0).
  - intros b hb Hhb Hne Hcb Hzb. cbn. rewrite <- Hpa. destruct (ids_handle mqC ids _ a HmC Ha) as (ha2 & Hha2 & Hca2). destruct (Hback a ha2 Ha Hha2) as (ha3 & Hha3 & _ & Eq3 & _).
    rewrite Hha in Hha3. injection Hha3 as <-. intros E'. apply (mk_dead _ _ _ HmC b hb a ha2 Hhb Hha2 Hcb Hca2 Hzb). congruence.
  - pose proof (mk_refs _ _ _ HmC e) as Hc. rewrite LRU.count_cons, decide_True, HhCe in Hc by done. cbn in Hc |- *. lia.
  - intros b Hne. rewrite LRU.count_cons, decide_False by done. lia.
  - rewrite HnC. cbn. lia.
  - cbn. by rewrite insert_insert_eq.
  - cbn. unfold u64. by rewrite Zmod_mod.
  - cbn [mbind option_bind]. exists mq'. split_and!; [done|done|]. rewrite Hu'. cbn. by rewrite HuC.
Qed.

(** An insertion returns unless the shrinking after it spins. *)
Lemma Insert_steps mq k p ch ids' held' e mq1 : insert_handle P mq k p ch true = Some (e, mq1) -> mq_ok mq1 ids' held' ->
  if spins P mq1 then Insert P mq k p ch true = None else exists mq', Insert P mq k p ch true = Some (e, mq') /\ mq_ok mq' ids' held'.
Proof.
  intros E Hm. unfold Insert. rewrite E. cbn [mbind option_bind]. pose proof (MayBeShrinkUsage_ok P HP None mq1 (mk_queue _ _ _ Hm) (mk_usage _ _ _ Hm)) as Hs.
  destruct (spins P mq1); [by rewrite Hs|]. destruct Hs as (mq' & -> & A & B & D & _). cbn [mbind option_bind]. exists mq'. split; [done|]. apply (mq_ok_kept mq1); [done|apply B|done|done].
Qed.
End Client.
