(* ===== verification/QueueHistory.v ===== *)
(** * QueueHistory: runs of the multi queue

    The calls a table cache makes on the multi queue of src/LSM-EBF/util/multi_queue.cc,
    in any order the clients of MultiQueue.v are allowed to make them: a table is
    opened and entered, then its regions in order; handles are looked up and given
    back; a table is erased after its regions.  The state of a run is the queue and
    the handles the clients hold. *)
From stdpp Require Import gmap.
From Stdlib Require Import SpecFloat.
From S2P Require Import Prelude Coding Status Hash Bloom Cache MultiQueue QueueLists QueueInvariant QueueClient.

Inductive queue_op (T : Type) :=
| OLookup (k : bytes) (get : bool)
| ORelease (a : nat)
| OOpen (k : bytes) (p : Z) (t : T)
| ORegion (k : bytes) (p ch : Z)
| OSetFre (k : bytes) (n : Z)
| OErase (k : bytes)
| OTick
| OTouch (p : Z) (t : T).
Arguments OLookup {T}.
Arguments ORelease {T}.
Arguments OOpen {T}.
Arguments ORegion {T}.
Arguments OSetFre {T}.
Arguments OErase {T}.
Arguments OTick {T}.
Arguments OTouch {T}.

(** One of the references to [a] is given back. *)
Fixpoint give_back (a : nat) (held : list nat) : option (list nat) :=
  match held with
  | [] => None
  | b :: held => if decide (b = a) then Some held else held' ← give_back a held; Some (b :: held')
  end.

Lemma give_back_ok a held : a ∈ held -> exists held', give_back a held = Some held' /\ held ≡ₚ a :: held'.
Proof.
  induction held as [|b held IH]; [by intros ?%elem_of_nil|]. intros Ha. cbn. destruct (decide (b = a)) as [->|Hne]; [by exists held|].
  apply elem_of_cons in Ha as [->|Ha]; [done|]. destruct (IH Ha) as (held' & -> & Hp). exists (b :: held'). split; [done|]. rewrite Hp. apply perm_swap.
Qed.

Section History.
Context {T : Type} {RT : RegionTable T} (P : Params).
Implicit Types (mq : MultiQueue T) (held : list nat) (o : queue_op T).

Definition queue_state : Type := MultiQueue T * list nat.

(** [OOpen] is [Table::Open] followed by [Insert] of the table's handle, which
    the caller holds; [OTouch] is what the first lookup in a region may do to a
    table. *)
Definition queue_step (s : queue_state) o : option queue_state :=
  let '(mq, held) := s in
  match o with
  | OLookup k get => '(r, mq) ← Lookup P mq k get; Some (mq, option_list r ++ held)
  | ORelease a => held ← give_back a held; mq ← Release P mq a; Some (mq, held)
  | OOpen k p t => '(e, mq) ← Insert P (put_table mq p t) k p 0 true; Some (mq, e :: held)
  | ORegion k p ch => '(_, mq) ← Insert P mq k p ch true; Some (mq, held)
  | OSetFre k n => mq ← SetFreCount P mq k n; Some (mq, held)
  | OErase k => mq ← Erase P mq k; Some (mq, held)
  | OTick => Some (addCurrentTime mq, held)
  | OTouch p t => Some (put_table mq p t, held)
  end.

(** The handles in the cache. *)
Definition cached mq : list nat := (base.filter (fun p => in_cache p.2 = true) (map_to_list (heap (mem mq)))).*1.

Lemma elem_cached mq a : a ∈ cached mq <-> exists h, handle mq a = Some h /\ in_cache h = true.
Proof.
  unfold cached, handle. rewrite list_elem_of_fmap. split.
  - intros ([b h] & -> & Hb%list_elem_of_filter). destruct Hb as [Hc Hb%elem_of_map_to_list]. by exists h.
  - intros (h & Hh & Hc). exists (a, h). split; [done|]. apply list_elem_of_filter. split; [done|]. by apply elem_of_map_to_list.
Qed.

Context {L : RegionTableLaws T RT P} (HP : params_ok P).

(** What a client may call. *)
Definition queue_allowed (s : queue_state) o : Prop :=
  let '(mq, held) := s in
  match o with
  | OLookup k get => zlen held + 1 < 2 ^ 31 /\ (get = true -> forall a h, handle mq a = Some h -> in_cache h = true -> LRU.key h = k -> 0 < value_id (data h))
  | ORelease a => a ∈ held
  | OOpen k p t => tables (mem mq) !! p = None /\ rt_ok t /\ 12 <= zlen k /\ DecodeFixed32 (drop 8 k) = 0 /\
      (forall a h, handle mq a = Some h -> in_cache h = true -> LRU.key h <> k) /\ Z.of_nat (next_addr (mem mq)) < 2 ^ 31 - 2
  | ORegion k p ch => 0 < capacity_ P /\ (exists t, region_fits P mq (cached mq) k p t) /\ Z.of_nat (next_addr (mem mq)) < 2 ^ 31 - 2
  | OSetFre _ _ | OTick => True
  | OErase k => erasable mq (cached mq) k
  | OTouch p t' => exists t, tables (mem mq) !! p = Some t /\ rt_ok t' /\ rt_regions t' = rt_regions t /\
      forall r c, 0 < c -> rt_num t r = Some c -> rt_num t' r = Some c
  end.

(** The call enters the forced loop with too little to give back. *)
Definition op_spins (s : queue_state) o : bool :=
  let '(mq, held) := s in
  let after r := match r with Some (_, m) => spins P m | None => false end in
  match o with
  | ORelease a => release_spins P mq a
  | OOpen k p t => after (insert_handle P (put_table mq p t) k p 0 true)
  | ORegion k p ch => after (insert_handle P mq k p ch true)
  | _ => false
  end.

(** The states of a run from a new queue. *)
Inductive queue_reachable : queue_state -> Prop :=
| qr_new init garbage mq : MultiQueue_new P init garbage = Some mq -> queue_reachable (mq, [])
| qr_step s o s' : queue_reachable s -> queue_allowed s o -> queue_step s o = Some s' -> queue_reachable s'.

Definition run_ok (s : queue_state) : Prop := exists ids, mq_ok P s.1 ids s.2.

(** ** The steps keep the invariant *)

Lemma cached_ids mq ids held a : mq_ok P mq ids held -> a ∈ cached mq <-> a ∈ ids.
Proof.
  intros Hm. rewrite elem_cached. split; [|apply (ids_handle P mq ids held a (mk_books _ _ _ _ Hm))]. intros (h & Hh & Hc).
  by apply (mk_ids _ _ _ _ (mk_books _ _ _ _ Hm) a h Hh).
Qed.

Lemma at_replicate {A} (n : nat) (x : A) k : 0 <= k < Z.of_nat n -> at_ (replicate n x) k = Some x.
Proof. intros Hk. rewrite at_lookup by lia. apply lookup_replicate. split; [done|lia]. Qed.

Lemma at_none {A} (l : list A) k : k < 0 \/ zlen l <= k -> at_ l k = None.
Proof. intros Hk. unfold at_. destruct (Z.ltb_spec k 0); [done|]. apply lookup_ge_None. unfold zlen in *. lia. Qed.

Lemma new_lists n : 0 <= n -> lists_ok n (MkQueues [] (replicate (Z.to_nat n) []) (replicate (Z.to_nat n) 0) (replicate (Z.to_nat n) 0) 0) (placed None ∅).
Proof.
  intros Hn. assert (Hnil : forall l, list_of (MkQueues [] (replicate (Z.to_nat n) []) (replicate (Z.to_nat n) 0) (replicate (Z.to_nat n) 0) 0) l = []).
  { intros [|k]; [done|]. cbn. destruct (decide (0 <= k < n)) as [Hk|Hk]; [by rewrite at_replicate by lia|]. rewrite at_none; [done|]. unfold zlen. rewrite length_replicate. lia. }
  split.
  - intros l a. rewrite Hnil. unfold placed. cbn. split; [by intros ?%elem_of_nil|done].
  - intros l. rewrite Hnil. constructor.
  - cbn. unfold zlen. rewrite length_replicate. lia.
  - intros k. cbn. destruct (decide (0 <= k < n)) as [Hk|Hk]; [by rewrite !at_replicate by lia|]. rewrite !at_none; [done|..]; unfold zlen; rewrite length_replicate; lia.
  - cbn. unfold zlen. rewrite length_replicate. lia.
Qed.

Lemma new_ok init garbage : exists mq, MultiQueue_new P init garbage = Some mq /\ mq_ok P mq [] [].
Proof.
  pose proof (po_num _ HP) as Hn. unfold MultiQueue_new. destruct (LRU.HandleTable_new_ok (V := QueueData) 131072) as (t & -> & Ht); [by exists 17|].
  cbn [mbind option_bind]. eexists. split; [done|]. split; [split|done|split]; cbn; try done.
  - apply new_lists. lia.
  - intros a [h Hh]. done.
  - split; [constructor|]. intros a b ha hb ?%elem_of_nil. done.
Qed.

Lemma OOpen_ok mq ids held k p t : mq_ok P mq ids held -> queue_allowed (mq, held) (OOpen k p t) ->
  exists mq1, insert_handle P (put_table mq p t) k p 0 true = Some (next_addr (mem mq), mq1) /\ mq_ok P mq1 (next_addr (mem mq) :: ids) (next_addr (mem mq) :: held).
Proof.
  intros Hm (Hp & Ht & Hk & Hid & Hno & Hsz). pose proof (new_table_ok P mq ids held p t Hm Hp) as Hm1. pose proof (mk_books _ _ _ _ Hm) as Hb.
  destruct (insert_table_ok P HP (put_table mq p t) ids held k p t 0 Hm1) as (mq1 & E & H1 & _); try done; [cbn; apply lookup_insert_eq| | |by exists mq1].
  - intros b hb Hhb Hc E. change (handle mq b = Some hb) in Hhb. enough (is_Some (tables (mem mq) !! q_value (data hb))) as [? ?] by congruence.
    destruct Hc as [Hc|Hc]; [|by apply (mk_live _ _ _ _ Hb b)]. destruct (cached_table P mq ids held b hb Hm) as (t0 & T1 & _); [by apply (mk_ids _ _ _ _ Hb b hb Hhb)|done|by exists t0].
  - intros b hb Hb' Hhb. apply (Hno b hb Hhb). by apply (mk_ids _ _ _ _ Hb b hb Hhb).
Qed.

Lemma ORegion_ok mq ids held k p ch : mq_ok P mq ids held -> queue_allowed (mq, held) (ORegion k p ch) ->
  exists mq1, insert_handle P mq k p ch true = Some (next_addr (mem mq), mq1) /\ mq_ok P mq1 (next_addr (mem mq) :: ids) held.
Proof.
  intros Hm (Hcap & (t & Hf) & Hsz). destruct (insert_region_ok P HP mq ids held k p t ch Hm) as (mq1 & E & H1 & _); try done; [|by exists mq1].
  pose proof (fun a => cached_ids mq ids held a Hm) as Hids. destruct Hf as [F1 F3 F4 (a & h & Ha & Hh) F6 F7]. split; try done.
  - exists a, h. by rewrite <- Hids.
  - destruct F6 as [F6|(b & hb & Hb & Hhb)]; [by left|]. right. exists b, hb. by rewrite <- Hids.
  - intros b hb Hb. apply F7. by apply Hids.
Qed.

Lemma OTouch_ok mq ids held p t' : mq_ok P mq ids held -> queue_allowed (mq, held) (OTouch p t') -> mq_ok P (put_table mq p t') ids held.
Proof.
  intros Hm (t & Ht & Hok & Hreg & Hnum). destruct (put_table_ok P None mq p t t' (mk_queue _ _ _ _ Hm) Ht Hok Hreg) as [A B].
  - intros a h k _ _ Hk _ E. apply Hnum; [lia|done].
  - apply (mq_ok_kept P mq); try done. apply (mk_usage _ _ _ _ Hm).
Qed.

(** A step returns unless it spins, and keeps the invariant. *)
Lemma queue_step_ok s o : run_ok s -> queue_allowed s o -> if op_spins s o then queue_step s o = None else exists s', queue_step s o = Some s' /\ run_ok s'.
Proof.
  destruct s as [mq held]. intros [ids Hm] Ha. cbn [fst snd] in Hm. pose proof (fun a => cached_ids mq ids held a Hm) as Hids. destruct o as [k get|a|k p t|k p ch|k n|k| |p t]; cbn [op_spins queue_step].
  - destruct Ha as [Hsz Hget]. destruct (queue_Lookup_ok P HP mq ids held k get Hm Hsz) as (r & mq' & -> & _ & Hm'); [|cbn [mbind option_bind]; eexists; split; [done|]; by exists ids].
    intros Hg a h Hin Hh. apply (Hget Hg a h Hh). by apply (mk_ids _ _ _ _ (mk_books _ _ _ _ Hm) a h Hh).
  - cbn in Ha. destruct (give_back_ok a held Ha) as (held' & -> & Hp). cbn [mbind option_bind]. pose proof (queue_Release_ok P HP mq ids held held' a Hm Hp) as Hr.
    destruct (release_spins P mq a); [by rewrite Hr|]. destruct Hr as (mq' & -> & Hm'). cbn [mbind option_bind]. eexists. split; [done|]. by exists ids.
  - destruct (OOpen_ok mq ids held k p t Hm Ha) as (mq1 & E & Hm1). rewrite E. pose proof (Insert_steps P HP _ k p 0 _ _ _ mq1 E Hm1) as Hi.
    destruct (spins P mq1); [by rewrite Hi|]. destruct Hi as (mq' & -> & Hm'). cbn [mbind option_bind]. eexists. split; [done|]. by eexists.
  - destruct (ORegion_ok mq ids held k p ch Hm Ha) as (mq1 & E & Hm1). rewrite E. pose proof (Insert_steps P HP _ k p ch _ _ _ mq1 E Hm1) as Hi.
    destruct (spins P mq1); [by rewrite Hi|]. destruct Hi as (mq' & -> & Hm'). cbn [mbind option_bind]. eexists. split; [done|]. by eexists.
  - destruct (SetFreCount_ok P HP mq ids held k n Hm) as (mq' & -> & Hm'). cbn [mbind option_bind]. eexists. split; [done|]. by exists ids.
  - destruct (queue_Erase_ok P HP mq ids held k Hm) as (mq' & ids' & -> & Hm' & _); [|cbn [mbind option_bind]; eexists; split; [done|]; by exists ids'].
    intros a h b hb Hin Hh Hk Hz Hb. apply Ha; [by apply Hids|done|done|done|by apply Hids].
  - eexists. split; [done|]. exists ids. destruct Hm as [M1 M2 M3]. split; [by apply queue_ok_flags|done|]. by destruct M3.
  - eexists. split; [done|]. exists ids. by apply OTouch_ok.
Qed.

Lemma reachable_ok s : queue_reachable s -> run_ok s.
Proof.
  induction 1 as [init garbage mq E|s o s' _ IH Ha E].
  - destruct (new_ok init garbage) as (mq' & E' & Hm). rewrite E in E'. injection E' as <-. by exists [].
  - pose proof (queue_step_ok s o IH Ha) as Hs. destruct (op_spins s o); [congruence|]. destruct Hs as (s2 & E2 & H2). congruence.
Qed.
(** ** Runs that are checked by computation *)

Section Checked.
Context (rt_okb : T -> bool) (rt_okb_ok : forall t, rt_okb t = true -> rt_ok t).

Definition some_cached mq (f : LRUQueueHandle -> bool) : bool := existsb (fun a => match handle mq a with Some h => f h | None => false end) (cached mq).
Definition all_cached mq (f : LRUQueueHandle -> bool) : bool := forallb (fun a => match handle mq a with Some h => f h | None => false end) (cached mq).

Definition fitsb mq (k : bytes) (p : Z) (t : T) : bool :=
  let id := DecodeFixed32 (drop 8 k) in
  (12 <=? zlen k) && (1 <=? id) && (id <=? rt_regions t) &&
  some_cached mq (fun h => bool_decide (LRU.key h = region_key k 0) && (q_value (data h) =? p)) &&
  ((id =? 1) || some_cached mq (fun h => bool_decide (LRU.key h = region_key k (id - 1)))) &&
  all_cached mq (fun h => negb (bool_decide (LRU.key h = k)) && negb ((q_value (data h) =? p) && (value_id (data h) =? id))).

(** Enough for a call of those below to be allowed. *)
Definition allowedb (s : queue_state) o : bool :=
  let '(mq, held) := s in
  match o with
  | OLookup k get => (zlen held + 1 <? 2 ^ 31) && (negb get || all_cached mq (fun h => negb (bool_decide (LRU.key h = k)) || (0 <? value_id (data h))))
  | ORelease a => bool_decide (a ∈ held)
  | OOpen k p t => bool_decide (tables (mem mq) !! p = None) && rt_okb t && (12 <=? zlen k) && (DecodeFixed32 (drop 8 k) =? 0) &&
      all_cached mq (fun h => negb (bool_decide (LRU.key h = k))) && (Z.of_nat (next_addr (mem mq)) <? 2 ^ 31 - 2)
  | ORegion k p ch => (0 <? capacity_ P) && match tables (mem mq) !! p with Some t => fitsb mq k p t | None => false end && (Z.of_nat (next_addr (mem mq)) <? 2 ^ 31 - 2)
  | OSetFre _ _ | OTick => true
  | _ => false
  end.

Lemma some_cached_ok mq f : some_cached mq f = true -> exists a h, a ∈ cached mq /\ handle mq a = Some h /\ f h = true.
Proof. intros (a & Ha & Hf)%existsb_exists. apply list_elem_of_In in Ha. destruct (handle mq a) as [h|] eqn:Hh; [|done]. by exists a, h. Qed.

Lemma all_cached_ok mq f : all_cached mq f = true -> forall a h, a ∈ cached mq -> handle mq a = Some h -> f h = true.
Proof. intros Hf a h Ha Hh. unfold all_cached in Hf. rewrite forallb_forall in Hf. specialize (Hf a). rewrite Hh in Hf. apply Hf. by apply list_elem_of_In. Qed.

Ltac split_bool := repeat match goal with H : (_ && _)%bool = true |- _ => apply andb_true_iff in H as [? ?] end.

Lemma fitsb_ok mq k p t : tables (mem mq) !! p = Some t -> fitsb mq k p t = true -> region_fits P mq (cached mq) k p t.
Proof.
  unfold fitsb. cbv zeta. intros Ht Hf. split_bool. split; try done; [by apply Z.leb_le|split; by apply Z.leb_le|..].
  - destruct (some_cached_ok _ _ ltac:(eassumption)) as (a & h & Ha & Hh & [Hk Hp]%andb_true_iff). exists a, h. split_and!; [done|done|by apply bool_decide_eq_true in Hk|by apply Z.eqb_eq].
  - match goal with H : _ || _ = true |- _ => apply orb_true_iff in H as [H|H] end; [left; by apply Z.eqb_eq|]. right.
    destruct (some_cached_ok _ _ ltac:(eassumption)) as (a & h & Ha & Hh & Hk). exists a, h. by apply bool_decide_eq_true in Hk.
  - intros b hb Hb Hhb. pose proof (all_cached_ok _ _ ltac:(eassumption) b hb Hb Hhb) as Hf. apply andb_true_iff in Hf as [F1%negb_true_iff%bool_decide_eq_false F2%negb_true_iff].
    split; [done|]. intros Ep Ev. rewrite (proj2 (Z.eqb_eq _ _) Ep), (proj2 (Z.eqb_eq _ _) Ev) in F2. done.
Qed.

Lemma allowedb_ok s o : allowedb s o = true -> queue_allowed s o.
Proof.
  destruct s as [mq held]. assert (Hin : forall a h, handle mq a = Some h -> in_cache h = true -> a ∈ cached mq) by (intros a h Hh Hc; apply elem_cached; by exists h).
  destruct o as [k get|a|k p t|k p ch|k n|k| |p t]; cbn [allowedb queue_allowed]; intros Hb; split_bool; try done.
  - split; [by apply Z.ltb_lt|]. intros -> a h Hh Hc Hk. cbn in *. pose proof (all_cached_ok _ _ ltac:(eassumption) a h (Hin a h Hh Hc) Hh) as Hf. cbv beta in Hf.
    rewrite bool_decide_eq_true_2 in Hf by done. by apply Z.ltb_lt.
  - by apply bool_decide_eq_true in Hb.
  - split_and!; [by eapply bool_decide_eq_true_1|by apply rt_okb_ok|by apply Z.leb_le|by apply Z.eqb_eq| |by apply Z.ltb_lt].
    intros a h Hh Hc. pose proof (all_cached_ok _ _ ltac:(eassumption) a h (Hin a h Hh Hc) Hh) as Hf. by apply negb_true_iff, bool_decide_eq_false in Hf.
  - destruct (tables (mem mq) !! p) as [t|] eqn:Ht; [|done]. split_and!; [by apply Z.ltb_lt| |by apply Z.ltb_lt]. exists t. by apply fitsb_ok.
Qed.

(** A run whose calls are all allowed. *)
Fixpoint run_queue (s : queue_state) (ops : list (queue_op T)) : option queue_state :=
  match ops with
  | [] => Some s
  | o :: ops => if allowedb s o then s ← queue_step s o; run_queue s ops else None
  end.

Lemma run_queue_ok s ops s' : queue_reachable s -> run_queue s ops = Some s' -> queue_reachable s'.
Proof.
  revert s. induction ops as [|o ops IH]; intros s Hs; cbn; [by intros [= <-]|]. destruct (allowedb s o) eqn:Ha; [|done].
  intros (s1 & E & Hr)%bind_Some. apply (IH s1); [|done]. apply (qr_step s o); [done|by apply allowedb_ok|done].
Qed.

(** A check of the state a run ends in. *)
Definition run_check (s : queue_state) (ops : list (queue_op T)) (f : queue_state -> bool) : bool :=
  match run_queue s ops with Some s' => f s' | None => false end.

Lemma run_check_ok s ops f : queue_reachable s -> run_check s ops f = true -> exists mq held, queue_reachable (mq, held) /\ f (mq, held) = true.
Proof.
  unfold run_check. intros Hs. destruct (run_queue s ops) as [[mq held]|] eqn:Er; [|done]. intros Hf. exists mq, held. split; [|done]. by apply (run_queue_ok s ops).
Qed.
End Checked.
End History.

(** ** Tables that are counts of filters

    A table as the queue sees it: the number of filters of each region, at most
    three, each with four bits. *)
Module Counts.

Definition change (t : list Z) (r c : Z) : list Z := <[Z.to_nat r := c]> t.

#[global] Instance counts : RegionTable (list Z) := {
  rt_num t r := if r =? -1 then Some 0 else at_ t r;
  rt_remove t n r := c ← at_ t r; if c <? n then None else Some (4 * n, change t r (c - n));
  rt_adjust t n r := c ← at_ t r; if (c <? n) && (n <? 4) then Some (4 * (n - c), change t r n) else None;
  rt_access t r := Some t
}.

Definition counts_ok (t : list Z) : bool := forallb (fun c => (0 <=? c) && (c <? 4)) t && (zlen t <? 2 ^ 31).

(** [1 / (n * n + 1)] in the place of a power. *)
Definition rate (n : Z) : spec_float := SFdiv 53 1024 (SFone 53 1024) (double_of_Z (n * n + 1)).
Definition params (capacity : Z) : Params :=
  default (MkParams 0 0 0 (S754_zero false) [] [] [] 0)
    (MultiQueue_params rate [4; 4; 4] capacity 4 50 (SFdiv 53 1024 (SFone 53 1024) (double_of_Z 1000)) 0).

Lemma at_three {A} (x0 x1 x2 x3 y : A) k : at_ [x0; x1; x2; x3] k = Some y -> k = 0 /\ y = x0 \/ 1 <= k <= 3 /\ (y = x1 \/ y = x2 \/ y = x3).
Proof.
  unfold at_. destruct (Z.ltb_spec k 0); [done|]. destruct (Z.to_nat k) as [|[|[|[|n]]]] eqn:E; cbn; intros [= <-]; [left; split; [lia|done]|right; split; [lia|auto]..].
Qed.

Lemma counts_params_good capacity : params_ok (params capacity).
Proof.
  split; try done; intros k n.
  - change (bits_per_key_per_filter_sum (params capacity)) with [0; 4; 8; 12]. intros Hk Hs. apply at_three in Hs. lia.
  - change (bits_per_key_per_filter_ (params capacity)) with [0; 4; 4; 4]. intros Hb. apply at_three in Hb. lia.
Qed.

Lemma change_ok t r c r' : 0 <= r < zlen t -> (if r' =? -1 then Some 0 else at_ (change t r c) r') = if decide (r' = r) then Some c else if r' =? -1 then Some 0 else at_ t r'.
Proof.
  intros Hr. unfold change. rewrite at_insert by done. destruct (Z.eqb_spec r' (-1)); destruct (decide (r' = r)); try done. lia.
Qed.

Lemma counts_iff t : counts_ok t = true <-> Forall (fun c => 0 <= c < 4) t /\ zlen t < 2 ^ 31.
Proof.
  unfold counts_ok. rewrite andb_true_iff, forallb_forall, Forall_forall, Z.ltb_lt. apply and_iff_compat_r. split; intros Hf c Hc.
  - apply list_elem_of_In in Hc. apply Hf, andb_true_iff in Hc as [? ?]. by rewrite Z.leb_le, Z.ltb_lt in *.
  - apply list_elem_of_In in Hc. apply Hf in Hc. by rewrite andb_true_iff, Z.leb_le, Z.ltb_lt.
Qed.

Lemma counts_range t r c : counts_ok t = true -> at_ t r = Some c -> 0 <= c < 4.
Proof.
  intros [Hf _]%counts_iff Hc. pose proof (at_range _ _ _ Hc). rewrite at_lookup in Hc by lia. rewrite Forall_lookup in Hf. by apply (Hf (Z.to_nat r)).
Qed.

Lemma counts_change t r c : counts_ok t = true -> 0 <= c < 4 -> counts_ok (change t r c) = true.
Proof. rewrite !counts_iff. intros [Hf Hl] Hc. unfold change. rewrite zlen_insert. split; [by apply Forall_insert|done]. Qed.

#[global] Program Instance counts_laws capacity : RegionTableLaws (list Z) counts (params capacity) := {
  rt_ok t := counts_ok t = true;
  rt_regions t := zlen t
}.
Next Obligation. intros cap t [_ Hl%Z.ltb_lt]%andb_true_iff. split; [apply zlen_nonneg|done]. Qed.
Next Obligation.
  intros cap t r Hok Hr. cbn [rt_num counts]. rewrite (proj2 (Z.eqb_neq _ _)) by lia. destruct (at_Some t r Hr) as [c Hc]. exists c. split; [done|].
  exact (counts_range t r c Hok Hc).
Qed.
Next Obligation. done. Qed.
Next Obligation.
  intros cap t r c Hok Hr Hc H0. cbn [rt_num rt_remove counts] in *. rewrite (proj2 (Z.eqb_neq _ _)) in Hc by lia. rewrite Hc. cbn [mbind option_bind].
  rewrite (proj2 (Z.ltb_ge _ _)) by lia. pose proof (counts_range t r c Hok Hc).
  eexists _, _. split; [done|]. split_and!; [|apply counts_change; [done|lia]|apply zlen_insert|by rewrite change_ok, decide_True|].
  - cbn. destruct (decide (c = 1)) as [->|]; [done|]. destruct (decide (c = 2)) as [->|]; [done|]. by assert (c = 3) as -> by lia.
  - intros r' _ Hne. by rewrite change_ok, decide_False.
Qed.
Next Obligation.
  intros cap t r c n Hok Hr Hc Hn. cbn [rt_num rt_adjust counts] in *. rewrite (proj2 (Z.eqb_neq _ _)) in Hc by lia. rewrite Hc. cbn [mbind option_bind]. change (c < n < 4) in Hn.
  pose proof (counts_range t r c Hok Hc).
  rewrite (proj2 (Z.ltb_lt c n)), (proj2 (Z.ltb_lt n 4)) by lia. cbn [andb]. eexists _, _. split; [done|].
  split_and!; [apply counts_change; [done|lia]|apply zlen_insert|by rewrite change_ok, decide_True|]. intros r' _ Hne. by rewrite change_ok, decide_False.
Qed.
Next Obligation. intros cap t r Hok Hr. cbn. by exists t. Qed.

Lemma counts_good capacity t : counts_ok t = true -> rt_ok (RegionTableLaws := counts_laws capacity) t.
Proof. done. Qed.

(** File 7 with table [t], and its regions. *)
Definition key_of (r : Z) : bytes := EncodeFixed64 7 ++ EncodeFixed32 r.
Definition open (t : list Z) : list (queue_op (list Z)) := [OOpen (key_of 0) 100 t; ORelease 0].
Definition regions (charges : list Z) : list (queue_op (list Z)) := imap (fun i ch => ORegion (key_of (Z.of_nat i + 1)) 100 ch) charges.

(** Lookups of region [r], each given back. *)
Definition gets (r : Z) (n : nat) : list (queue_op (list Z)) := concat (replicate n [OLookup (key_of r) true; ORelease (Z.to_nat r); OTick]).
End Counts.

(** ** Claims *)

Section Claims.
Context {T : Type} {RT : RegionTable T} (P : Params) {L : RegionTableLaws T RT P} (HP : params_ok P).
Implicit Types (mq : MultiQueue T) (held : list nat) (o : queue_op T).

(** C23. In every state that the calls of the clients can reach: a region whose
    handle is on queue [k >= 1] has exactly [k] filters in memory; a cached handle
    is on exactly one list, its queue when only the cache holds it and the list in
    use otherwise; [lru_lens_] are the lengths of the queues; a handle that
    clients hold is alive, is counted once for each of them and once for the
    cache, and if it is a table's, the table is alive. *)
Theorem multi_queue_invariant mq held : queue_reachable P (mq, held) ->
  (forall k a, 1 <= k -> a ∈ list_of (queues mq) (Lru k) -> exists h, handle mq a = Some h /\ refs h = 1 /\ queue_id (data h) = k /\ curr_num mq h = Some k) /\
  (forall a h l, handle mq a = Some h -> in_cache h = true -> a ∈ list_of (queues mq) l <-> l = if refs h =? 1 then Lru (queue_id (data h)) else InUse) /\
  (forall k, 0 <= k < lrus_num_ P -> at_ (lru_lens_ (queues mq)) k = Some (zlen (list_of (queues mq) (Lru k)))) /\
  (forall a, a ∈ held -> exists h, handle mq a = Some h /\ refs h = LRU.count held a + (if in_cache h then 1 else 0) /\
    (value_id (data h) = 0 -> is_Some (tables (mem mq) !! q_value (data h)))).
Proof.
  intros Hr. destruct (reachable_ok P HP _ Hr) as [ids Hm]. cbn [fst snd] in Hm. pose proof (mk_queue _ _ _ _ Hm) as Hq. pose proof (qo_lists _ _ _ Hq) as Hl. pose proof (mk_books _ _ _ _ Hm) as Hb.
  split_and!.
  - intros k a Hk Ha%(ls_place _ _ _ Hl). destruct (queued P None mq a k Hq Ha) as (h & Hh & Hc & Hrf & E & Ho & _). exists h. split_and!; try done.
    unfold curr_num. rewrite (region_of _ _ _ _ Ho). destruct Ho as [_ _ (t & -> & _ & _ & Hn) _ _]. by apply (Hn k).
  - intros a h l Hh Hc. rewrite (ls_place _ _ _ Hl), (placed_none _ _ _ Hh). unfold place. rewrite Hc. destruct (refs h =? 1); split; congruence.
  - intros k Hk. by apply (lens_at _ _ _ _ Hl).
  - intros a Ha. pose proof (mk_refs _ _ _ _ Hb a) as Hc. destruct (give_back_ok a held Ha) as (held' & _ & Hp). rewrite (count_give held held' a a Hp), decide_True in Hc by done. rewrite (count_give held held' a a Hp), decide_True by done. pose proof (LRU.count_nonneg held' a). destruct (handle mq a) as [h|] eqn:Hh; [|lia]. exists h. split_and!; [done|lia|by apply (mk_live _ _ _ _ Hb a)].
Qed.

(** C24. A call that a client may make returns unless it enters the forced
    shrinking with more to give back than the longest queue has: then, and only
    then, it never ends. *)
Theorem multi_queue_progress (s : queue_state) o : queue_reachable P s -> queue_allowed P s o -> queue_step P s o = None <-> op_spins P s o = true.
Proof.
  intros Hr Ha. pose proof (queue_step_ok P HP s o (reachable_ok P HP s Hr) Ha) as Hs. destruct (op_spins P s o); [done|]. destruct Hs as (s' & -> & _). done.
Qed.

(** C25. Shrinking the usage of a reachable state returns unless it spins, and
    keeps every handle that is not on a queue and the filters of its region.  For
    a capacity of at least one filter and a usage of at most 2^62 it leaves the
    usage within the capacity, or no filters on the queues, and it gives back at
    most one filter more than that takes. *)
Theorem shrink_within_capacity mq held : queue_reachable P (mq, held) -> spins P mq = false ->
  exists mq', MayBeShrinkUsage P mq = Some mq' /\
    (forall a h, handle mq a = Some h -> place h = Some InUse -> handle mq' a = Some h /\ curr_num mq' h = curr_num mq h) /\
    (max_bits P <= capacity_ P -> usage_ mq <= 2 ^ 62 ->
      (usage_ mq' <= capacity_ P \/ queues_empty P mq') /\ Z.min (usage_ mq) (capacity_ P - max_bits P) <= usage_ mq' <= usage_ mq).
Proof.
  intros Hr Hs. destruct (reachable_ok P HP _ Hr) as [ids Hm]. cbn [fst snd] in Hm.
  pose proof (MayBeShrinkUsage_ok P HP None mq (mk_queue _ _ _ _ Hm) (mk_usage _ _ _ _ Hm)) as Hy. rewrite Hs in Hy. destruct Hy as (mq' & E & _ & Hf & _ & Hu). exists mq'. split_and!; [done| |done].
  intros a h Hh Hp. pose proof (placed_none _ _ _ Hh) as Hpa. rewrite Hp in Hpa. split; [|by apply (fr_count _ _ _ Hf a)]. rewrite (fr_off _ _ _ Hf a _ Hpa); [done|by right].
Qed.

(** C26. The queue that [RecomputeExp] takes filters from is the one with the
    least expectation: when no queue from 1 up gives back enough below the
    expectation [now], none is chosen; otherwise the choice offers enough, is
    below [now], and no queue that offers enough is below it. *)
Theorem chosen_queue_least mq held need new_exp now : queue_reachable P (mq, held) ->
  exists min_exp min_i, choose_queue P mq need new_exp (seqZ 1 (lrus_num_ P - 1)) (now, -1) = Some (min_exp, min_i) /\
    (min_i = -1 /\ min_exp = now \/ 1 <= min_i < lrus_num_ P /\ offers P mq need new_exp min_i min_exp /\ SFltb min_exp now = true) /\
    forall i change, 1 <= i < lrus_num_ P -> offers P mq need new_exp i change -> SFltb change min_exp = false.
Proof.
  intros Hr. destruct (reachable_ok P HP _ Hr) as [ids Hm]. cbn [fst snd] in Hm.
  destruct (choose_queue_ok P HP None mq need new_exp now (seqZ 1 (lrus_num_ P - 1)) (mk_queue _ _ _ _ Hm)) with (min_exp := now) (min_i := -1) as (x & i & E & H1 & _ & H3).
  - intros i Hi%elem_of_seqZ. lia.
  - by left.
  - exists x, i. split_and!; [done|done|]. intros j change Hj. apply H3. apply elem_of_seqZ. lia.
Qed.
End Claims.

(** ** Runs *)

Module QueueRuns.
Import Counts.

Definition checked (capacity : Z) (ops : list (queue_op (list Z))) (f : queue_state -> bool) : bool :=
  match MultiQueue_new (params capacity) true 0 with Some mq => run_check (params capacity) counts_ok (mq, []) ops f | None => false end.

Lemma checked_ok capacity ops f : checked capacity ops f = true -> exists mq held, queue_reachable (params capacity) (mq, held) /\ f (mq, held) = true.
Proof.
  unfold checked. destruct (MultiQueue_new (params capacity) true 0) as [mq|] eqn:E; [|done].
  apply (run_check_ok (params capacity) counts_ok (counts_good capacity)). by apply (qr_new (params capacity) true 0).
Qed.

(** Four regions with one filter; one of them is looked up three times, and
    another is held. *)
Lemma multi_queue_invariant_witness : exists mq held, queue_reachable (params 20) (mq, held) /\ list_of (queues mq) (Lru 1) = [3%nat; 4%nat; 1%nat] /\ held = [2%nat] /\
  forall k a, 1 <= k -> a ∈ list_of (queues mq) (Lru k) -> exists h, handle mq a = Some h /\ refs h = 1 /\ queue_id (data h) = k /\ curr_num mq h = Some k.
Proof.
  destruct (checked_ok 20 (open [1; 1; 1; 1] ++ regions [4; 4; 4; 4] ++ gets 1 3 ++ [OLookup (key_of 2) true])
    (fun s => bool_decide (list_of (queues s.1) (Lru 1) = [3; 4; 1]%nat) && bool_decide (s.2 = [2%nat]))) as (mq & held & Hr & Hf); [by vm_compute|].
  apply andb_true_iff in Hf as [H1%bool_decide_eq_true H2%bool_decide_eq_true]. exists mq, held. split_and!; [done|done|done|].
  apply (multi_queue_invariant (params 20) (counts_params_good 20) mq held Hr).
Defined.

(** Two regions with three filters in a cache for less than one of them: the
    second insertion never returns. *)
Lemma multi_queue_progress_witness : exists mq held, queue_reachable (params 10) (mq, held) /\ queue_step (params 10) (mq, held) (ORegion (key_of 2) 100 12) = None.
Proof.
  destruct (checked_ok 10 (open [3; 3] ++ regions [12]) (fun s => allowedb (params 10) counts_ok s (ORegion (key_of 2) 100 12) && op_spins (params 10) s (ORegion (key_of 2) 100 12)))
    as (mq & held & Hr & Hf); [by vm_compute|]. apply andb_true_iff in Hf as [Ha%(allowedb_ok _ _ (counts_good 10)) Hs]. exists mq, held. split; [done|].
  by apply (multi_queue_progress (params 10) (counts_params_good 10) _ _ Hr Ha).
Defined.

(** The usage is four above the capacity when a region with a filter is given
    back. *)
Lemma shrink_within_capacity_witness : exists mq held, queue_reachable (params 253952) (mq, held) /\ usage_ mq = 253956 /\
  exists mq', MayBeShrinkUsage (params 253952) mq = Some mq' /\ (usage_ mq' <= 253952 \/ queues_empty (params 253952) mq') /\ 253948 <= usage_ mq' <= 253956.
Proof.
  destruct (checked_ok 253952 (open [1; 0] ++ [ORegion (key_of 1) 100 253952; OLookup (key_of 1) false; ORegion (key_of 2) 100 4; ORelease 1])
    (fun s => negb (spins (params 253952) s.1) && (usage_ s.1 =? 253956))) as (mq & held & Hr & Hf); [by vm_compute|].
  apply andb_true_iff in Hf as [Hs%negb_true_iff Hu%Z.eqb_eq]. cbn [fst] in *. exists mq, held. split_and!; [done|done|].
  destruct (shrink_within_capacity (params 253952) (counts_params_good 253952) mq held Hr Hs) as (mq' & E & _ & H). exists mq'. split; [done|].
  change (max_bits (params 253952)) with 4 in H. change (capacity_ (params 253952)) with 253952 in H. destruct (H ltac:(lia) ltac:(lia)) as [H1 H2]. split; [done|lia].
Defined.

(** Three expired regions, two of them on queue 1: it is chosen. *)
Lemma chosen_queue_least_witness : exists mq held, queue_reachable (params 40) (mq, held) /\
  match choose_queue (params 40) mq 8 (S754_zero false) (seqZ 1 3) (SFone 53 1024, -1) with Some (_, i) => i = 1 | None => False end /\
  exists min_exp min_i, choose_queue (params 40) mq 8 (S754_zero false) (seqZ 1 3) (SFone 53 1024, -1) = Some (min_exp, min_i) /\
    forall i change, 1 <= i < 4 -> offers (params 40) mq 8 (S754_zero false) i change -> SFltb change min_exp = false.
Proof.
  destruct (checked_ok 40 (open [1; 1; 2] ++ regions [4; 4; 8] ++ replicate 60 OTick)
    (fun s => match choose_queue (params 40) s.1 8 (S754_zero false) (seqZ 1 3) (SFone 53 1024, -1) with Some (_, i) => i =? 1 | None => false end)) as (mq & held & Hr & Hf); [by vm_compute|].
  exists mq, held. split_and!; [done| |].
  - cbn [fst] in Hf. destruct (choose_queue _ _ _ _ _ _) as [[x i]|]; [by apply Z.eqb_eq|done].
  - destruct (chosen_queue_least (params 40) (counts_params_good 40) mq held 8 (S754_zero false) (SFone 53 1024) Hr) as (x & i & E & _ & H). exists x, i. by split.
Defined.
End QueueRuns.
