(* ===== verification/QueueFrame.v ===== *)
(** * QueueFrame: what no call on the multi queue changes

    Whatever a call of src/LSM-EBF/util/multi_queue.cc does: handles keep their
    key, their table and their region, and the table at an address stays the same
    object.  So what the table cache knows of its entries stays true. *)
From stdpp Require Import gmap.
From Stdlib Require Import SpecFloat.
From S2P Require Import Prelude Coding Status Hash Bloom Cache MultiQueue.

Section Frame.
Context {T A : Type} {RT : RegionTable T} (P : Params) (tag : T -> A).
Context (tag_remove : forall t n r d t', rt_remove t n r = Some (d, t') -> tag t' = tag t).
Context (tag_adjust : forall t n r d t', rt_adjust t n r = Some (d, t') -> tag t' = tag t).
Context (tag_access : forall t r t', rt_access t r = Some t' -> tag t' = tag t).
Implicit Types (mq : MultiQueue T) (m : Memory T) (h : LRUQueueHandle).

Definition ident h : bytes * Z * Z := (LRU.key h, q_value (data h), value_id (data h)).

(** Everything in [m'] comes from [m]. *)
Record evolves m m' : Prop := {
  ev_handle : forall a h', heap m' !! a = Some h' -> exists h, heap m !! a = Some h /\ ident h' = ident h;
  ev_table : forall p t', tables m' !! p = Some t' -> exists t, tables m !! p = Some t /\ tag t' = tag t;
  ev_next : next_addr m' = next_addr m
}.

#[export] Instance evolves_pre : PreOrder evolves.
Proof.
  split.
  - intros m. split; [intros a h Hh; by exists h|intros p t Ht; by exists t|done].
  - intros m1 m2 m3 [A1 A2 A3] [B1 B2 B3]. split; [| |congruence].
    + intros a h (h2 & H2 & E2)%B1. destruct (A1 a h2 H2) as (h1 & H1 & E1). exists h1. split; [done|congruence].
    + intros p t (t2 & H2 & E2)%B2. destruct (A2 p t2 H2) as (t1 & H1 & E1). exists t1. split; [done|congruence].
Qed.

Lemma evolves_put mq a h h' : handle mq a = Some h -> ident h' = ident h -> evolves (mem mq) (mem (put mq a h')).
Proof.
  intros Hh E. split; [|intros p t Ht; by exists t|done]. intros b hb. cbn. rewrite lookup_insert_Some. intros [[<- <-]|[_ Hb]]; [by exists h|by exists hb].
Qed.

(** A handle is written back after other changes. *)
Lemma evolves_put_back mq mq1 a h h' : evolves (mem mq) (mem mq1) -> handle mq a = Some h -> ident h' = ident h -> evolves (mem mq) (mem (put mq1 a h')).
Proof.
  intros [E1 E2 E3] Hh E. split; [|done|done]. intros b hb. cbn. rewrite lookup_insert_Some. intros [[<- <-]|[_ Hb]]; [by exists h|by apply E1].
Qed.

Lemma evolves_put_table mq p t t' : tables (mem mq) !! p = Some t -> tag t' = tag t -> evolves (mem mq) (mem (put_table mq p t')).
Proof.
  intros Ht E. split; [intros a h Hh; by exists h| |done]. intros q tq. cbn. rewrite lookup_insert_Some. intros [[<- <-]|[_ Hq]]; [by exists t|by exists tq].
Qed.

(** ** Inversion of a run *)

Ltac run_inv :=
  repeat match goal with
  | H : mbind _ _ = Some _ |- _ => apply bind_Some in H as (? & ? & H)
  | H : Some _ = Some _ |- _ => injection H; clear H; intros; subst
  | H : None = Some _ |- _ => discriminate H
  | H : (let '(_, _) := ?x in _) = Some _ |- _ => destruct x
  | H : (if ?b then _ else _) = Some _ |- _ => destruct b eqn:?
  | H : match ?x with _ => _ end = Some _ |- _ => destruct x eqn:?
  end.

Lemma add_len_same mq k d mq' : add_len mq k d = Some mq' -> mem mq' = mem mq.
Proof. unfold add_len. intros H. by run_inv. Qed.

Lemma add_freq_same mq k d mq' : add_freq mq k d = Some mq' -> mem mq' = mem mq.
Proof. unfold add_freq. intros H. by run_inv. Qed.

Lemma LRU_Append_evolves mq l e mq' : LRU_Append mq l e = Some mq' -> evolves (mem mq) (mem mq').
Proof. unfold LRU_Append. intros H. run_inv; [done|]. by eapply (evolves_put (with_queues mq _)). Qed.

Lemma remove_filter_evolves mq h d mq' : remove_filter mq h = Some (d, mq') -> evolves (mem mq) (mem mq').
Proof. unfold remove_filter. intros H. run_inv. eapply evolves_put_table; [done|]. by eapply tag_remove. Qed.

Lemma adjust_filters_evolves mq h n d mq' : adjust_filters mq h n = Some (d, mq') -> evolves (mem mq) (mem mq').
Proof. unfold adjust_filters. intros H. run_inv. eapply evolves_put_table; [done|]. by eapply tag_adjust. Qed.

Lemma set_access_evolves mq h mq' : set_access mq h = Some mq' -> evolves (mem mq) (mem mq').
Proof. unfold set_access. intros H. run_inv. eapply evolves_put_table; [done|]. by eapply tag_access. Qed.

(** Equal memories on the way are replaced. *)
Ltac same_mem :=
  repeat match goal with
  | H : add_len _ _ _ = Some _ |- _ => apply add_len_same in H
  | H : add_freq _ _ _ = Some _ |- _ => apply add_freq_same in H
  end; cbn [mem add_sum with_queues with_usage with_exp with_flags with_table LRU_Remove] in *;
  repeat match goal with E : mem ?x = mem _ |- _ => rewrite E in *; clear E end.

(** [handle] reads the memory. *)
Lemma handle_mem mq mq' a : mem mq' = mem mq -> handle mq' a = handle mq a.
Proof. unfold handle. by intros ->. Qed.

Lemma demote_evolves mq k old mq' : demote mq k old = Some mq' -> evolves (mem mq) (mem mq').
Proof. unfold demote. intros H. run_inv. apply LRU_Append_evolves in H. by same_mem. Qed.

Lemma evict_expired_evolves fuel : forall mq k need bits mq', evict_expired P fuel mq k need bits = Some mq' -> evolves (mem mq) (mem mq').
Proof.
  induction fuel as [|fuel IH]; intros mq k need bits mq' H; cbn [evict_expired] in H; [done|]. run_inv; try done.
  match goal with R : remove_filter _ _ = Some _, D : demote _ _ _ = Some _ |- _ => apply remove_filter_evolves in R; apply demote_evolves in D; cbn in D end.
  apply IH in H. by do 2 (etrans; [eassumption|]).
Qed.

Lemma promote_evolves mq e mq' : promote mq e = Some mq' -> evolves (mem mq) (mem mq').
Proof.
  unfold promote. intros H. run_inv. eapply (evolves_put_back mq); [by same_mem|done|done].
Qed.

Lemma RecomputeExp_evolves mq e mq' : RecomputeExp P mq e = Some mq' -> evolves (mem mq) (mem mq').
Proof.
  unfold RecomputeExp. intros (h & Hh & H)%bind_Some.
  assert (Hp : forall n, evolves (mem mq) (mem (put mq e (set_fre h n)))) by (intros n; by eapply evolves_put).
  destruct (_ || _).
  - run_inv. same_mem. apply Hp.
  - cbv zeta in H. run_inv; cbn [mem with_exp] in *; try apply Hp.
    + etrans; [|by eapply promote_evolves]. etrans; [|by eapply evict_expired_evolves]. apply Hp.
    + etrans; [|by eapply promote_evolves]. apply Hp.
Qed.

Lemma shrink_head_evolves mq k old d mq' : shrink_head P mq k old = Some (d, mq') -> evolves (mem mq) (mem mq').
Proof.
  unfold shrink_head. intros H. cbv zeta in H. run_inv.
  match goal with R : remove_filter _ _ = Some _, D : demote _ _ _ = Some _ |- _ => apply remove_filter_evolves in R; apply demote_evolves in D; cbn in D end.
  match goal with D : evolves _ (mem mq') |- _ => etrans; [|exact D] end.
  match goal with R : evolves (mem mq) (mem ?m), Hh : handle mq old = Some ?h |- _ => refine (evolves_put_back mq m old h (set_fre (with_charge h _) _) R Hh eq_refl) end.
Qed.

Lemma shrink_queue_evolves fuel : forall mq k removed limit r mq', shrink_queue P fuel mq k removed limit = Some (r, mq') -> evolves (mem mq) (mem mq').
Proof.
  induction fuel as [|fuel IH]; intros mq k removed limit r mq' H; cbn [shrink_queue] in H; [done|]. run_inv; try done.
  apply IH in H. etrans; [by eapply shrink_head_evolves|done].
Qed.

Lemma shrink_down_evolves k : forall mq removed limit r mq', shrink_down P k mq removed limit = Some (r, mq') -> evolves (mem mq) (mem mq').
Proof.
  induction k as [|k IH]; intros mq removed limit r mq' H; cbn [shrink_down] in H; run_inv; try done.
  apply IH in H. etrans; [by eapply shrink_queue_evolves|done].
Qed.

Lemma force_queue_evolves fuel : forall mq k removed limit mq', force_queue P fuel mq k removed limit = Some mq' -> evolves (mem mq) (mem mq').
Proof.
  induction fuel as [|fuel IH]; intros mq k removed limit mq' H; cbn [force_queue] in H; [done|]. run_inv; try done.
  apply IH in H. etrans; [by eapply shrink_head_evolves|done].
Qed.

Lemma ShrinkLRU_evolves mq k limit force b mq' : ShrinkLRU P mq k limit force = Some (b, mq') -> evolves (mem mq) (mem mq').
Proof. unfold ShrinkLRU. intros H. run_inv; try done; [by eapply force_queue_evolves|by eapply shrink_down_evolves]. Qed.

Lemma MayBeShrinkUsage_evolves mq mq' : MayBeShrinkUsage P mq = Some mq' -> evolves (mem mq) (mem mq').
Proof.
  unfold MayBeShrinkUsage. intros H. cbv zeta in H. run_inv; try done; repeat match goal with S : ShrinkLRU _ _ _ _ _ = Some _ |- _ => apply ShrinkLRU_evolves in S; cbn in S end; [done|by etrans].
Qed.

(** ** Calls *)

Lemma Ref_evolves mq e b mq' : Ref P mq e b = Some mq' -> evolves (mem mq) (mem mq').
Proof.
  unfold Ref. intros (h & Hh & (mq1 & H1 & (mq2 & H2 & (h2 & Hh2 & [= <-])%bind_Some)%bind_Some)%bind_Some)%bind_Some.
  assert (E1 : evolves (mem mq) (mem mq1)). { clear H2 Hh2. run_inv; [|done]. same_mem. by eapply (LRU_Append_evolves (LRU_Remove mq e)). }
  assert (E2 : evolves (mem mq) (mem (put mq1 e (LRU.set_refs h (u32 (refs h + 1)))))) by (by eapply evolves_put_back).
  assert (E3 : evolves (mem mq) (mem mq2)).
  { clear H1 Hh2. run_inv; [|etrans; [exact E2|]; by eapply set_access_evolves|done]. etrans; [exact E2|]. etrans; [by eapply set_access_evolves|by eapply RecomputeExp_evolves]. }
  etrans; [exact E3|]. by eapply evolves_put.
Qed.

Lemma deallocate_evolves mq e h mq' : deallocate P mq e h = Some mq' -> evolves (mem mq) (mem mq').
Proof.
  unfold deallocate. intros H. run_inv; (split; cbn; [intros a h'; rewrite lookup_delete_Some; intros [_ ?]; by exists h'| |done]).
  - intros p t. rewrite lookup_delete_Some. intros [_ ?]. by exists t.
  - intros p t Ht. by exists t.
Qed.

Lemma settle_evolves mq e h g mq' : handle mq e = Some h -> settle P mq e h = Some (g, mq') -> evolves (mem mq) (mem mq').
Proof.
  unfold settle. intros Hh H. run_inv; try reflexivity.
  - match goal with R : adjust_filters _ _ _ = Some _ |- _ => apply adjust_filters_evolves in R; apply (evolves_put_back mq _ e h (with_charge h _) R Hh eq_refl) end.
  - apply (evolves_put mq e h (with_charge (set_queue h _) _) Hh eq_refl).
Qed.

Lemma requeue_evolves mq e mq' : requeue mq e = Some mq' -> evolves (mem mq) (mem mq').
Proof. unfold requeue. intros H. run_inv. same_mem. by eapply (LRU_Append_evolves (LRU_Remove mq e)). Qed.

Lemma Unref_evolves mq e mq' : Unref P mq e = Some mq' -> evolves (mem mq) (mem mq').
Proof.
  unfold Unref. intros (h & Hh & H)%bind_Some. destruct (0 <? refs h); [|done]. cbv zeta in H. set (h1 := LRU.set_refs h (refs h - 1)) in *.
  assert (E1 : evolves (mem mq) (mem (put mq e h1))) by (by eapply evolves_put). assert (Hh1 : handle (put mq e h1) e = Some h1) by apply lookup_insert_eq.
  destruct (refs h1 =? 0); [destruct (in_cache h1); [done|]; etrans; [exact E1|by eapply deallocate_evolves]|].
  destruct (_ && _); [|by run_inv]. apply bind_Some in H as ([g mq1] & Hs & (mq2 & H2 & H3)%bind_Some). apply (settle_evolves _ _ _ _ _ Hh1) in Hs. apply requeue_evolves in H3.
  etrans; [exact E1|]. etrans; [exact Hs|]. etrans; [|exact H3]. destruct g; [by apply MayBeShrinkUsage_evolves|by run_inv].
Qed.

Lemma Lookup_evolves mq k get r mq' : Lookup P mq k get = Some (r, mq') -> evolves (mem mq) (mem mq').
Proof. unfold Lookup. intros H. run_inv; [by eapply Ref_evolves|reflexivity]. Qed.

Lemma SetFreCount_evolves mq k n mq' : SetFreCount P mq k n = Some mq' -> evolves (mem mq) (mem mq').
Proof. unfold SetFreCount. intros H. run_inv; [|reflexivity]. by eapply evolves_put. Qed.

Lemma FinishErase_evolves mq e r mq' : FinishErase P mq e = Some (r, mq') -> evolves (mem mq) (mem mq').
Proof.
  unfold FinishErase. destruct e as [a|]; [|intros H; by run_inv]. intros (h & Hh & H)%bind_Some. destruct (in_cache h); [|done].
  apply bind_Some in H as (mq1 & H1 & (mq2 & H2 & [= <- <-])%bind_Some). apply Unref_evolves in H2. etrans; [|exact H2].
  assert (E : mem mq1 = mem mq) by (clear H2; run_inv; by same_mem). apply (evolves_put_back mq mq1 a h (LRU.set_in_cache h false)); [by rewrite E|done|done].
Qed.

Lemma Erase_evolves mq k mq' : Erase P mq k = Some mq' -> evolves (mem mq) (mem mq').
Proof. unfold Erase. intros H. run_inv. by eapply (FinishErase_evolves (with_table mq _)). Qed.

(** ** Insertion *)

Lemma enter_evolves mq e mq' : enter P mq e = Some mq' -> evolves (mem mq) (mem mq').
Proof. unfold enter. intros H. run_inv. by eapply (FinishErase_evolves (with_table mq _)). Qed.

Lemma link_region_evolves mq e k id r mq' : link_region mq e k id = Some (r, mq') -> evolves (mem mq) (mem mq').
Proof. unfold link_region. intros H. run_inv; [reflexivity|]. by eapply evolves_put. Qed.

Lemma insert_table_evolves mq e h mq' : handle mq e = Some h -> value_id (data h) = 0 -> insert_table P mq e h = Some mq' -> evolves (mem mq) (mem mq').
Proof.
  unfold insert_table. intros Hh Hid (mq1 & H1 & H2)%bind_Some. apply enter_evolves in H2. apply LRU_Append_evolves in H1. etrans; [|exact H2]. etrans; [|exact H1].
  eapply evolves_put; [exact Hh|]. unfold ident. cbn. by rewrite Hid.
Qed.

Lemma insert_region_evolves mq e h mq' : handle mq e = Some h -> insert_region P mq e h = Some mq' -> evolves (mem mq) (mem mq').
Proof.
  unfold insert_region. intros Hh (t & _ & H)%bind_Some. destruct t as [a|]; [|done]. apply bind_Some in H as (ht & Hht & H). cbv zeta in H.
  apply bind_Some in H as ([prev mq1] & H1 & H). apply bind_Some in H as (mq2 & H2 & H). apply bind_Some in H as (mq3 & H3 & H). apply enter_evolves in H. cbn [mem with_usage add_sum with_queues] in H.
  apply add_len_same in H3. rewrite H3 in H. clear H3. apply LRU_Append_evolves in H2. apply link_region_evolves in H1. etrans; [|exact H]. etrans; [|exact H2].
  eapply (evolves_put_back mq mq1 e h); [|exact Hh|done]. etrans; [|exact H1]. by eapply evolves_put.
Qed.

(** The memory with the new handle. *)
Definition with_handle m h : Memory T := MkMemory (<[next_addr m := h]> (heap m)) (S (next_addr m)) (deleted m) (tables m).

Lemma insert_handle_evolves mq k value ch type e mq' : insert_handle P mq k value ch type = Some (e, mq') ->
  e = next_addr (mem mq) /\ exists h, ident h = (k, value, DecodeFixed32 (drop 8 k)) /\ evolves (with_handle (mem mq) h) (mem mq').
Proof.
  unfold insert_handle. destruct (zlen k <? 12); [done|]. cbv zeta. intros (t & Ht & (n & Hn & H)%bind_Some)%bind_Some.
  set (h := LRU.MkLRUHandle _ _ _ _ _ _) in H. set (mqA := with_flags _ _ _ _ _ _) in H. assert (Hh : handle mqA (next_addr (mem mq)) = Some h) by apply lookup_insert_eq.
  apply bind_Some in H as (mq1 & H1 & [= <- <-]). split; [done|]. exists h. split; [done|]. change (with_handle (mem mq) h) with (mem mqA).
  destruct (Z.eqb_spec (DecodeFixed32 (drop 8 k)) 0) as [E|]; [by eapply insert_table_evolves|]. destruct (0 <? capacity_ P); [by eapply insert_region_evolves|by run_inv].
Qed.

Lemma Insert_evolves mq k value ch type e mq' : Insert P mq k value ch type = Some (e, mq') ->
  e = next_addr (mem mq) /\ exists h, ident h = (k, value, DecodeFixed32 (drop 8 k)) /\ evolves (with_handle (mem mq) h) (mem mq').
Proof.
  unfold Insert. intros ([e1 mq1] & H1 & (mq2 & H2 & [= <- <-])%bind_Some)%bind_Some. destruct (insert_handle_evolves _ _ _ _ _ _ _ H1) as (-> & h & Hi & He).
  split; [done|]. exists h. split; [done|]. etrans; [exact He|]. by apply MayBeShrinkUsage_evolves.
Qed.
End Frame.
