(* ===== verification/QueueTables.v ===== *)
(** * QueueTables: the multi queue over the tables of table.cc

    The tables of Table.v, whose filters are loaded and dropped by TableFilters.v,
    keep the promises [RegionTableLaws] that the multi queue relies on.  So in
    every run of the queue over opened tables the queue of a region tells how many
    of its filter blocks are in memory. *)
From stdpp Require Import gmap.
From Stdlib Require Import SpecFloat.
From S2P Require Import Prelude Coding Status TableFormat Block FilterBlock TableFilters TableBuilder Table.
From S2P Require Import Hash Bloom Cache MultiQueue QueueLists QueueInvariant QueueClient QueueHistory.

Section Tables.
Context `{!FilterPolicy}.

(** [Table::setAccess]. *)
Definition setAccess (t : Table.Table) (regionId : Z) : option Table.Table :=
  _ ← at_ (Table.has_access t) regionId; Some (Table.with_access t (<[Z.to_nat regionId := true]> (Table.has_access t))).

#[global] Instance table_regions : RegionTable Table.Table := {
  rt_num t r := getCurrFilterNum (Table.rep t) r;
  rt_remove t n r := '(delta, rep) ← TableFilters.RemoveFilters (Table.rep t) n r; Some (delta, Table.with_rep t rep);
  rt_adjust t n r := '(delta, rep) ← TableFilters.AdjustFilters (Table.rep t) n r; Some (delta, Table.with_rep t rep);
  rt_access t r := setAccess t r
}.

(** A table opened on filter blocks that were written for [counts] of filters. *)
Definition table_counts (t : Table.Table) (counts : list Z) : Prop :=
  exists outs RF regions hs file, written outs RF regions hs file /\ table_ok outs RF regions hs file (Table.rep t) counts /\
    length (Table.has_access t) = regions /\ Z.of_nat regions < 2 ^ 31.

(** The queue's parameters are those of the filters of the tables. *)
Record params_match (P : Params) : Prop := {
  pm_num : lrus_num_ P = Z.of_nat filterNums + 1;
  pm_bits : MultiQueue.bits_per_key_per_filter_ P = 0 :: take filterNums FilterBlock.bits_per_key_per_filter_
}.

Section Laws.
Context (P : Params) (HP : params_ok P) (HM : params_match P).

Lemma table_num t counts r c : table_counts t counts -> counts !! r = Some c -> rt_num t (Z.of_nat r) = Some c.
Proof. intros (outs & RF & regions & hs & file & Hw & Ht & _) Hc. by apply (getCurrFilterNum_ok outs RF regions hs file (Table.rep t) counts). Qed.

Lemma table_regions_num t counts : table_counts t counts -> getRegionNum (Table.rep t) = zlen counts /\ zlen counts < 2 ^ 31.
Proof.
  intros (outs & RF & regions & hs & file & Hw & Ht & _ & Hr). rewrite (getRegionNum_ok outs RF regions hs file Hw _ _ Ht). unfold zlen. rewrite (tk_counts _ _ _ _ _ _ _ Ht). done.
Qed.

Lemma table_count_range t counts r c : table_counts t counts -> counts !! r = Some c -> 0 <= c <= Z.of_nat filterNums.
Proof. intros (outs & RF & regions & hs & file & Hw & Ht & _) Hc. by apply (count_range outs RF regions hs file (Table.rep t) counts r c Ht Hc). Qed.

Lemma table_num_iff t counts r c : table_counts t counts -> 0 <= r < zlen counts -> rt_num t r = Some c <-> counts !! Z.to_nat r = Some c.
Proof.
  intros Ht Hr. destruct (lookup_lt_is_Some_2 counts (Z.to_nat r)) as [c' Hc']; [unfold zlen in Hr; lia|]. pose proof (table_num t counts _ _ Ht Hc') as E.
  rewrite Z2Nat.id in E by lia. rewrite E, Hc'. split; congruence.
Qed.

Lemma table_num_none t : rt_num t (-1) = Some 0.
Proof. cbn. unfold getCurrFilterNum. by destruct (filter (Table.rep t)). Qed.

(** The filters of one region change. *)
Lemma table_num_insert t t' counts r c : table_counts t counts -> table_counts t' (<[Z.to_nat r := c]> counts) -> 0 <= r < zlen counts ->
  rt_num t' r = Some c /\ forall r', -1 <= r' < zlen counts -> r' <> r -> rt_num t' r' = rt_num t r'.
Proof.
  intros Ht Ht' Hr. split.
  - apply (table_num_iff _ _ _ _ Ht'); [by rewrite zlen_insert|]. apply list_lookup_insert_eq. unfold zlen in Hr. lia.
  - intros r' Hr' Hne. destruct (decide (r' = -1)) as [->|]; [by rewrite !table_num_none|].
    destruct (lookup_lt_is_Some_2 counts (Z.to_nat r')) as [c' Hc']; [unfold zlen in Hr'; lia|].
    rewrite (proj2 (table_num_iff t counts r' c' Ht ltac:(lia)) Hc'). apply (table_num_iff _ _ _ _ Ht'); [rewrite zlen_insert; lia|].
    rewrite list_lookup_insert_ne by lia. done.
Qed.

Lemma bits_at c b : 0 < c <= Z.of_nat filterNums -> FilterBlock.bits_per_key_per_filter_ !! (Z.to_nat c - 1)%nat = Some b ->
  at_ (MultiQueue.bits_per_key_per_filter_ P) c = Some b.
Proof.
  intros Hc Hb. rewrite at_lookup, (pm_bits _ HM), lookup_cons_ne_0 by lia. rewrite lookup_take_lt by lia. by replace (pred (Z.to_nat c)) with (Z.to_nat c - 1)%nat by lia.
Qed.

Lemma table_remove t counts r c : table_counts t counts -> counts !! r = Some c -> 0 < c ->
  exists d t', rt_remove t 1 (Z.of_nat r) = Some (d, t') /\ at_ (MultiQueue.bits_per_key_per_filter_ P) c = Some d /\ table_counts t' (<[r := c - 1]> counts).
Proof.
  intros (outs & RF & regions & hs & file & Hw & Ht & Ha & Hr) Hc H0. destruct (count_range _ _ _ _ _ _ _ _ _ Ht Hc) as [Hcr Hrr].
  assert (Hf : filter (Table.rep t) <> None).
  { intros E. pose proof (tk_reader _ _ _ _ _ _ _ Ht) as Hd. rewrite E in Hd. rewrite Hd in Hc. apply lookup_replicate in Hc as [Hc _]. lia. }
  destruct (RemoveFilters_ok outs RF regions hs file Hw (Table.rep t) counts r c 1 Ht Hf Hc ltac:(lia)) as (rep' & E & Ht'). cbn [rt_remove table_regions]. rewrite E. cbn [mbind option_bind].
  destruct (wr_bits _ _ _ _ _ Hw (Z.to_nat c - 1) ltac:(lia)) as [b Hb]. exists b. eexists. split_and!.
  - do 2 f_equal. change (Z.to_nat 1) with 1%nat. cbn [refund]. rewrite Hb. cbn [default]. change (id b) with b. apply u64_small. enough (0 <= b < 2 ^ 31) by lia.
    apply (po_bit _ HP c b). apply bits_at; [lia|done].
  - apply bits_at; [lia|done].
  - exists outs, RF, regions, hs, file. by split_and!.
Qed.

Lemma table_adjust t counts r c n : table_counts t counts -> counts !! r = Some c -> c < n <= Z.of_nat filterNums ->
  exists d t', rt_adjust t n (Z.of_nat r) = Some (d, t') /\ table_counts t' (<[r := n]> counts).
Proof.
  intros (outs & RF & regions & hs & file & Hw & Ht & Ha & Hr) Hc Hn. destruct (count_range _ _ _ _ _ _ _ _ _ Ht Hc) as [Hcr Hrr].
  destruct (AdjustFilters_ok outs RF regions hs file Hw (Table.rep t) counts r c n Ht Hc) as (rep' & E & Ht'). cbn [rt_adjust table_regions]. rewrite E. cbn [mbind option_bind].
  eexists _, _. split; [done|]. exists outs, RF, regions, hs, file. split_and!; try done. cbn. unfold adjusted in Ht'. rewrite (proj2 (Z.ltb_lt _ _)) in Ht' by lia.
  by replace (Z.max c (Z.min n (Z.of_nat filterNums))) with n in Ht' by lia.
Qed.

#[global] Program Instance table_laws : RegionTableLaws Table.Table table_regions P := {
  rt_ok t := exists counts, table_counts t counts;
  rt_regions t := getRegionNum (Table.rep t)
}.
Next Obligation. intros t [counts Ht]. destruct (table_regions_num t counts Ht) as [-> ?]. split; [apply zlen_nonneg|done]. Qed.
Next Obligation.
  intros t r [counts Ht] Hr. cbn beta in Hr. destruct (table_regions_num t counts Ht) as [E _]. rewrite E in Hr. destruct (lookup_lt_is_Some_2 counts (Z.to_nat r)) as [c Hc]; [unfold zlen in Hr; lia|].
  exists c. split; [by apply (table_num_iff t counts)|]. pose proof (table_count_range t counts _ c Ht Hc). rewrite (pm_num _ HM). lia.
Qed.
Next Obligation. intros t _. apply table_num_none. Qed.
Next Obligation.
  intros t r c [counts Ht] Hr Hc H0. cbn beta in Hr. destruct (table_regions_num t counts Ht) as [E _]. rewrite E in Hr. apply (table_num_iff t counts) in Hc; [|done|done].
  destruct (table_remove t counts (Z.to_nat r) c Ht Hc H0) as (d & t' & Er & Hb & Ht'). rewrite Z2Nat.id in Er by lia. exists d, t'. destruct (table_regions_num t' _ Ht') as [E' _].
  destruct (table_num_insert t t' counts r (c - 1) Ht Ht' Hr) as [N1 N2]. rewrite E, E', zlen_insert. split_and!; try done. by exists (<[Z.to_nat r := c - 1]> counts).
Qed.
Next Obligation.
  intros t r c n [counts Ht] Hr Hc Hn. cbn beta in Hr. rewrite (pm_num _ HM) in Hn. destruct (table_regions_num t counts Ht) as [E _]. rewrite E in Hr. apply (table_num_iff t counts) in Hc; [|done|done].
  destruct (table_adjust t counts (Z.to_nat r) c n Ht Hc ltac:(lia)) as (d & t' & Er & Ht'). rewrite Z2Nat.id in Er by lia. exists d, t'. destruct (table_regions_num t' _ Ht') as [E' _].
  destruct (table_num_insert t t' counts r n Ht Ht' Hr) as [N1 N2]. rewrite E, E', zlen_insert. split_and!; try done. by exists (<[Z.to_nat r := n]> counts).
Qed.
Next Obligation.
  intros t r [counts Ht] Hr. cbn beta in Hr. destruct (table_regions_num t counts Ht) as [E _]. rewrite E in Hr. destruct Ht as (outs & RF & regions & hs & file & Hw & Ht & Ha & Hz).
  pose proof (tk_counts _ _ _ _ _ _ _ Ht). destruct (at_Some (Table.has_access t) r) as [b Hb]; [unfold zlen in *; lia|]. cbn [rt_access table_regions]. unfold setAccess. rewrite Hb. cbn [mbind option_bind].
  eexists. split_and!; [done| |done|done]. exists counts, outs, RF, regions, hs, file. split_and!; try done. cbn. by rewrite length_insert.
Qed.
End Laws.
(** ** The parameters of the constructor *)

Lemma running_sums_ok bits : forall acc, 0 <= acc -> Forall (fun b => 0 < b) bits -> acc + foldr Z.add 0 bits < 2 ^ 31 ->
  length (running_sums acc bits) = length bits /\ Forall (fun s => 0 < s < 2 ^ 31) (running_sums acc bits).
Proof.
  induction bits as [|b bits IH]; intros acc Ha Hb Hs; cbn in *; [done|]. apply Forall_cons in Hb as [Hb Hbs].
  assert (0 <= foldr Z.add 0 bits) by (clear -Hbs; induction Hbs; cbn; lia). assert (E : i32 (acc + b) = acc + b) by (unfold i32; rewrite Z.mod_small by lia; lia).
  rewrite E. destruct (IH (acc + b) ltac:(lia) Hbs ltac:(lia)) as [IH1 IH2]. split; [lia|]. constructor; [lia|done].
Qed.

Lemma sum_bound bits b : Forall (fun b => 0 < b) bits -> b ∈ bits -> 0 < b <= foldr Z.add 0 bits.
Proof.
  intros Hb. induction Hb as [|x bits Hx Hb IH]; [by intros ?%elem_of_nil|]. assert (0 <= foldr Z.add 0 bits) by (clear -Hb; induction Hb; cbn; lia).
  intros [->|Hin]%elem_of_cons; cbn; [lia|]. specialize (IH Hin). lia.
Qed.

(** One queue for each number of filters of the policy. *)
Lemma constructor_params pow capacity life ratio head P :
  MultiQueue_params pow FilterBlock.bits_per_key_per_filter_ capacity (Z.of_nat filterNums + 1) life ratio head = Some P ->
  1 <= Z.of_nat filterNums < 2 ^ 16 - 1 -> Forall (fun b => 0 < b) (take filterNums FilterBlock.bits_per_key_per_filter_) ->
  foldr Z.add 0 (take filterNums FilterBlock.bits_per_key_per_filter_) < 2 ^ 31 -> params_ok P /\ params_match P /\ capacity_ P = capacity.
Proof.
  unfold MultiQueue_params. replace (Z.to_nat (Z.of_nat filterNums + 1 - 1)) with filterNums by lia. set (bits := take filterNums _). intros E Hn Hb Hs.
  destruct (Nat.eqb_spec (length bits) filterNums) as [Hl|]; [|done]. injection E as <-. destruct (running_sums_ok bits 0 ltac:(lia) Hb ltac:(lia)) as [Hrl Hrs].
  split; [|done]. split; cbn; rewrite ?zlen_cons; unfold zlen; rewrite ?length_fmap, ?Hrl, ?Hl; try lia.
  - intros k x Hk Hx. pose proof (at_range _ _ _ Hx). rewrite at_lookup, lookup_cons_ne_0, list_lookup_fmap in Hx by lia. apply fmap_Some in Hx as (y & Hy & ->).
    pose proof (Forall_lookup_1 _ _ _ _ Hrs Hy). cbn beta in *. rewrite u64_small; lia.
  - intros k b Hx. pose proof (at_range _ _ _ Hx). destruct (decide (k = 0)) as [->|]; [injection Hx as <-; lia|]. rewrite at_lookup, lookup_cons_ne_0 in Hx by lia.
    pose proof (sum_bound bits b Hb (list_elem_of_lookup_2 _ _ _ Hx)). lia.
Qed.

(** ** Property *)

(** C22. In every run of the multi queue over opened tables, with one queue for
    each number of filters of their policy, a region whose handle is on queue
    [k >= 1] belongs to a table in memory that has loaded exactly the first [k]
    filter blocks of that region. *)
Theorem queue_tells_loaded_filters P (HP : params_ok P) (HM : params_match P) mq held k a :
  queue_reachable (L := table_laws P HP HM) P (mq, held) -> 1 <= k -> a ∈ list_of (queues mq) (Lru k) ->
  exists h t counts, handle mq a = Some h /\ tables (mem mq) !! q_value (data h) = Some t /\ table_counts t counts /\
    counts !! Z.to_nat (value_id (data h) - 1) = Some k.
Proof.
  intros Hr Hk Ha. destruct (reachable_ok P HP _ Hr) as [ids Hm]. cbn [fst snd] in Hm. pose proof (mk_queue _ _ _ _ Hm) as Hq. apply (ls_place _ _ _ (qo_lists _ _ _ Hq)) in Ha.
  destruct (queued P None mq a k Hq Ha) as (h & Hh & _ & _ & Eq & [_ V1 (t & Ht & [counts Hc] & V2 & Hn) V3 _] & _). exists h, t, counts. split_and!; [done|done|done|].
  assert (value_id (data h) <> 0) by (intros E; specialize (V3 E); lia). destruct (table_regions_num t counts Hc) as [E _]. cbn [rt_regions table_laws] in V2. rewrite E in V2.
  apply (table_num_iff t counts); [done|lia|]. by apply (Hn k).
Qed.
End Tables.

(** ** A run over the table of TableFilters.v *)

Module TableRun.
#[local] Existing Instance example_policy.

Definition params : Params :=
  default (MkParams 0 0 0 (S754_zero false) [] [] [] 0)
    (MultiQueue_params Counts.rate FilterBlock.bits_per_key_per_filter_ 20 (Z.of_nat filterNums + 1) 50 (S754_zero false) 0).

Lemma table_params_good : params_ok params /\ params_match params /\ capacity_ params = 20.
Proof.
  apply (constructor_params Counts.rate 20 50 (S754_zero false) 0); [done|split; vm_compute; congruence| |by vm_compute].
  apply (bool_decide_unpack _). by vm_compute.
Qed.

(** The table of TableFilters.v with the first filter of both regions. *)
Definition loaded_rep : TableRep := default example_table (table_run example_table [OpAdjustRange 1 0 1]).

Definition options : Options := MkOptions 0 false 4096 16 kNoCompression (Some (str "bloom")) true 1 65536 65536 16.
Definition table : Table.Table := Table.MkTbl loaded_rep options 0 (MkHandle 0 0) (MkBlock [] 0 0) [false; false] [].

Lemma table_good : table_counts table [1; 1].
Proof.
  destruct example_table_ok as (outs & Hw & Ht). destruct (table_run_ok outs 1 2 _ _ [OpAdjustRange 1 0 1] Hw example_table [0; 0] [1; 1] Ht ltac:(done)) as (t' & Hrun & Ht').
  exists outs, 1%nat, 2%nat, example_handles, (t_file example_table). split_and!; try done. change (Table.rep table) with loaded_rep. unfold loaded_rep. by rewrite Hrun.
Qed.

Definition key_of (r : Z) : bytes := EncodeFixed64 7 ++ EncodeFixed32 r.

Section Run.
Context (HP : params_ok params) (HM : params_match params).
#[local] Instance laws : RegionTableLaws Table.Table table_regions params := table_laws params HP HM.

(** The table is opened; then its regions are entered and the first of them is
    looked up. *)
Lemma run_reachable ops f :
  match MultiQueue_new params true 0 with
  | Some mq =>
      match queue_step params (mq, []) (OOpen (key_of 0) 100 table) with
      | Some s => run_check params (fun _ => false) s ops f
      | None => false
      end
  | None => false
  end = true -> exists mq held, queue_reachable params (mq, held) /\ f (mq, held) = true.
Proof.
  destruct (MultiQueue_new params true 0) as [mq|] eqn:E; [|done]. destruct (queue_step params (mq, []) (OOpen (key_of 0) 100 table)) as [s|] eqn:Es; [|done].
  apply (run_check_ok params (fun _ => false)); [done|]. apply (qr_step params (mq, []) (OOpen (key_of 0) 100 table)); [by apply (qr_new params true 0)| |done].
  unfold MultiQueue_new in E. apply bind_Some in E as (ht & _ & [= <-]). cbn [queue_allowed]. split_and!; [done|exists [1; 1]; apply table_good|done|done|done|done].
Qed.
End Run.

Lemma queue_tells_loaded_filters_witness : exists (HP : params_ok params) (HM : params_match params) mq held,
  queue_reachable (L := table_laws params HP HM) params (mq, held) /\ list_of (queues mq) (Lru 1) = [2%nat; 1%nat] /\
  exists h t counts, handle mq 1 = Some h /\ tables (mem mq) !! q_value (data h) = Some t /\ table_counts t counts /\
    counts !! Z.to_nat (value_id (data h) - 1) = Some 1.
Proof.
  destruct table_params_good as (HP & HM & _). exists HP, HM.
  destruct (run_reachable HP HM [ORelease 0; ORegion (key_of 1) 100 4; ORegion (key_of 2) 100 4; OLookup (key_of 1) true; ORelease 1]
    (fun s => bool_decide (list_of (queues s.1) (Lru 1) = [2; 1]%nat))) as (mq & held & Hr & Hf%bool_decide_eq_true); [by vm_compute|].
  exists mq, held. split_and!; [done|done|]. apply (queue_tells_loaded_filters params HP HM mq held 1 1 Hr); [lia|]. cbn [fst] in Hf. rewrite Hf. right. left.
Defined.
End TableRun.
