(* ===== verification/DbCompact.v ===== *)
(** * DbCompact: the work of a compaction

    [DBImpl::DoCompactionWork] of src/LSM-EBF/db/db_impl.cc with its output files,
    and the list of snapshots of db/snapshot.h.  The inputs come from any class of
    iterators; the compaction, its version set and the builders of the outputs are
    those of Compaction.v, VersionSet.v and TableBuilder.v.  The mutex is released
    during the work, so what other threads decide is given from outside: [fresh i]
    is the [i]-th file number [NewFileNumber] returns, [stop k] the [k]-th value
    read from [shutting_down_].  Writing out a full memtable in between
    ([CompactMemTable]) touches nothing of the compaction and is left out, as are
    statistics and the info log.  [None] is a failed assertion or an undefined
    run. *)
From stdpp Require Import gmap.
From S2P Require Import Prelude Coding Crc32c Status Comparator DbFormat Filename TableFormat Block Iterators FilterBlock TableBuilder.
From S2P Require Import VersionEdit Version VersionGet VersionBuilder Manifest VersionSet Compaction.

(** ** Snapshots

    The circular list from [list_.next_] on: the oldest first.  A snapshot is an
    address with its number. *)
Module SnapshotList.

Record t := MkList { members : list (nat * Z); next_snapshot : nat }.

Definition make : t := MkList [] 0.
Definition empty (l : t) : bool := match members l with [] => true | _ => false end.
Definition oldest (l : t) : option Z := snd <$> head (members l).
Definition newest (l : t) : option Z := snd <$> last (members l).
Definition New (l : t) (seq : Z) : nat * t := (next_snapshot l, MkList (members l ++ [(next_snapshot l, seq)]) (S (next_snapshot l))).
Definition Delete (l : t) (s : nat) : option t :=
  if bool_decide (s ∈ (members l).*1) then Some (MkList (base.filter (fun p => p.1 <> s) (members l)) (next_snapshot l)) else None.
End SnapshotList.

(** ** The state of a compaction *)

Record Output := MkOutput { o_number : Z; o_file_size : Z; o_smallest : bytes; o_largest : bytes }.

Record CompactionState := MkCompactionState {
  compaction : Compaction;
  smallest_snapshot : Z;
  outputs : list Output;
  builder : option TableBuilder.Rep;
  total_bytes : Z
}.

(** [TableCache::NewIterator], by which a new table is checked: the level, number
    and size of the file, its metadata and the numbers of the inputs. *)
Class OutputCheck := {
  oc_cache : Type;
  oc_open : oc_cache -> Z -> Z -> Z -> option TableMetaData -> list Z -> list Z -> Status * oc_cache
}.

Record Work `{!OutputCheck} := MkWork {
  state : CompactionState;
  w_env : Env;
  pending_outputs_ : list Z;
  w_cache : oc_cache
}.

Section Work.
Context `{!Crc32c, !Snappy, !FilterPolicy, !OutputCheck} {user_comparator : Comparator} (o : VersionSet.Options) (topt : TableBuilder.Options).
Implicit Types w : Work.

Definition with_state w (s : CompactionState) : Work := MkWork _ s (w_env w) (pending_outputs_ w) (w_cache w).
Definition with_w_env w (s : CompactionState) (e : Env) : Work := MkWork _ s e (pending_outputs_ w) (w_cache w).
Definition with_compaction (s : CompactionState) (c : Compaction) : CompactionState :=
  MkCompactionState c (smallest_snapshot s) (outputs s) (builder s) (total_bytes s).
Definition with_builder (s : CompactionState) (b : option TableBuilder.Rep) : CompactionState :=
  MkCompactionState (compaction s) (smallest_snapshot s) (outputs s) b (total_bytes s).
Definition with_outputs (s : CompactionState) (outs : list Output) : CompactionState :=
  MkCompactionState (compaction s) (smallest_snapshot s) outs (builder s) (total_bytes s).

Definition current_output (s : CompactionState) : option Output := last (outputs s).
Definition set_current (s : CompactionState) (out : Output) : CompactionState := with_outputs s (removelast (outputs s) ++ [out]).

(** The builder writes to a file of the directory. *)
Definition lend (e : Env) (fname : bytes) (r : TableBuilder.Rep) : TableBuilder.Rep :=
  TableBuilder.with_file r (WFile (default [] (files e !! fname)) (env_io e)) (TableBuilder.r_offset r) (TableBuilder.r_status r).
Definition stored (e : Env) (fname : bytes) (r : TableBuilder.Rep) : Env :=
  MkEnv (<[fname := contents (TableBuilder.file r)]> (files e)) (w_io (TableBuilder.file r)).

Definition OpenCompactionOutputFile (fresh : nat -> Z) w : option (Status * Work) :=
  let s := state w in
  match builder s with
  | Some _ => None
  | None =>
      let file_number := fresh (length (outputs s)) in
      let s := with_outputs s (outputs s ++ [MkOutput file_number 0 [] []]) in
      let w := MkWork _ s (w_env w) (num_insert file_number (pending_outputs_ w)) (w_cache w) in
      let fname := TableFileName (dbname_ o) file_number in
      let '(st, e) := NewWritableFile (w_env w) fname in
      if ok st then
        r ← TableBuilder.make topt (WFile (default [] (files e !! fname)) (env_io e));
        Some (st, with_w_env w (with_builder s (Some r)) (stored e fname r))
      else Some (st, with_w_env w s e)
  end.

(** The size is what the builder says, whatever went wrong. *)
Definition close_output (s : CompactionState) (out : Output) (size : Z) : CompactionState :=
  let s := set_current s (MkOutput (o_number out) size (o_smallest out) (o_largest out)) in
  MkCompactionState (compaction s) (smallest_snapshot s) (outputs s) None (u64 (total_bytes s + size)).

Definition FinishCompactionOutputFile w (input_status : Status) : option (Status * Work) :=
  let s := state w in
  r ← builder s;
  out ← current_output s;
  if o_number out =? 0 then None
  else
    let fname := TableFileName (dbname_ o) (o_number out) in
    let current_entries := TableBuilder.NumEntries r in
    let e := w_env w in
    '(st, r) ← (if ok input_status then TableBuilder.Finish (H1 := InternalKeyComparator) (lend e fname r) else Some (input_status, TableBuilder.Abandon (lend e fname r)));
    let e := stored e fname r in
    let current_bytes := TableBuilder.FileSize r in
    let s := close_output s out current_bytes in
    let '(st, e) := if ok st then file_Sync e else (st, e) in
    let '(st, e) := if ok st then file_Close e else (st, e) in
    let c := compaction s in
    if ok st && (0 <? current_entries) then
      let '(st, cache) := oc_open (w_cache w) (level_ c + 1) (o_number out) current_bytes (TableBuilder.tableMetaData_ r)
                            (number <$> inputs0 c) (number <$> inputs1 c) in
      Some (st, MkWork _ s e (pending_outputs_ w) cache)
    else Some (st, with_w_env w s e).

(** ** Which entries are dropped *)

Record DropState := MkDrop { current_user_key : option bytes; last_sequence_for_key : Z }.
Definition DropState_new : DropState := MkDrop None kMaxSequenceNumber.

(** [files] are the levels of the input version. *)
Definition drop_entry (files : list (list FileMetaData)) (smallest : Z) (c : Compaction) (d : DropState) (key : bytes) : bool * Compaction * DropState :=
  match ParseInternalKey key with
  | None => (false, c, DropState_new)
  | Some ikey =>
      let first := match current_user_key d with Some u => negb (Compare (Comparator := user_comparator) (user_key ikey) u =? 0) | None => true end in
      let d := if first then MkDrop (Some (user_key ikey)) kMaxSequenceNumber else d in
      let '(drop, c) :=
        if last_sequence_for_key d <=? smallest then (true, c)
        else match type ikey with
             | kTypeDeletion => if sequence ikey <=? smallest then IsBaseLevelForKey (user_comparator := user_comparator) files c (user_key ikey) else (false, c)
             | kTypeValue => (false, c)
             end in
      (drop, c, MkDrop (current_user_key d) (sequence ikey))
  end.

(** ** The loop *)

(** The entry goes to the current output, which is opened before and closed when
    it is big enough. *)
Definition keep_entry (fresh : nat -> Z) w (key value : bytes) (input_status : Status) : option (Status * Work) :=
  '(st, w) ← match builder (state w) with None => OpenCompactionOutputFile fresh w | Some _ => Some (Status_OK, w) end;
  if negb (ok st) then Some (st, w)
  else
    let s := state w in
    r ← builder s;
    out ← current_output s;
    let fname := TableFileName (dbname_ o) (o_number out) in
    let out := MkOutput (o_number out) (o_file_size out) (if TableBuilder.NumEntries r =? 0 then key else o_smallest out) key in
    r ← TableBuilder.Add (H1 := InternalKeyComparator) (lend (w_env w) fname r) key value;
    let w := with_w_env w (with_builder (set_current s out) (Some r)) (stored (w_env w) fname r) in
    if max_output_file_size_ (compaction s) <=? TableBuilder.FileSize r then FinishCompactionOutputFile w input_status
    else Some (Status_OK, w).

Section Loop.
Context {I : Type} `{!Iterator I} (files : list (list FileMetaData)) (fresh : nat -> Z) (stop : nat -> bool).

(** One entry: the output ends before it when it overlaps too much below. *)
Definition work_entry w (it : I) (d : DropState) : option (Status * Work * DropState) :=
  let key := Iterators.ikey it in
  '(stop, c) ← ShouldStopBefore (user_comparator := user_comparator) o (compaction (state w)) key;
  let w := with_state w (with_compaction (state w) c) in
  '(st, w) ← (if (stop : bool) && match builder (state w) with Some _ => true | None => false end
              then FinishCompactionOutputFile w (istatus it) else Some (Status_OK, w));
  if negb (ok st) then Some (st, w, d)
  else
    let s := state w in
    let '(drop, c, d) := drop_entry files (smallest_snapshot s) (compaction s) d key in
    let w := with_state w (with_compaction s c) in
    if (drop : bool) then Some (Status_OK, w, d)
    else '(st, w) ← keep_entry fresh w key (ivalue it) (istatus it); Some (st, w, d).

(** [k] counts the reads of [shutting_down_]; [None] also when the fuel is too
    small. *)
Fixpoint work_loop (fuel : nat) (k : nat) w (it : I) (d : DropState) : option (Status * Work * I * nat) :=
  match fuel with
  | O => None
  | S fuel =>
      if iValid it then
        if stop k then Some (Status_OK, w, it, S k)
        else
          '(st, w, d) ← work_entry w it d;
          if negb (ok st) then Some (st, w, it, S k)
          else it ← istep it OpNext; work_loop fuel (S k) w it d
      else Some (Status_OK, w, it, k)
  end.

Definition finish_work (st : Status) w (it : I) (k : nat) : option (Status * Work) :=
  let st := if ok st && stop k then IOError (str "Deleting DB during compaction") [] else st in
  '(st, w) ← (if ok st && match builder (state w) with Some _ => true | None => false end
              then FinishCompactionOutputFile w (istatus it) else Some (st, w));
  Some (if ok st then istatus it else st, w).
End Loop.

(** ** Installing the outputs *)

Definition add_output (level : Z) (e : VersionEdit) (out : Output) : VersionEdit :=
  AddFile e (level + 1) (o_number out) (o_file_size out) (o_smallest out) (o_largest out).

Definition results_edit (s : CompactionState) : VersionEdit :=
  let c := compaction s in
  fold_left (add_output (level_ c)) (outputs s) (AddInputDeletions c (edit_ c)).

Definition InstallCompactionResults (vs : VersionSet) (s : CompactionState) : option (Status * VersionSet) :=
  LogAndApply (user_comparator := user_comparator) o vs (results_edit s).

Definition smallest_live (snapshots : SnapshotList.t) (vs : VersionSet) : Z := default (last_seq vs) (SnapshotList.oldest snapshots).

(** The whole work.  [vs] is the version set when it starts and [resume e] the one
    when the mutex is taken again, with the directory [e] the work leaves. *)
Definition DoCompactionWork {I : Type} `{!Iterator I} (files : list (list FileMetaData)) (fresh : nat -> Z) (stop : nat -> bool) (resume : Env -> VersionSet)
    (snapshots : SnapshotList.t) (vs : VersionSet) (c : Compaction) (pending : list Z) (cache : oc_cache) (fuel : nat) (input : I)
    : option (Status * Work * VersionSet) :=
  let s := MkCompactionState c (smallest_live snapshots vs) [] None 0 in
  n ← NumLevelFiles vs (level_ c);
  if n <=? 0 then None else
  it ← istep input OpFirst;
  '(st, w, it, k) ← work_loop files fresh stop fuel 0 (MkWork _ s (env_ vs) pending cache) it DropState_new;
  '(st, w) ← finish_work stop st w it k;
  let vs := resume (w_env w) in
  if ok st then '(st, vs) ← InstallCompactionResults vs (state w); Some (st, w, vs) else Some (st, w, vs).

(** [CleanupCompaction]: the numbers of the outputs are no longer pending. *)
Definition CleanupCompaction w : list Z :=
  fold_left (fun p out => num_erase (o_number out) p) (outputs (state w)) (pending_outputs_ w).
End Work.
