(* ===== verification/CompactionView.v ===== *)
(** * CompactionView: dropped entries are never missed

    The rule by which [DoCompactionWork] (DbCompact.v) drops entries.  Whatever a
    compaction drops, a lookup at a snapshot it respects gives the same answer
    over the entries it keeps as over its inputs; and the snapshot it respects is
    at or below every live one. *)
From stdpp Require Import gmap sorting.
From S2P Require Import Prelude Coding Crc32c Status Comparator DbFormat Filename TableFormat Block Iterators FilterBlock TableBuilder.
From S2P Require Import VersionEdit Version TableLookup VersionGet VersionBuilder Manifest VersionSet VersionApply Compaction CompactionInputs DbCompact.

#[local] Existing Instances BytewiseComparator BytewiseLaws.

(** The entries that are not dropped. *)
Fixpoint kept_entries (files : list (list FileMetaData)) (smallest : Z) (c : Compaction) (d : DropState) (kvs : list (bytes * bytes)) : list (bytes * bytes) :=
  match kvs with
  | [] => []
  | kv :: kvs =>
      let '(drop, c, d) := drop_entry (user_comparator := BytewiseComparator) files smallest c d kv.1 in
      if drop then kept_entries files smallest c d kvs else kv :: kept_entries files smallest c d kvs
  end.

(** An entry with its parts. *)
Definition parts (kv : bytes * bytes) (u : bytes) (q : Z) (t : ValueType) : Prop := valid_key u /\ seq_ok q /\ kv.1 = DbFormat.ikey u (PackSequenceAndType q t).

Lemma parts_user kv u q t : parts kv u q t -> ExtractUserKey kv.1 = u.
Proof. intros (_ & _ & ->). apply ExtractUserKey_ikey. Qed.

Lemma parts_tag kv u q t : parts kv u q t -> ExtractTag kv.1 = PackSequenceAndType q t.
Proof. intros (_ & Hq & ->). apply ExtractTag_ikey. by apply Pack_range. Qed.

Lemma user_eqb a b : (Compare a b =? 0) = bool_decide (a = b).
Proof. apply user_compare. Qed.

Lemma parts_order kv kv' u q t u' q' t' : parts kv u q t -> parts kv' u' q' t' -> internal_compare kv.1 kv'.1 < 0 -> Compare u u' <= 0 /\ (u' = u -> q' <= q).
Proof.
  intros Hp Hp' Hlt. pose proof Hp as (_ & Hq & _). pose proof Hp' as (_ & Hq' & _). rewrite internal_compare_lt, (parts_user _ _ _ _ Hp), (parts_user _ _ _ _ Hp'), (parts_tag _ _ _ _ Hp), (parts_tag _ _ _ _ Hp') in Hlt.
  destruct Hlt as [Hlt|[E Hlt]]; [split; [lia|]|split; [lia|]].
  - intros ->. pose proof (user_eqb u u) as Ee. rewrite bool_decide_eq_true_2 in Ee by done. apply Z.eqb_eq in Ee. lia.
  - intros ->. apply Pack_lt in Hlt; [|done..]. lia.
Qed.

(** Seen by a snapshot: its sequence number is at or below it. *)
Lemma parts_seen kv u q t u' s : parts kv u q t -> seq_ok s -> seen u' s kv <-> u' = u /\ q <= s.
Proof.
  intros Hp Hs. pose proof Hp as (_ & Hq & _). unfold seen. rewrite (parts_user _ _ _ _ Hp), (parts_tag _ _ _ _ Hp). rewrite !Pack_eq by done.
  pose proof (value_type_code_range t). change (value_type_code kValueTypeForSeek) with 1. split; intros [-> ?]; (split; [done|lia]).
Qed.

Section View.
Context (files : list (list FileMetaData)) (Hv : version_files_ok files) (smallest : Z) (Hsm : smallest < kMaxSequenceNumber).

(** [es] is what is left of the inputs after the entry [d] remembers. *)
Record left_over (c : Compaction) (d : DropState) (es : list (bytes * bytes)) : Prop := {
  lo_sorted : sorted_kvs (C := InternalKeyComparator) es;
  lo_keys : forall e, e ∈ es -> internal_key_ok e.1;
  lo_ptrs : forall e, e ∈ es -> ptrs_ok files c (ExtractUserKey e.1);
  lo_after : forall u e, current_user_key d = Some u -> e ∈ es -> Compare u (ExtractUserKey e.1) <= 0;
  lo_below : forall u e q t, current_user_key d = Some u -> e ∈ es -> parts e u q t -> q <= last_sequence_for_key d;
  lo_user : forall u, current_user_key d = Some u -> valid_key u
}.

Lemma internal_parts k v : internal_key_ok k -> exists u q t, parts (k, v) u q t.
Proof. intros (u & q & t & Hu & Hq & E). by exists u, q, t. Qed.

(** One step: what [drop_entry] decides, and the rest is left over. *)
Lemma drop_entry_ok c d kv es u q t : left_over c d (kv :: es) -> parts kv u q t ->
  exists c', let first := bool_decide (current_user_key d <> Some u) in
    let hidden := negb first && (last_sequence_for_key d <=? smallest) in
    drop_entry (user_comparator := BytewiseComparator) files smallest c d kv.1
      = (hidden || (match t with kTypeDeletion => (q <=? smallest) && base_scan files (level_ c) u | kTypeValue => false end), c', MkDrop (Some u) q) /\
    level_ c' = level_ c /\ left_over c' (MkDrop (Some u) q) es.
Proof.
  intros Hl Hp. pose proof Hp as (Hu & Hq & Ek). unfold drop_entry. rewrite Ek, ParseInternalKey_ikey by done. cbn [user_key sequence type].
  set (first := match current_user_key d with Some u' => _ | None => _ end).
  assert (Ef : first = bool_decide (current_user_key d <> Some u)).
  { unfold first. destruct (current_user_key d) as [u'|]; [|by rewrite bool_decide_eq_true_2]. rewrite user_eqb. destruct (decide (u = u')) as [->|Hne].
    - rewrite bool_decide_eq_true_2, bool_decide_eq_false_2; [done|naive_solver|done].
    - rewrite bool_decide_eq_false_2, bool_decide_eq_true_2; [done|congruence|done]. }
  assert (Hkv : ExtractUserKey kv.1 = u) by (by apply (parts_user _ _ q t)).
  assert (Hptr : ptrs_ok files c u) by (rewrite <- Hkv; apply (lo_ptrs _ _ _ Hl); by left).
  assert (Hrest : forall c', ptrs_ok files c' u -> left_over c' (MkDrop (Some u) q) es).
  { intros c' Hc'. destruct Hl as [L1 L2 L3 L4 L5 L6]. apply (sorted_kvs_app_inv [kv] es) in L1 as (_ & S2 & S3).
    assert (Hord : forall e, e ∈ es -> exists u' q' t', parts e u' q' t' /\ Compare u u' <= 0 /\ (u' = u -> q' <= q)).
    { intros [k v] He. destruct (internal_parts k v) as (u' & q' & t' & Hp'); [apply (L2 (k, v)); by right|]. exists u', q', t'. split; [done|].
      apply (parts_order kv (k, v) u q t u' q' t' Hp Hp'). apply (S3 kv (k, v)); [by left|done]. }
    split; [done|intros e He; apply L2; by right|..]; cbn [current_user_key last_sequence_for_key].
    - intros e He. destruct (Hord e He) as (u' & q' & t' & Hp' & Hle & _). rewrite (parts_user _ _ _ _ Hp'). apply (ptrs_ok_mono files Hv c' u); [done|by destruct Hp'|done|done].
    - intros u' e [= <-] He. destruct (Hord e He) as (u' & q' & t' & Hp' & Hle & _). by rewrite (parts_user _ _ _ _ Hp').
    - intros u' e q' t' [= <-] He Hp'. destruct (Hord e He) as (u2 & q2 & t2 & Hp2 & _ & Hle). pose proof (parts_user _ _ _ _ Hp') as E1. rewrite (parts_user _ _ _ _ Hp2) in E1.
      pose proof (parts_tag _ _ _ _ Hp') as E2. rewrite (parts_tag _ _ _ _ Hp2) in E2. destruct Hp' as (_ & Hq' & _). destruct Hp2 as (_ & Hq2 & _).
      rewrite !Pack_eq in E2 by done. pose proof (value_type_code_range t'). pose proof (value_type_code_range t2). specialize (Hle E1). lia.
    - by intros u' [= <-]. }
  rewrite Ef. clear first Ef. set (first := bool_decide _).
  assert (El : (last_sequence_for_key (if first then MkDrop (Some u) kMaxSequenceNumber else d) <=? smallest) = negb first && (last_sequence_for_key d <=? smallest)).
  { destruct first; [|done]. cbn. apply Z.leb_gt. done. }
  assert (Eu : current_user_key (if first then MkDrop (Some u) kMaxSequenceNumber else d) = Some u).
  { unfold first. destruct (decide (current_user_key d = Some u)) as [E|E]; [rewrite bool_decide_eq_false_2 by tauto; done|by rewrite bool_decide_eq_true_2]. }
  rewrite El, Eu. destruct (negb first && (last_sequence_for_key d <=? smallest)); [exists c; cbn; split_and!; [done|done|by apply Hrest]|]. cbn [orb].
  destruct t; [|exists c; split_and!; [done|done|by apply Hrest]]. destruct (q <=? smallest); [|exists c; split_and!; [done|done|by apply Hrest]]. cbn [andb].
  destruct (IsBaseLevelForKey_ok files Hv c u Hu Hptr) as (c' & -> & Hc' & Elev). exists c'. split_and!; [done|done|by apply Hrest].
Qed.

Lemma kept_sub c d es e : e ∈ kept_entries files smallest c d es -> e ∈ es.
Proof.
  revert c d. induction es as [|kv es IH]; intros c d; cbn [kept_entries]; [done|]. destruct (drop_entry _ _ _ _ _) as [[[] c'] d']; [intros He; right; by eapply IH|].
  intros [->|He]%elem_of_cons; [by left|right; by eapply IH].
Qed.

Lemma kept_cons c d kv es u q t : left_over c d (kv :: es) -> parts kv u q t ->
  exists c', level_ c' = level_ c /\ left_over c' (MkDrop (Some u) q) es /\
    kept_entries files smallest c d (kv :: es)
    = if (negb (bool_decide (current_user_key d <> Some u)) && (last_sequence_for_key d <=? smallest)) ||
         (match t with kTypeDeletion => (q <=? smallest) && base_scan files (level_ c) u | kTypeValue => false end)
      then kept_entries files smallest c' (MkDrop (Some u) q) es else kv :: kept_entries files smallest c' (MkDrop (Some u) q) es.
Proof. intros Hl Hp. destruct (drop_entry_ok c d kv es u q t Hl Hp) as (c' & E & H1 & H2). exists c'. split_and!; [done|done|]. cbn [kept_entries]. by rewrite E. Qed.

Lemma left_parts c d es kv : left_over c d es -> kv ∈ es -> exists u q t, parts kv u q t.
Proof. intros Hl He. destruct kv as [k v]. apply internal_parts. by apply (lo_keys _ _ _ Hl (k, v)). Qed.

(** After an entry at or below the snapshot nothing of its user key is kept. *)
Lemma kept_blocked es : forall c d u, left_over c d es -> current_user_key d = Some u -> last_sequence_for_key d <= smallest ->
  forall e, e ∈ kept_entries files smallest c d es -> ExtractUserKey e.1 <> u.
Proof.
  induction es as [|kv es IH]; intros c d u Hl Hc Hb e He; [by apply elem_of_nil in He|]. destruct (left_parts c d _ kv Hl ltac:(by left)) as (u' & q & t & Hp).
  destruct (kept_cons c d kv es u' q t Hl Hp) as (c' & _ & Hl' & E). rewrite E in He. clear E. rewrite Hc in He. destruct (decide (u' = u)) as [->|Hne].
  - rewrite bool_decide_eq_false_2 in He by tauto. rewrite (proj2 (Z.leb_le _ _) Hb) in He. cbn in He. apply (IH c' (MkDrop (Some u) q) u); [done|done| |done].
    cbn. pose proof (lo_below _ _ _ Hl u kv q t Hc ltac:(by left) Hp). lia.
  - assert (Hsub : e ∈ kv :: es) by (destruct (_ || _) in He; [right; by apply kept_sub in He|apply elem_of_cons in He as [->|He]; [by left|right; by apply kept_sub in He]]).
    intros Eu. assert (Hlt : Compare u u' < 0).
    { pose proof (lo_after _ _ _ Hl u kv Hc ltac:(by left)) as Hle. rewrite (parts_user _ _ _ _ Hp) in Hle. pose proof (user_eqb u u') as Ee.
      rewrite bool_decide_eq_false_2 in Ee by congruence. apply Z.eqb_neq in Ee. lia. }
    assert (Hle : Compare u' u <= 0).
    { rewrite <- Eu. apply elem_of_cons in Hsub as [->|Hs]; [rewrite (parts_user _ _ _ _ Hp); pose proof (cmp_refl u' ltac:(apply Hp)); lia|].
      by apply (lo_after _ _ _ Hl' u' e). }
    pose proof (cmp_sgn_opp u u' (lo_user _ _ _ Hl u Hc) ltac:(apply Hp)). lia.
Qed.

(** The newest entry a snapshot sees is kept, or it is a deletion that hides
    nothing below and nothing of its key that is kept is seen. *)
Lemma kept_newest es s u e : seq_ok s -> smallest <= s -> forall c d, left_over c d es -> ~ (current_user_key d = Some u /\ last_sequence_for_key d <= smallest) ->
  newest u s es e ->
  newest u s (kept_entries files smallest c d es) e \/
  ((exists q, parts e u q kTypeDeletion) /\ base_scan files (level_ c) u = true /\ forall x, x ∈ kept_entries files smallest c d es -> ~ seen u s x).
Proof.
  intros Hs Hle. induction es as [|kv es IH]; intros c d Hl Hnb (He & Hse & Hmax); [by apply elem_of_nil in He|].
  destruct (left_parts c d _ kv Hl ltac:(by left)) as (u' & q & t & Hp). destruct (kept_cons c d kv es u' q t Hl Hp) as (c' & Elev & Hl' & E). rewrite E. clear E.
  assert (Hhid : negb (bool_decide (current_user_key d <> Some u')) && (last_sequence_for_key d <=? smallest) = true -> u' <> u).
  { intros [H1%negb_true_iff%bool_decide_eq_false H2%Z.leb_le]%andb_true_iff ->. apply Hnb. split; [|done]. destruct (decide (current_user_key d = Some u)); tauto. }
  destruct (decide (seen u s kv)) as [Hk|Hk].
  - (* the first seen entry is the newest *)
    pose proof Hk as [-> Hqs]%(parts_seen _ _ _ _ _ _ Hp Hs).
    assert (e = kv) as ->.
    { apply elem_of_cons in He as [->|He]; [done|]. exfalso. pose proof (Hmax kv ltac:(by left) Hk) as Ht. pose proof (lo_sorted _ _ _ Hl) as Hsrt. apply (sorted_kvs_app_inv [kv] es) in Hsrt as (_ & _ & S3).
      pose proof (S3 kv e ltac:(by left) He) as Hlt. destruct Hse as [Ee _]. pose proof (same_user_lt u' kv.1 e.1 (parts_user _ _ _ _ Hp) Ee Hlt). lia. }
    destruct (negb _ && _); [by destruct (Hhid eq_refl)|]. cbn [orb].
    assert (Hkeep : newest u' s (kv :: kept_entries files smallest c' (MkDrop (Some u') q) es) kv).
    { split; [by left|]. split; [done|]. intros x Hx. apply Hmax. apply elem_of_cons in Hx as [->|Hx]; [by left|]. right. by apply kept_sub in Hx. }
    destruct t; [|by left]. destruct ((q <=? smallest) && base_scan files (level_ c) u') eqn:Eb; [|by left]. apply andb_true_iff in Eb as [Eq%Z.leb_le Eb].
    right. split_and!; [by exists q|done|]. intros x Hx [Ex _]. by apply (kept_blocked es c' (MkDrop (Some u') q) u' Hl' eq_refl Eq x Hx).
  - assert (Hne : e ∈ es) by (apply elem_of_cons in He as [->|He]; done).
    assert (Hnb' : ~ (current_user_key (MkDrop (Some u') q) = Some u /\ last_sequence_for_key (MkDrop (Some u') q) <= smallest)).
    { cbn. intros [[= ->] Hq]. apply Hk. apply (parts_seen _ _ _ _ _ _ Hp Hs). split; [done|lia]. }
    destruct (IH c' (MkDrop (Some u') q) Hl' Hnb') as [Hn|(H1 & H2 & H3)]; [split_and!; [done|done|]; intros x Hx; apply Hmax; by right|..].
    + left. destruct (_ || _); [done|]. destruct Hn as (N1 & N2 & N3). split; [by right|]. split; [done|]. intros x [->|Hx]%elem_of_cons Hsx; [done|by apply N3].
    + right. rewrite <- Elev. split_and!; [done|done|]. destruct (_ || _); [done|]. intros x [->|Hx]%elem_of_cons; [done|by apply H3].
Qed.

(** ** Lookups over the entries that are kept *)

Lemma lookup_result_ext u s a b old rs val : (forall e, e ∈ a <-> e ∈ b) -> lookup_result u s a old rs val -> lookup_result u s b old rs val.
Proof.
  intros Hab [(e & (H1 & H2 & H3) & Ha)|(Hn & H)]; [left; exists e; split; [|done]|right; split; [|done]].
  - split; [by apply Hab|]. split; [done|]. intros e' He'. apply H3. by apply Hab.
  - intros e He. apply Hn. by apply Hab.
Qed.

Lemma newest_exists u s es : (exists e, e ∈ es /\ seen u s e) -> exists e, newest u s es e.
Proof.
  induction es as [|x es IH]; intros (e & He & Hs); [by apply elem_of_nil in He|].
  destruct (decide (Exists (seen u s) es)) as [(y & Hy & Hys)%Exists_exists|Hno].
  - destruct IH as (m & Hm & Hms & Hmax); [by exists y|]. destruct (decide (seen u s x /\ ExtractTag m.1 < ExtractTag x.1)) as [[Hx Hlt]|Hx].
    + exists x. split; [by left|]. split; [done|]. intros z [->|Hz]%elem_of_cons Hzs; [done|]. specialize (Hmax z Hz Hzs). lia.
    + exists m. split; [by right|]. split; [done|]. intros z [->|Hz]%elem_of_cons Hzs; [|by apply Hmax]. apply Z.nlt_ge. intros Hlt. by apply Hx.
  - assert (Hno' : forall z, z ∈ es -> ~ seen u s z) by (intros z Hz Hzs; apply Hno; apply Exists_exists; by exists z).
    exists x. apply elem_of_cons in He as [->|He]; [|by destruct (Hno' e He)]. split; [by left|]. split; [done|].
    intros z [->|Hz]%elem_of_cons Hzs; [done|by destruct (Hno' z Hz)].
Qed.

Lemma newest_part u s a b e : newest u s (a ++ b) e -> e ∈ a -> newest u s a e.
Proof. intros (_ & Hs & Hmax) He. split; [done|]. split; [done|]. intros x Hx. apply Hmax. apply elem_of_app. by left. Qed.

Section Lookups.
Context (u : bytes) (s : Z) (Hs : seq_ok s) (Hle : smallest <= s).
Context (c : Compaction) (kvs rest : list (bytes * bytes)) (Hl : left_over c DropState_new kvs).

Let kept := kept_entries files smallest c DropState_new kvs.

(** The other entries of a key: newer than the inputs, or in a range that
    [IsBaseLevelForKey] sees. *)
Context (Hrest : forall x, x ∈ rest -> ExtractUserKey x.1 = u -> (forall e, e ∈ kvs -> ExtractUserKey e.1 = u -> ExtractTag e.1 < ExtractTag x.1) \/ base_scan files (level_ c) u = false).

Lemma start_open : ~ (current_user_key DropState_new = Some u /\ last_sequence_for_key DropState_new <= smallest).
Proof. by intros [? _]. Qed.

(** A newest input that is dropped hides nothing. *)
Lemma dropped_hides e old : newest u s (kvs ++ rest) e -> e ∈ kvs -> ~ newest u s kept e ->
  (forall x, x ∈ kept ++ rest -> ~ seen u s x) /\ answers e old (NotFound [] []) old.
Proof.
  intros Hn He Hk. destruct (kept_newest kvs s u e Hs Hle c DropState_new Hl start_open (newest_part _ _ _ _ _ Hn He)) as [Hk'|((q & Hu & Hq & Ee) & Hb & Hno)]; [done|]. split.
  - intros x [Hx|Hx]%elem_of_app Hsx; [by apply (Hno x)|]. destruct (Hrest x Hx) as [Hnew|Hb']; [by destruct Hsx| |congruence].
    destruct Hn as (_ & Hse & Hmax). specialize (Hmax x ltac:(apply elem_of_app; by right) Hsx). specialize (Hnew e He ltac:(by destruct Hse)). lia.
  - eexists. rewrite Ee, ParseInternalKey_ikey by done. split; [done|]. done.
Qed.

Lemma kept_rest_sub x : x ∈ kept ++ rest -> x ∈ kvs ++ rest.
Proof. intros [Hx|Hx]%elem_of_app; apply elem_of_app; [left; by apply kept_sub in Hx|by right]. Qed.

Lemma newest_kept_rest e : newest u s (kvs ++ rest) e -> e ∈ kept ++ rest -> newest u s (kept ++ rest) e.
Proof. intros (_ & Hse & Hmax) He. split; [done|]. split; [done|]. intros x Hx. apply Hmax. by apply kept_rest_sub. Qed.

Lemma kept_lookups old rs val : lookup_result u s (kvs ++ rest) old rs val <-> lookup_result u s (kept ++ rest) old rs val.
Proof.
  assert (Hcase : forall e, newest u s (kvs ++ rest) e -> e ∈ kept ++ rest \/
    (forall x, x ∈ kept ++ rest -> ~ seen u s x) /\ answers e old (NotFound [] []) old).
  { intros e Hn. destruct (decide (e ∈ kept ++ rest)) as [|Hno]; [by left|]. right. pose proof Hn as (He & _). apply elem_of_app in He as [He|He].
    - apply (dropped_hides e old Hn He). intros (Hk & _). apply Hno. apply elem_of_app. by left.
    - destruct Hno. apply elem_of_app. by right. }
  split.
  - intros [(e & Hn & Ha)|(Hno & H)]; [|right; split; [|done]; intros x Hx; apply Hno; by apply kept_rest_sub].
    destruct (Hcase e Hn) as [He|[Hno Ha']]; [left; exists e; split; [by apply newest_kept_rest|done]|]. right. split; [done|].
    destruct Ha as (k & E & Ha). destruct Ha' as (k' & E' & Ha'). rewrite E in E'. injection E' as <-. by destruct (type k); [|destruct Ha'].
  - destruct (decide (Exists (seen u s) (kvs ++ rest))) as [(y & Hy & Hys)%Exists_exists|Hno].
    + destruct (newest_exists u s (kvs ++ rest)) as (m & Hm); [by exists y|]. intros Hres. left. destruct (Hcase m Hm) as [Hin|[Hno Ha]].
      * pose proof (newest_kept_rest m Hm Hin) as Hmk. destruct Hres as [(e & He & Ha)|(Hno & _)]; [|destruct Hmk as (? & ? & _); by destruct (Hno m)].
        exists e. split; [|done]. destruct He as (He & Hse & Hmax). split; [by apply kept_rest_sub|]. split; [done|].
        intros x Hx Hsx. destruct Hm as (_ & Hms & Hmm). specialize (Hmm x Hx Hsx). specialize (Hmax m Hin Hms). lia.
      * exists m. split; [done|]. destruct Hres as [(e & (He & Hse & _) & _)|(_ & -> & ->)]; [by destruct (Hno e He)|done].
    + intros Hres. assert (Hno' : forall x, x ∈ kvs ++ rest -> ~ seen u s x) by (intros x Hx Hxs; apply Hno; apply Exists_exists; by exists x).
      right. split; [done|]. destruct Hres as [(e & (He & Hse & _) & _)|(_ & H)]; [|done]. destruct (Hno' e); [by apply kept_rest_sub|done].
Qed.
End Lookups.
End View.

(** ** Live snapshots *)

(** The lists [DBImpl] makes: [GetSnapshot] adds the last sequence number,
    [ReleaseSnapshot] removes an element, and writes only raise the number. *)
Inductive taken : SnapshotList.t -> Z -> Prop :=
  | taken_open last : taken SnapshotList.make last
  | taken_write l last last' : taken l last -> last <= last' -> taken l last'
  | taken_get l last : taken l last -> taken (SnapshotList.New l last).2 last
  | taken_release l last a l' : taken l last -> SnapshotList.Delete l a = Some l' -> taken l' last.

Lemma taken_ok l last : taken l last -> StronglySorted Z.le (SnapshotList.members l).*2 /\ Forall (fun q => q <= last) (SnapshotList.members l).*2.
Proof.
  induction 1 as [last|l last last' _ [IH1 IH2] Hle|l last _ [IH1 IH2]|l last a l' _ [IH1 IH2] Hd].
  - split; constructor.
  - split; [done|]. apply (Forall_impl _ _ _ IH2). lia.
  - cbn. rewrite fmap_app. cbn. split; [|by apply Forall_app; split; [|constructor; [lia|constructor]]].
    apply StronglySorted_app. split; [|split; [done|repeat constructor]]. intros x y Hx Hy%list_elem_of_singleton. subst y. rewrite Forall_forall in IH2. by apply IH2.
  - unfold SnapshotList.Delete in Hd. case_bool_decide; [|done]. injection Hd as <-. cbn. clear -IH1 IH2. induction (SnapshotList.members l) as [|[b q] ms IHm]; [split; constructor|].
    cbn in IH1, IH2. apply StronglySorted_cons in IH1 as [Hq Hs]. apply Forall_cons in IH2 as [Hql Hf]. destruct (IHm Hs Hf) as [J1 J2].
    rewrite filter_cons. case_decide; [|done]. cbn. split; [|by constructor]. apply StronglySorted_cons. split; [|done].
    rewrite Forall_forall in Hq. apply Forall_forall. intros x (y & -> & Hy)%list_elem_of_fmap. apply list_elem_of_filter in Hy as [_ Hy]. apply Hq. by apply list_elem_of_fmap_2.
Qed.

(** What a reader may ask for: the number of a live snapshot, or one the last
    sequence number has reached. *)
Definition readable (l : SnapshotList.t) (last s : Z) : Prop := s ∈ (SnapshotList.members l).*2 \/ last <= s.

Lemma smallest_live_least l vs s : taken l (last_seq vs) -> readable l (last_seq vs) s -> smallest_live l vs <= s.
Proof.
  intros [Hs Hf]%taken_ok Hr. unfold smallest_live, SnapshotList.oldest. destruct (SnapshotList.members l) as [|[a q] ms] eqn:E; cbn.
  - unfold readable in Hr. rewrite E in Hr. destruct Hr as [H|H]; [by apply elem_of_nil in H|done].
  - cbn in Hs, Hf. apply StronglySorted_cons in Hs as [Hq _]. apply Forall_cons in Hf as [Hl _]. unfold readable in Hr. rewrite E in Hr.
    destruct Hr as [[->|H]%elem_of_cons|H]; [done| |lia]. rewrite Forall_forall in Hq. by apply Hq.
Qed.

Lemma smallest_live_last l vs : taken l (last_seq vs) -> smallest_live l vs <= last_seq vs.
Proof. intros Ht. apply smallest_live_least; [done|right; lia]. Qed.

(** ** The files of the version *)

#[export] Instance FileMetaData_eq_dec : EqDecision FileMetaData.
Proof. solve_decision. Defined.

(** The version without the inputs. *)
Definition other_files (c : Compaction) (files : list (list FileMetaData)) : list (list FileMetaData) :=
  alter (base.filter (fun f => f ∉ inputs1 c)) (Z.to_nat (level_ c + 1)) (alter (base.filter (fun f => f ∉ inputs0 c)) (Z.to_nat (level_ c)) files).

Section Files.
Context (contents : Z -> option (Z * list (bytes * bytes))) (files : list (list FileMetaData)) (Hlsm : lsm_ok contents files).
Context (c : Compaction) (fs fs1 : list FileMetaData) (Hfs : files !! Z.to_nat (level_ c) = Some fs) (Hfs1 : files !! Z.to_nat (level_ c + 1) = Some fs1).
Context (Hlev : 0 <= level_ c) (Hin : inputs_ok (level_ c) fs fs1 (inputs0 c) (inputs1 c)).

Lemma other_lookup l : other_files c files !! l =
  if decide (l = Z.to_nat (level_ c)) then Some (base.filter (fun f => f ∉ inputs0 c) fs)
  else if decide (l = Z.to_nat (level_ c + 1)) then Some (base.filter (fun f => f ∉ inputs1 c) fs1) else files !! l.
Proof.
  unfold other_files. destruct (decide (l = Z.to_nat (level_ c))) as [->|H0].
  - rewrite list_lookup_alter_ne, list_lookup_alter_eq, Hfs by lia. done.
  - destruct (decide (l = Z.to_nat (level_ c + 1))) as [->|H1]; [rewrite list_lookup_alter_eq, list_lookup_alter_ne, Hfs1 by lia; done|].
    by rewrite !list_lookup_alter_ne by lia.
Qed.

(** A file of the version is an input, or it is another file. *)
Lemma split_files e : e ∈ all_entries contents files <->
  e ∈ level_entries contents (inputs0 c ++ inputs1 c) \/ e ∈ all_entries contents (other_files c files).
Proof.
  split.
  - intros (l & gs & Hl & (g & Hg & He)%elem_level_entries)%elem_all_entries. destruct (decide (l = Z.to_nat (level_ c) /\ g ∈ inputs0 c)) as [[-> H0]|H0];
      [left; apply elem_level_entries; exists g; split; [apply elem_of_app; by left|done]|].
    destruct (decide (l = Z.to_nat (level_ c + 1) /\ g ∈ inputs1 c)) as [[-> H1]|H1];
      [left; apply elem_level_entries; exists g; split; [apply elem_of_app; by right|done]|].
    right. apply elem_all_entries. exists l. rewrite other_lookup. destruct (decide (l = Z.to_nat (level_ c))) as [->|]; [|destruct (decide (l = Z.to_nat (level_ c + 1))) as [->|]].
    + assert (gs = fs) as -> by congruence. eexists. split; [done|]. apply elem_level_entries. exists g. split; [|done]. apply list_elem_of_filter. tauto.
    + assert (gs = fs1) as -> by congruence. eexists. split; [done|]. apply elem_level_entries. exists g. split; [|done]. apply list_elem_of_filter. tauto.
    + exists gs. split; [done|]. apply elem_level_entries. by exists g.
  - intros [(g & Hg & He)%elem_level_entries|(l & gs & Hl & (g & Hg & He)%elem_level_entries)%elem_all_entries]; apply elem_all_entries.
    + apply elem_of_app in Hg as [Hg|Hg]; [exists (Z.to_nat (level_ c)), fs|exists (Z.to_nat (level_ c + 1)), fs1]; (split; [done|]); apply elem_level_entries; exists g;
        (split; [|done]); [by apply (in_sub0 _ _ _ _ _ Hin)|by apply (in_sub1 _ _ _ _ _ Hin)].
    + rewrite other_lookup in Hl. destruct (decide _) as [->|]; [|destruct (decide _) as [->|]]; [injection Hl as <-; exists (Z.to_nat (level_ c)), fs|
        injection Hl as <-; exists (Z.to_nat (level_ c + 1)), fs1|exists l, gs]; (split; [done|]); apply elem_level_entries; exists g; (split; [|done]);
        [by apply list_elem_of_filter in Hg as [_ Hg]..|done].
Qed.

Lemma serve l gs g : files !! l = Some gs -> g ∈ gs -> file_serves contents g.
Proof. apply (lsm_serves _ _ Hlsm). Qed.

(** Entries of one key share the ranges of their files. *)
Lemma entries_share l l' gs gs' f g a b : files !! l = Some gs -> files !! l' = Some gs' -> f ∈ gs -> g ∈ gs' ->
  a ∈ entries_of contents f -> b ∈ entries_of contents g -> ExtractUserKey a.1 = ExtractUserKey b.1 -> share_keys f g.
Proof.
  intros Hl Hl' Hf Hg Ha Hb E. pose proof (serve _ _ _ Hl Hf) as Sf. pose proof (serve _ _ _ Hl' Hg) as Sg.
  destruct (serves_user_range contents f a Sf Ha) as [A1 A2]. destruct (serves_user_range contents g b Sg Hb) as [B1 B2].
  destruct (file_user_ok f (sv_ok _ _ Sf)) as (U1 & U2 & _). destruct (file_user_ok g (sv_ok _ _ Sg)) as (V1 & V2 & _).
  destruct (sv_keys _ _ Sf a Ha) as [(ua & qa & ta & Vu & _ & Ea) _]. assert (V : valid_key (ExtractUserKey a.1)) by (by rewrite Ea, ExtractUserKey_ikey).
  rewrite <- E in B1, B2. split; [by apply (cmp_trans _ (ExtractUserKey a.1))|by apply (cmp_trans _ (ExtractUserKey a.1))].
Qed.

Context (Hsame : level_ c = 0 \/ user_disjoint fs) (Hnext : user_disjoint fs1).

(** An entry outside the inputs is newer than the inputs of its key, or it is in
    the range of a file further down. *)
Lemma others_apart x : x ∈ all_entries contents (other_files c files) ->
  (forall e, e ∈ level_entries contents (inputs0 c ++ inputs1 c) -> ExtractUserKey e.1 = ExtractUserKey x.1 -> ExtractTag e.1 < ExtractTag x.1) \/
  base_scan files (level_ c) (ExtractUserKey x.1) = false.
Proof.
  intros (l & gs & Hl & (g & Hg & Hx)%elem_level_entries)%elem_all_entries. rewrite other_lookup in Hl.
  assert (Hn : forall l', (l' < Z.to_nat (level_ c))%nat \/ l' = Z.to_nat (level_ c) /\ g ∉ inputs0 c \/ l' = Z.to_nat (level_ c + 1) /\ g ∉ inputs1 c ->
    forall gs', files !! l' = Some gs' -> g ∈ gs' -> forall e, e ∈ level_entries contents (inputs0 c ++ inputs1 c) -> ExtractUserKey e.1 = ExtractUserKey x.1 -> ExtractTag e.1 < ExtractTag x.1).
  { intros l' Hcase gs' Hl' Hg' e (f & Hf & He)%elem_level_entries E. apply elem_of_app in Hf as [Hf|Hf].
    - pose proof (in_sub0 _ _ _ _ _ Hin f Hf) as Hff. pose proof (entries_share _ _ _ _ f g e x Hfs Hl' Hff Hg' He Hx E) as Hsh.
      destruct Hcase as [Hlt|[[-> Hni]|[-> Hni]]].
      + apply (lsm_newer _ _ Hlsm l' (Z.to_nat (level_ c)) gs' fs g f x e); try done. by left.
      + destruct Hni. apply (in_same _ _ _ _ _ Hin Hsame f g); [done| |done]. by assert (gs' = fs) as <- by congruence.
      + destruct Hni. apply (in_next _ _ _ _ _ Hin f g); [done| |done]. by assert (gs' = fs1) as <- by congruence.
    - pose proof (in_sub1 _ _ _ _ _ Hin f Hf) as Hff. destruct Hcase as [Hlt|[[-> Hni]|[-> Hni]]].
      + apply (lsm_newer _ _ Hlsm l' (Z.to_nat (level_ c + 1)) gs' fs1 g f x e); try done. left. lia.
      + apply (lsm_newer _ _ Hlsm (Z.to_nat (level_ c)) (Z.to_nat (level_ c + 1)) gs' fs1 g f x e); try done. left. lia.
      + destruct Hni. assert (gs' = fs1) as -> by congruence. by rewrite <- (Hnext f g Hff Hg' (entries_share _ _ _ _ f g e x Hfs1 Hfs1 Hff Hg' He Hx E)). }
  destruct (decide (l = Z.to_nat (level_ c))) as [->|N0]; [injection Hl as <-; apply list_elem_of_filter in Hg as [H1 H2]; left; apply (Hn (Z.to_nat (level_ c)) ltac:(tauto) fs Hfs H2)|].
  destruct (decide (l = Z.to_nat (level_ c + 1))) as [->|N1];
    [injection Hl as <-; apply list_elem_of_filter in Hg as [H1 H2]; left; apply (Hn (Z.to_nat (level_ c + 1)) ltac:(tauto) fs1 Hfs1 H2)|].
  destruct (decide (l < Z.to_nat (level_ c))%nat) as [Hlt|Hge]; [left; by apply (Hn l ltac:(by left) gs)|]. right.
  destruct (serves_user_range contents g x (serve l gs g Hl Hg) Hx) as [B1 B2]. unfold base_scan. apply not_true_is_false. intros Hall.
  rewrite forallb_forall in Hall. specialize (Hall gs). rewrite <- list_elem_of_In in Hall.
  assert (Hd : gs ∈ drop (Z.to_nat (level_ c + 2)) files).
  { apply list_elem_of_lookup. exists (l - Z.to_nat (level_ c + 2))%nat. rewrite lookup_drop. replace (_ + _)%nat with l by lia. done. }
  specialize (Hall Hd). apply negb_true_iff in Hall. assert (Hex : existsb (in_file (ExtractUserKey x.1)) gs = true); [|congruence].
  apply existsb_exists. exists g. split; [by apply list_elem_of_In|]. unfold in_file. rewrite (proj2 (Z.leb_le _ _) B2). cbn [andb]. apply Z.leb_le.
  destruct (file_user_ok g (sv_ok _ _ (serve l gs g Hl Hg))) as (U1 & _). destruct (sv_keys _ _ (serve l gs g Hl Hg) x Hx) as [(ux & qx & tx & Vu & _ & Ex) _].
  assert (V : valid_key (ExtractUserKey x.1)) by (by rewrite Ex, ExtractUserKey_ikey). pose proof (cmp_sgn_opp (ExtractUserKey x.1) (ustart g) V U1). lia.
Qed.
End Files.

(** The keys of the inputs before the loop. *)
Lemma left_start files c kvs : version_files_ok files -> 0 <= level_ c -> level_ c + 1 < kNumLevels -> level_ptrs_ c = replicate (Z.to_nat kNumLevels) 0%nat ->
  sorted_kvs (C := InternalKeyComparator) kvs -> (forall e, e ∈ kvs -> internal_key_ok e.1) -> left_over files c DropState_new kvs.
Proof. intros Hv H0 H1 Hp Hs Hk. split; [done|done|..|done|done|done]. intros e _. by apply new_ptrs_ok. Qed.

(** C14. Compactions lose nothing that can be read.  Let the inputs of a compaction
    be complete, as [PickCompaction] makes them, in a version whose levels are
    newer than those below and split no user key between two files of a level
    above 0.  Of the merged entries of the inputs [DoCompactionWork] drops those
    an entry of the same key hides from the oldest live snapshot, and deletions
    at or below that snapshot when no file further down has the key in its
    range.  Then a lookup of any key, at a live snapshot or at any number the
    database has reached, has the same answers over the entries that are kept and
    the other files as over the old version. *)
Theorem compaction_preserves_lookups contents files c fs fs1 snapshots vs kvs u s old rs val :
  lsm_ok contents files -> 0 <= level_ c -> level_ c + 1 < kNumLevels -> level_ptrs_ c = replicate (Z.to_nat kNumLevels) 0%nat ->
  files !! Z.to_nat (level_ c) = Some fs -> files !! Z.to_nat (level_ c + 1) = Some fs1 -> inputs_ok (level_ c) fs fs1 (inputs0 c) (inputs1 c) ->
  level_ c = 0 \/ user_disjoint fs -> user_disjoint fs1 ->
  sorted_kvs (C := InternalKeyComparator) kvs -> (forall e, e ∈ kvs <-> e ∈ level_entries contents (inputs0 c ++ inputs1 c)) ->
  taken snapshots (last_seq vs) -> last_seq vs < kMaxSequenceNumber -> seq_ok s -> readable snapshots (last_seq vs) s ->
  lookup_result u s (all_entries contents files) old rs val <->
  lookup_result u s (kept_entries files (smallest_live snapshots vs) c DropState_new kvs ++ all_entries contents (other_files c files)) old rs val.
Proof.
  intros Hlsm H0 H1 Hp Hfs Hfs1 Hin Hsame Hnext Hsrt Hkvs Ht Hmax Hs Hr. pose proof (smallest_live_last _ _ Ht) as Hl.
  rewrite <- (kept_lookups files (lsm_files _ _ Hlsm) (smallest_live snapshots vs) ltac:(lia) u s Hs (smallest_live_least _ _ _ Ht Hr) c kvs (all_entries contents (other_files c files))).
  - assert (E : forall e, e ∈ all_entries contents files <-> e ∈ kvs ++ all_entries contents (other_files c files)).
    { intros e. rewrite elem_of_app, Hkvs. by apply (split_files contents files c fs fs1). }
    split; apply lookup_result_ext; intros e; [apply E|symmetry; apply E].
  - apply left_start; [apply Hlsm|done..|]. intros e (f & Hf & He)%Hkvs%elem_level_entries.
    assert (Hsf : file_serves contents f); [|by destruct (sv_keys _ _ Hsf e He)].
    apply elem_of_app in Hf as [Hf|Hf]; [apply (lsm_serves _ _ Hlsm _ fs f Hfs); by apply (in_sub0 _ _ _ _ _ Hin)|apply (lsm_serves _ _ Hlsm _ fs1 f Hfs1); by apply (in_sub1 _ _ _ _ _ Hin)].
  - intros x Hx Eu. destruct (others_apart contents files Hlsm c fs fs1 Hfs Hfs1 H0 Hin Hsame Hnext x Hx) as [Hn|Hb]; [left|right; by rewrite <- Eu].
    intros e He Ee. apply Hn; [by apply Hkvs|by rewrite Ee].
Qed.

(** ** The example of VersionGet.v: level 0 goes to level 1 *)

Definition example_level (l : nat) : list FileMetaData := default [] (example_files !! l).
Definition example_compaction : Compaction := with_inputs (Compaction_new 2097152 0) (example_level 0) (example_level 1).

Definition example_merged : list (bytes * bytes) :=
  [entry [97] 8 kTypeValue [2]; entry [97] 2 kTypeValue [1]; entry [98] 12 kTypeDeletion []; entry [98] 9 kTypeValue [7];
   entry [98] 1 kTypeValue [5]; entry [99] 11 kTypeValue [3]].

(** A snapshot of the time before the deletion. *)
Definition example_snapshots : SnapshotList.t := (SnapshotList.New SnapshotList.make 9).2.

Lemma example_merged_sorted : sorted_kvs (C := InternalKeyComparator) example_merged.
Proof.
  repeat (apply sorted_kvs_cons; [apply internal_key_ok_valid, example_key_ok; [by_decide|split; vm_compute; discriminate]| |apply Forall_forall; by_decide]).
  apply sorted_kvs_nil.
Qed.

Lemma example_merged_all e : e ∈ example_merged <-> e ∈ level_entries example_contents (inputs0 example_compaction ++ inputs1 example_compaction).
Proof. assert (Hp : example_merged ≡ₚ level_entries example_contents (inputs0 example_compaction ++ inputs1 example_compaction)) by by_decide. by rewrite Hp. Qed.

Lemma example_inputs_ok : inputs_ok 0 (example_level 0) (example_level 1) (inputs0 example_compaction) (inputs1 example_compaction).
Proof. split; [done|done|intros f g _ Hg _; exact Hg|intros _ f g _ Hg _; exact Hg]. Qed.

Lemma example_next : user_disjoint (example_level 1).
Proof. intros f g Hf%list_elem_of_singleton Hg%list_elem_of_singleton _. by subst. Qed.

(** The snapshot keeps the deletion and the value it hides; without it both go. *)
Lemma compaction_preserves_lookups_witness :
  kept_entries example_files 9 example_compaction DropState_new example_merged
    = [entry [97] 8 kTypeValue [2]; entry [98] 12 kTypeDeletion []; entry [98] 9 kTypeValue [7]; entry [99] 11 kTypeValue [3]] /\
  kept_entries example_files 100 example_compaction DropState_new example_merged = [entry [97] 8 kTypeValue [2]; entry [99] 11 kTypeValue [3]] /\
  forall rs val, lookup_result [98] 9 (all_entries example_contents example_files) [] rs val <->
    lookup_result [98] 9 (kept_entries example_files (smallest_live example_snapshots (example_set [])) example_compaction DropState_new example_merged ++
      all_entries example_contents (other_files example_compaction example_files)) [] rs val.
Proof.
  split; [vm_compute; reflexivity|]. split; [vm_compute; reflexivity|]. intros rs val.
  apply (compaction_preserves_lookups example_contents example_files example_compaction (example_level 0) (example_level 1)).
  - exact example_lsm.
  - discriminate.
  - reflexivity.
  - reflexivity.
  - reflexivity.
  - reflexivity.
  - exact example_inputs_ok.
  - by left.
  - exact example_next.
  - exact example_merged_sorted.
  - exact example_merged_all.
  - apply (taken_write _ 9); [apply (taken_get SnapshotList.make 9), taken_open|discriminate].
  - reflexivity.
  - split; vm_compute; discriminate.
  - left. by left.
Defined.
