(* ===== verification/CompactionOutputs.v ===== *)
(** * CompactionOutputs: what a compaction writes

    A run of [DoCompactionWork] (DbCompact.v) in which nothing fails: it ends, and
    its output files are the tables of the entries it keeps, cut into runs. *)
From stdpp Require Import gmap.
From S2P Require Import Prelude Coding Crc32c Status Comparator DbFormat Filename TableFormat Block Iterators FilterBlock TableBuilder.
From S2P Require Import VersionEdit Version TableLookup VersionGet VersionBuilder Manifest VersionSet VersionApply Merger Compaction CompactionInputs DbCompact CompactionView.

Import TableBuilder.

#[local] Existing Instances BytewiseComparator BytewiseLaws.

Lemma TableFileName_inj db n m : 0 <= n < 2 ^ 64 -> 0 <= m < 2 ^ 64 -> TableFileName db n = TableFileName db m -> n = m.
Proof.
  intros Hn Hm E. apply (f_equal (fun f => ParseFileName (base_name db f))) in E. unfold TableFileName in E.
  rewrite !MakeFileName_base, !parse_make in E by (done || (simpl; lia)). by injection E.
Qed.

(** ** Which compactions decide alike *)

Record same_work (c c' : Compaction) : Prop := {
  sw_level : level_ c' = level_ c;
  sw_inputs0 : inputs0 c' = inputs0 c;
  sw_inputs1 : inputs1 c' = inputs1 c;
  sw_edit : edit_ c' = edit_ c;
  sw_size : max_output_file_size_ c' = max_output_file_size_ c
}.

#[export] Instance same_work_equiv : Equivalence same_work.
Proof. split; [by intros c|intros c c' []; by split|intros a b c [] []; split; congruence]. Qed.

(** Same answers of [IsBaseLevelForKey]. *)
Definition same_ptrs (c c' : Compaction) : Prop := level_ c' = level_ c /\ level_ptrs_ c' = level_ptrs_ c.

Lemma IsBaseLevelForKey_work files c u : same_work c (IsBaseLevelForKey files c u).2.
Proof. unfold IsBaseLevelForKey. by destruct (base_levels _ _ _). Qed.

Lemma drop_entry_work files smallest c d key : same_work c (drop_entry files smallest c d key).1.2.
Proof.
  unfold drop_entry. destruct (ParseInternalKey key) as [k|]; [|done]. destruct (_ <=? smallest); [done|]. destruct (type k); [|done].
  destruct (sequence k <=? smallest); [|done]. pose proof (IsBaseLevelForKey_work files c (user_key k)) as H. by destruct (IsBaseLevelForKey _ _ _).
Qed.

Lemma drop_entry_ptrs files smallest c c' d key : same_ptrs c c' ->
  (drop_entry files smallest c' d key).1.1 = (drop_entry files smallest c d key).1.1 /\ (drop_entry files smallest c' d key).2 = (drop_entry files smallest c d key).2 /\
  same_ptrs (drop_entry files smallest c d key).1.2 (drop_entry files smallest c' d key).1.2.
Proof.
  intros [E1 E2]. unfold drop_entry. destruct (ParseInternalKey key) as [k|]; [|by split_and!]. destruct (_ <=? smallest); [by split_and!|].
  destruct (type k); [|by split_and!]. destruct (sequence k <=? smallest); [|by split_and!].
  unfold IsBaseLevelForKey. rewrite E1, E2. destruct (base_levels _ _ _) as [b ptrs]. by split_and!.
Qed.

Section Outputs.
Context `{!Crc32c, !Snappy, !OutputCheck} {P : FilterPolicy} {PL : FilterPolicyLaws P} (o : VersionSet.Options) (topt : TableBuilder.Options) (N : nat).
Context (Hfilters : filter_policy topt <> None -> (0 < filterNums)%nat /\ forall l, (length l <= N)%nat -> keys_ok l).
Context (Hmfs : 0 <= max_file_size o < 2 ^ 31 / 25).

(** Tables are ordered by internal keys. *)
Abbreviation build_internal := (build_table (H1 := InternalKeyComparator)).
Abbreviation add_internal := (add_entries (H1 := InternalKeyComparator)).
Abbreviation building_internal := (building (C := InternalKeyComparator)).

(** File numbers are new, and the check of each output succeeds. *)
Context (fresh : nat -> Z) (Hfresh : forall i, (i <= N)%nat -> 0 < fresh i < 2 ^ 64) (Hinj : forall i j, (i <= N)%nat -> (j <= N)%nat -> fresh i = fresh j -> i = j).
Context (Hopen : forall cache l n size md i0 i1, (oc_open cache l n size md i0 i1).1 = Status_OK).

Abbreviation table_name i := (TableFileName (dbname_ o) (fresh i)).

Lemma table_name_inj i j : (i <= N)%nat -> (j <= N)%nat -> table_name i = table_name j -> i = j.
Proof. intros Hi Hj E. apply Hinj; [done..|]. apply (TableFileName_inj (dbname_ o)); [pose proof (Hfresh i Hi); lia|pose proof (Hfresh j Hj); lia|done]. Qed.

(** The [i]-th output is the table of [g]. *)
Record is_output (e : Env) (i : nat) (out : Output) (g : list (bytes * bytes)) : Prop := {
  io_some : g <> [];
  io_number : o_number out = fresh i;
  io_smallest : o_smallest out = first_key_of g;
  io_largest : o_largest out = last_key_of g;
  io_table : exists r, build_internal topt (WFile [] []) g = Some (Status_OK, r) /\ o_file_size out = FileSize r /\
    Filename.files e !! table_name i = Some (contents (TableBuilder.file r))
}.

(** The current output, with the entries [g] so far. *)
Record is_open (e : Env) (i : nat) (out : Output) (r : Rep) (g : list (bytes * bytes)) : Prop := {
  op_number : o_number out = fresh i;
  op_smallest : g <> [] -> o_smallest out = first_key_of g;
  op_largest : g <> [] -> o_largest out = last_key_of g;
  op_made : exists r0, TableBuilder.make topt (WFile [] []) = Some r0 /\ add_internal r0 g = Some r;
  op_building : exists bgs bcur, building_internal topt r bgs bcur /\ concat bgs ++ bcur = g;
  op_stored : Filename.files e !! table_name i = Some (contents (TableBuilder.file r))
}.

(** The tables [gs] are complete, and [cur] is in the current one. *)
Record working (w : Work) (gs : list (list (bytes * bytes))) (cur : list (bytes * bytes)) : Prop := {
  wk_io : env_io (w_env w) = [];
  wk_done : forall i out g, outputs (state w) !! i = Some out -> gs !! i = Some g -> is_output (w_env w) i out g;
  wk_open : match builder (state w) with
            | None => cur = [] /\ length (outputs (state w)) = length gs
            | Some r => exists outs out, outputs (state w) = outs ++ [out] /\ length outs = length gs /\ is_open (w_env w) (length gs) out r cur
            end
}.

Lemma is_output_kept e e' i out g : Filename.files e' !! table_name i = Filename.files e !! table_name i -> is_output e i out g -> is_output e' i out g.
Proof. intros E [O1 O2 O3 O4 (r & R1 & R2 & R3)]. split; try done. exists r. by rewrite E. Qed.

Lemma lend_stored e i out r g : env_io e = [] -> is_open e i out r g -> lend e (table_name i) r = r.
Proof.
  intros Hio [_ _ _ _ (bgs & bcur & [_ _ Hs Hf _ _ _ _ _ _] & _) Hst]. unfold lend. rewrite Hst, Hio, Hf. cbn [default contents].
  destruct r; cbn in *. by subst.
Qed.

(** Another file of the directory changes. *)
Lemma working_done w e' (outs : list Output) gs k : (forall i out g, outs !! i = Some out -> gs !! i = Some g -> is_output (w_env w) i out g) -> length gs = k -> (k <= N)%nat ->
  (forall f, f <> table_name k -> Filename.files e' !! f = Filename.files (w_env w) !! f) ->
  forall i out g, outs !! i = Some out -> gs !! i = Some g -> is_output e' i out g.
Proof.
  intros Hd Hk HN Hf i out g Ho Hg. apply (is_output_kept (w_env w)); [|by apply Hd]. apply Hf. pose proof (lookup_lt_Some _ _ _ Hg). intros E%table_name_inj; lia.
Qed.

(** ** Opening an output *)

Lemma open_output_ok w gs : working w gs [] -> builder (state w) = None -> (length gs <= N)%nat ->
  exists w' r, OpenCompactionOutputFile o topt fresh w = Some (Status_OK, w') /\ working w' gs [] /\ builder (state w') = Some r /\
    compaction (state w') = compaction (state w) /\ smallest_snapshot (state w') = smallest_snapshot (state w).
Proof.
  intros [Hio Hd Ho] Hb HgN. rewrite Hb in Ho. destruct Ho as [_ Hlen]. unfold OpenCompactionOutputFile. rewrite Hb, Hlen.
  unfold NewWritableFile, env_op. cbn [w_env]. rewrite Hio. cbn [next_io ok Status_OK Filename.files env_io]. rewrite lookup_insert_eq. cbn [from_option id].
  destruct (make_building (C := InternalKeyComparator) topt N Hfilters) as (r & Hm & Hr). rewrite Hm. cbn [mbind option_bind]. eexists _, r. split; [done|]. split_and!; [|done..].
  assert (Hf : file r = WFile [] []) by (rewrite (bd_file _ _ _ _ Hr); done). split; cbn.
  - by rewrite Hf.
  - intros i out g Hi Hg. pose proof (lookup_lt_Some _ _ _ Hg). rewrite lookup_app_l in Hi by lia. apply (working_done w _ (outputs (state w)) gs (length gs) Hd eq_refl HgN); [|done..].
    intros f Hf'. cbn. rewrite Hf. by rewrite !lookup_insert_ne by done.
  - exists (outputs (state w)), (MkOutput (fresh (length gs)) 0 [] []). split; [done|]. split; [done|]. split; try done.
    + by exists r.
    + by exists [], [].
    + cbn. by rewrite lookup_insert_eq.
Qed.

(** ** Closing it *)

Lemma removelast_snoc {A} (l : list A) x : removelast (l ++ [x]) = l.
Proof. apply removelast_last. Qed.

Lemma Finish_ok w gs cur r : working w gs cur -> builder (state w) = Some r -> cur <> [] -> (length gs <= N)%nat -> (length cur <= N)%nat -> data_cost cur < 2 ^ 63 ->
  exists w', FinishCompactionOutputFile o w Status_OK = Some (Status_OK, w') /\ working w' (gs ++ [cur]) [] /\ builder (state w') = None /\
    compaction (state w') = compaction (state w) /\ smallest_snapshot (state w') = smallest_snapshot (state w).
Proof.
  intros [Hio Hd Ho] Hb Hne HgN HN Hc. rewrite Hb in Ho. destruct Ho as (outs & out & Eo & Hlen & Hop). pose proof Hop as [Q1 Q2 Q3 (r0 & Q4 & Q5) (bgs & bcur & Q6 & Q7) Q8].
  unfold FinishCompactionOutputFile, current_output. rewrite Hb, Eo, last_snoc. cbn [mbind option_bind]. rewrite Q1.
  rewrite (proj2 (Z.eqb_neq _ _)) by (pose proof (Hfresh (length gs) HgN); lia). cbn [ok Status_OK]. rewrite (lend_stored _ _ _ _ _ Hio Hop).
  rewrite <- Q7 in HN, Hc. destruct (Finish_building (C := InternalKeyComparator) topt N Hfilters r bgs bcur Q6 HN Hc) as (r' & gs' & results & fb & Ef & _ & _ & _ & F1 & _ & F2 & _).
  rewrite Ef. cbn [mbind option_bind ok Status_OK]. unfold file_Sync, file_Close, env_op, stored. cbn [env_io Filename.files]. rewrite F1. cbn [w_io next_io ok Status_OK contents].
  cbn [env_io next_io Filename.files ok Status_OK andb].
  assert (Hw : forall w', w_env w' = MkEnv (id (id (<[table_name (length gs) := table_text (C := InternalKeyComparator) topt gs' results fb]> (Filename.files (w_env w))))) [] ->
    state w' = close_output (state w) out (FileSize r') -> working w' (gs ++ [cur]) [] /\ builder (state w') = None /\
    compaction (state w') = compaction (state w) /\ smallest_snapshot (state w') = smallest_snapshot (state w)).
  { intros w' Ew Es. rewrite Es. split_and!; [|done..]. assert (Eouts : outputs (state w') = outs ++ [MkOutput (o_number out) (FileSize r') (o_smallest out) (o_largest out)]).
    { rewrite Es. cbn. by rewrite Eo, removelast_snoc. } split; [by rewrite Ew| |by rewrite Es; cbn; rewrite Eo, removelast_snoc, !length_app, Hlen].
    rewrite Eouts. intros i out' g Hi Hg. destruct (decide (i = length gs)) as [->|Hn].
    - rewrite lookup_app_r, Hlen, Nat.sub_diag in Hi by lia. injection Hi as <-. rewrite lookup_app_r, Nat.sub_diag in Hg by lia. injection Hg as <-.
      split; cbn; [done|done|by apply Q2|by apply Q3|]. exists r'. split_and!; [|done|rewrite Ew; cbn; by rewrite lookup_insert_eq, F1].
      unfold build_table. rewrite Q4. cbn [mbind option_bind]. rewrite Q5. cbn [mbind option_bind]. done.
    - pose proof (lookup_lt_Some _ _ _ Hg) as Hlt. rewrite length_app in Hlt. cbn in Hlt. rewrite lookup_app_l in Hi by lia. rewrite lookup_app_l in Hg by lia.
      apply (working_done w _ outs gs (length gs)); [|done|done| |done..].
      + intros j out2 g2 Hj Hg2. apply Hd; [|done]. rewrite Eo. by apply lookup_app_l_Some.
      + intros f Hf. rewrite Ew. cbn. by rewrite lookup_insert_ne. }
  destruct (0 <? NumEntries r).
  - match goal with |- context [oc_open ?a ?b ?c ?d ?e ?f ?g] => pose proof (Hopen a b c d e f g) as Eo'; destruct (oc_open a b c d e f g) as [st cache] end.
    cbn in Eo'. subst st. eexists. split; [done|]. by apply Hw.
  - eexists. split; [done|]. by apply Hw.
Qed.

(** ** Keeping an entry *)

Lemma add_entries_snoc g kv : forall r0 r, add_internal r0 g = Some r -> add_internal r0 (g ++ [kv]) = r' ← Add (H1 := InternalKeyComparator) r kv.1 kv.2; Some r'.
Proof. induction g as [|x g IH]; intros r0 r; cbn [add_entries app]; [by intros [= <-]|]. destruct (Add (H1 := InternalKeyComparator) r0 x.1 x.2) as [r1|]; [|done]. cbn. apply IH. Qed.

(** An open output has an entry. *)
Definition settled (w : Work) (gs : list (list (bytes * bytes))) (cur : list (bytes * bytes)) : Prop :=
  working w gs cur /\ (builder (state w) = None \/ cur <> []) /\ (length gs <= length (concat gs))%nat.

Definition same_state (s s' : CompactionState) : Prop := compaction s' = compaction s /\ smallest_snapshot s' = smallest_snapshot s.

#[local] Instance same_state_trans : Transitive same_state.
Proof. intros a b c [A1 A2] [B1 B2]. split; congruence. Qed.

Lemma count_close {A} (gs : list (list A)) cur : (length gs <= length (concat gs))%nat -> cur <> [] -> (length (gs ++ [cur]) <= length (concat (gs ++ [cur])))%nat.
Proof. intros Hg Hne. rewrite concat_app, !length_app. destruct cur; [done|]. cbn. lia. Qed.

Lemma Add_ok w gs cur kv r out outs : working w gs cur -> builder (state w) = Some r -> outputs (state w) = outs ++ [out] -> (length gs <= N)%nat ->
  (length (cur ++ [kv]) <= N)%nat -> data_cost (cur ++ [kv]) < 2 ^ 63 ->
  exists r', Add (H1 := InternalKeyComparator) (lend (w_env w) (TableFileName (dbname_ o) (o_number out)) r) kv.1 kv.2 = Some r' /\
    forall w', w_env w' = stored (w_env w) (TableFileName (dbname_ o) (o_number out)) r' -> 
      state w' = with_builder (set_current (state w) (MkOutput (o_number out) (o_file_size out) (if TableBuilder.NumEntries r =? 0 then kv.1 else o_smallest out) kv.1)) (Some r') ->
      working w' gs (cur ++ [kv]) /\ same_state (state w) (state w').
Proof.
  intros [Hio Hd Ho] Hb Eo' HgN HN Hc. rewrite Hb in Ho. destruct Ho as (outs' & out' & Eo & Hlen & Hop). rewrite Eo' in Eo. apply app_inj_tail in Eo as [<- <-].
  pose proof Hop as [Q1 Q2 Q3 (r0 & Q4 & Q5) (bgs & bcur & Q6 & Q7) Q8]. rewrite Q1, (lend_stored _ _ _ _ _ Hio Hop).
  rewrite <- Q7, <- app_assoc in HN, Hc. destruct (Add_building (C := InternalKeyComparator) topt N Hfilters r bgs bcur kv Q6 HN Hc) as (r' & bgs' & bcur' & Ea & Hr' & Ecat).
  exists r'. split; [done|]. intros w' Ew Es. rewrite app_assoc, Q7 in Ecat. pose proof (bd_file _ _ _ _ Hr') as Hf.
  assert (Eouts : outputs (state w') = outs ++ [MkOutput (fresh (length gs)) (o_file_size out) (if TableBuilder.NumEntries r =? 0 then kv.1 else o_smallest out) kv.1]).
  { rewrite Es. cbn. by rewrite Eo', removelast_snoc. }
  split; [|by rewrite Es; split]. split.
  - rewrite Ew. cbn. by rewrite Hf.
  - intros i out2 g Hi Hg. pose proof (lookup_lt_Some _ _ _ Hg) as Hlt. rewrite Eouts, lookup_app_l in Hi by lia.
    apply (working_done w _ outs gs (length gs)); [|done|done| |done..].
    + intros j out3 g3 Hj Hg3. apply Hd; [|done]. rewrite Eo'. by apply lookup_app_l_Some.
    + intros f Hne. rewrite Ew. cbn. by rewrite lookup_insert_ne.
  - rewrite Es. cbn [builder with_builder]. exists outs, (MkOutput (fresh (length gs)) (o_file_size out) (if TableBuilder.NumEntries r =? 0 then kv.1 else o_smallest out) kv.1).
    split; [by rewrite <- Eouts, Es|]. split; [done|]. split; cbn; [done| |by rewrite last_key_of_snoc| |by exists bgs', bcur'|by rewrite Ew; cbn; rewrite lookup_insert_eq].
    + intros _. pose proof (bd_entries _ _ _ _ Q6) as En. rewrite Q7 in En. unfold TableBuilder.NumEntries. rewrite En. destruct cur as [|x cur]; [done|].
      rewrite (proj2 (Z.eqb_neq _ _)) by (unfold zlen; cbn; lia). rewrite first_key_of_snoc by done. by apply Q2.
    + exists r0. split; [done|]. by rewrite (add_entries_snoc _ _ _ _ Q5), Ea.
Qed.

Lemma keep_ok w gs cur k v : settled w gs cur -> (length gs <= N)%nat -> (length (cur ++ [(k, v)]) <= N)%nat -> data_cost (cur ++ [(k, v)]) < 2 ^ 63 ->
  exists w' gs' cur', keep_entry o topt fresh w k v Status_OK = Some (Status_OK, w') /\ settled w' gs' cur' /\
    concat gs' ++ cur' = concat gs ++ cur ++ [(k, v)] /\ same_state (state w) (state w').
Proof.
  intros (Hw & Hset & Hcnt) HgN HN Hc.
  assert (H1' : exists w1 r, match builder (state w) with None => OpenCompactionOutputFile o topt fresh w | Some _ => Some (Status_OK, w) end = Some (Status_OK, w1) /\
    working w1 gs cur /\ builder (state w1) = Some r /\ same_state (state w) (state w1)).
  { destruct (builder (state w)) as [r|] eqn:Eb; [by exists w, r|]. pose proof (wk_open _ _ _ Hw) as Ho. rewrite Eb in Ho. destruct Ho as [-> _].
    destruct (open_output_ok w gs Hw Eb HgN) as (w1 & r & E1 & E2 & E3 & E4 & E5). by exists w1, r. }
  destruct H1' as (w1 & r & E1 & Hw1 & Hb1 & Hs1). unfold keep_entry. rewrite E1. cbn [mbind option_bind ok Status_OK negb]. rewrite Hb1. cbn [mbind option_bind].
  pose proof (wk_open _ _ _ Hw1) as Ho. rewrite Hb1 in Ho. destruct Ho as (outs & out & Eo & _). unfold current_output. rewrite Eo, last_snoc. cbn [mbind option_bind o_number].
  destruct (Add_ok w1 gs cur (k, v) r out outs Hw1 Hb1 Eo HgN HN Hc) as (r' & Ea & Hw2). cbn [fst snd] in Ea, Hw2. rewrite Ea. cbn [mbind option_bind].
  match goal with |- context [with_w_env w1 ?s ?e] => set (w2 := with_w_env w1 s e) end. destruct (Hw2 w2 eq_refl eq_refl) as [Hw' Hs2]. clear Hw2.
  destruct (_ <=? TableBuilder.FileSize r').
  - destruct (Finish_ok w2 gs (cur ++ [(k, v)]) r' Hw' eq_refl ltac:(by destruct cur) HgN HN Hc) as (w3 & -> & Hw3 & Hb3 & Hs3). exists w3, (gs ++ [cur ++ [(k, v)]]), [].
    split; [done|]. split; [split_and!; [done|by left|by apply count_close; [|destruct cur]]|]. split; [by rewrite concat_app; cbn; rewrite !app_nil_r|]. etrans; [done|]. by etrans.
  - exists w2, gs, (cur ++ [(k, v)]). split; [done|]. split; [split_and!; [done|right; by destruct cur|done]|]. split; [done|]. by etrans.
Qed.

(** ** The loop *)

Lemma ShouldStopBefore_ok c key : exists b c', ShouldStopBefore o c key = Some (b, c') /\ same_work c c' /\ same_ptrs c c'.
Proof.
  unfold ShouldStopBefore. destruct (pass_grandparents _ _ _ _ _) as [index overlapped]. change (2 ^ 31 / 25) with 85899345 in Hmfs.
  assert (El : MaxGrandParentOverlapBytes (max_file_size o) = Some (10 * max_file_size o)).
  { unfold MaxGrandParentOverlapBytes, int_mul, TargetFileSize, i32. rewrite (Z.mod_small (max_file_size o + 2 ^ 31)) by lia.
    replace (max_file_size o + 2 ^ 31 - 2 ^ 31) with (max_file_size o) by lia. by rewrite (proj2 (Z.leb_le _ _)), (proj2 (Z.ltb_lt _ _)) by lia. }
  rewrite El. cbn [mbind option_bind]. eexists _, _. split; [done|]. split; by split.
Qed.

Section Loop.
Context {I : Type} `{!Iterator I} (levels : list (list FileMetaData)) (stop : nat -> bool) (Hstop : forall k, stop k = false).
Context (kvs : list (bytes * bytes)) (at_ : I -> nat -> Prop) (Hcur : cursor_over (H := InternalKeyComparator) kvs at_).

(** What the kept entries and those to come need fits a table. *)
Definition fits (prev rem : list (bytes * bytes)) : Prop := (length prev + length rem <= N)%nat /\ data_cost prev + data_cost rem < 2 ^ 63.

Lemma fits_cur w gs cur kv rem : settled w gs cur -> fits (concat gs ++ cur) (kv :: rem) -> (length gs <= N)%nat /\ (length (cur ++ [kv]) <= N)%nat /\ data_cost (cur ++ [kv]) < 2 ^ 63.
Proof.
  intros (_ & _ & Hcnt) [F1 F2]. rewrite length_app in F1. rewrite data_cost_app in F2. rewrite length_app, data_cost_app.
  change (data_cost (kv :: rem)) with (entry_cost kv + data_cost rem) in F2. change (data_cost [kv]) with (entry_cost kv + 0). cbn [length] in *.
  pose proof (data_cost_nonneg (concat gs)). pose proof (data_cost_nonneg rem). lia.
Qed.

Lemma fits_next prev kv rem (b : bool) : fits prev (kv :: rem) -> fits (prev ++ if b then [] else [kv]) rem.
Proof.
  intros [F1 F2]. change (data_cost (kv :: rem)) with (entry_cost kv + data_cost rem) in F2. pose proof (data_cost_nonneg [kv]) as Hc.
  change (data_cost [kv]) with (entry_cost kv + 0) in Hc. cbn [length] in F1.
  destruct b; split; rewrite ?app_nil_r, ?length_app, ?data_cost_app; try change (data_cost [kv]) with (entry_cost kv + 0); cbn [length]; lia.
Qed.

Lemma Finish_fits w gs cur rem : settled w gs cur -> fits (concat gs ++ cur) rem -> builder (state w) <> None ->
  exists w', FinishCompactionOutputFile o w Status_OK = Some (Status_OK, w') /\ settled w' (gs ++ [cur]) [] /\ builder (state w') = None /\ same_state (state w) (state w').
Proof.
  intros (Hw & Hs & Hcnt) [F1 F2] Hb. destruct (builder (state w)) as [r|] eqn:Eb; [|done]. destruct Hs as [?|Hne]; [done|]. rewrite length_app in F1. rewrite data_cost_app in F2.
  pose proof (data_cost_nonneg (concat gs)). pose proof (data_cost_nonneg rem).
  destruct (Finish_ok w gs cur r Hw Eb Hne ltac:(lia) ltac:(lia) ltac:(lia)) as (w' & E & Hw' & Hb' & Hs'). exists w'. split; [done|]. split; [split_and!; [done|by left|by apply count_close]|done].
Qed.

Lemma with_compaction_settled w gs cur c : settled w gs cur -> settled (with_state w (with_compaction (state w) c)) gs cur.
Proof. intros ([Q1 Q2 Q3] & Hs & Hcnt). by split_and!. Qed.

Lemma concat_close {A} (gs : list (list A)) cur : concat (gs ++ [cur]) ++ [] = concat gs ++ cur.
Proof. by rewrite concat_app; cbn; rewrite !app_nil_r. Qed.

(** One entry. *)
Lemma work_entry_ok w gs cur it i kv rem c d : settled w gs cur -> fits (concat gs ++ cur) (kv :: rem) -> at_ it i -> kvs !! i = Some kv ->
  same_ptrs c (compaction (state w)) ->
  let '(drop, c', d') := drop_entry levels (smallest_snapshot (state w)) c d kv.1 in
  exists w' gs' cur', work_entry o topt levels fresh w it d = Some (Status_OK, w', d') /\ settled w' gs' cur' /\
    concat gs' ++ cur' = (concat gs ++ cur) ++ (if drop then [] else [kv]) /\ same_ptrs c' (compaction (state w')) /\
    same_work (compaction (state w)) (compaction (state w')) /\ smallest_snapshot (state w') = smallest_snapshot (state w).
Proof.
  intros Hw Hf Hat Hkv Hp. destruct (cur_shows _ _ Hcur it i Hat) as [Hst Hsh]. rewrite Hkv in Hsh. destruct kv as [k v]. destruct Hsh as (_ & Ek & Ev).
  unfold work_entry. rewrite Ek, Ev, Hst. cbn [fst].
  destruct (ShouldStopBefore_ok (compaction (state w)) k) as (b & c1 & -> & W1 & P1). cbn [mbind option_bind].
  pose proof (with_compaction_settled w gs cur c1 Hw) as Hw1. set (w1 := with_state w _) in *. assert (Ec1 : compaction (state w1) = c1) by done.
  assert (Es1 : smallest_snapshot (state w1) = smallest_snapshot (state w)) by done. clearbody w1.
  assert (Hcl : exists w2 gs2 cur2, (if b && match builder (state w1) with Some _ => true | None => false end then FinishCompactionOutputFile o w1 Status_OK else Some (Status_OK, w1))
    = Some (Status_OK, w2) /\ settled w2 gs2 cur2 /\ concat gs2 ++ cur2 = concat gs ++ cur /\ same_state (state w1) (state w2)).
  { destruct (builder (state w1)) as [r|] eqn:Eb; [|rewrite andb_false_r; by exists w1, gs, cur]. rewrite andb_true_r. destruct b; [|by exists w1, gs, cur].
    destruct (Finish_fits w1 gs cur ((k, v) :: rem) Hw1 Hf ltac:(by rewrite Eb)) as (w2 & E2 & Hw2 & _ & Hs2). exists w2, (gs ++ [cur]), []. by rewrite concat_close. }
  destruct Hcl as (w2 & gs2 & cur2 & -> & Hw2 & Ecat & [Ec2 Es2]). cbn [mbind option_bind ok Status_OK negb].
  assert (Hp2 : same_ptrs c (compaction (state w2))) by (rewrite Ec2, Ec1; destruct Hp, P1; split; congruence).
  assert (Hwk2 : same_work (compaction (state w)) (compaction (state w2))) by (by rewrite Ec2, Ec1).
  rewrite Es2, Es1. destruct (drop_entry_ptrs levels (smallest_snapshot (state w)) c (compaction (state w2)) d k Hp2) as (D1 & D2 & D3).
  pose proof (drop_entry_work levels (smallest_snapshot (state w)) (compaction (state w2)) d k) as D4.
  destruct (drop_entry levels (smallest_snapshot (state w)) c d k) as [[drop c'] d']. destruct (drop_entry levels (smallest_snapshot (state w)) (compaction (state w2)) d k) as [[drop2 c2'] d2'].
  cbn [fst snd] in D1, D2, D3, D4. subst drop2 d2'. pose proof (with_compaction_settled w2 gs2 cur2 c2' Hw2) as Hw3. destruct drop.
  - eexists _, gs2, cur2. split; [done|]. split; [done|]. split; [by rewrite app_nil_r|]. split; [done|]. split; [by etrans|cbn; congruence].
  - rewrite <- Ecat in Hf. destruct (fits_cur _ gs2 cur2 (k, v) rem Hw3 Hf) as (B0 & B1 & B2). destruct (keep_ok _ gs2 cur2 k v Hw3 B0 B1 B2) as (w4 & gs4 & cur4 & -> & Hw4 & Ecat4 & [Ec4 Es4]).
    cbn [mbind option_bind]. exists w4, gs4, cur4. split; [done|]. split; [done|]. split; [by rewrite Ecat4, app_assoc, Ecat|]. rewrite Ec4. split; [done|]. split; [by etrans|].
    rewrite Es4. cbn. congruence.
Qed.

(** The whole loop. *)
Lemma work_loop_ok rem : forall fuel k w gs cur it i c d, drop i kvs = rem -> (length rem < fuel)%nat -> settled w gs cur -> fits (concat gs ++ cur) rem -> at_ it i ->
  same_ptrs c (compaction (state w)) ->
  exists w' it' k' gs' cur', work_loop o topt levels fresh stop fuel k w it d = Some (Status_OK, w', it', k') /\ istatus it' = Status_OK /\ settled w' gs' cur' /\
    fits (concat gs' ++ cur') [] /\ concat gs' ++ cur' = (concat gs ++ cur) ++ kept_entries levels (smallest_snapshot (state w)) c d rem /\
    same_work (compaction (state w)) (compaction (state w')).
Proof.
  induction rem as [|kv rem IH]; intros fuel k w gs cur it i c d Hrem Hfuel Hw Hf Hat Hp; (destruct fuel as [|fuel]; [cbn in Hfuel; lia|]); cbn [work_loop].
  - pose proof (f_equal length Hrem) as Hl. rewrite length_drop in Hl. cbn in Hl. rewrite (at_valid _ _ _ _ Hcur Hat), bool_decide_eq_false_2 by lia.
    exists w, it, k, gs, cur. split; [done|]. split; [by destruct (cur_shows _ _ Hcur it i Hat)|]. split; [done|]. split; [done|]. by rewrite app_nil_r.
  - assert (Hkv : kvs !! i = Some kv) by (rewrite <- (Nat.add_0_r i), <- lookup_drop, Hrem; done). pose proof (lookup_lt_Some _ _ _ Hkv) as Hlt.
    rewrite (at_valid _ _ _ _ Hcur Hat), bool_decide_eq_true_2, Hstop by done.
    pose proof (work_entry_ok w gs cur it i kv rem c d Hw Hf Hat Hkv Hp) as He. cbn [kept_entries]. destruct (drop_entry levels (smallest_snapshot (state w)) c d kv.1) as [[dr c'] d'].
    destruct He as (w' & gs' & cur' & -> & Hw' & Ecat & Hp' & Hwk & Es). cbn [mbind option_bind ok Status_OK negb].
    destruct (cur_step _ _ Hcur it i OpNext (S i) Hat Logic.I) as (it' & -> & Hat'); [unfold cursor_step; by rewrite (proj2 (Nat.ltb_lt _ _) Hlt)|]. cbn [mbind option_bind].
    destruct (IH fuel (S k) w' gs' cur' it' (S i) c' d') as (w2 & it2 & k2 & gs2 & cur2 & E & R1 & R2 & R3 & R4 & R5); try done; [|cbn in Hfuel; lia| |].
    { rewrite (drop_S _ _ _ Hkv) in Hrem. by injection Hrem. }
    { rewrite Ecat. by apply fits_next. }
    exists w2, it2, k2, gs2, cur2. split; [done|]. split; [done|]. split; [done|]. split; [done|]. split; [|by etrans]. rewrite R4, Ecat, Es. destruct dr; by rewrite <- !app_assoc.
Qed.

Lemma finish_work_ok w gs cur it k : istatus it = Status_OK -> settled w gs cur -> fits (concat gs ++ cur) [] ->
  exists w' gs', finish_work o stop Status_OK w it k = Some (Status_OK, w') /\ settled w' gs' [] /\ builder (state w') = None /\ concat gs' = concat gs ++ cur /\
    same_state (state w) (state w').
Proof.
  intros Hst Hw Hf. unfold finish_work. rewrite Hst, Hstop. cbn [ok Status_OK andb]. destruct (builder (state w)) as [r|] eqn:Eb.
  - destruct (Finish_fits w gs cur [] Hw Hf ltac:(by rewrite Eb)) as (w' & -> & Hw' & Hb' & Hs'). cbn [mbind option_bind ok Status_OK]. exists w', (gs ++ [cur]). split; [done|].
    rewrite <- (concat_close gs cur), app_nil_r. done.
  - exists w, gs. split; [done|]. pose proof Hw as (Hw' & _). pose proof (wk_open _ _ _ Hw') as Ho. rewrite Eb in Ho. destruct Ho as [-> _]. rewrite app_nil_r. done.
Qed.

(** C15. The files a compaction writes.  Given the merged entries of its inputs by
    any iterator that keeps the contract of iterators, new file numbers, a level
    that is not empty, and no failure, [DoCompactionWork] comes to an end.  It cuts the entries it keeps
    into runs that are not empty; the i-th output file is, byte for byte, the
    table of the i-th run, with its size and its first and last key; and what it
    installs adds these files to the next level and deletes all inputs. *)
Theorem compaction_outputs resume snapshots vs c pending cache fuel input i n : NumLevelFiles vs (level_ c) = Some n -> 0 < n -> env_io (env_ vs) = [] -> at_ input i -> (length kvs < fuel)%nat ->
  (length kvs <= N)%nat -> data_cost kvs < 2 ^ 63 ->
  exists w gs, DoCompactionWork o topt levels fresh stop resume snapshots vs c pending cache fuel input
      = ('(st, vs') ← InstallCompactionResults o (resume (w_env w)) (state w); Some (st, w, vs')) /\
    concat gs = kept_entries levels (smallest_live snapshots vs) c DropState_new kvs /\
    length (outputs (state w)) = length gs /\
    (forall i out g, outputs (state w) !! i = Some out -> gs !! i = Some g -> is_output (w_env w) i out g) /\
    results_edit (state w) = fold_left (add_output (level_ c)) (outputs (state w)) (AddInputDeletions c (edit_ c)).
Proof.
  intros Hn Hpos Hio Hat Hfuel HN Hc. unfold DoCompactionWork. rewrite Hn. cbn [mbind option_bind]. rewrite (proj2 (Z.leb_gt _ _)) by done. destruct (cur_step _ _ Hcur input i OpFirst 0%nat Hat Logic.I eq_refl) as (it & -> & Hat0). cbn [mbind option_bind].
  set (w0 := MkWork _ _ _ _ _). assert (Hw0 : settled w0 [] []) by (split_and!; [split; [done|by intros ? ? ? E|done]|by left|done]).
  destruct (work_loop_ok kvs fuel 0 w0 [] [] it 0%nat c DropState_new eq_refl Hfuel Hw0) as (w1 & it1 & k1 & gs1 & cur1 & -> & R1 & R2 & R3 & R4 & R5); [|done|done|].
  { split; cbn; [done|lia]. }
  cbn [mbind option_bind]. destruct (finish_work_ok w1 gs1 cur1 it1 k1 R1 R2 R3) as (w & gs & -> & [Hw _] & Hb & Ecat & [Ec _]). cbn [mbind option_bind ok Status_OK].
  exists w, gs. split; [done|]. split; [by rewrite Ecat, R4|]. pose proof (wk_open _ _ _ Hw) as Ho. rewrite Hb in Ho. split; [apply Ho|]. split; [apply (wk_done _ _ _ Hw)|].
  unfold results_edit, AddInputDeletions. rewrite Ec. destruct R5 as [-> -> -> -> _]. done.
Qed.
End Loop.
End Outputs.

(** ** The example of CompactionView.v, from three blocks to two tables *)

Section Example_.
#[local] Instance crc_outputs : Crc32c := crc32c_portable 0.
#[local] Instance policy_outputs : FilterPolicy := InternalPolicy [4; 8; 8; 0] 20.
#[local] Instance check_outputs : OutputCheck := {| oc_cache := unit; oc_open := fun c _ _ _ _ _ _ => (Status_OK, c) |}.

#[local] Instance block_reader : Iterator BIter := @BIter_Iterator InternalKeyComparator.
#[local] Instance input_reader : Iterator (Merged BIter) := @Merged_Iterator InternalKeyComparator BIter _.

Definition output_options : TableBuilder.Options := TableBuilder.MkOptions 0 true 20 2 kNoCompression None true 2 65536 65536 16.
Definition small_compaction : Compaction := with_inputs (Compaction_new 30 0) (example_level 0) (example_level 1).
Definition input_blocks : list (list (bytes * bytes)) := entries_of example_contents <$> (example_level 0 ++ example_level 1).
Definition input_at (i : nat) : BIter -> nat -> Prop := match input_blocks !! i with Some l => bi_at 2 l | None => fun _ _ => False end.
Definition input_iterator : Merged BIter := NewMergingIterator ((fun kvs => bi_open (Block_new (build_block 2 kvs))) <$> input_blocks).
Definition next_number (i : nat) : Z := 10 + Z.of_nat i.

(** The version of VersionGet.v's example, in a version set. *)
Definition held (f : FileMetaData) : FileMetaData := MkFile 1 (allowed_seeks f) (number f) (file_size f) (smallest f) (largest f) (access_time f).
Definition output_set : VersionSet :=
  MkVersionSet (MkEnv ∅ []) (MkStore (held <$> example_heap) 4) (MkVersions {[0 := MkVersion 2 (files_ example_version) None (-1) minus_one (-1)]} 1 [0] (Some 0))
    13 7 100 6 0 None (replicate 8 []) (replicate 8 ∅) false.

Definition example_work : option (Status * Work * VersionSet) :=
  DoCompactionWork (I := Merged BIter) example_options output_options example_files next_number (fun _ => false) (with_env output_set) example_snapshots output_set small_compaction [] tt 7 input_iterator.

Lemma input_union : union_of (C := InternalKeyComparator) input_blocks example_merged.
Proof.
  split; [|exact example_merged_sorted|by_decide].
  assert (E : input_blocks = [snd (default (0, []) (example_contents 8)); snd (default (0, []) (example_contents 9)); snd (default (0, []) (example_contents 4))]) by reflexivity.
  rewrite E. apply Forall_cons_2; [|apply Forall_cons_2; [|apply Forall_cons_2; [|apply Forall_nil_2]]]; [apply (example_sorted 8 100)|apply (example_sorted 9 100)|apply (example_sorted 4 100)]; reflexivity.
Qed.

Lemma input_sorted i l : input_blocks !! i = Some l -> sorted_kvs (C := InternalKeyComparator) l.
Proof. apply (Forall_lookup_1 _ _ i l (un_children _ _ input_union)). Qed.

Lemma input_cursor i l : input_blocks !! i = Some l -> cursor_over (H := InternalKeyComparator) l (input_at i).
Proof. intros Hi. unfold input_at. rewrite Hi. apply (bi_cursor (L := InternalLaws)). by apply (input_sorted i). Qed.

Lemma input_start : merged_at input_blocks example_merged input_at input_iterator 6.
Proof.
  apply (merged_new (L := InternalLaws) input_blocks example_merged input_at input_union input_cursor); [reflexivity|].
  intros i it l Hit Hi. unfold input_at. rewrite Hi. rewrite list_lookup_fmap, Hi in Hit. injection Hit as <-.
  assert (Hall : Forall (fun l => Forall kv_ok l /\ zlen (build_block 2 l) < 2 ^ 32) input_blocks) by by_decide.
  destruct (Forall_lookup_1 _ _ _ _ Hall Hi). by apply bi_open_at.
Qed.

(** The outputs are cut by size: the deletion of the key 98 ends the first table
    and the older value of the same key starts the second. *)
Lemma compaction_outputs_witness : exists w gs vs', example_work = Some (Status_OK, w, vs') /\
  concat gs = [entry [97] 8 kTypeValue [2]; entry [98] 12 kTypeDeletion []; entry [98] 9 kTypeValue [7]; entry [99] 11 kTypeValue [3]] /\
  (fun out => (o_number out, ExtractUserKey (o_smallest out), ExtractUserKey (o_largest out))) <$> outputs (state w) = [(10, [97], [98]); (11, [98], [99])] /\
  length gs = 2%nat /\
  forall i out g, outputs (state w) !! i = Some out -> gs !! i = Some g -> is_output example_options output_options next_number (w_env w) i out g.
Proof.
  destruct (compaction_outputs (PL := example_filter_laws) example_options output_options 6 ltac:(done) ltac:(by_decide) next_number
    ltac:(unfold next_number; lia) ltac:(unfold next_number; lia) ltac:(done) example_files (fun _ => false) ltac:(done) example_merged
    (merged_at input_blocks example_merged input_at) (merged_cursor (L := InternalLaws) input_blocks example_merged input_at input_union input_cursor)
    (with_env output_set) example_snapshots output_set small_compaction [] tt 7 input_iterator 6 2)
    as (w & gs & E & Ecat & Elen & Hout & _); [reflexivity|reflexivity|reflexivity|exact input_start|cbn; lia|cbn; lia|vm_compute; reflexivity|].
  match type of E with _ = ?rhs => change (example_work = rhs) in E end.
  assert (Hr : match example_work with Some (st, w, _) => st = Status_OK /\ (fun out => (o_number out, ExtractUserKey (o_smallest out), ExtractUserKey (o_largest out))) <$> outputs (state w)
    = [(10, [97], [98]); (11, [98], [99])] | None => False end) by (vm_compute; split; reflexivity).
  destruct example_work as [[[st w'] vs']|]; [|by destruct Hr]. symmetry in E. apply bind_Some in E as ([st2 vs2] & _ & Ew). injection Ew as -> -> ->.
  destruct Hr as [-> Hr]. exists w', gs, vs'. split; [reflexivity|]. split; [rewrite Ecat; vm_compute; reflexivity|]. split; [exact Hr|]. split; [|exact Hout].
  rewrite <- Elen. apply (f_equal length) in Hr. by rewrite length_fmap in Hr.
Defined.
End Example_.
