(* ===== verification/DbWrite.v ===== *)
(** * DbWrite: the write path of the database

    [DBImpl::Write], [BuildBatchGroup] and [MakeRoomForWrite] of
    src/LSM-EBF/db/db_impl.cc, over the batches of WriteBatch.v, the log writer of
    Log.v, the memtables of MemTable.v and the version set of VersionSet.v.

    Writers wait in a queue; the one at its front leads.  The leader runs under
    the mutex but for the sleep and the waits of [MakeRoomForWrite] and for the
    writes to the log and the memtable.  What happens between two points where the
    mutex is released is one function on the state [Db] of everything the writers
    share, and [phase] tells where the leader is.  [write_step] interleaves the
    leader with the background thread, and [write_run] adds arriving writers.  The memory usage
    of a memtable is a parameter: it depends on the arena and the heights drawn.
    [None] is a failed assertion or an undefined run. *)
From stdpp Require Import gmap.
From S2P Require Import Prelude Coding Crc32c Status Comparator DbFormat Filename MemTable WriteBatch Log VersionEdit Version VersionBuilder Manifest VersionSet.

(** ** State *)

(** [Writer], with its address; [status] and [done] are kept in [results]. *)
Record Writer := MkWriter { w_id : nat; w_batch : option WriteBatch.t; w_sync : bool }.

(** Where the leader is: none yet; in [MakeRoomForWrite]; about to write the log
    without the mutex, with [updates]; and about to lock it again. *)
Inductive Phase :=
  | Waiting
  | MakingRoom (force allow_delay : bool)
  | Logging (updates : WriteBatch.t) (in_tmp : bool) (last_writer : nat) (last_sequence : Z)
  | Logged (status : Status) (sync_error in_tmp : bool) (last_writer : nat) (last_sequence : Z).

Record Db := MkDb {
  writers_ : list Writer;
  results : gmap nat Status;
  phase : Phase;
  log_ : Log.Writer;
  logfile_number_ : Z;
  mem_ : MemTable.t;
  imm_ : option MemTable.t;
  bg_error_ : Status;
  tmp_batch_ : WriteBatch.t;
  versions_ : VersionSet
}.

Definition with_phase (d : Db) (ws : list Writer) (p : Phase) : Db :=
  MkDb ws (results d) p (log_ d) (logfile_number_ d) (mem_ d) (imm_ d) (bg_error_ d) (tmp_batch_ d) (versions_ d).
Definition with_results (d : Db) (ws : list Writer) (rs : gmap nat Status) (p : Phase) : Db :=
  MkDb ws rs p (log_ d) (logfile_number_ d) (mem_ d) (imm_ d) (bg_error_ d) (tmp_batch_ d) (versions_ d).
Definition with_tmp (d : Db) (b : WriteBatch.t) : Db :=
  MkDb (writers_ d) (results d) (phase d) (log_ d) (logfile_number_ d) (mem_ d) (imm_ d) (bg_error_ d) b (versions_ d).
Definition with_written (d : Db) (l : Log.Writer) (m : MemTable.t) (p : Phase) : Db :=
  MkDb (writers_ d) (results d) p l (logfile_number_ d) m (imm_ d) (bg_error_ d) (tmp_batch_ d) (versions_ d).
Definition with_versions (d : Db) (s : Status) (vs : VersionSet) : Db :=
  MkDb (writers_ d) (results d) (phase d) (log_ d) (logfile_number_ d) (mem_ d) (imm_ d) s (tmp_batch_ d) vs.

(** [RecordBackgroundError]. *)
Definition RecordBackgroundError (bg s : Status) : Status := if ok bg then s else bg.

(** [WritableFile::Sync] has the contract of [Flush]. *)
Definition log_Sync (w : Log.Writer) : Status * Log.Writer :=
  let '(s, f) := Flush (dest_ w) in (s, Log.MkWriter f (block_offset_ w) (type_crc_ w)).

(** ** [BuildBatchGroup] *)

(** The writers after the first.  [result] is [tmp_batch_] once it is in use;
    [last] is the last writer taken. *)
Fixpoint group_loop (first : WriteBatch.t) (first_sync : bool) (tmp : WriteBatch.t) (max_size size : Z) (result : option WriteBatch.t) (last : nat) (ws : list Writer)
    : option (option WriteBatch.t * nat) :=
  match ws with
  | [] => Some (result, last)
  | w :: ws =>
      if w_sync w && negb first_sync then Some (result, last)
      else
        match w_batch w with
        | None => group_loop first first_sync tmp max_size size result (w_id w) ws
        | Some b =>
            let size := u64 (size + WriteBatch.ByteSize b) in
            if max_size <? size then Some (result, last)
            else
              result ← match result with
                       | Some r => Some r
                       | None => if WriteBatch.Count tmp =? 0 then Some (WriteBatch.Append tmp first) else None
                       end;
              group_loop first first_sync tmp max_size size (Some (WriteBatch.Append result b)) (w_id w) ws
        end
  end.

Definition group_limit (size : Z) : Z := if size <=? 131072 then size + 131072 else 1048576.

(** The batch, whether it is [tmp_batch_], and the last writer. *)
Definition BuildBatchGroup (ws : list Writer) (tmp : WriteBatch.t) : option (WriteBatch.t * bool * nat) :=
  match ws with
  | [] => None
  | w :: ws =>
      first ← w_batch w;
      let size := WriteBatch.ByteSize first in
      '(result, last) ← group_loop first (w_sync w) tmp (group_limit size) size None (w_id w) ws;
      Some (match result with Some r => (r, true, last) | None => (first, false, last) end)
  end.

Section Write.
Context `{!Crc32c} {user_comparator : Comparator}.

(** [ApproximateMemoryUsage], and the options. *)
Context (usage : MemTable.t -> Z) (write_buffer_size : Z).

(** ** [MakeRoomForWrite]: one round of its loop *)

Inductive Room := RoomError (s : Status) | RoomDelay | RoomFree | RoomWait | RoomSwitch.

Definition room (d : Db) (force allow_delay : bool) : option Room :=
  if negb (ok (bg_error_ d)) then Some (RoomError (bg_error_ d))
  else
    n ← NumLevelFiles (versions_ d) 0;
    Some (if allow_delay && (kL0_SlowdownWritesTrigger <=? n) then RoomDelay
          else if negb force && (usage (mem_ d) <=? write_buffer_size) then RoomFree
          else match imm_ d with
               | Some _ => RoomWait
               | None => if kL0_StopWritesTrigger <=? n then RoomWait else RoomSwitch
               end).

(** The switch to a new log file and memtable; [o] is the outcome of creating the
    file and [ios] are those of its writes. *)
Definition switch_memtable (d : Db) (o : io) (ios : list io) : option (Status * Db) :=
  if negb (prev_log_number (versions_ d) =? 0) then None
  else
    let '(new_log_number, vs) := NewFileNumber (versions_ d) in
    Some (match o with
          | IoErr s _ => (Some s, with_versions d (bg_error_ d) (ReuseFileNumber vs new_log_number))
          | IoOk => (Status_OK, MkDb (writers_ d) (results d) (phase d) (Log.Writer_new (WFile [] ios)) new_log_number (MemTable.Ref MemTable.make) (Some (mem_ d)) (bg_error_ d) (tmp_batch_ d) vs)
          end).

(** ** [Write] *)

Definition front_id (ws : list Writer) : option nat := w_id <$> head ws.

(** The mutex is held: the writers up to [last] leave the queue.  Those after the
    front are told the status; the front returns it. *)
Fixpoint pop_writers (ws : list Writer) (rs : gmap nat Status) (last : nat) (status : Status) : option (list Writer * gmap nat Status) :=
  match ws with
  | [] => None
  | w :: ws => let rs := <[w_id w := status]> rs in if (w_id w =? last)%nat then Some (ws, rs) else pop_writers ws rs last status
  end.

Definition finish_write (d : Db) (last : nat) (status : Status) : option Db :=
  '(ws, rs) ← pop_writers (writers_ d) (results d) last status;
  Some (with_results d ws rs Waiting).

(** After [MakeRoomForWrite] returned [status]: the group is built and numbered, or
    the write ends. *)
Definition start_group (d : Db) (status : Status) : option Db :=
  match writers_ d with
  | [] => None
  | w :: ws =>
      match ok status, w_batch w with
      | true, Some b =>
          let last_sequence := last_seq (versions_ d) in
          '(updates, in_tmp, last) ← BuildBatchGroup (writers_ d) (tmp_batch_ d);
          let updates := WriteBatch.SetSequence updates (u64 (last_sequence + 1)) in
          let last_sequence := u64 (last_sequence + WriteBatch.Count updates) in
          let p := Logging updates in_tmp last last_sequence in
          Some (if in_tmp then with_tmp (with_phase d (writers_ d) p) updates
                else with_phase d (MkWriter (w_id w) (Some updates) (w_sync w) :: ws) p)
      | _, _ => finish_write d (w_id w) status
      end
  end.

(** Without the mutex: the log, its sync, and the memtable. *)
Definition write_group (d : Db) (updates : WriteBatch.t) (sync in_tmp : bool) (last : nat) (last_sequence : Z) : option Db :=
  '(status, l) ← AddRecord (log_ d) (WriteBatch.Contents updates);
  let '(status, sync_error, l) := if ok status && sync then let '(s, l) := log_Sync l in (s, negb (ok s), l) else (status, false, l) in
  '(status, m) ← (if ok status then '(m, s) ← WriteBatch.InsertInto updates (mem_ d); m ← m; Some (s, m) else Some (status, mem_ d));
  Some (with_written d l m (Logged status sync_error in_tmp last last_sequence)).

(** With the mutex again. *)
Definition end_group (d : Db) (status : Status) (sync_error in_tmp : bool) (last : nat) (last_sequence : Z) : option Db :=
  let bg := if sync_error then RecordBackgroundError (bg_error_ d) status else bg_error_ d in
  let d := if in_tmp then with_tmp d WriteBatch.Clear else d in
  vs ← VersionSet.SetLastSequence (versions_ d) last_sequence;
  finish_write (with_versions d bg vs) last status.

(** ** The interleaving *)

(** Steps of the leader and of the background thread, which may write out [imm_],
    install versions and record an error, and leaves the last sequence number
    alone. *)
Inductive write_step : Db -> Db -> Prop :=
  | leads d w ws : phase d = Waiting -> writers_ d = w :: ws ->
      let force := match w_batch w with None => true | Some _ => false end in
      write_step d (with_phase d (writers_ d) (MakingRoom force (negb force)))
  | room_error d d' force delay s : phase d = MakingRoom force delay -> room d force delay = Some (RoomError s) -> start_group d s = Some d' -> write_step d d'
  | room_delay d force delay : phase d = MakingRoom force delay -> room d force delay = Some RoomDelay ->
      write_step d (with_phase d (writers_ d) (MakingRoom force false))
  | room_free d d' force delay : phase d = MakingRoom force delay -> room d force delay = Some RoomFree -> start_group d Status_OK = Some d' -> write_step d d'
  | room_wait d force delay : phase d = MakingRoom force delay -> room d force delay = Some RoomWait -> write_step d d
  | room_switch d d' force delay o ios : phase d = MakingRoom force delay -> room d force delay = Some RoomSwitch ->
      switch_memtable d o ios = Some (Status_OK, d') -> write_step d (with_phase d' (writers_ d') (MakingRoom false delay))
  | room_switch_error d d1 d' force delay o ios s : phase d = MakingRoom force delay -> room d force delay = Some RoomSwitch ->
      switch_memtable d o ios = Some (Some s, d1) -> start_group d1 (Some s) = Some d' -> write_step d d'
  | writes d d' w ws updates in_tmp last last_sequence : phase d = Logging updates in_tmp last last_sequence -> writers_ d = w :: ws ->
      write_group d updates (w_sync w) in_tmp last last_sequence = Some d' -> write_step d d'
  | ends d d' status sync_error in_tmp last last_sequence : phase d = Logged status sync_error in_tmp last last_sequence ->
      end_group d status sync_error in_tmp last last_sequence = Some d' -> write_step d d'
  | background d imm bg vs : (imm = imm_ d \/ imm = None) -> last_seq vs = last_seq (versions_ d) ->
      write_step d (MkDb (writers_ d) (results d) (phase d) (log_ d) (logfile_number_ d) (mem_ d) imm bg (tmp_batch_ d) vs).

(** The queue is joined under the mutex. *)
Definition arrive (d : Db) (w : Writer) : Db := with_phase d (writers_ d ++ [w]) (phase d).

(** The memtable that left [imm_]: the background thread has written it out. *)
Definition flushed_by (d d' : Db) : list MemTable.t :=
  match imm_ d, imm_ d' with Some m, None => [m] | _, _ => [] end.

(** Runs from [d0] over states of which [allowed] holds, with the writers in the
    order of their arrival, the operations their batches hold, and the memtables
    the background thread has written out, in order. *)
Inductive write_run (allowed : Db -> Prop) (d0 : Db) : list (Writer * list WriteBatch.op) -> list MemTable.t -> Db -> Prop :=
  | run_start : write_run allowed d0 [] [] d0
  | run_arrive rqs fl d w ops : write_run allowed d0 rqs fl d -> w_id w ∉ (fun r => w_id r.1) <$> rqs -> write_run allowed d0 (rqs ++ [(w, ops)]) fl (arrive d w)
  | run_step rqs fl d d' : write_run allowed d0 rqs fl d -> write_step d d' -> allowed d' -> write_run allowed d0 rqs (fl ++ flushed_by d d') d'.
End Write.
