(* ===== verification/WriteGroups.v ===== *)
(** * WriteGroups: batches are applied in order, whole and once

    The proofs about DbWrite.v: the groups of the write queue, the sequence numbers
    they get, and what the memtables hold in every reachable state. *)
From stdpp Require Import gmap sorting.
From S2P Require Import Prelude Coding Crc32c Status Comparator DbFormat Filename MemTable WriteBatch Log VersionEdit Version VersionBuilder Manifest VersionSet VersionApply DbWrite.

Import WriteBatch.

(** ** Requests *)

Section Groups.
Context {C : Comparator} {L : ComparatorLaws C}.

(** A writer whose batch holds the operations, with any sequence number in its
    header; a request without a batch has none. *)
Definition request_ok (r : Writer * list op) : Prop :=
  Forall op_valid r.2 /\
  match w_batch r.1 with
  | Some b => (exists s, 0 <= s < 2 ^ 64 /\ b = wire s r.2) /\ ByteSize b < 2 ^ 31
  | None => r.2 = []
  end.

Definition rq_ids (rqs : list (Writer * list op)) : list nat := (fun r => w_id r.1) <$> rqs.
Definition rq_ops (rqs : list (Writer * list op)) : list op := concat (snd <$> rqs).

Lemma rq_ops_app a b : rq_ops (a ++ b) = rq_ops a ++ rq_ops b.
Proof. unfold rq_ops. by rewrite fmap_app, concat_app. Qed.

Lemma record_long o : (1 <= length (record o))%nat.
Proof. destruct o; cbn; rewrite ?length_app; cbn; lia. Qed.

Lemma wire_size s ops : zlen ops + 12 <= ByteSize (wire s ops).
Proof.
  unfold ByteSize. assert (H : zlen ops <= zlen (concat (map record ops))).
  { unfold zlen. induction ops as [|o ops IH]; [cbn; lia|]. cbn [map concat]. rewrite length_app. pose proof (record_long o). cbn [length]. lia. }
  pose proof (f_equal length (drop12_wire s ops)) as E. rewrite length_drop in E. unfold zlen in *.
  assert (12 <= length (wire s ops))%nat by (unfold wire; rewrite !length_app, length_EncodeFixed64, length_EncodeFixed32; lia). lia.
Qed.

Lemma request_count r : request_ok r -> zlen r.2 < 2 ^ 31.
Proof.
  intros [_ H]. destruct (w_batch r.1) as [b|]; [|rewrite H; done]. destruct H as [(s & _ & ->) Hb]. pose proof (wire_size s r.2). lia.
Qed.

(** ** [BuildBatchGroup] *)

(** The last of the writers taken. *)
Definition last_id (d : nat) (rqs : list (Writer * list op)) : nat := default d (last (rq_ids rqs)).

Lemma last_id_cons d r rqs : last_id d (r :: rqs) = last_id (w_id r.1) rqs.
Proof. unfold last_id, rq_ids. rewrite fmap_cons, last_cons. by destruct (last _). Qed.

(** [acc] are the operations so far; [result] has them once it is in use. *)
Definition group_state (first : t) (result : option t) (acc : list op) : Prop :=
  match result with Some r => r = wire 0 acc | None => exists s, 0 <= s < 2 ^ 64 /\ first = wire s acc end.

Lemma group_loop_ok rqs : forall first sync max_size size result last acc, Forall request_ok rqs -> 0 <= size < 2 ^ 31 -> max_size < 2 ^ 31 -> zlen acc <= size ->
  group_state first result acc ->
  exists n result', group_loop first sync Clear max_size size result last (fst <$> rqs) = Some (result', last_id last (take n rqs)) /\ (n <= length rqs)%nat /\
    group_state first result' (acc ++ rq_ops (take n rqs)) /\ zlen (acc ++ rq_ops (take n rqs)) < 2 ^ 31 /\ (result' = None -> result = None /\ rq_ops (take n rqs) = []).
Proof.
  induction rqs as [|[w ops] rqs IH]; intros first sync max_size size result last acc Hr Hs Hm Hz Hg; cbn [fmap list_fmap group_loop fst].
  { exists 0%nat, result. cbn. rewrite app_nil_r. split_and!; [done|lia|done|lia|done]. }
  apply Forall_cons in Hr as [Hw Hr]. assert (Hstop : exists n result', Some (result, last) = Some (result', last_id last (take n ((w, ops) :: rqs))) /\ (n <= length ((w, ops) :: rqs))%nat /\
    group_state first result' (acc ++ rq_ops (take n ((w, ops) :: rqs))) /\ zlen (acc ++ rq_ops (take n ((w, ops) :: rqs))) < 2 ^ 31 /\ (result' = None -> result = None /\ rq_ops (take n ((w, ops) :: rqs)) = [])).
  { exists 0%nat, result. cbn. rewrite app_nil_r. split_and!; [done|lia|done|lia|done]. }
  destruct (w_sync w && negb sync); [done|]. pose proof Hw as [_ Hb]. cbn [fst snd] in Hb. destruct (w_batch w) as [b|].
  - destruct Hb as [(s & Hs' & ->) Hb]. pose proof (wire_size s ops) as Hsz. assert (0 <= ByteSize (wire s ops)) by (unfold ByteSize; apply zlen_nonneg).
    rewrite u64_small by lia. destruct (Z.ltb_spec max_size (size + ByteSize (wire s ops))) as [|Hle]; [done|].
    set (r := match result with Some r => Some r | None => _ end). assert (Er : r = Some (wire 0 acc)).
    { unfold r. destruct result as [r'|]; [by rewrite Hg|]. destruct Hg as (s2 & _ & ->). change Clear with make. rewrite make_wire, Count_wire by done. cbn [zlen].
      change (zlen (@nil op) =? 0) with true. cbn iota. rewrite Append_wire; [done|]. rewrite zlen_nil. lia. }
    rewrite Er. cbn [mbind option_bind]. rewrite Append_wire by lia.
    destruct (IH first sync max_size (size + ByteSize (wire s ops)) (Some (wire 0 (acc ++ ops))) (w_id w) (acc ++ ops) Hr) as (n & result' & E & Hn & Hg' & Hz' & Hno); [lia|lia|rewrite zlen_app; lia|done|].
    exists (S n), result'. rewrite E. cbn [take]. rewrite last_id_cons. change (rq_ops ((w, ops) :: take n rqs)) with (ops ++ rq_ops (take n rqs)). rewrite app_assoc.
    split_and!; [done|cbn; lia|done|done|]. intros Hr'. by destruct (Hno Hr').
  - subst ops. destruct (IH first sync max_size size result (w_id w) acc Hr) as (n & result' & E & Hn & Hg' & Hz' & Hno); [done..|].
    exists (S n), result'. rewrite E. cbn [take]. rewrite last_id_cons. change (rq_ops ((w, []) :: take n rqs)) with (rq_ops (take n rqs)). split_and!; [done|cbn; lia|done|done|done].
Qed.

Lemma BuildBatchGroup_ok r rqs : Forall request_ok (r :: rqs) -> w_batch r.1 <> None ->
  exists updates in_tmp n s, BuildBatchGroup (fst <$> (r :: rqs)) Clear = Some (updates, in_tmp, last_id (w_id r.1) (take n rqs)) /\ (n <= length rqs)%nat /\
    0 <= s < 2 ^ 64 /\ updates = wire s (rq_ops (r :: take n rqs)) /\ zlen (rq_ops (r :: take n rqs)) < 2 ^ 31 /\ (in_tmp = false -> rq_ops (r :: take n rqs) = r.2).
Proof.
  intros [Hr Hrs]%Forall_cons Hb. destruct r as [w ops]. pose proof Hr as [_ Hw]. cbn [fst snd] in *. destruct (w_batch w) as [b|] eqn:Eb; [|done]. destruct Hw as [(s & Hs & Eb') Hsz].
  assert (H0 : 0 <= ByteSize b) by (unfold ByteSize; apply zlen_nonneg). pose proof (wire_size s ops) as Hws. rewrite <- Eb' in Hws.
  destruct (group_loop_ok rqs b (w_sync w) (group_limit (ByteSize b)) (ByteSize b) None (w_id w) ops Hrs) as (n & result & E & Hn & Hg & Hz & Hno); [lia| |lia|by exists s|].
  { unfold group_limit. destruct (Z.leb_spec (ByteSize b) 131072); lia. }
  cbn [fmap list_fmap BuildBatchGroup fst]. rewrite Eb. cbn [mbind option_bind]. rewrite E. cbn [mbind option_bind].
  destruct result as [r'|]; cbn [group_state] in Hg.
  - exists r', true, n, 0. split; [done|]. split_and!; [done|lia|lia|done|done|done].
  - destruct Hg as (s' & Hs' & E'). exists b, false, n, s'. split; [done|]. split_and!; [done|lia|lia|done|done|]. intros _. destruct (Hno eq_refl) as [_ En].
    change (rq_ops ((w, ops) :: take n rqs)) with (ops ++ rq_ops (take n rqs)). by rewrite En, app_nil_r.
Qed.

(** ** Single calls *)

Lemma AddRecord_total `{!Crc32c} w d : offset_ok (block_offset_ w) -> exists st w', AddRecord w d = Some (st, w') /\ offset_ok (block_offset_ w').
Proof.
  intros Ho. unfold AddRecord. destruct (AddRecord_loop_total (length d + 2) w d true Ho) as (s & w' & -> & Ho' & _); [destruct (decide _); lia|]. by exists s, w'.
Qed.

Lemma InsertInto_wire m es ops seq : MemTable.holds m es -> Forall op_valid ops -> Forall (fun e => MemTable.e_seq e < seq) es ->
  0 <= seq -> seq + zlen ops <= kMaxSequenceNumber + 1 -> zlen ops < 2 ^ 31 ->
  exists m', InsertInto (wire seq ops) m = Some (Some m', Status_OK) /\ MemTable.holds m' (es ++ op_entries seq ops).
Proof.
  intros Hm Hops Hes Hs Hmax Hl. pose proof (zlen_nonneg ops).
  assert (Forall op_ok ops) as Hok by (eapply Forall_impl; [exact Hops|]; apply op_valid_ok).
  assert (kMaxSequenceNumber + 1 < 2 ^ 64) as Hk by (vm_compute; done).
  destruct (MemTable.AddAll_holds (op_entries seq ops) m es Hm) as (m' & Em & Hm' & _).
  { by apply op_entries_ok. }
  { apply StronglySorted_app_2; [|apply Hm|apply op_entries_sorted]. intros a b Ha Hb. rewrite Forall_forall in Hes. specialize (Hes a Ha). apply op_entries_range in Hb. simpl in *. lia. }
  exists m'. split; [|done]. unfold InsertInto. rewrite Sequence_wire, Iterate_wire by (done || lia).
  cbn [mbind option_bind]. rewrite replay_inserter by lia. cbn [WriteBatch.mem_ mbind option_bind]. by rewrite Em.
Qed.

(** The writers of [a] leave the queue. *)
Lemma pop_writers_ok rqs1 rqs2 rs st d : rqs1 <> [] -> NoDup (rq_ids rqs1) ->
  pop_writers (fst <$> (rqs1 ++ rqs2)) rs (last_id d rqs1) st = Some (fst <$> rqs2, foldl (fun rs i => <[i := st]> rs) rs (rq_ids rqs1)).
Proof.
  revert rs d. induction rqs1 as [|r rqs1 IH]; intros rs d Hne Hnd; [done|]. cbn [app fmap list_fmap pop_writers]. rewrite last_id_cons.
  apply NoDup_cons in Hnd as [Hni Hnd]. destruct rqs1 as [|r2 rqs1].
  - cbn. by rewrite Nat.eqb_refl.
  - change (foldl (fun rs i => <[i := st]> rs) rs (rq_ids (r :: r2 :: rqs1))) with (foldl (fun rs i => <[i := st]> rs) (<[w_id r.1 := st]> rs) (rq_ids (r2 :: rqs1))).
    rewrite (proj2 (Nat.eqb_neq _ _)); [by apply (IH (<[w_id r.1 := st]> rs) (w_id r.1))|]. intros E. apply Hni. rewrite E, last_id_cons. unfold last_id.
    destruct (last (rq_ids rqs1)) as [x|] eqn:El; cbn; [right; by apply last_Some_elem_of|by left].
Qed.

Lemma pop_writers_shorter ws : forall rs last st ws' rs', pop_writers ws rs last st = Some (ws', rs') -> (length ws' < length ws)%nat.
Proof.
  induction ws as [|w ws IH]; intros rs last st ws' rs'; cbn; [done|]. destruct (w_id w =? last)%nat; [intros [= <- _]; lia|]. intros H%IH. lia.
Qed.

(** ** History *)

(** What became of a group: its writers with their operations, the operations that
    were numbered, the first number and the status all of them are told. *)
Record Commit := MkCommit { c_reqs : list (nat * list op); c_ops : list op; c_seq : Z; c_status : Status }.

Definition rq_view (r : Writer * list op) : nat * list op := (w_id r.1, r.2).

(** Numbers follow each other without a gap. *)
Fixpoint numbered (last : Z) (cs : list Commit) (last' : Z) : Prop :=
  match cs with
  | [] => last' = last
  | c :: cs => c_seq c = last + 1 /\ numbered (last + zlen (c_ops c)) cs last'
  end.

Definition applied (c : Commit) : list MemTable.entry := if ok (c_status c) then op_entries (c_seq c) (c_ops c) else [].
Definition applied_all (cs : list Commit) : list MemTable.entry := concat (applied <$> cs).

Lemma numbered_snoc cs c : forall a b, numbered a cs b -> c_seq c = b + 1 -> numbered a (cs ++ [c]) (b + zlen (c_ops c)).
Proof. induction cs as [|c' cs IH]; intros a b; cbn; [intros ->; done|]. intros [E H] Hc. split; [done|by apply IH]. Qed.

Lemma numbered_le cs : forall a b, numbered a cs b -> a <= b.
Proof. induction cs as [|c cs IH]; intros a b; cbn; [lia|]. intros [_ H%IH]. pose proof (zlen_nonneg (c_ops c)). lia. Qed.

Lemma applied_snoc cs c : applied_all (cs ++ [c]) = applied_all cs ++ applied c.
Proof. unfold applied_all. rewrite fmap_app, concat_app. cbn. by rewrite app_nil_r. Qed.

(** Every writer of a finished group, and nobody else, has its status. *)
Definition told (rs : gmap nat Status) (cs : list Commit) : Prop :=
  (forall c i, c ∈ cs -> i ∈ (c_reqs c).*1 -> rs !! i = Some (c_status c)) /\
  (forall i st, rs !! i = Some st -> exists c, c ∈ cs /\ i ∈ (c_reqs c).*1 /\ c_status c = st).

Lemma foldl_told (ids : list nat) (st : Status) : forall (rs : gmap nat Status) i, foldl (fun rs i => <[i := st]> rs) rs ids !! i = if decide (i ∈ ids) then Some st else rs !! i.
Proof.
  induction ids as [|x ids IH]; intros rs i; cbn; [done|]. rewrite IH. destruct (decide (i ∈ ids)) as [Hi|Hi]; [by rewrite decide_True by (by right)|].
  destruct (decide (i = x)) as [->|Hne]; [rewrite lookup_insert_eq, decide_True by (by left); done|].
  rewrite lookup_insert_ne by done. by rewrite decide_False by (rewrite elem_of_cons; tauto).
Qed.

Lemma told_snoc rs cs c : told rs cs -> (forall i, i ∈ (c_reqs c).*1 -> i ∉ concat ((fun c => (c_reqs c).*1) <$> cs)) ->
  told (foldl (fun rs i => <[i := c_status c]> rs) rs (c_reqs c).*1) (cs ++ [c]).
Proof.
  intros [T1 T2] Hd. split.
  - intros c' i [Hc| ->%list_elem_of_singleton]%elem_of_app Hi; rewrite foldl_told; [|by rewrite decide_True].
    rewrite decide_False; [by apply T1|]. intros Hin. apply (Hd i Hin). apply elem_of_concat. exists (c_reqs c').*1. split; [apply list_elem_of_fmap; by exists c'|done].
  - intros i st. rewrite foldl_told. destruct (decide _) as [Hi|Hi].
    + intros [= <-]. exists c. split; [apply elem_of_app; right; by left|done].
    + intros (c' & H1 & H2)%T2. exists c'. split; [apply elem_of_app; by left|done].
Qed.

(** ** The invariant *)

(** What the leader is about to add to the memtable is [ops], from the requests in
    front of the queue. *)
Definition phase_ok (d : Db) (pend : list (Writer * list op)) (extra : list MemTable.entry) : Prop :=
  let last := last_seq (versions_ d) in
  match phase d with
  | Waiting => extra = [] /\ tmp_batch_ d = Clear
  | MakingRoom _ _ => extra = [] /\ tmp_batch_ d = Clear /\ pend <> []
  | Logging updates in_tmp last_writer last_sequence =>
      extra = [] /\ (in_tmp = false -> tmp_batch_ d = Clear) /\
      exists n r pend', pend = r :: pend' /\ (n <= length pend')%nat /\ last_writer = last_id (w_id r.1) (take n pend') /\
        let ops := rq_ops (r :: take n pend') in updates = wire (last + 1) ops /\ last_sequence = last + zlen ops /\ zlen ops < 2 ^ 31
  | Logged status sync_error in_tmp last_writer last_sequence =>
      (in_tmp = false -> tmp_batch_ d = Clear) /\
      exists n r pend', pend = r :: pend' /\ (n <= length pend')%nat /\ last_writer = last_id (w_id r.1) (take n pend') /\
        let ops := rq_ops (r :: take n pend') in extra = (if ok status then op_entries (last + 1) ops else []) /\ last_sequence = last + zlen ops
  end.

(** What the memtables hold, one after the other. *)
Definition hold_all (ms : list MemTable.t) (es : list MemTable.entry) : Prop := exists ess, Forall2 MemTable.holds ms ess /\ es = concat ess.

Lemma hold_all_snoc ms es m e : hold_all ms es -> MemTable.holds m e -> hold_all (ms ++ [m]) (es ++ e).
Proof. intros (ess & Hf & ->) Hm. exists (ess ++ [e]). split; [apply Forall2_app; [done|by constructor]|]. rewrite concat_app. cbn. by rewrite app_nil_r. Qed.

(** [fl] are the memtables that were written out. *)
Record write_inv (last0 : Z) (es0 : list MemTable.entry) (rqs : list (Writer * list op)) (fl : list MemTable.t) (d : Db) (cs : list Commit) (pend : list (Writer * list op)) (extra : list MemTable.entry) : Prop := {
  wi_order : rq_view <$> rqs = concat (c_reqs <$> cs) ++ (rq_view <$> pend);
  wi_queue : writers_ d = fst <$> pend;
  wi_requests : Forall request_ok pend;
  wi_told : told (results d) cs;
  wi_numbered : numbered last0 cs (last_seq (versions_ d));
  wi_whole : forall c, c ∈ cs -> ok (c_status c) = true -> c_ops c = concat (c_reqs c).*2;
  wi_count : zlen (concat (c_ops <$> cs)) + zlen (rq_ops pend) <= zlen (rq_ops rqs);
  wi_mem : exists old ei em, hold_all fl old /\ old ++ ei ++ em = es0 ++ applied_all cs ++ extra /\ MemTable.holds (DbWrite.mem_ d) em /\
    match imm_ d with Some m => MemTable.holds m ei | None => ei = [] end;
  wi_log : offset_ok (block_offset_ (log_ d));
  wi_phase : phase_ok d pend extra
}.

(** What is beyond the groups that left the queue has higher numbers. *)
Lemma extra_above last0 es0 rqs fl d cs pend extra : write_inv last0 es0 rqs fl d cs pend extra -> Forall (fun e => last_seq (versions_ d) < MemTable.e_seq e) extra.
Proof.
  intros I. pose proof (wi_phase _ _ _ _ _ _ _ _ I) as Hp. unfold phase_ok in Hp. destruct (phase d) as [|f e|u t l ls|st se t l ls].
  1-3: destruct Hp as [-> _]; constructor.
  destruct Hp as (_ & n & r & p & _ & _ & _ & -> & _). destruct (ok st); [|constructor]. apply Forall_forall. intros e He%op_entries_range. lia.
Qed.

Lemma numbered_count cs : forall a b, numbered a cs b -> b = a + zlen (concat (c_ops <$> cs)).
Proof.
  induction cs as [|c cs IH]; intros a b; cbn [numbered fmap list_fmap concat]; [intros ->; rewrite zlen_nil; lia|]. intros [_ ->%IH]. rewrite zlen_app. lia.
Qed.

(** The numbers of what was applied. *)
Lemma applied_range cs : forall a b e, numbered a cs b -> e ∈ applied_all cs -> a < MemTable.e_seq e <= b.
Proof.
  induction cs as [|c cs IH]; intros a b e; cbn [numbered]; [by intros _ ?%elem_of_nil|]. intros [Ec Hn] He. change (applied_all (c :: cs)) with (applied c ++ applied_all cs) in He.
  pose proof (zlen_nonneg (c_ops c)). pose proof (numbered_le _ _ _ Hn). apply elem_of_app in He as [He|He].
  - unfold applied in He. destruct (ok (c_status c)); [|by apply elem_of_nil in He]. apply op_entries_range in He. lia.
  - specialize (IH _ _ _ Hn He). lia.
Qed.

Lemma rq_ids_view rqs : rq_ids rqs = (rq_view <$> rqs).*1.
Proof. unfold rq_ids. rewrite <- list_fmap_compose. done. Qed.

Lemma rq_ops_view rqs : rq_ops rqs = concat (rq_view <$> rqs).*2.
Proof. unfold rq_ops. rewrite <- list_fmap_compose. done. Qed.

(** ** Steps *)

Section Steps.
Context (last0 : Z) (es0 : list MemTable.entry) (Hlast0 : 0 <= last0) (Hes0 : Forall (fun e => MemTable.e_seq e <= last0) es0).
Context (fl : list MemTable.t) (rqs : list (Writer * list op)) (Hnd : NoDup (rq_ids rqs)) (Hmax : last0 + zlen (rq_ops rqs) <= kMaxSequenceNumber).

Abbreviation inv := (write_inv last0 es0 rqs fl).

(** The group [a] leaves the queue. *)
Lemma commit_ok d d1 cs a b extra c x : inv d cs (a ++ b) extra -> a <> [] -> c_reqs c = rq_view <$> a -> c_seq c = last_seq (versions_ d) + 1 ->
  (ok (c_status c) = true -> c_ops c = rq_ops a) -> zlen (c_ops c) <= zlen (rq_ops a) -> applied c = extra ->
  writers_ d1 = writers_ d -> results d1 = results d -> DbWrite.mem_ d1 = DbWrite.mem_ d -> imm_ d1 = imm_ d -> log_ d1 = log_ d -> tmp_batch_ d1 = Clear ->
  last_seq (versions_ d1) = last_seq (versions_ d) + zlen (c_ops c) ->
  exists d', finish_write d1 (last_id x a) (c_status c) = Some d' /\ inv d' (cs ++ [c]) b [].
Proof.
  intros [I1 I2 I3 I4 I5 I6 I7 I8 I9 I10] Hne Hc Hseq Hops Hcnt Hap E1 E2 E3 E4 E5 E6 E7. unfold finish_write. rewrite E1, I2, E2.
  assert (Hids : rq_ids rqs = concat ((fun c => (c_reqs c).*1) <$> cs) ++ rq_ids a ++ rq_ids b).
  { rewrite rq_ids_view, I1, fmap_app. f_equal; [|by rewrite !fmap_app, !rq_ids_view]. clear. induction cs as [|c' cs IH]; [done|]. cbn. by rewrite fmap_app, IH. }
  rewrite Hids in Hnd. apply NoDup_app in Hnd as (_ & Hdis & Hnd2). apply NoDup_app in Hnd2 as (Hnda & _ & _).
  rewrite pop_writers_ok by done. cbn [mbind option_bind]. eexists. split; [done|]. split; cbn.
  - rewrite I1, !fmap_app, concat_app. cbn. by rewrite app_nil_r, Hc, app_assoc.
  - done.
  - by apply Forall_app in I3 as [_ I3].
  - replace (rq_ids a) with ((c_reqs c).*1) by (by rewrite Hc, rq_ids_view). apply told_snoc; [done|]. intros i Hi Hin. apply (Hdis i Hin). apply elem_of_app. left. by rewrite rq_ids_view, <- Hc.
  - rewrite E7. by apply numbered_snoc.
  - intros c' [Hc'| ->%list_elem_of_singleton]%elem_of_app Hok; [by apply I6|]. by rewrite Hc, <- rq_ops_view, Hops.
  - rewrite fmap_app, concat_app, zlen_app. cbn. rewrite app_nil_r. rewrite rq_ops_app, zlen_app in I7. lia.
  - rewrite E3, E4. destruct I8 as (old & ei & em & K0 & K1 & K2 & K3). exists old, ei, em. split; [done|]. split; [|done]. by rewrite app_nil_r, applied_snoc, Hap.
  - by rewrite E5.
  - done.
Qed.

Lemma take_group (r : Writer * list op) pend n : r :: pend = (r :: take n pend) ++ drop n pend.
Proof. cbn. by rewrite take_drop. Qed.

Lemma pending_bound d cs pend extra a b : inv d cs pend extra -> pend = a ++ b -> last_seq (versions_ d) + zlen (rq_ops a) <= kMaxSequenceNumber /\ 0 <= last_seq (versions_ d).
Proof.
  intros I ->. pose proof (wi_count _ _ _ _ _ _ _ _ I) as Hc. rewrite (numbered_count _ _ _ (wi_numbered _ _ _ _ _ _ _ _ I)), rq_ops_app, zlen_app in *.
  pose proof (zlen_nonneg (rq_ops b)). pose proof (zlen_nonneg (concat (c_ops <$> cs))). lia.
Qed.

Lemma max_u64 : kMaxSequenceNumber + 1 < 2 ^ 64.
Proof. vm_compute. done. Qed.

(** The requests with the group's numbers written into the first batch. *)
(** The write ends before a group is built. *)
Lemma end_early d cs r pend st : inv d cs (r :: pend) [] -> tmp_batch_ d = Clear -> ok st = false \/ w_batch r.1 = None ->
  exists d', finish_write d (w_id r.1) st = Some d' /\ exists cs', inv d' cs' pend [].
Proof.
  intros I Htmp Hcase. destruct (commit_ok d d cs [r] pend [] (MkCommit [rq_view r] [] (last_seq (versions_ d) + 1) st) 0%nat I) as (d' & E & I'); try done; cbn.
  - intros Hok. destruct Hcase as [?|Hb]; [congruence|]. pose proof (wi_requests _ _ _ _ _ _ _ _ I) as [[_ Hr] _]%Forall_cons. rewrite Hb in Hr. unfold rq_ops. cbn. by rewrite Hr.
  - rewrite zlen_nil. apply zlen_nonneg.
  - unfold applied. cbn. by destruct (ok st).
  - rewrite zlen_nil. lia.
  - exists d'. split; [done|]. by exists (cs ++ [MkCommit [rq_view r] [] (last_seq (versions_ d) + 1) st]).
Qed.

Lemma request_renumbered w ops s : Forall op_valid ops -> 0 <= s < 2 ^ 64 -> (exists b, w_batch w = Some b /\ ByteSize b < 2 ^ 31 /\ exists s', b = wire s' ops) ->
  request_ok (MkWriter (w_id w) (Some (wire s ops)) (w_sync w), ops).
Proof.
  intros Ho Hs (b & _ & Hb & s' & ->). split; [done|]. cbn. split; [by exists s|]. unfold ByteSize, wire, zlen in *. by rewrite !length_app, !length_EncodeFixed64, !length_EncodeFixed32 in *.
Qed.

(** The group is built; its first writer may be renumbered in place. *)
Lemma build_group_ok d cs r pend b : inv d cs (r :: pend) [] -> tmp_batch_ d = Clear -> w_batch r.1 = Some b ->
  exists d', start_group d Status_OK = Some d' /\ exists pend', inv d' cs pend' [].
Proof.
  intros I Htmp Eb. unfold start_group. rewrite (wi_queue _ _ _ _ _ _ _ _ I). cbn [fmap list_fmap ok Status_OK]. rewrite Eb, Htmp.
  pose proof (wi_requests _ _ _ _ _ _ _ _ I) as Hreq. change (r.1 :: (fst <$> pend)) with (fst <$> (r :: pend)).
  destruct (BuildBatchGroup_ok r pend Hreq ltac:(by rewrite Eb)) as (updates & in_tmp & n & s & -> & Hn & Hs & -> & Hz & Hfirst). cbn [mbind option_bind].
  destruct (pending_bound d cs (r :: pend) [] (r :: take n pend) (drop n pend) I (take_group _ _ _)) as [B1 B2]. pose proof max_u64. pose proof (zlen_nonneg (rq_ops (r :: take n pend))).
  rewrite (u64_small (last_seq (versions_ d) + 1)), SetSequence_wire, Count_wire, u64_small by (done || lia).
  eexists. split; [done|]. destruct I as [I1 I2 I3 I4 I5 I6 I7 I8 I9 _]. destruct in_tmp.
  - exists (r :: pend). split; try done. split; [done|]. split; [done|]. by exists n, r, pend.
  - rewrite (Hfirst eq_refl) in *. set (r' := (MkWriter (w_id r.1) (Some (wire (last_seq (versions_ d) + 1) r.2)) (w_sync r.1), r.2)).
    assert (Eo : forall l, rq_ops (r' :: l) = rq_ops (r :: l)) by done. exists (r' :: pend). split; try done; cbn [writers_ with_phase].
    + apply Forall_cons. apply Forall_cons in I3 as [[R1 R2] I3]. split; [|done]. apply request_renumbered; [done|lia|]. rewrite Eb in R2. destruct R2 as [(s' & _ & E') R2]. exists b. split; [done|]. split; [done|]. by exists s'.
    + split; [done|]. split; [done|]. exists n, r', pend. split; [done|]. split; [done|]. split; [done|]. rewrite Eo, (Hfirst eq_refl). done.
Qed.

Lemma start_group_ok d cs pend extra st force delay : inv d cs pend extra -> phase d = MakingRoom force delay ->
  exists d', start_group d st = Some d' /\ exists cs' pend' extra', inv d' cs' pend' extra'.
Proof.
  intros I Hph. pose proof (wi_phase _ _ _ _ _ _ _ _ I) as Hp. unfold phase_ok in Hp. rewrite Hph in Hp. destruct Hp as (-> & Htmp & Hne).
  destruct pend as [|r pend]; [done|]. destruct (decide (ok st = true /\ w_batch r.1 <> None)) as [[Hok Hb]|Hb].
  - destruct (w_batch r.1) as [b|] eqn:Eb; [|done]. assert (st = Status_OK) as -> by (by destruct st).
    destruct (build_group_ok d cs r pend b I Htmp Eb) as (d' & E & pend' & I'). exists d'. split; [done|]. by exists cs, pend', [].
  - destruct (end_early d cs r pend st I Htmp) as (d' & E & cs' & I').
    { destruct (ok st); [|by left]. right. destruct (w_batch r.1); [|done]. by destruct Hb. }
    exists d'. split; [|by exists cs', pend, []]. unfold start_group. rewrite (wi_queue _ _ _ _ _ _ _ _ I). cbn [fmap list_fmap].
    destruct (ok st) eqn:Est; [|done]. destruct (w_batch r.1) as [b|] eqn:Eb; [|done]. by destruct Hb.
Qed.

(** The entries of a group are newer than what the memtable holds. *)
Lemma memtable_older d cs pend em old ei : inv d cs pend [] -> old ++ ei ++ em = es0 ++ applied_all cs ++ [] -> Forall (fun e => MemTable.e_seq e < last_seq (versions_ d) + 1) em.
Proof.
  intros I E. apply Forall_forall. intros e He. assert (Hin : e ∈ es0 ++ applied_all cs ++ []) by (rewrite <- E; apply elem_of_app; right; apply elem_of_app; by right).
  pose proof (wi_numbered _ _ _ _ _ _ _ _ I) as Hn. pose proof (numbered_le _ _ _ Hn). rewrite app_nil_r in Hin. apply elem_of_app in Hin as [Hin|Hin].
  - rewrite Forall_forall in Hes0. specialize (Hes0 e Hin). cbn in Hes0. lia.
  - pose proof (applied_range _ _ _ _ Hn Hin). lia.
Qed.

(** Writing the group: the memtable gets all of it, or nothing. *)
Lemma write_group_ok `{!Crc32c} d cs pend extra updates sync in_tmp last last_sequence : inv d cs pend extra -> phase d = Logging updates in_tmp last last_sequence ->
  exists d', write_group d updates sync in_tmp last last_sequence = Some d' /\ exists extra', inv d' cs pend extra'.
Proof.
  intros I Hph. pose proof (wi_phase _ _ _ _ _ _ _ _ I) as Hp. unfold phase_ok in Hp. rewrite Hph in Hp. destruct Hp as (-> & Htmp & n & r & pend' & -> & Hn & Elast & Eup & Eseq & Hz).
  destruct (AddRecord_total (log_ d) (Contents updates) (wi_log _ _ _ _ _ _ _ _ I)) as (st & l & Ea & Ho). unfold write_group. rewrite Ea. cbn [mbind option_bind].
  set (synced := if ok st && sync then _ else _). assert (Hsy : exists st' se l', synced = (st', se, l') /\ offset_ok (block_offset_ l')).
  { unfold synced. destruct (ok st && sync); [|by exists st, false, l]. unfold log_Sync. destruct (Flush (dest_ l)) as [s f]. by eexists _, _, _. }
  destruct Hsy as (st' & se & l' & -> & Ho').
  destruct (pending_bound d cs (r :: pend') [] (r :: take n pend') (drop n pend') I (take_group _ _ _)) as [B1 B2].
  pose proof I as [I1 I2 I3 I4 I5 I6 I7 (old & ei & em & M0 & M1 & M2 & M3) I9 _].
  assert (Hval : Forall op_valid (rq_ops (r :: take n pend'))).
  { unfold rq_ops. apply Forall_concat, Forall_fmap. assert (Hsub : Forall request_ok (r :: take n pend')).
    { rewrite (take_group r pend' n) in I3. by apply Forall_app in I3 as [I3 _]. }
    apply (Forall_impl _ _ _ Hsub). intros x [Hx _]. exact Hx. }
  destruct (ok st') eqn:Est; cbn [mbind option_bind].
  - destruct (InsertInto_wire (DbWrite.mem_ d) em (rq_ops (r :: take n pend')) (last_seq (versions_ d) + 1) M2 Hval (memtable_older d cs _ em old ei I M1)) as (m' & Ei & Hm'); [lia|lia|done|].
    rewrite Eup, Ei. cbn [mbind option_bind]. eexists. split; [done|]. exists (op_entries (last_seq (versions_ d) + 1) (rq_ops (r :: take n pend'))). split; try done; cbn.
    + exists old, ei, (em ++ op_entries (last_seq (versions_ d) + 1) (rq_ops (r :: take n pend'))). split; [done|]. split; [|done]. rewrite app_nil_r in M1. by rewrite (app_assoc es0), <- M1, <- !app_assoc.
    + split; [done|]. by exists n, r, pend'.
  - eexists. split; [done|]. exists []. split; try done; cbn.
    + by exists old, ei, em.
    + split; [done|]. exists n, r, pend'. by rewrite Est.
Qed.

(** The group is over: its writers leave with the status. *)
Lemma end_group_ok d cs pend extra status sync_error in_tmp last last_sequence : inv d cs pend extra -> phase d = Logged status sync_error in_tmp last last_sequence ->
  exists d', end_group d status sync_error in_tmp last last_sequence = Some d' /\ exists cs' pend', inv d' cs' pend' [].
Proof.
  intros I Hph. pose proof (wi_phase _ _ _ _ _ _ _ _ I) as Hp. unfold phase_ok in Hp. rewrite Hph in Hp. destruct Hp as (Htmp & n & r & pend' & -> & Hn & Elast & Eex & Eseq).
  pose proof (zlen_nonneg (rq_ops (r :: take n pend'))). unfold end_group, VersionSet.SetLastSequence.
  assert (Ev : versions_ (if in_tmp then with_tmp d Clear else d) = versions_ d) by (by destruct in_tmp). rewrite Ev.
  rewrite (proj2 (Z.leb_le _ _)) by lia. cbn [mbind option_bind]. rewrite (take_group r pend' n) in I. subst last.
  destruct (commit_ok d (with_versions (if in_tmp then with_tmp d Clear else d) (if sync_error then RecordBackgroundError (bg_error_ d) status else bg_error_ d)
      (with_numbers (versions_ d) (next_file (versions_ d)) (manifest_file_number_ (versions_ d)) last_sequence (log_number (versions_ d)) (prev_log_number (versions_ d))))
    cs (r :: take n pend') (drop n pend') extra (MkCommit (rq_view <$> r :: take n pend') (rq_ops (r :: take n pend')) (last_seq (versions_ d) + 1) status) 0%nat I)
    as (d' & E & I'); try done; cbn; try by destruct in_tmp.
  - destruct in_tmp; [done|]. by apply Htmp.
  - rewrite last_id_cons in E. cbn in E. eexists. split; [exact E|]. by eexists _, _.
Qed.

Lemma switch_ok `{!Crc32c} d cs pend extra d' o ios st force delay : inv d cs pend extra -> phase d = MakingRoom force delay -> imm_ d = None -> switch_memtable d o ios = Some (st, d') ->
  phase d' = phase d /\ inv d' cs pend extra.
Proof.
  intros I Hph Him. unfold switch_memtable, NewFileNumber. destruct (negb _); [done|]. intros [= E]. pose proof I as [I1 I2 I3 I4 I5 I6 I7 I8 I9 I10].
  unfold phase_ok in I10. rewrite Hph in I10. destruct o as [|s got]; injection E as <- <-; (split; [done|]).
  - split; try done; cbn.
    + destruct I8 as (old & ei & em & M0 & M1 & M2 & M3). rewrite Him in M3. subst ei. exists old, em, []. split; [done|]. split; [by rewrite app_nil_r; exact M1|]. split; [|done]. apply MemTable.make_holds.
    + unfold phase_ok. cbn. by rewrite Hph.
  - assert (El : last_seq (ReuseFileNumber (with_numbers (versions_ d) (u64 (next_file (versions_ d) + 1)) (manifest_file_number_ (versions_ d)) (last_seq (versions_ d))
      (log_number (versions_ d)) (prev_log_number (versions_ d))) (next_file (versions_ d))) = last_seq (versions_ d)) by (unfold ReuseFileNumber; by destruct (_ =? _)).
    split; try done; cbn; [by rewrite El|]. unfold phase_ok. cbn. by rewrite Hph.
Qed.

(** Phases of [MakeRoomForWrite] say the same. *)
Lemma making_room d cs pend extra d' force delay : inv d cs pend extra -> phase d = MakingRoom force delay ->
  forall force' delay', d' = with_phase d (writers_ d) (MakingRoom force' delay') -> inv d' cs pend extra.
Proof.
  intros [I1 I2 I3 I4 I5 I6 I7 I8 I9 I10] Hph force' delay' ->. split; try done. unfold phase_ok in *. by rewrite Hph in I10.
Qed.

Lemma room_switch_imm usage size d force delay : room usage size d force delay = Some RoomSwitch -> imm_ d = None.
Proof.
  unfold room. destruct (negb (ok (bg_error_ d))); [done|]. destruct (NumLevelFiles _ _) as [n|]; [|done]. cbn. destruct (_ && _); [done|]. destruct (_ && _); [done|]. by destruct (imm_ d).
Qed.

Lemma background_ok d cs pend extra imm bg vs : inv d cs pend extra -> (imm = imm_ d \/ imm = None) -> last_seq vs = last_seq (versions_ d) ->
  let d' := MkDb (writers_ d) (results d) (phase d) (log_ d) (logfile_number_ d) (DbWrite.mem_ d) imm bg (tmp_batch_ d) vs in
  write_inv last0 es0 rqs (fl ++ flushed_by d d') d' cs pend extra.
Proof.
  intros [I1 I2 I3 I4 I5 I6 I7 I8 I9 I10] Him El d'. split; try done; cbn; [by rewrite El| |].
  - destruct I8 as (old & ei & em & M0 & M1 & M2 & M3). unfold flushed_by. cbn. destruct Him as [->| ->].
    + exists old, ei, em. split; [|done]. destruct (imm_ d); by rewrite app_nil_r.
    + destruct (imm_ d) as [m|]; [exists (old ++ ei), [], em; rewrite <- app_assoc; split; [by apply hold_all_snoc|done]|]. subst ei. exists old, [], em. by rewrite app_nil_r.
  - unfold phase_ok in *. cbn. by rewrite El.
Qed.

(** The leader writes out nothing. *)
Lemma flushed_same d d' : imm_ d' = imm_ d -> flushed_by d d' = [].
Proof. unfold flushed_by. intros ->. by destruct (imm_ d). Qed.

Lemma finish_write_imm d last st d' : finish_write d last st = Some d' -> imm_ d' = imm_ d.
Proof. unfold finish_write. destruct (pop_writers _ _ _ _) as [[ws rs]|]; [|done]. by intros [= <-]. Qed.

Lemma start_group_imm d st d' : start_group d st = Some d' -> imm_ d' = imm_ d.
Proof.
  unfold start_group. destruct (writers_ d) as [|w ws]; [done|]. destruct (ok st); [|apply finish_write_imm]. destruct (w_batch w); [|apply finish_write_imm].
  destruct (BuildBatchGroup _ _) as [[[u tmp] lw]|]; [|done]. cbn [mbind option_bind]. intros [= <-]. by destruct tmp.
Qed.

Lemma write_group_imm `{!Crc32c} d updates sync in_tmp last lseq d' : write_group d updates sync in_tmp last lseq = Some d' -> imm_ d' = imm_ d.
Proof.
  unfold write_group. intros ([st l] & _ & E)%bind_Some. destruct (if ok st && sync then _ else _) as [[st' se] l']. by apply bind_Some in E as ([st2 m] & _ & [= <-]).
Qed.

Lemma end_group_imm d status se in_tmp last lseq d' : end_group d status se in_tmp last lseq = Some d' -> imm_ d' = imm_ d.
Proof. unfold end_group. intros (vs & _ & E%finish_write_imm)%bind_Some. cbn in E. by destruct in_tmp. Qed.

Lemma write_step_ok `{!Crc32c} usage size d d' cs pend extra : inv d cs pend extra -> write_step usage size d d' ->
  exists cs' pend' extra', write_inv last0 es0 rqs (fl ++ flushed_by d d') d' cs' pend' extra'.
Proof.
  intros I Hs. assert (Hkeep : forall d', flushed_by d d' = [] -> (exists cs' pend' extra', inv d' cs' pend' extra') -> exists cs' pend' extra', write_inv last0 es0 rqs (fl ++ flushed_by d d') d' cs' pend' extra').
  { intros d1 -> HI. by rewrite app_nil_r. }
  destruct Hs as [d w ws Hph Hq force|d d' force delay s Hph Hr Hst|d force delay Hph Hr|d d' force delay Hph Hr Hst|d force delay Hph Hr|
    d d' force delay o ios Hph Hr Hsw|d d1 d' force delay o ios s Hph Hr Hsw Hst|d d' w ws updates in_tmp last lseq Hph Hq Hw|d d' status se in_tmp last lseq Hph He|d imm bg vs Him El];
    [apply Hkeep; [by apply flushed_same|]|apply Hkeep; [by apply flushed_same, (start_group_imm _ _ _ Hst)|]|apply Hkeep; [by apply flushed_same|]|apply Hkeep; [by apply flushed_same, (start_group_imm _ _ _ Hst)|]|
     apply Hkeep; [by apply flushed_same|]|apply Hkeep; [unfold flushed_by; by rewrite (room_switch_imm _ _ _ _ _ Hr)|]|apply Hkeep; [unfold flushed_by; by rewrite (room_switch_imm _ _ _ _ _ Hr)|]|
     apply Hkeep; [by apply flushed_same, (write_group_imm _ _ _ _ _ _ _ Hw)|]|apply Hkeep; [by apply flushed_same, (end_group_imm _ _ _ _ _ _ _ He)|]|].
  - exists cs, pend, extra. destruct I as [I1 I2 I3 I4 I5 I6 I7 I8 I9 I10]. split; try done. unfold phase_ok in *. rewrite Hph in I10. destruct I10 as [-> I10]. split_and!; [done|done|].
    intros ->. by rewrite I2 in Hq.
  - destruct (start_group_ok d cs pend extra s force delay I Hph) as (d2 & E & HI). rewrite E in Hst. by injection Hst as <-.
  - exists cs, pend, extra. by eapply making_room.
  - destruct (start_group_ok d cs pend extra Status_OK force delay I Hph) as (d2 & E & HI). rewrite E in Hst. by injection Hst as <-.
  - by exists cs, pend, extra.
  - destruct (switch_ok d cs pend extra d' o ios Status_OK force delay I Hph (room_switch_imm _ _ _ _ _ Hr) Hsw) as [Hp I']. exists cs, pend, extra. rewrite Hph in Hp. by eapply making_room.
  - destruct (switch_ok d cs pend extra d1 o ios (Some s) force delay I Hph (room_switch_imm _ _ _ _ _ Hr) Hsw) as [Hp I']. rewrite Hph in Hp.
    destruct (start_group_ok d1 cs pend extra (Some s) force delay I' Hp) as (d2 & E & HI). rewrite E in Hst. by injection Hst as <-.
  - destruct (write_group_ok d cs pend extra updates (w_sync w) in_tmp last lseq I Hph) as (d2 & E & extra' & I'). rewrite E in Hw. injection Hw as <-. by exists cs, pend, extra'.
  - destruct (end_group_ok d cs pend extra status se in_tmp last lseq I Hph) as (d2 & E & cs' & pend' & I'). rewrite E in He. injection He as <-. by exists cs', pend', [].
  - exists cs, pend, extra. by apply background_ok.
Qed.
End Steps.

(** ** Runs *)

(** A database before its first write. *)
Record fresh_db (d : Db) (es0 : list MemTable.entry) : Prop := {
  fd_queue : writers_ d = [] /\ results d = ∅ /\ phase d = Waiting /\ tmp_batch_ d = Clear;
  fd_mem : MemTable.holds (DbWrite.mem_ d) es0 /\ imm_ d = None;
  fd_last : 0 <= last_seq (versions_ d) /\ Forall (fun e => MemTable.e_seq e <= last_seq (versions_ d)) es0;
  fd_log : offset_ok (block_offset_ (log_ d))
}.

Lemma fresh_inv d es0 : fresh_db d es0 -> write_inv (last_seq (versions_ d)) es0 [] [] d [] [] [].
Proof.
  intros [(Q1 & Q2 & Q3 & Q4) [M1 M2] _ Hl]. split; try done.
  - rewrite Q2. split; [by intros c i ?%elem_of_nil|]. intros i st. by rewrite lookup_empty.
  - by intros c ?%elem_of_nil.
  - exists [], [], es0. rewrite M2, app_nil_r. split; [by exists []|done].
  - unfold phase_ok. by rewrite Q3.
Qed.

Lemma arrive_ok last0 es0 rqs fl d w ops cs pend extra : write_inv last0 es0 rqs fl d cs pend extra -> request_ok (w, ops) ->
  write_inv last0 es0 (rqs ++ [(w, ops)]) fl (arrive d w) cs (pend ++ [(w, ops)]) extra.
Proof.
  intros [I1 I2 I3 I4 I5 I6 I7 I8 I9 I10] Hr. split; try done; cbn.
  - by rewrite !fmap_app, I1, app_assoc.
  - by rewrite fmap_app, I2.
  - apply Forall_app. by split; [|constructor].
  - rewrite !rq_ops_app, !zlen_app. lia.
  - unfold phase_ok in *. cbn. destruct (phase d).
    + done.
    + destruct I10 as (? & ? & _). split_and!; [done|done|]. by destruct pend.
    + destruct I10 as (E1 & E2 & n & r & p & -> & Hn & E3 & E4). split; [done|]. split; [done|]. exists n, r, (p ++ [(w, ops)]). rewrite length_app, take_app_le by lia. split; [done|]. split; [lia|]. split; [exact E3|exact E4].
    + destruct I10 as (E2 & n & r & p & -> & Hn & E3 & E4). split; [done|]. exists n, r, (p ++ [(w, ops)]). rewrite length_app, take_app_le by lia. split; [done|]. split; [lia|]. split; [exact E3|exact E4].
Qed.

Lemma run_ids `{!Crc32c} usage size allowed d0 rqs fl d : write_run usage size allowed d0 rqs fl d -> NoDup (rq_ids rqs).
Proof.
  induction 1 as [|rqs fl d w ops _ IH Hw|rqs fl d d' _ IH _ _]; [constructor| |done]. unfold rq_ids in *. rewrite fmap_app. apply NoDup_app. split; [done|]. split; [|by apply NoDup_singleton].
  intros i Hi Hi'. apply list_elem_of_singleton in Hi'. by subst.
Qed.

Lemma write_run_ok `{!Crc32c} usage size allowed d0 es0 rqs fl d : fresh_db d0 es0 -> write_run usage size allowed d0 rqs fl d -> Forall request_ok rqs ->
  last_seq (versions_ d0) + zlen (rq_ops rqs) <= kMaxSequenceNumber -> exists cs pend extra, write_inv (last_seq (versions_ d0)) es0 rqs fl d cs pend extra.
Proof.
  intros Hf Hrun. induction Hrun as [|rqs fl d w ops Hrun IH Hw|rqs fl d d' Hrun IH Hs _]; intros Hr Hm.
  - exists [], [], []. by apply fresh_inv.
  - apply Forall_app in Hr as [Hr [Hr' _]%Forall_cons]. rewrite rq_ops_app, zlen_app in Hm. pose proof (zlen_nonneg (rq_ops [(w, ops)])).
    destruct IH as (cs & pend & extra & I); [done|lia|]. exists cs, (pend ++ [(w, ops)]), extra. by apply arrive_ok.
  - destruct (IH Hr Hm) as (cs & pend & extra & I). destruct Hf as [_ _ [F1 F2] _]. exact (write_step_ok _ _ F1 F2 fl rqs (run_ids _ _ _ _ _ _ _ Hrun) Hm _ _ _ _ _ _ _ I Hs).
Qed.

(** C16. Writes are applied in order, whole and once, whatever writes of the log
    fail.  In every interleaving of the write queue with arriving writers, memtable
    switches and the background thread, the requests served so far are the first
    that arrived, cut into groups; a group's writers, and no others, have been told
    its status.  The groups' operations are numbered in this order without a gap
    after the last sequence number.  The memtables the background thread has written
    out, the one it is to write out and the current one hold, in this order and
    together, the entries there were at first and exactly the operations of the
    groups that were told OK, each group whole; what the leader has added beyond
    that is numbered above the last sequence number, where no reader looks. *)
Theorem writes_in_order `{!Crc32c} usage size allowed d0 es0 rqs fl d : fresh_db d0 es0 -> write_run usage size allowed d0 rqs fl d -> Forall request_ok rqs ->
  last_seq (versions_ d0) + zlen (rq_ops rqs) <= kMaxSequenceNumber ->
  exists cs pend, rq_view <$> rqs = concat (c_reqs <$> cs) ++ (rq_view <$> pend) /\ writers_ d = fst <$> pend /\ told (results d) cs /\
    numbered (last_seq (versions_ d0)) cs (last_seq (versions_ d)) /\
    (forall c, c ∈ cs -> ok (c_status c) = true -> c_ops c = concat (c_reqs c).*2) /\
    exists extra, hold_all (fl ++ option_list (imm_ d) ++ [DbWrite.mem_ d]) (es0 ++ applied_all cs ++ extra) /\ Forall (fun e => last_seq (versions_ d) < MemTable.e_seq e) extra.
Proof.
  intros Hf Hrun Hr Hm. destruct (write_run_ok usage size allowed d0 es0 rqs fl d Hf Hrun Hr Hm) as (cs & pend & extra & I). pose proof I as [I1 I2 I3 I4 I5 I6 I7 (old & ei & em & M0 & M1 & M2 & M3) I9 _].
  exists cs, pend. split_and!; [done..|]. exists extra. split; [|by apply (extra_above _ _ _ _ _ _ _ _ I)]. rewrite <- M1. destruct (imm_ d) as [m|]; cbn [option_list app].
  - change ([m; DbWrite.mem_ d]) with ([m] ++ [DbWrite.mem_ d]). rewrite !app_assoc. by repeat apply hold_all_snoc.
  - subst ei. by apply hold_all_snoc.
Qed.

(** C17. The leader never gets stuck: in every reachable state where it is about to
    write, the write returns whatever fails, and where it is about to finish, its
    group leaves the queue; and after [MakeRoomForWrite] the write goes on,
    whatever the status. *)
Theorem leader_progress `{!Crc32c} usage size allowed d0 es0 rqs fl d : fresh_db d0 es0 -> write_run usage size allowed d0 rqs fl d -> Forall request_ok rqs ->
  last_seq (versions_ d0) + zlen (rq_ops rqs) <= kMaxSequenceNumber ->
  match phase d with
  | Waiting => True
  | MakingRoom force delay => forall st, exists d', start_group d st = Some d'
  | Logging updates in_tmp last last_sequence => forall sync, exists d', write_group d updates sync in_tmp last last_sequence = Some d'
  | Logged status sync_error in_tmp last last_sequence => exists d', end_group d status sync_error in_tmp last last_sequence = Some d' /\ (length (writers_ d') < length (writers_ d))%nat
  end.
Proof.
  intros Hf Hrun Hr Hm. destruct (write_run_ok usage size allowed d0 es0 rqs fl d Hf Hrun Hr Hm) as (cs & pend & extra & I). pose proof (run_ids _ _ _ _ _ _ _ Hrun) as Hnd. destruct Hf as [_ _ [F1 F2] _].
  destruct (phase d) as [|force delay|updates in_tmp last lseq|status se in_tmp last lseq] eqn:Hph; [done|..].
  - intros st. destruct (start_group_ok _ _ F1 fl rqs Hnd Hm d cs pend extra st force delay I Hph) as (d' & E & _). by exists d'.
  - intros sync. destruct (write_group_ok _ _ F1 F2 fl rqs Hm d cs pend extra updates sync in_tmp last lseq I Hph) as (d' & E & _). by exists d'.
  - destruct (end_group_ok _ _ fl rqs Hnd d cs pend extra status se in_tmp last lseq I Hph) as (d' & E & _). exists d'. split; [done|].
    unfold end_group in E. destruct (VersionSet.SetLastSequence _ _) as [vs|]; [|done]. cbn [mbind option_bind] in E. unfold finish_write in E.
    destruct (pop_writers _ _ _ _) as [[ws rs]|] eqn:Ep; [|done]. injection E as <-. cbn. apply pop_writers_shorter in Ep. cbn in Ep. by destruct in_tmp.
Qed.
End Groups.

(** ** An example: a group of three, and a write the log refuses *)

Module WriteRuns.
#[local] Existing Instances BytewiseComparator BytewiseLaws.
#[local] Instance crc_writes : Crc32c := crc32c_portable 0.

Abbreviation all_states := (fun _ : Db => True).
Abbreviation no_usage := (fun _ : MemTable.t => 0).

Definition start_db : Db :=
  MkDb [] ∅ Waiting (Log.Writer_new (WFile [] [IoOk; IoOk; IoOk; IoErr [] 3])) 6 MemTable.make None Status_OK Clear (example_set []).

(** The second is behind the first when it starts, and so is a request to switch
    memtables; the fourth comes later. *)
Definition requests : list (Writer * list op) :=
  [(MkWriter 1 (Some (build [OpPut [97] [1]])) false, [OpPut [97] [1]]);
   (MkWriter 2 (Some (build [OpPut [98] [2]; OpDelete [97]])) false, [OpPut [98] [2]; OpDelete [97]]);
   (MkWriter 3 None false, []);
   (MkWriter 4 (Some (build [OpPut [99] [3]])) false, [OpPut [99] [3]])].

Definition request (i : nat) : Writer := default (MkWriter 0 None false) (fst <$> requests !! i).
Definition or_start (o : option Db) : Db := default start_db o.

(** The leader's four moves. *)
Definition lead (d : Db) : Db := with_phase d (writers_ d) (MakingRoom false true).
Definition group (d : Db) : Db := or_start (start_group d Status_OK).
Definition work (d : Db) : Db := match phase d with Logging u t l s => or_start (write_group d u false t l s) | _ => d end.
Definition leave (d : Db) : Db := match phase d with Logged st e t l s => or_start (end_group d st e t l s) | _ => d end.

Definition db1 : Db := arrive (arrive (lead (arrive start_db (request 0))) (request 1)) (request 2).
Definition db2 : Db := leave (work (group db1)).
Definition db3 : Db := leave (work (group (lead (arrive db2 (request 3))))).

Definition some {A} (o : option A) : bool := match o with Some _ => true | None => false end.

Lemma group_step d : match phase d with MakingRoom f e => match room no_usage 4096 d f e with Some RoomFree => some (start_group d Status_OK) | _ => false end | _ => false end = true ->
  write_step no_usage 4096 d (group d).
Proof.
  destruct (phase d) as [|f e| |] eqn:Hp; try done. destruct (room no_usage 4096 d f e) as [[]|] eqn:Hr; try done. intros Hg. apply (room_free no_usage 4096 d _ f e); [done|done|].
  unfold group. by destruct (start_group d Status_OK).
Qed.

Lemma work_step d : match phase d, writers_ d with Logging u t l s, w :: _ => negb (w_sync w) && some (write_group d u false t l s) | _, _ => false end = true ->
  write_step no_usage 4096 d (work d).
Proof.
  destruct (phase d) as [| |u t l s|] eqn:Hp; try done. destruct (writers_ d) as [|w ws] eqn:Hq; [done|]. intros [Hs Hg]%andb_true_iff. apply negb_true_iff in Hs.
  apply (writes no_usage 4096 d _ w ws u t l s); [done|done|]. rewrite Hs. unfold work. rewrite Hp. by destruct (write_group d u false t l s).
Qed.

Lemma leave_step d : match phase d with Logged st e t l s => some (end_group d st e t l s) | _ => false end = true -> write_step no_usage 4096 d (leave d).
Proof.
  destruct (phase d) as [| | |st e t l s] eqn:Hp; try done. intros Hg. apply (ends no_usage 4096 d _ st e t l s); [done|]. unfold leave. rewrite Hp. by destruct (end_group d st e t l s).
Qed.

(** A step that writes out nothing. *)
Lemma still_step rqs fl d d' : write_run no_usage 4096 all_states start_db rqs fl d -> write_step no_usage 4096 d d' -> flushed_by d d' = [] -> write_run no_usage 4096 all_states start_db rqs fl d'.
Proof. intros H1 H2 E. rewrite <- (app_nil_r fl), <- E. by apply (run_step no_usage 4096 all_states start_db rqs fl d d'). Qed.

Lemma run1 : write_run no_usage 4096 all_states start_db (take 3 requests) [] db1.
Proof.
  apply (run_arrive no_usage 4096 all_states start_db (take 2 requests) [] (arrive (lead (arrive start_db (request 0))) (request 1)) (request 2)); [|by_decide].
  apply (run_arrive no_usage 4096 all_states start_db (take 1 requests) [] (lead (arrive start_db (request 0))) (request 1)); [|by_decide].
  apply (still_step _ _ (arrive start_db (request 0))); [apply (run_arrive no_usage 4096 all_states start_db [] [] start_db (request 0)); [apply run_start|by_decide]| |done].
  apply (leads no_usage 4096 (arrive start_db (request 0)) (request 0) []); reflexivity.
Qed.

(** A group from building to leaving. *)
Lemma group_run rqs fl d : write_run no_usage 4096 all_states start_db rqs fl d -> write_step no_usage 4096 d (group d) -> write_step no_usage 4096 (group d) (work (group d)) ->
  write_step no_usage 4096 (work (group d)) (leave (work (group d))) -> imm_ d = None -> write_run no_usage 4096 all_states start_db rqs fl (leave (work (group d))).
Proof.
  intros H1 H2 H3 H4 Hi. assert (Hn : forall d', imm_ d' = None -> forall d'', flushed_by d' d'' = []) by (intros d' E d''; unfold flushed_by; by rewrite E).
  assert (E1 : imm_ (group d) = None). { unfold group, or_start. destruct (start_group d Status_OK) as [x|] eqn:E; [|done]. cbn. by rewrite (start_group_imm _ _ _ E). }
  assert (E2 : imm_ (work (group d)) = None).
  { unfold work. destruct (phase (group d)) as [| |u t l s|]; try done. unfold or_start. destruct (write_group (group d) u false t l s) as [x|] eqn:E; [|done]. cbn. by rewrite (write_group_imm _ _ _ _ _ _ _ E). }
  eapply still_step; [eapply still_step; [eapply still_step; [exact H1|exact H2|by apply Hn]|exact H3|by apply Hn]|exact H4|by apply Hn].
Qed.

Lemma run2 : write_run no_usage 4096 all_states start_db (take 3 requests) [] db2.
Proof. apply group_run; [exact run1|apply group_step|apply work_step|apply leave_step|]; vm_compute; reflexivity. Qed.

Lemma run3 : write_run no_usage 4096 all_states start_db requests [] db3.
Proof.
  apply group_run; [|apply group_step; vm_compute; reflexivity|apply work_step; vm_compute; reflexivity|apply leave_step; vm_compute; reflexivity|vm_compute; reflexivity].
  apply (still_step _ _ (arrive db2 (request 3))); [apply (run_arrive no_usage 4096 all_states start_db (take 3 requests) [] db2 (request 3)); [exact run2|by_decide]| |vm_compute; reflexivity].
  apply (leads no_usage 4096 (arrive db2 (request 3)) (request 3) []); vm_compute; reflexivity.
Qed.

(** A request without a batch leads: the memtables are switched, and the background
    thread writes out the old one. *)
Definition forced : Writer := MkWriter 5 None false.
Definition switched : Db :=
  match switch_memtable (with_phase (arrive db3 forced) [forced] (MakingRoom true false)) IoOk [] with
  | Some (_, d) => with_phase d (writers_ d) (MakingRoom false false)
  | None => start_db
  end.
Definition written (d : Db) : Db := MkDb (writers_ d) (results d) (phase d) (log_ d) (logfile_number_ d) (DbWrite.mem_ d) None (bg_error_ d) (tmp_batch_ d) (versions_ d).
Definition db4 : Db := written (group switched).

Lemma run4 : write_run no_usage 4096 all_states start_db (requests ++ [(forced, [])]) [DbWrite.mem_ db3] db4.
Proof.
  change [DbWrite.mem_ db3] with ([] ++ flushed_by (group switched) db4). apply (run_step no_usage 4096 all_states start_db _ [] (group switched)); [| |done].
  - apply (still_step _ _ switched); [eapply (still_step _ _ (with_phase (arrive db3 forced) [forced] (MakingRoom true false))); [eapply (still_step _ _ (arrive db3 forced));
      [apply (run_arrive no_usage 4096 all_states start_db requests [] db3 forced); [exact run3|by_decide]| |]| |]| |].
    + apply (leads no_usage 4096 (arrive db3 forced) forced []); vm_compute; reflexivity.
    + vm_compute. reflexivity.
    + unfold switched. destruct (switch_memtable (with_phase (arrive db3 forced) [forced] (MakingRoom true false)) IoOk []) as [[st d]|] eqn:E; [|by vm_compute in E].
      assert (st = Status_OK) as -> by (vm_compute in E; by injection E as <- _). apply (room_switch no_usage 4096 _ d true false IoOk []); [done|vm_compute; reflexivity|exact E].
    + vm_compute. reflexivity.
    + apply group_step. vm_compute. reflexivity.
    + vm_compute. reflexivity.
  - apply (background no_usage 4096 (group switched) None); [by right|done].
Qed.

Lemma start_fresh : fresh_db start_db [].
Proof. split; [done|split; [apply MemTable.make_holds|done]|split; [vm_compute; discriminate|constructor]|split; vm_compute; discriminate]. Qed.

Lemma requests_ok : Forall request_ok requests.
Proof.
  assert (Hb : forall id ops, Forall op_valid ops -> build ops = wire 0 ops -> ByteSize (wire 0 ops) < 2 ^ 31 -> request_ok (MkWriter id (Some (build ops)) false, ops)).
  { intros id ops Ho E Hs. split; [done|]. cbn. rewrite E. split; [exists 0; split; [lia|done]|done]. }
  unfold requests. repeat (apply Forall_cons_2; [first [apply Hb; [repeat constructor; by_decide|vm_compute; reflexivity|vm_compute; reflexivity]|split; [constructor|done]]|]). apply Forall_nil_2.
Qed.

(** The first three form one group and are told OK: the request to switch
    memtables too, though nothing was switched.  The fourth is told the error; its
    sequence number is used up, and its operation is in no memtable.  The fifth
    switches: all that was told OK is in the memtable written out. *)
Lemma writes_in_order_witness :
  (fun i => results db4 !! i) <$> [1; 2; 3; 4; 5]%nat = [Some Status_OK; Some Status_OK; Some Status_OK; Some (Some []); Some Status_OK] /\ last_seq (versions_ db4) = 104 /\ imm_ db4 = None /\
  exists cs pend, rq_view <$> requests ++ [(forced, [])] = concat (c_reqs <$> cs) ++ (rq_view <$> pend) /\ writers_ db4 = fst <$> pend /\ numbered 100 cs (last_seq (versions_ db4)) /\
    exists extra, hold_all [DbWrite.mem_ db3; DbWrite.mem_ db4] (applied_all cs ++ extra).
Proof.
  split; [vm_compute; reflexivity|]. split; [vm_compute; reflexivity|]. split; [vm_compute; reflexivity|].
  assert (Hr : Forall request_ok (requests ++ [(forced, [])])) by (apply Forall_app; split; [exact requests_ok|apply Forall_singleton; split; [constructor|done]]).
  destruct (writes_in_order no_usage 4096 all_states start_db [] (requests ++ [(forced, [])]) [DbWrite.mem_ db3] db4 start_fresh run4 Hr ltac:(vm_compute; discriminate)) as (cs & pend & W1 & W2 & _ & W3 & _ & extra & W4 & _).
  exists cs, pend. split; [exact W1|]. split; [exact W2|]. split; [exact W3|]. exists extra. assert (Hi : imm_ db4 = None) by (vm_compute; reflexivity). rewrite Hi in W4. exact W4.
Defined.

Lemma leader_progress_witness : (exists d', end_group (work (group db1)) Status_OK false true 3 103 = Some d' /\ (length (writers_ d') < 3)%nat) /\ phase (work (group db1)) = Logged Status_OK false true 3 103.
Proof.
  assert (Hp : phase (work (group db1)) = Logged Status_OK false true 3 103) by (vm_compute; reflexivity). split; [|exact Hp].
  assert (Hrun : write_run no_usage 4096 all_states start_db (take 3 requests) [] (work (group db1))).
  { apply (still_step _ _ (group db1)); [apply (still_step _ _ db1); [exact run1|apply group_step|]|apply work_step|]; vm_compute; reflexivity. }
  pose proof (leader_progress no_usage 4096 all_states start_db [] (take 3 requests) [] (work (group db1)) start_fresh Hrun (Forall_take _ 3 _ requests_ok) ltac:(vm_compute; discriminate)) as Hlp.
  rewrite Hp in Hlp. destruct Hlp as (d' & E & Hlen). exists d'. split; [exact E|]. assert (Hq : length (writers_ (work (group db1))) = 3%nat) by (vm_compute; reflexivity). lia.
Defined.
End WriteRuns.
