(* ===== verification/DbRecover.v ===== *)
(** * DbRecover: building tables, recovery and garbage collection

    [BuildTable] of src/LSM-EBF/db/builder.cc, and of db/db_impl.cc: [NewDB],
    [WriteLevel0Table], [CompactMemTable], [RecoverLogFile], [Recover],
    [DeleteObsoleteFiles] and the part of [DB::Open] that sets the state.  All
    files are those of the database's directory.  The memory usage of a memtable
    and the options the version set does not have are parameters, and so are the
    check of a new table ([OutputCheck] of DbCompact.v) and the table cache's
    [Evict].  [None] is a failed assertion, an undefined run, or too little fuel. *)
From stdpp Require Import gmap sorting.
From S2P Require Import Prelude Coding Crc32c Status Comparator Logging DbFormat Filename TableFormat Block Iterators FilterBlock TableBuilder MemTable WriteBatch Log.
From S2P Require Import DbWrite VersionEdit Version VersionGet VersionBuilder Manifest VersionSet Compaction DbCompact.

(** ** The iterator of a memtable *)

Record MemIter := MkMemIter { mit_mem : MemTable.t; mit_node : option nat }.

Section MemIter.
Context {user_comparator : Comparator}.

Definition mit_step (it : MemIter) (op : iter_op) : option MemIter :=
  let m := mit_mem it in
  node ← match op with
         | OpFirst => Some (MemTable.Iterator_SeekToFirst m)
         | OpLast => MemTable.Iterator_SeekToLast m
         | OpSeek target => MemTable.Iterator_Seek m target
         | OpNext => Some (MemTable.Iterator_Next m (mit_node it))
         | OpPrev => MemTable.Iterator_Prev m (mit_node it)
         end;
  Some (MkMemIter m node).

#[export] Instance MemIter_Iterator : Iterator MemIter := {|
  iValid it := MemTable.Iterator_Valid (mit_node it);
  ikey it := default [] (MemTable.Iterator_key (mit_mem it) (mit_node it));
  ivalue it := default [] (MemTable.Iterator_value (mit_mem it) (mit_node it));
  istatus _ := Status_OK;
  istep := mit_step
|}.
End MemIter.

(** ** Recovery state *)

Record Recovering `{!OutputCheck} := MkRecovering {
  rv_versions : VersionSet;
  rv_pending : list Z;
  rv_cache : oc_cache;
  rv_edit : VersionEdit;
  save_manifest : bool;
  max_sequence : Z;
  rv_log : option (Log.Writer * Z * MemTable.t)
}.

Section Recover.
Context `{!Crc32c, !Snappy, !FilterPolicy, !OutputCheck} {user_comparator : Comparator} (o : VersionSet.Options) (topt : TableBuilder.Options).
Context (usage : MemTable.t -> Z) (write_buffer_size : Z) (paranoid create_if_missing error_if_exists : bool) (evict : oc_cache -> Z -> oc_cache).
Implicit Types s : Recovering.

(** ** [BuildTable] *)

Section Build.
Context {I : Type} `{!Iterator I}.

Definition with_bounds (f : FileMetaData) (size : Z) (small large : bytes) : FileMetaData :=
  MkFile (refs f) (allowed_seeks f) (number f) size small large (access_time f).

Fixpoint build_loop (fuel : nat) (it : I) (r : TableBuilder.Rep) (meta : FileMetaData) : option (I * TableBuilder.Rep * FileMetaData) :=
  match fuel with
  | O => None
  | S fuel =>
      if iValid it then
        let meta := with_bounds meta (file_size meta) (smallest meta) (Iterators.ikey it) in
        r ← TableBuilder.Add (H1 := InternalKeyComparator) r (Iterators.ikey it) (ivalue it);
        it ← istep it OpNext;
        build_loop fuel it r meta
      else Some (it, r, meta)
  end.

(** The table is written, synced, closed and opened. *)
Definition write_table (e : Env) (cache : oc_cache) (it : I) (meta : FileMetaData) (fuel : nat) : option (Status * Env * oc_cache * I * FileMetaData) :=
  let fname := TableFileName (dbname_ o) (number meta) in
  r ← TableBuilder.make topt (WFile (default [] (files e !! fname)) (env_io e));
  '(it, r, meta) ← build_loop fuel it r (with_bounds meta (file_size meta) (Iterators.ikey it) (largest meta));
  '(st, r) ← TableBuilder.Finish (H1 := InternalKeyComparator) r;
  let meta := if ok st then with_bounds meta (TableBuilder.FileSize r) (smallest meta) (largest meta) else meta in
  if ok st && (file_size meta <=? 0) then None
  else
    let e := stored e fname r in
    let '(st, e) := if ok st then file_Sync e else (st, e) in
    let '(st, e) := if ok st then file_Close e else (st, e) in
    if ok st then
      let '(st, cache) := oc_open cache 0 (number meta) (file_size meta) None [] [] in
      Some (st, e, cache, it, meta)
    else Some (st, e, cache, it, meta).

Definition BuildTable (e : Env) (cache : oc_cache) (it : I) (meta : FileMetaData) (fuel : nat) : option (Status * Env * oc_cache * FileMetaData) :=
  let meta := with_bounds meta 0 (smallest meta) (largest meta) in
  it ← istep it OpFirst;
  let fname := TableFileName (dbname_ o) (number meta) in
  let finish (st : Status) (e : Env) (cache : oc_cache) (it : I) (meta : FileMetaData) :=
    let st := if negb (ok (istatus it)) then istatus it else st in
    if ok st && (0 <? file_size meta) then (st, e, cache, meta) else (st, (Filename.DeleteFile e fname).2, cache, meta) in
  if iValid it then
    let '(st, e) := NewWritableFile e fname in
    if negb (ok st) then Some (st, e, cache, meta)
    else '(st, e, cache, it, meta) ← write_table e cache it meta fuel; Some (finish st e cache it meta)
  else Some (finish Status_OK e cache it meta).
End Build.

(** ** [WriteLevel0Table] *)

Definition with_rv s (vs : VersionSet) (pending : list Z) (cache : oc_cache) (e : VersionEdit) : Recovering :=
  MkRecovering _ vs pending cache e (save_manifest s) (max_sequence s) (rv_log s).

(** [base]: the levels of the version the output level is chosen by.  The mutex
    is released while the table is built: [resume] is the version set then. *)
Definition WriteLevel0Table (mem : MemTable.t) (base : option (list (list FileMetaData))) (resume : VersionSet -> Env -> VersionSet) (fuel : nat) s : option (Status * Recovering) :=
  let '(n, vs) := NewFileNumber (rv_versions s) in
  let pending := num_insert n (rv_pending s) in
  '(st, e, cache, meta) ← BuildTable (env_ vs) (rv_cache s) (MkMemIter mem None) (FileMetaData_new n 0 [] []) fuel;
  let vs := resume vs e in
  let pending := num_erase n pending in
  if ok st && (0 <? file_size meta) then
    level ← match base with
            | Some levels => PickLevelForMemTableOutput (user_comparator := user_comparator) (max_file_size o) levels (ExtractUserKey (smallest meta)) (ExtractUserKey (largest meta))
            | None => Some 0
            end;
    Some (st, with_rv s vs pending cache (AddFile (rv_edit s) level n (file_size meta) (smallest meta) (largest meta)))
  else Some (st, with_rv s vs pending cache (rv_edit s)).

(** ** [RecoverLogFile] *)

Definition MaybeIgnoreError (st : Status) : Status := if ok st || paranoid then st else Status_OK.

(** [LogReporter]: the first report is the status, if checks are paranoid. *)
Definition note (st new : Status) : Status := if paranoid && ok st then new else st.
Definition note_reports (before : nat) (r : Reader) (st : Status) : Status := fold_left (fun st p => note st p.2) (drop before (reports r)) st.

Definition with_max s (save : bool) (m : Z) : Recovering :=
  MkRecovering _ (rv_versions s) (rv_pending s) (rv_cache s) (rv_edit s) save m (rv_log s).

(** One record of at least 12 bytes. *)
Definition recover_record (record : bytes) (mem : option MemTable.t) (compactions : nat) (fuel : nat) s : option (Status * option MemTable.t * nat * Recovering) :=
  let m := match mem with Some m => m | None => MemTable.Ref MemTable.make end in
  '(m, st) ← WriteBatch.InsertInto (WriteBatch.SetContents record) m;
  m ← m;
  let st := MaybeIgnoreError st in
  if negb (ok st) then Some (st, Some m, compactions, s)
  else
    let last_seq := u64 (WriteBatch.Sequence record + WriteBatch.Count record - 1) in
    let s := if max_sequence s <? last_seq then with_max s (save_manifest s) last_seq else s in
    if write_buffer_size <? usage m then
      '(st, s) ← WriteLevel0Table m None with_env fuel (with_max s true (max_sequence s));
      Some (st, None, S compactions, s)
    else Some (st, Some m, compactions, s).

Fixpoint recover_loop (fuel : nat) (r : Reader) (st : Status) (mem : option MemTable.t) (compactions : nat) (table_fuel : nat) s
    : option (Status * option MemTable.t * nat * Recovering) :=
  match fuel with
  | O => None
  | S fuel =>
      '(got, record, r') ← ReadRecord r;
      let st := note_reports (length (reports r)) r' st in
      if (got : bool) && ok st then
        if zlen record <? 12 then recover_loop fuel r' (note st (Corruption (str "log record too small") [])) mem compactions table_fuel s
        else
          '(st, mem, compactions, s) ← recover_record record mem compactions table_fuel s;
          if negb (ok st) then Some (st, mem, compactions, s) else recover_loop fuel r' st mem compactions table_fuel s
      else Some (st, mem, compactions, s)
  end.

(** [GetFileSize] and [NewAppendableFile] of the log, when it goes on in use. *)
Definition reuse_log (e : Env) (fname : bytes) : bool * Env :=
  let '(st, e) := env_op e id in
  if ok st && bool_decide (is_Some (files e !! fname)) then let '(st, e) := env_op e id in (ok st, e) else (false, e).

Definition RecoverLogFile (log_number : Z) (last_log : bool) (fuel table_fuel : nat) s : option (Status * Recovering) :=
  let fname := LogFileName (dbname_ o) log_number in
  let '(st, file, e) := NewSequentialFile (env_ (rv_versions s)) fname in
  let s := with_rv s (with_env (rv_versions s) e) (rv_pending s) (rv_cache s) (rv_edit s) in
  match file with
  | None => Some (MaybeIgnoreError st, s)
  | Some f =>
      '(st, mem, compactions, s) ← recover_loop fuel (Reader_new f true true 0) Status_OK None 0 table_fuel s;
      let '(reused, s) :=
        if ok st && reuse_logs o && last_log && (compactions =? 0)%nat then
          let '(reuse, e) := reuse_log (env_ (rv_versions s)) fname in
          let s := with_rv s (with_env (rv_versions s) e) (rv_pending s) (rv_cache s) (rv_edit s) in
          if reuse then
            let c := default [] (files e !! fname) in
            let m := match mem with Some m => m | None => MemTable.Ref MemTable.make end in
            (true, MkRecovering _ (rv_versions s) (rv_pending s) (rv_cache s) (rv_edit s) (save_manifest s) (max_sequence s)
               (Some (Writer_reopen (WFile c []) (zlen c), log_number, m)))
          else (false, s)
        else (false, s) in
      match (if (reused : bool) then None else mem) with
      | Some m => if ok st then WriteLevel0Table m None with_env table_fuel (with_max s true (max_sequence s)) else Some (st, s)
      | None => Some (st, s)
      end
  end.

(** ** [NewDB] *)

Definition NewDB (e : Env) : option (Status * Env) :=
  let new_db := VersionEdit.SetLastSequence (SetNextFile (SetLogNumber (SetComparatorName VersionEdit_new (comparator_name o)) 0) 2) 0 in
  let manifest := DescriptorFileName (dbname_ o) 1 in
  let '(st, e) := NewWritableFile e manifest in
  if negb (ok st) then Some (st, e)
  else
    '(st, w) ← AddRecord (Writer_new (WFile (default [] (files e !! manifest)) (env_io e))) (EncodeTo new_db []);
    let e := MkEnv (<[manifest := contents (dest_ w)]> (files e)) (w_io (dest_ w)) in
    let '(st, e) := if ok st then file_Close e else (st, e) in
    Some (if ok st then (SetCurrentFile e (dbname_ o) 1).1 else (st, (Filename.DeleteFile e manifest).2)).

(** ** [DeleteObsoleteFiles] *)

(** The names [GetChildren] lists, in some order. *)
Definition children (e : Env) : list bytes := base_name (dbname_ o) <$> (map_to_list (files e)).*1.

Definition keep_file (vs : VersionSet) (live : list Z) (number : Z) (type : FileType) : bool :=
  match type with
  | kLogFile => (log_number vs <=? number) || (number =? prev_log_number vs)
  | kDescriptorFile => manifest_file_number_ vs <=? number
  | kTableFile | kTempFile => bool_decide (number ∈ live)
  | kCurrentFile | kDBLockFile | kInfoLogFile => true
  end.

Definition delete_obsolete (vs : VersionSet) (live : list Z) (ec : Env * oc_cache) (name : bytes) : Env * oc_cache :=
  match ParseFileName name with
  | Some (number, type) =>
      if keep_file vs live number type then ec
      else ((Filename.DeleteFile ec.1 (dbname_ o ++ str "/" ++ name)).2, match type with kTableFile => evict ec.2 number | _ => ec.2 end)
  | None => ec
  end.

Definition DeleteObsoleteFiles (bg_error : Status) (names : list bytes) s : Recovering :=
  if negb (ok bg_error) then s
  else
    let vs := rv_versions s in
    let '(e, cache) := fold_left (delete_obsolete vs (AddLiveFiles vs (rv_pending s))) names (env_ vs, rv_cache s) in
    with_rv s (with_env vs e) (rv_pending s) cache (rv_edit s).

(** ** [CompactMemTable] *)

(** The current version is held while the table is built.  The results are the
    background error, the immutable memtable that is left, and the state, whose
    edit is scratch.  [names e] is what [GetChildren] lists in [e]. *)
Definition CompactMemTable (imm : MemTable.t) (resume : VersionSet -> Env -> VersionSet) (stop : bool) (logfile_number : Z) (bg_error : Status) (names : Env -> list bytes)
    (fuel : nat) s : option (Status * option MemTable.t * Recovering) :=
  let vs := rv_versions s in
  cur ← current_ (versions_ vs);
  base ← by_addr (versions_ vs) !! cur;
  vs ← Version_Ref vs cur;
  '(st, s) ← WriteLevel0Table imm (Some (version_levels (st_files (store_ vs)) base)) resume fuel (with_rv s vs (rv_pending s) (rv_cache s) VersionEdit_new);
  vs ← Version_Unref (rv_versions s) cur;
  let st := if ok st && stop then IOError (str "Deleting DB during memtable compaction") [] else st in
  '(st, vs) ← (if ok st then LogAndApply (user_comparator := user_comparator) o vs (SetLogNumber (SetPrevLogNumber (rv_edit s) 0) logfile_number) else Some (st, vs));
  let s := with_rv s vs (rv_pending s) (rv_cache s) (rv_edit s) in
  Some (if ok st then (bg_error, None, DeleteObsoleteFiles bg_error (names (env_ vs)) s) else (RecordBackgroundError bg_error st, Some imm, s)).

(** ** [Recover] *)

(** The logs to replay, and the numbers of live files that are not there. *)
Definition scan_children (names : list bytes) (min_log prev_log : Z) (expected : list Z) : list Z * list Z :=
  fold_left (fun '(logs, expected) name =>
    match ParseFileName name with
    | Some (number, type) =>
        (match type with kLogFile => if (min_log <=? number) || (number =? prev_log) then logs ++ [number] else logs | _ => logs end, num_erase number expected)
    | None => (logs, expected)
    end) names ([], expected).

Fixpoint recover_logs (logs : list Z) (fuel table_fuel : nat) s : option (Status * Recovering) :=
  match logs with
  | [] => Some (Status_OK, s)
  | n :: logs =>
      '(st, s) ← RecoverLogFile n (match logs with [] => true | _ => false end) fuel table_fuel s;
      if negb (ok st) then Some (st, s)
      else recover_logs logs fuel table_fuel (with_rv s (MarkFileNumberUsed (rv_versions s) n) (rv_pending s) (rv_cache s) (rv_edit s))
  end.

Definition missing_text (expected : list Z) : Status :=
  Corruption (NumberToString (zlen expected) ++ str " missing files; e.g.") (TableFileName (dbname_ o) (foldr Z.min (default 0 (head expected)) expected)).

(** [names] is what [GetChildren] lists. *)
Definition recover_versions (names : list bytes) (fuel table_fuel : nat) s : option (Status * Recovering) :=
  '(st, save, vs) ← VersionSet.Recover (user_comparator := user_comparator) o (rv_versions s) (save_manifest s);
  let s := MkRecovering _ vs (rv_pending s) (rv_cache s) (rv_edit s) save (max_sequence s) (rv_log s) in
  if negb (ok st) then Some (st, s)
  else
    let '(st, e) := env_op (env_ vs) id in
    let s := with_rv s (with_env vs e) (rv_pending s) (rv_cache s) (rv_edit s) in
    if negb (ok st) then Some (st, s)
    else
      let '(logs, expected) := scan_children names (log_number vs) (prev_log_number vs) (AddLiveFiles vs []) in
      match expected with
      | _ :: _ => Some (missing_text expected, s)
      | [] =>
          '(st, s) ← recover_logs (merge_sort Z.le logs) fuel table_fuel s;
          if negb (ok st) then Some (st, s)
          else if last_seq (rv_versions s) <? max_sequence s
          then vs ← VersionSet.SetLastSequence (rv_versions s) (max_sequence s); Some (Status_OK, with_rv s vs (rv_pending s) (rv_cache s) (rv_edit s))
          else Some (Status_OK, s)
      end.

(** The directory is made and locked first; then the database is made if there is
    none.  [names e] is what [GetChildren] lists in [e]. *)
Definition Recover (names : Env -> list bytes) (fuel table_fuel : nat) s : option (Status * Recovering) :=
  let at_env (e : Env) := with_rv s (with_env (rv_versions s) e) (rv_pending s) (rv_cache s) (rv_edit s) in
  let e := (env_op (env_ (rv_versions s)) id).2 in
  let '(st, e) := env_op e (partial_alter (fun c => Some (default [] c)) (LockFileName (dbname_ o))) in
  if negb (ok st) then Some (st, at_env e)
  else
    match files e !! CurrentFileName (dbname_ o) with
    | Some _ =>
        if error_if_exists then Some (InvalidArgument (dbname_ o) (str "exists (error_if_exists is true)"), at_env e)
        else recover_versions (names e) fuel table_fuel (at_env e)
    | None =>
        if create_if_missing then
          '(st, e) ← NewDB e;
          if negb (ok st) then Some (st, at_env e) else recover_versions (names e) fuel table_fuel (at_env e)
        else Some (InvalidArgument (dbname_ o) (str "does not exist (create_if_missing is false)"), at_env e)
    end.

(** ** [DB::Open] *)

(** After [Recover]: a new log and memtable unless a log is reused. *)
Definition open_log s : Status * Recovering :=
  match rv_log s with
  | Some _ => (Status_OK, s)
  | None =>
      let '(n, vs) := NewFileNumber (rv_versions s) in
      let '(st, e) := NewWritableFile (env_ vs) (LogFileName (dbname_ o) n) in
      let vs := with_env vs e in
      (st, if ok st
           then MkRecovering _ vs (rv_pending s) (rv_cache s) (SetLogNumber (rv_edit s) n) (save_manifest s) (max_sequence s)
                  (Some (Writer_new (WFile [] []), n, MemTable.Ref MemTable.make))
           else with_rv s vs (rv_pending s) (rv_cache s) (rv_edit s))
  end.

Definition Open (names : Env -> list bytes) (fuel table_fuel : nat) s : option (Status * Recovering) :=
  '(st, s) ← Recover names fuel table_fuel s;
  let '(st, s) := if ok st then open_log s else (st, s) in
  '(st, s) ← match ok st && save_manifest s, rv_log s with
             | true, Some (_, n, _) =>
                 '(st, vs) ← LogAndApply (user_comparator := user_comparator) o (rv_versions s) (SetLogNumber (SetPrevLogNumber (rv_edit s) 0) n);
                 Some (st, with_rv s vs (rv_pending s) (rv_cache s) (rv_edit s))
             | true, None => None
             | false, _ => Some (st, s)
             end;
  Some (st, if ok st then DeleteObsoleteFiles Status_OK (names (env_ (rv_versions s))) s else s).
End Recover.
