(* ===== verification/RecoverLogs.v ===== *)
(** * RecoverLogs: what recovery restores

    The proofs about DbRecover.v: tables written from a memtable, the replay of a
    log that a crash may have cut, and the files that garbage collection keeps. *)
From stdpp Require Import gmap sorting.
From S2P Require Import Prelude Coding Crc32c Status Comparator DbFormat Filename TableFormat Block Iterators FilterBlock TableBuilder SkipList MemTable WriteBatch Log.
From S2P Require Import DbWrite VersionEdit Version TableLookup VersionGet VersionBuilder Manifest VersionSet VersionApply Compaction DbCompact WriteGroups CompactionView CompactionOutputs DbRecover.

#[local] Existing Instances BytewiseComparator BytewiseLaws.

(** ** Scanning forward *)

(** The part of the contract of iterators that a scan uses, from an iterator of
    which [start] holds. *)
Record scan_over {I : Type} `{!Iterator I} (kvs : list (bytes * bytes)) (start : I -> Prop) (at_ : I -> nat -> Prop) : Prop := {
  sc_shows : forall it i, at_ it i -> ishows it kvs i;
  sc_first : forall it, start it -> exists it', istep it OpFirst = Some it' /\ at_ it' 0%nat;
  sc_next : forall it i, at_ it i -> (i < length kvs)%nat -> exists it', istep it OpNext = Some it' /\ at_ it' (S i)
}.

Definition entry_kv (e : MemTable.entry) : bytes * bytes := (MemTable.e_ikey e, MemTable.e_value e).

(** The entries in the order of their internal keys. *)
Definition sorted_entries (l : list MemTable.entry) : Prop :=
  StronglySorted (fun a b => internal_compare (MemTable.e_ikey a) (MemTable.e_ikey b) < 0) l.

Definition mem_at (m : MemTable.t) (l : list MemTable.entry) (it : MemIter) (i : nat) : Prop :=
  mit_mem it = m /\ SkipList.at_index [] MemTable.key_compare MemTable.stored (MemTable.table_ m) (map MemTable.enc l) i (mit_node it).

Lemma mem_scan m es : MemTable.holds m es ->
  exists l, l ≡ₚ es /\ sorted_entries l /\ scan_over (entry_kv <$> l) (fun it => mit_mem it = m) (mem_at m l).
Proof.
  intros (Hok & _ & ks & Hr & Hp). apply Permutation_map_inv in Hp as (l & -> & Hpl). assert (Hok' : Forall MemTable.entry_ok l) by (by rewrite <- Hpl).
  destruct (SkipList.represents_sorted _ _ _ _ _ Hr) as [Hsk _]. exists l. split; [done|]. split; [by apply MemTable.enc_sorted|]. split.
  - intros [m' node] i [E Hi]. cbn in E, Hi. subst m'. destruct (MemTable.Iterator_reads m l i node Hok' Hi) as [Ek Ev].
    destruct (SkipList.key_index _ _ _ _ _ _ _ Hi) as [_ Hv]. rewrite length_map in Hv. split; [done|]. rewrite list_lookup_fmap. destruct (l !! i) as [e|] eqn:El.
    + cbn [fmap option_fmap option_map entry_kv]. split_and!; [apply Hv; by eapply lookup_lt_Some|change (default [] (MemTable.Iterator_key m node) = MemTable.e_ikey e); by rewrite Ek|
        change (default [] (MemTable.Iterator_value m node) = MemTable.e_value e); by rewrite Ev].
    + cbn. apply lookup_ge_None in El. unfold MemTable.Iterator_Valid. destruct (SkipList.Valid node); [|done]. destruct Hv as [Hv _]. specialize (Hv eq_refl). lia.
  - intros [m' node] E. cbn in E. subst m'. eexists. split; [done|]. split; [done|]. by apply SkipList.SeekToFirst_index.
  - intros [m' node] i [E Hi] Hlt. cbn in E, Hi. subst m'. rewrite length_fmap in Hlt. eexists. split; [done|]. split; [done|].
    apply (SkipList.Next_index [] MemTable.key_compare MemTable.stored); [done|]. by rewrite length_map.
Qed.

(** ** [BuildTable] *)

Section Tables.
Context `{!Crc32c, !Snappy, !OutputCheck} {P : FilterPolicy} {PL : FilterPolicyLaws P} (o : VersionSet.Options) (topt : TableBuilder.Options) (N : nat).
Context (Hfilters : TableBuilder.filter_policy topt <> None -> (0 < filterNums)%nat /\ forall l, (length l <= N)%nat -> keys_ok l).
Context (Hopen : forall cache l n size md i0 i1, (oc_open cache l n size md i0 i1).1 = Status_OK).

Abbreviation table_of g r := (TableBuilder.build_table (H1 := InternalKeyComparator) topt (WFile [] []) g = Some (Status_OK, r)).

Lemma footer_long f : 0 < zlen (FooterCode.EncodeTo f []).
Proof. unfold FooterCode.EncodeTo, PutFixed32. rewrite !zlen_app. unfold zlen. rewrite !length_EncodeFixed32. lia. Qed.

Lemma table_text_long gs res fb : 0 < zlen (TableBuilder.table_text (C := InternalKeyComparator) topt gs res fb).
Proof.
  unfold TableBuilder.table_text. rewrite !zlen_app. pose proof (footer_long (TableBuilder.table_footer (C := InternalKeyComparator) topt gs res fb)).
  repeat match goal with |- context [zlen ?a + _] => lazymatch goal with _ : 0 <= zlen a |- _ => fail | _ => pose proof (zlen_nonneg a) end end. lia.
Qed.

Section Scan.
Context {I : Type} `{!Iterator I} (kvs : list (bytes * bytes)) (start_ : I -> Prop) (at_ : I -> nat -> Prop) (Hsc : scan_over kvs start_ at_).

Lemma scan_valid it i : at_ it i -> iValid it = bool_decide (i < length kvs)%nat /\ istatus it = Status_OK.
Proof.
  intros Hat. destruct (sc_shows _ _ _ Hsc it i Hat) as [Hst Hs]. split; [|done]. destruct (kvs !! i) as [[k v]|] eqn:E.
  - destruct Hs as [-> _]. symmetry. apply bool_decide_eq_true. by eapply lookup_lt_Some.
  - rewrite Hs. symmetry. apply bool_decide_eq_false. apply lookup_ge_None in E. lia.
Qed.

Lemma build_loop_ok rem : forall fuel it i r r' meta, drop i kvs = rem -> (length rem < fuel)%nat -> at_ it i -> TableBuilder.add_entries (H1 := InternalKeyComparator) r rem = Some r' ->
  exists it', build_loop fuel it r meta
    = Some (it', r', with_bounds meta (file_size meta) (smallest meta) (match last rem with Some kv => kv.1 | None => largest meta end)) /\ istatus it' = Status_OK.
Proof.
  induction rem as [|kv rem IH]; intros fuel it i r r' meta Hrem Hf Hat Hadd; (destruct fuel as [|fuel]; [cbn in Hf; lia|]); cbn [build_loop]; destruct (scan_valid it i Hat) as [-> Hst].
  - assert (Hge : ~ (i < length kvs)%nat) by (pose proof (f_equal length Hrem) as E; rewrite length_drop in E; cbn in E; lia). rewrite bool_decide_eq_false_2 by done.
    injection Hadd as <-. exists it. split; [|done]. by destruct meta.
  - assert (Hkv : kvs !! i = Some kv) by (rewrite <- (Nat.add_0_r i), <- lookup_drop, Hrem; done). pose proof (lookup_lt_Some _ _ _ Hkv) as Hlt. rewrite bool_decide_eq_true_2 by done.
    destruct (sc_shows _ _ _ Hsc it i Hat) as [_ Hs]. rewrite Hkv in Hs. destruct kv as [k v]. destruct Hs as (_ & -> & ->). cbn [TableBuilder.add_entries fst snd] in Hadd.
    destruct (TableBuilder.Add r k v) as [r1|]; [|done]. cbn [mbind option_bind] in Hadd |- *. destruct (sc_next _ _ _ Hsc it i Hat Hlt) as (it1 & -> & Hat1). cbn [mbind option_bind].
    destruct (IH fuel it1 (S i) r1 r' (with_bounds meta (file_size meta) (smallest meta) k)) as (it' & E & Hst'); [|cbn in Hf; lia|done|done|].
    { rewrite (drop_S _ _ _ Hkv) in Hrem. by injection Hrem. }
    exists it'. split; [|done]. rewrite E. rewrite last_cons. by destruct (last rem).
Qed.

(** A table of at least one entry. *)
Lemma BuildTable_ok e cache it meta fuel : env_io e = [] -> start_ it -> kvs <> [] -> (length kvs < fuel)%nat -> (length kvs <= N)%nat -> TableBuilder.data_cost kvs < 2 ^ 63 ->
  (forall r, table_of kvs r -> zlen (contents (TableBuilder.file r)) < 2 ^ 64) ->
  exists r cache', table_of kvs r /\
    BuildTable o topt e cache it meta fuel
    = Some (Status_OK, MkEnv (<[TableFileName (dbname_ o) (number meta) := contents (TableBuilder.file r)]> (Filename.files e)) [], cache',
        with_bounds meta (zlen (contents (TableBuilder.file r))) (TableBuilder.first_key_of kvs) (TableBuilder.last_key_of kvs)) /\ 0 < zlen (contents (TableBuilder.file r)).
Proof.
  intros Hio Hst Hne Hf HN Hc Hsz. destruct (TableBuilder.build_table_ok (C := InternalKeyComparator) topt N Hfilters kvs HN Hc) as (r & gs & res & fb & Hb & _ & _ & _ & Hfile & _ & _ & _ & Hsize).
  exists r. pose proof Hb as Hb0. pose proof (Hsz r Hb) as Hlt. rewrite Hfile in Hlt |- *. cbn [contents] in Hlt |- *. set (text := TableBuilder.table_text (C := InternalKeyComparator) topt gs res fb) in *.
  assert (Hpos : 0 < zlen text) by apply table_text_long. rewrite u64_small in Hsize by lia. assert (exists kv kvs', kvs = kv :: kvs') as (kv & kvs' & Ek) by (destruct kvs; [done|by eexists _, _]).
  unfold BuildTable. destruct (sc_first _ _ _ Hsc it Hst) as (it0 & -> & Hat). cbn [mbind option_bind]. destruct (scan_valid it0 0 Hat) as [-> _].
  rewrite bool_decide_eq_true_2 by (rewrite Ek; cbn; lia). unfold NewWritableFile, env_op. rewrite Hio. cbn [next_io ok Status_OK negb].
  unfold TableBuilder.build_table in Hb. destruct (TableBuilder.make topt (WFile [] [])) as [r0|] eqn:Em; [|done]. cbn [mbind option_bind] in Hb.
  destruct (TableBuilder.add_entries r0 kvs) as [r1|] eqn:Ea; [|done]. cbn [mbind option_bind] in Hb.
  unfold write_table. cbn [number with_bounds Filename.files env_io]. rewrite lookup_insert_eq. cbn [from_option id]. rewrite Em. cbn [mbind option_bind].
  destruct (sc_shows _ _ _ Hsc it0 0%nat Hat) as [_ Hs0]. assert (Hk0 : kvs !! 0%nat = Some kv) by (by rewrite Ek). rewrite Hk0 in Hs0. destruct kv as [k0 v0]. destruct Hs0 as (_ & Ek0 & _).
  match goal with |- context [build_loop fuel it0 r0 ?m] => destruct (build_loop_ok kvs fuel it0 0%nat r0 r1 m) as (it1 & -> & Hst1); [done|done|done|done|] end. cbn [mbind option_bind].
  rewrite Hb. cbn [mbind option_bind ok Status_OK]. cbn [file_size with_bounds]. rewrite Hsize, (proj2 (Z.leb_gt _ _)) by lia. cbn [andb].
  unfold stored, file_Sync, file_Close, env_op. rewrite Hfile. cbn [w_io env_io next_io ok Status_OK contents Filename.files].
  match goal with |- context [oc_open ?a ?b ?c ?d ?e ?f ?g] => pose proof (Hopen a b c d e f g) as Eo; destruct (oc_open a b c d e f g) as [st cache1] end. cbn in Eo. subst st.
  exists cache1. split; [exact Hb0|]. split; [|done]. cbn [mbind option_bind]. rewrite Hst1. cbn [ok Status_OK negb andb file_size with_bounds]. rewrite (proj2 (Z.ltb_lt _ _)) by lia.
  rewrite insert_insert_eq. unfold TableBuilder.first_key_of, TableBuilder.last_key_of. assert (Eh : head kvs = Some (k0, v0)) by (by rewrite Ek). rewrite Eh. cbn.
  unfold with_bounds. cbn. rewrite Ek0. destruct (last kvs) eqn:El; [done|]. apply last_None in El. congruence.
Qed.
End Scan.

(** Nothing to write: no file is left. *)
Lemma BuildTable_empty {I : Type} `{!Iterator I} start_ (at_ : I -> nat -> Prop) e cache it meta fuel : scan_over [] start_ at_ -> env_io e = [] -> start_ it ->
  BuildTable o topt e cache it meta fuel = Some (Status_OK, MkEnv (delete (TableFileName (dbname_ o) (number meta)) (Filename.files e)) [], cache, with_bounds meta 0 (smallest meta) (largest meta)).
Proof.
  intros Hsc Hio Hst. unfold BuildTable. destruct (sc_first _ _ _ Hsc it Hst) as (it0 & -> & Hat). cbn [mbind option_bind]. destruct (scan_valid [] _ _ Hsc it0 0 Hat) as [-> Hs].
  rewrite bool_decide_eq_false_2 by (cbn; lia). rewrite Hs. cbn [ok Status_OK negb andb file_size with_bounds]. unfold Filename.DeleteFile, env_op. by rewrite Hio.
Qed.

(** ** [WriteLevel0Table] *)

(** The table of [es] is file [n], and the edit adds it to level 0; without entries
    there is none. *)
Definition dumped (e : Env) (n : Z) (es : list MemTable.entry) (edit edit' : VersionEdit) : Prop :=
  (es = [] /\ edit' = edit) \/
  exists l r, l ≡ₚ es /\ sorted_entries l /\ table_of (entry_kv <$> l) r /\ Filename.files e !! TableFileName (dbname_ o) n = Some (contents (TableBuilder.file r)) /\
    edit' = AddFile edit 0 n (zlen (contents (TableBuilder.file r))) (TableBuilder.first_key_of (entry_kv <$> l)) (TableBuilder.last_key_of (entry_kv <$> l)).

Fixpoint dumps (e : Env) (n : Z) (chunks : list (list MemTable.entry)) (edit edit' : VersionEdit) : Prop :=
  match chunks with
  | [] => edit' = edit
  | es :: chunks => exists edit1, dumped e n es edit edit1 /\ dumps e (n + 1) chunks edit1 edit'
  end.

(** The tables recovery writes from [all] the entries of a log have sizes that a
    file can have. *)
Definition tables_fit (all : list MemTable.entry) : Prop :=
  (length all <= N)%nat /\ TableBuilder.data_cost (entry_kv <$> all) < 2 ^ 63 /\
  forall g r, (forall x, x ∈ g -> x ∈ entry_kv <$> all) -> (length g <= length all)%nat -> table_of g r -> zlen (contents (TableBuilder.file r)) < 2 ^ 64.

Lemma data_cost_perm (a b : list (bytes * bytes)) : a ≡ₚ b -> TableBuilder.data_cost a = TableBuilder.data_cost b.
Proof. unfold TableBuilder.data_cost. induction 1; cbn [foldr] in *; lia. Qed.

(** The rest of the state. *)
Record rv_same (s s' : Recovering) : Prop := {
  rs_max : max_sequence s' = max_sequence s;
  rs_log : rv_log s' = rv_log s;
  rs_last : last_seq (rv_versions s') = last_seq (rv_versions s);
  rs_save : save_manifest s' = save_manifest s
}.

Lemma WriteLevel0Table_ok m es a b fuel s : MemTable.holds m es -> tables_fit (a ++ es ++ b) -> (N < fuel)%nat -> env_io (env_ (rv_versions s)) = [] ->
  0 <= next_file (rv_versions s) < 2 ^ 64 - 1 ->
  exists s', WriteLevel0Table o topt m None with_env fuel s = Some (Status_OK, s') /\ next_file (rv_versions s') = next_file (rv_versions s) + 1 /\
    env_io (env_ (rv_versions s')) = [] /\ rv_same s s' /\ dumped (env_ (rv_versions s')) (next_file (rv_versions s)) es (rv_edit s) (rv_edit s') /\
    forall f, f <> TableFileName (dbname_ o) (next_file (rv_versions s)) -> Filename.files (env_ (rv_versions s')) !! f = Filename.files (env_ (rv_versions s)) !! f.
Proof.
  intros Hm (Hn & Hc & Hsz) Hf Hio Hnum. destruct (mem_scan m es Hm) as (l & Hp & Hso & Hsc). unfold WriteLevel0Table, NewFileNumber. cbn [env_ with_numbers].
  assert (Hnext : u64 (next_file (rv_versions s) + 1) = next_file (rv_versions s) + 1) by (apply u64_small; lia). destruct (decide (es = [])) as [->|Hne].
  - apply Permutation_nil_r in Hp. subst l. rewrite (BuildTable_empty _ _ _ _ (MkMemIter m None) _ _ Hsc Hio eq_refl). cbn [mbind option_bind]. cbn. eexists. split; [done|]. cbn. split_and!; [done|done|by split|by left|].
    intros f Hf'. by rewrite lookup_delete_ne.
  - assert (Hlen : length (entry_kv <$> l) = length es) by (by rewrite length_fmap, Hp).
    assert (Hcost : TableBuilder.data_cost (entry_kv <$> l) <= TableBuilder.data_cost (entry_kv <$> a ++ es ++ b)).
    { rewrite (data_cost_perm _ (entry_kv <$> es)) by (by rewrite Hp). rewrite !fmap_app, !TableBuilder.data_cost_app.
      pose proof (TableBuilder.data_cost_nonneg (entry_kv <$> a)). pose proof (TableBuilder.data_cost_nonneg (entry_kv <$> b)). lia. }
    rewrite !length_app in Hn.
    destruct (BuildTable_ok _ _ _ Hsc (env_ (rv_versions s)) (rv_cache s) (MkMemIter m None) (FileMetaData_new (next_file (rv_versions s)) 0 [] []) fuel) as (r & cache' & Hr & E & Hpos); try done; try lia.
    { intros E%fmap_nil_inv. subst l. apply Permutation_nil_l in Hp. done. }
    { intros r Hr. apply (Hsz (entry_kv <$> l)); [|rewrite Hlen, !length_app; lia|done]. intros x (y & -> & Hy)%list_elem_of_fmap. apply list_elem_of_fmap_2.
      apply elem_of_app. right. apply elem_of_app. left. by rewrite <- Hp. }
    rewrite E. cbn [mbind option_bind ok Status_OK file_size with_bounds andb]. rewrite (proj2 (Z.ltb_lt _ _) Hpos). cbn [mbind option_bind]. eexists. split; [done|]. cbn.
    split_and!; [done|done|by split| |intros f Hf'; by rewrite lookup_insert_ne].
    right. exists l, r. split_and!; [done|done|done| |done]. cbn. by rewrite lookup_insert_eq.
Qed.

(** Tables with other numbers come and go. *)
Lemma dumps_frame e e' chunks : forall n edit edit', (forall i, n <= i < n + zlen chunks -> Filename.files e' !! TableFileName (dbname_ o) i = Filename.files e !! TableFileName (dbname_ o) i) ->
  dumps e n chunks edit edit' -> dumps e' n chunks edit edit'.
Proof.
  induction chunks as [|es chunks IH]; intros n edit edit' Hsame; cbn [dumps]; [done|]. rewrite zlen_cons in Hsame. pose proof (zlen_nonneg chunks). intros (edit1 & Hd & Hds).
  exists edit1. split; [|apply IH; [intros i Hi; apply Hsame; lia|done]]. destruct Hd as [Hd|(l & r & D1 & D2 & D3 & D4 & D5)]; [by left|]. right. exists l, r. split_and!; try done. rewrite Hsame by lia. done.
Qed.

Lemma dumps_snoc e chunks es : forall n edit edit1 edit', dumps e n chunks edit edit1 -> dumped e (n + zlen chunks) es edit1 edit' -> dumps e n (chunks ++ [es]) edit edit'.
Proof.
  induction chunks as [|c chunks IH]; intros n edit edit1 edit'; cbn [dumps app].
  - rewrite zlen_nil, Z.add_0_r. intros -> Hd. by exists edit'.
  - rewrite zlen_cons. intros (edit2 & H2 & H3) Hd. exists edit2. split; [done|]. apply (IH (n + 1) edit2 edit1); [done|]. by replace (n + 1 + zlen chunks) with (n + (1 + zlen chunks)) by lia.
Qed.

(** ** The replay *)

(** A log record: a batch with the number of its first operation. *)
Definition rec_bytes (g : Z * list WriteBatch.op) : bytes := WriteBatch.wire g.1 g.2.
Definition rec_entries (g : Z * list WriteBatch.op) : list MemTable.entry := WriteBatch.op_entries g.1 g.2.
Definition recs_entries (gs : list (Z * list WriteBatch.op)) : list MemTable.entry := concat (rec_entries <$> gs).

(** Records as the write path makes them: numbers go up. *)
Fixpoint recs_ok (from : Z) (gs : list (Z * list WriteBatch.op)) : Prop :=
  match gs with
  | [] => True
  | g :: gs => from <= g.1 /\ g.1 + zlen g.2 <= kMaxSequenceNumber + 1 /\ zlen g.2 < 2 ^ 31 /\ Forall WriteBatch.op_valid g.2 /\ recs_ok (g.1 + zlen g.2) gs
  end.

(** The highest number seen. *)
Definition max_after (m : Z) (gs : list (Z * list WriteBatch.op)) : Z := fold_left (fun m g => Z.max m (g.1 + zlen g.2 - 1)) gs m.

Context (usage : MemTable.t -> Z) (write_buffer_size : Z) (paranoid : bool).

(** What the memtable in the making holds. *)
Definition mem_holds (mem : option MemTable.t) (em : list MemTable.entry) : Prop := match mem with Some m => MemTable.holds m em | None => em = [] end.

(** The state during the replay: the tables of [chunks] are written, with numbers
    from [n0] on. *)
Record replaying (n0 : Z) (e0 : VersionEdit) (chunks : list (list MemTable.entry)) (s : Recovering) : Prop := {
  rp_io : env_io (env_ (rv_versions s)) = [];
  rp_next : next_file (rv_versions s) = n0 + zlen chunks;
  rp_tables : dumps (env_ (rv_versions s)) n0 chunks e0 (rv_edit s);
  rp_save : chunks <> [] -> save_manifest s = true
}.

Lemma replaying_dump n0 e0 chunks s m es a b fuel : replaying n0 e0 chunks s -> 0 <= n0 -> n0 + zlen chunks < 2 ^ 64 - 1 -> MemTable.holds m es -> tables_fit (a ++ es ++ b) -> (N < fuel)%nat -> save_manifest s = true ->
  exists s', WriteLevel0Table o topt m None with_env fuel s = Some (Status_OK, s') /\ replaying n0 e0 (chunks ++ [es]) s' /\ rv_same s s'.
Proof.
  intros [R1 R2 R3 R4] Hz0 Hn Hm Hfit Hf Hsave. destruct (WriteLevel0Table_ok m es a b fuel s Hm Hfit Hf R1) as (s' & E & W1 & W2 & W3 & W4 & W5); [pose proof (zlen_nonneg chunks); lia|].
  exists s'. split; [done|]. split; [|done]. split; [done|rewrite W1, R2, zlen_app; cbn; unfold zlen; cbn; lia| |intros _; by rewrite (rs_save _ _ W3)].
  apply (dumps_snoc _ _ _ _ _ (rv_edit s)); [|by rewrite <- R2]. apply (dumps_frame (env_ (rv_versions s))); [|done]. intros i Hi. apply W5. rewrite R2. intros E'.
  apply TableFileName_inj in E'; lia.
Qed.

Lemma with_max_replaying n0 e0 chunks s save m : replaying n0 e0 chunks s -> (save_manifest s = true -> save = true) -> replaying n0 e0 chunks (with_max s save m).
Proof. intros [R1 R2 R3 R4] Hs. split; [done|done|done|]. intros Hc. apply Hs. by apply R4. Qed.

(** One record. *)
Lemma log_record_ok g mem em n0 e0 chunks from s fuel compactions b : replaying n0 e0 chunks s -> 0 <= n0 -> n0 + zlen chunks < 2 ^ 64 - 1 -> mem_holds mem em -> 1 <= from ->
  Forall (fun x => MemTable.e_seq x < from) em -> recs_ok from [g] -> tables_fit (concat chunks ++ em ++ rec_entries g ++ b) -> (N < fuel)%nat -> 0 <= max_sequence s ->
  exists mem' em' chunks' s', recover_record o topt usage write_buffer_size paranoid (rec_bytes g) mem compactions fuel s
      = Some (Status_OK, mem', (compactions + (length chunks' - length chunks))%nat, s') /\
    replaying n0 e0 chunks' s' /\ mem_holds mem' em' /\ concat chunks' ++ em' = concat chunks ++ em ++ rec_entries g /\ (length chunks' <= S (length chunks))%nat /\ (length chunks <= length chunks')%nat /\
    Forall (fun x => MemTable.e_seq x < g.1 + zlen g.2) em' /\ max_sequence s' = Z.max (max_sequence s) (g.1 + zlen g.2 - 1) /\ rv_log s' = rv_log s /\ last_seq (rv_versions s') = last_seq (rv_versions s).
Proof.
  intros R Hz0 Hn Hm Hfrom Hem (G1 & G2 & G3 & G4 & _) Hfit Hf Hms. destruct g as [q ops]. cbn [fst snd] in *. pose proof max_u64. pose proof (zlen_nonneg ops). unfold recover_record.
  set (m0 := match mem with Some m => m | None => _ end). assert (Hm0 : MemTable.holds m0 em) by (destruct mem; [done|cbn in Hm; subst em; apply MemTable.make_holds]).
  destruct (InsertInto_wire m0 em ops q Hm0 G4) as (m' & Ei & Hm'); [|lia|lia|done|].
  { apply (Forall_impl _ _ _ Hem). cbn. lia. }
  unfold rec_bytes, WriteBatch.SetContents. cbn [fst snd]. rewrite Ei. cbn [mbind option_bind]. unfold MaybeIgnoreError. cbn [ok Status_OK orb negb].
  rewrite WriteBatch.Sequence_wire, WriteBatch.Count_wire, u64_small by lia.
  set (s1 := if max_sequence s <? q + zlen ops - 1 then _ else s). assert (Hs1 : replaying n0 e0 chunks s1 /\ max_sequence s1 = Z.max (max_sequence s) (q + zlen ops - 1) /\ rv_log s1 = rv_log s /\
    last_seq (rv_versions s1) = last_seq (rv_versions s)).
  { unfold s1. destruct (Z.ltb_spec (max_sequence s) (q + zlen ops - 1)); [split; [by apply with_max_replaying|]; cbn; split_and!; [lia|done|done]|split_and!; [done|lia|done|done]]. }
  clearbody s1. destruct Hs1 as (R1 & Ms1 & Ls1 & Vs1).
  assert (Hall : Forall (fun x => MemTable.e_seq x < q + zlen ops) (em ++ rec_entries (q, ops))).
  { apply Forall_app. split; [apply (Forall_impl _ _ _ Hem); cbn; lia|]. apply Forall_forall. intros x Hx%WriteBatch.op_entries_range. cbn in Hx. lia. }
  destruct (write_buffer_size <? usage m').
  - destruct (replaying_dump n0 e0 chunks (with_max s1 true (max_sequence s1)) m' (em ++ rec_entries (q, ops)) (concat chunks) b fuel) as (s' & -> & R' & [S1 S2 S3 S4]); try done.
    { by apply with_max_replaying. } { by rewrite <- app_assoc. }
    cbn [mbind option_bind]. exists None, [], (chunks ++ [em ++ rec_entries (q, ops)]), s'. split; [do 2 f_equal; rewrite length_app; cbn; f_equal; lia|]. split; [done|]. split; [done|].
    split; [by rewrite concat_app; cbn; rewrite !app_nil_r|]. rewrite length_app. cbn [length]. split_and!; [lia|lia|constructor|rewrite S1; cbn; lia|rewrite S2; cbn; done|rewrite S3; cbn; done].
  - exists (Some m'), (em ++ rec_entries (q, ops)), chunks, s1. split; [do 2 f_equal; f_equal; lia|]. split_and!; [done|done|done|lia|lia|done|done|done|done].
Qed.

Lemma quiet_reports r r' st : reports r' = reports r -> note_reports paranoid (length (reports r)) r' st = st.
Proof. intros E. unfold note_reports. by rewrite E, drop_all. Qed.

Lemma recover_loop_ok gs : forall r r' fuel mem em n0 e0 chunks from s tf compactions b, clean_reads r (rec_bytes <$> gs) r' -> (unread r < fuel)%nat ->
  replaying n0 e0 chunks s -> 0 <= n0 -> n0 + zlen chunks + zlen gs < 2 ^ 64 - 1 -> mem_holds mem em -> 1 <= from ->
  Forall (fun x => MemTable.e_seq x < from) em -> recs_ok from gs -> tables_fit (concat chunks ++ em ++ recs_entries gs ++ b) -> (N < tf)%nat -> 0 <= max_sequence s ->
  exists mem' em' chunks' s', recover_loop o topt usage write_buffer_size paranoid fuel r Status_OK mem compactions tf s
      = Some (Status_OK, mem', (compactions + (length chunks' - length chunks))%nat, s') /\
    replaying n0 e0 chunks' s' /\ mem_holds mem' em' /\ concat chunks' ++ em' = concat chunks ++ em ++ recs_entries gs /\ (length chunks <= length chunks')%nat /\
    zlen chunks' <= zlen chunks + zlen gs /\ max_sequence s' = max_after (max_sequence s) gs /\ rv_log s' = rv_log s /\ last_seq (rv_versions s') = last_seq (rv_versions s).
Proof.
  induction gs as [|g gs IH]; intros r r' fuel mem em n0 e0 chunks from s tf compactions b Hcl Hfuel R Hz0 Hn Hm Hfrom Hem Hok Hfit Hf Hms; (destruct fuel as [|fuel]; [lia|]); cbn [recover_loop].
  - inversion Hcl as [? ? Er Erep|]; subst. rewrite Er. cbn [mbind option_bind]. rewrite (quiet_reports _ _ _ Erep). cbn [andb]. exists mem, em, chunks, s.
    split; [do 2 f_equal; f_equal; lia|]. change (recs_entries []) with (@nil MemTable.entry). rewrite app_nil_r. split_and!; try done. rewrite zlen_nil. lia.
  - inversion Hcl as [|? ? r1 ? ? Er Erep Hun Hcl']; subst. rewrite Er. cbn [mbind option_bind]. rewrite (quiet_reports _ _ _ Erep). cbn [andb ok Status_OK].
    assert (Hsize : zlen (rec_bytes g) <? 12 = false).
    { apply Z.ltb_ge. pose proof (wire_size g.1 g.2) as Hw. unfold WriteBatch.ByteSize in Hw. pose proof (zlen_nonneg g.2). unfold rec_bytes. lia. }
    rewrite Hsize. destruct Hok as (G1 & G2 & G3 & G4 & G5). change (recs_entries (g :: gs)) with (rec_entries g ++ recs_entries gs) in *. rewrite <- app_assoc in Hfit.
    rewrite zlen_cons in Hn. pose proof (zlen_nonneg gs). pose proof (zlen_nonneg chunks). pose proof (zlen_nonneg g.2).
    destruct (log_record_ok g mem em n0 e0 chunks from s tf compactions (recs_entries gs ++ b) R Hz0) as (mem1 & em1 & chunks1 & s1 & -> & R1 & M1 & C1 & L1 & L1' & E1 & X1 & Lg1 & V1); try done; [lia|].
    cbn [mbind option_bind ok Status_OK negb].
    destruct (IH r1 r' fuel mem1 em1 n0 e0 chunks1 (g.1 + zlen g.2) s1 tf (compactions + (length chunks1 - length chunks))%nat b) as (mem2 & em2 & chunks2 & s2 & E2 & R2 & M2 & C2 & L2 & L2' & X2 & Lg2 & V2);
      try done; [lia|unfold zlen in *; lia|lia| |lia|].
    { by rewrite app_assoc, C1, <- !app_assoc. }
    exists mem2, em2, chunks2, s2. rewrite E2. split; [do 2 f_equal; f_equal; lia|]. split_and!; try done; [by rewrite C2, app_assoc, C1, <- !app_assoc|lia|rewrite zlen_cons; unfold zlen in *; lia|by rewrite X2, X1|congruence|congruence].
Qed.

(** ** [RecoverLogFile] *)


Definition log_bytes (gs : list (Z * list WriteBatch.op)) (bs : bytes) : Prop := exists off, log_of 0 (rec_bytes <$> gs) bs off.

Lemma take_entries m gs : recs_entries gs = recs_entries (take m gs) ++ recs_entries (drop m gs).
Proof. unfold recs_entries. by rewrite <- concat_app, <- fmap_app, take_drop. Qed.

Lemma recs_ok_take m gs : forall from, recs_ok from gs -> recs_ok from (take m gs).
Proof. revert m. induction gs as [|g gs IH]; intros [|m] from; cbn; try done. intros (G1 & G2 & G3 & G4 & G5). split_and!; try done. by apply IH. Qed.

(** What is read of the log after a crash. *)
Lemma read_cut_log gs bs off k : log_of 0 (rec_bytes <$> gs) bs off -> Forall bytes_ok (rec_bytes <$> gs) ->
  exists m r', clean_reads (Reader_new (SFile (take k bs) []) true true 0) (rec_bytes <$> take m gs) r' /\ recovered 0 (rec_bytes <$> gs) (take k bs) m.
Proof.
  intros Hlog Hb. assert (Hc : forall rs bs off, log_of 0 rs bs off -> exists o', log_of kBlockSize rs bs o').
  { intros rs bs' off' Hl. destruct rs; [inversion Hl; subst; eexists; constructor|]. eexists. by eapply (log_of_congruent 0). }
  destruct (Hc _ _ _ Hlog) as [o' Hlog'].
  destruct (ReadAll_log (rec_bytes <$> gs) kBlockSize bs o' (Reader_new (SFile (take k bs) []) true true 0) (take k bs) (drop k bs)
    (S (unread (Reader_new (SFile (take k bs) []) true true 0))) Hlog' (Reader_new_at_pos _ _ _) (take_drop _ _) Hb block_end_ok ltac:(lia)) as (m & r' & _ & _ & [Hm Hrec] & Hcl).
  exists m, r'. rewrite fmap_take. split; [done|]. split; [done|]. intros j bs' off' Hj [o2 Hl]%Hc. by apply (Hrec j bs' o2).
Qed.

(** The end of [RecoverLogFile]: the log goes on, or the memtable is written. *)
Lemma finish_recovery_ok n last_log chunks em mem s s1 gs b tf : replaying (next_file (rv_versions s)) (rv_edit s) chunks s1 -> mem_holds mem em -> concat chunks ++ em = recs_entries gs -> rv_log s1 = None ->
  tables_fit (recs_entries gs ++ b) -> (N < tf)%nat -> 0 <= next_file (rv_versions s) -> next_file (rv_versions s) + zlen chunks < 2 ^ 64 - 1 ->
  exists chunks' em' s',
    (let '(reused, s1) :=
        if reuse_logs o && last_log && (length chunks =? 0)%nat then
          let '(reuse, e) := reuse_log (env_ (rv_versions s1)) (LogFileName (dbname_ o) n) in
          let s1 := with_rv s1 (with_env (rv_versions s1) e) (rv_pending s1) (rv_cache s1) (rv_edit s1) in
          if reuse then
            let c := default [] (Filename.files e !! LogFileName (dbname_ o) n) in
            let m := match mem with Some m => m | None => MemTable.Ref MemTable.make end in
            (true, MkRecovering _ (rv_versions s1) (rv_pending s1) (rv_cache s1) (rv_edit s1) (save_manifest s1) (max_sequence s1)
               (Some (Writer_reopen (WFile c []) (zlen c), n, m)))
          else (false, s1)
        else (false, s1) in
      match (if (reused : bool) then None else mem) with
      | Some m => WriteLevel0Table o topt m None with_env tf (with_max s1 true (max_sequence s1))
      | None => Some (Status_OK, s1)
      end) = Some (Status_OK, s') /\
    concat chunks' ++ em' = recs_entries gs /\ dumps (env_ (rv_versions s')) (next_file (rv_versions s)) chunks' (rv_edit s) (rv_edit s') /\ (chunks' <> [] -> save_manifest s' = true) /\
    match rv_log s' with Some (_, number, mem) => number = n /\ chunks' = [] /\ MemTable.holds mem em' | None => em' = [] end /\ max_sequence s' = max_sequence s1.
Proof.
  intros R Hm Hcat Hlog Hfit Hf Hz0 Hn.
  assert (Hdump : forall s2, replaying (next_file (rv_versions s)) (rv_edit s) chunks s2 -> rv_log s2 = None -> max_sequence s2 = max_sequence s1 ->
    exists chunks' em' s', match mem with Some m => WriteLevel0Table o topt m None with_env tf (with_max s2 true (max_sequence s2)) | None => Some (Status_OK, s2) end = Some (Status_OK, s') /\
    concat chunks' ++ em' = recs_entries gs /\ dumps (env_ (rv_versions s')) (next_file (rv_versions s)) chunks' (rv_edit s) (rv_edit s') /\ (chunks' <> [] -> save_manifest s' = true) /\
    match rv_log s' with Some (_, number, mem) => number = n /\ chunks' = [] /\ MemTable.holds mem em' | None => em' = [] end /\ max_sequence s' = max_sequence s1).
  { intros s2 R2 Hl2 Hx2. destruct mem as [m|].
    - destruct (replaying_dump (next_file (rv_versions s)) (rv_edit s) chunks (with_max s2 true (max_sequence s2)) m em (concat chunks) b tf) as (s' & -> & R' & [S1 S2 S3 S4]); try done.
      { by apply with_max_replaying. } { by rewrite app_assoc, Hcat. }
      exists (chunks ++ [em]), [], s'. split; [done|]. split; [by rewrite concat_app; cbn; rewrite !app_nil_r|]. split; [apply R'|]. split; [apply R'|]. rewrite S2, S1. cbn. by rewrite Hl2, Hx2.
    - cbn in Hm. subst em. exists chunks, [], s2. split; [done|]. split; [done|]. split; [apply R2|]. split; [apply R2|]. by rewrite Hl2, Hx2. }
  destruct (reuse_logs o && last_log && (length chunks =? 0)%nat) eqn:Eg; [|by apply Hdump]. apply andb_true_iff in Eg as [_ Eg%Nat.eqb_eq]. apply length_zero_iff_nil in Eg. subst chunks.
  assert (Hre : exists b', reuse_log (env_ (rv_versions s1)) (LogFileName (dbname_ o) n) = (b', env_ (rv_versions s1))).
  { unfold reuse_log, env_op. destruct (env_ (rv_versions s1)) as [fs io] eqn:Ee. pose proof (rp_io _ _ _ _ R) as Hio. rewrite Ee in Hio. cbn in Hio. subst io. cbn. case_bool_decide; by eexists. }
  destruct Hre as (b' & ->). destruct b'; [|apply Hdump; [|done|done]; destruct R as [R1 R2 R3 R4]; by split].
  exists [], em. eexists. split; [done|]. cbn. split; [done|]. split; [apply R|]. split; [done|]. split; [|done]. split; [done|]. split; [done|].
  destruct mem; [done|]. cbn in Hm. subst em. apply MemTable.make_holds.
Qed.

(** Recovery of a log.  Let the log of the write path be cut anywhere (a crash)
    and nothing fail while it is read.  Whatever memory the memtables use, how
    large they may get, whether checks are paranoid and logs are reused,
    [RecoverLogFile] succeeds and restores exactly the batches whose records are
    wholly in the file, in order: first those in the tables of [chunks], each the
    sorted table of its entries with a new number and added to level 0 by the edit,
    then those of the memtable that goes on with the log.  The highest sequence
    number is that of the last batch restored. *)
Lemma RecoverLogFile_ok gs bs k n last_log fuel tf s : log_bytes gs bs -> Forall bytes_ok (rec_bytes <$> gs) ->
  env_io (env_ (rv_versions s)) = [] -> Filename.files (env_ (rv_versions s)) !! LogFileName (dbname_ o) n = Some (take k bs) -> rv_log s = None ->
  recs_ok 1 gs -> tables_fit (recs_entries gs) -> (N < tf)%nat -> (length bs < fuel)%nat -> 0 <= max_sequence s ->
  0 <= next_file (rv_versions s) -> next_file (rv_versions s) + zlen gs + 1 < 2 ^ 64 - 1 ->
  exists m chunks em s', RecoverLogFile o topt usage write_buffer_size paranoid n last_log fuel tf s = Some (Status_OK, s') /\
    recovered 0 (rec_bytes <$> gs) (take k bs) m /\ concat chunks ++ em = recs_entries (take m gs) /\
    dumps (env_ (rv_versions s')) (next_file (rv_versions s)) chunks (rv_edit s) (rv_edit s') /\ (chunks <> [] -> save_manifest s' = true) /\
    match rv_log s' with Some (_, number, mem) => number = n /\ chunks = [] /\ MemTable.holds mem em | None => em = [] end /\
    max_sequence s' = max_after (max_sequence s) (take m gs).
Proof.
  intros [off Hlog] Hbytes Hio Hfile Hrl Hok Hfit Hf Hfuel Hms Hz0 Hn. unfold RecoverLogFile, NewSequentialFile. rewrite Hio. cbn [next_io]. rewrite Hfile.
  destruct (read_cut_log gs bs off k Hlog Hbytes) as (m & r' & Hcl & Hrec). pose proof (take_entries m gs) as Hsplit.
  set (s0 := with_rv s _ _ _ _). assert (R0 : replaying (next_file (rv_versions s)) (rv_edit s) [] s0) by (split; cbn; [done|rewrite zlen_nil; lia|done|done]).
  destruct (recover_loop_ok (take m gs) (Reader_new (SFile (take k bs) []) true true 0) r' fuel None [] (next_file (rv_versions s)) (rv_edit s) [] 1 s0 tf 0%nat (recs_entries (drop m gs)))
    as (mem & em & chunks & s1 & E & R1 & M1 & C1 & _ & L1 & X1 & Lg1 & _); try done; [| |by apply recs_ok_take|by cbn; rewrite <- Hsplit|].
  { unfold unread. cbn. rewrite length_take. lia. }
  { pose proof (zlen_nonneg gs). rewrite zlen_nil. unfold zlen in *. rewrite length_take. lia. }
  rewrite E. cbn [mbind option_bind ok Status_OK andb]. cbn [length] in E |- *. rewrite Nat.add_0_l, Nat.sub_0_r. cbn in C1.
  assert (Hlen : next_file (rv_versions s) + zlen chunks < 2 ^ 64 - 1) by (unfold zlen in *; rewrite length_take in L1; cbn in L1; lia).
  destruct (finish_recovery_ok n last_log chunks em mem s s1 (take m gs) (recs_entries (drop m gs)) tf) as (chunks' & em' & s' & E' & F1 & F2 & F3 & F4 & F5); try done; [by rewrite Lg1|by rewrite <- Hsplit|].
  exists m, chunks', em', s'. split; [exact E'|]. split_and!; [done|done|done|done|done|]. by rewrite F5, X1.
Qed.
End Tables.
