(* ===== verification/WriteRecovery.v ===== *)
(** * WriteRecovery: acknowledged writes survive a crash

    The write path of DbWrite.v composed with the recovery of DbRecover.v: in runs
    without failures of the log, the log file holds one record for each group in
    the memtable, and recovery from any prefix of the file restores whole groups,
    in order. *)
From stdpp Require Import gmap sorting.
From S2P Require Import Prelude Coding Crc32c Status Comparator DbFormat Filename TableFormat Block Iterators FilterBlock TableBuilder SkipList MemTable WriteBatch Log.
From S2P Require Import VersionEdit Version TableLookup VersionGet VersionBuilder Manifest VersionSet VersionApply DbCompact DbWrite WriteGroups DbRecover RecoverLogs.

#[local] Existing Instances BytewiseComparator BytewiseLaws.

(** ** Records in order *)

Fixpoint recs_last (from : Z) (gs : list (Z * list WriteBatch.op)) : Z := match gs with [] => from | g :: gs => recs_last (g.1 + zlen g.2) gs end.

Lemma recs_ok_snoc gs g : forall from, recs_ok from gs -> recs_last from gs <= g.1 -> recs_ok g.1 [g] -> recs_ok from (gs ++ [g]) /\ recs_last from (gs ++ [g]) = g.1 + zlen g.2.
Proof.
  induction gs as [|g' gs IH]; intros from; cbn [recs_ok recs_last app].
  - intros _ Hle (G1 & G2 & G3 & G4 & _). by split_and!.
  - intros (G1 & G2 & G3 & G4 & G5) Hle Hg. destruct (IH _ G5 Hle Hg) as [I1 I2]. by split_and!.
Qed.

Lemma recs_entries_below gs : forall from e, recs_ok from gs -> e ∈ recs_entries gs -> MemTable.e_seq e < recs_last from gs.
Proof.
  assert (Hmono : forall gs from, recs_ok from gs -> from <= recs_last from gs).
  { clear. induction gs as [|g gs IH]; intros from; cbn; [lia|]. intros (G1 & _ & _ & _ & G5%IH). pose proof (zlen_nonneg g.2). lia. }
  induction gs as [|g gs IH]; intros from e; cbn [recs_ok recs_last]; [by intros _ ?%elem_of_nil|]. intros (G1 & _ & _ & _ & G5) He.
  change (recs_entries (g :: gs)) with (rec_entries g ++ recs_entries gs) in He. apply elem_of_app in He as [He|He]; [|by apply (IH _ _ G5)].
  apply WriteBatch.op_entries_range in He. specialize (Hmono gs _ G5). lia.
Qed.

(** The bytes a client hands in. *)
Definition op_bytes (o : WriteBatch.op) : Prop := match o with WriteBatch.OpPut k v => bytes_ok k /\ bytes_ok v | WriteBatch.OpDelete k => bytes_ok k end.

#[export] Instance op_bytes_dec o : Decision (op_bytes o).
Proof. destruct o; cbn; apply _. Defined.

Lemma length_prefixed_bytes v : zlen v < 2 ^ 32 -> bytes_ok v -> bytes_ok (length_prefixed v).
Proof. intros Hz Hv. unfold length_prefixed. apply bytes_ok_app. split; [|done]. apply EncodeVarint32_ok. pose proof (zlen_nonneg v). lia. Qed.

Lemma record_bytes o : WriteBatch.op_ok o -> op_bytes o -> bytes_ok (WriteBatch.record o).
Proof.
  destruct o as [k v|k]; cbn [WriteBatch.op_ok op_bytes WriteBatch.record].
  - intros [? ?] [? ?]. apply bytes_ok_app. split; [by repeat constructor|]. apply bytes_ok_app. split; by apply length_prefixed_bytes.
  - intros ? ?. apply bytes_ok_app. split; [by repeat constructor|]. by apply length_prefixed_bytes.
Qed.

Lemma wire_bytes q ops : Forall WriteBatch.op_valid ops -> Forall op_bytes ops -> bytes_ok (WriteBatch.wire q ops).
Proof.
  intros Hv Hb. unfold WriteBatch.wire. apply bytes_ok_app. split; [apply EncodeFixed64_ok|]. apply bytes_ok_app. split; [apply EncodeFixed32_ok|].
  induction Hv as [|o ops Ho _ IH]; [constructor|]. apply Forall_cons in Hb as [Hb Hbs]. cbn [map concat]. apply bytes_ok_app. split; [|by apply IH]. apply record_bytes; [by apply WriteBatch.op_valid_ok|done].
Qed.

(** ** A memtable holds one list *)

Lemma linked_det {K} (sl : SkipList.t K) j c1 : forall x c2, SkipList.linked sl j x c1 -> SkipList.linked sl j x c2 -> c1 = c2.
Proof.
  induction c1 as [|y c1 IH]; intros x [|y2 c2]; cbn; [done|intros -> [? _]; done|intros [-> _] ?; done|]. intros [E1 H1] [E2 H2]. rewrite E1 in E2. injection E2 as <-. f_equal. by apply (IH y).
Qed.

Lemma represents_det {K} (null : K) cmp valid sl ks1 ks2 : SkipList.represents null cmp valid sl ks1 -> SkipList.represents null cmp valid sl ks2 -> ks1 = ks2.
Proof.
  intros (lh1 & l1 & W1 & ->) (lh2 & l2 & W2 & ->). f_equal. pose proof (SkipList.wf_linked _ _ _ _ _ _ W1 0%nat ltac:(vm_compute; lia)) as L1. pose proof (SkipList.wf_linked _ _ _ _ _ _ W2 0%nat ltac:(vm_compute; lia)) as L2.
  rewrite (SkipList.chain_0 _ _ _ _ _ (SkipList.wf_nodes _ _ _ _ _ _ W1)) in L1. rewrite (SkipList.chain_0 _ _ _ _ _ (SkipList.wf_nodes _ _ _ _ _ _ W2)) in L2. by eapply linked_det.
Qed.

Lemma enc_inj a b : MemTable.entry_ok a -> MemTable.entry_ok b -> MemTable.enc a = MemTable.enc b -> a = b.
Proof.
  intros Ha Hb. rewrite !MemTable.enc_eq by done. intros E. destruct Ha as (_ & Hsa & Hka & Hva), Hb as (_ & Hsb & Hkb & Hvb).
  assert (Hl : forall e, zlen (MemTable.e_key e) + 8 < 2 ^ 32 -> zlen (MemTable.e_ikey e) < 2 ^ 32) by (intros e ?; unfold MemTable.e_ikey; by rewrite MemTable.zlen_ikey).
  apply (f_equal GetLengthPrefixedSlice) in E. rewrite !GetLengthPrefixedSlice_Put in E by auto. injection E as Ek Ev.
  apply (f_equal (fun x => GetLengthPrefixedSlice (x ++ []))) in Ev. rewrite !GetLengthPrefixedSlice_Put in Ev by done. injection Ev as Ev.
  unfold MemTable.e_ikey in Ek. pose proof (f_equal ExtractUserKey Ek) as Eu. apply (f_equal ExtractTag) in Ek. rewrite !ExtractUserKey_ikey in Eu. rewrite !ExtractTag_ikey in Ek by (by apply Pack_range).
  rewrite !Pack_eq in Ek by done. destruct a as [sa ta ka va], b as [sb tb kb vb]. cbn in *. subst.
  pose proof (value_type_code_range ta). pose proof (value_type_code_range tb). assert (sa = sb) as -> by lia. assert (Et : value_type_code ta = value_type_code tb) by lia. by destruct ta, tb.
Qed.

Lemma holds_det m a b : MemTable.holds m a -> MemTable.holds m b -> a = b.
Proof.
  intros (A1 & A2 & ks & A3 & A4) (B1 & B2 & ks' & B3 & B4). pose proof (represents_det _ _ _ _ _ _ A3 B3) as <-.
  assert (Hp : map MemTable.enc a ≡ₚ map MemTable.enc b) by (by rewrite <- A4). apply Permutation_map_inv in Hp as (b' & E & Hp).
  assert (a = b') as <-.
  { assert (B1' : Forall MemTable.entry_ok b') by (by rewrite <- Hp). clear -A1 B1' E. revert b' B1' E. induction A1 as [|x a Hx _ IH]; intros [|y b']; cbn; try done.
    intros [Hy Hb]%Forall_cons [= E1 E2]. f_equal; [by apply enc_inj|by apply IH]. }
  eapply (StronglySorted_unique_strong (fun x y => MemTable.e_seq x < MemTable.e_seq y)); [|done|done|done]. intros x y _ _ H1 H2. lia.
Qed.

(** ** The log has what the memtable has *)

(** The number the next group gets at least. *)
Definition next_seq (d : Db) : Z := match phase d with Logged _ _ _ _ ls => ls + 1 | _ => last_seq (DbWrite.versions_ d) + 1 end.

Section Runs.
Context `{!Crc32c}.

(** The log file of [d] has the records [gs], whole, and the memtable their
    entries. *)
Record logged (d : Db) (gs : list (Z * list WriteBatch.op)) : Prop := {
  lg_file : exists bs off, log_ d = Log.MkWriter (WFile bs []) off InitTypeCrc /\ log_of 0 (rec_bytes <$> gs) bs off /\ offset_ok off;
  lg_mem : MemTable.holds (DbWrite.mem_ d) (recs_entries gs);
  lg_ok : recs_ok 1 gs;
  lg_last : recs_last 1 gs <= next_seq d;
  lg_bytes : Forall bytes_ok (rec_bytes <$> gs)
}.

Lemma logged_same d d' gs : logged d gs -> log_ d' = log_ d -> DbWrite.mem_ d' = DbWrite.mem_ d -> next_seq d' = next_seq d -> logged d' gs.
Proof. intros [G1 G2 G3 G4 G5] E1 E2 E3. split; [by rewrite E1|by rewrite E2|done|by rewrite E3|done]. Qed.

Lemma logged_new d : log_ d = Log.Writer_new (WFile [] []) -> MemTable.holds (DbWrite.mem_ d) [] -> 1 <= next_seq d -> logged d [].
Proof. intros E Em Hn. split; [|done|done|done|constructor]. exists [], 0. split; [done|]. split; [constructor|]. split; vm_compute; discriminate. Qed.

Lemma finish_write_keeps d last st d' : finish_write d last st = Some d' -> log_ d' = log_ d /\ DbWrite.mem_ d' = DbWrite.mem_ d /\ next_seq d' = last_seq (DbWrite.versions_ d) + 1.
Proof. unfold finish_write. destruct (pop_writers _ _ _ _) as [[ws rs]|]; [|done]. by intros [= <-]. Qed.

Lemma start_group_keeps d st d' : start_group d st = Some d' -> log_ d' = log_ d /\ DbWrite.mem_ d' = DbWrite.mem_ d /\ next_seq d' = last_seq (DbWrite.versions_ d) + 1.
Proof.
  unfold start_group. destruct (writers_ d) as [|w ws]; [done|]. destruct (ok st); [|apply finish_write_keeps]. destruct (w_batch w); [|apply finish_write_keeps].
  destruct (BuildBatchGroup _ _) as [[[u tmp] lw]|]; [|done]. cbn [mbind option_bind]. intros [= <-]. by destruct tmp.
Qed.

Lemma making_next d force delay : phase d = MakingRoom force delay -> next_seq d = last_seq (DbWrite.versions_ d) + 1.
Proof. unfold next_seq. by intros ->. Qed.

(** ** Steps *)

Context (last0 : Z) (es0 : list MemTable.entry) (Hlast0 : 0 <= last0) (fl : list MemTable.t) (rqs : list (DbWrite.Writer * list WriteBatch.op)) (Hmax : last0 + zlen (rq_ops rqs) <= kMaxSequenceNumber).
Context (Hbytes : Forall (fun r => Forall op_bytes r.2) rqs).

Lemma pending_bytes d cs a b extra : write_inv last0 es0 rqs fl d cs (a ++ b) extra -> Forall op_bytes (rq_ops a).
Proof.
  intros I. unfold rq_ops. apply Forall_concat, Forall_fmap, Forall_forall. intros r Hr. rewrite Forall_forall in Hbytes.
  assert (Hin : rq_view r ∈ rq_view <$> rqs).
  { rewrite (wi_order _ _ _ _ _ _ _ _ I). apply elem_of_app. right. apply list_elem_of_fmap_2, elem_of_app. by left. }
  apply list_elem_of_fmap in Hin as (r' & E & Hr'). specialize (Hbytes _ Hr'). cbn. unfold rq_view in E. injection E as _ ->. done.
Qed.

(** A group is logged and then applied. *)
Lemma write_group_logged d d' cs pend extra gs updates sync in_tmp last lseq : write_inv last0 es0 rqs fl d cs pend extra -> logged d gs ->
  phase d = Logging updates in_tmp last lseq -> write_group d updates sync in_tmp last lseq = Some d' -> exists gs', logged d' gs'.
Proof.
  intros I [(bs & off & L1 & L2 & L3) G2 G3 G4 G5] Hph. pose proof (wi_phase _ _ _ _ _ _ _ _ I) as Hp. unfold phase_ok in Hp. rewrite Hph in Hp.
  destruct Hp as (-> & _ & n & r & pend' & -> & Hn & Elast & Eup & Eseq & Hz). set (g := (last_seq (DbWrite.versions_ d) + 1, rq_ops (r :: take n pend'))).
  assert (Hval : Forall WriteBatch.op_valid (rq_ops (r :: take n pend'))).
  { pose proof (wi_requests _ _ _ _ _ _ _ _ I) as I3. rewrite (take_group r pend' n) in I3. apply Forall_app in I3 as [I3 _]. unfold rq_ops. apply Forall_concat, Forall_fmap.
    apply (Forall_impl _ _ _ I3). intros x [Hx _]. exact Hx. }
  destruct (pending_bound _ _ Hlast0 fl rqs Hmax d cs (r :: pend') [] (r :: take n pend') (drop n pend') I (take_group _ _ _)) as [B1 B2].
  assert (Hgb : bytes_ok (rec_bytes g)).
  { apply wire_bytes; [done|]. rewrite (take_group r pend' n) in I. by eapply pending_bytes. }
  unfold next_seq in G4. rewrite Hph in G4. destruct (AddRecord_spec bs off (rec_bytes g) L3) as (bs' & off' & Em & Ho & Ea).
  unfold write_group. rewrite L1. change (WriteBatch.Contents updates) with updates. rewrite Eup. change (WriteBatch.wire _ _) with (rec_bytes g). rewrite Ea. cbn [mbind option_bind].
  assert (Hsy : (if ok Status_OK && sync then let '(s, l) := log_Sync (Log.MkWriter (WFile (bs ++ bs') []) off' InitTypeCrc) in (s, negb (ok s), l)
     else (Status_OK, false, Log.MkWriter (WFile (bs ++ bs') []) off' InitTypeCrc)) = (Status_OK, false, Log.MkWriter (WFile (bs ++ bs') []) off' InitTypeCrc)) by (by destruct sync).
  rewrite Hsy. cbn [ok Status_OK].
  destruct (InsertInto_wire (DbWrite.mem_ d) (recs_entries gs) g.2 g.1 G2 Hval) as (m' & Ei & Hm'); [|unfold g; cbn [fst snd]; lia|unfold g; cbn [fst snd]; lia|done|].
  { apply Forall_forall. intros e He. pose proof (recs_entries_below gs 1 e G3 He). cbn. lia. }
  unfold rec_bytes at 1. rewrite Ei. cbn [mbind option_bind]. intros [= <-].
  destruct (recs_ok_snoc gs g 1 G3 G4) as [K1 K2]; [unfold g; cbn [recs_ok fst snd]; split_and!; [lia|lia|done|done|done]|].
  exists (gs ++ [g]). split; cbn.
  - exists (bs ++ bs'), off'. split; [done|]. split; [|done]. rewrite fmap_app. apply (log_of_app _ _ _ off); [done|]. cbn. rewrite <- (app_nil_r bs'). econstructor; [done|constructor].
  - unfold recs_entries. rewrite fmap_app, concat_app. cbn. by rewrite app_nil_r.
  - done.
  - rewrite K2. unfold next_seq, g. cbn [fst snd phase with_written]. lia.
  - rewrite fmap_app. apply Forall_app. split; [done|]. by constructor.
Qed.

Lemma write_step_logged usage size d d' cs pend extra gs : write_inv last0 es0 rqs fl d cs pend extra -> logged d gs -> write_step usage size d d' -> w_io (dest_ (log_ d')) = [] -> exists gs', logged d' gs'.
Proof.
  intros I G Hs Hio. pose proof (numbered_le _ _ _ (wi_numbered _ _ _ _ _ _ _ _ I)) as Hle. destruct Hs as [d w ws Hph Hq force|d d' force delay s Hph Hr Hst|d force delay Hph Hr|d d' force delay Hph Hr Hst|d force delay Hph Hr|
    d d' force delay o ios Hph Hr Hsw|d d1 d' force delay o ios s Hph Hr Hsw Hst|d d' w ws updates in_tmp last lseq Hph Hq Hw|d d' status se in_tmp last lseq Hph He|d imm bg vs Him El].
  - exists gs. apply (logged_same d); [done|done|done|]. unfold next_seq. by rewrite Hph.
  - exists gs. apply start_group_keeps in Hst as (E1 & E2 & E3). apply (logged_same d); [done|done|done|]. by rewrite (making_next _ _ _ Hph).
  - exists gs. apply (logged_same d); [done|done|done|]. by rewrite (making_next _ _ _ Hph).
  - exists gs. apply start_group_keeps in Hst as (E1 & E2 & E3). apply (logged_same d); [done|done|done|]. by rewrite (making_next _ _ _ Hph).
  - by exists gs.
  - exists []. unfold switch_memtable, NewFileNumber in Hsw. destruct (negb _); [done|]. destruct o as [|st got]; [|done]. injection Hsw as <-. cbn in Hio. subst ios.
    apply logged_new; [done|apply MemTable.make_holds|unfold next_seq; cbn; lia].
  - exists gs. apply start_group_keeps in Hst as (E1 & E2 & E3). unfold switch_memtable, NewFileNumber in Hsw. destruct (negb _); [done|]. destruct o as [|st got]; [done|]. injection Hsw as _ <-.
    apply (logged_same d); [done|done|done|]. rewrite E3, (making_next _ _ _ Hph). cbn. unfold ReuseFileNumber. by destruct (_ =? _).
  - by eapply write_group_logged.
  - exists gs. unfold end_group, VersionSet.SetLastSequence in He. destruct (_ <=? _); [|done]. cbn [mbind option_bind] in He. apply finish_write_keeps in He as (E1 & E2 & E3).
    apply (logged_same d); [done|by destruct in_tmp|by destruct in_tmp|]. rewrite E3. unfold next_seq. by rewrite Hph.
  - exists gs. apply (logged_same d); [done|done|done|]. unfold next_seq. cbn. by rewrite El.
Qed.
End Runs.

(** ** Runs *)

(** No write to the log fails. *)
Definition quiet_log (d : Db) : Prop := w_io (dest_ (log_ d)) = [].

Lemma write_run_logged `{!Crc32c} usage size d0 rqs fl d : fresh_db d0 [] -> log_ d0 = Log.Writer_new (WFile [] []) -> write_run usage size quiet_log d0 rqs fl d -> Forall request_ok rqs ->
  Forall (fun r => Forall op_bytes r.2) rqs -> last_seq (DbWrite.versions_ d0) + zlen (rq_ops rqs) <= kMaxSequenceNumber -> exists gs, logged d gs.
Proof.
  intros Hf Hl Hrun. induction Hrun as [|rqs fl d w ops Hrun IH Hw|rqs fl d d' Hrun IH Hs Hq]; intros Hr Hb Hm.
  - exists []. destruct Hf as [(_ & _ & Hp & _) [M1 _] [F1 _] _]. apply logged_new; [done|done|]. unfold next_seq. rewrite Hp. lia.
  - apply Forall_app in Hr as [Hr _]. apply Forall_app in Hb as [Hb _]. rewrite rq_ops_app, zlen_app in Hm. pose proof (zlen_nonneg (rq_ops [(w, ops)])).
    destruct IH as [gs G]; [done|done|lia|]. exists gs. by apply (logged_same d).
  - destruct (IH Hr Hb Hm) as [gs G]. destruct (write_run_ok usage size quiet_log d0 [] rqs fl d Hf Hrun Hr Hm) as (cs & pend & extra & I). destruct Hf as [_ _ [F1 _] _].
    by apply (write_step_logged _ [] F1 fl rqs Hm Hb usage size d d' cs pend extra gs).
Qed.

Lemma emits_pos `{!Crc32c} begin off d bs off' : emits begin off d bs off' -> (1 <= length bs)%nat.
Proof.
  assert (Hc : forall t d, (1 <= length (chunk off t d))%nat) by (intros t d'; unfold chunk, physical; rewrite !length_app, physical_header_length; lia).
  inversion 1; subst; [apply Hc|]. rewrite length_app. pose proof (Hc (fragment_type begin false) d1). lia.
Qed.

Lemma log_of_length `{!Crc32c} off rs bs off' : log_of off rs bs off' -> (length rs <= length bs)%nat.
Proof.
  induction 1 as [|off d rs b1 o1 b2 o2 He Hl IH]; [done|]. rewrite length_app. cbn [length]. pose proof (emits_pos _ _ _ _ _ He). lia.
Qed.

(** What the memtable holds is the newest of what was applied; the rest is in the
    memtables that were written out or are to be. *)
Lemma run_applied `{!Crc32c} usage size allowed d0 rqs fl d : fresh_db d0 [] -> write_run usage size allowed d0 rqs fl d -> Forall request_ok rqs ->
  last_seq (DbWrite.versions_ d0) + zlen (rq_ops rqs) <= kMaxSequenceNumber ->
  exists cs, told (results d) cs /\ exists old em extra, hold_all (fl ++ option_list (imm_ d)) old /\ old ++ em = applied_all cs ++ extra /\
    MemTable.holds (DbWrite.mem_ d) em /\ Forall (fun e => last_seq (DbWrite.versions_ d) < MemTable.e_seq e) extra.
Proof.
  intros Hf Hrun Hr Hm. destruct (write_run_ok usage size allowed d0 [] rqs fl d Hf Hrun Hr Hm) as (cs & pend & extra & I). exists cs. split; [apply I|].
  destruct (wi_mem _ _ _ _ _ _ _ _ I) as (old & ei & em & M0 & M1 & M2 & M3). exists (old ++ ei), em, extra. split; [|split; [by rewrite <- app_assoc|]; split; [done|]; by apply (extra_above _ _ _ _ _ _ _ _ I)].
  destruct (imm_ d) as [m|]; cbn [option_list]; [by apply hold_all_snoc|]. subst ei. by rewrite !app_nil_r.
Qed.

Section Recovery.
Context `{!Crc32c, !Snappy, !OutputCheck} {P : FilterPolicy} {PL : FilterPolicyLaws P} (o : VersionSet.Options) (topt : TableBuilder.Options) (N : nat).
Context (Hfilters : TableBuilder.filter_policy topt <> None -> (0 < filterNums)%nat /\ forall l, (length l <= N)%nat -> keys_ok l).
Context (Hopen : forall cache l n size md i0 i1, (oc_open cache l n size md i0 i1).1 = Status_OK).

(** C19. Acknowledged writes survive a crash.  Take any interleaving of the write
    queue with memtable switches and the background thread, in which no write to
    the log fails, and let the process stop in any state, with any part of the end
    of the log file lost.  The memtable had what the groups [cs] told OK applied,
    less what the memtables written out or to be written out had ([old]), and
    possibly the group being written; the log
    file has a record for each of its groups [gs].  [RecoverLogFile] then succeeds,
    whatever memory the memtables use and how large they may get, and restores the
    first [m] of these groups whole, where the records wholly in the file are the
    first [m], all of them when nothing is lost: first in sorted tables with new
    numbers, added to level 0 by the edit, then in the memtable that goes on with
    the log.  The highest sequence number is that of the last operation restored. *)
Theorem acknowledged_writes_recovered usage size usage' size' paranoid d0 rqs fl d es k n last_log fuel tf s :
  fresh_db d0 [] -> log_ d0 = Log.Writer_new (WFile [] []) -> write_run usage size quiet_log d0 rqs fl d -> Forall request_ok rqs -> Forall (fun r => Forall op_bytes r.2) rqs ->
  last_seq (DbWrite.versions_ d0) + zlen (rq_ops rqs) <= kMaxSequenceNumber -> MemTable.holds (DbWrite.mem_ d) es -> tables_fit topt N es ->
  let log := contents (dest_ (log_ d)) in
  Filename.files (env_ (rv_versions s)) !! LogFileName (dbname_ o) n = Some (take k log) -> env_io (env_ (rv_versions s)) = [] -> rv_log s = None -> 0 <= max_sequence s ->
  0 <= next_file (rv_versions s) -> next_file (rv_versions s) + zlen log + 1 < 2 ^ 64 - 1 -> (length log < fuel)%nat -> (N < tf)%nat ->
  exists cs old extra gs m chunks em s', told (results d) cs /\ hold_all (fl ++ option_list (imm_ d)) old /\ old ++ es = applied_all cs ++ extra /\ Forall (fun e => last_seq (DbWrite.versions_ d) < MemTable.e_seq e) extra /\
    log_bytes gs log /\ es = recs_entries gs /\ recovered 0 (rec_bytes <$> gs) (take k log) m /\ ((length log <= k)%nat -> m = length gs) /\
    RecoverLogFile o topt usage' size' paranoid n last_log fuel tf s = Some (Status_OK, s') /\ concat chunks ++ em = recs_entries (take m gs) /\
    dumps o topt (env_ (rv_versions s')) (next_file (rv_versions s)) chunks (rv_edit s) (rv_edit s') /\
    match rv_log s' with Some (_, number, mem) => number = n /\ chunks = [] /\ MemTable.holds mem em | None => em = [] end /\
    max_sequence s' = max_after (max_sequence s) (take m gs).
Proof.
  intros Hf Hl Hrun Hr Hb Hm Hes Hfit log Hfile Hio Hrl Hms Hz0 Hn Hfuel Htf.
  destruct (write_run_logged usage size d0 rqs fl d Hf Hl Hrun Hr Hb Hm) as [gs [(bs & off & G1 & G2 & _) M G3 _ G5]]. pose proof (holds_det _ _ _ M Hes) as Ees. subst es.
  assert (Elog : log = bs) by (unfold log; by rewrite G1). clearbody log. subst log. pose proof (log_of_length _ _ _ _ G2) as Hlen. rewrite length_fmap in Hlen.
  destruct (RecoverLogFile_ok o topt N Hfilters Hopen usage' size' paranoid gs bs k n last_log fuel tf s) as (m & chunks & em & s' & E & R1 & R2 & R3 & _ & R5 & R6); try done; [by exists off|unfold zlen in *; lia|].
  destruct (run_applied usage size quiet_log d0 rqs fl d Hf Hrun Hr Hm) as (cs & T & old & em' & extra & A0 & A1 & A2 & A3). rewrite (holds_det _ _ _ A2 M) in A1.
  exists cs, old, extra, gs, m, chunks, em, s'. split_and!; try done; [by exists off|]. intros Hk. destruct R1 as [Hm' R1]. rewrite length_fmap in *. rewrite take_ge in R1 by lia.
  specialize (R1 (length gs) bs off). rewrite <- fmap_take, take_ge in R1 by done. apply Nat.le_antisymm; [done|]. by apply R1.
Qed.
End Recovery.

(** ** An example: two groups, the second lost *)

Module RecoveryRuns.
Import WriteBatch WriteRuns.
#[local] Existing Instances crc_writes.
#[local] Instance policy_recovery : FilterPolicy := InternalPolicy [4; 8; 8; 0] 20.
#[local] Instance check_recovery : OutputCheck := {| oc_cache := unit; oc_open := fun c _ _ _ _ _ _ => (Status_OK, c) |}.

Definition quiet_start : Db := MkDb [] ∅ Waiting (Log.Writer_new (WFile [] [])) 6 MemTable.make None Status_OK Clear (example_set []).

(** The first two form a group and are told OK; the group of the fourth is in the
    log and in the memtable, and its writer has not been told. *)
Definition served : list (Writer * list op) := take 2 requests ++ drop 3 requests.
Definition after1 : Db := arrive (lead (arrive quiet_start (request 0))) (request 1).
Definition after2 : Db := leave (work (group after1)).
Definition stopped : Db := work (group (lead (arrive after2 (request 3)))).

Lemma quiet_step rqs d d' : write_run no_usage 4096 quiet_log quiet_start rqs [] d -> write_step no_usage 4096 d d' -> (w_io (dest_ (log_ d')), imm_ d) = ([], None) ->
  write_run no_usage 4096 quiet_log quiet_start rqs [] d'.
Proof. intros H1 H2 [= H3 H4]. assert (E : flushed_by d d' = []) by (unfold flushed_by; by rewrite H4). pose proof (run_step no_usage 4096 quiet_log quiet_start rqs [] d d' H1 H2 H3) as Hr. by rewrite E in Hr. Qed.

Lemma run_after1 : write_run no_usage 4096 quiet_log quiet_start (take 2 requests) [] after1.
Proof.
  apply (run_arrive no_usage 4096 quiet_log quiet_start (take 1 requests) [] (lead (arrive quiet_start (request 0))) (request 1)); [|by_decide].
  apply (quiet_step _ (arrive quiet_start (request 0))); [apply (run_arrive no_usage 4096 quiet_log quiet_start [] [] quiet_start (request 0)); [apply run_start|by_decide]| |reflexivity].
  apply (leads no_usage 4096 (arrive quiet_start (request 0)) (request 0) []); reflexivity.
Qed.

Lemma run_stopped : write_run no_usage 4096 quiet_log quiet_start served [] stopped.
Proof.
  assert (R2 : write_run no_usage 4096 quiet_log quiet_start (take 2 requests) [] after2).
  { apply (quiet_step _ (work (group after1))); [|apply leave_step; vm_compute; reflexivity|vm_compute; reflexivity]. apply (quiet_step _ (group after1)); [|apply work_step; vm_compute; reflexivity|vm_compute; reflexivity].
    apply (quiet_step _ after1); [exact run_after1|apply group_step; vm_compute; reflexivity|vm_compute; reflexivity]. }
  apply (quiet_step _ (group (lead (arrive after2 (request 3))))); [|apply work_step; vm_compute; reflexivity|vm_compute; reflexivity].
  apply (quiet_step _ (lead (arrive after2 (request 3)))); [|apply group_step; vm_compute; reflexivity|vm_compute; reflexivity].
  apply (quiet_step _ (arrive after2 (request 3))); [apply (run_arrive no_usage 4096 quiet_log quiet_start (take 2 requests) [] after2 (request 3)); [exact R2|by_decide]| |vm_compute; reflexivity].
  apply (leads no_usage 4096 (arrive after2 (request 3)) (request 3) []); vm_compute; reflexivity.
Qed.

Definition in_memory : list MemTable.entry := op_entries 101 (rq_ops (take 2 requests)) ++ op_entries 104 (rq_ops (drop 3 requests)).

Lemma same_table {A B} (x : option (option A * B)) a b s t : x = Some (Some a, s) -> x = Some (Some b, t) -> a = b.
Proof. intros -> E. by injection E. Qed.

Lemma stopped_holds : MemTable.holds (DbWrite.mem_ stopped) in_memory.
Proof.
  assert (Hval : forall rqs, Forall request_ok rqs -> Forall op_valid (rq_ops rqs)).
  { intros rqs Hr. unfold rq_ops. apply Forall_concat, Forall_fmap. apply (Forall_impl _ _ _ Hr). by intros r [Hr' _]. }
  destruct (InsertInto_wire MemTable.make [] (rq_ops (take 2 requests)) 101 MemTable.make_holds (Hval _ (Forall_take _ _ _ requests_ok))) as (m1 & E1 & H1); [constructor|lia|vm_compute; discriminate|reflexivity|].
  destruct (InsertInto_wire m1 _ (rq_ops (drop 3 requests)) 104 H1 (Hval _ (Forall_drop _ _ _ requests_ok))) as (m2 & E2 & H2); [by_decide|lia|vm_compute; discriminate|reflexivity|].
  assert (E1' : InsertInto (wire 101 (rq_ops (take 2 requests))) MemTable.make = Some (Some (DbWrite.mem_ after2), Status_OK)) by (vm_compute; reflexivity).
  rewrite (same_table _ _ _ _ _ E1 E1') in *.
  assert (E2' : InsertInto (wire 104 (rq_ops (drop 3 requests))) (DbWrite.mem_ after2) = Some (Some (DbWrite.mem_ stopped), Status_OK)) by (vm_compute; reflexivity).
  by rewrite <- (same_table _ _ _ _ _ E2 E2').
Qed.

Definition table_options : TableBuilder.Options := TableBuilder.MkOptions 0 true 20 2 kNoCompression None true 2 65536 65536 16.

(** Every table of at most [n] of the entries. *)
Fixpoint lists_upto {A} (xs : list A) (n : nat) : list (list A) :=
  match n with O => [[]] | S n => [] :: concat ((fun x => cons x <$> lists_upto xs n) <$> xs) end.

Lemma lists_upto_all {A} (xs : list A) n : forall l, (forall x, x ∈ l -> x ∈ xs) -> (length l <= n)%nat -> l ∈ lists_upto xs n.
Proof.
  induction n as [|n IH]; intros [|x l] Hin Hl; cbn [lists_upto length] in *; try lia; [by left|by left|]. right. apply elem_of_concat. exists (cons x <$> lists_upto xs n).
  split; [apply (list_elem_of_fmap_2 (fun x => cons x <$> lists_upto xs n)), Hin; by left|]. apply list_elem_of_fmap_2, IH; [intros y Hy; apply Hin; by right|lia].
Qed.

Definition size_fits (g : list (bytes * bytes)) : bool :=
  match TableBuilder.build_table (H1 := InternalKeyComparator) table_options (WFile [] []) g with Some (_, r) => zlen (contents (TableBuilder.file r)) <? 2 ^ 64 | None => true end.

Lemma in_memory_fits : tables_fit table_options 4 in_memory.
Proof.
  split; [vm_compute; lia|]. split; [vm_compute; reflexivity|]. intros g r Hin Hl E.
  assert (Hall : forallb size_fits (lists_upto (entry_kv <$> in_memory) 4) = true) by (vm_compute; reflexivity). rewrite forallb_forall in Hall.
  specialize (Hall g (proj1 (list_elem_of_In _ _) (lists_upto_all _ _ g Hin Hl))). unfold size_fits in Hall. rewrite E in Hall. by apply Z.ltb_lt.
Qed.
(** The last 3 bytes of the log are lost; every memtable is full. *)
Definition stopped_log : bytes := contents (dest_ (log_ stopped)).
Definition state_with_log (log : bytes) : Recovering :=
  MkRecovering _ (with_env (example_set []) (MkEnv {[LogFileName (dbname_ example_options) 6 := log]} [])) [] tt VersionEdit_new false 0 None.
Definition crash_state : Recovering := state_with_log (take (length stopped_log - 3) stopped_log).
Definition recovery : option (Status * Recovering) := RecoverLogFile example_options table_options (fun _ => 1) 0 true 6 true (S (length stopped_log)) 5 crash_state.

(** The group told OK is in table 8; the other is lost. *)
Lemma acknowledged_writes_recovered_witness :
  (fun i => results stopped !! i) <$> [1; 2; 4]%nat = [Some Status_OK; Some Status_OK; None] /\
  exists cs gs m chunks em s', told (results stopped) cs /\ in_memory = recs_entries gs /\ recovery = Some (Status_OK, s') /\ concat chunks ++ em = recs_entries (take m gs) /\
    dumps example_options table_options (env_ (rv_versions s')) 8 chunks VersionEdit_new (rv_edit s') /\
    max_sequence s' = 103 /\ (fun p => (p.1, number p.2)) <$> new_files_ (rv_edit s') = [(0, 8)].
Proof.
  split; [vm_compute; reflexivity|].
  destruct (acknowledged_writes_recovered (PL := example_filter_laws) example_options table_options 4 ltac:(done) ltac:(done) no_usage 4096 (fun _ => 1) 0 true quiet_start served [] stopped in_memory
    (length stopped_log - 3) 6 true (S (length stopped_log)) 5 crash_state) as (cs & old & extra & gs & m & chunks & em & s' & W1 & _ & _ & _ & _ & W2 & _ & _ & W3 & W4 & W5 & _ & _).
  - split; [done|split; [apply MemTable.make_holds|done]|split; [vm_compute; discriminate|constructor]|split; vm_compute; discriminate].
  - reflexivity.
  - exact run_stopped.
  - apply Forall_app. split; [exact (Forall_take _ _ _ requests_ok)|exact (Forall_drop _ _ _ requests_ok)].
  - by_decide.
  - vm_compute; discriminate.
  - exact stopped_holds.
  - exact in_memory_fits.
  - vm_compute; reflexivity.
  - reflexivity.
  - reflexivity.
  - vm_compute; discriminate.
  - vm_compute; discriminate.
  - vm_compute; reflexivity.
  - unfold stopped_log. lia.
  - lia.
  - exists cs, gs, m, chunks, em, s'. change (recovery = Some (Status_OK, s')) in W3. split; [exact W1|]. split; [exact W2|]. split; [exact W3|]. split; [exact W4|]. split; [exact W5|].
    assert (Hr : match recovery with Some (_, s) => max_sequence s = 103 /\ (fun p => (p.1, number p.2)) <$> new_files_ (rv_edit s) = [(0, 8)] | None => False end) by (vm_compute; split; reflexivity).
    rewrite W3 in Hr. exact Hr.
Defined.

(** The same crash with [reuse_logs]. *)
Definition reuse_options : VersionSet.Options := let o := example_options in
  VersionSet.MkOptions (dbname_ o) (comparator_name o) (max_file_size o) true (force_delete_level0_file o) (l0_base_ratio o) (size_ratio o) (force_disable_compaction o) (seek_compaction_ o).
Definition reused : option (Status * Recovering) := RecoverLogFile reuse_options table_options no_usage 4096 false 6 true (S (length stopped_log)) 5 crash_state.
Definition reused_writer : Log.Writer := match reused with Some (_, s) => match rv_log s with Some (w, _, _) => w | None => Log.Writer_new (WFile [] []) end | None => Log.Writer_new (WFile [] []) end.

(** Another write, another crash that loses nothing, and recovery. *)
Definition written_again : option (Status * Log.Writer) := AddRecord reused_writer (wire 104 (rq_ops (drop 3 requests))).
Definition second_log : bytes := match written_again with Some (_, w) => contents (dest_ w) | None => [] end.
Definition second_recovery (paranoid : bool) : option (Status * Recovering) :=
  RecoverLogFile example_options table_options no_usage 4096 paranoid 6 true (S (length second_log)) 5 (state_with_log second_log).

(** A reused log loses later writes.  Let the crash leave a part of a record
    at the end of the log.  With [reuse_logs], [RecoverLogFile] succeeds and goes on
    with the file as it is; a record that is then added, with success, follows the
    torn one in the same block.  After the next crash, that loses nothing, the
    reader takes the bytes of both for one damaged record and drops the rest of
    the block: the recovery that ignores errors succeeds without the acknowledged
    operation 104, and the paranoid one fails. *)
Example reused_log_loses_write :
  (exists s, reused = Some (Status_OK, s) /\ max_sequence s = 103 /\ (exists m, rv_log s = Some (reused_writer, 6, m))) /\
  (exists w, written_again = Some (Status_OK, w) /\ contents (dest_ w) = second_log) /\
  (exists s, second_recovery false = Some (Status_OK, s) /\ max_sequence s = 103 /\ (fun p => number p.2) <$> new_files_ (rv_edit s) = [8]) /\
  (exists st s, second_recovery true = Some (st, s) /\ ok st = false).
Proof.
  split; [|split; [|split]].
  - assert (Hr : match reused with Some (st, s) => st = Status_OK /\ max_sequence s = 103 /\ match rv_log s with Some (_, n, _) => n = 6 | None => False end | None => False end) by (vm_compute; repeat split).
    unfold reused_writer. destruct reused as [[st s]|]; [|destruct Hr]. destruct Hr as (-> & Hm & Hl). exists s. split; [done|]. split; [done|].
    destruct (rv_log s) as [[[w n] m]|]; [|destruct Hl]. subst n. by exists m.
  - assert (Hr : match written_again with Some (st, _) => st = Status_OK | None => False end) by (vm_compute; reflexivity).
    unfold second_log. destruct written_again as [[st w]|]; [|destruct Hr]. subst st. by exists w.
  - assert (Hr : match second_recovery false with Some (st, s) => st = Status_OK /\ max_sequence s = 103 /\ (fun p => number p.2) <$> new_files_ (rv_edit s) = [8] | None => False end) by (vm_compute; repeat split).
    destruct (second_recovery false) as [[st s]|]; [|destruct Hr]. destruct Hr as (-> & Hr). by exists s.
  - assert (Hr : match second_recovery true with Some (st, _) => ok st = false | None => False end) by (vm_compute; reflexivity).
    destruct (second_recovery true) as [[st s]|]; [|destruct Hr]. by exists st, s.
Qed.
End RecoveryRuns.
