(* ===== verification/ObsoleteFiles.v ===== *)
(** * ObsoleteFiles: garbage collection keeps what is needed

    The proofs about [DeleteObsoleteFiles] of DbRecover.v. *)
From stdpp Require Import gmap sorting.
From S2P Require Import Prelude Coding Crc32c Status Comparator DbFormat Filename TableFormat FilterBlock TableBuilder MemTable Log.
From S2P Require Import VersionEdit Version VersionGet VersionBuilder Manifest VersionSet VersionApply DbCompact DbRecover.

Section Obsolete.
Context `{!Crc32c, !OutputCheck} {user_comparator : Comparator} {L : ComparatorLaws user_comparator} (o : VersionSet.Options) (evict : oc_cache -> Z -> oc_cache).

(** The file of a name in the directory of the database. *)
Definition path (name : bytes) : bytes := dbname_ o ++ str "/" ++ name.

(** Files that are in use or that recovery would read: [numbers] are those of the
    files being written. *)
Definition needed (vs : VersionSet) (c : Z) (holders : list Z) (numbers : list Z) (number : Z) (type : FileType) : Prop :=
  match type with
  | kLogFile => log_number vs <= number \/ number = prev_log_number vs
  | kDescriptorFile => manifest_file_number_ vs <= number
  | kTableFile | kTempFile => number ∈ numbers \/ exists p l m, p ∈ c :: holders /\ m ∈ view vs p l /\ mnum m = number
  | kCurrentFile | kDBLockFile | kInfoLogFile => True
  end.

Lemma keep_needed vs c holders numbers n t : set_ok vs c holders -> keep_file vs (AddLiveFiles vs numbers) n t = true <-> needed vs c holders numbers n t.
Proof.
  intros Hok. pose proof (AddLiveFiles_exact vs c holders numbers n Hok) as Hl. destruct t; cbn [keep_file needed]; try done.
  all: rewrite ?orb_true_iff, ?Z.leb_le, ?Z.eqb_eq, ?bool_decide_eq_true; done.
Qed.

(** A name to delete. *)
Definition garbage (vs : VersionSet) (live : list Z) (name : bytes) : Prop := exists n t, ParseFileName name = Some (n, t) /\ keep_file vs live n t = false.

Lemma path_inj a b : path a = path b -> a = b.
Proof. unfold path. intros E. by apply app_inv_head, app_inv_head in E. Qed.

Lemma delete_obsolete_files vs live ec name : (delete_obsolete o evict vs live ec name).1 = ec.1 \/
  (garbage vs live name /\ (delete_obsolete o evict vs live ec name).1 = (Filename.DeleteFile ec.1 (path name)).2).
Proof.
  unfold delete_obsolete. destruct (ParseFileName name) as [[n t]|] eqn:E; [|by left]. destruct (keep_file vs live n t) eqn:Ek; [by left|]. right. split; [by exists n, t|done].
Qed.

Lemma delete_files e f g : Filename.files (Filename.DeleteFile e f).2 !! g = Filename.files e !! g \/ (g = f /\ Filename.files (Filename.DeleteFile e f).2 !! g = None).
Proof.
  unfold Filename.DeleteFile, env_op. destruct (next_io (env_io e)) as [[|s n] l]; cbn; [|by left]. destruct (decide (g = f)) as [->|Hne]; [right; by rewrite lookup_delete_eq|left; by rewrite lookup_delete_ne].
Qed.

(** The loop over the names: only garbage goes. *)
Lemma collect_files vs live names : forall ec f, let e' := (fold_left (delete_obsolete o evict vs live) names ec).1 in
  Filename.files e' !! f = Filename.files ec.1 !! f \/ (Filename.files e' !! f = None /\ exists name, name ∈ names /\ f = path name /\ garbage vs live name).
Proof.
  induction names as [|name names IH]; intros ec f; cbn [fold_left]; [by left|]. destruct (IH (delete_obsolete o evict vs live ec name) f) as [E|(E & n' & Hn & R)].
  - cbv zeta. rewrite E. destruct (delete_obsolete_files vs live ec name) as [->|[G ->]]; [by left|]. destruct (delete_files ec.1 (path name) f) as [->|[-> ->]]; [by left|].
    right. split; [done|]. exists name. split; [by left|done].
  - right. split; [done|]. exists n'. split; [by right|done].
Qed.

Lemma delete_quiet e f : env_io e = [] -> env_io (Filename.DeleteFile e f).2 = [] /\ Filename.files (Filename.DeleteFile e f).2 !! f = None.
Proof. intros E. unfold Filename.DeleteFile, env_op. rewrite E. cbn. by rewrite lookup_delete_eq. Qed.

(** Without failures all of it goes. *)
Lemma collect_all vs live names : forall ec name, env_io ec.1 = [] -> name ∈ names -> garbage vs live name ->
  Filename.files (fold_left (delete_obsolete o evict vs live) names ec).1 !! path name = None.
Proof.
  induction names as [|x names IH]; intros ec name Hio Hin Hg; [by apply elem_of_nil in Hin|]. cbn [fold_left].
  assert (Hio' : env_io (delete_obsolete o evict vs live ec x).1 = []) by (destruct (delete_obsolete_files vs live ec x) as [->|[_ ->]]; [done|by apply delete_quiet]).
  apply elem_of_cons in Hin as [->|Hin]; [|by apply IH].
  assert (Hx : Filename.files (delete_obsolete o evict vs live ec x).1 !! path x = None).
  { unfold delete_obsolete. destruct Hg as (n & t & -> & ->). by apply delete_quiet. }
  destruct (collect_files vs live names (delete_obsolete o evict vs live ec x) (path x)) as [->|[-> _]]; done.
Qed.

Lemma named name db f : f = path name -> dbname_ o = db -> base_name db f = name.
Proof. intros -> <-. unfold path, base_name. by rewrite <- drop_drop, drop_app_length. Qed.

(** C10. Garbage collection is safe and complete.  Whatever deletions fail and
    whatever names the directory lists, [DeleteObsoleteFiles] leaves every other
    file as it is and removes only files whose names it parses and that nobody
    needs: logs older than the current one, descriptors older than the current
    one, and tables and temporary files that are neither being written nor in a
    version that is current or held.  So the tables, the log and the descriptor in
    use are there afterwards, whatever their numbers.  When no deletion fails,
    all files that nobody needs are gone; after a background error nothing is
    touched. *)
Theorem garbage_collected (s : Recovering) c holders bg names : set_ok (rv_versions s) c holders ->
  let vs := rv_versions s in let s' := DeleteObsoleteFiles o evict bg names s in
  let before := Filename.files (env_ vs) in let after := Filename.files (env_ (rv_versions s')) in let need := needed vs c holders (rv_pending s) in
  (forall f, after !! f = before !! f \/
    (after !! f = None /\ ok bg = true /\ exists name n t, name ∈ names /\ f = path name /\ ParseFileName name = Some (n, t) /\ ~ need n t)) /\
  (forall n, 0 <= n < 2 ^ 64 ->
    (need n kTableFile -> after !! TableFileName (dbname_ o) n = before !! TableFileName (dbname_ o) n) /\
    (need n kLogFile -> after !! LogFileName (dbname_ o) n = before !! LogFileName (dbname_ o) n) /\
    (need n kDescriptorFile -> after !! DescriptorFileName (dbname_ o) n = before !! DescriptorFileName (dbname_ o) n)) /\
  after !! CurrentFileName (dbname_ o) = before !! CurrentFileName (dbname_ o) /\
  (ok bg = true -> env_io (env_ vs) = [] -> forall name n t, name ∈ names -> ParseFileName name = Some (n, t) -> ~ need n t -> after !! path name = None).
Proof.
  intros Hok vs s' before after need.
  assert (Hpart : forall f, after !! f = before !! f \/ (after !! f = None /\ ok bg = true /\ exists name n t, name ∈ names /\ f = path name /\ ParseFileName name = Some (n, t) /\ ~ need n t)).
  { intros f. unfold after, s', DeleteObsoleteFiles. destruct (ok bg); [|by left]. cbn [negb].
    destruct (collect_files vs (AddLiveFiles vs (rv_pending s)) names (env_ vs, rv_cache s) f) as [E|(E & name & Hn & Hf & n & t & Hp & Hk)]; fold vs; destruct (fold_left _ _ _) as [e cache]; cbn in E |- *; [by left|].
    right. split_and!; [done|done|]. exists name, n, t. split_and!; [done..|]. unfold need. rewrite <- (keep_needed vs c holders) by done. by rewrite Hk. }
  assert (Hkeep : forall f n t, ParseFileName (base_name (dbname_ o) f) = Some (n, t) -> need n t -> after !! f = before !! f).
  { intros f n t Hp Hn. destruct (Hpart f) as [?|(_ & _ & name & n' & t' & _ & Hf & Hp' & Hno)]; [done|]. rewrite (named name _ f Hf eq_refl), Hp' in Hp. by injection Hp as -> ->. }
  split; [done|]. split; [intros n Hn; destruct (file_name_roundtrip (dbname_ o) n Hn) as (R1 & R2 & _ & _ & R5 & _); split_and!; by apply Hkeep|].
  split; [destruct (file_name_roundtrip (dbname_ o) 0 ltac:(lia)) as (_ & _ & _ & _ & _ & R6 & _); by apply (Hkeep _ 0 kCurrentFile)|].
  intros Hbg Hio name n t Hin Hp Hno. unfold after, s', DeleteObsoleteFiles. rewrite Hbg. cbn [negb].
  pose proof (collect_all vs (AddLiveFiles vs (rv_pending s)) names (env_ vs, rv_cache s) name Hio Hin) as Hgone. fold vs. destruct (fold_left _ _ _) as [e cache]. cbn. apply Hgone. exists n, t. split; [done|].
  apply not_true_iff_false. by rewrite (keep_needed vs c holders).
Qed.
End Obsolete.

(** ** An example *)

Module ObsoleteRuns.
#[local] Existing Instances BytewiseComparator BytewiseLaws.
#[local] Instance crc_obsolete : Crc32c := crc32c_portable 0.
#[local] Instance check_obsolete : OutputCheck := {| oc_cache := list Z; oc_open := fun c _ _ _ _ _ _ => (Status_OK, c) |}.

Definition directory : list bytes :=
  [str "CURRENT"; str "LOCK"; str "MANIFEST-000007"; str "MANIFEST-000002"; str "000006.log"; str "000005.log"; str "000005.ldb"; str "000004.ldb"; str "000009.ldb"; str "notes"].
Definition full_set : VersionSet := with_env (example_set []) (MkEnv (list_to_map ((fun name => (path example_options name, name)) <$> directory)) []).
Definition full_state : Recovering := MkRecovering _ full_set [9] [] VersionEdit_new false 0 None.
Definition note_evicted : @oc_cache check_obsolete -> Z -> @oc_cache check_obsolete := fun evicted n => n :: evicted.
Definition collected : Recovering := DeleteObsoleteFiles example_options note_evicted Status_OK directory full_state.

(** The current version has table 5, and table 9 is being written. *)
Lemma garbage_collected_witness :
  filter (fun name => bool_decide (is_Some (Filename.files (env_ (rv_versions collected)) !! path example_options name))) directory
    = [str "CURRENT"; str "LOCK"; str "MANIFEST-000007"; str "000006.log"; str "000005.ldb"; str "000009.ldb"; str "notes"] /\
  rv_cache collected = [4] /\ Filename.files (env_ (rv_versions collected)) !! TableFileName (dbname_ example_options) 5 = Some (str "000005.ldb").
Proof.
  split; [vm_compute; reflexivity|]. split; [vm_compute; reflexivity|].
  assert (Hok : set_ok full_set 0 [0]) by (destruct (example_set_ok []) as [S1 S2 S3 S4]; split; assumption).
  destruct (garbage_collected example_options note_evicted full_state 0 [0] Status_OK directory Hok) as (_ & Hkeep & _ & _).
  destruct (Hkeep 5 ltac:(lia)) as (Htable & _ & _). unfold collected. rewrite Htable; [vm_compute; reflexivity|].
  right. exists 0, 1%nat, (5, 10, InternalKey_make [97] 9 kTypeValue, InternalKey_make [100] 5 kTypeValue). split; [by left|]. split; [vm_compute; by left|reflexivity].
Defined.
End ObsoleteRuns.
