(* ===== verification/DbGet.v ===== *)
(** * DbGet: reading a key of the database

    [DBImpl::Get] of src/LSM-EBF/db/db_impl.cc: it takes the sequence number, the
    memtables and the current version under the mutex and then searches the
    memtable, the immutable memtable and the version without it.  The memtable may
    have grown by the time it is read ([grown]), and the state may be another one
    when the mutex is taken again ([resume], with the memtables that are held as
    they are then).  The counters that only
    feed statistics are left out.  [None] is a failed assertion or an undefined
    run. *)
From stdpp Require Import gmap sorting.
From S2P Require Import Prelude Coding Crc32c Status Comparator DbFormat Filename MemTable WriteBatch Log VersionEdit Version VersionGet VersionBuilder Manifest VersionSet DbWrite WriteGroups.

(** ** The code *)

Section Code.
Context {user_comparator : Comparator} {TC : TableCache}.

Record Reading := MkReading { r_snapshot : Z; r_mem : MemTable.t; r_imm : option MemTable.t; r_version : Z }.

Definition with_set (d : Db) (vs : VersionSet) : Db := with_versions d (bg_error_ d) vs.

(** With the mutex: the sequence number, the memtables and the current version,
    which are held. *)
Definition begin_read (d : Db) (snapshot : option Z) : option (Reading * Db) :=
  let mem := MemTable.Ref (DbWrite.mem_ d) in
  let imm := MemTable.Ref <$> imm_ d in
  cur ← current_ (VersionSet.versions_ (DbWrite.versions_ d));
  vs ← Version_Ref (DbWrite.versions_ d) cur;
  Some (MkReading (default (last_seq (DbWrite.versions_ d)) snapshot) mem imm cur,
    MkDb (writers_ d) (results d) (phase d) (log_ d) (logfile_number_ d) mem imm (bg_error_ d) (tmp_batch_ d) vs).

(** Without it.  The statistics are [None] unless the version was searched. *)
Definition search (mem : MemTable.t) (imm : option MemTable.t) (v : Version) (h : file_heap) (c : table_cache) (opts : GetOptions) (lkey : LookupKey.t) (val : bytes)
    : option (Status * bytes * option GetStats * file_heap * table_cache) :=
  '(found, val, s) ← MemTable.Get mem lkey val Status_OK;
  if (found : bool) then Some (s, val, None, h, c)
  else
    '(found, val, s) ← match imm with Some m => MemTable.Get m lkey val s | None => Some (false, val, s) end;
    if (found : bool) then Some (s, val, None, h, c)
    else
      '(s, st) ← VersionGet.Get v h c opts lkey val;
      Some (s, value st, Some (stats st), heap st, cache_ st).

(** The seek statistics of a search, with the mutex.  The result tells whether a
    compaction is asked for. *)
Definition note_stats (p : Z) (st : option GetStats) (vs : VersionSet) : option (bool * VersionSet) :=
  match st with
  | Some st =>
      v ← by_addr (VersionSet.versions_ vs) !! p;
      '(b, v, h) ← UpdateStats v (st_files (store_ vs)) st;
      let vv := VersionSet.versions_ vs in
      Some (b, with_heap vs (MkStore h (st_next (store_ vs))) (MkVersions (<[p := v]> (by_addr vv)) (next_addr vv) (ring vv) (current_ vv)))
  | None => Some (false, vs)
  end.

(** Then the version is let go. *)
Definition end_read (p : Z) (st : option GetStats) (vs : VersionSet) : option (bool * VersionSet) :=
  '(schedule, vs) ← note_stats p st vs;
  vs ← Version_Unref vs p;
  Some (schedule, vs).

Definition with_files (vs : VersionSet) (h : file_heap) : VersionSet := with_heap vs (MkStore h (st_next (store_ vs))) (VersionSet.versions_ vs).

(** The memtables that are left at the end, [None] when they are deleted. *)
Definition Get (d : Db) (snapshot : option Z) (grown : MemTable.t -> MemTable.t) (resume : Db -> Db * MemTable.t * option MemTable.t) (c : table_cache) (opts : GetOptions) (key val : bytes)
    : option (Status * bytes * bool * table_cache * Db * option MemTable.t * option MemTable.t) :=
  '(r, d) ← begin_read d snapshot;
  let vs := DbWrite.versions_ d in
  v ← by_addr (VersionSet.versions_ vs) !! r_version r;
  '(s, val, st, h, c) ← search (grown (r_mem r)) (r_imm r) v (st_files (store_ vs)) c opts (LookupKey.make key (r_snapshot r)) val;
  let '(d, mem, imm) := resume (with_set d (with_files vs h)) in
  '(schedule, vs) ← end_read (r_version r) st (DbWrite.versions_ d);
  Some (s, val, schedule, c, with_set d vs, MemTable.Unref mem, imm ≫= MemTable.Unref).
End Code.
