(* ===== verification/DbRead.v ===== *)
(** * DbRead: reads see the acknowledged writes

    The proofs about DbGet.v: a lookup over memtables and a version, and its
    composition with the write path of DbWrite.v. *)
From stdpp Require Import gmap sorting.
From S2P Require Import Prelude Coding Crc32c Status Comparator DbFormat Filename TableFormat Block Iterators Table MemTable WriteBatch Log VersionEdit Version VersionGet VersionBuilder Manifest VersionSet VersionRefs VersionApply DbWrite WriteGroups RecoverLogs WriteRecovery DbGet.

#[local] Existing Instances BytewiseComparator BytewiseLaws MemTable.visible_dec.

(** ** A memtable among older entries *)

Section Layers.
Context (u : bytes) (s : Z) (Hu : bytes_ok u) (Hs : seq_ok s).

Lemma seen_entry e : MemTable.entry_ok e -> seen u s (entry_kv e) <-> MemTable.visible u s e.
Proof.
  intros (_ & Hse & _). unfold seen, MemTable.visible, entry_kv. cbn [fst]. unfold MemTable.e_ikey. rewrite ExtractUserKey_ikey, ExtractTag_ikey by (by apply Pack_range).
  rewrite !Pack_eq by done. change (value_type_code kValueTypeForSeek) with 1. pose proof (value_type_code_range (MemTable.e_type e)).
  cbn [Compare BytewiseComparator]. unfold Bytewise.compare. rewrite Slice_compare_lex, lex_eq. split; intros [? ?]; (split; [done|lia]).
Qed.

Definition entry_answers (e : MemTable.entry) (old : bytes) : Status * bytes :=
  match MemTable.e_type e with kTypeValue => (Status_OK, MemTable.e_value e) | kTypeDeletion => (NotFound [] [], old) end.

Lemma entry_answers_ok e old : MemTable.entry_ok e -> answers (entry_kv e) old (entry_answers e old).1 (entry_answers e old).2.
Proof.
  intros (_ & Hse & _). unfold answers, entry_kv, entry_answers. cbn [fst snd]. unfold MemTable.e_ikey. rewrite ParseInternalKey_ikey by done. eexists. split; [done|]. cbn. by destruct (MemTable.e_type e).
Qed.

(** The latest entry is the newest. *)
Lemma latest_newest es : Forall MemTable.entry_ok es -> StronglySorted (fun a b => MemTable.e_seq a < MemTable.e_seq b) es ->
  match MemTable.latest es u s with
  | Some e => MemTable.entry_ok e /\ newest u s (entry_kv <$> es) (entry_kv e)
  | None => forall x, x ∈ entry_kv <$> es -> ~ seen u s x
  end.
Proof.
  intros Hok Hsort. rewrite Forall_forall in Hok. destruct (MemTable.latest es u s) as [e|] eqn:El.
  - destruct (MemTable.latest_max es u s e Hsort El) as (Hin & Hv & Hmax). split; [by apply Hok|]. split; [by apply list_elem_of_fmap_2|]. split; [apply seen_entry; [by apply Hok|done]|].
    intros x (e' & -> & Hin')%list_elem_of_fmap Hx. apply seen_entry in Hx; [|by apply Hok]. pose proof (Hmax e' Hin' Hx) as Hle.
    unfold entry_kv. cbn [fst]. unfold MemTable.e_ikey. destruct (Hok _ Hin) as (_ & Q1 & _), (Hok _ Hin') as (_ & Q2 & _). rewrite !ExtractTag_ikey by (by apply Pack_range). rewrite !Pack_eq by done.
    pose proof (value_type_code_range (MemTable.e_type e)). pose proof (value_type_code_range (MemTable.e_type e')). destruct (decide (MemTable.e_seq e' = MemTable.e_seq e)) as [E|E]; [|lia].
    rewrite (MemTable.seq_sorted_eq es e' e Hsort Hin' Hin E). lia.
  - intros x (e & -> & Hin)%list_elem_of_fmap Hx. apply seen_entry in Hx; [|by apply Hok]. unfold MemTable.latest in El. apply last_None in El. apply (not_elem_of_nil e). rewrite <- El. by apply list_elem_of_filter.
Qed.

(** What a memtable that holds [es] answers. *)
Lemma mem_get m es val st : MemTable.holds m es -> zlen u + 8 < 2 ^ 32 ->
  MemTable.Get m (LookupKey.make u s) val st = Some
    match MemTable.latest es u s with
    | None => (false, val, st)
    | Some e => match MemTable.e_type e with kTypeValue => (true, MemTable.e_value e, st) | kTypeDeletion => (true, val, NotFound [] []) end
    end.
Proof. intros Hm Hl. by apply MemTable.Get_latest. Qed.

(** Entries the snapshot does not see do not matter. *)
Lemma lookup_unseen es extra old rs val : (forall x, x ∈ extra -> ~ seen u s x) -> lookup_result u s (es ++ extra) old rs val <-> lookup_result u s es old rs val.
Proof.
  intros Hx. unfold lookup_result, newest. split.
  - intros [(e & (Hin & Hse & Hmax) & Ha)|(Hno & R)]; [left; exists e; split; [|done]|right; split; [|done]].
    + apply elem_of_app in Hin as [Hin|Hin]; [|by destruct (Hx e Hin)]. split; [done|]. split; [done|]. intros e' He'. apply Hmax, elem_of_app. by left.
    + intros e He. apply Hno, elem_of_app. by left.
  - intros [(e & (Hin & Hse & Hmax) & Ha)|(Hno & R)]; [left; exists e; split; [|done]|right; split; [|done]].
    + split; [apply elem_of_app; by left|]. split; [done|]. intros e' [He'|He']%elem_of_app Hse'; [by apply Hmax|by destruct (Hx e' He')].
    + intros e [He|He]%elem_of_app; [by apply Hno|by apply Hx].
Qed.

(** Of two layers the newer one answers if it can. *)
Lemma lookup_newer older newer e old rs val : (forall a b, a ∈ newer -> b ∈ older -> ExtractTag b.1 <= ExtractTag a.1) -> newest u s newer e -> answers e old rs val ->
  lookup_result u s (older ++ newer) old rs val.
Proof.
  intros Hord (Hin & Hse & Hmax) Ha. left. exists e. split; [|done]. split; [apply elem_of_app; by right|]. split; [done|]. intros e' [He'|He']%elem_of_app Hse'; [by apply Hord|by apply Hmax].
Qed.

(** Entries in the order of their sequence numbers, in two layers. *)
Lemma sorted_layers (a b : list MemTable.entry) : Forall MemTable.entry_ok (a ++ b) -> StronglySorted (fun x y => MemTable.e_seq x < MemTable.e_seq y) (a ++ b) ->
  forall x y, x ∈ entry_kv <$> b -> y ∈ entry_kv <$> a -> ExtractTag y.1 <= ExtractTag x.1.
Proof.
  intros Hok Hsort x y (ex & -> & Hx)%list_elem_of_fmap (ey & -> & Hy)%list_elem_of_fmap. rewrite Forall_forall in Hok.
  destruct (Hok ex) as (_ & Q1 & _); [apply elem_of_app; by right|]. destruct (Hok ey) as (_ & Q2 & _); [apply elem_of_app; by left|].
  pose proof (StronglySorted_app_1_elem_of _ _ _ ey ex Hsort Hy Hx) as Hlt. cbn in Hlt. unfold entry_kv. cbn [fst]. unfold MemTable.e_ikey. rewrite !ExtractTag_ikey by (by apply Pack_range). rewrite !Pack_eq by done.
  pose proof (value_type_code_range (MemTable.e_type ex)). pose proof (value_type_code_range (MemTable.e_type ey)). lia.
Qed.

(** ** [search] *)

Context {TC : TableCache} (contents : Z -> option (Z * list (bytes * bytes))) (inv : table_cache -> Prop) {TL : TableCacheLaws TC contents inv}.

(** What is added to the memtable after the snapshot is not seen. *)
Lemma latest_grown em later : Forall (fun e => s < MemTable.e_seq e) later -> MemTable.latest (em ++ later) u s = MemTable.latest em u s.
Proof.
  intros Hl. unfold MemTable.latest. rewrite filter_app. assert (E : filter (MemTable.visible u s) later = []).
  { induction Hl as [|e later He _ IH]; [done|]. rewrite filter_cons_False; [done|]. intros [_ Hle]. lia. }
  by rewrite E, app_nil_r.
Qed.

(** A lookup in the memtables and a version that answers as the [old] entries over
    those of [base] do. *)
Lemma search_ok mem imm v h levels c opts val base old ei em later :
  MemTable.holds mem (em ++ later) -> Forall (fun e => s < MemTable.e_seq e) later -> match imm with Some m => MemTable.holds m ei | None => ei = [] end ->
  load_levels h v = Some levels -> lsm_ok contents levels -> ends_seen u s levels -> inv c -> zlen u + 8 < 2 ^ 32 ->
  Forall MemTable.entry_ok (old ++ ei ++ em) -> StronglySorted (fun x y => MemTable.e_seq x < MemTable.e_seq y) (old ++ ei ++ em) ->
  (forall b e, b ∈ base -> e ∈ old ++ ei ++ em -> ExtractTag b.1 <= ExtractTag (MemTable.e_ikey e)) ->
  (forall rs val', lookup_result u s (all_entries contents levels) val rs val' -> lookup_result u s (base ++ (entry_kv <$> old)) val rs val') ->
  exists rs val' st h' c', search mem imm v h c opts (LookupKey.make u s) val = Some (rs, val', st, h', c') /\ inv c' /\ heap_same h h' /\
    lookup_result u s (base ++ (entry_kv <$> old ++ ei ++ em)) val rs val'.
Proof.
  intros Hm Hl Hi Hv Hlsm Hends Hc Hlen Hok Hsort Hbase Hold. unfold search. rewrite (mem_get mem _ _ _ Hm Hlen), latest_grown by done. cbn [mbind option_bind].
  assert (Hlayer : forall a b e, Forall MemTable.entry_ok (a ++ b) -> StronglySorted (fun x y => MemTable.e_seq x < MemTable.e_seq y) (a ++ b) -> (forall e, e ∈ b -> e ∈ old ++ ei ++ em) ->
    MemTable.latest b u s = Some e -> lookup_result u s (base ++ (entry_kv <$> a ++ b)) val (entry_answers e val).1 (entry_answers e val).2).
  { intros a b e Hok' Hsort' Hsub El. pose proof (latest_newest b (proj2 (proj1 (Forall_app _ _ _) Hok')) (StronglySorted_app_1_r _ _ _ Hsort')) as Hn. rewrite El in Hn. destruct Hn as [He Hn].
    rewrite fmap_app, app_assoc. apply (lookup_newer _ _ (entry_kv e)); [|done|by apply entry_answers_ok]. intros x y Hx [Hy|Hy]%elem_of_app; [|by apply (sorted_layers a b)].
    apply list_elem_of_fmap in Hx as (ex & -> & Hx). apply Hbase; [done|]. by apply Hsub. }
  assert (Hnone : forall a b rs val', Forall MemTable.entry_ok (a ++ b) -> StronglySorted (fun x y => MemTable.e_seq x < MemTable.e_seq y) (a ++ b) -> MemTable.latest b u s = None ->
    lookup_result u s (base ++ (entry_kv <$> a)) val rs val' -> lookup_result u s (base ++ (entry_kv <$> a ++ b)) val rs val').
  { intros a b rs val' Hok' Hsort' El. pose proof (latest_newest b (proj2 (proj1 (Forall_app _ _ _) Hok')) (StronglySorted_app_1_r _ _ _ Hsort')) as Hn. rewrite El in Hn. rewrite fmap_app, app_assoc. by apply lookup_unseen. }
  assert (Hsub : forall e, e ∈ em -> e ∈ old ++ ei ++ em) by (intros e He; rewrite !elem_of_app; by right; right).
  assert (Hsub' : forall e, e ∈ ei -> e ∈ old ++ ei ++ em) by (intros e He; rewrite !elem_of_app; by right; left). clear Hbase.
  revert Hlayer Hsub Hsub'. rewrite app_assoc in Hok, Hsort |- *. intros Hlayer Hsub Hsub'. destruct (MemTable.latest em u s) as [e|] eqn:E1.
  { exists (entry_answers e val).1, (entry_answers e val).2, None, h, c. split; [unfold entry_answers; by destruct (MemTable.e_type e)|]. split_and!; [done|reflexivity|]. by apply Hlayer. }
  pose proof (proj1 (proj1 (Forall_app _ _ _) Hok)) as Hok1. pose proof (StronglySorted_app_1_l _ _ _ Hsort) as Hsort1.
  set (im := match imm with Some m => _ | None => _ end). assert (Him : im = Some match MemTable.latest ei u s with None => (false, val, Status_OK)
      | Some e => match MemTable.e_type e with kTypeValue => (true, MemTable.e_value e, Status_OK) | kTypeDeletion => (true, val, NotFound [] []) end end).
  { unfold im. destruct imm as [m|]; [by apply mem_get|]. by subst ei. }
  rewrite Him. cbn [mbind option_bind]. destruct (MemTable.latest ei u s) as [e|] eqn:E2.
  { exists (entry_answers e val).1, (entry_answers e val).2, None, h, c. split; [unfold entry_answers; by destruct (MemTable.e_type e)|]. split_and!; [done|reflexivity|]. apply Hnone; [done..|]. by apply Hlayer. }
  destruct (Get_ok contents inv v h levels c opts u s val Hv Hlsm Hends Hc Hu Hs) as (rs & st & -> & Hres & Hh & Hc'). cbn [mbind option_bind]. exists rs, (value st), (Some (stats st)), (heap st), (cache_ st).
  split; [done|]. split_and!; [done|done|]. apply Hnone; [done..|]. apply Hnone; [done..|]. by apply Hold.
Qed.
End Layers.

(** ** Counters of files *)

(** What the statistics leave alone in a file. *)
Definition counted (f : FileMetaData) : Z * file_meta := (refs f, meta f).
Definition counts_same (h h' : file_heap) : Prop := forall p, counted <$> h !! p = counted <$> h' !! p.

#[export] Instance counts_same_equiv : Equivalence counts_same.
Proof. split; [by intros ? ?|by intros ? ? H p|]. intros h1 h2 h3 H1 H2 p. by rewrite (H1 p). Qed.

Lemma counts_insert (h : file_heap) p f g : h !! p = Some f -> counted g = counted f -> counts_same h (<[p := g]> h).
Proof. intros E Hg q. destruct (decide (q = p)) as [->|Hne]; [rewrite lookup_insert_eq, E; cbn; by rewrite Hg|by rewrite lookup_insert_ne]. Qed.

Lemma counts_lookup h h' p : counts_same h h' -> is_Some (h !! p) -> is_Some (h' !! p).
Proof. intros H [f E]. specialize (H p). rewrite E in H. destruct (h' !! p); [by eexists|done]. Qed.

Lemma counts_fmeta h h' p : counts_same h h' -> fmeta h' p = fmeta h p.
Proof.
  intros H. specialize (H p). unfold fmeta, fm. destruct (h !! p) as [f|], (h' !! p) as [f'|]; try done. apply (inj Some), (f_equal snd) in H. by symmetry.
Qed.

Lemma heap_ok_counts s vv owners temps h' : heap_ok s vv owners temps -> counts_same (st_files s) h' -> heap_ok (MkStore h' (st_next s)) vv owners temps.
Proof.
  intros [H1 H2 H3 H4 [H5 H5'] H6] Hc. assert (Hm : forall files l, level_metas h' files l = level_metas (st_files s) files l).
  { intros files l. unfold level_metas. apply list_fmap_ext. intros i x _. by apply counts_fmeta. }
  split; try done; cbn [st_files st_next].
  - split; cbn [st_files st_next].
    + intros p. specialize (H5 p). specialize (Hc p). destruct (st_files s !! p) as [f|], (h' !! p) as [f'|]; try done. apply (inj Some), (f_equal fst) in Hc. cbn in Hc. by rewrite <- Hc.
    + intros p Hp. apply H5'. apply (counts_lookup h'); [by symmetry|done].
  - intros p v Hv. destruct (H6 p v Hv) as [L1 L2 L3 L4 L5]. split; [done|..]; intros l; rewrite Hm; auto.
Qed.

(** A version that only notes a file to compact. *)
Lemma heap_ok_noted s vv owners temps p v v' : heap_ok s vv owners temps -> by_addr vv !! p = Some v -> refs_ v' = refs_ v -> files_ v' = files_ v ->
  heap_ok s (MkVersions (<[p := v']> (by_addr vv)) (next_addr vv) (ring vv) (current_ vv)) owners temps.
Proof.
  intros [H1 H2 H3 H4 H5 H6] Hv Er Ef. assert (Hvr : forall q, files_ (vr (MkVersions (<[p := v']> (by_addr vv)) (next_addr vv) (ring vv) (current_ vv)) q) = files_ (vr vv q)).
  { intros q. unfold vr. cbn. destruct (decide (q = p)) as [->|Hne]; [by rewrite lookup_insert_eq, Hv|by rewrite lookup_insert_ne]. }
  assert (Hsome : forall q, is_Some (<[p := v']> (by_addr vv) !! q) <-> is_Some (by_addr vv !! q)).
  { intros q. destruct (decide (q = p)) as [->|Hne]; [rewrite lookup_insert_eq, Hv; split; intros _; by eexists|by rewrite lookup_insert_ne]. }
  split; cbn [by_addr ring next_addr]; try done.
  - intros q. destruct (decide (q = p)) as [->|Hne]; [|rewrite lookup_insert_ne by done; apply H1]. specialize (H1 p). rewrite Hv in H1. by rewrite lookup_insert_eq, Er.
  - intros q. rewrite Hsome. apply H3.
  - intros q Hq. apply H4. by apply Hsome.
  - assert (E : file_owners (MkVersions (<[p := v']> (by_addr vv)) (next_addr vv) (ring vv) (current_ vv)) = file_owners vv); [|by rewrite E].
    unfold file_owners. cbn [ring]. apply list_bind_ext; [|done]. intros q. by rewrite Hvr.
  - intros q w. destruct (decide (q = p)) as [->|Hne]; [rewrite lookup_insert_eq; intros [= <-]; rewrite Ef; by apply (H6 p)|rewrite lookup_insert_ne by done; apply H6].
Qed.

(** ** The statistics of a search *)

Section Stats.
Context {TC : TableCache} (h0 : file_heap) (own : Z -> Prop).

(** Only counters change, and the file noted for its seeks is one of the
    version's. *)
Definition tracked (st : GetState) : Prop :=
  counts_same h0 (heap st) /\ (forall q, last_file_read st = Some q -> own q) /\ (forall q, seek_file (stats st) = Some q -> own q).

Lemma search_file_tracked uk ik level p st r st' : search_file uk ik level p st = Some (r, st') -> own p -> tracked st -> tracked st'.
Proof.
  unfold search_file. destruct (heap st !! p) as [f|] eqn:Ef; [|done]. cbn [mbind option_bind]. destruct (tc_Get _ _ _ _ _) as [[[[s found] c] o]|]; [|done]. cbn [mbind option_bind].
  intros E Hp (T1 & T2 & T3). set (st1 := MkGetState _ _ _ _ _ _ _) in E. assert (Ht : tracked st1).
  { split; [|split]; cbn.
    - etrans; [done|]. by apply (counts_insert _ _ f).
    - by intros q [= <-].
    - intros q. unfold charge_first. destruct (last_file_read st) as [x|] eqn:El; [|apply T3]. destruct (seek_file (stats st)) eqn:Es; [intros Eq; apply T3; congruence|]. cbn. intros [= <-]. by apply T2. }
  clearbody st1. destruct (negb (ok s)); by injection E as _ <-.
Qed.

Lemma search_files_tracked uk ik level ptrs : forall st r st', search_files uk ik level ptrs st = Some (r, st') -> Forall own ptrs -> tracked st -> tracked st'.
Proof.
  induction ptrs as [|p ptrs IH]; intros st r st'; cbn [search_files]; [by intros [= _ <-]|]. destruct (search_file uk ik level p st) as [[r1 st1]|] eqn:E; [|done]. cbn [mbind option_bind].
  intros E2 [Hp Hps]%Forall_cons Ht. pose proof (search_file_tracked _ _ _ _ _ _ _ E Hp Ht) as Ht1. destruct r1; [by injection E2 as _ <-|by apply (IH _ _ _ E2)].
Qed.

Lemma files_to_search_own h level ptrs uk ik qs : files_to_search (user_comparator := BytewiseComparator) h level ptrs uk ik = Some qs -> Forall own ptrs -> Forall own qs.
Proof.
  unfold files_to_search. destruct (load h ptrs) as [files|]; [|done]. cbn [mbind option_bind]. intros E Hown. rewrite Forall_forall in Hown. destruct (level =? 0).
  - injection E as <-. apply Forall_fmap, Forall_forall. intros [q f] Hq. rewrite merge_sort_Permutation in Hq. apply list_elem_of_filter in Hq as [_ Hq]. apply Hown. cbn. by apply elem_of_zip_l in Hq.
  - destruct (FindFile files ik) as [i|]; [|done]. cbn [mbind option_bind] in E. destruct (_ <=? _); [injection E as <-; constructor|].
    destruct (ptrs !! _) as [q|] eqn:Eq; [|done]. cbn [mbind option_bind] in E. destruct (files !! _) as [f|]; [|done]. cbn [mbind option_bind] in E. injection E as <-.
    destruct (_ <? 0); [constructor|]. apply Forall_singleton, Hown. by eapply list_elem_of_lookup_2.
Qed.

Lemma search_levels_tracked uk ik levels : forall level st r st', search_levels (user_comparator := BytewiseComparator) uk ik level levels st = Some (r, st') -> Forall own (concat levels) -> tracked st -> tracked st'.
Proof.
  induction levels as [|files levels IH]; intros level st r st'; cbn [search_levels concat]; [by intros [= _ <-]|]. intros E [Hf Hl]%Forall_app Ht. destruct files as [|p files]; [by apply (IH _ _ _ _ E)|].
  destruct (files_to_search _ _ _ _ _) as [qs|] eqn:Eq; [|done]. cbn [mbind option_bind] in E. destruct (search_files _ _ _ _ _) as [[r1 st1]|] eqn:Es; [|done]. cbn [mbind option_bind] in E.
  pose proof (search_files_tracked _ _ _ _ _ _ _ Es (files_to_search_own _ _ _ _ _ _ Eq Hf) Ht) as Ht1. destruct r1; [by injection E as _ <-|by apply (IH _ _ _ _ E)].
Qed.
End Stats.

Lemma search_tracked {TC : TableCache} mem imm v h c opts lkey val rs val' st h' c' : search mem imm v h c opts lkey val = Some (rs, val', st, h', c') ->
  counts_same h h' /\ forall st', st = Some st' -> forall q, seek_file st' = Some q -> q ∈ concat (files_ v).
Proof.
  unfold search. destruct (MemTable.Get mem lkey val Status_OK) as [[[f1 v1] s1]|]; [|done]. cbn [mbind option_bind]. destruct f1; [by intros [= _ _ <- <- _]|].
  destruct (match imm with Some m => _ | None => _ end) as [[[f2 v2] s2]|]; [|done]. cbn [mbind option_bind]. destruct f2; [by intros [= _ _ <- <- _]|].
  destruct (VersionGet.Get v h c opts lkey v2) as [[r g]|] eqn:E; [|done]. cbn [mbind option_bind]. intros [= _ _ <- <- _].
  destruct (search_levels_tracked h (fun q => q ∈ concat (files_ v)) _ _ _ _ _ _ _ E) as (T1 & _ & T3); [by apply Forall_forall|by split|]. split; [done|]. by intros st' [= <-].
Qed.

(** ** The end of a read *)

Lemma end_read_ok p st vs owners : heap_ok (store_ vs) (VersionSet.versions_ vs) (p :: owners) [] ->
  (forall st', st = Some st' -> forall q, seek_file st' = Some q -> q ∈ concat (files_ (vr (VersionSet.versions_ vs) p))) ->
  exists b vs', end_read p st vs = Some (b, vs') /\ heap_ok (store_ vs') (VersionSet.versions_ vs') owners [].
Proof.
  intros Hok Hst. destruct (heap_ok_live _ _ _ _ p Hok ltac:(by left)) as (v & Hv & _). unfold end_read.
  assert (Hstep : exists b vs1, note_stats p st vs = Some (b, vs1) /\ heap_ok (store_ vs1) (VersionSet.versions_ vs1) (p :: owners) []).
  { unfold note_stats. destruct st as [st|]; [|by exists false, vs]. rewrite Hv. cbn [mbind option_bind]. unfold UpdateStats. destruct (seek_file st) as [q|] eqn:Eq; cycle 1.
    { cbn [mbind option_bind]. eexists _, _. split; [done|]. cbn. apply (heap_ok_noted _ _ _ _ p v); [|done|done|done]. by destruct (store_ vs). }
    assert (Hq : is_Some (st_files (store_ vs) !! q)).
    { specialize (Hst st eq_refl q Eq). rewrite (vr_lookup _ _ _ Hv) in Hst. pose proof (so_refs _ _ (ho_store _ _ _ _ Hok) q) as Hr. destruct (st_files (store_ vs) !! q); [by eexists|].
      destruct Hr. apply elem_of_app. left. unfold file_owners. apply list_elem_of_bind. exists p. rewrite (vr_lookup _ _ _ Hv). split; [done|]. apply (ho_ring _ _ _ _ Hok). by rewrite Hv. }
    destruct Hq as [f Hf]. rewrite Hf. cbn [mbind option_bind].
    assert (Hc : counts_same (st_files (store_ vs)) (<[q := with_allowed_seeks f (i32 (allowed_seeks f - 1))]> (st_files (store_ vs)))) by (by apply (counts_insert _ _ f)).
    destruct (_ && _); (eexists _, _; split; [done|]; cbn; apply (heap_ok_noted _ _ _ _ p v); [by apply heap_ok_counts|done|done|done]). }
  destruct Hstep as (b & vs1 & -> & Hok1). cbn [mbind option_bind]. destruct (Version_Unref_ok vs1 owners [] p Hok1) as (s' & vv' & -> & Hok' & _). cbn [mbind option_bind]. by eexists _, _.
Qed.

(** ** The history of writes *)

Lemma numbered_in cs : forall a b c, numbered a cs b -> c ∈ cs -> a < c_seq c /\ c_seq c + zlen (c_ops c) <= b + 1.
Proof.
  induction cs as [|x cs IH]; intros a b c; cbn [numbered]; [by intros _ ?%elem_of_nil|]. intros [E Hn] Hc. pose proof (numbered_le _ _ _ Hn). pose proof (zlen_nonneg (c_ops x)).
  apply elem_of_cons in Hc as [->|Hc]; [lia|]. destruct (IH _ _ _ Hn Hc). lia.
Qed.

Lemma applied_sorted cs : forall a b, numbered a cs b -> StronglySorted (fun x y => MemTable.e_seq x < MemTable.e_seq y) (applied_all cs).
Proof.
  induction cs as [|c cs IH]; intros a b; cbn [numbered]; [constructor|]. intros [E Hn]. change (applied_all (c :: cs)) with (applied c ++ applied_all cs). apply StronglySorted_app_2.
  - intros x y Hx Hy. pose proof (applied_range _ _ _ _ Hn Hy) as Hy'. unfold applied in Hx. destruct (ok (c_status c)); [|by apply elem_of_nil in Hx]. apply WriteBatch.op_entries_range in Hx. lia.
  - unfold applied. destruct (ok (c_status c)); [apply WriteBatch.op_entries_sorted|constructor].
  - by apply (IH _ _ Hn).
Qed.

Lemma valid_ops (rqs : list (Writer * list WriteBatch.op)) : Forall request_ok rqs -> Forall WriteBatch.op_valid (rq_ops rqs).
Proof. intros Hr. unfold rq_ops. apply Forall_concat, Forall_fmap. apply (Forall_impl _ _ _ Hr). by intros r [H _]. Qed.

(** What was ever in a memtable is in the order of the numbers. *)
Lemma history_ok last0 es0 rqs fl d cs pend extra : write_inv last0 es0 rqs fl d cs pend extra -> Forall request_ok rqs -> 0 <= last0 -> last0 + zlen (rq_ops rqs) <= kMaxSequenceNumber ->
  Forall MemTable.entry_ok es0 -> StronglySorted (fun x y => MemTable.e_seq x < MemTable.e_seq y) es0 -> Forall (fun e => MemTable.e_seq e <= last0) es0 ->
  Forall MemTable.entry_ok (es0 ++ applied_all cs ++ extra) /\ StronglySorted (fun x y => MemTable.e_seq x < MemTable.e_seq y) (es0 ++ applied_all cs ++ extra).
Proof.
  intros I Hr Hl0 Hmax Hok0 Hs0 Hle0. pose proof (wi_numbered _ _ _ _ _ _ _ _ I) as Hn. pose proof (extra_above _ _ _ _ _ _ _ _ I) as Hx. pose proof (numbered_le _ _ _ Hn) as Hle.
  assert (Hbound : last_seq (DbWrite.versions_ d) + zlen (rq_ops pend) <= kMaxSequenceNumber).
  { pose proof (wi_count _ _ _ _ _ _ _ _ I) as Hc. rewrite (numbered_count _ _ _ Hn). lia. }
  assert (Hex : Forall MemTable.entry_ok extra /\ StronglySorted (fun x y => MemTable.e_seq x < MemTable.e_seq y) extra).
  { pose proof (wi_phase _ _ _ _ _ _ _ _ I) as Hp. unfold phase_ok in Hp. destruct (phase d) as [|f e|up t l ls|st se t l ls].
    1-3: destruct Hp as [-> _]; split; constructor.
    destruct Hp as (_ & n & r & p & Ep & _ & _ & -> & _). destruct (ok st); [|split; constructor]. split; [|apply WriteBatch.op_entries_sorted]. rewrite Ep, (take_group r p n), rq_ops_app, zlen_app in Hbound.
    pose proof (wi_requests _ _ _ _ _ _ _ _ I) as Hq. rewrite Ep, (take_group r p n) in Hq. apply Forall_app in Hq as [Hq _]. pose proof (zlen_nonneg (rq_ops (drop n p))). apply WriteBatch.op_entries_ok; [by apply valid_ops|lia|lia]. }
  assert (Hap : Forall MemTable.entry_ok (applied_all cs)).
  { unfold applied_all. apply Forall_concat, Forall_fmap, Forall_forall. intros c Hc. cbn. unfold applied. destruct (ok (c_status c)) eqn:Ec; [|constructor]. destruct (numbered_in _ _ _ _ Hn Hc) as [N1 N2].
    pose proof (zlen_nonneg (rq_ops pend)). apply WriteBatch.op_entries_ok; [|lia|lia]. rewrite (wi_whole _ _ _ _ _ _ _ _ I c Hc Ec). apply Forall_concat, Forall_fmap, Forall_forall. intros x Hx'.
    assert (Hin : x ∈ rq_view <$> rqs).
    { rewrite (wi_order _ _ _ _ _ _ _ _ I). apply elem_of_app. left. apply elem_of_concat. exists (c_reqs c). split; [by apply list_elem_of_fmap_2|done]. }
    apply list_elem_of_fmap in Hin as (r & -> & Hr'). rewrite Forall_forall in Hr. by destruct (Hr r Hr') as [Hv _]. }
  rewrite Forall_forall in Hle0, Hx. split; [rewrite !Forall_app; split; [done|]; split; [done|apply Hex]|]. apply StronglySorted_app_2; [|done|apply StronglySorted_app_2; [|by eapply applied_sorted|apply Hex]].
  - intros x y Hxx [Hy|Hy]%elem_of_app; specialize (Hle0 x Hxx); cbn in Hle0; [pose proof (applied_range _ _ _ _ Hn Hy); lia|specialize (Hx y Hy); cbn in Hx; lia].
  - intros x y Hxx Hy. pose proof (applied_range _ _ _ _ Hn Hxx). specialize (Hx y Hy). cbn in Hx. lia.
Qed.

(** ** Reads *)

Section Reads.
Context `{!Crc32c} {TC : TableCache} (contents : Z -> option (Z * list (bytes * bytes))) (inv : table_cache -> Prop) {TL : TableCacheLaws TC contents inv}.

(** The current version of [vs] is [cur], its levels have the tables [contents],
    and references are counted. *)
Record serving (vs : VersionSet) (cur : Z) (owners : list Z) (levels : list (list FileMetaData)) : Prop := {
  sg_heap : heap_ok (store_ vs) (VersionSet.versions_ vs) owners [];
  sg_current : current_ (VersionSet.versions_ vs) = Some cur /\ cur ∈ owners;
  sg_levels : load_levels (st_files (store_ vs)) (vr (VersionSet.versions_ vs) cur) = Some levels;
  sg_lsm : lsm_ok contents levels
}.

(** What other threads do while the mutex is released: they keep the counts, and
    the versions that are held. *)
Definition resumes (resume : Db -> Db * MemTable.t * option MemTable.t) (cur : Z) (owners : list Z) : Prop :=
  forall d, let vs := DbWrite.versions_ d in heap_ok (store_ vs) (VersionSet.versions_ vs) (cur :: owners) [] -> exists owners',
    let vs' := DbWrite.versions_ (resume d).1.1 in
    heap_ok (store_ vs') (VersionSet.versions_ vs') (cur :: owners') [] /\ files_ (vr (VersionSet.versions_ vs') cur) = files_ (vr (VersionSet.versions_ vs) cur).

Lemma Get_layers d snapshot grown resume c opts u val cur owners levels base old ei em later : serving (DbWrite.versions_ d) cur owners levels -> inv c -> resumes resume cur owners ->
  let s := default (last_seq (DbWrite.versions_ d)) snapshot in seq_ok s -> bytes_ok u -> zlen u + 8 < 2 ^ 32 -> ends_seen u s levels ->
  MemTable.holds (grown (MemTable.Ref (DbWrite.mem_ d))) (em ++ later) -> Forall (fun e => s < MemTable.e_seq e) later -> match imm_ d with Some m => MemTable.holds m ei | None => ei = [] end ->
  Forall MemTable.entry_ok (old ++ ei ++ em) -> StronglySorted (fun x y => MemTable.e_seq x < MemTable.e_seq y) (old ++ ei ++ em) ->
  (forall b e, b ∈ base -> e ∈ old ++ ei ++ em -> ExtractTag b.1 <= ExtractTag (MemTable.e_ikey e)) ->
  (forall rs val', lookup_result u s (all_entries contents levels) val rs val' -> lookup_result u s (base ++ (entry_kv <$> old)) val rs val') ->
  exists rs val' schedule c' d' mem' imm' owners', Get d snapshot grown resume c opts u val = Some (rs, val', schedule, c', d', mem', imm') /\ inv c' /\
    heap_ok (store_ (DbWrite.versions_ d')) (VersionSet.versions_ (DbWrite.versions_ d')) owners' [] /\ lookup_result u s (base ++ (entry_kv <$> old ++ ei ++ em)) val rs val'.
Proof.
  intros [S1 [S2 S3] S4 S5] Hc Hres s Hs Hu Hlen Hends Hm Hl Hi Hok Hsort Hbase Hold. unfold Get, begin_read. rewrite S2. cbn [mbind option_bind].
  destruct (Version_Ref_ok _ _ _ cur S1 S3) as (vv & -> & Hok1 & Hfr). cbn [mbind option_bind r_version DbWrite.versions_ VersionSet.versions_ with_heap store_ r_mem r_imm r_snapshot].
  destruct (heap_ok_live _ _ _ _ cur Hok1 ltac:(by left)) as (v & Hv & _). rewrite Hv. cbn [mbind option_bind]. fold s.
  assert (Hfiles : files_ v = files_ (vr (VersionSet.versions_ (DbWrite.versions_ d)) cur)) by (rewrite <- (fr_files _ _ _ _ _ _ Hfr cur ltac:(by left)); by rewrite (vr_lookup _ _ _ Hv)).
  assert (Hload : load_levels (st_files (store_ (DbWrite.versions_ d))) v = Some levels) by (unfold load_levels in *; by rewrite Hfiles).
  destruct (search_ok u s Hu Hs contents inv (grown (MemTable.Ref (DbWrite.mem_ d))) (MemTable.Ref <$> imm_ d) v (st_files (store_ (DbWrite.versions_ d))) levels c opts val base old ei em later) as (rs & val' & st & h' & c' & E & Hc' & _ & Hr); try done; [by destruct (imm_ d)|].
  destruct (search_tracked _ _ _ _ _ _ _ _ _ _ _ _ _ E) as [Hcs Hst]. rewrite E. cbn [mbind option_bind].
  set (d1 := with_set _ (with_files _ h')). assert (Hok2 : heap_ok (store_ (DbWrite.versions_ d1)) (VersionSet.versions_ (DbWrite.versions_ d1)) (cur :: owners) []) by (by apply (heap_ok_counts _ _ _ _ h' Hok1)).
  destruct (Hres d1 Hok2) as (owners' & Hok3 & Hf3). assert (Hvr : vr (VersionSet.versions_ (DbWrite.versions_ d1)) cur = v) by (by apply vr_lookup). rewrite Hvr in Hf3.
  destruct (resume d1) as [[d2 mem2] imm2]. cbn [fst] in Hok3, Hf3.
  destruct (end_read_ok cur st _ owners' Hok3) as (b & vs' & -> & Hok'); [by rewrite Hf3|]. cbn [mbind option_bind]. by exists rs, val', b, c', (with_set d2 vs'), (MemTable.Unref mem2), (imm2 ≫= MemTable.Unref), owners'.
Qed.

(** C18. Reads see the acknowledged writes.  Take any interleaving of the write
    queue with memtable switches and the background thread, that wrote out the
    memtables [fl], and a state of it.  Two things are assumed of its version: it
    answers lookups of the user key at the snapshot as the entries of the memtables
    written out, over the older ones of [base], do (that the background thread built
    and installed their tables); and the snapshot sees the last entry of each file
    of level 0 that ends in the user key ([ends_seen], without which
    [TableCache::Get] reads a region name that was never set).  Then [Get] of the
    user key, at a snapshot or at the last sequence number, returns, whatever is
    added to the memtable meanwhile and whatever the state is afterwards.  Its
    answer is that of the newest entry the snapshot sees among [base], the entries
    there were at first and those of all groups told OK: the value last put, or not
    found if it was deleted or never put.  Groups in progress are not seen, and
    references stay exact. *)
Theorem get_sees_acknowledged_writes usage size allowed d0 es0 rqs fl d cur owners levels base snapshot grown later resume c opts u val :
  fresh_db d0 es0 -> write_run usage size allowed d0 rqs fl d -> Forall request_ok rqs -> last_seq (DbWrite.versions_ d0) + zlen (rq_ops rqs) <= kMaxSequenceNumber ->
  serving (DbWrite.versions_ d) cur owners levels -> inv c -> resumes resume cur owners ->
  let last := last_seq (DbWrite.versions_ d) in let s := default last snapshot in 0 <= s <= last -> bytes_ok u -> zlen u + 8 < 2 ^ 32 -> ends_seen u s levels ->
  (forall em, MemTable.holds (DbWrite.mem_ d) em -> MemTable.holds (grown (MemTable.Ref (DbWrite.mem_ d))) (em ++ later)) -> Forall (fun e => last < MemTable.e_seq e) later ->
  Forall (fun b => ExtractTag b.1 < (last_seq (DbWrite.versions_ d0) + 1) * 256 /\ Forall (fun e => ExtractTag b.1 <= ExtractTag (MemTable.e_ikey e)) es0) base ->
  (forall old, hold_all fl old -> forall rs val', lookup_result u s (all_entries contents levels) val rs val' -> lookup_result u s (base ++ (entry_kv <$> old)) val rs val') ->
  exists cs rs val' schedule c' d' mem' imm' owners', told (results d) cs /\ numbered (last_seq (DbWrite.versions_ d0)) cs last /\
    Get d snapshot grown resume c opts u val = Some (rs, val', schedule, c', d', mem', imm') /\ inv c' /\
    heap_ok (store_ (DbWrite.versions_ d')) (VersionSet.versions_ (DbWrite.versions_ d')) owners' [] /\
    lookup_result u s (base ++ (entry_kv <$> es0 ++ applied_all cs)) val rs val'.
Proof.
  intros Hf Hrun Hr Hmax Hsv Hc Hres last s Hs Hu Hlen Hends Hgrow Hlater Hbase Hserve. destruct (write_run_ok usage size allowed d0 es0 rqs fl d Hf Hrun Hr Hmax) as (cs & pend & extra & I).
  destruct Hf as [_ [M0 _] [F1 F2] _]. pose proof M0 as (Hok0 & Hs0 & _). destruct (history_ok _ _ _ _ _ _ _ _ I Hr F1 Hmax Hok0 Hs0 F2) as [Hok Hsort]. pose proof (wi_numbered _ _ _ _ _ _ _ _ I) as Hn.
  destruct (wi_mem _ _ _ _ _ _ _ _ I) as (old & ei & em & Hfl & E & M1 & M2). pose proof (Hserve old Hfl) as Hold.
  destruct (pending_bound _ _ F1 fl rqs Hmax d cs pend extra [] pend I eq_refl) as [B1 B2]. change (zlen (rq_ops [])) with 0 in B1. fold last in B1. assert (Hseq : seq_ok s) by (unfold seq_ok; lia).
  assert (Hord : forall b e, b ∈ base -> e ∈ old ++ ei ++ em -> ExtractTag b.1 <= ExtractTag (MemTable.e_ikey e)).
  { intros b e Hb He. rewrite E in He. rewrite Forall_forall in Hbase. destruct (Hbase b Hb) as [H1 H2]. rewrite Forall_forall in H2, Hok. pose proof (Hok e He) as (_ & Qe & _).
    apply elem_of_app in He as [He|He]; [by apply H2|]. assert (Hlt : last_seq (DbWrite.versions_ d0) < MemTable.e_seq e).
    { pose proof (numbered_le _ _ _ Hn). pose proof (extra_above _ _ _ _ _ _ _ _ I) as Hx. rewrite Forall_forall in Hx.
      apply elem_of_app in He as [He|He]; [pose proof (applied_range _ _ _ _ Hn He); lia|specialize (Hx e He); cbn in Hx; lia]. }
    unfold MemTable.e_ikey. rewrite ExtractTag_ikey, Pack_eq by (by try apply Pack_range). pose proof (value_type_code_range (MemTable.e_type e)). lia. }
  destruct (Get_layers d snapshot grown resume c opts u val cur owners levels base old ei em later) as (rs & val' & b & c' & d' & mem' & imm' & owners' & G1 & G2 & G3 & G4); try done.
  { by apply Hgrow. } { apply (Forall_impl _ _ _ Hlater). intros e He. fold last s. lia. } { by rewrite E. } { by rewrite E. }
  exists cs, rs, val', b, c', d', mem', imm', owners'. split_and!; [apply I|done..|]. rewrite E, app_assoc, fmap_app, app_assoc in G4. apply (lookup_unseen u s _ (entry_kv <$> extra)); [|done].
  intros x (e & -> & He)%list_elem_of_fmap Hse. pose proof (extra_above _ _ _ _ _ _ _ _ I) as Hx. rewrite Forall_forall in Hx, Hok. apply seen_entry in Hse; [|done|apply Hok; rewrite !elem_of_app; by right; right].
  destruct Hse as [_ Hse]. specialize (Hx e He). cbn in Hx. lia.
Qed.
End Reads.

(** ** An example: the run of WriteGroups.v over a version with one table *)

Module ReadRuns.
Import WriteBatch WriteRuns.
#[local] Existing Instance crc_writes.

Definition read_contents (n : Z) : option (Z * list (bytes * bytes)) :=
  if n =? 5 then Some (10, [entry [97] 9 kTypeValue [5]; entry [100] 5 kTypeValue [6]]) else None.

Definition read_levels : list (list FileMetaData) := default [] (load_levels (st_files example_store) (MkVersion 2 example_base None (-1) minus_one (-1))).
Definition read_file : FileMetaData := default (FileMetaData_new 0 0 [] []) (head (concat read_levels)).

Lemma read_sorted n size kvs : read_contents n = Some (size, kvs) -> sorted_kvs (C := InternalKeyComparator) kvs.
Proof.
  unfold read_contents. case_match; [|done]. intros [= <- <-].
  repeat (apply sorted_kvs_cons; [apply internal_key_ok_valid, example_key_ok; [by_decide|split; vm_compute; discriminate]| |apply Forall_forall; by_decide]); apply sorted_kvs_nil.
Qed.

Lemma read_serves : file_serves read_contents read_file.
Proof.
  assert (Hk : internal_key_ok (InternalKey_make [97] 9 kTypeValue) /\ internal_key_ok (InternalKey_make [100] 5 kTypeValue)) by (split; apply example_key_ok; [by_decide|split; vm_compute; discriminate|by_decide|split; vm_compute; discriminate]).
  split.
  - split; [apply Hk|apply Hk|vm_compute; discriminate|split; [vm_compute; discriminate|vm_compute; reflexivity]].
  - vm_compute. reflexivity.
  - apply (read_sorted 5 10). vm_compute. reflexivity.
  - intros kv Hkv. assert (Hall : Forall (fun kv => internal_compare (smallest read_file) kv.1 <= 0 /\ internal_compare kv.1 (largest read_file) <= 0) (entries_of read_contents read_file)) by by_decide.
    rewrite Forall_forall in Hall. split; [|by apply Hall]. change (kv ∈ [entry [97] 9 kTypeValue [5]; entry [100] 5 kTypeValue [6]]) in Hkv.
    apply elem_of_cons in Hkv as [->|[->|?%not_elem_of_nil]%elem_of_cons]; [apply Hk|apply Hk|done].
  - exists (entry [100] 5 kTypeValue [6]). split; [right; by left|vm_compute; reflexivity].
Qed.

Lemma read_level l files f : read_levels !! l = Some files -> f ∈ files -> l = 1%nat /\ f = read_file.
Proof.
  intros Hl Hf. assert (E : read_levels = [[]; [read_file]; []; []; []; []; []; []]) by reflexivity. rewrite E in Hl. clear E.
  do 8 (destruct l as [|l]; [injection Hl as <-; first [by apply elem_of_nil in Hf|apply list_elem_of_singleton in Hf; by subst f]|]). done.
Qed.

Lemma read_lsm : lsm_ok read_contents read_levels.
Proof.
  split.
  - split; [reflexivity|..].
    + intros l files Hl. split; [apply Forall_forall; intros f Hf; destruct (read_level l files f Hl Hf) as [_ ->]; apply read_serves|].
      do 8 (destruct l as [|l]; [injection Hl as <-; vm_compute; reflexivity|]). done.
    + intros l files Hpos Hl. split; [apply Forall_forall; intros f Hf; destruct (read_level l files f Hl Hf) as [_ ->]; apply read_serves|].
      destruct l as [|l]; [lia|]. do 7 (destruct l as [|l]; [injection Hl as <-; intros [|i] [|j] f g Hij Hi Hj; try lia; done|]). done.
  - intros l files f Hl Hf. destruct (read_level l files f Hl Hf) as [_ ->]. apply read_serves.
  - intros l l' files files' f g a b Hl Hl' Hf Hg [Hn|(-> & _)]; destruct (read_level _ _ _ Hl Hf) as [? ->]; [destruct (read_level _ _ _ Hl' Hg) as [? _]; lia|done].
  - intros files [= <-]. constructor.
Qed.

Definition read_options : GetOptions := MkGetOptions (Table.MkReadOptions true true 0 0 0) 0 0.

Lemma db3_set : store_ (DbWrite.versions_ db3) = store_ (example_set []) /\ VersionSet.versions_ (DbWrite.versions_ db3) = VersionSet.versions_ (example_set []).
Proof. split; vm_compute; reflexivity. Qed.

Lemma db3_serving : serving read_contents (DbWrite.versions_ db3) 0 [0; 0] read_levels.
Proof.
  destruct db3_set as [E1 E2]. split; rewrite ?E1, ?E2; [apply (sk_heap _ _ _ (example_set_ok []))|split; [reflexivity|by left]|reflexivity|exact read_lsm].
Qed.

(** What the memtable of the run holds. *)
Definition db3_entries : list MemTable.entry := op_entries 101 (rq_ops (take 2 requests)).

Definition read_100 : option (Status * bytes * bool * table_cache (TableCache := direct_cache read_contents) * Db * option MemTable.t * option MemTable.t) :=
  Get (TC := direct_cache read_contents) db3 None id (fun d => (d, DbWrite.mem_ d, imm_ d)) tt read_options [100] [].

(** The key 100 is in no memtable; the table has it. *)
Lemma get_sees_acknowledged_writes_witness : exists cs schedule c' d' mem', told (results db3) cs /\ read_100 = Some (Status_OK, [6], schedule, c', d', mem', None) /\
  lookup_result [100] 104 (all_entries read_contents read_levels ++ (entry_kv <$> applied_all cs)) [] Status_OK [6].
Proof.
  destruct (get_sees_acknowledged_writes (TC := direct_cache read_contents) read_contents (fun _ => True) (TL := direct_cache_laws read_contents read_sorted)
    no_usage 4096 all_states start_db [] requests [] db3 0 [0; 0] read_levels (all_entries read_contents read_levels) None id [] (fun d => (d, DbWrite.mem_ d, imm_ d)) tt read_options [100] [])
    as (cs & rs & val' & sched & c' & d' & mem' & imm' & owners' & W1 & _ & G1 & _ & _ & G2).
  - exact start_fresh.
  - exact run3.
  - exact requests_ok.
  - vm_compute; discriminate.
  - exact db3_serving.
  - exact Logic.I.
  - intros d vs Hok. exists [0; 0]. by split.
  - split; [vm_compute; discriminate|apply Z.le_refl].
  - by_decide.
  - reflexivity.
  - intros files f Hl Hf. destruct (read_level 0 files f Hl Hf) as [? _]. done.
  - intros em Hem. by rewrite app_nil_r.
  - constructor.
  - by_decide.
  - intros old (ess & Hess & ->) rs val'. apply Forall2_nil_inv_l in Hess as ->. by rewrite app_nil_r.
  - assert (Hl : last_seq (DbWrite.versions_ db3) = 104) by (vm_compute; reflexivity).
    change (read_100 = Some (rs, val', sched, c', d', mem', imm')) in G1. assert (Hr : match read_100 with Some (rs, val, _, _, _, _, imm) => rs = Status_OK /\ val = [6] /\ imm = None | None => False end) by (vm_compute; repeat split).
    rewrite G1 in Hr. destruct Hr as (-> & -> & ->). exists cs, sched, c', d', mem'. split; [exact W1|]. split; [exact G1|]. change (default (last_seq (DbWrite.versions_ db3)) None) with (last_seq (DbWrite.versions_ db3)) in G2. rewrite Hl in G2. exact G2.
Defined.
End ReadRuns.
