(* ===== verification/VersionIter.v ===== *)
(** * VersionIter: the iterators of a version and of the database

    src/LSM-EBF/db/version_set.cc: [LevelFileNumIterator], [GetFileIterator],
    [NewConcatenatingIterator], [AddIterators] and [MakeInputIterator], and of
    db/db_impl.cc [NewInternalIterator], [NewIterator] and the clean-up.  The
    iterators of table files come from the table cache, through the interface
    [TableIterators]; an iterator over a level has the state of the cache from
    when it was made and keeps its own from then on.  [None] is a failed assertion
    or an undefined run. *)
From stdpp Require Import gmap.
From S2P Require Import Prelude Coding Crc32c Status Comparator DbFormat Filename TableFormat Block Iterators TwoLevel Merger DbIter MemTable WriteBatch Log.
From S2P Require Import VersionEdit Version VersionGet VersionBuilder Manifest VersionSet Compaction DbWrite DbRecover DbGet.

(** ** [LevelFileNumIterator] *)

Record LevelFileNumIterator := MkLevelFiles { flist_ : list FileMetaData; index_ : Z }.

Definition LevelFileNumIterator_new (flist : list FileMetaData) : LevelFileNumIterator := MkLevelFiles flist (u32 (zlen flist)).

Definition lf_Valid (it : LevelFileNumIterator) : bool := index_ it <? zlen (flist_ it).

Definition file_value (f : FileMetaData) : bytes := EncodeFixed64 (number f) ++ EncodeFixed64 (file_size f).

Section LevelFiles.
Context {user_comparator : Comparator}.

Definition lf_step (it : LevelFileNumIterator) (op : iter_op) : option LevelFileNumIterator :=
  let at_index (i : Z) := Some (MkLevelFiles (flist_ it) i) in
  match op with
  | OpSeek target => i ← FindFile (flist_ it) target; at_index (u32 i)
  | OpFirst => at_index 0
  | OpLast => at_index (match flist_ it with [] => 0 | _ => u32 (zlen (flist_ it) - 1) end)
  | OpNext => if lf_Valid it then at_index (u32 (index_ it + 1)) else None
  | OpPrev => if lf_Valid it then at_index (if index_ it =? 0 then u32 (zlen (flist_ it)) else index_ it - 1) else None
  end.

Definition lf_file (it : LevelFileNumIterator) : option FileMetaData := flist_ it !! Z.to_nat (index_ it).

#[export] Instance LevelFiles_Iterator : Iterator LevelFileNumIterator := {|
  iValid := lf_Valid;
  ikey it := match lf_file it with Some f => largest f | None => [] end;
  ivalue it := match lf_file it with Some f => file_value f | None => [] end;
  istatus _ := Status_OK;
  istep := lf_step
|}.
End LevelFiles.

(** ** Iterators of tables *)

(** [TableCache::NewIterator] and [NewBufferedIterator], and [NewErrorIterator]. *)
Class TableIterators (J : Type) := {
  ti_env : Type;
  ti_New : ti_env -> Z -> Z -> J * ti_env;
  ti_Buffered : ti_env -> Z -> Z -> J * ti_env;
  ti_Error : Status -> J
}.

Section Iterators.
Context {user_comparator : Comparator} {J : Type} `{!Iterator J, !TableIterators J}.

Definition GetFileIterator (cache : ti_env) (value : bytes) : J * ti_env :=
  if negb (zlen value =? 16) then (ti_Error (Corruption (str "FileReader invoked with unexpected value") []), cache)
  else ti_Buffered cache (DecodeFixed64 value) (DecodeFixed64 (drop 8 value)).

(** An iterator of a file of level 0, of a level, or of a memtable. *)
Inductive Child :=
  | MemChild (it : MemIter)
  | TableChild (it : J)
  | LevelChild (fuel : nat) (it : @TwoLevelIterator LevelFileNumIterator J ti_env).

Definition level_step (fuel : nat) := tl_step (I := LevelFileNumIterator) (J := J) GetFileIterator fuel.

#[export] Instance Child_Iterator : Iterator Child := {|
  iValid c := match c with MemChild it => iValid it | TableChild it => iValid it | LevelChild _ it => tl_Valid it end;
  ikey c := match c with MemChild it => ikey it | TableChild it => ikey it | LevelChild _ it => tl_key it end;
  ivalue c := match c with MemChild it => ivalue it | TableChild it => ivalue it | LevelChild _ it => tl_value it end;
  istatus c := match c with MemChild it => istatus it | TableChild it => istatus it | LevelChild _ it => tl_get_status it end;
  istep c op := match c with
                | MemChild it => MemChild <$> istep it op
                | TableChild it => TableChild <$> istep it op
                | LevelChild fuel it => LevelChild fuel <$> level_step fuel it op
                end
|}.

(** The loops of the two-level iterator end after each file was visited. *)
Definition NewConcatenatingIterator (cache : ti_env) (files : list FileMetaData) : Child :=
  LevelChild (length files + 2) (NewTwoLevelIterator cache (LevelFileNumIterator_new files)).

(** ** [AddIterators] *)

Fixpoint add_files (open : ti_env -> Z -> Z -> J * ti_env) (cache : ti_env) (files : list FileMetaData) : list Child * ti_env :=
  match files with
  | [] => ([], cache)
  | f :: files =>
      let '(it, cache) := open cache (number f) (file_size f) in
      let '(its, cache) := add_files open cache files in
      (TableChild it :: its, cache)
  end.

Definition add_level (cache : ti_env) (files : list FileMetaData) : list Child :=
  match files with [] => [] | _ => [NewConcatenatingIterator cache files] end.

Definition AddIterators (levels : list (list FileMetaData)) (cache : ti_env) : list Child * ti_env :=
  let '(its, cache) := add_files ti_New cache (default [] (head levels)) in
  (its ++ concat (add_level cache <$> tail levels), cache).

(** ** [MakeInputIterator] *)

Definition add_inputs (level : Z) (files : list FileMetaData) (cache : ti_env) : list Child * ti_env :=
  if level =? 0 then add_files ti_Buffered cache files else (add_level cache files, cache).

Definition MakeInputIterator (level : Z) (inputs0 inputs1 : list FileMetaData) (cache : ti_env) : option (Merged Child * ti_env) :=
  let space := if level =? 0 then zlen inputs0 + 1 else 2 in
  let '(its0, cache) := add_inputs level inputs0 cache in
  let '(its1, cache) := add_inputs (level + 1) inputs1 cache in
  if zlen (its0 ++ its1) <=? space then Some (NewMergingIterator (its0 ++ its1), cache) else None.

(** ** [NewInternalIterator] *)

(** The memtables, the version and their references, with the mutex held.  The
    results are the iterator, the last sequence number, the seed, and what is
    held until the iterator goes. *)
Definition NewInternalIterator (d : Db) (cache : ti_env) (seed_ : Z) : option (Merged Child * Z * Z * Reading * ti_env * Db) :=
  '(r, d) ← begin_read d None;
  v ← by_addr (VersionSet.versions_ (DbWrite.versions_ d)) !! r_version r;
  levels ← load_levels (st_files (store_ (DbWrite.versions_ d))) v;
  let mems := MemChild (MkMemIter (r_mem r) None) :: match r_imm r with Some m => [MemChild (MkMemIter m None)] | None => [] end in
  let '(its, cache) := AddIterators levels cache in
  let seed := u32 (seed_ + 1) in
  Some (NewMergingIterator (mems ++ its), r_snapshot r, seed, r, cache, d).

(** [CleanupIteratorState]: the references are given back; the memtables are given
    as they are then. *)
Definition CleanupIteratorState (r : Reading) (mem : MemTable.t) (imm : option MemTable.t) (vs : VersionSet) : option (option MemTable.t * option MemTable.t * VersionSet) :=
  vs ← Version_Unref vs (r_version r);
  Some (MemTable.Unref mem, imm ≫= MemTable.Unref, vs).

Definition NewIterator (d : Db) (cache : ti_env) (seed_ : Z) (snapshot : option Z) : option (@DBIter.DBIter (Merged Child) * Z * Reading * ti_env * Db) :=
  '(it, latest, seed, r, cache, d) ← NewInternalIterator d cache seed_;
  Some (DBIter.NewDBIterator it (default latest snapshot) seed, seed, r, cache, d).
End Iterators.
Arguments Child J {_}.
