(* ===== verification/VersionScan.v ===== *)
(** * VersionScan: scans of the database

    The proofs about VersionIter.v: each iterator keeps the contract of its
    interface, so the merged iterator is a cursor over all entries and the
    database iterator shows the user's view of memtables and version. *)
From stdpp Require Import gmap sorting.
From S2P Require Import Prelude Coding Crc32c Status Comparator DbFormat Filename TableFormat Block Iterators TwoLevel Merger DbIter DbSnapshot SkipList MemTable WriteBatch Log.
From S2P Require Import VersionEdit Version VersionGet VersionBuilder Manifest VersionSet VersionRefs VersionApply Compaction DbWrite WriteGroups DbRecover RecoverLogs WriteRecovery DbGet DbRead VersionIter.

#[local] Existing Instance MemTable.key_order.

Section Scans.
Context {C : Comparator} {L : ComparatorLaws C} (Hshort : forall u, valid_key u -> zlen u + 8 < 2 ^ 32).

Abbreviation icursor := (cursor_over (H := InternalKeyComparator)).
Abbreviation ivalid := (@valid_key InternalKeyComparator).

Lemma short_internal k : ivalid k -> zlen k < 2 ^ 32.
Proof. intros (_ & H8 & Hu%Hshort). unfold ExtractUserKey, zlen in *. rewrite length_take in Hu. lia. Qed.

(** ** Memtables *)

Definition mem_pos (m : MemTable.t) (l : list MemTable.entry) (it : MemIter) (i : nat) : Prop :=
  mit_mem it = m /\ SkipList.at_index [] MemTable.key_compare MemTable.stored (MemTable.table_ m) (map MemTable.enc l) i (mit_node it).

Lemma mem_pos_le m l it i : mem_pos m l it i -> (i < length l)%nat \/ mit_node it = None.
Proof.
  intros (_ & lh & nodes & _ & E & ->). apply (f_equal length) in E. rewrite !length_map in E. destruct (nodes !! i) eqn:El; [left; apply lookup_lt_Some in El; lia|by right].
Qed.

(** An iterator past the end may stand at any index there. *)
Definition mem_at_index (m : MemTable.t) (l : list MemTable.entry) (it : MemIter) (i : nat) : Prop := mem_pos m l it i /\ (i <= length l)%nat.

Lemma mem_end m l it i : mem_pos m l it i -> mem_pos m l (MkMemIter m None) (length l).
Proof.
  intros (_ & lh & nodes & W & E & _). split; [done|]. exists lh, nodes. split_and!; [done|done|]. cbn. apply (f_equal length) in E. rewrite !length_map in E. symmetry. apply lookup_ge_None. lia.
Qed.

Lemma mem_cursor m l : Forall MemTable.entry_ok l -> SkipList.represents [] MemTable.key_compare MemTable.stored (MemTable.table_ m) (map MemTable.enc l) ->
  icursor (entry_kv <$> l) (mem_at_index m l).
Proof.
  intros Hok Hr. split; rewrite ?length_fmap.
  - by intros it i [_ Hi].
  - intros [m' node] i [[E Hi] _]. cbn in E, Hi. subst m'. destruct (MemTable.Iterator_reads m l i node Hok Hi) as [Ek Ev]. destruct (SkipList.key_index _ _ _ _ _ _ _ Hi) as [_ Hv]. rewrite length_map in Hv.
    split; [done|]. rewrite list_lookup_fmap. destruct (l !! i) as [e|] eqn:El.
    + cbn [fmap option_fmap option_map entry_kv]. split_and!; [apply Hv; by eapply lookup_lt_Some|change (default [] (MemTable.Iterator_key m node) = MemTable.e_ikey e); by rewrite Ek|
        change (default [] (MemTable.Iterator_value m node) = MemTable.e_value e); by rewrite Ev].
    + cbn. apply lookup_ge_None in El. unfold MemTable.Iterator_Valid. destruct (SkipList.Valid node); [|done]. destruct Hv as [Hv _]. specialize (Hv eq_refl). lia.
  - intros [m' node] i op i' [Hp Hi] Hop Hst. pose proof Hp as [E Hat]. cbn in E, Hat. subst m'. cbn [istep MemIter_Iterator]. unfold mit_step. cbn [mit_mem mit_node].
    destruct op as [| |target| |]; cbn [cursor_step] in Hst; rewrite ?length_fmap in Hst.
    + injection Hst as <-. eexists. split; [done|]. split; [|lia]. split; [done|]. by apply SkipList.SeekToFirst_index.
    + injection Hst as <-. destruct (SkipList.SeekToLast_index _ _ _ _ _ Hr) as (n & E & Hn). unfold MemTable.Iterator_SeekToLast. rewrite E. cbn [mbind option_bind]. eexists. split; [done|]. rewrite length_map in Hn. split; [by split|lia].
    + injection Hst as <-. cbn [op_ok] in Hop. pose proof (short_internal _ Hop) as Hz. unfold MemTable.Iterator_Seek.
      destruct (SkipList.Seek_index [] MemTable.key_compare MemTable.stored _ _ (MemTable.EncodeKey target) Hr) as (n & E & Hn); [rewrite MemTable.EncodeKey_eq by done; by exists target, []|].
      rewrite E. cbn [mbind option_bind]. eexists. split; [done|]. rewrite MemTable.keys_below_enc in Hn by done.
      assert (El : length (base.filter (fun kv => internal_compare kv.1 target < 0) (entry_kv <$> l)) = length (base.filter (fun e => internal_compare (MemTable.e_ikey e) target < 0) l)).
      { clear. induction l as [|e l IH]; [done|]. rewrite fmap_cons, !filter_cons. cbn [entry_kv fst]. case_decide; cbn [length]; by rewrite IH. }
      change (@Compare InternalKeyComparator) with internal_compare. rewrite El. split; [by split|]. apply length_filter.
    + destruct (Nat.ltb_spec i (length l)); [|done]. injection Hst as <-. eexists. split; [done|]. split; [|lia]. split; [done|]. apply (SkipList.Next_index [] MemTable.key_compare MemTable.stored); [done|]. by rewrite length_map.
    + destruct (Nat.ltb_spec i (length l)) as [Hlt|]; [|done]. injection Hst as <-. destruct (SkipList.Prev_index [] MemTable.key_compare MemTable.stored _ _ i node Hat) as (n & E & Hn); [by rewrite length_map|].
      unfold MemTable.Iterator_Prev. rewrite E. cbn [mbind option_bind]. eexists. split; [done|]. destruct i as [|i]; cbn [Nat.eqb].
      * subst n. split; [by eapply mem_end|lia].
      * replace (S i - 1)%nat with i by lia. split; [by split|lia].
Qed.

(** ** The files of a level *)

Definition file_index (files : list FileMetaData) : list (bytes * bytes) := (fun f => (largest f, file_value f)) <$> files.

Definition lf_at (files : list FileMetaData) (it : LevelFileNumIterator) (i : nat) : Prop := flist_ it = files /\ index_ it = Z.of_nat i /\ (i <= length files)%nat.

Lemma level_files_cursor files : sorted_kvs (C := InternalKeyComparator) (file_index files) -> zlen files < 2 ^ 31 -> icursor (file_index files) (lf_at files).
Proof.
  intros Hs Hz. assert (Hlen : length (file_index files) = length files) by apply length_fmap. split; rewrite ?Hlen.
  - by intros it i (_ & _ & Hi).
  - intros it i (Ef & Ei & Hi). split; [done|]. unfold file_index. rewrite list_lookup_fmap. cbn [iValid ikey ivalue LevelFiles_Iterator]. unfold lf_Valid, lf_file. rewrite Ef, Ei, Nat2Z.id. unfold zlen.
    destruct (files !! i) as [f|] eqn:El; cbn; [apply lookup_lt_Some in El; split_and!; [apply Z.ltb_lt; lia|done|done]|apply lookup_ge_None in El; apply Z.ltb_ge; lia].
  - intros it i op i' (Ef & Ei & Hi) Hop Hst. cbn [istep LevelFiles_Iterator]. unfold lf_step. rewrite Ef. unfold zlen in Hz. destruct op as [| |target| |]; cbn [cursor_step] in Hst; rewrite ?Hlen in Hst.
    + injection Hst as <-. eexists. split; [done|]. split_and!; [done|done|lia].
    + injection Hst as <-. eexists. split; [done|]. split_and!; [done| |lia]. cbn [index_]. destruct files as [|f files]; [done|]. unfold zlen. cbn [length] in *. rewrite u32_small; lia.
    + injection Hst as Hi'. destruct (seek_split (L := InternalLaws) _ target Hs Hop) as (l1 & l2 & E & Efl & H1 & H2). assert (i' = length l1) as -> by (rewrite <- Hi', <- Efl; reflexivity). pose proof (f_equal length E) as El. rewrite Hlen, length_app in El.
      assert (Efiles : files = take (length l1) files ++ drop (length l1) files) by (by rewrite take_drop). unfold file_index in E. rewrite Efiles, fmap_app in E.
      apply app_inj_1 in E as [E1 E2]; [|rewrite length_fmap, length_take; lia].
      assert (Ez : zlen (take (length l1) files) = Z.of_nat (length l1)) by (unfold zlen; rewrite length_take; lia).
      assert (EF : FindFile files target = Some (Z.of_nat (length l1))).
      { rewrite <- Ez. transitivity (FindFile (take (length l1) files ++ drop (length l1) files) target); [by rewrite <- Efiles|]. apply FindFile_split.
        - intros f Hf. apply (H1 (largest f, file_value f)). rewrite <- E1. by apply (list_elem_of_fmap_2 (fun f => (largest f, file_value f))).
        - intros f Hf. apply (H2 (largest f, file_value f)). rewrite <- E2. by apply (list_elem_of_fmap_2 (fun f => (largest f, file_value f))).
        - by rewrite <- Efiles. }
      rewrite EF. cbn [mbind option_bind]. eexists. split; [done|]. split_and!; [done| |lia]. cbn [index_]. apply u32_small. lia.
    + destruct (Nat.ltb_spec i (length files)); [|done]. injection Hst as <-. unfold lf_Valid. rewrite Ef, Ei. unfold zlen. rewrite (proj2 (Z.ltb_lt _ _)) by lia. eexists. split; [done|]. split_and!; [done| |lia]. cbn [index_]. rewrite u32_small; lia.
    + destruct (Nat.ltb_spec i (length files)); [|done]. injection Hst as <-. unfold lf_Valid. rewrite Ef, Ei. unfold zlen. rewrite (proj2 (Z.ltb_lt _ _)) by lia. eexists. split; [done|].
      destruct i as [|i]; cbn [Nat.eqb]; (split; [done|]); (split; [cbn [index_]|lia]).
      * change (Z.of_nat 0 =? 0) with true. cbn iota. apply u32_small. lia.
      * rewrite (proj2 (Z.eqb_neq _ _)) by lia. lia.
Qed.

(** ** Tables *)

(** What the table cache promises: an iterator of a file with known contents is a
    cursor over them that is not valid yet. *)
Class TableIteratorsLaws (J : Type) `{!Iterator J, !TableIterators J} (contents : Z -> option (Z * list (bytes * bytes))) (env_ok : ti_env -> Prop) (tat : Z -> J -> nat -> Prop) := {
  til_cursor : forall n size kvs, contents n = Some (size, kvs) -> icursor kvs (tat n);
  til_new : forall e n size kvs, env_ok e -> contents n = Some (size, kvs) -> exists it e', ti_New e n size = (it, e') /\ env_ok e' /\ tat n it (length kvs);
  til_buffered : forall e n size kvs, env_ok e -> contents n = Some (size, kvs) -> exists it e', ti_Buffered e n size = (it, e') /\ env_ok e' /\ tat n it (length kvs)
}.

Context {J : Type} `{!Iterator J, !TableIterators J} (contents : Z -> option (Z * list (bytes * bytes))) (env_ok : ti_env -> Prop) (tat : Z -> J -> nat -> Prop) {TIL : TableIteratorsLaws J contents env_ok tat}.

Abbreviation kvs_of := (entries_of contents).

(** The metadata of a file fit its table. *)
Record file_fits (f : FileMetaData) : Prop := {
  ff_contents : contents (number f) = Some (file_size f, kvs_of f);
  ff_number : 0 <= number f < 2 ^ 64;
  ff_size : 0 <= file_size f < 2 ^ 64;
  ff_sorted : sorted_kvs (C := InternalKeyComparator) (kvs_of f);
  ff_largest : ivalid (largest f);
  ff_above : forall kv, kv ∈ kvs_of f -> internal_compare kv.1 (largest f) <= 0
}.

(** The files of a level above 0: disjoint, in order. *)
Record level_fits (files : list FileMetaData) : Prop := {
  lv_files : Forall file_fits files;
  lv_count : zlen files < 2 ^ 31;
  lv_numbers : NoDup (number <$> files);
  lv_order : forall i j f g, (i < j)%nat -> files !! i = Some f -> files !! j = Some g -> internal_compare (largest f) (largest g) < 0 /\ forall kv, kv ∈ kvs_of g -> internal_compare (largest f) kv.1 < 0
}.

Lemma file_value_length f : zlen (file_value f) = 16.
Proof. unfold file_value. rewrite zlen_app. unfold zlen. by rewrite !length_EncodeFixed64. Qed.

Lemma open_file e f : env_ok e -> file_fits f -> exists it e', GetFileIterator e (file_value f) = (it, e') /\ env_ok e' /\ tat (number f) it (length (kvs_of f)).
Proof.
  intros He [F1 F2 F3 _ _ _]. unfold GetFileIterator. rewrite file_value_length. cbn [Z.eqb Pos.eqb negb]. unfold file_value.
  assert (E : drop 8 (EncodeFixed64 (number f) ++ EncodeFixed64 (file_size f)) = EncodeFixed64 (file_size f)) by (by rewrite drop_app_length' by (by rewrite length_EncodeFixed64)).
  rewrite E, DecodeFixed64_Encode by done. rewrite <- (app_nil_r (EncodeFixed64 (file_size f))), DecodeFixed64_Encode by done. by apply til_buffered.
Qed.

Lemma file_value_inj f g : file_fits f -> file_fits g -> file_value f = file_value g -> number f = number g.
Proof.
  intros [_ F2 _ _ _ _] [_ G2 _ _ _ _] E. apply (f_equal DecodeFixed64) in E. unfold file_value in E. by rewrite !DecodeFixed64_Encode in E.
Qed.

Definition dat_of (files : list FileMetaData) (j : nat) (it : J) (o : nat) : Prop := match files !! j with Some f => tat (number f) it o | None => False end.

Lemma kvs_valid kvs kv : sorted_kvs (C := InternalKeyComparator) kvs -> kv ∈ kvs -> ivalid kv.1.
Proof. intros [Hv _]. rewrite Forall_forall in Hv. apply Hv. Qed.

Lemma level_index files : level_fits files -> block_index (H := InternalKeyComparator) (file_index files) (kvs_of <$> files).
Proof.
  intros [V1 V2 V3 V4]. rewrite Forall_forall in V1. assert (Hf : forall j e g, file_index files !! j = Some e -> (kvs_of <$> files) !! j = Some g -> exists f, files !! j = Some f /\ f ∈ files /\ e.1 = largest f /\ g = kvs_of f).
  { intros j e g He Hg. unfold file_index in He. rewrite list_lookup_fmap in He. rewrite list_lookup_fmap in Hg. destruct (files !! j) as [f|] eqn:Ej; [|done]. injection He as <-. injection Hg as <-. exists f. split_and!; try done. by eapply list_elem_of_lookup_2. }
  split.
  - unfold file_index. by rewrite !length_fmap.
  - split.
    + apply Forall_fmap, Forall_forall. intros f Hin. by destruct (V1 f Hin).
    + intros i j a b Hij Ha Hb. unfold file_index in Ha, Hb. rewrite list_lookup_fmap in Ha. rewrite list_lookup_fmap in Hb. destruct (files !! i) as [f|] eqn:Ei, (files !! j) as [g|] eqn:Ej; try done. injection Ha as <-. injection Hb as <-. by apply (V4 i j).
  - clear V2 V3. revert V1 V4. clear -L. induction files as [|f files IH]; intros V1 V4; [apply sorted_kvs_nil|]. rewrite fmap_cons. cbn [concat]. apply sorted_kvs_app;
      [apply V1; by left|apply IH; [intros x Hx; apply V1; by right|intros i j a b Hij Ha Hb; apply (V4 (S i) (S j)); [lia|done|done]]|].
    intros a b Ha (l & (g & -> & Hg)%list_elem_of_fmap & Hb)%elem_of_concat. apply list_elem_of_lookup in Hg as [j Hj]. destruct (V4 0%nat (S j) f g ltac:(lia) eq_refl Hj) as [_ Hlt].
    specialize (Hlt b Hb). pose proof (V1 f ltac:(by left)) as [_ _ _ Fs Fl Fa]. specialize (Fa a Ha). assert (Hg' : g ∈ files) by (by eapply list_elem_of_lookup_2). destruct (V1 g ltac:(by right)) as [_ _ _ Gs _ _].
    change (Compare (Comparator := InternalKeyComparator) a.1 b.1 < 0). apply (cmp_le_lt_trans (C := InternalKeyComparator) _ (largest f)); [by apply (kvs_valid _ _ Fs)|done|by apply (kvs_valid _ _ Gs)|done|done].
  - intros j e g kv He Hg Hkv. destruct (Hf j e g He Hg) as (f & _ & Hin & -> & ->). destruct (V1 f Hin) as [_ _ _ _ _ Fa]. by apply Fa.
  - intros j j' e g kv Hlt He Hg Hkv. unfold file_index in He. rewrite list_lookup_fmap in He. rewrite list_lookup_fmap in Hg. destruct (files !! j) as [f|] eqn:Ej, (files !! j') as [f'|] eqn:Ej'; try done. injection He as <-. injection Hg as <-.
    by apply (V4 j j' f f').
Qed.

Lemma level_two_level files : level_fits files ->
  two_level_ok (C := InternalKeyComparator) GetFileIterator (length files + 2) (file_index files) (kvs_of <$> files) (lf_at files) (dat_of files) env_ok.
Proof.
  intros Hl. pose proof (level_index files Hl) as Hix. destruct Hl as [V1 V2 V3 V4]. rewrite Forall_forall in V1.
  assert (Hf : forall j k h, file_index files !! j = Some (k, h) -> exists f, files !! j = Some f /\ file_fits f /\ h = file_value f).
  { intros j k h He. unfold file_index in He. rewrite list_lookup_fmap in He. destruct (files !! j) as [f|] eqn:Ej; [|done]. injection He as <- <-. exists f. split_and!; try done. apply V1. by eapply list_elem_of_lookup_2. }
  split.
  - apply level_files_cursor; [apply Hix|done].
  - intros j g Hg. rewrite list_lookup_fmap in Hg. unfold dat_of. destruct (files !! j) as [f|] eqn:Ej; [|done]. injection Hg as <-. apply (til_cursor (number f) (file_size f)). apply V1. by eapply list_elem_of_lookup_2.
  - done.
  - intros e j k h He Hj. destruct (Hf j k h Hj) as (f & Ej & Ff & ->). destruct (open_file e f He Ff) as (it & e' & E & He' & Hat). exists it, e', (length (kvs_of f)). split_and!; [done|done|]. unfold dat_of. by rewrite Ej.
  - intros i j k k' h Hi Hj. destruct (Hf i k h Hi) as (f & Ei & Ff & ->). destruct (Hf j k' _ Hj) as (g & Ej & Fg & E). pose proof (file_value_inj f g Ff Fg E) as En.
    apply (NoDup_lookup (number <$> files) i j (number f)); [done|by rewrite list_lookup_fmap, Ei|by rewrite list_lookup_fmap, Ej, En].
  - by rewrite length_fmap.
Qed.

(** ** The children of a merging iterator *)

Inductive source := SMem (m : MemTable.t) (l : list MemTable.entry) | STable (f : FileMetaData) | SLevel (files : list FileMetaData).

Definition src_kvs (s : source) : list (bytes * bytes) :=
  match s with SMem _ l => entry_kv <$> l | STable f => kvs_of f | SLevel files => concat (kvs_of <$> files) end.

Definition src_ok (s : source) : Prop :=
  match s with
  | SMem m l => Forall MemTable.entry_ok l /\ SkipList.represents [] MemTable.key_compare MemTable.stored (MemTable.table_ m) (map MemTable.enc l)
  | STable f => file_fits f
  | SLevel files => level_fits files
  end.

Definition src_at (s : source) (c : Child J) (i : nat) : Prop :=
  match s, c with
  | SMem m l, MemChild it => mem_at_index m l it i
  | STable f, TableChild it => tat (number f) it i
  | SLevel files, LevelChild fuel it => fuel = (length files + 2)%nat /\ tl_at (file_index files) (kvs_of <$> files) (lf_at files) (dat_of files) env_ok it i
  | _, _ => False
  end.

Lemma src_cursor s : src_ok s -> icursor (src_kvs s) (src_at s).
Proof.
  destruct s as [m l|f|files]; cbn [src_ok src_kvs].
  - intros [Ho Hr]. pose proof (mem_cursor m l Ho Hr) as [C1 C2 C3]. split.
    + intros [it|it|fuel it] i Hi; try done. by apply (C1 it).
    + intros [it|it|fuel it] i Hi; try done. by apply (C2 it).
    + intros [it|it|fuel it] i op i' Hi Hop Hst; try done. destruct (C3 it i op i' Hi Hop Hst) as (it' & E & Hat). exists (MemChild it'). split; [|done]. cbn [istep Child_Iterator]. by rewrite E.
  - intros Ff. pose proof (til_cursor (number f) (file_size f) (kvs_of f) (ff_contents f Ff)) as [C1 C2 C3]. split.
    + intros [it|it|fuel it] i Hi; try done. by apply (C1 it).
    + intros [it|it|fuel it] i Hi; try done. by apply (C2 it).
    + intros [it|it|fuel it] i op i' Hi Hop Hst; try done. destruct (C3 it i op i' Hi Hop Hst) as (it' & E & Hat). exists (TableChild it'). split; [|done]. cbn [istep Child_Iterator]. by rewrite E.
  - intros Hl. pose proof (two_level_cursor (C := InternalKeyComparator) _ _ _ _ _ _ _ (level_two_level files Hl)) as [C1 C2 C3]. split.
    + intros [it|it|fuel it] i Hi; try done. destruct Hi as [_ Hi]. by apply (C1 it).
    + intros [it|it|fuel it] i Hi; try done. destruct Hi as [_ Hi]. by apply (C2 it).
    + intros [it|it|fuel it] i op i' Hi Hop Hst; try done. destruct Hi as [-> Hi]. destruct (C3 it i op i' Hi Hop Hst) as (it' & E & Hat). exists (LevelChild (length files + 2) it'). split; [|done]. cbn [istep Child_Iterator]. unfold level_step. cbn [istep TwoLevel_Iterator] in E. by rewrite E.
Qed.

(** A child that is not valid yet. *)
Definition fresh_child (s : source) (c : Child J) : Prop := src_at s c (length (src_kvs s)).

Lemma open_files_ok (open : ti_env -> Z -> Z -> J * ti_env) files :
  (forall e n size kvs, env_ok e -> contents n = Some (size, kvs) -> exists it e', open e n size = (it, e') /\ env_ok e' /\ tat n it (length kvs)) ->
  Forall file_fits files -> forall e, env_ok e -> exists its e', add_files open e files = (its, e') /\ env_ok e' /\ Forall2 fresh_child (STable <$> files) its.
Proof.
  intros Hopen. induction 1 as [|f files Hf _ IH]; intros e He; cbn [add_files].
  - exists [], e. split_and!; [done|done|constructor].
  - destruct (Hopen e (number f) (file_size f) (kvs_of f) He (ff_contents f Hf)) as (it & e1 & -> & He1 & Hat). destruct (IH e1 He1) as (its & e2 & -> & He2 & Hits). exists (TableChild it :: its), e2. split_and!; [done|done|]. by constructor.
Qed.

Lemma concatenating_fresh e files : env_ok e -> level_fits files -> fresh_child (SLevel files) (NewConcatenatingIterator e files).
Proof.
  intros He Hl. split; [done|]. apply two_level_new with (i := length files); [done|]. split; [done|]. split; [|done]. destruct Hl as [_ Hz _ _]. pose proof (zlen_nonneg files). unfold LevelFileNumIterator_new. cbn [index_]. rewrite u32_small by lia. done.
Qed.

Definition level_source (files : list FileMetaData) : list source := match files with [] => [] | _ => [SLevel files] end.

Lemma add_level_ok e files : env_ok e -> level_fits files -> Forall2 fresh_child (level_source files) (add_level e files).
Proof. intros He Hl. destruct files; [constructor|]. constructor; [by apply concatenating_fresh|constructor]. Qed.

Definition version_sources (levels : list (list FileMetaData)) : list source := (STable <$> default [] (head levels)) ++ concat (level_source <$> tail levels).

Lemma AddIterators_ok e levels : env_ok e -> Forall file_fits (default [] (head levels)) -> Forall level_fits (tail levels) ->
  exists its e', AddIterators levels e = (its, e') /\ env_ok e' /\ Forall2 fresh_child (version_sources levels) its.
Proof.
  intros He H0 Hl. unfold AddIterators. destruct (open_files_ok ti_New (default [] (head levels)) til_new H0 e He) as (its & e' & -> & He' & Hits). eexists _, _. split; [done|]. split; [done|]. apply Forall2_app; [done|].
  clear -He' Hl. induction Hl as [|files levels' Hf _ IH]; [constructor|]. cbn [fmap list_fmap concat]. apply Forall2_app; [by apply add_level_ok|done].
Qed.

Lemma sources_kvs levels : concat (src_kvs <$> version_sources levels) = all_entries contents levels.
Proof.
  unfold version_sources, all_entries. rewrite fmap_app, concat_app. destruct levels as [|files levels]; [done|]. cbn [head tail default fmap list_fmap concat]. f_equal.
  - unfold level_entries. by rewrite <- list_fmap_compose.
  - induction levels as [|fs levels IH]; [done|]. cbn [fmap list_fmap concat]. rewrite fmap_app, concat_app, IH. f_equal. destruct fs; [done|]. cbn. by rewrite app_nil_r.
Qed.

(** ** Merging *)

Lemma src_sorted s : src_ok s -> sorted_kvs (C := InternalKeyComparator) (src_kvs s).
Proof.
  destruct s as [m l|f|files]; cbn [src_ok src_kvs].
  - intros [Ho Hr]. destruct (SkipList.represents_sorted _ _ _ _ _ Hr) as [Hsk _]. pose proof (MemTable.enc_sorted l Ho Hsk) as Hs. clear Hsk Hr. induction Hs as [|e l Hs IH Hlt]; [apply sorted_kvs_nil|].
    apply Forall_cons in Ho as [(Hv & _) Ho]. rewrite fmap_cons. apply sorted_kvs_cons; [by apply valid_ikey|by apply IH|]. intros x (e' & -> & He')%list_elem_of_fmap. rewrite Forall_forall in Hlt. by apply Hlt.
  - intros Hf. apply Hf.
  - intros Hl. apply (level_index files Hl).
Qed.

Definition sources_at (sources : list source) (i : nat) (c : Child J) (p : nat) : Prop := match sources !! i with Some s => src_at s c p | None => False end.

(** The merging iterator over fresh children is a cursor over all their entries. *)
Lemma merged_sources sources its merged : Forall src_ok sources -> Forall2 fresh_child sources its -> merged ≡ₚ concat (src_kvs <$> sources) -> sorted_kvs (C := InternalKeyComparator) merged ->
  exists at_, cursor_over (H := InternalKeyComparator) (Iterator0 := Merged_Iterator (C := InternalKeyComparator)) merged at_ /\ at_ (NewMergingIterator its) (length merged).
Proof.
  intros Hok Hits Hp Hs. assert (Hun : union_of (C := InternalKeyComparator) (src_kvs <$> sources) merged).
  { split; [|done|done]. apply Forall_fmap. apply (Forall_impl _ _ _ Hok). intros s. apply src_sorted. }
  assert (Hch : forall i l, (src_kvs <$> sources) !! i = Some l -> icursor l (sources_at sources i)).
  { intros i l Hi. rewrite list_lookup_fmap in Hi. unfold sources_at. destruct (sources !! i) as [s|] eqn:E; [|done]. injection Hi as <-. apply src_cursor. by eapply Forall_lookup_1. }
  exists (merged_at (src_kvs <$> sources) merged (sources_at sources)). split; [by apply (merged_cursor (C := InternalKeyComparator))|].
  apply (merged_new (C := InternalKeyComparator) _ _ _ Hun Hch); [rewrite length_fmap; symmetry; by apply Forall2_length in Hits|].
  intros i it l Hit Hi. rewrite list_lookup_fmap in Hi. unfold sources_at. destruct (sources !! i) as [s|] eqn:E; [|done]. injection Hi as <-. exact (Forall2_lookup_lr _ _ _ _ _ _ Hits E Hit).
Qed.

(** ** The input of a compaction *)

Definition input_sources (level : Z) (files : list FileMetaData) : list source := if level =? 0 then STable <$> files else level_source files.

Definition inputs_fit (level : Z) (files : list FileMetaData) : Prop := if level =? 0 then Forall file_fits files else level_fits files.

Lemma add_inputs_ok e level files : env_ok e -> inputs_fit level files ->
  exists its e', add_inputs level files e = (its, e') /\ env_ok e' /\ Forall2 fresh_child (input_sources level files) its /\ (zlen its <= if level =? 0 then zlen files else 1).
Proof.
  intros He. unfold inputs_fit, add_inputs, input_sources. destruct (level =? 0).
  - intros Hf. destruct (open_files_ok ti_Buffered files til_buffered Hf e He) as (its & e' & E & He' & Hits). exists its, e'. split_and!; [done|done|done|]. apply Forall2_length in Hits. rewrite length_fmap in Hits. unfold zlen. lia.
  - intros Hl. eexists _, _. split_and!; [done|done|by apply add_level_ok|]. by destruct files.
Qed.

Lemma input_kvs level files : concat (src_kvs <$> input_sources level files) = level_entries contents files.
Proof.
  unfold input_sources, level_entries. destruct (level =? 0); [by rewrite <- list_fmap_compose|]. destruct files; [done|]. cbn. by rewrite app_nil_r.
Qed.

Lemma inputs_src_ok level files : inputs_fit level files -> Forall src_ok (input_sources level files).
Proof. unfold inputs_fit, input_sources. destruct (level =? 0); [by intros H; apply Forall_fmap|]. intros Hl. destruct files; [constructor|by constructor]. Qed.

(** The iterator over the inputs of a compaction. *)
Lemma MakeInputIterator_ok e level files0 files1 merged : 0 <= level -> env_ok e -> inputs_fit level files0 -> level_fits files1 ->
  merged ≡ₚ level_entries contents files0 ++ level_entries contents files1 -> sorted_kvs (C := InternalKeyComparator) merged ->
  exists it e' at_, MakeInputIterator level files0 files1 e = Some (it, e') /\ env_ok e' /\
    cursor_over (H := InternalKeyComparator) (Iterator0 := Merged_Iterator (C := InternalKeyComparator)) merged at_ /\ at_ it (length merged).
Proof.
  intros Hlev He H0 H1 Hp Hs. unfold MakeInputIterator. destruct (add_inputs_ok e level files0 He H0) as (its0 & e0 & -> & He0 & Hi0 & Hz0).
  assert (Hl1 : level + 1 =? 0 = false) by (apply Z.eqb_neq; lia). assert (H1' : inputs_fit (level + 1) files1) by (unfold inputs_fit; by rewrite Hl1).
  destruct (add_inputs_ok e0 (level + 1) files1 He0 H1') as (its1 & e1 & -> & He1 & Hi1 & Hz1). rewrite Hl1 in Hz1. rewrite (proj2 (Z.leb_le _ _)) by (rewrite zlen_app; destruct (level =? 0); lia).
  destruct (merged_sources (input_sources level files0 ++ input_sources (level + 1) files1) (its0 ++ its1) merged) as (at_ & Hc & Hat); [| |by rewrite fmap_app, concat_app, !input_kvs|done|].
  - apply Forall_app. split; by apply inputs_src_ok.
  - by apply Forall2_app.
  - by eexists _, e1, at_.
Qed.

(** ** Scans of the database *)

(** The memtables of [d] hold [em] and [ei], and its current version has the tables
    of [levels]. *)
Record scannable (d : Db) (em ei : list MemTable.entry) (levels : list (list FileMetaData)) : Prop := {
  sn_mem : MemTable.holds (DbWrite.mem_ d) em;
  sn_imm : match imm_ d with Some m => MemTable.holds m ei | None => ei = [] end;
  sn_version : exists cur v, current_ (VersionSet.versions_ (DbWrite.versions_ d)) = Some cur /\ by_addr (VersionSet.versions_ (DbWrite.versions_ d)) !! cur = Some v /\
    load_levels (st_files (store_ (DbWrite.versions_ d))) v = Some levels;
  sn_level0 : Forall file_fits (default [] (head levels));
  sn_levels : Forall level_fits (tail levels)
}.

Lemma holds_source m es : MemTable.holds m es -> exists l, l ≡ₚ es /\ src_ok (SMem m l) /\ fresh_child (SMem m l) (MemChild (MkMemIter m None)).
Proof.
  intros (Hok & _ & ks & Hr & Hp). apply Permutation_map_inv in Hp as (l & -> & Hpl). assert (Hok' : Forall MemTable.entry_ok l) by (by rewrite <- Hpl). exists l. split; [done|]. split; [done|].
  unfold fresh_child. cbn [src_kvs src_at]. rewrite length_fmap. split; [|lia]. destruct Hr as (lh & nodes & W & E). split; [done|]. exists lh, nodes. split_and!; [done|done|]. cbn. symmetry. apply lookup_ge_None.
  apply (f_equal length) in E. rewrite !length_map in E. lia.
Qed.

(** [NewInternalIterator]: a cursor over everything. *)
Lemma NewInternalIterator_ok d e seed em ei levels merged : scannable d em ei levels -> env_ok e ->
  merged ≡ₚ (entry_kv <$> em ++ ei) ++ all_entries contents levels -> sorted_kvs (C := InternalKeyComparator) merged ->
  exists it r e' d' at_, NewInternalIterator d e seed = Some (it, last_seq (DbWrite.versions_ d), u32 (seed + 1), r, e', d') /\ env_ok e' /\
    cursor_over (H := InternalKeyComparator) (Iterator0 := Merged_Iterator (C := InternalKeyComparator)) merged at_ /\ at_ it (length merged).
Proof.
  intros [M1 M2 (cur & v & V1 & V2 & V3) F0 Fl] He Hp Hs. unfold NewInternalIterator, begin_read, Version_Ref. rewrite V1. cbn [mbind option_bind]. rewrite V2. cbn [mbind option_bind].
  cbn [r_version DbWrite.versions_ VersionSet.versions_ with_heap store_ by_addr]. rewrite lookup_insert_eq. cbn [mbind option_bind]. change (load_levels _ (with_count v _)) with (load_levels (st_files (store_ (DbWrite.versions_ d))) v).
  rewrite V3. cbn [mbind option_bind r_mem r_imm r_snapshot default]. destruct (AddIterators_ok e levels He F0 Fl) as (its & e' & -> & He' & Hits).
  destruct (holds_source (MemTable.Ref (DbWrite.mem_ d)) em M1) as (lm & Hlm & Hsm & Hfm).
  assert (Himm : exists ss cs, match MemTable.Ref <$> imm_ d with Some m => [MemChild (MkMemIter m None)] | None => [] end = cs /\ Forall src_ok ss /\ Forall2 fresh_child ss cs /\ concat (src_kvs <$> ss) ≡ₚ entry_kv <$> ei).
  { destruct (imm_ d) as [m|]; cbn [fmap option_fmap option_map].
    - destruct (holds_source (MemTable.Ref m) ei M2) as (li & Hli & Hsi & Hfi). exists [SMem (MemTable.Ref m) li], [MemChild (MkMemIter (MemTable.Ref m) None)]. split_and!; [done|by constructor|by constructor|]. cbn. rewrite app_nil_r. by rewrite Hli.
    - subst ei. exists [], []. split_and!; [done|constructor|constructor|done]. }
  destruct Himm as (ss & cs & -> & Hss & Hcs & Hkv).
  destruct (merged_sources ((SMem (MemTable.Ref (DbWrite.mem_ d)) lm :: ss) ++ version_sources levels) ((MemChild (MkMemIter (MemTable.Ref (DbWrite.mem_ d)) None) :: cs) ++ its) merged) as (at_ & Hc & Hat); [| | |done|].
  - apply Forall_app. split; [by constructor|]. unfold version_sources. apply Forall_app. split; [by apply Forall_fmap|]. apply Forall_concat, Forall_fmap. apply (Forall_impl _ _ _ Fl). intros files Hf. cbn. destruct files; [constructor|by constructor].
  - apply Forall2_app; [by constructor|done].
  - rewrite fmap_app, concat_app, sources_kvs, fmap_cons. cbn [concat src_kvs]. rewrite Hp. apply Permutation_app_tail. rewrite fmap_app. apply Permutation_app; [by rewrite Hlm|by symmetry].
  - by eexists _, _, e', _, at_.
Qed.

(** C3. Scanning the database.  Let the memtables hold entries, the files of the
    current version be tables with their metadata, and the table cache open them.
    The iterator of [NewIterator], under any sequence of seeks and moves in both
    directions that the user's view allows, returns from every call with an OK
    status and shows the entry of the view at its position.  The view has, for
    every user key, the value of the newest version not above the snapshot, or the
    last sequence number, over the memtable, the immutable memtable and all levels,
    and no entry if that version is a deletion. *)
Theorem database_scan d e seed snap em ei levels (vs : list version) fuel ops p : scannable d em ei levels -> env_ok e ->
  encode_all vs ≡ₚ (entry_kv <$> em ++ ei) ++ all_entries contents levels -> sorted_kvs (C := InternalKeyComparator) (encode_all vs) ->
  Forall (fun v => valid_key (v_user v) /\ seq_ok (v_seq v)) vs -> (length vs < fuel)%nat ->
  let s := default (last_seq (DbWrite.versions_ d)) snap in seq_ok s -> Forall op_ok ops -> cursor_run (snapshot s vs) (length (snapshot s vs)) ops = Some p ->
  let db_iterator := DBIter.DBIter_Iterator (Iterator0 := Merged_Iterator (C := InternalKeyComparator)) fuel in
  exists it seed' r e' d', NewIterator d e seed snap = Some (it, seed', r, e', d') /\ env_ok e' /\
    exists it', irun (Iterator0 := db_iterator) it ops = Some it' /\ ishows (Iterator0 := db_iterator) it' (snapshot s vs) p.
Proof.
  intros Hd He Hp Hs Hv Hf s Hseq Hops Hrun db_iterator. destruct (NewInternalIterator_ok d e seed em ei levels (encode_all vs) Hd He Hp Hs) as (it & r & e' & d' & at_ & E & He' & Hc & Hat).
  unfold NewIterator. rewrite E. cbn [mbind option_bind]. fold s. eexists _, _, _, _, _. split; [done|]. split; [done|].
  assert (Hok : versions_ok (C := C) (Iterator0 := Merged_Iterator (C := InternalKeyComparator)) fuel s vs at_) by (split; [done|done|done|done|done]).
  destruct (cursor_run_at (Iterator0 := db_iterator) (snapshot s vs) _ ops (di_cursor fuel s vs _ Hok) (DBIter.NewDBIterator it s (u32 (seed + 1))) (length (snapshot s vs)) p) as (it' & Hit' & Hp'); [by eapply di_new|done|done|].
  exists it'. split; [done|]. exact (di_shows fuel s vs _ Hok it' p Hp').
Qed.
End Scans.

(** ** Keys that are short enough *)

(** The bytewise comparator for keys whose internal keys have a 32-bit length. *)
Definition ShortKeys : Comparator := {|
  Compare := Bytewise.compare;
  FindShortestSeparator := @FindShortestSeparator BytewiseComparator;
  FindShortSuccessor := @FindShortSuccessor BytewiseComparator;
  FindShortSuccessorBeginWith := @FindShortSuccessorBeginWith BytewiseComparator;
  valid_key := fun k => bytes_ok k /\ zlen k + 8 < 2 ^ 32
|}.

#[export] Instance ShortLaws : ComparatorLaws ShortKeys.
Proof.
  pose proof BytewiseLaws as B.
  assert (Hlen : forall a b : bytes, (length a <= length b)%nat -> zlen b + 8 < 2 ^ 32 -> zlen a + 8 < 2 ^ 32) by (intros a b; unfold zlen; lia).
  split; cbn [Compare FindShortestSeparator FindShortSuccessor FindShortSuccessorBeginWith valid_key ShortKeys].
  - by intros a [? _].
  - intros a [Ha _]. by apply (cmp_refl (C := BytewiseComparator)).
  - intros a b [Ha _] [Hb _]. by apply (cmp_antisym (C := BytewiseComparator)).
  - intros a b c [Ha _] [Hb _] [Hc _]. by apply (cmp_trans (C := BytewiseComparator)).
  - intros s l [Hs Zs] [Hl Zl]. split; [by apply (sep_valid (C := BytewiseComparator))|]. eapply Hlen; [by apply (sep_length (C := BytewiseComparator) s l)|done].
  - intros s l [Hs _] [Hl _]. by apply (sep_between (C := BytewiseComparator)).
  - intros s l [Hs _] [Hl _]. by apply (sep_length (C := BytewiseComparator)).
  - intros s [Hs Zs]. split; [by apply (short_succ_valid (C := BytewiseComparator))|]. eapply Hlen; [by apply (short_succ_length (C := BytewiseComparator) s)|done].
  - intros s [Hs _]. by apply (short_succ_above (C := BytewiseComparator)).
  - intros s [Hs _]. by apply (short_succ_length (C := BytewiseComparator)).
  - intros s n [Hs Zs]. split; [by apply (succ_valid (C := BytewiseComparator))|]. eapply Hlen; [|done]. cbn [FindShortSuccessorBeginWith BytewiseComparator].
    destruct (successor_cases s n Hs) as [->|(p & x & r & -> & _ & _ & ->)]; [lia|]. rewrite !length_app. cbn. lia.
  - intros s n [Hs _]. by apply (succ_above (C := BytewiseComparator)).
Qed.

(** ** An example: the database of DbRead.v *)

Module ScanRuns.
Import WriteRuns ReadRuns.
#[local] Existing Instance ShortKeys.
#[local] Existing Instance ShortLaws.

#[local] Instance block_child : Iterator BIter := @BIter_Iterator InternalKeyComparator.

Definition open_block (n : Z) : BIter := bi_open (Block_new (build_block 2 (match read_contents n with Some (_, kvs) => kvs | None => [] end))).

#[local] Instance block_tables : TableIterators BIter := {|
  ti_env := unit;
  ti_New := fun e n _ => (open_block n, e);
  ti_Buffered := fun e n _ => (open_block n, e);
  ti_Error := NewErrorIterator
|}.

Definition block_pos (n : Z) : BIter -> nat -> Prop := match read_contents n with Some (_, kvs) => bi_at 2 kvs | None => fun _ _ => False end.

Lemma short_key_ok u n t : bytes_ok u -> zlen u + 8 < 2 ^ 32 -> @valid_key InternalKeyComparator (InternalKey_make u n t).
Proof. intros Hu Hz. apply valid_ikey. by split. Qed.

Lemma short_sorted n size kvs : read_contents n = Some (size, kvs) -> sorted_kvs (C := InternalKeyComparator) kvs.
Proof.
  unfold read_contents. case_match; [|done]. intros [= <- <-].
  repeat (apply sorted_kvs_cons; [apply short_key_ok; [by_decide|reflexivity]| |apply Forall_forall; by_decide]); apply sorted_kvs_nil.
Qed.

Lemma open_block_at n size kvs : read_contents n = Some (size, kvs) -> block_pos n (open_block n) (length kvs).
Proof.
  intros E. unfold block_pos, open_block. rewrite E. assert (Hall : Forall kv_ok kvs /\ zlen (build_block 2 kvs) < 2 ^ 32).
  { unfold read_contents in E. case_match; [|done]. injection E as <- <-. split; [by_decide|vm_compute; reflexivity]. }
  destruct Hall. by apply bi_open_at.
Qed.

#[local] Instance block_laws : TableIteratorsLaws BIter read_contents (fun _ => True) block_pos.
Proof.
  split.
  - intros n size kvs E. unfold block_pos. rewrite E. apply bi_cursor. by eapply short_sorted.
  - intros e n size kvs _ E. eexists _, _. split_and!; [done|done|by eapply open_block_at].
  - intros e n size kvs _ E. eexists _, _. split_and!; [done|done|by eapply open_block_at].
Qed.

Lemma scan_file_fits : file_fits read_contents read_file.
Proof.
  split.
  - vm_compute. reflexivity.
  - split; [vm_compute; discriminate|vm_compute; reflexivity].
  - split; [vm_compute; discriminate|vm_compute; reflexivity].
  - apply (short_sorted 5 10). vm_compute. reflexivity.
  - apply short_key_ok; [by_decide|reflexivity].
  - apply Forall_forall. by_decide.
Qed.

Lemma scan_level_fits files : files ∈ read_levels -> level_fits read_contents files.
Proof.
  intros Hin. assert (Hc : files = [] \/ files = [read_file]).
  { assert (E : read_levels = [[]; [read_file]; []; []; []; []; []; []]) by reflexivity. rewrite E in Hin. repeat (apply elem_of_cons in Hin as [->|Hin]; [first [by left|by right]|]). by apply elem_of_nil in Hin. }
  destruct Hc as [->| ->]; (split; [|reflexivity| |intros [|i] [|j] f g Hij Hi Hj; try lia; done]); [constructor|constructor|constructor; [exact scan_file_fits|constructor]|apply NoDup_singleton].
Qed.

Lemma scan_holds : MemTable.holds (DbWrite.mem_ db3) db3_entries.
Proof.
  destruct (InsertInto_wire MemTable.make [] (rq_ops (take 2 requests)) 101 MemTable.make_holds) as (m & E & Hm); [|constructor|lia|vm_compute; discriminate|reflexivity|].
  { repeat (apply Forall_cons_2; [split; [split; [by_decide|reflexivity]|split; [reflexivity|done]]|]). constructor. }
  assert (E' : WriteBatch.InsertInto (WriteBatch.wire 101 (rq_ops (take 2 requests))) MemTable.make = Some (Some (DbWrite.mem_ db3), Status_OK)) by (vm_compute; reflexivity).
  by rewrite <- (WriteRecovery.RecoveryRuns.same_table _ _ _ _ _ E E').
Qed.

Lemma db3_scannable : scannable read_contents db3 db3_entries [] read_levels.
Proof.
  destruct db3_set as [E1 E2]. split.
  - exact scan_holds.
  - assert (E : imm_ db3 = None) by (vm_compute; reflexivity). by rewrite E.
  - exists 0, (MkVersion 2 example_base None (-1) minus_one (-1)). rewrite E1, E2. split_and!; reflexivity.
  - constructor.
  - apply Forall_forall. intros files Hin. apply scan_level_fits. by right.
Qed.

Definition scan_versions : list version :=
  [DbSnapshot.MkVersion [97] 103 kTypeDeletion []; DbSnapshot.MkVersion [97] 101 kTypeValue [1]; DbSnapshot.MkVersion [97] 9 kTypeValue [5];
   DbSnapshot.MkVersion [98] 102 kTypeValue [2]; DbSnapshot.MkVersion [100] 5 kTypeValue [6]].

Lemma scan_sorted : sorted_kvs (C := InternalKeyComparator) (encode_all scan_versions).
Proof. repeat (apply sorted_kvs_cons; [apply short_key_ok; [by_decide|reflexivity]| |apply Forall_forall; by_decide]); apply sorted_kvs_nil. Qed.

(** At the last sequence number the key 97 is deleted; at 101 it has its first
    value, and 98 has none yet. *)
Lemma database_scan_witness :
  snapshot 104 scan_versions = [([98], [2]); ([100], [6])] /\ snapshot 101 scan_versions = [([97], [1]); ([100], [6])] /\
  let db_iterator := DBIter.DBIter_Iterator (Iterator0 := Merged_Iterator (Iterator0 := Child_Iterator) (C := InternalKeyComparator)) 6 in
  exists it seed' r e' d', NewIterator db3 tt 0 (Some 101) = Some (it, seed', r, e', d') /\
    exists it', irun (Iterator0 := db_iterator) it [OpFirst; OpNext; OpPrev; OpSeek [98]] = Some it' /\ ishows (Iterator0 := db_iterator) it' [([97], [1]); ([100], [6])] 1.
Proof.
  assert (Hsn : snapshot 101 scan_versions = [([97], [1]); ([100], [6])]) by (vm_compute; reflexivity). split; [vm_compute; reflexivity|]. split; [exact Hsn|]. intros db_iterator.
  destruct (database_scan (C := ShortKeys) (L := ShortLaws) (J := BIter) (Iterator0 := block_child) (TableIterators0 := block_tables) (TIL := block_laws) (fun u Hu => proj2 Hu) read_contents (fun _ => True) block_pos db3 tt 0 (Some 101) db3_entries [] read_levels scan_versions 6 [OpFirst; OpNext; OpPrev; OpSeek [98]] 1)
    as (it & seed' & r & e' & d' & E & _ & it' & R1 & R2).
  - exact db3_scannable.
  - exact Logic.I.
  - by_decide.
  - exact scan_sorted.
  - by_decide.
  - cbn. lia.
  - split; vm_compute; discriminate.
  - repeat (apply Forall_cons_2; [first [exact Logic.I|split; [by_decide|reflexivity]]|]). constructor.
  - vm_compute. reflexivity.
  - exists it, seed', r, e', d'. split; [exact E|]. exists it'. split; [exact R1|]. rewrite <- Hsn. exact R2.
Defined.
End ScanRuns.
