(* ===== verification/TableCaching.v ===== *)
(** * TableCaching: the table cache

    src/LSM-EBF/db/table_cache.cc: open tables kept in the multi queue of
    MultiQueue.v, under a handle for the table (region id 0) and one for each of
    its regions.  A new output of a compaction gets the frequencies of the inputs
    whose regions it overlaps.  The opening of files by [Env] is given by the
    interface [TableFiles]; a table is an address, as in MultiQueue.v, and
    [next_table] is the address of the next one.  [None] is a failed assertion, a
    run the source leaves undefined, or one that does not end. *)
From stdpp Require Import gmap.
From Stdlib Require Import SpecFloat.
From S2P Require Import Prelude Coding Crc32c Status Comparator DbFormat Filename TableFormat Block Iterators TwoLevel FilterBlock TableFilters TableBuilder Table TableIter.
From S2P Require Import Hash Bloom Cache MultiQueue QueueTables VersionGet.

(** [NewRandomAccessFile] and [NewBufferedRandomAccessFile] of [Env]. *)
Class TableFiles := {
  tf_env : Type;
  tf_New : tf_env -> bytes -> Status * RandomAccessFile * tf_env;
  tf_Buffered : tf_env -> bytes -> Status * RandomAccessFile * tf_env
}.

(** The key of region [id] of a file; 0 is the table itself. *)
Definition file_key (n id : Z) : bytes := EncodeFixed64 n ++ EncodeFixed32 id.

(** ** Frequencies of a compaction's output *)

Section Frequencies.
Context {C : Comparator}.

(** The keys that bound the regions of a table and the accesses of each. *)
Definition regions : Type := list bytes * list Z.

(** The [while] loop: regions that end at or before [lo] are passed. *)
Fixpoint skip_regions (fuel : nat) (keys : list bytes) (count : nat) (lo : bytes) (cur_region : nat) : option nat :=
  match fuel with
  | O => None
  | S fuel =>
      t_right_key ← keys !! S cur_region;
      if Compare t_right_key lo <=? 0 then
        if (count <=? S cur_region)%nat then Some (S cur_region) else skip_regions fuel keys count lo (S cur_region)
      else Some cur_region
  end.

(** The part of one input in the region from [lo] to [hi], and the region
    of the input to go on with. *)
Definition region_share (lo hi : bytes) (r : regions) (cur_region : nat) : option (nat * Z) :=
  let keys := r.1 in
  let freqs := r.2 in
  let count := length freqs in
  if (count <=? cur_region)%nat then Some (cur_region, 0)
  else
    t_left_key ← keys !! cur_region;
    if Compare hi t_left_key <=? 0 then Some (cur_region, 0)
    else
      cur_region ← skip_regions (S count) keys count lo cur_region;
      if (count <=? cur_region)%nat then Some (cur_region, 0)
      else f ← freqs !! cur_region; Some (cur_region, f).

(** The loop over [j]. *)
Fixpoint add_shares (lo hi : bytes) (inputs : list regions) (region_iters : list nat) (freq : Z) : option (list nat * Z) :=
  match inputs, region_iters with
  | r :: inputs, cur_region :: region_iters =>
      '(cur_region, f) ← region_share lo hi r cur_region;
      '(region_iters, freq) ← add_shares lo hi inputs region_iters (i32 (freq + f));
      Some (cur_region :: region_iters, freq)
  | _, _ => Some ([], freq)
  end.

(** The loop over [i]. *)
Fixpoint merge_loop (inputs : list regions) (region_keys_cur : list bytes) (region_iters : list nat) : option (list Z) :=
  match region_keys_cur with
  | lo :: ((hi :: _) as region_keys_cur) =>
      '(region_iters, freq) ← add_shares lo hi inputs region_iters 0;
      freqs ← merge_loop inputs region_keys_cur region_iters;
      Some (freq :: freqs)
  | _ => Some []
  end.

Definition merge_freqs (inputs : list regions) (region_keys_cur : list bytes) : option (list Z) :=
  merge_loop inputs region_keys_cur (replicate (length inputs) 0%nat).

(** [total_freq]. *)
Definition sum_freqs (freqs : list Z) : Z := foldl (fun total f => i32 (total + f)) 0 freqs.
End Frequencies.

(** ** The cache *)

(** The value of a handle: an open table and the file it was opened on.  Its
    reference count is never read. *)
Record TableAndFile := MkTableAndFile { tf_file : RandomAccessFile; tf_table : Table.Table }.

Section Caching.
Context `{!Crc32c, !Snappy} {C : Comparator} {FP : FilterPolicy} {BC : BlockCache} {TF : TableFiles}.

Definition on_table {A} (tf : TableAndFile) (r : option (A * Table.Table)) : option (A * TableAndFile) :=
  '(x, t) ← r; Some (x, MkTableAndFile (tf_file tf) t).

#[export] Instance file_regions : RegionTable TableAndFile := {
  rt_num tf r := rt_num (tf_table tf) r;
  rt_remove tf n r := on_table tf (rt_remove (tf_table tf) n r);
  rt_adjust tf n r := on_table tf (rt_adjust (tf_table tf) n r);
  rt_access tf r := t ← rt_access (tf_table tf) r; Some (MkTableAndFile (tf_file tf) t)
}.

Context (P : Params) (dbname : bytes).

Record TableCaches := MkTableCaches {
  tc_queue : MultiQueue TableAndFile;
  tc_options : Options;
  level0_freq : Z;
  tc_env : tf_env;
  block_cache : option cache;
  next_table : Z
}.

Definition with_queue (tc : TableCaches) (mq : MultiQueue TableAndFile) : TableCaches :=
  MkTableCaches mq (tc_options tc) (level0_freq tc) (tc_env tc) (block_cache tc) (next_table tc).
Definition with_env (tc : TableCaches) (e : tf_env) (oc : option cache) : TableCaches :=
  MkTableCaches (tc_queue tc) (tc_options tc) (level0_freq tc) e oc (next_table tc).
Definition with_options (tc : TableCaches) (o : Options) : TableCaches :=
  MkTableCaches (tc_queue tc) o (level0_freq tc) (tc_env tc) (block_cache tc) (next_table tc).
Definition with_level0 (tc : TableCaches) (n : Z) : TableCaches :=
  MkTableCaches (tc_queue tc) (tc_options tc) n (tc_env tc) (block_cache tc) (next_table tc).

Definition set_add_filter (o : Options) (b : bool) : Options :=
  MkOptions (comparator o) (paranoid_checks o) (block_size o) (block_restart_interval o) (compression o) (filter_policy o) b
    (init_filter_nums o) (freq_divide_size o) (opt_region_divide_size o) (opt_kFilterBaseLg o).

Definition TableCache_new (o : Options) (e : tf_env) (oc : option cache) (init : bool) (garbage : Z) : option TableCaches :=
  mq ← MultiQueue_new P init garbage; Some (MkTableCaches mq o 0 e oc 0).

Definition table_of (mq : MultiQueue TableAndFile) (handle : nat) : option (Z * TableAndFile) :=
  p ← Value mq handle; t ← tables (mem mq) !! p; Some (p, t).

(** A file, or the one with the old suffix. *)
Definition open_file (open : tf_env -> bytes -> Status * RandomAccessFile * tf_env) (e : tf_env) (n : Z) : Status * RandomAccessFile * tf_env :=
  let '(s, f, e) := open e (TableFileName dbname n) in
  if ok s then (s, f, e)
  else let '(s', f', e) := open e (SSTTableFileName dbname n) in if ok s' then (Status_OK, f', e) else (s, f, e).

(** The regions of the inputs that are in the cache. *)
Fixpoint input_regions (mq : MultiQueue TableAndFile) (numbers : list Z) : option (list regions * MultiQueue TableAndFile) :=
  match numbers with
  | [] => Some ([], mq)
  | n :: numbers =>
      '(handle, mq) ← Lookup P mq (file_key n 0) false;
      match handle with
      | None => input_regions mq numbers
      | Some a =>
          '(_, tf) ← table_of mq a;
          let t := tf_table tf in
          region_keys ← Table.getRegionKeyRanges t;
          if zlen (Table.freqs t) =? zlen region_keys - 1 then
            mq ← Release P mq a;
            '(inputs, mq) ← input_regions mq numbers;
            Some ((region_keys, Table.freqs t) :: inputs, mq)
          else None
      end
  end.

(** The number of filters to load at first, and the frequency of the regions. *)
Definition output_freqs (mq : MultiQueue TableAndFile) (o : Options) (meta : TableMetaData) (numbers : list Z)
    : option (Z * Z * TableMetaData * MultiQueue TableAndFile) :=
  '(inputs, mq) ← input_regions mq numbers;
  region_keys_cur ← Table.getRegionKeyRangesByStr o (index_data meta);
  freqs ← merge_freqs inputs region_keys_cur;
  let total_freq := sum_freqs freqs in
  filter_num ← AllocFilterNums P mq total_freq;
  match freqs with
  | [] => None
  | _ => Some (zlen freqs, total_freq, MkMetaData (index_data meta) (filter_data meta) (filter_num :: replicate (length freqs - 1) 0), mq)
  end.

(** The handles of the regions, from [id] on. *)
Fixpoint insert_regions (mq : MultiQueue TableAndFile) (n p id : Z) (charge : list Z) (fre_count : option Z) : option (MultiQueue TableAndFile) :=
  match charge with
  | [] => Some mq
  | ch :: charge =>
      '(_, mq) ← Insert P mq (file_key n id) p ch true;
      mq ← match fre_count with Some k => SetFreCount P mq (file_key n id) k | None => Some mq end;
      insert_regions mq n p (id + 1) charge fre_count
  end.

(** The new table is entered with all its regions. *)
Definition enter_table (tc : TableCaches) (n : Z) (file : RandomAccessFile) (t : Table.Table) (charge : option (list Z)) (file_level freq_count total_freq : Z) : option (nat * TableCaches) :=
  let p := next_table tc in
  let regionNum := Z.to_nat (getRegionNum (Table.rep t)) in
  let charge := default (replicate regionNum 0) charge in
  if (regionNum <=? length charge)%nat then
    '(handle, mq) ← Insert P (put_table (tc_queue tc) p (MkTableAndFile file t)) (file_key n 0) p 0 true;
    let fre_count := if file_level =? 0 then Some (level0_freq tc) else if freq_count =? 0 then None else Some (u64 total_freq) in
    mq ← insert_regions mq n p 1 (take regionNum charge) fre_count;
    Some (handle, MkTableCaches mq (tc_options tc) (level0_freq tc) (tc_env tc) (block_cache tc) (p + 1))
  else None.

Definition FindTable (tc : TableCaches) (n file_size file_level : Z) (meta : option TableMetaData) (inputs : option (list Z))
    : option (Status * option nat * option TableMetaData * TableCaches) :=
  '(handle, mq) ← Lookup P (tc_queue tc) (file_key n 0) false;
  match handle with
  | Some a => Some (Status_OK, Some a, meta, with_queue tc mq)
  | None =>
      let '(s, file, e) := open_file tf_New (tc_env tc) n in
      '(freq_count, total_freq, meta, mq) ←
        match inputs with
        | Some numbers => m ← meta; '(count, total, m, mq) ← output_freqs mq (tc_options tc) m numbers; Some (count, total, Some m, mq)
        | None => Some (0, 0, meta, mq)
        end;
      let tc := with_env (with_queue tc mq) e (block_cache tc) in
      if ok s then
        '(s, opened, _, oc) ← Table.Open (tc_options tc) file file_size (block_cache tc) meta;
        let tc := with_env tc e oc in
        match opened with
        | Some (t, charge) => '(handle, tc) ← enter_table tc n file t charge file_level freq_count total_freq; Some (s, Some handle, meta, tc)
        | None => Some (s, None, meta, tc)
        end
      else Some (s, None, meta, tc)
  end.

(** A table of the caller's own. *)
Definition FindBufferedTable (tc : TableCaches) (n file_size : Z) : option (Status * option Table.Table * TableCaches) :=
  let '(s, file, e) := open_file tf_Buffered (tc_env tc) n in
  let tc := with_env tc e (block_cache tc) in
  if ok s then
    '(s, opened, _, oc) ← Table.Open (tc_options tc) file file_size (block_cache tc) None;
    Some (s, match opened with Some (t, _) => Some t | None => None end, with_env tc e oc)
  else Some (s, None, tc).

(** ** Iterators *)

Definition CachedIterator : Type := (nat * @TwoLevelIterator BIter BIter (Table.Table * option cache)) + BIter.

Definition NewBufferedIterator (tc : TableCaches) (n file_size : Z) : option (CachedIterator * TableCaches) :=
  '(s, t, tc) ← FindBufferedTable tc n file_size;
  match t with
  | Some t => Some (if ok s then inl (table_fuel t, Table_NewIterator t (block_cache tc)) else inr (NewErrorIterator s), tc)
  | None => Some (inr (NewErrorIterator s), tc)
  end.

(** The second result is the handle that the clean-up [UnrefEntry] releases. *)
Definition NewIterator (tc : TableCaches) (n file_size file_level : Z) (meta : option TableMetaData) (inputs : option (list Z))
    : option (CachedIterator * option nat * TableCaches) :=
  '(s, handle, _, tc) ← FindTable tc n file_size file_level meta inputs;
  match handle with
  | Some a => '(_, tf) ← table_of (tc_queue tc) a; Some (inl (table_fuel (tf_table tf), Table_NewIterator (tf_table tf) (block_cache tc)), Some a, tc)
  | None => Some (inr (NewErrorIterator s), None, tc)
  end.

Definition UnrefEntry (tc : TableCaches) (handle : nat) : option TableCaches := mq ← Release P (tc_queue tc) handle; Some (with_queue tc mq).

(** ** Lookups *)

(** [InternalGet] in the table of a handle; then the handle of the region is
    looked up, which may load filters, and both are given back. *)
Definition get_in_table (tc : TableCaches) (ro : Table.ReadOptions) (handle : nat) (k : bytes) : option (Table.GetResult * TableCaches * Table.ReadOptions) :=
  '(p, tf) ← table_of (tc_queue tc) handle;
  '(r, t, oc, ro) ← Table.InternalGet (tf_table tf) (block_cache tc) ro k;
  name ← Table.region_name r;
  '(cache_handle, mq) ← Lookup P (put_table (tc_queue tc) p (MkTableAndFile (tf_file tf) t)) name true;
  a ← cache_handle;
  mq ← Release P mq a;
  mq ← Release P mq handle;
  Some (r, with_env (with_queue tc mq) (tc_env tc) oc, ro).

Definition Get (tc : TableCaches) (opts : GetOptions) (n file_size : Z) (k : bytes) : option (Status * option (bytes * bytes) * TableCaches * GetOptions) :=
  let tc := with_options tc (set_add_filter (tc_options tc) false) in
  let ro := table_read opts in
  let ro := Table.MkReadOptions (Table.verify_checksums ro) (Table.fill_cache ro) n (Table.access_file_nums ro) (Table.read_file_nums ro) in
  let with_read ro := MkGetOptions ro (file_level opts) (access_compacted_file_nums opts) in
  '(s, handle, _, tc) ← FindTable tc n file_size (file_level opts) None None;
  match handle with
  | Some a => '(r, tc, ro) ← get_in_table tc ro a k; Some (Table.get_status r, Table.saved r, tc, with_read ro)
  | None => Some (s, None, tc, with_read ro)
  end.

(** ** Removal and the rest *)

Fixpoint erase_regions (mq : MultiQueue TableAndFile) (n id : Z) (count : nat) : option (MultiQueue TableAndFile) :=
  match count with
  | O => Some mq
  | S count => mq ← Erase P mq (file_key n id); erase_regions mq n (id + 1) count
  end.

Definition Evict (tc : TableCaches) (n : Z) : option TableCaches :=
  '(handle, mq) ← Lookup P (tc_queue tc) (file_key n 0) false;
  match handle with
  | Some a =>
      '(_, tf) ← table_of mq a;
      mq ← Release P mq a;
      mq ← erase_regions mq n 1 (Z.to_nat (getRegionNum (Table.rep (tf_table tf))));
      mq ← Erase P mq (file_key n 0);
      Some (with_queue tc mq)
  | None => Some (with_queue tc mq)
  end.

Definition adjustFilters (tc : TableCaches) (n file_size k : Z) : option TableCaches :=
  '(_, handle, _, tc) ← FindTable tc n file_size 0 None None;
  match handle with
  | Some a =>
      '(p, tf) ← table_of (tc_queue tc) a;
      let t := tf_table tf in
      '(_, rep) ← (if 0 <? k then AddFilters (Table.rep t) k 0 else RemoveFilters (Table.rep t) (- k) 0);
      mq ← Release P (put_table (tc_queue tc) p (MkTableAndFile (tf_file tf) (Table.with_rep t rep))) a;
      Some (with_queue tc mq)
  | None => Some tc
  end.

Definition GetTableCurrFiltersSize (tc : TableCaches) (n file_size : Z) : option (Z * TableCaches) :=
  '(_, handle, _, tc) ← FindTable tc n file_size 0 None None;
  match handle with
  | Some a =>
      '(_, tf) ← table_of (tc_queue tc) a;
      res ← getCurrFiltersSize (Table.rep (tf_table tf)) 0;
      mq ← Release P (tc_queue tc) a;
      Some (res, with_queue tc mq)
  | None => Some (0, tc)
  end.

Definition cache_LookupFreCount (tc : TableCaches) (n : Z) : option Z := LookupFreCount (tc_queue tc) (file_key n 1).

(** The key has no region id. *)
Definition cache_SetFreCount (tc : TableCaches) (n freCount : Z) : option TableCaches :=
  mq ← SetFreCount P (tc_queue tc) (EncodeFixed64 n) freCount; Some (with_queue tc mq).

Definition SaveLevel0Freq (tc : TableCaches) (n : Z) : option TableCaches :=
  freq ← cache_LookupFreCount tc n;
  Some (with_level0 tc (if level0_freq tc <? freq then freq else level0_freq tc)).

Definition TurnOnAdjustment (tc : TableCaches) : TableCaches := with_queue tc (set_adjustment (tc_queue tc) true).
Definition TurnOffAdjustment (tc : TableCaches) : TableCaches := with_queue tc (set_adjustment (tc_queue tc) false).
End Caching.
