(* ===== verification/RegionFreqs.v ===== *)
(** * RegionFreqs: the frequencies of a compaction's output

    [FindTable] of src/LSM-EBF/db/table_cache.cc walks over the regions of a new
    table and of the inputs in parallel.  What it adds up for a region is what a
    search of each input from its first region on finds. *)
From stdpp Require Import list sorting.
From S2P Require Import Prelude Status Comparator TableCaching.

Section Frequencies.
Context {C : Comparator} {L : ComparatorLaws C}.

(** The first region of an input that ends after [lo], if it begins before [hi]. *)
Definition overlap_freq (lo hi : bytes) (r : regions) : Z :=
  match list_find (fun k => 0 < Compare k lo) (tail r.1) with
  | Some (q, _) => match r.1 !! q, r.2 !! q with Some l, Some f => if Compare l hi <? 0 then f else 0 | _, _ => 0 end
  | None => 0
  end.

Definition overlap_freqs (inputs : list regions) (keys : list bytes) : list Z :=
  zip_with (fun lo hi => foldr Z.add 0 (overlap_freq lo hi <$> inputs)) keys (tail keys).

(** Keys in order bound the regions of an input. *)
Record input_ok (r : regions) : Prop := {
  in_len : length r.1 = S (length r.2);
  in_valid : Forall valid_key r.1;
  in_sorted : StronglySorted (fun a b => Compare a b <= 0) r.1;
  in_freqs : Forall (fun f => 0 <= f) r.2
}.

(** The regions before [c] end at or before [lo]. *)
Definition passed (r : regions) (lo : bytes) (c : nat) : Prop :=
  (c <= length r.2)%nat /\ forall i k, (i < c)%nat -> r.1 !! S i = Some k -> Compare k lo <= 0.

Lemma input_key r i : input_ok r -> (i <= length r.2)%nat -> exists k, r.1 !! i = Some k /\ valid_key k.
Proof.
  intros Hr Hi. destruct (lookup_lt_is_Some_2 r.1 i) as [k Hk]; [rewrite (in_len _ Hr); lia|]. exists k. split; [done|]. by apply (Forall_lookup_1 _ _ _ _ (in_valid _ Hr) Hk).
Qed.

Lemma input_order r i j a b : input_ok r -> (i <= j)%nat -> r.1 !! i = Some a -> r.1 !! j = Some b -> Compare a b <= 0.
Proof.
  intros Hr Hij Ha Hb. destruct (decide (i = j)) as [->|Hne].
  - rewrite Ha in Hb. injection Hb as <-. rewrite cmp_refl; [done|]. by apply (Forall_lookup_1 _ _ _ _ (in_valid _ Hr) Ha).
  - rewrite <- (take_drop_middle _ _ _ Ha) in Hb. rewrite lookup_app_r in Hb by (rewrite length_take; lia). rewrite length_take in Hb. apply lookup_lt_Some in Ha as Hl.
    replace (j - i `min` length r.1)%nat with (S (j - i - 1)) in Hb by lia. cbn in Hb.
    pose proof (in_sorted _ Hr) as Hs. rewrite <- (take_drop_middle _ _ _ Ha) in Hs. apply StronglySorted_app in Hs as (_ & _ & Hs). apply StronglySorted_inv in Hs as [_ Hs].
    by apply (Forall_lookup_1 _ _ _ _ Hs Hb).
Qed.

Lemma passed_later r lo lo' c : input_ok r -> valid_key lo -> valid_key lo' -> Compare lo lo' <= 0 -> passed r lo c -> passed r lo' c.
Proof.
  intros Hr Hv Hv' Hle [H1 H2]. split; [done|]. intros i k Hi Hk. apply (cmp_trans _ lo); [|done|done|by apply (H2 i)|done]. by apply (Forall_lookup_1 _ _ _ _ (in_valid _ Hr) Hk).
Qed.

(** Nothing before a passed region is found. *)
Lemma found_after r lo c q k : input_ok r -> passed r lo c -> list_find (fun k => 0 < Compare k lo) (tail r.1) = Some (q, k) -> (c <= q < length r.2)%nat /\ r.1 !! S q = Some k.
Proof.
  intros Hr [_ Hp] (Hk & Hlt & _)%list_find_Some. rewrite lookup_tail in Hk. split; [|done]. apply lookup_lt_Some in Hk as Hl. rewrite (in_len _ Hr) in Hl.
  split; [|lia]. apply Nat.nlt_ge. intros Hc. specialize (Hp q k Hc Hk). lia.
Qed.

Lemma found_here r lo q k : passed r lo q -> r.1 !! S q = Some k -> 0 < Compare k lo -> list_find (fun k => 0 < Compare k lo) (tail r.1) = Some (q, k).
Proof.
  intros [_ Hp] Hk Hlt. apply list_find_Some. split_and!; [by rewrite lookup_tail|done|]. intros j y Hy Hj. rewrite lookup_tail in Hy. specialize (Hp j y Hj Hy). lia.
Qed.

Lemma found_none r lo : input_ok r -> passed r lo (length r.2) -> list_find (fun k => 0 < Compare k lo) (tail r.1) = None.
Proof.
  intros Hr Hp. destruct (list_find _ _) as [[q k]|] eqn:E; [|done]. destruct (found_after r lo _ q k Hr Hp E). lia.
Qed.

(** ** The walk *)

Lemma skip_regions_ok r lo : input_ok r -> forall fuel c, (length r.2 < fuel + c)%nat -> (c < length r.2)%nat -> passed r lo c ->
  exists q, skip_regions fuel r.1 (length r.2) lo c = Some q /\ (c <= q)%nat /\ passed r lo q /\ ((q < length r.2)%nat -> exists k, r.1 !! S q = Some k /\ 0 < Compare k lo).
Proof.
  intros Hr. induction fuel as [|fuel IH]; intros c Hf Hc Hp; [lia|]. cbn [skip_regions]. destruct (input_key r (S c) Hr ltac:(lia)) as (k & Hk & _). rewrite Hk. cbn [mbind option_bind].
  destruct (Z.leb_spec (Compare k lo) 0) as [Hle|Hgt]; [|exists c; split_and!; [done|lia|done|]; intros _; by exists k].
  assert (Hp' : passed r lo (S c)).
  { split; [lia|]. intros i k' Hi Hk'. destruct (decide (i = c)) as [->|]; [rewrite Hk in Hk'; by injection Hk' as <-|]. apply (proj2 Hp i); [lia|done]. }
  destruct (Nat.leb_spec (length r.2) (S c)); [exists (S c); split_and!; [done|lia|done|lia]|].
  destruct (IH (S c)) as (q & E & H1 & H2 & H3); [lia|lia|done|]. exists q. split_and!; [done|lia|done|done].
Qed.

Lemma region_share_ok r lo hi c : input_ok r -> valid_key lo -> valid_key hi -> Compare lo hi < 0 -> passed r lo c ->
  exists c', region_share lo hi r c = Some (c', overlap_freq lo hi r) /\ passed r lo c'.
Proof.
  intros Hr Hl Hh Hlt Hp. unfold region_share, overlap_freq. cbv zeta.
  pose proof (proj1 Hp) as Hc. destruct (Nat.leb_spec (length r.2) c) as [Hge|Hlt'].
  { exists c. replace c with (length r.2) in * by lia. by rewrite (found_none r lo Hr Hp). }
  destruct (input_key r c Hr Hc) as (l & Hlk & Hlv). rewrite Hlk. cbn [mbind option_bind]. destruct (Z.leb_spec (Compare hi l) 0) as [Hle|Hgt].
  - exists c. split; [|done]. do 2 f_equal. destruct (list_find _ _) as [[q k]|] eqn:E; [|done]. destruct (found_after r lo c q k Hr Hp E) as [Hq _].
    destruct (input_key r q Hr ltac:(lia)) as (lq & Hlq & Hlqv). rewrite Hlq. destruct (r.2 !! q); [|done]. rewrite (proj2 (Z.ltb_ge _ _)); [done|].
    pose proof (cmp_trans hi l lq Hh Hlv Hlqv Hle (input_order r c q l lq Hr ltac:(lia) Hlk Hlq)). pose proof (cmp_sgn_opp lq hi Hlqv Hh). lia.
  - destruct (skip_regions_ok r lo Hr (S (length r.2)) c) as (q & -> & Hcq & Hpq & Hend); [lia|done|done|]. cbn [mbind option_bind]. exists q. split; [|done].
    destruct (Nat.leb_spec (length r.2) q) as [Hge|Hq]; [pose proof (proj1 Hpq); replace q with (length r.2) in * by lia; by rewrite (found_none r lo Hr Hpq)|].
    destruct (Hend Hq) as (k & Hk & Hkl). rewrite (found_here r lo q k Hpq Hk Hkl). destruct (input_key r q Hr ltac:(lia)) as (lq & Hlq & Hlqv). rewrite Hlq.
    destruct (lookup_lt_is_Some_2 r.2 q Hq) as [f ->]. cbn [mbind option_bind]. rewrite (proj2 (Z.ltb_lt _ _)); [done|].
    destruct (decide (q = c)) as [->|Hne]; [rewrite Hlk in Hlq; injection Hlq as <-; by apply cmp_sgn_opp|].
    apply (cmp_le_lt_trans _ lo); [done|done|done| |done]. apply (proj2 Hpq (q - 1)%nat); [lia|]. by replace (S (q - 1)) with q by lia.
Qed.

(** ** Sums *)

Definition freq_total (inputs : list regions) : Z := foldr Z.add 0 (concat (snd <$> inputs)).

Lemma sum_nonneg l : Forall (fun f => 0 <= f) l -> 0 <= foldr Z.add 0 l.
Proof. induction 1; cbn; lia. Qed.

Lemma sum_member l f : Forall (fun f => 0 <= f) l -> f ∈ l -> 0 <= f <= foldr Z.add 0 l.
Proof. intros Hl. induction Hl as [|x l Hx Hl IH]; [by intros ?%elem_of_nil|]. pose proof (sum_nonneg l Hl). intros [->|Hf]%elem_of_cons; cbn; [lia|]. specialize (IH Hf). lia. Qed.

Lemma freq_total_cons r inputs : freq_total (r :: inputs) = foldr Z.add 0 r.2 + freq_total inputs.
Proof. unfold freq_total. cbn. generalize (concat (snd <$> inputs)). intros l. induction r.2 as [|f fs IH]; cbn; lia. Qed.

Lemma overlap_range lo hi r : input_ok r -> 0 <= overlap_freq lo hi r <= foldr Z.add 0 r.2.
Proof.
  intros Hr. pose proof (sum_nonneg _ (in_freqs _ Hr)). unfold overlap_freq. destruct (list_find _ _) as [[q k]|]; [|lia]. destruct (r.1 !! q); [|lia]. destruct (r.2 !! q) as [f|] eqn:Ef; [|lia].
  pose proof (sum_member _ f (in_freqs _ Hr) (list_elem_of_lookup_2 _ _ _ Ef)). case_match; lia.
Qed.

Lemma add_shares_ok lo hi : valid_key lo -> valid_key hi -> Compare lo hi < 0 -> forall inputs iters freq, Forall input_ok inputs -> Forall2 (fun r c => passed r lo c) inputs iters ->
  0 <= freq -> freq + freq_total inputs < 2 ^ 31 ->
  exists iters', add_shares lo hi inputs iters freq = Some (iters', freq + foldr Z.add 0 (overlap_freq lo hi <$> inputs)) /\ Forall2 (fun r c => passed r lo c) inputs iters'.
Proof.
  intros Hl Hh Hlt inputs iters freq Hin Hp. revert freq. induction Hp as [|r c inputs iters Hrc Hp IH]; intros freq H0 Hb; [exists []; split; [cbn; by rewrite Z.add_0_r|done]|].
  apply Forall_cons in Hin as [Hr Hin]. rewrite freq_total_cons in Hb. pose proof (overlap_range lo hi r Hr). assert (0 <= freq_total inputs).
  { unfold freq_total. apply sum_nonneg. apply Forall_concat, Forall_fmap. apply (Forall_impl _ _ _ Hin). intros x Hx. apply Hx. }
  destruct (region_share_ok r lo hi c Hr Hl Hh Hlt Hrc) as (c' & E & Hc'). cbn [add_shares]. rewrite E. cbn [mbind option_bind].
  assert (Ei : i32 (freq + overlap_freq lo hi r) = freq + overlap_freq lo hi r) by (unfold i32; rewrite Z.mod_small by lia; lia). rewrite Ei.
  destruct (IH Hin (freq + overlap_freq lo hi r)) as (iters' & E' & Hp'); [lia|lia|]. rewrite E'. cbn [mbind option_bind]. exists (c' :: iters'). split; [|by constructor].
  cbn [fmap list_fmap foldr]. do 2 f_equal. lia.
Qed.

(** C13. The frequencies of a compaction's output.  Let the keys that bound the
    regions of each cached input be in order, those of the output strictly, and
    the accesses of all inputs together fit an [int].  Then the parallel walk
    returns without reading outside an array, and gives each region of the output
    the sum, over the inputs, of the accesses of the input's first region that
    ends after the region begins, if that region begins before it ends. *)
Theorem merged_frequencies (inputs : list regions) (keys : list bytes) : Forall input_ok inputs -> Forall valid_key keys -> Sorted (fun a b => Compare a b < 0) keys ->
  freq_total inputs < 2 ^ 31 -> merge_freqs inputs keys = Some (overlap_freqs inputs keys).
Proof.
  intros Hin Hv Hs Hb. unfold merge_freqs. assert (H0 : match keys with lo :: _ => Forall2 (fun r c => passed r lo c) inputs (replicate (length inputs) 0%nat) | [] => True end).
  { destruct keys as [|lo keys]; [done|]. clear. induction inputs as [|r inputs IH]; constructor; [split; [lia|]; intros; lia|done]. }
  revert H0. generalize (replicate (length inputs) 0%nat). induction keys as [|lo keys IH]; intros iters Hp; [done|]. destruct keys as [|hi keys]; [done|].
  apply Forall_cons in Hv as [Hl Hv]. apply Sorted_inv in Hs as [Hs Hlt]. apply HdRel_inv in Hlt. pose proof (proj1 (Forall_cons_1 _ _ _ Hv)) as Hh.
  destruct (add_shares_ok lo hi Hl Hh Hlt inputs iters 0 Hin Hp ltac:(lia) ltac:(lia)) as (iters' & E & Hp'). cbn [merge_loop]. rewrite E. cbn [mbind option_bind].
  change (overlap_freqs inputs (lo :: hi :: keys)) with (foldr Z.add 0 (overlap_freq lo hi <$> inputs) :: overlap_freqs inputs (hi :: keys)).
  assert (Hnext : Forall2 (fun r c => passed r hi c) inputs iters').
  { clear -Hin Hp' Hl Hh Hlt L. induction Hp' as [|r c inputs iters Hrc _ IH]; [constructor|]. apply Forall_cons in Hin as [Hr Hin]. constructor; [apply (passed_later r lo); [done..|lia|done]|by apply IH]. }
  specialize (IH Hv Hs iters' Hnext). cbn [merge_loop] in IH |- *. rewrite IH. done.
Qed.
End Frequencies.

(** Two inputs, the first with an empty region; the last region of the output
    lies behind both. *)
Definition sample_inputs : list regions := [([[10]; [20]; [20]; [40]], [3; 5; 7]); ([[15]; [60]], [11])].
Definition sample_keys : list bytes := [[5]; [12]; [30]; [50]; [70]; [90]].

Lemma merged_frequencies_witness : merge_freqs (C := BytewiseComparator) sample_inputs sample_keys = Some [3; 14; 18; 11; 0].
Proof.
  rewrite (merged_frequencies (C := BytewiseComparator) sample_inputs sample_keys); [vm_compute; reflexivity| |by_decide| |reflexivity].
  - repeat (apply Forall_cons_2; [split; [reflexivity|by_decide|by_decide|by_decide]|]). constructor.
  - repeat constructor.
Defined.
