(* ===== verification/QueueSteps.v ===== *)
(** * QueueSteps: the multi queue inside a longer computation

    A client of the multi queue makes several calls in a row.  A computation
    [finishes] when it never ends if one of the calls it makes on the queue spins,
    as a boolean tells, and else returns with a postcondition; the rule for [bind]
    composes such facts.  Each call is given with the steps made so far, the
    invariant, and what it leaves unchanged. *)
From stdpp Require Import gmap.
From Stdlib Require Import SpecFloat.
From S2P Require Import Prelude Coding Status Hash Bloom Cache MultiQueue QueueLists QueueInvariant QueueClient QueueHistory QueueFrame.

(** What is done with the result of a call that returned. *)
Definition after {B} (r : option B) (f : B -> bool) : bool := match r with Some b => f b | None => false end.

(** [sp] tells whether the computation spins. *)
Definition finishes {B} (sp : bool) (r : option B) (Q : B -> Prop) : Prop := if sp then r = None else exists b, r = Some b /\ Q b.

Lemma finishes_ret {B} (b : B) (Q : B -> Prop) : Q b -> finishes false (Some b) Q.
Proof. intros Hq. by exists b. Qed.

Lemma finishes_bind {B D} sp sp' (r : option B) (f : B -> option D) (Q : B -> Prop) (Q' : D -> Prop) :
  finishes sp r Q -> (forall b, Q b -> finishes (sp' b) (f b) Q') -> finishes (sp || after r sp') (r ≫= f) Q'.
Proof. destruct sp; [by intros ->|]. intros (b & -> & Hb) Hf. by apply Hf. Qed.

(** A computation that spins where its last call does. *)
Lemma finishes_last {B D} sp (r : option B) (f : B -> option D) (Q : B -> Prop) (Q' : D -> Prop) :
  finishes sp r Q -> (forall b, Q b -> finishes false (f b) Q') -> finishes sp (r ≫= f) Q'.
Proof. destruct sp; [by intros ->|]. intros (b & -> & Hb) Hf. by apply Hf. Qed.

Lemma finishes_weaken {B} sp (r : option B) (Q Q' : B -> Prop) : finishes sp r Q -> (forall b, Q b -> Q' b) -> finishes sp r Q'.
Proof. destruct sp; [done|]. intros (b & -> & Hb) Hq. exists b. auto. Qed.

Section Steps.
Context {T A : Type} {RT : RegionTable T} (P : Params) {L : RegionTableLaws T RT P} (HP : params_ok P) (tag : T -> A).
Context (tag_remove : forall t n r d t', rt_remove t n r = Some (d, t') -> tag t' = tag t).
Context (tag_adjust : forall t n r d t', rt_adjust t n r = Some (d, t') -> tag t' = tag t).
Context (tag_access : forall t r t', rt_access t r = Some t' -> tag t' = tag t).
Implicit Types (mq : MultiQueue T) (held : list nat) (s : queue_state (T := T)).

Inductive queue_steps s : queue_state (T := T) -> Prop :=
| qs_refl : queue_steps s s
| qs_step s1 o s2 : queue_steps s s1 -> queue_allowed P s1 o -> queue_step P s1 o = Some s2 -> queue_steps s s2.

Lemma steps_reachable s s' : queue_steps s s' -> queue_reachable P s -> queue_reachable P s'.
Proof. induction 1 as [|s1 o s2 _ IH Ha Es]; [done|]. intros Hr. apply (qr_step P s1 o s2); [by apply IH|done|done]. Qed.

(** The shrinking at the end of an insertion spins. *)
Definition insert_spins mq (k : bytes) (p ch : Z) : bool := after (insert_handle P mq k p ch true) (fun r => spins P r.2).

(** The state [(mq, held)] after steps from [s], with the invariant. *)
Record at_state s mq (ids held : list nat) : Prop := {
  as_steps : queue_steps s (mq, held);
  as_ok : mq_ok P mq ids held
}.

Abbreviation evolves := (QueueFrame.evolves tag).

Lemma cached_iff s mq ids held a : at_state s mq ids held -> a ∈ cached mq <-> a ∈ ids.
Proof. intros [_ Hm]. by apply (cached_ids P mq ids held). Qed.

Lemma ids_in_cache s mq ids held a h : at_state s mq ids held -> handle mq a = Some h -> a ∈ ids <-> in_cache h = true.
Proof. intros [_ Hm]. apply (mk_ids _ _ _ _ (mk_books _ _ _ _ Hm)). Qed.

(** The region of a cached handle is one of its table. *)
Lemma cached_region mq ids held a h t : mq_ok P mq ids held -> a ∈ ids -> handle mq a = Some h -> tables (mem mq) !! q_value (data h) = Some t -> value_id (data h) <= rt_regions t.
Proof.
  intros Hm Ha Hh Ht. pose proof (proj1 (mk_ids _ _ _ _ (mk_books _ _ _ _ Hm) a h Hh) Ha) as Hc. pose proof (qo_handles _ _ _ (mk_queue _ _ _ _ Hm) a h (if refs h =? 1 then Lru (queue_id (data h)) else InUse) Hh) as Ho.
  rewrite (placed_none _ _ _ Hh) in Ho. unfold place in Ho. rewrite Hc in Ho. destruct Ho as [_ _ (t' & T1 & _ & T3 & _) _ _]; [by destruct (refs h =? 1)|]. rewrite Ht in T1. injection T1 as <-. lia.
Qed.

Lemma step_Lookup s mq ids held k (get : bool) : at_state s mq ids held -> zlen held + 1 < 2 ^ 31 ->
  (get = true -> forall a h, a ∈ ids -> handle mq a = Some h -> LRU.key h = k -> 0 < value_id (data h)) ->
  exists r mq', Lookup P mq k get = Some (r, mq') /\ entry_of mq ids k r /\ at_state s mq' ids (option_list r ++ held) /\ evolves (mem mq) (mem mq').
Proof.
  intros Hat Hsz Hget. pose proof Hat as [Hs Hm]. destruct (queue_Lookup_ok P HP mq ids held k get Hm Hsz Hget) as (r & mq' & El & Hr & Hm'). exists r, mq'. split_and!; [done|done| |by eapply Lookup_evolves].
  split; [|done]. eapply (qs_step s (mq, held) (OLookup k get)); [done| |cbn [queue_step]; by rewrite El]. cbn [queue_allowed]. split; [done|].
  intros Hg a h Hh Hc. apply (Hget Hg a h); [by apply (ids_in_cache s mq ids held a h Hat)|done].
Qed.

Lemma step_Release s mq ids held a : at_state s mq ids (a :: held) -> finishes (release_spins P mq a) (Release P mq a) (fun mq' => at_state s mq' ids held /\ evolves (mem mq) (mem mq')).
Proof.
  intros [Hs Hm]. pose proof (queue_Release_ok P HP mq ids (a :: held) held a Hm (reflexivity _)) as Hr.
  assert (Ha : queue_allowed P (mq, a :: held) (ORelease a)) by (cbn; by left).
  destruct (release_spins P mq a); [done|].
  destruct Hr as (mq' & Er & Hm'). exists mq'. split; [done|]. split; [|by eapply Unref_evolves].
  split; [|done]. eapply (qs_step s (mq, a :: held) (ORelease a)); [done|done|]. cbn [queue_step give_back]. rewrite decide_True by done. cbn [mbind option_bind]. by rewrite Er.
Qed.

Lemma step_SetFre s mq ids held k n : at_state s mq ids held -> exists mq', SetFreCount P mq k n = Some mq' /\ at_state s mq' ids held /\ evolves (mem mq) (mem mq').
Proof.
  intros [Hs Hm]. destruct (SetFreCount_ok P HP mq ids held k n Hm) as (mq' & E & Hm'). exists mq'. split_and!; [done| |by eapply SetFreCount_evolves].
  split; [|done]. eapply (qs_step s (mq, held) (OSetFre k n)); [done|done|]. cbn [queue_step]. by rewrite E.
Qed.

Lemma step_Tick s mq ids held : at_state s mq ids held -> at_state s (addCurrentTime mq) ids held.
Proof.
  intros [Hs Hm]. split; [by eapply (qs_step s (mq, held) OTick)|]. destruct Hm as [M1 M2 M3]. split; [by apply queue_ok_flags|done|by destruct M3].
Qed.

Lemma step_Touch s mq ids held p t t' : at_state s mq ids held -> tables (mem mq) !! p = Some t -> rt_ok t' -> rt_regions t' = rt_regions t ->
  (forall r c, 0 < c -> rt_num t r = Some c -> rt_num t' r = Some c) -> at_state s (put_table mq p t') ids held.
Proof.
  intros [Hs Hm] Ht Hok Hreg Hnum. assert (Ha : queue_allowed P (mq, held) (OTouch p t')) by (by exists t).
  split; [by eapply (qs_step s (mq, held) (OTouch p t'))|]. by apply OTouch_ok.
Qed.

Lemma step_Open s mq ids held k p t : at_state s mq ids held -> tables (mem mq) !! p = None -> rt_ok t -> 12 <= zlen k -> DecodeFixed32 (drop 8 k) = 0 ->
  (forall a h, a ∈ ids -> handle mq a = Some h -> LRU.key h <> k) -> Z.of_nat (next_addr (mem mq)) < 2 ^ 31 - 2 ->
  let e := next_addr (mem mq) in
  finishes (insert_spins (put_table mq p t) k p 0) (Insert P (put_table mq p t) k p 0 true) (fun r => r.1 = e /\ at_state s r.2 (e :: ids) (e :: held) /\
    exists h, ident h = (k, p, 0) /\ evolves (with_handle (mem (put_table mq p t)) h) (mem r.2)).
Proof.
  intros Hat Hp Ht Hk Hid Hno Hsz e. pose proof Hat as [Hs Hm]. assert (Ha : queue_allowed P (mq, held) (OOpen k p t)).
  { cbn [queue_allowed]. split_and!; try done. intros a h Hh Hc. apply (Hno a h); [by apply (ids_in_cache s mq ids held a h Hat)|done]. }
  destruct (OOpen_ok P HP mq ids held k p t Hm Ha) as (mq1 & E1 & Hm1). pose proof (Insert_steps P HP _ k p 0 _ _ _ mq1 E1 Hm1) as Hi.
  unfold insert_spins. rewrite E1. cbn [after snd]. destruct (spins P mq1); [done|].
  destruct Hi as (mq' & Ei & Hm'). exists (e, mq'). cbn [fst snd]. split; [done|]. split; [done|]. split.
  - split; [|done]. eapply (qs_step s (mq, held) (OOpen k p t)); [done|done|]. cbn [queue_step]. by rewrite Ei.
  - apply (Insert_evolves P tag tag_remove tag_adjust) in Ei as (_ & h & Hh & Hev). exists h. by rewrite Hh, Hid.
Qed.

Lemma step_Region s mq ids held k p t ch : at_state s mq ids held -> 0 < capacity_ P -> region_fits P mq ids k p t -> Z.of_nat (next_addr (mem mq)) < 2 ^ 31 - 2 ->
  let e := next_addr (mem mq) in
  finishes (insert_spins mq k p ch) (Insert P mq k p ch true) (fun r => r.1 = e /\ at_state s r.2 (e :: ids) held /\
    exists h, ident h = (k, p, DecodeFixed32 (drop 8 k)) /\ evolves (with_handle (mem mq) h) (mem r.2)).
Proof.
  intros Hat Hcap Hf Hsz e. pose proof Hat as [Hs Hm]. assert (Ha : queue_allowed P (mq, held) (ORegion k p ch)).
  { cbn [queue_allowed]. split_and!; [done| |done]. exists t. pose proof (fun a => cached_iff s mq ids held a Hat) as Hids. destruct Hf as [F1 F3 F4 (a & h & Hin & Hh) F6 F7]. split; try done.
    - exists a, h. by rewrite Hids.
    - destruct F6 as [F6|(b & hb & Hb & Hhb)]; [by left|]. right. exists b, hb. by rewrite Hids.
    - intros b hb Hb. apply F7. by apply Hids. }
  destruct (ORegion_ok P HP mq ids held k p ch Hm Ha) as (mq1 & E1 & Hm1). pose proof (Insert_steps P HP _ k p ch _ _ _ mq1 E1 Hm1) as Hi.
  unfold insert_spins. rewrite E1. cbn [after snd]. destruct (spins P mq1); [done|].
  destruct Hi as (mq' & Ei & Hm'). exists (e, mq'). cbn [fst snd]. split; [done|]. split; [done|]. split.
  - split; [|done]. eapply (qs_step s (mq, held) (ORegion k p ch)); [done|done|]. cbn [queue_step]. by rewrite Ei.
  - by apply (Insert_evolves P tag tag_remove tag_adjust) in Ei as (_ & h & Hh & Hev); exists h.
Qed.

Lemma step_Erase s mq ids held k : at_state s mq ids held -> erasable mq ids k ->
  exists mq' ids', Erase P mq k = Some mq' /\ at_state s mq' ids' held /\ evolves (mem mq) (mem mq') /\
    (ids' = ids /\ (forall a h, a ∈ ids -> handle mq a = Some h -> LRU.key h <> k) \/ exists a h, ids ≡ₚ a :: ids' /\ handle mq a = Some h /\ LRU.key h = k).
Proof.
  intros Hat He. pose proof Hat as [Hs Hm]. destruct (queue_Erase_ok P HP mq ids held k Hm He) as (mq' & ids' & Ee & Hm' & Hids). exists mq', ids'. split_and!; [done| |by eapply Erase_evolves|done].
  split; [|done]. eapply (qs_step s (mq, held) (OErase k)); [done| |cbn [queue_step]; by rewrite Ee]. cbn [queue_allowed].
  intros a h b hb Ha Hh Hk Hz Hb. apply He; [by apply (cached_iff s mq ids held a Hat)|done|done|done|by apply (cached_iff s mq ids held b Hat)].
Qed.

Lemma step_init mq ids held : mq_ok P mq ids held -> at_state (mq, held) mq ids held.
Proof. intros Hm. split; [apply qs_refl|done]. Qed.
End Steps.
