(* ===== verification/CachedTables.v ===== *)
(** * CachedTables: the tables behind the table cache

    A table that TableCaching.v keeps belongs to a file and stays in a good state
    for it, whatever the multi queue and lookups do to its filters; tables share
    the block cache under ids of their own. *)
From stdpp Require Import gmap.
From Stdlib Require Import SpecFloat.
From S2P Require Import Prelude Coding Crc32c Status Bloom Comparator DbFormat Filename TableFormat Block Iterators TwoLevel FilterBlock TableFilters TableBuilder Table TableOpen TableIndex TableGet TableLookup TableIter.
From S2P Require Import Hash Cache ShardedCache VersionGet MultiQueue QueueLists QueueInvariant QueueClient QueueHistory QueueFrame QueueTables QueueSteps TableCaching.
Import TableBuilder.

(** ** Ids in the block cache *)

(** [NewId] counts up.  [None] stands for a cache that has grown past what its
    arithmetic supports: it holds nothing more. *)
Class BlockCacheIds (BC : BlockCache) := {
  next_id : cache -> option Z;
  newid_next : forall c i, next_id c = Some i -> 0 <= i < 2 ^ 64 -> (cache_NewId c).1 = i /\ (i + 1 < 2 ^ 64 -> next_id (cache_NewId c).2 = Some (i + 1));
  newid_gone : forall c, next_id c = None -> next_id (cache_NewId c).2 = None;
  lookup_next : forall c k, next_id (cache_Lookup c k).2 = next_id c;
  insert_next : forall c k b n i, next_id (cache_Insert c k b n) = Some i -> next_id c = Some i;
  gone_empty : forall c k b, next_id c = None -> ~ may_hold c k b
}.

(** The cache of [NewLRUCache]. *)
Lemma release_last_id {V} (s s' : Sharded.ShardedLRUCache V) q : Sharded.Release s q = Some s' -> Sharded.last_id_ s' = Sharded.last_id_ s.
Proof. unfold Sharded.Release. intros (h & _ & E)%bind_Some. apply bind_Some in E as (c & _ & E). by apply bind_Some in E as (c' & _ & [= <-]). Qed.

Lemma use_last_id {V} (s s' : Sharded.ShardedLRUCache V) k r : Sharded.use s k = Some (r, s') -> Sharded.last_id_ s' = Sharded.last_id_ s.
Proof.
  unfold Sharded.use. intros ([q s1] & E1 & E)%bind_Some. assert (H1 : Sharded.last_id_ s1 = Sharded.last_id_ s).
  { unfold Sharded.Lookup in E1. cbn zeta in E1. apply bind_Some in E1 as (c & _ & E1). by apply bind_Some in E1 as ([e c'] & _ & [= _ <-]). }
  destruct q as [q|]; [|by injection E as _ <-]. apply bind_Some in E as (v & _ & E). apply bind_Some in E as (s2 & E2 & [= _ <-]). by rewrite (release_last_id _ _ _ E2).
Qed.

Lemma put_last_id {V} (s s' : Sharded.ShardedLRUCache V) k v n : Sharded.put s k v n = Some (tt, s') -> Sharded.last_id_ s' = Sharded.last_id_ s.
Proof.
  unfold Sharded.put. intros ([q s1] & E1 & E)%bind_Some. assert (H1 : Sharded.last_id_ s1 = Sharded.last_id_ s).
  { unfold Sharded.Insert in E1. cbn zeta in E1. apply bind_Some in E1 as (c & _ & E1). by apply bind_Some in E1 as ([e c'] & _ & [= _ <-]). }
  apply bind_Some in E as (s2 & E2 & [= <-]). by rewrite (release_last_id _ _ _ E2).
Qed.

Definition lru_next_id (q : Sharded.block_cache) : option Z := (fun s => Sharded.last_id_ (`s) + 1) <$> q.

#[export] Program Instance lru_block_ids : BlockCacheIds Sharded.lru_block_cache := { next_id := lru_next_id }.
Next Obligation. intros [[s Hs]|] i [= <-] Hi; cbn. rewrite u64_small by lia. split; [done|]. done. Qed.
Next Obligation. by intros [[s Hs]|]. Qed.
Next Obligation.
  intros [[s Hs]|] k; [|done]. cbn. destruct (Sharded.use_ok s k Hs) as (r & s' & E & _). destruct (Sharded.after_Some _ (Sharded.use_quiet s k Hs) r s' E) as [Hq ->]. cbn. by rewrite (use_last_id _ _ _ _ E).
Qed.
Next Obligation.
  intros [[s Hs]|] k b n i; [|done]. cbn. assert (Hcase : Sharded.put_within s k b n = None \/ exists s', Sharded.put_within s k b n = Some (tt, s')) by (destruct (Sharded.put_within s k b n) as [[[] s']|]; [right; by exists s'|by left]).
  destruct Hcase as [E|(s' & E)]; [by rewrite Sharded.after_None|]. destruct (Sharded.after_Some _ (Sharded.put_quiet s k b n Hs) tt s' E) as [Hq ->]. cbn.
  unfold Sharded.put_within in E. destruct (_ <? _); [|done]. by rewrite (put_last_id _ _ _ _ _ E).
Qed.
Next Obligation. intros [[s Hs]|] k b Hn; [discriminate Hn|intros []]. Qed.

Section Blocks.
Context `{!Crc32c, !Snappy} {C : Comparator} {FP : FilterPolicy} {BC : BlockCache} {BL : BlockCacheLaws BC} {BI : BlockCacheIds BC}.

Definition counter (oc : option cache) : option Z := c ← oc; next_id c.

(** Every block in the cache is under an id that was given out. *)
Definition ids_given (oc : option cache) : Prop :=
  forall c i, oc = Some c -> next_id c = Some i -> 0 <= i < 2 ^ 64 /\ forall key b, may_hold c key b -> exists id, 0 <= id < i /\ take 8 key = EncodeFixed64 id.

(** What changes in the cache is under [id]. *)
Definition own_blocks (id : Z) (oc oc' : option cache) : Prop :=
  match oc, oc' with
  | Some c, Some c' => (forall i, next_id c' = Some i -> next_id c = Some i) /\ forall key b, may_hold c' key b -> may_hold c key b \/ take 8 key = EncodeFixed64 id
  | None, None => True
  | _, _ => False
  end.

Lemma own_blocks_refl id oc : own_blocks id oc oc.
Proof. destruct oc; [|done]. split; [done|auto]. Qed.

Lemma take_cache_key id off : take 8 (Table.cache_key id off) = EncodeFixed64 id.
Proof. unfold Table.cache_key. by rewrite take_app_length' by (by rewrite length_EncodeFixed64). Qed.

Lemma read_data_block_id t ro h s b t' : Table.read_data_block t ro h = (s, b, t') -> Table.cache_id t' = Table.cache_id t.
Proof. unfold Table.read_data_block. destruct (ReadBlock _ _ _ _) as [[s0 c] f]. by intros [= _ _ <-]. Qed.

Lemma BlockReader_own t oc ro v it t' oc' : Table.BlockReader t oc ro v = (it, t', oc') -> Table.cache_id t' = Table.cache_id t /\ own_blocks (Table.cache_id t) oc oc'.
Proof.
  unfold Table.BlockReader. destruct (Handle.DecodeFrom _ _) as [[s h] rest]. destruct (ok s); [|intros [= _ <- <-]; split; [done|apply own_blocks_refl]]. destruct oc as [c|].
  - set (key := Table.cache_key _ _). pose proof (lookup_keeps c key) as Hk. pose proof (lookup_next c key) as Hn. destruct (cache_Lookup c key) as [found c1]. cbn [snd] in Hk, Hn.
    assert (Hn' : forall i, next_id c1 = Some i -> next_id c = Some i) by congruence. destruct found as [b|]; [intros [= _ <- <-]; split; [done|split; [done|auto]]|].
    destruct (Table.read_data_block t ro h) as [[s1 b] t1] eqn:Er. apply read_data_block_id in Er. destruct b as [[b cach]|]; intros [= _ <- <-]; (split; [done|]); [|split; [done|auto]].
    destruct (cach && _); [|split; [done|auto]]. cbn [own_blocks]. split; [by intros i ?%insert_next; apply Hn'|]. intros k' b' [[-> _]|[_ Hm]]%insert_keeps; [right; apply take_cache_key|left; by apply Hk].
  - destruct (Table.read_data_block t ro h) as [[s1 b] t1] eqn:Er. apply read_data_block_id in Er. destruct b as [b|]; cbn; intros [= _ <- <-]; by split.
Qed.

Lemma first_access_id t r t' : Table.first_access t r = Some t' -> Table.cache_id t' = Table.cache_id t.
Proof.
  unfold Table.first_access. intros (a & _ & Hr)%bind_Some. destruct a; [by injection Hr as <-|]. apply bind_Some in Hr as (c & _ & Hr). destruct (negb _); [by injection Hr as <-|].
  apply bind_Some in Hr as ([d rp] & _ & [= <-]). done.
Qed.

Lemma InternalGet_own t oc ro k r t' oc' ro' : Table.InternalGet t oc ro k = Some (r, t', oc', ro') -> Table.cache_id t' = Table.cache_id t /\ own_blocks (Table.cache_id t) oc oc'.
Proof.
  unfold Table.InternalGet. intros (it & _ & Hr)%bind_Some. destruct (negb _); [injection Hr as _ <- <- _; split; [done|apply own_blocks_refl]|].
  destruct (Handle.DecodeFrom _ _) as [[ds h] rest]. destruct (_ =? 0); [done|]. apply bind_Some in Hr as (t1 & H1 & Hr). apply first_access_id in H1.
  apply bind_Some in Hr as (matched & _ & Hr). apply bind_Some in Hr as ([[[[s1 sv] t2] oc2] rd] & H2 & Hr).
  assert (E2 : Table.cache_id t2 = Table.cache_id t /\ own_blocks (Table.cache_id t) oc oc2).
  { destruct matched; [|injection H2 as _ _ <- <- _; split; [done|apply own_blocks_refl]]. apply bind_Some in H2 as ([[[s2 sv2] t3] oc3] & H2 & [= _ _ <- <- _]). unfold Table.search_block in H2.
    destruct (Table.BlockReader t1 oc ro (bi_value it)) as [[bi t4] oc4] eqn:Eb. apply BlockReader_own in Eb as [B1 B2]. apply bind_Some in H2 as (bi2 & _ & [= _ _ <- <-]). rewrite H1 in B1, B2. by split. }
  destruct E2 as [E2 E3]. apply bind_Some in Hr as (t5 & H5 & [= _ <- <- _]). split; [|done]. rewrite <- E2. destruct (ok ds); [|by injection H5 as <-].
  unfold Table.count_access in H5. destruct (_ =? 0); [done|]. by injection H5 as <-.
Qed.

Lemma own_counter id oc oc' i : own_blocks id oc oc' -> counter oc' = Some i -> counter oc = Some i.
Proof. destruct oc as [c|], oc' as [c'|]; try done. intros [Hn _]. apply Hn. Qed.

Lemma own_ids id oc oc' : own_blocks id oc oc' -> (forall i, counter oc = Some i -> 0 <= id < i) -> ids_given oc -> ids_given oc'.
Proof.
  intros Ho Hid Hg c' i -> Hi. destruct oc as [c|]; [|done]. destruct Ho as [En Ho]. specialize (En i Hi). destruct (Hg c i eq_refl En) as [Hr Hh]. split; [done|].
  intros key b [Hm|Hk]%Ho; [by apply (Hh key b)|]. exists id. split; [by apply Hid|done].
Qed.
End Blocks.

(** ** Tables of files *)

(** What a table file was built from: its blocks of entries and its filters. *)
Record built := MkBuilt { b_groups : list (list (bytes * bytes)); b_results : list bytes; b_filters : FilterBlockBuilder; b_outs : list (list bytes) }.

Section Tables.
Context `{!Crc32c, !Snappy} {C : Comparator} {LC : ComparatorLaws C} {FP : FilterPolicy} {PL : FilterPolicyLaws FP} {BC : BlockCache} {BL : BlockCacheLaws BC}.
Context (P : Params) (HP : params_ok P) (HM : params_match P).
Context (opt : Options) (name : bytes) (RF : Z) (describe : bytes -> option built).

Definition b_text (b : built) : bytes := table_text opt (b_groups b) (b_results b) (Some (b_filters b)).
Definition b_regions (b : built) : nat := TableOpen.regions (b_outs b) RF.
Abbreviation b_table b := (built_table opt name (b_groups b) (b_results b) (b_filters b) (b_outs b) RF).
Abbreviation b_state b := (table_state opt (b_groups b) (b_results b) (b_filters b) (b_outs b) RF).

(** Every region has filters, and every filter an offset in the file. *)
Lemma regions_small b : b_table b -> Z.of_nat (b_regions b) < 2 ^ 27.
Proof.
  intros Hbt. destruct (bt_regions _ _ _ _ _ _ _ Hbt) as [Hrf _]. pose proof (text_bounds _ _ _ _ _ _ _ Hbt) as (B1 & _ & B3 & B4 & B5). pose proof (bt_results _ _ _ _ _ _ _ Hbt) as Hres. pose proof (bt_nums _ _ _ _ _ _ _ Hbt) as Hn.
  assert (Hlen : 4 * zlen (b_outs b) <= zlen (filters_text (b_results b))).
  { rewrite Hres. destruct filterNums as [|n]; [lia|]. cbn [seq fmap list_fmap]. unfold filters_text. cbn [fmap list_fmap concat]. unfold stored_block, FilterBlock.filter_block. rewrite !zlen_app, zlen_concat_fixed. unfold zlen. rewrite length_offset_table. lia. }
  pose proof (zlen_nonneg (b_outs b)) as Hz. assert (H27 : zlen (b_outs b) < 2 ^ 25) by (pose proof (zlen_nonneg (FooterCode.EncodeTo (table_footer opt (b_groups b) (b_results b) (Some (b_filters b))) [])); lia).
  unfold b_regions, TableOpen.regions. change kFilterBase with 65536. rewrite Z2Nat.id by (apply Z.div_pos; nia).
  apply Z.div_lt_upper_bound; nia.
Qed.

Context (describe_ok : forall x b, describe x = Some b -> b_text b = x /\ b_table b).

Lemma described x b : describe x = Some b -> b_text b = x /\ b_table b /\ Z.of_nat (b_regions b) < 2 ^ 31.
Proof. intros Hd. destruct (describe_ok x b Hd) as [Ht Hb]. split_and!; [done|done|pose proof (regions_small b Hb); lia]. Qed.

(** The table was opened on a described file and is in a good state. *)
Definition tf_ok (tf : TableAndFile) : Prop :=
  exists x b counts, tf_file tf = RFile x [] /\ describe x = Some b /\ b_state b (tf_table tf) counts.

Lemma state_written b : b_table b -> exists hs, written (b_outs b) (Z.to_nat RF) (b_regions b) hs (RFile (b_text b) []) /\
  forall t counts, b_state b t counts -> table_ok (b_outs b) (Z.to_nat RF) (b_regions b) hs (RFile (b_text b) []) (Table.rep t) counts.
Proof. intros Hbt. eexists. split; [by eapply table_written|]. intros t counts Ht. exact (ts_rep _ _ _ _ _ _ _ _ Ht). Qed.

Lemma state_counts b t counts : b_table b -> Z.of_nat (b_regions b) < 2 ^ 31 -> b_state b t counts -> table_counts t counts.
Proof. intros Hbt Hr Ht. destruct (state_written b Hbt) as (hs & Hw & Hs). eexists _, _, _, hs, _. split_and!; [exact Hw|by apply Hs|by eapply ts_access|done]. Qed.

Lemma state_regions b t counts : b_table b -> b_state b t counts -> getRegionNum (Table.rep t) = Z.of_nat (b_regions b) /\ length counts = b_regions b.
Proof.
  intros Hbt Ht. destruct (state_written b Hbt) as (hs & Hw & Hs). specialize (Hs t counts Ht). split; [by apply (getRegionNum_ok _ _ _ _ _ Hw _ _ Hs)|by apply (tk_counts _ _ _ _ _ _ _ Hs)].
Qed.

(** A count above 0 is one of a region. *)
Lemma state_num_pos b t counts r c : b_table b -> b_state b t counts -> 0 < c -> rt_num t r = Some c -> 0 <= r /\ counts !! Z.to_nat r = Some c.
Proof.
  intros Hbt Ht Hpos. destruct (state_written b Hbt) as (hs & _ & Hs). pose proof (tk_reader _ _ _ _ _ _ _ (Hs t counts Ht)) as Hrd. cbn [rt_num table_regions]. unfold getCurrFilterNum.
  destruct (filter (Table.rep t)) as [rd|]; [|intros [= <-]; lia]. destruct Hrd as (_ & _ & Hcur & _). destruct (Z.ltb_spec r 0); [intros [= <-]; lia|]. unfold getCurrFiltersNum. by rewrite Hcur.
Qed.

(** More filters may be loaded where none were. *)
Lemma state_grown b t t' counts counts' r c : b_table b -> b_state b t counts -> b_state b t' counts' -> grown counts counts' -> 0 < c -> rt_num t r = Some c -> rt_num t' r = Some c.
Proof.
  intros Hbt Ht Ht' Hg Hpos Hn. destruct (state_num_pos b t counts r c Hbt Ht Hpos Hn) as [Hr Hc]. destruct (state_written b Hbt) as (hs & Hw & Hs).
  rewrite <- (Z2Nat.id r) by done. cbn [rt_num table_regions]. eapply getCurrFilterNum_ok; [by apply Hs|]. by apply (Hg _ _ Hpos).
Qed.

(** Changes of the filters and of the access marks. *)
Lemma with_rep_state b t counts counts' rep' : b_state b t counts -> (forall hs, table_ok (b_outs b) (Z.to_nat RF) (b_regions b) hs (RFile (b_text b) []) (Table.rep t) counts ->
  table_ok (b_outs b) (Z.to_nat RF) (b_regions b) hs (RFile (b_text b) []) rep' counts') -> b_state b (Table.with_rep t rep') counts'.
Proof. intros [S1 S2 S3 S4 S5] Hs. split; try done. by apply Hs. Qed.

Lemma state_remove b t counts r c : b_table b -> b_state b t counts -> counts !! r = Some c -> 0 < c ->
  exists d t', rt_remove t 1 (Z.of_nat r) = Some (d, t') /\ b_state b t' (<[r := c - 1]> counts) /\ Table.cache_id t' = Table.cache_id t.
Proof.
  intros Hbt Ht Hc Hpos. pose proof (table_written _ _ _ _ _ _ _ Hbt) as Hw. pose proof (ts_rep _ _ _ _ _ _ _ _ Ht) as Hr. destruct (count_range _ _ _ _ _ _ _ _ _ Hr Hc) as [Hcr Hrr].
  assert (Hf : filter (Table.rep t) <> None).
  { intros E. pose proof (tk_reader _ _ _ _ _ _ _ Hr) as Hd. rewrite E in Hd. rewrite Hd in Hc. apply lookup_replicate in Hc as [Hc _]. lia. }
  destruct (RemoveFilters_ok _ _ _ _ _ Hw (Table.rep t) counts r c 1 Hr Hf Hc ltac:(lia)) as (rep' & E & Ht'). cbn [rt_remove table_regions]. rewrite E. cbn [mbind option_bind].
  eexists _, _. split; [done|]. split; [|done]. destruct Ht. by split.
Qed.

Lemma state_adjust b t counts r c n : b_table b -> b_state b t counts -> counts !! r = Some c ->
  exists d t' counts', rt_adjust t n (Z.of_nat r) = Some (d, t') /\ b_state b t' counts' /\ Table.cache_id t' = Table.cache_id t.
Proof.
  intros Hbt Ht Hc. pose proof (table_written _ _ _ _ _ _ _ Hbt) as Hw. destruct (AdjustFilters_ok _ _ _ _ _ Hw (Table.rep t) counts r c n (ts_rep _ _ _ _ _ _ _ _ Ht) Hc) as (rep' & E & Ht').
  cbn [rt_adjust table_regions]. rewrite E. cbn [mbind option_bind]. eexists _, _, _. split; [done|]. split; [|done]. destruct Ht. by split.
Qed.

Lemma state_access b t counts r t' : b_state b t counts -> rt_access t r = Some t' -> b_state b t' counts /\ Table.cache_id t' = Table.cache_id t.
Proof.
  intros Ht. cbn [rt_access table_regions]. unfold setAccess. intros (a & _ & [= <-])%bind_Some. split; [|done]. destruct Ht. split; try done. cbn. by rewrite length_insert.
Qed.

(** The promises to the multi queue, with the file kept. *)
#[local] Instance plain_laws : RegionTableLaws Table.Table table_regions P := table_laws P HP HM.

Lemma tf_table_ok tf : tf_ok tf -> rt_ok (tf_table tf).
Proof. intros (x & b & counts & _ & Hd & Ht). destruct (described x b Hd) as (_ & Hbt & Hr). exists counts. by apply (state_counts b). Qed.

Lemma region_count tf r x b counts : tf_file tf = RFile x [] -> describe x = Some b -> b_state b (tf_table tf) counts -> 0 <= r < getRegionNum (Table.rep (tf_table tf)) ->
  exists c, counts !! Z.to_nat r = Some c /\ rt_num (tf_table tf) r = Some c.
Proof.
  intros Hf Hd Ht Hr. destruct (described x b Hd) as (_ & Hbt & Hs). destruct (state_regions b _ _ Hbt Ht) as [E1 E2]. rewrite E1 in Hr.
  destruct (lookup_lt_is_Some_2 counts (Z.to_nat r)) as [c Hc]; [lia|]. exists c. split; [done|]. apply (table_num_iff _ counts); [by apply (state_counts b)|unfold zlen; lia|done].
Qed.

#[export] Program Instance file_laws : RegionTableLaws TableAndFile file_regions P := {
  rt_ok := tf_ok;
  rt_regions tf := getRegionNum (Table.rep (tf_table tf))
}.
Next Obligation. intros tf Hok. exact (rt_regions_range (tf_table tf) (tf_table_ok tf Hok)). Qed.
Next Obligation. intros tf r Hok Hr. exact (rt_num_ok (tf_table tf) r (tf_table_ok tf Hok) Hr). Qed.
Next Obligation. intros tf Hok. exact (rt_num_table (tf_table tf) (tf_table_ok tf Hok)). Qed.
Next Obligation.
  intros tf r c Hok Hr Hc Hpos. destruct (rt_remove_ok (tf_table tf) r c (tf_table_ok tf Hok) Hr Hc Hpos) as (d & t' & E & Hb & _ & Hn & Hc' & Ho). destruct Hok as (x & b & counts & Hf & Hd & Ht).
  destruct (described x b Hd) as (_ & Hbt & _). destruct (region_count tf r x b counts Hf Hd Ht Hr) as (c' & Hcr & En). change (rt_num (tf_table tf) r = Some c) in Hc. rewrite Hc in En. injection En as <-.
  destruct (state_remove b (tf_table tf) counts (Z.to_nat r) c Hbt Ht Hcr Hpos) as (d' & t'' & E' & Ht' & _). rewrite Z2Nat.id in E' by lia. rewrite E in E'. injection E' as <- <-.
  exists d, (MkTableAndFile (tf_file tf) t'). cbn [rt_remove file_regions]. unfold on_table. rewrite E. split_and!; try done. by eexists x, b, _.
Qed.
Next Obligation.
  intros tf r c n Hok Hr Hc Hn. destruct (rt_adjust_ok (tf_table tf) r c n (tf_table_ok tf Hok) Hr Hc Hn) as (d & t' & E & _ & Hn' & Hc' & Ho). destruct Hok as (x & b & counts & Hf & Hd & Ht).
  destruct (described x b Hd) as (_ & Hbt & _). destruct (region_count tf r x b counts Hf Hd Ht Hr) as (c' & Hcr & En).
  destruct (state_adjust b (tf_table tf) counts (Z.to_nat r) c' n Hbt Ht Hcr) as (d' & t'' & counts' & E' & Ht' & _). rewrite Z2Nat.id in E' by lia. rewrite E in E'. injection E' as <- <-.
  exists d, (MkTableAndFile (tf_file tf) t'). cbn [rt_adjust file_regions]. unfold on_table. rewrite E. split_and!; try done. by eexists x, b, _.
Qed.
Next Obligation.
  intros tf r Hok Hr. destruct (rt_access_ok (tf_table tf) r (tf_table_ok tf Hok) Hr) as (t' & E & _ & Hn & Ho). destruct Hok as (x & b & counts & Hf & Hd & Ht).
  destruct (state_access b (tf_table tf) counts r t' Ht E) as [Ht' _]. exists (MkTableAndFile (tf_file tf) t'). cbn [rt_access file_regions]. rewrite E. split_and!; try done. by eexists x, b, _.
Qed.

(** The file and the id of a table never change. *)
Definition tf_tag (tf : TableAndFile) : RandomAccessFile * Z := (tf_file tf, Table.cache_id (tf_table tf)).

Lemma tf_tag_remove tf n r d tf' : rt_remove tf n r = Some (d, tf') -> tf_tag tf' = tf_tag tf.
Proof. cbn. unfold on_table. intros ([d' t'] & E & [= <- <-])%bind_Some. apply bind_Some in E as ([d2 rp] & _ & [= <- <-]). done. Qed.

Lemma tf_tag_adjust tf n r d tf' : rt_adjust tf n r = Some (d, tf') -> tf_tag tf' = tf_tag tf.
Proof. cbn. unfold on_table. intros ([d' t'] & E & [= <- <-])%bind_Some. apply bind_Some in E as ([d2 rp] & _ & [= <- <-]). done. Qed.

Lemma tf_tag_access tf r tf' : rt_access tf r = Some tf' -> tf_tag tf' = tf_tag tf.
Proof. cbn. unfold setAccess. intros (t' & E & [= <-])%bind_Some. apply bind_Some in E as (a & _ & [= <-]). done. Qed.
End Tables.
