(* ===== verification/CachedLookup.v ===== *)
(** * CachedLookup: lookups through the table cache

    The invariant of src/LSM-EBF/db/table_cache.cc (model in TableCaching): every
    entry of the multi queue has the key of a file and a region and the table of
    that file; a file is entered with all its regions or not at all; the tables
    share the block cache under ids of their own.  [FindTable] and [Get] keep it,
    and [Get] answers from the file, unless one of its own calls on the multi queue
    spins, which [get_spins] computes, or the key is past the table's index. *)
From stdpp Require Import gmap.
From Stdlib Require Import SpecFloat.
From S2P Require Import Prelude Coding Crc32c Status Bloom Comparator DbFormat Filename TableFormat Block Iterators TwoLevel FilterBlock TableFilters TableBuilder Table TableOpen TableIndex TableGet TableLookup TableIter.
From S2P Require Import Hash Cache ShardedCache VersionGet MultiQueue QueueLists QueueInvariant QueueClient QueueHistory QueueFrame QueueTables QueueSteps TableCaching CachedTables.

(** ** Keys *)

Definition in_range (n i : Z) : Prop := 0 <= n < 2 ^ 64 /\ 0 <= i < 2 ^ 32.

Lemma fixed64_inj a b : 0 <= a < 2 ^ 64 -> 0 <= b < 2 ^ 64 -> EncodeFixed64 a = EncodeFixed64 b -> a = b.
Proof. intros Ha Hb E. by rewrite <- (DecodeFixed64_Encode a []), <- (DecodeFixed64_Encode b []), E by done. Qed.

Lemma take_file_key n i : take 8 (file_key n i) = EncodeFixed64 n.
Proof. unfold file_key. by rewrite take_app_length' by (by rewrite length_EncodeFixed64). Qed.

Lemma drop_file_key n i : drop 8 (file_key n i) = EncodeFixed32 i.
Proof. unfold file_key. by rewrite drop_app_length' by (by rewrite length_EncodeFixed64). Qed.

Lemma file_key_id n i : 0 <= i < 2 ^ 32 -> DecodeFixed32 (drop 8 (file_key n i)) = i.
Proof. intros Hi. rewrite drop_file_key, <- (app_nil_r (EncodeFixed32 i)). by apply DecodeFixed32_Encode. Qed.

Lemma file_key_inj n i n' i' : in_range n i -> in_range n' i' -> file_key n i = file_key n' i' -> n = n' /\ i = i'.
Proof.
  intros [Hn Hi] [Hn' Hi'] E. split.
  - apply fixed64_inj; [done|done|]. by rewrite <- (take_file_key n i), E, take_file_key.
  - rewrite <- (file_key_id n i), E by done. by apply file_key_id.
Qed.

Lemma region_file_key n i j : region_key (file_key n i) j = file_key n j.
Proof. unfold region_key. by rewrite take_file_key. Qed.

Lemma file_key_length n i : 12 <= zlen (file_key n i).
Proof. unfold file_key, zlen. rewrite length_app, length_EncodeFixed64, length_EncodeFixed32. lia. Qed.

(** Without filters to load the new table is not charged. *)
Lemma Open_no_charge `{!Crc32c, !Snappy} {C : Comparator} {FP : FilterPolicy} {BC : BlockCache} o f sz oc s t ch f' oc' :
  add_filter o = false -> Table.Open o f sz oc None = Some (s, Some (t, ch), f', oc') -> ch = None.
Proof.
  intros Ho. unfold Table.Open. destruct (_ <? _); [done|]. destruct (RandRead f _ _) as [[s1 inp] f1]. destruct (negb _); [done|]. destruct (FooterCode.DecodeFrom _ _) as [[s2 ft] rest]. destruct (negb _); [done|].
  destruct (ReadBlock f1 _ _ _) as [[s3 ct] f2]. destruct (negb _); [done|]. destruct (match oc with Some c => _ | None => _ end) as [id oc1]. rewrite Ho. cbn [mbind option_bind].
  intros ([rp ch'] & Hm & Hr)%bind_Some. assert (E : ch' = None).
  { unfold Table.ReadMeta in Hm. destruct (filter_policy o); [|by injection Hm as _ <-]. destruct (ReadBlock _ _ _ _) as [[s4 c4] f4]. destruct (negb _); [by injection Hm as _ <-|].
    apply bind_Some in Hm as (i1 & _ & Hm). apply bind_Some in Hm as (t1 & _ & Hm). apply bind_Some in Hm as (i2 & _ & Hm). apply bind_Some in Hm as (v & _ & Hm). cbn in Hm. by injection Hm as _ <-. }
  apply bind_Some in Hr as (i5 & _ & Hr). apply bind_Some in Hr as (fc & _ & Hr). destruct (_ <? _); [done|]. by injection Hr as _ _ <- _ _.
Qed.

(** ** Calls that spin *)

(** The calls of TableCaching.v, followed up to the call on the multi queue that
    does not end. *)
Section Spinning.
Context `{!Crc32c, !Snappy} {C : Comparator} {FP : FilterPolicy} {BC : BlockCache} {TF : TableFiles} (P : Params) (dbname : bytes).

Fixpoint insert_regions_spin (mq : MultiQueue TableAndFile) (n p id : Z) (charge : list Z) (fre_count : option Z) : bool :=
  match charge with
  | [] => false
  | ch :: charge =>
      insert_spins P mq (file_key n id) p ch ||
      after (Insert P mq (file_key n id) p ch true) (fun '(_, mq) =>
      after (match fre_count with Some k => SetFreCount P mq (file_key n id) k | None => Some mq end) (fun mq =>
      insert_regions_spin mq n p (id + 1) charge fre_count))
  end.

Definition enter_table_spins (tc : TableCaches) (n : Z) (file : RandomAccessFile) (t : Table.Table) (charge : option (list Z)) (file_level freq_count total_freq : Z) : bool :=
  let p := next_table tc in
  let regionNum := Z.to_nat (getRegionNum (Table.rep t)) in
  let charge := default (replicate regionNum 0) charge in
  let mq := put_table (tc_queue tc) p (MkTableAndFile file t) in
  insert_spins P mq (file_key n 0) p 0 ||
  after (Insert P mq (file_key n 0) p 0 true) (fun '(_, mq) =>
  let fre_count := if file_level =? 0 then Some (level0_freq tc) else if freq_count =? 0 then None else Some (u64 total_freq) in
  insert_regions_spin mq n p 1 (take regionNum charge) fre_count).

(** [FindTable] as [Get] calls it. *)
Definition find_spins (tc : TableCaches) (n file_size file_level : Z) : bool :=
  after (Lookup P (tc_queue tc) (file_key n 0) false) (fun '(handle, mq) =>
  match handle with
  | Some _ => false
  | None =>
      let '(s, file, e) := open_file dbname tf_New (tc_env tc) n in
      if ok s then
        after (Table.Open (tc_options tc) file file_size (block_cache tc) None) (fun '(_, opened, _, oc) =>
        match opened with
        | Some (t, charge) => enter_table_spins (with_env (with_queue tc mq) e oc) n file t charge file_level 0 0
        | None => false
        end)
      else false
  end).

Definition get_in_table_spins (tc : TableCaches) (ro : Table.ReadOptions) (handle : nat) (k : bytes) : bool :=
  after (table_of (tc_queue tc) handle) (fun '(p, tf) =>
  after (Table.InternalGet (tf_table tf) (block_cache tc) ro k) (fun '(r, t, _, _) =>
  after (Table.region_name r) (fun name =>
  after (Lookup P (put_table (tc_queue tc) p (MkTableAndFile (tf_file tf) t)) name true) (fun '(cache_handle, mq) =>
  after cache_handle (fun a =>
  release_spins P mq a || after (Release P mq a) (fun mq => release_spins P mq handle)))))).

Definition get_spins (tc : TableCaches) (opts : GetOptions) (n file_size : Z) (k : bytes) : bool :=
  let tc := with_options tc (set_add_filter (tc_options tc) false) in
  let ro := table_read opts in
  let ro := Table.MkReadOptions (Table.verify_checksums ro) (Table.fill_cache ro) n (Table.access_file_nums ro) (Table.read_file_nums ro) in
  find_spins tc n file_size (file_level opts) ||
  after (FindTable P dbname tc n file_size (file_level opts) None None) (fun '(_, handle, _, tc) =>
  match handle with Some a => get_in_table_spins tc ro a k | None => false end).

Definition evict_spins (tc : TableCaches) (n : Z) : bool :=
  after (Lookup P (tc_queue tc) (file_key n 0) false) (fun '(handle, mq) =>
  match handle with Some a => release_spins P mq a | None => false end).
End Spinning.

(** ** The invariant *)

Section Lookups.
Context `{!Crc32c, !Snappy} {C : Comparator} {LC : ComparatorLaws C} {FP : FilterPolicy} {PL : FilterPolicyLaws FP}.
Context {BC : BlockCache} {BL : BlockCacheLaws BC} {BI : BlockCacheIds BC} {TF : TableFiles}.
Context (P : Params) (HP : params_ok P) (HM : params_match P) (Hcap : 0 < capacity_ P) (dbname : bytes).
Context (opt : Options) (name : bytes) (RF : Z) (describe : bytes -> option built).
Context (describe_ok : forall x b, describe x = Some b -> b_text opt b = x /\ built_table opt name (b_groups b) (b_results b) (b_filters b) (b_outs b) RF).

(** The files of the directory: their texts, which [Env] opens. *)
Context (texts : Z -> option bytes) (env_ok : tf_env -> Prop).
Context (opens : forall e n x, env_ok e -> texts n = Some x -> exists e', tf_New e (TableFileName dbname n) = (Status_OK, RFile x [], e') /\ env_ok e').
Context (Hadd : add_filter opt = false) (Hinit : 0 <= init_filter_nums opt).

#[local] Instance laws : RegionTableLaws TableAndFile file_regions P := file_laws P HP HM opt name RF describe describe_ok.
Abbreviation evolves := (QueueFrame.evolves tf_tag).
Abbreviation b_state b := (table_state opt (b_groups b) (b_results b) (b_filters b) (b_outs b) RF).
Abbreviation below k := (base.filter (fun kv : bytes * bytes => Compare kv.1 k < 0)).
Implicit Types (m : Memory TableAndFile) (mq : MultiQueue TableAndFile) (tf : TableAndFile) (oc : option cache).

(** A handle has the key of a file and a region, and the table of that file. *)
Record handle_named m (next : Z) (h : LRUQueueHandle) (n : Z) : Prop := {
  hn_range : in_range n (value_id (data h));
  hn_key : LRU.key h = file_key n (value_id (data h));
  hn_value : q_value (data h) < next;
  hn_file : forall tf, tables m !! q_value (data h) = Some tf -> exists x, texts n = Some x /\ tf_file tf = RFile x []
}.

(** A table has a described file and finds only its own blocks in the cache. *)
Definition table_stored oc (next p : Z) tf : Prop :=
  p < next /\ (forall i, counter oc = Some i -> 0 <= Table.cache_id (tf_table tf) < i) /\
  exists x b, tf_file tf = RFile x [] /\ describe x = Some b /\ cache_good opt (b_groups b) (Table.cache_id (tf_table tf)) oc.

Record memory_ok m (next : Z) oc : Prop := {
  mo_handles : forall a h, heap m !! a = Some h -> exists n, handle_named m next h n;
  mo_tables : forall p tf, tables m !! p = Some tf -> table_stored oc next p tf;
  mo_distinct : forall p q tf tg i, counter oc = Some i -> tables m !! p = Some tf -> tables m !! q = Some tg -> p <> q -> Table.cache_id (tf_table tf) <> Table.cache_id (tf_table tg);
  mo_ids : ids_given oc
}.

Lemma tag_eq tf tf' : tf_tag tf' = tf_tag tf -> tf_file tf' = tf_file tf /\ Table.cache_id (tf_table tf') = Table.cache_id (tf_table tf).
Proof. by intros [= -> ->]. Qed.

Lemma ident_eq h h' : ident h' = ident h -> LRU.key h' = LRU.key h /\ q_value (data h') = q_value (data h) /\ value_id (data h') = value_id (data h).
Proof. by intros [= -> -> ->]. Qed.

Lemma named_same m m' next h h' n : ident h' = ident h -> (forall tf', tables m' !! q_value (data h) = Some tf' -> exists tf, tables m !! q_value (data h) = Some tf /\ tf_tag tf' = tf_tag tf) ->
  handle_named m next h n -> handle_named m' next h' n.
Proof.
  intros (E1 & E2 & E3)%ident_eq Ht [N1 N2 N3 N4]. split; rewrite ?E1, ?E2, ?E3; try done. intros tf' (tf & Hf & [E _]%tag_eq)%Ht. destruct (N4 tf Hf) as (x & Hx & Ex). exists x. split; [done|congruence].
Qed.

Lemma stored_same oc next p tf tf' : tf_tag tf' = tf_tag tf -> table_stored oc next p tf -> table_stored oc next p tf'.
Proof. intros [E1 E2]%tag_eq (S1 & S2 & x & b & S3 & S4 & S5). rewrite <- E2 in S2, S5. split_and!; [done|done|]. exists x, b. split_and!; [congruence|done|done]. Qed.

Lemma memory_evolves m m' next oc : evolves m m' -> memory_ok m next oc -> memory_ok m' next oc.
Proof.
  intros [E1 E2 _] [M1 M2 M3 M4]. split; [| | |done].
  - intros a h' (h & Hh & Ei)%E1. destruct (M1 a h Hh) as (n & Hn). exists n. eapply named_same; [done| |done]. intros tf'. apply E2.
  - intros p tf' (tf & Ht & Et)%E2. eapply stored_same; [done|]. by apply M2.
  - intros p q tf' tg' c Hc (tf & Ht & [_ Et]%tag_eq)%E2 (tg & Hg & [_ Eg]%tag_eq)%E2 Hne. rewrite Et, Eg. by apply (M3 p q tf tg c).
Qed.

(** ** Changes of the tables *)

(** The block cache after a lookup in the table at [p]. *)
Lemma stored_other oc oc' next p tf id : own_blocks id oc oc' -> (forall i, counter oc = Some i -> 0 <= id < i /\ i < 2 ^ 64 /\ Table.cache_id (tf_table tf) <> id) -> table_stored oc next p tf -> table_stored oc' next p tf.
Proof.
  intros Ho Hid (S1 & S2 & x & b & S3 & S4 & S5). pose proof (fun i => own_counter id oc oc' i Ho) as Hc. split_and!; [done|intros i Hi; apply S2, Hc, Hi|]. exists x, b. split_and!; [done|done|].
  destruct oc as [c|], oc' as [c'|]; try done. intros c0 j g bl [= <-] Hj Hm. destruct (next_id c') as [i|] eqn:Ei; [|by destruct (gone_empty c' _ _ Ei Hm)]. destruct Ho as [_ Ho].
  destruct (Ho _ _ Hm) as [Hm'|Hk]; [by apply (S5 c j g bl eq_refl Hj)|]. specialize (Hc i Ei). destruct (Hid i Hc) as (I1 & I2 & I3). specialize (S2 i Hc).
  exfalso. apply I3. apply fixed64_inj; [lia|lia|]. by rewrite <- Hk, take_cache_key.
Qed.

Lemma memory_touch mq next oc oc' p tf t' : memory_ok (mem mq) next oc -> tables (mem mq) !! p = Some tf -> Table.cache_id t' = Table.cache_id (tf_table tf) ->
  own_blocks (Table.cache_id (tf_table tf)) oc oc' -> (forall x b, tf_file tf = RFile x [] -> describe x = Some b -> cache_good opt (b_groups b) (Table.cache_id (tf_table tf)) oc') ->
  memory_ok (mem (put_table mq p (MkTableAndFile (tf_file tf) t'))) next oc'.
Proof.
  intros [M1 M2 M3 M4] Ht Eid Ho Hg. set (tf' := MkTableAndFile _ _). assert (Etag : tf_tag tf' = tf_tag tf) by (unfold tf_tag; cbn; by rewrite Eid).
  destruct (M2 p tf Ht) as (S1 & S2 & x & b & S3 & S4 & S5). pose proof (fun i => own_counter _ oc oc' i Ho) as Hc.
  assert (Hlt : forall i, counter oc = Some i -> i < 2 ^ 64) by (intros i Hi; destruct oc as [c|]; [|done]; apply (M4 c i eq_refl Hi)).
  split.
  - intros a h Hh. destruct (M1 a h Hh) as (n & Hn). exists n. eapply named_same; [done| |done]. intros tg. cbn. rewrite lookup_insert_Some. intros [[<- <-]|[_ Hq]]; [by exists tf|by exists tg].
  - intros q tg. cbn. rewrite lookup_insert_Some. intros [[<- <-]|[Hne Hq]].
    + split_and!; [done|intros i Hi; cbn; rewrite Eid; apply S2, Hc, Hi|exists x, b; split_and!; [done|done|cbn; rewrite Eid; by apply (Hg x b)]].
    + apply (stored_other oc oc' next q tg (Table.cache_id (tf_table tf))); [done| |by apply M2]. intros i Hi. split; [by apply S2|]. split; [by apply Hlt|]. by apply (M3 q p tg tf i).
  - intros q1 q2 tg1 tg2 i Hi%Hc. cbn. rewrite !lookup_insert_Some. intros [[<- <-]|[H1 H2]] [[<- <-]|[H3 H4]] Hne; cbn; rewrite ?Eid; [done|by apply (M3 p q2 tf tg2 i)|by apply (M3 q1 p tg1 tf i)|by apply (M3 q1 q2 tg1 tg2 i)].
  - apply (own_ids (Table.cache_id (tf_table tf)) oc oc'); [done|done|done].
Qed.

(** The next id, while the cache counts. *)
Lemma new_id_counter oc i : ids_given oc -> (forall j, counter oc = Some j -> j + 1 < 2 ^ 64) -> counter (new_id oc).2 = Some i -> counter oc = Some (i - 1) /\ (new_id oc).1 = i - 1 /\ 0 <= i - 1 /\ i < 2 ^ 64.
Proof.
  intros Hg Hroom Hi. destruct oc as [c|]; [|done]. unfold new_id in *. destruct (cache_NewId c) as [id c1] eqn:E. cbn in Hi. destruct (next_id c) as [j|] eqn:Ej; [|pose proof (newid_gone c Ej) as Hx; rewrite E in Hx; cbn in Hx; congruence].
  destruct (Hg c j eq_refl Ej) as [Hr _]. destruct (newid_next c j Ej Hr) as [E1 E2]. specialize (Hroom j Ej). specialize (E2 Hroom). rewrite E in E1, E2. cbn in E1, E2. rewrite Hi in E2. injection E2 as ->. cbn. rewrite Ej. split_and!; [f_equal; lia|lia|lia|lia].
Qed.

Lemma new_id_holds oc c' key b : (new_id oc).2 = Some c' -> may_hold c' key b -> exists c, oc = Some c /\ may_hold c key b.
Proof. destruct oc as [c|]; [|done]. unfold new_id. destruct (cache_NewId c) as [id c1] eqn:E. intros [= <-] Hm. exists c. split; [done|]. apply newid_keeps. by rewrite E. Qed.

(** A table that was opened on a file. *)
Lemma memory_open mq next oc x b t : memory_ok (mem mq) next oc -> describe x = Some b -> Table.cache_id t = (new_id oc).1 -> (forall i, counter oc = Some i -> i + 1 < 2 ^ 64) ->
  memory_ok (mem (put_table mq next (MkTableAndFile (RFile x []) t))) (next + 1) (new_id oc).2.
Proof.
  intros [M1 M2 M3 M4] Hd Eid Hroom. set (tf' := MkTableAndFile _ _). assert (Hnew : tables (mem mq) !! next = None) by (destruct (tables (mem mq) !! next) as [tg|] eqn:E; [destruct (M2 next tg E); lia|done]).
  pose proof (fun i => new_id_counter oc i M4 Hroom) as Hc. split.
  - intros a h Hh. destruct (M1 a h Hh) as (n & [N1 N2 N3 N4]). exists n. split; [done|done|lia|]. intros tf. cbn. rewrite lookup_insert_ne by lia. apply N4.
  - intros q tg. cbn. rewrite lookup_insert_Some. intros [[<- <-]|[Hne Hq]].
    + split_and!; [lia|intros i Hi; destruct (Hc i Hi) as (_ & E1 & E2); cbn; lia|]. exists x, b. split_and!; [done|done|]. cbn. rewrite Eid. intros c' j g bl Hc' Hj Hm.
      destruct (next_id c') as [i|] eqn:Ei; [|by destruct (gone_empty c' _ _ Ei Hm)]. destruct (Hc i) as (Ec & E1 & E2); [by rewrite Hc'|].
      destruct (new_id_holds _ _ _ _ Hc' Hm) as (c & -> & Hm'). destruct (M4 c (i - 1) eq_refl Ec) as [Hr Hh]. destruct (Hh _ _ Hm') as (id & Hid & Hk). rewrite take_cache_key in Hk. apply fixed64_inj in Hk; [lia|lia|lia].
    + destruct (M2 q tg Hq) as (S1 & S2 & y & b' & S3 & S4 & S5). split_and!; [lia|intros i Hi; destruct (Hc i Hi) as (Ec & E1 & E2); specialize (S2 _ Ec); lia|]. exists y, b'. split_and!; [done|done|].
      intros c' j g bl Hc' Hj Hm. destruct (new_id_holds _ _ _ _ Hc' Hm) as (c & -> & Hm'). by apply (S5 c j g bl).
  - intros q1 q2 tg1 tg2 i Hi. destruct (Hc i Hi) as (Ec & E1 & E2). cbn. rewrite !lookup_insert_Some.
    assert (Hlt : forall q tg, tables (mem mq) !! q = Some tg -> Table.cache_id (tf_table tg) < i - 1) by (intros q tg Hq; destruct (M2 q tg Hq) as (_ & S2 & _); by apply S2).
    intros [[<- <-]|[H1 H2]] [[<- <-]|[H3 H4]] Hne; cbn; rewrite ?Eid, ?E1; [done|specialize (Hlt q2 tg2 H4); lia|specialize (Hlt q1 tg1 H2); lia|by apply (M3 q1 q2 tg1 tg2 (i - 1))].
  - intros c' i Hc' Hi. destruct (Hc i) as (Ec & E1 & E2); [by rewrite Hc'|]. split; [lia|]. intros key bl Hm. destruct (new_id_holds _ _ _ _ Hc' Hm) as (c & -> & Hm'). destruct (M4 c (i - 1) eq_refl Ec) as [_ Hh]. destruct (Hh key bl Hm') as (id & Hid & Hk). exists id. split; [lia|done].
Qed.

(** A new handle. *)
Lemma memory_handle m next oc h n p i tf x : memory_ok m next oc -> ident h = (file_key n i, p, i) -> in_range n i -> tables m !! p = Some tf -> texts n = Some x -> tf_file tf = RFile x [] ->
  memory_ok (with_handle m h) next oc.
Proof.
  intros [M1 M2 M3 M4] [= Ek Ev Ei] Hr Ht Hx Hf. split; [|done..]. intros a h'. cbn. rewrite lookup_insert_Some. intros [[<- <-]|[_ Hh]]; [|destruct (M1 a h' Hh) as (n' & [N1 N2 N3 N4]); exists n'; by split].
  exists n. split; rewrite ?Ei, ?Ek, ?Ev; [done|done|by destruct (M2 p tf Ht)|]. intros tg. cbn. rewrite Ht. intros [= <-]. by exists x.
Qed.

(** ** Entries *)

(** The key [k] is cached with the table at [p]. *)
Definition entry_at mq (ids : list nat) (k : bytes) (p : Z) : Prop := exists a h, a ∈ ids /\ handle mq a = Some h /\ LRU.key h = k /\ q_value (data h) = p.

Section Entries.
Context (s : queue_state (T := TableAndFile)).
Abbreviation at_state := (QueueSteps.at_state P s).

Lemma entry_same mq mq' ids held held' k p : at_state mq ids held -> at_state mq' ids held' -> evolves (mem mq) (mem mq') -> entry_at mq' ids k p <-> entry_at mq ids k p.
Proof.
  intros [_ Hm] [_ Hm'] Hev. split; intros (a & h & Ha & Hh & Hk & Hp).
  - destruct (ev_handle _ _ _ Hev a h Hh) as (h0 & Hh0 & (E1 & E2 & _)%ident_eq). exists a, h0. split_and!; [done|done|congruence|congruence].
  - destruct (ids_handle P mq' ids held' a (mk_books _ _ _ _ Hm') Ha) as (h' & Hh' & _). destruct (ev_handle _ _ _ Hev a h' Hh') as (h0 & Hh0 & (E1 & E2 & _)%ident_eq).
    change (handle mq a = Some h0) in Hh0. rewrite Hh in Hh0. injection Hh0 as <-. exists a, h'. split_and!; [done|done|congruence|congruence].
Qed.

Lemma entry_inserted mq mq' ids held held' h k0 p0 i : let e := next_addr (mem mq) in
  at_state mq ids held -> at_state mq' (e :: ids) held' -> ident h = (k0, p0, i) ->
  (forall a h', heap (mem mq') !! a = Some h' -> exists h0, heap (with_handle (mem mq) h) !! a = Some h0 /\ ident h' = ident h0) ->
  forall k p, entry_at mq' (e :: ids) k p <-> (k = k0 /\ p = p0) \/ entry_at mq ids k p.
Proof.
  intros e [_ Hm] [_ Hm'] [= Ek Ep _] Hev k p.
  assert (Hne : forall a, a ∈ ids -> a <> e). { intros a Ha ->. destruct (ids_handle P mq ids held e (mk_books _ _ _ _ Hm) Ha) as (h1 & Hh1 & _). pose proof (qo_fresh _ _ _ (mk_queue _ _ _ _ Hm) e ltac:(by exists h1)). unfold e in *. lia. }
  assert (Hin : forall a h', heap (with_handle (mem mq) h) !! a = Some h' -> (a = e /\ h' = h) \/ handle mq a = Some h').
  { intros a h'. cbn. rewrite lookup_insert_Some. intros [[<- <-]|[_ Hh]]; [by left|by right]. }
  split; intros Hx.
  - destruct Hx as (a & h' & Ha & Hh & Hk & Hp). destruct (Hev a h' Hh) as (h0 & Hh0 & (E1 & E2 & _)%ident_eq). destruct (Hin a h0 Hh0) as [[-> ->]|Hh1]; [left; split; congruence|].
    apply elem_of_cons in Ha as [->|Ha]; [|right; exists a, h0; split_and!; [done|done|congruence|congruence]]. cbn in Hh0. rewrite lookup_insert_eq in Hh0. injection Hh0 as <-. left. split; congruence.
  - destruct Hx as [[-> ->]|(a & h' & Ha & Hh & Hk & Hp)].
    + destruct (ids_handle P mq' (e :: ids) held' e (mk_books _ _ _ _ Hm') ltac:(by left)) as (h' & Hh' & _). destruct (Hev e h' Hh') as (h0 & Hh0 & (E1 & E2 & _)%ident_eq).
      cbn in Hh0. rewrite lookup_insert_eq in Hh0. injection Hh0 as <-. exists e, h'. split_and!; [by left|done|congruence|congruence].
    + destruct (ids_handle P mq' (e :: ids) held' a (mk_books _ _ _ _ Hm') ltac:(by right)) as (h1 & Hh1 & _). destruct (Hev a h1 Hh1) as (h0 & Hh0 & (E1 & E2 & _)%ident_eq).
      destruct (Hin a h0 Hh0) as [[-> _]|Hh2]; [by destruct (Hne e Ha)|]. rewrite Hh in Hh2. injection Hh2 as <-. exists a, h1. split_and!; [by right|done|congruence|congruence].
Qed.

(** A cached handle is still there. *)
Definition handles_kept mq (ids : list nat) mq' (ids' : list nat) : Prop := forall a h, a ∈ ids -> handle mq a = Some h -> a ∈ ids' /\ exists h', handle mq' a = Some h' /\ ident h' = ident h.

Lemma same_kept mq mq' ids held held' : at_state mq ids held -> at_state mq' ids held' -> evolves (mem mq) (mem mq') -> handles_kept mq ids mq' ids.
Proof.
  intros [_ Hm] [_ Hm'] Hev a h Ha Hh. split; [done|]. destruct (ids_handle P mq' ids held' a (mk_books _ _ _ _ Hm') Ha) as (h' & Hh' & _). exists h'. split; [done|].
  destruct (ev_handle _ _ _ Hev a h' Hh') as (h0 & Hh0 & E). change (handle mq a = Some h0) in Hh0. rewrite Hh in Hh0. by injection Hh0 as <-.
Qed.

Lemma inserted_kept mq mq' ids held held' h : let e := next_addr (mem mq) in at_state mq ids held -> at_state mq' (e :: ids) held' ->
  (forall a h', heap (mem mq') !! a = Some h' -> exists h0, heap (with_handle (mem mq) h) !! a = Some h0 /\ ident h' = ident h0) -> handles_kept mq ids mq' (e :: ids).
Proof.
  intros e [_ Hm] [_ Hm'] Hev a ha Ha Hh. split; [by right|]. destruct (ids_handle P mq' (e :: ids) held' a (mk_books _ _ _ _ Hm') ltac:(by right)) as (h' & Hh' & _). exists h'. split; [done|].
  destruct (Hev a h' Hh') as (h0 & Hh0 & E). pose proof (qo_fresh _ _ _ (mk_queue _ _ _ _ Hm) a ltac:(by exists ha)) as Hlt. cbn in Hh0. rewrite lookup_insert_ne in Hh0 by lia. change (handle mq a = Some h0) in Hh0. rewrite Hh in Hh0. by injection Hh0 as <-.
Qed.

Lemma kept_trans_ids mq1 ids1 mq2 ids2 mq3 ids3 : handles_kept mq1 ids1 mq2 ids2 -> handles_kept mq2 ids2 mq3 ids3 -> handles_kept mq1 ids1 mq3 ids3.
Proof. intros K1 K2 a h Ha Hh. destruct (K1 a h Ha Hh) as (Ha2 & h2 & Hh2 & E2). destruct (K2 a h2 Ha2 Hh2) as (Ha3 & h3 & Hh3 & E3). split; [done|]. exists h3. split; [done|congruence]. Qed.

Lemma entry_unique mq ids held k p p' : at_state mq ids held -> entry_at mq ids k p -> entry_at mq ids k p' -> p = p'.
Proof.
  intros [_ Hm] (a & h & Ha & Hh & Hk & Hp) (b & h' & Hb & Hh' & Hk' & Hp'). assert (a = b) as -> by (apply (proj2 (mk_unique _ _ _ _ (mk_books _ _ _ _ Hm)) a b h h' Ha Hb Hh Hh'); congruence).
  rewrite Hh in Hh'. injection Hh' as <-. congruence.
Qed.

(** The table of an entry. *)
Lemma entry_table mq ids held next oc n i p : at_state mq ids held -> memory_ok (mem mq) next oc -> in_range n i -> entry_at mq ids (file_key n i) p ->
  exists tf x b counts, tables (mem mq) !! p = Some tf /\ texts n = Some x /\ describe x = Some b /\ tf_file tf = RFile x [] /\ b_state b (tf_table tf) counts /\ p < next /\
    getRegionNum (Table.rep (tf_table tf)) = Z.of_nat (b_regions RF b).
Proof.
  intros [_ Hm] Hmem Hr (a & h & Ha & Hh & Hk & Hp). destruct (cached_table P mq ids held a h Hm Ha Hh) as (tf & Ht & (x & b & counts & Hf & Hd & Hs)). rewrite Hp in Ht.
  destruct (mo_handles _ _ _ Hmem a h Hh) as (n' & [N1 N2 N3 N4]). rewrite N2 in Hk. apply file_key_inj in Hk as [-> _]; [|done|done]. rewrite Hp in N4. destruct (N4 tf Ht) as (y & Hy & Ey).
  rewrite Hf in Ey. injection Ey as <-. exists tf, x, b, counts. destruct (described opt name RF describe describe_ok x b Hd) as (_ & Hbt & _). split_and!; try done; [by destruct (mo_tables _ _ _ Hmem p tf Ht)|]. by apply (state_regions opt name RF b (tf_table tf) counts Hbt Hs).
Qed.

(** Two files do not share a table. *)
Lemma entry_file mq ids held next oc n n' p : at_state mq ids held -> memory_ok (mem mq) next oc -> in_range n 0 -> in_range n' 0 -> entry_at mq ids (file_key n 0) p -> entry_at mq ids (file_key n' 0) p -> n = n'.
Proof.
  intros [_ Hm] Hmem Hr Hr' (a & h & Ha & Hh & Hk & Hp) (b & h' & Hb & Hh' & Hk' & Hp').
  assert (Hz : forall c hc k, heap (mem mq) !! c = Some hc -> in_range k 0 -> LRU.key hc = file_key k 0 -> value_id (data hc) = 0).
  { intros c hc k Hc Hk0 Hkc. destruct (mo_handles _ _ _ Hmem c hc Hc) as (k' & [N1 N2 _ _]). rewrite N2 in Hkc. by apply file_key_inj in Hkc as [_ ?]. }
  assert (a = b) as <-. { apply (mk_once _ _ _ _ (mk_books _ _ _ _ Hm) a h b h'); [done|done|by apply (Hz a h n)|by apply (Hz b h' n')|congruence]. }
  rewrite Hh in Hh'. injection Hh' as <-. rewrite Hk in Hk'. by apply file_key_inj in Hk' as [? _].
Qed.

End Entries.

(** A region is entered with its table. *)
Definition rooted mq ids : Prop := forall n i p, in_range n i -> entry_at mq ids (file_key n i) p -> entry_at mq ids (file_key n 0) p.

(** A table is entered with all its regions. *)
Definition complete mq ids (n : Z) : Prop := forall p x b i, entry_at mq ids (file_key n 0) p -> texts n = Some x -> describe x = Some b -> 1 <= i <= Z.of_nat (b_regions RF b) -> entry_at mq ids (file_key n i) p.

(** ** [FindTable] *)

Lemma insert_regions_ok s n p x fre charge : forall mq ids held next oc id, at_state P s mq ids held -> memory_ok (mem mq) next oc -> rooted mq ids ->
  in_range n 0 -> texts n = Some x -> entry_at mq ids (file_key n 0) p -> 1 <= id -> (id = 1 \/ entry_at mq ids (file_key n (id - 1)) p) ->
  (forall j p', in_range n j -> id <= j -> ~ entry_at mq ids (file_key n j) p') ->
  (forall b, describe x = Some b -> id + zlen charge - 1 <= Z.of_nat (b_regions RF b)) -> Z.of_nat (next_addr (mem mq)) + zlen charge < 2 ^ 31 - 2 ->
  finishes (insert_regions_spin P mq n p id charge fre) (insert_regions P mq n p id charge fre) (fun mq' => exists ids', at_state P s mq' ids' held /\ memory_ok (mem mq') next oc /\ rooted mq' ids' /\
    next_addr (mem mq') = (next_addr (mem mq) + length charge)%nat /\ handles_kept mq ids mq' ids' /\
    forall k q, entry_at mq' ids' k q <-> (exists j, id <= j < id + zlen charge /\ k = file_key n j /\ q = p) \/ entry_at mq ids k q).
Proof.
  induction charge as [|ch charge IH]; intros mq ids held next oc id Hat Hmem Hroot Hn Hx He Hid Hprev Hnew Hmax Hroom; cbn [insert_regions insert_regions_spin].
  { apply finishes_ret. exists ids. split_and!; [done|done|done|cbn; lia|intros a h Ha Hh; split; [done|by exists h]|]. intros k q. split; [by right|]. intros [(j & Hj & _)|?]; [|done]. change (zlen []) with 0 in Hj. lia. }
  rewrite zlen_cons in Hmax, Hroom. pose proof (zlen_nonneg charge) as Hz. destruct (entry_table s mq ids held next oc n 0 p Hat Hmem Hn He) as (tf & y & b & counts & Ht & Hy & Hd & Hf & Hs & Hp & Hreg).
  rewrite Hx in Hy. injection Hy as <-. specialize (Hmax b Hd). destruct (described opt name RF describe describe_ok x b Hd) as (_ & Hbt & Hsmall). assert (Hr : in_range n id) by (split; [apply Hn|lia]). assert (Hdec : DecodeFixed32 (drop 8 (file_key n id)) = id) by (apply file_key_id, Hr).
  assert (Hfit : region_fits P mq ids (file_key n id) p tf).
  { split; rewrite ?Hdec, ?region_file_key; [done|apply file_key_length|change (1 <= id <= getRegionNum (Table.rep (tf_table tf))); rewrite Hreg; lia|done|..].
    - destruct Hprev as [->|(a & h & Ha & Hh & Hk & _)]; [by left|]. right. exists a, h. by rewrite region_file_key.
    - intros a h Ha Hh. assert (Hkey : LRU.key h <> file_key n id) by (intros E; apply (Hnew id (q_value (data h)) Hr ltac:(lia)); by exists a, h). split; [done|]. intros Ep Ei.
      destruct (mo_handles _ _ _ Hmem a h Hh) as (n' & [N1 N2 _ _]). rewrite Ei in N1, N2. assert (Hroot' : entry_at mq ids (file_key n' 0) p) by (apply (Hroot n' id p N1); by exists a, h).
      apply Hkey. rewrite N2. by rewrite (entry_file s mq ids held next oc n n' p Hat Hmem Hn ltac:(split; [apply N1|lia]) He Hroot'). }
  eapply finishes_bind; [apply (step_Region P HP tf_tag tf_tag_remove tf_tag_adjust s mq ids held (file_key n id) p tf ch Hat Hcap Hfit); lia|].
  intros [e mq1] (Ee & Hat1 & h & Hident & Hev). cbn [fst snd] in *. subst e. rewrite Hdec in Hident. pose proof (entry_inserted s mq mq1 ids held held h (file_key n id) p id Hat Hat1 Hident (ev_handle _ _ _ Hev)) as Hent1.
  assert (Hmem1 : memory_ok (mem mq1) next oc) by (eapply memory_evolves; [exact Hev|]; by apply (memory_handle (mem mq) next oc h n p id tf x)).
  set (ids1 := next_addr (mem mq) :: ids) in *. assert (Hroot1 : rooted mq1 ids1).
  { intros m j q Hj Hq. apply Hent1 in Hq as [[E ->]|Hq]; apply Hent1; right; [|by apply (Hroot m j)]. apply file_key_inj in E as [-> _]; done. }
  assert (Hstep : exists mq2, match fre with Some k => SetFreCount P mq1 (file_key n id) k | None => Some mq1 end = Some mq2 /\ at_state P s mq2 ids1 held /\ evolves (mem mq1) (mem mq2)).
  { destruct fre as [k|]; [by apply (step_SetFre P HP tf_tag)|]. exists mq1. split_and!; [done|done|reflexivity]. }
  destruct Hstep as (mq2 & -> & Hat2 & Hev2). cbn [mbind option_bind after]. pose proof (fun k q => entry_same s mq1 mq2 ids1 held held k q Hat1 Hat2 Hev2) as Hent2.
  assert (Hnext : next_addr (mem mq2) = S (next_addr (mem mq))) by (rewrite (ev_next _ _ _ Hev2), (ev_next _ _ _ Hev); done).
  eapply finishes_weaken; [apply (IH mq2 ids1 held next oc (id + 1)); try done|].
  - by eapply memory_evolves.
  - intros m j q Hj Hq. apply Hent2, (Hroot1 m j); [done|]. by apply Hent2.
  - apply Hent2, Hent1. by right.
  - lia.
  - right. replace (id + 1 - 1) with id by lia. apply Hent2, Hent1. by left.
  - intros j q Hj Hle [[E _]|Hq]%Hent2%Hent1; [apply file_key_inj in E as [_ E]; [lia|done|done]|]. apply (Hnew j q Hj); [lia|done].
  - intros b' Hb'. rewrite Hd in Hb'. injection Hb' as <-. lia.
  - rewrite Hnext. lia.
  - intros mq' (ids' & A1 & A2 & A3 & A4 & Akept & A5). exists ids'. split_and!; [done|done|done|rewrite A4, Hnext; cbn; lia| |].
    { eapply kept_trans_ids; [|exact Akept]. apply (kept_trans_ids mq ids mq1 ids1); [exact (inserted_kept s mq mq1 ids held held h Hat Hat1 (ev_handle _ _ _ Hev))|exact (same_kept s mq1 mq2 ids1 held held Hat1 Hat2 Hev2)]. } intros k q. rewrite A5, Hent2, Hent1. rewrite zlen_cons. split.
    + intros [(j & Hj & -> & ->)|[[-> ->]|Hq]]; [left; exists j; split_and!; try done; lia|left; exists id; split_and!; try done; lia|by right].
    + intros [(j & Hj & -> & ->)|Hq]; [|by right; right]. destruct (decide (j = id)) as [->|]; [by right; left|]. left. exists j. split_and!; try done; lia.
Qed.

(** The state of the cache: what the calls rely on and keep. *)
Record cache_ok s (tc : TableCaches) (ids held : list nat) : Prop := {
  co_state : at_state P s (tc_queue tc) ids held;
  co_memory : memory_ok (mem (tc_queue tc)) (next_table tc) (block_cache tc);
  co_env : env_ok (tc_env tc);
  co_rooted : rooted (tc_queue tc) ids;
  co_complete : forall n, in_range n 0 -> complete (tc_queue tc) ids n
}.

(** There are addresses, references and ids left. *)
Record room (tc : TableCaches) (held : list nat) (b : built) : Prop := {
  rm_handles : Z.of_nat (next_addr (mem (tc_queue tc))) + Z.of_nat (b_regions RF b) + 1 < 2 ^ 31 - 2;
  rm_held : zlen held + 2 < 2 ^ 31;
  rm_ids : forall i, counter (block_cache tc) = Some i -> i + 1 < 2 ^ 64
}.

(** The handle of the table of file [n]. *)
Definition table_handle_of mq (ids : list nat) (n : Z) (a : nat) : Prop := exists h, a ∈ ids /\ handle mq a = Some h /\ LRU.key h = file_key n 0.

Lemma cache_ok_same s tc mq ids held held' : cache_ok s tc ids held -> at_state P s mq ids held' -> evolves (mem (tc_queue tc)) (mem mq) -> cache_ok s (with_queue tc mq) ids held'.
Proof.
  intros [C1 C2 C3 C4 C5] Hat Hev. pose proof (fun k q => entry_same s (tc_queue tc) mq ids held held' k q C1 Hat Hev) as Hent. split; cbn; try done.
  - by eapply memory_evolves.
  - intros n i p Hr Hp. apply Hent, (C4 n i); [done|]. by apply Hent.
  - intros n Hr p x b i Hp Hx Hd Hi. apply Hent. eapply C5; [done|by apply Hent|done|done|done].
Qed.

Lemma enter_table_ok s tc ids held n x b t counts level : cache_ok s tc ids held -> room tc held b -> in_range n 0 -> texts n = Some x -> describe x = Some b -> b_state b t counts ->
  (forall p, ~ entry_at (tc_queue tc) ids (file_key n 0) p) -> Table.cache_id t = (new_id (block_cache tc)).1 ->
  let tc1 := with_env tc (tc_env tc) (new_id (block_cache tc)).2 in
  finishes (enter_table_spins P tc1 n (RFile x []) t None level 0 0) (enter_table P tc1 n (RFile x []) t None level 0 0) (fun '(a, tc') => exists ids', cache_ok s tc' ids' (a :: held) /\ table_handle_of (tc_queue tc') ids' n a /\
    tc_options tc' = tc_options tc /\ next_addr (mem (tc_queue tc')) = (next_addr (mem (tc_queue tc)) + S (b_regions RF b))%nat /\ block_cache tc' = (new_id (block_cache tc)).2 /\
    (forall k q, entry_at (tc_queue tc') ids' k q <-> (exists j, 0 <= j <= Z.of_nat (b_regions RF b) /\ k = file_key n j /\ q = next_table tc) \/ entry_at (tc_queue tc) ids k q)).
Proof.
  intros [C1 C2 C3 C4 C5] [R1 R2 R3] Hn Hx Hd Hs Hno Hid tc1. destruct (described opt name RF describe describe_ok x b Hd) as (_ & Hbt & Hsmall). destruct (state_regions opt name RF b t counts Hbt Hs) as [Hreg _].
  set (mq := tc_queue tc) in *. set (p := next_table tc) in *. set (tf := MkTableAndFile (RFile x []) t). unfold enter_table, enter_table_spins. cbn [tc_queue next_table with_env tc1 default]. fold mq p tf. rewrite length_replicate, Nat.leb_refl.
  assert (Hfree : tables (mem mq) !! p = None) by (destruct (tables (mem mq) !! p) as [tg|] eqn:E; [destruct (mo_tables _ _ _ C2 p tg E); unfold p in *; lia|done]).
  assert (Htf : rt_ok tf) by (by exists x, b, counts). assert (Hnone : forall j q, in_range n j -> ~ entry_at mq ids (file_key n j) q) by (intros j q Hj Hq; by apply (Hno q), (C4 n j)).
  eapply finishes_bind; [apply (step_Open P HP tf_tag tf_tag_remove tf_tag_adjust s mq ids held (file_key n 0) p tf C1 Hfree Htf)|].
  - apply file_key_length.
  - by apply file_key_id.
  - intros a h Ha Hh Hk. apply (Hno (q_value (data h))). by exists a, h.
  - lia.
  - intros [e mq1] (Ee & Hat1 & h & Hident & Hev). cbn [fst snd] in *. subst e. set (mqA := put_table mq p tf) in *. set (e := next_addr (mem mq)) in *.
    assert (HmA : memory_ok (mem mqA) (p + 1) (new_id (block_cache tc)).2) by (by apply (memory_open mq p (block_cache tc) x b t)).
    assert (Hm1 : memory_ok (mem mq1) (p + 1) (new_id (block_cache tc)).2) by (eapply memory_evolves; [exact Hev|]; eapply (memory_handle (mem mqA) _ _ h n p 0 tf x); try done; apply lookup_insert_eq).
    assert (Hent1 : forall k q, entry_at mq1 (e :: ids) k q <-> (k = file_key n 0 /\ q = p) \/ entry_at mq ids k q).
    { exact (entry_inserted s mq mq1 ids held (e :: held) h (file_key n 0) p 0 C1 Hat1 Hident (ev_handle _ _ _ Hev)). }
    assert (Hroot1 : rooted mq1 (e :: ids)) by (intros m j q Hj [[E ->]|Hq]%Hent1; apply Hent1; [left; by apply file_key_inj in E as [-> _]|right; by apply (C4 m j)]).
    assert (He1 : next_addr (mem mq1) = S e) by (rewrite (ev_next _ _ _ Hev); done). assert (Hreg' : zlen (take (Z.to_nat (getRegionNum (Table.rep t))) (replicate (Z.to_nat (getRegionNum (Table.rep t))) 0)) = Z.of_nat (b_regions RF b)) by (unfold zlen; rewrite length_take, length_replicate, Hreg; lia).
    set (charge := take _ _) in *. assert (Hlen : length charge = b_regions RF b) by (unfold zlen in Hreg'; lia).
    eapply finishes_last; [apply (insert_regions_ok s n p x _ charge mq1 (e :: ids) (e :: held) (p + 1) (new_id (block_cache tc)).2 1); try done|].
    + apply Hent1. by left.
    + by left.
    + intros j q Hj Hle [[E _]|Hq]%Hent1; [apply file_key_inj in E as [_ E]; [lia|done|done]|]. by apply (Hnone j q).
    + intros b' Hb'. rewrite Hd in Hb'. injection Hb' as <-. lia.
    + rewrite He1. unfold e. lia.
    + intros mq' (ids' & A1 & A2 & A3 & A4 & Akept & A5). apply finishes_ret. exists ids'.
      assert (Hent : forall k q, entry_at mq' ids' k q <-> (exists j, 0 <= j <= Z.of_nat (b_regions RF b) /\ k = file_key n j /\ q = p) \/ entry_at mq ids k q).
      { intros k q. rewrite A5, Hent1, Hreg'. split.
        - intros [(j & Hj & -> & ->)|[[-> ->]|Hq]]; [left; exists j; split_and!; try done; lia|left; exists 0; split_and!; try done; lia|by right].
        - intros [(j & Hj & -> & ->)|Hq]; [|by right; right]. destruct (decide (j = 0)) as [->|]; [by right; left|]. left. exists j. split_and!; try done; lia. }
      assert (Hr : forall j, 0 <= j <= Z.of_nat (b_regions RF b) -> in_range n j) by (intros j Hj; split; [apply Hn|lia]).
      split_and!; try done.
      * split; cbn; try done. intros m Hm q y b' i Hq Hy Hb' Hi. apply Hent. apply Hent in Hq as [(j & Hj & E & ->)|Hq]; [|right; by eapply (C5 m)].
        apply file_key_inj in E as [-> _]; [|done|by apply Hr]. rewrite Hx in Hy. injection Hy as <-. rewrite Hd in Hb'. injection Hb' as <-. left. exists i. split_and!; try done; lia.
      * assert (Hh1 : exists h1, handle mq1 e = Some h1 /\ LRU.key h1 = file_key n 0).
        { destruct (ids_handle P mq1 (e :: ids) (e :: held) e (mk_books _ _ _ _ (as_ok _ _ _ _ _ Hat1)) ltac:(by left)) as (h1 & Hh1 & _). exists h1. split; [done|].
          destruct (ev_handle _ _ _ Hev e h1 Hh1) as (h0 & Hh0 & (E1 & _)%ident_eq). cbn in Hh0. rewrite lookup_insert_eq in Hh0. injection Hh0 as <-. injection Hident as Ek _ _. congruence. }
        destruct Hh1 as (h1 & Hh1 & Hk1). destruct (Akept e h1 ltac:(by left) Hh1) as (He' & h' & Hh' & (Ek & _)%ident_eq). exists h'. split_and!; [done|done|congruence].
      * cbn. rewrite A4, He1, Hlen. unfold e. lia.
Qed.

Lemma FindTable_ok s tc ids held n x b level : cache_ok s tc ids held -> room tc held b -> in_range n 0 -> texts n = Some x -> describe x = Some b -> tc_options tc = opt ->
  finishes (find_spins P dbname tc n (zlen x) level) (FindTable P dbname tc n (zlen x) level None None) (fun '(st, a, meta, tc') => st = Status_OK /\ meta = None /\ exists a' ids', a = Some a' /\
    cache_ok s tc' ids' (a' :: held) /\ table_handle_of (tc_queue tc') ids' n a' /\ tc_options tc' = opt).
Proof.
  intros Hok Hroom Hn Hx Hd Ho. pose proof Hok as [C1 C2 C3 C4 C5]. pose proof Hroom as [R1 R2 R3]. destruct (described opt name RF describe describe_ok x b Hd) as (Htext & Hbt & _). unfold FindTable, find_spins.
  destruct (step_Lookup P HP tf_tag tf_tag_remove tf_tag_access s (tc_queue tc) ids held (file_key n 0) false C1 ltac:(lia) ltac:(done)) as (r & mq & -> & Hr & Hat & Hev). cbn [mbind option_bind after].
  pose proof (cache_ok_same s tc mq ids held _ Hok Hat Hev) as Hok1. destruct r as [a|].
  - cbn [option_list app] in *. apply finishes_ret. split_and!; [done|done|]. exists a, ids. split_and!; [done|done| |done]. destruct Hr as (Ha & h & Hh & Hk).
    destruct (same_kept s (tc_queue tc) mq ids held _ C1 Hat Hev a h Ha Hh) as (_ & h' & Hh' & (E1 & _)%ident_eq). exists h'. split_and!; [done|done|congruence].
  - cbn [option_list app] in *. unfold open_file. destruct (opens (tc_env tc) n x C3 Hx) as (e & -> & He). cbn [ok Status_OK mbind option_bind block_cache with_queue with_env tc_options].
    rewrite Ho. destruct (Open_ok opt name (b_groups b) (b_results b) (b_filters b) (b_outs b) RF Hbt (block_cache tc) None 0) as (t & ch & E & Hs & Hid); [lia|cbn; by rewrite Hadd|].
    fold (b_text opt b) in E. rewrite Htext in E. rewrite E. cbn [mbind option_bind after]. rewrite (Open_no_charge _ _ _ _ _ _ _ _ _ Hadd E).
    set (tc1 := with_env (with_queue tc mq) e (block_cache tc)). assert (Hok2 : cache_ok s tc1 ids held) by (destruct Hok1; by split).
    eapply finishes_last; [apply (enter_table_ok s tc1 ids held n x b t (replicate (b_regions RF b) 0) level Hok2)|]; try done.
    + destruct Hroom. split; try done. cbn. by rewrite (ev_next _ _ _ Hev).
    + intros p (a & h & Ha & Hh & Hk & _). cbn in Hh. destruct (ev_handle _ _ _ Hev a h Hh) as (h0 & Hh0 & (E1 & _)%ident_eq). apply (Hr a h0 Ha Hh0). congruence.
    + intros [a tc'] (ids' & A1 & A2 & A3 & A4 & A5 & A6). apply finishes_ret. split_and!; [done|done|]. exists a, ids'. split_and!; [done|done|done|]. rewrite A3. exact Ho.
Qed.

(** ** [Get] *)

(** A lookup in the table changes its filters and the block cache. *)
Lemma cache_ok_touch s tc ids held n x b p tf counts t' counts' oc' : cache_ok s tc ids held -> in_range n 0 -> texts n = Some x -> describe x = Some b ->
  entry_at (tc_queue tc) ids (file_key n 0) p -> tables (mem (tc_queue tc)) !! p = Some tf -> tf_file tf = RFile x [] -> b_state b (tf_table tf) counts -> b_state b t' counts' -> grown counts counts' ->
  Table.cache_id t' = Table.cache_id (tf_table tf) -> own_blocks (Table.cache_id (tf_table tf)) (block_cache tc) oc' -> cache_good opt (b_groups b) (Table.cache_id (tf_table tf)) oc' ->
  cache_ok s (with_env (with_queue tc (put_table (tc_queue tc) p (MkTableAndFile (tf_file tf) t'))) (tc_env tc) oc') ids held.
Proof.
  intros [C1 C2 C3 C4 C5] Hn Hx Hd He Ht Hf Hs Hs' Hgr Hid Hown Hgood. destruct (described opt name RF describe describe_ok x b Hd) as (_ & Hbt & _). split; cbn; try done.
  - apply (step_Touch P s _ _ _ p tf); [done|done|by exists x, b, counts'| |].
    + change (getRegionNum (Table.rep t') = getRegionNum (Table.rep (tf_table tf))). by rewrite (proj1 (state_regions opt name RF b t' counts' Hbt Hs')), (proj1 (state_regions opt name RF b _ _ Hbt Hs)).
    + intros r c Hpos. by apply (state_grown opt name RF b (tf_table tf) t' counts counts' r c Hbt Hs Hs' Hgr Hpos).
  - apply (memory_touch (tc_queue tc) (next_table tc) (block_cache tc)); try done. intros y b' Hy Hb'. rewrite Hf in Hy. injection Hy as <-. rewrite Hd in Hb'. by injection Hb' as <-.
Qed.

(** What the lookup in the table returned. *)
Definition read_from (b : built) (oc : option cache) (ro : Table.ReadOptions) (k : bytes) (r : Table.GetResult) : Prop :=
  exists t counts t' oc' ro', b_state b t counts /\ cache_good opt (b_groups b) (Table.cache_id t) oc /\ Table.InternalGet t oc ro k = Some (r, t', oc', ro').

(** The lookup in the table of a handle: the region is named when the index
    reaches the key. *)
Lemma get_reads s tc ids held n x b a ro k : cache_ok s tc ids held -> table_handle_of (tc_queue tc) ids n a -> in_range n 0 -> texts n = Some x -> describe x = Some b -> valid_key k -> Table.file_number ro = n ->
  exists p tf r t' oc' ro', table_of (tc_queue tc) a = Some (p, tf) /\ entry_at (tc_queue tc) ids (file_key n 0) p /\ Table.InternalGet (tf_table tf) (block_cache tc) ro k = Some (r, t', oc', ro') /\
    read_from b (block_cache tc) ro k r /\ own_blocks (Table.cache_id (tf_table tf)) (block_cache tc) oc' /\
    cache_ok s (with_env (with_queue tc (put_table (tc_queue tc) p (MkTableAndFile (tf_file tf) t'))) (tc_env tc) oc') ids held /\
    if reaches opt (b_groups b) k then exists id, 1 <= id <= Z.of_nat (b_regions RF b) /\ Table.region_name r = Some (file_key n id) else Table.region_name r = None.
Proof.
  intros Hok (h & Ha & Hh & Hk) Hn Hx Hd Hvk Hro. pose proof Hok as [C1 C2 C3 C4 C5]. destruct (described opt name RF describe describe_ok x b Hd) as (_ & Hbt & Hsmall). set (p := q_value (data h)).
  assert (He : entry_at (tc_queue tc) ids (file_key n 0) p) by (by exists a, h).
  destruct (entry_table s _ _ _ _ _ n 0 p C1 C2 Hn He) as (tf & y & b' & counts & Ht & Hy & Hd' & Hf & Hs & _). rewrite Hx in Hy. injection Hy as <-. rewrite Hd in Hd'. injection Hd' as <-.
  destruct (mo_tables _ _ _ C2 p tf Ht) as (_ & _ & y & b' & Hfy & Hdy & Hgood). rewrite Hf in Hfy. injection Hfy as <-. rewrite Hd in Hdy. injection Hdy as <-.
  destruct (InternalGet_ok _ _ _ _ _ _ _ Hbt (tf_table tf) counts (block_cache tc) ro k Hs Hgood Hvk Hinit) as (r & t' & counts' & oc' & ro' & Hget & Hs' & Hid & Hgood' & _ & _ & _ & Hgr & Hname).
  destruct (InternalGet_own _ _ _ _ _ _ _ _ Hget) as [_ Hown]. exists p, tf, r, t', oc', ro'. split_and!; try done.
  - unfold table_of, Value. rewrite Hh. cbn [mbind option_bind fmap option_map]. fold p. by rewrite Ht.
  - by exists (tf_table tf), counts, t', oc', ro'.
  - by apply (cache_ok_touch s tc ids held n x b p tf counts t' counts' oc').
  - rewrite Hro in Hname. exact Hname.
Qed.

Lemma get_in_table_ok s tc ids held n x b a ro k : cache_ok s tc ids (a :: held) -> table_handle_of (tc_queue tc) ids n a -> in_range n 0 -> texts n = Some x -> describe x = Some b ->
  valid_key k -> reaches opt (b_groups b) k = true -> Table.file_number ro = n -> zlen held + 2 < 2 ^ 31 ->
  finishes (get_in_table_spins P tc ro a k) (get_in_table P tc ro a k) (fun '(r, tc', ro') => cache_ok s tc' ids held /\ tc_options tc' = tc_options tc /\ next_addr (mem (tc_queue tc')) = next_addr (mem (tc_queue tc)) /\
    (exists id, own_blocks id (block_cache tc) (block_cache tc')) /\ read_from b (block_cache tc) ro k r).
Proof.
  intros Hok Hh Hn Hx Hd Hvk Hsome Hro Hheld. destruct (described opt name RF describe describe_ok x b Hd) as (_ & Hbt & Hsmall).
  destruct (get_reads s tc ids (a :: held) n x b a ro k Hok Hh Hn Hx Hd Hvk Hro) as (p & tf & r & t' & oc' & ro' & Et & He & Hget & Hread & Hown & Hok1 & Hname). rewrite Hsome in Hname. destruct Hname as (id & Hid1 & Hname').
  unfold get_in_table, get_in_table_spins. rewrite Et. cbn [mbind option_bind after]. rewrite Hget. cbn [mbind option_bind after]. rewrite Hname'. cbn [mbind option_bind after].
  set (tc1 := with_env _ _ _) in Hok1. set (mq1 := put_table _ _ _) in *. pose proof Hok1 as [D1 D2 D3 D4 D5]. change (tc_queue tc1) with mq1 in *.
  assert (Hir : in_range n id) by (split; [apply Hn|lia]). assert (Hpos : forall c hc, c ∈ ids -> handle mq1 c = Some hc -> LRU.key hc = file_key n id -> 0 < value_id (data hc)).
  { intros c hc _ Hc Hkc. destruct (mo_handles _ _ _ D2 c hc Hc) as (n' & [N1 N2 _ _]). rewrite N2 in Hkc. apply file_key_inj in Hkc as [_ ->]; [lia|done|done]. }
  destruct (step_Lookup P HP tf_tag tf_tag_remove tf_tag_access s mq1 ids (a :: held) (file_key n id) true D1 ltac:(rewrite zlen_cons; lia) ltac:(done)) as (o & mq2 & -> & Ho & Hat2 & Hev2). cbn [mbind option_bind after].
  destruct (D5 n Hn p x b id He Hx Hd Hid1) as (c & hc & Hc & Hhc & Hkc & _). destruct o as [o|]; [|by destruct (Ho c hc Hc Hhc)]. cbn [option_list app mbind option_bind after] in *.
  eapply finishes_bind; [exact (step_Release P HP tf_tag tf_tag_remove tf_tag_adjust s mq2 ids (a :: held) o Hat2)|]. intros mq3 (Hat3 & Hev3).
  eapply finishes_last; [exact (step_Release P HP tf_tag tf_tag_remove tf_tag_adjust s mq3 ids held a Hat3)|]. intros mq4 (Hat4 & Hev4). apply finishes_ret.
  assert (Hev : evolves (mem mq1) (mem mq4)) by (etrans; [exact Hev2|]; etrans; [exact Hev3|exact Hev4]). pose proof (cache_ok_same s tc1 mq4 ids (a :: held) held Hok1 Hat4 Hev) as Hok4.
  split_and!; [exact Hok4|done|exact (ev_next _ _ _ Hev)|by eexists|done].
Qed.

(** The table is found. *)
Lemma cache_find_ok s tc ids held n x b level : cache_ok s tc ids held -> room tc held b -> in_range n 0 -> texts n = Some x -> describe x = Some b -> set_add_filter (tc_options tc) false = opt ->
  let tc0 := with_options tc (set_add_filter (tc_options tc) false) in
  finishes (find_spins P dbname tc0 n (zlen x) level) (FindTable P dbname tc0 n (zlen x) level None None) (fun '(st, a, meta, tc') => st = Status_OK /\ meta = None /\ exists a' ids', a = Some a' /\
    cache_ok s tc' ids' (a' :: held) /\ table_handle_of (tc_queue tc') ids' n a' /\ tc_options tc' = opt).
Proof. intros [C1 C2 C3 C4 C5] [R1 R2 R3] Hn Hx Hd Ho tc0. by apply (FindTable_ok s tc0 ids held n x b level). Qed.

Lemma cache_Get_ok s tc ids held n x b opts k : cache_ok s tc ids held -> room tc held b -> in_range n 0 -> texts n = Some x -> describe x = Some b -> set_add_filter (tc_options tc) false = opt ->
  valid_key k -> reaches opt (b_groups b) k = true ->
  finishes (get_spins P dbname tc opts n (zlen x) k) (Get P dbname tc opts n (zlen x) k) (fun '(st, found, tc', _) => tc_options tc' = opt /\ (exists ids', cache_ok s tc' ids' held) /\
    exists oc ro r, read_from b oc ro k r /\ st = Table.get_status r /\ found = Table.saved r).
Proof.
  intros Hok Hroom Hn Hx Hd Ho Hk Hsome. unfold Get, get_spins. set (ro := Table.MkReadOptions _ _ n _ _).
  eapply finishes_bind; [exact (cache_find_ok s tc ids held n x b (file_level opts) Hok Hroom Hn Hx Hd Ho)|]. intros [[[st o] meta] tc1] (-> & _ & a & ids1 & -> & Hok1 & Hh1 & Ho1).
  eapply finishes_last; [exact (get_in_table_ok s tc1 ids1 held n x b a ro k Hok1 Hh1 Hn Hx Hd Hk Hsome eq_refl (rm_held _ _ _ Hroom))|]. intros [[r tc2] ro2] (Hok2 & Ho2 & _ & _ & Hread). apply finishes_ret.
  split_and!; [congruence|by exists ids1|]. by exists (block_cache tc1), ro, r.
Qed.

(** Past the index no region is named. *)
Lemma cache_Get_past s tc ids held n x b opts k : cache_ok s tc ids held -> room tc held b -> in_range n 0 -> texts n = Some x -> describe x = Some b -> set_add_filter (tc_options tc) false = opt ->
  valid_key k -> reaches opt (b_groups b) k = false -> Get P dbname tc opts n (zlen x) k = None.
Proof.
  intros Hok Hroom Hn Hx Hd Ho Hk Hpast. unfold Get. set (ro := Table.MkReadOptions _ _ n _ _). pose proof (cache_find_ok s tc ids held n x b (file_level opts) Hok Hroom Hn Hx Hd Ho) as Hf.
  unfold finishes in Hf. destruct (find_spins P dbname (with_options tc (set_add_filter (tc_options tc) false)) n (zlen x) (file_level opts)); [by rewrite Hf|]. destruct Hf as ([[[st o] meta] tc1] & -> & -> & _ & a & ids1 & -> & Hok1 & Hh1 & _). cbn [mbind option_bind].
  destruct (get_reads s tc1 ids1 (a :: held) n x b a ro k Hok1 Hh1 Hn Hx Hd Hk eq_refl) as (p & tf & r & t' & oc' & ro' & Et & _ & Hget & _ & _ & _ & Hname). rewrite Hpast in Hname.
  unfold get_in_table. rewrite Et. cbn [mbind option_bind]. rewrite Hget. cbn [mbind option_bind]. by rewrite Hname.
Qed.

(** ** [Evict] *)

Lemma erase_entry s mq ids held next oc n i : at_state P s mq ids held -> memory_ok (mem mq) next oc -> rooted mq ids -> in_range n i ->
  (i = 0 -> forall j p, in_range n j -> entry_at mq ids (file_key n j) p -> j = 0) ->
  exists mq' ids', Erase P mq (file_key n i) = Some mq' /\ at_state P s mq' ids' held /\ memory_ok (mem mq') next oc /\
    forall k q, entry_at mq' ids' k q <-> entry_at mq ids k q /\ k <> file_key n i.
Proof.
  intros Hat Hmem Hroot Hn Hlast. pose proof Hat as [_ Hm]. destruct (mk_unique _ _ _ _ (mk_books _ _ _ _ Hm)) as [Hnd Huniq].
  assert (He : erasable mq ids (file_key n i)).
  { intros a h b hb Ha Hh Hk Hz Hb Hhb Ev. destruct (mo_handles _ _ _ Hmem a h Hh) as (n1 & [N1 N2 _ _]). rewrite Hz in N1, N2. rewrite N2 in Hk. apply file_key_inj in Hk as [-> <-]; [|done|done].
    destruct (mo_handles _ _ _ Hmem b hb Hhb) as (n2 & [O1 O2 _ _]). assert (Hb0 : entry_at mq ids (file_key n2 0) (q_value (data h))) by (apply (Hroot n2 (value_id (data hb))); [done|]; by exists b, hb).
    assert (n2 = n) as -> by (apply (entry_file s mq ids held next oc n2 n (q_value (data h))); [done|done|split; [apply O1|lia]|done|done|by exists a, h]).
    assert (Ez : value_id (data hb) = 0) by (apply (Hlast eq_refl _ (q_value (data h)) O1); by exists b, hb). apply (Huniq b a hb h); [done|done|done|done|]. by rewrite O2, N2, Ez. }
  destruct (step_Erase P HP tf_tag tf_tag_remove tf_tag_adjust s mq ids held (file_key n i) Hat He) as (mq' & ids' & Ee & Hat' & Hev & Hcase). exists mq', ids'. split_and!; [done|done|by eapply memory_evolves|].
  intros k q. destruct Hcase as [[-> Hno]|(a0 & h0 & Hperm & Hh0 & Hk0)].
  - rewrite (entry_same s mq mq' ids held held k q Hat Hat' Hev). split; [|by intros [? _]]. intros Hq. split; [done|]. intros ->. destruct Hq as (a & h & Ha & Hh & Hk & _). by apply (Hno a h).
  - pose proof Hat' as [_ Hm']. rewrite Hperm in Hnd. apply NoDup_cons in Hnd as [Hout _]. split.
    + intros (a & h' & Ha & Hh' & Hk & Hq). destruct (ev_handle _ _ _ Hev a h' Hh') as (h & Hh & (E1 & E2 & _)%ident_eq). assert (Hin : a ∈ ids) by (rewrite Hperm; by right). split; [exists a, h; split_and!; [done|done|congruence|congruence]|].
      intros ->. apply Hout. assert (a0 = a) as ->; [|done]. apply (Huniq a0 a h0 h); [rewrite Hperm; by left|done|done|done|congruence].
    + intros [(a & h & Ha & Hh & Hk & Hq) Hne]. rewrite Hperm in Ha. apply elem_of_cons in Ha as [->|Ha]; [rewrite Hh in Hh0; injection Hh0 as ->; congruence|].
      destruct (ids_handle P mq' ids' held a (mk_books _ _ _ _ Hm') Ha) as (h' & Hh' & _). destruct (ev_handle _ _ _ Hev a h' Hh') as (h1 & Hh1 & (E1 & E2 & _)%ident_eq). change (handle mq a = Some h1) in Hh1.
      rewrite Hh in Hh1. injection Hh1 as <-. exists a, h'. split_and!; [done|done|congruence|congruence].
Qed.

Lemma erase_regions_ok s n count : forall mq ids held next oc id, at_state P s mq ids held -> memory_ok (mem mq) next oc -> rooted mq ids -> in_range n 0 -> 1 <= id -> id + Z.of_nat count < 2 ^ 32 ->
  exists mq' ids', erase_regions P mq n id count = Some mq' /\ at_state P s mq' ids' held /\ memory_ok (mem mq') next oc /\ rooted mq' ids' /\
    forall k q, entry_at mq' ids' k q <-> entry_at mq ids k q /\ forall j, id <= j < id + Z.of_nat count -> k <> file_key n j.
Proof.
  induction count as [|count IH]; intros mq ids held next oc id Hat Hmem Hroot Hn Hid Hmax; cbn [erase_regions].
  { exists mq, ids. split_and!; try done. intros k q. split; [|by intros [? _]]. intros Hq. split; [done|lia]. }
  destruct (erase_entry s mq ids held next oc n id Hat Hmem Hroot ltac:(split; [apply Hn|lia]) ltac:(lia)) as (mq1 & ids1 & -> & Hat1 & Hmem1 & Hent1). cbn [mbind option_bind].
  assert (Hroot1 : rooted mq1 ids1).
  { intros m j q Hj [Hq _]%Hent1. apply Hent1. split; [by apply (Hroot m j)|]. intros [_ E]%file_key_inj; [lia|split; [apply Hj|lia]|split; [apply Hn|lia]]. }
  destruct (IH mq1 ids1 held next oc (id + 1) Hat1 Hmem1 Hroot1 Hn ltac:(lia) ltac:(lia)) as (mq' & ids' & -> & Hat' & Hmem' & Hroot' & Hent'). exists mq', ids'. split_and!; try done.
  intros k q. rewrite Hent', Hent1. split.
  - intros [[Hq Hne] Hall]. split; [done|]. intros j Hj. destruct (decide (j = id)) as [->|]; [done|]. apply Hall. lia.
  - intros [Hq Hall]. split; [split; [done|apply Hall; lia]|]. intros j Hj. apply Hall. lia.
Qed.

(** The regions of an entry are those of its file. *)
Lemma entry_region s mq ids held next oc n i p b x : at_state P s mq ids held -> memory_ok (mem mq) next oc -> in_range n i -> entry_at mq ids (file_key n i) p -> texts n = Some x -> describe x = Some b -> i <= Z.of_nat (b_regions RF b).
Proof.
  intros Hat Hmem Hr He Hx Hd. destruct (entry_table s mq ids held next oc n i p Hat Hmem Hr He) as (tf & y & b' & counts & Ht & Hy & Hd' & _ & _ & _ & Hreg). rewrite Hx in Hy. injection Hy as <-. rewrite Hd in Hd'. injection Hd' as <-.
  destruct He as (a & h & Ha & Hh & Hk & Hp). destruct (mo_handles _ _ _ Hmem a h Hh) as (n' & [N1 N2 _ _]). rewrite N2 in Hk. apply file_key_inj in Hk as [_ Ei]; [|done|done].
  pose proof (cached_region P mq ids held a h tf (as_ok _ _ _ _ _ Hat) Ha Hh) as Hle. rewrite Hp, Ei in Hle. specialize (Hle Ht). cbn [rt_regions laws file_laws] in Hle. lia.
Qed.

Lemma Evict_ok s tc ids held n : cache_ok s tc ids held -> in_range n 0 -> zlen held + 1 < 2 ^ 31 ->
  finishes (evict_spins P tc n) (Evict P tc n) (fun tc' => tc_options tc' = tc_options tc /\ exists ids', cache_ok s tc' ids' held /\
    forall k q, entry_at (tc_queue tc') ids' k q <-> entry_at (tc_queue tc) ids k q /\ forall j, in_range n j -> k <> file_key n j).
Proof.
  intros Hok Hn Hheld. pose proof Hok as [C1 C2 C3 C4 C5]. unfold Evict, evict_spins.
  destruct (step_Lookup P HP tf_tag tf_tag_remove tf_tag_access s (tc_queue tc) ids held (file_key n 0) false C1 ltac:(lia) ltac:(done)) as (r & mq & -> & Hr & Hat & Hev). cbn [mbind option_bind after].
  pose proof (cache_ok_same s tc mq ids held _ Hok Hat Hev) as Hok1. pose proof (fun k q => entry_same s (tc_queue tc) mq ids held _ k q C1 Hat Hev) as Hent. destruct r as [a|]; cbn [option_list app] in *.
  - destruct Hr as (Ha & h0 & Hh0 & Hk0). destruct (same_kept s (tc_queue tc) mq ids held _ C1 Hat Hev a h0 Ha Hh0) as (_ & h & Hh & (Ek & _)%ident_eq). rewrite Hk0 in Ek. pose proof Hok1 as [D1 D2 D3 D4 D5]. cbn [tc_queue with_queue] in *.
    assert (He : entry_at mq ids (file_key n 0) (q_value (data h))) by (by exists a, h). destruct (entry_table s mq ids _ _ _ n 0 _ D1 D2 Hn He) as (tf & x & b & counts & Ht & Hx & Hd & Hf & Hs & _ & Hreg).
    destruct (described opt name RF describe describe_ok x b Hd) as (_ & _ & Hsmall). unfold table_of, Value. rewrite Hh. cbn [mbind option_bind fmap option_map]. rewrite Ht. cbn [mbind option_bind]. rewrite Hreg, Nat2Z.id.
    eapply finishes_last; [exact (step_Release P HP tf_tag tf_tag_remove tf_tag_adjust s mq ids held a Hat)|]. intros mq1 (Hat1 & Hev1). pose proof (cache_ok_same s _ mq1 ids _ held Hok1 Hat1 Hev1) as [E1 E2 E3 E4 E5]. cbn [tc_queue with_queue next_table block_cache] in *.
    pose proof (fun k q => entry_same s mq mq1 ids _ held k q Hat Hat1 Hev1) as Hent1.
    destruct (erase_regions_ok s n (b_regions RF b) mq1 ids held _ _ 1 E1 E2 E4 Hn ltac:(lia) ltac:(lia)) as (mq2 & ids2 & -> & Hat2 & Hmem2 & Hroot2 & Hent2). cbn [mbind option_bind].
    destruct (erase_entry s mq2 ids2 held _ _ n 0 Hat2 Hmem2 Hroot2 Hn) as (mq3 & ids3 & -> & Hat3 & Hmem3 & Hent3).
    { intros _ j p Hj [Hq Hne]%Hent2. pose proof (entry_region s mq1 ids held _ _ n j p b x E1 E2 Hj Hq Hx Hd). destruct (decide (j = 0)); [done|]. destruct (Hne j); [|done]. destruct Hj. lia. }
    cbn [mbind option_bind]. apply finishes_ret. split; [done|]. exists ids3. cbn [tc_queue with_queue].
    assert (Hall : forall k q, entry_at mq3 ids3 k q <-> entry_at (tc_queue tc) ids k q /\ forall j, in_range n j -> k <> file_key n j).
    { intros k q. rewrite Hent3, Hent2, Hent1, Hent. split.
      - intros [[Hq Hne] Hne0]. split; [done|]. intros j Hj ->. destruct (decide (j = 0)) as [->|]; [done|]. apply (Hne j); [|done]. pose proof (entry_region s (tc_queue tc) ids held _ _ n j q b x C1 C2 Hj Hq Hx Hd). destruct Hj. lia.
      - intros [Hq Hne]. split; [split; [done|]|by apply Hne]. intros j Hj. apply Hne. split; [apply Hn|lia]. }
    split; [|done]. split; cbn [tc_queue with_queue next_table block_cache tc_env]; try done.
    + intros m i q Hi [Hq Hne]%Hall. apply Hall. split; [by apply (C4 m i)|]. intros j Hj [-> _]%file_key_inj; [by apply (Hne i)|split; [apply Hi|lia]|done].
    + intros m Hm q y b' i [Hq Hne]%Hall Hy Hb' Hi. apply Hall. split; [by apply (C5 m Hm q y b' i)|]. intros j Hj E. destruct (described opt name RF describe describe_ok y b' Hb') as (_ & _ & Hs'). apply file_key_inj in E as [-> _]; [by apply (Hne 0)|split; [apply Hm|lia]|done].
  - apply finishes_ret. split; [done|]. exists ids. split; [done|]. intros k q. cbn [tc_queue with_queue]. rewrite Hent. split; [|by intros [? _]]. intros Hq. split; [done|]. intros j Hj ->.
    destruct (C4 n j q Hj Hq) as (a & h & Ha & Hh & Hk & _). by apply (Hr a h).
Qed.
End Lookups.
