(* ===== verification/CachedGet.v ===== *)
(** * CachedGet: the answers of the table cache

    A table cache that was created empty, and then looked up, evicted, ticked and
    told frequencies in any order: [TableCache::Get] still answers with the newest
    visible entry of the file, unless the key is past the table's index or one of
    its calls on the multi queue spins. *)
From stdpp Require Import gmap.
From Stdlib Require Import SpecFloat.
From S2P Require Import Prelude Coding Crc32c Status Bloom Comparator DbFormat Filename TableFormat Block Iterators TwoLevel FilterBlock TableFilters TableBuilder Table TableOpen TableIndex TableGet TableLookup TableIter.
From S2P Require Import Hash Cache ShardedCache VersionGet MultiQueue QueueLists QueueInvariant QueueClient QueueHistory QueueFrame QueueTables QueueSteps TableCaching CachedTables CachedLookup.

Section Answers.
Context `{!Crc32c, !Snappy} {BC : BlockCache} {BL : BlockCacheLaws BC} {BI : BlockCacheIds BC} {TF : TableFiles}.
Context (bits : list Z) (bpk : Z) {PL : FilterPolicyLaws (InternalPolicy bits bpk)}.
#[local] Existing Instance db_comparator.
#[local] Instance db_laws : ComparatorLaws db_comparator := InternalLaws.
#[local] Instance db_policy : FilterPolicy := InternalPolicy bits bpk.

Context (P : Params) (HP : params_ok P) (HM : params_match P) (Hcap : 0 < capacity_ P) (dbname : bytes).
Context (opt : Options) (name : bytes) (RF : Z) (describe : bytes -> option built).
Context (describe_ok : forall x b, describe x = Some b -> b_text opt b = x /\ built_table opt name (b_groups b) (b_results b) (b_filters b) (b_outs b) RF).
Context (texts : Z -> option bytes) (env_ok : tf_env -> Prop).
Context (opens : forall e n x, env_ok e -> texts n = Some x -> exists e', tf_New e (TableFileName dbname n) = (Status_OK, RFile x [], e') /\ env_ok e').
Context (Hadd : add_filter opt = false) (Hinit : 0 <= init_filter_nums opt).
#[local] Instance cached_laws : RegionTableLaws TableAndFile file_regions P := file_laws P HP HM opt name RF describe describe_ok.

(** The file [n] has the text [x], the table built from [b]. *)
Definition serves (n : Z) (x : bytes) (b : built) : Prop := 0 <= n < 2 ^ 64 /\ texts n = Some x /\ describe x = Some b.

(** What is done with a cache between lookups; handles are given back. *)
Inductive used (tc0 : TableCaches) : TableCaches -> Prop :=
| used_new : used tc0 tc0
| used_get tc opts n x b k r tc' opts' : used tc0 tc -> serves n x b -> room RF tc [] b -> valid_key k -> Get P dbname tc opts n (zlen x) k = Some (r, tc', opts') -> used tc0 tc'
| used_evict tc n tc' : used tc0 tc -> 0 <= n < 2 ^ 64 -> Evict P tc n = Some tc' -> used tc0 tc'
| used_tick tc : used tc0 tc -> used tc0 (with_queue tc (addCurrentTime (tc_queue tc)))
| used_level0 tc n tc' : used tc0 tc -> SaveLevel0Freq tc n = Some tc' -> used tc0 tc'.

Abbreviation cache_ok := (CachedLookup.cache_ok P HP HM opt name RF describe describe_ok texts env_ok).
Abbreviation start tc0 := (tc_queue tc0, @nil nat).

Lemma table_range n : 0 <= n < 2 ^ 64 -> in_range n 0.
Proof. intros Hn. split; [done|lia]. Qed.

Lemma finished {B} sp (r : option B) (Q : B -> Prop) b : finishes sp r Q -> r = Some b -> Q b.
Proof. destruct sp; [by intros ->|]. intros (b' & -> & Hq). by intros [= <-]. Qed.

Lemma new_cache_ok o e oc init garbage tc0 : TableCache_new P o e oc init garbage = Some tc0 -> env_ok e -> ids_given oc -> cache_ok (start tc0) tc0 [] [].
Proof.
  unfold TableCache_new. intros (mq & Hnew & [= <-])%bind_Some He Hg. destruct (new_ok P HP init garbage) as (mq' & E & Hm). rewrite Hnew in E. injection E as <-.
  assert (Hnone : forall k p, ~ entry_at mq [] k p) by (intros k p (a & h & Ha & _); by apply elem_of_nil in Ha).
  unfold MultiQueue_new in Hnew. apply bind_Some in Hnew as (t & _ & [= <-]). split; cbn; [by apply step_init| |done|by intros n i p _ []%Hnone|by intros n _ p x b i []%Hnone].
  split; [by intros a h Hh|by intros p tf Ht|by intros p q tf tg i _ Ht|done].
Qed.

Lemma used_ok tc0 tc : used tc0 tc -> set_add_filter (tc_options tc0) false = opt -> cache_ok (start tc0) tc0 [] [] ->
  set_add_filter (tc_options tc) false = opt /\ exists ids, cache_ok (start tc0) tc ids [].
Proof.
  intros Hu Ho Hnew. assert (Hopt : forall o, o = opt -> set_add_filter o false = opt) by (intros o ->; clear - Hadd; destruct opt; cbn in *; by subst). induction Hu as [|tc opts n x b k [st found] tc' opts' _ IH (Hn & Hx & Hd) Hroom Hk Hget|tc n tc' _ IH Hn He|tc _ IH|tc n tc' _ IH Hs].
  - split; [done|]. by exists [].
  - destruct IH as (Ho1 & ids & Hok). destruct (reaches opt (b_groups b) k) eqn:Hr.
    + apply (finished _ _ _ _ (cache_Get_ok P HP HM Hcap dbname opt name RF describe describe_ok texts env_ok opens Hadd Hinit (start tc0) tc ids [] n x b opts k Hok Hroom (table_range n Hn) Hx Hd Ho1 Hk Hr)) in Hget as (Ho2 & Hok2 & _).
      split; [by apply Hopt|done].
    + pose proof (cache_Get_past P HP HM Hcap dbname opt name RF describe describe_ok texts env_ok opens Hadd Hinit (start tc0) tc ids [] n x b opts k Hok Hroom (table_range n Hn) Hx Hd Ho1 Hk Hr). congruence.
  - destruct IH as (Ho1 & ids & Hok). apply (finished _ _ _ _ (Evict_ok P HP HM opt name RF describe describe_ok texts env_ok (start tc0) tc ids [] n Hok (table_range n Hn) ltac:(done))) in He as (Ho2 & ids' & Hok2 & _).
    split; [by rewrite Ho2|by exists ids'].
  - destruct IH as (Ho1 & ids & [C1 C2 C3 C4 C5]). split; [done|]. exists ids. split; cbn; try done. by apply step_Tick.
  - destruct IH as (Ho1 & ids & [C1 C2 C3 C4 C5]). unfold SaveLevel0Freq in Hs. apply bind_Some in Hs as (f & _ & [= <-]). split; [done|]. exists ids. by split.
Qed.

(** What was read from the table. *)
Lemma read_visible b oc ro u s r : built_table opt name (b_groups b) (b_results b) (b_filters b) (b_outs b) RF -> read_from opt RF b oc ro (LookupKey.internal_key (LookupKey.make u s)) r -> bytes_ok u -> seq_ok s ->
  Table.get_status r = Status_OK /\ (forall kv, Table.saved r = Some kv -> kv ∈ concat (b_groups b)) /\ of_user u (Table.saved r) = visible u s (concat (b_groups b)).
Proof.
  intros Hbt (t & counts & t' & oc' & ro' & Hs & Hg & Hget) Hu Hseq.
  destruct (lookup_visible bits bpk opt name _ _ _ _ RF t counts oc ro u s Hbt Hinit Hs Hg Hu Hseq) as (r1 & t1 & oc1 & ro1 & Hget1 & Hst & Hv).
  destruct (InternalGet_ok _ _ _ _ _ _ _ Hbt t counts oc ro _ Hs Hg (target_valid u s Hu) Hinit) as (r2 & t2 & c2 & oc2 & ro2 & Hget2 & _ & _ & _ & _ & Hsaved & _).
  pose proof (eq_trans (eq_sym Hget) Hget1) as E1. injection E1 as <- _ _ _. pose proof (eq_trans (eq_sym Hget) Hget2) as E2. injection E2 as <- _ _ _. split_and!; [done| |done]. intros kv Hkv. destruct Hsaved as [E|E]; rewrite E in Hkv; [done|]. by eapply list_elem_of_lookup_2.
Qed.

(** C5. The table cache answers from the file.  Let [Env] open the files, each
    with the text of a built table.  Create a table cache of positive capacity and
    use it in any way ([Get], [Evict], the clock, level 0 frequencies; every handle is
    given back and there are addresses and ids left, [room]), then look up a user
    key at a snapshot in a file.  If the key is past every key of the file's index
    block, the call has no defined result: it goes on with a region name that was
    never written.  Otherwise, if one of the calls it makes on the multi queue
    spins in the state it is made in ([get_spins]), the call does not end.  In all
    other cases [Get] returns OK and passes on the newest entry of the user key at
    the snapshot, or none of the user key when there is none, whether the table was
    cached, has been evicted and is opened again, or has had filters moved to other
    tables, and whatever blocks of other tables the block cache holds; and the
    multi queue has only been called in ways it allows. *)
Theorem cached_get_newest o e oc init garbage tc0 tc opts n x b u s :
  TableCache_new P o e oc init garbage = Some tc0 -> set_add_filter o false = opt -> env_ok e -> ids_given oc -> used tc0 tc ->
  serves n x b -> room RF tc [] b -> bytes_ok u -> seq_ok s ->
  let k := LookupKey.internal_key (LookupKey.make u s) in
  let r := Get P dbname tc opts n (zlen x) k in
  if negb (reaches opt (b_groups b) k) then r = None
  else if get_spins P dbname tc opts n (zlen x) k then r = None
  else exists found tc' opts', r = Some (Status_OK, found, tc', opts') /\
    (forall kv, found = Some kv -> kv ∈ concat (b_groups b)) /\ of_user u found = visible u s (concat (b_groups b)) /\ queue_reachable P (start tc').
Proof.
  intros Hnew Ho He Hg Hu (Hn & Hx & Hd) Hroom Hbu Hs k r. pose proof (new_cache_ok o e oc init garbage tc0 Hnew He Hg) as Hok0. pose proof (target_valid u s Hbu) as Hk.
  unfold TableCache_new in Hnew. apply bind_Some in Hnew as (mq & Hmq & [= Etc]). assert (Eo : tc_options tc0 = o) by (by rewrite <- Etc).
  destruct (used_ok tc0 tc Hu ltac:(by rewrite Eo) Hok0) as (Ho1 & ids & Hok). destruct (describe_ok x b Hd) as [_ Hbt]. destruct (reaches opt (b_groups b) k) eqn:Hr; cbn [negb].
  - pose proof (cache_Get_ok P HP HM Hcap dbname opt name RF describe describe_ok texts env_ok opens Hadd Hinit (start tc0) tc ids [] n x b opts k Hok Hroom (table_range n Hn) Hx Hd Ho1 Hk Hr) as Hf.
    unfold finishes in Hf. destruct (get_spins P dbname tc opts n (zlen x) k); [done|]. destruct Hf as ([[[st found] tc'] opts'] & Hf & _ & (ids' & [[Hsteps _] _ _ _ _]) & oc1 & ro & r1 & Hread & -> & ->).
    destruct (read_visible b oc1 ro u s r1 Hbt Hread Hbu Hs) as (Est & Hin & Hv). rewrite Est in Hf. exists (Table.saved r1), tc', opts'. split_and!; [done|done|done|].
    apply (steps_reachable P (start tc0)); [done|]. rewrite <- Etc. by apply (qr_new P init garbage).
  - by apply (cache_Get_past P HP HM Hcap dbname opt name RF describe describe_ok texts env_ok opens Hadd Hinit (start tc0) tc ids [] n x b opts k Hok Hroom (table_range n Hn) Hx Hd Ho1 Hk Hr).
Qed.
End Answers.

(** ** The table of TableLookup.v behind the cache *)

Module CachedRuns.
Import TableBuilder.
#[local] Existing Instances db_comparator example_filters example_crc Sharded.lru_block_cache Sharded.lru_block_cache_laws lru_block_ids.

Definition params : Params :=
  default (MkParams 0 0 0 (S754_zero false) [] [] [] 0)
    (MultiQueue_params Counts.rate FilterBlock.bits_per_key_per_filter_ 60 (Z.of_nat filterNums + 1) 50 (S754_zero false) 0).

Lemma cached_params_good : params_ok params /\ params_match params /\ capacity_ params = 60.
Proof.
  apply (constructor_params Counts.rate 60 50 (S754_zero false) 0); [done|split; vm_compute; congruence| |by vm_compute].
  apply (bool_decide_unpack _). by vm_compute.
Qed.

Definition dbname : bytes := str "db".
Definition options : Options := set_add_filter example_options false.

#[local] Instance one_file : TableFiles := {|
  tf_env := unit;
  tf_New e f := if bool_decide (f = TableFileName dbname 9) then (Status_OK, RFile example_text [], e) else (NotFound [] [], RFile [] [], e);
  tf_Buffered e f := (NotFound [] [], RFile [] [], e)
|}.

Definition read (tc : TableCaches) (u : bytes) (s : Z) : option (Status * option (bytes * bytes) * TableCaches * GetOptions) :=
  Get params dbname tc (MkGetOptions (Table.MkReadOptions true true 0 0 0) 1 0) 9 (zlen example_text) (LookupKey.internal_key (LookupKey.make u s)).

Definition found_in (r : option (Status * option (bytes * bytes) * TableCaches * GetOptions)) : option (bytes * bytes) := '(_, found, _, _) ← r; found.

(** A lookup, an eviction, another lookup that opens the file again, the clock. *)
Abbreviation created := (TableCache_new params example_options tt (Some example_cache) true 0).
Definition look (u : bytes) (s : Z) (tc : TableCaches) : option TableCaches := '(_, tc, _) ← read tc u s; Some tc.
Definition tick (tc : TableCaches) : TableCaches := with_queue tc (addCurrentTime (tc_queue tc)).
Abbreviation evicted := (tc ← created; tc ← look [98; 98; 98] 9 tc; Evict params tc 9).
Abbreviation history := (tc ← evicted; tc ← look [97] 9 tc; Some (tick tc)).

Lemma look_inv u s tc tc' : look u s tc = Some tc' -> exists r o, read tc u s = Some (r, tc', o).
Proof. unfold look. intros ([[r tc1] o] & E & [= ->])%bind_Some. by exists r, o. Qed.

(** The addresses and the ids that were given out. *)
Definition given (tc : TableCaches) : nat * option Z := (next_addr (mem (tc_queue tc)), counter (block_cache tc)).

Lemma given_out : given <$> created = Some (0%nat, Some 1) /\ given <$> evicted = Some (2%nat, Some 2) /\ given <$> history = Some (4%nat, Some 3).
Proof. split_and!; vm_compute; reflexivity. Qed.

Lemma room_given tc b o n i : o = Some tc -> given <$> o = Some (n, Some i) -> (n <= 4)%nat -> i <= 3 -> Z.of_nat (b_regions 1 b) < 2 ^ 27 -> room 1 tc [] b.
Proof. intros -> [= <- Hi] Hn Hle Hr. split; [lia|done|]. intros j Hj. rewrite Hj in Hi. injection Hi as ->. lia. Qed.

Lemma example_files_built : exists b, b_text options b = example_text /\ built_table options (str "bloom") (b_groups b) (b_results b) (b_filters b) (b_outs b) 1 /\ concat (b_groups b) = example_kvs.
Proof.
  assert (Ho : table_options options (str "bloom") 1) by (split; try done; try (vm_compute; repeat split; (discriminate || lia)); split; [by_decide|reflexivity]).
  destruct (built_and_used (L := InternalLaws) (PL := example_filter_laws) options (str "bloom") 1 example_kvs Ho example_entries_ok) as (r & groups & results & fb & outs & Hb & Hcat & Hfile & _ & Huse).
  assert (Ht : table_text options groups results (Some fb) = example_text).
  { replace (table_text options groups results (Some fb)) with (text_of (Some (Status_OK, r))) by (simpl; by rewrite Hfile). rewrite <- Hb. vm_compute. reflexivity. }
  exists (MkBuilt groups results fb outs). split_and!; [done| |done]. apply Huse. change (zlen (table_text options groups results (Some fb)) < 2 ^ 27). rewrite Ht. vm_compute. reflexivity.
Qed.

Lemma example_ids_given : ids_given (Some example_cache).
Proof. intros c i [= <-] [= <-]. split; [by vm_compute|]. intros key b Hm. by destruct (example_shards_empty key b). Qed.

Lemma cached_get_newest_witness : exists tc, history = Some tc /\ is_Some (read tc [97] 4) /\ of_user [97] (found_in (read tc [97] 4)) = Some (example_key [97] 3, [2]).
Proof.
  destruct example_files_built as (b & Htext & Hbt & Hcat). destruct cached_params_good as (HP & HM & Hcap).
  set (describe x := if bool_decide (x = example_text) then Some b else None). set (texts n := if bool_decide (n = 9) then Some example_text else None).
  assert (Hdesc : forall x b', describe x = Some b' -> b_text options b' = x /\ built_table options (str "bloom") (b_groups b') (b_results b') (b_filters b') (b_outs b') 1) by (intros x b'; unfold describe; case_bool_decide as E; [|done]; by intros [= <-]; subst).
  assert (Hopens : forall (e : tf_env) n x, True -> texts n = Some x -> exists e', tf_New e (TableFileName dbname n) = (Status_OK, RFile x [], e') /\ True).
  { intros e n x _. unfold texts. case_bool_decide as E; [|done]. intros [= <-]. subst n. exists e. split; [|done]. cbn. by rewrite bool_decide_true. }
  assert (Hserves : serves describe texts 9 example_text b) by (split; [done|split; [done|unfold describe; by rewrite bool_decide_true]]).
  assert (Hreach : forall u s, bool_decide (Compare (example_key [100; 1; 1; 9] 7) (LookupKey.internal_key (LookupKey.make u s)) < 0) = false -> bytes_ok u -> reaches options (b_groups b) (LookupKey.internal_key (LookupKey.make u s)) = true).
  { intros u s Hc%bool_decide_eq_false Hu. apply (reaches_entry options (str "bloom") (b_groups b) (b_results b) (b_filters b) (b_outs b) 1 Hbt _ (example_key [100; 1; 1; 9] 7, [4; 4; 6])); [by apply target_valid| |done]. rewrite Hcat. apply (bool_decide_unpack _). vm_compute. exact I. }
  pose proof (regions_small options (str "bloom") 1 b Hbt) as Hreg. destruct given_out as (G0 & G1 & G2).
  pose proof G2 as Hh. apply fmap_Some in Hh as (tc & Etc & _). exists tc. split; [done|].
  pose proof Etc as E. apply bind_Some in E as (tc2 & E2 & E). apply bind_Some in E as (tc3 & (r3 & o3 & E3)%look_inv & E). injection E as <-.
  pose proof E2 as E2'. apply bind_Some in E2' as (tc0 & E0 & E2'). apply bind_Some in E2' as (tc1 & (r1 & o1 & E1)%look_inv & Ee).
  assert (Hused : used [4; 8; 8; 0] 20 params dbname 1 describe texts tc0 (tick tc3)).
  { assert (Hu : bytes_ok [98; 98; 98] /\ bytes_ok [97]) by (split_and!; by_decide). destruct Hu as [Hu1 Hu2]. apply used_tick. refine (used_get _ _ _ _ _ _ _ _ tc2 _ 9 example_text b _ _ _ _ _ Hserves _ (target_valid [97] 9 Hu2) E3).
    - refine (used_evict _ _ _ _ _ _ _ _ tc1 9 tc2 _ ltac:(lia) Ee). refine (used_get _ _ _ _ _ _ _ _ tc0 _ 9 example_text b _ _ _ _ (used_new _ _ _ _ _ _ _ _) Hserves _ (target_valid [98; 98; 98] 9 Hu1) E1). exact (room_given tc0 b created _ _ E0 G0 ltac:(lia) ltac:(lia) Hreg).
    - exact (room_given tc2 b evicted _ _ E2 G1 ltac:(lia) ltac:(lia) Hreg). }
  assert (Hroom : room 1 (tick tc3) [] b) by (exact (room_given _ b history _ _ Etc G2 ltac:(lia) ltac:(lia) Hreg)).
  pose proof (cached_get_newest [4; 8; 8; 0] 20 (PL := example_filter_laws) params HP HM ltac:(by rewrite Hcap) dbname options (str "bloom") 1 describe Hdesc texts (fun _ => True) Hopens eq_refl ltac:(done)
    example_options tt (Some example_cache) true 0 tc0 _ (MkGetOptions (Table.MkReadOptions true true 0 0 0) 1 0) 9 example_text b [97] 4 E0 eq_refl I example_ids_given Hused Hserves Hroom
    ltac:(by_decide) ltac:(split; vm_compute; discriminate)) as Hget. cbv zeta in Hget. rewrite (Hreach [97] 4 ltac:(vm_compute; reflexivity) ltac:(by_decide)) in Hget. cbn [negb] in Hget.
  assert (Hspin : (match history with Some tc => get_spins params dbname tc (MkGetOptions (Table.MkReadOptions true true 0 0 0) 1 0) 9 (zlen example_text) (LookupKey.internal_key (LookupKey.make [97] 4)) | None => true end) = false) by (vm_compute; reflexivity).
  rewrite Etc in Hspin. lazymatch type of Hget with if ?sp then _ else _ => assert (Hs : sp = false) by (exact Hspin) end. rewrite Hs in Hget. destruct Hget as (found & tc' & opts' & Hget & _ & Hv & _).
  change (read (tick tc3) [97] 4 = Some (Status_OK, found, tc', opts')) in Hget. rewrite Hget. split; [by eexists|]. change (of_user [97] found = Some (example_key [97] 3, [2])). rewrite Hv, Hcat. vm_compute. reflexivity.
Defined.

(** After a key past all entries [InternalGet] leaves the name of the region
    unwritten, and [Get] goes on with it. *)
Definition unnamed (t : Table.Table) (oc : option cache) : bool :=
  match Table.InternalGet t oc (Table.MkReadOptions true true 9 0 0) (LookupKey.internal_key (LookupKey.make [101] 9)) with
  | Some (r, _, _, _) => bool_decide (Table.get_status r = Status_OK /\ Table.region_name r = None)
  | None => false
  end.

Lemma get_past_end_unnamed :
  (tc ← history; Some (match read tc [101] 9 with Some _ => true | None => false end)) = Some false /\
  ('(t, oc) ← example_opened; Some (unnamed t oc)) = Some true.
Proof. split; vm_compute; reflexivity. Qed.
End CachedRuns.
